(* ===== verification/_CoqProject ===== *)
-Q . S2P
Prelude.v
Intset.v
Util.v
Glob.v
Listpack.v
ListpackSpec.v
ListpackNav.v
ListpackValid.v
ListpackUpd.v
Dict.v
DictSpec.v
DictMap.v
DictRefine.v
DictScan.v
DictIter.v
Bits.v
BitsSpec.v
BitfieldSpec.v
Bitops.v
BitopSpec.v
BitStrings.v
BitopRefine.v
BitopsSpec.v
BitposSpec.v
BitfieldRun.v
BitThms.v
Crc.v
CrcSpec.v
CrcTables.v
CrcCombine.v
CrcSpeed.v
Slots.v
SlotsSpec.v
CrcThms.v
Hll.v
HllDense.v
HllVec.v
HllRegs.v
HllSparse.v
HllSet.v
HllAdd.v
HllCmd.v
HllSpec.v
HllThms.v
Lzf.v
Kvstore.v
KvstoreIndex.v
KvstoreSpec.v
KvstoreRefine.v
KvstoreScan.v
Zskiplist.v
ZskiplistSpec.v
ZskiplistOps.v
ZskiplistApi.v
ZskiplistRange.v
ZskiplistRangeSpec.v
Zset.v
ZsetSpec.v
ZsetRefine.v
ZsetThms.v
Double.v
Zzl.v
Zobj.v
ZzlSpec.v
ZzlOps.v
ZzlRep.v
ZobjSpec.v
ZobjRefine.v
ZobjThms.v
