(* ===== verification/Prelude.v ===== *)
(** * The data structures of the Redis server: a verification development

    The repository is a document search service: a Python service (api/,
    services/, workers/, db/) with a web client, and the Redis server it stores
    its queues and caches in (redis-stable/).  The development is about the
    server, in particular about the data structures every command goes through;
    file names below are those of redis-stable/src.

    ** Parts and how they interact

    - util.c converts integers and decimal strings and matches glob patterns.
      [Util], [Glob].
    - intset.c keeps a small set of integers in one block of bytes.  [Intset].
    - listpack.c keeps a list of strings and integers in one block of bytes, the
      encoding of small lists, hashes, sets and sorted sets; integers among the
      strings are found with the conversions of util.c.  [Listpack] has the code,
      [ListpackSpec] the meaning of a block, [ListpackNav] traversal, reading and
      search, [ListpackUpd] the updates, [ListpackValid] the validation of blocks
      that come from outside.
    - lzf_c.c and lzf_d.c compress the strings and list nodes that are written
      to disk.  [Lzf].
    - dict.c is the hash table, with two tables while it is being resized, and a
      scan that survives resizing.  [Dict] has the code, [DictSpec] the invariant,
      [DictMap] and [DictRefine] the finite map it implements, [DictScan] the
      scan, [DictIter] the iterators and their fingerprint.
    - kvstore.c is the key space: an array of dictionaries with counters and a
      binary indexed tree over their sizes.  [Kvstore] has the code,
      [KvstoreIndex] the tree, [KvstoreSpec] and [KvstoreRefine] the array of
      finite maps it implements, [KvstoreScan] the scan of all the dictionaries.
    - t_zset.c is the sorted set.  The large ones are a skiplist beside a
      dictionary.  [Zskiplist] and [ZskiplistRange] have the code of the skiplist,
      [Zset] the operations on both; [ZskiplistSpec] has the invariant of the
      skiplist, [ZskiplistOps], [ZskiplistApi] and [ZskiplistRangeSpec] what the
      functions do to it, [ZsetSpec] and [ZsetRefine] the map from elements to
      scores that the two implement together, [ZsetThms] the theorems.
    - The small sorted sets are a listpack of elements and scores, the scores as
      integers or as text.  [Double] has the conversions of scores of util.c,
      [Zzl] the functions on such a listpack, [Zobj] the operations on a sorted
      set in either encoding and the conversions between them.  [ZzlSpec] and
      [ZzlOps] say what the functions do to the pairs, [ZzlRep] to the map,
      [ZobjSpec] what the conversions do, [ZobjRefine] and [ZobjThms] what any
      sequence of operations does whichever encoding the set has.
    - bitops.c has the commands on strings as arrays of bits: SETBIT, GETBIT,
      BITCOUNT, BITPOS, BITOP and BITFIELD.  [Bits] has the counting and the search
      of bits by words and the integers of any width at any offset, [Bitops] the
      commands, from the parsing of the arguments to the replies, on a server that
      is a map of objects with the counter of changes and the effects that were
      signalled.  [BitStrings] reads a string as an infinite sequence of bits;
      [BitsSpec] and [BitfieldSpec] say what the functions of [Bits] do to it,
      [BitopSpec] and [BitopRefine] what the three paths of BITOP compute,
      [BitopsSpec] and [BitposSpec] what the ranges of BITCOUNT and BITPOS are,
      [BitfieldRun] what a run of BITFIELD does, [BitThms] has the theorems.
    - crc64.c, crcspeed.c and crccombine.c compute the checksum of dumps, crc16.c
      and cluster.h the slot of a key, cluster.c the slot of a pattern and the
      footer of a dump.  [Crc] and [Slots] have the code; [CrcSpec] has the algebra
      of the checksum, [CrcTables], [CrcCombine] and [CrcSpeed] what the tables,
      the products of matrices and the loops compute, [SlotsSpec] what the slots
      are, [CrcThms] the theorems.
    - hyperloglog.c counts distinct elements: PFADD, PFCOUNT and PFMERGE on strings
      of 16384 registers, six bits each or, for the small ones, run by run.  [Hll]
      has the code, with the growth of strings of sds.c, on a server that is a map
      of strings; [HllDense], [HllVec] and [HllRegs] say what the accesses to
      registers, the vectors of AVX2, the histograms and the merges compute,
      [HllSparse] and [HllSet] what the opcodes mean and what an update in place
      does to them, [HllAdd] has the hash as a function of the bytes and the
      relation of a string and its registers ([hll_rep]), [HllCmd] the commands,
      [HllSpec] the specification on lists of registers and the simulation,
      [HllThms] the theorems.

    This file has what they share: wrap-around at a width, bytes and
    little-endian fields, reads and writes of blocks of memory, the tactics and
    the hints.

    ** How code is written

    Functions have the names of the source.  A function that can fail an
    assertion, follow a null or dangling pointer or leave a block returns
    [option], and [None] is that failure: a theorem that a function returns
    [Some] says that it does none of these.  Errors that the code reports are
    values.  Unsigned and signed integers are integers with the wrap-around
    written out where the code computes ([u64], [u32], [i64], [wrap], [swrap]);
    where C leaves an overflow undefined the model wraps, except for the offsets of
    BITFIELD, whose undefined product is a failure.  Blocks are lists of
    bytes and pointers into them offsets; the nodes of the skiplist are in a heap
    from addresses to nodes; doubles are the [spec_float] of the standard library
    with its comparisons and rounding.  The chains of a hash table are lists.

    What is not in the sources is a parameter: the hash function of a dictionary
    with its comparison ([DictKeys] states what the code relies on), the contents
    of fresh or uninitialised memory, the addresses the allocator returns, the
    random numbers, the instructions the processor has, the alignment of strings,
    the two bundled libraries that print and parse a double
    ([Conversions] states that what the one prints the other reads), the estimate
    of a cardinality from a histogram, which is floating-point arithmetic, the
    limits of the configuration ([limits] keeps a listpack under its largest size;
    the defaults of 128 elements of 64 bytes are well inside; hll-sparse-max-bytes
    is at least 32, its default is 3000).  Where a theorem needs something of a
    parameter it is a hypothesis, and an instance of the theorem discharges it.

    What a range or a hash is, is specified without the code that computes it: the
    ranges of sorted sets ([in_ranks], [in_score], [in_lex]) and of bits
    ([in_bits]) are predicates on positions, scores and names, positions counted
    from either end by [index_like]; the order of elements ([precedes]) and the
    hash of an element ([murmur_hash]) are defined on lists of bytes.

    Loops that are not structural have fuel, computed from the state: the
    number of bytes in the block (listpack, LZF), of buckets (dict), of
    dictionaries (kvstore), of nodes (skiplist).  The theorems say that the
    functions return a result, so that the fuel is enough.

    ** What is shown

    - Refinement: any sequence of operations on a new dictionary, key space or
      sorted set returns what the operations on finite maps return, in any state
      of rehashing, for any random levels and in either encoding of a sorted set
      ([dict_refines_map], [kvstore_refines_maps], [zset_refines_map],
      [zobj_refines_map]).  Two maps of a sorted set are taken as the same when
      their scores differ in the sign of zeros only ([meq]), as a listpack does
      not keep it; the operations respect this equivalence.  The conditions on the
      operations are [zop_ok] and [oop_ok]: ranges of names are deleted from sets
      whose scores are all equal, as the commands document, and ranges of ranks from
      sets of fewer than 2^32 elements.
    - HyperLogLogs: PFADD, PFCOUNT and PFMERGE reply as on lists of registers
      ([hll_refines_registers]), never leave a buffer or fail an assertion on
      malformed strings ([hll_safe]), and a merge counts the union
      ([hll_merge_is_union]), for elements of fewer than 2^31 bytes; the vectors
      compute what the scalar loops do ([hll_avx2_equiv]).
    - Types: the scores of a sorted set are IEEE doubles that are not NaN
      ([zobj_typed]).
    - Scans: a scan of a dictionary or of the key space emits every element that
      is there all along, whatever happens between the calls, and ends
      ([dictScan_complete], [kvstoreScan_complete], [dictScan_progress]).
    - Round trips: what LZF compresses it decompresses to the same bytes; decimal
      notation is parsed to the number it is of; an entry of a listpack is read
      as what was stored, an element and its score too; ranks and elements of a
      skiplist are inverse; a sorted set survives the conversions of its encoding.
    - Functional behaviour of the operations of intset, listpack, the skiplist
      and the binary indexed tree on the list or set they represent, errors and
      size limits included.
    - Commands on bits: BITFIELD is a sequence of reads and writes of integers in
      an infinite sequence of bits ([bitfield_refines]); BITOP is the operation on
      each bit whichever path computes it ([bitop_correct]); SETBIT and GETBIT,
      the ranges of BITCOUNT and BITPOS, and the counting by words and by sums in
      a word ([setbit_getbit], [bitcount_correct], [bitpos_correct],
      [redisPopcount_correct]).
    - Checksums: the CRC-64 by words and by parts in parallel, put together with
      products of matrices over two elements, is the one bit by bit, on either
      kind of machine ([crc64_correct]); dumps are verified where they were not
      changed and refused after any change within eight bytes ([dump_roundtrip],
      [dump_detects]); the slot of a pattern is that of every key it matches
      ([patternHashSlot_sound]).
    - Safety on untrusted bytes: the decompressor and the validations of intset
      and listpack never leave the buffers, and what is accepted can be used.
    - The glob matcher with its pruning decides the declarative meaning of the
      pattern.
    - Behaviour that the code should not have, shown to be there: the overflow of
      [intsetMoveTail], the bracket of [prefixmatch], the backward length that
      spills over in [lpValidateIntegrity] and the assertion that a small
      hll-sparse-max-bytes fails (both as examples), the saturation of BITFIELD to
      the wrong end, the key that a failed BITFIELD creates without counting a
      change.

    ** Not modelled, and why

    - The Python service and the web client: calls to third-party libraries and
      services, with no data structure of their own.
    - The event loop, networking, persistence to files, replication, cluster,
      scripting and modules: input and output, processes and threads.
    - Command handlers but those of bitops.c and hyperloglog.c and the deletion of
      ranges of sorted sets: they take arguments from a client and write replies; the
      data type operations they call are what is modelled.
    - Other containers (quicklist, rax, ziplist, adlist, streams), the random
      sampling of dictionaries and listpacks, defragmentation.
    - Of sorted sets: unions and intersections, random members, copies.
    - The libraries that print and parse floating-point numbers, and the calls of
      util.c to those of the C library. *)

From stdpp Require Export base numbers list option sorting sets.
From Stdlib Require Export ZArith Lia.
From Stdlib Require Ascii String.
Export String.StringSyntax.
#[global] Open Scope list_scope.
#[global] Open Scope Z_scope.

(** ** Tactics *)

(** [lia] with quotients and remainders by constants. *)
Ltac div_lia := Z.to_euclidean_division_equations; lia.

(** Case analysis on the integer comparisons of the goal, dropping the cases
    arithmetic refutes. *)
Ltac zcase :=
  repeat match goal with
  | |- context [?a <=? ?b] => destruct (Z.leb_spec a b); try lia
  | |- context [?a <? ?b] => destruct (Z.ltb_spec a b); try lia
  | |- context [?a >=? ?b] => destruct (Z.geb_spec a b); try lia
  | |- context [?a >? ?b] => destruct (Z.gtb_spec a b); try lia
  | |- context [?a =? ?b] => destruct (Z.eqb_spec a b); try lia
  end.

(** Run the option monad one step without unfolding the continuation. *)
Lemma some_bind {A B} (x : A) (f : A -> option B) : (Some x ≫= f) = f x.
Proof. done. Qed.
Ltac sbind := rewrite ?some_bind; cbv beta iota.

(** ** Machine integers *)

(** [wrap w x] is the value of [x] converted to an unsigned [w]-bit integer,
    [swrap w x] its conversion to a two's complement one. *)
Definition wrap (w x : Z) : Z := x mod 2 ^ w.
Definition swrap (w x : Z) : Z := (x + 2 ^ (w - 1)) mod 2 ^ w - 2 ^ (w - 1).

Declare Scope cint_scope.
Abbreviation u8 := (wrap 8).
Abbreviation u16 := (wrap 16).
Abbreviation u32 := (wrap 32).
Abbreviation u64 := (wrap 64).
Abbreviation i8 := (swrap 8).
Abbreviation i16 := (swrap 16).
Abbreviation i32 := (swrap 32).
Abbreviation i64 := (swrap 64).
Notation "a &&& b" := (Z.land a b) (at level 40, left associativity) : cint_scope.
Notation "a ||| b" := (Z.lor a b) (at level 50, left associativity) : cint_scope.
Notation "a <<< n" := (Z.shiftl a n) (at level 39, left associativity) : cint_scope.
Notation "a >>> n" := (Z.shiftr a n) (at level 39, left associativity) : cint_scope.
#[global] Open Scope cint_scope.

Definition in_unsigned (w x : Z) : Prop := 0 <= x < 2 ^ w.
Definition in_signed (w x : Z) : Prop := - 2 ^ (w - 1) <= x < 2 ^ (w - 1).

Lemma wrap_small (w x : Z) : 0 <= x < 2 ^ w -> wrap w x = x.
Proof. intros; unfold wrap; by apply Z.mod_small. Qed.

Lemma wrap_range (w x : Z) : 0 <= w -> 0 <= wrap w x < 2 ^ w.
Proof. intros; unfold wrap; apply Z.mod_pos_bound; lia. Qed.

Lemma pow2_split (w : Z) : 0 < w -> 2 ^ w = 2 * 2 ^ (w - 1).
Proof. intros; rewrite <- Z.pow_succ_r by lia; f_equal; lia. Qed.

Lemma swrap_small (w x : Z) : 0 < w -> in_signed w x -> swrap w x = x.
Proof.
  unfold in_signed, swrap; intros Hw Hx.
  rewrite Z.mod_small; [lia|]. rewrite (pow2_split w) by lia; lia.
Qed.

Lemma swrap_range (w x : Z) : 0 < w -> in_signed w (swrap w x).
Proof.
  unfold in_signed, swrap; intros Hw.
  pose proof (Z.mod_pos_bound (x + 2 ^ (w - 1)) (2 ^ w) ltac:(lia)).
  rewrite (pow2_split w) in * by lia; lia.
Qed.

(** Reading back an unsigned representation as signed recovers the value. *)
Lemma swrap_wrap (w x : Z) : 0 < w -> swrap w (wrap w x) = swrap w x.
Proof.
  unfold swrap, wrap; intros Hw. rewrite Zplus_mod_idemp_l. done.
Qed.

(** ** Bytes and little-endian encodings *)

(** A byte is a [Z] between 0 and 255; a region of memory is a list of bytes. *)
Definition is_byte (b : Z) : Prop := 0 <= b < 256.
#[global] Instance is_byte_dec b : Decision (is_byte b).
Proof. unfold is_byte; apply _. Defined.
Abbreviation bytes_ok := (Forall is_byte).

Definition zlen {A} (l : list A) : Z := Z.of_nat (length l).

Fixpoint le_enc (n : nat) (v : Z) : list Z :=
  match n with
  | O => []
  | S n => (v &&& 255) :: le_enc n (v >>> 8)
  end.

Fixpoint le_dec (bs : list Z) : Z :=
  match bs with
  | [] => 0
  | b :: bs => b + 256 * le_dec bs
  end.

Lemma land_255 (v : Z) : v &&& 255 = v mod 256.
Proof. exact (Z.land_ones v 8 ltac:(lia)). Qed.

Lemma shiftr_8 (v : Z) : v >>> 8 = v / 256.
Proof. exact (Z.shiftr_div_pow2 v 8 ltac:(lia)). Qed.

Lemma length_le_enc (n : nat) (v : Z) : length (le_enc n v) = n.
Proof. revert v; induction n; simpl; auto. Qed.

Lemma le_enc_bytes (n : nat) (v : Z) : bytes_ok (le_enc n v).
Proof.
  revert v; induction n; intros; simpl; constructor; auto.
  rewrite land_255. unfold is_byte. apply Z.mod_pos_bound; lia.
Qed.

Lemma pow256_S (n : nat) : 2 ^ (8 * Z.of_nat (S n)) = 256 * 2 ^ (8 * Z.of_nat n).
Proof. change 256 with (2 ^ 8). rewrite <- Z.pow_add_r by lia. f_equal; lia. Qed.

Lemma le_dec_enc (n : nat) (v : Z) : le_dec (le_enc n v) = wrap (8 * Z.of_nat n) v.
Proof.
  revert v; induction n as [|n IH]; intros v.
  - simpl. unfold wrap. by rewrite Z.mod_1_r.
  - cbn [le_enc le_dec]. rewrite IH. unfold wrap.
    rewrite land_255, shiftr_8, pow256_S.
    rewrite Z.rem_mul_r by lia. lia.
Qed.

Lemma le_dec_range (bs : list Z) : bytes_ok bs -> 0 <= le_dec bs < 2 ^ (8 * zlen bs).
Proof.
  unfold zlen. induction 1 as [|b bs Hb _ IH]; simpl length.
  - simpl; lia.
  - rewrite pow256_S. unfold is_byte in Hb. cbn [le_dec]. lia.
Qed.

Lemma le_enc_dec (bs : list Z) : bytes_ok bs -> le_enc (length bs) (le_dec bs) = bs.
Proof.
  induction 1 as [|b bs Hb _ IH]; [done|]. unfold is_byte in Hb.
  cbn [length le_enc le_dec]. rewrite land_255, shiftr_8.
  replace (b + 256 * le_dec bs) with (b + le_dec bs * 256) by lia.
  rewrite Z.mod_add, Z.mod_small, Z.div_add, Z.div_small by lia.
  by rewrite Z.add_0_l, IH.
Qed.

(** ** Memory regions *)

(** Loads and stores of [n] bytes at an offset of a region.  An access that
    is not wholly inside the region is undefined behaviour in C: [None]. *)
Definition mread (m : list Z) (off n : Z) : option (list Z) :=
  if (0 <=? off) && (0 <=? n) && (off + n <=? zlen m)
  then Some (take (Z.to_nat n) (drop (Z.to_nat off) m)) else None.

Definition mwrite (m : list Z) (off : Z) (src : list Z) : option (list Z) :=
  if (0 <=? off) && (off + zlen src <=? zlen m)
  then Some (take (Z.to_nat off) m ++ src ++ drop (Z.to_nat off + length src) m)
  else None.

(** [memmove(dst, src, n)] inside one region: the source is read in full
    before the destination is written, so the two may overlap. *)
Definition memmove (m : list Z) (dst src n : Z) : option (list Z) :=
  bs ← mread m src n; mwrite m dst bs.

(** [zrealloc]: the common prefix is kept, bytes past the old size hold the
    arbitrary contents [fresh]. *)
Definition zrealloc (fresh : nat -> Z) (m : list Z) (n : Z) : list Z :=
  take (Z.to_nat n) m ++ (fresh <$> seq (length m) (Z.to_nat n - length m)).

Lemma zlen_app {A} (a b : list A) : zlen (a ++ b) = zlen a + zlen b.
Proof. unfold zlen; rewrite length_app; lia. Qed.
Lemma zlen_cons {A} (x : A) l : zlen (x :: l) = 1 + zlen l.
Proof. unfold zlen; simpl; lia. Qed.
Lemma zlen_nil {A} : zlen (@nil A) = 0.
Proof. done. Qed.
Lemma zlen_nonneg {A} (l : list A) : 0 <= zlen l.
Proof. unfold zlen; lia. Qed.
Lemma zlen_le_enc n v : zlen (le_enc n v) = Z.of_nat n.
Proof. unfold zlen; by rewrite length_le_enc. Qed.
Lemma to_nat_zlen {A} (l : list A) : Z.to_nat (zlen l) = length l.
Proof. unfold zlen; lia. Qed.

Create Rewrite HintDb zlen.
#[export] Hint Rewrite @zlen_app @zlen_cons @zlen_nil zlen_le_enc : zlen.

Ltac zlen_solve :=
  autorewrite with zlen in *;
  repeat match goal with
  | |- context [@zlen ?A ?l] => assert_fails (is_evar l);
      lazymatch goal with
      | _ : 0 <= @zlen A l |- _ => fail
      | _ => pose proof (@zlen_nonneg A l)
      end
  | H : context [@zlen ?A ?l] |- _ =>
      lazymatch goal with
      | _ : 0 <= @zlen A l |- _ => fail
      | _ => pose proof (@zlen_nonneg A l)
      end
  end; lia.

(** Accesses at a position given by a split of the region. *)
Lemma mread_app (a b c : list Z) (off n : Z) :
  off = zlen a -> n = zlen b -> mread (a ++ b ++ c) off n = Some b.
Proof.
  intros -> ->. unfold mread.
  destruct (_ && _) eqn:E.
  - by rewrite !to_nat_zlen, drop_app_length, take_app_length.
  - exfalso. revert E. rewrite !andb_false_iff, !Z.leb_gt. zlen_solve.
Qed.

Lemma mwrite_app (a b c b' : list Z) (off : Z) :
  off = zlen a -> length b' = length b -> mwrite (a ++ b ++ c) off b' = Some (a ++ b' ++ c).
Proof.
  intros -> Hl. unfold mwrite.
  destruct (_ && _) eqn:E.
  - rewrite to_nat_zlen, take_app_length, Hl, <- drop_drop, drop_app_length.
    by rewrite drop_app_length.
  - exfalso. revert E. rewrite !andb_false_iff, !Z.leb_gt.
    assert (zlen b' = zlen b) by (unfold zlen; lia). zlen_solve.
Qed.

(** Every in-bounds access is one of those. *)
Lemma region_split (m : list Z) (off n : Z) :
  0 <= off -> 0 <= n -> off + n <= zlen m ->
  exists a b c, m = a ++ b ++ c /\ zlen a = off /\ zlen b = n.
Proof.
  intros. exists (take (Z.to_nat off) m), (take (Z.to_nat n) (drop (Z.to_nat off) m)),
    (drop (Z.to_nat n) (drop (Z.to_nat off) m)).
  unfold zlen in *. rewrite !take_drop, !length_take, !length_drop. split; [done|lia].
Qed.

(** ** Sorted lists *)

Lemma sorted_lookup {A} (R : relation A) (l : list A) (i j : nat) (a b : A) :
  StronglySorted R l -> l !! i = Some a -> l !! j = Some b -> (i < j)%nat -> R a b.
Proof.
  intros Hs Hi Hj Hij.
  apply (StronglySorted_app_1_elem_of R (take j l) (drop j l)).
  - by rewrite take_drop.
  - apply list_elem_of_lookup. exists i. by rewrite lookup_take_lt.
  - apply list_elem_of_lookup. exists 0%nat. by rewrite lookup_drop, Nat.add_0_r.
Qed.

Lemma lookup_Z_lt {A} (l : list A) (i : Z) :
  0 <= i < zlen l -> exists v, l !! Z.to_nat i = Some v.
Proof.
  intros Hi. apply lookup_lt_is_Some. unfold zlen in Hi. lia.
Qed.

(** Reallocation, growing and shrinking. *)
Lemma zrealloc_grow fresh m n :
  zlen m <= n -> exists e, zrealloc fresh m n = m ++ e /\ zlen e = n - zlen m.
Proof.
  intros Hn. unfold zrealloc. unfold zlen in *.
  exists (fresh <$> seq (length m) (Z.to_nat n - length m)).
  rewrite take_ge, length_fmap, length_seq by lia. split; [done|lia].
Qed.

Lemma zrealloc_shrink fresh a b n : n = zlen a -> zrealloc fresh (a ++ b) n = a.
Proof.
  intros ->. unfold zrealloc. rewrite to_nat_zlen, take_app_length, length_app.
  replace (_ - _)%nat with 0%nat by lia. by rewrite app_nil_r.
Qed.

(** A move whose source and destination are given by splits of the region. *)
Lemma memmove_app m a b c a' b' c' dst src n :
  m = a ++ b ++ c -> m = a' ++ b' ++ c' ->
  src = zlen a -> dst = zlen a' -> n = zlen b -> zlen b = zlen b' ->
  memmove m dst src n = Some (a' ++ b ++ c').
Proof.
  intros H1 H2 -> -> -> Hl. unfold memmove. rewrite H1 at 1.
  rewrite mread_app by done. sbind. rewrite H2. apply mwrite_app; [done|].
  unfold zlen in *; lia.
Qed.

Lemma split_zlen {A} (m : list A) (n : Z) :
  0 <= n <= zlen m -> exists a b, m = a ++ b /\ zlen a = n.
Proof.
  intros. exists (take (Z.to_nat n) m), (drop (Z.to_nat n) m).
  rewrite take_drop. unfold zlen in *. rewrite length_take. split; [done|lia].
Qed.

Lemma sorted_insert {A} (R : relation A) l1 v l2 :
  StronglySorted R (l1 ++ l2) -> (forall x, x ∈ l1 -> R x v) -> (forall x, x ∈ l2 -> R v x) ->
  StronglySorted R (l1 ++ v :: l2).
Proof.
  rewrite !StronglySorted_app. intros (H1 & H2 & H3) Hl Hr.
  split; [|split; [done|]].
  - intros x y Hx [->|Hy]%elem_of_cons; auto.
  - constructor; [done|]. by apply Forall_forall.
Qed.

Lemma sorted_delete {A} (R : relation A) l1 v l2 :
  StronglySorted R (l1 ++ v :: l2) -> StronglySorted R (l1 ++ l2).
Proof.
  rewrite !StronglySorted_app. intros (H1 & H2 & H3). inversion H3; subst.
  split; [|done]. intros x y Hx Hy. apply H1; [done|]. by apply list_elem_of_further.
Qed.

Lemma wrap_swrap (w x : Z) : 0 < w -> wrap w (swrap w x) = wrap w x.
Proof.
  unfold swrap, wrap; intros Hw. rewrite Zminus_mod_idemp_l. f_equal; lia.
Qed.

Lemma le_enc_wrap (n : nat) (v : Z) : le_enc n (wrap (8 * Z.of_nat n) v) = le_enc n v.
Proof.
  rewrite <- le_dec_enc. rewrite <- (length_le_enc n v) at 1.
  apply le_enc_dec, le_enc_bytes.
Qed.

(** ** Character data *)

(** The bytes of a string literal. *)
Fixpoint str (s : String.string) : list Z :=
  match s with
  | String.EmptyString => []
  | String.String c s => Z.of_N (Ascii.N_of_ascii c) :: str s
  end.

#[global] Arguments str s%_string_scope.

(** The byte at an offset. *)
Definition mget (m : list Z) (off : Z) : option Z :=
  if 0 <=? off then m !! Z.to_nat off else None.

Lemma mget_app (a c : list Z) (x off : Z) : off = zlen a -> mget (a ++ x :: c) off = Some x.
Proof.
  intros ->. unfold mget. rewrite (proj2 (Z.leb_le _ _)) by apply zlen_nonneg.
  by rewrite to_nat_zlen, list_lookup_middle.
Qed.

Lemma mwrite_nil (m : list Z) (off : Z) : 0 <= off <= zlen m -> mwrite m off [] = Some m.
Proof.
  intros H. unfold mwrite. change (zlen []) with 0. zcase.
  simpl. by rewrite Nat.add_0_r, take_drop.
Qed.

(** ** Bits of bytes *)

(** A property of bytes that a run over the 256 of them establishes. *)
Lemma byte_forall (P : Z -> bool) (b : Z) :
  forallb P (seqZ 0 256) = true -> is_byte b -> P b = true.
Proof.
  intros Hall Hb. rewrite forallb_forall in Hall. apply Hall.
  apply list_elem_of_In, elem_of_seqZ. exact Hb.
Qed.

Ltac by_bytes b Hb :=
  pattern b;
  match goal with
  | |- ?P b => 
      let Q := constr:(fun x => bool_decide (P x)) in
      refine (bool_decide_eq_true_1 (P b) _); apply (byte_forall Q b); [by vm_compute | exact Hb]
  end.

Lemma land_mod (v n m : Z) : 0 <= n -> m = 2 ^ n - 1 -> v &&& m = v mod 2 ^ n.
Proof. intros Hn ->. rewrite <- Z.land_ones by done. f_equal. rewrite Z.ones_equiv. lia. Qed.

Lemma shiftr_div (v n : Z) : 0 <= n -> v >>> n = v / 2 ^ n.
Proof. apply Z.shiftr_div_pow2. Qed.

Lemma lor_shiftl (a b n : Z) : 0 <= n -> 0 <= a < 2 ^ n -> a ||| (b <<< n) = a + b * 2 ^ n.
Proof.
  intros Hn Ha. rewrite <- Z.shiftl_mul_pow2 by done.
  assert (Hland : Z.land a (b <<< n) = 0).
  { apply Z.bits_inj'. intros i Hi. rewrite Z.land_spec, Z.bits_0.
    destruct (decide (i < n)).
    - rewrite Z.shiftl_spec_low by lia. by rewrite andb_false_r.
    - rewrite <- (Z.mod_small a (2 ^ n)) by done. by rewrite Z.mod_pow2_bits_high by lia. }
  by rewrite <- Z.lxor_lor, <- Z.add_nocarry_lxor.
Qed.

Lemma shiftl_lor (a b n : Z) : 0 <= n -> 0 <= a < 2 ^ n -> (b <<< n) ||| a = a + b * 2 ^ n.
Proof. rewrite Z.lor_comm. apply lor_shiftl. Qed.

(** ** Pointwise view of regions *)

Lemma mget_lookup (m : list Z) (i : Z) : 0 <= i -> mget m i = m !! Z.to_nat i.
Proof. intros. unfold mget. zcase. done. Qed.

Lemma mget_in (m : list Z) (i : Z) : 0 <= i < zlen m -> exists b, mget m i = Some b.
Proof. intros H. rewrite mget_lookup by lia. by apply lookup_Z_lt. Qed.

Lemma mget_range (m : list Z) (i b : Z) : mget m i = Some b -> 0 <= i < zlen m.
Proof.
  unfold mget, zlen. destruct (Z.leb_spec 0 i); [|done].
  intros ?%lookup_lt_Some. lia.
Qed.

Lemma mget_byte (m : list Z) (i b : Z) : bytes_ok m -> mget m i = Some b -> is_byte b.
Proof.
  intros Hm H. pose proof (mget_range m i b H). rewrite mget_lookup in H by lia.
  by eapply Forall_lookup_1.
Qed.

Lemma mget_app_if (a b : list Z) (i : Z) :
  0 <= i -> mget (a ++ b) i = if i <? zlen a then mget a i else mget b (i - zlen a).
Proof.
  intros. unfold zlen. destruct (Z.ltb_spec i (Z.of_nat (length a))).
  - rewrite !mget_lookup by lia. apply lookup_app_l. lia.
  - rewrite !mget_lookup by lia. rewrite lookup_app_r by lia. f_equal. lia.
Qed.

Lemma mget_ext (a b : list Z) :
  zlen a = zlen b -> (forall i, 0 <= i < zlen a -> mget a i = mget b i) -> a = b.
Proof.
  unfold zlen. intros Hl H. apply list_eq. intros i.
  destruct (decide (i < length a)%nat).
  - specialize (H (Z.of_nat i) ltac:(lia)). rewrite !mget_lookup, Nat2Z.id in H by lia. done.
  - rewrite !lookup_ge_None_2 by lia. done.
Qed.

(** The start of what was read. *)
Lemma mread_take (m bs : list Z) (o n k : Z) :
  mread m o n = Some bs -> 0 <= k <= n -> mread m o k = Some (take (Z.to_nat k) bs).
Proof.
  unfold mread. destruct (_ && _) eqn:E; [|done]. intros [= <-] Hk. rewrite !andb_true_iff in E.
  assert ((0 <=? o) && (0 <=? k) && (o + k <=? zlen m) = true) as -> by (rewrite !andb_true_iff; lia).
  by rewrite take_take, Nat.min_l by lia.
Qed.

Lemma mread_ok (m : list Z) (off n : Z) :
  0 <= off -> 0 <= n -> off + n <= zlen m ->
  exists bs, mread m off n = Some bs /\ zlen bs = n /\
    forall i, 0 <= i < n -> mget bs i = mget m (off + i).
Proof.
  intros H1 H2 H3. destruct (region_split m off n H1 H2 H3) as (a & b & c & -> & Ha & Hb).
  exists b. rewrite mread_app by done. split; [done|split; [done|]].
  intros i Hi. rewrite (mget_app_if a), (mget_app_if b) by lia. zcase.
  f_equal. lia.
Qed.

Lemma mwrite_ok (m : list Z) (off : Z) (src : list Z) :
  0 <= off -> off + zlen src <= zlen m ->
  exists m', mwrite m off src = Some m' /\ zlen m' = zlen m /\
    (forall i, 0 <= i < zlen src -> mget m' (off + i) = mget src i) /\
    (forall i, i < off \/ off + zlen src <= i -> mget m' i = mget m i).
Proof.
  intros H1 H2. destruct (region_split m off (zlen src) H1 (zlen_nonneg src) H2)
    as (a & b & c & -> & Ha & Hb).
  exists (a ++ src ++ c). rewrite mwrite_app by (unfold zlen in *; lia).
  split; [done|split; [autorewrite with zlen; lia|split; intros i Hi]].
  - rewrite (mget_app_if a), (mget_app_if src) by lia. zcase. f_equal; lia.
  - destruct (Z.leb_spec 0 i) as [Hi0|Hi0].
    + rewrite !(mget_app_if a) by lia. destruct (Z.ltb_spec i (zlen a)); [done|].
      rewrite (mget_app_if src), (mget_app_if b) by lia. rewrite Hb. zcase. done.
    + unfold mget. zcase. done.
Qed.

(** The single-byte case, the one of [*op++ = c]. *)
Lemma mwrite_byte (m : list Z) (off b : Z) :
  0 <= off < zlen m ->
  exists m', mwrite m off [b] = Some m' /\ zlen m' = zlen m /\
    forall i, mget m' i = if i =? off then Some b else mget m i.
Proof.
  intros H. destruct (mwrite_ok m off [b]) as (m' & E & Hl & Hin & Hout); [lia|zlen_solve|].
  exists m'. split; [done|split; [done|]]. intros i. destruct (Z.eqb_spec i off) as [->|].
  - rewrite <- (Z.add_0_r off) at 1. by rewrite Hin by (autorewrite with zlen; lia).
  - apply Hout. autorewrite with zlen. lia.
Qed.

(** ** Filters of lists *)

Lemma filter_none {B} (P : B -> Prop) `{forall x, Decision (P x)} (l : list B) :
  (forall x, x ∈ l -> ~ P x) -> filter P l = [].
Proof.
  induction l as [|x l IH]; intros Hn; [done|]. rewrite filter_cons_False by (apply Hn; by left).
  apply IH. intros y Hy. apply Hn. by right.
Qed.
Lemma filter_all {B} (P : B -> Prop) `{forall x, Decision (P x)} (l : list B) :
  (forall x, x ∈ l -> P x) -> filter P l = l.
Proof.
  induction l as [|x l IH]; intros Hn; [done|]. rewrite filter_cons_True by (apply Hn; by left).
  f_equal. apply IH. intros y Hy. apply Hn. by right.
Qed.

(** ** Indexes from either end *)

(** The item at place [r] among [n] has two indexes, [r] from the start and
    [r - n] from the end: the one to compare with the index [i] has its sign. *)
Definition index_like (n r i : Z) : Z := if i <? 0 then r - n else r.

(** ** Loops *)

(** [for (j = i; j < i + n; j++) body(j)] *)
Fixpoint for_loop {A} (body : nat -> A -> option A) (i n : nat) (a : A) : option A :=
  match n with
  | O => Some a
  | S n => a ← body i a; for_loop body (S i) n a
  end.

Lemma for_loop_ind {A} (body : nat -> A -> option A) (I : nat -> A -> Prop) (i n : nat) (a : A) :
  I i a -> (forall j a, (i <= j < i + n)%nat -> I j a -> exists a', body j a = Some a' /\ I (S j) a') ->
  exists a', for_loop body i n a = Some a' /\ I (i + n)%nat a'.
Proof.
  revert i a; induction n as [|n IH]; intros i a Hi Hs.
  - exists a. by rewrite Nat.add_0_r.
  - destruct (Hs i a ltac:(lia) Hi) as (a1 & Hb & H1). cbn [for_loop]. rewrite Hb. sbind.
    destruct (IH (S i) a1 H1) as (a' & Hf & Ha'); [intros; apply Hs; [lia|done]|].
    exists a'. split; [done|]. by replace (i + S n)%nat with (S i + n)%nat by lia.
Qed.
