(* ===== verification/Intset.v ===== *)
(** * intset.c: the compact sorted integer set

    The blob of an intset is a header and [length] records of [encoding]
    bytes each, little-endian.  The operations work on the bytes, the theorems
    relate them to a strictly sorted list of integers. *)

From S2P Require Import Prelude.

Record intset := mkIntset {
  is_encoding : Z;
  is_length : Z;
  is_contents : list Z
}.

Definition INTSET_ENC_INT16 : Z := 2.
Definition INTSET_ENC_INT32 : Z := 4.
Definition INTSET_ENC_INT64 : Z := 8.

Definition INT16_MIN : Z := -32768.
Definition INT16_MAX : Z := 32767.
Definition INT32_MIN : Z := -2147483648.
Definition INT32_MAX : Z := 2147483647.
Definition SIZE_MAX : Z := 2 ^ 64 - 1.
Definition sizeof_intset : Z := 8.

(** Pointers into the blob are offsets; [None] is an access out of the blob
    or a failed assertion.  On the little-endian hosts [intrev32ifbe] and
    [memrevNNifbe] do nothing, on the others they make the bytes the same. *)

Definition _intsetValueEncoding (v : Z) : Z :=
  if (v <? INT32_MIN) || (v >? INT32_MAX) then INTSET_ENC_INT64
  else if (v <? INT16_MIN) || (v >? INT16_MAX) then INTSET_ENC_INT32
  else INTSET_ENC_INT16.

Definition _intsetGetEncoded (iset : intset) (pos enc : Z) : option Z :=
  if enc =? INTSET_ENC_INT64 then
    bs ← mread (is_contents iset) (pos * 8) 8; Some (i64 (le_dec bs))
  else if enc =? INTSET_ENC_INT32 then
    bs ← mread (is_contents iset) (pos * 4) 4; Some (i32 (le_dec bs))
  else
    bs ← mread (is_contents iset) (pos * 2) 2; Some (i16 (le_dec bs)).

Definition _intsetGet (iset : intset) (pos : Z) : option Z :=
  _intsetGetEncoded iset pos (is_encoding iset).

Definition with_contents (iset : intset) (c : list Z) : intset :=
  mkIntset (is_encoding iset) (is_length iset) c.
Definition with_length (iset : intset) (n : Z) : intset :=
  mkIntset (is_encoding iset) n (is_contents iset).
Definition with_encoding (iset : intset) (e : Z) : intset :=
  mkIntset e (is_length iset) (is_contents iset).

Definition _intsetSet (iset : intset) (pos value : Z) : option intset :=
  let encoding := is_encoding iset in
  if encoding =? INTSET_ENC_INT64 then
    with_contents iset <$> mwrite (is_contents iset) (pos * 8) (le_enc 8 value)
  else if encoding =? INTSET_ENC_INT32 then
    with_contents iset <$> mwrite (is_contents iset) (pos * 4) (le_enc 4 value)
  else
    with_contents iset <$> mwrite (is_contents iset) (pos * 2) (le_enc 2 value).

Definition intsetNew : intset := mkIntset INTSET_ENC_INT16 0 [].

Section with_allocator.
Context (fresh : nat -> Z).

Definition intsetResize (iset : intset) (len : Z) : option intset :=
  let size := u64 (len * is_encoding iset) in
  if size <=? SIZE_MAX - sizeof_intset
  then Some (with_contents iset (zrealloc fresh (is_contents iset) size)) else None.

(** The [while(max >= min)] loop; the result holds [min], [mid] and [cur] at
    its exit. *)
Fixpoint intsetSearch_loop (fuel : nat) (iset : intset) (value min max mid cur : Z)
    : option (Z * Z * Z) :=
  match fuel with
  | O => None
  | S fuel =>
      if max >=? min then
        let mid := i32 (u32 (u32 min + u32 max) >>> 1) in
        cur ← _intsetGet iset mid;
        if value >? cur then intsetSearch_loop fuel iset value (mid + 1) max mid cur
        else if value <? cur then intsetSearch_loop fuel iset value min (mid - 1) mid cur
        else Some (min, mid, cur)
      else Some (min, mid, cur)
  end.

(** Whether [value] was found, and the position stored through [pos]. *)
Definition intsetSearch (iset : intset) (value : Z) : option (bool * Z) :=
  let max := i32 (u32 (is_length iset - 1)) in
  if is_length iset =? 0 then Some (false, 0)
  else
    vmax ← _intsetGet iset max;
    if value >? vmax then Some (false, is_length iset)
    else
      vmin ← _intsetGet iset 0;
      if value <? vmin then Some (false, 0)
      else
        '(min, mid, cur) ←
          intsetSearch_loop (S (Z.to_nat (is_length iset))) iset value 0 max (-1) (-1);
        if value =? cur then Some (true, u32 mid) else Some (false, u32 min).

Fixpoint upgrade_loop (length : nat) (iset : intset) (curenc prepend : Z) : option intset :=
  match length with
  | O => Some iset
  | S length =>
      v ← _intsetGetEncoded iset (Z.of_nat length) curenc;
      iset ← _intsetSet iset (Z.of_nat length + prepend) v;
      upgrade_loop length iset curenc prepend
  end.

Definition intsetUpgradeAndAdd (iset : intset) (value : Z) : option intset :=
  let curenc := u8 (is_encoding iset) in
  let newenc := _intsetValueEncoding value in
  let length := i32 (is_length iset) in
  let prepend := if value <? 0 then 1 else 0 in
  iset ← intsetResize (with_encoding iset newenc) (u32 (is_length iset + 1));
  iset ← upgrade_loop (Z.to_nat length) iset curenc prepend;
  iset ← (if prepend =? 1 then _intsetSet iset 0 value
        else _intsetSet iset (i32 (is_length iset)) value);
  Some (with_length iset (u32 (is_length iset + 1))).

Definition intsetMoveTail (iset : intset) (from to : Z) : option intset :=
  let bytes := u32 (is_length iset - from) in
  let encoding := is_encoding iset in
  with_contents iset <$>
    if encoding =? INTSET_ENC_INT64 then
      memmove (is_contents iset) (to * 8) (from * 8) (u32 (bytes * 8))
    else if encoding =? INTSET_ENC_INT32 then
      memmove (is_contents iset) (to * 4) (from * 4) (u32 (bytes * 4))
    else
      memmove (is_contents iset) (to * 2) (from * 2) (u32 (bytes * 2)).

(** The set and the flag stored through [success]. *)
Definition intsetAdd (iset : intset) (value : Z) : option (intset * bool) :=
  let valenc := _intsetValueEncoding value in
  if valenc >? is_encoding iset then
    iset ← intsetUpgradeAndAdd iset value; Some (iset, true)
  else
    '(found, pos) ← intsetSearch iset value;
    if (found : bool) then Some (iset, false)
    else
      iset ← intsetResize iset (u32 (is_length iset + 1));
      iset ← (if pos <? is_length iset then intsetMoveTail iset pos (u32 (pos + 1)) else Some iset);
      iset ← _intsetSet iset (i32 pos) value;
      Some (with_length iset (u32 (is_length iset + 1)), true).

Definition intsetRemove (iset : intset) (value : Z) : option (intset * bool) :=
  let valenc := _intsetValueEncoding value in
  if valenc <=? is_encoding iset then
    '(found, pos) ← intsetSearch iset value;
    if (found : bool) then
      let len := is_length iset in
      iset ← (if pos <? u32 (len - 1) then intsetMoveTail iset (u32 (pos + 1)) pos else Some iset);
      iset ← intsetResize iset (u32 (len - 1));
      Some (with_length iset (u32 (len - 1)), true)
    else Some (iset, false)
  else Some (iset, false).

End with_allocator.

Definition intsetFind (iset : intset) (value : Z) : option bool :=
  let valenc := _intsetValueEncoding value in
  if valenc <=? is_encoding iset then fst <$> intsetSearch iset value else Some false.

(** [r] is the value [rand()] returns. *)
Definition intsetRandom (r : Z) (iset : intset) : option Z :=
  let len := is_length iset in
  if len =? 0 then None else _intsetGet iset (i32 (u32 r mod len)).

Definition intsetMax (iset : intset) : option Z :=
  _intsetGet iset (i32 (u32 (is_length iset - 1))).

Definition intsetMin (iset : intset) : option Z := _intsetGet iset 0.

(** [Some None]: the position is out of range and the function returns 0. *)
Definition intsetGet (iset : intset) (pos : Z) : option (option Z) :=
  if pos <? is_length iset then Some <$> _intsetGet iset (i32 pos) else Some None.

Definition intsetLen (iset : intset) : Z := is_length iset.

Definition intsetBlobLen (iset : intset) : Z :=
  u64 (sizeof_intset + u64 (is_length iset * is_encoding iset)).

(** The cast [(intset * )p] of a blob of at least 8 bytes. *)
Definition intset_of_blob (p : list Z) : intset :=
  mkIntset (le_dec (take 4 p)) (le_dec (take 4 (drop 4 p))) (drop 8 p).

Definition blob_of_intset (iset : intset) : list Z :=
  le_enc 4 (is_encoding iset) ++ le_enc 4 (is_length iset) ++ is_contents iset.

Fixpoint check_order (n : nat) (iset : intset) (i prev : Z) : option bool :=
  match n with
  | O => Some true
  | S n =>
      cur ← _intsetGet iset (i32 i);
      if cur <=? prev then Some false else check_order n iset (i + 1) cur
  end.

(** [p] holds the [size] bytes of the payload. *)
Definition intsetValidateIntegrity (p : list Z) (deep : bool) : option bool :=
  let size := zlen p in
  if size <? sizeof_intset then Some false
  else
    let iset := intset_of_blob p in
    let encoding := is_encoding iset in
    if negb ((encoding =? INTSET_ENC_INT64) || (encoding =? INTSET_ENC_INT32)
             || (encoding =? INTSET_ENC_INT16)) then Some false
    else
      let record_size := encoding in
      let count := is_length iset in
      if negb (u64 (sizeof_intset + u64 (count * record_size)) =? size) then Some false
      else if count =? 0 then Some false
      else if negb deep then Some true
      else
        prev ← _intsetGet iset 0;
        check_order (Z.to_nat (count - 1)) iset 1 prev.

(** ** Representation *)

Definition enc_ok (e : Z) : Prop := e = 2 \/ e = 4 \/ e = 8.

(** The records of a list of integers, [n] bytes each. *)
Definition cells (n : nat) (l : list Z) : list Z := concat (le_enc n <$> l).

(** [intset_rep iset l]: the blob holds exactly the strictly increasing list [l]. *)
Record intset_rep (iset : intset) (l : list Z) : Prop := {
  rep_enc : enc_ok (is_encoding iset);
  rep_len : is_length iset = zlen l;
  rep_contents : is_contents iset = cells (Z.to_nat (is_encoding iset)) l;
  rep_fits : Forall (in_signed (8 * is_encoding iset)) l;
  rep_sorted : StronglySorted Z.lt l
}.

(** Enough room for every 32-bit byte count the code computes. *)
Definition small_set (l : list Z) : Prop := zlen l < 2 ^ 29 - 1.

Lemma cells_app n l1 l2 : cells n (l1 ++ l2) = cells n l1 ++ cells n l2.
Proof. unfold cells. by rewrite fmap_app, concat_app. Qed.

Lemma cells_cons n v l : cells n (v :: l) = le_enc n v ++ cells n l.
Proof. done. Qed.

Lemma zlen_cells n l : zlen (cells n l) = Z.of_nat n * zlen l.
Proof. induction l as [|v l IH]; [unfold zlen; simpl; lia|]. rewrite cells_cons. zlen_solve. Qed.
#[local] Hint Rewrite zlen_cells : zlen.

Lemma getEncoded_eq iset pos enc :
  enc_ok enc ->
  _intsetGetEncoded iset pos enc =
    (bs ← mread (is_contents iset) (pos * enc) enc; Some (swrap (8 * enc) (le_dec bs))).
Proof. by intros [->|[->| ->]]. Qed.

Lemma set_eq iset pos v :
  enc_ok (is_encoding iset) ->
  _intsetSet iset pos v =
    with_contents iset <$>
      mwrite (is_contents iset) (pos * is_encoding iset) (le_enc (Z.to_nat (is_encoding iset)) v).
Proof. unfold _intsetSet. by intros [->|[->| ->]]. Qed.

Lemma moveTail_eq iset from to :
  enc_ok (is_encoding iset) ->
  intsetMoveTail iset from to =
    with_contents iset <$>
      memmove (is_contents iset) (to * is_encoding iset) (from * is_encoding iset)
        (u32 (u32 (is_length iset - from) * is_encoding iset)).
Proof. unfold intsetMoveTail. by intros [->|[->| ->]]. Qed.

Lemma enc_cell_id enc v :
  enc_ok enc -> in_signed (8 * enc) v ->
  swrap (8 * enc) (le_dec (le_enc (Z.to_nat enc) v)) = v.
Proof.
  intros He Hv. rewrite le_dec_enc, Z2Nat.id, swrap_wrap by (destruct He as [->|[->| ->]]; lia).
  apply swrap_small; [destruct He as [->|[->| ->]]; lia | done].
Qed.

Lemma getEncoded_split iset enc l1 v l2 rest :
  enc_ok enc -> in_signed (8 * enc) v ->
  is_contents iset = cells (Z.to_nat enc) (l1 ++ v :: l2) ++ rest ->
  _intsetGetEncoded iset (zlen l1) enc = Some v.
Proof.
  intros He Hv Hc. rewrite getEncoded_eq by done.
  rewrite Hc, cells_app, cells_cons, <- !app_assoc.
  rewrite mread_app; simpl; [by rewrite enc_cell_id | |];
    destruct He as [->|[->| ->]]; zlen_solve.
Qed.

Lemma split_at {A} (l : list A) (k : nat) (v : A) :
  l !! k = Some v -> l = take k l ++ v :: drop (S k) l.
Proof. intros. symmetry. by apply take_drop_middle. Qed.

Lemma get_cells iset l (i : Z) v :
  enc_ok (is_encoding iset) -> is_contents iset = cells (Z.to_nat (is_encoding iset)) l ->
  Forall (in_signed (8 * is_encoding iset)) l ->
  0 <= i -> l !! Z.to_nat i = Some v -> _intsetGet iset i = Some v.
Proof.
  intros He Hc Hf Hi Hv. unfold _intsetGet.
  pose proof (lookup_lt_Some _ _ _ Hv) as Hlt.
  rewrite (split_at _ _ _ Hv) in Hc.
  replace i with (zlen (take (Z.to_nat i) l))
    by (unfold zlen; rewrite length_take; lia).
  eapply getEncoded_split with (rest := []); [done | | by rewrite app_nil_r].
  by eapply (Forall_lookup_1 _ _ _ _ Hf).
Qed.

Lemma rep_get iset l (i : Z) v :
  intset_rep iset l -> 0 <= i -> l !! Z.to_nat i = Some v -> _intsetGet iset i = Some v.
Proof. intros [????]. by apply get_cells. Qed.

(** What a search for [value] reports about the list. *)
Definition search_spec (l : list Z) (value : Z) (res : bool * Z) : Prop :=
  if res.1 then 0 <= res.2 < zlen l /\ l !! Z.to_nat res.2 = Some value
  else 0 <= res.2 <= zlen l
       /\ (forall k v, l !! k = Some v -> Z.of_nat k < res.2 -> v < value)
       /\ (forall k v, l !! k = Some v -> res.2 <= Z.of_nat k -> value < v).

Section search.
Context (iset : intset) (l : list Z) (value : Z).
Context (Hrep : intset_rep iset l) (Hsmall : small_set l).

Lemma mid_value (min max : Z) :
  0 <= min <= max -> max < zlen l ->
  i32 (u32 (u32 min + u32 max) >>> 1) = (min + max) / 2.
Proof.
  unfold small_set in Hsmall. intros.
  rewrite (wrap_small _ min), (wrap_small _ max), wrap_small by lia.
  rewrite Z.shiftr_div_pow2 by lia. change (2 ^ 1) with 2.
  apply swrap_small; [lia|]. unfold in_signed. change (2 ^ (32 - 1)) with 2147483648. div_lia.
Qed.

Lemma search_loop_spec fuel min max mid cur :
  (Z.to_nat (max - min + 1) < fuel)%nat ->
  0 <= min -> max < zlen l -> min <= max + 1 ->
  (forall k v, l !! k = Some v -> Z.of_nat k < min -> v < value) ->
  (forall k v, l !! k = Some v -> max < Z.of_nat k -> value < v) ->
  min <= max \/ cur <> value ->
  exists min' mid' cur',
    intsetSearch_loop fuel iset value min max mid cur = Some (min', mid', cur') /\
    search_spec l value (if value =? cur' then (true, mid') else (false, min')).
Proof.
  revert min max mid cur. induction fuel as [|fuel IH]; intros min max mid cur
    Hfuel Hmin Hmax Hle Hlo Hhi Hcur; [lia|]. simpl.
  destruct (Z.geb_spec max min).
  - rewrite mid_value by lia. set (m := (min + max) / 2).
    assert (min <= m <= max) by (unfold m; div_lia).
    destruct (lookup_Z_lt l m) as [c Hc]; [lia|].
    erewrite rep_get by (eauto; lia). simpl.
    pose proof (sorted_lookup Z.lt l) as Hs. pose proof (rep_sorted _ _ Hrep) as Hso.
    destruct (Z.gtb_spec value c); [|destruct (Z.ltb_spec value c)].
    + apply IH; try lia; [|eauto].
      intros k v Hv Hk. destruct (decide (k = Z.to_nat m)); [simplify_eq; lia|].
      specialize (Hs k (Z.to_nat m) v c Hso Hv Hc). lia.
    + apply IH; try lia; [eauto|].
      intros k v Hv Hk. destruct (decide (k = Z.to_nat m)); [simplify_eq; lia|].
      specialize (Hs (Z.to_nat m) k c v Hso Hc Hv). lia.
    + assert (value = c) by lia; subst c. do 3 eexists; split; [done|].
      rewrite Z.eqb_refl. split; [simpl; lia|done].
  - do 3 eexists; split; [done|]. destruct (Z.eqb_spec value cur); [lia|].
    split; [simpl; lia|]. split; simpl; intros k v Hv Hk; [eauto|].
    apply (Hhi k v Hv). lia.
Qed.

Lemma search_correct :
  exists res, intsetSearch iset value = Some res /\ search_spec l value res.
Proof.
  unfold intsetSearch. rewrite (rep_len _ _ Hrep). unfold small_set in Hsmall.
  pose proof (zlen_nonneg l).
  destruct (Z.eqb_spec (zlen l) 0) as [H0|H0].
  { exists (false, 0). split; [done|]. destruct l; [|unfold zlen in *; simpl in *; lia].
    by repeat split. }
  rewrite wrap_small, swrap_small by (unfold in_signed; simpl; lia).
  pose proof (sorted_lookup Z.lt l) as Hs. pose proof (rep_sorted _ _ Hrep) as Hso.
  destruct (lookup_Z_lt l (zlen l - 1)) as [vmax Hvmax]; [lia|].
  destruct (lookup_Z_lt l 0) as [vmin Hvmin]; [lia|].
  rewrite (rep_get iset l (zlen l - 1) vmax) by (done || lia). sbind.
  destruct (Z.gtb_spec value vmax).
  { eexists; split; [done|]. split; [simpl; lia|]. split; simpl; intros k v Hv Hk.
    - destruct (decide (k = Z.to_nat (zlen l - 1))); [simplify_eq; lia|].
      specialize (Hs _ _ _ _ Hso Hv Hvmax). lia.
    - apply lookup_lt_Some in Hv. unfold zlen in *. lia. }
  rewrite (rep_get iset l 0 vmin) by (done || lia). sbind.
  destruct (Z.ltb_spec value vmin).
  { eexists; split; [done|]. split; [simpl; lia|]. split; simpl; intros k v Hv Hk; [lia|].
    destruct (decide (k = 0%nat)) as [->|]; [change (Z.to_nat 0) with 0%nat in *; simplify_eq; lia|].
    specialize (Hs _ _ _ _ Hso Hvmin Hv). lia. }
  destruct (search_loop_spec (S (Z.to_nat (zlen l))) 0 (zlen l - 1) (-1) (-1))
    as (mn & md & cu & -> & Hsp); try lia.
  { intros k v Hv Hk. apply lookup_lt_Some in Hv. unfold zlen in *. lia. }
  simpl. destruct (Z.eqb_spec value cu); eexists; (split; [done|]); 
    unfold search_spec in *; simpl in *; rewrite wrap_small by lia; done.
Qed.
End search.

(** ** Updates *)

Lemma enc_ok_pos e : enc_ok e -> 2 <= e <= 8.
Proof. intros [->|[->| ->]]; lia. Qed.

Lemma valueEncoding_ok v : enc_ok (_intsetValueEncoding v).
Proof. unfold _intsetValueEncoding, enc_ok. repeat case_match; auto. Qed.

Ltac signed_norm :=
  unfold in_signed in *;
  change (2 ^ (8 * 2 - 1)) with 32768 in *; change (2 ^ (8 * 4 - 1)) with 2147483648 in *;
  change (2 ^ (8 * 8 - 1)) with 9223372036854775808 in *;
  change (2 ^ (64 - 1)) with 9223372036854775808 in *.

(** An encoding is wide enough for a value exactly when the value fits it. *)
Lemma valueEncoding_spec v e :
  enc_ok e -> in_signed 64 v -> _intsetValueEncoding v <= e <-> in_signed (8 * e) v.
Proof.
  unfold _intsetValueEncoding, INT32_MIN, INT32_MAX, INT16_MIN, INT16_MAX,
    INTSET_ENC_INT64, INTSET_ENC_INT32, INTSET_ENC_INT16.
  intros [->|[->| ->]]; repeat case_match; signed_norm; lia.
Qed.

Lemma fits_mono e e' v : enc_ok e -> enc_ok e' -> e <= e' -> in_signed (8 * e) v -> in_signed (8 * e') v.
Proof. intros [->|[->| ->]] [->|[->| ->]]; signed_norm; lia. Qed.

Lemma resize_eq fresh iset len :
  enc_ok (is_encoding iset) -> 0 <= len < 2 ^ 32 ->
  intsetResize fresh iset len =
    Some (with_contents iset (zrealloc fresh (is_contents iset) (len * is_encoding iset))).
Proof.
  intros He%enc_ok_pos Hlen. unfold intsetResize, SIZE_MAX, sizeof_intset.
  rewrite wrap_small by nia. by rewrite (proj2 (Z.leb_le _ _)) by nia.
Qed.

Lemma moveTail_ins iset c1 c2 e n :
  enc_ok (is_encoding iset) -> is_contents iset = c1 ++ c2 ++ e ->
  zlen c1 = n * is_encoding iset -> zlen c2 = (is_length iset - n) * is_encoding iset ->
  zlen e = is_encoding iset -> 0 <= n <= is_length iset -> is_length iset < 2 ^ 29 ->
  exists x, intsetMoveTail iset n (n + 1) = Some (with_contents iset (c1 ++ x ++ c2))
            /\ zlen x = is_encoding iset.
Proof.
  intros He Hc H1 H2 H3 Hn Hl. rewrite moveTail_eq by done. pose proof (enc_ok_pos _ He).
  rewrite (wrap_small 32 (is_length iset - n)), wrap_small by nia.
  destruct (split_zlen (c2 ++ e) (is_encoding iset)) as (x & y & Hxy & Hx).
  { rewrite zlen_app. pose proof (zlen_nonneg c2). lia. }
  apply (f_equal zlen) in Hxy as Hxyl. rewrite !zlen_app in Hxyl.
  exists x. split; [|done].
  erewrite (memmove_app _ c1 c2 e (c1 ++ x) y []); rewrite ?Hc, ?app_nil_r, ?zlen_app; try lia.
  - simpl. by rewrite <- app_assoc.
  - done.
  - by rewrite Hxy, app_assoc.
Qed.

Lemma moveTail_del iset c1 cv c2 n :
  enc_ok (is_encoding iset) -> is_contents iset = c1 ++ cv ++ c2 ->
  zlen c1 = n * is_encoding iset -> zlen c2 = (is_length iset - n - 1) * is_encoding iset ->
  zlen cv = is_encoding iset -> 0 <= n < is_length iset -> is_length iset < 2 ^ 29 ->
  exists z, intsetMoveTail iset (n + 1) n = Some (with_contents iset (c1 ++ c2 ++ z)).
Proof.
  intros He Hc H1 H2 H3 Hn Hl. rewrite moveTail_eq by done. pose proof (enc_ok_pos _ He).
  rewrite (wrap_small 32 (is_length iset - (n + 1))), wrap_small by nia.
  destruct (split_zlen (cv ++ c2) (zlen c2)) as (y & z & Hyz & Hy).
  { rewrite zlen_app. pose proof (zlen_nonneg c2). lia. }
  exists z.
  erewrite (memmove_app _ (c1 ++ cv) c2 [] c1 y z); rewrite ?Hc, ?app_nil_r, ?zlen_app; try lia.
  - done.
  - by rewrite <- app_assoc.
  - by rewrite Hyz.
Qed.

Lemma set_app iset a b c pos v :
  enc_ok (is_encoding iset) -> is_contents iset = a ++ b ++ c ->
  zlen a = pos * is_encoding iset -> zlen b = is_encoding iset ->
  _intsetSet iset pos v =
    Some (with_contents iset (a ++ le_enc (Z.to_nat (is_encoding iset)) v ++ c)).
Proof.
  intros He Hc Ha Hb. rewrite set_eq by done. pose proof (enc_ok_pos _ He).
  rewrite Hc, (mwrite_app a b c); [done | lia |].
  rewrite length_le_enc. unfold zlen in *. lia.
Qed.

(** A failed search splits the list where the value belongs. *)
Lemma search_miss_split l value pos :
  search_spec l value (false, pos) ->
  exists l1 l2, l = l1 ++ l2 /\ zlen l1 = pos
    /\ (forall x, x ∈ l1 -> x < value) /\ (forall x, x ∈ l2 -> value < x).
Proof.
  intros (Hp & Hlo & Hhi). simpl in *.
  destruct (split_zlen l pos Hp) as (l1 & l2 & -> & Hl). exists l1, l2.
  split; [done|]. split; [done|]. unfold zlen in Hl.
  split; intros x [k Hk]%list_elem_of_lookup; pose proof (lookup_lt_Some _ _ _ Hk).
  - apply (Hlo k x); [by apply lookup_app_l_Some | lia].
  - apply (Hhi (length l1 + k)%nat x); [|lia].
    rewrite lookup_app_r by lia. by replace (_ + k - _)%nat with k by lia.
Qed.

Lemma rep_insert iset l1 v l2 :
  enc_ok (is_encoding iset) -> Forall (in_signed (8 * is_encoding iset)) (l1 ++ l2) ->
  StronglySorted Z.lt (l1 ++ l2) -> in_signed (8 * is_encoding iset) v ->
  (forall x, x ∈ l1 -> x < v) -> (forall x, x ∈ l2 -> v < x) ->
  is_length iset = zlen (l1 ++ v :: l2) ->
  is_contents iset = cells (Z.to_nat (is_encoding iset)) (l1 ++ v :: l2) ->
  intset_rep iset (l1 ++ v :: l2).
Proof.
  intros He Hf Hs Hv H1 H2 Hl Hc. split; try done; [|by apply sorted_insert].
  rewrite Forall_app in *. rewrite Forall_cons. tauto.
Qed.

Lemma add_in_place fresh iset l value :
  intset_rep iset l -> small_set l -> in_signed (8 * is_encoding iset) value ->
  _intsetValueEncoding value <= is_encoding iset ->
  if decide (value ∈ l) then intsetAdd fresh iset value = Some (iset, false)
  else exists iset' l1 l2, intsetAdd fresh iset value = Some (iset', true)
         /\ l = l1 ++ l2 /\ intset_rep iset' (l1 ++ value :: l2).
Proof.
  intros Hrep Hsm Hfit Hve. unfold intsetAdd.
  destruct (Z.gtb_spec (_intsetValueEncoding value) (is_encoding iset)); [lia|].
  destruct (search_correct iset l value Hrep Hsm) as ([[] pos] & -> & Hsp); sbind.
  - destruct Hsp as [_ Hsp]. rewrite decide_True; [done|]. by eapply list_elem_of_lookup_2.
  - destruct (search_miss_split _ _ _ Hsp) as (l1 & l2 & -> & Hpos & H1 & H2).
    rewrite decide_False.
    2: { intros [?%H1|?%H2]%elem_of_app; lia. }
    pose proof Hrep as [He Hl Hc Hf Hs]. pose proof (enc_ok_pos _ He).
    unfold small_set in Hsm. rewrite zlen_app in Hsm, Hl.
    pose proof (zlen_nonneg l1). pose proof (zlen_nonneg l2).
    rewrite (wrap_small 32 (is_length iset + 1)), resize_eq by (done || lia). sbind.
    rewrite cells_app in Hc.
    destruct (zrealloc_grow fresh (is_contents iset) ((is_length iset + 1) * is_encoding iset))
      as (e & -> & Hle). { rewrite Hc. zlen_solve. }
    set (iset1 := with_contents iset _).
    set (n := Z.to_nat (is_encoding iset)) in *.
    assert (zlen (cells n l1) = pos * is_encoding iset) by (rewrite zlen_cells; nia).
    assert (Hc2 : zlen (cells n l2) = (is_length iset - pos) * is_encoding iset)
      by (rewrite zlen_cells; nia).
    assert (Hle' : zlen e = is_encoding iset)
      by (rewrite Hle, Hc, zlen_app, !zlen_cells; nia).
    assert (exists x, (if pos <? is_length iset1 then intsetMoveTail iset1 pos (u32 (pos + 1))
                       else Some iset1) =
              Some (with_contents iset1 (cells n l1 ++ x ++ cells n l2)) /\ zlen x = is_encoding iset)
      as (x & -> & Hx).
    { destruct (Z.ltb_spec pos (is_length iset1)); simpl in *.
      - rewrite wrap_small by lia. apply (moveTail_ins iset1 _ _ e); simpl; try done; try lia.
        by rewrite Hc, app_assoc.
      - destruct l2; [|unfold zlen in *; simpl in *; lia].
        exists e. split; [|done]. unfold iset1. by rewrite Hc, !app_nil_r. }
    sbind. rewrite swrap_small by (unfold in_signed; simpl; lia).
    rewrite (set_app _ (cells n l1) x (cells n l2)) by (simpl; done || lia). sbind.
    eexists _, l1, l2. split; [done|]. split; [done|].
    apply rep_insert; simpl; try done; [rewrite wrap_small; zlen_solve|].
    by rewrite cells_app.
Qed.

(** The back-to-front re-encoding loop: with [k] records left to move, the
    blob starts with those records in the old encoding and ends with the moved
    ones in the new encoding. *)
Lemma upgrade_loop_spec cur prepend l tail (k : nat) iset junk :
  enc_ok cur -> enc_ok (is_encoding iset) -> cur <= is_encoding iset -> 0 <= prepend ->
  (k <= length l)%nat -> Forall (in_signed (8 * cur)) l ->
  is_contents iset =
    cells (Z.to_nat cur) (take k l) ++ junk ++
    cells (Z.to_nat (is_encoding iset)) (drop k l) ++ tail ->
  zlen junk = (Z.of_nat k + prepend) * is_encoding iset - Z.of_nat k * cur ->
  exists junk', zlen junk' = prepend * is_encoding iset /\
    upgrade_loop k iset cur prepend =
      Some (with_contents iset (junk' ++ cells (Z.to_nat (is_encoding iset)) l ++ tail)).
Proof.
  revert iset junk. induction k as [|k IH]; intros iset junk Hcur He Hle Hp Hk Hf Hc Hj.
  - exists junk. split; [lia|]. simpl in *. f_equal. destruct iset; simpl in *. by subst.
  - simpl. destruct (lookup_lt_is_Some_2 l k) as [v Hv]; [lia|].
    pose proof (enc_ok_pos _ Hcur). pose proof (enc_ok_pos _ He).
    assert (Hfv : in_signed (8 * cur) v) by by eapply (Forall_lookup_1 _ _ _ _ Hf).
    rewrite (take_S_r _ _ _ Hv) in Hc.
    assert (Htk : zlen (take k l) = Z.of_nat k) by (unfold zlen; rewrite length_take; lia).
    pose proof (getEncoded_split _ _ (take k l) v [] _ Hcur Hfv Hc) as Hget.
    rewrite Htk in Hget. rewrite Hget. sbind.
    rewrite cells_app, <- !app_assoc in Hc.
    assert (Hcv : zlen (cells (Z.to_nat cur) [v]) = cur)
      by (rewrite zlen_cells; unfold zlen; simpl; lia).
    destruct (split_zlen (cells (Z.to_nat cur) [v] ++ junk)
      ((Z.of_nat k + prepend) * is_encoding iset - Z.of_nat k * cur)) as (j1 & old & Hspl & Hj1).
    { rewrite zlen_app, Hcv, Hj, Nat2Z.inj_succ. nia. }
    apply (f_equal zlen) in Hspl as Hspll. rewrite !zlen_app, Hcv in Hspll.
    assert (Hc' : is_contents iset = (cells (Z.to_nat cur) (take k l) ++ j1) ++ old ++
              cells (Z.to_nat (is_encoding iset)) (drop (S k) l) ++ tail).
    { rewrite Hc, (app_assoc (cells _ [v])), Hspl, <- !app_assoc. done. }
    rewrite (set_app _ _ _ _ _ _ He Hc') by (rewrite ?zlen_app, ?zlen_cells; nia). sbind.
    destruct (IH (with_contents iset ((cells (Z.to_nat cur) (take k l) ++ j1) ++
         le_enc (Z.to_nat (is_encoding iset)) v ++
         cells (Z.to_nat (is_encoding iset)) (drop (S k) l) ++ tail)) j1)
      as (j' & Hj' & ->); simpl; try done; try lia.
    { rewrite (drop_S _ _ _ Hv), cells_cons, <- !app_assoc. done. }
    exists j'. by split.
Qed.

Lemma upgrade_spec fresh iset l value :
  intset_rep iset l -> small_set l -> in_signed 64 value ->
  is_encoding iset < _intsetValueEncoding value ->
  exists iset' l1 l2, intsetUpgradeAndAdd fresh iset value = Some iset'
    /\ l = l1 ++ l2 /\ intset_rep iset' (l1 ++ value :: l2).
Proof.
  intros Hrep Hsm Hv Hlt. pose proof Hrep as [He Hl Hc Hf Hs]. unfold small_set in Hsm.
  pose proof (enc_ok_pos _ He). set (ve := _intsetValueEncoding value) in *.
  pose proof (valueEncoding_ok value : enc_ok ve) as Hve. pose proof (enc_ok_pos _ Hve).
  pose proof (zlen_nonneg l).
  assert (Hnf : ~ in_signed (8 * is_encoding iset) value).
  { intros Hin. apply (valueEncoding_spec value _ He Hv) in Hin. fold ve in Hin. lia. }
  assert (Hfit : in_signed (8 * ve) value) by (apply valueEncoding_spec; done).
  assert (Hfits : Forall (in_signed (8 * ve)) l).
  { eapply Forall_impl; [exact Hf|]. intros x. apply fits_mono; done || lia. }
  unfold intsetUpgradeAndAdd. fold ve.
  rewrite (wrap_small 8), (wrap_small 32 (is_length iset + 1)) by lia.
  rewrite resize_eq by (done || simpl; lia). sbind. simpl.
  destruct (zrealloc_grow fresh (is_contents iset) ((is_length iset + 1) * ve))
    as (e & -> & Hle). { rewrite Hc, zlen_cells. nia. }
  rewrite Hc, zlen_cells in Hle.
  rewrite swrap_small by (unfold in_signed; simpl; lia).
  set (prepend := if value <? 0 then 1 else 0).
  assert (exists junk tail, e = junk ++ tail /\ zlen tail = (1 - prepend) * ve) as (junk & tail & -> & Htail).
  { destruct (split_zlen e (zlen e - (1 - prepend) * ve)) as (a & b & -> & ?).
    { rewrite Hle. unfold prepend. case_match; nia. }
    exists a, b. split; [done|]. rewrite zlen_app in *. lia. }
  rewrite zlen_app in Hle.
  assert (0 <= prepend <= 1) by (unfold prepend; case_match; lia).
  destruct (upgrade_loop_spec (is_encoding iset) prepend l tail (Z.to_nat (is_length iset))
    (with_contents (with_encoding iset ve) (is_contents iset ++ junk ++ tail)) junk)
    as (j' & Hj' & ->); simpl; try done; try lia.
  { unfold zlen in *; lia. }
  { rewrite Hc, Hl, to_nat_zlen, firstn_all, drop_all. done. }
  sbind. simpl in *. unfold prepend in *. destruct (Z.ltb_spec value 0); simpl.
  - rewrite (set_app _ [] j' (cells (Z.to_nat ve) l ++ tail)) by (simpl; done || lia). sbind.
    destruct tail; [|unfold zlen in *; simpl in *; lia].
    eexists _, [], l. split; [done|]. split; [done|]. simpl. rewrite app_nil_r.
    apply (rep_insert _ [] value l); simpl; try done.
    + intros x ?%elem_of_nil. done.
    + intros x Hx. rewrite Forall_forall in Hf. specialize (Hf x Hx).
      unfold in_signed in *. lia.
    + rewrite wrap_small; zlen_solve.
    + by rewrite app_nil_r.
  - rewrite swrap_small by (unfold in_signed; simpl; lia).
    destruct j'; [|unfold zlen in *; simpl in *; lia].
    rewrite (set_app _ (cells (Z.to_nat ve) l) tail []);
      [| done | by rewrite app_nil_r | simpl; rewrite zlen_cells; nia | simpl; lia ]. sbind.
    eexists _, l, []. split; [done|]. split; [by rewrite app_nil_r|]. simpl.
    apply rep_insert; simpl; rewrite ?app_nil_r; try done.
    + intros x Hx. rewrite Forall_forall in Hf. specialize (Hf x Hx).
      unfold in_signed in *. lia.
    + intros x ?%elem_of_nil. done.
    + rewrite wrap_small; zlen_solve.
    + rewrite cells_app, cells_cons. change (cells (Z.to_nat ve) []) with (@nil Z).
      by rewrite ?app_nil_r.
Qed.

(** ** The operations implement a finite set of integers *)

(** C35: adding a 64-bit value to a well-formed intset never touches memory out
    of the blob, leaves a well-formed intset that holds exactly the old members
    and the value, re-encoding the records when the value needs a wider one,
    and reports success exactly when the value was not there before; the set has
    fewer than 2^29 - 1 members. *)
Theorem intsetAdd_correct fresh iset l value :
  intset_rep iset l -> small_set l -> in_signed 64 value ->
  exists iset' l', intsetAdd fresh iset value = Some (iset', bool_decide (value ∉ l))
    /\ intset_rep iset' l' /\ (forall x, x ∈ l' <-> x = value \/ x ∈ l).
Proof.
  intros Hrep Hsm Hv. pose proof (rep_enc _ _ Hrep) as He.
  destruct (decide (_intsetValueEncoding value <= is_encoding iset)) as [Hle|Hgt].
  - pose proof (proj1 (valueEncoding_spec _ _ He Hv) Hle) as Hfit.
    pose proof (add_in_place fresh _ _ _ Hrep Hsm Hfit Hle) as Hadd.
    destruct (decide (value ∈ l)) as [Hin|Hin].
    + exists iset, l. rewrite bool_decide_false by tauto. split; [done|]. split; [done|].
      intros x. split; [tauto|]. by intros [->|].
    + destruct Hadd as (iset' & l1 & l2 & -> & -> & Hrep').
      exists iset', (l1 ++ value :: l2). rewrite bool_decide_true by done.
      split; [done|]. split; [done|]. intros x. rewrite !elem_of_app, elem_of_cons. tauto.
  - assert (Hn : value ∉ l).
    { intros Hin. apply Hgt. apply valueEncoding_spec; try done.
      pose proof (rep_fits _ _ Hrep) as Hf. rewrite Forall_forall in Hf. by apply Hf. }
    destruct (upgrade_spec fresh _ _ value Hrep Hsm Hv ltac:(lia))
      as (iset' & l1 & l2 & Hup & -> & Hrep').
    exists iset', (l1 ++ value :: l2). rewrite bool_decide_true by done.
    unfold intsetAdd. rewrite (proj2 (Z.gtb_lt _ _)) by lia. rewrite Hup.
    split; [done|]. split; [done|]. intros x. rewrite !elem_of_app, elem_of_cons. tauto.
Qed.

Lemma remove_spec fresh iset l value :
  intset_rep iset l -> small_set l -> in_signed 64 value -> value ∈ l ->
  exists iset' l1 l2, intsetRemove fresh iset value = Some (iset', true)
    /\ l = l1 ++ value :: l2 /\ intset_rep iset' (l1 ++ l2).
Proof.
  intros Hrep Hsm Hv Hin. pose proof Hrep as [He Hl Hc Hf Hs].
  pose proof (enc_ok_pos _ He). unfold small_set in Hsm.
  assert (Hfit : in_signed (8 * is_encoding iset) value) by by eapply Forall_forall in Hf.
  unfold intsetRemove.
  rewrite (proj2 (Z.leb_le _ _)) by (by apply valueEncoding_spec).
  destruct (search_correct iset l value Hrep Hsm) as ([[] pos] & -> & Hsp); sbind.
  2: { destruct (search_miss_split _ _ _ Hsp) as (l1 & l2 & -> & _ & H1 & H2).
       apply elem_of_app in Hin as [?%H1|?%H2]; lia. }
  destruct Hsp as [Hpos Hlk]; simpl in *. apply split_at in Hlk.
  set (l1 := take (Z.to_nat pos) l) in *. set (l2 := drop (S (Z.to_nat pos)) l) in *.
  assert (Hl1 : zlen l1 = pos) by (unfold l1, zlen in *; rewrite length_take; lia).
  assert (Hll : zlen l = zlen l1 + 1 + zlen l2) by (rewrite Hlk; zlen_solve).
  set (n := Z.to_nat (is_encoding iset)) in *.
  assert (Hc' : is_contents iset = cells n l1 ++ le_enc n value ++ cells n l2)
    by (by rewrite Hc, Hlk, cells_app, cells_cons).
  pose proof (zlen_nonneg l2).
  assert (exists z, (if pos <? u32 (is_length iset - 1)
                     then intsetMoveTail iset (u32 (pos + 1)) pos else Some iset) =
            Some (with_contents iset (cells n l1 ++ cells n l2 ++ z))) as (z & ->).
  { rewrite (wrap_small 32 (is_length iset - 1)) by lia.
    destruct (Z.ltb_spec pos (is_length iset - 1)).
    - rewrite wrap_small by lia.
      apply (moveTail_del iset _ (le_enc n value)); try done; rewrite ?zlen_cells, ?zlen_le_enc; nia.
    - destruct l2; [|unfold zlen in *; simpl in *; lia].
      exists (le_enc n value). change (cells n []) with (@nil Z) in *.
      rewrite app_nil_r in Hc'. simpl. rewrite <- Hc'. by destruct iset. }
  sbind. rewrite (wrap_small 32 (is_length iset - 1)) by lia.
  rewrite resize_eq by (done || lia). sbind.
  eexists _, l1, l2. split; [done|]. split; [done|].
  rewrite Hlk in Hf, Hs. split; simpl; try done.
  - zlen_solve.
  - rewrite app_assoc, zrealloc_shrink; [by rewrite cells_app|]. rewrite zlen_app, !zlen_cells. nia.
  - rewrite Forall_app, Forall_cons in *. tauto.
  - by eapply sorted_delete.
Qed.

(** Removing a value from a well-formed intset keeps it well formed, drops
    exactly that value and reports whether it was there. *)
Theorem intsetRemove_correct fresh iset l value :
  intset_rep iset l -> small_set l -> in_signed 64 value ->
  exists iset' l', intsetRemove fresh iset value = Some (iset', bool_decide (value ∈ l))
    /\ intset_rep iset' l' /\ (forall x, x ∈ l' <-> x <> value /\ x ∈ l).
Proof.
  intros Hrep Hsm Hv. destruct (decide (value ∈ l)) as [Hin|Hin].
  - destruct (remove_spec fresh _ _ _ Hrep Hsm Hv Hin) as (iset' & l1 & l2 & -> & -> & Hrep').
    exists iset', (l1 ++ l2). rewrite bool_decide_true by done.
    split; [done|]. split; [done|].
    pose proof (rep_sorted _ _ Hrep) as Hs. apply StronglySorted_app in Hs as (H1 & H2 & H3).
    inversion H3 as [|?? _ H4]; subst. rewrite Forall_forall in H4. intros x.
    rewrite !elem_of_app, elem_of_cons. split; [|tauto].
    intros [Hx|Hx]; (split; [|tauto]).
    + specialize (H1 x value Hx ltac:(by left)). lia.
    + specialize (H4 x Hx). lia.
  - exists iset, l. rewrite bool_decide_false by done. unfold intsetRemove. split.
    2: { split; [done|]. intros x; split; [|tauto]. intros; split; [by intros ->|done]. }
    case_match; [|done].
    destruct (search_correct iset l value Hrep Hsm) as ([[] pos] & -> & Hsp); sbind; [|done].
    destruct Hsp as [_ Hsp]. by apply list_elem_of_lookup_2 in Hsp.
Qed.

(** Membership tests on a well-formed intset answer for the represented set. *)
Theorem intsetFind_correct iset l value :
  intset_rep iset l -> small_set l -> in_signed 64 value ->
  intsetFind iset value = Some (bool_decide (value ∈ l)).
Proof.
  intros Hrep Hsm Hv. unfold intsetFind.
  destruct (Z.leb_spec (_intsetValueEncoding value) (is_encoding iset)) as [Hle|Hgt].
  - destruct (search_correct iset l value Hrep Hsm) as ([[] pos] & -> & Hsp); simpl; f_equal.
    + destruct Hsp as [_ Hsp]. apply list_elem_of_lookup_2 in Hsp. by rewrite bool_decide_true.
    + destruct (search_miss_split _ _ _ Hsp) as (l1 & l2 & -> & _ & H1 & H2).
      rewrite bool_decide_false; [done|]. intros [?%H1|?%H2]%elem_of_app; lia.
  - rewrite bool_decide_false; [done|]. intros Hin.
    pose proof (rep_fits _ _ Hrep) as Hf. rewrite Forall_forall in Hf.
    specialize (Hf _ Hin). apply valueEncoding_spec in Hf; [lia | | done].
    exact (rep_enc _ _ Hrep).
Qed.

(** ** Validation of untrusted payloads *)

(** The integers a region of [n] records holds. *)
Fixpoint decode_cells (n : nat) (e : Z) (m : list Z) : list Z :=
  match n with
  | O => []
  | S n => swrap (8 * e) (le_dec (take (Z.to_nat e) m)) :: decode_cells n e (drop (Z.to_nat e) m)
  end.

Lemma decode_cells_length n e m : length (decode_cells n e m) = n.
Proof. revert m; induction n; simpl; auto. Qed.

Lemma decode_cells_spec n e m :
  enc_ok e -> bytes_ok m -> zlen m = Z.of_nat n * e ->
  cells (Z.to_nat e) (decode_cells n e m) = m /\
  Forall (in_signed (8 * e)) (decode_cells n e m).
Proof.
  intros He. pose proof (enc_ok_pos _ He). revert m. induction n as [|n IH]; intros m Hm Hl.
  - destruct m; [done|]. unfold zlen in Hl; simpl in Hl; lia.
  - cbn [decode_cells]. rewrite cells_cons.
    destruct (split_zlen m e) as (a & b & -> & Ha); [nia|].
    apply Forall_app in Hm as [Hma Hmb]. rewrite zlen_app in Hl.
    assert (Hla : Z.to_nat e = length a) by (unfold zlen in Ha; lia).
    rewrite Hla, take_app_length, drop_app_length.
    destruct (IH b Hmb ltac:(lia)) as [IH1 IH2]. split.
    + rewrite <- Hla at 2. rewrite IH1. f_equal.
      rewrite <- (le_enc_wrap (length a)). fold (zlen a). rewrite Ha, wrap_swrap by lia.
      rewrite <- Ha, wrap_small by (by apply le_dec_range). by apply le_enc_dec.
    + constructor; [|done]. apply swrap_range. lia.
Qed.

Lemma cells_inj e l1 l2 :
  enc_ok e -> Forall (in_signed (8 * e)) l1 -> Forall (in_signed (8 * e)) l2 ->
  cells (Z.to_nat e) l1 = cells (Z.to_nat e) l2 -> l1 = l2.
Proof.
  intros He H1. pose proof (enc_ok_pos _ He).
  revert l2. induction H1 as [|x l1 Hx _ IH]; intros l2 H2 Heq.
  - destruct l2; [done|]. apply (f_equal zlen) in Heq. revert Heq.
    rewrite cells_cons. zlen_solve.
  - destruct H2 as [|y l2 Hy H2].
    { apply (f_equal zlen) in Heq. revert Heq. rewrite cells_cons. zlen_solve. }
    rewrite !cells_cons in Heq. apply app_inj_1 in Heq as [Hxy Heq]; [|by rewrite !length_le_enc].
    f_equal; [|by apply IH].
    rewrite <- (enc_cell_id e x), <- (enc_cell_id e y), Hxy; done.
Qed.

Lemma check_order_spec iset l1 prev l2 :
  enc_ok (is_encoding iset) ->
  is_contents iset = cells (Z.to_nat (is_encoding iset)) (l1 ++ prev :: l2) ->
  Forall (in_signed (8 * is_encoding iset)) (l1 ++ prev :: l2) ->
  zlen (l1 ++ prev :: l2) < 2 ^ 31 ->
  exists b, check_order (length l2) iset (zlen l1 + 1) prev = Some b
    /\ (b = true <-> Sorted Z.lt (prev :: l2)).
Proof.
  intros He. revert l1 prev. induction l2 as [|x l2 IH]; intros l1 prev Hc Hf Hl; simpl.
  - exists true. split; [done|]. split; [|done]. by repeat constructor.
  - rewrite swrap_small by (unfold in_signed; simpl; zlen_solve).
    rewrite (get_cells _ _ _ x He Hc Hf) by
      (first [ zlen_solve |
        rewrite lookup_app_r by (unfold zlen; lia);
        replace (_ - _)%nat with 1%nat by (unfold zlen; lia); done ]).
    sbind. destruct (Z.leb_spec x prev).
    + exists false. split; [done|]. split; [done|]. intros Hs. inversion Hs as [|?? _ Hh]; subst.
      inversion Hh; subst; lia.
    + replace (l1 ++ prev :: x :: l2) with ((l1 ++ [prev]) ++ x :: l2) in * by (by rewrite <- app_assoc).
      destruct (IH _ _ Hc Hf Hl) as (b & Hb & Hiff). exists b.
      replace (zlen l1 + 1 + 1) with (zlen (l1 ++ [prev]) + 1) by zlen_solve.
      split; [done|]. rewrite Hiff. split.
      * intros. constructor; [done|]. by constructor.
      * intros Hs. by inversion Hs.
Qed.

(** C36: on a payload of fewer than 2^31 bytes the deep check never reads out of it,
    and accepts it exactly when it is the blob of a non-empty well-formed intset. *)
Theorem intsetValidateIntegrity_iff p :
  bytes_ok p -> zlen p < 2 ^ 31 ->
  exists b, intsetValidateIntegrity p true = Some b /\
    (b = true <-> sizeof_intset <= zlen p /\ exists l, l <> [] /\ intset_rep (intset_of_blob p) l).
Proof.
  intros Hp Hlen. unfold intsetValidateIntegrity, sizeof_intset.
  destruct (Z.ltb_spec (zlen p) 8) as [Hs|Hs].
  { exists false. split; [done|]. split; [done|]. lia. }
  set (iset := intset_of_blob p).
  assert (Hcl : zlen (is_contents iset) = zlen p - 8)
    by (unfold iset, zlen in *; simpl; rewrite length_drop; lia).
  assert (Hcb : bytes_ok (is_contents iset)) by (by apply Forall_drop).
  assert (Hcnt : 0 <= is_length iset < 2 ^ 32).
  { unfold iset; simpl. pose proof (le_dec_range (take 4 (drop 4 p))) as Hr.
    replace (8 * zlen _) with 32 in Hr by
      (unfold zlen in *; rewrite length_take, length_drop; lia).
    apply Hr. by apply Forall_take, Forall_drop. }
  destruct (negb _) eqn:Henc.
  { exists false. split; [done|]. split; [done|]. intros (_ & l & _ & [He _ _ _ _]).
    destruct He as [E|[E|E]]; fold iset in E; rewrite E in Henc; done. }
  assert (He : enc_ok (is_encoding iset)).
  { unfold enc_ok. rewrite negb_false_iff, !orb_true_iff, !Z.eqb_eq in Henc. tauto. }
  pose proof (enc_ok_pos _ He).
  rewrite (wrap_small 64 (is_length iset * is_encoding iset)), wrap_small by nia.
  destruct (Z.eqb_spec (8 + is_length iset * is_encoding iset) (zlen p)) as [Hsz|Hsz]; cbn [negb].
  2: { exists false. split; [done|]. split; [done|]. intros (_ & l & _ & [_ Hl Hc _ _]).
       fold iset in Hl, Hc. apply (f_equal zlen) in Hc. rewrite zlen_cells in Hc. nia. }
  destruct (Z.eqb_spec (is_length iset) 0) as [H0|H0].
  { exists false. split; [done|]. split; [done|]. intros (_ & [|x l] & Hne & [_ Hl _ _ _]); [done|].
    fold iset in Hl. rewrite zlen_cons in Hl. pose proof (zlen_nonneg l). lia. }
  set (l := decode_cells (Z.to_nat (is_length iset)) (is_encoding iset) (is_contents iset)).
  destruct (decode_cells_spec (Z.to_nat (is_length iset)) (is_encoding iset) (is_contents iset))
    as [Hdc Hdf]; try done; [lia|]. fold l in Hdc, Hdf. symmetry in Hdc.
  assert (Hll : zlen l = is_length iset) by (unfold l, zlen; rewrite decode_cells_length; lia).
  destruct l as [|prev l2] eqn:El; [rewrite zlen_nil in Hll; lia|].
  rewrite (get_cells _ _ 0 prev He Hdc Hdf) by done. sbind.
  destruct (check_order_spec iset [] prev l2 He Hdc Hdf) as (b & Hb & Hiff).
  { simpl. rewrite Hll. nia. }
  exists b. rewrite <- Hb. split.
  { f_equal. rewrite <- Hll, zlen_cons. unfold zlen. lia. }
  rewrite Hiff. split.
  - intros HS. split; [done|]. exists (prev :: l2). split; [done|]. split; try done.
    apply Sorted_StronglySorted; [|done]. intros x y z; lia.
  - intros (_ & l' & _ & Hrep'). fold iset in Hrep'.
    replace (prev :: l2) with l'; [apply StronglySorted_Sorted, Hrep'|].
    apply (cells_inj (is_encoding iset)); try done; [exact (rep_fits _ _ Hrep') |].
    rewrite <- Hdc. symmetry. apply Hrep'.
Qed.

(** C37: the byte count of the tail move is kept in 32 bits, so for 64-bit
    records a tail of [2^29] of them is a move of zero bytes: inserting in front
    of such a set, still below the [2^30] entries t_set.c allows, moves nothing. *)
Theorem intsetMoveTail_wraps iset :
  is_encoding iset = INTSET_ENC_INT64 -> is_length iset = 2 ^ 29 ->
  zlen (is_contents iset) = 8 * (2 ^ 29 + 1) ->
  intsetMoveTail iset 0 1 = Some iset.
Proof.
  intros He Hl Hc. rewrite moveTail_eq by (rewrite He; unfold enc_ok; auto).
  rewrite He, Hl. change (u32 (u32 (2 ^ 29 - 0) * INTSET_ENC_INT64)) with 0.
  destruct (split_zlen (is_contents iset) 8) as (a & b & Hab & Ha); [lia|].
  rewrite (memmove_app _ [] [] (is_contents iset) a [] b); try done.
  simpl. rewrite <- Hab. by destruct iset.
Qed.

(** ** Concrete runs *)

Definition ex_set : intset := mkIntset 2 3 (cells 2 [-5; 7; 300]).

Lemma ex_set_rep : intset_rep ex_set [-5; 7; 300].
Proof.
  split; try done.
  - by left.
  - repeat constructor; vm_compute; congruence.
  - repeat constructor.
Qed.

Lemma intsetAdd_correct_witness :
  exists iset' l', intsetAdd (fun _ => 99) ex_set 70000 = Some (iset', true)
    /\ intset_rep iset' l' /\ (forall x, x ∈ l' <-> x = 70000 \/ x ∈ [-5; 7; 300]).
Proof.
  apply (intsetAdd_correct (fun _ => 99) ex_set [-5; 7; 300] 70000 ex_set_rep).
  - vm_compute; congruence.
  - vm_compute; split; congruence.
Defined.

Lemma intsetRemove_correct_witness :
  exists iset' l', intsetRemove (fun _ => 99) ex_set 7 = Some (iset', true)
    /\ intset_rep iset' l' /\ (forall x, x ∈ l' <-> x <> 7 /\ x ∈ [-5; 7; 300]).
Proof.
  apply (intsetRemove_correct (fun _ => 99) ex_set [-5; 7; 300] 7 ex_set_rep).
  - vm_compute; congruence.
  - vm_compute; split; congruence.
Defined.

Lemma intsetFind_correct_witness : intsetFind ex_set 300 = Some true.
Proof.
  apply (intsetFind_correct ex_set [-5; 7; 300] 300 ex_set_rep).
  - vm_compute; congruence.
  - vm_compute; split; congruence.
Defined.

Lemma intsetValidateIntegrity_iff_witness :
  exists b, intsetValidateIntegrity (blob_of_intset ex_set) true = Some b /\
    (b = true <-> sizeof_intset <= zlen (blob_of_intset ex_set) /\
       exists l, l <> [] /\ intset_rep (intset_of_blob (blob_of_intset ex_set)) l).
Proof.
  apply (intsetValidateIntegrity_iff (blob_of_intset ex_set)).
  - repeat constructor; vm_compute; congruence.
  - vm_compute; congruence.
Defined.

Lemma intsetMoveTail_wraps_witness :
  let iset := mkIntset 8 (2 ^ 29) (replicate (Z.to_nat (8 * (2 ^ 29 + 1))) 0) in
  intsetMoveTail iset 0 1 = Some iset.
Proof.
  intros iset. apply (intsetMoveTail_wraps iset); [done | done |].
  unfold iset, zlen. cbn [is_contents]. rewrite length_replicate, Z2Nat.id; lia.
Defined.

Example validate_run :
  intsetValidateIntegrity (blob_of_intset ex_set) true = Some true /\
  intsetValidateIntegrity (blob_of_intset (mkIntset 2 2 (cells 2 [7; 7]))) true = Some false /\
  intsetValidateIntegrity (blob_of_intset (mkIntset 2 3 (cells 2 [7; 9]))) true = Some false.
Proof. by vm_compute. Qed.
