(* ===== verification/Util.v ===== *)
(** * util.c: conversions between integers and decimal strings

    Buffers are regions with an offset and a capacity, as the C functions take
    them.  The reference point is the canonical decimal notation [dec]. *)

From S2P Require Import Prelude.

Definition ULLONG_MAX : Z := 2 ^ 64 - 1.
Definition LLONG_MAX : Z := 2 ^ 63 - 1.
Definition LLONG_MIN : Z := - 2 ^ 63.
Definition LONG_STR_SIZE : Z := 21.

(** ** Printing *)

(** The recursive call divides by [10^12], so two of them are enough for a
    64-bit value; [None] is running out of the three levels given. *)
Fixpoint digits10_fuel (fuel : nat) (v : Z) : option Z :=
  match fuel with
  | O => None
  | S fuel =>
      if v <? 10 then Some 1
      else if v <? 100 then Some 2
      else if v <? 1000 then Some 3
      else if v <? 1000000000000 then
        if v <? 100000000 then
          if v <? 1000000 then
            if v <? 10000 then Some 4
            else Some (5 + Z.b2z (v >=? 100000))
          else Some (7 + Z.b2z (v >=? 10000000))
        else if v <? 10000000000 then Some (9 + Z.b2z (v >=? 1000000000))
        else Some (11 + Z.b2z (v >=? 100000000000))
      else
        d ← digits10_fuel fuel (v / 1000000000000);
        Some (u32 (12 + d))
  end.

Definition digits10 (v : Z) : option Z := digits10_fuel 3 v.

Definition sdigits10 (v : Z) : option Z :=
  if v <? 0 then
    let uv := if negb (v =? LLONG_MIN) then u64 (- v) else u64 (LLONG_MAX + 1) in
    d ← digits10 uv; Some (u32 (d + 1))
  else digits10 v.

Definition digits : list Z :=
  str "0001020304050607080910111213141516171819" ++
  str "2021222324252627282930313233343536373839" ++
  str "4041424344454647484950515253545556575859" ++
  str "6061626364656667686970717273747576777879" ++
  str "8081828384858687888990919293949596979899".

(** [dst[i] = c], an offset of the region that holds the buffer. *)
Definition put (m : list Z) (dst i c : Z) : option (list Z) := mwrite m (dst + i) [c].

(** The [while (value >= 100)] loop and the last one or two digits; at most ten
    rounds for a 64-bit value. *)
Fixpoint ull2string_loop (fuel : nat) (m : list Z) (dst next value : Z) : option (list Z) :=
  match fuel with
  | O => None
  | S fuel =>
      if value >=? 100 then
        let i := (value mod 100) * 2 in
        let value := value / 100 in
        d1 ← mget digits (i + 1);
        m ← put m dst next d1;
        d0 ← mget digits i;
        m ← put m dst (u32 (next - 1)) d0;
        ull2string_loop fuel m dst (u32 (next - 2)) value
      else if value <? 10 then put m dst next (48 + value)
      else
        let i := value * 2 in
        d1 ← mget digits (i + 1);
        m ← put m dst next d1;
        d0 ← mget digits i;
        put m dst (u32 (next - 1)) d0
  end.

(** The return value and the memory after the call. *)
Definition ull2string (m : list Z) (dst dstlen value : Z) : option (Z * list Z) :=
  len ← digits10 value;
  if len >=? dstlen then
    m ← (if dstlen >? 0 then put m dst 0 0 else Some m);
    Some (0, m)
  else
    let next := u32 (len - 1) in
    m ← put m dst (u32 (next + 1)) 0;
    m ← ull2string_loop 10 m dst next value;
    Some (len, m).

Definition ll2string (m : list Z) (dst dstlen svalue : Z) : option (Z * list Z) :=
  if svalue <? 0 then
    let value := if negb (svalue =? LLONG_MIN) then - svalue else u64 (LLONG_MAX + 1) in
    if dstlen <? 2 then
      m ← (if dstlen >? 0 then put m dst 0 0 else Some m);
      Some (0, m)
    else
      m ← put m dst 0 45;
      '(length, m) ← ull2string m (dst + 1) (dstlen - 1) value;
      if length =? 0 then Some (0, m) else Some (length + 1, m)
  else
    '(length, m) ← ull2string m dst dstlen svalue;
    if length =? 0 then Some (0, m) else Some (length + 0, m).

(** ** Parsing *)

Definition is_digit (c : Z) : bool := (48 <=? c) && (c <=? 57).

(** The digit loop of [string2ll] on the bytes not read yet: [None] when it
    returns 0 on overflow, otherwise [v] and the bytes left. *)
Fixpoint string2ll_loop (p : list Z) (v : Z) : option (Z * list Z) :=
  match p with
  | c :: p' =>
      if is_digit c then
        if v >? ULLONG_MAX / 10 then None
        else
          let v := v * 10 in
          if v >? ULLONG_MAX - (c - 48) then None
          else string2ll_loop p' (v + (c - 48))
      else Some (v, p)
  | [] => Some (v, p)
  end.

(** [None]: the function returns 0; [Some v]: it returns 1 and stores [v]. *)
Definition string2ll (s : list Z) : option Z :=
  let slen := zlen s in
  if (slen =? 0) || (slen >=? LONG_STR_SIZE) then None
  else if bool_decide (s = [48]) then Some 0
  else
    let negative := bool_decide (head s = Some 45) in
    let p := if negative then tail s else s in
    match p with
    | [] => None
    | c :: p =>
        if (49 <=? c) && (c <=? 57) then
          '(v, rest) ← string2ll_loop p (c - 48);
          if 0 <? zlen rest then None
          else if negative then
            if v >? - (LLONG_MIN + 1) + 1 then None else Some (i64 (u64 (- v)))
          else if v >? LLONG_MAX then None else Some v
        else None
    end.

Definition string2l (s : list Z) : option Z :=
  llval ← string2ll s;
  if (llval <? LLONG_MIN) || (llval >? LLONG_MAX) then None else Some llval.

(** ** Decimal notation *)

(** Decimal digits of a natural number, most significant first; the fuel is at
    least the number of binary digits, more than that of decimal ones. *)
Fixpoint udec_fuel (fuel : nat) (v : Z) : list Z :=
  match fuel with
  | O => []
  | S fuel => if v <? 10 then [48 + v] else udec_fuel fuel (v / 10) ++ [48 + v mod 10]
  end.
Definition udec (v : Z) : list Z := udec_fuel (S (Z.to_nat (Z.log2 v))) v.

(** The canonical notation of an integer. *)
Definition dec (v : Z) : list Z := if v <? 0 then 45 :: udec (- v) else udec v.

(** The value of a string of digits read after [acc]. *)
Definition num (acc : Z) (s : list Z) : Z := fold_left (fun v c => v * 10 + (c - 48)) s acc.

Lemma udec_fuel_irrel f1 f2 v :
  (0 < f1)%nat -> (0 < f2)%nat -> 0 <= v -> v < 2 ^ Z.of_nat f1 -> v < 2 ^ Z.of_nat f2 ->
  udec_fuel f1 v = udec_fuel f2 v.
Proof.
  revert f2 v. induction f1 as [|f1 IH]; intros [|f2] v Hf1 Hf2 Hv H1 H2; try lia. simpl.
  destruct (Z.ltb_spec v 10); [done|]. f_equal.
  rewrite Nat2Z.inj_succ, Z.pow_succ_r in H1, H2 by lia.
  destruct f1; [simpl in H1; lia|]. destruct f2; [simpl in H2; lia|].
  apply IH; try lia; div_lia.
Qed.

Lemma udec_unfold v :
  0 <= v -> udec v = if v <? 10 then [48 + v] else udec (v / 10) ++ [48 + v mod 10].
Proof.
  intros Hv. unfold udec at 1. cbn [udec_fuel]. destruct (Z.ltb_spec v 10); [done|]. f_equal.
  pose proof (Z.log2_spec v ltac:(lia)) as [_ Hl]. rewrite Z.pow_succ_r in Hl by apply Z.log2_nonneg.
  assert (0 <= v / 10) by div_lia.
  assert (1 <= Z.log2 v) by (apply Z.log2_le_pow2; simpl; lia).
  apply udec_fuel_irrel; try lia.
  - rewrite Z2Nat.id by lia. div_lia.
  - rewrite Nat2Z.inj_succ, Z2Nat.id by apply Z.log2_nonneg.
    apply Z.log2_spec. div_lia.
Qed.

Lemma udec_lt10 v : 0 <= v < 10 -> udec v = [48 + v].
Proof. intros. rewrite udec_unfold by lia. by rewrite (proj2 (Z.ltb_lt _ _)) by lia. Qed.

Lemma udec_ge10 v : 10 <= v -> udec v = udec (v / 10) ++ [48 + v mod 10].
Proof. intros. rewrite udec_unfold at 1 by lia. by rewrite (proj2 (Z.ltb_ge _ _)) by lia. Qed.

Lemma udec_ind (P : Z -> Prop) :
  (forall v, 0 <= v < 10 -> P v) -> (forall v, 10 <= v -> P (v / 10) -> P v) ->
  forall v, 0 <= v -> P v.
Proof.
  intros H1 H2 v Hv. revert Hv. pattern v. apply (well_founded_ind (Z.lt_wf 0)).
  intros x IH Hx. destruct (decide (x < 10)); [apply H1; lia|].
  apply H2; [lia|]. apply IH; div_lia.
Qed.

Lemma zlen_udec_div (n : nat) v :
  10 ^ Z.of_nat n <= v -> zlen (udec v) = Z.of_nat n + zlen (udec (v / 10 ^ Z.of_nat n)).
Proof.
  revert v. induction n as [|n IH]; intros v Hv.
  - simpl. by rewrite Z.div_1_r.
  - rewrite Nat2Z.inj_succ, Z.pow_succ_r in * by lia.
    assert (0 < 10 ^ Z.of_nat n) by lia.
    rewrite udec_ge10 by lia. rewrite zlen_app, IH, Z.div_div by
      (try apply Z.div_le_lower_bound; lia). zlen_solve.
Qed.

(** The length in digits of a number between two powers of ten. *)
Lemma zlen_udec (n : nat) v :
  10 ^ Z.of_nat n <= v < 10 ^ Z.of_nat (S n) -> zlen (udec v) = Z.of_nat n + 1.
Proof.
  intros Hv. rewrite (zlen_udec_div n) by lia.
  rewrite Nat2Z.inj_succ, Z.pow_succ_r in Hv by lia.
  rewrite udec_lt10; [unfold zlen; simpl; lia|].
  split; [apply Z.div_pos; lia | apply Z.div_lt_upper_bound; lia].
Qed.

Lemma zlen_udec_pos v : 0 <= v -> 1 <= zlen (udec v).
Proof.
  intros. rewrite udec_unfold by lia. zcase; zlen_solve.
Qed.

Lemma zlen_udec_le (n : nat) v :
  (0 < n)%nat -> 0 <= v < 10 ^ Z.of_nat n -> 1 <= zlen (udec v) <= Z.of_nat n.
Proof.
  intros Hn Hv. split; [apply zlen_udec_pos; lia|].
  revert v Hv. induction n as [|n IH]; [lia|]. intros v Hv.
  destruct (decide (v < 10)); [rewrite udec_lt10 by lia; zlen_solve|].
  rewrite udec_ge10, zlen_app by lia. rewrite Nat2Z.inj_succ, Z.pow_succ_r in * by lia.
  destruct n; [simpl in *; lia|].
  specialize (IH ltac:(lia) (v / 10)). rewrite zlen_cons, zlen_nil.
  assert (0 <= v / 10 < 10 ^ Z.of_nat (S n)) by
    (split; [apply Z.div_pos | apply Z.div_lt_upper_bound]; lia). lia.
Qed.

Lemma udec_digits v : 0 <= v -> Forall (fun c => 48 <= c <= 57) (udec v).
Proof.
  revert v. apply (udec_ind (fun v => Forall _ (udec v))).
  - intros v Hv. rewrite udec_lt10 by lia. repeat constructor; lia.
  - intros v Hv IH. rewrite udec_ge10 by lia. apply Forall_app. split; [done|].
    repeat constructor; div_lia.
Qed.

Lemma num_app acc s t : num acc (s ++ t) = num (num acc s) t.
Proof. apply fold_left_app. Qed.

Lemma num_nil acc : num acc [] = acc.
Proof. done. Qed.
Lemma num_1 acc d : num acc [d] = acc * 10 + (d - 48).
Proof. done. Qed.

Lemma num_udec v : 0 <= v -> num 0 (udec v) = v.
Proof.
  revert v. apply (udec_ind (fun v => num 0 (udec v) = v)).
  - intros v Hv. rewrite udec_lt10 by lia. cbn. lia.
  - intros v Hv IH. rewrite udec_ge10, num_app, IH by lia. cbn. div_lia.
Qed.

Lemma num_ge acc s : 0 <= acc -> Forall (fun c => 48 <= c <= 57) s -> acc <= num acc s.
Proof.
  intros Ha Hs. revert acc Ha. induction Hs as [|c s Hc _ IH]; intros acc Ha; cbn; [lia|].
  specialize (IH (acc * 10 + (c - 48)) ltac:(lia)). unfold num in IH. lia.
Qed.

(** Digits that do not start with a zero are the notation of their value. *)
Lemma udec_num c s :
  49 <= c <= 57 -> Forall (fun c => 48 <= c <= 57) s -> udec (num (c - 48) s) = c :: s.
Proof.
  intros Hc. induction s as [|d s IH] using rev_ind; intros Hs.
  - rewrite num_nil, udec_lt10 by lia. f_equal. lia.
  - apply Forall_app in Hs as [Hs Hd]. apply Forall_cons in Hd as [Hd _].
    rewrite num_app, num_1. pose proof (num_ge (c - 48) s ltac:(lia) Hs).
    rewrite udec_ge10 by lia.
    rewrite Z.div_add_l, (Z.div_small (d - 48)), Z.add_0_r, IH by (done || lia).
    assert ((num (c - 48) s * 10 + (d - 48)) mod 10 = d - 48) as -> by div_lia.
    simpl. do 3 f_equal. lia.
Qed.

Lemma udec_cons v : 1 <= v -> exists c s, udec v = c :: s /\ 49 <= c <= 57
  /\ Forall (fun c => 48 <= c <= 57) s /\ v = num (c - 48) s.
Proof.
  intros Hv. assert (0 <= v) as H0 by lia. revert v H0 Hv.
  apply (udec_ind (fun v => 1 <= v -> _)).
  - intros v Hv Hv1. rewrite udec_lt10 by lia. exists (48 + v), []. cbn. repeat split; try lia. done.
  - intros v Hv IH _. rewrite udec_ge10 by lia.
    destruct IH as (c & s & -> & Hc & Hs & Hn); [div_lia|].
    exists c, (s ++ [48 + v mod 10]). repeat split; try lia.
    + apply Forall_app. split; [done|]. repeat constructor; div_lia.
    + rewrite num_app, <- Hn. cbn. div_lia.
Qed.

(** ** Correctness *)

Lemma digits10_fuel_spec (f : nat) v :
  (0 < f <= 3)%nat -> 0 <= v < 10 ^ (12 * Z.of_nat f) -> digits10_fuel f v = Some (zlen (udec v)).
Proof.
  revert v. induction f as [|f IH]; intros v Hf Hv; [lia|]. cbn [digits10_fuel].
  destruct (decide (v < 10)).
  { rewrite udec_lt10 by lia. by zcase. }
  repeat match goal with
  | |- context [v <? ?b] => destruct (Z.ltb_spec v b)
  | |- context [v >=? ?b] => destruct (Z.geb_spec v b)
  end; try lia; cbn [Z.b2z];
  lazymatch goal with
  | |- Some ?k = _ =>
      let n := eval vm_compute in (Z.to_nat (k - 1)) in
      let a := eval vm_compute in (10 ^ Z.of_nat n) in
      let b := eval vm_compute in (10 ^ Z.of_nat (S n)) in
      let Hb := fresh in
      assert (Hb : a <= v < b) by lia; exact (f_equal Some (eq_sym (zlen_udec n v Hb)))
  | _ => idtac
  end.
  assert (Hq : 0 <= v / 1000000000000 < 10 ^ (12 * Z.of_nat f)).
  { replace (12 * Z.of_nat (S f)) with (12 + 12 * Z.of_nat f) in Hv by lia.
    rewrite Z.pow_add_r in Hv by lia. change (10 ^ 12) with 1000000000000 in Hv.
    split; [apply Z.div_pos | apply Z.div_lt_upper_bound]; lia. }
  assert (1 <= v / 1000000000000) by (apply Z.div_le_lower_bound; lia).
  destruct f as [|f']; [change (10 ^ (12 * Z.of_nat 0)) with 1 in Hq; lia|].
  remember (S f') as f eqn:Ef. rewrite IH by lia. sbind. f_equal.
  assert (1 <= zlen (udec (v / 1000000000000)) <= 24).
  { pose proof (zlen_udec_pos (v / 1000000000000)).
    destruct f as [|[|[|]]]; try lia;
    pose proof (zlen_udec_le 24 (v / 1000000000000) ltac:(lia)) as Hle;
    change (10 ^ Z.of_nat 24) with (10 ^ 24) in Hle; simpl Z.mul in Hq;
    (assert (10 ^ 12 <= 10 ^ 24) by (by vm_compute)); lia. }
  rewrite wrap_small by lia.
  pose proof (zlen_udec_div 12 v) as Hd. change (10 ^ Z.of_nat 12) with 1000000000000 in Hd. lia.
Qed.

Lemma digits10_correct v : 0 <= v < 2 ^ 64 -> digits10 v = Some (zlen (udec v)).
Proof.
  intros. apply digits10_fuel_spec; [lia|]. simpl Z.mul.
  assert (2 ^ 64 < 10 ^ 36) by (by vm_compute). lia.
Qed.

Lemma digits_table i :
  0 <= i < 100 -> mget digits (i * 2) = Some (48 + i / 10) /\ mget digits (i * 2 + 1) = Some (48 + i mod 10).
Proof.
  intros Hi.
  assert (Hall : Forall (fun i => mget digits (i * 2) = Some (48 + i / 10)
    /\ mget digits (i * 2 + 1) = Some (48 + i mod 10)) (seqZ 0 100)).
  { vm_compute seqZ. repeat (constructor; [by vm_compute|]). constructor. }
  rewrite Forall_forall in Hall. apply Hall, elem_of_seqZ. lia.
Qed.

Lemma put_app m a x b dst i c :
  m = a ++ x :: b -> dst + i = zlen a -> put m dst i c = Some (a ++ c :: b).
Proof. intros -> H. unfold put. by apply (mwrite_app a [x] b [c]). Qed.

Lemma snoc_zlen {A} (x : list A) : 1 <= zlen x -> exists y z, x = y ++ [z].
Proof.
  intros H. destruct x as [|z y _] using rev_ind; [rewrite zlen_nil in H; lia|]. eauto.
Qed.

Lemma loop_spec fuel a x b dst value :
  (0 < fuel)%nat -> 0 <= value < 10 ^ (2 * Z.of_nat fuel) -> dst = zlen a ->
  zlen x = zlen (udec value) -> zlen x < 2 ^ 32 ->
  ull2string_loop fuel (a ++ x ++ b) dst (zlen x - 1) value = Some (a ++ udec value ++ b).
Proof.
  revert x b value. induction fuel as [|fuel IH]; intros x b value Hf Hv Hdst Hx Hx2; [lia|].
  cbn [ull2string_loop].
  destruct (decide (value < 10)) as [H10|H10].
  { destruct (Z.geb_spec value 100); [lia|]. destruct (Z.ltb_spec value 10); [|lia].
    rewrite udec_lt10 in * by lia. destruct (snoc_zlen x) as (y & z & ->); [zlen_solve|].
    destruct y; [|exfalso; revert Hx; zlen_solve]. simpl. eapply put_app; [done|]. zlen_solve. }
  pose proof (udec_ge10 value ltac:(lia)) as Hu.
  destruct (snoc_zlen x) as (x1 & q & ->); [rewrite Hu in Hx; zlen_solve|].
  assert (Hx1 : zlen x1 = zlen (udec (value / 10))) by (rewrite Hu in Hx; zlen_solve).
  pose proof (zlen_udec_pos (value / 10) ltac:(div_lia)).
  destruct (snoc_zlen x1) as (x2 & p & ->); [lia|].
  rewrite !zlen_app, !zlen_cons, !zlen_nil in *. pose proof (zlen_nonneg x2).
  replace (zlen x2 + (1 + 0) + (1 + 0) - 1) with (zlen x2 + 1) by lia.
  rewrite (wrap_small 32 (zlen x2 + 1 - 1)) by lia.
  assert (Hp1 : forall c, put (a ++ ((x2 ++ [p]) ++ [q]) ++ b) dst (zlen x2 + 1) c =
            Some ((a ++ x2 ++ [p]) ++ c :: b)).
  { intros c. apply (put_app _ _ q); [by rewrite <- !app_assoc | zlen_solve]. }
  assert (Hp2 : forall c d, put ((a ++ x2 ++ [p]) ++ c :: b) dst (zlen x2 + 1 - 1) d =
            Some ((a ++ x2) ++ d :: c :: b)).
  { intros c d. apply (put_app _ _ p); [by rewrite <- !app_assoc | zlen_solve]. }
  destruct (Z.geb_spec value 100) as [H100|H100].
  - destruct (digits_table (value mod 100)) as [-> ->]; [div_lia|]. sbind. rewrite Hp1. sbind. rewrite Hp2. sbind.
    rewrite udec_ge10 in Hx1 by div_lia. autorewrite with zlen in Hx1.
    rewrite Z.div_div in Hx1 by lia. change (10 * 10) with 100 in Hx1.
    pose proof (zlen_udec_pos (value / 100) ltac:(div_lia)).
    rewrite wrap_small by lia. replace (zlen x2 + 1 - 2) with (zlen x2 - 1) by lia.
    assert (Hq : 0 <= value / 100 < 10 ^ (2 * Z.of_nat fuel)).
    { replace (2 * Z.of_nat (S fuel)) with (2 + 2 * Z.of_nat fuel) in Hv by lia.
      rewrite Z.pow_add_r in Hv by lia. change (10 ^ 2) with 100 in Hv.
      split; [apply Z.div_pos | apply Z.div_lt_upper_bound]; lia. }
    assert (1 <= value / 100) by (apply Z.div_le_lower_bound; lia).
    rewrite <- app_assoc. rewrite IH; try lia.
    + rewrite Hu, (udec_ge10 (value / 10)), <- !app_assoc, Z.div_div by div_lia.
      change (10 * 10) with 100. do 3 f_equal. simpl. f_equal; [|f_equal]; f_equal; div_lia.
    + destruct fuel; [change (10 ^ (2 * Z.of_nat 0)) with 1 in Hq; lia | lia].
  - destruct (Z.ltb_spec value 10); [lia|].
    destruct (digits_table value) as [-> ->]; [lia|]. sbind. rewrite Hp1. sbind. rewrite Hp2.
    rewrite udec_lt10 in Hx1 by div_lia. autorewrite with zlen in Hx1.
    destruct x2; [|exfalso; revert Hx1; zlen_solve].
    rewrite Hu, (udec_lt10 (value / 10)) by div_lia. by rewrite <- app_assoc.
Qed.

Lemma ull2string_fits a x y b dst dstlen value :
  0 <= value < 2 ^ 64 -> dst = zlen a -> zlen x = zlen (udec value) + 1 ->
  dstlen = zlen (x ++ y) ->
  ull2string (a ++ x ++ y ++ b) dst dstlen value =
    Some (zlen (udec value), a ++ udec value ++ [0] ++ y ++ b).
Proof.
  intros Hv Hd Hx Hl. rewrite zlen_app in Hl. pose proof (zlen_nonneg y).
  unfold ull2string. rewrite digits10_correct by done. sbind.
  destruct (Z.geb_spec (zlen (udec value)) dstlen); [lia|].
  pose proof (zlen_udec_le 20 value ltac:(lia)) as Hle.
  assert (2 ^ 64 < 10 ^ Z.of_nat 20) by (by vm_compute).
  rewrite (wrap_small 32 (zlen (udec value) - 1)), wrap_small by lia.
  destruct (snoc_zlen x) as (x1 & z & ->); [lia|]. rewrite zlen_app, zlen_cons, zlen_nil in Hx.
  erewrite (put_app _ (a ++ x1) z (y ++ b));
    [| by rewrite <- !app_assoc | rewrite zlen_app; lia]. sbind.
  rewrite <- app_assoc. replace (zlen (udec value) - 1) with (zlen x1 - 1) by lia.
  rewrite loop_spec; [done | lia | | done | lia | lia ].
  change (10 ^ (2 * Z.of_nat 10)) with (10 ^ Z.of_nat 20). lia.
Qed.

Lemma err_path a x b dst dstlen :
  dst = zlen a -> dstlen = zlen x ->
  exists x', (if dstlen >? 0 then put (a ++ x ++ b) dst 0 0 else Some (a ++ x ++ b)) =
               Some (a ++ x' ++ b) /\ zlen x' = zlen x.
Proof.
  intros -> ->. destruct x as [|c x]; [by exists []|].
  destruct (Z.gtb_spec (zlen (c :: x)) 0); [|zlen_solve].
  exists (0 :: x). split; [|zlen_solve]. eapply put_app; [done|lia].
Qed.

Lemma ull2string_short a x b dst dstlen value :
  0 <= value < 2 ^ 64 -> dst = zlen a -> dstlen = zlen x -> dstlen <= zlen (udec value) ->
  exists x', ull2string (a ++ x ++ b) dst dstlen value = Some (0, a ++ x' ++ b) /\ zlen x' = zlen x.
Proof.
  intros Hv Hd Hx Hl. unfold ull2string. rewrite digits10_correct by done. sbind.
  destruct (Z.geb_spec (zlen (udec value)) dstlen); [|lia].
  destruct (err_path a x b dst dstlen Hd Hx) as (x' & -> & ?). exists x'. by sbind.
Qed.

Lemma ll2string_abs svalue :
  in_signed 64 svalue -> svalue < 0 ->
  (if negb (svalue =? LLONG_MIN) then - svalue else u64 (LLONG_MAX + 1)) = - svalue.
Proof.
  unfold in_signed, LLONG_MIN, LLONG_MAX. change (2 ^ (64 - 1)) with (2 ^ 63). intros.
  destruct (Z.eqb_spec svalue (- 2 ^ 63)); [|done]. subst. by vm_compute.
Qed.

Lemma ll2string_spec a x b svalue :
  in_signed 64 svalue ->
  (forall y z, x = y ++ z -> zlen y = zlen (dec svalue) + 1 ->
     ll2string (a ++ x ++ b) (zlen a) (zlen x) svalue =
       Some (zlen (dec svalue), a ++ dec svalue ++ [0] ++ z ++ b)) /\
  (zlen x <= zlen (dec svalue) ->
     exists x', ll2string (a ++ x ++ b) (zlen a) (zlen x) svalue = Some (0, a ++ x' ++ b)
       /\ zlen x' = zlen x).
Proof.
  intros Hs. unfold ll2string, dec. destruct (Z.ltb_spec svalue 0) as [Hneg|Hpos].
  - rewrite ll2string_abs by done. set (u := - svalue).
    assert (Hu : 0 <= u < 2 ^ 64) by
      (unfold u, in_signed in *; change (2 ^ (64 - 1)) with (2 ^ 63) in *; lia).
    pose proof (zlen_udec_pos u ltac:(lia)). split.
    + intros y z -> Hy. rewrite zlen_cons in *. destruct y as [|c y]; [rewrite zlen_nil in Hy; lia|].
      rewrite zlen_cons in Hy. destruct (Z.ltb_spec (zlen ((c :: y) ++ z)) 2); [zlen_solve|].
      rewrite (put_app _ a c (y ++ z ++ b)) by (rewrite <- ?app_assoc; done || lia). sbind.
      change (45 :: y ++ z ++ b) with ([45] ++ y ++ z ++ b). rewrite (app_assoc a).
      rewrite ull2string_fits; try done; try zlen_solve. sbind.
      destruct (Z.eqb_spec (zlen (udec u)) 0); [lia|]. rewrite <- app_assoc. do 2 f_equal. lia.
    + intros Hl. rewrite zlen_cons in Hl. destruct (Z.ltb_spec (zlen x) 2).
      * destruct (err_path a x b (zlen a) (zlen x)) as (x' & -> & ?); [done|done|].
        exists x'. by sbind.
      * destruct x as [|c x]; [rewrite zlen_nil in *; lia|].
        rewrite (put_app _ a c (x ++ b)) by (done || lia). sbind.
        change (45 :: x ++ b) with ([45] ++ x ++ b). rewrite (app_assoc a).
        rewrite zlen_cons in *.
        destruct (ull2string_short (a ++ [45]) x b (zlen a + 1) (1 + zlen x - 1) u)
          as (x' & -> & ?); try lia; [zlen_solve|]. sbind.
        exists (45 :: x'). rewrite <- app_assoc. split; [done|]. rewrite zlen_cons. lia.
  - assert (Hu : 0 <= svalue < 2 ^ 64) by
      (unfold in_signed in *; change (2 ^ (64 - 1)) with (2 ^ 63) in *; lia).
    pose proof (zlen_udec_pos svalue ltac:(lia)). split.
    + intros y z -> Hy. rewrite <- app_assoc, ull2string_fits by done. sbind.
      destruct (Z.eqb_spec (zlen (udec svalue)) 0); [lia|]. do 2 f_equal. lia.
    + intros Hl. destruct (ull2string_short a x b (zlen a) (zlen x) svalue) as (x' & -> & ?); try done.
      sbind. by exists x'.
Qed.

(** Converting a 64-bit integer into a buffer that can hold its canonical
    decimal notation and a terminator writes exactly those bytes and returns
    their number; into a smaller buffer it returns 0.  Either way no byte out of
    the buffer changes. *)
Theorem ll2string_correct a x b svalue :
  in_signed 64 svalue ->
  (forall y z, x = y ++ z -> zlen y = zlen (dec svalue) + 1 ->
     ll2string (a ++ x ++ b) (zlen a) (zlen x) svalue =
       Some (zlen (dec svalue), a ++ dec svalue ++ [0] ++ z ++ b)) /\
  (zlen x <= zlen (dec svalue) ->
     exists x', ll2string (a ++ x ++ b) (zlen a) (zlen x) svalue = Some (0, a ++ x' ++ b)
       /\ zlen x' = zlen x).
Proof. apply ll2string_spec. Qed.

(** What the overflow-checked digit loop computes. *)
Lemma string2ll_loop_spec p v v' :
  0 <= v <= ULLONG_MAX ->
  string2ll_loop p v = Some (v', []) <->
  Forall (fun c => 48 <= c <= 57) p /\ num v p = v' /\ v' <= ULLONG_MAX.
Proof.
  revert v. induction p as [|c p IH]; intros v Hv.
  { rewrite num_nil. split; [intros [= ->] | by intros (_ & -> & _)]. split; [done|lia]. }
  cbn [string2ll_loop]. unfold is_digit.
  change (num v (c :: p)) with (num (v * 10 + (c - 48)) p). rewrite Forall_cons.
  destruct (Z.leb_spec 48 c), (Z.leb_spec c 57); simpl; try (split; [done|intros ((? & ?) & _); lia]).
  pose proof (num_ge (v * 10 + (c - 48)) p ltac:(lia)) as Hge.
  assert (Hm : ULLONG_MAX / 10 * 10 <= ULLONG_MAX < (ULLONG_MAX / 10 + 1) * 10) by div_lia.
  destruct (Z.gtb_spec v (ULLONG_MAX / 10)).
  { split; [done|]. intros ([_ Hf] & ? & ?). specialize (Hge Hf). lia. }
  destruct (Z.gtb_spec (v * 10) (ULLONG_MAX - (c - 48))).
  { split; [done|]. intros ([_ Hf] & ? & ?). specialize (Hge Hf). lia. }
  rewrite IH by lia. intuition lia.
Qed.

Lemma zlen_0_nil {A} (l : list A) : (0 <? zlen l) = false -> l = [].
Proof. destruct l; [done|]. rewrite zlen_cons. pose proof (zlen_nonneg l). destruct (Z.ltb_spec 0 (1 + zlen l)); [done|lia]. Qed.

(** The tail of [string2ll] once the sign is known, as one function. *)
Definition parse_tail (negative : bool) (p : list Z) : option Z :=
  match p with
  | [] => None
  | c :: p =>
      if (49 <=? c) && (c <=? 57) then
        '(v, rest) ← string2ll_loop p (c - 48);
        if 0 <? zlen rest then None
        else if negative then
          if v >? - (LLONG_MIN + 1) + 1 then None else Some (i64 (u64 (- v)))
        else if v >? LLONG_MAX then None else Some v
      else None
  end.

Lemma parse_tail_spec negative p v :
  parse_tail negative p = Some v <->
  in_signed 64 v /\ (if negative then v < 0 /\ p = udec (- v) else 0 < v /\ p = udec v).
Proof.
  unfold parse_tail, LLONG_MIN, LLONG_MAX. unfold in_signed. change (2 ^ (64 - 1)) with (2 ^ 63).
  split.
  - destruct p as [|c p]; [done|].
    destruct (Z.leb_spec 49 c), (Z.leb_spec c 57); simpl; try done.
    destruct (string2ll_loop p (c - 48)) as [[u rest]|] eqn:E; [|done]. sbind.
    destruct (0 <? zlen rest) eqn:Hr; [done|]. apply zlen_0_nil in Hr as ->.
    apply string2ll_loop_spec in E as (Hd & Hn & Hu); [|unfold ULLONG_MAX; lia].
    pose proof (num_ge (c - 48) p ltac:(lia) Hd). pose proof (udec_num c p ltac:(lia) Hd) as Hud.
    rewrite Hn in Hud. destruct negative.
    + destruct (Z.gtb_spec u (- (- 2 ^ 63 + 1) + 1)); [done|]. intros [= <-].
      rewrite swrap_wrap, swrap_small by (unfold in_signed; change (2 ^ (64 - 1)) with (2 ^ 63); lia).
      rewrite Z.opp_involutive, Hud. repeat split; lia.
    + destruct (Z.gtb_spec u (2 ^ 63 - 1)); [done|]. intros [= <-]. rewrite Hud. repeat split; lia.
  - intros (Hs & Hp).
    assert (exists u, (if negative then u = - v else u = v) /\ 1 <= u <= 2 ^ 63 /\ p = udec u)
      as (u & Hu & Hb & ->) by (destruct negative; eexists; (split; [done|]); intuition lia).
    destruct (udec_cons u ltac:(lia)) as (c & s & -> & Hc & Hd & Hn).
    destruct (Z.leb_spec 49 c), (Z.leb_spec c 57); try lia. simpl.
    rewrite (proj2 (string2ll_loop_spec s (c - 48) u ltac:(unfold ULLONG_MAX; lia))) by
      (split; [done|]; split; [done | unfold ULLONG_MAX; lia]). sbind. simpl.
    destruct negative; subst u.
    + destruct (Z.gtb_spec (- v) (- (- 2 ^ 63 + 1) + 1)); [lia|].
      rewrite Z.opp_involutive, swrap_wrap, swrap_small by
        (unfold in_signed; change (2 ^ (64 - 1)) with (2 ^ 63); lia). done.
    + destruct (Z.gtb_spec v (2 ^ 63 - 1)); [lia|done].
Qed.

Lemma string2ll_unfold s :
  string2ll s =
    if (zlen s =? 0) || (zlen s >=? LONG_STR_SIZE) then None
    else if bool_decide (s = [48]) then Some 0
    else if bool_decide (head s = Some 45) then parse_tail true (tail s) else parse_tail false s.
Proof.
  unfold string2ll. destruct (_ || _); [done|]. case_bool_decide; [done|]. by case_bool_decide.
Qed.

Lemma dec_len v : in_signed 64 v -> 1 <= zlen (dec v) < LONG_STR_SIZE.
Proof.
  unfold in_signed, dec, LONG_STR_SIZE. change (2 ^ (64 - 1)) with (2 ^ 63). intros Hv.
  assert (2 ^ 63 < 10 ^ Z.of_nat 19) by (by vm_compute).
  destruct (Z.ltb_spec v 0); rewrite ?zlen_cons;
    [pose proof (zlen_udec_le 19 (- v)) | pose proof (zlen_udec_le 19 v)]; lia.
Qed.

Lemma udec_head_ne v : 0 <= v -> head (udec v) <> Some 45.
Proof.
  intros Hv He. pose proof (udec_digits v Hv) as Hd. destruct (udec v); [done|].
  injection He as ->. apply Forall_cons in Hd as [Hd _]. lia.
Qed.

Lemma string2ll_iff s v :
  string2ll s = Some v <-> in_signed 64 v /\ s = dec v.
Proof.
  rewrite string2ll_unfold. split.
  - destruct (_ || _); [done|]. case_bool_decide as H0; [intros [= <-]|].
    { subst s. split; [done|by vm_compute]. }
    unfold dec. case_bool_decide as Hh; rewrite parse_tail_spec; intros (Hs & Hv & Hp); (split; [done|]).
    + rewrite (proj2 (Z.ltb_lt _ _)) by lia. destruct s as [|c s]; [done|].
      injection Hh as ->. simpl in Hp. by subst s.
    + by rewrite (proj2 (Z.ltb_ge _ _)) by lia.
  - intros [Hs ->]. pose proof (dec_len v Hs) as Hl.
    destruct (Z.eqb_spec (zlen (dec v)) 0); [lia|].
    destruct (Z.geb_spec (zlen (dec v)) LONG_STR_SIZE); [lia|]. simpl. unfold dec.
    destruct (Z.ltb_spec v 0) as [Hn|Hn].
    + rewrite bool_decide_false by congruence. rewrite bool_decide_true by done.
      by apply parse_tail_spec.
    + destruct (decide (v = 0)) as [->|Hnz]; [by vm_compute|].
      rewrite bool_decide_false.
      2: { intros He. apply (f_equal (num 0)) in He. rewrite num_udec in He by lia. cbn in He. lia. }
      rewrite bool_decide_false by (by apply udec_head_ne).
      apply parse_tail_spec. split; [done|]. split; [lia|done].
Qed.

(** C20: string2ll accepts exactly the canonical decimal notations of the 64-bit
    signed integers (no sign but a minus, no leading zero, no overflow), and
    returns the number: so the string can be rebuilt from the number. *)
Theorem string2ll_correct s v :
  string2ll s = Some v <-> in_signed 64 v /\ s = dec v.
Proof. apply string2ll_iff. Qed.

(** ** Concrete runs *)

Lemma ll2string_correct_witness :
  ll2string (str "ab------cd") 2 6 (-907) = Some (4, str "ab" ++ str "-907" ++ [0] ++ str "-" ++ str "cd").
Proof.
  destruct (ll2string_correct (str "ab") (str "------") (str "cd") (-907)) as [H _].
  - vm_compute; split; congruence.
  - apply (H (str "-----") (str "-")); reflexivity.
Defined.

Example string2ll_runs :
  string2ll (str "-9223372036854775808") = Some (- 2 ^ 63) /\ string2ll (str "9223372036854775808") = None
  /\ string2ll (str "007") = None /\ string2ll (str "-0") = None /\ string2ll (str "18446744073709551616") = None.
Proof. by vm_compute. Qed.
