(* ===== verification/Glob.v ===== *)
(** * util.c: glob-style pattern matching

    [stringmatchlen_impl] against a declarative reading of patterns: a pattern
    is a sequence of tokens, a star stands for any string.  Pattern and string
    are the bytes left at the C pointers; the byte after the pattern, which the
    code reads, is the terminator of the string the pattern comes from. *)

From S2P Require Import Prelude.

Definition chr_star : Z := 42.
Definition chr_quest : Z := 63.
Definition chr_lbrack : Z := 91.
Definition chr_bslash : Z := 92.
Definition chr_rbrack : Z := 93.
Definition chr_caret : Z := 94.
Definition chr_dash : Z := 45.

(** [tolower] on a [char] passed as an [int], in the C locale. *)
Definition tolower (c : Z) : Z := if (65 <=? c) && (c <=? 90) then c + 32 else c.

(** ** The matcher *)

(** The [while(1)] loop of a bracket expression against the byte [c]: whether
    it matched, and the pattern after the closing bracket (nothing when the
    expression is not closed: the code steps back one byte for the common
    [pattern++] to consume). *)
Fixpoint class_loop (nocase : bool) (c : Z) (pattern : list Z) (mtch : bool) : bool * list Z :=
  match pattern with
  | [] => (mtch, [])
  | p0 :: pattern1 =>
      let other := fun _ : unit =>
        if p0 =? chr_rbrack then (mtch, pattern1)
        else
          let single := fun _ : unit =>
            let eq := if nocase then tolower (i8 p0) =? tolower (i8 c) else p0 =? c in
            class_loop nocase c pattern1 (if eq then true else mtch) in
          match pattern1 with
          | p1 :: p2 :: pattern3 =>
              if p1 =? chr_dash then
                let start := i8 p0 in
                let end_ := i8 p2 in
                let ch := i8 c in
                let '(start, end_) := if start >? end_ then (end_, start) else (start, end_) in
                let start := if nocase then tolower start else start in
                let end_ := if nocase then tolower end_ else end_ in
                let ch := if nocase then tolower ch else ch in
                class_loop nocase c pattern3
                  (if (ch >=? start) && (ch <=? end_) then true else mtch)
              else single tt
          | _ => single tt
          end in
      match pattern1 with
      | p1 :: pattern2 =>
          if p0 =? chr_bslash then class_loop nocase c pattern2 (if p1 =? c then true else mtch)
          else other tt
      | [] => other tt
      end
  end.

(** [while (patternLen && pattern[1] == '*')]: on a pattern that starts with a
    star, the last star of the run. *)
Fixpoint skip_stars (pattern : list Z) : list Z :=
  match pattern with
  | _ :: ((p1 :: _) as pattern1) => if p1 =? chr_star then skip_stars pattern1 else pattern
  | _ => pattern
  end.

(** [while(patternLen && *pattern == '*')] *)
Fixpoint drop_stars (pattern : list Z) : list Z :=
  match pattern with
  | p0 :: pattern1 => if p0 =? chr_star then drop_stars pattern1 else pattern
  | [] => []
  end.

(** The main loop: the value returned and [*skipLongerMatches].  Every round
    consumes a byte of the pattern, so its length is enough fuel; [None] is
    running out of it. *)
Fixpoint match_loop (fuel : nat) (nocase : bool) (nesting : Z) (pattern string : list Z)
    (skip : bool) {struct fuel} : option (bool * bool) :=
  match fuel with
  | O => None
  | S fuel =>
      (** the common tail of the switch: [pattern++] is done by the caller *)
      let next := fun pattern string =>
        match string with
        | [] => let pattern := drop_stars pattern in Some (bool_decide (pattern = []), skip)
        | _ => match_loop fuel nocase nesting pattern string skip
        end in
      match pattern, string with
      | p0 :: pattern1, c :: string1 =>
          if p0 =? chr_star then
            let pattern := skip_stars pattern in
            if zlen pattern =? 1 then Some (true, skip)
            else
              (fix star_loop (string : list Z) (skip : bool) : option (bool * bool) :=
                 match string with
                 | [] => Some (false, true)
                 | _ :: string1 =>
                     '(r, skip) ←
                       (if nesting + 1 >? 1000 then Some (false, skip)
                        else match_loop fuel nocase (nesting + 1) (tail pattern) string skip);
                     if (r : bool) then Some (true, skip)
                     else if (skip : bool) then Some (false, skip)
                     else star_loop string1 skip
                 end) string skip
          else if p0 =? chr_quest then next pattern1 string1
          else if p0 =? chr_lbrack then
            let not := bool_decide (head pattern1 = Some chr_caret) in
            let pattern2 := if not then tail pattern1 else pattern1 in
            let '(mtch, pattern3) := class_loop nocase c pattern2 false in
            let mtch := if not then negb mtch else mtch in
            if mtch then next pattern3 string1 else Some (false, skip)
          else
            let '(p0, pattern1) :=
              match pattern1 with
              | p1 :: pattern2 => if p0 =? chr_bslash then (p1, pattern2) else (p0, pattern1)
              | [] => (p0, pattern1)
              end in
            let differ := if nocase then negb (tolower (i8 p0) =? tolower (i8 c))
                          else negb (p0 =? c) in
            if differ then Some (false, skip) else next pattern1 string1
      | _, _ => Some (bool_decide (pattern = []) && bool_decide (string = []), skip)
      end
  end.

Definition stringmatchlen_impl (nocase : bool) (nesting : Z) (pattern string : list Z)
    (skip : bool) : option (bool * bool) :=
  if nesting >? 1000 then Some (false, skip)
  else match_loop (S (length pattern)) nocase nesting pattern string skip.

Definition stringmatchlen (pattern string : list Z) (nocase : bool) : option bool :=
  fst <$> stringmatchlen_impl nocase 0 pattern string false.

(** The bytes before the terminator. *)
Definition stringmatch (pattern string : list Z) (nocase : bool) : option bool :=
  let c_str := fun l => take (Z.to_nat (default (zlen l) (Z.of_nat ∘ fst <$> list_find (eq 0) l))) l in
  stringmatchlen (c_str pattern) (c_str string) nocase.

(** How many backslashes end the bytes before the last one. *)
Fixpoint count_bslash (rev_pattern : list Z) : Z :=
  match rev_pattern with
  | c :: rest => if c =? chr_bslash then 1 + count_bslash rest else 0
  | [] => 0
  end.

Definition prefixmatch (pattern prefixStr : list Z) (nocase : bool) : option bool :=
  r ← fst <$> stringmatchlen_impl nocase 0 pattern prefixStr false;
  if negb r then Some false
  else if bool_decide (last pattern ≠ Some chr_star) then Some false
  else Some (count_bslash (tail (rev pattern)) mod 2 =? 0).

(** ** The meaning of patterns *)

Inductive citem :=
  | CChar (c : Z)          (** one character *)
  | CEsc (c : Z)           (** an escaped one, compared as it is *)
  | CRange (a b : Z).      (** [a-b], in either order *)

Inductive gtoken :=
  | GStar
  | GAny
  | GClass (neg : bool) (items : list citem)
  | GLit (c : Z).

#[global] Instance citem_eq_dec : EqDecision citem.
Proof. solve_decision. Defined.
#[global] Instance gtoken_eq_dec : EqDecision gtoken.
Proof. solve_decision. Defined.

Definition fold_case (nocase : bool) (c : Z) : Z := if nocase then tolower c else c.

Definition char_eq (nocase : bool) (a c : Z) : bool :=
  if nocase then tolower (i8 a) =? tolower (i8 c) else a =? c.

Definition item_match (nocase : bool) (c : Z) (it : citem) : bool :=
  match it with
  | CChar a => char_eq nocase a c
  | CEsc a => a =? c
  | CRange a b =>
      let lo := fold_case nocase (Z.min (i8 a) (i8 b)) in
      let hi := fold_case nocase (Z.max (i8 a) (i8 b)) in
      (lo <=? fold_case nocase (i8 c)) && (fold_case nocase (i8 c) <=? hi)
  end.

Definition tok_match (nocase : bool) (t : gtoken) (c : Z) : bool :=
  match t with
  | GStar => false
  | GAny => true
  | GClass neg items => xorb neg (existsb (item_match nocase c) items)
  | GLit a => char_eq nocase a c
  end.

(** The items of a bracket expression and the pattern after it. *)
Fixpoint class_items (pattern : list Z) : list citem * list Z :=
  match pattern with
  | [] => ([], [])
  | p0 :: pattern1 =>
      if (p0 =? chr_bslash) && (0 <? zlen pattern1) then
        match pattern1 with
        | p1 :: pattern2 => let '(its, rest) := class_items pattern2 in (CEsc p1 :: its, rest)
        | [] => ([], [])
        end
      else if p0 =? chr_rbrack then ([], pattern1)
      else
        match pattern1 with
        | p1 :: p2 :: pattern3 =>
            if p1 =? chr_dash
            then let '(its, rest) := class_items pattern3 in (CRange p0 p2 :: its, rest)
            else let '(its, rest) := class_items pattern1 in (CChar p0 :: its, rest)
        | _ => let '(its, rest) := class_items pattern1 in (CChar p0 :: its, rest)
        end
  end.

(** The first token of [p0 :: pattern1] and the pattern after it. *)
Definition next_token (p0 : Z) (pattern1 : list Z) : gtoken * list Z :=
  if p0 =? chr_star then (GStar, pattern1)
  else if p0 =? chr_quest then (GAny, pattern1)
  else if p0 =? chr_lbrack then
    match pattern1 with
    | p1 :: pattern2 =>
        if p1 =? chr_caret
        then let '(its, rest) := class_items pattern2 in (GClass true its, rest)
        else let '(its, rest) := class_items pattern1 in (GClass false its, rest)
    | [] => (GClass false [], [])
    end
  else
    match pattern1 with
    | p1 :: pattern2 => if p0 =? chr_bslash then (GLit p1, pattern2) else (GLit p0, pattern1)
    | [] => (GLit p0, [])
    end.

Fixpoint parse_fuel (fuel : nat) (pattern : list Z) : list gtoken :=
  match fuel, pattern with
  | S fuel, p0 :: pattern1 =>
      let '(t, rest) := next_token p0 pattern1 in t :: parse_fuel fuel rest
  | _, _ => []
  end.
Definition parse (pattern : list Z) : list gtoken := parse_fuel (length pattern) pattern.

(** A star matches any string, every other token one character. *)
Inductive gmatch (nocase : bool) : list gtoken -> list Z -> Prop :=
  | gm_nil : gmatch nocase [] []
  | gm_star ts u v : gmatch nocase ts v -> gmatch nocase (GStar :: ts) (u ++ v)
  | gm_one t ts c s :
      tok_match nocase t c = true -> gmatch nocase ts s -> gmatch nocase (t :: ts) (c :: s).

Definition is_star (t : gtoken) : bool := match t with GStar => true | _ => false end.
Definition nstars (ts : list gtoken) : Z := zlen (List.filter is_star ts).

(** Induction two or three bytes at a time. *)
Lemma list_len_ind {A} (P : list A -> Prop) :
  (forall l, (forall l', (length l' < length l)%nat -> P l') -> P l) -> forall l, P l.
Proof. intros H l. apply (induction_ltof1 _ (@length A)). exact H. Qed.

(** Split on the class parsed by the goal, keeping the bound on what it leaves. *)
Ltac class_split IH :=
  match goal with
  | |- context [let '(_, _) := class_items ?l in _] =>
      let H := fresh in
      assert (H : (length (class_items l).2 <= length l)%nat) by (apply IH; cbn [length]; lia);
      destruct (class_items l); cbn [length snd] in *; lia
  end.

Lemma class_items_length pattern : (length (class_items pattern).2 <= length pattern)%nat.
Proof.
  induction pattern as [[|p0 pattern1] IH] using list_len_ind; [done|].
  unfold class_items; fold class_items. destruct pattern1 as [|p1 [|p2 pattern3]];
  repeat lazymatch goal with
  | |- context [if ?b then _ else _] => destruct b
  end; try class_split IH; cbn [length snd]; lia.
Qed.

Lemma next_token_length p0 pattern1 :
  (length (next_token p0 pattern1).2 <= length pattern1)%nat.
Proof.
  unfold next_token. destruct pattern1 as [|p1 pattern2];
  repeat lazymatch goal with
  | |- context [if ?b then _ else _] => destruct b
  end; try class_split class_items_length; cbn [length snd]; lia.
Qed.

Lemma parse_fuel_irrel f1 f2 pattern :
  (length pattern <= f1)%nat -> (length pattern <= f2)%nat ->
  parse_fuel f1 pattern = parse_fuel f2 pattern.
Proof.
  revert f2 pattern. induction f1 as [|f1 IH]; intros [|f2] [|p0 pattern1] H1 H2; simpl in *; try lia; try done.
  pose proof (next_token_length p0 pattern1). destruct (next_token p0 pattern1) as [t rest]. simpl in *.
  f_equal. apply IH; lia.
Qed.

Lemma parse_cons p0 pattern1 :
  parse (p0 :: pattern1) = (next_token p0 pattern1).1 :: parse (next_token p0 pattern1).2.
Proof.
  unfold parse. cbn [length parse_fuel]. pose proof (next_token_length p0 pattern1).
  destruct (next_token p0 pattern1) as [t rest]. simpl in *. f_equal. by apply parse_fuel_irrel.
Qed.

(** ** The code against the meaning *)

Lemma orb_if (b m x : bool) : (if b then true else m) || x = m || (b || x).
Proof. by destruct b, m, x. Qed.

Lemma class_loop_spec nocase c pattern m :
  class_loop nocase c pattern m =
    (m || existsb (item_match nocase c) (class_items pattern).1, (class_items pattern).2).
Proof.
  revert m. induction pattern as [[|p0 pattern1] IH] using list_len_ind; intros m; [by rewrite orb_false_r|].
  assert (Hsingle : class_loop nocase c pattern1 (if char_eq nocase p0 c then true else m) =
    (m || existsb (item_match nocase c) (CChar p0 :: (class_items pattern1).1), (class_items pattern1).2)).
  { rewrite IH by (simpl; lia). by rewrite orb_if. }
  unfold char_eq in Hsingle. cbn [class_loop class_items].
  destruct pattern1 as [|p1 [|p2 pattern3]].
  - rewrite andb_false_r. destruct (p0 =? chr_rbrack); [by rewrite orb_false_r|].
    rewrite Hsingle. by destruct (class_items []).
  - rewrite andb_true_r. destruct (p0 =? chr_bslash).
    { rewrite IH by (simpl; lia). rewrite orb_if. by destruct (class_items []). }
    destruct (p0 =? chr_rbrack); [by rewrite orb_false_r|].
    rewrite Hsingle. by destruct (class_items [p1]).
  - rewrite andb_true_r. destruct (p0 =? chr_bslash).
    { rewrite IH by (simpl; lia). rewrite orb_if. by destruct (class_items (p2 :: pattern3)). }
    destruct (p0 =? chr_rbrack); [by rewrite orb_false_r|].
    destruct (p1 =? chr_dash).
    + destruct (Z.gtb_spec (i8 p0) (i8 p2)); rewrite IH by (simpl; lia); rewrite orb_if;
        destruct (class_items pattern3); cbn [fst snd existsb item_match]; unfold fold_case;
        (rewrite Z.min_r, Z.max_l by lia) || (rewrite Z.min_l, Z.max_r by lia);
        rewrite Z.geb_leb; by destruct nocase.
    + rewrite Hsingle. by destruct (class_items (p1 :: p2 :: pattern3)).
Qed.

(** What follows the common tail of the switch. *)
Definition match_next (fuel : nat) (nocase : bool) (nesting : Z) (pattern string : list Z) (skip : bool) :=
  match string with
  | [] => Some (bool_decide (drop_stars pattern = []), skip)
  | _ => match_loop fuel nocase nesting pattern string skip
  end.

(** A round of the loop on a token that is not a star. *)
Lemma match_loop_token fuel nocase nesting p0 pattern1 c string1 skip :
  (next_token p0 pattern1).1 <> GStar ->
  match_loop (S fuel) nocase nesting (p0 :: pattern1) (c :: string1) skip =
    if tok_match nocase (next_token p0 pattern1).1 c
    then match_next fuel nocase nesting (next_token p0 pattern1).2 string1 skip
    else Some (false, skip).
Proof.
  unfold next_token. cbn [match_loop].
  destruct (p0 =? chr_star); [done|]. intros _.
  destruct (p0 =? chr_quest); [done|].
  destruct (p0 =? chr_lbrack).
  - destruct pattern1 as [|p1 pattern2]; [done|]. cbn [head tail].
    destruct (Z.eqb_spec p1 chr_caret) as [->|Hne];
      [rewrite bool_decide_true by done | rewrite bool_decide_false by congruence];
      rewrite class_loop_spec; destruct (class_items _) as [its rest];
      cbn [fst snd tok_match orb xorb]; destruct (existsb _ its); done.
  - destruct pattern1 as [|p1 pattern2].
    + cbn [fst snd tok_match]. unfold char_eq. by destruct nocase, (_ =? _).
    + destruct (p0 =? chr_bslash); cbn [fst snd tok_match]; unfold char_eq;
        by destruct nocase, (_ =? _).
Qed.

Lemma next_token_star p0 pattern1 :
  (next_token p0 pattern1).1 = GStar <-> p0 = chr_star.
Proof.
  unfold next_token. destruct (Z.eqb_spec p0 chr_star); [done|].
  split; [|done]. repeat case_match; simplify_eq/=; try done;
  match goal with H : (_, _).1 = _ |- _ => done | _ => idtac end.
Qed.

Lemma parse_star pattern1 : parse (chr_star :: pattern1) = GStar :: parse pattern1.
Proof. by rewrite parse_cons. Qed.

Lemma gmatch_star nocase ts s :
  gmatch nocase (GStar :: ts) s <-> exists u v, s = u ++ v /\ gmatch nocase ts v.
Proof.
  split.
  - inversion 1; subst; [eauto|done].
  - intros (u & v & -> & H). by constructor.
Qed.

Lemma gmatch_tok nocase t ts s :
  t <> GStar ->
  gmatch nocase (t :: ts) s <-> exists c s', s = c :: s' /\ tok_match nocase t c = true /\ gmatch nocase ts s'.
Proof.
  intros Ht. split.
  - inversion 1; subst; [done|eauto].
  - intros (c & s' & -> & ? & ?). by constructor.
Qed.

Lemma gmatch_stars nocase (k : nat) ts s :
  gmatch nocase (replicate k GStar ++ GStar :: ts) s <-> gmatch nocase (GStar :: ts) s.
Proof.
  revert s. induction k as [|k IH]; intros s; [done|]. simpl. rewrite gmatch_star. split.
  - intros (u & v & -> & (u' & v' & -> & Hm)%IH%gmatch_star). rewrite gmatch_star.
    exists (u ++ u'), v'. by rewrite app_assoc.
  - intros Hm%IH. by exists [], s.
Qed.

Lemma drop_stars_gmatch nocase pattern :
  bool_decide (drop_stars pattern = []) = true <-> gmatch nocase (parse pattern) [].
Proof.
  rewrite bool_decide_eq_true. induction pattern as [|p0 pattern IH]; simpl.
  - split; [constructor|done].
  - destruct (Z.eqb_spec p0 chr_star) as [->|Hne].
    + rewrite IH, parse_star, gmatch_star. split; [by exists [], []|].
      intros (u & v & Hnil & Hm). symmetry in Hnil. by apply app_eq_nil in Hnil as [-> ->].
    + split; [done|]. rewrite parse_cons, gmatch_tok by (by rewrite next_token_star).
      by intros (c & s & ? & _).
Qed.

(** The last star of a run, and what the run means. *)
Lemma skip_stars_spec pattern1 :
  exists k rest, skip_stars (chr_star :: pattern1) = chr_star :: rest
    /\ head rest <> Some chr_star
    /\ parse (chr_star :: pattern1) = replicate k GStar ++ GStar :: parse rest
    /\ (length rest <= length pattern1)%nat.
Proof.
  induction pattern1 as [|p1 pattern1 IH].
  - exists 0%nat, []. done.
  - destruct (Z.eqb_spec p1 chr_star) as [->|Hne].
    + destruct IH as (k & rest & Hs & Hh & Hp & Hl). exists (S k), rest.
      split; [|rewrite parse_star, Hp; repeat split; try done; simpl; lia].
      rewrite <- Hs. done.
    + exists 0%nat, (p1 :: pattern1). cbn [skip_stars]. rewrite (proj2 (Z.eqb_neq _ _)) by done.
      rewrite parse_star. repeat split; try done. simpl; congruence.
Qed.

Lemma nstars_app ts1 ts2 : nstars (ts1 ++ ts2) = nstars ts1 + nstars ts2.
Proof. unfold nstars. by rewrite List.filter_app, zlen_app. Qed.
Lemma nstars_cons t ts : nstars (t :: ts) = (if is_star t then 1 else 0) + nstars ts.
Proof. unfold nstars. simpl. destruct (is_star t); [by rewrite zlen_cons|lia]. Qed.
Lemma nstars_nonneg ts : 0 <= nstars ts.
Proof. apply zlen_nonneg. Qed.

(** A result of the matcher on a non-empty string: [r] decides the match, and
    the flag is only raised when no suffix of the string matches either. *)
Definition match_ok nocase (ts : list gtoken) (string : list Z) (res : option (bool * bool)) : Prop :=
  exists r sk, res = Some (r, sk)
    /\ (r = true <-> gmatch nocase ts string)
    /\ (sk = true -> forall u v, string = u ++ v -> ~ gmatch nocase ts v).

(** The inner loop over the positions where the rest of the pattern may start. *)
Definition star_loop (f : list Z -> bool -> option (bool * bool)) :=
  fix star_loop (string : list Z) (skip : bool) : option (bool * bool) :=
    match string with
    | [] => Some (false, true)
    | _ :: string1 =>
        '(r, skip) ← f string skip;
        if (r : bool) then Some (true, skip)
        else if (skip : bool) then Some (false, skip)
        else star_loop string1 skip
    end.

Lemma star_loop_spec nocase ts f string :
  ~ gmatch nocase ts [] ->
  (forall u v, string = u ++ v -> v <> [] -> match_ok nocase ts v (f v false)) ->
  match_ok nocase (GStar :: ts) string (star_loop f string false).
Proof.
  intros Hnil. induction string as [|c string IH]; intros Hf; simpl.
  - assert (forall u v, [] = u ++ v -> ~ gmatch nocase (GStar :: ts) v) as Hall.
    { intros u v Heq. symmetry in Heq. apply app_eq_nil in Heq as [-> ->].
      rewrite gmatch_star. intros (u & v & Heq & Hm).
      symmetry in Heq. apply app_eq_nil in Heq as [-> ->]. done. }
    exists false, true. split; [done|]. split; [|done]. split; [done|].
    intros Hm. by apply (Hall [] []) in Hm.
  - destruct (Hf [] (c :: string) eq_refl ltac:(done)) as (r & sk & -> & Hr & Hsk). sbind.
    destruct r.
    { exists true, sk. split; [done|]. split; [|].
      - split; [|done]. intros _. apply gmatch_star. exists [], (c :: string). tauto.
      - intros E. exfalso. apply (Hsk E [] (c :: string)); [done|]. tauto. }
    assert (Hno : ~ gmatch nocase ts (c :: string)) by (intros H; apply Hr in H; done).
    destruct sk.
    { exists false, true. split; [done|].
      assert (forall u v, c :: string = u ++ v -> ~ gmatch nocase (GStar :: ts) v) as Hall.
      { intros u v Heq. rewrite gmatch_star. intros (u' & v' & -> & Hm).
        apply (Hsk eq_refl (u ++ u') v'); [by rewrite Heq, app_assoc|done]. }
      split; [|done]. split; [done|]. intros Hm. by apply (Hall [] (c :: string)) in Hm. }
    destruct IH as (r & sk & -> & Hr' & Hsk').
    { intros u v ->. apply (Hf (c :: u)). done. }
    exists r, sk. split; [done|].
    assert (Heqv : gmatch nocase (GStar :: ts) (c :: string) <-> gmatch nocase (GStar :: ts) string).
    { rewrite !gmatch_star. split.
      - intros ([|c' u] & v & Heq & Hm); simplify_eq/=; [done|]. by exists u, v.
      - intros (u & v & -> & Hm). by exists (c :: u), v. }
    rewrite Heqv. split; [done|]. intros E [|c' u] v Heq; simplify_eq/=.
    + rewrite Heqv. by apply (Hsk' eq_refl [] string).
    + by apply (Hsk' eq_refl u).
Qed.

(** A round of the loop on a run of stars. *)
Lemma match_loop_star fuel nocase nesting pattern1 c string1 skip :
  match_loop (S fuel) nocase nesting (chr_star :: pattern1) (c :: string1) skip =
    (if zlen (skip_stars (chr_star :: pattern1)) =? 1 then Some (true, skip)
     else star_loop (fun string skip => if nesting + 1 >? 1000 then Some (false, skip)
       else match_loop fuel nocase (nesting + 1) (tail (skip_stars (chr_star :: pattern1))) string skip)
       (c :: string1) skip).
Proof. done. Qed.

Lemma match_ok_stars nocase k ts string res :
  match_ok nocase (GStar :: ts) string res ->
  match_ok nocase (replicate k GStar ++ GStar :: ts) string res.
Proof.
  intros (r & sk & -> & Hr & Hsk). exists r, sk. rewrite gmatch_stars. split; [done|].
  split; [done|]. intros E u v Heq. rewrite gmatch_stars. by apply Hsk with u.
Qed.

Lemma match_loop_spec fuel nocase nesting pattern string :
  (length pattern < fuel)%nat -> string <> [] -> nesting + nstars (parse pattern) <= 1000 ->
  match_ok nocase (parse pattern) string (match_loop fuel nocase nesting pattern string false).
Proof.
  revert nesting pattern string. induction fuel as [|fuel IH]; intros nesting pattern string Hf Hs Hn; [lia|].
  destruct string as [|c string1]; [done|]. destruct pattern as [|p0 pattern1].
  { exists false, false. split; [done|]. split; [|done]. split; [done|]. inversion 1. }
  simpl in Hf. destruct (decide (p0 = chr_star)) as [->|Hp0].
  - destruct (skip_stars_spec pattern1) as (k & rest & Hss & Hh & Hp & Hl).
    rewrite match_loop_star, Hss. rewrite Hp, nstars_app, nstars_cons in Hn. rewrite Hp.
    apply match_ok_stars. pose proof (nstars_nonneg (replicate k GStar)). simpl in Hn.
    rewrite zlen_cons. destruct (Z.eqb_spec (1 + zlen rest) 1) as [H1|H1].
    { destruct rest; [|rewrite zlen_cons in H1; pose proof (zlen_nonneg rest); lia].
      exists true, false. split; [done|]. split; [|done]. split; [|done]. intros _.
      apply gmatch_star. exists (c :: string1), []. split; [by rewrite app_nil_r|constructor]. }
    apply star_loop_spec.
    + destruct rest as [|q rest]; [done|]. rewrite parse_cons, gmatch_tok.
      * by intros (? & ? & ? & _).
      * rewrite next_token_star. intros ->. done.
    + intros u v Heq Hv. pose proof (nstars_nonneg (parse rest)).
      destruct (Z.gtb_spec (nesting + 1) 1000); [lia|].
      apply IH; simpl; try done; lia.
  - assert (Ht : (next_token p0 pattern1).1 <> GStar) by (by rewrite next_token_star).
    rewrite match_loop_token by done. rewrite parse_cons in *. rewrite nstars_cons in Hn.
    pose proof (next_token_length p0 pattern1) as Hl.
    destruct (next_token p0 pattern1) as [t rest]; simpl in *.
    destruct (tok_match nocase t c) eqn:Htc.
    2: { exists false, false. split; [done|]. split; [|done]. split; [done|].
         rewrite gmatch_tok by done. intros (c' & s' & ? & ? & ?). congruence. }
    assert (Heqv : gmatch nocase (t :: parse rest) (c :: string1) <-> gmatch nocase (parse rest) string1).
    { rewrite gmatch_tok by done. split; [by intros (c' & s' & ? & ? & ?); simplify_eq|eauto]. }
    destruct string1 as [|d string2].
    { exists (bool_decide (drop_stars rest = [])), false. split; [done|]. split; [|done].
      by rewrite Heqv, <- drop_stars_gmatch. }
    assert (is_star t = false) as E by (by destruct t). rewrite E in Hn. unfold match_next.
    destruct (IH nesting rest (d :: string2)) as (r & sk & -> & Hr & Hsk); [lia|done|lia|].
    exists r, sk. split; [done|]. rewrite Heqv. split; [done|].
    intros -> u v Heq Hm. apply gmatch_tok in Hm as (c' & v' & -> & _ & Hm); [|done].
    destruct u as [|c'' u]; injection Heq as -> Heq.
    + subst v'. by apply (Hsk eq_refl [] (d :: string2)).
    + apply (Hsk eq_refl (u ++ [c']) v'); [|done]. by rewrite Heq, <- app_assoc.
Qed.

(** C19: on a non-empty string and a pattern with at most 1000 stars the matcher
    always returns, and returns 1 exactly when the string matches the tokens of
    the pattern: giving up the longer matches never loses one. *)
Theorem stringmatchlen_correct nocase pattern string :
  string <> [] -> nstars (parse pattern) <= 1000 ->
  exists r, stringmatchlen pattern string nocase = Some r
    /\ (r = true <-> gmatch nocase (parse pattern) string).
Proof.
  intros Hs Hn. unfold stringmatchlen, stringmatchlen_impl. simpl (0 >? 1000).
  destruct (match_loop_spec (S (length pattern)) nocase 0 pattern string) as (r & sk & -> & Hr & _);
    [lia|done|lia|]. by exists r.
Qed.

(** Against the empty string only the empty pattern matches: a star, which
    stands for any string elsewhere, does not match it. *)
Theorem stringmatchlen_empty nocase pattern :
  stringmatchlen pattern [] nocase = Some (bool_decide (pattern = [])).
Proof.
  unfold stringmatchlen, stringmatchlen_impl. simpl (0 >? 1000). cbn [match_loop].
  destruct pattern; by rewrite ?andb_true_r.
Qed.

Lemma gmatch_app_star nocase ts s t :
  gmatch nocase (ts ++ [GStar]) s -> gmatch nocase (ts ++ [GStar]) (s ++ t).
Proof.
  revert s. induction ts as [|tk ts IH]; intros s; simpl.
  - intros _. apply gmatch_star. exists (s ++ t), []. split; [by rewrite app_nil_r|constructor].
  - destruct (decide (tk = GStar)) as [->|Ht].
    + rewrite !gmatch_star. intros (u & v & -> & Hm). exists u, (v ++ t).
      split; [by rewrite app_assoc|by apply IH].
    + rewrite !gmatch_tok by done. intros (c & s' & -> & Hc & Hm). exists c, (s' ++ t). auto.
Qed.

(** *** Patterns that end with a star *)

Lemma count_bslash_snoc l p :
  p <> chr_bslash -> count_bslash (l ++ [p]) = count_bslash l.
Proof.
  intros Hp. induction l as [|c l IH]; simpl.
  - by rewrite (proj2 (Z.eqb_neq _ _)).
  - by rewrite IH.
Qed.

Lemma count_bslash_escape l p :
  count_bslash (l ++ [p; chr_bslash]) mod 2 = count_bslash l mod 2.
Proof.
  induction l as [|c l IH]; simpl.
  - destruct (p =? chr_bslash); by vm_compute.
  - destruct (c =? chr_bslash); [|done]. rewrite !(Z.add_comm 1), Zplus_mod, IH, <- Zplus_mod. done.
Qed.

(** [ends_star pattern]: the last byte is a star after an even number of
    backslashes, the test of [prefixmatch]. *)
Definition ends_star (pattern : list Z) : bool :=
  bool_decide (last pattern = Some chr_star) && (count_bslash (tail (rev pattern)) mod 2 =? 0).

Lemma last_cons_ne {A} (x : A) l : l <> [] -> last (x :: l) = last l.
Proof. by destruct l. Qed.

Lemma tail_rev_cons {A} (x : A) l : l <> [] -> tail (rev (x :: l)) = tail (rev l) ++ [x].
Proof.
  intros Hl. simpl. destruct (rev l) eqn:E; [|done]. apply (f_equal (@rev A)) in E.
  rewrite rev_involutive in E. done.
Qed.

Lemma ends_star_parse pattern :
  chr_lbrack ∉ pattern -> ends_star pattern = true -> exists ts, parse pattern = ts ++ [GStar].
Proof.
  induction pattern as [[|p0 pattern1] IH] using list_len_ind; [done|]. intros Hnb He.
  apply not_elem_of_cons in Hnb as [Hp0 Hnb]. rewrite parse_cons.
  assert (Hstep : forall t rest, next_token p0 pattern1 = (t, rest) -> rest <> [] ->
    (length rest <= length pattern1)%nat -> chr_lbrack ∉ rest -> ends_star rest = true ->
    exists ts, (next_token p0 pattern1).1 :: parse (next_token p0 pattern1).2 = ts ++ [GStar]).
  { intros t rest -> Hr Hl Hn Hs. destruct (IH rest) as [ts Hts]; simpl; try done; [lia|].
    exists (t :: ts). by rewrite Hts. }
  destruct pattern1 as [|p1 pattern2].
  { unfold ends_star in He. simpl in He. destruct (Z.eqb_spec p0 chr_star) as [->|Hne]; [by exists []|].
    rewrite bool_decide_false in He by congruence. done. }
  unfold next_token in Hstep |- *. destruct (Z.eqb_spec p0 chr_lbrack); [done|].
  assert (Hend1 : p0 <> chr_bslash -> ends_star (p1 :: pattern2) = true).
  { intros Hne. unfold ends_star in *. rewrite last_cons_ne, tail_rev_cons in He by done.
    by rewrite count_bslash_snoc in He. }
  destruct (Z.eqb_spec p0 chr_bslash) as [->|Hne].
  - apply not_elem_of_cons in Hnb as [_ Hnb].
    assert (Hr : pattern2 <> []).
    { intros ->. unfold ends_star in He. simpl in He. by rewrite andb_false_r in He. }
    apply (Hstep (GLit p1) pattern2); simpl; try done; [lia|].
    unfold ends_star in *. rewrite !last_cons_ne, !tail_rev_cons in He by done.
    rewrite <- app_assoc in He. cbn [app] in He. by rewrite count_bslash_escape in He.
  - specialize (Hend1 Hne).
    destruct (p0 =? chr_star) eqn:Es; [|destruct (p0 =? chr_quest) eqn:Eq];
      eapply Hstep; done.
Qed.

(** For a pattern without bracket expressions, when prefixmatch accepts a
    non-empty prefix, the pattern matches every string that extends it. *)
Theorem prefixmatch_sound nocase pattern prefixStr t :
  chr_lbrack ∉ pattern -> prefixStr <> [] -> nstars (parse pattern) <= 1000 ->
  prefixmatch pattern prefixStr nocase = Some true ->
  stringmatchlen pattern (prefixStr ++ t) nocase = Some true.
Proof.
  intros Hnb Hs Hn Hp. unfold prefixmatch, stringmatchlen_impl in Hp. simpl (0 >? 1000) in Hp.
  destruct (match_loop_spec (S (length pattern)) nocase 0 pattern prefixStr) as (r & sk & E & Hr & _);
    [lia|done|lia|]. rewrite E in Hp. simpl in Hp. destruct r; [|done]. simpl in Hp.
  case_bool_decide as Hl; [done|]. injection Hp as Hp.
  destruct (ends_star_parse pattern Hnb) as [ts Hts].
  { unfold ends_star. rewrite Hp. destruct (decide (last pattern = Some chr_star)); [|done].
    by rewrite bool_decide_true. }
  unfold stringmatchlen, stringmatchlen_impl. simpl (0 >? 1000).
  destruct (match_loop_spec (S (length pattern)) nocase 0 pattern (prefixStr ++ t)) as (r & sk' & -> & Hr' & _);
    [lia| by destruct prefixStr |lia|].
  simpl. f_equal. apply Hr'. rewrite Hts in *. apply gmatch_app_star. tauto.
Qed.

(** Without stars a pattern matches strings of one length. *)
Lemma gmatch_length nocase ts s : gmatch nocase ts s -> nstars ts = 0 -> length s = length ts.
Proof.
  unfold nstars. induction 1 as [|ts u v H IH|t ts c s Hc H IH]; intros Hn; [done| |].
  - cbn [List.filter is_star] in Hn. rewrite zlen_cons in Hn. pose proof (zlen_nonneg (List.filter is_star ts)). lia.
  - cbn [List.filter length] in *. f_equal. apply IH. destruct (is_star t); [|done]. rewrite zlen_cons in Hn.
    pose proof (zlen_nonneg (List.filter is_star ts)). lia.
Qed.

(** C38: prefixmatch goes wrong on every pattern without a star of its own whose
    last byte is a star after an even number of backslashes, that is, a star inside
    a bracket expression that is not closed: it accepts each prefix that matches,
    and no string that extends the prefix matches. *)
Theorem prefixmatch_unclosed_class nocase pattern prefixStr t :
  nstars (parse pattern) = 0 -> ends_star pattern = true -> prefixStr <> [] -> t <> [] ->
  stringmatchlen pattern prefixStr nocase = Some true ->
  prefixmatch pattern prefixStr nocase = Some true /\ stringmatchlen pattern (prefixStr ++ t) nocase = Some false.
Proof.
  intros Hn He Hs Ht. unfold prefixmatch, stringmatchlen, stringmatchlen_impl. simpl (0 >? 1000).
  destruct (match_loop_spec (S (length pattern)) nocase 0 pattern prefixStr) as (r & sk & -> & Hr & _); [lia|done|lia|].
  destruct (match_loop_spec (S (length pattern)) nocase 0 pattern (prefixStr ++ t)) as (r' & sk' & -> & Hr' & _); [lia|by destruct prefixStr|lia|].
  cbn. intros [= ->]. unfold ends_star in He. apply andb_true_iff in He as [Hl Hc]. apply bool_decide_eq_true in Hl. split.
  - cbn. rewrite bool_decide_false by (intros H; by destruct H). by rewrite Hc.
  - destruct r'; [|done]. exfalso. pose proof (gmatch_length _ _ _ (proj1 Hr eq_refl) Hn) as L1.
    pose proof (gmatch_length _ _ _ (proj1 Hr' eq_refl) Hn) as L2. rewrite length_app in L2. destruct t; [done|]. cbn in L2. lia.
Qed.

Lemma prefixmatch_unclosed_class_witness :
  prefixmatch (str "k:[ab*") (str "k:a") false = Some true /\ stringmatchlen (str "k:[ab*") (str "k:a" ++ str "b") false = Some false.
Proof. apply (prefixmatch_unclosed_class false (str "k:[ab*") (str "k:a") (str "b")); done. Defined.

(** ** Concrete runs *)

Lemma stringmatchlen_correct_witness :
  exists r, stringmatchlen (str "h[^a-c]*l?") (str "hello") false = Some r
    /\ (r = true <-> gmatch false (parse (str "h[^a-c]*l?")) (str "hello")).
Proof. apply (stringmatchlen_correct false (str "h[^a-c]*l?") (str "hello")); [done | by vm_compute]. Defined.

Lemma prefixmatch_sound_witness :
  stringmatchlen (str "user:*") (str "user:" ++ str "42") false = Some true.
Proof.
  apply (prefixmatch_sound false (str "user:*") (str "user:") (str "42")).
  - by apply (bool_decide_unpack _).
  - done.
  - by vm_compute.
  - by vm_compute.
Defined.

Example match_runs :
  stringmatchlen (str "h[^a-c]*l?") (str "hello") false = Some true /\
  stringmatchlen (str "*a*a*a*b") (str "aaaaaaaaaaaaaaaaaaaa") false = Some false /\
  stringmatchlen (str "H?LLO") (str "hello") true = Some true /\
  stringmatchlen (str "a\*c") (str "a*c") false = Some true.
Proof. by vm_compute. Qed.
