(* ===== verification/Listpack.v ===== *)
(** * listpack.c: the serialized list of strings and integers

    A listpack is a region of bytes: a header with the total size and the number
    of entries, the entries, a terminator, and the slack of the allocation.
    Pointers into it are offsets, [None] is an access out of the allocation or a
    failed assertion.  This file holds the code; [ListpackSpec] has the meaning
    of a listpack and what the operations do to it. *)

From S2P Require Import Prelude Util.

(** ** Constants and macros *)

Definition LP_HDR_SIZE : Z := 6.
Definition LP_HDR_NUMELE_UNKNOWN : Z := 65535.
Definition LP_EOF : Z := 255.
Definition UINT16_MAX : Z := 65535.
Definition UINT32_MAX : Z := 2 ^ 32 - 1.
Definition UINT64_MAX : Z := 2 ^ 64 - 1.
Definition LP_INTBUF_SIZE : Z := 21.
Definition LISTPACK_MAX_SAFETY_SIZE : Z := 2 ^ 30.

Definition LP_ENCODING_6BIT_STR : Z := 128.
Definition LP_ENCODING_13BIT_INT : Z := 192.
Definition LP_ENCODING_12BIT_STR : Z := 224.
Definition LP_ENCODING_32BIT_STR : Z := 240.
Definition LP_ENCODING_16BIT_INT : Z := 241.
Definition LP_ENCODING_24BIT_INT : Z := 242.
Definition LP_ENCODING_32BIT_INT : Z := 243.
Definition LP_ENCODING_64BIT_INT : Z := 244.

Definition LP_ENCODING_IS_7BIT_UINT (b : Z) : bool := (b &&& 128) =? 0.
Definition LP_ENCODING_IS_6BIT_STR (b : Z) : bool := (b &&& 192) =? LP_ENCODING_6BIT_STR.
Definition LP_ENCODING_IS_13BIT_INT (b : Z) : bool := (b &&& 224) =? LP_ENCODING_13BIT_INT.
Definition LP_ENCODING_IS_12BIT_STR (b : Z) : bool := (b &&& 240) =? LP_ENCODING_12BIT_STR.
Definition LP_ENCODING_IS_16BIT_INT (b : Z) : bool := (b &&& 255) =? LP_ENCODING_16BIT_INT.
Definition LP_ENCODING_IS_24BIT_INT (b : Z) : bool := (b &&& 255) =? LP_ENCODING_24BIT_INT.
Definition LP_ENCODING_IS_32BIT_INT (b : Z) : bool := (b &&& 255) =? LP_ENCODING_32BIT_INT.
Definition LP_ENCODING_IS_64BIT_INT (b : Z) : bool := (b &&& 255) =? LP_ENCODING_64BIT_INT.
Definition LP_ENCODING_IS_32BIT_STR (b : Z) : bool := (b &&& 255) =? LP_ENCODING_32BIT_STR.

Definition LP_ENCODING_6BIT_STR_LEN (lp : list Z) (p : Z) : option Z :=
  b0 ← mget lp p; Some (b0 &&& 63).
Definition LP_ENCODING_12BIT_STR_LEN (lp : list Z) (p : Z) : option Z :=
  b0 ← mget lp p; b1 ← mget lp (p + 1); Some (((b0 &&& 15) <<< 8) ||| b1).

(** Bytes at [p], least significant first. *)
Definition get16 (lp : list Z) (p : Z) : option Z :=
  b0 ← mget lp p; b1 ← mget lp (p + 1); Some (b0 ||| (b1 <<< 8)).
Definition get24 (lp : list Z) (p : Z) : option Z :=
  b0 ← mget lp p; b1 ← mget lp (p + 1); b2 ← mget lp (p + 2);
  Some (b0 ||| (b1 <<< 8) ||| (b2 <<< 16)).
Definition get32 (lp : list Z) (p : Z) : option Z :=
  b0 ← mget lp p; b1 ← mget lp (p + 1); b2 ← mget lp (p + 2); b3 ← mget lp (p + 3);
  Some (b0 ||| (b1 <<< 8) ||| (b2 <<< 16) ||| (b3 <<< 24)).
Definition get64 (lp : list Z) (p : Z) : option Z :=
  b0 ← mget lp p; b1 ← mget lp (p + 1); b2 ← mget lp (p + 2); b3 ← mget lp (p + 3);
  b4 ← mget lp (p + 4); b5 ← mget lp (p + 5); b6 ← mget lp (p + 6); b7 ← mget lp (p + 7);
  Some (b0 ||| (b1 <<< 8) ||| (b2 <<< 16) ||| (b3 <<< 24) ||| (b4 <<< 32) ||| (b5 <<< 40)
        ||| (b6 <<< 48) ||| (b7 <<< 56)).

Definition LP_ENCODING_32BIT_STR_LEN (lp : list Z) (p : Z) : option Z := get32 lp (p + 1).

Definition lpGetTotalBytes (lp : list Z) : option Z := get32 lp 0.
Definition lpGetNumElements (lp : list Z) : option Z := get16 lp 4.

Definition lpSetTotalBytes (lp : list Z) (v : Z) : option (list Z) :=
  mwrite lp 0 [v &&& 255; (v >>> 8) &&& 255; (v >>> 16) &&& 255; (v >>> 24) &&& 255].
Definition lpSetNumElements (lp : list Z) (v : Z) : option (list Z) :=
  mwrite lp 4 [v &&& 255; (v >>> 8) &&& 255].

Definition lpBytes (lp : list Z) : option Z := lpGetTotalBytes lp.

(** [assert(c)] *)
Definition check (c : bool) : option () := if c then Some () else None.

Definition ASSERT_INTEGRITY (lp : list Z) (p : Z) : option () :=
  n ← lpGetTotalBytes lp; check ((p >=? LP_HDR_SIZE) && (p <? n)).
Definition ASSERT_INTEGRITY_LEN (lp : list Z) (p len : Z) : option () :=
  n ← lpGetTotalBytes lp; check ((p >=? LP_HDR_SIZE) && (p + len <? n)).

(** [None] for the listpack: a null pointer. *)
Definition lpSafeToAdd (lp : option (list Z)) (add : Z) : option bool :=
  len ← (match lp with Some lp => lpGetTotalBytes lp | None => Some 0 end);
  if u64 (len + add) >? LISTPACK_MAX_SAFETY_SIZE then Some false else Some true.

(** ** Encoding *)

(** The same text as [string2ll] of util.c on the names of this file. *)
Definition lpStringToInt64 (s : list Z) : option Z :=
  let slen := zlen s in
  if (slen =? 0) || (slen >=? LONG_STR_SIZE) then None
  else if bool_decide (s = [48]) then Some 0
  else
    let negative := bool_decide (head s = Some 45) in
    let p := if negative then tail s else s in
    match p with
    | [] => None
    | c :: p =>
        if (49 <=? c) && (c <=? 57) then
          '(v, rest) ← string2ll_loop p (c - 48);
          if 0 <? zlen rest then None
          else if negative then
            if v >? - (LLONG_MIN + 1) + 1 then None else Some (i64 (u64 (- v)))
          else if v >? LLONG_MAX then None else Some v
        else None
    end.

(** The bytes left in [intenc]; [*enclen] is their number. *)
Definition lpEncodeIntegerGetType (v : Z) : list Z :=
  if (v >=? 0) && (v <=? 127) then [u8 v]
  else if (v >=? -4096) && (v <=? 4095) then
    let v := if v <? 0 then (1 <<< 13) + v else v in
    [u8 ((v >>> 8) ||| LP_ENCODING_13BIT_INT); v &&& 255]
  else if (v >=? -32768) && (v <=? 32767) then
    let v := if v <? 0 then (1 <<< 16) + v else v in
    [LP_ENCODING_16BIT_INT; v &&& 255; u8 (v >>> 8)]
  else if (v >=? -8388608) && (v <=? 8388607) then
    let v := if v <? 0 then (1 <<< 24) + v else v in
    [LP_ENCODING_24BIT_INT; v &&& 255; (v >>> 8) &&& 255; u8 (v >>> 16)]
  else if (v >=? -2147483648) && (v <=? 2147483647) then
    let v := if v <? 0 then (1 <<< 32) + v else v in
    [LP_ENCODING_32BIT_INT; v &&& 255; (v >>> 8) &&& 255; (v >>> 16) &&& 255; u8 (v >>> 24)]
  else
    let uv := u64 v in
    [LP_ENCODING_64BIT_INT; uv &&& 255; (uv >>> 8) &&& 255; (uv >>> 16) &&& 255;
     (uv >>> 24) &&& 255; (uv >>> 32) &&& 255; (uv >>> 40) &&& 255; (uv >>> 48) &&& 255;
     u8 (uv >>> 56)].

(** [inl intenc]: LP_ENCODING_INT with the encoded integer; [inr enclen]:
    LP_ENCODING_STRING. *)
Definition lpEncodeGetType (ele : list Z) : list Z + Z :=
  let size := zlen ele in
  match lpStringToInt64 ele with
  | Some v => inl (lpEncodeIntegerGetType v)
  | None =>
      if size <? 64 then inr (1 + size)
      else if size <? 4096 then inr (2 + size)
      else inr (5 + size)
  end.

(** The bytes left in [buf]; the function returns their number. *)
Definition lpEncodeBacklen (l : Z) : list Z :=
  if l <=? 127 then [u8 l]
  else if l <? 16383 then [u8 (l >>> 7); (l &&& 127) ||| 128]
  else if l <? 2097151 then [u8 (l >>> 14); ((l >>> 7) &&& 127) ||| 128; (l &&& 127) ||| 128]
  else if l <? 268435455 then
    [u8 (l >>> 21); ((l >>> 14) &&& 127) ||| 128; ((l >>> 7) &&& 127) ||| 128; (l &&& 127) ||| 128]
  else
    [u8 (l >>> 28); ((l >>> 21) &&& 127) ||| 128; ((l >>> 14) &&& 127) ||| 128;
     ((l >>> 7) &&& 127) ||| 128; (l &&& 127) ||| 128].

Definition lpEncodeBacklenBytes (l : Z) : Z :=
  if l <=? 127 then 1
  else if l <? 16383 then 2
  else if l <? 2097151 then 3
  else if l <? 268435455 then 4
  else 5.

(** At most five rounds: the sixth byte would need a shift of 35. *)
Fixpoint lpDecodeBacklen_loop (fuel : nat) (lp : list Z) (p val shift : Z) : option Z :=
  match fuel with
  | O => None
  | S fuel =>
      b ← mget lp p;
      let val := val ||| u64 ((b &&& 127) <<< shift) in
      if (b &&& 128) =? 0 then Some val
      else
        let shift := shift + 7 in
        let p := p - 1 in
        if shift >? 28 then Some UINT64_MAX
        else lpDecodeBacklen_loop fuel lp p val shift
  end.
Definition lpDecodeBacklen (lp : list Z) (p : Z) : option Z := lpDecodeBacklen_loop 5 lp p 0 0.

(** [buf] is an offset of the listpack. *)
Definition lpEncodeString (lp : list Z) (buf : Z) (s : list Z) : option (list Z) :=
  let len := zlen s in
  if len <? 64 then
    lp ← mwrite lp buf [u8 (len ||| LP_ENCODING_6BIT_STR)];
    mwrite lp (buf + 1) s
  else if len <? 4096 then
    lp ← mwrite lp buf [u8 ((len >>> 8) ||| LP_ENCODING_12BIT_STR); len &&& 255];
    mwrite lp (buf + 2) s
  else
    lp ← mwrite lp buf [LP_ENCODING_32BIT_STR; len &&& 255; (len >>> 8) &&& 255;
                        (len >>> 16) &&& 255; (len >>> 24) &&& 255];
    mwrite lp (buf + 5) s.

Definition lpCurrentEncodedSizeUnsafe (lp : list Z) (p : Z) : option Z :=
  b ← mget lp p;
  if LP_ENCODING_IS_7BIT_UINT b then Some 1
  else if LP_ENCODING_IS_6BIT_STR b then n ← LP_ENCODING_6BIT_STR_LEN lp p; Some (1 + n)
  else if LP_ENCODING_IS_13BIT_INT b then Some 2
  else if LP_ENCODING_IS_16BIT_INT b then Some 3
  else if LP_ENCODING_IS_24BIT_INT b then Some 4
  else if LP_ENCODING_IS_32BIT_INT b then Some 5
  else if LP_ENCODING_IS_64BIT_INT b then Some 9
  else if LP_ENCODING_IS_12BIT_STR b then n ← LP_ENCODING_12BIT_STR_LEN lp p; Some (2 + n)
  else if LP_ENCODING_IS_32BIT_STR b then n ← LP_ENCODING_32BIT_STR_LEN lp p; Some (u32 (5 + n))
  else if b =? LP_EOF then Some 1
  else Some 0.

Definition lpCurrentEncodedSizeBytes (encoding : Z) : Z :=
  if LP_ENCODING_IS_7BIT_UINT encoding then 1
  else if LP_ENCODING_IS_6BIT_STR encoding then 1
  else if LP_ENCODING_IS_13BIT_INT encoding then 1
  else if LP_ENCODING_IS_16BIT_INT encoding then 1
  else if LP_ENCODING_IS_24BIT_INT encoding then 1
  else if LP_ENCODING_IS_32BIT_INT encoding then 1
  else if LP_ENCODING_IS_64BIT_INT encoding then 1
  else if LP_ENCODING_IS_12BIT_STR encoding then 2
  else if LP_ENCODING_IS_32BIT_STR encoding then 5
  else if encoding =? LP_EOF then 1
  else 0.

(** ** Navigation and validation *)

Definition lpSkip (lp : list Z) (p : Z) : option Z :=
  n ← lpCurrentEncodedSizeUnsafe lp p;
  Some (p + (n + lpEncodeBacklenBytes n)).

(** The value returned and the pointer left in [*pp]. *)
Definition lpValidateNext (lp : list Z) (pp : option Z) (lpbytes : Z) : option (bool * option Z) :=
  let OUT_OF_RANGE := fun p => (p <? LP_HDR_SIZE) || (p >? lpbytes - 1) in
  match pp with
  | None => Some (false, pp)
  | Some p =>
      if OUT_OF_RANGE p then Some (false, pp)
      else
        b ← mget lp p;
        if b =? LP_EOF then Some (true, None)
        else
          let lenbytes := lpCurrentEncodedSizeBytes b in
          if lenbytes =? 0 then Some (false, pp)
          else if OUT_OF_RANGE (p + lenbytes) then Some (false, pp)
          else
            entrylen ← lpCurrentEncodedSizeUnsafe lp p;
            let encodedBacklen := lpEncodeBacklenBytes entrylen in
            let entrylen := entrylen + encodedBacklen in
            if OUT_OF_RANGE (p + entrylen) then Some (false, pp)
            else
              let p := p + entrylen in
              prevlen ← lpDecodeBacklen lp (p - 1);
              if negb (u64 (prevlen + encodedBacklen) =? entrylen) then Some (false, pp)
              else Some (true, Some p)
  end.

Definition lpAssertValidEntry (lp : list Z) (lpbytes p : Z) : option () :=
  '(ok, _) ← lpValidateNext lp (Some p) lpbytes; check ok.

(** The functions that return a pointer: [Some None] is a null pointer. *)

Definition lpNextWithBytes (lp : list Z) (p lpbytes : Z) : option (option Z) :=
  p ← lpSkip lp p;
  b ← mget lp p;
  if b =? LP_EOF then Some None
  else _ ← lpAssertValidEntry lp lpbytes p; Some (Some p).

Definition lpNext (lp : list Z) (p : Z) : option (option Z) :=
  p ← lpSkip lp p;
  b ← mget lp p;
  if b =? LP_EOF then Some None
  else lpbytes ← lpBytes lp; _ ← lpAssertValidEntry lp lpbytes p; Some (Some p).

Definition lpPrev (lp : list Z) (p : Z) : option (option Z) :=
  if p =? LP_HDR_SIZE then Some None
  else
    let p := p - 1 in
    prevlen ← lpDecodeBacklen lp p;
    let prevlen := u64 (prevlen + lpEncodeBacklenBytes prevlen) in
    let p := p - (prevlen - 1) in
    lpbytes ← lpBytes lp; _ ← lpAssertValidEntry lp lpbytes p; Some (Some p).

Definition lpFirst (lp : list Z) : option (option Z) :=
  let p := LP_HDR_SIZE in
  b ← mget lp p;
  if b =? LP_EOF then Some None
  else lpbytes ← lpBytes lp; _ ← lpAssertValidEntry lp lpbytes p; Some (Some p).

Definition lpLast (lp : list Z) : option (option Z) :=
  n ← lpGetTotalBytes lp; lpPrev lp (n - 1).

(** The counting loop of [lpLength]. *)
Fixpoint lpLength_loop (fuel : nat) (lp : list Z) (p : option Z) (count : Z) : option Z :=
  match fuel with
  | O => None
  | S fuel =>
      match p with
      | None => Some count
      | Some p => p ← lpNext lp p; lpLength_loop fuel lp p (u32 (count + 1))
      end
  end.

(** Entries take two bytes or more: the size of the region is enough fuel. *)
Definition lpLength (lp : list Z) : option (Z * list Z) :=
  numele ← lpGetNumElements lp;
  if negb (numele =? LP_HDR_NUMELE_UNKNOWN) then Some (numele, lp)
  else
    p ← lpFirst lp;
    count ← lpLength_loop (S (length lp)) lp p 0;
    lp ← (if count <? LP_HDR_NUMELE_UNKNOWN then lpSetNumElements lp count else Some lp);
    Some (count, lp).

(** ** Reading an entry *)

(** What a getter returns: a null pointer, a pointer into the listpack, or the
    [intbuf] of the caller with the bytes left in it. *)
Inductive lpref :=
  | RNull
  | RLp (off : Z)
  | RIntbuf (buf : list Z).

(** The common end of the getters: two's complement, then the integer itself or
    its notation in [intbuf]. *)
Definition lpGet_int (uval negstart negmax : Z) (intbuf : option (list Z)) : option (lpref * Z) :=
  let val := if uval >=? negstart
             then let uval := u64 (negmax - uval) in - i64 uval - 1
             else i64 uval in
  match intbuf with
  | Some buf => '(n, buf) ← ll2string buf 0 LP_INTBUF_SIZE val; Some (RIntbuf buf, n)
  | None => Some (RNull, val)
  end.

(** The result, [*count] and [*entry_size]; [None] for the size when it is not set. *)
Definition lpGetWithSize (lp : list Z) (p : Z) (intbuf : option (list Z))
    : option (lpref * Z * option Z) :=
  let int := fun r (size : option Z) => '(ref, count) ← r; Some (ref, count, size) in
  b ← mget lp p;
  if LP_ENCODING_IS_7BIT_UINT b then
    int (lpGet_int (b &&& 127) UINT64_MAX 0 intbuf) (Some 2)
  else if LP_ENCODING_IS_6BIT_STR b then
    count ← LP_ENCODING_6BIT_STR_LEN lp p;
    Some (RLp (p + 1), count, Some (1 + count + lpEncodeBacklenBytes (count + 1)))
  else if LP_ENCODING_IS_13BIT_INT b then
    b1 ← mget lp (p + 1);
    int (lpGet_int (((b &&& 31) <<< 8) ||| b1) (1 <<< 12) 8191 intbuf) (Some 3)
  else if LP_ENCODING_IS_16BIT_INT b then
    uval ← get16 lp (p + 1); int (lpGet_int uval (1 <<< 15) UINT16_MAX intbuf) (Some 4)
  else if LP_ENCODING_IS_24BIT_INT b then
    uval ← get24 lp (p + 1); int (lpGet_int uval (1 <<< 23) (UINT32_MAX >>> 8) intbuf) (Some 5)
  else if LP_ENCODING_IS_32BIT_INT b then
    uval ← get32 lp (p + 1); int (lpGet_int uval (1 <<< 31) UINT32_MAX intbuf) (Some 6)
  else if LP_ENCODING_IS_64BIT_INT b then
    uval ← get64 lp (p + 1); int (lpGet_int uval (1 <<< 63) UINT64_MAX intbuf) (Some 10)
  else if LP_ENCODING_IS_12BIT_STR b then
    count ← LP_ENCODING_12BIT_STR_LEN lp p;
    Some (RLp (p + 2), count, Some (2 + count + lpEncodeBacklenBytes (count + 2)))
  else if LP_ENCODING_IS_32BIT_STR b then
    count ← LP_ENCODING_32BIT_STR_LEN lp p;
    Some (RLp (p + 5), count, Some (5 + count + lpEncodeBacklenBytes (count + 5)))
  else int (lpGet_int (12345678900000000 + b) UINT64_MAX 0 intbuf) None.

Definition lpGetWithBuf (lp : list Z) (p : Z) (intbuf : option (list Z)) : option (lpref * Z) :=
  encoding ← mget lp p;
  if LP_ENCODING_IS_6BIT_STR encoding then
    count ← LP_ENCODING_6BIT_STR_LEN lp p; Some (RLp (p + 1), count)
  else if LP_ENCODING_IS_12BIT_STR encoding then
    count ← LP_ENCODING_12BIT_STR_LEN lp p; Some (RLp (p + 2), count)
  else if LP_ENCODING_IS_32BIT_STR encoding then
    count ← LP_ENCODING_32BIT_STR_LEN lp p; Some (RLp (p + 5), count)
  else if LP_ENCODING_IS_7BIT_UINT encoding then
    lpGet_int (encoding &&& 127) UINT64_MAX 0 intbuf
  else if LP_ENCODING_IS_13BIT_INT encoding then
    b1 ← mget lp (p + 1);
    lpGet_int (((encoding &&& 31) <<< 8) ||| b1) (1 <<< 12) 8191 intbuf
  else if LP_ENCODING_IS_16BIT_INT encoding then
    uval ← get16 lp (p + 1); lpGet_int uval (1 <<< 15) UINT16_MAX intbuf
  else if LP_ENCODING_IS_24BIT_INT encoding then
    uval ← get24 lp (p + 1); lpGet_int uval (1 <<< 23) (UINT32_MAX >>> 8) intbuf
  else if LP_ENCODING_IS_32BIT_INT encoding then
    uval ← get32 lp (p + 1); lpGet_int uval (1 <<< 31) UINT32_MAX intbuf
  else if LP_ENCODING_IS_64BIT_INT encoding then
    uval ← get64 lp (p + 1); lpGet_int uval (1 <<< 63) UINT64_MAX intbuf
  else lpGet_int (12345678900000000 + encoding) UINT64_MAX 0 intbuf.

Definition lpGet := lpGetWithBuf.

(** [inl (off, slen)]: a string in the listpack; [inr lval]: an integer. *)
Definition lpGetValue (lp : list Z) (p : Z) : option (Z * Z + Z) :=
  '(vstr, ele_len) ← lpGet lp p None;
  match vstr with
  | RLp off => Some (inl (off, u32 ele_len))
  | _ => Some (inr ele_len)
  end.

Definition lpGetIntegerValue (lp : list Z) (p : Z) : option (option Z) :=
  '(vstr, ele_len) ← lpGet lp p None;
  match vstr with
  | RNull => Some (Some ele_len)
  | _ => Some None
  end.

(** ** Searching *)

Section find.
Context {U : Type}.
(** [cmp lp p user value ll]: whether it returns zero, and the new user data. *)
Context (cmp : list Z -> Z -> U -> lpref -> Z -> option (bool * U)).

Definition is_ref (r : lpref) : bool := match r with RNull => false | _ => true end.

Fixpoint lpFind_loop (fuel : nat) (lp : list Z) (lp_bytes : Z) (p : Z) (user : U)
    (skip skipcnt entry_size : Z) : option (option Z) :=
  match fuel with
  | O => None
  | S fuel =>
      let next := fun p user skipcnt entry_size =>
        _ ← (if p + 8 >=? lp_bytes then lpAssertValidEntry lp lp_bytes p
             else check ((p >=? LP_HDR_SIZE) && (p <? lp_bytes)));
        b ← mget lp p;
        if b =? LP_EOF then Some None
        else lpFind_loop fuel lp lp_bytes p user skip skipcnt entry_size in
      if skipcnt =? 0 then
        '(value, ll, size) ← lpGetWithSize lp p None;
        let entry_size := default entry_size size in
        _ ← (if is_ref value then check ((p >=? LP_HDR_SIZE) && (p + entry_size <? lp_bytes))
             else Some ());
        '(eq, user) ← cmp lp p user value ll;
        if (eq : bool) then Some (Some p)
        else next (p + entry_size) user skip entry_size
      else
        p ← lpSkip lp p;
        next p user (skipcnt - 1) entry_size
  end.

Definition lpFindCbInternal (lp : list Z) (p : option Z) (user : U) (skip : Z) : option (option Z) :=
  lp_bytes ← lpBytes lp;
  p ← (match p with Some p => Some (Some p) | None => lpFirst lp end);
  match p with
  | None => Some None
  | Some p => lpFind_loop (S (length lp)) lp lp_bytes p user skip 0 123456789
  end.

Definition lpFindCb := lpFindCbInternal.
End find.

Record lpFindArg := { fa_s : list Z; fa_vencoding : Z; fa_vll : Z }.
Definition UCHAR_MAX : Z := 255.

Definition lpFindCmp (lp : list Z) (p : Z) (arg : lpFindArg) (s : lpref) (slen : Z)
    : option (bool * lpFindArg) :=
  match s with
  | RLp off =>
      if slen =? zlen (fa_s arg) then
        bs ← mread lp off slen;
        Some (bool_decide (bs = fa_s arg), arg)
      else Some (false, arg)
  | _ =>
      let arg :=
        if fa_vencoding arg =? 0 then
          if (zlen (fa_s arg) >=? 32) || (zlen (fa_s arg) =? 0) then
            {| fa_s := fa_s arg; fa_vencoding := UCHAR_MAX; fa_vll := fa_vll arg |}
          else
            match lpStringToInt64 (fa_s arg) with
            | None => {| fa_s := fa_s arg; fa_vencoding := UCHAR_MAX; fa_vll := fa_vll arg |}
            | Some vll => {| fa_s := fa_s arg; fa_vencoding := 1; fa_vll := vll |}
            end
        else arg in
      Some (negb (fa_vencoding arg =? UCHAR_MAX) && (slen =? fa_vll arg), arg)
  end.

Definition lpFind (lp : list Z) (p : option Z) (s : list Z) (skip : Z) : option (option Z) :=
  let arg := {| fa_s := s; fa_vencoding := 0; fa_vll := 0 |} in
  lpFindCbInternal lpFindCmp lp p arg skip.

(** [cached] holds [*cached_longval] and [*cached_valid] when the caller passes
    them; the result has the answer and what is left in them. *)
Definition lpCompare (lp : list Z) (p : Z) (s : list Z) (cached : option (Z * Z))
    : option (bool * option (Z * Z)) :=
  b ← mget lp p;
  if b =? LP_EOF then Some (false, cached)
  else
    '(value, sz) ← lpGet lp p None;
    match value with
    | RLp off =>
        if zlen s =? sz then bs ← mread lp off sz; Some (bool_decide (bs = s), cached)
        else Some (false, cached)
    | _ =>
        match cached with
        | Some (longval, valid) =>
            let '(longval, valid) :=
              if valid =? 0 then
                match lpStringToInt64 s with
                | Some v => (v, 1)
                | None => (longval, -1)
                end
              else (longval, valid) in
            Some ((valid =? 1) && (sz =? longval), Some (longval, valid))
        | None =>
            match lpStringToInt64 s with
            | Some sval => Some (sz =? sval, None)
            | None => Some (false, None)
            end
        end
    end.

(** [while (index > 0 && ele)] and [while (index < -1 && ele)] *)
Fixpoint lpSeek_fwd (fuel : nat) (lp : list Z) (ele : option Z) (index : Z) : option (option Z) :=
  match fuel with
  | O => None
  | S fuel =>
      match ele with
      | Some e => if index >? 0 then e ← lpNext lp e; lpSeek_fwd fuel lp e (index - 1) else Some ele
      | None => Some None
      end
  end.
Fixpoint lpSeek_bwd (fuel : nat) (lp : list Z) (ele : option Z) (index : Z) : option (option Z) :=
  match fuel with
  | O => None
  | S fuel =>
      match ele with
      | Some e => if index <? -1 then e ← lpPrev lp e; lpSeek_bwd fuel lp e (index + 1) else Some ele
      | None => Some None
      end
  end.

Definition lpSeek (lp : list Z) (index : Z) : option (option Z) :=
  numele ← lpGetNumElements lp;
  let go := fun (forward : bool) index =>
    if forward then ele ← lpFirst lp; lpSeek_fwd (S (length lp)) lp ele index
    else ele ← lpLast lp; lpSeek_bwd (S (length lp)) lp ele index in
  if negb (numele =? LP_HDR_NUMELE_UNKNOWN) then
    let index := if index <? 0 then numele + index else index in
    if index <? 0 then Some None
    else if index >=? numele then Some None
    else if index >? numele / 2 then go false (index - numele)
    else go true index
  else if index <? 0 then go false index
  else go true index.

(** ** Updates *)

Inductive where_t := LP_BEFORE | LP_AFTER | LP_REPLACE.
#[global] Instance where_eq_dec : EqDecision where_t.
Proof. solve_decision. Defined.

Section with_allocator.
(** [usable n] is the size of the block the allocator returns for a request of
    [n] bytes, [fresh] the contents of new memory. *)
Context (usable : Z -> Z) (fresh : nat -> Z).

Definition lp_malloc (n : Z) : list Z := zrealloc fresh [] (usable n).
Definition lp_realloc (lp : list Z) (n : Z) : list Z := zrealloc fresh lp (usable n).
Definition lp_malloc_size (lp : list Z) : Z := zlen lp.

Definition lpNew (capacity : Z) : option (list Z) :=
  let lp := lp_malloc (if capacity >? LP_HDR_SIZE + 1 then capacity else LP_HDR_SIZE + 1) in
  lp ← lpSetTotalBytes lp (LP_HDR_SIZE + 1);
  lp ← lpSetNumElements lp 0;
  mwrite lp LP_HDR_SIZE [LP_EOF].

Definition lpShrinkToFit (lp : list Z) : option (list Z) :=
  size ← lpGetTotalBytes lp;
  if size <? lp_malloc_size lp then Some (lp_realloc lp size) else Some lp.

(** [Some None] is a null result (the listpack would be too large), otherwise
    the new listpack and [*newp]. *)
Definition lpInsert (lp : list Z) (elestr eleint : option (list Z)) (p : Z) (where_ : where_t)
    : option (option (list Z * option Z)) :=
  let delete := bool_decide (elestr = None) && bool_decide (eleint = None) in
  let where_ := if delete then LP_REPLACE else where_ in
  '(p, where_) ←
    (if bool_decide (where_ = LP_AFTER) then
       p ← lpSkip lp p; _ ← ASSERT_INTEGRITY lp p; Some (p, LP_BEFORE)
     else Some (p, where_));
  let poff := p in
  (** the encoding of the element and the encoded integer, when it is one *)
  let '(eleint, enclen) :=
    match elestr, eleint with
    | Some s, _ => match lpEncodeGetType s with
                   | inl intenc => (Some intenc, zlen intenc)
                   | inr enclen => (None, enclen)
                   end
    | None, Some intenc => (Some intenc, zlen intenc)
    | None, None => (None, 0)
    end in
  let backlen := if negb delete then lpEncodeBacklen enclen else [] in
  let backlen_size := zlen backlen in
  old_listpack_bytes ← lpGetTotalBytes lp;
  replaced_len ←
    (if bool_decide (where_ = LP_REPLACE) then
       n ← lpCurrentEncodedSizeUnsafe lp p;
       let n := u32 (n + lpEncodeBacklenBytes n) in
       _ ← ASSERT_INTEGRITY_LEN lp p n;
       Some n
     else Some 0);
  let new_listpack_bytes := u64 (old_listpack_bytes + enclen + backlen_size - replaced_len) in
  if new_listpack_bytes >? UINT32_MAX then Some None
  else
    let dst := poff in
    let lp := if (new_listpack_bytes >? old_listpack_bytes)
                 && (new_listpack_bytes >? lp_malloc_size lp)
              then lp_realloc lp new_listpack_bytes else lp in
    lp ← (if bool_decide (where_ = LP_BEFORE)
          then memmove lp (dst + enclen + backlen_size) dst (old_listpack_bytes - poff)
          else memmove lp (dst + enclen + backlen_size) (dst + replaced_len)
                 (old_listpack_bytes - poff - replaced_len));
    let lp := if new_listpack_bytes <? old_listpack_bytes
              then lp_realloc lp new_listpack_bytes else lp in
    newp ← (if delete then d0 ← mget lp dst; Some (if d0 =? LP_EOF then None else Some dst)
            else Some (Some dst));
    lp ← (if negb delete then
            lp ← (match eleint, elestr with
                  | Some intenc, _ => mwrite lp dst intenc
                  | None, Some s => lpEncodeString lp dst s
                  | None, None => None
                  end);
            mwrite lp (dst + enclen) backlen
          else Some lp);
    lp ← (if bool_decide (where_ ≠ LP_REPLACE) || delete then
            num_elements ← lpGetNumElements lp;
            if negb (num_elements =? LP_HDR_NUMELE_UNKNOWN) then
              if negb delete then lpSetNumElements lp (num_elements + 1)
              else lpSetNumElements lp (u32 (num_elements - 1))
            else Some lp
          else Some lp);
    lp ← lpSetTotalBytes lp new_listpack_bytes;
    Some (Some (lp, newp)).

Definition lpInsertString (lp s : list Z) (p : Z) (where_ : where_t) :=
  lpInsert lp (Some s) None p where_.

Definition lpInsertInteger (lp : list Z) (lval p : Z) (where_ : where_t) :=
  lpInsert lp None (Some (lpEncodeIntegerGetType lval)) p where_.

(** Callers that pass a null [newp]. *)
Definition drop_newp (r : option (list Z * option Z)) : option (list Z) :=
  match r with Some (lp, _) => Some lp | None => None end.

Definition lpAppend (lp ele : list Z) : option (option (list Z)) :=
  listpack_bytes ← lpGetTotalBytes lp;
  let eofptr := listpack_bytes - 1 in
  drop_newp <$> lpInsert lp (Some ele) None eofptr LP_BEFORE.

Definition lpAppendInteger (lp : list Z) (lval : Z) : option (option (list Z)) :=
  listpack_bytes ← lpGetTotalBytes lp;
  let eofptr := listpack_bytes - 1 in
  drop_newp <$> lpInsertInteger lp lval eofptr LP_BEFORE.

Definition lpPrepend (lp s : list Z) : option (option (list Z)) :=
  p ← lpFirst lp;
  match p with
  | None => lpAppend lp s
  | Some p => drop_newp <$> lpInsert lp (Some s) None p LP_BEFORE
  end.

Definition lpPrependInteger (lp : list Z) (lval : Z) : option (option (list Z)) :=
  p ← lpFirst lp;
  match p with
  | None => lpAppendInteger lp lval
  | Some p => drop_newp <$> lpInsertInteger lp lval p LP_BEFORE
  end.

Definition lpReplace (lp : list Z) (p : Z) (s : list Z) := lpInsert lp (Some s) None p LP_REPLACE.
Definition lpReplaceInteger (lp : list Z) (p lval : Z) := lpInsertInteger lp lval p LP_REPLACE.
Definition lpDelete (lp : list Z) (p : Z) := lpInsert lp None None p LP_REPLACE.

(** The encoded bytes of a string or an integer entry, without the backlen:
    the first loop of [lpBatchInsert] computes their sizes ([enclen]) ... *)
Definition batch_enc (e : list Z + Z) : list Z + list Z * Z :=
  match e with
  | inl s => match lpEncodeGetType s with
             | inl intenc => inl intenc
             | inr enclen => inr (s, enclen)
             end
  | inr lval => inl (lpEncodeIntegerGetType lval)
  end.
Definition batch_enclen (e : list Z + Z) : Z :=
  match batch_enc e with inl intenc => zlen intenc | inr (_, enclen) => enclen end.
Definition batch_addedlen (entries : list (list Z + Z)) : Z :=
  foldl (fun addedlen e =>
    u64 (u64 (addedlen + batch_enclen e) + zlen (lpEncodeBacklen (batch_enclen e)))) 0 entries.

(** ... and the second one stores them: the listpack, [dst] and [*newp]. *)
Fixpoint batch_store (entries : list (list Z + Z)) (lp : list Z) (dst : Z) (newp : option Z)
    : option (list Z * option Z) :=
  match entries with
  | [] => Some (lp, newp)
  | e :: entries =>
      lp ← (match batch_enc e with
            | inl intenc => mwrite lp dst intenc
            | inr (s, _) => lpEncodeString lp dst s
            end);
      lp ← mwrite lp (dst + batch_enclen e) (lpEncodeBacklen (batch_enclen e));
      batch_store entries lp (dst + batch_enclen e + zlen (lpEncodeBacklen (batch_enclen e))) (Some dst)
  end.

Definition lpBatchInsert (lp : list Z) (p : Z) (where_ : where_t) (entries : list (list Z + Z))
    : option (option (list Z * option Z)) :=
  _ ← check (bool_decide (where_ ≠ LP_REPLACE));
  let len := zlen entries in
  _ ← check (len >? 0);
  p ← (if bool_decide (where_ = LP_AFTER) then
         p ← lpSkip lp p; _ ← ASSERT_INTEGRITY lp p; Some p
       else Some p);
  let addedlen := batch_addedlen entries in
  old_listpack_bytes ← lpGetTotalBytes lp;
  let new_listpack_bytes := u64 (old_listpack_bytes + addedlen) in
  if new_listpack_bytes >? UINT32_MAX then Some None
  else
    let poff := p in
    let dst := poff in
    let lp := if (new_listpack_bytes >? old_listpack_bytes)
                 && (new_listpack_bytes >? lp_malloc_size lp)
              then lp_realloc lp new_listpack_bytes else lp in
    lp ← memmove lp (dst + addedlen) dst (old_listpack_bytes - poff);
    '(lp, newp) ← batch_store entries lp dst None;
    num_elements ← lpGetNumElements lp;
    lp ← (if negb (num_elements =? LP_HDR_NUMELE_UNKNOWN) then
            if len >? LP_HDR_NUMELE_UNKNOWN - num_elements
            then lpSetNumElements lp LP_HDR_NUMELE_UNKNOWN
            else lpSetNumElements lp (num_elements + len)
          else Some lp);
    lp ← lpSetTotalBytes lp new_listpack_bytes;
    Some (Some (lp, newp)).

Definition lpBatchAppend (lp : list Z) (entries : list (list Z + Z)) : option (option (list Z)) :=
  listpack_bytes ← lpGetTotalBytes lp;
  let eofptr := listpack_bytes - 1 in
  drop_newp <$> lpBatchInsert lp eofptr LP_BEFORE entries.

(** [while (num--)]: the entry after the deleted ones and how many they are. *)
Fixpoint delete_range_loop (fuel : nat) (lp : list Z) (bytes tail num deleted : Z)
    : option (Z * Z) :=
  match fuel with
  | O => None
  | S fuel =>
      if num =? 0 then Some (tail, deleted)
      else
        let deleted := deleted + 1 in
        tail ← lpSkip lp tail;
        b ← mget lp tail;
        if b =? LP_EOF then Some (tail, deleted)
        else
          _ ← lpAssertValidEntry lp bytes tail;
          delete_range_loop fuel lp bytes tail (num - 1) deleted
  end.

Definition lpDeleteRangeWithEntry (lp : list Z) (p num : Z) : option (list Z * option Z) :=
  bytes ← lpBytes lp;
  let eofptr := bytes - 1 in
  let first := p in
  if num =? 0 then Some (lp, Some p)
  else
    '(tail, deleted) ← delete_range_loop (S (length lp)) lp bytes p num 0;
    let poff := first in
    lp ← memmove lp first tail (eofptr - tail + 1);
    lp ← lpSetTotalBytes lp (bytes - (tail - first));
    numele ← lpGetNumElements lp;
    lp ← (if negb (numele =? LP_HDR_NUMELE_UNKNOWN)
          then lpSetNumElements lp (u64 (numele - deleted)) else Some lp);
    lp ← lpShrinkToFit lp;
    b ← mget lp poff;
    Some (lp, if b =? LP_EOF then None else Some poff).

Definition lpDeleteRange (lp : list Z) (index num : Z) : option (list Z) :=
  numele ← lpGetNumElements lp;
  if num =? 0 then Some lp
  else
    p ← lpSeek lp index;
    match p with
    | None => Some lp
    | Some p =>
        let known := negb (numele =? LP_HDR_NUMELE_UNKNOWN) in
        let index := if known && (index <? 0) then numele + index else index in
        if known && (u64 (numele - u64 index) <=? num) then
          lp ← mwrite lp p [LP_EOF];
          lp ← lpSetTotalBytes lp (p + 1);
          lp ← lpSetNumElements lp index;
          lpShrinkToFit lp
        else fst <$> lpDeleteRangeWithEntry lp p num
    end.

(** The loop of [lpBatchDelete] over the pointers; [dst] at its end. *)
Fixpoint batch_delete_loop (ps : list Z) (lp : list Z) (lp_end dst : Z) : option (list Z * Z) :=
  match ps with
  | [] => Some (lp, dst)
  | skip :: ps =>
      b ← mget lp skip;
      _ ← check (negb (b =? LP_EOF));
      keep_start ← lpSkip lp skip;
      let keep_end := match ps with next :: _ => next | [] => lp_end end in
      if bool_decide (ps ≠ []) && (keep_start =? keep_end)
      then batch_delete_loop ps lp lp_end dst
      else
        _ ← check (keep_end >? keep_start);
        let bytes_to_keep := keep_end - keep_start in
        lp ← memmove lp dst keep_start bytes_to_keep;
        batch_delete_loop ps lp lp_end (dst + bytes_to_keep)
  end.

Definition lpBatchDelete (lp : list Z) (ps : list Z) : option (list Z) :=
  match ps with
  | [] => Some lp
  | dst :: _ =>
      total_bytes ← lpGetTotalBytes lp;
      let lp_end := total_bytes in
      e ← mget lp (lp_end - 1);
      _ ← check (e =? LP_EOF);
      '(lp, dst) ← batch_delete_loop ps lp lp_end dst;
      let deleted_bytes := lp_end - dst in
      let total_bytes := total_bytes - deleted_bytes in
      e ← mget lp (total_bytes - 1);
      _ ← check (e =? LP_EOF);
      lp ← lpSetTotalBytes lp total_bytes;
      numele ← lpGetNumElements lp;
      lp ← (if negb (numele =? LP_HDR_NUMELE_UNKNOWN)
            then lpSetNumElements lp (u64 (numele - zlen ps)) else Some lp);
      lpShrinkToFit lp
  end.

(** Two listpacks in two blocks: the tests for null pointers and for merging a
    listpack into itself do not arise.  The block that is not returned is freed. *)
Definition lpMerge (first second : list Z) : option (list Z) :=
  first_bytes ← lpBytes first;
  '(first_len, first) ← lpLength first;
  second_bytes ← lpBytes second;
  '(second_len, second) ← lpLength second;
  let append := first_bytes >=? second_bytes in
  let '(target, target_bytes, source, source_bytes) :=
    if append then (first, first_bytes, second, second_bytes)
    else (second, second_bytes, first, first_bytes) in
  let lpbytes := u64 (first_bytes + second_bytes - LP_HDR_SIZE - 1) in
  _ ← check (lpbytes <? UINT32_MAX);
  let lplength := first_len + second_len in
  let lplength := if lplength <? UINT16_MAX then lplength else UINT16_MAX in
  let target := lp_realloc target lpbytes in
  target ← (if append then
              bs ← mread source LP_HDR_SIZE (source_bytes - LP_HDR_SIZE);
              mwrite target (target_bytes - 1) bs
            else
              target ← memmove target (source_bytes - 1) LP_HDR_SIZE (target_bytes - LP_HDR_SIZE);
              bs ← mread source 0 (source_bytes - 1);
              mwrite target 0 bs);
  target ← lpSetNumElements target lplength;
  lpSetTotalBytes target lpbytes.

Definition lpDup (lp : list Z) : option (list Z) :=
  lpbytes ← lpBytes lp;
  bs ← mread lp 0 lpbytes;
  mwrite (lp_malloc lpbytes) 0 bs.

End with_allocator.

Definition lpEntrySizeInteger (lval : Z) : Z :=
  let enclen := zlen (lpEncodeIntegerGetType lval) in
  enclen + lpEncodeBacklenBytes enclen.

Definition lpEstimateBytesRepeatedInteger (lval rep : Z) : Z :=
  u64 (LP_HDR_SIZE + lpEntrySizeInteger lval * rep + 1).

Definition lpValidateFirst (lp : list Z) : option (option Z) :=
  b ← mget lp LP_HDR_SIZE;
  if b =? LP_EOF then Some None else Some (Some LP_HDR_SIZE).

(** The loop over the entries: [None] for the pointer and the count when an
    entry is not valid.  [entry_cb] is the callback, when there is one. *)
Fixpoint validate_loop (entry_cb : option (Z -> Z -> bool)) (fuel : nat) (lp : list Z)
    (bytes numele : Z) (p : option Z) (count : Z) : option (option (option Z * Z)) :=
  match fuel with
  | O => None
  | S fuel =>
      match p with
      | None => Some (Some (None, count))
      | Some prev =>
          b ← mget lp prev;
          if b =? LP_EOF then Some (Some (p, count))
          else
            '(ok, p) ← lpValidateNext lp p bytes;
            if negb ok then Some None
            else
              let cb := match entry_cb with Some f => f prev numele | None => true end in
              if negb cb then Some None
              else validate_loop entry_cb fuel lp bytes numele p (u32 (count + 1))
      end
  end.

Definition lpValidateIntegrity (lp : list Z) (size : Z) (deep : bool)
    (entry_cb : option (Z -> Z -> bool)) : option bool :=
  if size <? LP_HDR_SIZE + 1 then Some false
  else
    bytes ← lpGetTotalBytes lp;
    if negb (bytes =? size) then Some false
    else
      e ← mget lp (size - 1);
      if negb (e =? LP_EOF) then Some false
      else if negb deep then Some true
      else
        numele ← lpGetNumElements lp;
        r ← validate_loop entry_cb (S (length lp)) lp bytes numele (Some LP_HDR_SIZE) 0;
        match r with
        | None => Some false
        | Some (p, count) =>
            if negb (bool_decide (p = Some (size - 1))) then Some false
            else if negb (numele =? LP_HDR_NUMELE_UNKNOWN) && negb (numele =? count)
            then Some false
            else Some true
        end.
