(* ===== verification/ListpackSpec.v ===== *)
(** * listpack.c: meaning and correctness

    A listpack represents a list of entries, each an integer or a string.  The
    encodings are inverse to the getters; [ListpackNav] and [ListpackUpd] say what
    traversal and updates do to the list. *)

From S2P Require Import Prelude Util Listpack.

(** ** Reading relative to a prefix *)

Lemma mget_shift (a m : list Z) (i : Z) : 0 <= i -> mget (a ++ m) (zlen a + i) = mget m i.
Proof.
  intros Hi. unfold mget. pose proof (zlen_nonneg a). zcase.
  rewrite lookup_app_r by (unfold zlen; lia). f_equal. unfold zlen. lia.
Qed.

Lemma mget_shift0 (a m : list Z) : mget (a ++ m) (zlen a) = mget m 0.
Proof. rewrite <- (Z.add_0_r (zlen a)). by apply mget_shift. Qed.

Lemma get16_shift (a m : list Z) i : 0 <= i -> get16 (a ++ m) (zlen a + i) = get16 m i.
Proof. intros. unfold get16. by rewrite <- Z.add_assoc, !mget_shift by lia. Qed.
Lemma get24_shift (a m : list Z) i : 0 <= i -> get24 (a ++ m) (zlen a + i) = get24 m i.
Proof. intros. unfold get24. by rewrite <- !Z.add_assoc, !mget_shift by lia. Qed.
Lemma get32_shift (a m : list Z) i : 0 <= i -> get32 (a ++ m) (zlen a + i) = get32 m i.
Proof. intros. unfold get32. by rewrite <- !Z.add_assoc, !mget_shift by lia. Qed.
Lemma get64_shift (a m : list Z) i : 0 <= i -> get64 (a ++ m) (zlen a + i) = get64 m i.
Proof. intros. unfold get64. by rewrite <- !Z.add_assoc, !mget_shift by lia. Qed.

Lemma lor2 b0 b1 : is_byte b0 -> is_byte b1 -> b0 ||| (b1 <<< 8) = le_dec [b0; b1].
Proof. unfold is_byte. intros. rewrite lor_shiftl by lia. simpl. lia. Qed.
Lemma lor3 b0 b1 b2 : is_byte b0 -> is_byte b1 -> is_byte b2 ->
  b0 ||| (b1 <<< 8) ||| (b2 <<< 16) = le_dec [b0; b1; b2].
Proof. intros. rewrite lor2 by done. unfold is_byte in *. rewrite lor_shiftl by (simpl; lia). simpl. lia. Qed.
Lemma lor4 b0 b1 b2 b3 : is_byte b0 -> is_byte b1 -> is_byte b2 -> is_byte b3 ->
  b0 ||| (b1 <<< 8) ||| (b2 <<< 16) ||| (b3 <<< 24) = le_dec [b0; b1; b2; b3].
Proof. intros. rewrite lor3 by done. unfold is_byte in *. rewrite lor_shiftl by (simpl; lia). simpl. lia. Qed.
Lemma lor8 b0 b1 b2 b3 b4 b5 b6 b7 : is_byte b0 -> is_byte b1 -> is_byte b2 -> is_byte b3 ->
  is_byte b4 -> is_byte b5 -> is_byte b6 -> is_byte b7 ->
  b0 ||| (b1 <<< 8) ||| (b2 <<< 16) ||| (b3 <<< 24) ||| (b4 <<< 32) ||| (b5 <<< 40)
    ||| (b6 <<< 48) ||| (b7 <<< 56) = le_dec [b0; b1; b2; b3; b4; b5; b6; b7].
Proof.
  intros. rewrite lor4 by done. unfold is_byte in *.
  rewrite (lor_shiftl _ b4 32), (lor_shiftl _ b5 40), (lor_shiftl _ b6 48), (lor_shiftl _ b7 56)
    by (simpl; lia). simpl. lia.
Qed.

Lemma get16_bytes b0 b1 rest :
  is_byte b0 -> is_byte b1 -> get16 (b0 :: b1 :: rest) 0 = Some (le_dec [b0; b1]).
Proof. intros. by rewrite <- lor2. Qed.
Lemma get24_bytes b0 b1 b2 rest :
  is_byte b0 -> is_byte b1 -> is_byte b2 -> get24 (b0 :: b1 :: b2 :: rest) 0 = Some (le_dec [b0; b1; b2]).
Proof. intros. by rewrite <- lor3. Qed.
Lemma get32_bytes b0 b1 b2 b3 rest :
  is_byte b0 -> is_byte b1 -> is_byte b2 -> is_byte b3 ->
  get32 (b0 :: b1 :: b2 :: b3 :: rest) 0 = Some (le_dec [b0; b1; b2; b3]).
Proof. intros. by rewrite <- lor4. Qed.
Lemma get64_bytes b0 b1 b2 b3 b4 b5 b6 b7 rest :
  is_byte b0 -> is_byte b1 -> is_byte b2 -> is_byte b3 ->
  is_byte b4 -> is_byte b5 -> is_byte b6 -> is_byte b7 ->
  get64 (b0 :: b1 :: b2 :: b3 :: b4 :: b5 :: b6 :: b7 :: rest) 0 =
    Some (le_dec [b0; b1; b2; b3; b4; b5; b6; b7]).
Proof. intros. by rewrite <- lor8. Qed.

Ltac get_enc lem n v :=
  let Hb := fresh in
  pose proof (le_enc_bytes n v) as Hb; rewrite <- (le_dec_enc n v); cbn [le_enc app] in *;
  rewrite !Forall_cons in Hb; apply lem; tauto.

Lemma get16_enc v rest : get16 (le_enc 2 v ++ rest) 0 = Some (wrap 16 v).
Proof. change 16 with (8 * Z.of_nat 2). get_enc get16_bytes 2%nat v. Qed.
Lemma get24_enc v rest : get24 (le_enc 3 v ++ rest) 0 = Some (wrap 24 v).
Proof. change 24 with (8 * Z.of_nat 3). get_enc get24_bytes 3%nat v. Qed.
Lemma get32_enc v rest : get32 (le_enc 4 v ++ rest) 0 = Some (wrap 32 v).
Proof. change 32 with (8 * Z.of_nat 4). get_enc get32_bytes 4%nat v. Qed.
Lemma get64_enc v rest : get64 (le_enc 8 v ++ rest) 0 = Some (wrap 64 v).
Proof. change 64 with (8 * Z.of_nat 8). get_enc get64_bytes 8%nat v. Qed.

(** ** Entries *)

Inductive lpe :=
  | EInt (v : Z)
  | EStr (s : list Z).

Definition str_hdr (len : Z) : list Z :=
  if len <? 64 then [u8 (len ||| LP_ENCODING_6BIT_STR)]
  else if len <? 4096 then [u8 ((len >>> 8) ||| LP_ENCODING_12BIT_STR); len &&& 255]
  else [LP_ENCODING_32BIT_STR; len &&& 255; (len >>> 8) &&& 255; (len >>> 16) &&& 255; (len >>> 24) &&& 255].

(** The encoding the code picks for an element. *)
Definition enc (e : lpe) : list Z :=
  match e with
  | EInt v => lpEncodeIntegerGetType v
  | EStr s => str_hdr (zlen s) ++ s
  end.

(** The encoding byte classes as intervals. *)
Section byte_class.
Context (b : Z) (Hb : is_byte b).
Lemma class_7bit : LP_ENCODING_IS_7BIT_UINT b = (b <? 128).
Proof. by_bytes b Hb. Qed.
Lemma class_6bit : LP_ENCODING_IS_6BIT_STR b = (128 <=? b) && (b <? 192).
Proof. by_bytes b Hb. Qed.
Lemma class_13bit : LP_ENCODING_IS_13BIT_INT b = (192 <=? b) && (b <? 224).
Proof. by_bytes b Hb. Qed.
Lemma class_12bit : LP_ENCODING_IS_12BIT_STR b = (224 <=? b) && (b <? 240).
Proof. by_bytes b Hb. Qed.
Lemma class_16bit : LP_ENCODING_IS_16BIT_INT b = (b =? 241).
Proof. by_bytes b Hb. Qed.
Lemma class_24bit : LP_ENCODING_IS_24BIT_INT b = (b =? 242).
Proof. by_bytes b Hb. Qed.
Lemma class_32bit : LP_ENCODING_IS_32BIT_INT b = (b =? 243).
Proof. by_bytes b Hb. Qed.
Lemma class_64bit : LP_ENCODING_IS_64BIT_INT b = (b =? 244).
Proof. by_bytes b Hb. Qed.
Lemma class_32str : LP_ENCODING_IS_32BIT_STR b = (b =? 240).
Proof. by_bytes b Hb. Qed.
End byte_class.

(** Resolve the class of the byte [b]. *)
Ltac byte_class Hb :=
  rewrite ?(class_7bit _ Hb), ?(class_6bit _ Hb), ?(class_13bit _ Hb), ?(class_12bit _ Hb),
    ?(class_16bit _ Hb), ?(class_24bit _ Hb), ?(class_32bit _ Hb), ?(class_64bit _ Hb),
    ?(class_32str _ Hb); unfold LP_EOF; zcase; cbn [andb].

(** *** Integers *)

Lemma le_enc_add_pow (n : nat) v w : w = 8 * Z.of_nat n -> le_enc n (2 ^ w + v) = le_enc n v.
Proof.
  intros ->. rewrite <- (le_enc_wrap n (_ + v)), <- (le_enc_wrap n v). f_equal. unfold wrap.
  rewrite <- Z.add_mod_idemp_l, Z.mod_same by lia. done.
Qed.

Lemma u8_land x : u8 x = x &&& 255.
Proof. by rewrite land_255. Qed.

Lemma shiftr_shiftr_8 x n : 0 <= n -> (x >>> n) >>> 8 = x >>> (n + 8).
Proof. intros. by rewrite Z.shiftr_shiftr. Qed.

Lemma intenc_16 v : [v &&& 255; u8 (v >>> 8)] = le_enc 2 v.
Proof. by rewrite u8_land. Qed.
Lemma intenc_24 v : [v &&& 255; (v >>> 8) &&& 255; u8 (v >>> 16)] = le_enc 3 v.
Proof. rewrite u8_land. cbn [le_enc]. by rewrite !shiftr_shiftr_8. Qed.
Lemma intenc_32 v : [v &&& 255; (v >>> 8) &&& 255; (v >>> 16) &&& 255; u8 (v >>> 24)] = le_enc 4 v.
Proof. rewrite u8_land. cbn [le_enc]. by rewrite !shiftr_shiftr_8. Qed.
Lemma intenc_64 v :
  [v &&& 255; (v >>> 8) &&& 255; (v >>> 16) &&& 255; (v >>> 24) &&& 255; (v >>> 32) &&& 255;
   (v >>> 40) &&& 255; (v >>> 48) &&& 255; u8 (v >>> 56)] = le_enc 8 v.
Proof. rewrite u8_land. cbn [le_enc]. by rewrite !shiftr_shiftr_8. Qed.

Lemma lor_class_13 x : 0 <= x < 32 -> u8 (x ||| 192) = 192 + x.
Proof.
  intros Hx. assert (Hb : is_byte x) by (unfold is_byte; lia). revert Hx. by_bytes x Hb.
Qed.

(** The encoded integer by ranges. *)
Inductive int_enc (v : Z) : list Z -> Prop :=
  | ienc_7 : 0 <= v <= 127 -> int_enc v [v]
  | ienc_13 : in_signed 13 v -> int_enc v [192 + wrap 13 v / 256; wrap 13 v mod 256]
  | ienc_16 : in_signed 16 v -> int_enc v (241 :: le_enc 2 v)
  | ienc_24 : in_signed 24 v -> int_enc v (242 :: le_enc 3 v)
  | ienc_32 : in_signed 32 v -> int_enc v (243 :: le_enc 4 v)
  | ienc_64 : in_signed 64 v -> int_enc v (244 :: le_enc 8 v).

Lemma wrap_neg w v : 0 < w -> in_signed w v -> wrap w v = if v <? 0 then 2 ^ w + v else v.
Proof.
  unfold in_signed, wrap. intros Hw Hv. rewrite (pow2_split w) in * by lia.
  destruct (Z.ltb_spec v 0); [|apply Z.mod_small; lia].
  rewrite <- (Z.mod_add v 1) by lia. rewrite Z.mul_1_l, Z.mod_small; lia.
Qed.

Lemma range_bd v a b : (v >=? a) && (v <=? b) = bool_decide (a <= v <= b).
Proof. case_bool_decide; destruct (Z.geb_spec v a), (Z.leb_spec v b); try done; lia. Qed.

Lemma le_enc_pos (n : nat) v w :
  w = 8 * Z.of_nat n -> le_enc n (if v <? 0 then (1 <<< w) + v else v) = le_enc n v.
Proof.
  intros Hw. destruct (v <? 0); [|done].
  rewrite Z.shiftl_1_l. by apply le_enc_add_pow.
Qed.

Lemma int_encP v : in_signed 64 v -> int_enc v (lpEncodeIntegerGetType v).
Proof.
  intros Hv. unfold lpEncodeIntegerGetType. cbv zeta. rewrite !range_bd.
  case_bool_decide as H7; [rewrite wrap_small by lia; by constructor|].
  case_bool_decide as H13.
  { assert (Hs : in_signed 13 v) by (unfold in_signed; change (2 ^ (13 - 1)) with 4096; lia).
    rewrite Z.shiftl_1_l, <- (wrap_neg 13 v) by (done || lia).
    pose proof (wrap_range 13 v ltac:(lia)) as Hr. change (2 ^ 13) with 8192 in Hr.
    rewrite lor_class_13 by (rewrite shiftr_8; div_lia).
    rewrite shiftr_8, land_255. by apply ienc_13. }
  case_bool_decide as H16.
  { rewrite intenc_16, le_enc_pos by done. apply ienc_16.
    unfold in_signed. change (2 ^ (16 - 1)) with 32768. lia. }
  case_bool_decide as H24.
  { rewrite intenc_24, le_enc_pos by done. apply ienc_24.
    unfold in_signed. change (2 ^ (24 - 1)) with 8388608. lia. }
  case_bool_decide as H32.
  { rewrite intenc_32, le_enc_pos by done. apply ienc_32.
    unfold in_signed. change (2 ^ (32 - 1)) with 2147483648. lia. }
  rewrite intenc_64. change 64 with (8 * Z.of_nat 8). rewrite le_enc_wrap. by apply ienc_64.
Qed.

(** *** Strings *)

Inductive str_enc (len : Z) : list Z -> Prop :=
  | senc_6 : 0 <= len < 64 -> str_enc len [128 + len]
  | senc_12 : 0 <= len < 4096 -> str_enc len [224 + len / 256; len mod 256]
  | senc_32 : 0 <= len -> str_enc len (240 :: le_enc 4 len).

Lemma lor_class_6 x : 0 <= x < 64 -> u8 (x ||| 128) = 128 + x.
Proof.
  intros Hx. assert (Hb : is_byte x) by (unfold is_byte; lia). revert Hx. by_bytes x Hb.
Qed.
Lemma lor_class_12 x : 0 <= x < 16 -> u8 (x ||| 224) = 224 + x.
Proof.
  intros Hx. assert (Hb : is_byte x) by (unfold is_byte; lia). revert Hx. by_bytes x Hb.
Qed.

Lemma str_encP len : 0 <= len -> str_enc len (str_hdr len).
Proof.
  intros Hl. unfold str_hdr.
  destruct (Z.ltb_spec len 64); [rewrite lor_class_6 by lia; by constructor|].
  destruct (Z.ltb_spec len 4096).
  - rewrite shiftr_8, lor_class_12, land_255 by div_lia. apply senc_12. lia.
  - rewrite <- u8_land with (x := len >>> 24), intenc_32. by apply senc_32.
Qed.

(** The encodings the getters read as [e]; the code writes one of them ([enc]),
    a listpack of other origin may hold any.  The bound on the length keeps the
    size of the entry below 2^32. *)
Definition enc_of (e : lpe) (r : list Z) : Prop :=
  match e with
  | EInt v => int_enc v r
  | EStr s => exists h, str_enc (zlen s) h /\ r = h ++ s /\ bytes_ok s /\ zlen s < 2 ^ 32 - 5
  end.

Definition lpe_ok (e : lpe) : Prop :=
  match e with
  | EInt v => in_signed 64 v
  | EStr s => bytes_ok s /\ zlen s < 2 ^ 32 - 5
  end.

Lemma enc_ok e : lpe_ok e -> enc_of e (enc e).
Proof.
  destruct e as [v|s]; cbn [lpe_ok enc_of enc].
  - apply int_encP.
  - intros [Hs Hl]. exists (str_hdr (zlen s)). split; [|done]. apply str_encP, zlen_nonneg.
Qed.

(** *** Sizes *)

Lemma size_shift a m : lpCurrentEncodedSizeUnsafe (a ++ m) (zlen a) = lpCurrentEncodedSizeUnsafe m 0.
Proof.
  unfold lpCurrentEncodedSizeUnsafe, LP_ENCODING_6BIT_STR_LEN, LP_ENCODING_12BIT_STR_LEN,
    LP_ENCODING_32BIT_STR_LEN.
  by rewrite !mget_shift0, !mget_shift, get32_shift by lia.
Qed.

Lemma land_low (b n : Z) (k : Z) : 0 <= n -> k = 2 ^ n - 1 -> b &&& k = b mod 2 ^ n.
Proof. apply land_mod. Qed.

Lemma get32_cons b m : get32 (b :: m) 1 = get32 m 0.
Proof. exact (get32_shift [b] m 0 ltac:(lia)). Qed.
Lemma get16_cons b m : get16 (b :: m) 1 = get16 m 0.
Proof. exact (get16_shift [b] m 0 ltac:(lia)). Qed.
Lemma get24_cons b m : get24 (b :: m) 1 = get24 m 0.
Proof. exact (get24_shift [b] m 0 ltac:(lia)). Qed.
Lemma get64_cons b m : get64 (b :: m) 1 = get64 m 0.
Proof. exact (get64_shift [b] m 0 ltac:(lia)). Qed.

Lemma is_byte_range b : 0 <= b < 256 -> is_byte b.
Proof. done. Qed.

Lemma size_int v bs rest :
  int_enc v bs -> lpCurrentEncodedSizeUnsafe (bs ++ rest) 0 = Some (zlen bs).
Proof.
  intros H. unfold lpCurrentEncodedSizeUnsafe. destruct H; rewrite ?zlen_cons, ?zlen_le_enc.
  - change (mget ([v] ++ rest) 0) with (Some v). sbind.
    assert (Hb : is_byte v) by (unfold is_byte; lia). by byte_class Hb.
  - change (mget ([192 + wrap 13 v / 256; wrap 13 v mod 256] ++ rest) 0) with (Some (192 + wrap 13 v / 256)). sbind.
    pose proof (wrap_range 13 v ltac:(lia)) as Hr. change (2 ^ 13) with 8192 in Hr.
    assert (Hb : is_byte (192 + wrap 13 v / 256)) by (unfold is_byte; div_lia).
    assert (192 <= 192 + wrap 13 v / 256 < 224) by div_lia. by byte_class Hb.
  - done.
  - done.
  - done.
  - done.
Qed.

Lemma size_str s h rest :
  str_enc (zlen s) h -> zlen s < 2 ^ 32 - 5 ->
  lpCurrentEncodedSizeUnsafe ((h ++ s) ++ rest) 0 = Some (zlen (h ++ s)).
Proof.
  intros Hh Hl. pose proof (zlen_nonneg s). rewrite zlen_app, <- app_assoc.
  unfold lpCurrentEncodedSizeUnsafe, LP_ENCODING_6BIT_STR_LEN, LP_ENCODING_12BIT_STR_LEN,
    LP_ENCODING_32BIT_STR_LEN.
  destruct Hh.
  - change (mget ([128 + zlen s] ++ s ++ rest) 0) with (Some (128 + zlen s)). sbind.
    assert (Hb : is_byte (128 + zlen s)) by (unfold is_byte; lia). byte_class Hb. sbind.
    rewrite (land_low _ 6) by done. change (2 ^ 6) with 64. f_equal. rewrite zlen_cons, zlen_nil. div_lia.
  - change (mget ([224 + zlen s / 256; zlen s mod 256] ++ s ++ rest) 0) with (Some (224 + zlen s / 256)).
    change (mget ([224 + zlen s / 256; zlen s mod 256] ++ s ++ rest) (0 + 1)) with (Some (zlen s mod 256)). sbind.
    assert (Hb : is_byte (224 + zlen s / 256)) by (unfold is_byte; div_lia).
    assert (224 <= 224 + zlen s / 256 < 240) by div_lia. byte_class Hb. sbind.
    rewrite (land_low _ 4) by done. rewrite shiftl_lor by (change (2 ^ 8) with 256; div_lia).
    change (2 ^ 4) with 16; change (2 ^ 8) with 256. f_equal. rewrite !zlen_cons, zlen_nil. div_lia.
  - change (mget ((240 :: le_enc 4 (zlen s)) ++ s ++ rest) 0) with (Some 240). sbind.
    change (0 + 1) with 1. rewrite <- app_comm_cons, get32_cons, get32_enc. sbind. cbn [LP_ENCODING_IS_7BIT_UINT].
    change (LP_ENCODING_IS_32BIT_STR 240) with true. change (LP_ENCODING_IS_7BIT_UINT 240) with false.
    cbn -[wrap]. rewrite (wrap_small 32 (zlen s)), wrap_small by lia.
    done.
Qed.

Lemma enc_size e r rest :
  enc_of e r -> lpCurrentEncodedSizeUnsafe (r ++ rest) 0 = Some (zlen r).
Proof.
  destruct e as [v|s]; cbn [enc_of].
  - apply size_int.
  - intros (h & Hh & -> & _ & Hl). by apply size_str.
Qed.

Lemma int_enc_signed v r : int_enc v r -> in_signed 64 v.
Proof.
  unfold in_signed. change (2 ^ (64 - 1)) with (2 ^ 63).
  intros [H|H|H|H|H|H]; unfold in_signed in H; cbn in H |- *; lia.
Qed.

(** *** Text of an entry *)

(** The string an entry stands for. *)
Definition text (e : lpe) : list Z :=
  match e with EInt v => dec v | EStr s => s end.

(** The entry the code makes of a string. *)
Definition val_of (s : list Z) : lpe :=
  match lpStringToInt64 s with Some v => EInt v | None => EStr s end.

Lemma lpStringToInt64_iff s v : lpStringToInt64 s = Some v <-> in_signed 64 v /\ s = dec v.
Proof. exact (string2ll_iff s v). Qed.

Lemma dec_inj v w : dec v = dec w -> v = w.
Proof.
  unfold dec. destruct (Z.ltb_spec v 0), (Z.ltb_spec w 0); intros H'.
  - injection H' as H'. apply (f_equal (num 0)) in H'. rewrite !num_udec in H' by lia. lia.
  - destruct (udec_head_ne w ltac:(lia)). by rewrite <- H'.
  - destruct (udec_head_ne v ltac:(lia)). by rewrite H'.
  - apply (f_equal (num 0)) in H'. rewrite !num_udec in H' by lia. lia.
Qed.

Lemma text_val_of s : text (val_of s) = s.
Proof.
  unfold val_of. destruct (lpStringToInt64 s) as [v|] eqn:H; [|done].
  by apply lpStringToInt64_iff in H as [_ ->].
Qed.

(** *** Getters *)

Lemma zlen_backlen l : zlen (lpEncodeBacklen l) = lpEncodeBacklenBytes l.
Proof. unfold lpEncodeBacklen, lpEncodeBacklenBytes. by repeat case_match. Qed.

(** How a getter returns the integer [v]. *)
Definition int_result (v : Z) (intbuf : option (list Z)) : option (lpref * Z) :=
  match intbuf with
  | Some buf => '(n, buf) ← ll2string buf 0 LP_INTBUF_SIZE v; Some (RIntbuf buf, n)
  | None => Some (RNull, v)
  end.

Lemma lpGet_int_spec w v intbuf :
  0 < w <= 64 -> in_signed w v ->
  lpGet_int (wrap w v) (2 ^ (w - 1)) (2 ^ w - 1) intbuf = int_result v intbuf.
Proof.
  intros Hw Hv. unfold lpGet_int, int_result. rewrite wrap_neg by (done || lia).
  assert (2 ^ (w - 1) <= 2 ^ 63) by (apply Z.pow_le_mono_r; lia).
  unfold in_signed in Hv. pose proof (pow2_split w ltac:(lia)).
  assert ((if (if v <? 0 then 2 ^ w + v else v) >=? 2 ^ (w - 1)
           then - i64 (u64 (2 ^ w - 1 - (if v <? 0 then 2 ^ w + v else v))) - 1
           else i64 (if v <? 0 then 2 ^ w + v else v)) = v) as Heq.
  { destruct (Z.ltb_spec v 0).
    - destruct (Z.geb_spec (2 ^ w + v) (2 ^ (w - 1))); [|lia].
      rewrite wrap_small, swrap_small by (unfold in_signed; change (2 ^ (64 - 1)) with (2 ^ 63); lia). lia.
    - destruct (Z.geb_spec v (2 ^ (w - 1))); [lia|].
      apply swrap_small; [lia|]. unfold in_signed. change (2 ^ (64 - 1)) with (2 ^ 63). lia. }
  by rewrite Heq.
Qed.

Lemma lpGet_int_7 v intbuf :
  0 <= v <= 127 -> lpGet_int (v &&& 127) UINT64_MAX 0 intbuf = int_result v intbuf.
Proof.
  intros Hv. rewrite (land_low _ 7) by done. change (2 ^ 7) with 128.
  rewrite Z.mod_small by lia. unfold lpGet_int, UINT64_MAX.
  destruct (Z.geb_spec v (2 ^ 64 - 1)); [lia|].
  rewrite swrap_small; [done|lia|]. unfold in_signed. change (2 ^ (64 - 1)) with (2 ^ 63). lia.
Qed.

Lemma get_13 v : in_signed 13 v ->
  (((192 + wrap 13 v / 256) &&& 31) <<< 8) ||| (wrap 13 v mod 256) = wrap 13 v.
Proof.
  intros _. pose proof (wrap_range 13 v ltac:(lia)) as Hr. change (2 ^ 13) with 8192 in Hr.
  rewrite (land_low _ 5) by done. rewrite shiftl_lor by (change (2 ^ 8) with 256; div_lia).
  change (2 ^ 5) with 32. change (2 ^ 8) with 256. div_lia.
Qed.

(** The two getters agree; the one with the size is the other and the size. *)
Definition get_result (off : Z) (e : lpe) (r : list Z) (intbuf : option (list Z))
    : option (lpref * Z) :=
  match e with
  | EInt v => int_result v intbuf
  | EStr s => Some (RLp (off + (zlen r - zlen s)), zlen s)
  end.

Lemma get_13_first v : 192 <= 192 + wrap 13 v / 256 < 224.
Proof.
  pose proof (wrap_range 13 v ltac:(lia)) as Hr. change (2 ^ 13) with 8192 in Hr. div_lia.
Qed.

Lemma mget_cons0 b (m : list Z) : mget (b :: m) 0 = Some b.
Proof. done. Qed.
Lemma mget_cons1 b0 b1 (m : list Z) : mget (b0 :: b1 :: m) 1 = Some b1.
Proof. done. Qed.

Ltac get_prep a :=
  unfold lpGetWithBuf, lpGetWithSize, LP_ENCODING_6BIT_STR_LEN, LP_ENCODING_12BIT_STR_LEN,
    LP_ENCODING_32BIT_STR_LEN;
  rewrite ?(mget_shift0 a), ?(mget_shift a), ?(get16_shift a), ?(get24_shift a), ?(get32_shift a),
    ?(get64_shift a) by lia;
  cbn [app]; rewrite ?mget_cons0, ?mget_cons1, ?get16_cons, ?get24_cons, ?get32_cons, ?get64_cons,
    ?get16_enc, ?get24_enc, ?get32_enc, ?get64_enc; sbind.

Lemma getWithBuf_int a v bs rest intbuf :
  int_enc v bs -> lpGetWithBuf (a ++ bs ++ rest) (zlen a) intbuf = int_result v intbuf.
Proof.
  intros H. destruct H as [Hv|Hv|Hv|Hv|Hv|Hv]; get_prep a.
  - assert (Hb : is_byte v) by (unfold is_byte; lia). byte_class Hb. by apply lpGet_int_7.
  - pose proof (get_13_first v).
    assert (Hb : is_byte (192 + wrap 13 v / 256)) by (unfold is_byte; lia). byte_class Hb.
    rewrite get_13 by done. by apply (lpGet_int_spec 13).
  - by apply (lpGet_int_spec 16).
  - by apply (lpGet_int_spec 24).
  - by apply (lpGet_int_spec 32).
  - by apply (lpGet_int_spec 64).
Qed.

Lemma str_len_12 (n : Z) : 0 <= n < 4096 ->
  (((224 + n / 256) &&& 15) <<< 8) ||| (n mod 256) = n.
Proof.
  intros. rewrite (land_low _ 4) by done. rewrite shiftl_lor by (change (2 ^ 8) with 256; div_lia).
  change (2 ^ 4) with 16; change (2 ^ 8) with 256. div_lia.
Qed.
Lemma str_len_6 (n : Z) : 0 <= n < 64 -> (128 + n) &&& 63 = n.
Proof. intros. rewrite (land_low _ 6) by done. change (2 ^ 6) with 64. div_lia. Qed.

Lemma getWithBuf_str a s h rest intbuf :
  str_enc (zlen s) h -> zlen s < 2 ^ 32 - 5 ->
  lpGetWithBuf (a ++ (h ++ s) ++ rest) (zlen a) intbuf = Some (RLp (zlen a + zlen h), zlen s).
Proof.
  intros Hh Hl. pose proof (zlen_nonneg s). rewrite <- app_assoc.
  destruct Hh; get_prep a.
  - assert (Hb : is_byte (128 + zlen s)) by (unfold is_byte; lia). byte_class Hb. by rewrite str_len_6.
  - assert (224 <= 224 + zlen s / 256 < 240) by div_lia.
    assert (Hb : is_byte (224 + zlen s / 256)) by (unfold is_byte; lia). byte_class Hb. by rewrite str_len_12.
  - rewrite wrap_small by lia. done.
Qed.

Lemma getWithBuf_spec a e r rest intbuf :
  enc_of e r -> lpGetWithBuf (a ++ r ++ rest) (zlen a) intbuf = get_result (zlen a) e r intbuf.
Proof.
  destruct e as [v|s]; cbn [enc_of get_result].
  - apply getWithBuf_int.
  - intros (h & Hh & -> & _ & Hl). rewrite getWithBuf_str by done.
    rewrite zlen_app. do 3 f_equal. lia.
Qed.

(** Every entry has its own encoding class, so the order of the tests does not
    matter: the size variant returns the same. *)
Lemma getWithSize_int a v r rest intbuf :
  int_enc v r ->
  lpGetWithSize (a ++ r ++ rest) (zlen a) intbuf =
    ('(ref, n) ← int_result v intbuf; Some (ref, n, Some (zlen r + lpEncodeBacklenBytes (zlen r)))).
Proof.
  intros [Hv|Hv|Hv|Hv|Hv|Hv]; get_prep a; rewrite ?zlen_cons, ?zlen_le_enc.
  - assert (Hb : is_byte v) by (unfold is_byte; lia). byte_class Hb. by rewrite lpGet_int_7.
  - pose proof (get_13_first v).
    assert (Hb : is_byte (192 + wrap 13 v / 256)) by (unfold is_byte; lia). byte_class Hb.
    rewrite get_13 by done. change 8191 with (2 ^ 13 - 1). change (1 <<< 12) with (2 ^ (13 - 1)).
    by rewrite lpGet_int_spec.
  - change UINT16_MAX with (2 ^ 16 - 1). change (1 <<< 15) with (2 ^ (16 - 1)).
    cbn -[lpGet_int wrap Z.pow]. by rewrite lpGet_int_spec.
  - change (UINT32_MAX >>> 8) with (2 ^ 24 - 1). change (1 <<< 23) with (2 ^ (24 - 1)).
    cbn -[lpGet_int wrap Z.pow]. by rewrite lpGet_int_spec.
  - change UINT32_MAX with (2 ^ 32 - 1). change (1 <<< 31) with (2 ^ (32 - 1)).
    cbn -[lpGet_int wrap Z.pow]. by rewrite lpGet_int_spec.
  - change UINT64_MAX with (2 ^ 64 - 1). change (1 <<< 63) with (2 ^ (64 - 1)).
    cbn -[lpGet_int wrap Z.pow]. by rewrite lpGet_int_spec.
Qed.

Lemma getWithSize_spec a e r rest intbuf :
  enc_of e r ->
  lpGetWithSize (a ++ r ++ rest) (zlen a) intbuf =
    ('(ref, n) ← get_result (zlen a) e r intbuf;
     Some (ref, n, Some (zlen r + lpEncodeBacklenBytes (zlen r)))).
Proof.
  destruct e as [v|s]; cbn [enc_of get_result]; [apply getWithSize_int|].
  intros (h & Hh & -> & _ & Hl). pose proof (zlen_nonneg s). rewrite <- app_assoc, zlen_app. sbind.
  destruct Hh; get_prep a; rewrite ?zlen_cons, ?zlen_le_enc; change (zlen (@nil Z)) with 0.
  - assert (Hb : is_byte (128 + zlen s)) by (unfold is_byte; lia). byte_class Hb.
    rewrite str_len_6 by lia. rewrite (Z.add_comm (zlen s) 1). repeat (f_equal; try lia).
  - assert (224 <= 224 + zlen s / 256 < 240) by div_lia.
    assert (Hb : is_byte (224 + zlen s / 256)) by (unfold is_byte; lia). byte_class Hb.
    rewrite str_len_12 by lia. rewrite (Z.add_comm (zlen s) 2). repeat (f_equal; try lia).
  - rewrite wrap_small by lia. rewrite (Z.add_comm (zlen s) 5).
    cbn -[lpEncodeBacklenBytes Z.add]. repeat (f_equal; try lia).
Qed.

(** *** Backward lengths *)

(** The number with base-128 digits [ds], least significant first, over [h]. *)
Definition digits_val (ds : list Z) (h : Z) : Z := foldr (fun d acc => d + 128 * acc) h ds.

Definition cont (d : Z) : Z := 128 + d.

Lemma cont_bits d : 0 <= d < 128 -> (cont d &&& 127 = d) /\ ((cont d &&& 128) =? 0) = false.
Proof.
  intros Hd. assert (Hb : is_byte d) by (unfold is_byte; lia). unfold cont. revert Hd. by_bytes d Hb.
Qed.
Lemma last_bits h : 0 <= h < 128 -> (h &&& 127 = h) /\ ((h &&& 128) =? 0) = true.
Proof.
  intros Hd. assert (Hb : is_byte h) by (unfold is_byte; lia). revert Hd. by_bytes h Hb.
Qed.

Lemma u64_shift d shift : 0 <= d < 128 -> 0 <= shift <= 28 -> u64 (d <<< shift) = d * 2 ^ shift.
Proof.
  intros Hd Hs. rewrite Z.shiftl_mul_pow2 by lia. apply wrap_small.
  assert (2 ^ shift <= 2 ^ 28) by (apply Z.pow_le_mono_r; lia).
  assert (0 < 2 ^ shift) by lia. nia.
Qed.

Lemma decode_loop_digits fuel a h ds c val shift :
  (length ds < fuel)%nat -> 0 <= shift -> shift + 7 * zlen ds <= 28 -> 0 <= val < 2 ^ shift ->
  0 <= h < 128 -> Forall (fun d => 0 <= d < 128) ds ->
  lpDecodeBacklen_loop fuel (a ++ h :: rev (cont <$> ds) ++ c) (zlen a + zlen ds) val shift =
    Some (val + 2 ^ shift * digits_val ds h).
Proof.
  intros Hf Hs Hs28 Hv Hh Hds. revert fuel c val shift Hf Hs Hs28 Hv.
  induction Hds as [|d ds Hd Hds IH]; intros [|fuel] c val shift Hf Hs Hs28 Hv; simpl in Hf; try lia;
    cbn [lpDecodeBacklen_loop].
  - simpl. change (zlen (@nil Z)) with 0 in *. rewrite Z.add_0_r, mget_app by done. sbind.
    destruct (last_bits h Hh) as [-> ->].
    rewrite u64_shift, <- Z.shiftl_mul_pow2, lor_shiftl by lia. f_equal. lia.
  - rewrite zlen_cons in *. rewrite fmap_cons. cbn [rev digits_val foldr]. rewrite <- app_assoc.
    pose proof (zlen_nonneg ds).
    assert (Hlen : zlen (rev (cont <$> ds)) = zlen ds)
      by (unfold zlen; by rewrite length_rev, length_fmap).
    change (h :: rev (cont <$> ds) ++ [cont d] ++ c) with ((h :: rev (cont <$> ds)) ++ cont d :: c).
    rewrite (app_assoc a), mget_app by (rewrite zlen_app, zlen_cons; lia). sbind.
    destruct (cont_bits d Hd) as [-> ->].
    rewrite u64_shift, <- Z.shiftl_mul_pow2, lor_shiftl by lia.
    destruct (Z.gtb_spec (shift + 7) 28); [lia|].
    replace (zlen a + (1 + zlen ds) - 1) with (zlen a + zlen ds) by lia.
    rewrite <- app_assoc. cbn [app].
    assert (H7 : 2 ^ (shift + 7) = 2 ^ shift * 128) by (rewrite Z.pow_add_r by lia; done).
    rewrite IH; try lia; [|nia]. fold (digits_val ds h). rewrite H7. f_equal. lia.
Qed.

Lemma lor_cont x : 0 <= x < 128 -> x ||| 128 = cont x.
Proof.
  intros Hx. assert (Hb : is_byte x) by (unfold is_byte; lia). unfold cont. revert Hx. by_bytes x Hb.
Qed.

Lemma backlen_digit l n : 0 <= n -> ((l >>> n) &&& 127) ||| 128 = cont ((l / 2 ^ n) mod 128).
Proof.
  intros Hn. rewrite (land_low _ 7), shiftr_div by (done || lia). change (2 ^ 7) with 128.
  apply lor_cont. apply Z.mod_pos_bound. lia.
Qed.
Lemma backlen_digit0 l : (l &&& 127) ||| 128 = cont (l mod 128).
Proof. rewrite (land_low _ 7) by done. apply lor_cont. apply Z.mod_pos_bound. lia. Qed.

(** The encoded length has the base-128 digits of the length. *)
Lemma backlen_digits l :
  0 <= l < 2 ^ 32 ->
  exists h ds, lpEncodeBacklen l = h :: rev (cont <$> ds) /\ digits_val ds h = l
    /\ 0 <= h < 128 /\ Forall (fun d => 0 <= d < 128) ds /\ zlen ds <= 4.
Proof.
  intros Hl. unfold lpEncodeBacklen.
  repeat match goal with |- context [?a <=? ?b] => destruct (Z.leb_spec a b)
         | |- context [?a <? ?b] => destruct (Z.ltb_spec a b) end;
  rewrite ?backlen_digit0, ?backlen_digit, ?shiftr_div, ?wrap_small by (try lia;
    change (2 ^ 8) with 256; change (2 ^ 7) with 128; change (2 ^ 14) with 16384;
    change (2 ^ 21) with 2097152; change (2 ^ 28) with 268435456; div_lia);
  change (2 ^ 7) with 128; change (2 ^ 14) with 16384;
  change (2 ^ 21) with 2097152; change (2 ^ 28) with 268435456.
  - exists l, []. repeat split; try done; lia.
  - exists (l / 128), [l mod 128]. repeat split; try done; try (simpl; div_lia).
    repeat constructor; div_lia.
  - exists (l / 16384), [l mod 128; (l / 128) mod 128]. repeat split; try done; try (simpl; div_lia).
    repeat constructor; div_lia.
  - exists (l / 2097152), [l mod 128; (l / 128) mod 128; (l / 16384) mod 128].
    repeat split; try done; try (simpl; div_lia). repeat constructor; div_lia.
  - exists (l / 268435456), [l mod 128; (l / 128) mod 128; (l / 16384) mod 128; (l / 2097152) mod 128].
    repeat split; try done; try (simpl; div_lia). repeat constructor; div_lia.
Qed.

Lemma decode_backlen a l c :
  0 <= l < 2 ^ 32 ->
  lpDecodeBacklen (a ++ lpEncodeBacklen l ++ c) (zlen a + zlen (lpEncodeBacklen l) - 1) = Some l.
Proof.
  intros Hl. destruct (backlen_digits l Hl) as (h & ds & -> & <- & Hh & Hd & Hlen).
  unfold lpDecodeBacklen. rewrite zlen_cons.
  assert (zlen (rev (cont <$> ds)) = zlen ds) as -> by (unfold zlen; by rewrite length_rev, length_fmap).
  replace (zlen a + (1 + zlen ds) - 1) with (zlen a + zlen ds) by lia.
  rewrite <- app_comm_cons, decode_loop_digits; try done; try lia.
  - f_equal. change (2 ^ 0) with 1. lia.
  - unfold zlen in Hlen. lia.
Qed.

(** ** The list a listpack represents *)

Record entry := Ent { e_val : lpe; e_raw : list Z }.
Definition entry_ok (x : entry) : Prop := enc_of (e_val x) (e_raw x).
Definition ent_bytes (x : entry) : list Z := e_raw x ++ lpEncodeBacklen (zlen (e_raw x)).
Definition body (xs : list entry) : list Z := concat (ent_bytes <$> xs).
(** Where the entry after [xs] starts. *)
Definition off (xs : list entry) : Z := LP_HDR_SIZE + zlen (body xs).
Definition header (total num : Z) : list Z := le_enc 4 total ++ le_enc 2 num.

Definition lp_rep (lp : list Z) (xs : list entry) : Prop :=
  exists num slack,
    lp = header (off xs + 1) num ++ body xs ++ LP_EOF :: slack
    /\ Forall entry_ok xs
    /\ off xs + 1 < 2 ^ 32
    /\ (num = LP_HDR_NUMELE_UNKNOWN \/ num = zlen xs /\ zlen xs < LP_HDR_NUMELE_UNKNOWN).

Lemma body_app xs ys : body (xs ++ ys) = body xs ++ body ys.
Proof. unfold body. by rewrite fmap_app, concat_app. Qed.
Lemma body_cons x xs : body (x :: xs) = ent_bytes x ++ body xs.
Proof. done. Qed.
Lemma off_app xs ys : off (xs ++ ys) = off xs + zlen (body ys).
Proof. unfold off. rewrite body_app, zlen_app. lia. Qed.
Lemma off_snoc xs x : off (xs ++ [x]) = off xs + zlen (ent_bytes x).
Proof. rewrite off_app, body_cons, app_nil_r. done. Qed.
Lemma off_ge xs : 6 <= off xs.
Proof. unfold off, LP_HDR_SIZE. pose proof (zlen_nonneg (body xs)). lia. Qed.
Lemma zlen_header t n : zlen (header t n) = 6.
Proof. done. Qed.
#[export] Hint Rewrite zlen_header body_app body_cons : zlen.

(** What every encoding has in common. *)
Lemma enc_of_first e r :
  enc_of e r -> exists b r', r = b :: r' /\ is_byte b /\ b <> LP_EOF
    /\ 1 <= lpCurrentEncodedSizeBytes b <= zlen r /\ zlen r < 2 ^ 32.
Proof.
  unfold LP_EOF, lpCurrentEncodedSizeBytes. destruct e as [v|s]; cbn [enc_of].
  - intros [Hv|Hv|Hv|Hv|Hv|Hv]; eexists _, _; split; try done;
      rewrite ?zlen_cons, ?zlen_le_enc; change (zlen (@nil Z)) with 0; try (repeat split; done).
    + assert (Hb : is_byte v) by (unfold is_byte; lia). byte_class Hb. repeat split; try done; lia.
    + pose proof (get_13_first v).
      assert (Hb : is_byte (192 + wrap 13 v / 256)) by (unfold is_byte; lia). byte_class Hb.
      repeat split; try done; lia.
  - intros (h & Hh & -> & _ & Hl). pose proof (zlen_nonneg s). rewrite zlen_app.
    destruct Hh; eexists _, _; split; try done; rewrite ?zlen_cons, ?zlen_le_enc;
      change (zlen (@nil Z)) with 0.
    + assert (Hb : is_byte (128 + zlen s)) by (unfold is_byte; lia). byte_class Hb.
      repeat split; try done; lia.
    + assert (224 <= 224 + zlen s / 256 < 240) by div_lia.
      assert (Hb : is_byte (224 + zlen s / 256)) by (unfold is_byte; lia). byte_class Hb.
      repeat split; try done; lia.
    + assert (Hb : is_byte 240) by done. byte_class Hb. repeat split; try done; lia.
Qed.

Lemma backlen_bytes_range l : 1 <= lpEncodeBacklenBytes l <= 5.
Proof. unfold lpEncodeBacklenBytes. repeat case_match; lia. Qed.
Lemma zlen_ent x : zlen (ent_bytes x) = zlen (e_raw x) + lpEncodeBacklenBytes (zlen (e_raw x)).
Proof. unfold ent_bytes. by rewrite zlen_app, zlen_backlen. Qed.
Lemma zlen_ent_pos x : entry_ok x -> 2 <= zlen (ent_bytes x).
Proof.
  intros (b & r' & Hr & _ & _ & ? & _)%enc_of_first. rewrite zlen_ent.
  pose proof (backlen_bytes_range (zlen (e_raw x))). lia.
Qed.

Lemma entry_size a x c : entry_ok x ->
  lpCurrentEncodedSizeUnsafe (a ++ ent_bytes x ++ c) (zlen a) = Some (zlen (e_raw x)).
Proof.
  intros Hx. rewrite size_shift. unfold ent_bytes. by rewrite <- app_assoc, (enc_size (e_val x)).
Qed.

Lemma entry_backlen a x c : entry_ok x ->
  lpDecodeBacklen (a ++ ent_bytes x ++ c) (zlen a + zlen (ent_bytes x) - 1) = Some (zlen (e_raw x)).
Proof.
  intros (_ & _ & _ & _ & _ & _ & Hr)%enc_of_first.
  pose proof (decode_backlen (a ++ e_raw x) (zlen (e_raw x)) c) as Hd.
  pose proof (zlen_nonneg (e_raw x)). unfold ent_bytes.
  rewrite !zlen_app, <- !app_assoc in *.
  rewrite <- Hd by lia. f_equal. lia.
Qed.

Lemma skip_entry a x c : entry_ok x ->
  lpSkip (a ++ ent_bytes x ++ c) (zlen a) = Some (zlen a + zlen (ent_bytes x)).
Proof.
  intros Hx. unfold lpSkip. rewrite entry_size by done. sbind. by rewrite zlen_ent.
Qed.

Lemma mget_entry a x c : entry_ok x -> exists b, mget (a ++ ent_bytes x ++ c) (zlen a) = Some b
  /\ is_byte b /\ b <> LP_EOF /\ 1 <= lpCurrentEncodedSizeBytes b <= zlen (e_raw x).
Proof.
  intros Hx. destruct (enc_of_first _ _ Hx) as (b & r' & Hr & Hb & He & Hl & _).
  exists b. split; [|done]. rewrite mget_shift0. unfold ent_bytes. by rewrite Hr.
Qed.

(** An entry inside the first [lpbytes - 1] bytes is valid. *)
Lemma validate_entry a x c lpbytes :
  entry_ok x -> 6 <= zlen a -> zlen a + zlen (ent_bytes x) < lpbytes ->
  lpValidateNext (a ++ ent_bytes x ++ c) (Some (zlen a)) lpbytes =
    Some (true, Some (zlen a + zlen (ent_bytes x))).
Proof.
  intros Hx Ha Hin. unfold lpValidateNext, LP_HDR_SIZE.
  destruct (mget_entry a x c Hx) as (b & -> & Hb & He & Hl).
  destruct (enc_of_first _ _ Hx) as (_ & _ & _ & _ & _ & _ & Hr).
  pose proof (zlen_ent x) as Hz. pose proof (backlen_bytes_range (zlen (e_raw x))) as Hbl. zcase. sbind.
  rewrite entry_size by done. sbind. rewrite <- Hz. zcase. cbn [orb].
  rewrite entry_backlen by done. sbind. pose proof (zlen_nonneg (e_raw x)).
  rewrite wrap_small by lia. by rewrite Hz, Z.eqb_refl.
Qed.

Lemma validate_eof a c lpbytes :
  6 <= zlen a < lpbytes -> lpValidateNext (a ++ LP_EOF :: c) (Some (zlen a)) lpbytes = Some (true, None).
Proof.
  intros Ha. unfold lpValidateNext, LP_HDR_SIZE. zcase. rewrite mget_app by done. sbind. done.
Qed.

(** ** Listpacks to run the code on *)

(** The entry the code makes of an element, and the listpack of some entries
    without slack. *)
Definition canon (e : lpe) : entry := Ent e (enc e).
Definition mk_lp (xs : list entry) : list Z := header (off xs + 1) (zlen xs) ++ body xs ++ [LP_EOF].

Lemma canon_ok e : lpe_ok e -> entry_ok (canon e).
Proof. apply enc_ok. Qed.

#[global] Instance lpe_ok_dec e : Decision (lpe_ok e).
Proof. destruct e; unfold lpe_ok, in_signed; apply _. Defined.

Lemma mk_lp_rep es (xs := canon <$> es) :
  Forall lpe_ok es -> off xs + 1 < 2 ^ 32 -> zlen xs < LP_HDR_NUMELE_UNKNOWN -> lp_rep (mk_lp xs) xs.
Proof.
  intros Hes Hoff Hlen. exists (zlen xs), []. split; [done|]. split; [|auto].
  apply Forall_fmap. eapply Forall_impl; [exact Hes|]. apply canon_ok.
Qed.

(** An example shared by the concrete runs of the other files. *)
Definition sample_entries : list entry := canon <$> [EStr (str "redis"); EInt (-70000); EInt 5].

Lemma sample_rep : lp_rep (mk_lp sample_entries) sample_entries.
Proof.
  apply mk_lp_rep; [apply (bool_decide_unpack _)|apply Z.ltb_lt|apply Z.ltb_lt]; by vm_compute.
Qed.
