(* ===== verification/ListpackNav.v ===== *)
(** * listpack.c: traversal and search

    Navigation visits the represented entries in order in both directions and
    never fails an assertion; seeking, counting, reading and searching agree
    with the list. *)

From S2P Require Import Prelude Util Listpack ListpackSpec.

(** ** Views of a listpack at an entry boundary *)

Lemma rep_view lp xs ys :
  lp_rep lp (xs ++ ys) -> exists a slack,
    lp = a ++ body ys ++ LP_EOF :: slack /\ zlen a = off xs.
Proof.
  intros (num & slack & -> & _). eexists (header _ num ++ body xs), slack.
  rewrite body_app, <- !app_assoc. split; [done|]. by rewrite zlen_app, zlen_header.
Qed.

Lemma rep_ok lp xs : lp_rep lp xs -> Forall entry_ok xs.
Proof. by intros (? & ? & _ & ? & _). Qed.

Lemma rep_total lp xs : lp_rep lp xs -> lpGetTotalBytes lp = Some (off xs + 1).
Proof.
  intros (num & slack & -> & _ & Hl & _). unfold lpGetTotalBytes, header.
  rewrite <- app_assoc, get32_enc, wrap_small; [done|]. pose proof (off_ge xs). lia.
Qed.

Lemma rep_numele lp xs : lp_rep lp xs -> exists num, lpGetNumElements lp = Some num
  /\ (num = LP_HDR_NUMELE_UNKNOWN \/ num = zlen xs /\ zlen xs < LP_HDR_NUMELE_UNKNOWN).
Proof.
  intros (num & slack & -> & _ & _ & Hnum). exists num. split; [|done].
  unfold lpGetNumElements, header. rewrite <- app_assoc.
  pose proof (get16_shift (le_enc 4 (off xs + 1)) (le_enc 2 num ++ body xs ++ LP_EOF :: slack) 0 ltac:(lia)) as H.
  rewrite get16_enc in H. change 4 with (zlen (le_enc 4 (off xs + 1)) + 0). rewrite H. f_equal. apply wrap_small.
  unfold LP_HDR_NUMELE_UNKNOWN in Hnum. pose proof (zlen_nonneg xs). lia.
Qed.

Lemma rep_zlen lp xs : lp_rep lp xs -> off xs + 1 <= zlen lp.
Proof. intros (num & slack & -> & _). unfold off, LP_HDR_SIZE. zlen_solve. Qed.

(** A pointer to the first entry of [ys], or to the end. *)
Definition ptr (xs ys : list entry) : option Z :=
  match ys with [] => None | _ :: _ => Some (off xs) end.

Section at_entry.
Context (lp : list Z) (xs : list entry) (x : entry) (ys : list entry).
Context (Hrep : lp_rep lp (xs ++ x :: ys)).

Lemma at_entry_ok : entry_ok x.
Proof. apply rep_ok in Hrep. rewrite Forall_app, Forall_cons in Hrep. tauto. Qed.

Lemma at_view : exists a c, lp = a ++ ent_bytes x ++ c /\ zlen a = off xs.
Proof.
  destruct (rep_view _ _ _ Hrep) as (a & slack & -> & Ha). exists a, (body ys ++ LP_EOF :: slack).
  by rewrite body_cons, <- app_assoc.
Qed.

Lemma at_bound : off xs + zlen (ent_bytes x) < off (xs ++ x :: ys) + 1.
Proof. rewrite off_app, body_cons, zlen_app. pose proof (zlen_nonneg (body ys)). lia. Qed.

Lemma skip_at : lpSkip lp (off xs) = Some (off (xs ++ [x])).
Proof.
  destruct at_view as (a & c & Hlp & Ha).
  rewrite Hlp, <- Ha, skip_entry, off_snoc, Ha by apply at_entry_ok. done.
Qed.

Lemma mget_at : exists b, mget lp (off xs) = Some b /\ is_byte b /\ b <> LP_EOF.
Proof.
  destruct at_view as (a & c & Hlp & Ha).
  destruct (mget_entry a x c at_entry_ok) as (b & Hb & ? & ? & _). exists b. by rewrite Hlp, <- Ha.
Qed.

Lemma size_at : lpCurrentEncodedSizeUnsafe lp (off xs) = Some (zlen (e_raw x)).
Proof.
  destruct at_view as (a & c & Hlp & Ha). by rewrite Hlp, <- Ha, entry_size by apply at_entry_ok.
Qed.

Lemma validate_at :
  lpValidateNext lp (Some (off xs)) (off (xs ++ x :: ys) + 1) = Some (true, Some (off (xs ++ [x]))).
Proof.
  destruct at_view as (a & c & Hlp & Ha). pose proof at_bound. pose proof (off_ge xs).
  by rewrite off_snoc, Hlp, <- Ha, validate_entry by (apply at_entry_ok || lia).
Qed.

Lemma backlen_at : lpDecodeBacklen lp (off (xs ++ [x]) - 1) = Some (zlen (e_raw x)).
Proof.
  destruct at_view as (a & c & Hlp & Ha).
  by rewrite off_snoc, Hlp, <- Ha, entry_backlen by apply at_entry_ok.
Qed.
End at_entry.

Lemma mget_end lp xs : lp_rep lp xs -> mget lp (off xs) = Some LP_EOF.
Proof.
  intros Hrep. rewrite <- (app_nil_r xs) in Hrep.
  destruct (rep_view _ _ _ Hrep) as (a & c & -> & Ha).
  change (body []) with (@nil Z). by rewrite app_nil_l, mget_app.
Qed.

Lemma assert_valid lp xs ys :
  lp_rep lp (xs ++ ys) -> lpAssertValidEntry lp (off (xs ++ ys) + 1) (off xs) = Some ().
Proof.
  intros Hrep. unfold lpAssertValidEntry. destruct ys as [|y ys].
  - destruct (rep_view _ _ _ Hrep) as (a & c & Hlp & Ha). rewrite app_nil_r. pose proof (off_ge xs).
    change (body []) with (@nil Z) in Hlp. rewrite Hlp, <- Ha. cbn [app].
    by rewrite validate_eof by lia.
  - by rewrite (validate_at lp xs y ys Hrep).
Qed.

(** The common end of the functions that return an entry pointer. *)
Lemma land_at lp xs ys :
  lp_rep lp (xs ++ ys) ->
  (b ← mget lp (off xs);
   if b =? LP_EOF then Some None
   else lpbytes ← lpBytes lp; _ ← lpAssertValidEntry lp lpbytes (off xs); Some (Some (off xs)))
  = Some (ptr xs ys).
Proof.
  intros Hrep. destruct ys as [|y ys].
  - rewrite (mget_end lp xs) by (by rewrite app_nil_r in Hrep). done.
  - destruct (mget_at lp xs y ys Hrep) as (b & -> & _ & Hb). sbind.
    destruct (Z.eqb_spec b LP_EOF); [done|].
    unfold lpBytes. rewrite (rep_total _ _ Hrep). sbind. by rewrite assert_valid.
Qed.

(** ** Traversal *)

Lemma first_spec lp xs : lp_rep lp xs -> lpFirst lp = Some (ptr [] xs).
Proof. intros Hrep. exact (land_at lp [] xs Hrep). Qed.

Lemma rep_snoc lp xs x ys : lp_rep lp (xs ++ x :: ys) -> lp_rep lp ((xs ++ [x]) ++ ys).
Proof. by rewrite <- app_assoc. Qed.

Lemma next_spec lp xs x ys :
  lp_rep lp (xs ++ x :: ys) -> lpNext lp (off xs) = Some (ptr (xs ++ [x]) ys).
Proof.
  intros Hrep. unfold lpNext. rewrite (skip_at lp xs x ys Hrep), some_bind.
  apply land_at. by apply rep_snoc.
Qed.

Lemma nextWithBytes_spec lp xs x ys :
  lp_rep lp (xs ++ x :: ys) ->
  lpNextWithBytes lp (off xs) (off (xs ++ x :: ys) + 1) = lpNext lp (off xs).
Proof.
  intros Hrep. unfold lpNextWithBytes, lpNext, lpBytes. by rewrite (rep_total _ _ Hrep).
Qed.

Lemma prev_spec lp xs x ys :
  lp_rep lp (xs ++ x :: ys) -> lpPrev lp (off (xs ++ [x])) = Some (Some (off xs)).
Proof.
  intros Hrep. unfold lpPrev. pose proof (off_ge xs). pose proof (off_snoc xs x).
  pose proof (at_entry_ok lp xs x ys Hrep) as Hx.
  pose proof (zlen_ent_pos x Hx). pose proof (zlen_ent x). unfold LP_HDR_SIZE. zcase.
  rewrite (backlen_at lp xs x ys Hrep). sbind.
  destruct (enc_of_first _ _ Hx) as (_ & _ & _ & _ & _ & _ & Hr).
  pose proof (zlen_nonneg (e_raw x)). pose proof (backlen_bytes_range (zlen (e_raw x))).
  rewrite wrap_small by lia.
  replace (off (xs ++ [x]) - 1 - (zlen (e_raw x) + lpEncodeBacklenBytes (zlen (e_raw x)) - 1))
    with (off xs) by lia.
  unfold lpBytes. rewrite (rep_total _ _ Hrep). sbind. by rewrite (assert_valid lp xs (x :: ys) Hrep).
Qed.

Lemma prev_first lp : lpPrev lp (off []) = Some None.
Proof. done. Qed.

Lemma last_spec lp xs x : lp_rep lp (xs ++ [x]) -> lpLast lp = Some (Some (off xs)).
Proof.
  intros Hrep. unfold lpLast. rewrite (rep_total _ _ Hrep). sbind.
  replace (off (xs ++ [x]) + 1 - 1) with (off (xs ++ [x])) by lia. by apply (prev_spec lp xs x []).
Qed.

Lemma last_empty lp : lp_rep lp [] -> lpLast lp = Some None.
Proof. intros Hrep. unfold lpLast. by rewrite (rep_total _ _ Hrep). Qed.

(** ** Length *)

Lemma set_total t num rest v :
  lpSetTotalBytes (header t num ++ rest) v = Some (header v num ++ rest).
Proof.
  unfold lpSetTotalBytes, header. rewrite <- !app_assoc.
  apply (mwrite_app [] (le_enc 4 t) _ (le_enc 4 v)); [done|]. by rewrite !length_le_enc.
Qed.

Lemma set_numele t num rest v :
  lpSetNumElements (header t num ++ rest) v = Some (header t v ++ rest).
Proof.
  unfold lpSetNumElements, header. rewrite <- !app_assoc.
  apply (mwrite_app (le_enc 4 t) (le_enc 2 num) _ (le_enc 2 v)); [done|]. by rewrite !length_le_enc.
Qed.

(** Entries take two bytes or more. *)
Lemma body_length xs : Forall entry_ok xs -> 2 * zlen xs <= zlen (body xs).
Proof.
  induction 1 as [|x xs Hx _ IH]; [done|]. rewrite body_cons, zlen_app, zlen_cons.
  pose proof (zlen_ent_pos x Hx). lia.
Qed.

Lemma rep_length lp xs : lp_rep lp xs -> 2 * zlen xs < zlen lp /\ 2 * zlen xs < 2 ^ 32.
Proof.
  intros Hrep. pose proof (rep_zlen _ _ Hrep). pose proof (body_length _ (rep_ok _ _ Hrep)).
  destruct Hrep as (num & slack & _ & _ & Hl & _). unfold off, LP_HDR_SIZE in *. lia.
Qed.

Lemma length_loop_spec fuel lp xs ys count :
  lp_rep lp (xs ++ ys) -> (length ys < fuel)%nat -> 0 <= count -> count + zlen ys < 2 ^ 32 ->
  lpLength_loop fuel lp (ptr xs ys) count = Some (count + zlen ys).
Proof.
  revert xs ys count. induction fuel as [|fuel IH]; intros xs ys count Hrep Hf Hc Hb; [lia|].
  destruct ys as [|y ys]; cbn [ptr lpLength_loop].
  - f_equal. change (zlen (@nil entry)) with 0. lia.
  - rewrite (next_spec lp xs y ys Hrep). sbind. rewrite zlen_cons in *. simpl in Hf.
    pose proof (zlen_nonneg ys).
    rewrite wrap_small, IH by (try apply rep_snoc; (done || lia)). f_equal. lia.
Qed.

Lemma length_spec lp xs : lp_rep lp xs ->
  exists lp', lpLength lp = Some (zlen xs, lp') /\ lp_rep lp' xs /\ zlen lp' = zlen lp.
Proof.
  intros Hrep. destruct (rep_numele lp xs Hrep) as (num & Hget & Hnum).
  unfold lpLength. rewrite Hget. sbind.
  destruct (Z.eqb_spec num LP_HDR_NUMELE_UNKNOWN) as [->|Hn]; cbn [negb];
    [|destruct Hnum as [?|[-> _]]; [done|by exists lp]].
  rewrite (first_spec lp xs Hrep). sbind. pose proof (rep_length _ _ Hrep) as [Hl1 Hl2].
  rewrite (length_loop_spec _ lp [] xs 0 Hrep); [|unfold zlen in *; lia..]. sbind.
  rewrite Z.add_0_l. pose proof (zlen_nonneg xs).
  destruct (Z.ltb_spec (zlen xs) LP_HDR_NUMELE_UNKNOWN); sbind; [|by exists lp].
  destruct Hrep as (num' & slack & -> & Hok & Hb & _). rewrite set_numele. sbind.
  eexists. split; [done|]. split; [|by autorewrite with zlen]. exists (zlen xs), slack. tauto.
Qed.

(** ** Seeking *)

Lemma ptr_nil xs : ptr xs [] = None.
Proof. done. Qed.

Lemma seek_fwd_spec fuel lp xs ys k :
  lp_rep lp (xs ++ ys) -> (length ys < fuel)%nat -> 0 <= k ->
  lpSeek_fwd fuel lp (ptr xs ys) k = Some (ptr (xs ++ take (Z.to_nat k) ys) (drop (Z.to_nat k) ys)).
Proof.
  revert xs ys k. induction fuel as [|fuel IH]; intros xs ys k Hrep Hf Hk; [lia|].
  destruct ys as [|y ys]; cbn [ptr lpSeek_fwd]; [by rewrite drop_nil|].
  destruct (Z.gtb_spec k 0).
  - rewrite (next_spec lp xs y ys Hrep). sbind. simpl in Hf.
    rewrite IH by (try apply rep_snoc; (done || lia)).
    replace (Z.to_nat k) with (S (Z.to_nat (k - 1))) by lia. cbn [take drop]. by rewrite <- app_assoc.
  - replace (Z.to_nat k) with 0%nat by lia. by rewrite app_nil_r.
Qed.

Lemma seek_bwd_spec fuel lp xs x ys k :
  lp_rep lp (xs ++ x :: ys) -> (S (length xs) < fuel)%nat -> k <= -1 ->
  lpSeek_bwd fuel lp (Some (off xs)) k =
    Some (let m := Z.to_nat (-1 - k) in
          if decide (m <= length xs)%nat then Some (off (take (length xs - m) xs)) else None).
Proof.
  revert xs x ys k. induction fuel as [|fuel IH]; intros xs x ys k Hrep Hf Hk; [lia|]. cbn [lpSeek_bwd].
  destruct (Z.ltb_spec k (-1)).
  - destruct xs as [|z xs _] using rev_ind.
    + rewrite prev_first. sbind. destruct fuel; [simpl in Hf; lia|]. cbn [lpSeek_bwd].
      cbv zeta. rewrite decide_False by (simpl; lia). done.
    + rewrite <- app_assoc in Hrep. rewrite (prev_spec lp xs z (x :: ys) Hrep). sbind.
      rewrite length_app in *. cbn [length] in *.
      rewrite (IH xs z (x :: ys)) by (done || lia). cbv zeta. f_equal.
      destruct (decide (Z.to_nat (-1 - (k + 1)) <= length xs)%nat).
      * rewrite decide_True by lia. rewrite take_app_le by lia. do 3 f_equal. lia.
      * by rewrite decide_False by lia.
  - cbv zeta. replace (Z.to_nat (-1 - k)) with 0%nat by lia.
    by rewrite decide_True, Nat.sub_0_r, firstn_all by lia.
Qed.

(** The position an index denotes in a list of [n] elements, negative indices
    counting from the end. *)
Definition seek_index (n index : Z) : option nat :=
  let i := if index <? 0 then n + index else index in
  if (0 <=? i) && (i <? n) then Some (Z.to_nat i) else None.

Definition entry_ptr (xs : list entry) (i : nat) : Z := off (take i xs).

Lemma seek_fwd_all lp xs i :
  lp_rep lp xs -> 0 <= i ->
  (ele ← lpFirst lp; lpSeek_fwd (S (length lp)) lp ele i) = Some (entry_ptr xs <$> seek_index (zlen xs) i).
Proof.
  intros Hrep Hi. rewrite (first_spec lp xs Hrep). sbind. pose proof (rep_length _ _ Hrep) as [Hl _].
  rewrite (seek_fwd_spec _ lp [] xs i Hrep) by (unfold zlen in *; lia). f_equal.
  unfold seek_index. zcase; cbn [andb fmap option_fmap option_map app].
  - destruct (lookup_Z_lt xs i ltac:(lia)) as [x Hx]. by rewrite (drop_S _ _ _ Hx).
  - rewrite drop_ge by (unfold zlen in *; lia). done.
Qed.

Lemma seek_bwd_all lp xs k :
  lp_rep lp xs -> k < 0 ->
  (ele ← lpLast lp; lpSeek_bwd (S (length lp)) lp ele k) = Some (entry_ptr xs <$> seek_index (zlen xs) k).
Proof.
  intros Hrep Hk. pose proof (rep_length _ _ Hrep) as [Hl _]. unfold seek_index.
  destruct xs as [|x xs _] using rev_ind.
  - rewrite (last_empty lp Hrep). sbind. change (zlen (@nil entry)) with 0. by zcase.
  - rewrite (last_spec lp xs x Hrep). sbind. rewrite zlen_app in *. change (zlen [x]) with 1 in *.
    rewrite (seek_bwd_spec _ lp xs x [] k Hrep) by (unfold zlen in *; lia). f_equal. cbv zeta.
    destruct (Z.ltb_spec k 0); [|lia]. destruct (decide _) as [Hd|Hd]; unfold zlen in *.
    + zcase. cbn [andb fmap option_fmap option_map]. unfold entry_ptr. f_equal.
      rewrite take_app_le by lia. do 2 f_equal. lia.
    + by zcase.
Qed.

Lemma seek_spec lp xs index :
  lp_rep lp xs -> lpSeek lp index = Some (entry_ptr xs <$> seek_index (zlen xs) index).
Proof.
  intros Hrep. unfold lpSeek. destruct (rep_numele _ _ Hrep) as (num & -> & Hnum). sbind.
  destruct (Z.eqb_spec num LP_HDR_NUMELE_UNKNOWN) as [->|Hn]; cbn [negb].
  - destruct (Z.ltb_spec index 0); [by apply seek_bwd_all|by apply seek_fwd_all].
  - destruct Hnum as [?|[-> Hlt]]; [done|]. pose proof (zlen_nonneg xs).
    destruct (Z.ltb_spec index 0) as [Hneg|Hpos].
    + destruct (Z.ltb_spec (zlen xs + index) 0); [unfold seek_index; by zcase|].
      destruct (Z.geb_spec (zlen xs + index) (zlen xs)); [lia|].
      destruct (Z.gtb_spec (zlen xs + index) (zlen xs / 2)).
      * cbv beta iota. rewrite (seek_bwd_all lp xs _ Hrep) by lia. do 3 f_equal. lia.
      * cbv beta iota. rewrite (seek_fwd_all lp xs _ Hrep) by lia. do 2 f_equal. unfold seek_index. by zcase.
    + destruct (Z.ltb_spec index 0); [lia|].
      destruct (Z.geb_spec index (zlen xs)); [unfold seek_index; by zcase|].
      destruct (Z.gtb_spec index (zlen xs / 2)).
      * cbv beta iota. rewrite (seek_bwd_all lp xs _ Hrep) by lia. do 2 f_equal. unfold seek_index. zcase. cbn [andb]. do 2 f_equal. lia.
      * by apply seek_fwd_all.
Qed.

(** LpSeek returns a pointer to the entry an index denotes, from the head
    for a non-negative index and from the tail for a negative one, and null
    when the index is out of range, whether or not the header has the count. *)
Theorem lpSeek_correct lp xs index :
  lp_rep lp xs -> lpSeek lp index = Some (entry_ptr xs <$> seek_index (zlen xs) index).
Proof. apply seek_spec. Qed.

(** ** Reading *)

Lemma get_at lp xs x ys intbuf :
  lp_rep lp (xs ++ x :: ys) ->
  lpGet lp (off xs) intbuf = get_result (off xs) (e_val x) (e_raw x) intbuf.
Proof.
  intros Hrep. destruct (at_view lp xs x ys Hrep) as (a & c & Hlp & Ha).
  unfold lpGet. rewrite Hlp, <- Ha. unfold ent_bytes. rewrite <- app_assoc.
  apply getWithBuf_spec, (at_entry_ok lp xs x ys Hrep).
Qed.

Lemma getWithSize_at lp xs x ys intbuf :
  lp_rep lp (xs ++ x :: ys) ->
  lpGetWithSize lp (off xs) intbuf =
    ('(ref, n) ← get_result (off xs) (e_val x) (e_raw x) intbuf; Some (ref, n, Some (zlen (ent_bytes x)))).
Proof.
  intros Hrep. destruct (at_view lp xs x ys Hrep) as (a & c & Hlp & Ha).
  rewrite Hlp, <- Ha, zlen_ent. unfold ent_bytes. rewrite <- app_assoc.
  apply getWithSize_spec, (at_entry_ok lp xs x ys Hrep).
Qed.

(** The bytes a string entry points to. *)
Lemma read_at lp xs x ys s :
  lp_rep lp (xs ++ x :: ys) -> e_val x = EStr s ->
  mread lp (off xs + (zlen (e_raw x) - zlen s)) (zlen s) = Some s.
Proof.
  intros Hrep Hs. destruct (at_view lp xs x ys Hrep) as (a & c & Hlp & Ha).
  pose proof (at_entry_ok lp xs x ys Hrep) as Hx. unfold entry_ok in Hx. rewrite Hs in Hx.
  destruct Hx as (h & _ & Hr & _). rewrite Hlp. unfold ent_bytes. rewrite Hr, <- !app_assoc.
  rewrite (app_assoc a h). apply mread_app; [|done]. zlen_solve.
Qed.

(** The bytes a getter's result designates. *)
Definition deref (lp : list Z) (r : lpref) (n : Z) : option (list Z) :=
  match r with
  | RLp o => mread lp o n
  | RIntbuf buf => mread buf 0 n
  | RNull => None
  end.

Lemma int_result_buf v buf :
  in_signed 64 v -> zlen buf = LP_INTBUF_SIZE ->
  exists buf', int_result v (Some buf) = Some (RIntbuf buf', zlen (dec v)) /\
    mread buf' 0 (zlen (dec v)) = Some (dec v).
Proof.
  intros Hv Hb. pose proof (dec_len v Hv) as Hl. unfold LP_INTBUF_SIZE, LONG_STR_SIZE in *.
  destruct (split_zlen buf (zlen (dec v) + 1) ltac:(lia)) as (y & z & -> & Hy).
  destruct (ll2string_spec [] (y ++ z) [] v Hv) as [Hfit _]. specialize (Hfit y z eq_refl Hy).
  cbn [app] in Hfit. rewrite !app_nil_r, Hb in Hfit. change (zlen (@nil Z)) with 0 in Hfit.
  unfold int_result, LP_INTBUF_SIZE. rewrite Hfit. sbind. eexists. split; [done|].
  by apply (mread_app [] (dec v)).
Qed.

Lemma getValue_at lp xs x ys :
  lp_rep lp (xs ++ x :: ys) ->
  match e_val x with
  | EInt v => lpGetValue lp (off xs) = Some (inr v)
  | EStr s => exists o, lpGetValue lp (off xs) = Some (inl (o, zlen s)) /\ mread lp o (zlen s) = Some s
  end.
Proof.
  intros Hrep. unfold lpGetValue. rewrite (get_at lp xs x ys) by done.
  pose proof (at_entry_ok lp xs x ys Hrep) as Hx. unfold entry_ok in Hx.
  destruct (e_val x) as [v|s] eqn:He; cbn [get_result]; [done|].
  pose proof (read_at lp xs x ys s Hrep He) as Hr. destruct Hx as (_ & _ & _ & _ & Hl).
  eexists. sbind. by rewrite wrap_small by (pose proof (zlen_nonneg s); lia).
Qed.

(** C32: Reading an entry returns what was stored: as a number and without a
    buffer for an integer entry, as the bytes of the string for a string entry,
    and with a buffer always the text of the entry. *)
Theorem lpGet_correct lp xs x ys buf :
  lp_rep lp (xs ++ x :: ys) -> zlen buf = LP_INTBUF_SIZE ->
  (exists ref n, lpGet lp (off xs) (Some buf) = Some (ref, n) /\ deref lp ref n = Some (text (e_val x))) /\
  match e_val x with
  | EInt v => lpGetValue lp (off xs) = Some (inr v) /\ lpGetIntegerValue lp (off xs) = Some (Some v)
  | EStr s => exists o, lpGetValue lp (off xs) = Some (inl (o, zlen s)) /\ mread lp o (zlen s) = Some s
                /\ lpGetIntegerValue lp (off xs) = Some None
  end.
Proof.
  intros Hrep Hb. pose proof (getValue_at lp xs x ys Hrep) as Hv. unfold lpGetIntegerValue.
  rewrite !(get_at lp xs x ys) by done. pose proof (at_entry_ok lp xs x ys Hrep) as Hx. unfold entry_ok in Hx.
  destruct (e_val x) as [v|s] eqn:He; cbn [get_result text].
  - apply int_enc_signed in Hx. split; [|done].
    destruct (int_result_buf v buf Hx Hb) as (buf' & -> & Hr). eauto.
  - pose proof (read_at lp xs x ys s Hrep He) as Hr. split; [eexists _, _; split; [done|]; exact Hr|].
    destruct Hv as (o & Hv & Hm). by exists o.
Qed.

(** ** Searching *)

Definition matches (s : list Z) (e : lpe) : bool := bool_decide (text e = s).

Section find_loop.
Context {U : Type} (cmp : list Z -> Z -> U -> lpref -> Z -> option (bool * U)).
Context (I : U -> Prop) (m : lpe -> bool).
(** The comparator answers [m] on the entry it is called with. *)
Context (lp : list Z) (xs0 : list entry) (Hrep : lp_rep lp xs0).
Context (Hcmp : forall xs x ys user ref n, xs0 = xs ++ x :: ys -> I user ->
  get_result (off xs) (e_val x) (e_raw x) None = Some (ref, n) ->
  exists user', I user' /\ cmp lp (off xs) user ref n = Some (m (e_val x), user')).

(** The first matching entry of [ys] at a distance [cnt], [cnt + skip + 1], ... *)
Fixpoint find_ptr (skip : Z) (xs ys : list entry) (cnt : Z) : option Z :=
  match ys with
  | [] => None
  | y :: ys =>
      if cnt =? 0 then if m (e_val y) then Some (off xs) else find_ptr skip (xs ++ [y]) ys skip
      else find_ptr skip (xs ++ [y]) ys (cnt - 1)
  end.

Lemma get_result_None o e r : exists ref n, get_result o e r None = Some (ref, n).
Proof. destruct e; by eexists _, _. Qed.

Lemma find_loop_spec fuel xs y ys user skip cnt es :
  xs0 = xs ++ y :: ys -> I user -> (length ys < fuel)%nat -> 0 <= cnt -> 0 <= skip ->
  lpFind_loop cmp fuel lp (off xs0 + 1) (off xs) user skip cnt es = Some (find_ptr skip xs (y :: ys) cnt).
Proof.
  revert xs y ys user cnt es.
  induction fuel as [|fuel IH]; intros xs y ys user cnt es Hxs HI Hf Hc Hs; [lia|].
  assert (Hrep' := Hrep). rewrite Hxs in Hrep'.
  assert (Hnext : forall user' cnt' es', I user' -> 0 <= cnt' ->
    (_ ← (if off (xs ++ [y]) + 8 >=? off xs0 + 1 then lpAssertValidEntry lp (off xs0 + 1) (off (xs ++ [y]))
          else check ((off (xs ++ [y]) >=? LP_HDR_SIZE) && (off (xs ++ [y]) <? off xs0 + 1)));
     b ← mget lp (off (xs ++ [y]));
     if b =? LP_EOF then Some None
     else lpFind_loop cmp fuel lp (off xs0 + 1) (off (xs ++ [y])) user' skip cnt' es') =
    Some (find_ptr skip (xs ++ [y]) ys cnt')).
  { intros user' cnt' es' HI' Hc'. apply rep_snoc in Hrep'.
    assert (Hxs' : xs0 = (xs ++ [y]) ++ ys) by (by rewrite <- app_assoc).
    assert ((if off (xs ++ [y]) + 8 >=? off xs0 + 1 then lpAssertValidEntry lp (off xs0 + 1) (off (xs ++ [y]))
          else check ((off (xs ++ [y]) >=? LP_HDR_SIZE) && (off (xs ++ [y]) <? off xs0 + 1))) = Some ()) as ->.
    { case_match; [rewrite Hxs'; by apply assert_valid|].
      pose proof (off_ge (xs ++ [y])). pose proof (off_app (xs ++ [y]) ys) as Ho.
      rewrite <- Hxs' in Ho. pose proof (zlen_nonneg (body ys)). unfold LP_HDR_SIZE. by zcase. }
    sbind. destruct ys as [|z ys].
    - rewrite (mget_end lp) by (by rewrite app_nil_r in Hrep'). done.
    - destruct (mget_at lp _ z ys Hrep') as (b & -> & _ & Hb). sbind.
      destruct (Z.eqb_spec b LP_EOF); [done|]. simpl in Hf. apply IH; (done || lia). }
  cbn [lpFind_loop find_ptr]. cbv zeta. destruct (Z.eqb_spec cnt 0) as [->|Hcnt].
  - destruct (get_result_None (off xs) (e_val y) (e_raw y)) as (ref & n & Hget).
    rewrite (getWithSize_at lp xs y ys None Hrep'), Hget. sbind. cbn [from_option id].
    destruct (Hcmp xs y ys user ref n Hxs HI Hget) as (user' & HI' & ->).
    pose proof (at_bound xs y ys). pose proof (off_ge xs). rewrite <- Hxs in *.
    assert ((if is_ref ref then check ((off xs >=? LP_HDR_SIZE) && (off xs + zlen (ent_bytes y) <? off xs0 + 1))
             else Some ()) = Some ()) as ->.
    { destruct (is_ref ref); [|done]. unfold LP_HDR_SIZE. by zcase. }
    sbind. destruct (m (e_val y)); [done|]. rewrite <- off_snoc. by apply Hnext.
  - rewrite (skip_at lp xs y ys Hrep'). sbind. apply Hnext; (done || lia).
Qed.

Lemma findCb_spec user skip :
  I user -> 0 <= skip -> lpFindCb cmp lp None user skip = Some (find_ptr skip [] xs0 0).
Proof.
  intros HI Hs. unfold lpFindCb, lpFindCbInternal, lpBytes. rewrite (rep_total _ _ Hrep). sbind.
  rewrite (first_spec lp xs0 Hrep). sbind. pose proof (rep_length _ _ Hrep) as [Hl _].
  assert (xs0 = [] \/ exists x xs, xs0 = x :: xs) as [E|(x & xs & E)] by (destruct xs0; eauto).
  - by rewrite E.
  - replace (ptr [] xs0) with (Some (off [])) by (by rewrite E).
    rewrite E in Hl. rewrite zlen_cons in Hl. unfold zlen in Hl.
    rewrite (find_loop_spec _ [] x xs) by (done || lia). by rewrite E.
Qed.
End find_loop.

(** The comparator of [lpFind] converts the searched string at most once and
    keeps the outcome in its argument. *)
Definition find_arg_ok (s : list Z) (arg : lpFindArg) : Prop :=
  fa_s arg = s /\
  (fa_vencoding arg = 0
   \/ fa_vencoding arg = 1 /\ lpStringToInt64 s = Some (fa_vll arg)
   \/ fa_vencoding arg = UCHAR_MAX /\ lpStringToInt64 s = None).

Lemma lpStringToInt64_long s : 32 <= zlen s \/ zlen s = 0 -> lpStringToInt64 s = None.
Proof. intros H. unfold lpStringToInt64, LONG_STR_SIZE. zcase; done. Qed.

Lemma eqb_matches v s : in_signed 64 v ->
  matches s (EInt v) = match lpStringToInt64 s with Some w => v =? w | None => false end.
Proof.
  intros Hv. unfold matches. cbn [text]. destruct (lpStringToInt64 s) as [w|] eqn:Hp.
  - apply lpStringToInt64_iff in Hp as [_ ->].
    destruct (Z.eqb_spec v w) as [->|Hne]; [by rewrite bool_decide_eq_true_2|].
    rewrite bool_decide_eq_false_2; [done|]. by intros ?%dec_inj.
  - rewrite bool_decide_eq_false_2; [done|]. intros <-.
    by rewrite (proj2 (lpStringToInt64_iff _ v) (conj Hv eq_refl)) in Hp.
Qed.

Lemma findCmp_int lp p arg s v :
  in_signed 64 v -> find_arg_ok s arg -> exists arg', find_arg_ok s arg' /\
    lpFindCmp lp p arg RNull v = Some (matches s (EInt v), arg').
Proof.
  intros Hv [Hs Henc]. unfold lpFindCmp. rewrite eqb_matches by done.
  set (arg' := if fa_vencoding arg =? 0 then _ else arg).
  assert (find_arg_ok s arg' /\ fa_vencoding arg' <> 0) as [Hok Hne].
  { subst arg'. rewrite Hs. destruct (Z.eqb_spec (fa_vencoding arg) 0) as [H0|H0].
    - destruct ((zlen s >=? 32) || (zlen s =? 0)) eqn:Hlong; cbn.
      + split; [|done]. split; [done|]. right; right. split; [done|]. apply lpStringToInt64_long.
        apply orb_true_iff in Hlong as [?%Z.geb_le| ?%Z.eqb_eq]; lia.
      + destruct (lpStringToInt64 s) eqn:Hp; cbn; (split; [|done]); split; try done; auto.
    - split; [|done]. by split. }
  exists arg'. split; [done|]. do 2 f_equal. destruct Hok as [_ [?|[[-> Hp]|[-> Hp]]]]; [done|..].
  - by rewrite Hp.
  - by rewrite Hp.
Qed.

Lemma findCmp_spec lp xs x ys arg s ref n :
  lp_rep lp (xs ++ x :: ys) -> find_arg_ok s arg ->
  get_result (off xs) (e_val x) (e_raw x) None = Some (ref, n) ->
  exists arg', find_arg_ok s arg' /\ lpFindCmp lp (off xs) arg ref n = Some (matches s (e_val x), arg').
Proof.
  intros Hrep Harg. destruct (e_val x) as [v|t] eqn:He; cbn [get_result int_result]; intros [= <- <-].
  - apply findCmp_int; [|done]. pose proof (at_entry_ok lp xs x ys Hrep) as Hx.
    unfold entry_ok in Hx. rewrite He in Hx. by apply int_enc_signed in Hx.
  - exists arg. split; [done|]. unfold matches. cbn [lpFindCmp text]. destruct Harg as [-> _].
    destruct (Z.eqb_spec (zlen t) (zlen s)) as [Hl|Hl].
    + by rewrite (read_at lp xs x ys t Hrep He).
    + rewrite bool_decide_eq_false_2; [done|]. by intros ->.
Qed.

(** The entries a search compares with success, counted from a distance. *)
Definition cand (m : lpe -> bool) (skip cnt : Z) (xs : list entry) (i : nat) (x : entry) : Prop :=
  xs !! i = Some x /\ (Z.of_nat i - cnt) mod (skip + 1) = 0 /\ m (e_val x) = true.

Lemma cand_S m skip cnt cnt' y ys i x :
  0 <= skip -> (cnt' = cnt - 1 \/ cnt = 0 /\ cnt' = skip) ->
  cand m skip cnt (y :: ys) (S i) x <-> cand m skip cnt' ys i x.
Proof.
  intros Hs Hc. unfold cand. cbn [lookup list_lookup].
  assert ((Z.of_nat (S i) - cnt) mod (skip + 1) = (Z.of_nat i - cnt') mod (skip + 1)) as ->; [|done].
  destruct Hc as [->|[-> ->]]; [f_equal; lia|].
  replace (Z.of_nat (S i) - 0) with (Z.of_nat i - skip + 1 * (skip + 1)) by lia.
  by rewrite Z.mod_add by lia.
Qed.

Lemma cand_0 m skip cnt y ys x :
  0 <= cnt <= skip -> cand m skip cnt (y :: ys) 0 x <-> cnt = 0 /\ y = x /\ m (e_val y) = true.
Proof.
  intros Hc. unfold cand. cbn [lookup list_lookup]. split.
  - intros ([= ->] & Hm & ?). split; [|done]. destruct (decide (cnt = 0)); [done|].
    rewrite <- (Z.mod_add _ 1), Z.mod_small in Hm by lia. lia.
  - intros (-> & -> & ?). by rewrite Z.mod_0_l by lia.
Qed.

Lemma find_ptr_spec m skip xs ys cnt :
  0 <= cnt <= skip ->
  match find_ptr m skip xs ys cnt with
  | Some p => exists i x, p = off (xs ++ take i ys) /\ cand m skip cnt ys i x
                /\ forall j y, cand m skip cnt ys j y -> (i <= j)%nat
  | None => forall i x, ~ cand m skip cnt ys i x
  end.
Proof.
  revert xs cnt. induction ys as [|y ys IH]; intros xs cnt Hc; [by intros i x [H _]|].
  cbn [find_ptr]. assert (exists cnt', (cnt' = cnt - 1 \/ cnt = 0 /\ cnt' = skip) /\ 0 <= cnt' <= skip /\
    find_ptr m skip xs (y :: ys) cnt =
      if (cnt =? 0) && m (e_val y) then Some (off xs) else find_ptr m skip (xs ++ [y]) ys cnt')
    as (cnt' & Hcnt & Hcnt' & Heq).
  { cbn [find_ptr]. destruct (Z.eqb_spec cnt 0); [exists skip|exists (cnt - 1)];
      (split; [|split; [|done]]); lia. }
  cbn [find_ptr] in Heq. rewrite Heq. destruct ((cnt =? 0) && m (e_val y)) eqn:Hhit.
  - apply andb_true_iff in Hhit as [->%Z.eqb_eq Hm]. exists 0%nat, y.
    split; [by rewrite app_nil_r|]. split; [by apply cand_0|lia].
  - assert (Hno : forall x, ~ cand m skip cnt (y :: ys) 0 x).
    { intros x (-> & -> & Hm)%cand_0; [|done]. by rewrite Hm in Hhit. }
    specialize (IH (xs ++ [y]) cnt' Hcnt'). destruct (find_ptr _ _ _ ys cnt') as [p|].
    + destruct IH as (i & x & -> & Hi & Hmin). exists (S i), x. rewrite <- app_assoc. split; [done|].
      split; [by eapply cand_S; [lia|done|]|].
      intros [|j] z Hz; [by apply Hno in Hz|]. apply cand_S with (cnt' := cnt') in Hz; [|lia|done].
      apply Hmin in Hz. lia.
    + intros [|i] x Hx; [by apply Hno in Hx|]. apply cand_S with (cnt' := cnt') in Hx; [|lia|done].
      by apply IH in Hx.
Qed.

(** LpFind, started at the head, returns a pointer to the first entry at a
    multiple of skip + 1 that equals the searched string, and null when no such
    entry does; integer entries are compared as integers. *)
Theorem lpFind_correct lp xs s skip :
  lp_rep lp xs -> 0 <= skip ->
  exists r, lpFind lp None s skip = Some r /\
  match r with
  | Some p => exists i x, p = entry_ptr xs i /\ cand (matches s) skip 0 xs i x
                /\ forall j y, cand (matches s) skip 0 xs j y -> (i <= j)%nat
  | None => forall i x, ~ cand (matches s) skip 0 xs i x
  end.
Proof.
  intros Hrep Hs. exists (find_ptr (matches s) skip [] xs 0). split.
  - apply (findCb_spec lpFindCmp (find_arg_ok s)); [done|..|done].
    + intros pre x post arg ref n -> Harg Hget. by apply findCmp_spec with (ys := post).
    + split; [done|]. by left.
  - by apply (find_ptr_spec (matches s) skip []).
Qed.

(** The search from the first entry. *)
Lemma find_first lp xs s skip :
  lp_rep lp xs -> xs <> [] -> 0 <= skip ->
  lpFind lp (Some (off [])) s skip = Some (find_ptr (matches s) skip [] xs 0).
Proof.
  intros Hrep Hne Hs. rewrite <-(findCb_spec lpFindCmp (find_arg_ok s) (matches s) lp xs Hrep) with (user := {| fa_s := s; fa_vencoding := 0; fa_vll := 0 |}); try done.
  - unfold lpFind, lpFindCb, lpFindCbInternal. rewrite (first_spec lp xs Hrep). by destruct xs.
  - intros pre x post arg ref n -> Harg Hget. by apply findCmp_spec with (ys := post).
  - split; [done|]. by left.
Qed.

(** ** Comparing *)

(** What the caller's cache of the converted string may hold. *)
Definition cache_ok (s : list Z) (c : option (Z * Z)) : Prop :=
  match c with
  | None => True
  | Some (lv, valid) =>
      valid = 0 \/ valid = 1 /\ lpStringToInt64 s = Some lv \/ valid = -1 /\ lpStringToInt64 s = None
  end.

Lemma compare_spec lp xs x ys s c :
  lp_rep lp (xs ++ x :: ys) -> cache_ok s c ->
  exists c', lpCompare lp (off xs) s c = Some (matches s (e_val x), c') /\ cache_ok s c'.
Proof.
  intros Hrep Hc. unfold lpCompare. destruct (mget_at lp xs x ys Hrep) as (b & -> & _ & Hb). sbind.
  destruct (Z.eqb_spec b LP_EOF); [done|]. rewrite (get_at lp xs x ys None Hrep).
  pose proof (at_entry_ok lp xs x ys Hrep) as Hx. unfold entry_ok in Hx.
  destruct (e_val x) as [v|t] eqn:He; cbn [get_result int_result]; sbind.
  - apply int_enc_signed in Hx. rewrite eqb_matches by done. destruct c as [[lv valid]|].
    + destruct Hc as [->|[[-> Hp]|[-> Hp]]].
      * destruct (lpStringToInt64 s) eqn:Hp; eexists; (split; [done|]); cbn; rewrite Hp; auto.
      * rewrite Hp. eexists; split; [done|]. cbn. auto.
      * rewrite Hp. eexists; split; [done|]. cbn. auto.
    + destruct (lpStringToInt64 s); by exists None.
  - exists c. split; [|done]. unfold matches. cbn [text].
    destruct (Z.eqb_spec (zlen s) (zlen t)) as [Hl|Hl].
    + by rewrite (read_at lp xs x ys t Hrep He).
    + rewrite bool_decide_eq_false_2; [done|]. by intros ->.
Qed.

(** Navigation follows the list: lpFirst and lpLast return the ends, lpNext
    and lpPrev the neighbours, null past the ends, without failing an assertion;
    lpLength returns the number of entries, counted when the header does not
    have it, and lpCompare compares the text of an entry. *)
Theorem lpTraverse_correct lp xs :
  lp_rep lp xs ->
  lpFirst lp = Some (ptr [] xs)
  /\ lpLast lp = Some (entry_ptr xs <$> seek_index (zlen xs) (-1))
  /\ (exists lp', lpLength lp = Some (zlen xs, lp') /\ lp_rep lp' xs)
  /\ lpPrev lp (off []) = Some None
  /\ forall pre x post, xs = pre ++ x :: post ->
       lpNext lp (off pre) = Some (ptr (pre ++ [x]) post)
       /\ lpPrev lp (off (pre ++ [x])) = Some (Some (off pre))
       /\ forall s c, cache_ok s c -> exists c',
            lpCompare lp (off pre) s c = Some (matches s (e_val x), c') /\ cache_ok s c'.
Proof.
  intros Hrep. split; [by apply first_spec|]. split; [|split; [|split; [done|]]].
  - unfold seek_index. destruct xs as [|x xs _] using rev_ind; [by rewrite (last_empty lp Hrep)|].
    rewrite (last_spec lp xs x Hrep), zlen_app. change (zlen [x]) with 1. pose proof (zlen_nonneg xs). zcase.
    cbn [andb fmap option_fmap option_map]. unfold entry_ptr. rewrite take_app_le by (unfold zlen; lia).
    rewrite take_ge by (unfold zlen; lia). done.
  - destruct (length_spec lp xs Hrep) as (lp' & H1 & H2 & _). eauto.
  - intros pre x post ->. split; [by apply next_spec|]. split; [by eapply prev_spec|].
    intros s c Hc. by eapply compare_spec.
Qed.

(** ** Concrete runs *)

Lemma lpSeek_correct_witness :
  lpSeek (mk_lp sample_entries) (-1) = Some (entry_ptr sample_entries <$> seek_index (zlen sample_entries) (-1))
  /\ lpSeek (mk_lp sample_entries) (-1) = Some (Some 18).
Proof. split; [exact (lpSeek_correct _ _ (-1) sample_rep)|by vm_compute]. Defined.

Lemma lpFind_correct_witness :
  exists r, lpFind (mk_lp sample_entries) None (str "5") 1 = Some r.
Proof. destruct (lpFind_correct _ _ (str "5") 1 sample_rep ltac:(lia)) as (r & H & _). exists r. exact H. Defined.

Lemma lpGet_correct_witness :
  exists ref n, lpGet (mk_lp sample_entries) (off [canon (EStr (str "redis"))]) (Some (repeat 0 21)) = Some (ref, n)
    /\ deref (mk_lp sample_entries) ref n = Some (str "-70000").
Proof.
  exact (proj1 (lpGet_correct _ [canon (EStr (str "redis"))] (canon (EInt (-70000))) [canon (EInt 5)]
    (repeat 0 21) sample_rep eq_refl)).
Defined.

Lemma lpTraverse_correct_witness :
  lpFirst (mk_lp sample_entries) = Some (ptr [] sample_entries).
Proof. exact (proj1 (lpTraverse_correct _ _ sample_rep)). Defined.
