(* ===== verification/ListpackValid.v ===== *)
(** * listpack.c: the deep validation of a payload

    [lpValidateIntegrity] is what stands between an untrusted payload (RESTORE,
    an RDB file) and the code that assumes a well-formed listpack.  It reads
    nothing out of the payload whatever the bytes are, accepts every well-formed
    listpack, and what it accepts can be traversed and read.  It does not pin the
    payload down to a well-formed listpack, though: the backward length of an
    entry may spill into the bytes before the entry, the header included. *)

From S2P Require Import Prelude Util Listpack ListpackSpec ListpackNav.

(** ** Well-formed listpacks are accepted *)

Lemma validate_loop_rep fuel lp xs ys num count :
  lp_rep lp (xs ++ ys) -> (length ys < fuel)%nat -> 0 <= count -> count + zlen ys < 2 ^ 32 ->
  validate_loop None fuel lp (off (xs ++ ys) + 1) num (Some (off xs)) count =
    Some (Some (Some (off (xs ++ ys)), count + zlen ys)).
Proof.
  revert xs ys count. induction fuel as [|fuel IH]; intros xs ys count Hrep Hf Hc Hb; [lia|].
  cbn [validate_loop]. destruct ys as [|y ys].
  - rewrite app_nil_r in *. rewrite (mget_end lp xs Hrep). sbind.
    change (LP_EOF =? LP_EOF) with true. change (zlen (@nil entry)) with 0. by rewrite Z.add_0_r.
  - destruct (mget_at lp xs y ys Hrep) as (b & -> & _ & Hne). sbind.
    destruct (Z.eqb_spec b LP_EOF); [done|]. rewrite (validate_at lp xs y ys Hrep). sbind. cbn [negb].
    rewrite zlen_cons in *. simpl in Hf. pose proof (zlen_nonneg ys). rewrite wrap_small by lia.
    pose proof (rep_snoc _ _ _ _ Hrep) as Hrep'.
    pose proof (IH (xs ++ [y]) ys (count + 1) Hrep' ltac:(lia) ltac:(lia) ltac:(lia)) as IH'.
    rewrite <- app_assoc in IH'. cbn [app] in IH'. rewrite IH'. by replace (count + 1 + zlen ys) with (count + (1 + zlen ys)) by lia.
Qed.

Lemma validate_complete lp xs deep :
  lp_rep lp xs -> lpValidateIntegrity lp (off xs + 1) deep None = Some true.
Proof.
  intros Hrep. unfold lpValidateIntegrity, LP_HDR_SIZE. pose proof (off_ge xs).
  destruct (Z.ltb_spec (off xs + 1) (6 + 1)); [lia|].
  rewrite (rep_total _ _ Hrep). sbind. rewrite Z.eqb_refl. cbn [negb].
  replace (off xs + 1 - 1) with (off xs) by lia. rewrite (mget_end _ _ Hrep). sbind. cbn [negb Z.eqb].
  change (LP_EOF =? LP_EOF) with true. cbn [negb]. destruct deep; [|done]. cbn [negb].
  destruct (rep_numele _ _ Hrep) as (num & -> & Hnum). sbind. pose proof (rep_length _ _ Hrep) as [Hl1 Hl2].
  pose proof (zlen_nonneg xs).
  rewrite (validate_loop_rep _ lp [] xs num 0 Hrep) by (unfold zlen in *; lia). sbind.
  rewrite bool_decide_eq_true_2 by done. cbn [negb]. rewrite Z.add_0_l.
  destruct Hnum as [->|[-> _]]; [done|]. by rewrite Z.eqb_refl, andb_false_r.
Qed.

(** ** Decoding arbitrary bytes *)

Lemma mget_ok lp p : bytes_ok lp -> 0 <= p < zlen lp -> exists b, mget lp p = Some b /\ is_byte b.
Proof.
  intros Hlp Hp. destruct (lookup_Z_lt lp p Hp) as [b Hb]. exists b. unfold mget. zcase.
  split; [done|]. by eapply Forall_lookup_1.
Qed.

Lemma decode_loop_total fuel lp p val shift :
  bytes_ok lp -> shift + 7 * Z.of_nat fuel = 35 -> (0 < fuel)%nat -> 0 <= shift ->
  Z.of_nat fuel - 1 <= p < zlen lp -> 0 <= val < 2 ^ shift ->
  exists v, lpDecodeBacklen_loop fuel lp p val shift = Some v
    /\ (v = UINT64_MAX \/ 0 <= v < 2 ^ 35 /\ v mod 2 ^ shift = val).
Proof.
  intros Hlp. revert p val shift. induction fuel as [|fuel IH]; intros p val shift Hf Hf0 Hs Hp Hv; [lia|].
  cbn [lpDecodeBacklen_loop]. destruct (mget_ok lp p Hlp ltac:(lia)) as (b & -> & Hb). sbind.
  assert (Hlow : 0 <= (b &&& 127) < 128).
  { rewrite (land_mod b 7) by done. apply Z.mod_pos_bound. lia. }
  rewrite u64_shift by lia. rewrite <- Z.shiftl_mul_pow2, lor_shiftl by lia.
  set (v := val + (b &&& 127) * 2 ^ shift).
  assert (H7 : 2 ^ (shift + 7) = 2 ^ shift * 128) by (rewrite Z.pow_add_r by lia; done).
  assert (Hv' : 0 <= v < 2 ^ (shift + 7)) by (subst v; rewrite H7; nia).
  assert (Hm : v mod 2 ^ shift = val) by (subst v; by rewrite Z.mod_add, Z.mod_small by lia).
  destruct ((b &&& 128) =? 0).
  { exists v. split; [done|]. right. split; [|done].
    assert (2 ^ (shift + 7) <= 2 ^ 35) by (apply Z.pow_le_mono_r; lia). lia. }
  destruct (Z.gtb_spec (shift + 7) 28); [by exists UINT64_MAX; auto|].
  destruct (IH (p - 1) v (shift + 7)) as (w & -> & Hw); try lia.
  exists w. split; [done|]. destruct Hw as [->|[Hr Hw]]; [by left|]. right. split; [done|].
  rewrite (Z.div_mod w (2 ^ (shift + 7))), Hw, H7 by lia.
  replace (2 ^ shift * 128 * (w / (2 ^ shift * 128)) + v)
    with (v + 128 * (w / (2 ^ shift * 128)) * 2 ^ shift) by ring.
  by rewrite Z.mod_add by lia.
Qed.

(** The first byte read gives the low seven bits. *)
Lemma decode_total lp p b :
  bytes_ok lp -> 4 <= p < zlen lp -> mget lp p = Some b ->
  exists v, lpDecodeBacklen lp p = Some v
    /\ (v = UINT64_MAX \/ 0 <= v < 2 ^ 35 /\ v mod 128 = b mod 128).
Proof.
  intros Hlp Hp Hb. unfold lpDecodeBacklen. cbn [lpDecodeBacklen_loop]. rewrite Hb. sbind.
  assert (Hlow : (b &&& 127) = b mod 128) by (by rewrite (land_mod b 7)).
  pose proof (Z.mod_pos_bound b 128 ltac:(lia)).
  assert (0 ||| u64 ((b &&& 127) <<< 0) = b mod 128) as ->.
  { rewrite Z.shiftl_0_r, Z.lor_0_l, Hlow, wrap_small by lia. done. }
  destruct ((b &&& 128) =? 0).
  { exists (b mod 128). split; [done|]. right. split; [lia|]. by rewrite Z.mod_mod. }
  cbn [Z.gtb Z.compare Z.add].
  destruct (decode_loop_total 4 lp (p - 1) (b mod 128) 7) as (v & Hv & Hres); try done; try lia.
  exists v. split; [exact Hv|]. done.
Qed.

(** ** Reading an entry from arbitrary bytes *)

Lemma le_enc_swrap (n : nat) bs :
  bytes_ok bs -> length bs = S n -> le_enc (S n) (swrap (8 * Z.of_nat (S n)) (le_dec bs)) = bs.
Proof.
  intros Hbs Hl. rewrite <- le_enc_wrap, wrap_swrap, le_enc_wrap by lia.
  rewrite <- Hl. by apply le_enc_dec.
Qed.

(** An entry at the start of [m], of [n] bytes when they fit below [lim]; or
    the wrapped size of a 32-bit string, whose last byte cannot end a
    backward length that agrees with it. *)
Definition starts_entry (m : list Z) (lim n : Z) : Prop :=
  n <= lim ->
  (exists x c, m = e_raw x ++ c /\ entry_ok x /\ zlen (e_raw x) = n)
  \/ n <= 4 /\ exists bn, mget m n = Some bn /\ 112 <= bn mod 128.

Lemma starts_str h t lim len :
  str_enc len h -> bytes_ok t -> 0 <= len < 2 ^ 32 - 5 -> lim <= zlen (h ++ t) ->
  starts_entry (h ++ t) lim (zlen h + len).
Proof.
  intros Hh Ht Hl Hlim Hn. left. rewrite zlen_app in Hlim.
  destruct (split_zlen t len ltac:(lia)) as (s & c & -> & Hs).
  exists (Ent (EStr s) (h ++ s)), c. rewrite app_assoc. split; [done|]. cbn [e_raw]. split.
  - exists h. rewrite Hs. apply Forall_app in Ht as [Hbs _]. repeat split; try done; lia.
  - by rewrite zlen_app, Hs.
Qed.

Lemma starts_int h (n : nat) t lim :
  (forall v, in_signed (8 * Z.of_nat (S n)) v -> int_enc v (h :: le_enc (S n) v)) ->
  bytes_ok t -> lim <= zlen (h :: t) -> starts_entry (h :: t) lim (1 + Z.of_nat (S n)).
Proof.
  intros Henc Ht Hlim Hn. left. rewrite zlen_cons in Hlim.
  destruct (split_zlen t (Z.of_nat (S n)) ltac:(lia)) as (bs & c & -> & Hs).
  apply Forall_app in Ht as [Hbs _].
  set (v := swrap (8 * Z.of_nat (S n)) (le_dec bs)).
  assert (Hv : le_enc (S n) v = bs) by (apply le_enc_swrap; [done|unfold zlen in Hs; lia]).
  exists (Ent (EInt v) (h :: bs)), c. split; [done|]. cbn [e_raw]. split.
  - unfold entry_ok. cbn [e_val e_raw enc_of]. rewrite <- Hv. apply Henc. apply swrap_range. lia.
  - by rewrite zlen_cons, Hs.
Qed.

Lemma starts_13 b b1 t lim :
  192 <= b < 224 -> is_byte b1 -> starts_entry (b :: b1 :: t) lim 2.
Proof.
  intros Hb Hb1 _. left. unfold is_byte in Hb1. set (u := (b - 192) * 256 + b1).
  exists (Ent (EInt (swrap 13 u)) [b; b1]), t. split; [done|]. cbn [e_raw]. split; [|done].
  unfold entry_ok. cbn [e_val e_raw enc_of].
  assert (Hu : wrap 13 (swrap 13 u) = u).
  { rewrite wrap_swrap by lia. apply wrap_small. change (2 ^ 13) with 8192. subst u. lia. }
  assert (H := ienc_13 (swrap 13 u) (swrap_range 13 u ltac:(lia))). rewrite Hu in H.
  replace (192 + u / 256) with b in H by (subst u; div_lia).
  replace (u mod 256) with b1 in H by (subst u; div_lia). done.
Qed.

Lemma starts_32_wrapped (bs t : list Z) lim :
  bytes_ok bs -> length bs = 4%nat -> 2 ^ 32 - 5 <= le_dec bs ->
  starts_entry (240 :: bs ++ t) lim (u32 (5 + le_dec bs)).
Proof.
  intros Hbs Hl Hd _. right. pose proof (le_dec_range bs Hbs) as Hr.
  destruct bs as [|b1 [|b2 [|b3 [|b4 [|b5 bs]]]]]; try discriminate Hl.
  change (2 ^ (8 * zlen [b1; b2; b3; b4])) with (2 ^ 32) in Hr.
  rewrite !Forall_cons in Hbs. unfold is_byte in Hbs. cbn [le_dec] in *.
  assert (b4 = 255 /\ b3 = 255 /\ b2 = 255 /\ 251 <= b1) as (-> & -> & -> & H1) by lia.
  assert (u32 (5 + (b1 + 256 * (255 + 256 * (255 + 256 * (255 + 256 * 0))))) = b1 - 251) as ->.
  { unfold wrap. rewrite <- (Z.mod_add _ (-1)), Z.mod_small by lia. lia. }
  split; [lia|].
  assert (b1 = 251 \/ b1 = 252 \/ b1 = 253 \/ b1 = 254 \/ b1 = 255) as Hb by lia.
  destruct Hb as [->|[->|[->|[->| ->]]]]; eexists; (split; [done|]); by vm_compute.
Qed.

(** The length fields of the long strings. *)
Lemma starts_str12 b b1 t lim :
  224 <= b < 240 -> is_byte b1 -> bytes_ok t -> lim <= zlen (b :: b1 :: t) ->
  let len := ((b &&& 15) <<< 8) ||| b1 in
  0 <= 2 + len < 2 ^ 32 /\ starts_entry (b :: b1 :: t) lim (2 + len).
Proof.
  unfold is_byte. intros Hb Hb1 Ht Hlim. cbv zeta. set (len := (b - 224) * 256 + b1).
  assert (Hlen : 0 <= len < 4096) by (subst len; lia).
  assert (Hbe : b = 224 + len / 256) by (subst len; div_lia).
  assert (Hb1e : b1 = len mod 256) by (subst len; div_lia).
  assert (((b &&& 15) <<< 8) ||| b1 = len) as -> by (rewrite Hbe, Hb1e; by apply str_len_12).
  split; [lia|]. apply (starts_str [b; b1] t lim len); [|done|lia|done].
  rewrite Hbe, Hb1e at 1. by apply senc_12.
Qed.

Lemma starts_str32 t lim :
  bytes_ok t -> 5 < lim <= zlen (240 :: t) ->
  exists len, get32 t 0 = Some len /\ 0 <= u32 (5 + len) < 2 ^ 32
    /\ starts_entry (240 :: t) lim (u32 (5 + len)).
Proof.
  intros Ht Hlim. assert (Hlim' := Hlim). rewrite zlen_cons in Hlim.
  destruct (split_zlen t 4 ltac:(lia)) as (bs & c & -> & Hbs).
  apply Forall_app in Ht as [Hok Hc]. assert (Hl : length bs = 4%nat) by (unfold zlen in Hbs; lia).
  pose proof (le_dec_range bs Hok) as Hr. rewrite Hbs in Hr. change (8 * 4) with 32 in Hr.
  assert (Henc : le_enc 4 (le_dec bs) = bs) by (rewrite <- Hl; by apply le_enc_dec).
  exists (le_dec bs). split; [rewrite <- Henc at 1; by rewrite get32_enc, wrap_small by lia|].
  split; [apply wrap_range; lia|].
  destruct (decide (2 ^ 32 - 5 <= le_dec bs)); [by apply starts_32_wrapped|].
  rewrite wrap_small by lia. replace (5 + le_dec bs) with (zlen (240 :: bs) + le_dec bs)
    by (rewrite zlen_cons; lia).
  apply (starts_str (240 :: bs) c); [|done|lia|exact (proj2 Hlim')].
  rewrite <- Henc at 2. apply senc_32. lia.
Qed.

(** The size of the entry at the start of arbitrary bytes, once its length
    field is known to be readable. *)
Lemma first_entry b t lim :
  bytes_ok (b :: t) -> b <> LP_EOF -> lpCurrentEncodedSizeBytes b <> 0 ->
  lpCurrentEncodedSizeBytes b < lim <= zlen (b :: t) ->
  exists n, lpCurrentEncodedSizeUnsafe (b :: t) 0 = Some n /\ 0 <= n < 2 ^ 32
    /\ starts_entry (b :: t) lim n.
Proof.
  rewrite Forall_cons. intros [Hb Ht] Heof Hk Hlim. revert Heof Hk Hlim.
  unfold LP_EOF, lpCurrentEncodedSizeBytes, lpCurrentEncodedSizeUnsafe, LP_ENCODING_6BIT_STR_LEN,
    LP_ENCODING_12BIT_STR_LEN, LP_ENCODING_32BIT_STR_LEN.
  rewrite mget_cons0. sbind.
  rewrite ?(class_7bit _ Hb), ?(class_6bit _ Hb), ?(class_13bit _ Hb), ?(class_12bit _ Hb),
    ?(class_16bit _ Hb), ?(class_24bit _ Hb), ?(class_32bit _ Hb), ?(class_64bit _ Hb),
    ?(class_32str _ Hb). intros Heof.
  destruct (Z.ltb_spec b 128); [intros _ Hlim|].
  { exists 1. split; [done|]. split; [lia|]. intros _. left. unfold is_byte in Hb.
    exists (Ent (EInt b) [b]), t. split; [done|]. split; [|done]. apply ienc_7. lia. }
  destruct (Z.leb_spec 128 b), (Z.ltb_spec b 192); cbn [andb]; try lia; [intros _ Hlim|].
  { exists (1 + (b - 128)). rewrite (land_mod b 6) by done. change (2 ^ 6) with 64.
    replace (b mod 64) with (b - 128) by div_lia. split; [done|]. split; [lia|].
    apply (starts_str [b] t); [|done|lia|exact (proj2 Hlim)].
    replace b with (128 + (b - 128)) at 2 by lia. apply senc_6. lia. }
  destruct (Z.leb_spec 192 b), (Z.ltb_spec b 224); cbn [andb]; try lia; [intros _ Hlim|].
  { exists 2. split; [done|]. split; [lia|]. intros Hn. rewrite zlen_cons in Hlim.
    destruct t as [|b1 t]; [change (zlen (@nil Z)) with 0 in Hlim; lia|].
    apply Forall_cons in Ht as [Hb1 _]. by apply (starts_13 b b1 t lim). }
  destruct (Z.eqb_spec b 241) as [->|]; [intros _ Hlim|].
  { exists 3. split; [done|]. split; [lia|]. apply (starts_int 241 1); [apply ienc_16|done|lia]. }
  destruct (Z.eqb_spec b 242) as [->|]; [intros _ Hlim|].
  { exists 4. split; [done|]. split; [lia|]. apply (starts_int 242 2); [apply ienc_24|done|lia]. }
  destruct (Z.eqb_spec b 243) as [->|]; [intros _ Hlim|].
  { exists 5. split; [done|]. split; [lia|]. apply (starts_int 243 3); [apply ienc_32|done|lia]. }
  destruct (Z.eqb_spec b 244) as [->|]; [intros _ Hlim|].
  { exists 9. split; [done|]. split; [lia|]. apply (starts_int 244 7); [apply ienc_64|done|lia]. }
  destruct (Z.leb_spec 224 b), (Z.ltb_spec b 240); cbn [andb]; try lia; [intros _ Hlim|].
  { destruct t as [|b1 t]; [rewrite zlen_cons in Hlim; change (zlen (@nil Z)) with 0 in Hlim; lia|].
    apply Forall_cons in Ht as [Hb1 Ht].
    eexists. split; [done|]. apply starts_str12; try done; lia. }
  destruct (Z.eqb_spec b 240) as [->|]; [intros _ Hlim|].
  { destruct (starts_str32 t lim Ht Hlim) as (len & Hget & Hres).
    change (0 + 1) with 1. rewrite get32_cons, Hget. by eexists. }
  destruct (Z.eqb_spec b LP_EOF); [done|]. intros HH. by destruct HH.
Qed.

(** ** What the validation establishes *)

(** [xs] are the entries found from offset [p] to the terminator, each with a
    backward length of the right width that decodes to the size of the entry. *)
Inductive walk (lp : list Z) (last : Z) : Z -> list entry -> Prop :=
  | walk_end : mget lp last = Some LP_EOF -> walk lp last last []
  | walk_entry a x bl c xs :
      lp = a ++ e_raw x ++ bl ++ c -> LP_HDR_SIZE <= zlen a -> entry_ok x ->
      zlen bl = lpEncodeBacklenBytes (zlen (e_raw x)) ->
      lpDecodeBacklen lp (zlen a + zlen (e_raw x) + zlen bl - 1) = Some (zlen (e_raw x)) ->
      walk lp last (zlen a + zlen (e_raw x) + zlen bl) xs ->
      walk lp last (zlen a) (x :: xs).

Lemma in_range p n : (p <? LP_HDR_SIZE) || (p >? n - 1) = false -> LP_HDR_SIZE <= p < n.
Proof. rewrite orb_false_iff, Z.ltb_ge, Z.gtb_ltb, Z.ltb_ge. lia. Qed.

(** One step of the validation, on any bytes. *)
Lemma validate_next_inv lp p b lpbytes :
  bytes_ok lp -> 6 <= p < lpbytes -> lpbytes <= zlen lp -> mget lp p = Some b -> b <> LP_EOF ->
  exists ok p', lpValidateNext lp (Some p) lpbytes = Some (ok, p') /\
  (ok = true -> exists a x bl c,
     lp = a ++ e_raw x ++ bl ++ c /\ zlen a = p /\ entry_ok x
     /\ zlen bl = lpEncodeBacklenBytes (zlen (e_raw x))
     /\ lpDecodeBacklen lp (p + zlen (e_raw x) + zlen bl - 1) = Some (zlen (e_raw x))
     /\ p' = Some (p + zlen (e_raw x) + zlen bl) /\ p + zlen (e_raw x) + zlen bl < lpbytes).
Proof.
  intros Hlp Hp Hlen Hb Heof. unfold lpValidateNext. rewrite Hb.
  destruct (split_zlen lp p ltac:(lia)) as (a & m & Hlpe & Ha).
  assert (exists t, m = b :: t) as [t ->].
  { rewrite Hlpe, <- Ha, mget_shift0 in Hb. destruct m as [|b' t]; [done|]. injection Hb as ->. eauto. }
  assert (Hbt : bytes_ok (b :: t)) by (rewrite Hlpe, Forall_app in Hlp; tauto).
  assert (Hzl : zlen lp = p + zlen (b :: t)) by (rewrite Hlpe, zlen_app; lia).
  destruct (_ || _); [by eexists _, _; split|]. sbind.
  destruct (Z.eqb_spec b LP_EOF) as [|_]; [done|].
  destruct (Z.eqb_spec (lpCurrentEncodedSizeBytes b) 0) as [|Hk]; [by eexists _, _|].
  destruct (_ || _) eqn:Hr1; [by eexists _, _; split|]. apply in_range in Hr1.
  destruct (first_entry b t (lpbytes - p) Hbt Heof Hk ltac:(lia)) as (n & Hn & Hnr & Hstart).
  replace (lpCurrentEncodedSizeUnsafe lp p) with (Some n) by (by rewrite Hlpe, <- Ha, size_shift). sbind.
  pose proof (backlen_bytes_range n) as Hbl.
  destruct (_ || _) eqn:Hr2; [by eexists _, _; split|]. apply in_range in Hr2.
  unfold LP_HDR_SIZE in *.
  destruct (mget_ok lp (p + (n + lpEncodeBacklenBytes n) - 1) Hlp ltac:(lia)) as (bl & Hgbl & _).
  destruct (decode_total lp (p + (n + lpEncodeBacklenBytes n) - 1) bl Hlp ltac:(lia) Hgbl) as (v & Hv & Hres). rewrite Hv. sbind.
  destruct (Z.eqb_spec (u64 (v + lpEncodeBacklenBytes n)) (n + lpEncodeBacklenBytes n)) as [Heq|];
    [|by eexists _, _; split]. cbn [negb]. eexists _, _. split; [done|]. intros _.
  assert (v = n /\ v mod 128 = bl mod 128) as [-> Hmod].
  { destruct Hres as [->|[Hr Hm]].
    - unfold UINT64_MAX, wrap in Heq. rewrite <- (Z.mod_add _ (-1)), Z.mod_small in Heq by lia. lia.
    - rewrite wrap_small in Heq by lia. split; [lia|done]. }
  destruct Hstart as [(x & c & Hm & Hx & Hz)|(Hn4 & bn & Hbn & Hbig)]; [lia|..].
  - assert (Hc : zlen (b :: t) = n + zlen c) by (by rewrite Hm, zlen_app, Hz).
    destruct (split_zlen c (lpEncodeBacklenBytes n) ltac:(lia)) as (bls & c' & -> & Hbls).
    exists a, x, bls, c'. rewrite Hz, Hbls, Hlpe, Hm. repeat split; try done; try lia.
    + rewrite <- Hm, <- Hlpe, <- Hv. f_equal. lia.
    + f_equal. lia.
  - exfalso. assert (lpEncodeBacklenBytes n = 1) as H1 by (unfold lpEncodeBacklenBytes; by zcase).
    rewrite H1 in Hgbl. replace (p + (n + 1) - 1) with (zlen a + n) in Hgbl by lia.
    rewrite Hlpe, mget_shift, Hbn in Hgbl by lia. injection Hgbl as ->. rewrite <- Hmod in Hbig.
    rewrite Z.mod_small in Hbig by lia. lia.
Qed.

Lemma raw_pos x : entry_ok x -> 1 <= zlen (e_raw x).
Proof. intros (b & r & -> & _)%enc_of_first. rewrite zlen_cons. pose proof (zlen_nonneg r). lia. Qed.

Lemma validate_loop_inv fuel lp num p count :
  bytes_ok lp -> 6 <= p < zlen lp -> zlen lp - p < Z.of_nat fuel ->
  exists r, validate_loop None fuel lp (zlen lp) num (Some p) count = Some r /\
    match r with
    | Some (q, cnt) => exists xs last, q = Some last /\ walk lp last p xs /\ u32 cnt = u32 (count + zlen xs)
    | None => True
    end.
Proof.
  intros Hlp. revert p count. induction fuel as [|fuel IH]; intros p count Hp Hf; [lia|].
  cbn [validate_loop]. destruct (mget_ok lp p Hlp ltac:(lia)) as (b & Hb & _). rewrite Hb. sbind.
  destruct (Z.eqb_spec b LP_EOF) as [->|Hne].
  { eexists. split; [done|]. exists [], p. split; [done|]. split; [by constructor|].
    change (zlen (@nil entry)) with 0. by rewrite Z.add_0_r. }
  destruct (validate_next_inv lp p b (zlen lp) Hlp ltac:(lia) ltac:(lia) Hb Hne) as (ok & p' & -> & Hok).
  sbind. destruct ok; cbn [negb]; [|by eexists].
  destruct (Hok eq_refl) as (a & x & bl & c & Hl & Ha & Hx & Hbl & Hdec & -> & Hlt).
  pose proof (zlen_nonneg bl). pose proof (raw_pos x Hx).
  destruct (IH (p + zlen (e_raw x) + zlen bl) (u32 (count + 1)) ltac:(lia) ltac:(lia)) as (r & -> & Hr).
  exists r. split; [done|]. destruct r as [[q cnt]|]; [|done].
  destruct Hr as (xs & last & -> & Hw & Hcnt). exists (x :: xs), last. split; [done|]. split.
  - rewrite <- Ha in *. econstructor; try done. unfold LP_HDR_SIZE. lia.
  - rewrite Hcnt, zlen_cons. unfold wrap. rewrite Zplus_mod_idemp_l. f_equal. lia.
Qed.

(** The checks of the header and of the terminator read inside the payload. *)
Lemma get32_some lp p : bytes_ok lp -> 0 <= p -> p + 4 <= zlen lp -> exists v, get32 lp p = Some v.
Proof.
  intros Hlp Hp Hl. unfold get32.
  destruct (mget_ok lp p Hlp ltac:(lia)) as (? & -> & _).
  destruct (mget_ok lp (p + 1) Hlp ltac:(lia)) as (? & -> & _).
  destruct (mget_ok lp (p + 2) Hlp ltac:(lia)) as (? & -> & _).
  destruct (mget_ok lp (p + 3) Hlp ltac:(lia)) as (? & -> & _). by eexists.
Qed.

Lemma get16_some lp p : bytes_ok lp -> 0 <= p -> p + 2 <= zlen lp -> exists v, get16 lp p = Some v.
Proof.
  intros Hlp Hp Hl. unfold get16.
  destruct (mget_ok lp p Hlp ltac:(lia)) as (? & -> & _).
  destruct (mget_ok lp (p + 1) Hlp ltac:(lia)) as (? & -> & _). by eexists.
Qed.

Lemma validate_total lp deep :
  bytes_ok lp -> exists ok, lpValidateIntegrity lp (zlen lp) deep None = Some ok /\
  (ok = true -> deep = true ->
     6 < zlen lp /\ lpGetTotalBytes lp = Some (zlen lp) /\ exists xs, walk lp (zlen lp - 1) 6 xs).
Proof.
  intros Hlp. unfold lpValidateIntegrity, LP_HDR_SIZE.
  destruct (Z.ltb_spec (zlen lp) (6 + 1)); [by exists false|].
  unfold lpGetTotalBytes, lpGetNumElements.
  destruct (get32_some lp 0 Hlp ltac:(lia) ltac:(lia)) as (tot & Htot). rewrite Htot. sbind.
  destruct (Z.eqb_spec tot (zlen lp)) as [->|]; cbn [negb]; [|by exists false].
  destruct (mget_ok lp (zlen lp - 1) Hlp ltac:(lia)) as (e & -> & _). sbind.
  destruct (e =? LP_EOF); cbn [negb]; [|by exists false].
  destruct deep; cbn [negb]; [|by exists true].
  destruct (get16_some lp 4 Hlp ltac:(lia) ltac:(lia)) as (num & ->). sbind.
  destruct (validate_loop_inv (S (length lp)) lp num 6 0 Hlp) as (r & -> & Hr);
    [lia|unfold zlen; lia|]. sbind.
  destruct r as [[q cnt]|]; [|by exists false]. destruct Hr as (xs & last & -> & Hw & _).
  case_bool_decide as Hlast; cbn [negb]; [|by exists false]. injection Hlast as ->.
  destruct (_ && _); eexists; (split; [done|]); intros; [done|]. split; [lia|]. eauto.
Qed.

(** ** Traversing what was accepted *)

Section accepted.
Context (lp : list Z) (last : Z).
Context (Htotal : lpGetTotalBytes lp = Some (last + 1)).

Lemma walk_inv p x xs : walk lp last p (x :: xs) ->
  exists a bl c, lp = a ++ e_raw x ++ bl ++ c /\ zlen a = p /\ 6 <= p /\ entry_ok x
    /\ zlen (ent_bytes x) = zlen (e_raw x) + zlen bl
    /\ zlen bl = lpEncodeBacklenBytes (zlen (e_raw x))
    /\ lpDecodeBacklen lp (p + zlen (ent_bytes x) - 1) = Some (zlen (e_raw x))
    /\ walk lp last (p + zlen (ent_bytes x)) xs.
Proof.
  inversion 1 as [|a x' bl c xs' Hlp Ha Hx Hbl Hdec Hw]; subst x' xs'. unfold LP_HDR_SIZE in *.
  exists a, bl, c. rewrite zlen_ent, <- Hbl, Z.add_assoc. repeat split; done || lia.
Qed.

Lemma walk_app pre post p : walk lp last p (pre ++ post) -> walk lp last (p + zlen (body pre)) post.
Proof.
  revert p. induction pre as [|x pre IH]; intros p Hw; [by rewrite Z.add_0_r|].
  apply walk_inv in Hw as (_ & _ & _ & _ & _ & _ & _ & _ & _ & _ & Hw). apply IH in Hw.
  by rewrite body_cons, zlen_app, Z.add_assoc.
Qed.

Lemma walk_last p xs : walk lp last p xs -> p + zlen (body xs) = last.
Proof.
  intros Hw. rewrite <- (app_nil_r xs) in Hw. apply walk_app in Hw. by inversion Hw.
Qed.

Lemma walk_mget p x xs : walk lp last p (x :: xs) -> exists b, mget lp p = Some b /\ b <> LP_EOF
  /\ 1 <= lpCurrentEncodedSizeBytes b <= zlen (e_raw x) /\ lpCurrentEncodedSizeUnsafe lp p = Some (zlen (e_raw x)).
Proof.
  intros (a & bl & c & Hlp & Ha & _ & Hx & _)%walk_inv.
  destruct (enc_of_first _ _ Hx) as (b & r' & Hr & _ & Hne & Hk & _). exists b.
  rewrite Hlp, <- Ha, mget_shift0, size_shift, (enc_size _ _ _ Hx). by rewrite Hr at 1.
Qed.

Lemma walk_valid p xs : walk lp last p xs -> 6 <= p -> lpAssertValidEntry lp (last + 1) p = Some ().
Proof.
  intros Hw Hp. pose proof (walk_last _ _ Hw) as Hlast. unfold lpAssertValidEntry, lpValidateNext.
  pose proof (zlen_nonneg (body xs)).
  assert (forall q, 6 <= q <= last -> (q <? LP_HDR_SIZE) || (q >? last + 1 - 1) = false) as Hin.
  { intros q Hq. unfold LP_HDR_SIZE. by zcase. }
  rewrite Hin by lia. destruct xs as [|x xs].
  - inversion Hw as [He|]; subst. by rewrite He.
  - destruct (walk_mget _ _ _ Hw) as (b & Hb & Hne & Hk & Hsize). rewrite Hb. sbind.
    destruct (Z.eqb_spec b LP_EOF) as [|_]; [done|].
    destruct (Z.eqb_spec (lpCurrentEncodedSizeBytes b) 0) as [|_]; [lia|].
    destruct (walk_inv _ _ _ Hw) as (a & bl & c & Hlp & Ha & _ & Hx & Hz & Hbl & Hdec & Hw').
    rewrite body_cons, zlen_app in Hlast. pose proof (zlen_nonneg (body xs)).
    pose proof (zlen_nonneg bl). rewrite Hin by lia. rewrite Hsize. sbind.
    rewrite <- Hbl, <- Hz, Hin by lia. rewrite Hdec. sbind.
    destruct (enc_of_first _ _ Hx) as (_ & _ & _ & _ & _ & _ & Hr). pose proof (raw_pos x Hx).
    pose proof (backlen_bytes_range (zlen (e_raw x))).
    rewrite wrap_small by lia. by rewrite <- Hz, Z.eqb_refl.
Qed.

Lemma walk_land p xs : walk lp last p xs -> 6 <= p ->
  (b ← mget lp p;
   if b =? LP_EOF then Some None
   else lpbytes ← lpBytes lp; _ ← lpAssertValidEntry lp lpbytes p; Some (Some p)) =
    Some (match xs with [] => None | _ => Some p end).
Proof.
  intros Hw Hp. destruct xs as [|x xs].
  - inversion Hw as [He|]; subst. by rewrite He.
  - destruct (walk_mget _ _ _ Hw) as (b & Hb & Hne & _). rewrite Hb. sbind.
    destruct (Z.eqb_spec b LP_EOF) as [|_]; [done|]. unfold lpBytes. rewrite Htotal. sbind.
    by rewrite (walk_valid _ _ Hw Hp).
Qed.

Lemma walk_next p x xs : walk lp last p (x :: xs) ->
  lpNext lp p = Some (match xs with [] => None | _ => Some (p + zlen (ent_bytes x)) end).
Proof.
  intros Hw. destruct (walk_mget _ _ _ Hw) as (b & _ & _ & _ & Hsize).
  destruct (walk_inv _ _ _ Hw) as (a & bl & c & _ & _ & Hp & _ & Hz & Hbl & _ & Hw').
  unfold lpNext, lpSkip. rewrite Hsize. sbind. rewrite <- Hbl, <- Hz. apply walk_land; [done|].
  pose proof (zlen_nonneg (ent_bytes x)). lia.
Qed.

Lemma walk_prev p x xs : walk lp last p (x :: xs) -> lpPrev lp (p + zlen (ent_bytes x)) = Some (Some p).
Proof.
  intros Hw. destruct (walk_inv _ _ _ Hw) as (a & bl & c & _ & _ & Hp & Hx & Hz & Hbl & Hdec & _).
  destruct (enc_of_first _ _ Hx) as (_ & _ & _ & _ & _ & _ & Hr). pose proof (raw_pos x Hx).
  pose proof (backlen_bytes_range (zlen (e_raw x))).
  unfold lpPrev, LP_HDR_SIZE. destruct (Z.eqb_spec (p + zlen (ent_bytes x)) 6); [lia|].
  rewrite Hdec. sbind. rewrite wrap_small by lia.
  replace (p + zlen (ent_bytes x) - 1 - (zlen (e_raw x) + lpEncodeBacklenBytes (zlen (e_raw x)) - 1))
    with p by lia.
  unfold lpBytes. rewrite Htotal. sbind. by rewrite (walk_valid _ _ Hw Hp).
Qed.

Lemma walk_get p x xs intbuf : walk lp last p (x :: xs) ->
  lpGet lp p intbuf = get_result p (e_val x) (e_raw x) intbuf
  /\ forall s, e_val x = EStr s -> mread lp (p + (zlen (e_raw x) - zlen s)) (zlen s) = Some s.
Proof.
  intros (a & bl & c & Hlp & Ha & _ & Hx & _)%walk_inv. split.
  - unfold lpGet. rewrite Hlp, <- Ha. by apply getWithBuf_spec.
  - intros s Hs. unfold entry_ok in Hx. rewrite Hs in Hx. destruct Hx as (h & _ & Hr & _).
    rewrite Hlp, Hr, <- !app_assoc, (app_assoc a h). apply mread_app; [|done]. zlen_solve.
Qed.
End accepted.

(** C18: the validation of arbitrary bytes never reads out of them, and a payload
    that passes the deep validation is a sequence of entries: lpFirst, lpNext and
    lpPrev walk it in both directions without failing an assertion, the getters
    decode every entry, and the bytes of a string entry are inside the payload. *)
Theorem lpValidateIntegrity_sound lp deep :
  bytes_ok lp ->
  exists ok, lpValidateIntegrity lp (zlen lp) deep None = Some ok /\
  (ok = true -> deep = true ->
   exists xs, off xs + 1 = zlen lp /\ lpFirst lp = Some (ptr [] xs) /\
   forall pre x post, xs = pre ++ x :: post ->
     lpNext lp (off pre) = Some (ptr (pre ++ [x]) post)
     /\ lpPrev lp (off (pre ++ [x])) = Some (Some (off pre))
     /\ (forall intbuf, lpGet lp (off pre) intbuf = get_result (off pre) (e_val x) (e_raw x) intbuf)
     /\ (forall s, e_val x = EStr s ->
           mread lp (off pre + (zlen (e_raw x) - zlen s)) (zlen s) = Some s)).
Proof.
  intros Hlp. destruct (validate_total lp deep Hlp) as (ok & Hok & Hgood). exists ok. split; [done|].
  intros H1 H2. destruct (Hgood H1 H2) as (Hlen & Htot & xs & Hw). exists xs.
  pose proof (walk_last _ _ _ _ Hw). unfold off at 1, LP_HDR_SIZE. split; [lia|].
  assert (Htot' : lpGetTotalBytes lp = Some (zlen lp - 1 + 1)) by (rewrite Htot; f_equal; lia). split.
  - pose proof (walk_land lp _ Htot' 6 xs Hw ltac:(lia)) as Hland. by destruct xs.
  - intros pre x post ->. apply walk_app in Hw. rewrite off_snoc.
    change (6 + zlen (body pre)) with (off pre) in Hw.
    rewrite (walk_next lp _ Htot' _ _ _ Hw), (walk_prev lp _ Htot' _ _ _ Hw).
    split; [unfold ptr; by rewrite off_snoc|]. split; [done|].
    split; [intros buf; by apply (walk_get lp _ _ _ _ buf Hw)|by apply (walk_get lp _ _ _ _ None Hw)].
Qed.

(** Every well-formed listpack passes the validation, deep or not, with a
    count in the header or with the marker for an unknown one. *)
Theorem lpValidateIntegrity_complete lp xs deep :
  lp_rep lp xs -> lpValidateIntegrity lp (off xs + 1) deep None = Some true.
Proof. apply validate_complete. Qed.

(** A payload whose only entry is the empty string with the backward length
    0x81: read backwards, the length goes on into the entry and then into the
    high byte of the element count, which is 0. *)
Definition spill_payload : list Z := [9; 0; 0; 0; 1; 0; 128; 129; 255].

(** It passes the deep validation, and after an element is put in front of it the
    assertion of lpLast fails. *)
Example lpValidateIntegrity_spill :
  lpValidateIntegrity spill_payload (zlen spill_payload) true None = Some true /\
  exists lp, lpPrepend (fun n => n) (fun _ => 0) spill_payload (str "a") = Some (Some lp)
    /\ lpValidateIntegrity lp (zlen lp) true None = Some false /\ lpLast lp = None.
Proof. split; [by vm_compute|]. eexists. split; [by vm_compute|]. split; by vm_compute. Qed.

(** ** Concrete runs *)

Lemma lpValidateIntegrity_sound_witness :
  bytes_ok (mk_lp sample_entries) /\
  exists xs, off xs + 1 = zlen (mk_lp sample_entries) /\
    lpFirst (mk_lp sample_entries) = Some (ptr [] xs).
Proof.
  assert (Hb : bytes_ok (mk_lp sample_entries)) by (by apply (bool_decide_unpack _); vm_compute).
  split; [exact Hb|].
  destruct (lpValidateIntegrity_sound (mk_lp sample_entries) true Hb) as (ok & Hok & H).
  assert (ok = true) as Ht by (vm_compute in Hok; congruence).
  destruct (H Ht eq_refl) as (xs & Hoff & Hfirst & _). exists xs. split; [exact Hoff|exact Hfirst].
Defined.

Lemma lpValidateIntegrity_complete_witness :
  lp_rep (mk_lp sample_entries) sample_entries /\
  lpValidateIntegrity (mk_lp sample_entries) (off sample_entries + 1) true None = Some true.
Proof.
  assert (H : lp_rep (mk_lp sample_entries) sample_entries)
    by (exact sample_rep).
  split; [exact H|]. exact (lpValidateIntegrity_complete _ _ true H).
Defined.
