(* ===== verification/ListpackUpd.v ===== *)
(** * listpack.c: updates

    Insertion, replacement, deletion, deletion of ranges, merging and duplication
    change the represented list as their names say, whatever the allocator
    returns beyond the requested size and whatever its memory holds; an update
    that would pass the 32-bit size limit returns null. *)

From S2P Require Import Prelude Util Listpack ListpackSpec ListpackNav.

Lemma zrealloc_keep fresh m1 m2 n :
  zlen m1 <= n -> exists s, zrealloc fresh (m1 ++ m2) n = m1 ++ s /\ zlen s = n - zlen m1.
Proof.
  intros Hn. unfold zrealloc. rewrite take_app_ge by (unfold zlen in Hn; lia). rewrite <- app_assoc.
  eexists. split; [done|]. unfold zlen in *. rewrite length_app, length_take, length_fmap, length_seq, length_app. lia.
Qed.

Lemma mwrite_front b c b' : zlen b' = zlen b -> mwrite (b ++ c) 0 b' = Some (b' ++ c).
Proof. intros H. apply (mwrite_app [] b c b'); [done|]. unfold zlen in H. lia. Qed.

(** What an element to insert is: [e] for the arguments [elestr] and [eleint]. *)
Inductive elem_args : option (list Z) -> option (list Z) -> lpe -> Prop :=
  | args_str s eleint : bytes_ok s -> zlen s < 2 ^ 32 -> elem_args (Some s) eleint (val_of s)
  | args_int v : in_signed 64 v -> elem_args None (Some (lpEncodeIntegerGetType v)) (EInt v).

Lemma val_of_ok s : bytes_ok s -> zlen (enc (val_of s)) < 2 ^ 32 -> lpe_ok (val_of s).
Proof.
  intros Hs. unfold val_of. destruct (lpStringToInt64 s) as [v|] eqn:Hv; cbn [lpe_ok].
  - by apply lpStringToInt64_iff in Hv as [? _].
  - cbn [enc]. rewrite zlen_app. unfold str_hdr. repeat case_match; rewrite ?zlen_cons;
      change (zlen (@nil Z)) with 0; repeat match goal with H : (_ <? _) = _ |- _ =>
        apply Z.ltb_lt in H || apply Z.ltb_ge in H end; intros; split; done || lia.
Qed.

Lemma args_ok elestr eleint e :
  elem_args elestr eleint e -> zlen (enc e) < 2 ^ 32 -> lpe_ok e.
Proof. intros []; [by apply val_of_ok|done]. Qed.

(** The sizes: an encoded element takes at most five bytes more than its text. *)
Lemma args_size elestr eleint e : elem_args elestr eleint e -> 0 <= zlen (enc e) < 2 ^ 32 + 16.
Proof.
  intros [s ? Hs Hl|v Hv]; (split; [apply zlen_nonneg|]).
  - unfold val_of. destruct (lpStringToInt64 s) as [v|] eqn:Hv; cbn [enc].
    + apply lpStringToInt64_iff in Hv as [Hv _].
      destruct (int_encP v Hv); rewrite ?zlen_cons, ?zlen_le_enc; change (zlen (@nil Z)) with 0; lia.
    + rewrite zlen_app. destruct (str_encP (zlen s) (zlen_nonneg s));
        rewrite ?zlen_cons, ?zlen_le_enc; change (zlen (@nil Z)) with 0; lia.
  - cbn [enc]. destruct (int_encP v Hv); rewrite ?zlen_cons, ?zlen_le_enc; change (zlen (@nil Z)) with 0; lia.
Qed.

Lemma encodeGetType_spec s :
  lpEncodeGetType s = match lpStringToInt64 s with
                      | Some v => inl (lpEncodeIntegerGetType v)
                      | None => inr (zlen (enc (EStr s)))
                      end.
Proof.
  unfold lpEncodeGetType. destruct (lpStringToInt64 s); [done|]. cbn [enc]. rewrite zlen_app.
  unfold str_hdr. by repeat case_match.
Qed.

Lemma mwrite_two a o1 o2 c b1 b2 m1 :
  zlen b1 = zlen o1 -> zlen b2 = zlen o2 ->
  mwrite (a ++ o1 ++ o2 ++ c) (zlen a) b1 = Some m1 ->
  mwrite m1 (zlen a + zlen b1) b2 = Some (a ++ b1 ++ b2 ++ c).
Proof.
  intros H1 H2. rewrite mwrite_app by (unfold zlen in *; done || lia). intros [= <-].
  rewrite !(app_assoc a b1). apply mwrite_app; [by rewrite zlen_app|unfold zlen in *; lia].
Qed.

Lemma encodeString_spec a o c s :
  zlen o = zlen (enc (EStr s)) -> lpEncodeString (a ++ o ++ c) (zlen a) s = Some (a ++ enc (EStr s) ++ c).
Proof.
  cbn [enc]. intros Ho. rewrite zlen_app in Ho. pose proof (zlen_nonneg s).
  destruct (split_zlen o (zlen (str_hdr (zlen s)))) as (o1 & o2 & -> & Ho1).
  { pose proof (zlen_nonneg (str_hdr (zlen s))). lia. }
  rewrite zlen_app in Ho. rewrite <- !app_assoc.
  assert (Hw : forall m, mwrite (a ++ o1 ++ o2 ++ c) (zlen a) (str_hdr (zlen s)) = Some m ->
    mwrite m (zlen a + zlen (str_hdr (zlen s))) s = Some (a ++ str_hdr (zlen s) ++ s ++ c)).
  { intros m. apply mwrite_two; lia. }
  rewrite mwrite_app in Hw by (unfold zlen in *; done || lia). specialize (Hw _ eq_refl). revert Hw.
  pose proof (mwrite_app a o1 (o2 ++ c) (str_hdr (zlen s)) (zlen a) eq_refl) as Hw1. revert Hw1.
  unfold lpEncodeString, str_hdr in *.
  destruct (zlen s <? 64), (zlen s <? 4096); intros Hw1 Hw;
    (rewrite Hw1 by (unfold zlen in *; simpl in *; lia)); exact Hw.
Qed.

Section updates.
Context (usable : Z -> Z) (fresh : nat -> Z).
(** An allocator returns at least what is asked for. *)
Context (Husable : forall n, n <= usable n).

(** *** Room for an element *)

Lemma memmove_room a o b s w :
  0 <= w -> w + zlen b <= zlen o + zlen b + zlen s ->
  exists o' s', zlen o' = w /\ zlen s' = zlen s + zlen o - w /\
    memmove (a ++ o ++ b ++ s) (zlen a + w) (zlen a + zlen o) (zlen b) = Some (a ++ o' ++ b ++ s').
Proof.
  intros Hw Hfit. pose proof (zlen_nonneg b).
  destruct (split_zlen (o ++ b ++ s) w) as (o' & r & Hr & Ho'); [zlen_solve|].
  assert (Hz : zlen o + zlen b + zlen s = w + zlen r).
  { apply (f_equal zlen) in Hr. rewrite !zlen_app in Hr. lia. }
  destruct (split_zlen r (zlen b)) as (b' & s' & -> & Hb'); [lia|]. rewrite zlen_app in Hz.
  exists o', s'. split; [done|]. split; [lia|].
  erewrite (memmove_app _ (a ++ o) b s (a ++ o') b' s').
  - by rewrite <- app_assoc.
  - by rewrite <- !app_assoc.
  - by rewrite Hr, <- !app_assoc.
  - by rewrite zlen_app.
  - by rewrite zlen_app, Ho'.
  - done.
  - done.
Qed.

Lemma make_room a o b s w (old := zlen a + zlen o + zlen b) (new := old + w - zlen o)
    (lp := a ++ o ++ b ++ s) :
  0 <= w ->
  exists o' s' m, zlen o' = w /\
    memmove (if (new >? old) && (new >? lp_malloc_size lp) then lp_realloc usable fresh lp new else lp)
      (zlen a + w) (zlen a + zlen o) (old - zlen a - zlen o) = Some m /\
    (if new <? old then lp_realloc usable fresh m new else m) = a ++ o' ++ b ++ s'.
Proof.
  intros Hw. pose proof (zlen_nonneg a). pose proof (zlen_nonneg o). pose proof (zlen_nonneg b).
  assert (exists s1, (if (new >? old) && (new >? lp_malloc_size lp) then lp_realloc usable fresh lp new else lp)
    = a ++ o ++ b ++ s1 /\ w + zlen b <= zlen o + zlen b + zlen s1) as (s1 & -> & Hs1).
  { destruct (Z.gtb_spec new old); cbn [andb]; [|exists s; split; [done|pose proof (zlen_nonneg s); lia]].
    unfold lp_malloc_size. assert (zlen lp = old + zlen s) as Hlp
      by (subst lp old; rewrite !zlen_app; lia).
    destruct (Z.gtb_spec new (zlen lp)); [|exists s; split; [done|lia]].
    unfold lp_realloc. replace lp with ((a ++ o ++ b) ++ s) by (by subst lp; rewrite <- !app_assoc).
    specialize (Husable new).
    destruct (zrealloc_keep fresh (a ++ o ++ b) s (usable new)) as (s1 & -> & Hs1).
    { rewrite !zlen_app. lia. }
    exists s1. rewrite <- !app_assoc. rewrite !zlen_app in Hs1. split; [done|]. lia. }
  replace (old - zlen a - zlen o) with (zlen b) by lia.
  destruct (memmove_room a o b s1 w Hw Hs1) as (o' & s' & Ho' & _ & ->).
  destruct (Z.ltb_spec new old); [|by exists o', s', (a ++ o' ++ b ++ s')].
  unfold lp_realloc. specialize (Husable new).
  destruct (zrealloc_keep fresh (a ++ o' ++ b) s' (usable new)) as (s2 & Hs2 & _).
  { rewrite !zlen_app. lia. }
  rewrite <- !app_assoc in Hs2. exists o', s2. eexists. split; [done|]. split; [done|]. by rewrite Hs2.
Qed.

(** *** Storing the element *)

(** The encoded integer the code copies, when there is one. *)
Definition intenc_of (elestr eleint : option (list Z)) : option (list Z) :=
  match elestr with
  | Some s => match lpEncodeGetType s with inl i => Some i | inr _ => None end
  | None => eleint
  end.

Lemma store_element elestr eleint e a o c :
  elem_args elestr eleint e -> zlen o = zlen (enc e) ->
  match intenc_of elestr eleint, elestr with
  | Some intenc, _ => mwrite (a ++ o ++ c) (zlen a) intenc
  | None, Some s => lpEncodeString (a ++ o ++ c) (zlen a) s
  | None, None => None
  end = Some (a ++ enc e ++ c).
Proof.
  intros Hargs Ho. destruct Hargs as [s ? _ _|v _]; cbn [intenc_of].
  - rewrite encodeGetType_spec. revert Ho. unfold val_of. destruct (lpStringToInt64 s) as [v|]; intros Ho.
    + apply mwrite_app; [done|]. cbn [enc] in *. unfold zlen in Ho. lia.
    + by apply encodeString_spec.
  - apply mwrite_app; [done|]. cbn [enc] in *. unfold zlen in Ho. lia.
Qed.

Lemma args_enclen elestr eleint e :
  elem_args elestr eleint e ->
  (match elestr, eleint with
   | Some s, _ => match lpEncodeGetType s with
                  | inl intenc => (Some intenc, zlen intenc)
                  | inr enclen => (None, enclen)
                  end
   | None, Some intenc => (Some intenc, zlen intenc)
   | None, None => (None, 0)
   end) = (intenc_of elestr eleint, zlen (enc e)).
Proof.
  intros [s ? _ _|v _]; cbn [intenc_of]; [|done].
  rewrite encodeGetType_spec. unfold val_of. by destruct (lpStringToInt64 s).
Qed.

(** *** Insertion and replacement *)

Lemma replaced_at lp xs x ys :
  lp_rep lp (xs ++ x :: ys) ->
  (n ← lpCurrentEncodedSizeUnsafe lp (off xs);
   let n := u32 (n + lpEncodeBacklenBytes n) in
   _ ← ASSERT_INTEGRITY_LEN lp (off xs) n; Some n) = Some (zlen (ent_bytes x)).
Proof.
  intros Hrep. rewrite (size_at lp xs x ys Hrep). sbind. cbv zeta. rewrite <- zlen_ent.
  pose proof (at_bound xs x ys). pose proof (off_ge xs). pose proof (zlen_nonneg (ent_bytes x)).
  assert (off (xs ++ x :: ys) + 1 < 2 ^ 32) by (by destruct Hrep as (? & ? & _ & _ & ? & _)).
  rewrite wrap_small by lia. unfold ASSERT_INTEGRITY_LEN. rewrite (rep_total _ _ Hrep). sbind.
  unfold LP_HDR_SIZE. by zcase.
Qed.

Lemma args_not_delete elestr eleint e :
  elem_args elestr eleint e -> bool_decide (elestr = None) && bool_decide (eleint = None) = false.
Proof. by intros []. Qed.

(** The element count after a change of the number of entries by one. *)
Lemma numele_get t num rest :
  0 <= num < 2 ^ 16 -> lpGetNumElements (header t num ++ rest) = Some num.
Proof.
  intros Hn. unfold lpGetNumElements, header. rewrite <- app_assoc.
  pose proof (get16_shift (le_enc 4 t) (le_enc 2 num ++ rest) 0 ltac:(lia)) as H.
  rewrite get16_enc in H. change 4 with (zlen (le_enc 4 t) + 0). by rewrite H, wrap_small.
Qed.

Definition count_ok (num : Z) (xs : list entry) : Prop :=
  num = LP_HDR_NUMELE_UNKNOWN \/ num = zlen xs /\ zlen xs < LP_HDR_NUMELE_UNKNOWN.

Lemma count_ok_range num xs : count_ok num xs -> 0 <= num < 2 ^ 16.
Proof. unfold count_ok, LP_HDR_NUMELE_UNKNOWN. pose proof (zlen_nonneg xs). lia. Qed.

(** How an update touches the list: [mid] is replaced by [new]. *)
Inductive splice : where_t -> list entry -> Prop :=
  | splice_before : splice LP_BEFORE []
  | splice_replace x : splice LP_REPLACE [x].

Lemma insert_numele t num rest xs mid ys e where_ :
  splice where_ mid -> count_ok num (xs ++ mid ++ ys) ->
  exists num', (if bool_decide (where_ ≠ LP_REPLACE) || false then
      num_elements ← lpGetNumElements (header t num ++ rest);
      if negb (num_elements =? LP_HDR_NUMELE_UNKNOWN)
      then lpSetNumElements (header t num ++ rest) (num_elements + 1)
      else Some (header t num ++ rest)
    else Some (header t num ++ rest)) = Some (header t num' ++ rest)
    /\ count_ok num' (xs ++ e :: ys).
Proof.
  intros Hs Hc. rewrite numele_get by (by eapply count_ok_range). unfold count_ok in *.
  destruct Hs as [|x].
  - rewrite bool_decide_eq_true_2 by done. cbn [orb app] in *. sbind.
    rewrite !zlen_app, !zlen_cons in *.
    destruct (Z.eqb_spec num LP_HDR_NUMELE_UNKNOWN); cbn [negb].
    + exists num. auto.
    + rewrite set_numele. exists (num + 1). split; [done|]. lia.
  - rewrite bool_decide_eq_false_2 by (intros H; by apply H). cbn [orb]. exists num.
    rewrite !zlen_app, !zlen_cons in *. change (zlen (@nil entry)) with 0 in *. split; [done|]. lia.
Qed.

Lemma splice_replaced lp xs mid ys where_ :
  lp_rep lp (xs ++ mid ++ ys) -> splice where_ mid ->
  (if bool_decide (where_ = LP_REPLACE) then
     n ← lpCurrentEncodedSizeUnsafe lp (off xs);
     let n := u32 (n + lpEncodeBacklenBytes n) in
     _ ← ASSERT_INTEGRITY_LEN lp (off xs) n; Some n
   else Some 0) = Some (zlen (body mid)).
Proof.
  intros Hrep Hs. destruct Hs as [|x]; [done|]. rewrite bool_decide_eq_true_2 by done.
  rewrite (replaced_at lp xs x ys Hrep). by rewrite body_cons, app_nil_r.
Qed.

Lemma splice_move m dst w old mid where_ :
  splice where_ mid ->
  (if bool_decide (where_ = LP_BEFORE) then memmove m (dst + w) dst (old - dst)
   else memmove m (dst + w) (dst + zlen (body mid)) (old - dst - zlen (body mid))) =
  memmove m (dst + w) (dst + zlen (body mid)) (old - dst - zlen (body mid)).
Proof.
  intros [|x]; [|done]. rewrite bool_decide_eq_true_2 by done.
  change (zlen (body [])) with 0. by rewrite Z.add_0_r, Z.sub_0_r.
Qed.

(** The end of an insertion: the element is stored in the room [o], then the
    header is updated. *)
Lemma finish_insert t num xs mid ys elestr eleint e o s where_ new
    (a := header t num ++ body xs) :
  elem_args elestr eleint e -> splice where_ mid -> Forall entry_ok (xs ++ mid ++ ys) ->
  count_ok num (xs ++ mid ++ ys) -> zlen o = zlen (ent_bytes (canon e)) ->
  new = off xs + zlen (ent_bytes (canon e)) + zlen (body ys) + 1 -> new <= UINT32_MAX ->
  exists lp',
    (lp ← (lp ← match intenc_of elestr eleint, elestr with
          | Some intenc, _ => mwrite (a ++ o ++ (body ys ++ [LP_EOF]) ++ s) (off xs) intenc
          | None, Some str => lpEncodeString (a ++ o ++ (body ys ++ [LP_EOF]) ++ s) (off xs) str
          | None, None => None
          end;
           mwrite lp (off xs + zlen (enc e)) (lpEncodeBacklen (zlen (enc e))));
     lp ← (if bool_decide (where_ ≠ LP_REPLACE) || false then
             num_elements ← lpGetNumElements lp;
             if negb (num_elements =? LP_HDR_NUMELE_UNKNOWN)
             then lpSetNumElements lp (num_elements + 1) else Some lp
           else Some lp);
     lp ← lpSetTotalBytes lp new;
     Some (Some (lp, Some (off xs)))) = Some (Some (lp', Some (off xs)))
    /\ lp_rep lp' (xs ++ canon e :: ys).
Proof.
  intros Hargs Hs Hok Hcount Ho Hnew Hfit.
  pose proof (zlen_ent (canon e)) as Hent. cbn [canon e_raw] in Hent.
  pose proof (backlen_bytes_range (zlen (enc e))). pose proof (zlen_nonneg (enc e)).
  assert (Ha : zlen a = off xs) by (subst a; by rewrite zlen_app, zlen_header).
  destruct (split_zlen o (zlen (enc e)) ltac:(lia)) as (o1 & o2 & -> & Ho1).
  rewrite zlen_app in Ho. rewrite <- (app_assoc o1), <- Ha.
  rewrite (store_element elestr eleint e a o1 _ Hargs Ho1). sbind.
  rewrite (app_assoc a (enc e)). rewrite mwrite_app; [|by rewrite zlen_app|].
  2: { pose proof (zlen_backlen (zlen (enc e))). unfold zlen in *. lia. }
  sbind. subst a. rewrite <- !app_assoc.
  destruct (insert_numele t num (body xs ++ enc e ++ lpEncodeBacklen (zlen (enc e)) ++ body ys ++ [LP_EOF] ++ s)
    xs mid ys (canon e) where_ Hs Hcount) as (num' & -> & Hcount'). sbind. rewrite set_total. sbind.
  eexists. split; [done|].
  assert (Hoff : off (xs ++ canon e :: ys) + 1 = new) by (rewrite off_app, body_cons, zlen_app; lia).
  exists num', s. rewrite Hoff. split; [|split; [|split]].
  - rewrite body_app, body_cons. unfold ent_bytes. cbn [canon e_raw]. by rewrite <- !app_assoc.
  - rewrite !Forall_app in Hok. rewrite Forall_app, Forall_cons. repeat split; try tauto.
    apply canon_ok. eapply args_ok; [done|]. pose proof (off_ge xs). pose proof (zlen_nonneg (body ys)).
    unfold UINT32_MAX in Hfit. lia.
  - unfold UINT32_MAX in Hfit. lia.
  - exact Hcount'.
Qed.

Lemma insert_splice lp xs mid ys elestr eleint e where_
    (new := off (xs ++ mid ++ ys) + 1 + zlen (ent_bytes (canon e)) - zlen (body mid)) :
  lp_rep lp (xs ++ mid ++ ys) -> elem_args elestr eleint e -> splice where_ mid ->
  exists r, lpInsert usable fresh lp elestr eleint (off xs) where_ = Some r /\
    if new >? UINT32_MAX then r = None
    else exists lp', r = Some (lp', Some (off xs)) /\ lp_rep lp' (xs ++ canon e :: ys).
Proof.
  intros Hrep Hargs Hs. unfold lpInsert. rewrite (args_not_delete _ _ _ Hargs). cbv zeta.
  replace (if bool_decide (where_ = LP_AFTER) then _ else Some (off xs, where_))
    with (Some (off xs, where_)) by (by destruct Hs). sbind.
  rewrite (args_enclen _ _ _ Hargs). cbn [negb].
  rewrite (rep_total _ _ Hrep). sbind. pose proof (splice_replaced lp xs mid ys where_ Hrep Hs) as Hrl.
  cbv zeta in Hrl. rewrite Hrl. sbind.
  pose proof (args_size _ _ _ Hargs) as Hsz.
  pose proof (zlen_ent (canon e)) as Hent. cbn [canon e_raw] in Hent.
  pose proof (backlen_bytes_range (zlen (enc e))) as Hbl. rewrite zlen_backlen.
  pose proof (off_ge xs) as Hoff.
  assert (Ho : off (xs ++ mid ++ ys) = off xs + zlen (body mid) + zlen (body ys))
    by (rewrite !off_app, body_app, zlen_app; lia).
  pose proof (zlen_nonneg (body mid)). pose proof (zlen_nonneg (body ys)).
  assert (Hnum := Hrep). destruct Hnum as (num & slack & Hlp & Hok & Htot & Hcount).
  rewrite (wrap_small 64) by lia.
  replace (off (xs ++ mid ++ ys) + 1 + zlen (enc e) + lpEncodeBacklenBytes (zlen (enc e)) - zlen (body mid))
    with new by (subst new; lia).
  destruct (Z.gtb_spec new UINT32_MAX) as [Hbig|Hfit]; [by exists None|].
  (* the room *)
  set (a := header (off (xs ++ mid ++ ys) + 1) num ++ body xs).
  assert (Ha : zlen a = off xs) by (subst a; by rewrite zlen_app, zlen_header).
  assert (Hlp' : lp = a ++ body mid ++ (body ys ++ [LP_EOF]) ++ slack).
  { subst a. rewrite Hlp, !body_app, <- !app_assoc. done. }
  destruct (make_room a (body mid) (body ys ++ [LP_EOF]) slack (zlen (ent_bytes (canon e))))
    as (o' & s' & m & Ho' & Hmove & Hshrink); [lia|].
  rewrite <- Hlp' in Hmove. rewrite Ha, zlen_app, zlen_cons in Hmove, Hshrink. change (zlen (@nil Z)) with 0 in *.
  replace (off xs + zlen (body mid) + (zlen (body ys) + (1 + 0))) with (off (xs ++ mid ++ ys) + 1)
    in Hmove, Hshrink by lia. fold new in Hmove, Hshrink.
  rewrite <- (Z.add_assoc (off xs) (zlen (enc e))), <- Hent, splice_move by done. rewrite Hmove. sbind.
  rewrite Hshrink.
  (* the element *)
  destruct (finish_insert (off (xs ++ mid ++ ys) + 1) num xs mid ys elestr eleint e o' s' where_ new)
    as (lp' & Hfin & Hrep'); try done; [lia..|].
  fold a in Hfin. rewrite Hfin. eauto.
Qed.

(** What an insertion returns: the list [zs] with the new entry at [p], or null. *)
Definition insert_result (r : option (list Z * option Z)) (p : Z) (zs : list entry) : Prop :=
  if off zs + 1 >? UINT32_MAX then r = None
  else exists lp', r = Some (lp', Some p) /\ lp_rep lp' zs.

Lemma insert_splice' lp xs mid ys elestr eleint e where_ :
  lp_rep lp (xs ++ mid ++ ys) -> elem_args elestr eleint e -> splice where_ mid ->
  exists r, lpInsert usable fresh lp elestr eleint (off xs) where_ = Some r /\
    insert_result r (off xs) (xs ++ canon e :: ys).
Proof.
  intros Hrep Hargs Hs. destruct (insert_splice lp xs mid ys elestr eleint e where_ Hrep Hargs Hs)
    as (r & Hr & Hres). exists r. split; [done|]. unfold insert_result.
  replace (off (xs ++ canon e :: ys) + 1)
    with (off (xs ++ mid ++ ys) + 1 + zlen (ent_bytes (canon e)) - zlen (body mid)); [done|].
  rewrite !off_app, body_cons, body_app, !zlen_app. lia.
Qed.

Lemma insert_after lp xs x ys elestr eleint e :
  lp_rep lp (xs ++ x :: ys) -> elem_args elestr eleint e ->
  lpInsert usable fresh lp elestr eleint (off xs) LP_AFTER =
  lpInsert usable fresh lp elestr eleint (off (xs ++ [x])) LP_BEFORE.
Proof.
  intros Hrep Hargs. unfold lpInsert. rewrite (args_not_delete _ _ _ Hargs). cbv zeta.
  rewrite (bool_decide_eq_true_2 (LP_AFTER = LP_AFTER)) by done.
  rewrite (bool_decide_eq_false_2 (LP_BEFORE = LP_AFTER)) by done.
  rewrite (skip_at lp xs x ys Hrep). sbind.
  assert (ASSERT_INTEGRITY lp (off (xs ++ [x])) = Some ()) as ->; [|done].
  unfold ASSERT_INTEGRITY. rewrite (rep_total _ _ Hrep). sbind.
  pose proof (off_ge (xs ++ [x])). pose proof (at_bound xs x ys). pose proof (off_snoc xs x).
  unfold LP_HDR_SIZE. by zcase.
Qed.

(** *** Deletion *)

Lemma delete_numele t num rest xs x ys :
  count_ok num (xs ++ x :: ys) ->
  exists num', (num_elements ← lpGetNumElements (header t num ++ rest);
      if negb (num_elements =? LP_HDR_NUMELE_UNKNOWN)
      then lpSetNumElements (header t num ++ rest) (u32 (num_elements - 1))
      else Some (header t num ++ rest)) = Some (header t num' ++ rest)
    /\ count_ok num' (xs ++ ys).
Proof.
  intros Hc. rewrite numele_get by (by eapply count_ok_range). sbind. unfold count_ok in *.
  rewrite !zlen_app, zlen_cons in *. pose proof (zlen_nonneg xs). pose proof (zlen_nonneg ys).
  unfold LP_HDR_NUMELE_UNKNOWN in *.
  destruct (Z.eqb_spec num 65535); cbn [negb]; [exists num; auto|].
  rewrite set_numele, wrap_small by lia. exists (num - 1). split; [done|]. lia.
Qed.

Lemma landing a xs ys s :
  Forall entry_ok ys -> zlen a = off xs ->
  (d0 ← mget (a ++ (body ys ++ [LP_EOF]) ++ s) (off xs);
   Some (if d0 =? LP_EOF then None else Some (off xs))) = Some (ptr xs ys).
Proof.
  intros Hok Ha. rewrite <- Ha. destruct ys as [|y ys]; cbn [ptr].
  - change (body []) with (@nil Z). cbn [app]. by rewrite mget_app.
  - apply Forall_cons in Hok as [Hy _]. rewrite body_cons, <- !app_assoc.
    destruct (mget_entry a y (body ys ++ [LP_EOF] ++ s) Hy) as (b & -> & _ & Hne & _). sbind.
    destruct (Z.eqb_spec b LP_EOF); [done|]. by rewrite Ha.
Qed.

Lemma finish_delete t num xs x ys s new (a := header t num ++ body xs) :
  Forall entry_ok (xs ++ x :: ys) -> count_ok num (xs ++ x :: ys) ->
  new = off xs + zlen (body ys) + 1 -> new < 2 ^ 32 ->
  exists lp',
    (newp ← (d0 ← mget (a ++ (body ys ++ [LP_EOF]) ++ s) (off xs);
             Some (if d0 =? LP_EOF then None else Some (off xs)));
     lp ← (num_elements ← lpGetNumElements (a ++ (body ys ++ [LP_EOF]) ++ s);
           if negb (num_elements =? LP_HDR_NUMELE_UNKNOWN)
           then lpSetNumElements (a ++ (body ys ++ [LP_EOF]) ++ s) (u32 (num_elements - 1))
           else Some (a ++ (body ys ++ [LP_EOF]) ++ s));
     lp ← lpSetTotalBytes lp new;
     Some (Some (lp, newp))) = Some (Some (lp', ptr xs ys))
    /\ lp_rep lp' (xs ++ ys).
Proof.
  intros Hok Hcount Hnew Hfit. rewrite Forall_app, Forall_cons in Hok. destruct Hok as (Hxs & _ & Hys).
  rewrite landing; [|done|subst a; by rewrite zlen_app, zlen_header]. sbind.
  subst a. rewrite <- !app_assoc.
  destruct (delete_numele t num (body xs ++ body ys ++ [LP_EOF] ++ s) xs x ys Hcount)
    as (num' & -> & Hcount'). sbind. rewrite set_total. sbind. eexists. split; [done|].
  exists num', s. rewrite off_app, body_app, <- !app_assoc. split; [by rewrite Hnew|].
  split; [by apply Forall_app|]. split; [lia|exact Hcount'].
Qed.

Lemma delete_spec lp xs x ys where_ :
  lp_rep lp (xs ++ x :: ys) ->
  exists lp', lpInsert usable fresh lp None None (off xs) where_ = Some (Some (lp', ptr xs ys))
    /\ lp_rep lp' (xs ++ ys).
Proof.
  intros Hrep. unfold lpInsert. rewrite !(bool_decide_eq_true_2 (@None (list Z) = None)) by done.
  cbn [andb negb]. cbv zeta. rewrite (bool_decide_eq_false_2 (LP_REPLACE = LP_AFTER)) by done. sbind.
  rewrite (rep_total _ _ Hrep). sbind. change (zlen (@nil Z)) with 0.
  pose proof (replaced_at lp xs x ys Hrep) as Hrl. cbv zeta in Hrl.
  rewrite (bool_decide_eq_true_2 (LP_REPLACE = LP_REPLACE)) by done. rewrite Hrl. sbind.
  pose proof (off_ge xs). pose proof (zlen_nonneg (body ys)). pose proof (zlen_nonneg (ent_bytes x)).
  assert (Ho : off (xs ++ x :: ys) = off xs + zlen (ent_bytes x) + zlen (body ys))
    by (rewrite off_app, body_cons, zlen_app; lia).
  assert (Hnum := Hrep). destruct Hnum as (num & slack & Hlp & Hok & Htot & Hcount).
  rewrite (wrap_small 64) by lia. set (new := off (xs ++ x :: ys) + 1 + 0 + 0 - zlen (ent_bytes x)).
  destruct (Z.gtb_spec new UINT32_MAX); [subst new; unfold UINT32_MAX in *; lia|].
  set (a := header (off (xs ++ x :: ys) + 1) num ++ body xs).
  assert (Ha : zlen a = off xs) by (subst a; by rewrite zlen_app, zlen_header).
  assert (Hlp' : lp = a ++ ent_bytes x ++ (body ys ++ [LP_EOF]) ++ slack).
  { subst a. rewrite Hlp, body_app, body_cons, <- !app_assoc. done. }
  destruct (make_room a (ent_bytes x) (body ys ++ [LP_EOF]) slack 0)
    as (o' & s' & m & Ho' & Hmove & Hshrink); [lia|].
  rewrite <- Hlp' in Hmove. rewrite Ha, zlen_app, zlen_cons in Hmove, Hshrink.
  change (zlen (@nil Z)) with 0 in *.
  replace (off xs + zlen (ent_bytes x) + (zlen (body ys) + (1 + 0))) with (off (xs ++ x :: ys) + 1)
    in Hmove, Hshrink by lia.
  replace (off (xs ++ x :: ys) + 1 + 0 - zlen (ent_bytes x)) with new in Hmove, Hshrink by (subst new; lia).
  rewrite (bool_decide_eq_false_2 (LP_REPLACE = LP_BEFORE)) by done.
  replace (off xs + 0 + 0) with (off xs + 0) by lia. rewrite Hmove. sbind. rewrite Hshrink.
  destruct o' as [|? ?]; [|rewrite zlen_cons in Ho'; pose proof (zlen_nonneg o'); lia]. cbn [app].
  destruct (finish_delete (off (xs ++ x :: ys) + 1) num xs x ys s' new) as (lp' & Hfin & Hrep'); try done.
  { subst new. lia. }
  { unfold UINT32_MAX in *. lia. }
  rewrite orb_true_r. exists lp'. split; [exact Hfin|done].
Qed.

(** *** Creation, ends, shrinking *)

Lemma new_spec capacity : exists lp, lpNew usable fresh capacity = Some lp /\ lp_rep lp [].
Proof.
  unfold lpNew, LP_HDR_SIZE. set (n := if capacity >? 6 + 1 then capacity else 6 + 1).
  assert (7 <= n) by (subst n; destruct (Z.gtb_spec capacity (6 + 1)); lia). specialize (Husable n).
  unfold lp_malloc. destruct (zrealloc_keep fresh [] [] (usable n)) as (s & Hs0 & Hs).
  { change (zlen (@nil Z)) with 0. lia. }
  change (zlen (@nil Z)) with 0 in Hs. cbn [app] in Hs0. rewrite Hs0.
  destruct (split_zlen s 4 ltac:(lia)) as (b4 & s1 & -> & H4). rewrite zlen_app in Hs.
  destruct (split_zlen s1 2 ltac:(lia)) as (b2 & s2 & -> & H2). rewrite zlen_app in Hs.
  destruct s2 as [|b s2]; [change (zlen (@nil Z)) with 0 in Hs; lia|].
  assert (lpSetTotalBytes (b4 ++ b2 ++ b :: s2) 7 = Some (le_enc 4 7 ++ b2 ++ b :: s2)) as Ht
    by (apply (mwrite_app []); [done|unfold zlen in *; simpl; lia]).
  assert (lpSetNumElements (le_enc 4 7 ++ b2 ++ b :: s2) 0 = Some (le_enc 4 7 ++ le_enc 2 0 ++ b :: s2)) as Hn
    by (apply (mwrite_app (le_enc 4 7)); [done|unfold zlen in *; simpl; lia]).
  change (6 + 1) with 7. rewrite Ht. sbind. rewrite Hn. sbind.
  rewrite app_assoc. rewrite (mwrite_app (le_enc 4 7 ++ le_enc 2 0) [b] s2 [LP_EOF]) by done.
  eexists. split; [done|]. exists 0, s2. split; [done|]. split; [constructor|]. split; [done|]. by right.
Qed.

(** Results of the callers that pass no [newp]. *)
Definition update_result (r : option (list Z)) (zs : list entry) : Prop :=
  if off zs + 1 >? UINT32_MAX then r = None else exists lp', r = Some lp' /\ lp_rep lp' zs.

Lemma drop_newp_result r p zs : insert_result r p zs -> update_result (drop_newp r) zs.
Proof.
  unfold insert_result, update_result. destruct (_ >? _); [by intros ->|]. intros (lp' & -> & H). by exists lp'.
Qed.

Lemma append_spec lp xs elestr eleint e :
  lp_rep lp xs -> elem_args elestr eleint e ->
  exists r, lpInsert usable fresh lp elestr eleint (off xs) LP_BEFORE = Some r
    /\ insert_result r (off xs) (xs ++ [canon e]).
Proof.
  intros Hrep Hargs. apply (insert_splice' lp xs [] []); [|done|constructor].
  by rewrite !app_nil_r.
Qed.

Lemma lpAppend_spec lp xs s :
  lp_rep lp xs -> bytes_ok s -> zlen s < 2 ^ 32 ->
  exists r, lpAppend usable fresh lp s = Some r /\ update_result r (xs ++ [canon (val_of s)]).
Proof.
  intros Hrep Hs Hl. unfold lpAppend. rewrite (rep_total _ _ Hrep). sbind.
  replace (off xs + 1 - 1) with (off xs) by lia.
  destruct (append_spec lp xs (Some s) None (val_of s) Hrep (args_str s None Hs Hl)) as (r & -> & Hr).
  eexists. split; [done|]. by eapply drop_newp_result.
Qed.

Lemma lpAppendInteger_spec lp xs v :
  lp_rep lp xs -> in_signed 64 v ->
  exists r, lpAppendInteger usable fresh lp v = Some r /\ update_result r (xs ++ [canon (EInt v)]).
Proof.
  intros Hrep Hv. unfold lpAppendInteger, lpInsertInteger. rewrite (rep_total _ _ Hrep). sbind.
  replace (off xs + 1 - 1) with (off xs) by lia.
  destruct (append_spec lp xs _ _ (EInt v) Hrep (args_int v Hv)) as (r & -> & Hr).
  eexists. split; [done|]. by eapply drop_newp_result.
Qed.

Lemma lpPrepend_spec lp xs s :
  lp_rep lp xs -> bytes_ok s -> zlen s < 2 ^ 32 ->
  exists r, lpPrepend usable fresh lp s = Some r /\ update_result r (canon (val_of s) :: xs).
Proof.
  intros Hrep Hs Hl. unfold lpPrepend. rewrite (first_spec lp xs Hrep). sbind.
  destruct xs as [|x xs]; [by apply (lpAppend_spec lp [])|]. cbn [ptr].
  destruct (insert_splice' lp [] [] (x :: xs) (Some s) None (val_of s) LP_BEFORE Hrep
    (args_str s None Hs Hl) splice_before) as (r & -> & Hr).
  eexists. split; [done|]. by eapply drop_newp_result.
Qed.

Lemma lpPrependInteger_spec lp xs v :
  lp_rep lp xs -> in_signed 64 v ->
  exists r, lpPrependInteger usable fresh lp v = Some r /\ update_result r (canon (EInt v) :: xs).
Proof.
  intros Hrep Hv. unfold lpPrependInteger, lpInsertInteger. rewrite (first_spec lp xs Hrep). sbind.
  destruct xs as [|x xs]; [by apply (lpAppendInteger_spec lp [])|]. cbn [ptr].
  destruct (insert_splice' lp [] [] (x :: xs) _ _ (EInt v) LP_BEFORE Hrep
    (args_int v Hv) splice_before) as (r & -> & Hr).
  eexists. split; [done|]. by eapply drop_newp_result.
Qed.

Lemma shrink_spec lp xs : lp_rep lp xs ->
  exists lp', lpShrinkToFit usable fresh lp = Some lp' /\ lp_rep lp' xs.
Proof.
  intros Hrep. unfold lpShrinkToFit, lp_malloc_size, lp_realloc. rewrite (rep_total _ _ Hrep). sbind.
  destruct (off xs + 1 <? zlen lp); [|by exists lp]. specialize (Husable (off xs + 1)).
  destruct Hrep as (num & slack & -> & Hok & Hfit & Hnum).
  set (h := header (off xs + 1) num).
  assert (h ++ body xs ++ LP_EOF :: slack = (h ++ body xs ++ [LP_EOF]) ++ slack) as ->
    by (by rewrite <- !app_assoc).
  destruct (zrealloc_keep fresh (h ++ body xs ++ [LP_EOF]) slack (usable (off xs + 1))) as (s & -> & _).
  { subst h. rewrite !zlen_app, zlen_header, zlen_cons. change (zlen (@nil Z)) with 0.
    unfold off, LP_HDR_SIZE in *. lia. }
  eexists. split; [done|]. exists num, s. rewrite <- !app_assoc. done.
Qed.

(** *** Deletion of ranges *)

Lemma delete_loop_spec fuel lp xs ys num deleted :
  lp_rep lp (xs ++ ys) -> ys <> [] -> (length ys < fuel)%nat -> 0 < num ->
  delete_range_loop fuel lp (off (xs ++ ys) + 1) (off xs) num deleted =
    Some (off (xs ++ take (Z.to_nat num) ys), deleted + zlen (take (Z.to_nat num) ys)).
Proof.
  revert xs ys num deleted. induction fuel as [|fuel IH]; intros xs ys num deleted Hrep Hne Hf Hnum; [lia|].
  destruct ys as [|y ys]; [done|]. cbn [delete_range_loop]. destruct (Z.eqb_spec num 0); [lia|].
  rewrite (skip_at lp xs y ys Hrep). sbind. simpl in Hf. pose proof (rep_snoc _ _ _ _ Hrep) as Hrep'.
  replace (Z.to_nat num) with (S (Z.to_nat (num - 1))) by lia. cbn [take]. rewrite zlen_cons.
  destruct ys as [|z ys].
  - rewrite app_nil_r in Hrep'. rewrite (mget_end lp _ Hrep'). sbind.
    change (LP_EOF =? LP_EOF) with true. cbv iota. rewrite take_nil. done.
  - destruct (mget_at lp _ z ys Hrep') as (b & -> & _ & Hb). sbind.
    destruct (Z.eqb_spec b LP_EOF); [done|]. pose proof (assert_valid lp _ _ Hrep') as Hval.
    rewrite <- app_assoc in Hval. cbn [app] in Hval. rewrite Hval. sbind.
    destruct (decide (num = 1)) as [->|].
    + change (Z.to_nat (1 - 1)) with 0%nat. destruct fuel; [simpl in Hf; lia|]. done.
    + pose proof (IH (xs ++ [y]) (z :: ys) (num - 1) (deleted + 1) Hrep' ltac:(done) ltac:(lia) ltac:(lia)) as IH'.
      rewrite <- !app_assoc in IH'. cbn [app] in IH'. rewrite IH'. do 2 f_equal. lia.
Qed.

Lemma range_numele t num rest xs ds ys :
  count_ok num (xs ++ ds ++ ys) ->
  exists num', (numele ← lpGetNumElements (header t num ++ rest);
      if negb (numele =? LP_HDR_NUMELE_UNKNOWN)
      then lpSetNumElements (header t num ++ rest) (u64 (numele - zlen ds))
      else Some (header t num ++ rest)) = Some (header t num' ++ rest)
    /\ count_ok num' (xs ++ ys).
Proof.
  intros Hc. rewrite numele_get by (by eapply count_ok_range). sbind. unfold count_ok in *.
  rewrite !zlen_app in *. pose proof (zlen_nonneg xs). pose proof (zlen_nonneg ys).
  pose proof (zlen_nonneg ds). unfold LP_HDR_NUMELE_UNKNOWN in *.
  destruct (Z.eqb_spec num 65535); cbn [negb]; [exists num; auto|].
  rewrite set_numele, wrap_small by lia. exists (num - zlen ds). split; [done|]. lia.
Qed.

Lemma delete_range_spec lp xs ys num :
  lp_rep lp (xs ++ ys) -> ys <> [] -> 0 <= num ->
  exists lp' q, lpDeleteRangeWithEntry usable fresh lp (off xs) num = Some (lp', q)
    /\ q = ptr xs (drop (Z.to_nat num) ys) /\ lp_rep lp' (xs ++ drop (Z.to_nat num) ys).
Proof.
  intros Hrep Hne Hnum. unfold lpDeleteRangeWithEntry, lpBytes. rewrite (rep_total _ _ Hrep). sbind.
  destruct (Z.eqb_spec num 0) as [->|Hnz].
  { destruct ys; [done|]. by exists lp, (Some (off xs)). }
  pose proof (rep_length _ _ Hrep) as [Hl _]. rewrite zlen_app in Hl.
  rewrite (delete_loop_spec _ lp xs ys num 0 Hrep Hne) by (unfold zlen in *; lia). sbind.
  set (ds := take (Z.to_nat num) ys). set (es := drop (Z.to_nat num) ys).
  assert (Hys : ys = ds ++ es) by (by subst ds es; rewrite take_drop). rewrite Hys in *. clear Hys.
  destruct Hrep as (cnt & slack & -> & Hok & Hfit & Hcount).
  set (t := off (xs ++ ds ++ es) + 1) in *. set (a := header t cnt ++ body xs).
  assert (Ha : zlen a = off xs) by (subst a; by rewrite zlen_app, zlen_header).
  destruct (memmove_room a (body ds) (body es ++ [LP_EOF]) slack 0) as (o' & s' & Ho' & _ & Hmove);
    [lia|rewrite zlen_app; pose proof (zlen_nonneg (body ds)); pose proof (zlen_nonneg slack); lia|].
  destruct o' as [|? ?]; [|rewrite zlen_cons in Ho'; pose proof (zlen_nonneg o'); lia].
  rewrite Ha, Z.add_0_r, zlen_app, zlen_cons in Hmove. change (zlen (@nil Z)) with 0 in Hmove.
  assert (Ho : t = off xs + zlen (body ds) + zlen (body es) + 1)
    by (subst t; rewrite !off_app, body_app, zlen_app; lia).
  rewrite off_app. replace (t - 1 - (off xs + zlen (body ds)) + 1) with (zlen (body es) + (1 + 0)) by lia.
  replace (header t cnt ++ body (xs ++ ds ++ es) ++ LP_EOF :: slack)
    with (a ++ body ds ++ (body es ++ [LP_EOF]) ++ slack)
    by (subst a; by rewrite !body_app, <- !app_assoc).
  rewrite Hmove. sbind. subst a. rewrite <- !app_assoc, set_total. cbn [app]. sbind.
  rewrite Z.add_0_l.
  destruct (range_numele (t - (off xs + zlen (body ds) - off xs)) cnt
    (body xs ++ body es ++ LP_EOF :: s') xs ds es Hcount) as (cnt' & Hnumele & Hcount').
  destruct (lpGetNumElements _) as [n|]; [|done]. sbind. rewrite some_bind in Hnumele. rewrite Hnumele. sbind.
  rewrite !Forall_app in Hok. destruct Hok as (Hxs & _ & Hes).
  assert (Hrep' : lp_rep (header (t - (off xs + zlen (body ds) - off xs)) cnt' ++
    body xs ++ body es ++ LP_EOF :: s') (xs ++ es)).
  { exists cnt', s'. rewrite off_app, body_app, <- app_assoc.
    replace (t - (off xs + zlen (body ds) - off xs)) with (off xs + zlen (body es) + 1) by lia.
    split; [done|]. split; [by apply Forall_app|]. pose proof (zlen_nonneg (body ds)). split; [lia|done]. }
  destruct (shrink_spec _ _ Hrep') as (lp' & -> & Hrep''). sbind.
  destruct (rep_view lp' xs es Hrep'') as (a & c & Hlp' & Ha').
  pose proof (landing a xs es c Hes Ha') as Hland. rewrite <- app_assoc in Hland. cbn [app] in Hland.
  rewrite <- Hlp' in Hland. destruct (mget lp' (off xs)) as [b|]; [|done]. sbind.
  rewrite some_bind in Hland. injection Hland as Hland. eexists lp', _. split; [done|]. by rewrite Hland.
Qed.

(** Moving the terminator when everything from an entry on is deleted. *)
Lemma truncate_spec lp xs y ys :
  lp_rep lp (xs ++ y :: ys) -> zlen xs < LP_HDR_NUMELE_UNKNOWN ->
  exists lp', (lp ← mwrite lp (off xs) [LP_EOF];
               lp ← lpSetTotalBytes lp (off xs + 1);
               lp ← lpSetNumElements lp (zlen xs);
               lpShrinkToFit usable fresh lp) = Some lp' /\ lp_rep lp' xs.
Proof.
  intros Hrep Hlen. pose proof (at_entry_ok lp xs y ys Hrep) as Hy.
  destruct (enc_of_first _ _ Hy) as (b & r & Hr & _). pose proof (at_bound xs y ys).
  pose proof (zlen_ent_pos y Hy).
  destruct Hrep as (num & slack & Hlp & Hok & Hfit & _). set (h := header (off (xs ++ y :: ys) + 1) num) in *.
  assert (exists c, lp = (h ++ body xs) ++ [b] ++ c) as (c & ->).
  { exists (r ++ lpEncodeBacklen (zlen (e_raw y)) ++ body ys ++ LP_EOF :: slack).
    rewrite Hlp, body_app, body_cons. unfold ent_bytes. rewrite Hr at 1.
    rewrite <- !app_assoc. done. }
  rewrite (mwrite_app (h ++ body xs) [b] c [LP_EOF]);
    [|subst h; by rewrite zlen_app, zlen_header|done]. sbind. subst h.
  rewrite <- !app_assoc, set_total. sbind. rewrite set_numele. sbind. cbn [app].
  apply shrink_spec. exists (zlen xs), c. apply Forall_app in Hok as [Hxs _].
  split; [done|]. split; [done|]. split; [lia|auto].
Qed.

(** The list without the [num] elements from position [i]. *)
Definition remove_range (xs : list entry) (i : nat) (num : Z) : list entry :=
  take i xs ++ drop (i + Z.to_nat num) xs.

Lemma remove_range_spec lp xs i y num :
  lp_rep lp xs -> xs !! i = Some y -> 0 <= num ->
  exists lp', fst <$> lpDeleteRangeWithEntry usable fresh lp (entry_ptr xs i) num = Some lp'
    /\ lp_rep lp' (remove_range xs i num).
Proof.
  intros Hrep Hi Hnum. unfold entry_ptr, remove_range. rewrite <- (take_drop i xs) in Hrep.
  destruct (delete_range_spec lp (take i xs) (drop i xs) num Hrep) as (lp' & q & -> & _ & Hrep'); [|done|].
  { by rewrite (drop_S _ _ _ Hi). }
  exists lp'. by rewrite drop_drop in Hrep'.
Qed.

Lemma lpDeleteRange_spec lp xs index num :
  lp_rep lp xs -> 0 <= num ->
  exists lp', lpDeleteRange usable fresh lp index num = Some lp' /\
    lp_rep lp' (match seek_index (zlen xs) index with
                | Some i => remove_range xs i num
                | None => xs
                end).
Proof.
  intros Hrep Hnum. unfold lpDeleteRange. destruct (rep_numele _ _ Hrep) as (n & -> & Hn). sbind.
  destruct (Z.eqb_spec num 0) as [->|Hnz].
  { exists lp. split; [done|]. destruct (seek_index _ _) as [i|]; [|done].
    unfold remove_range. by rewrite Nat.add_0_r, take_drop. }
  rewrite (seek_spec lp xs index Hrep). sbind.
  destruct (seek_index (zlen xs) index) as [i|] eqn:Hseek; cbn [fmap option_fmap option_map]; [|by exists lp].
  assert (Hi : 0 <= Z.of_nat i < zlen xs /\ Z.of_nat i = if index <? 0 then zlen xs + index else index).
  { unfold seek_index in Hseek. destruct ((0 <=? _) && _) eqn:E; [|done]. injection Hseek as <-. lia. }
  destruct (lookup_Z_lt xs (Z.of_nat i) ltac:(lia)) as [y Hy]. rewrite Nat2Z.id in Hy.
  destruct (Z.eqb_spec n LP_HDR_NUMELE_UNKNOWN) as [->|Hne]; cbn [negb andb].
  { by eapply remove_range_spec. }
  destruct Hn as [?|[-> Hlt]]; [done|]. destruct Hi as [Hir Hie]. rewrite <- Hie.
  unfold LP_HDR_NUMELE_UNKNOWN in Hlt.
  rewrite (wrap_small 64 (Z.of_nat i)) by lia. rewrite (wrap_small 64) by lia.
  destruct (Z.leb_spec (zlen xs - Z.of_nat i) num) as [Hall|Hsome]; [|by eapply remove_range_spec].
  unfold entry_ptr, remove_range. rewrite (drop_ge xs (i + _)), app_nil_r by (unfold zlen in *; lia).
  replace (Z.of_nat i) with (zlen (take i xs)) by (unfold zlen in *; rewrite length_take; lia).
  rewrite <- (take_drop i xs), (drop_S _ _ _ Hy) in Hrep.
  apply (truncate_spec lp (take i xs) y _ Hrep).
  unfold LP_HDR_NUMELE_UNKNOWN, zlen in *. rewrite length_take. lia.
Qed.

(** *** Merging and duplication *)

Lemma region_keep lp xs n :
  lp_rep lp xs -> off xs + 1 <= n ->
  exists num s, lp_realloc usable fresh lp n = header (off xs + 1) num ++ body xs ++ LP_EOF :: s
    /\ zlen s = usable n - (off xs + 1).
Proof.
  intros (num & slack & -> & _) Hn. unfold lp_realloc. specialize (Husable n).
  set (h := header (off xs + 1) num).
  assert (h ++ body xs ++ LP_EOF :: slack = (h ++ body xs ++ [LP_EOF]) ++ slack) as ->
    by (by rewrite <- !app_assoc).
  assert (Hz : zlen (h ++ body xs ++ [LP_EOF]) = off xs + 1).
  { subst h. rewrite !zlen_app, zlen_header. change (zlen [LP_EOF]) with 1. unfold off, LP_HDR_SIZE. lia. }
  destruct (zrealloc_keep fresh (h ++ body xs ++ [LP_EOF]) slack (usable n)) as (s & -> & Hs); [lia|].
  exists num, s. rewrite <- !app_assoc. split; [done|]. lia.
Qed.

Lemma read_body lp xs : lp_rep lp xs ->
  mread lp LP_HDR_SIZE (off xs + 1 - LP_HDR_SIZE) = Some (body xs ++ [LP_EOF]).
Proof.
  intros (num & slack & -> & _). 
  replace (header (off xs + 1) num ++ body xs ++ LP_EOF :: slack)
    with (header (off xs + 1) num ++ (body xs ++ [LP_EOF]) ++ slack) by (by rewrite <- !app_assoc).
  apply mread_app; [done|]. rewrite zlen_app. change (zlen [LP_EOF]) with 1. unfold off. lia.
Qed.

Lemma read_front lp xs : lp_rep lp xs -> exists num,
  mread lp 0 (off xs + 1 - 1) = Some (header (off xs + 1) num ++ body xs).
Proof.
  intros (num & slack & -> & _). exists num. rewrite app_assoc.
  apply (mread_app [] (header (off xs + 1) num ++ body xs)); [done|].
  rewrite zlen_app, zlen_header. unfold off, LP_HDR_SIZE. lia.
Qed.

(** The bytes after the copy, on either side. *)
Lemma merge_append first second xs ys n :
  lp_rep first xs -> lp_rep second ys -> n = off xs + off ys + 2 - 6 - 1 ->
  exists num s, (bs ← mread second LP_HDR_SIZE (off ys + 1 - LP_HDR_SIZE);
    mwrite (lp_realloc usable fresh first n) (off xs + 1 - 1) bs) =
    Some (header (off xs + 1) num ++ body xs ++ body ys ++ LP_EOF :: s).
Proof.
  intros H1 H2 Hn. rewrite (read_body second ys H2). sbind. pose proof (off_ge ys).
  destruct (region_keep first xs n H1 ltac:(lia)) as (num & s & -> & Hs). exists num.
  specialize (Husable n). pose proof (zlen_nonneg (body ys)).
  destruct (split_zlen s (zlen (body ys))) as (s1 & s2 & -> & Hs1).
  { unfold off, LP_HDR_SIZE in *. lia. }
  exists s2. rewrite app_assoc. change (LP_EOF :: s1 ++ s2) with ((LP_EOF :: s1) ++ s2).
  rewrite mwrite_app; [by rewrite <- !app_assoc|..].
  - rewrite zlen_app, zlen_header. unfold off, LP_HDR_SIZE. lia.
  - rewrite length_app. simpl. unfold zlen in Hs1. lia.
Qed.

Lemma merge_prepend first second xs ys n :
  lp_rep first xs -> lp_rep second ys -> n = off xs + off ys + 2 - 6 - 1 ->
  exists num s, (target ← memmove (lp_realloc usable fresh second n) (off xs + 1 - 1) LP_HDR_SIZE
                   (off ys + 1 - LP_HDR_SIZE);
    bs ← mread first 0 (off xs + 1 - 1); mwrite target 0 bs) =
    Some (header (off xs + 1) num ++ body xs ++ body ys ++ LP_EOF :: s).
Proof.
  intros H1 H2 Hn. pose proof (off_ge xs).
  destruct (region_keep second ys n H2 ltac:(lia)) as (num2 & s & -> & Hs). specialize (Husable n).
  destruct (read_front first xs H1) as (num & ->). exists num.
  set (m := header (off ys + 1) num2 ++ body ys ++ LP_EOF :: s).
  assert (Hm : m = header (off ys + 1) num2 ++ (body ys ++ [LP_EOF]) ++ s)
    by (subst m; by rewrite <- !app_assoc).
  assert (Hzm : zlen m = usable n).
  { rewrite Hm, !zlen_app, zlen_header. change (zlen [LP_EOF]) with 1. unfold off, LP_HDR_SIZE in *. lia. }
  destruct (region_split m (off xs) (zlen (body ys) + 1)) as (a & b & c & Habc & Hza & Hzb).
  { lia. } { pose proof (zlen_nonneg (body ys)). lia. } { unfold off, LP_HDR_SIZE in *. lia. }
  rewrite (memmove_app m (header (off ys + 1) num2) (body ys ++ [LP_EOF]) s a b c); try done.
  - sbind. exists c. rewrite mwrite_front; [by rewrite <- !app_assoc|].
    rewrite zlen_app, zlen_header. unfold off, LP_HDR_SIZE in *. lia.
  - lia.
  - rewrite zlen_app. change (zlen [LP_EOF]) with 1. unfold off. lia.
  - rewrite zlen_app. change (zlen [LP_EOF]) with 1. lia.
Qed.

Lemma lpMerge_spec first second xs ys :
  lp_rep first xs -> lp_rep second ys -> off (xs ++ ys) + 1 < UINT32_MAX ->
  exists lp, lpMerge usable fresh first second = Some lp /\ lp_rep lp (xs ++ ys).
Proof.
  intros H1 H2 Hfit. unfold lpMerge, lpBytes.
  rewrite (rep_total _ _ H1). sbind. destruct (length_spec _ _ H1) as (first' & -> & H1' & _). sbind.
  rewrite (rep_total _ _ H2). sbind. destruct (length_spec _ _ H2) as (second' & -> & H2' & _). sbind.
  assert (Hoff : off (xs ++ ys) + 1 = off xs + 1 + (off ys + 1) - LP_HDR_SIZE - 1).
  { rewrite off_app. unfold off, LP_HDR_SIZE. lia. }
  unfold UINT32_MAX in Hfit.
  rewrite <- Hoff, (wrap_small 64) by (pose proof (off_ge (xs ++ ys)); lia).
  set (lplength := if zlen xs + zlen ys <? UINT16_MAX then zlen xs + zlen ys else UINT16_MAX).
  assert (Hcount : count_ok lplength (xs ++ ys)).
  { subst lplength. unfold count_ok, UINT16_MAX, LP_HDR_NUMELE_UNKNOWN. rewrite zlen_app.
    destruct (Z.ltb_spec (zlen xs + zlen ys) 65535); lia. }
  assert (exists num s, (if off xs + 1 >=? off ys + 1
    then bs ← mread second' LP_HDR_SIZE (off ys + 1 - LP_HDR_SIZE);
         mwrite (lp_realloc usable fresh first' (off (xs ++ ys) + 1)) (off xs + 1 - 1) bs
    else target ← memmove (lp_realloc usable fresh second' (off (xs ++ ys) + 1)) (off xs + 1 - 1) LP_HDR_SIZE
                   (off ys + 1 - LP_HDR_SIZE);
         bs ← mread first' 0 (off xs + 1 - 1); mwrite target 0 bs) =
    Some (header (off xs + 1) num ++ body xs ++ body ys ++ LP_EOF :: s)) as (num & s & Hmid).
  { rewrite Hoff. unfold LP_HDR_SIZE in *. destruct (_ >=? _); [apply merge_append|apply merge_prepend]; done || lia. }
  destruct (Z.ltb_spec (off (xs ++ ys) + 1) UINT32_MAX); [|unfold UINT32_MAX in *; lia].
  apply rep_ok in H1, H2.
  destruct (off xs + 1 >=? off ys + 1); cbn [check]; sbind; rewrite Hmid; sbind;
    rewrite set_numele; sbind; rewrite set_total; eexists; (split; [done|]);
    exists lplength, s; rewrite body_app, <- app_assoc; (split; [done|]);
    (split; [by apply Forall_app|]); (split; [lia|exact Hcount]).
Qed.

Lemma lpDup_spec lp xs : lp_rep lp xs -> exists lp', lpDup usable fresh lp = Some lp' /\ lp_rep lp' xs.
Proof.
  intros Hrep. unfold lpDup, lpBytes. rewrite (rep_total _ _ Hrep). sbind.
  destruct Hrep as (num & slack & -> & Hok & Hfit & Hnum). specialize (Husable (off xs + 1)).
  set (m := header (off xs + 1) num ++ body xs ++ [LP_EOF]).
  assert (Hm : zlen m = off xs + 1).
  { subst m. rewrite !zlen_app, zlen_header. change (zlen [LP_EOF]) with 1. unfold off, LP_HDR_SIZE. lia. }
  replace (header (off xs + 1) num ++ body xs ++ LP_EOF :: slack) with ([] ++ m ++ slack)
    by (subst m; by rewrite <- !app_assoc).
  rewrite mread_app by done. sbind. unfold lp_malloc.
  destruct (zrealloc_grow fresh [] (usable (off xs + 1))) as (e & He & Hz).
  { change (zlen (@nil Z)) with 0. pose proof (off_ge xs). lia. }
  change (zlen (@nil Z)) with 0 in Hz. cbn [app] in He. rewrite He.
  destruct (split_zlen e (off xs + 1)) as (e1 & e2 & -> & He1); [pose proof (off_ge xs); lia|].
  rewrite mwrite_front by lia.
  eexists. split; [done|]. exists num, e2. subst m. by rewrite <- !app_assoc.
Qed.

(** *** Batches *)

(** The element a batch entry stands for. *)
Definition batch_val (e : list Z + Z) : lpe :=
  match e with inl s => val_of s | inr v => EInt v end.
Definition batch_ok (e : list Z + Z) : Prop :=
  match e with inl s => bytes_ok s /\ zlen s < 2 ^ 32 | inr v => in_signed 64 v end.
Definition batch_entry (e : list Z + Z) : entry := canon (batch_val e).
Abbreviation batch_entries es := (batch_entry <$> es).

Lemma batch_args e : batch_ok e -> exists elestr eleint, elem_args elestr eleint (batch_val e)
  /\ batch_enc e = match intenc_of elestr eleint, elestr with
                   | Some i, _ => inl i
                   | None, Some s => inr (s, zlen (enc (batch_val e)))
                   | None, None => inl []
                   end.
Proof.
  destruct e as [s|v]; cbn [batch_ok batch_val batch_enc].
  - intros [Hs Hl]. exists (Some s), None. split; [by constructor|]. cbn [intenc_of].
    rewrite encodeGetType_spec. unfold val_of. by destruct (lpStringToInt64 s).
  - intros Hv. exists None, (Some (lpEncodeIntegerGetType v)). split; [by constructor|]. done.
Qed.

Lemma batch_enclen_spec e : batch_ok e -> batch_enclen e = zlen (enc (batch_val e)).
Proof.
  destruct e as [s|v]; cbn [batch_ok batch_val]; [|done]. intros _.
  unfold batch_enclen, batch_enc. rewrite encodeGetType_spec. unfold val_of. by destruct (lpStringToInt64 s).
Qed.

Lemma zlen_canon e : zlen (ent_bytes (canon e)) = zlen (enc e) + zlen (lpEncodeBacklen (zlen (enc e))).
Proof. unfold ent_bytes. by rewrite zlen_app. Qed.

Lemma addedlen_spec es :
  Forall batch_ok es -> zlen (body (batch_entries es)) < 2 ^ 64 ->
  batch_addedlen es = zlen (body (batch_entries es)).
Proof.
  intros Hes Hfit. unfold batch_addedlen.
  enough (forall acc, 0 <= acc -> acc + zlen (body (batch_entries es)) < 2 ^ 64 ->
    foldl (fun addedlen e => u64 (u64 (addedlen + batch_enclen e) + zlen (lpEncodeBacklen (batch_enclen e))))
      acc es = acc + zlen (body (batch_entries es))) as H by (by rewrite (H 0)).
  clear Hfit. induction Hes as [|e es He Hes IH]; intros acc Ha Hacc; cbn [foldl].
  - change (zlen (body (batch_entries []))) with 0. lia.
  - rewrite fmap_cons, body_cons, zlen_app in *. rewrite batch_enclen_spec by done.
    pose proof (zlen_canon (batch_val e)) as Hz. fold (batch_entry e) in Hz.
    pose proof (zlen_nonneg (enc (batch_val e))). pose proof (zlen_nonneg (lpEncodeBacklen (zlen (enc (batch_val e))))).
    match type of Hacc with context [zlen (body ?b)] => pose proof (zlen_nonneg (body b)) end.
    rewrite (wrap_small 64 (acc + _)), wrap_small by lia. rewrite IH by lia. lia.
Qed.

(** Where the last of the entries [zs] stored at [p] is. *)
Definition last_at (p : Z) (zs : list entry) (newp : option Z) : option Z :=
  match zs with [] => newp | _ => Some (p + zlen (body (removelast zs))) end.

Lemma batch_store_spec es a o c newp :
  Forall batch_ok es -> zlen o = zlen (body (batch_entries es)) ->
  batch_store es (a ++ o ++ c) (zlen a) newp =
    Some (a ++ body (batch_entries es) ++ c, last_at (zlen a) (batch_entries es) newp).
Proof.
  intros Hes. revert a o newp. induction Hes as [|e es He Hes IH]; intros a o newp Ho; cbn [batch_store].
  - change (zlen (body (batch_entries []))) with 0 in Ho.
    destruct o; [|rewrite zlen_cons in Ho; pose proof (zlen_nonneg o); lia]. done.
  - rewrite fmap_cons, body_cons, zlen_app in Ho. unfold batch_entry in Ho at 1. rewrite zlen_canon in Ho.
    rewrite batch_enclen_spec by done. destruct (batch_args e He) as (elestr & eleint & Hargs & ->).
    pose proof (zlen_nonneg (enc (batch_val e))) as H0. pose proof (zlen_nonneg (lpEncodeBacklen (zlen (enc (batch_val e))))).
    match type of Ho with context [zlen (body ?b)] => pose proof (zlen_nonneg (body b)) end.
    destruct (split_zlen o (zlen (enc (batch_val e)))) as (o1 & o' & -> & Ho1); [lia|].
    rewrite zlen_app in Ho.
    destruct (split_zlen o' (zlen (lpEncodeBacklen (zlen (enc (batch_val e)))))) as (o2 & o3 & -> & Ho2); [lia|].
    rewrite zlen_app in Ho. rewrite <- !app_assoc.
    pose proof (store_element elestr eleint (batch_val e) a o1 (o2 ++ o3 ++ c) Hargs Ho1) as Hst.
    assert (Hst' : match
        match intenc_of elestr eleint, elestr with
        | Some i, _ => inl i
        | None, Some s => inr (s, zlen (enc (batch_val e)))
        | None, None => inl []
        end with
      | inl intenc => mwrite (a ++ o1 ++ o2 ++ o3 ++ c) (zlen a) intenc
      | inr (s, _) => lpEncodeString (a ++ o1 ++ o2 ++ o3 ++ c) (zlen a) s
      end = Some (a ++ enc (batch_val e) ++ o2 ++ o3 ++ c)).
    { destruct (intenc_of elestr eleint); [done|]. by destruct elestr. }
    rewrite Hst'. sbind. rewrite (app_assoc a).
    rewrite mwrite_app; [|by rewrite zlen_app|unfold zlen in *; lia]. sbind.
    rewrite (app_assoc (a ++ _)). rewrite <- !zlen_app.
    rewrite IH by lia. rewrite fmap_cons, body_cons, <- !app_assoc. cbn [last_at].
    f_equal. f_equal; [unfold ent_bytes, batch_entry; cbn [canon e_raw]; by rewrite <- !app_assoc|].
    rewrite !zlen_app. destruct es as [|e' es]; [cbn; by rewrite Z.add_0_r|].
    rewrite fmap_cons. cbn [last_at removelast]. rewrite body_cons, zlen_app.
    pose proof (zlen_canon (batch_val e)) as Hz. fold (batch_entry e) in Hz. f_equal. lia.
Qed.

Lemma batch_numele t num rest xs zs ys :
  count_ok num (xs ++ ys) ->
  exists num', (num_elements ← lpGetNumElements (header t num ++ rest);
      if negb (num_elements =? LP_HDR_NUMELE_UNKNOWN) then
        if zlen zs >? LP_HDR_NUMELE_UNKNOWN - num_elements
        then lpSetNumElements (header t num ++ rest) LP_HDR_NUMELE_UNKNOWN
        else lpSetNumElements (header t num ++ rest) (num_elements + zlen zs)
      else Some (header t num ++ rest)) = Some (header t num' ++ rest)
    /\ count_ok num' (xs ++ zs ++ ys).
Proof.
  intros Hc. rewrite numele_get by (by eapply count_ok_range). sbind. unfold count_ok in *.
  rewrite !zlen_app in *. unfold LP_HDR_NUMELE_UNKNOWN in *. pose proof (zlen_nonneg zs).
  destruct (Z.eqb_spec num 65535); cbn [negb]; [exists num; auto|].
  destruct (Z.gtb_spec (zlen zs) (65535 - num)); rewrite set_numele; eexists; (split; [done|]); lia.
Qed.

Lemma batch_entries_ok es :
  Forall batch_ok es -> zlen (body (batch_entries es)) < 2 ^ 32 -> Forall entry_ok (batch_entries es).
Proof.
  induction 1 as [|e es He _ IH]; [constructor|]. rewrite fmap_cons, body_cons, zlen_app. intros Hl.
  pose proof (zlen_nonneg (body (batch_entries es))). pose proof (zlen_nonneg (ent_bytes (batch_entry e))).
  constructor; [|apply IH; lia]. unfold batch_entry in *. rewrite zlen_canon in *. apply canon_ok.
  destruct (batch_args e He) as (elestr & eleint & Hargs & _). eapply args_ok; [done|].
  pose proof (zlen_nonneg (lpEncodeBacklen (zlen (enc (batch_val e))))). lia.
Qed.

Lemma lpBatchInsert_spec lp xs ys es :
  lp_rep lp (xs ++ ys) -> es <> [] -> Forall batch_ok es -> zlen (body (batch_entries es)) < 2 ^ 63 ->
  exists r, lpBatchInsert usable fresh lp (off xs) LP_BEFORE es = Some r /\
    if off (xs ++ batch_entries es ++ ys) + 1 >? UINT32_MAX then r = None
    else exists lp', r = Some (lp', last_at (off xs) (batch_entries es) None)
      /\ lp_rep lp' (xs ++ batch_entries es ++ ys).
Proof.
  intros Hrep Hne Hes Hsum. unfold lpBatchInsert.
  rewrite (bool_decide_eq_true_2 (LP_BEFORE ≠ LP_REPLACE)), (bool_decide_eq_false_2 (LP_BEFORE = LP_AFTER)) by done.
  cbn [check]. sbind. destruct (Z.gtb_spec (zlen es) 0) as [_|]; [|destruct es; [done|zlen_solve]].
  cbn [check]. sbind. rewrite addedlen_spec by (done || lia). set (zs := batch_entries es) in *.
  rewrite (rep_total _ _ Hrep). sbind.
  assert (Ho : off (xs ++ zs ++ ys) = off (xs ++ ys) + zlen (body zs)) by (rewrite !off_app, !body_app, zlen_app; lia).
  assert (Hxy : off (xs ++ ys) = off xs + zlen (body ys)) by apply off_app.
  pose proof (off_ge xs). pose proof (zlen_nonneg (body ys)). pose proof (zlen_nonneg (body zs)) as Hzs.
  assert (Hnum := Hrep). destruct Hnum as (num & slack & Hlp & Hok & Htot & Hcount).
  rewrite (wrap_small 64) by lia.
  replace (off (xs ++ ys) + 1 + zlen (body zs)) with (off (xs ++ zs ++ ys) + 1) by lia.
  destruct (Z.gtb_spec (off (xs ++ zs ++ ys) + 1) UINT32_MAX) as [Hbig|Hfit]; [by exists None|].
  set (t := off (xs ++ ys) + 1) in *. set (a := header t num ++ body xs).
  assert (Ha : zlen a = off xs) by (subst a; by rewrite zlen_app, zlen_header).
  destruct (make_room a [] (body ys ++ [LP_EOF]) slack (zlen (body zs))) as (o' & s' & m & Ho' & Hmove & Hshrink);
    [done|]. revert Hmove Hshrink. cbn [app]. change (zlen (@nil Z)) with 0.
  rewrite zlen_app. change (zlen [LP_EOF]) with 1. rewrite Ha.
  replace (a ++ (body ys ++ [LP_EOF]) ++ slack) with lp
    by (subst a; rewrite Hlp, body_app, <- !app_assoc; done).
  replace (off xs + 0 + (zlen (body ys) + 1)) with t by lia.
  replace (t + zlen (body zs) - 0) with (off (xs ++ zs ++ ys) + 1) by lia.
  replace (t - off xs - 0) with (t - off xs) by lia. rewrite Z.add_0_r. intros -> Hshrink. sbind.
  destruct (Z.ltb_spec (off (xs ++ zs ++ ys) + 1) t) as [|_]; [lia|]. subst m. rewrite <- Ha.
  rewrite batch_store_spec by done. sbind. fold zs. subst a. rewrite <- !app_assoc.
  replace (zlen es) with (zlen zs) by (subst zs; unfold zlen; by rewrite length_fmap).
  destruct (batch_numele t num (body xs ++ body zs ++ body ys ++ [LP_EOF] ++ s') xs zs ys Hcount)
    as (num' & Hnum' & Hcount').
  destruct (lpGetNumElements _); [|done]. sbind. rewrite some_bind in Hnum'. rewrite Hnum'. sbind.
  rewrite set_total. sbind. eexists. split; [done|]. eexists. split; [done|].
  exists num', s'. rewrite !body_app, <- !app_assoc. split; [done|].
  apply Forall_app in Hok as [Hxs Hys]. unfold UINT32_MAX in Hfit. split; [|split; [lia|done]].
  rewrite !Forall_app. split; [done|]. split; [|done]. apply batch_entries_ok; [done|]. subst zs. lia.
Qed.

(** ** Properties *)

(** The list after an insertion at the entry [x], and where the new entry is. *)
Definition inserted (xs : list entry) (x : entry) (ys : list entry) (z : entry) (where_ : where_t)
    : Z * list entry :=
  match where_ with
  | LP_BEFORE => (off xs, xs ++ z :: x :: ys)
  | LP_AFTER => (off (xs ++ [x]), xs ++ x :: z :: ys)
  | LP_REPLACE => (off xs, xs ++ z :: ys)
  end.

(** C17: inserting a string or an integer before or after an entry, or in its
    place, yields the listpack of the changed list and a pointer to the new
    entry, or null when the result would pass the 32-bit size limit; a string
    that is the notation of a 64-bit integer is stored as that integer. *)
Theorem lpInsert_correct lp xs x ys elestr eleint e where_ :
  lp_rep lp (xs ++ x :: ys) -> elem_args elestr eleint e ->
  exists r, lpInsert usable fresh lp elestr eleint (off xs) where_ = Some r /\
    insert_result r (fst (inserted xs x ys (canon e) where_)) (snd (inserted xs x ys (canon e) where_)).
Proof.
  intros Hrep Hargs. destruct where_; cbn [inserted fst snd].
  - apply (insert_splice' lp xs [] (x :: ys)); [done|done|constructor].
  - rewrite (insert_after lp xs x ys elestr eleint e Hrep Hargs).
    destruct (insert_splice' lp (xs ++ [x]) [] ys elestr eleint e LP_BEFORE) as (r & Hr & Hres).
    { by apply rep_snoc. } { done. } { constructor. }
    exists r. split; [done|]. rewrite <- app_assoc in Hres. done.
  - apply (insert_splice' lp xs [x] ys); [done|done|constructor].
Qed.

(** A new listpack is empty, and appending and prepending strings or
    integers adds an element at the end or at the head of the represented list,
    or returns null when the 32-bit size limit would be passed. *)
Theorem lpPush_correct lp xs s v capacity :
  lp_rep lp xs -> bytes_ok s -> zlen s < 2 ^ 32 -> in_signed 64 v ->
  (exists lp0, lpNew usable fresh capacity = Some lp0 /\ lp_rep lp0 []) /\
  (exists r, lpAppend usable fresh lp s = Some r /\ update_result r (xs ++ [canon (val_of s)])) /\
  (exists r, lpAppendInteger usable fresh lp v = Some r /\ update_result r (xs ++ [canon (EInt v)])) /\
  (exists r, lpPrepend usable fresh lp s = Some r /\ update_result r (canon (val_of s) :: xs)) /\
  (exists r, lpPrependInteger usable fresh lp v = Some r /\ update_result r (canon (EInt v) :: xs)).
Proof.
  intros Hrep Hs Hl Hv. split; [apply new_spec|]. split; [by apply lpAppend_spec|].
  split; [by apply lpAppendInteger_spec|]. split; [by apply lpPrepend_spec|by apply lpPrependInteger_spec].
Qed.

(** Deleting an entry removes exactly it and returns a pointer to the next
    one, null when it was the last. *)
Theorem lpDelete_correct lp xs x ys :
  lp_rep lp (xs ++ x :: ys) ->
  exists lp', lpDelete usable fresh lp (off xs) = Some (Some (lp', ptr xs ys)) /\ lp_rep lp' (xs ++ ys).
Proof. apply delete_spec. Qed.

(** Deleting a range removes the entries from the position the index denotes
    on, as many as asked for or as there are, by moving the tail or, when the
    count in the header shows that nothing is left, the terminator. *)
Theorem lpDeleteRange_correct lp xs index num :
  lp_rep lp xs -> 0 <= num ->
  exists lp', lpDeleteRange usable fresh lp index num = Some lp' /\
    lp_rep lp' (match seek_index (zlen xs) index with
                | Some i => remove_range xs i num
                | None => xs
                end).
Proof. apply lpDeleteRange_spec. Qed.

(** Merging two listpacks concatenates the lists, in the order of the
    arguments whichever block is kept. *)
Theorem lpMerge_correct first second xs ys :
  lp_rep first xs -> lp_rep second ys -> off (xs ++ ys) + 1 < UINT32_MAX ->
  exists lp, lpMerge usable fresh first second = Some lp /\ lp_rep lp (xs ++ ys).
Proof. apply lpMerge_spec. Qed.

(** Inserting a batch of strings and integers before an entry or at the end
    has the effect of inserting them one by one in order, in one move of the
    tail, and returns a pointer to the last of them. *)
Theorem lpBatchInsert_correct lp xs ys es :
  lp_rep lp (xs ++ ys) -> es <> [] -> Forall batch_ok es -> zlen (body (batch_entries es)) < 2 ^ 63 ->
  exists r, lpBatchInsert usable fresh lp (off xs) LP_BEFORE es = Some r /\
    if off (xs ++ batch_entries es ++ ys) + 1 >? UINT32_MAX then r = None
    else exists lp', r = Some (lp', last_at (off xs) (batch_entries es) None)
      /\ lp_rep lp' (xs ++ batch_entries es ++ ys).
Proof. apply lpBatchInsert_spec. Qed.
End updates.

(** ** Concrete runs *)

(** An allocator that rounds up to a multiple of eight and hands out zeroes. *)
Definition round8 (n : Z) : Z := n + (- n) mod 8.
Lemma round8_ge n : n <= round8 n.
Proof. unfold round8. pose proof (Z.mod_pos_bound (- n) 8 ltac:(lia)). lia. Qed.
Definition zeroes (_ : nat) : Z := 0.

Definition sample_lp : list Z := mk_lp sample_entries.
Definition sample_mid : entry := canon (EInt (-70000)).
Definition sample_pre : list entry := [canon (EStr (str "redis"))].
Definition sample_post : list entry := [canon (EInt 5)].

Lemma abc_args : elem_args (Some (str "abc")) None (val_of (str "abc")).
Proof. constructor; [|done]. apply (bool_decide_unpack _). by vm_compute. Qed.

Lemma lpInsert_correct_witness :
  exists r, lpInsert round8 zeroes sample_lp (Some (str "abc")) None (off sample_pre) LP_AFTER = Some r
    /\ insert_result r (off (sample_pre ++ [sample_mid]))
         (sample_pre ++ sample_mid :: canon (val_of (str "abc")) :: sample_post).
Proof.
  exact (lpInsert_correct round8 zeroes round8_ge sample_lp sample_pre sample_mid sample_post _ _ _
    LP_AFTER sample_rep abc_args).
Defined.

Lemma lpPush_correct_witness :
  exists r, lpAppend round8 zeroes sample_lp (str "42") = Some r
    /\ update_result r (sample_entries ++ [canon (val_of (str "42"))]).
Proof.
  assert (Hb : bytes_ok (str "42")) by (apply (bool_decide_unpack _); by vm_compute).
  assert (Hl : zlen (str "42") < 2 ^ 32) by done.
  assert (Hv : in_signed 64 7) by done.
  exact (proj1 (proj2 (lpPush_correct round8 zeroes round8_ge sample_lp sample_entries (str "42") 7 0
    sample_rep Hb Hl Hv))).
Defined.

Lemma lpDelete_correct_witness :
  exists lp', lpDelete round8 zeroes sample_lp (off sample_pre) = Some (Some (lp', ptr sample_pre sample_post))
    /\ lp_rep lp' (sample_pre ++ sample_post).
Proof.
  exact (lpDelete_correct round8 zeroes round8_ge sample_lp sample_pre sample_mid sample_post sample_rep).
Defined.

Lemma lpDeleteRange_correct_witness :
  exists lp', lpDeleteRange round8 zeroes sample_lp (-2) 1 = Some lp' /\
    lp_rep lp' (remove_range sample_entries 1 1).
Proof. exact (lpDeleteRange_correct round8 zeroes round8_ge sample_lp sample_entries (-2) 1 sample_rep ltac:(lia)). Defined.

Lemma lpMerge_correct_witness :
  exists lp, lpMerge round8 zeroes sample_lp sample_lp = Some lp /\ lp_rep lp (sample_entries ++ sample_entries).
Proof.
  assert (H : off (sample_entries ++ sample_entries) + 1 < UINT32_MAX) by (apply Z.ltb_lt; by vm_compute).
  exact (lpMerge_correct round8 zeroes round8_ge _ _ _ _ sample_rep sample_rep H).
Defined.

Definition sample_batch : list (list Z + Z) := [inl (str "x"); inr 300; inl (str "-5")].

Lemma lpBatchInsert_correct_witness :
  sample_batch <> [] /\
  exists r, lpBatchInsert round8 zeroes sample_lp (off sample_pre) LP_BEFORE sample_batch = Some r.
Proof.
  assert (Hne : sample_batch <> []) by discriminate. split; [exact Hne|].
  assert (Hok : Forall batch_ok sample_batch).
  { repeat constructor; try done; apply (bool_decide_unpack _); by vm_compute. }
  assert (Hs : zlen (body (batch_entry <$> sample_batch)) < 2 ^ 63) by (apply Z.ltb_lt; by vm_compute).
  destruct (lpBatchInsert_correct round8 zeroes round8_ge sample_lp sample_pre (sample_mid :: sample_post)
    sample_batch sample_rep Hne Hok Hs) as (r & Hr & _).
  exists r. exact Hr.
Defined.
