(* ===== verification/Dict.v ===== *)
(** * dict.c: hash tables with incremental rehashing

    The code of the dictionary: two tables of chained buckets, the step by step
    move from the first to the second, lookups and updates that take part in the
    move, the reverse-binary cursor of the scan.  [DictSpec] shows that it
    implements a finite map, [DictScan] that a scan misses no element.

    An entry is its key and the contents of its value field; a bucket is the
    chain of its entries; [None] is a failed assertion or an access through a
    null pointer or out of a table.  The callbacks of the [dictType] that tell
    about rehashing are recorded in the order they are called. *)

From S2P Require Import Prelude.

Definition DICT_HT_INITIAL_EXP : Z := 2.
Definition DICT_HT_INITIAL_SIZE : Z := 1 <<< DICT_HT_INITIAL_EXP.
Definition HASHTABLE_MIN_FILL : Z := 8.
Definition dict_force_resize_ratio : Z := 4.
Definition LONG_MAX : Z := 2 ^ 63 - 1.

Inductive dictResizeEnable := DICT_RESIZE_ENABLE | DICT_RESIZE_AVOID | DICT_RESIZE_FORBID.
#[global] Instance dictResizeEnable_eq_dec : EqDecision dictResizeEnable.
Proof. solve_decision. Defined.

Inductive status := DICT_OK | DICT_ERR.
#[global] Instance status_eq_dec : EqDecision status.
Proof. solve_decision. Defined.

(** Calls of the members of the [dictType] of these names; [progress] is the
    function given to [dictEmpty]. *)
Inductive callback (K V : Type) :=
  | rehashingStarted
  | rehashingCompleted
  | bucketChanged (delta : Z)
  | keyDestructor (key : K)
  | valDestructor (val : V)
  | onDictRelease
  | progress.
#[global] Arguments rehashingStarted {K V}.
#[global] Arguments rehashingCompleted {K V}.
#[global] Arguments bucketChanged {K V}.
#[global] Arguments keyDestructor {K V}.
#[global] Arguments valDestructor {K V}.
#[global] Arguments onDictRelease {K V}.
#[global] Arguments progress {K V}.

Definition DICTHT_SIZE (exp : Z) : Z := if exp =? -1 then 0 else 1 <<< exp.
Definition DICTHT_SIZE_MASK (exp : Z) : Z := if exp =? -1 then 0 else DICTHT_SIZE exp - 1.

(** Leading zeroes of a non-zero 64-bit number. *)
Definition clzl (x : Z) : Z := 63 - Z.log2 x.

Definition _dictNextExp (size : Z) : Z :=
  if size <=? DICT_HT_INITIAL_SIZE then DICT_HT_INITIAL_EXP
  else if size >=? LONG_MAX then 8 * 8 - 1
  else 8 * 8 - clzl (size - 1).

Section dict.
Context {K V : Type} `{EqDecision K}.

(** The members of a [dictType] the code calls: [hashFunction] and [keyCompare];
    [resizeAllowed] is given the memory wanted and the two numbers whose ratio
    the code passes; [force_full_rehash]. *)
Record dictType := {
  hashFunction : K -> Z;
  keyCompare : K -> K -> bool;
  resizeAllowed : Z -> Z -> Z -> bool;
  force_full_rehash : bool;
}.

Record ht := mkHt {
  ht_table : option (list (list (K * V)));
  ht_used : Z;
  ht_size_exp : Z;
}.

Record dict := mkDict {
  ht0 : ht;
  ht1 : ht;
  rehashidx : Z;
  pauserehash : Z;
  pauseAutoResize : Z;
  calls : list (callback K V);
}.

Definition with_ht0 (d : dict) (h : ht) : dict :=
  mkDict h (ht1 d) (rehashidx d) (pauserehash d) (pauseAutoResize d) (calls d).
Definition with_ht1 (d : dict) (h : ht) : dict :=
  mkDict (ht0 d) h (rehashidx d) (pauserehash d) (pauseAutoResize d) (calls d).
Definition with_rehashidx (d : dict) (i : Z) : dict :=
  mkDict (ht0 d) (ht1 d) i (pauserehash d) (pauseAutoResize d) (calls d).
Definition with_pauserehash (d : dict) (n : Z) : dict :=
  mkDict (ht0 d) (ht1 d) (rehashidx d) n (pauseAutoResize d) (calls d).
Definition call (d : dict) (c : callback K V) : dict :=
  mkDict (ht0 d) (ht1 d) (rehashidx d) (pauserehash d) (pauseAutoResize d) (calls d ++ [c]).

Definition with_used (h : ht) (n : Z) : ht := mkHt (ht_table h) n (ht_size_exp h).

(** [d->ht_table[i][idx]] *)
Definition get_bucket (h : ht) (idx : Z) : option (list (K * V)) :=
  t ← ht_table h; if 0 <=? idx then t !! Z.to_nat idx else None.
Definition set_bucket (h : ht) (idx : Z) (b : list (K * V)) : option ht :=
  t ← ht_table h;
  if (0 <=? idx) && (idx <? zlen t)
  then Some (mkHt (Some (<[Z.to_nat idx := b]> t)) (ht_used h) (ht_size_exp h)) else None.

(** The table of the number, and its update. *)
Definition ht_of (d : dict) (table : bool) : ht := if table then ht1 d else ht0 d.
Definition with_ht (d : dict) (table : bool) (h : ht) : dict :=
  if table then with_ht1 d h else with_ht0 d h.

Definition dictSize (d : dict) : Z := u64 (ht_used (ht0 d) + ht_used (ht1 d)).
Definition dictBuckets (d : dict) : Z :=
  u64 (DICTHT_SIZE (ht_size_exp (ht0 d)) + DICTHT_SIZE (ht_size_exp (ht1 d))).
Definition dictIsRehashing (d : dict) : bool := negb (rehashidx d =? -1).

(** The counter of the pauses is a bit field of 15 bits. *)
Definition dictPauseRehashing (d : dict) : dict := with_pauserehash d (wrap 15 (pauserehash d + 1)).
Definition dictResumeRehashing (d : dict) : dict := with_pauserehash d (wrap 15 (pauserehash d - 1)).

Definition reset_ht : ht := mkHt None 0 (-1).
Definition _dictInit : dict := mkDict reset_ht reset_ht (-1) 0 0 [].
Definition dictCreate : dict := _dictInit.

(** ** Rehashing *)

Section with_type.
Context (type : dictType).

(** [key == he_key || cmpFunc(&cmpCache, key, he_key)] *)
Definition same_key (key he_key : K) : bool := bool_decide (key = he_key) || keyCompare type key he_key.

(** The [while (de)] loop: entries go to the head of their new bucket. *)
Fixpoint rehash_entries (d : dict) (idx : Z) (de : list (K * V)) : option dict :=
  match de with
  | [] => Some d
  | (key, val) :: nextde =>
      let h := if ht_size_exp (ht1 d) >? ht_size_exp (ht0 d)
               then hashFunction type key &&& DICTHT_SIZE_MASK (ht_size_exp (ht1 d))
               else idx &&& DICTHT_SIZE_MASK (ht_size_exp (ht1 d)) in
      b ← get_bucket (ht1 d) h;
      t1 ← set_bucket (ht1 d) h ((key, val) :: b);
      let d := with_ht1 d t1 in
      let d := with_ht0 d (with_used (ht0 d) (u64 (ht_used (ht0 d) - 1))) in
      let d := with_ht1 d (with_used (ht1 d) (u64 (ht_used (ht1 d) + 1))) in
      rehash_entries d idx nextde
  end.

Definition rehashEntriesInBucketAtIndex (d : dict) (idx : Z) : option dict :=
  de ← get_bucket (ht0 d) idx;
  d ← rehash_entries d idx de;
  t0 ← set_bucket (ht0 d) idx [];
  Some (with_ht0 d t0).

Definition dictCheckRehashingCompleted (d : dict) : bool * dict :=
  if negb (ht_used (ht0 d) =? 0) then (false, d)
  else
    let d := call d rehashingCompleted in
    let d := call d (bucketChanged (- DICTHT_SIZE (ht_size_exp (ht0 d)))) in
    let d := with_ht0 d (ht1 d) in
    let d := with_ht1 d reset_ht in
    (true, with_rehashidx d (-1)).

(** The global [dict_can_resize] at the time of the call. *)
Section with_mode.
Context (dict_can_resize : dictResizeEnable).

(** Rehashing is not to be done now. *)
Definition rehash_avoided (d : dict) : bool :=
  let s0 := DICTHT_SIZE (ht_size_exp (ht0 d)) in
  let s1 := DICTHT_SIZE (ht_size_exp (ht1 d)) in
  bool_decide (dict_can_resize = DICT_RESIZE_FORBID) || negb (dictIsRehashing d)
  || bool_decide (dict_can_resize = DICT_RESIZE_AVOID)
     && ((s1 >? s0) && (s1 <? u64 (dict_force_resize_ratio * s0))
         || (s1 <? s0) && (s0 <? u64 (HASHTABLE_MIN_FILL * dict_force_resize_ratio * s1))).

(** [while(d->ht_table[0][d->rehashidx] == NULL)]: the dictionary, the empty
    visits left, and whether the function returns. *)
Fixpoint skip_empty (fuel : nat) (d : dict) (empty_visits : Z) : option (dict * Z * bool) :=
  match fuel with
  | O => None
  | S fuel =>
      b ← get_bucket (ht0 d) (rehashidx d);
      match b with
      | [] =>
          let d := with_rehashidx d (rehashidx d + 1) in
          let empty_visits := empty_visits - 1 in
          if empty_visits =? 0 then Some (d, empty_visits, true) else skip_empty fuel d empty_visits
      | _ => Some (d, empty_visits, false)
      end
  end.

(** The [while(n-- && d->ht_used[0] != 0)] loop; the size of the table bounds the
    buckets a round may skip. *)
Fixpoint rehash_loop (n : nat) (d : dict) (empty_visits : Z) : option (bool * dict) :=
  match n with
  | O => let '(completed, d) := dictCheckRehashingCompleted d in Some (negb completed, d)
  | S n =>
      if ht_used (ht0 d) =? 0
      then let '(completed, d) := dictCheckRehashingCompleted d in Some (negb completed, d)
      else if DICTHT_SIZE (ht_size_exp (ht0 d)) >? rehashidx d then
        '(d, empty_visits, returns) ←
          skip_empty (S (Z.to_nat (DICTHT_SIZE (ht_size_exp (ht0 d)) - rehashidx d))) d empty_visits;
        if (returns : bool) then Some (true, d)
        else
          d ← rehashEntriesInBucketAtIndex d (rehashidx d);
          rehash_loop n (with_rehashidx d (rehashidx d + 1)) empty_visits
      else None
  end.

(** Whether there are keys left to move. *)
Definition dictRehash (d : dict) (n : nat) : option (bool * dict) :=
  let empty_visits := i32 (Z.of_nat n * 10) in
  if rehash_avoided d then Some (false, d) else rehash_loop n d empty_visits.

Definition _dictRehashStep (d : dict) : option dict :=
  if pauserehash d =? 0 then snd <$> dictRehash d 1 else Some d.

Definition _dictBucketRehash (d : dict) (idx : Z) : option (bool * dict) :=
  if negb (pauserehash d =? 0) then Some (false, d)
  else if rehash_avoided d then Some (false, d)
  else
    d ← rehashEntriesInBucketAtIndex d idx;
    Some (true, snd (dictCheckRehashingCompleted d)).

Definition _dictRehashStepIfNeeded (d : dict) (visitedIdx : Z) : option dict :=
  if negb (dictIsRehashing d) || negb (pauserehash d =? 0) then Some d
  else if visitedIdx >=? rehashidx d then
    b ← get_bucket (ht0 d) visitedIdx;
    match b with
    | [] => snd <$> dictRehash d 1
    | _ => snd <$> _dictBucketRehash d visitedIdx
    end
  else snd <$> dictRehash d 1.

(** The loop of [dictRehashMicroseconds]; [elapsed i] is what the [i]-th reading of
    the timer gives. *)
Fixpoint rehash_us_loop (fuel : nat) (elapsed : nat -> Z) (i : nat) (us rehashes : Z) (d : dict) : option (Z * dict) :=
  match fuel with
  | O => None
  | S fuel =>
      '(more, d) ← dictRehash d 100;
      if (more : bool) then
        let rehashes := i32 (rehashes + 100) in
        if elapsed i >=? us then Some (rehashes, d) else rehash_us_loop fuel elapsed (S i) us rehashes d
      else Some (rehashes, d)
  end.

Definition dictRehashMicroseconds (elapsed : nat -> Z) (d : dict) (us : Z) : option (Z * dict) :=
  if pauserehash d >? 0 then Some (0, d)
  else rehash_us_loop (S (S (Z.to_nat (DICTHT_SIZE (ht_size_exp (ht0 d)))))) elapsed 0 us 0 d.

(** ** Resizing *)

(** [while (dictRehash(d, 1000))]; every round moves an entry or passes buckets. *)
Fixpoint full_rehash (fuel : nat) (d : dict) : option dict :=
  match fuel with
  | O => None
  | S fuel => '(more, d) ← dictRehash d 1000; if (more : bool) then full_rehash fuel d else Some d
  end.

(** [try_alloc n] is whether a request for [n] bytes succeeds, for the callers
    that pass [malloc_failed]; the others abort. *)
Definition _dictResize (d : dict) (size : Z) (try_alloc : option (Z -> bool))
    : option (status * bool * dict) :=
  if dictIsRehashing d then None
  else
    let new_ht_size_exp := _dictNextExp size in
    let newsize := DICTHT_SIZE new_ht_size_exp in
    if (newsize <? size) || (u64 (newsize * 8) <? newsize) then Some (DICT_ERR, false, d)
    else if new_ht_size_exp =? ht_size_exp (ht0 d) then Some (DICT_ERR, false, d)
    else if (match try_alloc with Some f => negb (f (newsize * 8)) | None => false end)
    then Some (DICT_ERR, true, d)
    else
      let new_ht := mkHt (Some (repeat [] (Z.to_nat newsize))) 0 new_ht_size_exp in
      let d := with_rehashidx (with_ht1 d new_ht) 0 in
      let d := call d rehashingStarted in
      let d := call d (bucketChanged newsize) in
      if bool_decide (ht_table (ht0 d) = None) || (ht_used (ht0 d) =? 0) then
        let d := call d rehashingCompleted in
        let d := call d (bucketChanged (- DICTHT_SIZE (ht_size_exp (ht0 d)))) in
        let d := with_ht1 (with_ht0 d new_ht) reset_ht in
        Some (DICT_OK, false, with_rehashidx d (-1))
      else
        d ← (if force_full_rehash type then full_rehash (S (S (Z.to_nat (DICTHT_SIZE (ht_size_exp (ht0 d)))))) d
             else Some d);
        Some (DICT_OK, false, d).

Definition _dictExpand (d : dict) (size : Z) (try_alloc : option (Z -> bool)) : option (status * bool * dict) :=
  if dictIsRehashing d || (ht_used (ht0 d) >? size) || (DICTHT_SIZE (ht_size_exp (ht0 d)) >=? size)
  then Some (DICT_ERR, false, d) else _dictResize d size try_alloc.

Definition dictExpand (d : dict) (size : Z) : option (status * dict) :=
  '(r, _, d) ← _dictExpand d size None; Some (r, d).

Definition dictTryExpand (try_alloc : Z -> bool) (d : dict) (size : Z) : option (status * dict) :=
  '(_, malloc_failed, d) ← _dictExpand d size (Some try_alloc);
  Some (if (malloc_failed : bool) then DICT_ERR else DICT_OK, d).

Definition dictShrink (d : dict) (size : Z) : option (status * dict) :=
  if dictIsRehashing d || (ht_used (ht0 d) >? size) || (DICTHT_SIZE (ht_size_exp (ht0 d)) <=? size)
  then Some (DICT_ERR, d) else '(r, _, d) ← _dictResize d size None; Some (r, d).

Definition dictTypeResizeAllowed (d : dict) (size : Z) : bool :=
  resizeAllowed type (u64 (DICTHT_SIZE (_dictNextExp size) * 8)) (ht_used (ht0 d))
    (DICTHT_SIZE (ht_size_exp (ht0 d))).

Definition dictExpandIfNeeded (d : dict) : option (status * dict) :=
  let size := DICTHT_SIZE (ht_size_exp (ht0 d)) in
  let used := ht_used (ht0 d) in
  if dictIsRehashing d then Some (DICT_OK, d)
  else if size =? 0 then '(_, d) ← dictExpand d DICT_HT_INITIAL_SIZE; Some (DICT_OK, d)
  else if (bool_decide (dict_can_resize = DICT_RESIZE_ENABLE) && (used >=? size))
       || (bool_decide (dict_can_resize ≠ DICT_RESIZE_FORBID)
           && (used >=? u64 (dict_force_resize_ratio * size))) then
    if dictTypeResizeAllowed d (u64 (used + 1))
    then '(_, d) ← dictExpand d (u64 (used + 1)); Some (DICT_OK, d)
    else Some (DICT_OK, d)
  else Some (DICT_ERR, d).

Definition _dictExpandIfNeeded (d : dict) : option (status * dict) :=
  if pauseAutoResize d >? 0 then Some (DICT_ERR, d) else dictExpandIfNeeded d.

Definition dictShrinkIfNeeded (d : dict) : option (status * dict) :=
  let size := DICTHT_SIZE (ht_size_exp (ht0 d)) in
  let used := ht_used (ht0 d) in
  if dictIsRehashing d then Some (DICT_OK, d)
  else if size <=? DICT_HT_INITIAL_SIZE then Some (DICT_OK, d)
  else if (bool_decide (dict_can_resize = DICT_RESIZE_ENABLE) && (u64 (used * HASHTABLE_MIN_FILL) <=? size))
       || (bool_decide (dict_can_resize ≠ DICT_RESIZE_FORBID)
           && (u64 (used * HASHTABLE_MIN_FILL * dict_force_resize_ratio) <=? size)) then
    if dictTypeResizeAllowed d used
    then '(_, d) ← dictShrink d used; Some (DICT_OK, d)
    else Some (DICT_OK, d)
  else Some (DICT_ERR, d).

Definition _dictShrinkIfNeeded (d : dict) : option dict :=
  if pauseAutoResize d >? 0 then Some d else snd <$> dictShrinkIfNeeded d.

(** ** Lookup and update *)

(** A [dictEntryLink]: the bucket of a table and the number of entries before the
    one the link leads to. *)
Record link := mkLink { l_table : bool; l_idx : Z; l_pos : nat }.

(** The first entry of a chain with the key. *)
Fixpoint chain_find (key : K) (he : list (K * V)) (pos : nat) : option nat :=
  match he with
  | [] => None
  | (he_key, _) :: he => if same_key key he_key then Some pos else chain_find key he (S pos)
  end.

(** [*link] *)
Definition link_get (d : dict) (l : link) : option (option (K * V)) :=
  b ← get_bucket (ht_of d (l_table l)) (l_idx l); Some (b !! l_pos l).

(** [*link = dictGetNext( *link)] *)
Definition link_remove (d : dict) (l : link) : option dict :=
  b ← get_bucket (ht_of d (l_table l)) (l_idx l);
  h ← set_bucket (ht_of d (l_table l)) (l_idx l) (take (l_pos l) b ++ drop (S (l_pos l)) b);
  Some (with_ht d (l_table l) h).

(** Changing the entry the link leads to. *)
Definition link_update (d : dict) (l : link) (f : K * V -> K * V) : option dict :=
  b ← get_bucket (ht_of d (l_table l)) (l_idx l);
  e ← b !! l_pos l;
  h ← set_bucket (ht_of d (l_table l)) (l_idx l) (<[l_pos l := f e]> b);
  Some (with_ht d (l_table l) h).

(** [d->ht_used[table]] increased, wrapping. *)
Definition add_used (d : dict) (table : bool) (n : Z) : dict :=
  with_ht d table (with_used (ht_of d table) (u64 (ht_used (ht_of d table) + n))).

(** [for (table = 0; table <= 1; table++)] of the insertion and the deletion: the
    link of the entry with the key, and the last value of [idx]. *)
Fixpoint tables_loop (tables : list bool) (d : dict) (key : K) (hash idx : Z) : option (option link * Z) :=
  match tables with
  | [] => Some (None, idx)
  | table :: tables =>
      if negb table && (i64 idx <? rehashidx d) then tables_loop tables d key hash idx
      else
        let idx := hash &&& DICTHT_SIZE_MASK (ht_size_exp (ht_of d table)) in
        he ← get_bucket (ht_of d table) idx;
        match chain_find key he 0 with
        | Some pos => Some (Some (mkLink table idx pos), idx)
        | None => if negb (dictIsRehashing d) then Some (None, idx) else tables_loop tables d key hash idx
        end
  end.

(** The link to insert at ([inl]), or the existing entry. *)
Definition dictFindLinkForInsert (d : dict) (key : K) : option ((link + link) * dict) :=
  let hash := hashFunction type key in
  let idx := hash &&& DICTHT_SIZE_MASK (ht_size_exp (ht0 d)) in
  d ← _dictRehashStepIfNeeded d idx;
  '(_, d) ← _dictExpandIfNeeded d;
  '(existing, idx) ← tables_loop [false; true] d key hash idx;
  match existing with
  | Some existing => Some (inr existing, d)
  | None => Some (inl (mkLink (dictIsRehashing d) idx 0), d)
  end.

(** Contents of the value field of an entry fresh from the allocator. *)
Context (indet : V).

Definition dictInsertKeyAtLink (d : dict) (key : K) (bucket : link) : option (link * dict) :=
  let htidx := dictIsRehashing d in
  if eqb (l_table bucket) htidx && (0 <=? l_idx bucket)
     && (l_idx bucket <=? DICTHT_SIZE_MASK (ht_size_exp (ht_of d htidx))) && (l_pos bucket =? 0)%nat then
    b ← get_bucket (ht_of d htidx) (l_idx bucket);
    h ← set_bucket (ht_of d htidx) (l_idx bucket) ((key, indet) :: b);
    Some (bucket, add_used (with_ht d htidx h) htidx 1)
  else None.

(** The new entry, or the existing one. *)
Definition dictAddRaw (d : dict) (key : K) : option ((link + link) * dict) :=
  '(position, d) ← dictFindLinkForInsert d key;
  match position with
  | inr existing => Some (inr existing, d)
  | inl position => '(entry, d) ← dictInsertKeyAtLink d key position; Some (inl entry, d)
  end.

Definition dictSetVal (d : dict) (de : link) (val : V) : option dict :=
  link_update d de (fun '(k, _) => (k, val)).

Definition dictAdd (d : dict) (key : K) (val : V) : option (status * dict) :=
  '(entry, d) ← dictAddRaw d key;
  match entry with
  | inr _ => Some (DICT_ERR, d)
  | inl entry => d ← dictSetVal d entry val; Some (DICT_OK, d)
  end.

Definition dictReplace (d : dict) (key : K) (val : V) : option (bool * dict) :=
  '(entry, d) ← dictAddRaw d key;
  match entry with
  | inl entry => d ← dictSetVal d entry val; Some (true, d)
  | inr existing =>
      e ← link_get d existing;
      '(_, oldval) ← e;
      d ← dictSetVal d existing val;
      Some (false, call d (valDestructor oldval))
  end.

Definition dictAddOrFind (d : dict) (key : K) : option (link * dict) :=
  '(entry, d) ← dictAddRaw d key;
  match entry with inl entry | inr entry => Some (entry, d) end.

Definition dictFreeUnlinkedEntry (d : dict) (he : option (K * V)) : dict :=
  match he with
  | None => d
  | Some (key, val) => call (call d (keyDestructor key)) (valDestructor val)
  end.

Definition dictGenericDelete (d : dict) (key : K) (nofree : bool) : option (option (K * V) * dict) :=
  if dictSize d =? 0 then Some (None, d)
  else
    let h := hashFunction type key in
    let idx := h &&& DICTHT_SIZE_MASK (ht_size_exp (ht0 d)) in
    d ← _dictRehashStepIfNeeded d idx;
    '(found, _) ← tables_loop [false; true] d key h idx;
    match found with
    | None => Some (None, d)
    | Some l =>
        he ← link_get d l;
        d ← link_remove d l;
        let d := if nofree then d else dictFreeUnlinkedEntry d he in
        let d := add_used d (l_table l) (-1) in
        d ← _dictShrinkIfNeeded d;
        Some (he, d)
    end.

Definition dictDelete (d : dict) (key : K) : option (status * dict) :=
  '(he, d) ← dictGenericDelete d key false;
  Some (match he with Some _ => DICT_OK | None => DICT_ERR end, d).

Definition dictUnlink (d : dict) (key : K) : option (option (K * V) * dict) :=
  dictGenericDelete d key true.

(** The [while(he)] loop of [_dictClear]. *)
Fixpoint clear_chain (d : dict) (htidx : bool) (he : list (K * V)) : dict :=
  match he with
  | [] => d
  | e :: nextHe => clear_chain (add_used (dictFreeUnlinkedEntry d (Some e)) htidx (-1)) htidx nextHe
  end.

Fixpoint clear_loop (n : nat) (d : dict) (htidx has_callback : bool) (i : Z) : option dict :=
  match n with
  | O => Some d
  | S n =>
      if ht_used (ht_of d htidx) >? 0 then
        let d := if has_callback && negb (i =? 0) && ((i &&& 65535) =? 0) then call d progress else d in
        he ← get_bucket (ht_of d htidx) i;
        clear_loop n (clear_chain d htidx he) htidx has_callback (i + 1)
      else Some d
  end.

Definition _dictClear (d : dict) (htidx has_callback : bool) : option dict :=
  d ← clear_loop (Z.to_nat (DICTHT_SIZE (ht_size_exp (ht_of d htidx)))) d htidx has_callback 0;
  Some (with_ht d htidx reset_ht).

(** What [dictRelease] and [dictEmpty] tell before they clear the tables. *)
Definition tell_release (d : dict) : dict :=
  let d := if dictIsRehashing d then call d rehashingCompleted else d in
  call d (bucketChanged (- dictBuckets d)).

(** The calls made until the dictionary is freed. *)
Definition dictRelease (d : dict) : option (list (callback K V)) :=
  let d := call (tell_release d) onDictRelease in
  d ← _dictClear d false false;
  d ← _dictClear d true false;
  Some (calls d).

Definition dictEmpty (d : dict) (has_callback : bool) : option dict :=
  let d := tell_release d in
  d ← _dictClear d false has_callback;
  d ← _dictClear d true has_callback;
  Some (mkDict (ht0 d) (ht1 d) (-1) 0 0 (calls d)).

(** The loop over the tables of [dictFindLinkInternal]: the link and the bucket. *)
Fixpoint find_loop (tables : list bool) (d : dict) (key : K) (hash idx : Z) (bucket : option link)
    : option (option link * option link) :=
  match tables with
  | [] => Some (None, bucket)
  | table :: tables =>
      if negb table && (i64 idx <? rehashidx d) then find_loop tables d key hash idx bucket
      else
        let idx := hash &&& DICTHT_SIZE_MASK (ht_size_exp (ht_of d table)) in
        he ← get_bucket (ht_of d table) idx;
        let bucket := Some (mkLink table idx 0) in
        match chain_find key he 0 with
        | Some pos => Some (Some (mkLink table idx pos), bucket)
        | None => find_loop tables d key hash idx bucket
        end
  end.

Definition dictFindLinkInternal (d : dict) (key : K) (want_bucket : bool)
    : option (option link * option link * dict) :=
  if negb want_bucket && (dictSize d =? 0) then Some (None, None, d)
  else
    let hash := hashFunction type key in
    let idx := hash &&& DICTHT_SIZE_MASK (ht_size_exp (ht0 d)) in
    d ← _dictRehashStepIfNeeded d idx;
    '(l, bucket) ← find_loop (if dictIsRehashing d then [false; true] else [false]) d key hash idx None;
    Some (l, bucket, d).

Definition dictFindLink (d : dict) (key : K) (want_bucket : bool) : option (option link * option link * dict) :=
  if dictSize d =? 0 then Some (None, None, d) else dictFindLinkInternal d key want_bucket.

Definition dictFind (d : dict) (key : K) : option (option (K * V) * dict) :=
  '(l, _, d) ← dictFindLink d key false;
  match l with
  | Some l => e ← link_get d l; Some (e, d)
  | None => Some (None, d)
  end.

Definition dictFetchValue (d : dict) (key : K) : option (option V * dict) :=
  '(he, d) ← dictFind d key; Some (option_map snd he, d).

Definition dictSetKeyAtLink (d : dict) (key : K) (l : option link) (newItem : bool) : option (link * dict) :=
  if newItem then
    let snap0 := ht_size_exp (ht0 d) in
    let snap1 := ht_size_exp (ht1 d) in
    '(_, d) ← dictExpandIfNeeded d;
    '(l, d) ← (if negb (snap0 =? ht_size_exp (ht0 d)) || negb (snap1 =? ht_size_exp (ht1 d)) || bool_decide (l = None)
               then '(l, bucket, d) ← dictFindLinkInternal d key true;
                    bucket ← bucket;
                    match l with Some _ => None | None => Some (bucket, d) end
               else l ← l; Some (l, d));
    dictInsertKeyAtLink d key l
  else
    '(l, d) ← match l with
              | Some l => Some (l, d)
              | None => '(l, _, d) ← dictFindLink d key false; l ← l; Some (l, d)
              end;
    d ← link_update d l (fun '(_, v) => (key, v));
    Some (l, d).

(** The loop of [dictTwoPhaseUnlinkFind]. *)
Fixpoint unlink_find_loop (tables : list bool) (d : dict) (key : K) (h : Z) : option (option link) :=
  match tables with
  | [] => Some None
  | table :: tables =>
      let idx := h &&& DICTHT_SIZE_MASK (ht_size_exp (ht_of d table)) in
      if negb table && (i64 idx <? rehashidx d) then unlink_find_loop tables d key h
      else
        he ← get_bucket (ht_of d table) idx;
        match chain_find key he 0 with
        | Some pos => Some (Some (mkLink table idx pos))
        | None => if negb (dictIsRehashing d) then Some None else unlink_find_loop tables d key h
        end
  end.

Definition dictTwoPhaseUnlinkFind (d : dict) (key : K) : option (option link * dict) :=
  if dictSize d =? 0 then Some (None, d)
  else
    d ← (if dictIsRehashing d then _dictRehashStep d else Some d);
    l ← unlink_find_loop [false; true] d key (hashFunction type key);
    match l with
    | Some l => Some (Some l, dictPauseRehashing d)
    | None => Some (None, d)
    end.

Definition dictTwoPhaseUnlinkFree (d : dict) (plink : option link) (table_index : bool) : option dict :=
  match plink with
  | None => Some d
  | Some l =>
      de ← link_get d l;
      match de with
      | None => Some d
      | Some de =>
          let d := add_used d table_index (-1) in
          d ← link_remove d l;
          let d := dictFreeUnlinkedEntry d (Some de) in
          d ← _dictShrinkIfNeeded d;
          Some (dictResumeRehashing d)
      end
  end.

End with_mode.
End with_type.

(** ** Iterators *)

(** [table], [index], [safe], the chain from [entry] on ([nil] for NULL), the
    chain from [nextEntry] on, [fingerprint]. *)
Record dictIterator := mkIter {
  it_table : bool;
  it_index : Z;
  it_safe : bool;
  it_entry : list (K * V);
  it_nextEntry : list (K * V);
  it_fingerprint : Z;
}.

(** The assignments of a round of the loop of [dictFingerprint], in their order;
    [xs k] is [hash ^ (hash >> k)]. *)
Definition mix1 (hash : Z) : Z := u64 (Z.lxor hash (2 ^ 64 - 1) + u64 (hash <<< 21)).
Definition mix2 (hash : Z) : Z := u64 (u64 (hash + u64 (hash <<< 3)) + u64 (hash <<< 8)).
Definition mix3 (hash : Z) : Z := u64 (u64 (hash + u64 (hash <<< 2)) + u64 (hash <<< 4)).
Definition mix4 (hash : Z) : Z := u64 (hash + u64 (hash <<< 31)).
Definition xs (k hash : Z) : Z := Z.lxor hash (hash >>> k).

Definition fingerprint_step (hash integer : Z) : Z :=
  mix4 (xs 28 (mix3 (xs 14 (mix2 (xs 24 (mix1 (u64 (hash + integer)))))))).

(** [addr i] is the address of table [i], as a number. *)
Definition dictFingerprint (addr : bool -> Z) (d : dict) : Z :=
  foldl fingerprint_step 0
    [u64 (addr false); u64 (ht_size_exp (ht0 d)); ht_used (ht0 d);
     u64 (addr true); u64 (ht_size_exp (ht1 d)); ht_used (ht1 d)].

Definition dictInitIterator : dictIterator := mkIter false (-1) false [] [] 0.
Definition dictInitSafeIterator : dictIterator := mkIter false (-1) true [] [] 0.

(** [None] also for the failed assertion. *)
Definition dictResetIterator (addr : bool -> Z) (iter : dictIterator) (d : dict) : option dict :=
  if negb ((it_index iter =? -1) && negb (it_table iter)) then
    if it_safe iter then Some (dictResumeRehashing d)
    else if it_fingerprint iter =? dictFingerprint addr d then Some d else None
  else Some d.

(** The first call: pause rehashing or take the fingerprint, skip the buckets
    already moved. *)
Definition iter_start (addr : bool -> Z) (iter : dictIterator) (d : dict) : dictIterator * dict :=
  if (it_index iter =? -1) && negb (it_table iter) then
    let '(fp, d) := if it_safe iter then (it_fingerprint iter, dictPauseRehashing d)
                    else (dictFingerprint addr d, d) in
    (mkIter (it_table iter) (if dictIsRehashing d then rehashidx d - 1 else it_index iter) (it_safe iter)
       (it_entry iter) (it_nextEntry iter) fp, d)
  else (iter, d).

(** [iter->index++] and the move to the second table: the chain of the bucket, or
    [None] for the [break]. *)
Definition step_bucket (iter : dictIterator) (d : dict) : option (dictIterator * option (list (K * V))) :=
  let at_ (table : bool) (index : Z) :=
    mkIter table index (it_safe iter) (it_entry iter) (it_nextEntry iter) (it_fingerprint iter) in
  let iter := at_ (it_table iter) (it_index iter + 1) in
  if it_index iter >=? DICTHT_SIZE (ht_size_exp (ht_of d (it_table iter))) then
    if dictIsRehashing d && negb (it_table iter) then
      entry ← get_bucket (ht_of d true) 0; Some (at_ true 0, Some entry)
    else Some (iter, None)
  else
    entry ← get_bucket (ht_of d (it_table iter)) (it_index iter); Some (iter, Some entry).

(** [iter->entry] is set, with [iter->nextEntry] when it is not NULL. *)
Definition set_entry (iter : dictIterator) (entry : list (K * V)) : dictIterator :=
  mkIter (it_table iter) (it_index iter) (it_safe iter) entry
    match entry with [] => it_nextEntry iter | _ :: next => next end (it_fingerprint iter).

(** The [while (1)] loop; it passes every bucket of the two tables at most once. *)
Fixpoint next_loop (fuel : nat) (addr : bool -> Z) (iter : dictIterator) (d : dict)
    : option (option (K * V) * dictIterator * dict) :=
  match fuel with
  | O => None
  | S fuel =>
      '(iter, d, entry) ←
        match it_entry iter with
        | _ :: _ => Some (iter, d, Some (it_nextEntry iter))
        | [] => let '(iter, d) := iter_start addr iter d in
                '(iter, entry) ← step_bucket iter d; Some (iter, d, entry)
        end;
      match entry with
      | None => Some (None, iter, d)
      | Some entry =>
          let iter := set_entry iter entry in
          match entry with
          | e :: _ => Some (Some e, iter, d)
          | [] => next_loop fuel addr iter d
          end
      end
  end.

Definition dictNext (addr : bool -> Z) (iter : dictIterator) (d : dict)
    : option (option (K * V) * dictIterator * dict) :=
  next_loop (S (S (S (Z.to_nat (DICTHT_SIZE (ht_size_exp (ht0 d)) + DICTHT_SIZE (ht_size_exp (ht1 d)))))))
    addr iter d.

(** ** Scanning *)

End dict.

(** The loop of [rev]. *)
Fixpoint rev_loop (fuel : nat) (s mask v : Z) : Z :=
  match fuel with
  | O => v
  | S fuel =>
      let s := s >>> 1 in
      if s >? 0 then
        let mask := Z.lxor mask (u64 (mask <<< s)) in
        rev_loop fuel s mask (((v >>> s) &&& mask) ||| (u64 (v <<< s) &&& Z.lxor mask (2 ^ 64 - 1)))
      else v
  end.

(** [s] is halved from 64 to 0 in seven rounds. *)
Definition rev (v : Z) : Z := rev_loop 7 64 (2 ^ 64 - 1) v.

(** [v |= ~m; v = rev(v); v++; v = rev(v)] *)
Definition next_cursor (m v : Z) : Z :=
  let v := v ||| Z.lxor m (2 ^ 64 - 1) in
  let v := rev v in
  let v := u64 (v + 1) in
  rev v.

Section scan.
Context {K V : Type}.
Abbreviation dict := (@dict K V).

(** The [do ... while (v & (m0 ^ m1))] loop: the cursor and what was emitted. *)
Fixpoint scan_expansions (fuel : nat) (t1 : ht) (m0 m1 v : Z) : option (Z * list (K * V)) :=
  match fuel with
  | O => None
  | S fuel =>
      b ← get_bucket t1 (v &&& m1);
      let v := next_cursor m1 v in
      if negb ((v &&& Z.lxor m0 m1) =? 0) then
        '(v, out) ← scan_expansions fuel t1 m0 m1 v; Some (v, b ++ out)
      else Some (v, b)
  end.

(** The cursor and the entries the callback is given, for a callback that does
    not change the dictionary. *)
Definition dictScan (d : dict) (v : Z) : option (Z * list (K * V)) :=
  if dictSize d =? 0 then Some (0, [])
  else if negb (dictIsRehashing d) then
    let m0 := DICTHT_SIZE_MASK (ht_size_exp (ht0 d)) in
    b ← get_bucket (ht0 d) (v &&& m0);
    Some (next_cursor m0 v, b)
  else
    let '(t0, t1) := if DICTHT_SIZE (ht_size_exp (ht0 d)) >? DICTHT_SIZE (ht_size_exp (ht1 d))
                     then (ht1 d, ht0 d) else (ht0 d, ht1 d) in
    let m0 := DICTHT_SIZE_MASK (ht_size_exp t0) in
    let m1 := DICTHT_SIZE_MASK (ht_size_exp t1) in
    b ← get_bucket t0 (v &&& m0);
    '(v, out) ← scan_expansions (Z.to_nat (DICTHT_SIZE (ht_size_exp t1))) t1 m0 m1 v;
    Some (v, b ++ out).

End scan.
