(* ===== verification/DictSpec.v ===== *)
(** * The dictionary is a finite map

    [wf] is the invariant of the two tables; [dict_map] the map a dictionary
    stands for, from what [keyCompare] sees of a key to the entry.  Moving entries
    between the tables, resizing and the lookups keep it; the insertions and the
    deletions are the ones of the map. *)

From stdpp Require Import gmap.
From S2P Require Import Prelude Dict.

(** What the code relies on of the functions of a [dictType]: [keyCompare]
    decides whether two keys have the same [canon]ical form, and keys with the
    same form have the same 64-bit hash. *)
Class DictKeys {K C : Type} (type : @dictType K) (canon : K -> C) : Prop := {
  keyCompare_iff (a b : K) : keyCompare type a b = true <-> canon a = canon b;
  hash_canon (a b : K) : canon a = canon b -> hashFunction type a = hashFunction type b;
  hash_range (a : K) : in_unsigned 64 (hashFunction type a);
}.

Section spec.
Context {K V C : Type} `{EqDecision K} `{Countable C}.
Context (type : @dictType K) (canon : K -> C) `{!DictKeys type canon}.

Abbreviation dict := (@dict K V).
Abbreviation ht := (@ht K V).
Abbreviation hash := (hashFunction type).

(** ** The invariant *)

(** The entries of a table, of the dictionary. *)
Definition ents (h : ht) : list (K * V) := match ht_table h with Some t => concat t | None => [] end.
Definition entries (d : dict) : list (K * V) := ents (ht0 d) ++ ents (ht1 d).

(** Every entry is in the bucket of its hash. *)
Definition placed (exp : Z) (t : list (list (K * V))) : Prop :=
  forall i b e, t !! i = Some b -> e ∈ b -> hash e.1 mod 2 ^ exp = Z.of_nat i.

Definition ht_shape (h : ht) : Prop :=
  match ht_table h with
  | None => h = reset_ht
  | Some t => 2 <= ht_size_exp h <= 60 /\ zlen t = 2 ^ ht_size_exp h /\ placed (ht_size_exp h) t
  end.

#[local] Arguments ht_shape : simpl never.

Definition ht_ok (h : ht) : Prop := ht_shape h /\ ht_used h = zlen (ents h).

(** The buckets of the first table before [rehashidx] are empty. *)
Definition moved (h : ht) (idx : Z) : Prop :=
  forall i, 0 <= i < idx -> get_bucket h i = Some [].

(** The sum of what [bucketChanged] was told. *)
Fixpoint told (cs : list (callback K V)) : Z :=
  match cs with
  | [] => 0
  | bucketChanged delta :: cs => delta + told cs
  | _ :: cs => told cs
  end.

(** The keys and values given to the destructors. *)
Fixpoint destroyed (cs : list (callback K V)) : list (K + V) :=
  match cs with
  | [] => []
  | keyDestructor k :: cs => inl k :: destroyed cs
  | valDestructor v :: cs => inr v :: destroyed cs
  | _ :: cs => destroyed cs
  end.

Record wf (d : dict) : Prop := {
  wf_ht0 : ht_ok (ht0 d);
  wf_ht1 : ht_ok (ht1 d);
  wf_nodup : NoDup (canon ∘ fst <$> entries d);
  wf_count : zlen (entries d) < 2 ^ 64;
  wf_rehash :
    (rehashidx d = -1 /\ ht1 d = reset_ht)
    \/ (0 <= rehashidx d <= 2 ^ ht_size_exp (ht0 d) /\ moved (ht0 d) (rehashidx d)
        /\ is_Some (ht_table (ht0 d)) /\ is_Some (ht_table (ht1 d)));
  wf_told : told (calls d) = DICTHT_SIZE (ht_size_exp (ht0 d)) + DICTHT_SIZE (ht_size_exp (ht1 d));
  wf_pause : in_unsigned 15 (pauserehash d);
}.

(** The map the dictionary stands for. *)
Definition dict_map (d : dict) : gmap C (K * V) := list_to_map ((fun e => (canon e.1, e)) <$> entries d).

(** Steps that move entries around and leave the rest alone. *)
Record same (d d' : dict) : Prop := {
  same_wf : wf d';
  same_entries : entries d' ≡ₚ entries d;
  same_destroyed : destroyed (calls d') = destroyed (calls d);
  same_pause : pauserehash d' = pauserehash d;
  same_pauseResize : pauseAutoResize d' = pauseAutoResize d;
  same_alloc : is_Some (ht_table (ht0 d)) -> is_Some (ht_table (ht0 d'));
}.

Lemma same_refl d : wf d -> same d d.
Proof. by constructor. Qed.

Lemma same_trans d1 d2 d3 : same d1 d2 -> same d2 d3 -> same d1 d3.
Proof.
  intros [W1 E1 D1 P1 R1 A1] [W2 E2 D2 P2 R2 A2]. constructor; [done|by rewrite E2|congruence..|auto].
Qed.

Lemma told_app a b : told (a ++ b) = told a + told b.
Proof. induction a as [|[] a IH]; simpl; rewrite ?IH; lia. Qed.

Lemma destroyed_app a b : destroyed (a ++ b) = destroyed a ++ destroyed b.
Proof. induction a as [|[] a IH]; simpl; rewrite ?IH; done. Qed.

(** ** Tables *)

Lemma size_exp e : 0 <= e -> DICTHT_SIZE e = 2 ^ e.
Proof.
  intros. unfold DICTHT_SIZE. zcase. rewrite Z.shiftl_mul_pow2 by lia. lia.
Qed.

Lemma mask_exp e : 0 <= e -> DICTHT_SIZE_MASK e = 2 ^ e - 1.
Proof. intros. unfold DICTHT_SIZE_MASK. rewrite size_exp by lia. zcase. Qed.

Lemma mask_mod e x : 0 <= e -> x &&& DICTHT_SIZE_MASK e = x mod 2 ^ e.
Proof. intros. rewrite mask_exp by lia. by apply land_mod. Qed.

(** The table is split at a bucket. *)
Definition split_at (h : ht) (i : Z) (l1 : list (list (K * V))) (b : list (K * V)) (l2 : list (list (K * V))) : Prop :=
  ht_table h = Some (l1 ++ b :: l2) /\ zlen l1 = i.

Lemma shape_split h i :
  ht_shape h -> is_Some (ht_table h) -> 0 <= i < 2 ^ ht_size_exp h -> exists l1 b l2, split_at h i l1 b l2.
Proof.
  intros Hs [t Ht] Hi. unfold ht_shape in Hs. rewrite Ht in Hs. destruct Hs as (_ & Hl & _).
  destruct (lookup_Z_lt t i) as [b Hb]; [lia|].
  exists (take (Z.to_nat i) t), b, (drop (S (Z.to_nat i)) t). split.
  - rewrite Ht. f_equal. symmetry. by apply take_drop_middle.
  - unfold zlen in *. rewrite length_take. lia.
Qed.

Lemma get_split h i l1 b l2 : split_at h i l1 b l2 -> get_bucket h i = Some b.
Proof.
  intros [Ht <-]. unfold get_bucket. rewrite Ht. sbind.
  rewrite (proj2 (Z.leb_le _ _)) by apply zlen_nonneg. by rewrite to_nat_zlen, list_lookup_middle.
Qed.

Lemma set_split h i l1 b l2 b' :
  split_at h i l1 b l2 ->
  set_bucket h i b' = Some (mkHt (Some (l1 ++ b' :: l2)) (ht_used h) (ht_size_exp h)).
Proof.
  intros [Ht <-]. unfold set_bucket. rewrite Ht. sbind.
  rewrite (proj2 (Z.leb_le _ _)) by apply zlen_nonneg. rewrite (proj2 (Z.ltb_lt _ _)) by zlen_solve.
  cbn. by rewrite to_nat_zlen, insert_app_r_alt, Nat.sub_diag by lia.
Qed.

Lemma ents_split h i l1 b l2 : split_at h i l1 b l2 -> ents h = concat l1 ++ b ++ concat l2.
Proof. intros [Ht _]. unfold ents. by rewrite Ht, concat_app. Qed.

(** Replacing the contents of a bucket. *)
Lemma shape_set h i l1 b l2 b' u :
  ht_shape h -> split_at h i l1 b l2 ->
  (forall e, e ∈ b' -> hash e.1 mod 2 ^ ht_size_exp h = i) ->
  ht_shape (mkHt (Some (l1 ++ b' :: l2)) u (ht_size_exp h)).
Proof.
  intros Hs [Ht Hi] Hb. unfold ht_shape in *. rewrite Ht in Hs. cbn.
  destruct Hs as (He & Hl & Hp). split; [done|]. split; [revert Hl; zlen_solve|].
  intros j c e Hj Hc. destruct (decide (j = length l1)) as [->|Hne].
  - rewrite list_lookup_middle in Hj by done. simplify_eq. unfold zlen in Hb. auto.
  - apply (Hp j c e); [|done]. rewrite <- Hj. destruct (decide (j < length l1)%nat).
    + by rewrite !lookup_app_l by lia.
    + rewrite !lookup_app_r by lia. destruct (j - length l1)%nat eqn:E; [lia|done].
Qed.

Lemma shape_bucket h i l1 b l2 e :
  ht_shape h -> split_at h i l1 b l2 -> e ∈ b -> hash e.1 mod 2 ^ ht_size_exp h = i.
Proof.
  intros Hs [Ht <-] He. unfold ht_shape in Hs. rewrite Ht in Hs. destruct Hs as (_ & _ & Hp).
  apply (Hp (length l1) b e); [by apply list_lookup_middle|done].
Qed.

Lemma shape_exp h : ht_shape h -> is_Some (ht_table h) -> 2 <= ht_size_exp h <= 60.
Proof. intros Hs [t Ht]. unfold ht_shape in Hs. rewrite Ht in Hs. tauto. Qed.

(** An entry of a table is in the bucket of its hash. *)
Lemma ents_bucket h e :
  ht_shape h -> e ∈ ents h ->
  exists l1 b l2, split_at h (hash e.1 mod 2 ^ ht_size_exp h) l1 b l2 /\ e ∈ b.
Proof.
  intros Hs He. unfold ents in He. destruct (ht_table h) as [t|] eqn:Ht; [|by apply elem_of_nil in He].
  apply list_elem_of_In, in_concat in He as (b & Hb%list_elem_of_In & He%list_elem_of_In).
  apply list_elem_of_split in Hb as (l1 & l2 & ->).
  exists l1, b, l2. split; [|done]. split; [done|]. unfold ht_shape in Hs. rewrite Ht in Hs.
  destruct Hs as (_ & _ & Hp). symmetry. unfold zlen. apply (Hp (length l1) b e); [|done].
  by apply list_lookup_middle.
Qed.

(** ** Moving the entries of a bucket *)

Lemma u64_small x : 0 <= x < 2 ^ 64 -> u64 x = x.
Proof. apply wrap_small. Qed.

(** The bucket of the second table an entry of bucket [idx] moves to. *)
Lemma rehash_target (d : dict) (idx : Z) (k : K) :
  2 <= ht_size_exp (ht0 d) -> 2 <= ht_size_exp (ht1 d) ->
  hash k mod 2 ^ ht_size_exp (ht0 d) = idx ->
  (if ht_size_exp (ht1 d) >? ht_size_exp (ht0 d)
   then hash k &&& DICTHT_SIZE_MASK (ht_size_exp (ht1 d))
   else idx &&& DICTHT_SIZE_MASK (ht_size_exp (ht1 d))) = hash k mod 2 ^ ht_size_exp (ht1 d).
Proof.
  intros H0 H1 <-. rewrite !mask_mod by lia. zcase.
  apply Z.mod_mod_divide.
  replace (ht_size_exp (ht0 d)) with (ht_size_exp (ht1 d) + (ht_size_exp (ht0 d) - ht_size_exp (ht1 d))) by lia.
  rewrite Z.pow_add_r by lia. apply Z.divide_factor_l.
Qed.

Lemma rehash_entries_spec de : forall (d : dict) idx,
  2 <= ht_size_exp (ht0 d) -> ht_shape (ht1 d) -> is_Some (ht_table (ht1 d)) ->
  (forall e, e ∈ de -> hash e.1 mod 2 ^ ht_size_exp (ht0 d) = idx) ->
  zlen de <= ht_used (ht0 d) < 2 ^ 64 -> 0 <= ht_used (ht1 d) -> ht_used (ht1 d) + zlen de < 2 ^ 64 ->
  exists t1, rehash_entries type d idx de
    = Some (with_ht1 (with_ht0 d (with_used (ht0 d) (ht_used (ht0 d) - zlen de)))
              (mkHt (Some t1) (ht_used (ht1 d) + zlen de) (ht_size_exp (ht1 d))))
    /\ (forall u, ht_shape (mkHt (Some t1) u (ht_size_exp (ht1 d)))) /\ concat t1 ≡ₚ de ++ ents (ht1 d).
Proof.
  induction de as [|[k v] de IH]; intros d idx He0 Hs1 Ha1 Hde Hu0 Hu1 Hu1'.
  - destruct Ha1 as [t1 Ht1]. exists t1. cbn [rehash_entries]. split.
    + change (zlen (@nil (K * V))) with 0. rewrite Z.sub_0_r, Z.add_0_r. destruct d as [[] [] ? ? ? ?]; cbn in *; by subst.
    + split; [|unfold ents; by rewrite Ht1].
      intros u. unfold ht_shape in *. rewrite Ht1 in Hs1. exact Hs1.
  - pose proof (shape_exp _ Hs1 Ha1) as He1. rewrite zlen_cons in *.
    pose proof (zlen_nonneg de) as Hn.
    destruct (shape_split _ (hash k mod 2 ^ ht_size_exp (ht1 d)) Hs1 Ha1) as (l1 & b & l2 & Hsp).
    { apply Z.mod_pos_bound. lia. }
    cbn [rehash_entries]. cbv zeta. rewrite rehash_target; [|lia|lia|by apply (Hde (k, v)), list_elem_of_here].
    rewrite (get_split _ _ _ _ _ Hsp). sbind. rewrite (set_split _ _ _ _ _ _ Hsp). sbind. cbn.
    rewrite !u64_small by lia.
    match goal with |- context [rehash_entries type ?d' idx de] =>
      destruct (IH d' idx) as (t1 & -> & Hsh & Hp) end; cbn in *; [lia| |done| |lia..|].
    + apply (shape_set _ _ _ _ _ _ _ Hs1 Hsp). intros e [->|He]%elem_of_cons; [done|].
      by apply (shape_bucket _ _ _ _ _ _ Hs1 Hsp).
    + intros e He. apply Hde. by right.
    + exists t1. split; [|split; [done|]].
      * replace (ht_used (ht0 d) - (1 + zlen de)) with (ht_used (ht0 d) - 1 - zlen de) by lia.
        by replace (ht_used (ht1 d) + (1 + zlen de)) with (ht_used (ht1 d) + 1 + zlen de) by lia.
      * rewrite Hp. rewrite (ents_split _ _ _ _ _ Hsp). unfold ents; cbn.
        rewrite concat_app. cbn. solve_Permutation.
Qed.

Lemma moved_split h h' idx i l1 b l2 :
  moved h idx -> split_at h i l1 b l2 -> ht_table h' = Some (l1 ++ [] :: l2) -> moved h' idx.
Proof.
  intros Hm [Ht Hi] Ht' j Hj. specialize (Hm j Hj). unfold get_bucket in *. rewrite Ht in Hm. rewrite Ht'.
  revert Hm. sbind. zcase. destruct (decide (Z.to_nat j = length l1)) as [->|Hne].
  - by rewrite !list_lookup_middle.
  - destruct (decide (Z.to_nat j < length l1)%nat).
    + by rewrite !lookup_app_l by lia.
    + rewrite !lookup_app_r by lia. destruct (Z.to_nat j - length l1)%nat eqn:E; [lia|done].
Qed.

Lemma wf_alloc d : wf d -> rehashidx d <> -1 -> is_Some (ht_table (ht0 d)) /\ is_Some (ht_table (ht1 d)).
Proof. intros W Hr. destruct (wf_rehash _ W) as [[]|(_ & _ & ? & ?)]; done. Qed.

Lemma entries_perm_wf d d' :
  wf d -> entries d' ≡ₚ entries d ->
  NoDup (canon ∘ fst <$> entries d') /\ zlen (entries d') < 2 ^ 64.
Proof.
  intros W Hp. split.
  - rewrite Hp. apply W.
  - unfold zlen. rewrite Hp. apply W.
Qed.

Lemma rehashEntries_spec d idx :
  wf d -> rehashidx d <> -1 -> 0 <= idx < 2 ^ ht_size_exp (ht0 d) ->
  exists d', rehashEntriesInBucketAtIndex type d idx = Some d' /\ same d d'
    /\ rehashidx d' = rehashidx d /\ ht_size_exp (ht0 d') = ht_size_exp (ht0 d)
    /\ ht_size_exp (ht1 d') = ht_size_exp (ht1 d) /\ get_bucket (ht0 d') idx = Some [].
Proof.
  intros W Hr Hi. destruct (wf_alloc d W Hr) as [Ha0 Ha1].
  destruct (wf_ht0 _ W) as [Hs0 Hu0]. destruct (wf_ht1 _ W) as [Hs1 Hu1].
  destruct (shape_split _ _ Hs0 Ha0 Hi) as (l1 & b & l2 & Hsp).
  pose proof (shape_exp _ Hs0 Ha0). pose proof (shape_exp _ Hs1 Ha1).
  pose proof (ents_split _ _ _ _ _ Hsp) as He0.
  pose proof (wf_count _ W) as Hc. unfold entries in Hc. rewrite He0 in Hc. rewrite He0 in Hu0.
  unfold rehashEntriesInBucketAtIndex. rewrite (get_split _ _ _ _ _ Hsp). sbind.
  destruct (rehash_entries_spec b d idx) as (t1 & -> & Hsh & Hp);
    [lia|done|done|by intros; eapply shape_bucket|zlen_solve..|].
  sbind. cbn [ht0 ht1 with_ht0 with_ht1].
  assert (Hsp' : split_at (with_used (ht0 d) (ht_used (ht0 d) - zlen b)) idx l1 b l2) by exact Hsp.
  rewrite (set_split _ _ _ _ _ _ Hsp'). sbind. eexists. split; [done|]. cbn.
  assert (Hpe : entries (with_ht1 (with_ht0 d (mkHt (Some (l1 ++ [] :: l2)) (ht_used (ht0 d) - zlen b)
                   (ht_size_exp (ht0 d)))) (mkHt (Some t1) (ht_used (ht1 d) + zlen b) (ht_size_exp (ht1 d))))
                ≡ₚ entries d).
  { unfold entries. rewrite He0. unfold ents at 1 2; cbn. rewrite Hp, concat_app. cbn. solve_Permutation. }
  destruct (entries_perm_wf _ _ W Hpe) as [Hnd Hcnt].
  split; [|split; [done|split; [done|split; [done|]]]].
  - constructor; [|exact Hpe|done..|by eexists]. constructor; [| |exact Hnd|exact Hcnt| |apply W|apply W]; cbn.
    + split; cbn.
      * apply (shape_set _ _ _ _ _ _ _ Hs0 Hsp). intros e He. by apply elem_of_nil in He.
      * rewrite Hu0. unfold ents; cbn. rewrite concat_app. cbn. zlen_solve.
    + split; cbn; [apply Hsh|]. rewrite Hu1. unfold ents; cbn. unfold zlen. rewrite Hp, length_app. unfold ents; lia.
    + right. destruct (wf_rehash _ W) as [[]|(Hri & Hm & _)]; [done|].
      split; [done|]. split; [|split; eauto]. by eapply moved_split.
  - exact (get_split (mkHt (Some (l1 ++ [] :: l2)) 0 0) idx l1 [] l2 (conj eq_refl (proj2 Hsp))).
Qed.

(** ** Rehashing *)

Lemma same_rehashidx d i :
  wf d -> rehashidx d <> -1 -> 0 <= i <= 2 ^ ht_size_exp (ht0 d) -> moved (ht0 d) i ->
  same d (with_rehashidx d i).
Proof.
  intros W Hr Hi Hm. constructor; [|done..]. constructor; try apply W.
  right. cbn. pose proof (wf_alloc d W Hr). tauto.
Qed.

Lemma moved_S h i : moved h i -> get_bucket h i = Some [] -> moved h (i + 1).
Proof. intros Hm Hb j Hj. destruct (decide (j = i)) as [->|]; [done|]. apply Hm. lia. Qed.

(** While the first table has an entry, there is one at or after [rehashidx]. *)
Lemma rehash_pending d :
  wf d -> rehashidx d <> -1 -> ht_used (ht0 d) <> 0 ->
  exists j e b, rehashidx d <= j < 2 ^ ht_size_exp (ht0 d) /\ get_bucket (ht0 d) j = Some (e :: b).
Proof.
  intros W Hr Hu. destruct (wf_ht0 _ W) as [Hs Hc]. rewrite Hc in Hu.
  destruct (ents (ht0 d)) as [|e es] eqn:E; [done|].
  destruct (ents_bucket (ht0 d) e Hs) as (l1 & b & l2 & Hsp & He); [rewrite E; apply list_elem_of_here|].
  pose proof (get_split _ _ _ _ _ Hsp) as Hg. destruct b as [|e' b]; [by apply elem_of_nil in He|].
  destruct (wf_alloc d W Hr) as [Ha _]. pose proof (shape_exp _ Hs Ha).
  pose proof (Z.mod_pos_bound (hash e.1) (2 ^ ht_size_exp (ht0 d)) ltac:(lia)).
  exists (hash e.1 mod 2 ^ ht_size_exp (ht0 d)), e', b. split; [split; [|lia]|exact Hg].
  destruct (wf_rehash _ W) as [[]|(_ & Hm & _)]; [done|].
  destruct (decide (rehashidx d <= hash e.1 mod 2 ^ ht_size_exp (ht0 d))); [done|].
  rewrite Hm in Hg by lia. done.
Qed.

Lemma skip_empty_spec fuel : forall (d : dict) ev j e b,
  moved (ht0 d) (rehashidx d) -> rehashidx d <= j -> get_bucket (ht0 d) j = Some (e :: b) ->
  (forall i, rehashidx d <= i <= j -> is_Some (get_bucket (ht0 d) i)) ->
  j - rehashidx d < Z.of_nat fuel ->
  exists i ev' ret, skip_empty fuel d ev = Some (with_rehashidx d i, ev', ret)
    /\ rehashidx d <= i <= j /\ moved (ht0 d) i /\ (ret = true -> rehashidx d < i).
Proof.
  induction fuel as [|fuel IH]; intros d ev j e b Hm Hj Hb Hin Hf; [lia|].
  cbn [skip_empty]. destruct (Hin (rehashidx d)) as [b0 Hb0]; [lia|]. rewrite Hb0. sbind.
  destruct b0 as [|e0 b0].
  - assert (rehashidx d <> j) by congruence. zcase.
    + eexists _, _, _. split; [done|]. split; [lia|]. split; [by apply moved_S|lia].
    + destruct (IH (with_rehashidx d (rehashidx d + 1)) (ev - 1) j e b) as (i & ev' & ret & -> & Hi & Hm' & Hr); cbn in *.
      * by apply moved_S.
      * lia.
      * done.
      * intros; apply Hin; lia.
      * lia.
      * exists i, ev', ret. split; [done|]. split; [lia|]. split; [done|]. lia.
  - eexists (rehashidx d), ev, false. split; [by destruct d|]. split; [lia|done].
Qed.

Lemma check_completed d :
  wf d -> rehashidx d <> -1 ->
  exists c d', dictCheckRehashingCompleted d = (c, d') /\ same d d'
    /\ (if c then rehashidx d' = -1 else d' = d).
Proof.
  intros W Hr. unfold dictCheckRehashingCompleted. zcase; cbn [negb].
  - eexists _, _. split; [done|]. split; [|done].
    destruct (wf_ht0 _ W) as [Hs0 Hu0]. destruct (wf_ht1 _ W) as [Hs1 Hu1].
    assert (He : ents (ht0 d) = []) by (apply length_zero_iff_nil; unfold zlen in *; lia).
    assert (Hen : entries d = ents (ht1 d)) by (unfold entries; by rewrite He).
    constructor; cbn; [| |rewrite !destroyed_app; by rewrite !app_nil_r|done..|intros _; by apply wf_alloc].
    + constructor; cbn; [done| | | |by left| |apply W].
      * done.
      * unfold entries; cbn. rewrite app_nil_r, <- Hen. apply W.
      * unfold entries; cbn. rewrite app_nil_r, <- Hen. apply W.
      * rewrite !told_app, (wf_told _ W). cbn. lia.
    + unfold entries; cbn. by rewrite app_nil_r, He.
  - eexists _, _. split; [done|]. split; [by apply same_refl|done].
Qed.

Lemma wf_bucket_some d i : wf d -> rehashidx d <> -1 -> 0 <= i < 2 ^ ht_size_exp (ht0 d) ->
  is_Some (get_bucket (ht0 d) i).
Proof.
  intros W Hr Hi. destruct (wf_alloc d W Hr) as [Ha _]. destruct (wf_ht0 _ W) as [Hs _].
  destruct (shape_split _ _ Hs Ha Hi) as (? & b & ? & Hsp). exists b. by eapply get_split.
Qed.

(** [dictRehash] either completes or leaves the table with the index further. *)
Definition rehash_result (d : dict) (n : nat) (more : bool) (d' : dict) : Prop :=
  same d d'
  /\ if more then rehashidx d' <> -1 /\ ht_size_exp (ht0 d') = ht_size_exp (ht0 d)
                  /\ ht_size_exp (ht1 d') = ht_size_exp (ht1 d)
                  /\ rehashidx d <= rehashidx d' /\ ((0 < n)%nat -> rehashidx d < rehashidx d')
     else rehashidx d' = -1.

Lemma loop_end d :
  wf d -> rehashidx d <> -1 ->
  exists more d', (let '(completed, d) := dictCheckRehashingCompleted d in Some (negb completed, d)) = Some (more, d')
    /\ same d d' /\ (if more then d' = d else rehashidx d' = -1).
Proof.
  intros W Hr. destruct (check_completed d W Hr) as (c & d' & -> & Hs & Hc).
  exists (negb c), d'. split; [done|]. split; [done|]. by destruct c.
Qed.

Lemma rehashidx_range d : wf d -> rehashidx d <> -1 ->
  0 <= rehashidx d <= 2 ^ ht_size_exp (ht0 d) /\ moved (ht0 d) (rehashidx d) /\ 2 <= ht_size_exp (ht0 d) <= 60
  /\ 2 <= ht_size_exp (ht1 d) <= 60.
Proof.
  intros W Hr. destruct (wf_rehash _ W) as [[]|(Hi & Hm & Ha & Ha1)]; [done|].
  split; [done|]. split; [done|].
  split; [exact (shape_exp _ (proj1 (wf_ht0 _ W)) Ha)|exact (shape_exp _ (proj1 (wf_ht1 _ W)) Ha1)].
Qed.

Lemma rehash_loop_spec n : forall d ev, wf d -> rehashidx d <> -1 ->
  exists more d', rehash_loop type n d ev = Some (more, d') /\ rehash_result d n more d'.
Proof.
  induction n as [|n IH]; intros d ev W Hr; cbn [rehash_loop].
  { destruct (loop_end d W Hr) as (more & d' & -> & Hs & Hm). exists more, d'. split; [done|]. split; [done|].
    destruct more; subst; [repeat split; lia || done|done]. }
  destruct (Z.eqb_spec (ht_used (ht0 d)) 0) as [Hz|Hz].
  { destruct (loop_end d W Hr) as (more & d' & Heq & Hs & Hm). exists more, d'. split; [done|]. split; [done|].
    destruct more; [|done]. exfalso. revert Heq. unfold dictCheckRehashingCompleted. by rewrite Hz. }
  destruct (rehash_pending d W Hr Hz) as (j & e & b & Hj & Hb).
  destruct (rehashidx_range d W Hr) as (Hi & Hm & Hexp & _). rewrite size_exp by lia. zcase.
  destruct (skip_empty_spec (S (Z.to_nat (2 ^ ht_size_exp (ht0 d) - rehashidx d))) d ev j e b)
    as (i & ev' & ret & -> & Hri & Hmi & Hret); [done|lia|done|intros; apply wf_bucket_some; done || lia|lia|].
  sbind. pose proof (same_rehashidx d i W Hr ltac:(lia) Hmi) as Hsm. destruct ret.
  { eexists _, _. split; [done|]. split; [done|]. cbn. specialize (Hret eq_refl). repeat split; lia. }
  destruct (rehashEntries_spec (with_rehashidx d i) i) as (d1 & H1 & Hs1 & Hi1 & He1 & He1' & Hb1);
    [apply Hsm|cbn; lia..|]. cbn [rehashidx with_rehashidx]. rewrite H1. sbind. cbn in Hi1, He1, He1'.
  assert (Hm1 : moved (ht0 d1) (i + 1)).
  { apply moved_S; [|done]. rewrite <- Hi1. apply rehashidx_range; [apply Hs1|lia]. }
  pose proof (same_rehashidx d1 (i + 1) (same_wf _ _ Hs1) ltac:(lia) ltac:(rewrite He1; lia) Hm1) as Hs2.
  destruct (IH (with_rehashidx d1 (rehashidx d1 + 1)) ev') as (more & d' & -> & Hs3 & Hmore).
  { rewrite Hi1. apply Hs2. } { cbn; lia. }
  exists more, d'. split; [done|]. rewrite Hi1 in *. split.
  - by eapply same_trans, same_trans, same_trans.
  - destruct more; [|done]. cbn in Hmore. destruct Hmore as (? & He' & He'' & ? & ?). rewrite He', He1, He'', He1'.
    repeat split; lia.
Qed.

Section modes.
Context (mode : dictResizeEnable).

Lemma avoided_false (d : dict) : rehash_avoided mode d = false -> rehashidx d <> -1.
Proof.
  unfold rehash_avoided, dictIsRehashing. rewrite !orb_false_iff, negb_false_iff, negb_true_iff.
  intros [[_ Hr] _]. by apply Z.eqb_neq.
Qed.

Lemma avoided_sizes (d d' : dict) :
  ht_size_exp (ht0 d) = ht_size_exp (ht0 d') -> ht_size_exp (ht1 d) = ht_size_exp (ht1 d') ->
  rehashidx d <> -1 -> rehashidx d' <> -1 -> rehash_avoided mode d = rehash_avoided mode d'.
Proof.
  intros H0 H1 Hr Hr'. unfold rehash_avoided, dictIsRehashing. rewrite H0, H1.
  by rewrite !(proj2 (Z.eqb_neq _ _)) by done.
Qed.

Lemma dictRehash_spec d n :
  wf d -> exists more d', dictRehash type mode d n = Some (more, d')
    /\ (if rehash_avoided mode d then more = false /\ d' = d else rehash_result d n more d').
Proof.
  intros W. unfold dictRehash. destruct (rehash_avoided mode d) eqn:E.
  - by eexists _, _.
  - by apply rehash_loop_spec, avoided_false.
Qed.

(** A step of rehashing goes on with the same first table, or ends it. *)
Definition same_step (d d' : dict) : Prop :=
  same d d' /\ (rehashidx d' <> -1 -> rehashidx d <> -1 /\ ht_size_exp (ht0 d') = ht_size_exp (ht0 d)).

Lemma same_step_refl d : wf d -> same_step d d.
Proof. intros W. split; [by apply same_refl|done]. Qed.

Lemma dictRehash_same d n : wf d -> exists more d', dictRehash type mode d n = Some (more, d') /\ same_step d d'.
Proof.
  intros W. destruct (dictRehash_spec d n W) as (more & d' & -> & Hr). exists more, d'. split; [done|].
  destruct (rehash_avoided mode d) eqn:E; [destruct Hr; subst; by apply same_step_refl|].
  split; [apply Hr|]. intros Hr'. destruct more; [|by destruct Hr]. split; [by apply avoided_false|apply Hr].
Qed.

Lemma rehashStep_same d : wf d -> exists d', _dictRehashStep type mode d = Some d' /\ same_step d d'.
Proof.
  intros W. unfold _dictRehashStep. zcase; [|eauto 8 using same_step_refl].
  destruct (dictRehash_same d 1 W) as (more & d' & -> & Hs). by exists d'.
Qed.

Lemma bucketRehash_same d idx :
  wf d -> 0 <= idx < 2 ^ ht_size_exp (ht0 d) ->
  exists r d', _dictBucketRehash type mode d idx = Some (r, d') /\ same_step d d'.
Proof.
  intros W Hi. unfold _dictBucketRehash. zcase; cbn [negb]; [|eauto 8 using same_step_refl].
  destruct (rehash_avoided mode d) eqn:E; [eauto 8 using same_step_refl|]. apply avoided_false in E.
  destruct (rehashEntries_spec d idx W E Hi) as (d1 & -> & Hs & Hr & He & _). sbind.
  destruct (check_completed d1) as (c & d' & -> & Hs' & Hc); [apply Hs|congruence|].
  eexists _, _. split; [done|]. split; [by eapply same_trans|]. destruct c; [done|]. by subst.
Qed.

Lemma rehashStepIfNeeded_same d idx :
  wf d -> (rehashidx d <> -1 -> 0 <= idx < 2 ^ ht_size_exp (ht0 d)) ->
  exists d', _dictRehashStepIfNeeded type mode d idx = Some d' /\ same_step d d'.
Proof.
  intros W Hi. unfold _dictRehashStepIfNeeded, dictIsRehashing.
  destruct (Z.eqb_spec (rehashidx d) (-1)) as [|Hr]; cbn [negb orb]; [eauto 8 using same_step_refl|].
  destruct (negb (pauserehash d =? 0)); [eauto 8 using same_step_refl|]. specialize (Hi Hr).
  destruct (dictRehash_same d 1 W) as (more & d1 & H1 & Hs1). rewrite H1.
  zcase; [|by exists d1].
  destruct (wf_bucket_some d idx W Hr Hi) as [b Hb]. rewrite Hb. sbind. destruct b as [|e b]; [by exists d1|].
  destruct (bucketRehash_same d idx W Hi) as (r & d2 & -> & Hs2). by exists d2.
Qed.

(** ** Resizing *)

(** [while (dictRehash(d, n))] ends. *)
Lemma full_rehash_spec fuel : forall d,
  wf d -> 2 ^ ht_size_exp (ht0 d) - rehashidx d < Z.of_nat fuel ->
  exists d', full_rehash type mode fuel d = Some d' /\ same d d'
    /\ (if rehash_avoided mode d then d' = d else rehashidx d' = -1).
Proof.
  induction fuel as [|fuel IH]; intros d W Hf.
  { destruct (decide (rehashidx d = -1)) as [Hr|Hr].
    - assert (0 <= 2 ^ ht_size_exp (ht0 d)) by (apply Z.pow_nonneg; lia). lia.
    - pose proof (rehashidx_range d W Hr). lia. }
  cbn [full_rehash]. destruct (dictRehash_spec d 1000 W) as (more & d1 & -> & H1). sbind.
  destruct (rehash_avoided mode d) eqn:E.
  - destruct H1 as [-> ->]. exists d. split; [done|]. split; [by apply same_refl|done].
  - destruct H1 as [Hs H1]. destruct more; [|exists d1; tauto]. destruct H1 as (Hr1 & He & He' & _ & Hlt).
    specialize (Hlt ltac:(lia)). destruct (IH d1) as (d' & -> & Hs' & Hd'); [apply Hs|rewrite He; lia|].
    exists d'. split; [done|]. split; [by eapply same_trans|].
    by rewrite (avoided_sizes d1 d), E in Hd' by (done || by apply avoided_false).
Qed.

Lemma nextExp_range size : 0 <= size < 2 ^ 64 -> 2 <= _dictNextExp size <= 63.
Proof.
  intros Hs. unfold _dictNextExp, clzl, LONG_MAX, DICT_HT_INITIAL_SIZE, DICT_HT_INITIAL_EXP.
  change (1 <<< 2) with 4. zcase.
  assert (2 <= Z.log2 (size - 1)) by (change 2 with (Z.log2 4) at 1; apply Z.log2_le_mono; lia).
  assert (Z.log2 (size - 1) < 63) by (apply Z.log2_lt_pow2; lia). lia.
Qed.

(** The least power of two that is enough, and at least 4. *)
Lemma nextExp_least size :
  0 <= size < LONG_MAX -> size <= 2 ^ _dictNextExp size
    /\ (_dictNextExp size = 2 \/ 2 ^ (_dictNextExp size - 1) < size).
Proof.
  intros Hs. unfold _dictNextExp, clzl, DICT_HT_INITIAL_SIZE, DICT_HT_INITIAL_EXP in *.
  change (1 <<< 2) with 4. zcase.
  destruct (Z.log2_spec (size - 1)) as [Hlo Hhi]; [lia|].
  replace (8 * 8 - (63 - Z.log2 (size - 1))) with (Z.succ (Z.log2 (size - 1))) by lia.
  replace (Z.succ (Z.log2 (size - 1)) - 1) with (Z.log2 (size - 1)) by lia. lia.
Qed.

Lemma newsize_exp e :
  2 <= e <= 63 -> (u64 (DICTHT_SIZE e * 8) <? DICTHT_SIZE e) = false -> e <= 60.
Proof.
  intros He. rewrite size_exp by lia. intros Hf%Z.ltb_ge. destruct (decide (e <= 60)); [done|].
  replace (2 ^ e * 8) with (2 ^ (e - 61) * 2 ^ 64) in Hf.
  - unfold wrap in Hf. rewrite Z.mod_mul in Hf by lia. pose proof (Z.pow_pos_nonneg 2 e). lia.
  - change 8 with (2 ^ 3). rewrite <- !Z.pow_add_r by lia. f_equal. lia.
Qed.

Lemma concat_repeat_nil {A} n : concat (repeat (@nil A) n) = [].
Proof. induction n; done. Qed.

Lemma new_ht_ok e : 2 <= e <= 60 -> ht_ok (mkHt (Some (repeat [] (Z.to_nat (DICTHT_SIZE e)))) 0 e : ht).
Proof.
  intros He. rewrite size_exp by lia. split.
  - unfold ht_shape; cbn. split; [lia|]. split.
    + unfold zlen. rewrite repeat_length. lia.
    + intros i b x Hi Hx. apply list_elem_of_lookup_2, list_elem_of_In, repeat_spec in Hi.
      subst. by apply elem_of_nil in Hx.
  - unfold ents; cbn. by rewrite concat_repeat_nil.
Qed.

(** The table is made for the entries to be moved to. *)
Lemma start_rehash d e :
  wf d -> rehashidx d = -1 -> is_Some (ht_table (ht0 d)) -> 2 <= e <= 60 ->
  let new_ht := mkHt (Some (repeat [] (Z.to_nat (DICTHT_SIZE e)))) 0 e in
  same d (call (call (with_rehashidx (with_ht1 d new_ht) 0) rehashingStarted) (bucketChanged (DICTHT_SIZE e))).
Proof.
  intros W Hr Ha He. cbv zeta. pose proof (new_ht_ok e He) as Hnew.
  destruct (wf_rehash _ W) as [[_ H1]|(? & _)]; [|lia].
  pose proof (shape_exp _ (proj1 (wf_ht0 _ W)) Ha).
  assert (Hen : forall h : ht, ents h = [] -> entries (with_ht1 d h) = entries d).
  { intros h Hh. unfold entries; cbn. by rewrite Hh, H1. }
  assert (Hnil : ents (mkHt (Some (repeat [] (Z.to_nat (DICTHT_SIZE e)))) 0 e : ht) = []).
  { unfold ents; cbn. apply concat_repeat_nil. }
  specialize (Hen _ Hnil).
  constructor; [|exact (eq_ind_r (fun l => l ≡ₚ entries d) (Permutation_refl _) Hen)
    |cbn; rewrite !destroyed_app; cbn; by rewrite !app_nil_r|done..].
  constructor; cbn.
  - apply W.
  - exact Hnew.
  - change (entries _) with (entries (with_ht1 d (mkHt (Some (repeat [] (Z.to_nat (DICTHT_SIZE e)))) 0 e))).
    rewrite Hen. apply W.
  - change (entries _) with (entries (with_ht1 d (mkHt (Some (repeat [] (Z.to_nat (DICTHT_SIZE e)))) 0 e))).
    rewrite Hen. apply W.
  - right. split; [lia|]. split; [intros i Hi; lia|]. split; [done|by eexists].
  - rewrite !told_app, (wf_told _ W), H1. cbn. lia.
  - apply W.
Qed.

(** The table replaces an empty one. *)
Lemma replace_table d e :
  wf d -> rehashidx d = -1 -> ht_table (ht0 d) = None \/ ht_used (ht0 d) = 0 -> 2 <= e <= 60 ->
  let new_ht := mkHt (Some (repeat [] (Z.to_nat (DICTHT_SIZE e)))) 0 e in
  let d' := call (call (with_rehashidx (with_ht1 d new_ht) 0) rehashingStarted) (bucketChanged (DICTHT_SIZE e)) in
  let d' := call (call d' rehashingCompleted) (bucketChanged (- DICTHT_SIZE (ht_size_exp (ht0 d)))) in
  same d (with_rehashidx (with_ht1 (with_ht0 d' new_ht) reset_ht) (-1)).
Proof.
  intros W Hr Hemp He. cbv zeta. pose proof (new_ht_ok e He) as Hnew.
  destruct (wf_rehash _ W) as [[_ H1]|(? & _)]; [|lia].
  assert (Hen : entries d = []).
  { unfold entries. rewrite H1. destruct (wf_ht0 _ W) as [_ Hu]. unfold ents in *; cbn.
    destruct (ht_table (ht0 d)) as [t|]; [|done]. destruct Hemp as [|Hz]; [done|].
    rewrite app_nil_r. apply length_zero_iff_nil. unfold zlen in Hu. lia. }
  assert (Hen' : forall d' : dict, ht0 d' = mkHt (Some (repeat [] (Z.to_nat (DICTHT_SIZE e)))) 0 e ->
            ht1 d' = reset_ht -> entries d' = []).
  { intros d' H0' H1'. unfold entries. rewrite H0', H1'. unfold ents; cbn. by rewrite concat_repeat_nil. }
  constructor; [|rewrite Hen, Hen' by done; done|cbn; rewrite !destroyed_app; cbn; by rewrite !app_nil_r|done..|by eexists].
  constructor; [exact Hnew|done|rewrite Hen' by done; constructor|rewrite Hen' by done; done|by left| |apply W].
  cbn. rewrite !told_app, (wf_told _ W), H1. cbn. lia.
Qed.

Lemma resize_spec d size ta :
  wf d -> rehashidx d = -1 -> 0 <= size < 2 ^ 64 ->
  exists st mf d', _dictResize type mode d size ta = Some (st, mf, d') /\ same d d'
    /\ (st = DICT_OK -> is_Some (ht_table (ht0 d'))) /\ (rehashidx d' = -1 \/ rehashidx d' = 0).
Proof.
  intros W Hr Hs. unfold _dictResize, dictIsRehashing. rewrite Hr. cbn [Z.eqb Pos.eqb negb].
  assert (Hnop : forall mf : bool, exists st mf' d', Some (DICT_ERR, mf, d) = Some (st, mf', d') /\ same d d'
    /\ (st = DICT_OK -> is_Some (ht_table (ht0 d'))) /\ (rehashidx d' = -1 \/ rehashidx d' = 0)).
  { intros mf. exists DICT_ERR, mf, d. split; [done|]. split; [by apply same_refl|]. split; [done|by left]. }
  pose proof (nextExp_range size Hs) as He. set (e := _dictNextExp size) in *. cbv zeta.
  destruct ((DICTHT_SIZE e <? size) || (u64 (DICTHT_SIZE e * 8) <? DICTHT_SIZE e)) eqn:Hov; [apply Hnop|].
  apply orb_false_iff in Hov as [_ Hov]. pose proof (newsize_exp e He Hov).
  destruct (e =? _); [apply Hnop|]. 
  destruct (match ta with Some f => negb (f (DICTHT_SIZE e * 8)) | None => false end); [apply Hnop|].
  destruct (bool_decide _ || _) eqn:Hemp.
  - eexists _, _, _. split; [done|]. split; [|split; [by eexists|by left]].
    refine (replace_table d e W Hr _ ltac:(lia)).
    apply orb_true_iff in Hemp as [Hemp|Hemp]; [left; by apply bool_decide_eq_true in Hemp|right; by apply Z.eqb_eq].
  - apply orb_false_iff in Hemp as [Hemp _]. apply bool_decide_eq_false in Hemp. cbn in Hemp.
    assert (Ha : is_Some (ht_table (ht0 d))) by (by destruct (ht_table (ht0 d)); eauto).
    pose proof (start_rehash d e W Hr Ha ltac:(lia)) as Hst. cbv zeta in Hst. cbn [ht0 ht_size_exp].
    pose proof (shape_exp _ (proj1 (wf_ht0 _ W)) Ha).
    destruct (force_full_rehash type).
    + edestruct full_rehash_spec as (d' & Hd' & Hs' & Hf'); [apply Hst|..|rewrite Hd'].
      * cbn. rewrite size_exp by lia. lia.
      * sbind. eexists _, _, _. split; [done|]. split; [by eapply same_trans|].
        split; [intros _; by apply Hs', Hst|].
        revert Hf'. destruct (rehash_avoided mode _); [intros ->; by right|by left].
    + sbind. eexists _, _, _. split; [done|]. split; [exact Hst|]. split; [done|by right].
Qed.

Lemma expand_same d size ta :
  wf d -> 0 <= size < 2 ^ 64 ->
  exists st mf d', _dictExpand type mode d size ta = Some (st, mf, d') /\ same d d'
    /\ (d' = d \/ rehashidx d' = -1 \/ rehashidx d' = 0).
Proof.
  intros W Hs. unfold _dictExpand. destruct (_ || _) eqn:E; [eauto 8 using same_refl|].
  apply orb_false_iff in E as [E _]. apply orb_false_iff in E as [E _].
  unfold dictIsRehashing in E. rewrite negb_false_iff, Z.eqb_eq in E.
  destruct (resize_spec d size ta W E Hs) as (st & mf & d' & H1 & H2 & _ & H3). eauto 8.
Qed.

Lemma dictExpand_same d size :
  wf d -> 0 <= size < 2 ^ 64 -> exists st d', dictExpand type mode d size = Some (st, d') /\ same d d'
    /\ (d' = d \/ rehashidx d' = -1 \/ rehashidx d' = 0).
Proof.
  intros W Hs. destruct (expand_same d size None W Hs) as (st & mf & d' & H1 & H2 & H3).
  unfold dictExpand. rewrite H1. sbind. eauto 8.
Qed.

Lemma dictShrink_same d size :
  wf d -> 0 <= size < 2 ^ 64 -> exists st d', dictShrink type mode d size = Some (st, d') /\ same d d'.
Proof.
  intros W Hs. unfold dictShrink. destruct (_ || _) eqn:E; [eauto 8 using same_refl|].
  apply orb_false_iff in E as [E _]. apply orb_false_iff in E as [E _].
  unfold dictIsRehashing in E. rewrite negb_false_iff, Z.eqb_eq in E.
  destruct (resize_spec d size None W E Hs) as (st & mf & d' & -> & H2 & _). sbind. eauto 8.
Qed.

Lemma used_range d : wf d -> 0 <= ht_used (ht0 d) < 2 ^ 64.
Proof.
  intros W. pose proof (wf_count _ W) as Hc. unfold entries in Hc. destruct (wf_ht0 _ W) as [_ ->]. zlen_solve.
Qed.

Lemma unallocated d : wf d -> ht_table (ht0 d) = None -> d = with_ht1 (with_ht0 d reset_ht) reset_ht /\ rehashidx d = -1.
Proof.
  intros W Ht. destruct (wf_ht0 _ W) as [Hs _]. unfold ht_shape in Hs. rewrite Ht in Hs.
  destruct (wf_rehash _ W) as [[Hr H1]|(_ & _ & [? Ha] & _)]; [|congruence].
  split; [|done]. destruct d; cbn in *; by subst.
Qed.

(** An empty dictionary gets its table. *)
Lemma expand_first d :
  wf d -> ht_table (ht0 d) = None ->
  exists st d', dictExpand type mode d DICT_HT_INITIAL_SIZE = Some (st, d') /\ same d d' /\ is_Some (ht_table (ht0 d'))
    /\ (rehashidx d' = -1 \/ rehashidx d' = 0).
Proof.
  intros W Ht. destruct (unallocated d W Ht) as [Hd Hr].
  unfold dictExpand, _dictExpand, dictIsRehashing. rewrite Hr.
  replace (ht0 d) with (@reset_ht K V) by (rewrite Hd; done). cbn [Z.eqb Pos.eqb negb orb].
  change ((ht_used (@reset_ht K V) >? DICT_HT_INITIAL_SIZE)
    || (DICTHT_SIZE (ht_size_exp (@reset_ht K V)) >=? DICT_HT_INITIAL_SIZE)) with false. cbv iota.
  destruct (resize_spec d DICT_HT_INITIAL_SIZE None W Hr) as (st & mf & d' & H1 & H2 & H3 & H4); [split; done|].
  rewrite H1. sbind. exists st, d'. split; [done|]. split; [done|]. split; [|done]. apply H3.
  destruct st; [done|]. exfalso. revert H1. unfold _dictResize, dictIsRehashing. rewrite Hr.
  replace (ht0 d) with (@reset_ht K V) by (rewrite Hd; done). cbn [Z.eqb Pos.eqb negb orb].
  change ((DICTHT_SIZE (_dictNextExp DICT_HT_INITIAL_SIZE) <? DICT_HT_INITIAL_SIZE)
    || (u64 (DICTHT_SIZE (_dictNextExp DICT_HT_INITIAL_SIZE) * 8) <? DICTHT_SIZE (_dictNextExp DICT_HT_INITIAL_SIZE)))
    with false.
  change (_dictNextExp DICT_HT_INITIAL_SIZE =? ht_size_exp (@reset_ht K V)) with false. cbv iota.
  replace (bool_decide (ht_table (ht0 _) = None)) with true; [done|].
  symmetry. apply bool_decide_eq_true. cbn. by rewrite Ht.
Qed.

Lemma expandIfNeeded_same d :
  wf d -> exists st d', dictExpandIfNeeded type mode d = Some (st, d') /\ same d d' /\ is_Some (ht_table (ht0 d'))
    /\ (d' = d \/ rehashidx d' = -1 \/ rehashidx d' = 0).
Proof.
  intros W. unfold dictExpandIfNeeded.
  destruct (ht_table (ht0 d)) as [t|] eqn:Ht.
  - assert (Ha : is_Some (ht_table (ht0 d))) by (by rewrite Ht).
    assert (Hok : forall (st : status) d', same d d' -> d' = d \/ rehashidx d' = -1 \/ rehashidx d' = 0 ->
      exists st0 d0, Some (st, d') = Some (st0, d0) /\ same d d0 /\ is_Some (ht_table (ht0 d0))
        /\ (d0 = d \/ rehashidx d0 = -1 \/ rehashidx d0 = 0)).
    { intros st d' Hs Hi. exists st, d'. split; [done|]. split; [done|]. split; [by apply Hs|done]. }
    pose proof (shape_exp _ (proj1 (wf_ht0 _ W)) Ha). pose proof (used_range d W).
    destruct (dictIsRehashing d); [by apply Hok; [apply same_refl|left]|].
    destruct (Z.eqb_spec (DICTHT_SIZE (ht_size_exp (ht0 d))) 0) as [Hz|_].
    { rewrite size_exp in Hz by lia. pose proof (Z.pow_pos_nonneg 2 (ht_size_exp (ht0 d))). lia. }
    destruct (_ || _); [|by apply Hok; [apply same_refl|left]].
    destruct (dictTypeResizeAllowed _ _ _); [|by apply Hok; [apply same_refl|left]].
    destruct (dictExpand_same d (u64 (ht_used (ht0 d) + 1)) W (wrap_range 64 _ ltac:(lia))) as (st & d' & -> & Hs & Hi).
    sbind. by apply Hok.
  - destruct (unallocated d W Ht) as [Hd Hr]. unfold dictIsRehashing. rewrite Hr. cbn [Z.eqb Pos.eqb negb].
    replace (DICTHT_SIZE (ht_size_exp (ht0 d))) with 0 by (rewrite Hd; done). cbn [Z.eqb].
    destruct (expand_first d W Ht) as (st & d' & -> & Hs & Ha & Hi). sbind. eauto 8.
Qed.

Lemma shrinkIfNeeded_same d : wf d -> exists st d', dictShrinkIfNeeded type mode d = Some (st, d') /\ same d d'.
Proof.
  intros W. unfold dictShrinkIfNeeded. repeat case_match; eauto 8 using same_refl.
  destruct (dictShrink_same d (ht_used (ht0 d)) W (used_range d W)) as (st & d' & -> & Hs). sbind. eauto 8.
Qed.

Lemma _shrinkIfNeeded_same d : wf d -> exists d', _dictShrinkIfNeeded type mode d = Some d' /\ same d d'.
Proof.
  intros W. unfold _dictShrinkIfNeeded. zcase; [eauto 8 using same_refl|].
  destruct (shrinkIfNeeded_same d W) as (st & d' & -> & Hs). cbn. eauto 8.
Qed.

Lemma _expandIfNeeded_same d :
  wf d -> exists st d', _dictExpandIfNeeded type mode d = Some (st, d') /\ same d d'
    /\ (pauseAutoResize d <= 0 -> is_Some (ht_table (ht0 d')))
    /\ (d' = d \/ rehashidx d' = -1 \/ rehashidx d' = 0).
Proof.
  intros W. unfold _dictExpandIfNeeded. zcase.
  - exists DICT_ERR, d. split; [done|]. split; [by apply same_refl|]. split; [lia|by left].
  - destruct (expandIfNeeded_same d W) as (st & d' & -> & Hs & Ha & Hi). eauto 8.
Qed.

End modes.

End spec.
