(* ===== verification/DictMap.v ===== *)
(** * The operations of the dictionary on the map

    Lookup, insertion, replacement and deletion of [Dict], also in the middle of
    a rehashing and whatever resizing they start, against the finite map
    [dict_map] of [DictSpec]. *)

From stdpp Require Import gmap.
From S2P Require Import Prelude Dict DictSpec.

Section map.
Context {K V C : Type} `{EqDecision K} `{Countable C}.
Context (type : @dictType K) (canon : K -> C) `{!DictKeys type canon}.
Context (mode : dictResizeEnable).

Abbreviation dict := (@dict K V).
Abbreviation ht := (@ht K V).
Abbreviation hash := (hashFunction type).
Abbreviation wf := (wf type canon).
Abbreviation same := (same type canon).
Abbreviation dict_map := (dict_map canon).
Implicit Types d : dict.

(** ** Entries and the map *)

Abbreviation keyed := (fun e : K * V => (canon e.1, e)).

Lemma keyed_fst (l : list (K * V)) : (keyed <$> l).*1 = canon ∘ fst <$> l.
Proof. rewrite <- list_fmap_compose. by apply list_fmap_ext. Qed.

Lemma dict_map_perm d l : wf d -> entries d ≡ₚ l -> dict_map d = list_to_map (keyed <$> l).
Proof.
  intros W Hp. unfold DictSpec.dict_map. apply list_to_map_proper; [|by rewrite Hp].
  rewrite keyed_fst. apply W.
Qed.

Lemma same_map d d' : wf d -> same d d' -> dict_map d' = dict_map d.
Proof. intros W Hs. symmetry. apply dict_map_perm; [done|]. symmetry. apply Hs. Qed.

Lemma dict_map_Some d c e : wf d -> dict_map d !! c = Some e <-> e ∈ entries d /\ canon e.1 = c.
Proof.
  intros W. unfold DictSpec.dict_map. rewrite <- elem_of_list_to_map.
  - rewrite list_elem_of_fmap. split; [intros (e' & ? & ?); by simplify_eq|intros [? <-]; eauto].
  - rewrite keyed_fst. apply W.
Qed.

Lemma dict_map_None d c : wf d -> dict_map d !! c = None <-> forall e, e ∈ entries d -> canon e.1 <> c.
Proof.
  intros W. rewrite eq_None_not_Some. split.
  - intros Hn e He Hc. apply Hn. exists e. by apply dict_map_Some.
  - intros Hn [e [He Hc]%dict_map_Some]; [|done]. by apply (Hn e).
Qed.

(** An entry apart, and the others. *)
Lemma dict_map_cons d e rest :
  wf d -> entries d ≡ₚ e :: rest ->
  dict_map d = <[canon e.1 := e]> (list_to_map (keyed <$> rest))
  /\ delete (canon e.1) (dict_map d) = list_to_map (keyed <$> rest).
Proof.
  intros W Hp. rewrite (dict_map_perm d _ W Hp). split; [done|]. cbn. apply delete_insert_id.
  apply not_elem_of_list_to_map. rewrite keyed_fst.
  pose proof (wf_nodup _ _ _ W) as Hn. rewrite Hp, fmap_cons in Hn.
  by apply NoDup_cons in Hn as [Hn _].
Qed.

Lemma dict_map_size d : wf d -> zlen (entries d) = Z.of_nat (size (dict_map d)).
Proof.
  intros W. unfold zlen, DictSpec.dict_map. rewrite map_size_list_to_map.
  - by rewrite length_fmap.
  - rewrite keyed_fst. apply W.
Qed.

Lemma dictSize_map d : wf d -> dictSize d = Z.of_nat (size (dict_map d)).
Proof.
  intros W. rewrite <- dict_map_size by done. unfold dictSize.
  destruct (wf_ht0 _ _ _ W) as [_ ->]. destruct (wf_ht1 _ _ _ W) as [_ ->].
  rewrite <- zlen_app. apply wrap_small. split; [apply zlen_nonneg|apply W].
Qed.

(** ** Changing a bucket *)

Definition rest_of (d : dict) (t : bool) (l1 l2 : list (list (K * V))) : list (K * V) :=
  concat l1 ++ concat l2 ++ ents (ht_of d (negb t)).

Lemma entries_split d t i l1 b l2 :
  split_at (ht_of d t) i l1 b l2 -> entries d ≡ₚ b ++ rest_of d t l1 l2.
Proof.
  intros Hsp. pose proof (ents_split _ _ _ _ _ Hsp) as He. unfold entries, rest_of.
  destruct t; cbn in *; rewrite He; solve_Permutation.
Qed.

Lemma entries_set d t l1 b' l2 u e :
  entries (with_ht d t (mkHt (Some (l1 ++ b' :: l2)) u e)) ≡ₚ b' ++ rest_of d t l1 l2.
Proof.
  unfold entries, rest_of. destruct t; cbn; unfold ents at 2; unfold ents at 1; cbn; rewrite concat_app; cbn;
    solve_Permutation.
Qed.

Lemma ht_of_ok d t : wf d -> ht_ok type (ht_of d t).
Proof. intros W. destruct t; apply W. Qed.

Lemma moved_set (h h' : ht) idx i l1 b l2 b' :
  moved h idx -> split_at h i l1 b l2 -> idx <= i -> ht_table h' = Some (l1 ++ b' :: l2) -> moved h' idx.
Proof.
  intros Hm [Ht Hi] Hle Ht' j Hj. specialize (Hm j Hj). unfold get_bucket in *. rewrite Ht in Hm. rewrite Ht'.
  revert Hm. sbind. zcase. unfold zlen in Hi. by rewrite !lookup_app_l by lia.
Qed.

Lemma wf_bucket d t i l1 b l2 b' u :
  wf d -> split_at (ht_of d t) i l1 b l2 -> (t = false -> rehashidx d <= i) ->
  (forall e, e ∈ b' -> hash e.1 mod 2 ^ ht_size_exp (ht_of d t) = i) ->
  NoDup (canon ∘ fst <$> b' ++ rest_of d t l1 l2) -> zlen (b' ++ rest_of d t l1 l2) < 2 ^ 64 ->
  u = ht_used (ht_of d t) - zlen b + zlen b' ->
  wf (with_ht d t (mkHt (Some (l1 ++ b' :: l2)) u (ht_size_exp (ht_of d t)))).
Proof.
  intros W Hsp Hi Hb Hnd Hc ->. destruct (ht_of_ok d t W) as [Hs Hu].
  set (h' := mkHt _ _ _).
  assert (Hok : ht_ok type h').
  { split; [by eapply shape_set|]. unfold h'; cbn. rewrite Hu, (ents_split _ _ _ _ _ Hsp).
    unfold ents; cbn. rewrite concat_app. cbn. zlen_solve. }
  pose proof (entries_set d t l1 b' l2 (ht_used h') (ht_size_exp h')) as Hp. change (mkHt _ _ _) with h' in Hp.
  constructor.
  - destruct t; [apply W|done].
  - destruct t; [done|apply W].
  - by rewrite Hp.
  - unfold zlen. by rewrite Hp.
  - destruct t; cbn in *.
    + destruct (wf_rehash _ _ _ W) as [[? H1]|(? & ? & ? & ?)]; [|right; eauto].
      exfalso. destruct Hsp as [Ht _]. by rewrite H1 in Ht.
    + destruct (wf_rehash _ _ _ W) as [[? H1]|(? & Hm & ? & ?)]; [by left|right]. repeat split; [lia..| |by eexists|done].
      by eapply moved_set; [..|reflexivity]; eauto.
  - destruct t; apply W.
  - destruct t; apply W.
Qed.

(** ** Searching *)

Lemma same_key_iff a b : same_key type a b = true <-> canon a = canon b.
Proof.
  unfold same_key. rewrite orb_true_iff, bool_decide_eq_true, (keyCompare_iff (canon := canon)).
  split; [intros [->|]; done|by right].
Qed.

Lemma chain_find_spec key : forall (he : list (K * V)) n,
  match chain_find type key he n with
  | Some p => exists b1 e b2, he = b1 ++ e :: b2 /\ p = (n + length b1)%nat /\ canon e.1 = canon key
  | None => forall e, e ∈ he -> canon e.1 <> canon key
  end.
Proof.
  induction he as [|[k v] he IH]; intros n; cbn [chain_find].
  { intros e He. by apply elem_of_nil in He. }
  destruct (same_key type key k) eqn:E.
  - exists [], (k, v), he. split; [done|]. split; [cbn; lia|]. symmetry. by apply same_key_iff.
  - specialize (IH (S n)). destruct (chain_find type key he (S n)).
    + destruct IH as (b1 & e & b2 & -> & -> & Hc). exists ((k, v) :: b1), e, b2. split; [done|]. cbn. split; [lia|done].
    + intros e [->|He]%elem_of_cons; [|by apply IH]. cbn. intros Hc. symmetry in Hc.
      apply same_key_iff in Hc. congruence.
Qed.

(** The link leads to the entry. *)
Definition at_link (d : dict) (l : link) (e : K * V) (l1 : list (list (K * V))) (b1 b2 : list (K * V))
    (l2 : list (list (K * V))) : Prop :=
  split_at (ht_of d (l_table l)) (l_idx l) l1 (b1 ++ e :: b2) l2 /\ length b1 = l_pos l.

(** Looking into the bucket of the key. *)
Lemma visit_spec d t key :
  wf d -> is_Some (ht_table (ht_of d t)) ->
  let idx := hash key &&& DICTHT_SIZE_MASK (ht_size_exp (ht_of d t)) in
  exists he, get_bucket (ht_of d t) idx = Some he
    /\ match chain_find type key he 0 with
       | Some pos => exists e l1 b1 b2 l2, at_link d (mkLink t idx pos) e l1 b1 b2 l2 /\ canon e.1 = canon key
       | None => forall e, e ∈ ents (ht_of d t) -> canon e.1 <> canon key
       end.
Proof.
  intros W Ha. cbv zeta. destruct (ht_of_ok d t W) as [Hs _]. pose proof (shape_exp _ _ Hs Ha).
  rewrite mask_mod by lia.
  destruct (shape_split _ _ (hash key mod 2 ^ ht_size_exp (ht_of d t)) Hs Ha) as (l1 & b & l2 & Hsp).
  { apply Z.mod_pos_bound. lia. }
  exists b. split; [by eapply get_split|]. pose proof (chain_find_spec key b 0) as Hf.
  destruct (chain_find type key b 0).
  - destruct Hf as (b1 & e & b2 & -> & -> & Hc). exists e, l1, b1, b2, l2. done.
  - intros e He Hc. destruct (ents_bucket _ _ _ Hs He) as (l1' & b' & l2' & Hsp' & He').
    rewrite (hash_canon _ _ Hc) in Hsp'. apply get_split in Hsp, Hsp'. rewrite Hsp in Hsp'. simplify_eq.
    by apply (Hf e).
Qed.

(** A bucket that was moved does not have the key. *)
Lemma skip_spec d key :
  wf d -> rehashidx d <> -1 -> hash key mod 2 ^ ht_size_exp (ht0 d) < rehashidx d ->
  forall e, e ∈ ents (ht0 d) -> canon e.1 <> canon key.
Proof.
  intros W Hr Hlt e He Hc. destruct (wf_ht0 _ _ _ W) as [Hs _].
  destruct (ents_bucket _ _ _ Hs He) as (l1 & b & l2 & Hsp & Hb).
  destruct (rehashidx_range _ _ d W Hr) as (_ & Hm & Hexp & _).
  rewrite (hash_canon _ _ Hc) in Hsp. apply get_split in Hsp.
  rewrite Hm in Hsp by (pose proof (Z.mod_pos_bound (hash key) (2 ^ ht_size_exp (ht0 d))); lia).
  simplify_eq. by apply elem_of_nil in Hb.
Qed.

(** What a search through the tables finds. *)
Definition search_result (d : dict) (key : K) (r : option link) : Prop :=
  match r with
  | Some l => exists e l1 b1 b2 l2, at_link d l e l1 b1 b2 l2 /\ canon e.1 = canon key
  | None => forall e, e ∈ entries d -> canon e.1 <> canon key
  end.

(** The index of the table new entries go to. *)
Definition home (d : dict) (key : K) : Z :=
  hash key &&& DICTHT_SIZE_MASK (ht_size_exp (ht_of d (dictIsRehashing d))).

Lemma idx_i64 d key : 2 <= ht_size_exp (ht0 d) <= 60 ->
  i64 (hash key mod 2 ^ ht_size_exp (ht0 d)) = hash key mod 2 ^ ht_size_exp (ht0 d).
Proof.
  intros He. apply swrap_small; [lia|]. unfold in_signed.
  pose proof (Z.mod_pos_bound (hash key) (2 ^ ht_size_exp (ht0 d)) ltac:(lia)).
  pose proof (Z.pow_le_mono_r 2 (ht_size_exp (ht0 d)) 60). lia.
Qed.

Lemma not_rehashing d : wf d -> dictIsRehashing d = false -> rehashidx d = -1 /\ ht1 d = reset_ht.
Proof.
  unfold dictIsRehashing. intros W Hr. apply negb_false_iff, Z.eqb_eq in Hr.
  destruct (wf_rehash _ _ _ W) as [|(? & _)]; [done|lia].
Qed.

Lemma is_rehashing d : dictIsRehashing d = true <-> rehashidx d <> -1.
Proof. unfold dictIsRehashing. by rewrite negb_true_iff, Z.eqb_neq. Qed.

Lemma entries_no d key :
  (forall e, e ∈ ents (ht0 d) -> canon e.1 <> canon key) ->
  (forall e, e ∈ ents (ht1 d) -> canon e.1 <> canon key) ->
  forall e, e ∈ entries d -> canon e.1 <> canon key.
Proof. intros H0 H1 e [He|He]%elem_of_app; eauto. Qed.

(** The index the callers start with is the one of the first table, unless no
    bucket of it was moved yet. *)
Definition start_idx (d : dict) (key : K) (idx : Z) : Prop :=
  0 <= i64 idx /\ (0 < rehashidx d -> idx = hash key mod 2 ^ ht_size_exp (ht0 d)).

Lemma tables_loop_spec d key idx :
  wf d -> is_Some (ht_table (ht0 d)) -> start_idx d key idx ->
  exists r idx', tables_loop type [false; true] d key (hash key) idx = Some (r, idx') /\ search_result d key r
    /\ (r = None -> idx' = home d key).
Proof.
  intros W Ha [Hidx0 Hidx]. cbn [tables_loop negb andb].
  destruct (dictIsRehashing d) eqn:Hr; cbn [negb].
  - pose proof (proj1 (is_rehashing d) Hr) as Hr'. destruct (wf_alloc _ _ d W Hr') as [_ Ha1].
    destruct (rehashidx_range _ _ d W Hr') as (_ & _ & Hexp & _).
    destruct (visit_spec d true key W Ha1) as (he1 & Hg1 & Hf1). cbv zeta in Hf1. rewrite Hg1. sbind.
    assert (Hone : (forall e, e ∈ ents (ht0 d) -> canon e.1 <> canon key) ->
      exists r idx', match chain_find type key he1 0 with
        | Some pos => Some (Some (mkLink true (hash key &&& DICTHT_SIZE_MASK (ht_size_exp (ht_of d true))) pos),
                            hash key &&& DICTHT_SIZE_MASK (ht_size_exp (ht_of d true)))
        | None => Some (None, hash key &&& DICTHT_SIZE_MASK (ht_size_exp (ht_of d true)))
        end = Some (r, idx') /\ search_result d key r /\ (r = None -> idx' = home d key)).
    { intros Hno. destruct (chain_find type key he1 0).
      - eexists _, _. split; [done|]. split; [exact Hf1|done].
      - eexists _, _. split; [done|]. split; [exact (entries_no d key Hno Hf1)|]. intros _. unfold home. by rewrite Hr. }
    zcase.
    + apply Hone, skip_spec; [done|done|]. rewrite Hidx, idx_i64 in * by lia. lia.
    + destruct (visit_spec d false key W Ha) as (he0 & Hg0 & Hf0). cbv zeta in Hf0. rewrite Hg0. sbind.
      destruct (chain_find type key he0 0); [|by apply Hone].
      eexists _, _. split; [done|]. split; [exact Hf0|done].
  - destruct (not_rehashing d W Hr) as [Hr1 H1]. rewrite Hr1. zcase.
    destruct (visit_spec d false key W Ha) as (he0 & Hg0 & Hf0). cbv zeta in Hf0. rewrite Hg0. sbind.
    destruct (chain_find type key he0 0).
    + eexists _, _. split; [done|]. split; [exact Hf0|done].
    + eexists _, _. split; [done|]. split.
      * refine (entries_no d key Hf0 _). rewrite H1. intros e He. by apply elem_of_nil in He.
      * intros _. unfold home. by rewrite Hr.
Qed.

(** The loops of the other searches. *)
Ltac search_cases :=
  repeat (match goal with
          | |- context [get_bucket ?h ?i] => destruct (get_bucket h i)
          | |- context [chain_find ?t ?k ?b ?n] => destruct (chain_find t k b n)
          | |- context [?a <? ?b] => destruct (a <? b)
          | |- context [negb (dictIsRehashing ?d)] => destruct (dictIsRehashing d)
          end; cbn [mbind option_bind negb]).

Lemma dict_find_loop_spec d key idx :
  wf d -> is_Some (ht_table (ht0 d)) -> start_idx d key idx ->
  exists r bucket, find_loop type (if dictIsRehashing d then [false; true] else [false]) d key (hash key) idx None
      = Some (r, bucket)
    /\ search_result d key r /\ (r = None -> bucket = Some (mkLink (dictIsRehashing d) (home d key) 0)).
Proof.
  intros W Ha Hidx. destruct (tables_loop_spec d key idx W Ha Hidx) as (r & idx' & Heq & Hr & Hhome).
  assert (Hlt : dictIsRehashing d = false -> (i64 idx <? rehashidx d) = false).
  { intros Hn. destruct (not_rehashing d W Hn) as [-> _]. destruct Hidx. zcase. }
  revert Heq. cbn [tables_loop find_loop negb andb].
  destruct (dictIsRehashing d) eqn:E; cbn [find_loop negb andb]; [|rewrite !Hlt by done];
    search_cases; intros; simplify_eq;
    (eexists _, _; split; [done|]; split; [done|]); intros; simplify_eq; by rewrite Hhome.
Qed.

Lemma unlink_find_loop_spec d key :
  wf d -> is_Some (ht_table (ht0 d)) ->
  exists r, unlink_find_loop type [false; true] d key (hash key) = Some r /\ search_result d key r.
Proof.
  intros W Ha. pose proof (shape_exp _ _ (proj1 (wf_ht0 _ _ _ W)) Ha) as He.
  destruct (tables_loop_spec d key (hash key &&& DICTHT_SIZE_MASK (ht_size_exp (ht0 d))) W Ha)
    as (r & idx' & Heq & Hr & _).
  { rewrite mask_mod by lia. split; [|done]. rewrite idx_i64 by done. apply Z.mod_pos_bound. lia. }
  exists r. split; [|done]. revert Heq. cbn [tables_loop unlink_find_loop negb andb ht_of].
  search_cases; intros; by simplify_eq.
Qed.

(** ** Lookup *)

(** The search starts with a step of rehashing. *)
Lemma step_spec d key :
  wf d ->
  exists d', _dictRehashStepIfNeeded type mode d (hash key &&& DICTHT_SIZE_MASK (ht_size_exp (ht0 d))) = Some d'
    /\ same d d' /\ 0 <= i64 (hash key &&& DICTHT_SIZE_MASK (ht_size_exp (ht0 d)))
    /\ start_idx d' key (hash key &&& DICTHT_SIZE_MASK (ht_size_exp (ht0 d))).
Proof.
  intros W. destruct (wf_ht0 _ _ _ W) as [Hs0 _].
  assert (Hi : 0 <= i64 (hash key &&& DICTHT_SIZE_MASK (ht_size_exp (ht0 d)))).
  { destruct (ht_table (ht0 d)) eqn:Ht.
    - pose proof (shape_exp _ _ Hs0 ltac:(by rewrite Ht)). rewrite mask_mod, idx_i64 by lia.
      apply Z.mod_pos_bound. lia.
    - destruct (unallocated _ _ d W Ht) as [-> _]. cbn. rewrite Z.land_0_r. done. }
  destruct (rehashStepIfNeeded_same _ _ mode d (hash key &&& DICTHT_SIZE_MASK (ht_size_exp (ht0 d))) W)
    as (d' & -> & Hs & He).
  { intros Hr. destruct (rehashidx_range _ _ d W Hr) as (_ & _ & Hexp & _). rewrite mask_mod by lia.
    apply Z.mod_pos_bound. lia. }
  exists d'. split; [done|]. split; [done|]. split; [done|]. split; [done|]. intros Hr.
  destruct He as [Hr0 ->]; [lia|]. destruct (rehashidx_range _ _ d W Hr0) as (_ & _ & Hexp & _).
  apply mask_mod. lia.
Qed.

(** What is found is what the map has. *)
Lemma search_lookup d key r :
  wf d -> search_result d key r ->
  match r with
  | Some l => exists e, link_get d l = Some (Some e) /\ dict_map d !! canon key = Some e
  | None => dict_map d !! canon key = None
  end.
Proof.
  intros W Hr. destruct r as [l|]; [|by apply dict_map_None].
  destruct Hr as (e & l1 & b1 & b2 & l2 & [Hsp Hpos] & Hc). exists e. split.
  - unfold link_get. rewrite (get_split _ _ _ _ _ Hsp). sbind. by rewrite <- Hpos, list_lookup_middle.
  - apply dict_map_Some; [done|]. split; [|done]. rewrite (entries_split _ _ _ _ _ _ Hsp). set_solver.
Qed.

(** A dictionary with entries has its first table. *)
Lemma nonempty_alloc d : wf d -> dictSize d <> 0 -> is_Some (ht_table (ht0 d)).
Proof.
  intros W Hs. destruct (ht_table (ht0 d)) eqn:Ht; [eauto|]. exfalso. apply Hs.
  destruct (unallocated _ _ d W Ht) as [-> _]. done.
Qed.

Lemma empty_map d : wf d -> dictSize d = 0 -> dict_map d = ∅.
Proof. intros W Hs. rewrite dictSize_map in Hs by done. apply map_size_empty_iff. lia. Qed.

Lemma findLinkInternal_spec d key want :
  wf d -> (want = true -> is_Some (ht_table (ht0 d))) ->
  exists r bucket d', dictFindLinkInternal type mode d key want = Some (r, bucket, d') /\ same d d'
    /\ search_result d' key r
    /\ (want = true -> r = None -> bucket = Some (mkLink (dictIsRehashing d') (home d' key) 0)).
Proof.
  intros W Hw. unfold dictFindLinkInternal.
  destruct (negb want && (dictSize d =? 0)) eqn:E.
  - apply andb_true_iff in E as [Hn Hz]. eexists _, _, _. split; [done|]. split; [by apply same_refl|].
    split; [|by destruct want]. apply Z.eqb_eq in Hz. cbn. apply dict_map_None; [done|].
    by rewrite empty_map, lookup_empty by done.
  - assert (Ha : is_Some (ht_table (ht0 d))).
    { destruct want; [by apply Hw|]. apply nonempty_alloc; [done|]. by apply Z.eqb_neq. }
    destruct (step_spec d key W) as (d' & -> & Hs & _ & Hi). sbind.
    destruct (dict_find_loop_spec d' key _ (same_wf _ _ _ _ Hs) (same_alloc _ _ _ _ Hs Ha) Hi) as (r & bucket & -> & Hr & Hb).
    sbind. eexists _, _, _. split; [done|]. eauto.
Qed.

Lemma findLink_spec d key :
  wf d -> exists r bucket d', dictFindLink type mode d key false = Some (r, bucket, d') /\ same d d'
    /\ search_result d' key r.
Proof.
  intros W. unfold dictFindLink. zcase.
  - eexists _, _, _. split; [done|]. split; [by apply same_refl|]. cbn. apply dict_map_None; [done|].
    by rewrite empty_map, lookup_empty by done.
  - destruct (findLinkInternal_spec d key false W) as (r & b & d' & -> & Hs & Hr & _); [done|]. eauto 8.
Qed.

Lemma find_spec d key :
  wf d -> exists d', dictFind type mode d key = Some (dict_map d !! canon key, d') /\ same d d'.
Proof.
  intros W. unfold dictFind. destruct (findLink_spec d key W) as (r & b & d' & -> & Hs & Hr). sbind.
  exists d'. pose proof (search_lookup d' key r (same_wf _ _ _ _ Hs) Hr) as Hl. rewrite (same_map d d') in Hl by done.
  destruct r as [l|].
  - destruct Hl as (e & -> & ->). by sbind.
  - by rewrite Hl.
Qed.

(** ** Insertion and replacement *)

Context (indet : V).

(** The members no update of an entry touches. *)
Definition frame (d d' : dict) : Prop :=
  destroyed (calls d') = destroyed (calls d) /\ pauserehash d' = pauserehash d
  /\ pauseAutoResize d' = pauseAutoResize d.

Lemma same_frame d d' : same d d' -> frame d d'.
Proof. intros []. done. Qed.

Lemma frame_trans d1 d2 d3 : frame d1 d2 -> frame d2 d3 -> frame d1 d3.
Proof. unfold frame. intros (-> & -> & ->) (-> & -> & ->). done. Qed.

Lemma with_ht_frame d t h : frame d (with_ht d t h).
Proof. by destruct t. Qed.

Lemma home_alloc d : wf d -> is_Some (ht_table (ht0 d)) -> is_Some (ht_table (ht_of d (dictIsRehashing d))).
Proof.
  intros W Ha. destruct (dictIsRehashing d) eqn:Hr; [|done].
  apply wf_alloc with (type := type) (canon := canon); [done|]. by apply is_rehashing.
Qed.

Lemma insertKeyAtLink_spec d key :
  wf d -> is_Some (ht_table (ht0 d)) -> dict_map d !! canon key = None -> zlen (entries d) + 1 < 2 ^ 64 ->
  let l := mkLink (dictIsRehashing d) (home d key) 0 in
  exists d', dictInsertKeyAtLink indet d key l = Some (l, d') /\ wf d' /\ frame d d'
    /\ entries d' ≡ₚ (key, indet) :: entries d /\ exists l1 b2 l2, at_link d' l (key, indet) l1 [] b2 l2.
Proof.
  intros W Ha Hno Hc. cbv zeta. set (t := dictIsRehashing d).
  assert (Ht : is_Some (ht_table (ht_of d t))) by (by apply home_alloc).
  destruct (ht_of_ok d t W) as [Hs Hu]. pose proof (shape_exp _ _ Hs Ht) as Hexp.
  assert (Hhome : home d key = hash key mod 2 ^ ht_size_exp (ht_of d t)) by (apply mask_mod; lia).
  pose proof (Z.mod_pos_bound (hash key) (2 ^ ht_size_exp (ht_of d t)) ltac:(lia)) as Hb.
  destruct (shape_split _ _ (home d key) Hs Ht) as (l1 & b & l2 & Hsp); [lia|].
  unfold dictInsertKeyAtLink. cbn [l_table l_idx l_pos]. fold t.
  assert (Hg : eqb t t && (0 <=? home d key)
    && (home d key <=? DICTHT_SIZE_MASK (ht_size_exp (ht_of d t))) && (0 =? 0)%nat = true).
  { rewrite eqb_reflx, mask_exp by lia. zcase. done. }
  rewrite Hg, (get_split _ _ _ _ _ Hsp). sbind. rewrite (set_split _ _ _ _ _ _ Hsp). sbind.
  pose proof (entries_split d t _ _ _ _ Hsp) as Hp.
  assert (Hu1 : u64 (ht_used (ht_of d t) + 1) = ht_used (ht_of d t) + 1).
  { apply wrap_small. rewrite Hu, (ents_split _ _ _ _ _ Hsp).
    assert (zlen (entries d) = zlen (b ++ rest_of d t l1 l2)) as Hz by (unfold zlen; by rewrite Hp).
    unfold rest_of in Hz. rewrite Hz in Hc. revert Hc. zlen_solve. }
  match goal with |- context [add_used (with_ht d t ?h) t 1] =>
    assert (Hd : add_used (with_ht d t h) t 1 = with_ht d t (mkHt (Some (l1 ++ ((key, indet) :: b) :: l2))
      (ht_used (ht_of d t) + 1) (ht_size_exp (ht_of d t)))) end.
  { rewrite <- Hu1. by destruct t. }
  rewrite Hd. eexists. split; [done|]. split; [|split; [apply with_ht_frame|split]].
  - eapply wf_bucket; [done|done| | | | |rewrite zlen_cons; lia].
    + unfold t. intros Hr. destruct (not_rehashing d W Hr) as [-> _]. lia.
    + intros e [->|He]%elem_of_cons; [by rewrite Hhome|]. by eapply shape_bucket.
    + rewrite <- app_comm_cons, <- Hp, fmap_cons. apply NoDup_cons. split; [|apply W].
      intros (e & Hce & He)%list_elem_of_fmap. rewrite dict_map_None in Hno by done. by apply (Hno e).
    + rewrite <- app_comm_cons, zlen_cons. unfold zlen in *. rewrite <- Hp. lia.
  - by rewrite entries_set, Hp.
  - exists l1, b, l2. split; [|done]. destruct t; (split; [done|apply Hsp]).
Qed.

(** An entry is at or after the index of the rehashing. *)
Lemma at_link_idx d l e l1 b1 b2 l2 : wf d -> at_link d l e l1 b1 b2 l2 -> l_table l = false -> rehashidx d <= l_idx l.
Proof.
  intros W [Hsp _] Ht. rewrite Ht in Hsp. destruct Hsp as [Htab <-].
  destruct (wf_rehash _ _ _ W) as [[-> _]|(_ & Hm & _)]; [pose proof (zlen_nonneg l1); lia|].
  destruct (decide (rehashidx d <= zlen l1)); [done|]. specialize (Hm (zlen l1)).
  rewrite (get_split _ _ l1 (b1 ++ e :: b2) l2) in Hm by done. pose proof (zlen_nonneg l1).
  assert (Hm' : Some (b1 ++ e :: b2) = Some []) by (apply Hm; lia). by destruct b1.
Qed.

(** The entry of a link and the others. *)
Lemma at_link_entries d l e l1 b1 b2 l2 :
  at_link d l e l1 b1 b2 l2 -> entries d ≡ₚ e :: b1 ++ b2 ++ rest_of d (l_table l) l1 l2.
Proof. intros [Hsp _]. rewrite (entries_split _ _ _ _ _ _ Hsp). solve_Permutation. Qed.

Lemma update_spec d l e l1 b1 b2 l2 f :
  wf d -> at_link d l e l1 b1 b2 l2 -> canon (f e).1 = canon e.1 ->
  exists d', link_update d l f = Some d' /\ wf d' /\ calls d' = calls d /\ frame d d'
    /\ dict_map d' = <[canon e.1 := f e]> (dict_map d).
Proof.
  intros W Hl Hc. pose proof (at_link_entries _ _ _ _ _ _ _ Hl) as Hp. pose proof (at_link_idx _ _ _ _ _ _ _ W Hl) as Hidx.
  destruct Hl as [Hsp Hpos]. destruct (ht_of_ok d (l_table l) W) as [Hs _].
  unfold link_update. rewrite (get_split _ _ _ _ _ Hsp). sbind. rewrite <- Hpos, list_lookup_middle by done. sbind.
  rewrite (set_split _ _ _ _ _ _ Hsp). sbind.
  rewrite insert_app_r_alt, Nat.sub_diag by lia. change (<[0%nat := f e]> (e :: b2)) with (f e :: b2).
  set (d' := with_ht _ _ _).
  assert (Hp' : entries d' ≡ₚ f e :: b1 ++ b2 ++ rest_of d (l_table l) l1 l2).
  { unfold d'. rewrite entries_set. solve_Permutation. }
  assert (W' : wf d').
  { eapply wf_bucket; [done|done|done| | | |zlen_solve].
    - intros x Hx. assert (x = f e \/ x ∈ b1 ++ e :: b2) as [->|Hx'].
      { rewrite elem_of_app, elem_of_cons in *. tauto. }
      + rewrite (hash_canon _ _ Hc). eapply shape_bucket; [done|done|].
        rewrite elem_of_app, elem_of_cons. tauto.
      + by eapply shape_bucket.
    - pose proof (wf_nodup _ _ _ W) as Hn. rewrite Hp in Hn.
      assert (Heq : (b1 ++ f e :: b2) ++ rest_of d (l_table l) l1 l2 ≡ₚ f e :: b1 ++ b2 ++ rest_of d (l_table l) l1 l2)
        by solve_Permutation.
      rewrite Heq. rewrite fmap_cons in *. cbn in *. by rewrite Hc.
    - pose proof (wf_count _ _ _ W) as Hn. assert (Hz : zlen (entries d) = zlen (e :: b1 ++ b2 ++ rest_of d (l_table l) l1 l2))
        by (unfold zlen; by rewrite Hp). revert Hn. rewrite Hz. zlen_solve. }
  exists d'. split; [done|]. split; [done|]. split; [by unfold d'; destruct (l_table l)|].
  split; [apply with_ht_frame|].
  destruct (dict_map_cons d _ _ W Hp) as [-> _]. destruct (dict_map_cons d' _ _ W' Hp') as [-> _].
  by rewrite Hc, insert_insert_eq.
Qed.

(** ** Deletion *)

(** The dictionary without the entry of the link. *)
Definition unlinked (d : dict) (l : link) (l1 : list (list (K * V))) (b1 b2 : list (K * V))
    (l2 : list (list (K * V))) : dict :=
  with_ht d (l_table l) (mkHt (Some (l1 ++ (b1 ++ b2) :: l2)) (ht_used (ht_of d (l_table l)) - 1)
    (ht_size_exp (ht_of d (l_table l)))).

Lemma unlinked_spec d l e l1 b1 b2 l2 :
  wf d -> at_link d l e l1 b1 b2 l2 ->
  wf (unlinked d l l1 b1 b2 l2) /\ dict_map (unlinked d l l1 b1 b2 l2) = delete (canon e.1) (dict_map d)
  /\ 0 < ht_used (ht_of d (l_table l)) < 2 ^ 64.
Proof.
  intros W Hl. pose proof (at_link_entries _ _ _ _ _ _ _ Hl) as Hp. pose proof (at_link_idx _ _ _ _ _ _ _ W Hl) as Hidx.
  destruct Hl as [Hsp Hpos]. destruct (ht_of_ok d (l_table l) W) as [Hs Hu].
  assert (Hz : zlen (entries d) = zlen (e :: b1 ++ b2 ++ rest_of d (l_table l) l1 l2)) by (unfold zlen; by rewrite Hp).
  assert (Hp' : entries (unlinked d l l1 b1 b2 l2) ≡ₚ b1 ++ b2 ++ rest_of d (l_table l) l1 l2).
  { unfold unlinked. rewrite entries_set. solve_Permutation. }
  assert (W' : wf (unlinked d l l1 b1 b2 l2)).
  { eapply wf_bucket; [done|done|done| | | |zlen_solve].
    - intros x Hx. eapply shape_bucket; [done|done|]. rewrite elem_of_app in *. rewrite elem_of_cons. tauto.
    - pose proof (wf_nodup _ _ _ W) as Hn. rewrite Hp, fmap_cons in Hn. apply NoDup_cons in Hn as [_ Hn].
      by rewrite <- app_assoc.
    - pose proof (wf_count _ _ _ W) as Hn. revert Hn. rewrite Hz. zlen_solve. }
  split; [done|]. split.
  - destruct (dict_map_cons d _ _ W Hp) as [_ ->]. by apply dict_map_perm.
  - pose proof (wf_count _ _ _ W) as Hn. rewrite Hu, (ents_split _ _ _ _ _ Hsp). rewrite Hz in Hn.
    revert Hn. unfold rest_of. zlen_solve.
Qed.

Lemma remove_unlinked d l e l1 b1 b2 l2 :
  at_link d l e l1 b1 b2 l2 ->
  exists h, link_remove d l = Some (with_ht d (l_table l) h)
    /\ h = mkHt (Some (l1 ++ (b1 ++ b2) :: l2)) (ht_used (ht_of d (l_table l))) (ht_size_exp (ht_of d (l_table l))).
Proof.
  intros [Hsp Hpos]. unfold link_remove. rewrite (get_split _ _ _ _ _ Hsp). sbind.
  rewrite (set_split _ _ _ _ _ _ Hsp). sbind. eexists. split; [done|].
  rewrite <- Hpos, take_app_length. replace (S (length b1)) with (length (b1 ++ [e])) by (rewrite length_app; cbn; lia).
  by rewrite (cons_middle e b1 b2), (app_assoc b1 [e] b2), drop_app_length.
Qed.

Lemma free_spec d e :
  wf d -> wf (dictFreeUnlinkedEntry d (Some e)) /\ dict_map (dictFreeUnlinkedEntry d (Some e)) = dict_map d
  /\ destroyed (calls (dictFreeUnlinkedEntry d (Some e))) = destroyed (calls d) ++ [inl e.1; inr e.2].
Proof.
  intros W. destruct e as [k v]. cbn. split; [|split; [done|by rewrite !destroyed_app, <- app_assoc]].
  destruct W. constructor; try done. cbn. rewrite !told_app. cbn. lia.
Qed.

(** What a deletion leaves, the destructors having been called or not. *)
Definition deleted (d : dict) (key : K) (he : option (K * V)) (freed : bool) (d' : dict) : Prop :=
  wf d' /\ he = dict_map d !! canon key /\ dict_map d' = delete (canon key) (dict_map d)
  /\ destroyed (calls d') = destroyed (calls d)
       ++ (if freed then match he with Some e => [inl e.1; inr e.2] | None => [] end else [])
  /\ pauserehash d' = pauserehash d /\ pauseAutoResize d' = pauseAutoResize d.

Lemma not_found d d' key freed :
  wf d -> same d d' -> dict_map d !! canon key = None -> deleted d key None freed d'.
Proof.
  intros W Hs Hn. split; [apply Hs|]. split; [done|]. split; [|split; [|split; apply Hs]].
  - rewrite (same_map d d') by done. symmetry. by apply delete_id.
  - destruct freed; rewrite app_nil_r; apply Hs.
Qed.

Lemma shrink_deleted d d0 e l l1 b1 b2 l2 key freed :
  wf d -> same d d0 -> at_link d0 l e l1 b1 b2 l2 -> canon e.1 = canon key ->
  exists d', _dictShrinkIfNeeded type mode
      (if freed : bool then dictFreeUnlinkedEntry (unlinked d0 l l1 b1 b2 l2) (Some e) else unlinked d0 l l1 b1 b2 l2)
      = Some d' /\ deleted d key (Some e) freed d'.
Proof.
  intros W Hs Hl Hc. pose proof (same_wf _ _ _ _ Hs) as W0.
  destruct (unlinked_spec d0 l e l1 b1 b2 l2 W0 Hl) as (W1 & Hm1 & _).
  destruct (free_spec _ e W1) as (W2 & Hm2 & Hd2).
  assert (Hfr : frame d (unlinked d0 l l1 b1 b2 l2)).
  { eapply frame_trans; [by apply same_frame|apply with_ht_frame]. }
  destruct Hfr as (Hf1 & Hf2 & Hf3).
  assert (Hlook : Some e = dict_map d !! canon key).
  { symmetry. rewrite <- (same_map d d0) by done. apply dict_map_Some; [done|]. split; [|done].
    rewrite (at_link_entries _ _ _ _ _ _ _ Hl). apply list_elem_of_here. }
  assert (Hmap : dict_map (unlinked d0 l l1 b1 b2 l2) = delete (canon key) (dict_map d)).
  { by rewrite Hm1, Hc, (same_map d d0). }
  destruct freed.
  - destruct (_shrinkIfNeeded_same _ _ mode _ W2) as (d' & -> & Hs'). exists d'. split; [done|].
    split; [apply Hs'|]. split; [done|]. split; [by rewrite (same_map _ d' W2 Hs'), Hm2|].
    destruct (same_frame _ _ Hs') as (-> & -> & ->). rewrite Hd2, Hf1. destruct e; done.
  - destruct (_shrinkIfNeeded_same _ _ mode _ W1) as (d' & -> & Hs'). exists d'. split; [done|].
    split; [apply Hs'|]. split; [done|]. split; [by rewrite (same_map _ d' W1 Hs')|].
    destruct (same_frame _ _ Hs') as (-> & -> & ->). by rewrite app_nil_r.
Qed.

Lemma genericDelete_spec d key nofree :
  wf d -> exists he d', dictGenericDelete type mode d key nofree = Some (he, d') /\ deleted d key he (negb nofree) d'.
Proof.
  intros W. unfold dictGenericDelete. zcase.
  { eexists _, _. split; [done|]. apply not_found; [done|by apply same_refl|].
    by rewrite empty_map, lookup_empty by done. }
  pose proof (nonempty_alloc d W ltac:(done)) as Ha.
  destruct (step_spec d key W) as (d0 & -> & Hs & _ & Hi). sbind. pose proof (same_wf _ _ _ _ Hs) as W0.
  destruct (tables_loop_spec d0 key _ W0 (same_alloc _ _ _ _ Hs Ha) Hi) as (r & idx & -> & Hr & _). sbind.
  pose proof (search_lookup d0 key r W0 Hr) as Hl. destruct r as [l|].
  - destruct Hl as (e & Hg & Hlk). rewrite Hg. sbind. destruct Hr as (e' & l1 & b1 & b2 & l2 & Hat & Hc).
    assert (e' = e) as ->.
    { assert (Hlk' : dict_map d0 !! canon key = Some e'); [|congruence]. apply dict_map_Some; [done|].
      split; [|done]. rewrite (at_link_entries _ _ _ _ _ _ _ Hat). apply list_elem_of_here. }
    destruct (remove_unlinked d0 l e l1 b1 b2 l2 Hat) as (h & -> & ->). sbind.
    destruct (unlinked_spec d0 l e l1 b1 b2 l2 W0 Hat) as (_ & _ & Hu).
    destruct (shrink_deleted d d0 e l l1 b1 b2 l2 key (negb nofree) W Hs Hat Hc) as (d' & Hd' & Hdel).
    match goal with |- context [_dictShrinkIfNeeded type mode ?x] =>
      replace x with (if negb nofree then dictFreeUnlinkedEntry (unlinked d0 l l1 b1 b2 l2) (Some e)
                      else unlinked d0 l l1 b1 b2 l2) end.
    + rewrite Hd'. sbind. eauto.
    + unfold unlinked. replace (ht_used (ht_of d0 (l_table l)) - 1) with (u64 (ht_used (ht_of d0 (l_table l)) + -1)).
      * destruct nofree, (l_table l), e; done.
      * rewrite wrap_small by lia. lia.
  - eexists _, _. split; [done|]. apply not_found; [done..|]. by rewrite <- (same_map d d0).
Qed.

(** ** The operations *)

(** There is a table to insert into, or there will be. *)
Definition can_insert (d : dict) : Prop := pauseAutoResize d <= 0 \/ is_Some (ht_table (ht0 d)).

Lemma findLinkForInsert_spec d key :
  wf d -> can_insert d ->
  exists r d', dictFindLinkForInsert type mode d key = Some (r, d') /\ same d d' /\ is_Some (ht_table (ht0 d'))
    /\ match r with
       | inl l => l = mkLink (dictIsRehashing d') (home d' key) 0 /\ dict_map d !! canon key = None
       | inr l => exists e l1 b1 b2 l2, at_link d' l e l1 b1 b2 l2 /\ canon e.1 = canon key
                                        /\ dict_map d !! canon key = Some e
       end.
Proof.
  intros W Hins. unfold dictFindLinkForInsert.
  destruct (step_spec d key W) as (d0 & -> & Hs & Hi0 & Hi). sbind. pose proof (same_wf _ _ _ _ Hs) as W0.
  destruct (_expandIfNeeded_same _ _ mode d0 W0) as (st & d1 & -> & Hs1 & Ha1 & Hix). sbind.
  pose proof (same_trans _ _ _ _ _ Hs Hs1) as Hs01. pose proof (same_wf _ _ _ _ Hs1) as W1.
  assert (Ha : is_Some (ht_table (ht0 d1))).
  { destruct Hins as [Hp|Ha]; [apply Ha1; by rewrite (same_pauseResize _ _ _ _ Hs)|by apply Hs01]. }
  assert (Hi1 : start_idx d1 key (hash key &&& DICTHT_SIZE_MASK (ht_size_exp (ht0 d)))).
  { destruct Hix as [->|Hix]; [done|]. split; [done|]. lia. }
  destruct (tables_loop_spec d1 key _ W1 Ha Hi1) as (r & idx & -> & Hr & Hidx). sbind.
  pose proof (search_lookup d1 key r W1 Hr) as Hl. rewrite (same_map d d1) in Hl by done. destruct r as [l|].
  - eexists _, _. split; [done|]. split; [done|]. split; [done|].
    destruct Hr as (e & l1 & b1 & b2 & l2 & Hat & Hc). exists e, l1, b1, b2, l2. split; [done|]. split; [done|].
    rewrite <- (same_map d d1) by done. apply dict_map_Some; [done|]. split; [|done].
    rewrite (at_link_entries _ _ _ _ _ _ _ Hat). apply list_elem_of_here.
  - eexists _, _. split; [done|]. split; [done|]. split; [done|]. by rewrite Hidx.
Qed.

(** Room for one more in the counters. *)
Definition has_room (d : dict) : Prop := Z.of_nat (size (dict_map d)) + 1 < 2 ^ 64.

Lemma addRaw_spec d key :
  wf d -> can_insert d -> has_room d ->
  exists r d', dictAddRaw type mode indet d key = Some (r, d') /\ wf d' /\ frame d d'
    /\ match r with
       | inl l => dict_map d !! canon key = None /\ dict_map d' = <[canon key := (key, indet)]> (dict_map d)
                  /\ exists l1 b2 l2, at_link d' l (key, indet) l1 [] b2 l2
       | inr l => exists e l1 b1 b2 l2, at_link d' l e l1 b1 b2 l2 /\ canon e.1 = canon key
                    /\ dict_map d !! canon key = Some e /\ dict_map d' = dict_map d
       end.
Proof.
  intros W Hins Hroom. unfold dictAddRaw.
  destruct (findLinkForInsert_spec d key W Hins) as (r & d0 & -> & Hs & Ha & Hr). sbind.
  pose proof (same_wf _ _ _ _ Hs) as W0. pose proof (same_map d d0 W Hs) as Hm. destruct r as [l|l].
  - destruct Hr as [-> Hno].
    destruct (insertKeyAtLink_spec d0 key W0 Ha) as (d' & -> & W' & Hf & Hp & Hat).
    { by rewrite Hm. } { rewrite dict_map_size, Hm by done. exact Hroom. }
    sbind. eexists _, _. split; [done|]. split; [done|].
    split; [eapply frame_trans; [by apply same_frame|done]|]. split; [done|]. split; [|done].
    rewrite (dict_map_perm d' _ W' Hp), <- Hm. done.
  - destruct Hr as (e & l1 & b1 & b2 & l2 & Hat & Hc & Hlk). eexists _, _. split; [done|]. split; [done|].
    split; [by apply same_frame|]. exists e, l1, b1, b2, l2. done.
Qed.

Lemma add_spec d key val :
  wf d -> can_insert d -> has_room d ->
  exists st d', dictAdd type mode indet d key val = Some (st, d') /\ wf d' /\ frame d d'
    /\ match dict_map d !! canon key with
       | Some _ => st = DICT_ERR /\ dict_map d' = dict_map d
       | None => st = DICT_OK /\ dict_map d' = <[canon key := (key, val)]> (dict_map d)
       end.
Proof.
  intros W Hins Hroom. unfold dictAdd.
  destruct (addRaw_spec d key W Hins Hroom) as (r & d0 & -> & W0 & Hf & Hr). sbind. destruct r as [l|l].
  - destruct Hr as (Hno & Hm & l1 & b2 & l2 & Hat).
    destruct (update_spec d0 l _ _ _ _ _ (fun '(k, _) => (k, val)) W0 Hat) as (d' & Hd' & W' & _ & Hf' & Hm'); [done|].
    unfold dictSetVal. rewrite Hd'. sbind. eexists _, _. split; [done|]. split; [done|].
    split; [by eapply frame_trans|]. rewrite Hno. split; [done|]. by rewrite Hm', Hm, insert_insert_eq.
  - destruct Hr as (e & l1 & b1 & b2 & l2 & Hat & Hc & -> & Hm). eexists _, _. split; [done|]. done.
Qed.

Lemma call_destructor d v :
  wf d -> wf (call d (valDestructor v)) /\ dict_map (call d (valDestructor v)) = dict_map d.
Proof.
  intros W. split; [|done]. destruct W. constructor; try done. cbn. rewrite told_app. cbn. lia.
Qed.

(** The key of an entry that is replaced stays, its old value is destroyed. *)
Lemma replace_spec d key val :
  wf d -> can_insert d -> has_room d ->
  exists added d', dictReplace type mode indet d key val = Some (added, d') /\ wf d'
    /\ match dict_map d !! canon key with
       | Some (k, v) => added = false /\ dict_map d' = <[canon key := (k, val)]> (dict_map d)
                        /\ destroyed (calls d') = destroyed (calls d) ++ [inr v]
       | None => added = true /\ dict_map d' = <[canon key := (key, val)]> (dict_map d)
                 /\ destroyed (calls d') = destroyed (calls d)
       end /\ pauserehash d' = pauserehash d /\ pauseAutoResize d' = pauseAutoResize d.
Proof.
  intros W Hins Hroom. unfold dictReplace.
  destruct (addRaw_spec d key W Hins Hroom) as (r & d0 & -> & W0 & Hf & Hr). sbind. destruct r as [l|l].
  - destruct Hr as (Hno & Hm & l1 & b2 & l2 & Hat).
    destruct (update_spec d0 l _ _ _ _ _ (fun '(k, _) => (k, val)) W0 Hat) as (d' & Hd' & W' & _ & Hf' & Hm'); [done|].
    unfold dictSetVal. rewrite Hd'. sbind. eexists _, _. split; [done|]. split; [done|].
    destruct (frame_trans _ _ _ Hf Hf') as (? & ? & ?). rewrite Hno. rewrite Hm', Hm, insert_insert_eq. done.
  - destruct Hr as ([k v] & l1 & b1 & b2 & l2 & Hat & Hc & Hlk & Hm).
    assert (Hg : link_get d0 l = Some (Some (k, v))).
    { destruct Hat as [Hsp Hpos]. unfold link_get. rewrite (get_split _ _ _ _ _ Hsp). sbind.
      by rewrite <- Hpos, list_lookup_middle. }
    rewrite Hg. sbind.
    destruct (update_spec d0 l _ _ _ _ _ (fun '(k, _) => (k, val)) W0 Hat) as (d' & Hd' & W' & _ & Hf' & Hm'); [done|].
    unfold dictSetVal. rewrite Hd'. sbind. eexists _, _. split; [done|].
    destruct (call_destructor d' v W') as [W'' Hm'']. split; [done|]. rewrite Hlk, Hm'', Hm', Hm.
    destruct (frame_trans _ _ _ Hf Hf') as (Hd & ? & ?). cbn in Hc. cbn. rewrite destroyed_app, Hd, Hc. done.
Qed.

(** ** Finding now and unlinking later *)

Lemma pause_wf d n : wf d -> wf (with_pauserehash d (wrap 15 n)).
Proof. intros []. constructor; try done. apply wrap_range. lia. Qed.

Lemma unlinkFree_spec d l e l1 b1 b2 l2 key :
  wf d -> at_link d l e l1 b1 b2 l2 -> canon e.1 = canon key ->
  exists d', dictTwoPhaseUnlinkFree type mode d (Some l) (l_table l) = Some (dictResumeRehashing d')
    /\ deleted d key (Some e) true d'.
Proof.
  intros W Hat Hc. destruct (shrink_deleted d d e l l1 b1 b2 l2 key true W) as (d' & Hd' & Hdel);
    [by apply same_refl|done|done|].
  exists d'. split; [|done]. cbn [dictTwoPhaseUnlinkFree].
  assert (Hg : link_get d l = Some (Some e)).
  { destruct Hat as [Hsp Hpos]. unfold link_get. rewrite (get_split _ _ _ _ _ Hsp). sbind.
    by rewrite <- Hpos, list_lookup_middle. }
  rewrite Hg. sbind. destruct (unlinked_spec d l e l1 b1 b2 l2 W Hat) as (_ & _ & Hu).
  assert (Hat' : at_link (add_used d (l_table l) (-1)) l e l1 b1 b2 l2).
  { destruct Hat as [[Ht Hi] Hp]. split; [|done]. split; [|done]. rewrite <- Ht. by destruct (l_table l). }
  destruct (remove_unlinked _ l e l1 b1 b2 l2 Hat') as (h & -> & ->). sbind.
  match goal with |- context [_dictShrinkIfNeeded type mode ?x] =>
    replace x with (dictFreeUnlinkedEntry (unlinked d l l1 b1 b2 l2) (Some e)) end.
  - rewrite Hd'. by sbind.
  - unfold unlinked. replace (ht_used (ht_of d (l_table l)) - 1) with (u64 (ht_used (ht_of d (l_table l)) + -1)).
    + destruct (l_table l), e; done.
    + rewrite wrap_small by lia. lia.
Qed.

Lemma unlinkFind_spec d key :
  wf d ->
  exists r d1, dictTwoPhaseUnlinkFind type mode d key = Some (r, d1) /\ wf d1 /\ dict_map d1 = dict_map d
    /\ destroyed (calls d1) = destroyed (calls d) /\ pauseAutoResize d1 = pauseAutoResize d
    /\ match r with
       | Some l => pauserehash d1 = wrap 15 (pauserehash d + 1)
           /\ exists e l1 b1 b2 l2, at_link d1 l e l1 b1 b2 l2 /\ canon e.1 = canon key
       | None => pauserehash d1 = pauserehash d /\ dict_map d !! canon key = None
       end.
Proof.
  intros W. unfold dictTwoPhaseUnlinkFind. zcase.
  { eexists _, _. split; [done|]. split; [done|]. rewrite empty_map by done. done. }
  pose proof (nonempty_alloc d W ltac:(done)) as Ha.
  assert (Hst : exists d0, (if dictIsRehashing d then _dictRehashStep type mode d else Some d) = Some d0 /\ same d d0).
  { destruct (dictIsRehashing d); [|eauto using same_refl].
    destruct (rehashStep_same _ _ mode d W) as (d0 & -> & Hs & _). eauto. }
  destruct Hst as (d0 & -> & Hs). sbind. pose proof (same_wf _ _ _ _ Hs) as W0.
  destruct (unlink_find_loop_spec d0 key W0 (same_alloc _ _ _ _ Hs Ha)) as (r & -> & Hr). sbind.
  destruct (same_frame _ _ Hs) as (Hf1 & Hf2 & Hf3). pose proof (same_map d d0 W Hs) as Hm.
  destruct r as [l|]; eexists _, _; (split; [done|]).
  - split; [by apply pause_wf|]. split; [done|]. split; [done|]. split; [done|]. cbn. by rewrite Hf2.
  - split; [done|]. split; [done|]. split; [done|]. split; [done|]. split; [done|].
    rewrite <- Hm. by apply (search_lookup d0 key None).
Qed.

(** ** Emptying *)

(** What the destructors of an entry are given. *)
Definition destroys (l : list (K * V)) : list (K + V) := l ≫= fun e => [inl e.1; inr e.2].

(** The members of [d'] but for the counter of a table and the calls. *)
Definition clearing (d d' : dict) (t : bool) (l : list (K * V)) : Prop :=
  ht_table (ht_of d' t) = ht_table (ht_of d t) /\ ht_size_exp (ht_of d' t) = ht_size_exp (ht_of d t)
  /\ ht_of d' (negb t) = ht_of d (negb t)
  /\ ht_used (ht_of d' t) = ht_used (ht_of d t) - zlen l
  /\ told (calls d') = told (calls d) /\ destroyed (calls d') = destroyed (calls d) ++ destroys l.

Lemma clearing_trans d1 d2 d3 t a b : clearing d1 d2 t a -> clearing d2 d3 t b -> clearing d1 d3 t (a ++ b).
Proof.
  intros (A1 & A2 & A3 & A4 & A5 & A6) (B1 & B2 & B3 & B4 & B5 & B6).
  unfold clearing. rewrite B1, B2, B3, B4, B5, B6, A1, A2, A3, A4, A5, A6.
  repeat split; [zlen_solve|]. unfold destroys. by rewrite bind_app, app_assoc.
Qed.

Lemma clear_chain_spec t he : forall d,
  zlen he <= ht_used (ht_of d t) < 2 ^ 64 -> clearing d (clear_chain d t he) t he.
Proof.
  induction he as [|[k v] he IH]; intros d Hu.
  { unfold clearing, destroys. cbn. rewrite app_nil_r. change (zlen (@nil (K * V))) with 0. repeat split; lia. }
  rewrite zlen_cons in Hu. pose proof (zlen_nonneg he). cbn [clear_chain].
  set (d1 := add_used _ _ _).
  assert (H1 : clearing d d1 t [(k, v)]).
  { unfold d1, clearing, destroys. change (zlen [(k, v)]) with 1.
    assert (Hw : u64 (ht_used (ht_of d t) + -1) = ht_used (ht_of d t) - 1) by (rewrite wrap_small by lia; lia).
    rewrite <- Hw. destruct t; cbn; rewrite !told_app, !destroyed_app; cbn; rewrite <- app_assoc; repeat split; lia. }
  apply (clearing_trans _ d1 _ _ [(k, v)]); [done|]. apply IH. destruct H1 as (_ & _ & _ & Hu1 & _).
  rewrite Hu1. change (zlen [(k, v)]) with 1. lia.
Qed.

Lemma clear_loop_spec t cb l2 : forall d l1 i,
  ht_table (ht_of d t) = Some (l1 ++ l2) -> i = zlen l1 -> ht_used (ht_of d t) = zlen (concat l2) ->
  zlen (concat l2) < 2 ^ 64 ->
  exists d', clear_loop (length l2) d t cb i = Some d' /\ clearing d d' t (concat l2).
Proof.
  assert (Hnil : forall d, clearing d d t []).
  { intros d. unfold clearing, destroys. cbn. rewrite app_nil_r. change (zlen (@nil (K * V))) with 0. repeat split; lia. }
  induction l2 as [|b l2 IH]; intros d l1 i Ht -> Hu Hlt; cbn [length clear_loop].
  { exists d. split; [done|]. apply Hnil. }
  destruct (Z.gtb_spec (ht_used (ht_of d t)) 0).
  - match goal with |- context [if ?c then call d progress else d] => set (d0 := if c then call d progress else d) end.
    assert (Hc0 : clearing d d0 t []).
    { unfold d0. case_match; [|apply Hnil]. unfold clearing, destroys.
      destruct t; cbn; rewrite told_app, destroyed_app; cbn; rewrite ?app_nil_r; change (zlen (@nil (K * V))) with 0;
        repeat split; lia. }
    pose proof Hc0 as (Ht0 & _ & _ & Hu0 & _). change (zlen (@nil (K * V))) with 0 in Hu0.
    rewrite (get_split _ _ l1 b l2) by (split; [by rewrite Ht0|done]). sbind.
    cbn [concat] in Hu, Hlt. pose proof (zlen_nonneg (concat l2)) as Hp.
    pose proof (clear_chain_spec t b d0) as Hb. specialize (Hb ltac:(revert Hu Hlt; zlen_solve)).
    pose proof (clearing_trans _ _ _ _ _ _ Hc0 Hb) as Hb'. destruct Hb' as (HtB & _ & _ & HuB & _).
    destruct (IH (clear_chain d0 t b) (l1 ++ [b]) (zlen l1 + 1)) as (d' & -> & Hd').
    + rewrite HtB, Ht. by rewrite <- app_assoc.
    + zlen_solve.
    + rewrite HuB, Hu. cbn. zlen_solve.
    + revert Hlt. zlen_solve.
    + exists d'. split; [done|]. exact (clearing_trans _ _ _ _ _ _ Hc0 (clearing_trans _ _ _ _ _ _ Hb Hd')).
  - exists d. split; [done|]. assert (Hc : concat (b :: l2) = []).
    { apply length_zero_iff_nil. unfold zlen in *. lia. }
    rewrite Hc. apply Hnil.
Qed.

End map.
