(* ===== verification/DictRefine.v ===== *)
(** * The dictionary refines a finite map

    The theorems about the operations one by one, and about any sequence of
    them: running the code from a new dictionary gives the results of running the
    operations on a [gmap]. *)

From stdpp Require Import gmap.
From S2P Require Import Prelude Dict DictSpec DictMap.

Section refine.
Context {K V C : Type} `{EqDecision K} `{Countable C}.
Context (type : @dictType K) (canon : K -> C) `{!DictKeys type canon}.
Context (indet : V).

Abbreviation dict := (@dict K V).
Abbreviation wf := (wf type canon).
Abbreviation same := (same type canon).
Abbreviation dict_map := (dict_map canon).
Abbreviation told := (@told K V).
Abbreviation destroyed := (@destroyed K V).
Implicit Types d : dict.

Lemma create_wf : wf (dictCreate : dict).
Proof.
  constructor; cbn; try done.
  - constructor.
  - by left.
Qed.

(** ** Emptying *)

Lemma ht_size_bound (h : @ht K V) : ht_ok type h -> 0 <= DICTHT_SIZE (ht_size_exp h) <= 2 ^ 60.
Proof.
  intros [Hs _]. destruct (ht_table h) as [t|] eqn:Ht.
  - pose proof (shape_exp _ _ Hs ltac:(by rewrite Ht)). rewrite size_exp by lia.
    split; [apply Z.pow_nonneg; lia|]. apply Z.pow_le_mono_r; lia.
  - unfold ht_shape in Hs. rewrite Ht in Hs. rewrite Hs. cbn. lia.
Qed.

Lemma dictClear_spec d t cb :
  ht_ok type (ht_of d t) -> zlen (ents (ht_of d t)) < 2 ^ 64 ->
  exists d', _dictClear d t cb = Some d' /\ ht_of d' t = reset_ht /\ ht_of d' (negb t) = ht_of d (negb t)
    /\ told (calls d') = told (calls d)
    /\ destroyed (calls d') = destroyed (calls d) ++ destroys (ents (ht_of d t)).
Proof.
  intros [Hs Hu] Hc. unfold _dictClear. destruct (ht_table (ht_of d t)) as [tb|] eqn:Ht.
  - pose proof (shape_exp _ _ Hs ltac:(by rewrite Ht)) as He. rewrite size_exp by lia.
    assert (Hen : ents (ht_of d t) = concat tb) by (unfold ents; by rewrite Ht). rewrite Hen in *.
    unfold ht_shape in Hs. rewrite Ht in Hs. destruct Hs as (_ & Hl & _). rewrite <- Hl, to_nat_zlen.
    destruct (clear_loop_spec t cb tb d [] 0 Ht) as (d' & -> & (_ & _ & Ho & _ & Hd1 & Hd2)); [done|done|done|].
    sbind. eexists. split; [done|]. by destruct t.
  - assert (Hen : ents (ht_of d t) = []) by (unfold ents; by rewrite Ht). rewrite Hen.
    unfold ht_shape in Hs. rewrite Ht in Hs. rewrite Hs. cbn. eexists. split; [done|].
    rewrite app_nil_r. by destruct t.
Qed.

Lemma tell_release_spec d :
  wf d -> told (calls (tell_release d)) = 0 /\ destroyed (calls (tell_release d)) = destroyed (calls d)
    /\ ht0 (tell_release d) = ht0 d /\ ht1 (tell_release d) = ht1 d.
Proof.
  intros W. pose proof (ht_size_bound _ (wf_ht0 _ _ _ W)). pose proof (ht_size_bound _ (wf_ht1 _ _ _ W)).
  assert (Hb : dictBuckets d = DICTHT_SIZE (ht_size_exp (ht0 d)) + DICTHT_SIZE (ht_size_exp (ht1 d))).
  { unfold dictBuckets. apply wrap_small. lia. }
  unfold tell_release. destruct (dictIsRehashing d); cbn; rewrite ?told_app, ?destroyed_app, (wf_told _ _ _ W);
    cbn; rewrite ?app_nil_r; unfold dictBuckets in *; cbn; repeat split; lia.
Qed.

Lemma clear_both d cb :
  ht_ok type (ht0 d) -> ht_ok type (ht1 d) -> zlen (entries d) < 2 ^ 64 ->
  exists d', (d ← _dictClear d false cb; _dictClear d true cb) = Some d'
    /\ ht0 d' = reset_ht /\ ht1 d' = reset_ht /\ told (calls d') = told (calls d)
    /\ destroyed (calls d') = destroyed (calls d) ++ destroys (entries d).
Proof.
  intros H0 H1 Hc. unfold entries in Hc. rewrite zlen_app in Hc.
  destruct (dictClear_spec d false cb H0) as (d1 & -> & A0 & A1 & At & Ad); [cbn; zlen_solve|]. sbind. cbn in A0, A1.
  destruct (dictClear_spec d1 true cb) as (d2 & -> & B1 & B0 & Bt & Bd); cbn; rewrite ?A1; [done|zlen_solve|].
  exists d2. split; [done|]. cbn in B1, B0. rewrite B0, Bt, Bd, At, Ad. cbn. rewrite A1.
  unfold destroys, entries. by rewrite bind_app, app_assoc.
Qed.

Lemma empty_spec d cb :
  wf d ->
  exists d', dictEmpty d cb = Some d' /\ wf d' /\ dict_map d' = ∅ /\ dictSize d' = 0 /\ told (calls d') = 0
    /\ destroyed (calls d') = destroyed (calls d) ++ destroys (entries d) /\ pauseAutoResize d' = 0.
Proof.
  intros W. destruct (tell_release_spec d W) as (Ht & Hd & E0 & E1).
  assert (Hen : entries (tell_release d) = entries d) by (unfold entries; by rewrite E0, E1).
  destruct (clear_both (tell_release d) cb) as (d' & Heq & H0 & H1 & Ht' & Hd').
  { rewrite E0. apply W. } { rewrite E1. apply W. } { rewrite Hen. apply W. }
  unfold dictEmpty. destruct (_dictClear (tell_release d) false cb) as [d1|]; [|done]. revert Heq. sbind. intros ->.
  sbind. exists (mkDict reset_ht reset_ht (-1) 0 0 (calls d')). split; [by rewrite H0, H1|].
  rewrite Hen, Hd in Hd'. split; [|split; [done|split; [done|]]].
  - constructor; cbn; try done; [constructor|by left|]. by rewrite Ht', Ht.
  - cbn. by rewrite Ht', Ht.
Qed.

Lemma dictRelease_spec d :
  wf d ->
  exists cs, dictRelease d = Some cs /\ told cs = 0 /\ destroyed cs = destroyed (calls d) ++ destroys (entries d).
Proof.
  intros W. destruct (tell_release_spec d W) as (Ht & Hd & E0 & E1). set (d0 := call (tell_release d) onDictRelease).
  assert (F0 : ht0 d0 = ht0 d) by exact E0. assert (F1 : ht1 d0 = ht1 d) by exact E1.
  assert (Hen : entries d0 = entries d) by (unfold entries; by rewrite F0, F1).
  destruct (clear_both d0 false) as (d' & Heq & _ & _ & Ht' & Hd').
  { rewrite F0. apply W. } { rewrite F1. apply W. } { rewrite Hen. apply W. }
  unfold dictRelease. fold d0. destruct (_dictClear d0 false false) as [d1|]; [|done]. revert Heq. sbind. intros ->. sbind.
  exists (calls d'). split; [done|]. rewrite Ht', Hd', Hen.
  change (calls d0) with (calls (tell_release d) ++ [@onDictRelease K V]). rewrite told_app, destroyed_app, Ht, Hd. cbn.
  by rewrite app_nil_r.
Qed.

(** ** Sequences of operations *)

Inductive op :=
  | Find (key : K)
  | Add (key : K) (val : V)
  | Replace (key : K) (val : V)
  | Delete (key : K)
  | Unlink (key : K)
  | Rehash (n : nat)
  | Expand (size : Z)
  | Shrink (size : Z)
  | Empty (has_callback : bool)
  | PauseRehashing
  | ResumeRehashing
  | SetResizeEnabled (enable : dictResizeEnable).

Inductive result :=
  | Entry (e : option (K * V))
  | Done (st : status)
  | Added (b : bool)
  | Nothing.

(** The code; the state has the global [dict_can_resize]. *)
Definition exec (s : dictResizeEnable * dict) (o : op) : option (result * (dictResizeEnable * dict)) :=
  let '(mode, d) := s in
  match o with
  | Find key => '(e, d) ← dictFind type mode d key; Some (Entry e, (mode, d))
  | Add key val => '(st, d) ← dictAdd type mode indet d key val; Some (Done st, (mode, d))
  | Replace key val => '(b, d) ← dictReplace type mode indet d key val; Some (Added b, (mode, d))
  | Delete key => '(st, d) ← dictDelete type mode d key; Some (Done st, (mode, d))
  | Unlink key => '(e, d) ← dictUnlink type mode d key; Some (Entry e, (mode, d))
  | Rehash n => '(_, d) ← dictRehash type mode d n; Some (Nothing, (mode, d))
  | Expand size => '(_, d) ← dictExpand type mode d (u64 size); Some (Nothing, (mode, d))
  | Shrink size => '(_, d) ← dictShrink type mode d (u64 size); Some (Nothing, (mode, d))
  | Empty cb => d ← dictEmpty d cb; Some (Nothing, (mode, d))
  | PauseRehashing => Some (Nothing, (mode, dictPauseRehashing d))
  | ResumeRehashing => Some (Nothing, (mode, dictResumeRehashing d))
  | SetResizeEnabled enable => Some (Nothing, (enable, d))
  end.

(** The operations on the map. *)
Definition spec_exec (m : gmap C (K * V)) (o : op) : result * gmap C (K * V) :=
  match o with
  | Find key => (Entry (m !! canon key), m)
  | Add key val =>
      match m !! canon key with
      | Some _ => (Done DICT_ERR, m)
      | None => (Done DICT_OK, <[canon key := (key, val)]> m)
      end
  | Replace key val =>
      match m !! canon key with
      | Some (k, _) => (Added false, <[canon key := (k, val)]> m)
      | None => (Added true, <[canon key := (key, val)]> m)
      end
  | Delete key => (Done (if m !! canon key is Some _ then DICT_OK else DICT_ERR), delete (canon key) m)
  | Unlink key => (Entry (m !! canon key), delete (canon key) m)
  | Empty _ => (Nothing, ∅)
  | _ => (Nothing, m)
  end.

Fixpoint run (s : dictResizeEnable * dict) (os : list op) : option (list result * (dictResizeEnable * dict)) :=
  match os with
  | [] => Some ([], s)
  | o :: os => '(r, s) ← exec s o; '(rs, s) ← run s os; Some (r :: rs, s)
  end.

Fixpoint spec_run (m : gmap C (K * V)) (os : list op) : list result * gmap C (K * V) :=
  match os with
  | [] => ([], m)
  | o :: os => let '(r, m) := spec_exec m o in let '(rs, m) := spec_run m os in (r :: rs, m)
  end.

(** What holds between operations. *)
Definition sim (s : dictResizeEnable * dict) (m : gmap C (K * V)) : Prop :=
  wf (snd s) /\ pauseAutoResize (snd s) = 0 /\ dict_map (snd s) = m.

Lemma same_sim mode mode' d d' m : sim (mode, d) m -> same d d' -> sim (mode', d') m.
Proof.
  intros (W & Hp & Hm) Hs. split; [apply Hs|]. split; [by rewrite <- Hp; apply Hs|].
  cbn in *. by rewrite <- Hm; apply same_map with (type := type).
Qed.

Lemma deleted_sim mode mode' d d' m key he fr :
  sim (mode, d) m -> deleted type canon d key he fr d' -> sim (mode', d') (delete (canon key) m) /\ he = m !! canon key.
Proof.
  intros (W & Hp & Hm) (W' & He & Hm' & _ & _ & Hp'). cbn in *.
  rewrite Hm in *. split; [|done]. split; [done|]. split; [|done]. cbn. by rewrite Hp'.
Qed.

Lemma exec_sim s m o :
  sim s m -> Z.of_nat (size m) + 1 < 2 ^ 64 ->
  exists s', exec s o = Some ((spec_exec m o).1, s') /\ sim s' (spec_exec m o).2.
Proof.
  destruct s as [mode d]. intros Hsim Hroom. pose proof Hsim as (W & Hp & Hm). cbn in W, Hp, Hm.
  assert (Hins : can_insert d) by (left; lia). assert (Hr : has_room canon d) by (unfold has_room; by rewrite Hm).
  destruct o as [key|key val|key val|key|key|n|sz|sz|cb| | |mode']; cbn [exec spec_exec fst snd].
  - destruct (find_spec type canon mode d key W) as (d' & -> & Hs). sbind. rewrite Hm.
    eexists. split; [done|]. by eapply same_sim.
  - destruct (add_spec type canon mode indet d key val W Hins Hr) as (st & d' & -> & W' & (_ & _ & Hp') & Hres). sbind.
    rewrite Hm in Hres. exists (mode, d'). unfold sim; cbn. rewrite Hp'.
    destruct (m !! canon key); destruct Hres as [-> ->]; done.
  - destruct (replace_spec type canon mode indet d key val W Hins Hr) as (b & d' & -> & W' & Hres & _ & Hp'). sbind.
    rewrite Hm in Hres. exists (mode, d'). unfold sim; cbn. rewrite Hp'.
    destruct (m !! canon key) as [[k v]|]; destruct Hres as (-> & -> & _); done.
  - unfold dictDelete. destruct (genericDelete_spec type canon mode d key false W) as (he & d' & -> & Hdel). sbind.
    destruct (deleted_sim mode mode d d' m key he _ Hsim Hdel) as [Hs ->]. eexists. split; [|done]. by destruct (m !! canon key).
  - unfold dictUnlink. destruct (genericDelete_spec type canon mode d key true W) as (he & d' & -> & Hdel). sbind.
    destruct (deleted_sim mode mode d d' m key he _ Hsim Hdel) as [Hs ->]. eauto.
  - destruct (dictRehash_same type canon mode d n W) as (more & d' & -> & Hs & _). sbind.
    eexists. split; [done|]. by eapply same_sim.
  - destruct (dictExpand_same type canon mode d (u64 sz) W (wrap_range 64 _ ltac:(lia))) as (st & d' & -> & Hs & _). sbind.
    eexists. split; [done|]. by eapply same_sim.
  - destruct (dictShrink_same type canon mode d (u64 sz) W (wrap_range 64 _ ltac:(lia))) as (st & d' & -> & Hs). sbind.
    eexists. split; [done|]. by eapply same_sim.
  - destruct (empty_spec d cb W) as (d' & -> & W' & Hm' & _ & _ & _ & Hp'). sbind. eexists. split; [done|]. done.
  - eexists. split; [done|]. split; [by apply pause_wf|done].
  - eexists. split; [done|]. split; [by apply pause_wf|done].
  - eexists. split; [done|]. done.
Qed.

Lemma spec_size m o : (size (spec_exec m o).2 <= S (size m))%nat.
Proof.
  assert (Hins : forall c (e : K * V), (size (<[c := e]> m) <= S (size m))%nat).
  { intros c e. destruct (m !! c) eqn:E; [rewrite map_size_insert_Some by eauto|rewrite map_size_insert_None by done]; lia. }
  assert (Hdel : forall c, (size (delete c m) <= S (size m))%nat).
  { intros c. destruct (m !! c) eqn:E; [rewrite map_size_delete_Some by eauto|rewrite delete_id by done]; lia. }
  destruct o; cbn [spec_exec snd]; auto.
  - destruct (m !! canon key); cbn; [lia|auto].
  - destruct (m !! canon key) as [[]|]; cbn; auto.
  - rewrite map_size_empty. lia.
Qed.

Lemma run_sim os : forall s m,
  sim s m -> Z.of_nat (size m + length os) < 2 ^ 64 ->
  exists s', run s os = Some ((spec_run m os).1, s') /\ sim s' (spec_run m os).2.
Proof.
  induction os as [|o os IH]; intros s m Hs Hl; [by exists s|]. cbn [run spec_run length] in *.
  destruct (exec_sim s m o Hs) as (s1 & -> & Hs1); [lia|]. pose proof (spec_size m o).
  destruct (spec_exec m o) as [r m1]. cbn in *. destruct (IH s1 m1 Hs1) as (s2 & -> & Hs2); [lia|].
  destruct (spec_run m1 os) as [rs m2]. cbn in *. eauto.
Qed.

(** ** The theorems *)

(** On a well-formed dictionary, in the middle of a rehashing or not,
    [dictFind] does not fail, returns the entry the map has for the key or NULL,
    and leaves a well-formed dictionary with the same map, whatever rehashing it
    did on the way. *)
Theorem dictFind_correct (mode : dictResizeEnable) (d : dict) (key : K) :
  wf d ->
  exists d', dictFind type mode d key = Some (dict_map d !! canon key, d') /\ wf d' /\ dict_map d' = dict_map d.
Proof.
  intros W. destruct (find_spec type canon mode d key W) as (d' & Hd & Hs). exists d'. split; [done|].
  split; [apply Hs|]. by apply same_map with (type := type).
Qed.

(** [dictAdd] refuses a key the map has and changes nothing; otherwise it
    inserts exactly that entry.  Nothing is destroyed.  The step of rehashing and
    the growth of the table it may start do not matter. *)
Theorem dictAdd_correct (mode : dictResizeEnable) (d : dict) (key : K) (val : V) :
  wf d -> can_insert d -> has_room canon d ->
  exists st d', dictAdd type mode indet d key val = Some (st, d') /\ wf d'
    /\ destroyed (calls d') = destroyed (calls d)
    /\ match dict_map d !! canon key with
       | Some _ => st = DICT_ERR /\ dict_map d' = dict_map d
       | None => st = DICT_OK /\ dict_map d' = <[canon key := (key, val)]> (dict_map d)
       end.
Proof.
  intros W Hi Hr. destruct (add_spec type canon mode indet d key val W Hi Hr) as (st & d' & ? & ? & (? & _) & ?). eauto 8.
Qed.

(** [dictReplace] inserts a new key; for a key the map has, it keeps the
    stored key, sets the value, and destroys exactly the old value. *)
Theorem dictReplace_correct (mode : dictResizeEnable) (d : dict) (key : K) (val : V) :
  wf d -> can_insert d -> has_room canon d ->
  exists added d', dictReplace type mode indet d key val = Some (added, d') /\ wf d'
    /\ match dict_map d !! canon key with
       | Some (k, v) => added = false /\ dict_map d' = <[canon key := (k, val)]> (dict_map d)
                        /\ destroyed (calls d') = destroyed (calls d) ++ [inr v]
       | None => added = true /\ dict_map d' = <[canon key := (key, val)]> (dict_map d)
                 /\ destroyed (calls d') = destroyed (calls d)
       end.
Proof.
  intros W Hi Hr. destruct (replace_spec type canon mode indet d key val W Hi Hr) as (st & d' & ? & ? & ? & _). eauto 8.
Qed.

(** [dictDelete] removes the key from the map and destroys its key and value
    once, [dictUnlink] removes it and destroys nothing; both tell whether the map
    had it. *)
Theorem dictDelete_correct (mode : dictResizeEnable) (d : dict) (key : K) :
  wf d ->
  (exists d', dictDelete type mode d key = Some (if dict_map d !! canon key is Some _ then DICT_OK else DICT_ERR, d')
     /\ wf d' /\ dict_map d' = delete (canon key) (dict_map d)
     /\ destroyed (calls d') = destroyed (calls d)
          ++ match dict_map d !! canon key with Some e => [inl e.1; inr e.2] | None => [] end)
  /\ (exists d', dictUnlink type mode d key = Some (dict_map d !! canon key, d')
     /\ wf d' /\ dict_map d' = delete (canon key) (dict_map d) /\ destroyed (calls d') = destroyed (calls d)).
Proof.
  intros W. unfold dictDelete, dictUnlink. split.
  - destruct (genericDelete_spec type canon mode d key false W) as (he & d' & -> & (W' & -> & Hm & Hd & _)). sbind.
    exists d'. by destruct (dict_map d !! canon key).
  - destruct (genericDelete_spec type canon mode d key true W) as (he & d' & -> & (W' & -> & Hm & Hd & _)).
    exists d'. by rewrite app_nil_r in Hd.
Qed.

(** A [dictTwoPhaseUnlinkFind] that returns a link pauses rehashing, and
    [dictTwoPhaseUnlinkFree] of that link is the deletion of the key: the pause is
    undone, key and value are destroyed once.  Without the key nothing is paused. *)
Theorem dictTwoPhaseUnlink_correct (mode : dictResizeEnable) (d : dict) (key : K) :
  wf d ->
  exists r d1, dictTwoPhaseUnlinkFind type mode d key = Some (r, d1) /\ wf d1 /\ dict_map d1 = dict_map d
    /\ match r with
       | None => dict_map d !! canon key = None /\ pauserehash d1 = pauserehash d
       | Some l => pauserehash d1 = wrap 15 (pauserehash d + 1)
           /\ exists e d2, dict_map d !! canon key = Some e /\ link_get d1 l = Some (Some e)
                /\ dictTwoPhaseUnlinkFree type mode d1 (Some l) (l_table l) = Some d2 /\ wf d2
                /\ dict_map d2 = delete (canon key) (dict_map d) /\ pauserehash d2 = pauserehash d
                /\ destroyed (calls d2) = destroyed (calls d) ++ [inl e.1; inr e.2]
       end.
Proof.
  intros W. destruct (unlinkFind_spec type canon mode d key W) as (r & d1 & H1 & W1 & Hm1 & Hd1 & _ & Hr).
  exists r, d1. split; [done|]. split; [done|]. split; [done|]. destruct r as [l|]; [|tauto].
  destruct Hr as (Hp & e & l1 & b1 & b2 & l2 & Hat & Hc). split; [done|].
  destruct (unlinkFree_spec type canon mode d1 l e l1 b1 b2 l2 key W1 Hat Hc) as (d' & Hd' & (W' & He & Hm' & Hde & Hp' & _)).
  rewrite Hm1 in *. exists e, (dictResumeRehashing d').
  split; [done|]. split; [|split; [done|split; [by apply pause_wf|split; [done|]]]].
  - destruct Hat as [Hsp Hpos]. unfold link_get. rewrite (get_split _ _ _ _ _ Hsp). sbind.
    by rewrite <- Hpos, list_lookup_middle.
  - cbn. rewrite Hde, Hd1, Hp', Hp. split; [|done]. unfold wrap. rewrite Zminus_mod_idemp_l, Z.add_simpl_r.
    apply Z.mod_small, W.
Qed.

(** C33: [dictRehash], asked for one bucket or more, never runs out of the table or
    fails its assertion and keeps every entry.  It returns 1 only having moved the
    index of the rehashing forward; when it returns 0, either the rehashing is over
    or the dictionary is as it was because the mode forbids resizing or, for tables
    whose sizes are not far apart, avoids it. *)
Theorem dictRehash_correct (mode : dictResizeEnable) (d : dict) (n : nat) :
  wf d -> (0 < n)%nat ->
  exists more d', dictRehash type mode d n = Some (more, d') /\ wf d' /\ dict_map d' = dict_map d
    /\ if more then rehashidx d < rehashidx d' <= DICTHT_SIZE (ht_size_exp (ht0 d))
       else rehash_avoided mode d = true /\ d' = d \/ dictIsRehashing d' = false.
Proof.
  intros W Hn. destruct (dictRehash_spec type canon mode d n W) as (more & d' & Heq & Hr). exists more, d'. split; [done|].
  destruct (rehash_avoided mode d) eqn:E.
  - destruct Hr as [-> ->]. split; [done|]. split; [done|]. by left.
  - destruct Hr as [Hs Hr]. split; [apply Hs|]. split; [by apply same_map with (type := type)|]. destruct more.
    + destruct Hr as (Hr' & He & _ & _ & Hlt). specialize (Hlt Hn).
      destruct (rehashidx_range type canon d' (same_wf _ _ _ _ Hs) Hr') as (Hri & _ & Hexp & _).
      rewrite <- He, size_exp by lia. lia.
    + right. unfold dictIsRehashing. by rewrite Hr.
Qed.

(** C34: Repeating [dictRehash] while it returns 1 ends, within two calls more than
    the first table has buckets, and keeps every entry; unless the mode forbids or
    avoids the rehashing, all the entries are then in one table. *)
Theorem full_rehash_terminates (mode : dictResizeEnable) (d : dict) :
  wf d ->
  exists d', full_rehash type mode (S (S (Z.to_nat (DICTHT_SIZE (ht_size_exp (ht0 d)))))) d = Some d' /\ wf d'
    /\ dict_map d' = dict_map d /\ (rehash_avoided mode d = false -> dictIsRehashing d' = false /\ ht1 d' = reset_ht).
Proof.
  intros W. destruct (full_rehash_spec type canon mode (S (S (Z.to_nat (DICTHT_SIZE (ht_size_exp (ht0 d)))))) d W)
    as (d' & Hd' & Hs & Hr).
  - destruct (decide (rehashidx d = -1)) as [Hr|Hr].
    + rewrite Hr. destruct (decide (0 <= ht_size_exp (ht0 d))).
      * rewrite size_exp by lia. lia.
      * rewrite Z.pow_neg_r by lia. lia.
    + destruct (rehashidx_range type canon d W Hr) as (? & _ & ? & _). rewrite size_exp by lia. lia.
  - exists d'. split; [done|]. split; [apply Hs|]. split; [by apply same_map with (type := type)|]. intros E.
    rewrite E in Hr. split; [unfold dictIsRehashing; by rewrite Hr|].
    destruct (wf_rehash _ _ _ (same_wf _ _ _ _ Hs)) as [[]|(? & _)]; [done|lia].
Qed.

(** [dictEmpty] destroys every key and every value exactly once, in the order
    of the tables, leaves the empty map, and what [bucketChanged] was told over the
    life of the dictionary sums to zero. *)
Theorem dictEmpty_correct (d : dict) (cb : bool) :
  wf d ->
  exists d', dictEmpty d cb = Some d' /\ wf d' /\ dict_map d' = ∅ /\ dictSize d' = 0 /\ told (calls d') = 0
    /\ destroyed (calls d') = destroyed (calls d) ++ destroys (entries d).
Proof.
  intros W. destruct (empty_spec d cb W) as (d' & ? & ? & ? & ? & ? & ? & _). eauto 8.
Qed.

(** C4: From a new dictionary, any sequence of finds, additions, replacements,
    deletions, rehashing steps, resizes, pauses and changes of the global resize
    mode returns what the same operations on a finite map return, and ends in a
    dictionary of the resulting map whose bucket count is what [bucketChanged] was
    told. *)
Theorem dict_refines_map (os : list op) :
  Z.of_nat (length os) < 2 ^ 64 ->
  exists mode d, run (DICT_RESIZE_ENABLE, dictCreate) os = Some ((spec_run ∅ os).1, (mode, d))
    /\ wf d /\ dict_map d = (spec_run ∅ os).2 /\ told (calls d) = dictBuckets d.
Proof.
  intros Hl. destruct (run_sim os (DICT_RESIZE_ENABLE, dictCreate) ∅) as ([mode d] & -> & (W & _ & Hm)).
  - split; [apply create_wf|]. done.
  - rewrite map_size_empty. lia.
  - exists mode, d. split; [done|]. split; [done|]. split; [done|]. cbn in W.
    rewrite (wf_told _ _ _ W). unfold dictBuckets. symmetry. apply wrap_small.
    pose proof (ht_size_bound _ (wf_ht0 _ _ _ W)). pose proof (ht_size_bound _ (wf_ht1 _ _ _ W)). lia.
Qed.

End refine.

(** ** A dictionary of numbers compared by absolute value *)

Definition absType : @dictType Z := {|
  hashFunction k := Z.abs k mod 2 ^ 64;
  keyCompare a b := Z.abs a =? Z.abs b;
  resizeAllowed _ _ _ := true;
  force_full_rehash := false;
|}.

#[global] Instance absType_keys : DictKeys absType Z.abs.
Proof.
  constructor; cbn.
  - intros a b. apply Z.eqb_eq.
  - by intros a b ->.
  - intros a. apply Z.mod_pos_bound. lia.
Qed.

(** Five keys, the last of which started a rehashing; one step of it is done. *)
Definition sample_ops : list (@op Z Z) :=
  [Add 1 10; Add (-2) 20; Add 3 30; Add 4 40; Add 6 60; Find 2].

Definition sample_dict : @dict Z Z :=
  match run absType 0 (DICT_RESIZE_ENABLE, dictCreate) sample_ops with
  | Some (_, (_, d)) => d
  | None => dictCreate
  end.

Lemma sample_sim :
  wf absType Z.abs sample_dict /\ dict_map Z.abs sample_dict = (spec_run Z.abs ∅ sample_ops).2.
Proof.
  destruct (run_sim absType Z.abs 0 sample_ops (DICT_RESIZE_ENABLE, dictCreate) ∅) as ([mode d] & Heq & (W & _ & Hm)).
  - split; [apply create_wf; apply _|]. done.
  - by vm_compute.
  - unfold sample_dict. rewrite Heq. split; [exact W|exact Hm].
Qed.

Lemma sample_lookup c : dict_map Z.abs sample_dict !! c = (spec_run Z.abs ∅ sample_ops).2 !! c.
Proof. by rewrite (proj2 sample_sim). Qed.

Lemma sample_rehashing : dictIsRehashing sample_dict = true.
Proof. by vm_compute. Qed.

Lemma dictFind_correct_witness :
  exists d', dictFind absType DICT_RESIZE_ENABLE sample_dict 2 = Some (Some (-2, 20), d') /\ wf absType Z.abs d'.
Proof.
  destruct (dictFind_correct absType Z.abs DICT_RESIZE_ENABLE sample_dict 2) as (d' & H1 & H2 & _).
  - apply sample_sim.
  - exists d'. split; [|done]. rewrite H1, sample_lookup. by vm_compute.
Defined.

Lemma sample_insertable : can_insert sample_dict /\ has_room Z.abs sample_dict.
Proof.
  split.
  - left. by vm_compute.
  - unfold has_room. rewrite (proj2 sample_sim). by vm_compute.
Qed.

Lemma dictAdd_correct_witness :
  exists d', dictAdd absType DICT_RESIZE_ENABLE 0 sample_dict 7 70 = Some (DICT_OK, d')
    /\ dict_map Z.abs d' !! 7 = Some (7, 70).
Proof.
  destruct (dictAdd_correct absType Z.abs 0 DICT_RESIZE_ENABLE sample_dict 7 70) as (st & d' & H1 & _ & _ & H2).
  - apply sample_sim.
  - apply sample_insertable.
  - apply sample_insertable.
  - assert (Hn : dict_map Z.abs sample_dict !! Z.abs 7 = None) by (rewrite sample_lookup; by vm_compute).
    rewrite Hn in H2. destruct H2 as [-> H2]. exists d'. split; [exact H1|]. rewrite H2. apply lookup_insert_eq.
Defined.

Lemma dictReplace_correct_witness :
  exists d', dictReplace absType DICT_RESIZE_ENABLE 0 sample_dict 2 21 = Some (false, d')
    /\ dict_map Z.abs d' !! 2 = Some (-2, 21).
Proof.
  destruct (dictReplace_correct absType Z.abs 0 DICT_RESIZE_ENABLE sample_dict 2 21) as (st & d' & H1 & _ & H2).
  - apply sample_sim.
  - apply sample_insertable.
  - apply sample_insertable.
  - assert (Hn : dict_map Z.abs sample_dict !! Z.abs 2 = Some (-2, 20)) by (rewrite sample_lookup; by vm_compute).
    rewrite Hn in H2. destruct H2 as (-> & H2 & _). exists d'. split; [exact H1|]. rewrite H2. apply lookup_insert_eq.
Defined.

Lemma dictDelete_correct_witness :
  exists d', dictDelete absType DICT_RESIZE_ENABLE sample_dict (-6) = Some (DICT_OK, d')
    /\ destroyed (calls d') = [inl 6; inr 60].
Proof.
  destruct (dictDelete_correct absType Z.abs DICT_RESIZE_ENABLE sample_dict (-6)) as [(d' & H1 & _ & _ & H2) _].
  - apply sample_sim.
  - assert (Hn : dict_map Z.abs sample_dict !! Z.abs (-6) = Some (6, 60)) by (rewrite sample_lookup; by vm_compute).
    assert (Hc : destroyed (calls sample_dict) = []) by (by vm_compute).
    rewrite Hn in H1, H2. rewrite Hc in H2. exists d'. split; [exact H1|exact H2].
Defined.

Lemma dictTwoPhaseUnlink_correct_witness :
  exists r d1, dictTwoPhaseUnlinkFind absType DICT_RESIZE_ENABLE sample_dict 3 = Some (r, d1) /\ wf absType Z.abs d1.
Proof.
  destruct (dictTwoPhaseUnlink_correct absType Z.abs DICT_RESIZE_ENABLE sample_dict 3) as (r & d1 & H1 & H2 & _).
  - apply sample_sim.
  - eauto.
Defined.

Lemma dictRehash_correct_witness :
  exists more d', dictRehash absType DICT_RESIZE_ENABLE sample_dict 2 = Some (more, d')
    /\ dict_map Z.abs d' = dict_map Z.abs sample_dict.
Proof.
  destruct (dictRehash_correct absType Z.abs DICT_RESIZE_ENABLE sample_dict 2) as (more & d' & H1 & _ & H2 & _).
  - apply sample_sim.
  - lia.
  - eauto.
Defined.

Lemma full_rehash_terminates_witness :
  exists d', full_rehash absType DICT_RESIZE_ENABLE 6 sample_dict = Some d' /\ dictIsRehashing d' = false.
Proof.
  destruct (full_rehash_terminates absType Z.abs DICT_RESIZE_ENABLE sample_dict) as (d' & H1 & _ & _ & H2).
  - apply sample_sim.
  - exists d'. split; [exact H1|]. apply H2. by vm_compute.
Defined.

Lemma dictEmpty_correct_witness :
  exists d', dictEmpty sample_dict true = Some d' /\ dictSize d' = 0 /\ told (calls d') = 0.
Proof.
  destruct (dictEmpty_correct absType Z.abs sample_dict true) as (d' & H1 & _ & _ & H2 & H3 & _).
  - apply sample_sim.
  - eauto.
Defined.

Definition sample_results : list (@result Z Z) :=
  [Done DICT_OK; Done DICT_OK; Done DICT_OK; Done DICT_OK; Done DICT_OK; Entry (Some (-2, 20));
   Done DICT_OK; Added false; Entry None].

Lemma dict_refines_map_witness :
  exists mode d, run absType 0 (DICT_RESIZE_ENABLE, dictCreate) (sample_ops ++ [Delete 2; Replace 1 11; Find (-2)])
    = Some (sample_results, (mode, d)) /\ told (calls d) = dictBuckets d.
Proof.
  destruct (dict_refines_map absType Z.abs 0 (sample_ops ++ [Delete 2; Replace 1 11; Find (-2)]))
    as (mode & d & H1 & _ & _ & H2).
  - by vm_compute.
  - assert (Hr : (spec_run Z.abs ∅ (sample_ops ++ [Delete 2; Replace 1 11; Find (-2)])).1 = sample_results)
      by (by vm_compute).
    rewrite Hr in H1. exists mode, d. split; [exact H1|exact H2].
Defined.
