(* ===== verification/DictScan.v ===== *)
(** * Scanning a dictionary that changes

    [rev] reverses the 64 bits of a cursor.  In the reversed domain a call of
    [dictScan] covers an interval that starts at the cursor and ends at the next
    one, whatever the sizes of the tables; so a scan from 0 back to 0 has emitted
    every element that was there all along, with any operations, resizes and steps
    of rehashing between the calls. *)

From stdpp Require Import gmap.
From S2P Require Import Prelude Dict DictSpec DictMap DictRefine.

(** ** The bits of a cursor *)

Lemma bits_above x n i : 0 <= x < 2 ^ n -> 0 <= n <= i -> Z.testbit x i = false.
Proof. intros Hx Hi. rewrite <- (Z.mod_small x (2 ^ n)) by done. apply Z.mod_pow2_bits_high. lia. Qed.

Lemma bits_below_range x n : 0 <= n -> (forall i, n <= i -> Z.testbit x i = false) -> 0 <= x < 2 ^ n.
Proof.
  intros Hn Hb. assert (x = x mod 2 ^ n) as ->; [|apply Z.mod_pos_bound; lia].
  apply Z.bits_inj'. intros i Hi. destruct (decide (i < n)).
  - by rewrite Z.mod_pow2_bits_low.
  - rewrite Z.mod_pow2_bits_high by lia. apply Hb. lia.
Qed.

(** One stage of [rev] swaps neighbouring blocks of [s] bits. *)
Definition stage (s mask v : Z) : Z :=
  ((v >>> s) &&& mask) ||| (u64 (v <<< s) &&& Z.lxor mask (2 ^ 64 - 1)).

Definition stage_check (s mask i : Z) : bool :=
  if Z.testbit mask i then (i + s =? Z.lxor i s) && (i + s <? 64)
  else (i - s =? Z.lxor i s) && (0 <=? i - s) && Z.testbit (2 ^ 64 - 1) i.

Lemma stage_bits s mask v i :
  0 < s -> 0 <= mask < 2 ^ 64 -> forallb (stage_check s mask) (seqZ 0 64) = true -> 0 <= v < 2 ^ 64 -> 0 <= i < 64 ->
  Z.testbit (stage s mask v) i = Z.testbit v (Z.lxor i s).
Proof.
  intros Hs Hm Hc Hv Hi. rewrite forallb_forall in Hc.
  specialize (Hc i). unfold stage_check in Hc.
  assert (In i (seqZ 0 64)) as Hin by (apply list_elem_of_In, elem_of_seqZ; lia). specialize (Hc Hin).
  unfold stage. rewrite Z.lor_spec, !Z.land_spec, Z.shiftr_spec, Z.lxor_spec by lia.
  unfold wrap. rewrite Z.mod_pow2_bits_low by lia. rewrite Z.shiftl_spec by lia.
  destruct (Z.testbit mask i).
  - apply andb_true_iff in Hc as [->%Z.eqb_eq _].
    destruct (Z.testbit (2 ^ 64 - 1) i) eqn:E; [by rewrite andb_true_r, andb_false_r, orb_false_r|].
    exfalso. revert E. change (2 ^ 64 - 1) with (Z.ones 64). by rewrite Z.ones_spec_low by lia.
  - apply andb_true_iff in Hc as [[->%Z.eqb_eq _]%andb_true_iff ->].
    by rewrite andb_false_r, andb_true_r.
Qed.

Lemma stage_range s mask v :
  0 < s -> 0 <= mask < 2 ^ 64 -> 0 <= v < 2 ^ 64 -> 0 <= stage s mask v < 2 ^ 64.
Proof.
  intros Hs Hm Hv. apply bits_below_range; [lia|]. intros i Hi. unfold stage.
  rewrite Z.lor_spec, !Z.land_spec. unfold wrap. rewrite Z.mod_pow2_bits_high by lia.
  rewrite (bits_above mask 64) by lia. by rewrite andb_false_r.
Qed.

(** The masks the loop computes. *)
Definition m32 : Z := 0x00000000FFFFFFFF.
Definition m16 : Z := 0x0000FFFF0000FFFF.
Definition m8 : Z := 0x00FF00FF00FF00FF.
Definition m4 : Z := 0x0F0F0F0F0F0F0F0F.
Definition m2 : Z := 0x3333333333333333.
Definition m1 : Z := 0x5555555555555555.

Lemma rev_stages v : rev v = stage 1 m1 (stage 2 m2 (stage 4 m4 (stage 8 m8 (stage 16 m16 (stage 32 m32 v))))).
Proof. reflexivity. Qed.

Lemma rev_range v : 0 <= v < 2 ^ 64 -> 0 <= rev v < 2 ^ 64.
Proof. intros Hv. rewrite rev_stages. repeat (apply stage_range; [lia|by vm_compute|]). done. Qed.

Lemma lxor_low i s : 0 <= i < 64 -> 0 <= s < 64 -> 0 <= Z.lxor i s < 64.
Proof.
  intros Hi Hs. change 64 with (2 ^ 6). apply bits_below_range; [lia|]. intros j Hj.
  rewrite Z.lxor_spec, !(bits_above _ 6) by (change (2 ^ 6) with 64; lia). done.
Qed.

Lemma lxor_63 i : 0 <= i < 64 ->
  Z.lxor (Z.lxor (Z.lxor (Z.lxor (Z.lxor (Z.lxor i 1) 2) 4) 8) 16) 32 = 63 - i.
Proof.
  intros Hi. apply Z.eqb_eq. revert i Hi.
  assert (Hall : forallb (fun i => Z.lxor (Z.lxor (Z.lxor (Z.lxor (Z.lxor (Z.lxor i 1) 2) 4) 8) 16) 32 =? 63 - i)
            (seqZ 0 64) = true) by (by vm_compute).
  intros i Hi. rewrite forallb_forall in Hall. apply Hall, list_elem_of_In, elem_of_seqZ. lia.
Qed.

Lemma rev_bits v i : 0 <= v < 2 ^ 64 -> 0 <= i < 64 -> Z.testbit (rev v) i = Z.testbit v (63 - i).
Proof.
  intros Hv Hi. rewrite rev_stages.
  do 6 (rewrite stage_bits;
    [|lia|split; by vm_compute|by vm_compute
     |repeat (apply stage_range; [lia|split; by vm_compute|]); done|repeat apply lxor_low; lia]).
  by rewrite lxor_63.
Qed.

Lemma bits64_inj a b :
  0 <= a < 2 ^ 64 -> 0 <= b < 2 ^ 64 -> (forall i, 0 <= i < 64 -> Z.testbit a i = Z.testbit b i) -> a = b.
Proof.
  intros Ha Hb H. apply Z.bits_inj'. intros i Hi. destruct (decide (i < 64)); [apply H; lia|].
  by rewrite !(bits_above _ 64) by lia.
Qed.

Lemma rev_involutive v : 0 <= v < 2 ^ 64 -> rev (rev v) = v.
Proof.
  intros Hv. apply bits64_inj; [by apply rev_range, rev_range|done|]. intros i Hi.
  rewrite !rev_bits by (done || lia || by apply rev_range). f_equal. lia.
Qed.

(** The low [e] bits of a number are the high ones of its reverse. *)
Lemma rev_bucket e a b :
  0 <= e <= 64 -> 0 <= a < 2 ^ 64 -> 0 <= b < 2 ^ 64 ->
  rev a / 2 ^ (64 - e) = rev b / 2 ^ (64 - e) -> a mod 2 ^ e = b mod 2 ^ e.
Proof.
  intros He Ha Hb Heq. apply Z.bits_inj'. intros i Hi. destruct (decide (i < e)).
  - rewrite !Z.mod_pow2_bits_low by done.
    assert (Hj : forall x, 0 <= x < 2 ^ 64 -> Z.testbit x i = Z.testbit (rev x / 2 ^ (64 - e)) (e - 1 - i)).
    { intros x Hx. rewrite Z.div_pow2_bits by lia. rewrite rev_bits by (done || lia). f_equal. lia. }
    by rewrite !Hj, Heq.
  - by rewrite !Z.mod_pow2_bits_high by lia.
Qed.

Lemma lor_ones_div x k : 0 <= k -> 0 <= x -> Z.lor x (Z.ones k) = x / 2 ^ k * 2 ^ k + (2 ^ k - 1).
Proof.
  intros Hk Hx. replace (2 ^ k - 1) with (Z.ones k) by (rewrite Z.ones_equiv; lia).
  rewrite <- Z.shiftr_div_pow2 by lia. rewrite Z.add_comm, <- lor_shiftl.
  - apply Z.bits_inj'. intros i Hi. rewrite !Z.lor_spec. destruct (decide (i < k)).
    + rewrite Z.ones_spec_low by lia. by rewrite orb_true_r.
    + rewrite Z.ones_spec_high, Z.shiftl_spec, Z.shiftr_spec by lia. rewrite orb_false_r. cbn. f_equal. lia.
  - lia.
  - rewrite Z.ones_equiv. lia.
Qed.

Lemma not_mask_bits e i : 0 <= e <= 64 -> 0 <= i < 64 -> Z.testbit (Z.lxor (2 ^ e - 1) (2 ^ 64 - 1)) i = negb (i <? e).
Proof.
  intros He Hi. replace (2 ^ e - 1) with (Z.ones e) by (rewrite Z.ones_equiv; lia).
  change (2 ^ 64 - 1) with (Z.ones 64). rewrite Z.lxor_spec, (Z.ones_spec_low 64) by lia. zcase.
  - rewrite Z.ones_spec_low by lia. done.
  - rewrite Z.ones_spec_high by lia. done.
Qed.

Lemma not_mask_range e : 0 <= e <= 64 -> 0 <= Z.lxor (2 ^ e - 1) (2 ^ 64 - 1) < 2 ^ 64.
Proof.
  intros He. apply bits_below_range; [lia|]. intros i Hi.
  replace (2 ^ e - 1) with (Z.ones e) by (rewrite Z.ones_equiv; lia).
  change (2 ^ 64 - 1) with (Z.ones 64). rewrite Z.lxor_spec, !Z.ones_spec_high by lia. done.
Qed.

Lemma lor_range a b : 0 <= a < 2 ^ 64 -> 0 <= b < 2 ^ 64 -> 0 <= Z.lor a b < 2 ^ 64.
Proof.
  intros Ha Hb. apply bits_below_range; [lia|]. intros i Hi. by rewrite Z.lor_spec, !(bits_above _ 64) by lia.
Qed.

(** The next cursor is the start of the next block of the reversed domain. *)
Lemma next_cursor_rev e v :
  0 <= e <= 64 -> 0 <= v < 2 ^ 64 ->
  0 <= next_cursor (2 ^ e - 1) v < 2 ^ 64
  /\ rev (next_cursor (2 ^ e - 1) v) = ((rev v / 2 ^ (64 - e) + 1) * 2 ^ (64 - e)) mod 2 ^ 64.
Proof.
  intros He Hv. unfold next_cursor. set (w := v ||| _).
  assert (Hw : 0 <= w < 2 ^ 64) by (apply lor_range; [done|by apply not_mask_range]).
  pose proof (wrap_range 64 (rev w + 1) ltac:(lia)) as Hr.
  split; [by apply rev_range|]. rewrite rev_involutive by done. unfold wrap. f_equal.
  assert (Hrw : rev w = Z.lor (rev v) (Z.ones (64 - e))).
  { apply bits64_inj; [by apply rev_range| |].
    - apply lor_range; [by apply rev_range|]. rewrite Z.ones_equiv.
      pose proof (Z.pow_le_mono_r 2 (64 - e) 64). pose proof (Z.pow_pos_nonneg 2 (64 - e)). lia.
    - intros i Hi. unfold w. rewrite rev_bits, !Z.lor_spec, not_mask_bits, rev_bits by (done || lia). f_equal. zcase.
      + rewrite Z.ones_spec_high by lia. done.
      + rewrite Z.ones_spec_low by lia. done. }
  rewrite Hrw, lor_ones_div; [lia|lia|]. pose proof (rev_range v Hv). lia.
Qed.

Lemma lxor_masks_bits e0 e1 i : 0 <= e0 <= e1 -> 0 <= i ->
  Z.testbit (Z.lxor (2 ^ e0 - 1) (2 ^ e1 - 1)) i = (e0 <=? i) && (i <? e1).
Proof.
  intros He Hi. replace (2 ^ e0 - 1) with (Z.ones e0) by (rewrite Z.ones_equiv; lia).
  replace (2 ^ e1 - 1) with (Z.ones e1) by (rewrite Z.ones_equiv; lia). rewrite Z.lxor_spec. zcase.
  - rewrite Z.ones_spec_high, Z.ones_spec_low by lia. done.
  - rewrite !Z.ones_spec_high by lia. done.
  - rewrite !Z.ones_spec_low by lia. done.
Qed.

(** The condition of the loop over the expansions, in the reversed domain. *)
Lemma expansion_done e0 e1 v :
  0 <= e0 <= e1 -> e1 <= 64 -> 0 <= v < 2 ^ 64 ->
  (v &&& Z.lxor (2 ^ e0 - 1) (2 ^ e1 - 1)) = 0 <-> rev v mod 2 ^ (64 - e0) < 2 ^ (64 - e1).
Proof.
  intros He He1 Hv. pose proof (rev_range v Hv) as Hr.
  pose proof (Z.mod_pos_bound (rev v) (2 ^ (64 - e0)) ltac:(lia)) as Hm. split.
  - intros H0. apply bits_below_range; [lia|]. intros i Hi. destruct (decide (i < 64 - e0)).
    + rewrite Z.mod_pow2_bits_low, rev_bits by (done || lia).
      assert (Hb : Z.testbit (v &&& Z.lxor (2 ^ e0 - 1) (2 ^ e1 - 1)) (63 - i) = false) by (by rewrite H0, Z.bits_0).
      rewrite Z.land_spec, lxor_masks_bits in Hb by lia. revert Hb. zcase. by rewrite andb_true_r.
    + by rewrite Z.mod_pow2_bits_high by lia.
  - intros Hlt. apply Z.bits_inj'. intros i Hi. rewrite Z.bits_0, Z.land_spec, lxor_masks_bits by lia. zcase;
      rewrite ?andb_false_r; try done. rewrite andb_true_r.
    assert (Hb : Z.testbit (rev v mod 2 ^ (64 - e0)) (63 - i) = false) by (apply (bits_above _ (64 - e1)); lia).
    rewrite Z.mod_pow2_bits_low, rev_bits in Hb by (done || lia). rewrite <- Hb. f_equal. lia.
Qed.

Lemma rev_0 : rev 0 = 0.
Proof. by vm_compute. Qed.

#[local] Opaque rev next_cursor.

(** ** What a call covers *)

Section scan.
Context {K V C : Type} `{EqDecision K} `{Countable C}.
Context (type : @dictType K) (canon : K -> C) `{!DictKeys type canon}.

Abbreviation dict := (@dict K V).
Abbreviation ht := (@ht K V).
Abbreviation hash := (hashFunction type).
Abbreviation wf := (wf type canon).
Abbreviation dict_map := (dict_map canon).
Implicit Types d : dict.

(** The position of a key in the reversed domain. *)
Definition pos (e : K * V) : Z := rev (hash e.1).

Lemma pos_range e : 0 <= pos e < 2 ^ 64.
Proof. apply rev_range, hash_range. Qed.

(** The end of the interval a call covers: a cursor of 0 is the end of the scan. *)
Definition top (v : Z) : Z := if v =? 0 then 2 ^ 64 else rev v.

(** The cursor at a position that is not past the end. *)
Lemma top_rev v r : 0 <= v < 2 ^ 64 -> 0 < r <= 2 ^ 64 -> rev v = r mod 2 ^ 64 -> top v = r.
Proof.
  intros Hv Hr Heq. unfold top. destruct (decide (r = 2 ^ 64)) as [->|].
  - rewrite Z.mod_same in Heq by lia.
    assert (v = 0) as -> by (by rewrite <- (rev_involutive v Hv), Heq, rev_0). reflexivity.
  - rewrite Z.mod_small in Heq by lia. zcase. subst v. rewrite rev_0 in Heq. lia.
Qed.

(** A bucket of a table has the entries of a block. *)
Lemma bucket_block (h : ht) v :
  ht_shape type h -> is_Some (ht_table h) -> 0 <= v < 2 ^ 64 ->
  exists b, get_bucket h (v &&& DICTHT_SIZE_MASK (ht_size_exp h)) = Some b
    /\ (forall e, e ∈ ents h -> pos e / 2 ^ (64 - ht_size_exp h) = rev v / 2 ^ (64 - ht_size_exp h) -> e ∈ b)
    /\ (forall e, e ∈ b -> e ∈ ents h).
Proof.
  intros Hs Ha Hv. pose proof (shape_exp _ _ Hs Ha) as He. rewrite mask_mod by lia.
  destruct (shape_split _ _ (v mod 2 ^ ht_size_exp h) Hs Ha) as (l1 & b & l2 & Hsp).
  { apply Z.mod_pos_bound. lia. }
  exists b. split; [by eapply get_split|]. split.
  - intros e Hin Hp. destruct (ents_bucket _ _ _ Hs Hin) as (l1' & b' & l2' & Hsp' & Hb').
    rewrite (rev_bucket (ht_size_exp h) (hash e.1) v ltac:(lia) (hash_range _) Hv Hp) in Hsp'. apply get_split in Hsp, Hsp'. rewrite Hsp in Hsp'. by simplify_eq.
  - intros e Hin. rewrite (ents_split _ _ _ _ _ Hsp), !elem_of_app. tauto.
Qed.

(** Division of the reversed domain in blocks. *)
Lemma block_step r w : 0 < w -> r < (r / w + 1) * w /\ r / w * w <= r.
Proof. intros Hw. pose proof (Z.div_mod r w). pose proof (Z.mod_pos_bound r w Hw). nia. Qed.

Lemma block_eq p r w : 0 < w -> r <= p < (r / w + 1) * w -> p / w = r / w.
Proof. intros Hw Hp. pose proof (block_step r w Hw). symmetry. apply (Z.div_unique p w _ (p - r / w * w)); lia. Qed.

Lemma block_top r e : 0 <= e <= 64 -> 0 <= r < 2 ^ 64 -> 0 < (r / 2 ^ (64 - e) + 1) * 2 ^ (64 - e) <= 2 ^ 64.
Proof.
  intros He Hr. assert (Hp : 2 ^ 64 = 2 ^ e * 2 ^ (64 - e)) by (rewrite <- Z.pow_add_r by lia; f_equal; lia).
  pose proof (Z.pow_pos_nonneg 2 (64 - e)). assert (0 <= r / 2 ^ (64 - e)) by (apply Z.div_pos; lia).
  assert (r / 2 ^ (64 - e) < 2 ^ e) by (apply Z.div_lt_upper_bound; lia). nia.
Qed.

(** A block of the smaller table is made of blocks of the larger one. *)
Lemma blocks_nest r w n : 0 < w -> 0 < n -> (r / w + 1) * w <= (r / (n * w) + 1) * (n * w).
Proof.
  intros Hw Hn. rewrite (Z.mul_comm n w), <- Z.div_div by lia. set (q := r / w).
  pose proof (block_step q n Hn) as [Hlt _]. assert (q + 1 <= (q / n + 1) * n) by lia. nia.
Qed.

Lemma block_inside r w n :
  0 < w -> 0 < n -> (r / w + 1) * w <> (r / (n * w) + 1) * (n * w) ->
  (r / w + 1) * w / (n * w) = r / (n * w) /\ w <= (r / w + 1) * w mod (n * w).
Proof.
  intros Hw Hn Hne. pose proof (blocks_nest r w n Hw Hn) as Hle. rewrite (Z.mul_comm n w) in *.
  rewrite <- (Z.div_div r w n) in * by lia. set (q := r / w) in *. rewrite (Z.mul_comm (q + 1) w). rewrite Z.div_mul_cancel_l, Z.mul_mod_distr_l by lia.
  pose proof (block_step q n Hn) as [Hlt Hge]. assert (Hlt' : q + 1 < (q / n + 1) * n) by nia.
  assert (Hq : (q + 1) / n = q / n) by (symmetry; apply (Z.div_unique _ _ _ (q + 1 - q / n * n)); lia).
  split; [done|]. rewrite Z.mod_eq, Hq by lia. assert (1 <= q + 1 - n * (q / n)) by lia. nia.
Qed.

Lemma expansions_fuel r e0 e1 :
  0 <= e0 <= e1 -> e1 <= 64 ->
  (r / 2 ^ (64 - e0) + 1) * 2 ^ (64 - e0) - r / 2 ^ (64 - e1) * 2 ^ (64 - e1)
    <= Z.of_nat (Z.to_nat (2 ^ e1)) * 2 ^ (64 - e1).
Proof.
  intros He He1. pose proof (Z.pow_pos_nonneg 2 e1).
  assert (Hw0 : 2 ^ (64 - e0) = 2 ^ (e1 - e0) * 2 ^ (64 - e1)) by (rewrite <- Z.pow_add_r by lia; f_equal; lia).
  assert (Hw : 0 < 2 ^ (64 - e1)) by (apply Z.pow_pos_nonneg; lia).
  assert (Hn : 0 < 2 ^ (e1 - e0) <= 2 ^ e1) by (split; [apply Z.pow_pos_nonneg|apply Z.pow_le_mono_r]; lia).
  rewrite Z2Nat.id, Hw0, (Z.mul_comm (2 ^ (e1 - e0))), <- Z.div_div by lia.
  set (q := r / 2 ^ (64 - e1)). pose proof (block_step q (2 ^ (e1 - e0)) ltac:(lia)) as [_ Hge].
  set (n := 2 ^ (e1 - e0)) in *. set (w := 2 ^ (64 - e1)) in *. set (m := 2 ^ e1) in *.
  assert ((q / n + 1) * n - q <= m) by lia. nia.
Qed.

(** The blocks of the larger table up to the end of the block of the smaller. *)
Lemma expansions_spec (t1 : ht) e0 fuel : forall v,
  ht_shape type t1 -> is_Some (ht_table t1) -> 0 <= e0 <= ht_size_exp t1 -> 0 <= v < 2 ^ 64 ->
  let e1 := ht_size_exp t1 in
  let r1 := (rev v / 2 ^ (64 - e0) + 1) * 2 ^ (64 - e0) in
  r1 - rev v / 2 ^ (64 - e1) * 2 ^ (64 - e1) <= Z.of_nat fuel * 2 ^ (64 - e1) ->
  exists v' out, scan_expansions fuel t1 (2 ^ e0 - 1) (2 ^ e1 - 1) v = Some (v', out)
    /\ 0 <= v' < 2 ^ 64 /\ rev v' = r1 mod 2 ^ 64
    /\ (forall e, e ∈ ents t1 -> rev v <= pos e < r1 -> e ∈ out) /\ (forall e, e ∈ out -> e ∈ ents t1).
Proof.
  induction fuel as [|fuel IH]; intros v Hs Ha He Hv; cbv zeta; set (e1 := ht_size_exp t1) in *;
    pose proof (shape_exp _ _ Hs Ha) as Hexp; fold e1 in Hexp;
    assert (Hw0 : 2 ^ (64 - e0) = 2 ^ (e1 - e0) * 2 ^ (64 - e1)) by (rewrite <- Z.pow_add_r by lia; f_equal; lia);
    assert (Hw : 0 < 2 ^ (64 - e1)) by (apply Z.pow_pos_nonneg; lia);
    assert (Hn : 0 < 2 ^ (e1 - e0)) by (apply Z.pow_pos_nonneg; lia);
    pose proof (blocks_nest (rev v) _ _ Hw Hn) as Hnest; rewrite <- Hw0 in Hnest;
    pose proof (block_step (rev v) _ Hw) as [Hlt Hle]; intros Hf.
  { change (Z.of_nat 0) with 0 in Hf. lia. }
  pose proof (rev_range v Hv) as Hrv. pose proof (block_top (rev v) e0 ltac:(lia) Hrv) as Htop0.
  destruct (bucket_block t1 v Hs Ha Hv) as (b & Hb & Hcov & Hin). fold e1 in Hb, Hcov. rewrite mask_exp in Hb by lia.
  cbn [scan_expansions]. rewrite Hb. sbind.
  destruct (next_cursor_rev e1 v ltac:(lia) Hv) as [Hvr Hnext].
  pose proof (expansion_done e0 e1 (next_cursor (2 ^ e1 - 1) v) He ltac:(lia) Hvr) as Hdone.
  pose proof (block_inside (rev v) _ _ Hw Hn) as Hins. rewrite <- Hw0 in Hins.
  set (v1 := next_cursor (2 ^ e1 - 1) v) in *.
  set (w := 2 ^ (64 - e1)) in *. set (w0 := 2 ^ (64 - e0)) in *. set (q := rev v / w) in *. set (q0 := rev v / w0) in *.
  assert (Hcov' : forall e, e ∈ ents t1 -> rev v <= pos e < (q + 1) * w -> e ∈ b).
  { intros e Hine Hp. apply Hcov; [done|]. by apply block_eq. }
  destruct (decide ((q + 1) * w = (q0 + 1) * w0)) as [Heq|Hne].
  - assert (Hz : (v1 &&& Z.lxor (2 ^ e0 - 1) (2 ^ e1 - 1)) = 0).
    { apply Hdone. rewrite Hnext, Heq. rewrite Z.mod_mod_divide; [rewrite Z.mod_mul by lia; lia|].
      exists (2 ^ e0). unfold w0. rewrite <- Z.pow_add_r by lia. f_equal. lia. }
    rewrite Hz. cbn [Z.eqb negb]. eexists _, _. split; [done|]. split; [done|]. split; [by rewrite Hnext, Heq|].
    split; [|done]. intros e Hine Hp. apply Hcov'; [done|]. by rewrite Heq.
  - destruct (Hins Hne) as [Hq1 Hge]. assert (Hsm : rev v1 = (q + 1) * w) by (rewrite Hnext; apply Z.mod_small; lia).
    assert (Hq2 : (q + 1) * w / w = q + 1) by (apply Z.div_mul; lia).
    destruct (Z.eqb_spec (v1 &&& Z.lxor (2 ^ e0 - 1) (2 ^ e1 - 1)) 0) as [Hz|Hz].
    { apply Hdone in Hz. rewrite Hsm in Hz. lia. }
    cbn [negb]. destruct (IH v1 Hs Ha He Hvr) as (v' & out & Heq' & Hv' & Hr' & Hc' & Hi').
    { fold e1 w w0. rewrite Hsm, Hq1, Hq2. lia. }
    fold e1 w w0 in Heq', Hr', Hc'. rewrite Hsm, Hq1 in Hr', Hc'. rewrite Heq'. sbind.
    eexists _, _. split; [done|]. split; [done|]. split; [done|]. split.
    + intros e Hine Hp. apply elem_of_app.
      destruct (decide (pos e < (q + 1) * w)); [left; apply Hcov'|right; apply Hc']; done || lia.
    + intros e [He'|He']%elem_of_app; auto.
Qed.

(** A call covers the reversed domain from its cursor to the one it returns. *)
Lemma scan_step d v :
  wf d -> dictSize d <> 0 -> 0 <= v < 2 ^ 64 ->
  exists v' out, dictScan d v = Some (v', out) /\ 0 <= v' < 2 ^ 64 /\ rev v < top v'
    /\ (forall e, e ∈ entries d -> rev v <= pos e < top v' -> e ∈ out) /\ (forall e, e ∈ out -> e ∈ entries d).
Proof.
  intros W Hsz Hv. pose proof (nonempty_alloc type canon d W Hsz) as Ha.
  destruct (wf_ht0 _ _ _ W) as [Hs0 _]. destruct (wf_ht1 _ _ _ W) as [Hs1 _].
  pose proof (shape_exp _ _ Hs0 Ha) as He0. pose proof (rev_range v Hv) as Hrv.
  unfold dictScan. destruct (Z.eqb_spec (dictSize d) 0) as [|_]; [done|].
  destruct (dictIsRehashing d) eqn:Hr; cbn [negb].
  - apply is_rehashing in Hr. destruct (wf_alloc _ _ d W Hr) as [_ Ha1]. pose proof (shape_exp _ _ Hs1 Ha1) as He1.
    assert (Htables : exists t0 t1, (if DICTHT_SIZE (ht_size_exp (ht0 d)) >? DICTHT_SIZE (ht_size_exp (ht1 d))
        then (ht1 d, ht0 d) else (ht0 d, ht1 d)) = (t0, t1) /\ ht_shape type t0 /\ ht_shape type t1
        /\ is_Some (ht_table t0) /\ is_Some (ht_table t1) /\ ht_size_exp t0 <= ht_size_exp t1
        /\ forall e, e ∈ entries d <-> e ∈ ents t0 \/ e ∈ ents t1).
    { rewrite !size_exp by lia. unfold entries. destruct (Z.gtb_spec (2 ^ ht_size_exp (ht0 d)) (2 ^ ht_size_exp (ht1 d))) as [Hg|Hg].
      - apply Z.pow_lt_mono_r_iff in Hg; [|lia|lia]. exists (ht1 d), (ht0 d).
        split; [done|]. do 5 (split; [done || lia|]). intros e. rewrite elem_of_app. tauto.
      - apply Z.pow_le_mono_r_iff in Hg; [|lia|lia]. exists (ht0 d), (ht1 d).
        split; [done|]. do 5 (split; [done || lia|]). intros e. by rewrite elem_of_app. }
    destruct Htables as (t0 & t1 & -> & Hst0 & Hst1 & Hat0 & Hat1 & Hle & Hmem).
    pose proof (shape_exp _ _ Hst0 Hat0) as Het0. pose proof (shape_exp _ _ Hst1 Hat1) as Het1.
    destruct (bucket_block t0 v Hst0 Hat0 Hv) as (b & -> & Hcov & Hin). sbind. rewrite !mask_exp, size_exp by lia.
    destruct (expansions_spec t1 (ht_size_exp t0) (Z.to_nat (2 ^ ht_size_exp t1)) v Hst1 Hat1 ltac:(lia) Hv)
      as (v' & out & -> & Hv' & Hr' & Hc & Hi).
    { apply expansions_fuel; lia. }
    sbind. pose proof (block_top (rev v) (ht_size_exp t0) ltac:(lia) Hrv) as Htop.
    pose proof (top_rev v' _ Hv' Htop Hr') as Ht.
    eexists _, _. split; [done|]. split; [done|]. rewrite Ht. split; [apply block_step; lia|]. split.
    + intros e Hine Hp. apply elem_of_app. apply Hmem in Hine as [Hine|Hine]; [left|right; by apply Hc].
      apply Hcov; [done|]. apply block_eq; lia.
    + intros e [Hine|Hine]%elem_of_app; apply Hmem; auto.
  - destruct (not_rehashing type canon d W Hr) as [_ H1].
    destruct (bucket_block (ht0 d) v Hs0 Ha Hv) as (b & -> & Hcov & Hin). sbind. rewrite mask_exp by lia.
    destruct (next_cursor_rev (ht_size_exp (ht0 d)) v ltac:(lia) Hv) as [Hv' Hr'].
    pose proof (block_top (rev v) (ht_size_exp (ht0 d)) ltac:(lia) Hrv) as Htop.
    pose proof (top_rev _ _ Hv' Htop Hr') as Ht.
    assert (Hmem : forall e, e ∈ entries d <-> e ∈ ents (ht0 d)).
    { intros e. unfold entries. rewrite H1. unfold ents at 2; cbn. by rewrite app_nil_r. }
    eexists _, _. split; [done|]. split; [done|]. rewrite Ht. split; [apply block_step; lia|]. split.
    + intros e Hine Hp. apply Hcov; [by apply Hmem|]. apply block_eq; lia.
    + intros e Hine. apply Hmem. auto.
Qed.

(** ** Whole scans *)

(** The calls of a scan: the cursor before, the dictionary each call was given and
    what it emitted, the cursor after.  Between two calls the dictionary becomes
    any other one of the type. *)
Inductive scanning : Z -> list (dict * list (K * V)) -> Z -> Prop :=
  | scan_nil v : scanning v [] v
  | scan_call d v v1 out tr v2 :
      wf d -> dictScan d v = Some (v1, out) -> scanning v1 tr v2 -> scanning v ((d, out) :: tr) v2.

(** The key is in the dictionary at every call. *)
Definition present (c : C) (tr : list (dict * list (K * V))) : Prop :=
  Forall (fun '(d, _) => is_Some (dict_map d !! c)) tr.

Lemma scanning_covers v tr v2 :
  scanning v tr v2 -> forall key, 0 <= v < 2 ^ 64 -> tr <> [] -> v2 = 0 -> present (canon key) tr ->
  rev v <= rev (hash key) ->
  Exists (fun '(d, out) => exists e, dict_map d !! canon key = Some e /\ e ∈ out) tr.
Proof.
  induction 1 as [|d v v1 out tr v2 W Hscan Htr IH]; intros key Hv Hne Hz Hp Hr; [done|].
  apply Forall_cons in Hp as [[e He] Hp].
  assert (Hsz : dictSize d <> 0).
  { rewrite (dictSize_map type canon d W). intros H0. assert (Hm : dict_map d = ∅) by (apply map_size_empty_iff; lia).
    by rewrite Hm, lookup_empty in He. }
  destruct (scan_step d v W Hsz Hv) as (v1' & out' & Heq & Hv1 & _ & Hcov & _). rewrite Hscan in Heq. simplify_eq.
  pose proof (proj1 (dict_map_Some type canon d _ _ W) He) as [Hin Hc].
  assert (Hpos : pos e = rev (hash key)) by (unfold pos; by rewrite (hash_canon _ _ Hc)).
  destruct (decide (pos e < top v1')) as [Hlt|Hge].
  - apply Exists_cons_hd. exists e. split; [done|]. apply Hcov; [done|]. lia.
  - apply Exists_cons_tl. unfold top in Hge. pose proof (pos_range e). revert Hge. zcase. intros Hge.
    apply IH; [done| |done|done|lia]. intros ->. inversion Htr; subst; lia.
Qed.

(** C7: Every element that is in the dictionary at each call of a scan, from
    cursor 0 until the cursor is 0 again, is emitted by one of the calls.  Between
    the calls anything may happen to the dictionary: additions, deletions,
    rehashing steps, growing and shrinking, any number of times. *)
Theorem dictScan_complete (tr : list (dict * list (K * V))) (key : K) :
  scanning 0 tr 0 -> tr <> [] -> present (canon key) tr ->
  Exists (fun '(d, out) => exists e, dict_map d !! canon key = Some e /\ e ∈ out) tr.
Proof.
  intros Hs Hne Hp. apply (scanning_covers 0 tr 0 Hs key); [lia|done|done|done|].
  rewrite rev_0. apply rev_range, hash_range.
Qed.

(** A call of [dictScan] on a well-formed dictionary succeeds, emits only
    entries of it, and moves the cursor forward in the reversed order, to its end
    when it returns 0: a scan always ends. *)
Theorem dictScan_progress (d : dict) (v : Z) :
  wf d -> in_unsigned 64 v ->
  exists v' out, dictScan d v = Some (v', out) /\ in_unsigned 64 v' /\ (v' = 0 \/ rev v < rev v')
    /\ forall e, e ∈ out -> e ∈ entries d.
Proof.
  intros W Hv. destruct (decide (dictSize d = 0)) as [Hz|Hsz].
  - exists 0, []. unfold dictScan. rewrite Hz. split; [done|]. split; [done|]. split; [by left|].
    intros e He. by apply elem_of_nil in He.
  - destruct (scan_step d v W Hsz Hv) as (v' & out & ? & ? & Htop & _ & ?). exists v', out.
    split; [done|]. split; [done|]. split; [|done]. unfold top in Htop. revert Htop. zcase.
Qed.

End scan.

(** ** An example *)

(** The calls on a list of dictionaries. *)
Fixpoint scan_with (ds : list (@dict Z Z)) (v : Z) : option (list (@dict Z Z * list (Z * Z)) * Z) :=
  match ds with
  | [] => Some ([], v)
  | d :: ds => '(v1, out) ← dictScan d v; '(tr, v2) ← scan_with ds v1; Some ((d, out) :: tr, v2)
  end.

Lemma scan_with_scanning ds : forall v tr v2,
  Forall (wf absType Z.abs) ds -> scan_with ds v = Some (tr, v2) -> scanning absType Z.abs v tr v2 /\ tr.*1 = ds.
Proof.
  induction ds as [|d ds IH]; intros v tr v2 Hw Heq; cbn in Heq; [simplify_eq; split; [constructor|done]|].
  apply Forall_cons in Hw as [W Hw]. destruct (dictScan d v) as [[v1 out]|] eqn:E; [|done]. cbn in Heq.
  destruct (scan_with ds v1) as [[tr' v2']|] eqn:E'; [|done]. cbn in Heq. simplify_eq.
  destruct (IH v1 tr' v2 Hw E') as [Hs Ht]. split; [by econstructor|]. cbn. by rewrite Ht.
Qed.

(** The same keys, the rehashing done. *)
Definition sample_dict2 : @dict Z Z :=
  match dictRehash absType DICT_RESIZE_ENABLE sample_dict 100 with Some (_, d) => d | None => dictCreate end.

Lemma sample2_ok : same absType Z.abs sample_dict sample_dict2.
Proof.
  destruct (dictRehash_same absType Z.abs DICT_RESIZE_ENABLE sample_dict 100 (proj1 sample_sim)) as (more & d' & Heq & Hs & _).
  unfold sample_dict2. rewrite Heq. exact Hs.
Qed.

Definition sample_scan : list (@dict Z Z) := 
  [sample_dict; sample_dict2; sample_dict2; sample_dict2; sample_dict; sample_dict].

Definition sample_trace : list (@dict Z Z * list (Z * Z)) :=
  match scan_with sample_scan 0 with Some (tr, _) => tr | None => [] end.

Lemma sample_scanned : scan_with sample_scan 0 = Some (sample_trace, 0).
Proof. by vm_compute. Qed.

Lemma sample_scan_ok : Forall (fun d => wf absType Z.abs d /\ dict_map Z.abs d = dict_map Z.abs sample_dict) sample_scan.
Proof.
  pose proof (proj1 sample_sim) as W. pose proof (same_wf _ _ _ _ sample2_ok) as W2.
  pose proof (same_map absType Z.abs _ _ W sample2_ok) as Hm. unfold sample_scan.
  repeat apply Forall_cons_2; try apply Forall_nil_2; split; assumption || reflexivity.
Qed.

Lemma dictScan_complete_witness :
  Exists (fun '(d, out) => exists e, dict_map Z.abs d !! Z.abs (-3) = Some e /\ e ∈ out) sample_trace.
Proof.
  pose proof (fun d (H : wf absType Z.abs d /\ dict_map Z.abs d = dict_map Z.abs sample_dict) => proj1 H) as Hwf.
  destruct (scan_with_scanning sample_scan 0 sample_trace 0
    (Forall_impl _ _ _ sample_scan_ok Hwf) sample_scanned) as [Hs Ht].
  apply (dictScan_complete absType Z.abs sample_trace (-3)).
  - exact Hs.
  - intros Hn. rewrite Hn in Ht. discriminate Ht.
  - pose proof sample_scan_ok as Hok. rewrite <- Ht in Hok. apply Forall_fmap in Hok.
    apply (Forall_impl _ _ _ Hok). intros [d out] [_ Hm]. cbn [fst compose] in Hm. rewrite Hm, sample_lookup.
    exists (3, 30). by vm_compute.
Defined.

Lemma dictScan_progress_witness :
  exists v' out, dictScan sample_dict 0 = Some (v', out) /\ in_unsigned 64 v'.
Proof.
  destruct (dictScan_progress absType Z.abs sample_dict 0) as (v' & out & H1 & H2 & _).
  - apply sample_sim.
  - split; [apply Z.le_refl|by vm_compute].
  - exists v', out. split; [exact H1|exact H2].
Defined.
