(* ===== verification/DictIter.v ===== *)
(** * Iterating over a dictionary

    Repeated [dictNext] on a dictionary that is left alone returns every entry
    once, in the order of the tables, and the check when the iterator is released
    passes.  A change of one member of the dictionary changes its fingerprint. *)

From stdpp Require Import gmap.
From S2P Require Import Prelude Dict DictSpec DictMap DictRefine.

(** The six numbers that are hashed. *)
Definition fields {K V} (addr : bool -> Z) (d : @dict K V) : list Z :=
  [u64 (addr false); u64 (ht_size_exp (ht0 d)); ht_used (ht0 d);
   u64 (addr true); u64 (ht_size_exp (ht1 d)); ht_used (ht1 d)].

Lemma fingerprint_fields {K V} addr (d : @dict K V) :
  dictFingerprint addr d = foldl fingerprint_step 0 (fields addr d).
Proof. reflexivity. Qed.

#[local] Opaque dictFingerprint.

Section iter.
Context {K V C : Type} `{EqDecision K} `{Countable C}.
Context (type : @dictType K) (canon : K -> C) `{!DictKeys type canon}.
Context (addr : bool -> Z).

Abbreviation dict := (@dict K V).
Abbreviation wf := (wf type canon).
Abbreviation dictIterator := (@dictIterator K V).
Implicit Types d : dict.

(** What is left to return after the bucket an iterator is at. *)
Definition after (d : dict) (tb : bool) (l2 : list (list (K * V))) : list (K * V) :=
  concat l2 ++ (if tb then [] else ents (ht1 d)).

(** The iterator is past the buckets [l1] of its table. *)
Definition past (d : dict) (it : dictIterator) (l1 l2 : list (list (K * V))) : Prop :=
  ht_table (ht_of d (it_table it)) = Some (l1 ++ l2) /\ it_index it + 1 = zlen l1.

Lemma table_size d tb t : wf d -> ht_table (ht_of d tb) = Some t -> DICTHT_SIZE (ht_size_exp (ht_of d tb)) = zlen t.
Proof.
  intros W Ht. destruct (ht_of_ok type canon d tb W) as [Hs _].
  pose proof (shape_exp _ _ Hs ltac:(by rewrite Ht)). unfold ht_shape in Hs. rewrite Ht in Hs.
  destruct Hs as (_ & -> & _). apply size_exp. lia.
Qed.

Lemma step_bucket_spec d it l1 l2 :
  wf d -> past d it l1 l2 -> it_entry it = [] ->
  (exists b l2', l2 = b :: l2' /\ exists it', step_bucket it d = Some (it', Some b) /\ past d it' (l1 ++ [b]) l2'
     /\ it_table it' = it_table it /\ it_entry it' = [] /\ it_safe it' = it_safe it
     /\ it_fingerprint it' = it_fingerprint it /\ 0 <= it_index it')
  \/ (l2 = [] /\ it_table it = false /\ dictIsRehashing d = true /\ exists b t it', ht_table (ht1 d) = Some (b :: t)
     /\ step_bucket it d = Some (it', Some b) /\ past d it' [b] t /\ it_table it' = true /\ it_entry it' = []
     /\ it_safe it' = it_safe it /\ it_fingerprint it' = it_fingerprint it)
  \/ (after d (it_table it) l2 = [] /\ exists it', step_bucket it d = Some (it', None)
     /\ it_safe it' = it_safe it /\ it_fingerprint it' = it_fingerprint it /\ 0 <= it_index it').
Proof.
  intros W [Ht Hi] He. unfold step_bucket; cbn [it_table it_index]. rewrite Hi, (table_size d _ _ W Ht).
  pose proof (zlen_nonneg l1). destruct l2 as [|b l2].
  - rewrite app_nil_r in *. destruct (Z.geb_spec (zlen l1) (zlen l1)); [|lia]. right.
    destruct (dictIsRehashing d) eqn:Hr; cbn [andb]; [destruct (it_table it) eqn:Htb; cbn [negb]|].
    + right. split; [done|]. eexists. split; [done|]. done.
    + left. apply is_rehashing in Hr. destruct (wf_alloc _ _ d W Hr) as [_ [t1 Ht1]].
      destruct (wf_ht1 _ _ _ W) as [Hs1 _]. unfold ht_shape in Hs1. rewrite Ht1 in Hs1. destruct Hs1 as (Hexp & Hl & _).
      destruct t1 as [|b t1].
      { pose proof (Z.pow_pos_nonneg 2 (ht_size_exp (ht1 d))). change (zlen []) with 0 in Hl. lia. }
      split; [done|]. split; [done|]. split; [done|]. exists b, t1.
      rewrite (get_split (ht_of d true) 0 [] b t1) by done. sbind. eexists. split; [done|]. split; [done|].
      split; [done|]. done.
    + right. destruct (not_rehashing type canon d W Hr) as [_ Hh1]. split.
      { unfold after. rewrite Hh1. by destruct (it_table it). }
      eexists. split; [done|]. done.
  - left. destruct (Z.geb_spec (zlen l1) (zlen (l1 ++ b :: l2))); [zlen_solve|].
    exists b, l2. split; [done|]. rewrite (get_split _ (zlen l1) l1 b l2) by done. sbind.
    eexists. split; [done|]. split; [|done]. split; cbn; [by rewrite <- app_assoc|zlen_solve].
Qed.

(** An iterator that returned an entry, and what it has still to return. *)
Definition ready (d : dict) (it : dictIterator) (rem : list (K * V)) : Prop :=
  it_entry it <> [] /\ exists l1 l2, past d it l1 l2 /\ rem = it_nextEntry it ++ after d (it_table it) l2.

(** The first call was made. *)
Definition started (it : dictIterator) : Prop := (it_index it =? -1) && negb (it_table it) = false.

(** The members the iterator keeps. *)
Definition kept (it it' : dictIterator) : Prop :=
  it_safe it' = it_safe it /\ it_fingerprint it' = it_fingerprint it /\ started it'.

(** The next of the entries that are left. *)
Definition returns (d : dict) (it : dictIterator) (rem : list (K * V))
    (r : option (option (K * V) * dictIterator * dict)) : Prop :=
  match rem with
  | [] => exists it', r = Some (None, it', d) /\ kept it it'
  | e :: rem => exists it', r = Some (Some e, it', d) /\ kept it it' /\ ready d it' rem
  end.

(** A round of the loop that looks for the next bucket. *)
Definition round (fuel : nat) (it : dictIterator) (d : dict) : option (option (K * V) * dictIterator * dict) :=
  '(it, entry) ← step_bucket it d;
  match entry with
  | None => Some (None, it, d)
  | Some entry =>
      let it := set_entry it entry in
      match entry with e :: _ => Some (Some e, it, d) | [] => next_loop fuel addr it d end
  end.

Lemma next_loop_start fuel it it0 d d1 :
  it_entry it = [] -> iter_start addr it d = (it0, d1) -> next_loop (S fuel) addr it d = round fuel it0 d1.
Proof.
  intros He Hs. cbn [next_loop]. rewrite He, Hs. unfold round. by destruct (step_bucket it0 d1) as [[]|].
Qed.

Lemma next_loop_round fuel it d : it_entry it = [] -> started it -> next_loop (S fuel) addr it d = round fuel it d.
Proof.
  intros He Hs. apply next_loop_start; [done|]. unfold iter_start. unfold started in Hs. by rewrite Hs.
Qed.

Lemma next_loop_next fuel it d :
  it_entry it <> [] ->
  next_loop (S fuel) addr it d
  = let it0 := set_entry it (it_nextEntry it) in
    match it_nextEntry it with e :: _ => Some (Some e, it0, d) | [] => next_loop fuel addr it0 d end.
Proof. intros He. cbn [next_loop]. by destruct (it_entry it). Qed.

Lemma kept_trans a b c : kept a b -> kept b c -> kept a c.
Proof. unfold kept. intros (-> & -> & _) (-> & -> & ?). done. Qed.

(** The bucket is entered, or passed when it is empty. *)
Lemma enter_bucket d it it' fuel b l1 l2 :
  past d it' (l1 ++ [b]) l2 -> kept it it' -> it_entry it' = [] ->
  (b = [] -> returns d it' (after d (it_table it') l2) (round fuel it' d)) ->
  returns d it (b ++ after d (it_table it') l2)
    (let it0 := set_entry it' b in match b with e :: _ => Some (Some e, it0, d) | [] => next_loop (S fuel) addr it0 d end).
Proof.
  intros Hp Hk He Hnil. cbv zeta. destruct b as [|e b].
  - specialize (Hnil eq_refl). assert (Hid : set_entry it' [] = it') by (destruct it'; cbn in *; by subst).
    rewrite Hid, next_loop_round by (done || apply Hk). cbn [app]. unfold returns in *.
    destruct (after d (it_table it') l2).
    + destruct Hnil as (it2 & -> & Hk2). exists it2. split; [done|]. exact (kept_trans _ _ _ Hk Hk2).
    + destruct Hnil as (it2 & -> & Hk2 & Hr). exists it2. split; [done|]. split; [exact (kept_trans _ _ _ Hk Hk2)|done].
  - cbn. eexists. split; [done|]. split; [exact Hk|]. split; [done|]. by exists (l1 ++ [e :: b]), l2.
Qed.

Lemma round_spec m : forall fuel it d l1 l2,
  wf d -> past d it l1 l2 -> it_entry it = [] ->
  m = (length l2 + if it_table it then 0 else match ht_table (ht1 d) with Some t => length t | None => 0 end)%nat ->
  (m <= fuel)%nat -> returns d it (after d (it_table it) l2) (round fuel it d).
Proof.
  induction m as [m IH] using lt_wf_ind. intros fuel it d l1 l2 W Hp He Hm Hf. unfold round.
  destruct (step_bucket_spec d it l1 l2 W Hp He)
    as [(b & l2' & -> & it' & -> & Hp' & Ht & He' & Hs & Hfp & Hi)
       |[(-> & Htf & Hr & b & t & it' & Ht1 & -> & Hp' & Ht & He' & Hs & Hfp)|(Hnil & it' & -> & Hs & Hfp & Hi)]]; sbind.
  - cbn [length] in Hm. destruct fuel as [|fuel]; [lia|].
    assert (Hk : kept it it') by (split; [done|]; split; [done|]; unfold started; zcase).
    pose proof (enter_bucket d it it' fuel b l1 l2' Hp' Hk He') as Hret. rewrite Ht in Hret.
    unfold after in *. cbn [concat]. rewrite <- app_assoc. apply Hret. intros _. rewrite <- Ht.
    refine (IH (m - 1)%nat _ fuel it' d (l1 ++ [b]) l2' W Hp' He' _ _); [lia|rewrite Ht; lia|lia].
  - rewrite Htf, Ht1 in Hm. cbn [length] in Hm. destruct fuel as [|fuel]; [lia|].
    assert (Hk : kept it it') by (split; [done|]; split; [done|]; unfold started; rewrite Ht; by rewrite andb_false_r).
    pose proof (enter_bucket d it it' fuel b [] t Hp' Hk He') as Hret. rewrite Ht in Hret.
    rewrite Htf. unfold after in *. cbn [concat app]. unfold ents. rewrite Ht1. cbn [concat].
    rewrite app_nil_r in Hret. apply Hret. intros _. rewrite <- (app_nil_r (concat t)).
    pose proof (IH (m - 1)%nat ltac:(lia) fuel it' d [b] t W Hp' He') as Hn. rewrite Ht in Hn. apply Hn; lia.
  - rewrite Hnil. exists it'. split; [done|]. split; [done|]. split; [done|]. unfold started. zcase.
Qed.

Lemma fuel_enough d it l1 l2 :
  wf d -> past d it l1 l2 ->
  (length l2 + (if it_table it then 0 else match ht_table (ht1 d) with Some t => length t | None => 0 end)
   <= Z.to_nat (DICTHT_SIZE (ht_size_exp (ht0 d)) + DICTHT_SIZE (ht_size_exp (ht1 d))))%nat.
Proof.
  intros W [Ht _]. pose proof (ht_size_bound type _ (wf_ht0 _ _ _ W)). pose proof (ht_size_bound type _ (wf_ht1 _ _ _ W)).
  pose proof (table_size d _ _ W Ht) as Hs. assert (Hl : zlen l2 <= zlen (l1 ++ l2)) by zlen_solve.
  destruct (it_table it); cbn [ht_of] in *; [unfold zlen in *; lia|].
  destruct (ht_table (ht1 d)) as [t|] eqn:Ht1; [|unfold zlen in *; lia].
  pose proof (table_size d true t W Ht1) as Hs1. cbn [ht_of] in Hs1. unfold zlen in *; lia.
Qed.

Lemma next_ready d it rem :
  wf d -> ready d it rem -> started it -> returns d it rem (dictNext addr it d).
Proof.
  intros W (Hne & l1 & l2 & Hp & ->) Hst. unfold dictNext. rewrite next_loop_next by done. cbv zeta.
  assert (Hk : kept it (set_entry it (it_nextEntry it))) by done.
  destruct (it_nextEntry it) as [|e next] eqn:Hn.
  - rewrite next_loop_round by done. cbn [app].
    pose proof (round_spec _ (S (Z.to_nat (DICTHT_SIZE (ht_size_exp (ht0 d)) + DICTHT_SIZE (ht_size_exp (ht1 d)))))
      (set_entry it []) d l1 l2 W Hp eq_refl eq_refl) as Hr.
    cbn [it_table set_entry] in Hr. specialize (Hr ltac:(pose proof (fuel_enough d it l1 l2 W Hp); lia)).
    unfold returns in *. destruct (after d (it_table it) l2).
    + destruct Hr as (it2 & -> & Hk2). exists it2. split; [done|]. exact (kept_trans _ _ _ Hk Hk2).
    + destruct Hr as (it2 & -> & Hk2 & Hr). exists it2. split; [done|]. split; [exact (kept_trans _ _ _ Hk Hk2)|done].
  - cbn. eexists. split; [done|]. split; [exact Hk|]. split; [done|]. by exists l1, l2.
Qed.

(** Calls until NULL is returned. *)
Fixpoint iterate (n : nat) (it : dictIterator) (d : dict) : option (list (K * V) * dictIterator * dict) :=
  match n with
  | O => None
  | S n =>
      '(r, it, d) ← dictNext addr it d;
      match r with
      | None => Some ([], it, d)
      | Some e => '(es, it, d) ← iterate n it d; Some (e :: es, it, d)
      end
  end.

Lemma iterate_ready d rem : forall it,
  wf d -> ready d it rem -> started it ->
  exists it', iterate (S (length rem)) it d = Some (rem, it', d) /\ kept it it'.
Proof.
  induction rem as [|e rem IH]; intros it W Hr Hs; pose proof (next_ready d it _ W Hr Hs) as Hn; cbn [iterate length].
  - destruct Hn as (it' & -> & Hk). sbind. eauto.
  - destruct Hn as (it' & -> & Hk & Hr'). sbind. destruct (IH it' W Hr' ltac:(apply Hk)) as (it2 & Heq & Hk2).
    cbn [iterate] in Heq. rewrite Heq. sbind. exists it2. split; [done|]. exact (kept_trans _ _ _ Hk Hk2).
Qed.

Definition init (safe : bool) : dictIterator := if safe then dictInitSafeIterator else dictInitIterator.
(** The dictionary while it is iterated over. *)
Definition during (safe : bool) (d : dict) : dict := if safe then dictPauseRehashing d else d.
Definition fingerprint (safe : bool) (d : dict) : Z := if safe then 0 else dictFingerprint addr d.

Lemma during_wf safe d : wf d -> wf (during safe d).
Proof. intros W. destruct safe; [|done]. by apply pause_wf. Qed.

Lemma moved_nil d l1 l2 :
  wf d -> ht_table (ht0 d) = Some (l1 ++ l2) -> (rehashidx d <> -1 -> zlen l1 = rehashidx d) ->
  (rehashidx d = -1 -> l1 = []) -> concat l1 = [].
Proof.
  intros W Ht Hr Hn. destruct (decide (rehashidx d = -1)) as [E|E]; [by rewrite Hn|]. specialize (Hr E).
  destruct (rehashidx_range type canon d W E) as (_ & Hm & _). clear Hn. revert Hm. unfold moved, get_bucket. rewrite Ht, <- Hr.
  clear. intros Hm. destruct (concat l1) as [|x xs] eqn:Hc; [done|]. exfalso.
  assert (Hx : x ∈ concat l1) by (rewrite Hc; apply list_elem_of_here).
  apply list_elem_of_In, in_concat in Hx as (b & Hb%list_elem_of_In & Hxb).
  apply list_elem_of_lookup in Hb as [i Hi]. pose proof (lookup_lt_Some _ _ _ Hi).
  specialize (Hm (Z.of_nat i) ltac:(unfold zlen; lia)). revert Hm. rewrite some_bind. zcase.
  rewrite Nat2Z.id, lookup_app_l, Hi by lia. intros [= ->]. done.
Qed.

(** The first call. *)
Lemma next_first safe d :
  wf d -> exists it0, it_safe it0 = safe /\ it_fingerprint it0 = fingerprint safe d
    /\ returns (during safe d) it0 (entries d) (dictNext addr (init safe) d).
Proof.
  intros W. pose proof (during_wf safe d W) as W'. set (d1 := during safe d) in *.
  exists (mkIter false (if dictIsRehashing d then rehashidx d - 1 else -1) safe [] [] (fingerprint safe d)).
  split; [done|]. split; [done|]. set (it0 := mkIter _ _ _ _ _ _).
  assert (Hstart : iter_start addr (init safe) d = (it0, d1)).
  { unfold iter_start, it0, d1. destruct safe; reflexivity. }
  unfold dictNext. rewrite (next_loop_start _ (init safe) it0 d d1) by (done || by destruct safe).
  assert (H01 : ht0 d1 = ht0 d /\ ht1 d1 = ht1 d /\ rehashidx d1 = rehashidx d) by (unfold d1; by destruct safe).
  destruct H01 as (Hd0 & Hd1 & Hdr).
  destruct (ht_table (ht0 d)) as [t|] eqn:Ht.
  - assert (Hsplit : exists l1 l2, t = l1 ++ l2 /\ it_index it0 + 1 = zlen l1
      /\ (rehashidx d <> -1 -> zlen l1 = rehashidx d) /\ (rehashidx d = -1 -> l1 = [])).
    { unfold it0, dictIsRehashing; cbn. destruct (Z.eqb_spec (rehashidx d) (-1)) as [E|E]; cbn.
      - exists [], t. split; [done|]. split; [done|]. done.
      - destruct (rehashidx_range type canon d W E) as (Hri & _ & He & _).
        pose proof (table_size d false t W Ht) as Hsz. cbn [ht_of] in Hsz. rewrite size_exp in Hsz by lia.
        destruct (split_zlen t (rehashidx d)) as (l1 & l2 & -> & Hl); [lia|].
        exists l1, l2. split; [done|]. split; [lia|]. split; [done|lia]. }
    destruct Hsplit as (l1 & l2 & -> & Hi & Hr1 & Hr2).
    assert (Hp : past d1 it0 l1 l2) by (split; [cbn; by rewrite Hd0|done]).
    assert (Hen : after d1 false l2 = entries d).
    { unfold after, entries, ents at 2. rewrite Ht, concat_app, (moved_nil d l1 l2 W Ht Hr1 Hr2), Hd1. done. }
    rewrite <- Hen. eapply round_spec; [done|exact Hp|done|done|].
    pose proof (fuel_enough d1 it0 l1 l2 W' Hp) as Hf. rewrite Hd0, Hd1 in Hf. cbn [it_table it0] in *. rewrite Hd1. lia.
  - destruct (unallocated type canon d W Ht) as [Hd Hrr].
    assert (Hz0 : ht0 d = reset_ht) by (rewrite Hd; done). assert (Hz1 : ht1 d = reset_ht) by (rewrite Hd; done).
    assert (Hen : entries d = []) by (unfold entries; by rewrite Hz0, Hz1). rewrite Hen.
    unfold returns, round, step_bucket. cbn [it_table it_index it0]. cbn [ht_of]. rewrite Hd0, Hz0.
    assert (Hnr : dictIsRehashing d1 = false) by (unfold dictIsRehashing; by rewrite Hdr, Hrr). rewrite Hnr.
    assert (Hnr' : dictIsRehashing d = false) by (unfold dictIsRehashing; by rewrite Hrr). unfold it0. rewrite Hnr'.
    eexists. split; [reflexivity|]. done.
Qed.

Lemma resume_pause d : wf d -> dictResumeRehashing (dictPauseRehashing d) = d.
Proof.
  intros W. pose proof (wf_pause _ _ _ W) as Hp. unfold dictResumeRehashing, dictPauseRehashing, with_pauserehash; cbn.
  unfold wrap. rewrite Zminus_mod_idemp_l, Z.add_simpl_r, Z.mod_small by exact Hp. by destruct d.
Qed.

(** C31: Iterating over a dictionary that nothing else touches, safely or not and in
    the middle of a rehashing or not, returns every entry exactly once, in the order
    of the tables; then NULL is returned, and releasing the iterator finds the
    fingerprint unchanged or undoes the pause, leaving the dictionary as it was. *)
Theorem dictIterate_correct (safe : bool) (d : dict) :
  wf d ->
  exists it, iterate (S (length (entries d))) (init safe) d = Some (entries d, it, during safe d)
    /\ dictResetIterator addr it (during safe d) = Some d /\ NoDup (canon ∘ fst <$> entries d).
Proof.
  intros W. pose proof (during_wf safe d W) as W'.
  assert (Hex : exists it, iterate (S (length (entries d))) (init safe) d = Some (entries d, it, during safe d)
    /\ it_safe it = safe /\ it_fingerprint it = fingerprint safe d /\ started it).
  { destruct (next_first safe d W) as (it0 & Hs0 & Hf0 & Hn). cbn [iterate].
    destruct (entries d) as [|e rem]; cbn [length].
    - destruct Hn as (it & -> & Hs & Hf & Hst). sbind. exists it. by rewrite Hs, Hf.
    - destruct Hn as (it & -> & (Hs & Hf & Hst) & Hr). sbind.
      destruct (iterate_ready (during safe d) rem it W' Hr Hst) as (it2 & Heq & (Hs2 & Hf2 & Hst2)).
      rewrite Heq. sbind. exists it2. by rewrite Hs2, Hf2, Hs, Hf. }
  destruct Hex as (it & Heq & Hs & Hf & Hst). exists it. split; [done|]. split; [|apply W].
  unfold dictResetIterator. rewrite Hst, Hs, Hf. cbn [negb]. destruct safe; cbn [during fingerprint].
  - by rewrite resume_pause.
  - by rewrite Z.eqb_refl.
Qed.


End iter.

(** ** The fingerprint *)

(** Multiplication by a number with an inverse modulo [2^64]. *)
Lemma mul_inj (m inv c a b : Z) :
  m * inv mod 2 ^ 64 = 1 -> in_unsigned 64 a -> in_unsigned 64 b ->
  (a * m + c) mod 2 ^ 64 = (b * m + c) mod 2 ^ 64 -> a = b.
Proof.
  intros Hinv Ha Hb Heq. rewrite <- (Z.mod_small a (2 ^ 64)), <- (Z.mod_small b (2 ^ 64)) by done.
  assert (Hm : (a * m) mod 2 ^ 64 = (b * m) mod 2 ^ 64).
  { replace (a * m) with (a * m + c - c) by lia. replace (b * m) with (b * m + c - c) by lia.
    by rewrite <- (Zminus_mod_idemp_l (a * m + c)), <- (Zminus_mod_idemp_l (b * m + c)), Heq. }
  assert (Hx : forall x, x mod 2 ^ 64 = ((x * m) mod 2 ^ 64 * inv) mod 2 ^ 64).
  { intros x. rewrite Zmult_mod_idemp_l, <- Z.mul_assoc, <- Zmult_mod_idemp_r, Hinv, Z.mul_1_r. done. }
  by rewrite (Hx a), (Hx b), Hm.
Qed.

(** [x ^ (x >> k)] *)
Lemma xorshift_inj k a b :
  0 < k -> in_unsigned 64 a -> in_unsigned 64 b -> Z.lxor a (a >>> k) = Z.lxor b (b >>> k) -> a = b.
Proof.
  intros Hk Ha Hb Heq.
  assert (Hbits : forall n i, 64 - Z.of_nat n <= i -> 0 <= i -> Z.testbit a i = Z.testbit b i).
  { induction n as [|n IH]; intros i Hi Hi0.
    - rewrite <- (Z.mod_small a (2 ^ 64)), <- (Z.mod_small b (2 ^ 64)) by done. by rewrite !Z.mod_pow2_bits_high by lia.
    - assert (Hx : Z.testbit (Z.lxor a (a >>> k)) i = Z.testbit (Z.lxor b (b >>> k)) i) by (by rewrite Heq).
      rewrite !Z.lxor_spec, !Z.shiftr_spec, (IH (i + k)) in Hx by lia.
      by destruct (Z.testbit a i), (Z.testbit b i), (Z.testbit b (i + k)). }
  apply Z.bits_inj'. intros i Hi. apply (Hbits 64%nat); lia.
Qed.

Lemma xorshift_range k a : 0 < k -> in_unsigned 64 a -> in_unsigned 64 (Z.lxor a (a >>> k)).
Proof.
  intros Hk Ha. assert (Hx : Z.lxor a (a >>> k) = Z.lxor a (a >>> k) mod 2 ^ 64).
  { apply Z.bits_inj'. intros i Hi. destruct (decide (i < 64)); [by rewrite Z.mod_pow2_bits_low by lia|].
    rewrite Z.mod_pow2_bits_high, Z.lxor_spec, Z.shiftr_spec by lia.
    rewrite <- (Z.mod_small a (2 ^ 64)) by done. by rewrite !Z.mod_pow2_bits_high by lia. }
  rewrite Hx. apply Z.mod_pos_bound. lia.
Qed.

Lemma not_64 h : in_unsigned 64 h -> Z.lxor h (2 ^ 64 - 1) = 2 ^ 64 - 1 - h.
Proof.
  intros Hh. assert (Hl : Z.land h (Z.lxor h (2 ^ 64 - 1)) = 0).
  { apply Z.bits_inj'. intros i Hi. rewrite Z.land_spec, Z.lxor_spec, Z.bits_0. change (2 ^ 64 - 1) with (Z.ones 64).
    destruct (decide (i < 64)).
    - rewrite Z.ones_spec_low by lia. by destruct (Z.testbit h i).
    - rewrite <- (Z.mod_small h (2 ^ 64)) by done. by rewrite Z.mod_pow2_bits_high by lia. }
  pose proof (Z.add_nocarry_lxor _ _ Hl) as Hs. rewrite <- Z.lxor_assoc, Z.lxor_nilpotent, Z.lxor_0_l in Hs. lia.
Qed.

(** The round is a sequence of invertible steps. *)
Lemma mix1_mul h : in_unsigned 64 h -> mix1 h = (h * (2 ^ 21 - 1) + (2 ^ 64 - 1)) mod 2 ^ 64.
Proof.
  intros Hh. unfold mix1, wrap. rewrite not_64, Z.shiftl_mul_pow2, Zplus_mod_idemp_r by (done || lia). f_equal. lia.
Qed.

Lemma mix2_mul h : mix2 h = (h * 265 + 0) mod 2 ^ 64.
Proof.
  unfold mix2, wrap. rewrite !Z.shiftl_mul_pow2, !Zplus_mod_idemp_r, Zplus_mod_idemp_l by lia.
  f_equal. lia.
Qed.

Lemma mix3_mul h : mix3 h = (h * 21 + 0) mod 2 ^ 64.
Proof.
  unfold mix3, wrap. rewrite !Z.shiftl_mul_pow2, !Zplus_mod_idemp_r, Zplus_mod_idemp_l by lia.
  f_equal. lia.
Qed.

Lemma mix4_mul h : mix4 h = (h * (2 ^ 31 + 1) + 0) mod 2 ^ 64.
Proof. unfold mix4, wrap. rewrite !Z.shiftl_mul_pow2, Zplus_mod_idemp_r by lia. f_equal. lia. Qed.

Lemma u64_range x : in_unsigned 64 (u64 x).
Proof. apply wrap_range. lia. Qed.

Lemma mix1_inj a b : in_unsigned 64 a -> in_unsigned 64 b -> mix1 a = mix1 b -> a = b.
Proof.
  intros Ha Hb. rewrite !mix1_mul by done.
  apply (mul_inj (2 ^ 21 - 1) 9223367638806167551); [by vm_compute|done|done].
Qed.

Lemma mix2_inj a b : in_unsigned 64 a -> in_unsigned 64 b -> mix2 a = mix2 b -> a = b.
Proof.
  intros Ha Hb. rewrite !mix2_mul. apply (mul_inj 265 15244667743933553977); [by vm_compute|done|done].
Qed.

Lemma mix3_inj a b : in_unsigned 64 a -> in_unsigned 64 b -> mix3 a = mix3 b -> a = b.
Proof.
  intros Ha Hb. rewrite !mix3_mul. apply (mul_inj 21 14933078535860113213); [by vm_compute|done|done].
Qed.

Lemma mix4_inj a b : in_unsigned 64 a -> in_unsigned 64 b -> mix4 a = mix4 b -> a = b.
Proof.
  intros Ha Hb. rewrite !mix4_mul.
  apply (mul_inj (2 ^ 31 + 1) 4611686016279904257); [by vm_compute|done|done].
Qed.

Lemma xs_inj k a b : 0 < k -> in_unsigned 64 a -> in_unsigned 64 b -> xs k a = xs k b -> a = b.
Proof. apply xorshift_inj. Qed.

Lemma mix_ranges x : in_unsigned 64 (mix1 x) /\ in_unsigned 64 (mix2 x) /\ in_unsigned 64 (mix3 x)
  /\ in_unsigned 64 (mix4 x).
Proof. split; [|split; [|split]]; apply u64_range. Qed.

Lemma xs_range k x : 0 < k -> in_unsigned 64 x -> in_unsigned 64 (xs k x).
Proof. apply xorshift_range. Qed.

#[local] Opaque mix1 mix2 mix3 mix4 xs.

Lemma mix_inj a b :
  in_unsigned 64 a -> in_unsigned 64 b ->
  mix4 (xs 28 (mix3 (xs 14 (mix2 (xs 24 (mix1 a)))))) = mix4 (xs 28 (mix3 (xs 14 (mix2 (xs 24 (mix1 b)))))) -> a = b.
Proof.
  intros Ha Hb Heq.
  apply mix4_inj in Heq; [|apply xs_range; [lia|apply mix_ranges]..].
  apply xs_inj in Heq; [|lia|apply mix_ranges..]. apply mix3_inj in Heq; [|apply xs_range; [lia|apply mix_ranges]..].
  apply xs_inj in Heq; [|lia|apply mix_ranges..]. apply mix2_inj in Heq; [|apply xs_range; [lia|apply mix_ranges]..].
  apply xs_inj in Heq; [|lia|apply mix_ranges..]. by apply mix1_inj in Heq.
Qed.

Lemma add_inj h a b : in_unsigned 64 a -> in_unsigned 64 b -> u64 (h + a) = u64 (h + b) -> a = b.
Proof.
  intros Ha Hb Heq. apply (mul_inj 1 1 h); [reflexivity|done|done|]. unfold wrap in Heq.
  replace (a * 1 + h) with (h + a) by lia. by replace (b * 1 + h) with (h + b) by lia.
Qed.

Lemma step_inj_r h a b :
  in_unsigned 64 a -> in_unsigned 64 b -> fingerprint_step h a = fingerprint_step h b -> a = b.
Proof.
  intros Ha Hb. unfold fingerprint_step. intros Heq%mix_inj; [|apply u64_range..]. by apply add_inj in Heq.
Qed.

Lemma step_inj_l x a b :
  in_unsigned 64 a -> in_unsigned 64 b -> fingerprint_step a x = fingerprint_step b x -> a = b.
Proof.
  intros Ha Hb. unfold fingerprint_step. intros Heq%mix_inj; [|apply u64_range..]. rewrite !(Z.add_comm _ x) in Heq.
  by apply add_inj in Heq.
Qed.

Lemma step_range h x : in_unsigned 64 (fingerprint_step h x).
Proof. unfold fingerprint_step. apply mix_ranges. Qed.

Lemma fold_inj l : forall a b,
  in_unsigned 64 a -> in_unsigned 64 b -> foldl fingerprint_step a l = foldl fingerprint_step b l -> a = b.
Proof.
  induction l as [|x l IH]; intros a b Ha Hb Heq; [done|]. cbn [foldl] in Heq.
  apply IH in Heq; [|apply step_range..]. by apply step_inj_l in Heq.
Qed.

(** The fingerprint taken when an unsafe iterator starts differs from the one
    taken when it is released whenever exactly one of the addresses, sizes and
    counts of the two tables changed in between: every round of the hash is
    injective in the sum so far and in the number added. *)
Theorem dictFingerprint_detects {K V : Type} (addr addr' : bool -> Z) (d d' : @dict K V) (i : nat) (x : Z) :
  Forall (in_unsigned 64) (fields addr d) -> in_unsigned 64 x ->
  fields addr' d' = <[i := x]> (fields addr d) -> fields addr' d' <> fields addr d ->
  dictFingerprint addr' d' <> dictFingerprint addr d.
Proof.
  intros Hf Hx Hi Hne Heq. rewrite !fingerprint_fields in Heq.
  destruct (fields addr d !! i) as [y|] eqn:Hy.
  - rewrite Hi in Heq. rewrite <- (take_drop_middle _ _ _ Hy) in Heq at 2.
    rewrite insert_take_drop, !foldl_app in Heq by (by eapply lookup_lt_Some). cbn [foldl] in Heq.
    apply fold_inj in Heq; [|apply step_range..]. apply step_inj_r in Heq; [|done|by eapply Forall_lookup_1].
    apply Hne. rewrite Hi, Heq. by apply list_insert_id.
  - apply Hne. rewrite Hi. apply list_insert_ge. by apply lookup_ge_None.
Qed.

(** ** Examples *)

Lemma during_unsafe {K V} (d : @dict K V) : during false d = d.
Proof. reflexivity. Qed.

Lemma dictIterate_correct_witness :
  exists it, iterate (fun _ => 4096) 6 (init false) sample_dict = Some (entries sample_dict, it, sample_dict)
    /\ dictResetIterator (fun _ => 4096) it sample_dict = Some sample_dict.
Proof.
  destruct (dictIterate_correct absType Z.abs (fun _ => 4096) false sample_dict) as (it & H1 & H2 & _).
  - apply sample_sim.
  - assert (Hl : length (entries sample_dict) = 5%nat) by (by vm_compute). rewrite Hl in H1.
    rewrite during_unsafe in H1, H2. exists it. split; [exact H1|exact H2].
Defined.

(** One more entry is counted in the first table. *)
Lemma dictFingerprint_detects_witness :
  dictFingerprint (fun _ => 4096) (with_ht0 sample_dict (with_used (ht0 sample_dict) 6))
  <> dictFingerprint (fun _ => 4096) sample_dict.
Proof.
  apply (dictFingerprint_detects (fun _ => 4096) (fun _ => 4096) sample_dict _ 2%nat 6).
  - apply (bool_decide_unpack _). by vm_compute.
  - split; [discriminate|by vm_compute].
  - by vm_compute.
  - intros Heq. apply (f_equal (fun l => l !! 2%nat)) in Heq. revert Heq. vm_compute. discriminate.
Defined.
