(* ===== verification/Bits.v ===== *)
(** * Bits of a string

    The low level functions of bitops.c: counting the bits that are set,
    searching the first bit of a value, and integers of any width at any position
    of a string.  The first bit of a string is the most significant one of its
    first byte. *)

From stdpp Require Import base list.
From S2P Require Import Prelude.
Local Open Scope cint_scope.

(** ** Counting *)

Definition bitsinbyte : list Z :=
  [0; 1; 1; 2; 1; 2; 2; 3; 1; 2; 2; 3; 2; 3; 3; 4; 1; 2; 2; 3; 2; 3; 3; 4; 2; 3; 3; 4; 3; 4; 4; 5;
   1; 2; 2; 3; 2; 3; 3; 4; 2; 3; 3; 4; 3; 4; 4; 5; 2; 3; 3; 4; 3; 4; 4; 5; 3; 4; 4; 5; 4; 5; 5; 6;
   1; 2; 2; 3; 2; 3; 3; 4; 2; 3; 3; 4; 3; 4; 4; 5; 2; 3; 3; 4; 3; 4; 4; 5; 3; 4; 4; 5; 4; 5; 5; 6;
   2; 3; 3; 4; 3; 4; 4; 5; 3; 4; 4; 5; 4; 5; 5; 6; 3; 4; 4; 5; 4; 5; 5; 6; 4; 5; 5; 6; 5; 6; 6; 7;
   1; 2; 2; 3; 2; 3; 3; 4; 2; 3; 3; 4; 3; 4; 4; 5; 2; 3; 3; 4; 3; 4; 4; 5; 3; 4; 4; 5; 4; 5; 5; 6;
   2; 3; 3; 4; 3; 4; 4; 5; 3; 4; 4; 5; 4; 5; 5; 6; 3; 4; 4; 5; 4; 5; 5; 6; 4; 5; 5; 6; 5; 6; 6; 7;
   2; 3; 3; 4; 3; 4; 4; 5; 3; 4; 4; 5; 4; 5; 5; 6; 3; 4; 4; 5; 4; 5; 5; 6; 4; 5; 5; 6; 5; 6; 6; 7;
   3; 4; 4; 5; 4; 5; 5; 6; 4; 5; 5; 6; 5; 6; 6; 7; 4; 5; 5; 6; 5; 6; 6; 7; 5; 6; 6; 7; 6; 7; 7; 8].

Section popcount.
(** The block of memory and its address: the functions read whole words only at
    aligned addresses. *)
Context (m : list Z) (base : Z).

(** [while (count--) bits += bitsinbyte[*p++]] *)
Fixpoint count_bytes (fuel : nat) (p count bits : Z) : option Z :=
  if count =? 0 then Some bits
  else
    match fuel with
    | O => None
    | S fuel => b ← mget m p; t ← mget bitsinbyte b; count_bytes fuel (p + 1) (count - 1) (i64 (bits + t))
    end.

(** [while ((unsigned long)p & align && count)] *)
Fixpoint count_unaligned (fuel : nat) (align p count bits : Z) : option (Z * Z * Z) :=
  if negb (((base + p) &&& align) =? 0) && negb (count =? 0) then
    match fuel with
    | O => None
    | S fuel => b ← mget m p; t ← mget bitsinbyte b; count_unaligned fuel align (p + 1) (count - 1) (i64 (bits + t))
    end
  else Some (p, count, bits).

(** [__builtin_popcountll] *)
Definition popcountll (v : Z) : Z := Z.of_nat (length (filter (fun i => Z.testbit v (Z.of_nat i) = true) (seq 0 64))).
Definition load64 (p : Z) : option Z := le_dec <$> mread m p 8.
Definition load32 (p : Z) : option Z := le_dec <$> mread m p 4.

(** [while (count >= 32)], with one counter for each word. *)
Fixpoint count_words (fuel : nat) (p count c0 c1 c2 c3 : Z) : option (Z * Z * (Z * Z * Z * Z)) :=
  if count >=? 32 then
    match fuel with
    | O => None
    | S fuel =>
        w0 ← load64 p; w1 ← load64 (p + 8); w2 ← load64 (p + 16); w3 ← load64 (p + 24);
        count_words fuel (p + 32) (count - 32) (u64 (c0 + popcountll w0)) (u64 (c1 + popcountll w1))
          (u64 (c2 + popcountll w2)) (u64 (c3 + popcountll w3))
    end
  else Some (p, count, (c0, c1, c2, c3)).

(** The sums of the bits of a 32-bit word, by pairs and then by fours; and by
    bytes. *)
Definition swar_fours (aux : Z) : Z :=
  let aux := u32 (aux - ((aux >>> 1) &&& 0x55555555)) in
  u32 ((aux &&& 0x33333333) + ((aux >>> 2) &&& 0x33333333)).
Definition swar_bytes (aux : Z) : Z := u32 (aux + (aux >>> 4)) &&& 0x0F0F0F0F.
Definition add32 (a b : Z) : Z := u32 (a + b).

(** [while(count>=28)] *)
Fixpoint count_swar (fuel : nat) (p count bits : Z) : option (Z * Z * Z) :=
  if count >=? 28 then
    match fuel with
    | O => None
    | S fuel =>
        aux1 ← load32 p; aux2 ← load32 (p + 4); aux3 ← load32 (p + 8); aux4 ← load32 (p + 12);
        aux5 ← load32 (p + 16); aux6 ← load32 (p + 20); aux7 ← load32 (p + 24);
        let b aux := swar_bytes (swar_fours aux) in
        let sum := add32 (add32 (add32 (add32 (add32 (add32 (b aux1) (b aux2)) (b aux3)) (b aux4)) (b aux5)) (b aux6)) (b aux7) in
        count_swar fuel (p + 28) (count - 28) (i64 (bits + (u32 (sum * 0x01010101) >>> 24)))
    end
  else Some (p, count, bits).

(** [use_popcnt] is whether the processor has the instruction. *)
Definition redisPopcount (use_popcnt : bool) (s count : Z) : option Z :=
  let fuel := S (Z.to_nat count) in
  let align := if use_popcnt then 7 else 3 in
  '(p, count, bits) ← count_unaligned fuel align s count 0;
  '(p, count, bits) ←
    (if use_popcnt then
       '(p, count, (c0, c1, c2, c3)) ← count_words fuel p count 0 0 0 0;
       Some (p, count, i64 (bits + u64 (u64 (u64 (c0 + c1) + c2) + c3)))
     else count_swar fuel p count bits);
  count_bytes fuel p count bits.

(** ** Searching *)

Definition ULONG_MAX : Z := 2 ^ 64 - 1.
Definition UCHAR_MAX : Z := 255.

(** [while((unsigned long)c & (sizeof( *l)-1) && count)]; the flag is [found]. *)
Fixpoint skip_unaligned (fuel : nat) (skipval c count pos : Z) : option (Z * Z * Z * bool) :=
  if negb (((base + c) &&& (8 - 1)) =? 0) && negb (count =? 0) then
    match fuel with
    | O => None
    | S fuel =>
        b ← mget m c;
        if negb (b =? skipval) then Some (c, count, pos, true)
        else skip_unaligned fuel skipval (c + 1) (count - 1) (i64 (pos + 8))
    end
  else Some (c, count, pos, false).

(** [while (count >= sizeof( *l))] *)
Fixpoint skip_words (fuel : nat) (skipval l count pos : Z) : option (Z * Z * Z) :=
  if count >=? 8 then
    match fuel with
    | O => None
    | S fuel =>
        w ← load64 l;
        if negb (w =? skipval) then Some (l, count, pos)
        else skip_words fuel skipval (l + 8) (count - 8) (i64 (pos + 8 * 8))
    end
  else Some (l, count, pos).

(** [for (j = 0; j < sizeof( *l); j++)] *)
Fixpoint load_word (j : nat) (c count word : Z) : option Z :=
  match j with
  | O => Some word
  | S j =>
      let word := u64 (word <<< 8) in
      if negb (count =? 0) then b ← mget m c; load_word j (c + 1) (count - 1) (word ||| b)
      else load_word j c count word
  end.

(** [while(one)]; past the last bit the code panics. *)
Fixpoint scan_word (fuel : nat) (one word bit pos : Z) : option Z :=
  if one =? 0 then None
  else
    match fuel with
    | O => None
    | S fuel =>
        if (if negb ((one &&& word) =? 0) then 1 else 0) =? bit then Some pos
        else scan_word fuel (one >>> 1) word bit (i64 (pos + 1))
    end.

Definition redisBitpos (s count bit : Z) : option Z :=
  let fuel := S (Z.to_nat count) in
  '(c, count, pos, found) ← skip_unaligned fuel (if negb (bit =? 0) then 0 else UCHAR_MAX) s count 0;
  '(l, count, pos) ←
    (if (found : bool) then Some (c, count, pos)
     else skip_words fuel (if negb (bit =? 0) then 0 else ULONG_MAX) c count pos);
  word ← load_word 8 l count 0;
  if (bit =? 1) && (word =? 0) then Some (-1)
  else scan_word 65 (u64 (Z.lnot (ULONG_MAX >>> 1))) word bit pos.

End popcount.

(** ** Integers of any width *)

(** [for (j = 0; j < bits; j++)] of the two functions, [n] the iterations left. *)
Fixpoint set_bits (n : nat) (p : list Z) (offset value : Z) : option (list Z) :=
  match n with
  | O => Some p
  | S n =>
      let bitval := if negb ((value &&& (1 <<< Z.of_nat n)) =? 0) then 1 else 0 in
      let byte := offset >>> 3 in
      let bit := 7 - (offset &&& 0x7) in
      byteval ← mget p byte;
      let byteval := byteval &&& u64 (Z.lnot (1 <<< bit)) in
      let byteval := byteval ||| (bitval <<< bit) in
      p ← mwrite p byte [byteval &&& 0xff];
      set_bits n p (u64 (offset + 1)) value
  end.
Definition setUnsignedBitfield (p : list Z) (offset bits value : Z) : option (list Z) :=
  set_bits (Z.to_nat bits) p offset value.
Definition setSignedBitfield (p : list Z) (offset bits value : Z) : option (list Z) :=
  setUnsignedBitfield p offset bits (u64 value).

Fixpoint get_bits (n : nat) (p : list Z) (offset value : Z) : option Z :=
  match n with
  | O => Some value
  | S n =>
      let byte := offset >>> 3 in
      let bit := 7 - (offset &&& 0x7) in
      byteval ← mget p byte;
      let bitval := (byteval >>> bit) &&& 1 in
      get_bits n p (u64 (offset + 1)) (u64 (value <<< 1) ||| bitval)
  end.
Definition getUnsignedBitfield (p : list Z) (offset bits : Z) : option Z := get_bits (Z.to_nat bits) p offset 0.
Definition getSignedBitfield (p : list Z) (offset bits : Z) : option Z :=
  u ← getUnsignedBitfield p offset bits;
  let value := i64 u in
  if (bits <? 64) && negb ((u64 value &&& (1 <<< (bits - 1))) =? 0)
  then Some (i64 (u64 value ||| u64 (ULONG_MAX <<< bits))) else Some value.

(** ** Overflow *)

Inductive owtype := BFOVERFLOW_WRAP | BFOVERFLOW_SAT | BFOVERFLOW_FAIL.
#[export] Instance owtype_eq_dec : EqDecision owtype.
Proof. solve_decision. Defined.

(** The result, and what is stored in [*limit] if anything is. *)
Definition checkUnsignedBitfieldOverflow (value incr bits : Z) (ow : owtype) : Z * option Z :=
  let max := if bits =? 64 then 2 ^ 64 - 1 else u64 (1 <<< bits) - 1 in
  let maxincr := i64 (u64 (max - value)) in
  let minincr := i64 (u64 (- value)) in
  let handle_wrap := (1, Some (u64 (value + u64 incr) &&& u64 (Z.lnot (u64 (ULONG_MAX <<< bits))))) in
  if (value >? max) || ((incr >? 0) && (incr >? maxincr)) then
    match ow with
    | BFOVERFLOW_WRAP => handle_wrap
    | BFOVERFLOW_SAT => (1, Some max)
    | BFOVERFLOW_FAIL => (1, None)
    end
  else if (incr <? 0) && (incr <? minincr) then
    match ow with
    | BFOVERFLOW_WRAP => handle_wrap
    | BFOVERFLOW_SAT => (-1, Some 0)
    | BFOVERFLOW_FAIL => (-1, None)
    end
  else (0, None).

Definition checkSignedBitfieldOverflow (value incr bits : Z) (ow : owtype) : Z * option Z :=
  let max := if bits =? 64 then 2 ^ 63 - 1 else (1 <<< (bits - 1)) - 1 in
  let min := - max - 1 in
  let maxincr := i64 (u64 (u64 max - u64 value)) in
  let minincr := i64 (min - value) in
  let handle_wrap :=
    let msb := 1 <<< (bits - 1) in
    let c := u64 (u64 value + u64 incr) in
    let c := if bits <? 64 then
               let mask := u64 (ULONG_MAX <<< bits) in
               if negb ((c &&& msb) =? 0) then c ||| mask else c &&& u64 (Z.lnot mask)
             else c in
    (1, Some (i64 c)) in
  if (value >? max) || (negb (bits =? 64) && (incr >? maxincr)) || ((value >=? 0) && (incr >? 0) && (incr >? maxincr)) then
    match ow with
    | BFOVERFLOW_WRAP => handle_wrap
    | BFOVERFLOW_SAT => (1, Some max)
    | BFOVERFLOW_FAIL => (1, None)
    end
  else if (value <? min) || (negb (bits =? 64) && (incr <? minincr)) || ((value <? 0) && (incr <? 0) && (incr <? minincr)) then
    match ow with
    | BFOVERFLOW_WRAP => handle_wrap
    | BFOVERFLOW_SAT => (-1, Some min)
    | BFOVERFLOW_FAIL => (-1, None)
    end
  else (0, None).
