(* ===== verification/BitsSpec.v ===== *)
(** * Bits of a string: what the functions compute

    Counting and searching agree with the bits one by one, whatever the address
    of the string and the processor; a field reads back as what was written. *)

From stdpp Require Import base list numbers.
From S2P Require Import Prelude Bits.
Local Open Scope cint_scope.

(** The bit at a position, zero past the end. *)
Definition bit_of (p : list Z) (i : Z) : bool := Z.testbit (default 0 (p !! Z.to_nat (i / 8))) (7 - i mod 8).

(** ** Counting *)

Definition ones_upto (n : nat) (v : Z) : Z := Z.of_nat (length (filter (fun i => Z.testbit v (Z.of_nat i) = true) (seq 0 n))).
Definition count_ones (bs : list Z) : Z := foldr (fun b n => ones_upto 8 b + n) 0 bs.

Lemma bitsinbyte_ones b : is_byte b -> mget bitsinbyte b = Some (ones_upto 8 b).
Proof. intros Hb. by_bytes b Hb. Qed.

Lemma ones_range n v : 0 <= ones_upto n v <= Z.of_nat n.
Proof.
  unfold ones_upto. pose proof (length_filter (fun i => Z.testbit v (Z.of_nat i) = true) (seq 0 n)) as H. rewrite length_seq in H. lia.
Qed.

Lemma count_ones_cons b bs : count_ones (b :: bs) = ones_upto 8 b + count_ones bs.
Proof. done. Qed.
Lemma count_ones_app a b : count_ones (a ++ b) = count_ones a + count_ones b.
Proof. induction a as [|x a IH]; [done|]. cbn [app]. rewrite !count_ones_cons, IH. lia. Qed.
Lemma count_ones_range bs : 0 <= count_ones bs <= 8 * zlen bs.
Proof.
  induction bs as [|b bs IH]; [done|]. rewrite count_ones_cons, zlen_cons. pose proof (ones_range 8 b). lia.
Qed.

Lemma testbit_byte b x i : is_byte b -> 0 <= i -> Z.testbit (b + 256 * x) i = if i <? 8 then Z.testbit b i else Z.testbit x (i - 8).
Proof.
  intros Hb Hi. replace (b + 256 * x) with (b ||| (x <<< 8)) by (rewrite (lor_shiftl b x 8) by (unfold is_byte in Hb; lia); lia).
  rewrite Z.lor_spec. destruct (Z.ltb_spec i 8).
  - rewrite (Z.shiftl_spec_low x 8 i) by lia. apply orb_false_r.
  - rewrite Z.shiftl_spec by lia. rewrite Z.bits_above_log2; [done|unfold is_byte in Hb; lia|].
    destruct (Z.eq_dec b 0) as [->|]; [cbn; lia|]. apply Z.log2_lt_pow2; [unfold is_byte in Hb; lia|].
    eapply Z.lt_le_trans; [apply Hb|]. change 256 with (2 ^ 8). apply Z.pow_le_mono_r; lia.
Qed.

Lemma filter_ext_elem {A} (P Q : A -> Prop) `{forall x, Decision (P x)} `{forall x, Decision (Q x)} (l : list A) :
  (forall x, x ∈ l -> P x <-> Q x) -> filter P l = filter Q l.
Proof.
  induction l as [|x l IH]; intros He; [done|]. rewrite !filter_cons, IH by (intros y Hy; apply He; by right).
  destruct (decide (P x)) as [Hp|Hp], (decide (Q x)) as [Hq|Hq]; try done; rewrite He in Hp by (by left); done.
Qed.

Lemma filter_shift (f : nat -> bool) k n :
  length (filter (fun i => f i = true) (seq k n)) = length (filter (fun i => f (k + i)%nat = true) (seq 0 n)).
Proof.
  revert k f. induction n as [|n IH]; intros k f; [done|]. cbn [seq]. rewrite !filter_cons, Nat.add_0_r.
  assert (He : length (filter (fun i => f i = true) (seq (S k) n)) = length (filter (fun i => f (k + i)%nat = true) (seq 1 n))).
  { rewrite (IH (S k)), (IH 1%nat (fun i => f (k + i)%nat)). f_equal. apply list_filter_iff. intros i. by rewrite Nat.add_succ_comm. }
  destruct (decide (f k = true)); cbn [length]; by rewrite He.
Qed.

Lemma ones_split n b x : is_byte b -> ones_upto (8 + n) (b + 256 * x) = ones_upto 8 b + ones_upto n x.
Proof.
  intros Hb. unfold ones_upto. rewrite seq_app, filter_app, length_app, Nat2Z.inj_add. f_equal; f_equal.
  - f_equal. apply filter_ext_elem. intros i Hi%elem_of_seq. rewrite testbit_byte by (done || lia).
    destruct (Z.ltb_spec (Z.of_nat i) 8); [done|lia].
  - rewrite (filter_shift (fun i => Z.testbit (b + 256 * x) (Z.of_nat i))). f_equal. apply list_filter_iff. intros i.
    rewrite testbit_byte by (done || lia). destruct (Z.ltb_spec (Z.of_nat (0 + 8 + i)) 8); [lia|].
    by replace (Z.of_nat (0 + 8 + i) - 8) with (Z.of_nat i) by lia.
Qed.

(** The bits of a word are those of its bytes. *)
Lemma ones_word bs : bytes_ok bs -> ones_upto (8 * length bs) (le_dec bs) = count_ones bs.
Proof.
  induction 1 as [|b bs Hb _ IH]; [done|]. rewrite count_ones_cons, <-IH. cbn [length le_dec].
  replace (8 * S (length bs))%nat with (8 + 8 * length bs)%nat by lia. by apply ones_split.
Qed.

(** *** The sums in a word of 32 bits *)

Lemma land_byte a b x y : is_byte a -> is_byte b -> (a + 256 * x) &&& (b + 256 * y) = (a &&& b) + 256 * (x &&& y).
Proof.
  intros Ha Hb. assert (Hab : is_byte (a &&& b)).
  { split; [apply Z.land_nonneg; left; apply Ha|]. destruct (Z.eq_dec (a &&& b) 0); [lia|].
    apply Z.log2_lt_cancel. change (Z.log2 256) with 8.
    eapply Z.le_lt_trans; [apply Z.log2_land; [apply Ha|apply Hb]|]. apply Z.min_lt_iff. left.
    destruct (Z.eq_dec a 0) as [->|]; [done|]. apply Z.log2_lt_pow2; [unfold is_byte in Ha; lia|apply Ha]. }
  apply Z.bits_inj'. intros i Hi. rewrite Z.land_spec, !testbit_byte by done. by destruct (i <? 8); rewrite Z.land_spec.
Qed.

(** A word from its bytes. *)
Definition word4 (f : Z -> Z) (b0 b1 b2 b3 : Z) : Z := f b0 + 256 * (f b1 + 256 * (f b2 + 256 * f b3)).

Lemma land_word4 f b0 b1 b2 b3 k :
  is_byte k -> is_byte (f b0) -> is_byte (f b1) -> is_byte (f b2) -> is_byte (f b3) ->
  word4 f b0 b1 b2 b3 &&& (k + 256 * (k + 256 * (k + 256 * k))) = word4 (fun b => f b &&& k) b0 b1 b2 b3.
Proof. intros. unfold word4. by rewrite !land_byte. Qed.

(** The sums by pairs, by fours and by bytes in each byte. *)
Definition pairs (b : Z) : Z := b - ((b / 2) &&& 0x55).
Definition fours (b : Z) : Z := (pairs b &&& 0x33) + ((pairs b / 4) &&& 0x33).

Lemma pairs_byte b t : is_byte b -> 0 <= t < 2 ->
  (b / 2 + 128 * t) &&& 0x55 = (b / 2) &&& 0x55 /\ is_byte (pairs b) /\ is_byte (b / 2 + 128 * t).
Proof. intros Hb Ht. assert (t = 0 \/ t = 1) as [-> | ->] by lia; by_bytes b Hb. Qed.

Lemma fours_byte b t : is_byte b -> 0 <= t < 4 ->
  (pairs b / 4 + 64 * t) &&& 0x33 = (pairs b / 4) &&& 0x33 /\ is_byte (pairs b / 4 + 64 * t) /\ 0 <= fours b < 128.
Proof. intros Hb Ht. assert (t = 0 \/ t = 1 \/ t = 2 \/ t = 3) as [-> | [-> | [-> | ->]]] by lia; by_bytes b Hb. Qed.

Section word.
Context (b0 b1 b2 b3 : Z) (H0 : is_byte b0) (H1 : is_byte b1) (H2 : is_byte b2) (H3 : is_byte b3).

Lemma swar_pairs : u32 (word4 id b0 b1 b2 b3 - ((word4 id b0 b1 b2 b3 >>> 1) &&& 0x55555555)) = word4 pairs b0 b1 b2 b3.
Proof.
  rewrite shiftr_div by lia. change (2 ^ 1) with 2. set (h b c := b / 2 + 128 * (c mod 2)).
  assert (E : word4 id b0 b1 b2 b3 / 2 = h b0 b1 + 256 * (h b1 b2 + 256 * (h b2 b3 + 256 * h b3 0))) by (unfold word4, h, id; div_lia).
  rewrite E. change 0x55555555 with (0x55 + 256 * (0x55 + 256 * (0x55 + 256 * 0x55))).
  assert (Hm : forall c, 0 <= c mod 2 < 2) by (intros c; apply Z.mod_pos_bound; lia).
  assert (Hp : forall b, is_byte b -> is_byte (pairs b)) by (intros b Hb; by apply (pairs_byte b 0)).
  rewrite !land_byte by (done || by apply pairs_byte). unfold h.
  rewrite !(fun b c Hb => proj1 (pairs_byte b (c mod 2) Hb (Hm c))) by done.
  pose proof (Hp b0 H0). pose proof (Hp b1 H1). pose proof (Hp b2 H2). pose proof (Hp b3 H3).
  rewrite wrap_small; unfold word4, pairs, id, is_byte in *; lia.
Qed.

Lemma swar_fours_bytes : swar_fours (word4 id b0 b1 b2 b3) = word4 fours b0 b1 b2 b3.
Proof.
  unfold swar_fours. rewrite swar_pairs. rewrite shiftr_div by lia. change (2 ^ 2) with 4. cbv zeta.
  set (h b c := pairs b / 4 + 64 * (c mod 4)).
  assert (E : word4 pairs b0 b1 b2 b3 / 4 = h b0 (pairs b1) + 256 * (h b1 (pairs b2) + 256 * (h b2 (pairs b3) + 256 * h b3 0)))
    by (unfold word4, h; div_lia).
  rewrite E. change 0x33333333 with (0x33 + 256 * (0x33 + 256 * (0x33 + 256 * 0x33))).
  assert (Hm : forall c, 0 <= c mod 4 < 4) by (intros c; apply Z.mod_pos_bound; lia).
  assert (Hp : forall b, is_byte b -> is_byte (pairs b)) by (intros b Hb; by apply (pairs_byte b 0)).
  rewrite land_word4 by (done || by apply Hp). rewrite !land_byte by (done || by apply fours_byte). unfold h.
  rewrite !(fun b c Hb => proj1 (fours_byte b (c mod 4) Hb (Hm c))) by done.
  destruct (fours_byte b0 0 H0 ltac:(lia)) as (_ & _ & F0). destruct (fours_byte b1 0 H1 ltac:(lia)) as (_ & _ & F1).
  destruct (fours_byte b2 0 H2 ltac:(lia)) as (_ & _ & F2). destruct (fours_byte b3 0 H3 ltac:(lia)) as (_ & _ & F3).
  rewrite wrap_small; unfold word4, fours in *; lia.
Qed.

Lemma nibbles_byte b t : is_byte b -> 0 <= t < 8 ->
  0 <= fours b + (fours b / 16 + 16 * t) < 256 /\ (fours b + (fours b / 16 + 16 * t)) &&& 15 = ones_upto 8 b /\ 0 <= fours b mod 16 < 8.
Proof.
  intros Hb Ht.
  assert (t = 0 \/ t = 1 \/ t = 2 \/ t = 3 \/ t = 4 \/ t = 5 \/ t = 6 \/ t = 7) as Hc by lia.
  destruct Hc as [->|[->|[->|[->|[->|[->|[-> | ->]]]]]]]; by_bytes b Hb.
Qed.

Lemma swar_bytes_ones : swar_bytes (swar_fours (word4 id b0 b1 b2 b3)) = word4 (ones_upto 8) b0 b1 b2 b3.
Proof.
  rewrite swar_fours_bytes. unfold swar_bytes. rewrite shiftr_div by lia. change (2 ^ 4) with 16.
  set (h b c := fours b + (fours b / 16 + 16 * (c mod 16))).
  assert (E : word4 fours b0 b1 b2 b3 + word4 fours b0 b1 b2 b3 / 16
    = h b0 (fours b1) + 256 * (h b1 (fours b2) + 256 * (h b2 (fours b3) + 256 * h b3 0))) by (unfold word4, h; div_lia).
  rewrite E. change 0x0F0F0F0F with (15 + 256 * (15 + 256 * (15 + 256 * 15))).
  assert (Hn : forall b c, is_byte b -> c = 0 \/ is_byte c -> is_byte (h b (fours c)) /\ h b (fours c) &&& 15 = ones_upto 8 b).
  { intros b c Hb Hc. unfold h. assert (Ht : 0 <= fours c mod 16 < 8) by (destruct Hc as [->|Hc]; [done|by apply (nibbles_byte c 0)]).
    by destruct (nibbles_byte b _ Hb Ht) as (? & ? & _). }
  change (h b3 0) with (h b3 (fours 0)). rewrite wrap_small.
  - rewrite !land_byte by (done || apply Hn; auto). unfold word4.
    rewrite !(fun b c Hb Hc => proj2 (Hn b c Hb Hc)) by auto. done.
  - destruct (Hn b0 b1 H0 (or_intror H1)) as [N0 _]. destruct (Hn b1 b2 H1 (or_intror H2)) as [N1 _].
    destruct (Hn b2 b3 H2 (or_intror H3)) as [N2 _]. destruct (Hn b3 0 H3 (or_introl eq_refl)) as [N3 _]. unfold is_byte in *. lia.
Qed.
End word.

Lemma le_dec_word4 b0 b1 b2 b3 : le_dec [b0; b1; b2; b3] = word4 id b0 b1 b2 b3.
Proof. unfold word4, id. cbn [le_dec]. lia. Qed.

Lemma mul_bytes S0 S1 S2 S3 :
  0 <= S0 <= 56 -> 0 <= S1 <= 56 -> 0 <= S2 <= 56 -> 0 <= S3 <= 56 ->
  u32 ((S0 + 256 * (S1 + 256 * (S2 + 256 * S3))) * 0x01010101) >>> 24 = S0 + S1 + S2 + S3.
Proof.
  intros H0 H1 H2 H3. rewrite shiftr_div by lia. unfold wrap.
  set (low := S0 + 256 * (S0 + S1) + 65536 * (S0 + S1 + S2)). set (high := (S1 + S2 + S3) + 256 * (S2 + S3) + 65536 * S3).
  replace ((S0 + 256 * (S1 + 256 * (S2 + 256 * S3))) * 0x01010101) with (low + (S0 + S1 + S2 + S3) * 2 ^ 24 + high * 2 ^ 32) by (unfold low, high; lia).
  rewrite Z.mod_add, Z.mod_small by (unfold low; lia). rewrite Z.div_add, Z.div_small by (unfold low; lia). lia.
Qed.

(** The sum of the bytes of a sum of seven such words. *)
Lemma sum7_bytes (d : nat -> Z) :
  (forall i, 0 <= d i <= 8) ->
  let w i := d (4 * i)%nat + 256 * (d (4 * i + 1)%nat + 256 * (d (4 * i + 2)%nat + 256 * d (4 * i + 3)%nat)) in
  u32 (add32 (add32 (add32 (add32 (add32 (add32 (w 0%nat) (w 1%nat)) (w 2%nat)) (w 3%nat)) (w 4%nat)) (w 5%nat)) (w 6%nat) * 0x01010101) >>> 24
  = foldr Z.add 0 (d <$> seq 0 28).
Proof.
  intros Hd w.
  set (S0 := d 0%nat + d 4%nat + d 8%nat + d 12%nat + d 16%nat + d 20%nat + d 24%nat).
  set (S1 := d 1%nat + d 5%nat + d 9%nat + d 13%nat + d 17%nat + d 21%nat + d 25%nat).
  set (S2 := d 2%nat + d 6%nat + d 10%nat + d 14%nat + d 18%nat + d 22%nat + d 26%nat).
  set (S3 := d 3%nat + d 7%nat + d 11%nat + d 15%nat + d 19%nat + d 23%nat + d 27%nat).
  assert (Hs : forall i, 0 <= w i <= 8 * 0x01010101).
  { intros i. unfold w. pose proof (Hd (4 * i)%nat). pose proof (Hd (4 * i + 1)%nat). pose proof (Hd (4 * i + 2)%nat). pose proof (Hd (4 * i + 3)%nat). lia. }
  pose proof (Hs 0%nat). pose proof (Hs 1%nat). pose proof (Hs 2%nat). pose proof (Hs 3%nat). pose proof (Hs 4%nat). pose proof (Hs 5%nat). pose proof (Hs 6%nat).
  unfold add32. rewrite (wrap_small 32 (w 0%nat + w 1%nat)) by lia. rewrite (wrap_small 32 (w 0%nat + w 1%nat + w 2%nat)) by lia.
  rewrite (wrap_small 32 (w 0%nat + w 1%nat + w 2%nat + w 3%nat)) by lia.
  rewrite (wrap_small 32 (w 0%nat + w 1%nat + w 2%nat + w 3%nat + w 4%nat)) by lia.
  rewrite (wrap_small 32 (w 0%nat + w 1%nat + w 2%nat + w 3%nat + w 4%nat + w 5%nat)) by lia.
  rewrite (wrap_small 32 (w 0%nat + w 1%nat + w 2%nat + w 3%nat + w 4%nat + w 5%nat + w 6%nat)) by lia.
  assert (E : w 0%nat + w 1%nat + w 2%nat + w 3%nat + w 4%nat + w 5%nat + w 6%nat = S0 + 256 * (S1 + 256 * (S2 + 256 * S3))) by (unfold w, S0, S1, S2, S3; cbn [Nat.mul Nat.add]; lia).
  rewrite E. assert (HS : 0 <= S0 <= 56 /\ 0 <= S1 <= 56 /\ 0 <= S2 <= 56 /\ 0 <= S3 <= 56).
  { unfold S0, S1, S2, S3. repeat match goal with |- context [d ?i] => lazymatch goal with _ : 0 <= d i <= 8 |- _ => fail | _ => pose proof (Hd i) end end. lia. }
  rewrite mul_bytes by lia. unfold S0, S1, S2, S3. cbn [seq fmap list_fmap foldr]. lia.
Qed.

(** *** The loops *)

Section loops.
Context (base : Z) (a c : list Z).

Lemma next_byte bs1 b bs2 : mget (a ++ (bs1 ++ b :: bs2) ++ c) (zlen (a ++ bs1)) = Some b.
Proof. replace (a ++ (bs1 ++ b :: bs2) ++ c) with ((a ++ bs1) ++ b :: bs2 ++ c) by (by rewrite <-!app_assoc). by apply mget_app. Qed.

Lemma next_bytes bs1 w bs2 n : zlen w = n -> mread (a ++ (bs1 ++ w ++ bs2) ++ c) (zlen (a ++ bs1)) n = Some w.
Proof.
  intros <-. replace (a ++ (bs1 ++ w ++ bs2) ++ c) with ((a ++ bs1) ++ w ++ bs2 ++ c) by (by rewrite <-!app_assoc). by apply mread_app.
Qed.

Lemma zlen_snoc1 (bs1 : list Z) b : zlen (a ++ bs1) + 1 = zlen (a ++ bs1 ++ [b]).
Proof. rewrite !zlen_app, zlen_cons, zlen_nil. lia. Qed.

Lemma count_bytes_spec fuel bs1 bs2 bits :
  bytes_ok bs2 -> (length bs2 <= fuel)%nat -> 0 <= bits -> bits + 8 * zlen bs2 < 2 ^ 63 ->
  count_bytes (a ++ (bs1 ++ bs2) ++ c) fuel (zlen (a ++ bs1)) (zlen bs2) bits = Some (bits + count_ones bs2).
Proof.
  revert fuel bs1 bits. induction bs2 as [|b bs2 IH]; intros fuel bs1 bits Hb Hf H0 Hs.
  - destruct fuel; cbn; f_equal; lia.
  - apply Forall_cons in Hb as [Hb Hbs]. rewrite zlen_cons in Hs |- *. pose proof (zlen_nonneg bs2). pose proof (ones_range 8 b).
    destruct fuel as [|fuel]; [cbn in Hf; lia|]. cbn [count_bytes]. destruct (Z.eqb_spec (1 + zlen bs2) 0); [lia|].
    rewrite next_byte. sbind. rewrite bitsinbyte_ones by done. sbind. rewrite swrap_small by (unfold in_signed; lia).
    rewrite (zlen_snoc1 bs1 b). replace (1 + zlen bs2 - 1) with (zlen bs2) by lia.
    replace (bs1 ++ b :: bs2) with ((bs1 ++ [b]) ++ bs2) by (by rewrite <-app_assoc).
    rewrite IH by (done || lia || (cbn in Hf; lia)). rewrite count_ones_cons. f_equal. lia.
Qed.

Lemma count_unaligned_spec fuel align bs1 bs2 bits :
  bytes_ok bs2 -> (length bs2 <= fuel)%nat -> 0 <= bits -> bits + 8 * zlen bs2 < 2 ^ 63 ->
  exists u v, bs2 = u ++ v
    /\ count_unaligned (a ++ (bs1 ++ bs2) ++ c) base fuel align (zlen (a ++ bs1)) (zlen bs2) bits
       = Some (zlen (a ++ bs1 ++ u), zlen v, bits + count_ones u).
Proof.
  revert fuel bs1 bits. induction bs2 as [|b bs2 IH]; intros fuel bs1 bits Hb Hf H0 Hs.
  - exists [], []. split; [done|]. rewrite app_nil_r. destruct fuel; cbn; rewrite andb_false_r; do 2 f_equal; cbn; lia.
  - apply Forall_cons in Hb as [Hb Hbs]. rewrite zlen_cons in Hs. pose proof (zlen_nonneg bs2). pose proof (ones_range 8 b).
    destruct fuel as [|fuel]; [cbn in Hf; lia|]. cbn [count_unaligned]. destruct (negb _ && _).
    + rewrite next_byte. sbind. rewrite bitsinbyte_ones by done. sbind. rewrite swrap_small by (unfold in_signed; lia).
      rewrite zlen_cons, (zlen_snoc1 bs1 b). replace (1 + zlen bs2 - 1) with (zlen bs2) by lia.
      replace (bs1 ++ b :: bs2) with ((bs1 ++ [b]) ++ bs2) by (by rewrite <-app_assoc).
      destruct (IH fuel (bs1 ++ [b]) (bits + ones_upto 8 b)) as (u & v & -> & ->); try (done || lia); [cbn in Hf; lia|].
      exists (b :: u), v. split; [done|]. rewrite count_ones_cons, <-app_assoc. do 2 f_equal. lia.
    + exists [], (b :: bs2). split; [done|]. rewrite app_nil_r. do 2 f_equal. cbn. lia.
Qed.

(** Bytes taken [n] at a time. *)
Lemma take_block (bs : list Z) n : n <= zlen bs -> 0 <= n -> exists w v, bs = w ++ v /\ zlen w = n.
Proof. intros H1 H2. by apply split_zlen. Qed.

Lemma load64_spec m pre w post p : m = pre ++ w ++ post -> p = zlen pre -> zlen w = 8 -> load64 m p = Some (le_dec w).
Proof. intros -> -> Hw. unfold load64. by rewrite mread_app. Qed.
Lemma load32_spec m pre w post p : m = pre ++ w ++ post -> p = zlen pre -> zlen w = 4 -> load32 m p = Some (le_dec w).
Proof. intros -> -> Hw. unfold load32. by rewrite mread_app. Qed.

Lemma popcountll_word w : bytes_ok w -> zlen w = 8 -> popcountll (le_dec w) = count_ones w.
Proof. intros Hb Hw. rewrite <-ones_word by done. unfold zlen in Hw. by replace (length w) with 8%nat by lia. Qed.

Lemma count_words_spec fuel bs1 bs2 c0 c1 c2 c3 :
  bytes_ok bs2 -> (length bs2 <= fuel)%nat -> 0 <= c0 -> 0 <= c1 -> 0 <= c2 -> 0 <= c3 -> c0 + c1 + c2 + c3 + 8 * zlen bs2 < 2 ^ 63 ->
  exists u v d0 d1 d2 d3, bs2 = u ++ v
    /\ count_words (a ++ (bs1 ++ bs2) ++ c) fuel (zlen (a ++ bs1)) (zlen bs2) c0 c1 c2 c3
       = Some (zlen (a ++ bs1 ++ u), zlen v, (d0, d1, d2, d3))
    /\ 0 <= d0 /\ 0 <= d1 /\ 0 <= d2 /\ 0 <= d3 /\ d0 + d1 + d2 + d3 = c0 + c1 + c2 + c3 + count_ones u.
Proof.
  revert bs1 bs2 c0 c1 c2 c3. induction fuel as [|fuel IH]; intros bs1 bs2 c0 c1 c2 c3 Hb Hf H0 H1 H2 H3 Hs.
  - destruct bs2; [|cbn in Hf; lia]. exists [], [], c0, c1, c2, c3. rewrite !app_nil_r. change (count_ones []) with 0. split_and!; try done; lia.
  - cbn [count_words]. destruct (Z.geb_spec (zlen bs2) 32) as [Hl|Hl].
    2:{ exists [], bs2, c0, c1, c2, c3. rewrite app_nil_r. change (count_ones []) with 0. split_and!; try done; lia. }
    destruct (take_block bs2 8) as (w0 & v0 & -> & E0); [lia..|]. rewrite !zlen_app in *.
    destruct (take_block v0 8) as (w1 & v1 & -> & E1); [lia..|]. rewrite !zlen_app in *.
    destruct (take_block v1 8) as (w2 & v2 & -> & E2); [lia..|]. rewrite !zlen_app in *.
    destruct (take_block v2 8) as (w3 & v & -> & E3); [lia..|]. rewrite !zlen_app in *.
    rewrite !Forall_app in Hb. destruct Hb as (B0 & B1 & B2 & B3 & Bv).
    pose proof (count_ones_range w0). pose proof (count_ones_range w1). pose proof (count_ones_range w2). pose proof (count_ones_range w3).
    pose proof (zlen_nonneg v).
    set (m := a ++ (bs1 ++ w0 ++ w1 ++ w2 ++ w3 ++ v) ++ c).
    assert (Hm : forall pre w post p, pre ++ w ++ post = bs1 ++ w0 ++ w1 ++ w2 ++ w3 ++ v -> zlen w = 8 -> p = zlen a + zlen pre ->
      load64 m p = Some (le_dec w)).
    { intros pre w post p Hp Hw ->. apply (load64_spec m (a ++ pre) w (post ++ c)); [|by rewrite zlen_app|done]. unfold m. rewrite <-Hp.
      by rewrite <-!app_assoc. }
    rewrite (Hm bs1 w0 (w1 ++ w2 ++ w3 ++ v) (zlen a + zlen bs1)) by (rewrite ?zlen_app; done || lia). sbind.
    rewrite (Hm (bs1 ++ w0) w1 (w2 ++ w3 ++ v) (zlen a + zlen bs1 + 8)) by (rewrite <-?app_assoc, ?zlen_app; done || lia). sbind.
    rewrite (Hm (bs1 ++ w0 ++ w1) w2 (w3 ++ v) (zlen a + zlen bs1 + 16)) by (rewrite <-?app_assoc, ?zlen_app; done || lia). sbind.
    rewrite (Hm (bs1 ++ w0 ++ w1 ++ w2) w3 v (zlen a + zlen bs1 + 24)) by (rewrite <-?app_assoc, ?zlen_app; done || lia). sbind. unfold m.
    rewrite !popcountll_word, !wrap_small by (done || lia).
    destruct (IH (bs1 ++ w0 ++ w1 ++ w2 ++ w3) v (c0 + count_ones w0) (c1 + count_ones w1) (c2 + count_ones w2) (c3 + count_ones w3))
      as (u & v' & d0 & d1 & d2 & d3 & -> & Hr & D0 & D1 & D2 & D3 & Hd); try (done || lia).
    { unfold zlen in *. rewrite !length_app in Hf. lia. }
    exists (w0 ++ w1 ++ w2 ++ w3 ++ u), v', d0, d1, d2, d3. split; [by rewrite <-!app_assoc|]. split.
    + etrans; [|etrans; [exact Hr|]]; [f_equal; [by rewrite <-!app_assoc|rewrite ?zlen_app; lia..]|by rewrite <-!app_assoc].
    + rewrite !count_ones_app. split_and!; try done. lia.
Qed.

(** Four bytes of a block. *)
Lemma load32_block m pre w post p k :
  m = pre ++ w ++ post -> p = zlen pre + Z.of_nat k -> (k + 4 <= length w)%nat ->
  load32 m p = Some (word4 id (w !!! k) (w !!! (k + 1)%nat) (w !!! (k + 2)%nat) (w !!! (k + 3)%nat)).
Proof.
  intros -> -> Hk. rewrite <-(take_drop k w) at 1. pose proof (length_take_le w k ltac:(lia)) as Ht.
  assert (Hl : forall i, w !!! (k + i)%nat = drop k w !!! i) by (intros i; rewrite !list_lookup_total_alt, lookup_drop; done).
  rewrite <-(Nat.add_0_r k) at 4. rewrite !Hl. pose proof (length_drop w k) as Hd.
  destruct (drop k w) as [|b0 [|b1 [|b2 [|b3 l]]]]; cbn [length] in Hd; try lia.
  rewrite (load32_spec _ (pre ++ take k w) [b0; b1; b2; b3] (l ++ post)); [by rewrite le_dec_word4|by rewrite <-!app_assoc| |done].
  rewrite zlen_app. unfold zlen. lia.
Qed.

Lemma count_swar_step m pre w post p :
  bytes_ok w -> zlen w = 28 -> m = pre ++ w ++ post -> p = zlen pre ->
  (aux1 ← load32 m p; aux2 ← load32 m (p + 4); aux3 ← load32 m (p + 8); aux4 ← load32 m (p + 12);
   aux5 ← load32 m (p + 16); aux6 ← load32 m (p + 20); aux7 ← load32 m (p + 24);
   let b aux := swar_bytes (swar_fours aux) in
   let sum := add32 (add32 (add32 (add32 (add32 (add32 (b aux1) (b aux2)) (b aux3)) (b aux4)) (b aux5)) (b aux6)) (b aux7) in
   Some (u32 (sum * 0x01010101) >>> 24)) = Some (count_ones w).
Proof.
  intros Hb Hw Hm Hp. assert (Hl : length w = 28%nat) by (unfold zlen in Hw; lia).
  rewrite (load32_block m pre w post p 0), (load32_block m pre w post (p + 4) 4), (load32_block m pre w post (p + 8) 8),
    (load32_block m pre w post (p + 12) 12), (load32_block m pre w post (p + 16) 16), (load32_block m pre w post (p + 20) 20),
    (load32_block m pre w post (p + 24) 24) by (done || lia). sbind. cbv beta zeta.
  assert (Hi : forall i, (i < 28)%nat -> is_byte (w !!! i)).
  { intros i Hi. destruct (lookup_lt_is_Some_2 w i ltac:(lia)) as [x Hx]. rewrite (list_lookup_total_correct _ _ _ Hx). by eapply Forall_lookup_1. }
  rewrite !swar_bytes_ones by (apply Hi; lia). f_equal.
  etrans; [exact (sum7_bytes (fun i => ones_upto 8 (w !!! i)) (fun i => ones_range 8 (w !!! i)))|].
  clear -Hl. do 28 (destruct w as [|? w]; [discriminate|]). by destruct w.
Qed.

Lemma count_swar_spec fuel bs1 bs2 bits :
  bytes_ok bs2 -> (length bs2 <= fuel)%nat -> 0 <= bits -> bits + 8 * zlen bs2 < 2 ^ 63 ->
  exists u v, bs2 = u ++ v
    /\ count_swar (a ++ (bs1 ++ bs2) ++ c) fuel (zlen (a ++ bs1)) (zlen bs2) bits
       = Some (zlen (a ++ bs1 ++ u), zlen v, bits + count_ones u).
Proof.
  revert bs1 bs2 bits. induction fuel as [|fuel IH]; intros bs1 bs2 bits Hb Hf H0 Hs.
  - destruct bs2; [|cbn in Hf; lia]. exists [], []. rewrite !app_nil_r, Z.add_0_r. done.
  - cbn [count_swar]. destruct (Z.geb_spec (zlen bs2) 28) as [Hl|Hl].
    2:{ exists [], bs2. by rewrite app_nil_r, Z.add_0_r. }
    destruct (take_block bs2 28) as (w & v & -> & E); [lia..|]. apply Forall_app in Hb as [Bw Bv].
    pose proof (count_ones_range w). pose proof (zlen_nonneg v). rewrite !zlen_app in Hs.
    destruct (IH (bs1 ++ w) v (bits + count_ones w)) as (u & v' & -> & Hr); [done| |lia..|].
    { unfold zlen in *. rewrite length_app in Hf. lia. }
    exists (w ++ u), v'. split; [by rewrite <-app_assoc|].
    set (m := a ++ (bs1 ++ w ++ u ++ v') ++ c). set (p := zlen (a ++ bs1)).
    pose proof (count_swar_step m (a ++ bs1) w ((u ++ v') ++ c) p Bw E ltac:(unfold m; by rewrite <-!app_assoc) eq_refl) as Hstep.
    destruct (load32 m p), (load32 m (p + 4)), (load32 m (p + 8)), (load32 m (p + 12)), (load32 m (p + 16)), (load32 m (p + 20)),
      (load32 m (p + 24)); try discriminate Hstep.
    cbn [mbind option_bind] in Hstep |- *. apply (inj Some) in Hstep. cbv beta zeta in Hstep |- *. subst m p.
    rewrite Hstep, swrap_small by (unfold in_signed; lia).
    etrans; [|etrans; [exact Hr|]].
    + f_equal; [by rewrite <-!app_assoc|rewrite ?zlen_app; lia..].
    + rewrite count_ones_app, <-!app_assoc. do 2 f_equal. lia.
Qed.

(** Counting by words or by bytes gives the number of the bits that are set. *)
Lemma redisPopcount_spec use_popcnt s bs :
  bytes_ok bs -> 8 * zlen bs < 2 ^ 63 -> s = zlen a ->
  redisPopcount (a ++ bs ++ c) base use_popcnt s (zlen bs) = Some (count_ones bs).
Proof.
  intros Hb Hs ->. unfold redisPopcount. pose proof (zlen_nonneg bs) as Hn.
  destruct (count_unaligned_spec (S (Z.to_nat (zlen bs))) (if use_popcnt then 7 else 3) [] bs 0) as (u & v & -> & Hr); [done|unfold zlen; lia|lia..|].
  rewrite app_nil_r in Hr. cbn [app] in Hr. rewrite Hr. sbind. apply Forall_app in Hb as [Bu Bv].
  rewrite zlen_app in *. pose proof (count_ones_range u). pose proof (zlen_nonneg u). pose proof (zlen_nonneg v).
  set (fuel := S (Z.to_nat (zlen u + zlen v))). assert (Hf : (length v <= fuel)%nat) by (unfold fuel, zlen; lia).
  destruct use_popcnt.
  - destruct (count_words_spec fuel u v 0 0 0 0) as (w & x & d0 & d1 & d2 & d3 & -> & -> & D0 & D1 & D2 & D3 & Hd); [done..|lia|]. sbind.
    apply Forall_app in Bv as [Bw Bx]. rewrite zlen_app in *. pose proof (count_ones_range w). pose proof (zlen_nonneg x). rewrite length_app in Hf.
    rewrite (wrap_small 64 (d0 + d1)), (wrap_small 64 (d0 + d1 + d2)), (wrap_small 64 (d0 + d1 + d2 + d3)), swrap_small by (unfold in_signed; lia).
    rewrite (app_assoc u), <-zlen_app, count_bytes_spec by (done || lia).
    rewrite !count_ones_app. f_equal. lia.
  - destruct (count_swar_spec fuel u v (0 + count_ones u)) as (w & x & -> & ->); [done..|lia|lia|]. sbind.
    apply Forall_app in Bv as [Bw Bx]. rewrite zlen_app in *. pose proof (count_ones_range w). pose proof (zlen_nonneg x). rewrite length_app in Hf.
    rewrite (app_assoc u), <-zlen_app, count_bytes_spec by (done || lia). rewrite !count_ones_app. f_equal; lia.
Qed.
End loops.

(** ** The bits of a string *)

Lemma bit_of_app_r u v i : 0 <= i -> bit_of (u ++ v) (8 * zlen u + i) = bit_of v i.
Proof.
  intros Hi. unfold bit_of. rewrite Z.mul_comm, Z.add_comm, Z.div_add, Z.mod_add by lia.
  rewrite lookup_app_r by (unfold zlen; div_lia). do 3 f_equal. unfold zlen. div_lia.
Qed.

Lemma bit_of_app_l u v i : 0 <= i < 8 * zlen u -> bit_of (u ++ v) i = bit_of u i.
Proof. intros Hi. unfold bit_of. rewrite lookup_app_l; [done|]. unfold zlen in Hi. div_lia. Qed.

Lemma bit_of_cons b v i : 0 <= i -> bit_of (b :: v) i = if i <? 8 then Z.testbit b (7 - i) else bit_of v (i - 8).
Proof.
  intros Hi. destruct (Z.ltb_spec i 8).
  - unfold bit_of. rewrite Z.div_small, Z.mod_small by lia. done.
  - rewrite <-(bit_of_app_r [b] v) by lia. f_equal. rewrite zlen_cons, zlen_nil. lia.
Qed.

Lemma bit_of_nil i : bit_of [] i = false.
Proof. unfold bit_of. rewrite lookup_nil. apply Z.testbit_0_l. Qed.

Lemma bit_of_past v i : 8 * zlen v <= i -> bit_of v i = false.
Proof.
  intros Hi. unfold bit_of. pose proof (zlen_nonneg v). rewrite lookup_ge_None_2 by (unfold zlen in Hi; div_lia). apply Z.testbit_0_l.
Qed.

(** The sum over the bytes is the number of positions. *)
Lemma count_ones_bits bs :
  bytes_ok bs -> count_ones bs = Z.of_nat (length (filter (fun i => bit_of bs (Z.of_nat i) = true) (seq 0 (8 * length bs)))).
Proof.
  induction 1 as [|b bs Hb _ IH]; [done|]. cbn [length]. replace (8 * S (length bs))%nat with (8 + 8 * length bs)%nat by lia.
  rewrite seq_app, filter_app, length_app, Nat2Z.inj_add, count_ones_cons, IH. f_equal.
  - clear IH. transitivity (Z.of_nat (length (filter (fun i => Z.testbit b (7 - Z.of_nat i) = true) (seq 0 8)))); [by_bytes b Hb|].
    reflexivity.
  - f_equal. rewrite (filter_shift (fun i => bit_of (b :: bs) (Z.of_nat i)) (0 + 8)). f_equal. apply list_filter_iff. intros i.
    rewrite bit_of_cons by lia. destruct (Z.ltb_spec (Z.of_nat (0 + 8 + i)) 8); [lia|].
    by replace (Z.of_nat (0 + 8 + i) - 8) with (Z.of_nat i) by lia.
Qed.

(** ** Searching *)

(** The bytes that have no bit of a value, [skipval] in the code. *)
Definition skipbyte (bit : Z) : Z := if negb (bit =? 0) then 0 else UCHAR_MAX.

Lemma skip_bits bit u i :
  bit = 0 \/ bit = 1 -> Forall (fun b => b = skipbyte bit) u -> 0 <= i < 8 * zlen u -> bit_of u i = negb (bit =? 1).
Proof.
  intros Hbit Hu. revert i. induction Hu as [|b u -> _ IH]; intros i Hi; [change (zlen []) with 0 in Hi; lia|]. rewrite zlen_cons in Hi.
  rewrite bit_of_cons by lia. destruct (Z.ltb_spec i 8); [|apply IH; lia].
  destruct Hbit as [-> | ->]; cbn [skipbyte Z.eqb negb]; [|apply Z.testbit_0_l].
  assert (i = 0 \/ i = 1 \/ i = 2 \/ i = 3 \/ i = 4 \/ i = 5 \/ i = 6 \/ i = 7) as Hc by lia.
  by destruct Hc as [->|[->|[->|[->|[->|[->|[-> | ->]]]]]]].
Qed.

(** A byte all of whose bits have one value. *)
Lemma byte_bits bit b :
  bit = 0 \/ bit = 1 -> is_byte b -> (forall i, 0 <= i < 8 -> Z.testbit b (7 - i) = negb (bit =? 1)) -> b = skipbyte bit.
Proof.
  intros Hbit Hb Hi. apply Z.bits_inj'. intros n Hn. destruct (Z.ltb_spec n 8).
  - replace n with (7 - (7 - n)) by lia. rewrite Hi by lia.
    rewrite <-(skip_bits bit [skipbyte bit] (7 - n)); [|done|by apply Forall_singleton|unfold zlen; cbn [length]; lia].
    rewrite bit_of_cons by lia. destruct (Z.ltb_spec (7 - n) 8); [done|lia].
  - assert (Hx : forall x, is_byte x -> Z.testbit x n = false).
    { intros x Hx. pose proof (testbit_byte x 0 n Hx Hn) as E. rewrite Z.mul_0_r, Z.add_0_r in E. rewrite E.
      destruct (Z.ltb_spec n 8); [lia|]. apply Z.testbit_0_l. }
    rewrite !Hx; [done| |done]. by destruct Hbit as [-> | ->].
Qed.

Lemma skip_word bit w : bit = 0 \/ bit = 1 -> bytes_ok w -> zlen w = 8 ->
  le_dec w = (if negb (bit =? 0) then 0 else ULONG_MAX) <-> Forall (fun b => b = skipbyte bit) w.
Proof.
  intros Hbit Hb Hw. unfold zlen in Hw. do 8 (destruct w as [|? w]; [cbn in Hw; lia|]). destruct w; [|cbn in Hw; lia].
  repeat (apply Forall_cons in Hb as [? Hb]). unfold is_byte in *. rewrite !Forall_cons, Forall_nil. cbn [le_dec].
  destruct Hbit as [-> | ->]; cbn [skipbyte Z.eqb negb]; unfold ULONG_MAX, UCHAR_MAX; split; lia.
Qed.

Section search.
Context (base : Z) (a c : list Z) (bit : Z) (Hbit : bit = 0 \/ bit = 1).
Abbreviation skipped := (Forall (fun b => b = skipbyte bit)).

Lemma skip_unaligned_spec fuel bs1 bs2 pos :
  (length bs2 <= fuel)%nat -> 0 <= pos -> pos + 8 * zlen bs2 < 2 ^ 63 ->
  exists u v found, bs2 = u ++ v /\ skipped u /\ (found = true -> exists b w, v = b :: w /\ b <> skipbyte bit)
    /\ skip_unaligned (a ++ (bs1 ++ bs2) ++ c) base fuel (skipbyte bit) (zlen (a ++ bs1)) (zlen bs2) pos
       = Some (zlen (a ++ bs1 ++ u), zlen v, pos + 8 * zlen u, found).
Proof.
  revert fuel bs1 pos. induction bs2 as [|b bs2 IH]; intros fuel bs1 pos Hf H0 Hs.
  - exists [], [], false. split_and!; try done. rewrite !app_nil_r, Z.add_0_r. by destruct fuel; cbn; rewrite andb_false_r.
  - rewrite zlen_cons in Hs. pose proof (zlen_nonneg bs2). destruct fuel as [|fuel]; [cbn in Hf; lia|]. cbn [skip_unaligned].
    destruct (negb _ && _).
    + rewrite next_byte. sbind. destruct (Z.eqb_spec b (skipbyte bit)) as [Hb|Hb]; cbn [negb].
      * rewrite swrap_small by (unfold in_signed; lia). rewrite zlen_cons, (zlen_snoc1 a bs1 b). replace (1 + zlen bs2 - 1) with (zlen bs2) by lia.
        replace (bs1 ++ b :: bs2) with ((bs1 ++ [b]) ++ bs2) by (by rewrite <-app_assoc).
        destruct (IH fuel (bs1 ++ [b]) (pos + 8)) as (u & v & f & -> & Hu & Hv & ->); try lia; [cbn in Hf; lia|].
        exists (b :: u), v, f. split_and!; [done|by constructor|done|]. rewrite zlen_cons, <-app_assoc. do 3 f_equal. lia.
      * exists [], (b :: bs2), true. split_and!; [done..|by exists b, bs2|]. by rewrite app_nil_r, Z.add_0_r.
    + exists [], (b :: bs2), false. split_and!; [done..|]. by rewrite app_nil_r, Z.add_0_r.
Qed.

(** What is left when the loops stop: a bit of the value is in the next word, if
    there is a whole word. *)
Lemma skip_words_spec fuel bs1 bs2 pos :
  bytes_ok bs2 -> (length bs2 <= fuel)%nat -> 0 <= pos -> pos + 8 * zlen bs2 < 2 ^ 63 ->
  exists u v, bs2 = u ++ v /\ skipped u /\ (8 <= zlen v -> ~ skipped (take 8 v))
    /\ skip_words (a ++ (bs1 ++ bs2) ++ c) fuel (if negb (bit =? 0) then 0 else ULONG_MAX) (zlen (a ++ bs1)) (zlen bs2) pos
       = Some (zlen (a ++ bs1 ++ u), zlen v, pos + 8 * zlen u).
Proof.
  revert bs1 bs2 pos. induction fuel as [|fuel IH]; intros bs1 bs2 pos Hb Hf H0 Hs.
  - destruct bs2; [|cbn in Hf; lia]. exists [], []. rewrite !app_nil_r, Z.add_0_r. split_and!; try done; cbn; lia.
  - cbn [skip_words]. destruct (Z.geb_spec (zlen bs2) 8) as [Hl|Hl].
    2:{ exists [], bs2. rewrite app_nil_r, Z.add_0_r. split_and!; [done..|lia|done]. }
    destruct (take_block bs2 8) as (w & v & -> & E); [lia..|]. pose proof (zlen_nonneg v).
    assert (Hw : length w = 8%nat) by (unfold zlen in E; lia).
    rewrite (load64_spec _ (a ++ bs1) w (v ++ c) (zlen (a ++ bs1))) by (done || by rewrite <-!app_assoc). sbind.
    pose proof Hb as [Bw Bv]%Forall_app. pose proof (skip_word bit w Hbit Bw E) as Hskip.
    destruct (Z.eqb_spec (le_dec w) (if negb (bit =? 0) then 0 else ULONG_MAX)) as [He|He]; cbn [negb].
    + rewrite zlen_app in Hs. destruct (IH (bs1 ++ w) v (pos + 64)) as (u & v' & -> & Hu & Hv & Hr); [done| |lia..|].
      { rewrite length_app in Hf. lia. }
      exists (w ++ u), v'. split_and!; [by rewrite <-app_assoc| |done|]; [apply Forall_app; split; [by apply Hskip|done]|].
      rewrite swrap_small by (unfold in_signed; lia). etrans; [|etrans; [exact Hr|]].
      * f_equal; [by rewrite <-!app_assoc|rewrite ?zlen_app; lia..].
      * rewrite <-!app_assoc, (zlen_app w u). do 2 f_equal. lia.
    + exists [], (w ++ v). rewrite app_nil_r, Z.add_0_r. split_and!; try done. intros _. rewrite take_app_length' by done. by rewrite <-Hskip.
Qed.

(** The word that is searched has the next 64 bits, with zeros past the end. *)
Lemma load_word_spec j bs1 bs2 word :
  bytes_ok bs2 -> 0 <= word -> (word + 1) * 2 ^ (8 * Z.of_nat j) <= 2 ^ 64 ->
  exists r, load_word (a ++ (bs1 ++ bs2) ++ c) j (zlen (a ++ bs1)) (zlen bs2) word = Some r
    /\ forall i, 0 <= i -> Z.testbit r i = if i <? 8 * Z.of_nat j then bit_of bs2 (8 * Z.of_nat j - 1 - i) else Z.testbit word (i - 8 * Z.of_nat j).
Proof.
  revert bs1 bs2 word. induction j as [|j IH]; intros bs1 bs2 word Hb H0 Hs.
  - exists word. split; [done|]. intros i Hi. destruct (Z.ltb_spec i (8 * Z.of_nat 0)); [lia|]. f_equal. lia.
  - cbn [load_word]. replace (8 * Z.of_nat (S j)) with (8 * Z.of_nat j + 8) in * by lia. rewrite Z.pow_add_r in Hs by lia.
    pose proof (Z.pow_pos_nonneg 2 (8 * Z.of_nat j) ltac:(lia) ltac:(lia)) as Hp.
    assert (Hw : 0 <= word * 256 < 2 ^ 64) by nia. rewrite Z.shiftl_mul_pow2 by lia. change (2 ^ 8) with 256 in *. rewrite wrap_small by lia.
    destruct bs2 as [|b bs2]; cbn [zlen].
    + change (zlen [] =? 0) with true. cbn [negb]. destruct (IH bs1 [] (word * 256)) as (r & -> & Hr); [done|lia|nia|].
      exists r. split; [done|]. intros i Hi. rewrite Hr by done. pose proof (testbit_byte 0 word (i - 8 * Z.of_nat j) ltac:(done)) as Ht.
      replace (0 + 256 * word) with (word * 256) in Ht by lia. rewrite !bit_of_nil.
      destruct (Z.ltb_spec i (8 * Z.of_nat j)), (Z.ltb_spec i (8 * Z.of_nat j + 8)); try lia; rewrite Ht by lia;
        destruct (Z.ltb_spec (i - 8 * Z.of_nat j) 8); try lia; [apply Z.testbit_0_l|f_equal; lia].
    + apply Forall_cons in Hb as [Hb Hbs]. pose proof (zlen_nonneg bs2). rewrite zlen_cons. destruct (Z.eqb_spec (1 + zlen bs2) 0); [lia|]. cbn [negb].
      rewrite next_byte. sbind. replace (word * 256 ||| b) with (b + 256 * word).
      2:{ rewrite Z.lor_comm. change (word * 256) with (word * 2 ^ 8). rewrite <-Z.shiftl_mul_pow2 by lia. rewrite lor_shiftl by (unfold is_byte in Hb; lia). lia. }
      rewrite (zlen_snoc1 a bs1 b). replace (1 + zlen bs2 - 1) with (zlen bs2) by lia.
      replace (bs1 ++ b :: bs2) with ((bs1 ++ [b]) ++ bs2) by (by rewrite <-app_assoc).
      destruct (IH (bs1 ++ [b]) bs2 (b + 256 * word)) as (r & -> & Hr); [done|unfold is_byte in Hb; lia| |].
      { unfold is_byte in Hb. nia. }
      exists r. split; [done|]. intros i Hi. rewrite Hr by done.
      destruct (Z.ltb_spec i (8 * Z.of_nat j)), (Z.ltb_spec i (8 * Z.of_nat j + 8)); try lia;
        rewrite ?bit_of_cons, ?testbit_byte by (done || lia); zcase; f_equal; lia.
Qed.

Lemma land_pow2 k v : 0 <= k -> Z.land (2 ^ k) v = if Z.testbit v k then 2 ^ k else 0.
Proof.
  intros Hk. apply Z.bits_inj'. intros n Hn. rewrite Z.land_spec, Z.pow2_bits_eqb by done.
  destruct (Z.eqb_spec k n) as [<-|Hne]; cbn [andb].
  - destruct (Z.testbit v k); [by rewrite Z.pow2_bits_true|by rewrite Z.testbit_0_l].
  - destruct (Z.testbit v k); [by rewrite Z.pow2_bits_false|by rewrite Z.testbit_0_l].
Qed.

Lemma not_eq_negb (x y : bool) : x <> y -> x = negb y.
Proof. by destruct x, y. Qed.

Lemma scan_test k v : 0 <= k ->
  ((if negb ((2 ^ k &&& v) =? 0) then 1 else 0) =? bit) = Bool.eqb (Z.testbit v k) (bit =? 1).
Proof.
  intros Hk. rewrite land_pow2 by done. pose proof (Z.pow_pos_nonneg 2 k ltac:(lia) Hk).
  destruct (Z.testbit v k); [destruct (Z.eqb_spec (2 ^ k) 0); [lia|]|]; by destruct Hbit as [-> | ->].
Qed.

Lemma scan_word_step fuel k word pos : 0 <= k ->
  scan_word (S fuel) (2 ^ k) word bit pos
  = if Bool.eqb (Z.testbit word k) (bit =? 1) then Some pos else scan_word fuel (2 ^ k >>> 1) word bit (i64 (pos + 1)).
Proof.
  intros Hk. cbn [scan_word]. rewrite scan_test by done. pose proof (Z.pow_pos_nonneg 2 k ltac:(lia) Hk). by destruct (Z.eqb_spec (2 ^ k) 0); [lia|].
Qed.

Lemma scan_word_spec k fuel word pos :
  (k < fuel)%nat -> 0 <= pos -> pos + Z.of_nat k + 1 < 2 ^ 63 ->
  (exists i, 0 <= i <= Z.of_nat k /\ scan_word fuel (2 ^ Z.of_nat k) word bit pos = Some (pos + (Z.of_nat k - i))
     /\ Z.testbit word i = (bit =? 1) /\ forall j, i < j <= Z.of_nat k -> Z.testbit word j = negb (bit =? 1))
  \/ forall j, 0 <= j <= Z.of_nat k -> Z.testbit word j = negb (bit =? 1).
Proof.
  revert fuel pos. induction k as [|k IH]; intros fuel pos Hf H0 Hs; (destruct fuel as [|fuel]; [lia|]); rewrite scan_word_step by lia;
    match goal with |- context [Bool.eqb ?x ?y] => destruct (Bool.eqb_spec x y) as [E|E%not_eq_negb] end.
  1,3: left; eexists; split_and!; [..|exact E|]; [lia..|f_equal; lia|lia].
  - right. intros j Hj. by replace j with 0 by lia.
  - rewrite Nat2Z.inj_succ in *. rewrite Z.pow_succ_r, Z.shiftr_div_pow2, Z.mul_comm, Z.div_mul, swrap_small by (unfold in_signed; lia).
    destruct (IH fuel (pos + 1)) as [(i & Hi & -> & Ei & Hj)|Hj]; [lia..| |].
    + left. exists i. split_and!; [lia..|f_equal; lia|done|]. intros j Hj'. destruct (Z.eq_dec j (Z.succ (Z.of_nat k))) as [->|]; [done|apply Hj; lia].
    + right. intros j Hj'. destruct (Z.eq_dec j (Z.succ (Z.of_nat k))) as [->|]; [done|apply Hj; lia].
Qed.

(** The first bit of the value; there is always one when the value is 0. *)
Definition first_bit (bs : list Z) (r : Z) : Prop :=
  0 <= r /\ bit_of bs r = (bit =? 1) /\ forall i, 0 <= i < r -> bit_of bs i = negb (bit =? 1).

Lemma no_bit v :
  bytes_ok v -> (8 <= zlen v -> ~ skipped (take 8 v)) -> (forall i, 0 <= i < 64 -> bit_of v i = negb (bit =? 1)) ->
  bit = 1 /\ forall i, 0 <= i -> bit_of v i = false.
Proof.
  intros Hb Hv Hi. destruct (Z.le_gt_cases 8 (zlen v)) as [Hl|Hl].
  - destruct (Hv Hl). apply Forall_lookup_2. intros k b [Hk Hlt]%lookup_take_Some. apply byte_bits; [done|by eapply Forall_lookup_1|].
    intros i Hib. rewrite <-(Hi (8 * Z.of_nat k + i)) by lia. unfold bit_of.
    replace (Z.to_nat ((8 * Z.of_nat k + i) / 8)) with k by div_lia. replace ((8 * Z.of_nat k + i) mod 8) with i by div_lia. by rewrite Hk.
  - assert (H1 : bit = 1).
    { specialize (Hi 63 ltac:(lia)). rewrite bit_of_past in Hi by lia. destruct Hbit as [Hz|]; [|done]. by rewrite Hz in Hi. }
    split; [done|]. intros i H0. destruct (Z.lt_ge_cases i 64); [rewrite Hi by lia; by rewrite H1|]. apply bit_of_past. lia.
Qed.

Lemma first_bit_skipped u v r : skipped u -> first_bit v r -> first_bit (u ++ v) (8 * zlen u + r).
Proof.
  intros Hu (H0 & Hr & Hi). pose proof (zlen_nonneg u). split_and!; [lia|by rewrite bit_of_app_r|].
  intros i Hir. destruct (Z.lt_ge_cases i (8 * zlen u)).
  - rewrite bit_of_app_l by lia. apply skip_bits; [done..|lia].
  - replace i with (8 * zlen u + (i - 8 * zlen u)) by lia. rewrite bit_of_app_r by lia. apply Hi. lia.
Qed.

(** The last word: the bit is in it, or there is none. *)
Lemma last_word bs1 v pos :
  bytes_ok v -> (8 <= zlen v -> ~ skipped (take 8 v)) -> 0 <= pos -> pos + 64 < 2 ^ 63 ->
  exists r, (word ← load_word (a ++ (bs1 ++ v) ++ c) 8 (zlen (a ++ bs1)) (zlen v) 0;
      if (bit =? 1) && (word =? 0) then Some (-1)
      else scan_word 65 (u64 (Z.lnot (ULONG_MAX >>> 1))) word bit pos) = Some r
    /\ ((r = -1 /\ bit = 1 /\ forall i, 0 <= i -> bit_of v i = false) \/ (0 <= r /\ first_bit v (r - pos))).
Proof.
  intros Hb Hv H0 Hs. destruct (load_word_spec 8 bs1 v 0 Hb) as (word & -> & Hw); [lia|done|]. sbind.
  change (8 * Z.of_nat 8) with 64 in Hw. change (u64 (Z.lnot (ULONG_MAX >>> 1))) with (2 ^ Z.of_nat 63).
  assert (Hbits : forall i, 0 <= i < 64 -> bit_of v i = Z.testbit word (63 - i)).
  { intros i Hi. rewrite Hw by lia. destruct (Z.ltb_spec (63 - i) 64); [f_equal; lia|lia]. }
  destruct ((bit =? 1) && (word =? 0)) eqn:E.
  - apply andb_true_iff in E as [H1%Z.eqb_eq ->%Z.eqb_eq]. exists (-1). split; [done|]. left. split; [done|].
    apply no_bit; [done..|]. intros i Hi. by rewrite Hbits, Z.testbit_0_l, H1.
  - destruct (scan_word_spec 63 65 word pos) as [(i & Hi & -> & Ei & Hj)|Hj]; [lia..| |].
    + eexists. split; [done|]. right. split; [lia|]. replace (pos + (Z.of_nat 63 - i) - pos) with (63 - i) by lia. split_and!; [lia| |].
      * rewrite Hbits by lia. by replace (63 - (63 - i)) with i by lia.
      * intros j Hlt. rewrite Hbits by lia. apply Hj. lia.
    + destruct (no_bit v Hb Hv) as [H1 Hz]; [intros i Hi; rewrite Hbits by lia; apply Hj; lia|].
      assert (word = 0) as ->; [|by rewrite H1 in E].
      apply Z.bits_inj'. intros n Hn. rewrite Hw, !Z.testbit_0_l by done. destruct (Z.ltb_spec n 64); [apply Hz; lia|done].
Qed.

Lemma redisBitpos_spec s bs :
  bytes_ok bs -> 8 * zlen bs + 64 < 2 ^ 63 -> s = zlen a ->
  exists r, redisBitpos (a ++ bs ++ c) base s (zlen bs) bit = Some r
    /\ ((r = -1 /\ bit = 1 /\ forall i, 0 <= i -> bit_of bs i = false) \/ (0 <= r /\ first_bit bs r)).
Proof.
  intros Hb Hs ->. unfold redisBitpos. fold (skipbyte bit). set (fuel := S (Z.to_nat (zlen bs))).
  destruct (skip_unaligned_spec fuel [] bs 0) as (u & v & found & -> & Hu & Hv & Hr); [unfold fuel, zlen; lia|lia..|].
  rewrite app_nil_r in Hr. cbn [app] in Hr. rewrite Hr. sbind. apply Forall_app in Hb as [Bu Bv]. rewrite zlen_app in Hs.
  pose proof (zlen_nonneg u). pose proof (zlen_nonneg v).
  assert (Hrest : exists u2 v2, v = u2 ++ v2 /\ skipped u2 /\ (8 <= zlen v2 -> ~ skipped (take 8 v2))
    /\ (if found then Some (zlen (a ++ u), zlen v, 0 + 8 * zlen u)
        else skip_words (a ++ (u ++ v) ++ c) fuel (if negb (bit =? 0) then 0 else ULONG_MAX) (zlen (a ++ u)) (zlen v) (0 + 8 * zlen u))
       = Some (zlen (a ++ u ++ u2), zlen v2, 8 * zlen u + 8 * zlen u2)).
  { destruct found.
    - exists [], v. rewrite app_nil_r, Z.add_0_r. split_and!; try done. intros _. destruct (Hv eq_refl) as (b & w & -> & Hne).
      intros [? _]%Forall_cons. done.
    - apply skip_words_spec; [done|unfold fuel, zlen; rewrite length_app; lia|lia..]. }
  destruct Hrest as (u2 & v2 & -> & Hu2 & Hv2 & ->). sbind. apply Forall_app in Bv as [_ Bv2]. rewrite zlen_app in Hs.
  pose proof (zlen_nonneg u2). pose proof (zlen_nonneg v2).
  destruct (last_word (u ++ u2) v2 (8 * zlen u + 8 * zlen u2) Bv2 Hv2) as (r & Hr2 & Hcase); [lia..|].
  exists r. split; [by rewrite <-!app_assoc in Hr2 |- *|]. rewrite app_assoc.
  assert (Huu : skipped (u ++ u2)) by (by apply Forall_app). pose proof (zlen_app u u2) as Hz.
  destruct Hcase as [(Hr1 & Hb1 & Hn)|(Hr1 & Hf)].
  - left. split_and!; [done..|]. intros i Hi. destruct (Z.lt_ge_cases i (8 * zlen (u ++ u2))).
    + rewrite bit_of_app_l, (skip_bits bit) by (done || lia). by rewrite Hb1.
    + replace i with (8 * zlen (u ++ u2) + (i - 8 * zlen (u ++ u2))) by lia. rewrite bit_of_app_r by lia. apply Hn. lia.
  - right. split; [done|]. replace r with (8 * zlen (u ++ u2) + (r - (8 * zlen u + 8 * zlen u2))) by lia. by apply first_bit_skipped.
Qed.
End search.
