(* ===== verification/BitfieldSpec.v ===== *)
(** * Integers of any width in a string: what the functions compute

    A field is the number that its bits are, the first bit the most significant;
    writing one changes the bits of the field and no other; the overflow checks
    tell whether a sum is in the range of the type. *)

From stdpp Require Import base list numbers.
From S2P Require Import Prelude Bits BitsSpec.
Local Open Scope cint_scope.

Lemma bit_of_mget p i : 0 <= i -> bit_of p i = Z.testbit (default 0 (mget p (i / 8))) (7 - i mod 8).
Proof. intros Hi. unfold bit_of. rewrite mget_lookup by (apply Z.div_pos; lia). done. Qed.

(** ** Writing *)

Definition put_bit (b k v : Z) : Z := ((b &&& u64 (Z.lnot (1 <<< k))) ||| (v <<< k)) &&& 0xff.

Lemma put_bit_check b : is_byte b ->
  forallb (fun k => forallb (fun v => (0 <=? put_bit b k v) && (put_bit b k v <? 256) &&
    forallb (fun j => Bool.eqb (Z.testbit (put_bit b k v) j) (if j =? k then v =? 1 else Z.testbit b j)) (seqZ 0 8)) [0; 1]) (seqZ 0 8) = true.
Proof. intros Hb. by_bytes b Hb. Qed.

Lemma put_bit_spec b k v :
  is_byte b -> 0 <= k < 8 -> v = 0 \/ v = 1 ->
  is_byte (put_bit b k v) /\ forall j, 0 <= j < 8 -> Z.testbit (put_bit b k v) j = if j =? k then v =? 1 else Z.testbit b j.
Proof.
  intros Hb Hk Hv. pose proof (put_bit_check b Hb) as H. rewrite forallb_forall in H.
  specialize (H k (proj1 (list_elem_of_In _ _) (proj2 (elem_of_seqZ _ _ _) Hk))). rewrite forallb_forall in H.
  specialize (H v ltac:(destruct Hv as [-> | ->]; cbn; auto)). rewrite !andb_true_iff, forallb_forall in H. destruct H as [[H1 H2] H3].
  split; [unfold is_byte; lia|]. intros j Hj. apply Bool.eqb_prop, H3, list_elem_of_In, elem_of_seqZ. lia.
Qed.

(** One bit written. *)
Lemma write_bit p offset v :
  bytes_ok p -> 0 <= offset < 8 * zlen p -> v = 0 \/ v = 1 ->
  exists b q, mget p (offset >>> 3) = Some b /\ mwrite p (offset >>> 3) [put_bit b (7 - (offset &&& 0x7)) v] = Some q
    /\ bytes_ok q /\ zlen q = zlen p
    /\ forall i, 0 <= i -> bit_of q i = if i =? offset then v =? 1 else bit_of p i.
Proof.
  intros Hp Ho Hv. rewrite (land_mod offset 3 7), shiftr_div by (done || lia). change (2 ^ 3) with 8.
  assert (Hr : 0 <= offset / 8 < zlen p) by div_lia. pose proof (Z.mod_pos_bound offset 8 ltac:(lia)) as Hm.
  destruct (mget_in p (offset / 8) Hr) as [b Hb]. destruct (put_bit_spec b (7 - offset mod 8) v (mget_byte _ _ _ Hp Hb)) as [Hbyte Hbits]; [lia|done|].
  destruct (mwrite_byte p (offset / 8) (put_bit b (7 - offset mod 8) v) Hr) as (q & Hq & Hl & Hg).
  exists b, q. split_and!; [done..| |done|].
  - apply Forall_lookup_2. intros i x Hx. pose proof (Hg (Z.of_nat i)) as Hi. rewrite !mget_lookup, Nat2Z.id in Hi by lia.
    rewrite Hx in Hi. destruct (Z.of_nat i =? offset / 8); [by apply (inj Some) in Hi as ->|]. by eapply Forall_lookup_1.
  - intros i Hi. rewrite !bit_of_mget, Hg by lia. pose proof (Z.mod_pos_bound i 8 ltac:(lia)). pose proof (Z.div_mod i 8 ltac:(lia)).
    pose proof (Z.div_mod offset 8 ltac:(lia)). destruct (Z.eqb_spec (i / 8) (offset / 8)) as [E|E].
    + rewrite E, Hb. cbn [default]. rewrite Hbits by lia. repeat zcase; done || (f_equal; lia) || lia.
    + destruct (Z.eqb_spec i offset) as [->|]; [done|]. done.
Qed.

Lemma set_bits_spec n p offset value :
  bytes_ok p -> 0 <= offset -> offset + Z.of_nat n <= 8 * zlen p -> 8 * zlen p < 2 ^ 64 ->
  exists q, set_bits n p offset value = Some q /\ bytes_ok q /\ zlen q = zlen p
    /\ forall i, 0 <= i -> bit_of q i = if (offset <=? i) && (i <? offset + Z.of_nat n)
                                        then Z.testbit value (offset + Z.of_nat n - 1 - i) else bit_of p i.
Proof.
  revert p offset. induction n as [|n IH]; intros p offset Hp H0 Hs H64.
  - exists p. split_and!; try done. intros i Hi. zcase; done.
  - rewrite Nat2Z.inj_succ in *. cbn [set_bits].
    set (v := if negb ((value &&& (1 <<< Z.of_nat n)) =? 0) then 1 else 0).
    assert (Hv : (v = 0 \/ v = 1) /\ (v =? 1) = Z.testbit value (Z.of_nat n)).
    { unfold v. rewrite Z.shiftl_1_l, Z.land_comm, land_pow2 by lia. pose proof (Z.pow_pos_nonneg 2 (Z.of_nat n) ltac:(lia) ltac:(lia)).
      destruct (Z.testbit value _); [destruct (Z.eqb_spec (2 ^ Z.of_nat n) 0); [lia|]|]; cbn; auto. }
    destruct Hv as [Hv Hv1].
    destruct (write_bit p offset v) as (b & q & -> & Hq & Bq & Lq & Gq); [done|lia|done|]. sbind. fold (put_bit b (7 - (offset &&& 7)) v). rewrite Hq. sbind.
    rewrite wrap_small by lia. destruct (IH q (offset + 1)) as (r & -> & Br & Lr & Gr); [done|lia..|].
    exists r. split_and!; [done..|lia|]. intros i Hi. rewrite Gr, Gq, Hv1 by done.
    destruct (Z.leb_spec (offset + 1) i), (Z.ltb_spec i (offset + 1 + Z.of_nat n)), (Z.eqb_spec i offset), (Z.leb_spec offset i),
      (Z.ltb_spec i (offset + Z.succ (Z.of_nat n))); try lia; cbn [andb]; try done; f_equal; lia.
Qed.

(** ** Reading *)

(** The number that [n] bits from a position are. *)
Fixpoint field (n : nat) (p : list Z) (offset : Z) : Z :=
  match n with
  | O => 0
  | S n => Z.b2z (bit_of p offset) * 2 ^ Z.of_nat n + field n p (offset + 1)
  end.

Lemma field_range n p offset : 0 <= field n p offset < 2 ^ Z.of_nat n.
Proof.
  revert offset. induction n as [|n IH]; intros offset; [cbn; lia|]. cbn [field]. specialize (IH (offset + 1)).
  rewrite Nat2Z.inj_succ, Z.pow_succ_r by lia. destruct (bit_of p offset); cbn [Z.b2z]; lia.
Qed.

Lemma field_ext n p q offset offset' :
  (forall k, 0 <= k < Z.of_nat n -> bit_of p (offset + k) = bit_of q (offset' + k)) -> field n p offset = field n q offset'.
Proof.
  revert offset offset'. induction n as [|n IH]; intros offset offset' H; [done|]. cbn [field].
  pose proof (H 0 ltac:(lia)) as H0. rewrite !Z.add_0_r in H0. rewrite H0. f_equal. apply IH. intros k Hk.
  rewrite <-!Z.add_assoc. apply H. lia.
Qed.

Lemma field_value n p offset v :
  (forall k, 0 <= k < Z.of_nat n -> bit_of p (offset + k) = Z.testbit v (Z.of_nat n - 1 - k)) -> field n p offset = v mod 2 ^ Z.of_nat n.
Proof.
  revert offset. induction n as [|n IH]; intros offset H; [cbn; by rewrite Z.mod_1_r|]. cbn [field]. rewrite Nat2Z.inj_succ in *.
  pose proof (H 0 ltac:(lia)) as H0. rewrite Z.add_0_r in H0. rewrite H0. replace (Z.succ (Z.of_nat n) - 1 - 0) with (Z.of_nat n) by lia.
  rewrite IH.
  - rewrite Z.testbit_spec' by lia. pose proof (Z.pow_pos_nonneg 2 (Z.of_nat n) ltac:(lia) ltac:(lia)).
    rewrite Z.pow_succ_r, (Z.mul_comm 2), Z.rem_mul_r by lia. lia.
  - intros k Hk. rewrite <-Z.add_assoc, H by lia. f_equal. lia.
Qed.

Lemma read_bit p offset b : 0 <= offset -> mget p (offset >>> 3) = Some b -> (b >>> (7 - (offset &&& 0x7))) &&& 1 = Z.b2z (bit_of p offset).
Proof.
  intros H0 Hb. rewrite (land_mod offset 3 7), (shiftr_div offset) in * by (done || lia). change (2 ^ 3) with 8 in *.
  rewrite bit_of_mget, Hb by done. cbn [default]. rewrite (land_mod _ 1 1) by (done || lia). rewrite Z.testbit_spec', shiftr_div by (pose proof (Z.mod_pos_bound offset 8); lia). done.
Qed.

Lemma get_bits_spec n p offset value :
  0 <= offset -> offset + Z.of_nat n <= 8 * zlen p -> 8 * zlen p < 2 ^ 64 -> 0 <= value -> (value + 1) * 2 ^ Z.of_nat n <= 2 ^ 64 ->
  get_bits n p offset value = Some (value * 2 ^ Z.of_nat n + field n p offset).
Proof.
  revert offset value. induction n as [|n IH]; intros offset value H0 Hs H64 Hv Hm.
  - cbn. f_equal. lia.
  - rewrite Nat2Z.inj_succ, Z.pow_succ_r in * by lia. cbn [get_bits field].
    assert (Hr : 0 <= offset >>> 3 < zlen p) by (rewrite shiftr_div by lia; change (2 ^ 3) with 8; div_lia).
    destruct (mget_in p _ Hr) as [b Hb]. rewrite Hb. sbind. rewrite (read_bit p offset b) by done.
    pose proof (Z.pow_pos_nonneg 2 (Z.of_nat n) ltac:(lia) ltac:(lia)).
    rewrite (wrap_small 64 (value <<< 1)) by (rewrite Z.shiftl_mul_pow2 by lia; nia). rewrite wrap_small by lia.
    assert (Hbit : 0 <= Z.b2z (bit_of p offset) < 2) by (destruct (bit_of p offset); cbn; lia).
    rewrite Z.lor_comm, (lor_shiftl _ value 1) by lia. rewrite IH by (lia || nia). f_equal. lia.
Qed.

(** ** The functions *)

Lemma set_field p offset bits value :
  bytes_ok p -> 0 <= offset -> 0 <= bits -> offset + bits <= 8 * zlen p -> 8 * zlen p < 2 ^ 64 ->
  exists q, setUnsignedBitfield p offset bits value = Some q /\ bytes_ok q /\ zlen q = zlen p
    /\ field (Z.to_nat bits) q offset = value mod 2 ^ bits
    /\ forall i, 0 <= i -> ~ offset <= i < offset + bits -> bit_of q i = bit_of p i.
Proof.
  intros Hp H0 Hb Hs H64. destruct (set_bits_spec (Z.to_nat bits) p offset value) as (q & Hq & Bq & Lq & Gq); [done|lia..|].
  exists q. split_and!; [done..| |].
  - rewrite <-(Z2Nat.id bits) at 2 by done. apply field_value. intros k Hk. rewrite Gq by lia.
    destruct (Z.leb_spec offset (offset + k)), (Z.ltb_spec (offset + k) (offset + Z.of_nat (Z.to_nat bits))); try lia. cbn [andb]. f_equal. lia.
  - intros i Hi Hn. rewrite Gq by done. destruct (Z.leb_spec offset i), (Z.ltb_spec i (offset + Z.of_nat (Z.to_nat bits))); try lia; done.
Qed.

Lemma get_field p offset bits :
  0 <= offset -> 0 <= bits <= 64 -> offset + bits <= 8 * zlen p -> 8 * zlen p < 2 ^ 64 ->
  getUnsignedBitfield p offset bits = Some (field (Z.to_nat bits) p offset).
Proof.
  intros H0 Hb Hs H64. unfold getUnsignedBitfield. rewrite get_bits_spec; [f_equal; lia|lia..|].
  rewrite Z2Nat.id by lia. rewrite Z.mul_1_l. apply Z.pow_le_mono_r; lia.
Qed.

(** Bits above those of a field. *)
Lemma mask_shift bits : 0 <= bits < 64 -> u64 (ULONG_MAX <<< bits) = (2 ^ (64 - bits) - 1) <<< bits.
Proof.
  intros Hb. assert (E : 2 ^ 64 = 2 ^ (64 - bits) * 2 ^ bits) by (rewrite <-Z.pow_add_r by lia; f_equal; lia).
  rewrite !Z.shiftl_mul_pow2 by lia. unfold wrap, ULONG_MAX.
  replace ((2 ^ 64 - 1) * 2 ^ bits) with ((2 ^ (64 - bits) - 1) * 2 ^ bits + (2 ^ bits - 1) * 2 ^ 64) by (rewrite !E; ring).
  rewrite Z.mod_add by lia. apply Z.mod_small. rewrite E. pose proof (Z.pow_pos_nonneg 2 (64 - bits) ltac:(lia) ltac:(lia)). nia.
Qed.

Lemma lor_mask u bits : 0 <= bits < 64 -> 0 <= u < 2 ^ bits -> u ||| u64 (ULONG_MAX <<< bits) = u + (2 ^ 64 - 2 ^ bits).
Proof.
  intros Hb Hu. rewrite mask_shift, lor_shiftl by lia.
  replace (2 ^ 64) with (2 ^ (64 - bits) * 2 ^ bits) by (rewrite <-Z.pow_add_r by lia; f_equal; lia). ring.
Qed.

(** The sign bit copied to the bits above it. *)
Lemma sign_fill u bits : 1 <= bits < 64 -> 0 <= u < 2 ^ bits ->
  i64 (if negb ((u &&& (1 <<< (bits - 1))) =? 0) then u ||| u64 (ULONG_MAX <<< bits) else u) = swrap bits u.
Proof.
  intros Hb Hr. pose proof (pow2_split bits ltac:(lia)) as H2. pose proof (Z.pow_pos_nonneg 2 (bits - 1) ltac:(lia) ltac:(lia)).
  assert (2 ^ bits <= 2 ^ 63) by (apply Z.pow_le_mono_r; lia).
  rewrite Z.shiftl_1_l, Z.land_comm, land_pow2, Z.testbit_odd, shiftr_div by lia.
  destruct (Z.le_gt_cases (2 ^ (bits - 1)) u) as [Hn|Hn].
  - replace (u / 2 ^ (bits - 1)) with 1 by (apply (Z.div_unique_pos _ _ _ (u - 2 ^ (bits - 1))); lia). cbn [Z.odd].
    destruct (Z.eqb_spec (2 ^ (bits - 1)) 0); [lia|]. cbn [negb]. rewrite lor_mask by lia. unfold swrap.
    replace (u + (2 ^ 64 - 2 ^ bits) + 2 ^ (64 - 1)) with ((u - 2 ^ bits + 2 ^ 63) + 1 * 2 ^ 64) by (cbn; lia). rewrite Z.mod_add by lia.
    rewrite Z.mod_small by lia. replace (u + 2 ^ (bits - 1)) with ((u - 2 ^ (bits - 1)) + 1 * 2 ^ bits) by lia. rewrite Z.mod_add, Z.mod_small by lia.
    cbn. lia.
  - rewrite Z.div_small by lia. cbn [Z.odd negb Z.eqb]. rewrite !swrap_small; [done|lia|unfold in_signed; lia|lia|unfold in_signed; lia].
Qed.

Lemma get_signed_field p offset bits :
  0 <= offset -> 1 <= bits <= 64 -> offset + bits <= 8 * zlen p -> 8 * zlen p < 2 ^ 64 ->
  getSignedBitfield p offset bits = Some (swrap bits (field (Z.to_nat bits) p offset)).
Proof.
  intros H0 Hb Hs H64. unfold getSignedBitfield. rewrite get_field by (done || lia). sbind.
  pose proof (field_range (Z.to_nat bits) p offset) as Hr. rewrite Z2Nat.id in Hr by lia. set (u := field _ _ _) in *.
  destruct (Z.ltb_spec bits 64) as [Hlt|Hge]; cbn [andb].
  2:{ assert (bits = 64) as -> by lia. done. }
  assert (2 ^ bits <= 2 ^ 63) by (apply Z.pow_le_mono_r; lia). rewrite (swrap_small 64 u), (wrap_small 64 u) by (unfold in_signed; lia).
  pose proof (sign_fill u bits ltac:(lia) Hr) as Hs'. destruct (negb _); [by rewrite Hs'|].
  rewrite <-Hs', swrap_small; [done|lia|unfold in_signed; lia].
Qed.

Lemma set_signed_field p offset bits value :
  bytes_ok p -> 0 <= offset -> 1 <= bits <= 64 -> offset + bits <= 8 * zlen p -> 8 * zlen p < 2 ^ 64 ->
  exists q, setSignedBitfield p offset bits value = Some q /\ bytes_ok q /\ zlen q = zlen p
    /\ field (Z.to_nat bits) q offset = value mod 2 ^ bits
    /\ forall i, 0 <= i -> ~ offset <= i < offset + bits -> bit_of q i = bit_of p i.
Proof.
  intros Hp H0 Hb Hs H64. unfold setSignedBitfield. destruct (set_field p offset bits (u64 value)) as (q & Hq & Bq & Lq & Fq & Gq); [done|lia..|].
  exists q. split_and!; try done. rewrite Fq. unfold wrap.
  replace (2 ^ 64) with (2 ^ bits * 2 ^ (64 - bits)) by (rewrite <-Z.pow_add_r by lia; f_equal; lia).
  pose proof (Z.pow_pos_nonneg 2 (64 - bits) ltac:(lia) ltac:(lia)). rewrite Z.rem_mul_r by lia.
  rewrite (Z.mul_comm (2 ^ bits)), Z.mod_add by lia. apply Z.mod_mod. lia.
Qed.

(** ** Overflow *)

(** What the checks should answer for a sum, for the limits of a type and the
    value that a sum out of them wraps to. *)
Definition overflow_of (lo hi wrapped sum : Z) (ow : owtype) : Z * option Z :=
  if hi <? sum then (1, match ow with BFOVERFLOW_WRAP => Some wrapped | BFOVERFLOW_SAT => Some hi | BFOVERFLOW_FAIL => None end)
  else if sum <? lo then match ow with BFOVERFLOW_WRAP => (1, Some wrapped) | BFOVERFLOW_SAT => (-1, Some lo) | BFOVERFLOW_FAIL => (-1, None) end
  else (0, None).

Lemma mask_low c bits : 0 <= bits < 64 -> 0 <= c < 2 ^ 64 -> c &&& u64 (Z.lnot (u64 (ULONG_MAX <<< bits))) = c mod 2 ^ bits.
Proof.
  intros Hb Hc. pose proof (lor_mask 0 bits Hb ltac:(lia)) as Hm. rewrite Z.lor_0_l, Z.add_0_l in Hm. rewrite Hm.
  assert (2 ^ bits <= 2 ^ 63) by (apply Z.pow_le_mono_r; lia). unfold Z.lnot, wrap.
  replace (Z.pred (- (2 ^ 64 - 2 ^ bits))) with ((2 ^ bits - 1) + (-1) * 2 ^ 64) by lia. rewrite Z.mod_add, Z.mod_small by lia. apply land_mod; lia.
Qed.

Lemma u64_add_mod a b bits : 0 <= bits <= 64 -> u64 (u64 a + u64 b) mod 2 ^ bits = (a + b) mod 2 ^ bits.
Proof.
  intros Hb. unfold wrap. rewrite <-Zplus_mod. replace (2 ^ 64) with (2 ^ bits * 2 ^ (64 - bits)) by (rewrite <-Z.pow_add_r by lia; f_equal; lia).
  pose proof (Z.pow_pos_nonneg 2 (64 - bits) ltac:(lia) ltac:(lia)). rewrite Z.rem_mul_r, (Z.mul_comm (2 ^ bits)), Z.mod_add by lia. apply Z.mod_mod. lia.
Qed.

Lemma check_unsigned value incr bits ow :
  1 <= bits <= 63 -> 0 <= value < 2 ^ 64 -> in_signed 64 incr -> value < 2 ^ bits \/ incr = 0 ->
  checkUnsignedBitfieldOverflow value incr bits ow = overflow_of 0 (2 ^ bits - 1) ((value + incr) mod 2 ^ bits) (value + incr) ow.
Proof.
  intros Hb Hv Hi Hor. unfold checkUnsignedBitfieldOverflow, overflow_of. assert (2 ^ bits <= 2 ^ 63) by (apply Z.pow_le_mono_r; lia).
  assert (Hw : u64 (value + u64 incr) &&& u64 (Z.lnot (u64 (ULONG_MAX <<< bits))) = (value + incr) mod 2 ^ bits).
  { rewrite mask_low by (lia || apply wrap_range; lia). rewrite <-(u64_add_mod value incr bits) by lia. by rewrite (wrap_small 64 value). }
  rewrite Hw. destruct (Z.eqb_spec bits 64); [lia|]. rewrite Z.shiftl_1_l, (wrap_small 64 (2 ^ bits)) by lia.
  unfold in_signed in Hi. destruct (Z.gtb_spec value (2 ^ bits - 1)); cbn [orb].
  - destruct (Z.ltb_spec (2 ^ bits - 1) (value + incr)); [by destruct ow|lia].
  - rewrite (wrap_small 64 (2 ^ bits - 1 - value)), (swrap_small 64 (2 ^ bits - 1 - value)) by (unfold in_signed; lia).
    rewrite swrap_wrap, (swrap_small 64 (- value)) by (unfold in_signed; lia).
    destruct (Z.ltb_spec (2 ^ bits - 1) (value + incr)), (Z.ltb_spec (value + incr) 0), (Z.gtb_spec incr 0), (Z.gtb_spec incr (2 ^ bits - 1 - value)),
      (Z.ltb_spec incr 0), (Z.ltb_spec incr (- value)); try lia; by destruct ow.
Qed.

Lemma lor_mask_mod c bits : 0 <= bits < 64 -> 0 <= c < 2 ^ 64 -> c ||| u64 (ULONG_MAX <<< bits) = (c mod 2 ^ bits) ||| u64 (ULONG_MAX <<< bits).
Proof.
  intros Hb Hc. rewrite mask_shift by done. apply Z.bits_inj'. intros n Hn. rewrite !Z.lor_spec. destruct (Z.lt_ge_cases n bits).
  - by rewrite Z.mod_pow2_bits_low by lia.
  - rewrite Z.shiftl_spec, Z.mod_pow2_bits_high by lia. rewrite Z.sub_1_r, <-Z.ones_equiv. destruct (Z.lt_ge_cases n 64).
    + rewrite Z.ones_spec_low by lia. by rewrite orb_true_r.
    + rewrite Z.ones_spec_high by lia. rewrite <-(Z.mod_small c (2 ^ 64)) by lia. by rewrite Z.mod_pow2_bits_high by lia.
Qed.

Lemma signed_wrap value incr bits : 1 <= bits <= 64 ->
  let c := u64 (u64 value + u64 incr) in
  let mask := u64 (ULONG_MAX <<< bits) in
  i64 (if bits <? 64 then if negb ((c &&& (1 <<< (bits - 1))) =? 0) then c ||| mask else c &&& u64 (Z.lnot mask) else c) = swrap bits (value + incr).
Proof.
  intros Hb c mask. assert (Hc : 0 <= c < 2 ^ 64) by (apply wrap_range; lia). pose proof (u64_add_mod value incr bits ltac:(lia)) as Hm. fold c in Hm.
  destruct (Z.ltb_spec bits 64) as [Hlt|Hge].
  2:{ assert (bits = 64) as -> by lia. rewrite <-(swrap_wrap 64 (value + incr)) by lia. unfold wrap. rewrite <-Hm. f_equal. by rewrite Z.mod_small. }
  rewrite <-(swrap_wrap bits (value + incr)) by lia. change (wrap bits (value + incr)) with ((value + incr) mod 2 ^ bits). rewrite <-Hm. unfold mask. rewrite mask_low by lia.
  rewrite <-(sign_fill (c mod 2 ^ bits) bits) by (lia || apply Z.mod_pos_bound; lia). rewrite lor_mask_mod by lia.
  rewrite Z.shiftl_1_l, !(Z.land_comm _ (2 ^ (bits - 1))), !land_pow2, Z.mod_pow2_bits_low by lia. done.
Qed.

Section signed.
Context (value incr bits : Z) (ow : owtype) (Hbits : 1 <= bits <= 64) (Hvalue : in_signed 64 value) (Hincr : in_signed 64 incr).
Abbreviation smax := (2 ^ (bits - 1) - 1).

Lemma signed_max : (if bits =? 64 then 2 ^ 63 - 1 else (1 <<< (bits - 1)) - 1) = smax.
Proof using Hbits. destruct (Z.eqb_spec bits 64) as [->|]; [done|]. by rewrite Z.shiftl_1_l. Qed.

Lemma maxincr_exact : smax - 2 ^ 63 < value <= smax -> i64 (u64 (u64 smax - u64 value)) = smax - value.
Proof using Hbits.
  intros Hv. rewrite swrap_wrap by lia. unfold wrap. rewrite <-(swrap_wrap 64) by lia. unfold wrap. rewrite <-Zminus_mod.
  fold (wrap 64 (smax - value)). rewrite swrap_wrap, swrap_small by (unfold in_signed; lia). done.
Qed.

Lemma check_signed :
  (bits = 64 \/ smax < value \/ smax - 2 ^ 63 < value) -> in_signed bits value \/ incr = 0 ->
  checkSignedBitfieldOverflow value incr bits ow = overflow_of (- smax - 1) smax (swrap bits (value + incr)) (value + incr) ow.
Proof using Hbits Hvalue Hincr.
  intros Hlow Hor. unfold checkSignedBitfieldOverflow, overflow_of. rewrite signed_max.
  pose proof (signed_wrap value incr bits Hbits) as Hw. cbv zeta in Hw |- *. rewrite Hw. clear Hw. generalize (swrap bits (value + incr)). intros w.
  pose proof (Z.pow_pos_nonneg 2 (bits - 1) ltac:(lia) ltac:(lia)). assert (H64 : bits = 64 -> 2 ^ (bits - 1) = 2 ^ 63) by (by intros ->).
  assert (Hsmall : bits <> 64 -> 2 ^ (bits - 1) <= 2 ^ 62) by (intros; apply Z.pow_le_mono_r; lia). unfold in_signed in *.
  change (64 - 1) with 63 in *. pose proof maxincr_exact as Hmax. revert Hmax H H64 Hsmall Hor Hlow. generalize (2 ^ (bits - 1)). intros P Hmax H H64 Hsmall Hor Hlow.
  set (maxincr := i64 (u64 (u64 (P - 1) - u64 value))) in *.
  assert (Hmin : value >= 0 /\ bits = 64 \/ value < - (P - 1) - 1 \/ P - 1 < value \/ i64 (- (P - 1) - 1 - value) = - (P - 1) - 1 - value).
  { destruct (decide (value >= 0 /\ bits = 64)); [by left|]. destruct (decide (value < - (P - 1) - 1)); [by right; left|].
    destruct (decide (P - 1 < value)); [by right; right; left|]. right; right; right. apply swrap_small; [lia|]. unfold in_signed.
    change (64 - 1) with 63. destruct (Z.eq_dec bits 64); [specialize (H64 ltac:(done))|specialize (Hsmall ltac:(done))]; lia. }
  set (minincr := i64 (- (P - 1) - 1 - value)) in *. clearbody maxincr minincr.
  destruct (Z.gtb_spec value (P - 1)), (Z.eqb_spec bits 64), (Z.gtb_spec incr maxincr), (Z.geb_spec value 0), (Z.gtb_spec incr 0),
    (Z.ltb_spec value (- (P - 1) - 1)), (Z.ltb_spec incr minincr), (Z.ltb_spec value 0), (Z.ltb_spec incr 0); cbn [orb andb negb]; try lia;
    destruct (Z.ltb_spec (P - 1) (value + incr)), (Z.ltb_spec (value + incr) (- (P - 1) - 1)); try lia; by destruct ow.
Qed.
End signed.

(** The limit of the values below which the first test is of a difference that
    has wrapped around. *)
Lemma check_signed_low value bits ow : 1 <= bits < 64 -> in_signed 64 value -> value <= 2 ^ (bits - 1) - 1 - 2 ^ 63 ->
  checkSignedBitfieldOverflow value 0 bits ow
  = (1, match ow with BFOVERFLOW_WRAP => Some (swrap bits (value + 0)) | BFOVERFLOW_SAT => Some (2 ^ (bits - 1) - 1) | BFOVERFLOW_FAIL => None end).
Proof.
  intros Hb Hv Hlow. unfold checkSignedBitfieldOverflow. rewrite signed_max by lia. unfold in_signed in Hv.
  pose proof (signed_wrap value 0 bits ltac:(lia)) as Hw. cbv zeta in Hw |- *. rewrite Hw. clear Hw.
  pose proof (Z.pow_pos_nonneg 2 (bits - 1) ltac:(lia) ltac:(lia)). assert (2 ^ (bits - 1) <= 2 ^ 62) by (apply Z.pow_le_mono_r; lia).
  assert (Hm : i64 (u64 (u64 (2 ^ (bits - 1) - 1) - u64 value)) = 2 ^ (bits - 1) - 1 - value - 2 ^ 64).
  { rewrite swrap_wrap by lia. unfold wrap. rewrite <-(swrap_wrap 64) by lia. unfold wrap. rewrite <-Zminus_mod.
    rewrite <-(Z.mod_add (_ - _) (-1)) by lia. fold (wrap 64 (2 ^ (bits - 1) - 1 - value + -1 * 2 ^ 64)).
    rewrite swrap_wrap, swrap_small; [lia|lia|unfold in_signed; change (64 - 1) with 63 in *; lia|lia]. }
  rewrite Hm. destruct (Z.eqb_spec bits 64); [lia|]. cbn [negb andb orb].
  destruct (Z.gtb_spec value (2 ^ (bits - 1) - 1)), (Z.gtb_spec 0 (2 ^ (bits - 1) - 1 - value - 2 ^ 64)); try lia. by destruct ow.
Qed.
