(* ===== verification/Bitops.v ===== *)
(** * The commands on bits

    SETBIT, GETBIT, BITCOUNT, BITPOS, BITOP and BITFIELD of bitops.c.  A handler
    takes the arguments and the state of the server and gives the state it leaves
    and its replies; [None] is a failed assertion or an access out of a string.

    The database is seen as a map from keys to values, which is what the key
    store refines; keys do not expire. *)

From stdpp Require Import base list gmap.
From S2P Require Import Prelude Util Glob Bits.
Local Open Scope cint_scope.

(** ** Values, replies and the state *)

(** A string that is its bytes, a string that is an integer, a value of another
    type. *)
Inductive robj := OStr (s : list Z) | OInt (v : Z) | OOther (type : Z).

Inductive err :=
| EOffset | EBit | EBitPos | EWrongType | ESyntax | ENotInt | ENotKeys | ETwoKeys | EType | EOverflowType | EReadOnly.
Inductive reply := RLong (v : Z) | RNull | RArray (n : Z) | RErr (e : err).

(** What a handler does besides its change of the database. *)
Inductive event := EvSet | EvSetbit | EvDel | EvOverwritten | EvTypeChanged.
Inductive effect := Modified (key : list Z) | Notify (e : event) (key : list Z) | Keysizes (key : list Z) (oldlen newlen : Z).

Record server := Server { keys : gmap (list Z) robj; dirty : Z; effects : list effect }.
Definition with_keys (s : server) (m : gmap (list Z) robj) : server := Server m (dirty s) (effects s).
Definition with_effects (s : server) (l : list effect) : server := Server (keys s) (dirty s) (effects s ++ l).
Definition add_dirty (s : server) (n : Z) : server := Server (keys s) (dirty s + n) (effects s).

(** The parts of the server and the client the handlers depend on. *)
Record env := Env {
  mustObeyClient : bool;      (* commands of a master or of the append only file *)
  proto_max_bulk_len : Z;
  use_popcnt : bool; use_avx2 : bool;
  addr : Z; stack : Z         (* where strings and local variables are *)
}.

Abbreviation result := (option (server * list reply)).
Definition fails (s : server) (e : err) : result := Some (s, [RErr e]).

(** A step that can reply with an error. *)
Notation "'try' x ':=' e 'on' s ; k" := (match e with inl er => fails s er | inr x => k end)
  (at level 200, x pattern, e at level 100, s at level 100, k at level 200) : cint_scope.

(** ** Arguments *)

(** A C string in a buffer. *)
Fixpoint cstr (s : list Z) : list Z := match s with [] => [] | c :: s => if c =? 0 then [] else c :: cstr s end.
Definition strcaseeq (a b : list Z) : bool := bool_decide (map tolower (cstr a) = map tolower (cstr b)).

Definition getLongLong (arg : list Z) (e : err) : err + Z := match string2ll arg with None => inl e | Some v => inr v end.

(** [None] when the signed product of a position [#n] overflows, which C leaves
    undefined. *)
Definition getBitOffsetFromArgument (v : env) (arg : list Z) (hash : bool) (bits : Z) : option (err + Z) :=
  let usehash := bool_decide (head arg = Some 35) && hash && (bits >? 0) in
  match string2ll (if usehash then tail arg else arg) with
  | None => Some (inl EOffset)
  | Some loffset =>
      let loffset := if usehash then loffset * bits else loffset in
      if (loffset <? - 2 ^ 63) || (2 ^ 63 <=? loffset) then None
      else if (loffset <? 0) || (negb (mustObeyClient v) && ((loffset >>> 3) >=? proto_max_bulk_len v)) then Some (inl EOffset)
      else Some (inr loffset)
  end.

(** The sign and the width. *)
Definition getBitfieldTypeFromArgument (arg : list Z) : err + (bool * Z) :=
  match arg with
  | c :: rest =>
      if (c =? 105) || (c =? 117) then
        let sign := c =? 105 in
        match string2ll (cstr rest) with
        | None => inl EType
        | Some llbits =>
            if (llbits <? 1) || (sign && (llbits >? 64)) || (negb sign && (llbits >? 63)) then inl EType else inr (sign, llbits)
        end
      else inl EType
  | [] => inl EType
  end.

(** ** Strings *)

(** The bytes of a string; nothing for no value. *)
Definition getObjectReadOnlyString (o : option robj) : option (list Z) :=
  match o with
  | Some (OInt v) => '(len, llbuf) ← ll2string (replicate 21 0) 0 LONG_STR_SIZE v; mread llbuf 0 len
  | Some (OStr s) => Some s
  | Some (OOther _) => None
  | None => Some []
  end.

Definition getDecodedObject (o : robj) : option (list Z) :=
  match o with
  | OStr s => Some s
  | OInt v => '(_, buf) ← ll2string (replicate 32 0) 0 32 v; Some (cstr buf)
  | OOther _ => None
  end.

Definition is_string (o : robj) : bool := match o with OOther _ => false | _ => true end.
(** [checkType(c,o,OBJ_STRING)]: true when the type is another one. *)
Definition checkType (o : option robj) : bool := match o with Some o => negb (is_string o) | None => false end.

Definition zeros (n : Z) : list Z := replicate (Z.to_nat n) 0.
Definition sdsgrowzero (s : list Z) (len : Z) : list Z := if len <=? zlen s then s else s ++ zeros (len - zlen s).

(** The string with room for a bit, its old length and by how much it has grown;
    the outer [None] is a failure, an error of type is a reply. *)
Definition lookupStringForBitCommand (s : server) (key : list Z) (maxbit : Z) : option (err + (server * list Z * Z * Z)) :=
  let byte := maxbit >>> 3 in
  let o := keys s !! key in
  if checkType o then Some (inl EWrongType)
  else
    match o with
    | None => let p := zeros (byte + 1) in Some (inr (with_keys s (<[key := OStr p]> (keys s)), p, 0, byte + 1))
    | Some o =>
        p ← getDecodedObject o;
        let strOldSize := zlen p in
        let p := sdsgrowzero p (byte + 1) in
        Some (inr (with_keys s (<[key := OStr p]> (keys s)), p, strOldSize, zlen p - strOldSize))
    end.

(** ** SETBIT and GETBIT *)

Definition b2i (b : bool) : Z := if b then 1 else 0.

(** The histogram of sizes, when an existing string has grown. *)
Definition updateKeysizes (key : list Z) (strOldSize strGrowSize : Z) : list effect :=
  if (strOldSize >? 0) && negb (strGrowSize =? 0) then [Keysizes key strOldSize (strOldSize + strGrowSize)] else [].

Definition setbitCommand (v : env) (s : server) (key offset bit : list Z) : result :=
  r ← getBitOffsetFromArgument v offset false 0;
  try bitoffset := r on s;
  try on_ := getLongLong bit EBit on s;
  if negb ((on_ &&& Z.lnot 1) =? 0) then fails s EBit
  else
    r ← lookupStringForBitCommand s key bitoffset;
    match r with
    | inl e => fails s e
    | inr (s, p, strOldSize, strGrowSize) =>
        let byte := bitoffset >>> 3 in
        byteval ← mget p byte;
        let bit := 7 - (bitoffset &&& 0x7) in
        let bitval := byteval &&& (1 <<< bit) in
        if negb (strGrowSize =? 0) || negb (b2i (negb (bitval =? 0)) =? on_) then
          let byteval := byteval &&& Z.lnot (1 <<< bit) in
          let byteval := byteval ||| ((on_ &&& 0x1) <<< bit) in
          p ← mwrite p byte [u8 byteval];
          let s := with_keys s (<[key := OStr p]> (keys s)) in
          let s := with_effects s [Modified key; Notify EvSetbit key] in
          let s := add_dirty s 1 in
          let s := with_effects s (updateKeysizes key strOldSize strGrowSize) in
          Some (s, [RLong (b2i (negb (bitval =? 0)))])
        else Some (s, [RLong (b2i (negb (bitval =? 0)))])
    end.

Definition getbitCommand (v : env) (s : server) (key offset : list Z) : result :=
  r ← getBitOffsetFromArgument v offset false 0;
  try bitoffset := r on s;
  match keys s !! key with
  | None => Some (s, [RLong 0])
  | Some kv =>
      if checkType (Some kv) then fails s EWrongType
      else
        let byte := bitoffset >>> 3 in
        let bit := 7 - (bitoffset &&& 0x7) in
        bitval ←
          match kv with
          | OStr p => if byte <? zlen p then b ← mget p byte; Some (b &&& (1 <<< bit)) else Some 0
          | OInt n =>
              '(len, llbuf) ← ll2string (replicate 32 0) 0 32 n;
              if byte <? len then b ← mget llbuf byte; Some (b &&& (1 <<< bit)) else Some 0
          | OOther _ => None
          end;
        Some (s, [RLong (b2i (negb (bitval =? 0)))])
  end.

(** ** BITCOUNT *)

(** The unit of the positions. *)
Definition getUnit (arg : list Z) : err + bool :=
  if strcaseeq arg [98; 105; 116] then inr true else if strcaseeq arg [98; 121; 116; 101] then inr false else inl ESyntax.

(** Negative positions count from the end; the last one is limited to the string. *)
Definition adjust_range (totlen start end_ : Z) : Z * Z :=
  let start := if start <? 0 then totlen + start else start in
  let end_ := if end_ <? 0 then totlen + end_ else end_ in
  let start := if start <? 0 then 0 else start in
  let end_ := if end_ <? 0 then 0 else end_ in
  let end_ := if end_ >=? totlen then totlen - 1 else end_ in
  (start, end_).

(** The bits of the first and of the last byte that are not in the range, and the
    range in bytes. *)
Definition edge_masks (isbit : bool) (start end_ : Z) : Z * Z * Z * Z :=
  if isbit && (start <=? end_) then
    (start >>> 3, end_ >>> 3, Z.lnot ((1 <<< (8 - (start &&& 7))) - 1) &&& 0xFF, (1 <<< (7 - (end_ &&& 7))) - 1)
  else (start, end_, 0, 0).

(** The count from the range on. *)
Definition count_range (v : env) (p : list Z) (start end_ first_byte_neg_mask last_byte_neg_mask : Z) : option Z :=
  if start >? end_ then Some 0
  else
    let bytes := end_ - start + 1 in
    count ← redisPopcount p (addr v) (use_popcnt v) start bytes;
    if negb (first_byte_neg_mask =? 0) || negb (last_byte_neg_mask =? 0) then
      f ← (if negb (first_byte_neg_mask =? 0) then b ← mget p start; Some (b &&& first_byte_neg_mask) else Some 0);
      l ← (if negb (last_byte_neg_mask =? 0) then b ← mget p end_; Some (b &&& last_byte_neg_mask) else Some 0);
      n ← redisPopcount [f; l] (stack v) (use_popcnt v) 0 2;
      Some (count - n)
    else Some count.

Definition bitcountCommand (v : env) (s : server) (argv : list (list Z)) : result :=
  match argv with
  | _ :: key :: startarg :: endarg :: rest =>
      if 5 <? zlen argv then fails s ESyntax
      else
        try start := getLongLong startarg ENotInt on s;
        try end_ := getLongLong endarg ENotInt on s;
        try isbit := match rest with u :: _ => getUnit u | [] => inr false end on s;
        let o := keys s !! key in
        if checkType o then fails s EWrongType
        else
          p ← getObjectReadOnlyString o;
          let totlen := zlen p in
          if negb (totlen <=? LLONG_MAX >>> 3) then None
          else if (start <? 0) && (end_ <? 0) && (start >? end_) then Some (s, [RLong 0])
          else
            let totlen := if isbit : bool then totlen <<< 3 else totlen in
            let '(start, end_) := adjust_range totlen start end_ in
            let '(start, end_, first_byte_neg_mask, last_byte_neg_mask) := edge_masks isbit start end_ in
            match o with
            | None => Some (s, [RLong 0])
            | Some _ => n ← count_range v p start end_ first_byte_neg_mask last_byte_neg_mask; Some (s, [RLong n])
            end
  | [_; key] =>
      let o := keys s !! key in
      if checkType o then fails s EWrongType
      else
        p ← getObjectReadOnlyString o;
        match o with
        | None => Some (s, [RLong 0])
        | Some _ => n ← count_range v p 0 (zlen p - 1) 0 0; Some (s, [RLong n])
        end
  | _ => fails s ESyntax
  end.

(** ** BITPOS *)

(** A byte with the bits of a mask made unlike the bit that is searched. *)
Definition hide (bit b mask : Z) : Z := if negb (bit =? 0) then u8 (b &&& Z.lnot mask) else u8 (b ||| mask).

(** From the range on: the label [result], the last byte, and the bytes in
    between. *)
Definition pos_result (bit : Z) (end_given : bool) (pos start bytes : Z) : option Z :=
  if end_given && (bit =? 0) && (pos =? bytes <<< 3) then Some (-1)
  else Some (if negb (pos =? -1) then pos + (start <<< 3) else pos).

Definition pos_last (v : env) (p : list Z) (bit end_ : Z) (end_given : bool) (last_byte_neg_mask start bytes : Z) : option Z :=
  b ← mget p end_;
  pos ← redisBitpos [hide bit b last_byte_neg_mask] (stack v) 0 1 bit;
  pos_result bit end_given pos start bytes.

Definition pos_middle (v : env) (p : list Z) (bit end_ : Z) (end_given : bool) (last_byte_neg_mask start bytes : Z) : option Z :=
  let curbytes := bytes - (if negb (last_byte_neg_mask =? 0) then 1 else 0) in
  if curbytes >? 0 then
    pos ← redisBitpos p (addr v) start curbytes bit;
    if (bytes =? curbytes) || (negb (pos =? -1) && negb (pos =? curbytes <<< 3)) then pos_result bit end_given pos start bytes
    else pos_last v p bit end_ end_given last_byte_neg_mask (start + curbytes) (bytes - curbytes)
  else pos_last v p bit end_ end_given last_byte_neg_mask start bytes.

Definition pos_range (v : env) (p : list Z) (bit start end_ : Z) (end_given : bool) (first_byte_neg_mask last_byte_neg_mask : Z) : option Z :=
  if start >? end_ then Some (-1)
  else
    let bytes := end_ - start + 1 in
    if negb (first_byte_neg_mask =? 0) then
      b ← mget p start;
      let tmpchar := hide bit b first_byte_neg_mask in
      let tmpchar := if negb (last_byte_neg_mask =? 0) && (bytes =? 1) then hide bit tmpchar last_byte_neg_mask else tmpchar in
      pos ← redisBitpos [tmpchar] (stack v) 0 1 bit;
      if (bytes =? 1) || (negb (pos =? -1) && negb (pos =? 8)) then pos_result bit end_given pos start bytes
      else pos_middle v p bit end_ end_given last_byte_neg_mask (start + 1) (bytes - 1)
    else pos_middle v p bit end_ end_given last_byte_neg_mask start bytes.

Definition bitposCommand (v : env) (s : server) (argv : list (list Z)) : result :=
  match argv with
  | _ :: key :: bitarg :: rest =>
      try bit := getLongLong bitarg ENotInt on s;
      if negb (bit =? 0) && negb (bit =? 1) then fails s EBitPos
      else
        let lookup_ k :=
          let o := keys s !! key in
          if checkType o then fails s EWrongType else p ← getObjectReadOnlyString o; k o p in
        let search o p start end_ end_given fm lm :=
          match o : option robj with
          | None => Some (s, [RLong (if negb (bit =? 0) then -1 else 0)])
          | Some _ => r ← pos_range v p bit start end_ end_given fm lm; Some (s, [RLong r])
          end in
        match rest with
        | [] => lookup_ (fun o p => search o p 0 (zlen p - 1) false 0 0)
        | startarg :: rest =>
            if 6 <? zlen argv then fails s ESyntax
            else
              try start := getLongLong startarg ENotInt on s;
              try isbit := match rest with [_; u] => getUnit u | _ => inr false end on s;
              try given := match rest with e :: _ => match getLongLong e ENotInt with inl er => inl er | inr x => inr (Some x) end | [] => inr None end on s;
              lookup_ (fun o p =>
                let totlen := zlen p in
                if negb (totlen <=? LLONG_MAX >>> 3) then None
                else
                  let end_ := match given with Some e => e | None => if isbit : bool then (totlen <<< 3) + 7 else totlen - 1 end in
                  let end_given := match given with Some _ => true | None => false end in
                  let totlen := if isbit then totlen <<< 3 else totlen in
                  let '(start, end_) := adjust_range totlen start end_ in
                  let '(start, end_, first_byte_neg_mask, last_byte_neg_mask) := edge_masks isbit start end_ in
                  search o p start end_ end_given first_byte_neg_mask last_byte_neg_mask)
        end
  | _ => fails s ESyntax
  end.

(** ** BITOP *)

Inductive bitop := BITOP_AND | BITOP_OR | BITOP_XOR | BITOP_NOT | BITOP_DIFF | BITOP_DIFF1 | BITOP_ANDOR | BITOP_ONE.
#[export] Instance bitop_eq_dec : EqDecision bitop.
Proof. solve_decision. Defined.

Definition parse_bitop (name : list Z) : option bitop :=
  if strcaseeq name [97; 110; 100] then Some BITOP_AND
  else if strcaseeq name [111; 114] then Some BITOP_OR
  else if strcaseeq name [120; 111; 114] then Some BITOP_XOR
  else if strcaseeq name [110; 111; 116] then Some BITOP_NOT
  else if strcaseeq name [100; 105; 102; 102] then Some BITOP_DIFF
  else if strcaseeq name [100; 105; 102; 102; 49] then Some BITOP_DIFF1
  else if strcaseeq name [97; 110; 100; 111; 114] then Some BITOP_ANDOR
  else if strcaseeq name [111; 110; 101] then Some BITOP_ONE
  else None.

(** The operations that first compute the disjunction of the keys but the first. *)
Definition disjunctive (op : bitop) : bool := match op with BITOP_DIFF | BITOP_DIFF1 | BITOP_ANDOR => true | _ => false end.

(** Words of [n] bytes: 8 for an [unsigned long], 32 for a register of 256 bits. *)
Section words.
Context (n : Z).
Definition load (m : list Z) (o : Z) : option Z := le_dec <$> mread m o n.
Definition store (m : list Z) (o w : Z) : option (list Z) := mwrite m o (le_enc (Z.to_nat n) w).
Definition bitnot (w : Z) : Z := wrap (8 * n) (Z.lnot w).
End words.

(** *** By registers *)

Section avx.
Context (keys : list (list Z)).
Abbreviation ld := (load 32).
Abbreviation st := (store 32).
Definition rest_keys : list (list Z) := tail keys.

(** [for (i = 1; i < numkeys; i++)] *)
Fixpoint avx_fold (f : Z -> Z -> Z) (ks : list (list Z)) (processed lres : Z) : option Z :=
  match ks with
  | [] => Some lres
  | k :: ks => lkey ← ld k processed; avx_fold f ks processed (f lres lkey)
  end.
Fixpoint avx_one (ks : list (list Z)) (processed lres common_bits : Z) : option (Z * Z) :=
  match ks with
  | [] => Some (lres, common_bits)
  | k :: ks =>
      lkey ← ld k processed;
      avx_one ks processed (Z.lxor lres lkey) (common_bits ||| (lres &&& lkey))
  end.

Definition avx_body (op : bitop) (res : list Z) (processed : Z) : option (list Z) :=
  lres ← ld res processed;
  lres ←
    match op with
    | BITOP_AND => avx_fold Z.land rest_keys processed lres
    | BITOP_OR | BITOP_DIFF | BITOP_DIFF1 | BITOP_ANDOR => avx_fold Z.lor rest_keys processed lres
    | BITOP_XOR => avx_fold Z.lxor rest_keys processed lres
    | BITOP_NOT => Some (Z.lxor lres (2 ^ 256 - 1))
    | BITOP_ONE => '(lres, common_bits) ← avx_one rest_keys processed lres 0; Some (bitnot 32 common_bits &&& lres)
    end;
  st res processed lres.

(** [while (minlen >= step)] *)
Fixpoint avx_loop (fuel : nat) (op : bitop) (res : list Z) (processed minlen : Z) : option (list Z * Z) :=
  if minlen >=? 32 then
    match fuel with
    | O => None
    | S fuel => res ← avx_body op res processed; avx_loop fuel op res (processed + 32) (minlen - 32)
    end
  else Some (res, processed).

(** [for (i = 0; i < processed; i += step)] *)
Fixpoint avx_last (fuel : nat) (op : bitop) (fst_key res : list Z) (i processed : Z) : option (list Z) :=
  if i <? processed then
    match fuel with
    | O => None
    | S fuel =>
        lres ← ld res i; fkey ← ld fst_key i;
        let lres :=
          match op with
          | BITOP_DIFF => bitnot 32 lres &&& fkey
          | BITOP_DIFF1 => bitnot 32 fkey &&& lres
          | _ => fkey &&& lres
          end in
        res ← st res i lres;
        avx_last fuel op fst_key res (i + 32) processed
    end
  else Some res.

Definition bitopCommandAVX (res : list Z) (op : bitop) (minlen : Z) : option (list Z * Z) :=
  if minlen <? 32 then Some (res, 0)
  else
    fst_key ← head keys;
    res ← (if disjunctive op then Some res else b ← mread fst_key 0 minlen; mwrite res 0 b);
    '(res, processed) ← avx_loop (Z.to_nat minlen) op res 0 minlen;
    res ← (if disjunctive op then avx_last (Z.to_nat minlen) op fst_key res 0 processed else Some res);
    Some (res, processed).
End avx.

(** *** By words *)

Section by_words.
Context (src : list (list Z)).
Abbreviation ld := (load 8).
Abbreviation st := (store 8).

(** [lres[q] = f(lres[q], lp[i][k+q])] for the four words, in order. *)
Definition word_op (f : Z -> Z -> Z) (res : list Z) (lres : Z) (key : list Z) (kp q : Z) : option (list Z) :=
  a ← ld res (lres + 8 * q); b ← ld key (kp + 8 * q); st res (lres + 8 * q) (f a b).
Definition words_op (f : Z -> Z -> Z) (res : list Z) (lres : Z) (key : list Z) (kp : Z) : option (list Z) :=
  res ← word_op f res lres key kp 0; res ← word_op f res lres key kp 1; res ← word_op f res lres key kp 2; word_op f res lres key kp 3.

(** [for (i = 1; i < numkeys; i++)] *)
Fixpoint words_fold (f : Z -> Z -> Z) (ks : list (list Z)) (res : list Z) (lres k : Z) : option (list Z) :=
  match ks with
  | [] => Some res
  | key :: ks => res ← words_op f res lres key (8 * k); words_fold f ks res lres k
  end.

Definition word_not (res : list Z) (lres q : Z) : option (list Z) := a ← ld res (lres + 8 * q); st res (lres + 8 * q) (bitnot 8 a).
Definition words_not (res : list Z) (lres : Z) : option (list Z) :=
  res ← word_not res lres 0; res ← word_not res lres 1; res ← word_not res lres 2; word_not res lres 3.

(** BITOP ONE: the four words of [lcommon_bits] are kept in 32 bytes. *)
Definition word_common (res : list Z) (lres : Z) (common key : list Z) (kp q : Z) : option (list Z) :=
  c ← ld common (8 * q); a ← ld res (lres + 8 * q); b ← ld key (kp + 8 * q); st common (8 * q) (c ||| (a &&& b)).
Definition words_common (res : list Z) (lres : Z) (common key : list Z) (kp : Z) : option (list Z) :=
  c ← word_common res lres common key kp 0; c ← word_common res lres c key kp 1; c ← word_common res lres c key kp 2;
  word_common res lres c key kp 3.
Fixpoint words_one (ks : list (list Z)) (res : list Z) (lres k : Z) (common : list Z) : option (list Z * list Z) :=
  match ks with
  | [] => Some (res, common)
  | key :: ks =>
      common ← words_common res lres common key (8 * k);
      res ← words_op Z.lxor res lres key (8 * k);
      words_one ks res lres k common
  end.

Definition words_body (op : bitop) (res : list Z) (lres k : Z) : option (list Z) :=
  match op with
  | BITOP_AND => words_fold Z.land (tail src) res lres k
  | BITOP_OR | BITOP_DIFF | BITOP_DIFF1 | BITOP_ANDOR => words_fold Z.lor (tail src) res lres k
  | BITOP_XOR => words_fold Z.lxor (tail src) res lres k
  | BITOP_NOT => words_not res lres
  | BITOP_ONE =>
      '(res, common) ← words_one (tail src) res lres k (zeros 32);
      words_op (fun a c => a &&& bitnot 8 c) res lres common 0
  end.

(** [while(minlen >= sizeof(unsigned long)*4)] *)
Fixpoint words_loop (fuel : nat) (op : bitop) (res : list Z) (lres k j minlen : Z) : option (list Z * Z) :=
  if minlen >=? 8 * 4 then
    match fuel with
    | O => None
    | S fuel => res ← words_body op res lres k; words_loop fuel op res (lres + 8 * 4) (k + 4) (j + 8 * 4) (minlen - 8 * 4)
    end
  else Some (res, j).

Definition words_final (op : bitop) : Z -> Z -> Z :=
  match op with
  | BITOP_DIFF => fun l f => f &&& bitnot 8 l
  | BITOP_DIFF1 => fun l f => bitnot 8 f &&& l
  | _ => fun l f => f &&& l
  end.
Fixpoint words_last (fuel : nat) (op : bitop) (first_key res : list Z) (i processed : Z) : option (list Z) :=
  if i <? processed then
    match fuel with
    | O => None
    | S fuel => res ← words_op (words_final op) res i first_key i; words_last fuel op first_key res (i + 8 * 4) processed
    end
  else Some res.

(** The fast path: the result and the next byte to process. *)
Definition bitop_words (res : list Z) (op : bitop) (j minlen : Z) : option (list Z * Z) :=
  if minlen >=? 8 * 4 then
    first ← head src;
    res ← (if disjunctive op then Some res else b ← mread first 0 minlen; mwrite res 0 b);
    '(res, j') ← words_loop (Z.to_nat minlen) op res 0 0 j minlen;
    res ← (if disjunctive op then words_last (Z.to_nat minlen) op first res 0 (j' - j) else Some res);
    Some (res, j')
  else Some (res, j).
End by_words.

(** *** By bytes *)

(** [(len[i] <= j) ? 0 : src[i][j]] *)
Definition key_byte (key : list Z) (j : Z) : option Z := if zlen key <=? j then Some 0 else mget key j.

(** [for (i = 1; i < numkeys; i++)], with the early exits. *)
Fixpoint byte_keys (op : bitop) (ks : list (list Z)) (j output disjunction common_bits : Z) : option (Z * Z) :=
  match ks with
  | [] => Some (output, disjunction)
  | key :: ks =>
      byte ← key_byte key j;
      let '(output, disjunction, common_bits, skip) :=
        match op with
        | BITOP_AND => let output := output &&& byte in (output, disjunction, common_bits, output =? 0)
        | BITOP_OR => let output := output ||| byte in (output, disjunction, common_bits, output =? 0xff)
        | BITOP_XOR => (Z.lxor output byte, disjunction, common_bits, false)
        | BITOP_DIFF | BITOP_DIFF1 | BITOP_ANDOR =>
            let disjunction := disjunction ||| byte in (output, disjunction, common_bits, disjunction =? 0xff)
        | BITOP_ONE =>
            let common_bits := common_bits ||| (output &&& byte) in
            let output := Z.lxor output byte in
            let output := output &&& u8 (Z.lnot common_bits) in
            (output, disjunction, common_bits, common_bits =? 0xff)
        | BITOP_NOT => (output, disjunction, common_bits, false)
        end in
      if skip : bool then Some (output, disjunction) else byte_keys op ks j output disjunction common_bits
  end.

Definition byte_result (op : bitop) (src : list (list Z)) (j : Z) : option Z :=
  first ← head src;
  output ← key_byte first j;
  let output := match op with BITOP_NOT => u8 (Z.lnot output) | _ => output end in
  '(output, disjunction) ← byte_keys op (tail src) j output 0 0;
  Some (match op with
        | BITOP_DIFF => u8 (output &&& Z.lnot disjunction)
        | BITOP_DIFF1 => u8 (Z.lnot output &&& disjunction)
        | BITOP_ANDOR => output &&& disjunction
        | _ => output
        end).

(** [for (; j < maxlen; j++)] *)
Fixpoint bytes_loop (fuel : nat) (op : bitop) (src : list (list Z)) (res : list Z) (j maxlen : Z) : option (list Z) :=
  if j <? maxlen then
    match fuel with
    | O => None
    | S fuel => b ← byte_result op src j; res ← mwrite res j [b]; bytes_loop fuel op src res (j + 1) maxlen
    end
  else Some res.

Definition bitop_compute (v : env) (op : bitop) (src : list (list Z)) (minlen maxlen : Z) : option (list Z) :=
  let res := zeros maxlen in
  '(res, j, minlen) ←
    (if use_avx2 v then
       '(res, j) ← bitopCommandAVX src res op minlen;
       if negb (minlen >=? j) then None else Some (res, j, minlen - j)
     else Some (res, 0, minlen));
  if (minlen >=? 8 * 4) && use_avx2 v then None
  else
    '(res, j) ← bitop_words src res op j minlen;
    bytes_loop (Z.to_nat maxlen) op src res j maxlen.

(** *** The command *)

(** The strings, the shortest and the longest length; a missing key is an empty
    string. *)
Fixpoint load_keys (s : server) (args : list (list Z)) (j : Z) (src : list (list Z)) (minlen maxlen : Z) : option (err + (list (list Z) * Z * Z)) :=
  match args with
  | [] => Some (inr (src, minlen, maxlen))
  | a :: args =>
      match keys s !! a with
      | None => load_keys s args (j + 1) (src ++ [[]]) 0 maxlen
      | Some kv =>
          if checkType (Some kv) then Some (inl EWrongType)
          else
            p ← getDecodedObject kv;
            let len := zlen p in
            let maxlen := if len >? maxlen then len else maxlen in
            let minlen := if (j =? 0) || (len <? minlen) then len else minlen in
            load_keys s args (j + 1) (src ++ [p]) minlen maxlen
      end
  end.

(** [setKey] of db.c. *)
Definition setKey (s : server) (key : list Z) (o : robj) : server :=
  let s' := with_keys s (<[key := o]> (keys s)) in
  let s' :=
    match keys s !! key with
    | Some old => with_effects s' (Notify EvOverwritten key :: (if negb (bool_decide (is_string old = is_string o)) then [Notify EvTypeChanged key] else []))
    | None => s'
    end in
  with_effects s' [Modified key].

Definition bitopCommand (v : env) (s : server) (opname targetkey : list Z) (args : list (list Z)) : result :=
  match parse_bitop opname with
  | None => fails s ESyntax
  | Some op =>
      if bool_decide (op = BITOP_NOT) && negb (zlen args + 3 =? 4) then fails s ENotKeys
      else if disjunctive op && (zlen args + 3 <? 5) then fails s ETwoKeys
      else
        r ← load_keys s args 0 [] 0 0;
        match r with
        | inl e => fails s e
        | inr (src, minlen, maxlen) =>
            if negb (maxlen =? 0) then
              res ← bitop_compute v op src minlen maxlen;
              let s := setKey s targetkey (OStr res) in
              let s := with_effects s [Notify EvSet targetkey] in
              Some (add_dirty s 1, [RLong maxlen])
            else
              match keys s !! targetkey with
              | Some _ =>
                  let s := with_keys s (delete targetkey (keys s)) in
                  let s := with_effects s [Modified targetkey; Notify EvDel targetkey] in
                  Some (add_dirty s 1, [RLong maxlen])
              | None => Some (s, [RLong maxlen])
              end
        end
  end.

(** ** BITFIELD *)

Inductive opcode := BITFIELDOP_GET | BITFIELDOP_SET | BITFIELDOP_INCRBY.
#[export] Instance opcode_eq_dec : EqDecision opcode.
Proof. solve_decision. Defined.

Record bitfieldOp := BitfieldOp { bf_offset : Z; bf_i64 : Z; bf_opcode : opcode; bf_owtype : owtype; bf_bits : Z; bf_sign : bool }.

Definition parse_owtype (name : list Z) : option owtype :=
  if strcaseeq name [119; 114; 97; 112] then Some BFOVERFLOW_WRAP
  else if strcaseeq name [115; 97; 116] then Some BFOVERFLOW_SAT
  else if strcaseeq name [102; 97; 105; 108] then Some BFOVERFLOW_FAIL
  else None.

(** The subcommand at the head of the arguments. *)
Inductive subcmd := SubOp (c : opcode) | SubOverflow | SubBad.
Definition parse_subcmd (name : list Z) (remargs : Z) : subcmd :=
  if strcaseeq name [103; 101; 116] && (remargs >=? 2) then SubOp BITFIELDOP_GET
  else if strcaseeq name [115; 101; 116] && (remargs >=? 3) then SubOp BITFIELDOP_SET
  else if strcaseeq name [105; 110; 99; 114; 98; 121] && (remargs >=? 3) then SubOp BITFIELDOP_INCRBY
  else if strcaseeq name [111; 118; 101; 114; 102; 108; 111; 119] && (remargs >=? 1) then SubOverflow
  else SubBad.

(** What the first loop collects. *)
Record parsed := Parsed { ops : list bitfieldOp; readonly : bool; highest_write_offset : Z }.

(** [for (j = 2; j < c->argc; j++)], on the arguments left. *)
Fixpoint parse_ops (fuel : nat) (v : env) (args : list (list Z)) (ow : owtype) (acc : parsed) : option (err + parsed) :=
  match args with
  | [] => Some (inr acc)
  | name :: args =>
      match fuel with
      | O => None
      | S fuel =>
          match parse_subcmd name (zlen args) with
          | SubBad => Some (inl ESyntax)
          | SubOverflow =>
              owname ← head args;
              match parse_owtype owname with
              | None => Some (inl EOverflowType)
              | Some ow => parse_ops fuel v (tail args) ow acc
              end
          | SubOp opcode =>
              typearg ← args !! 0%nat;
              offarg ← args !! 1%nat;
              match getBitfieldTypeFromArgument typearg with
              | inl e => Some (inl e)
              | inr (sign, bits) =>
                  off ← getBitOffsetFromArgument v offarg true bits;
                  match off with
                  | inl e => Some (inl e)
                  | inr bitoffset =>
                      match opcode with
                      | BITFIELDOP_GET =>
                          let op := BitfieldOp bitoffset 0 opcode ow bits sign in
                          parse_ops fuel v (drop 2 args) ow (Parsed (ops acc ++ [op]) (readonly acc) (highest_write_offset acc))
                      | _ =>
                          let high := u64 (u64 (bitoffset + bits) - 1) in
                          let high := if highest_write_offset acc <? high then high else highest_write_offset acc in
                          valarg ← args !! 2%nat;
                          match getLongLong valarg ENotInt with
                          | inl e => Some (inl e)
                          | inr n =>
                              let op := BitfieldOp bitoffset n opcode ow bits sign in
                              parse_ops fuel v (drop 3 args) ow (Parsed (ops acc ++ [op]) false high)
                          end
                      end
                  end
              end
          end
      end
  end.

(** SET and INCRBY: the overflow, the new value and the value replied.  The value
    of [wrapped] when it is not set is not used. *)
Definition signed_newval (op : bitfieldOp) (oldval : Z) : Z * Z * Z :=
  if bool_decide (bf_opcode op = BITFIELDOP_INCRBY) then
    let '(overflow, wrapped) := checkSignedBitfieldOverflow oldval (bf_i64 op) (bf_bits op) (bf_owtype op) in
    let newval := if negb (overflow =? 0) then default 0 wrapped else i64 (oldval + bf_i64 op) in
    (overflow, newval, newval)
  else
    let newval := bf_i64 op in
    let '(overflow, wrapped) := checkSignedBitfieldOverflow newval 0 (bf_bits op) (bf_owtype op) in
    (overflow, if negb (overflow =? 0) then default 0 wrapped else newval, oldval).

Definition unsigned_newval (op : bitfieldOp) (oldval : Z) : Z * Z * Z :=
  if bool_decide (bf_opcode op = BITFIELDOP_INCRBY) then
    let newval := u64 (oldval + u64 (bf_i64 op)) in
    let '(overflow, wrapped) := checkUnsignedBitfieldOverflow oldval (bf_i64 op) (bf_bits op) (bf_owtype op) in
    let newval := if negb (overflow =? 0) then default 0 wrapped else newval in
    (overflow, newval, newval)
  else
    let newval := u64 (bf_i64 op) in
    let '(overflow, wrapped) := checkUnsignedBitfieldOverflow newval 0 (bf_bits op) (bf_owtype op) in
    (overflow, if negb (overflow =? 0) then default 0 wrapped else newval, oldval).

(** The string, the reply and whether there is a change. *)
Definition write_op (p : list Z) (strGrowSize : Z) (op : bitfieldOp) : option (list Z * reply * Z) :=
  let fail overflow := negb (overflow =? 0) && bool_decide (bf_owtype op = BFOVERFLOW_FAIL) in
  let changed oldval newval := if negb (strGrowSize =? 0) || negb (oldval =? newval) then 1 else 0 in
  if bf_sign op then
    oldval ← getSignedBitfield p (bf_offset op) (bf_bits op);
    let '(overflow, newval, retval) := signed_newval op oldval in
    if negb (fail overflow) then
      p ← setSignedBitfield p (bf_offset op) (bf_bits op) newval;
      Some (p, RLong retval, changed oldval newval)
    else Some (p, RNull, 0)
  else
    oldval ← getUnsignedBitfield p (bf_offset op) (bf_bits op);
    let '(overflow, newval, retval) := unsigned_newval op oldval in
    if negb (fail overflow) then
      p ← setUnsignedBitfield p (bf_offset op) (bf_bits op) newval;
      Some (p, RLong (i64 retval), changed oldval newval)
    else Some (p, RNull, 0).

(** [for (i = 0; i < 9; i++)] *)
Fixpoint copy_bytes (fuel : nat) (i : Z) (buf src : list Z) (byte : Z) : option (list Z) :=
  match fuel with
  | O => Some buf
  | S fuel =>
      if i + byte >=? zlen src then Some buf
      else b ← mget src (i + byte); buf ← mwrite buf i [b]; copy_bytes fuel (i + 1) buf src byte
  end.

(** GET *)
Definition read_op (o : option robj) (op : bitfieldOp) : option reply :=
  src ← getObjectReadOnlyString o;
  let byte := bf_offset op >>> 3 in
  buf ← copy_bytes 9 0 (zeros 9) src byte;
  if bf_sign op then val ← getSignedBitfield buf (bf_offset op - byte * 8) (bf_bits op); Some (RLong val)
  else val ← getUnsignedBitfield buf (bf_offset op - byte * 8) (bf_bits op); Some (RLong (i64 val)).

(** [for (j = 0; j < numops; j++)] *)
Fixpoint run_ops (l : list bitfieldOp) (o : option robj) (strGrowSize changes : Z) : option (option robj * list reply * Z) :=
  match l with
  | [] => Some (o, [], changes)
  | op :: l =>
      '(o, r, c) ←
        match bf_opcode op with
        | BITFIELDOP_GET => r ← read_op o op; Some (o, r, 0)
        | _ => match o with Some (OStr p) => '(p, r, c) ← write_op p strGrowSize op; Some (Some (OStr p), r, c) | _ => None end
        end;
      '(o, rs, changes) ← run_ops l o strGrowSize (changes + c);
      Some (o, r :: rs, changes)
  end.

(** [flag] is [BITFIELD_FLAG_READONLY]. *)
Definition bitfieldGeneric (v : env) (s : server) (key : list Z) (args : list (list Z)) (flag : bool) : result :=
  r ← parse_ops (length args) v args BFOVERFLOW_WRAP (Parsed [] true 0);
  match r with
  | inl e => fails s e
  | inr acc =>
      if readonly acc then
        let o := keys s !! key in
        if checkType o then fails s EWrongType
        else '(_, rs, _) ← run_ops (ops acc) o 0 0; Some (s, RArray (zlen (ops acc)) :: rs)
      else if flag then fails s EReadOnly
      else
        l ← lookupStringForBitCommand s key (highest_write_offset acc);
        match l with
        | inl e => fails s e
        | inr (s, p, strOldSize, strGrowSize) =>
            '(o, rs, changes) ← run_ops (ops acc) (Some (OStr p)) strGrowSize 0;
            o ← o;
            let s := with_keys s (<[key := o]> (keys s)) in
            let s := if negb (changes =? 0) then
                       add_dirty (with_effects s (updateKeysizes key strOldSize strGrowSize ++ [Modified key; Notify EvSetbit key])) changes
                     else s in
            Some (s, RArray (zlen (ops acc)) :: rs)
        end
  end.
Definition bitfieldCommand (v : env) (s : server) (key : list Z) (args : list (list Z)) : result := bitfieldGeneric v s key args false.
Definition bitfieldroCommand (v : env) (s : server) (key : list Z) (args : list (list Z)) : result := bitfieldGeneric v s key args true.
