(* ===== verification/BitopSpec.v ===== *)
(** * BITOP: what is computed

    The bits of the result are the operation on the bits of the sources at the
    same position, by registers, by words or by bytes, with the missing bits of
    the shorter sources as zeros. *)

From stdpp Require Import base list gmap numbers.
From S2P Require Import Prelude Util Bits BitsSpec BitfieldSpec Bitops.
Local Open Scope cint_scope.

(** ** The operations on bits *)

Definition count_true (bs : list bool) : nat := length (filter (fun b => b = true) bs).

Definition bool_op (op : bitop) (x : bool) (bs : list bool) : bool :=
  match op with
  | BITOP_AND => forallb id (x :: bs)
  | BITOP_OR => existsb id (x :: bs)
  | BITOP_XOR => foldr xorb false (x :: bs)
  | BITOP_NOT => negb x
  | BITOP_DIFF => x && negb (existsb id bs)
  | BITOP_DIFF1 => negb x && existsb id bs
  | BITOP_ANDOR => x && existsb id bs
  | BITOP_ONE => bool_decide (count_true (x :: bs) = 1%nat)
  end.

(** The byte of a string at an index, zero past its end. *)
Definition byte_at (m : list Z) (i : Z) : Z := default 0 (mget m i).

Lemma byte_at_byte m i : bytes_ok m -> is_byte (byte_at m i).
Proof. intros Hm. unfold byte_at. destruct (mget m i) eqn:E; [by eapply mget_byte|done]. Qed.

Lemma bit_of_byte_at m i : 0 <= i -> bit_of m i = Z.testbit (byte_at m (i / 8)) (7 - i mod 8).
Proof. apply bit_of_mget. Qed.

(** ** Words and their bytes *)

Lemma bits_bound x n : 0 <= x -> 0 <= n -> (forall i, n <= i -> Z.testbit x i = false) -> x < 2 ^ n.
Proof.
  intros H0 Hn Hi. destruct (Z.lt_ge_cases x (2 ^ n)) as [|Hge]; [done|]. pose proof (Z.pow_pos_nonneg 2 n ltac:(lia) Hn).
  assert (n <= Z.log2 x) by (apply Z.log2_le_pow2; lia). specialize (Hi (Z.log2 x) ltac:(done)). by rewrite Z.bit_log2 in Hi by lia.
Qed.

Lemma byte_high b i : is_byte b -> 8 <= i -> Z.testbit b i = false.
Proof.
  intros Hb Hi. pose proof (testbit_byte b 0 i Hb ltac:(lia)) as E. rewrite Z.mul_0_r, Z.add_0_r in E. rewrite E.
  destruct (Z.ltb_spec i 8); [lia|]. apply Z.testbit_0_l.
Qed.

(** An operation that acts on each bit. *)
Class Bitwise (f : Z -> Z -> Z) (F : bool -> bool -> bool) : Prop := {
  bitwise_spec : forall a b i, 0 <= i -> Z.testbit (f a b) i = F (Z.testbit a i) (Z.testbit b i);
  bitwise_nonneg : forall a b, 0 <= a -> 0 <= b -> 0 <= f a b;
  bitwise_zero : F false false = false }.
#[export] Instance land_bitwise : Bitwise Z.land andb.
Proof. split; [intros; apply Z.land_spec|intros; apply Z.land_nonneg; auto|done]. Qed.
#[export] Instance lor_bitwise : Bitwise Z.lor orb.
Proof. split; [intros; apply Z.lor_spec|intros; by apply Z.lor_nonneg|done]. Qed.
#[export] Instance lxor_bitwise : Bitwise Z.lxor xorb.
Proof. split; [intros; apply Z.lxor_spec|intros; apply Z.lxor_nonneg; split; done|done]. Qed.

Lemma bitwise_byte f F `{!Bitwise f F} a b : is_byte a -> is_byte b -> is_byte (f a b).
Proof.
  intros Ha Hb. assert (0 <= f a b) by (apply (bitwise_nonneg (F := F)); [apply Ha|apply Hb]). split; [done|]. change 256 with (2 ^ 8).
  apply bits_bound; [done|lia|]. intros i Hi. rewrite (bitwise_spec (F := F)), !byte_high by (done || lia). apply bitwise_zero.
Qed.

(** What a function on words does on bytes. *)
Definition bytewise (n : Z) (f fb : Z -> Z -> Z) : Prop :=
  (forall a b, bytes_ok a -> bytes_ok b -> zlen a = n -> zlen b = n -> f (le_dec a) (le_dec b) = le_dec (zip_with fb a b))
  /\ forall a b, is_byte a -> is_byte b -> is_byte (fb a b).

Lemma bitwise_bytewise n f F `{!Bitwise f F} : bytewise n f f.
Proof.
  split; [|apply (bitwise_byte f F)]. intros a b Ha Hb La Lb. assert (Hl : length a = length b) by (unfold zlen in *; lia). clear La Lb.
  revert b Hb Hl. induction Ha as [|x a Hx Ha IH]; intros [|y b] Hb Hl; try discriminate Hl.
  - cbn. apply Z.bits_inj'. intros i Hi. rewrite (bitwise_spec (F := F)), Z.testbit_0_l by done. apply bitwise_zero.
  - apply Forall_cons in Hb as [Hy Hb]. cbn [le_dec zip_with]. rewrite <-IH by (done || (cbn in Hl; lia)).
    apply Z.bits_inj'. intros i Hi. rewrite (bitwise_spec (F := F)), !testbit_byte by (done || by apply (bitwise_byte f F)).
    destruct (Z.ltb_spec i 8); by rewrite (bitwise_spec (F := F)) by lia.
Qed.

Lemma le_dec_not w : bytes_ok w -> le_dec (map (fun b => 255 - b) w) = 2 ^ (8 * zlen w) - 1 - le_dec w.
Proof.
  induction 1 as [|b w Hb _ IH]; [done|]. cbn [map le_dec]. rewrite IH, zlen_cons.
  replace (8 * (1 + zlen w)) with (8 + 8 * zlen w) by lia. rewrite Z.pow_add_r by (pose proof (zlen_nonneg w); lia). lia.
Qed.

Lemma not_bytes_ok w : bytes_ok w -> bytes_ok (map (fun b => 255 - b) w).
Proof. induction 1 as [|b w Hb]; [by apply Forall_nil|]. apply Forall_cons. split; [unfold is_byte in *; lia|done]. Qed.

Lemma bitnot_bytes n w : bytes_ok w -> zlen w = n -> bitnot n (le_dec w) = le_dec (map (fun b => 255 - b) w).
Proof.
  intros Hw <-. rewrite le_dec_not by done. unfold bitnot, wrap, Z.lnot. pose proof (le_dec_range w Hw).
  replace (Z.pred (- le_dec w)) with ((2 ^ (8 * zlen w) - 1 - le_dec w) + (-1) * 2 ^ (8 * zlen w)) by lia.
  rewrite Z.mod_add, Z.mod_small by lia. done.
Qed.

(** ** Writing a part of a block *)

(** The bytes from [o] on, [n] of them, are what [g] says, and the others are as
    they were. *)
Definition upd (m m' : list Z) (o n : Z) (g : Z -> Z) : Prop :=
  bytes_ok m' /\ zlen m' = zlen m
  /\ forall i, 0 <= i -> byte_at m' i = if (o <=? i) && (i <? o + n) then g i else byte_at m i.

Lemma byte_at_range m i : 0 <= i < zlen m -> mget m i = Some (byte_at m i).
Proof. intros Hi. unfold byte_at. by destruct (mget_in m i Hi) as [b ->]. Qed.

Lemma bytes_ok_at m : (forall i, 0 <= i < zlen m -> is_byte (byte_at m i)) -> bytes_ok m.
Proof.
  intros H. apply Forall_lookup_2. intros i x Hx. pose proof (lookup_lt_Some _ _ _ Hx). specialize (H (Z.of_nat i) ltac:(unfold zlen; lia)).
  unfold byte_at in H. rewrite mget_lookup, Nat2Z.id, Hx in H by lia. done.
Qed.

Lemma load_spec n m o :
  bytes_ok m -> 0 <= o -> 0 <= n -> o + n <= zlen m ->
  exists w, load n m o = Some (le_dec w) /\ bytes_ok w /\ zlen w = n /\ forall i, 0 <= i < n -> byte_at w i = byte_at m (o + i).
Proof.
  intros Hm Ho Hn Hl. destruct (mread_ok m o n) as (w & Hr & Lw & Hw); [done..|]. exists w. unfold load. rewrite Hr. split_and!; try done.
  - apply bytes_ok_at. intros i Hi. unfold byte_at. rewrite Hw by lia. by apply byte_at_byte.
  - intros i Hi. unfold byte_at. by rewrite Hw by lia.
Qed.

Lemma write_upd m o w :
  bytes_ok m -> bytes_ok w -> 0 <= o -> o + zlen w <= zlen m ->
  exists m', mwrite m o w = Some m' /\ upd m m' o (zlen w) (fun i => byte_at w (i - o)).
Proof.
  intros Hm Hw Ho Hl. destruct (mwrite_ok m o w) as (m' & Hr & Lm & Hin & Hout); [done..|]. exists m'. split; [done|].
  assert (Hg : forall i, 0 <= i -> byte_at m' i = if (o <=? i) && (i <? o + zlen w) then byte_at w (i - o) else byte_at m i).
  { intros i Hi. unfold byte_at. destruct (Z.leb_spec o i), (Z.ltb_spec i (o + zlen w)); cbn [andb]; try (rewrite Hout by lia; done).
    replace i with (o + (i - o)) at 1 by lia. by rewrite Hin by lia. }
  split_and!; [|done|exact Hg]. apply bytes_ok_at. intros i Hi. rewrite Hg by lia. destruct (_ && _); by apply byte_at_byte.
Qed.

Lemma store_spec n m o w :
  bytes_ok m -> bytes_ok w -> zlen w = n -> 0 <= o -> o + n <= zlen m ->
  exists m', store n m o (le_dec w) = Some m' /\ upd m m' o n (fun i => byte_at w (i - o)).
Proof.
  intros Hm Hw <- Ho Hl. unfold store. replace (Z.to_nat (zlen w)) with (length w) by (unfold zlen; lia). rewrite le_enc_dec by done. by apply write_upd.
Qed.

Lemma upd_ext m m' o n g h : upd m m' o n g -> (forall i, o <= i < o + n -> g i = h i) -> upd m m' o n h.
Proof.
  intros (H1 & H2 & H3) He. split_and!; [done..|]. intros i Hi. rewrite H3 by done.
  destruct (Z.leb_spec o i), (Z.ltb_spec i (o + n)); cbn [andb]; try done. apply He. lia.
Qed.

(** Two parts, one after the other. *)
Lemma upd_app m m1 m2 o n1 n2 g h :
  upd m m1 o n1 g -> upd m1 m2 (o + n1) n2 h -> 0 <= o -> 0 <= n1 -> 0 <= n2 ->
  upd m m2 o (n1 + n2) (fun i => if i <? o + n1 then g i else h i).
Proof.
  intros (A1 & A2 & A3) (B1 & B2 & B3) H0 H1 H2. split_and!; [done|lia|]. intros i Hi. rewrite B3, A3 by done.
  destruct (Z.leb_spec o i), (Z.ltb_spec i (o + n1)), (Z.leb_spec (o + n1) i), (Z.ltb_spec i (o + n1 + n2)), (Z.ltb_spec i (o + (n1 + n2)));
    cbn [andb]; try lia; done.
Qed.

(** The same part twice. *)
Lemma upd_trans m m1 m2 o n g h :
  upd m m1 o n g -> upd m1 m2 o n h -> upd m m2 o n h.
Proof.
  intros (A1 & A2 & A3) (B1 & B2 & B3). split_and!; [done|lia|]. intros i Hi. rewrite B3, A3 by done.
  by destruct ((o <=? i) && (i <? o + n)).
Qed.

Lemma upd_at m m' o n g i : upd m m' o n g -> 0 <= i -> o <= i < o + n -> byte_at m' i = g i.
Proof. intros (_ & _ & H) H0 Hi. rewrite H by done. destruct (Z.leb_spec o i), (Z.ltb_spec i (o + n)); try lia; done. Qed.
Lemma upd_out m m' o n g i : upd m m' o n g -> 0 <= i -> ~ o <= i < o + n -> byte_at m' i = byte_at m i.
Proof. intros (_ & _ & H) H0 Hi. rewrite H by done. destruct (Z.leb_spec o i), (Z.ltb_spec i (o + n)); try lia; done. Qed.

Lemma byte_at_zip (fb : Z -> Z -> Z) (a b : list Z) i : zlen a = zlen b -> 0 <= i < zlen a -> byte_at (zip_with fb a b) i = fb (byte_at a i) (byte_at b i).
Proof.
  intros Hl Hi. unfold byte_at. rewrite !mget_lookup, lookup_zip_with by lia. unfold zlen in *.
  destruct (lookup_lt_is_Some_2 a (Z.to_nat i) ltac:(lia)) as [x ->]. by destruct (lookup_lt_is_Some_2 b (Z.to_nat i) ltac:(lia)) as [y ->].
Qed.

Lemma zip_bytes_ok (fb : Z -> Z -> Z) (a b : list Z) : (forall x y, is_byte x -> is_byte y -> is_byte (fb x y)) -> bytes_ok a -> bytes_ok b -> bytes_ok (zip_with fb a b).
Proof. intros Hf Ha. revert b. induction Ha as [|x a Hx _ IH]; intros [|y b] Hb; try by apply Forall_nil. apply Forall_cons in Hb as [? ?]. apply Forall_cons. auto. Qed.

Lemma zlen_zip (fb : Z -> Z -> Z) (a b : list Z) : zlen a = zlen b -> zlen (zip_with fb a b) = zlen a.
Proof. unfold zlen. intros Hl. rewrite length_zip_with_l; lia. Qed.

Lemma zlen_map (f : Z -> Z) l : zlen (map f l) = zlen l.
Proof. unfold zlen. by rewrite length_map. Qed.
Lemma byte_at_map (f : Z -> Z) l i : 0 <= i < zlen l -> byte_at (map f l) i = f (byte_at l i).
Proof.
  intros Hi. unfold byte_at. rewrite !mget_lookup by lia. rewrite list_lookup_fmap. unfold zlen in Hi.
  by destruct (lookup_lt_is_Some_2 l (Z.to_nat i) ltac:(lia)) as [x ->].
Qed.

Lemma zeros_ok n : bytes_ok (zeros n).
Proof. by apply Forall_replicate. Qed.
Lemma zlen_zeros n : 0 <= n -> zlen (zeros n) = n.
Proof. intros Hn. unfold zlen, zeros. rewrite length_replicate. lia. Qed.
Lemma byte_at_zeros n i : byte_at (zeros n) i = 0.
Proof.
  unfold byte_at, mget, zeros. destruct (0 <=? i); [|done]. destruct (replicate (Z.to_nat n) 0 !! Z.to_nat i) eqn:E; [|done].
  by apply lookup_replicate in E as [-> _].
Qed.

(** ** By words *)

Lemma word_op_spec f fb res o key kp :
  bytewise 8 f fb -> bytes_ok res -> bytes_ok key -> 0 <= o -> o + 8 <= zlen res -> 0 <= kp -> kp + 8 <= zlen key ->
  exists res', word_op f res o key kp 0 = Some res'
    /\ upd res res' o 8 (fun i => fb (byte_at res i) (byte_at key (kp + (i - o)))).
Proof.
  intros [Hf Hfb] Hr Hk Ho Hlr Hkp Hlk. unfold word_op. rewrite !Z.add_0_r.
  destruct (load_spec 8 res o) as (a & -> & Ba & La & Ga); [done|lia..|]. sbind.
  destruct (load_spec 8 key kp) as (b & -> & Bb & Lb & Gb); [done|lia..|]. sbind. rewrite Hf by done.
  destruct (store_spec 8 res o (zip_with fb a b)) as (res' & -> & Hu); [done|by apply zip_bytes_ok|rewrite zlen_zip; lia|lia..|].
  exists res'. split; [done|]. eapply upd_ext; [exact Hu|]. intros i Hi. cbn beta. rewrite byte_at_zip, Ga, Gb by lia. do 2 f_equal. lia.
Qed.

(** The four words of a step. *)
Lemma four_words (step : Z -> list Z -> option (list Z)) res o g :
  bytes_ok res -> 0 <= o ->
  (forall q m, 0 <= q < 4 -> bytes_ok m -> zlen m = zlen res -> (forall i, o + 8 * q <= i < o + 8 * q + 8 -> byte_at m i = byte_at res i) ->
     exists m', step q m = Some m' /\ upd m m' (o + 8 * q) 8 g) ->
  exists m', (m ← step 0 res; m ← step 1 m; m ← step 2 m; step 3 m) = Some m' /\ upd res m' o 32 g.
Proof.
  intros Hr Ho Hs.
  assert (Hgo : forall q m, 0 <= q < 4 -> upd res m o (8 * q) g -> exists m', step q m = Some m' /\ upd res m' o (8 * (q + 1)) g).
  { intros q m Hq Hu. destruct (Hs q m Hq) as (m' & Hm & Hu'); [apply Hu|apply Hu| |].
    - intros i Hi. eapply upd_out; [exact Hu|lia..].
    - exists m'. split; [done|]. replace (8 * (q + 1)) with (8 * q + 8) by lia. eapply upd_ext; [by eapply upd_app; [exact Hu|exact Hu'|lia..]|].
      intros i _. cbn beta. by destruct (_ <? _). }
  assert (H0 : upd res res o (8 * 0) g).
  { split_and!; [done..|]. intros i _. destruct (Z.leb_spec o i), (Z.ltb_spec i (o + 8 * 0)); try lia; done. }
  destruct (Hgo 0 res ltac:(lia) H0) as (m1 & -> & H1). sbind. destruct (Hgo 1 m1 ltac:(lia) H1) as (m2 & -> & H2). sbind.
  destruct (Hgo 2 m2 ltac:(lia) H2) as (m3 & -> & H3). sbind. exact (Hgo 3 m3 ltac:(lia) H3).
Qed.

Lemma words_op_spec f fb res o key kp :
  bytewise 8 f fb -> bytes_ok res -> bytes_ok key -> 0 <= o -> o + 32 <= zlen res -> 0 <= kp -> kp + 32 <= zlen key ->
  exists res', words_op f res o key kp = Some res'
    /\ upd res res' o 32 (fun i => fb (byte_at res i) (byte_at key (kp + (i - o)))).
Proof.
  intros Hf Hr Hk Ho Hlr Hkp Hlk. apply (four_words (fun q m => word_op f m o key kp q)); [done..|]. intros q m Hq Hm Hl Hsame.
  destruct (word_op_spec f fb m (o + 8 * q) key (kp + 8 * q)) as (m' & Hw & Hu); [done..|lia|lia|lia|lia|]. exists m'.
  split; [unfold word_op in Hw |- *; by rewrite !Z.add_0_r in Hw|]. eapply upd_ext; [exact Hu|]. intros i Hi. cbn beta. rewrite Hsame by lia. do 2 f_equal. lia.
Qed.

(** The bytes of the keys at an index. *)
Abbreviation bytes_at ks i := (map (fun k => byte_at k i) ks).

Lemma words_fold_spec f fb ks res o k :
  bytewise 8 f fb -> Forall bytes_ok ks -> Forall (fun key => o + 32 <= zlen key) ks -> bytes_ok res -> 0 <= o -> o + 32 <= zlen res -> o = 8 * k ->
  exists res', words_fold f ks res o k = Some res' /\ upd res res' o 32 (fun i => foldl fb (byte_at res i) (bytes_at ks i)).
Proof.
  intros Hf Hks Hlen Hr Ho Hlr ->. revert res Hr Hlr. induction Hks as [|key ks Hk _ IH]; intros res Hr Hlr.
  - exists res. split; [done|]. split_and!; [done..|]. intros i _. by destruct (_ && _).
  - apply Forall_cons in Hlen as [Hlk Hlen]. cbn [words_fold].
    destruct (words_op_spec f fb res (8 * k) key (8 * k)) as (res1 & -> & Hu1); [done..|lia|]. sbind.
    destruct (IH Hlen res1) as (res2 & -> & Hu2); [apply Hu1|destruct Hu1 as (_ & -> & _); done|].
    exists res2. split; [done|]. eapply upd_ext; [by eapply upd_trans|]. intros i Hi. cbn beta. rewrite (upd_at _ _ _ _ _ i Hu1) by lia.
    cbn [map foldl]. do 3 f_equal. lia.
Qed.

Lemma words_not_spec res o :
  bytes_ok res -> 0 <= o -> o + 32 <= zlen res -> exists res', words_not res o = Some res' /\ upd res res' o 32 (fun i => 255 - byte_at res i).
Proof.
  intros Hr Ho Hlr. apply (four_words (fun q m => word_not m o q)); [done..|]. intros q m Hq Hm Hl Hsame. unfold word_not.
  destruct (load_spec 8 m (o + 8 * q)) as (a & -> & Ba & La & Ga); [done|lia..|]. sbind. rewrite bitnot_bytes by done.
  destruct (store_spec 8 m (o + 8 * q) (map (fun b => 255 - b) a)) as (m' & -> & Hu); [done|by apply not_bytes_ok|by rewrite zlen_map|lia..|].
  exists m'. split; [done|]. eapply upd_ext; [exact Hu|]. intros i Hi. cbn beta. rewrite byte_at_map, Ga, Hsame by lia. do 2 f_equal. lia.
Qed.

(** The bits seen once or more, and those seen more than once. *)
Definition one_step (oc : Z * Z) (b : Z) : Z * Z := (Z.lxor (fst oc) b, snd oc ||| (fst oc &&& b)).

Lemma words_common_spec res o common key kp :
  bytes_ok res -> bytes_ok common -> bytes_ok key -> 0 <= o -> o + 32 <= zlen res -> 0 <= kp -> kp + 32 <= zlen key -> zlen common = 32 ->
  exists c', words_common res o common key kp = Some c'
    /\ upd common c' 0 32 (fun i => byte_at common i ||| (byte_at res (o + i) &&& byte_at key (kp + i))).
Proof.
  intros Hr Hc Hk Ho Hlr Hkp Hlk Hlc. apply (four_words (fun q m => word_common res o m key kp q)); [done|lia|]. intros q m Hq Hm Hl Hsame.
  unfold word_common. rewrite Z.add_0_l in *.
  destruct (load_spec 8 m (8 * q)) as (c & -> & Bc & Lc & Gc); [done|lia..|]. sbind.
  destruct (load_spec 8 res (o + 8 * q)) as (a & -> & Ba & La & Ga); [done|lia..|]. sbind.
  destruct (load_spec 8 key (kp + 8 * q)) as (b & -> & Bb & Lb & Gb); [done|lia..|]. sbind.
  destruct (bitwise_bytewise 8 Z.land andb) as [Hland Bland]. destruct (bitwise_bytewise 8 Z.lor orb) as [Hlor Blor].
  assert (zlen (zip_with Z.land a b) = 8) by (rewrite zlen_zip; lia).
  rewrite Hland, Hlor by (done || by apply zip_bytes_ok).
  destruct (store_spec 8 m (8 * q) (zip_with Z.lor c (zip_with Z.land a b))) as (m' & -> & Hu);
    [done|by repeat apply zip_bytes_ok|rewrite zlen_zip; lia|lia..|].
  exists m'. split; [done|]. eapply upd_ext; [exact Hu|]. intros i Hi. cbn beta. rewrite !byte_at_zip, Gc, Ga, Gb by lia.
  replace (8 * q + (i - 8 * q)) with i by lia. rewrite Hsame by lia. do 3 f_equal; lia.
Qed.

Lemma words_one_spec ks res o k common :
  Forall bytes_ok ks -> Forall (fun key => o + 32 <= zlen key) ks -> bytes_ok res -> bytes_ok common -> 0 <= o -> o + 32 <= zlen res -> o = 8 * k ->
  zlen common = 32 ->
  exists res' c', words_one ks res o k common = Some (res', c')
    /\ upd res res' o 32 (fun i => fst (foldl one_step (byte_at res i, byte_at common (i - o)) (bytes_at ks i)))
    /\ upd common c' 0 32 (fun i => snd (foldl one_step (byte_at res (o + i), byte_at common i) (bytes_at ks (o + i)))).
Proof.
  intros Hks Hlen Hr Hc Ho Hlr -> Hlc. revert res common Hr Hlr Hc Hlc. induction Hks as [|key ks Hk _ IH]; intros res common Hr Hlr Hc Hlc.
  - exists res, common. split; [done|]. split; (split_and!; [done..|]); intros i Hi; cbn [map foldl fst snd]; by destruct (_ && _).
  - apply Forall_cons in Hlen as [Hlk Hlen]. cbn [words_one].
    destruct (words_common_spec res (8 * k) common key (8 * k)) as (c1 & -> & Hc1); [done|done|done|lia|done|lia|done|done|]. sbind.
    destruct (words_op_spec Z.lxor Z.lxor res (8 * k) key (8 * k)) as (res1 & -> & Hu1); [apply (bitwise_bytewise 8 Z.lxor xorb)|done|done|lia|done|lia|done|]. sbind.
    destruct (IH Hlen res1 c1) as (res2 & c2 & -> & Hu2 & Hc2); [apply Hu1|destruct Hu1 as (_ & -> & _); done|apply Hc1|destruct Hc1 as (_ & -> & _); done|].
    assert (Hstep : forall i, 0 <= i < 32 ->
      (byte_at res1 (8 * k + i), byte_at c1 i) = one_step (byte_at res (8 * k + i), byte_at common i) (byte_at key (8 * k + i))).
    { intros i Hi. rewrite (upd_at _ _ _ _ _ _ Hu1), (upd_at _ _ _ _ _ _ Hc1) by lia. unfold one_step. cbn [fst snd].
      by replace (8 * k + i - 8 * k) with i by lia. }
    exists res2, c2. split; [done|]. split; (eapply upd_ext; [by eapply upd_trans|]); intros i Hi; cbn beta; cbn [map foldl].
    + pose proof (Hstep (i - 8 * k) ltac:(lia)) as E. replace (8 * k + (i - 8 * k)) with i in E by lia. by rewrite E.
    + by rewrite <-Hstep by lia.
Qed.

(** ** The step of the loops *)

Definition body_byte (op : bitop) (r : Z) (bs : list Z) : Z :=
  match op with
  | BITOP_AND => foldl Z.land r bs
  | BITOP_OR | BITOP_DIFF | BITOP_DIFF1 | BITOP_ANDOR => foldl Z.lor r bs
  | BITOP_XOR => foldl Z.lxor r bs
  | BITOP_NOT => 255 - r
  | BITOP_ONE => let '(o, c) := foldl one_step (r, 0) bs in o &&& (255 - c)
  end.

Lemma andnot_bytewise n : bytewise n (fun a c => a &&& bitnot n c) (fun a c => a &&& (255 - c)).
Proof.
  destruct (bitwise_bytewise n Z.land andb) as [Hland Bland]. split.
  - intros a b Ha Hb La Lb. rewrite bitnot_bytes, Hland by (done || (by apply not_bytes_ok) || by rewrite zlen_map).
    f_equal. clear. revert b. induction a as [|x a IH]; intros [|y b]; cbn; [done..|]. by rewrite IH.
  - intros a b Ha Hb. apply Bland; [done|]. unfold is_byte in *. lia.
Qed.

Lemma body_byte_one r bs : body_byte BITOP_ONE r bs = fst (foldl one_step (r, 0) bs) &&& (255 - snd (foldl one_step (r, 0) bs)).
Proof. unfold body_byte. by destruct (foldl one_step (r, 0) bs). Qed.

Lemma words_body_spec src op res o k :
  Forall bytes_ok (tail src) -> Forall (fun key => o + 32 <= zlen key) (tail src) -> bytes_ok res -> 0 <= o -> o + 32 <= zlen res -> o = 8 * k ->
  exists res', words_body src op res o k = Some res' /\ upd res res' o 32 (fun i => body_byte op (byte_at res i) (bytes_at (tail src) i)).
Proof.
  intros Hks Hlen Hr Ho Hlr Hk. destruct op; cbn [words_body body_byte].
  1-3, 5-7: apply words_fold_spec; try done; eapply bitwise_bytewise; apply _.
  - by apply words_not_spec.
  - destruct (words_one_spec (tail src) res o k (zeros 32)) as (res1 & c1 & -> & Hu1 & Hc1); [done..|apply zeros_ok|done|done|done|done|]. sbind.
    destruct (words_op_spec _ _ res1 o c1 0 (andnot_bytewise 8)) as (res2 & -> & Hu2);
      [apply Hu1|apply Hc1|done|destruct Hu1 as (_ & -> & _); done|done|destruct Hc1 as (_ & -> & _); done|].
    exists res2. split; [done|]. eapply upd_ext; [by eapply upd_trans|]. intros i Hi. cbn beta.
    rewrite (upd_at _ _ _ _ _ _ Hu1), (upd_at _ _ _ _ _ _ Hc1) by lia. rewrite Z.add_0_l. replace (o + (i - o)) with i by lia.
    rewrite !byte_at_zeros. by destruct (foldl one_step (byte_at res i, 0) _).
Qed.

(** ** By registers *)

Lemma avx_fold_spec f fb ks p w :
  bytewise 32 f fb -> Forall bytes_ok ks -> Forall (fun key => p + 32 <= zlen key) ks -> 0 <= p -> bytes_ok w -> zlen w = 32 ->
  exists w', avx_fold f ks p (le_dec w) = Some (le_dec w') /\ bytes_ok w' /\ zlen w' = 32
    /\ forall i, 0 <= i < 32 -> byte_at w' i = foldl fb (byte_at w i) (bytes_at ks (p + i)).
Proof.
  intros [Hf Bf] Hks Hlen Hp. revert w. induction Hks as [|key ks Hk _ IH]; intros w Hw Lw.
  - by exists w.
  - apply Forall_cons in Hlen as [Hlk Hlen]. cbn [avx_fold]. destruct (load_spec 32 key p) as (b & -> & Bb & Lb & Gb); [done|lia..|]. sbind.
    rewrite Hf by done. destruct (IH Hlen (zip_with fb w b)) as (w' & -> & Bw & Lw' & Gw); [by apply zip_bytes_ok|rewrite zlen_zip; lia|].
    exists w'. split_and!; try done. intros i Hi. rewrite Gw, byte_at_zip, Gb by lia. done.
Qed.

Lemma avx_one_spec ks p w c :
  Forall bytes_ok ks -> Forall (fun key => p + 32 <= zlen key) ks -> 0 <= p -> bytes_ok w -> zlen w = 32 -> bytes_ok c -> zlen c = 32 ->
  exists w' c', avx_one ks p (le_dec w) (le_dec c) = Some (le_dec w', le_dec c') /\ bytes_ok w' /\ zlen w' = 32 /\ bytes_ok c' /\ zlen c' = 32
    /\ forall i, 0 <= i < 32 -> (byte_at w' i, byte_at c' i) = foldl one_step (byte_at w i, byte_at c i) (bytes_at ks (p + i)).
Proof.
  intros Hks Hlen Hp. revert w c. induction Hks as [|key ks Hk _ IH]; intros w c Hw Lw Hc Lc.
  - by exists w, c.
  - apply Forall_cons in Hlen as [Hlk Hlen]. cbn [avx_one]. destruct (load_spec 32 key p) as (b & -> & Bb & Lb & Gb); [done|lia..|]. sbind.
    destruct (bitwise_bytewise 32 Z.land andb) as [Hland Bland]. destruct (bitwise_bytewise 32 Z.lor orb) as [Hlor Blor].
    destruct (bitwise_bytewise 32 Z.lxor xorb) as [Hlxor Blxor].
    assert (zlen (zip_with Z.land w b) = 32) by (rewrite zlen_zip; lia).
    rewrite Hland, Hlxor, Hlor by (done || by apply zip_bytes_ok).
    destruct (IH Hlen (zip_with Z.lxor w b) (zip_with Z.lor c (zip_with Z.land w b))) as (w' & c' & -> & B1 & L1 & B2 & L2 & G);
      [by apply zip_bytes_ok|rewrite zlen_zip; lia|by repeat apply zip_bytes_ok|rewrite zlen_zip; lia|].
    exists w', c'. split_and!; try done. intros i Hi. rewrite G, !byte_at_zip, Gb by lia. done.
Qed.

(** The complement of a register, by the exclusive or with ones. *)
Lemma xor_ones w : bytes_ok w -> zlen w = 32 -> Z.lxor (le_dec w) (2 ^ 256 - 1) = le_dec (map (fun b => 255 - b) w).
Proof.
  intros Hw Lw. destruct (bitwise_bytewise 32 Z.lxor xorb) as [Hf _]. change (2 ^ 256 - 1) with (le_dec (replicate 32 255)).
  rewrite Hf by (done || by apply Forall_replicate). f_equal. assert (Hl : length w = 32%nat) by (unfold zlen in Lw; lia). rewrite <-Hl. clear Lw Hl Hf.
  induction Hw as [|b w Hb _ IH]; [done|]. cbn [length replicate zip_with map]. f_equal; [by_bytes b Hb|done].
Qed.

Lemma avx_body_spec src op res p :
  Forall bytes_ok (tail src) -> Forall (fun key => p + 32 <= zlen key) (tail src) -> bytes_ok res -> 0 <= p -> p + 32 <= zlen res ->
  exists res', avx_body src op res p = Some res' /\ upd res res' p 32 (fun i => body_byte op (byte_at res i) (bytes_at (tail src) i)).
Proof.
  intros Hks Hlen Hr Hp Hlr. unfold avx_body, rest_keys. destruct (load_spec 32 res p) as (w & -> & Bw & Lw & Gw); [done|lia..|]. sbind.
  assert (Hword : exists w', match op with
    | BITOP_AND => avx_fold Z.land (tail src) p (le_dec w)
    | BITOP_OR | BITOP_DIFF | BITOP_DIFF1 | BITOP_ANDOR => avx_fold Z.lor (tail src) p (le_dec w)
    | BITOP_XOR => avx_fold Z.lxor (tail src) p (le_dec w)
    | BITOP_NOT => Some (Z.lxor (le_dec w) (2 ^ 256 - 1))
    | BITOP_ONE => '(lres, common_bits) ← avx_one (tail src) p (le_dec w) 0; Some (bitnot 32 common_bits &&& lres)
    end = Some (le_dec w') /\ bytes_ok w' /\ zlen w' = 32 /\ forall i, 0 <= i < 32 -> byte_at w' i = body_byte op (byte_at w i) (bytes_at (tail src) (p + i))).
  { destruct op; cbn [body_byte].
    1-3, 5-7: apply avx_fold_spec; try done; eapply bitwise_bytewise; apply _.
    - exists (map (fun b => 255 - b) w). rewrite xor_ones, zlen_map by done. split_and!; [done|by apply not_bytes_ok|done|].
      intros i Hi. by rewrite byte_at_map by lia.
    - change 0 with (le_dec (zeros 32)) at 1. destruct (avx_one_spec (tail src) p w (zeros 32)) as (w' & c' & -> & B1 & L1 & B2 & L2 & G);
        [done|done|done|done|done|apply zeros_ok|done|]. sbind.
      destruct (andnot_bytewise 32) as [Hf Bf]. rewrite Z.land_comm, (Hf w' c') by done.
      exists (zip_with (fun a c => a &&& (255 - c)) w' c'). split_and!; [done|by apply zip_bytes_ok|rewrite zlen_zip; lia|].
      intros i Hi. rewrite byte_at_zip by lia. specialize (G i Hi). rewrite byte_at_zeros in G. by rewrite <-G. }
  destruct Hword as (w' & -> & Bw' & Lw' & Gw'). sbind.
  destruct (store_spec 32 res p w') as (res' & -> & Hu); [done..|]. exists res'. split; [done|]. eapply upd_ext; [exact Hu|].
  intros i Hi. cbn beta. rewrite Gw', Gw by lia. by replace (p + (i - p)) with i by lia.
Qed.

(** ** The fast paths *)

Definition final_byte (op : bitop) (l f : Z) : Z :=
  match op with
  | BITOP_DIFF => f &&& (255 - l)
  | BITOP_DIFF1 => l &&& (255 - f)
  | _ => f &&& l
  end.
Definition fast_byte (op : bitop) (f : Z) (bs : list Z) : Z :=
  if disjunctive op then final_byte op (body_byte op 0 bs) f else body_byte op f bs.

Lemma zip_swap (g : Z -> Z -> Z) (a b : list Z) : zip_with (fun x y => g y x) a b = zip_with g b a.
Proof. apply zip_with_flip. Qed.

Lemma bytewise_flip n f fb : bytewise n f fb -> bytewise n (fun a b => f b a) (fun a b => fb b a).
Proof.
  intros [H1 H2]. split; [|auto]. intros a b Ha Hb La Lb. rewrite H1 by done. f_equal. symmetry. apply zip_with_flip.
Qed.

Lemma bytewise_ext n f g fb : (forall a b, f a b = g a b) -> bytewise n f fb -> bytewise n g fb.
Proof. intros He [H1 H2]. split; [|done]. intros. rewrite <-He. by apply H1. Qed.

Lemma words_final_bytewise op : bytewise 8 (words_final op) (final_byte op).
Proof.
  destruct op; cbn [words_final final_byte]; try (apply (bytewise_flip 8 Z.land Z.land); eapply bitwise_bytewise; apply _).
  - apply (bytewise_flip 8 (fun a c => a &&& bitnot 8 c)). apply andnot_bytewise.
  - eapply bytewise_ext; [|apply andnot_bytewise]. intros. apply Z.land_comm.
Qed.

Lemma tail_forall {A} (P : A -> Prop) (l : list A) : Forall P l -> Forall P (tail l).
Proof. by destruct 1. Qed.

Section fast.
Context (src : list (list Z)) (L : Z) (HL : 0 <= L) (Hsrc : Forall bytes_ok src) (Hlen : Forall (fun key => L <= zlen key) src).

Local Lemma tail_bytes : Forall bytes_ok (tail src).
Proof using Hsrc. by apply tail_forall. Qed.
Local Lemma tail_len p : p + 32 <= L -> Forall (fun key => p + 32 <= zlen key) (tail src).
Proof using Hlen. intros Hp. apply tail_forall. eapply Forall_impl; [done|]. cbn. lia. Qed.

(** A loop that does 32 bytes at a time. *)
Local Lemma bitop_loop_step op res res1 res' p j :
  upd res res1 p 32 (fun i => body_byte op (byte_at res i) (bytes_at (tail src) i)) -> 0 <= p -> p + 32 <= j ->
  upd res1 res' (p + 32) (j - (p + 32)) (fun i => body_byte op (byte_at res1 i) (bytes_at (tail src) i)) ->
  upd res res' p (j - p) (fun i => body_byte op (byte_at res i) (bytes_at (tail src) i)).
Proof using.
  intros H1 Hp Hj H2. replace (j - p) with (32 + (j - (p + 32))) by lia. eapply upd_ext; [by eapply upd_app; [exact H1|exact H2|lia..]|].
  intros i Hi. cbn beta. destruct (Z.ltb_spec i (p + 32)); [done|]. by rewrite (upd_out _ _ _ _ _ _ H1) by lia.
Qed.

Local Lemma upd_none res p g : bytes_ok res -> upd res res p (p - p) g.
Proof using. intros Hr. split_and!; [done..|]. intros i _. destruct (Z.leb_spec p i), (Z.ltb_spec i (p + (p - p))); try lia; done. Qed.

Lemma words_loop_spec fuel op res k p minlen :
  bytes_ok res -> p = 8 * k -> 0 <= p -> p + minlen = L -> L <= zlen res -> (Z.to_nat minlen <= fuel)%nat ->
  exists res' j, words_loop src fuel op res p k p minlen = Some (res', j) /\ p <= j <= Z.max p L /\ (exists n : nat, j = p + 32 * Z.of_nat n)
    /\ upd res res' p (j - p) (fun i => body_byte op (byte_at res i) (bytes_at (tail src) i)).
Proof using Hsrc Hlen.
  revert res k p minlen. induction fuel as [|fuel IH]; intros res k p minlen Hr Hk Hp HpL Hlr Hf; cbn [words_loop]; change (8 * 4) with 32 in *.
  - destruct (Z.geb_spec minlen 32); [lia|]. exists res, p. split_and!; [done|lia|lia|exists 0%nat; lia|by apply upd_none].
  - destruct (Z.geb_spec minlen 32); [|exists res, p; split_and!; [done|lia|lia|exists 0%nat; lia|by apply upd_none]].
    destruct (words_body_spec src op res p k) as (res1 & -> & Hu1); [apply tail_bytes|apply tail_len; lia|done|done|lia|done|]. sbind.
    destruct (IH res1 (k + 4) (p + 32) (minlen - 32)) as (res' & j & -> & Hj & [n Hn] & Hu); [apply Hu1|lia|lia|lia|destruct Hu1 as (_ & -> & _); lia|lia|].
    exists res', j. split_and!; [done|lia|lia|exists (S n); lia|]. eapply bitop_loop_step; [done|lia|lia|done].
Qed.

Lemma avx_loop_spec fuel op res p minlen :
  bytes_ok res -> 0 <= p -> p + minlen = L -> L <= zlen res -> (Z.to_nat minlen <= fuel)%nat ->
  exists res' j, avx_loop src fuel op res p minlen = Some (res', j) /\ p <= j <= Z.max p L /\ L < j + 32 /\ (exists n : nat, j = p + 32 * Z.of_nat n)
    /\ upd res res' p (j - p) (fun i => body_byte op (byte_at res i) (bytes_at (tail src) i)).
Proof using Hsrc Hlen.
  revert res p minlen. induction fuel as [|fuel IH]; intros res p minlen Hr Hp HpL Hlr Hf; cbn [avx_loop].
  - destruct (Z.geb_spec minlen 32); [lia|]. exists res, p. split_and!; [done|lia|lia|lia|exists 0%nat; lia|by apply upd_none].
  - destruct (Z.geb_spec minlen 32); [|exists res, p; split_and!; [done|lia|lia|lia|exists 0%nat; lia|by apply upd_none]].
    destruct (avx_body_spec src op res p) as (res1 & -> & Hu1); [apply tail_bytes|apply tail_len; lia|done|done|lia|]. sbind.
    destruct (IH res1 (p + 32) (minlen - 32)) as (res' & j & -> & Hj & HjL & [n Hn] & Hu); [apply Hu1|lia|lia|destruct Hu1 as (_ & -> & _); lia|lia|].
    exists res', j. split_and!; [done|lia|lia|lia|exists (S n); lia|]. eapply bitop_loop_step; [done|lia|lia|done].
Qed.

Local Lemma bitop_last_step op first res res1 res' p n :
  upd res res1 p 32 (fun i => final_byte op (byte_at res i) (byte_at first i)) -> 0 <= p -> 0 <= n ->
  upd res1 res' (p + 32) (32 * n) (fun i => final_byte op (byte_at res1 i) (byte_at first i)) ->
  upd res res' p (32 * (n + 1)) (fun i => final_byte op (byte_at res i) (byte_at first i)).
Proof using.
  intros H1 Hp Hn H2. replace (32 * (n + 1)) with (32 + 32 * n) by lia. eapply upd_ext; [by eapply upd_app; [exact H1|exact H2|lia..]|].
  intros i Hi. cbn beta. destruct (Z.ltb_spec i (p + 32)); [done|]. by rewrite (upd_out _ _ _ _ _ _ H1) by lia.
Qed.

Lemma words_last_spec fuel op first res p (n : nat) processed :
  bytes_ok res -> bytes_ok first -> 0 <= p -> processed = p + 32 * Z.of_nat n -> processed <= zlen res -> processed <= zlen first -> (n <= fuel)%nat ->
  exists res', words_last fuel op first res p processed = Some res'
    /\ upd res res' p (32 * Z.of_nat n) (fun i => final_byte op (byte_at res i) (byte_at first i)).
Proof using.
  revert fuel res p. induction n as [|n IH]; intros fuel res p Hr Hf Hp -> Hlr Hlf Hfuel.
  - exists res. split; [destruct fuel; cbn [words_last]; destruct (Z.ltb_spec p (p + 32 * Z.of_nat 0)); lia || done|].
    change (32 * Z.of_nat 0) with 0. replace 0 with (p - p) at 1 by lia. by apply upd_none.
  - destruct fuel as [|fuel]; [lia|]. cbn [words_last]. destruct (Z.ltb_spec p (p + 32 * Z.of_nat (S n))); [|lia]. change (8 * 4) with 32.
    destruct (words_op_spec _ _ res p first p (words_final_bytewise op)) as (res1 & -> & Hu1); [done|done|done|lia|done|lia|]. sbind.
    destruct (IH fuel res1 (p + 32)) as (res' & -> & Hu); [apply Hu1|done|lia|lia|destruct Hu1 as (_ & -> & _); lia|lia|lia|].
    exists res'. split; [done|]. rewrite Nat2Z.inj_succ. eapply bitop_last_step; [|lia| |exact Hu]; [|lia].
    eapply upd_ext; [exact Hu1|]. intros i Hi. cbn beta. by replace (p + (i - p)) with i by lia.
Qed.

Lemma avx_final_bytes op l f : bytes_ok l -> bytes_ok f -> zlen l = 32 -> zlen f = 32 ->
  match op with BITOP_DIFF => bitnot 32 (le_dec l) &&& le_dec f | BITOP_DIFF1 => bitnot 32 (le_dec f) &&& le_dec l | _ => le_dec f &&& le_dec l end
  = le_dec (zip_with (final_byte op) l f) /\ bytes_ok (zip_with (final_byte op) l f).
Proof using.
  intros Hl Hf Ll Lf. destruct (andnot_bytewise 32) as [Hn Bn]. destruct (bitwise_bytewise 32 Z.land andb) as [Ha Ba].
  destruct op; unfold final_byte; cbv iota;
    try (rewrite Ha by done; rewrite (zip_swap Z.land); split; [done|by apply zip_bytes_ok]).
  - rewrite Z.land_comm, (Hn f l) by done. rewrite (zip_swap (fun a c => a &&& (255 - c))). split; [done|by apply zip_bytes_ok].
  - rewrite Z.land_comm, (Hn l f) by done. split; [done|by apply zip_bytes_ok].
Qed.

Lemma avx_last_spec fuel op first res p (n : nat) processed :
  bytes_ok res -> bytes_ok first -> 0 <= p -> processed = p + 32 * Z.of_nat n -> processed <= zlen res -> processed <= zlen first -> (n <= fuel)%nat ->
  exists res', avx_last fuel op first res p processed = Some res'
    /\ upd res res' p (32 * Z.of_nat n) (fun i => final_byte op (byte_at res i) (byte_at first i)).
Proof using.
  revert fuel res p. induction n as [|n IH]; intros fuel res p Hr Hf Hp -> Hlr Hlf Hfuel.
  - exists res. split; [destruct fuel; cbn [avx_last]; destruct (Z.ltb_spec p (p + 32 * Z.of_nat 0)); lia || done|].
    change (32 * Z.of_nat 0) with 0. replace 0 with (p - p) at 1 by lia. by apply upd_none.
  - destruct fuel as [|fuel]; [lia|]. cbn [avx_last]. destruct (Z.ltb_spec p (p + 32 * Z.of_nat (S n))); [|lia].
    destruct (load_spec 32 res p) as (a & -> & Ba & La & Ga); [done|lia..|]. sbind.
    destruct (load_spec 32 first p) as (b & -> & Bb & Lb & Gb); [done|lia..|]. sbind.
    destruct (avx_final_bytes op a b) as [-> Bz]; [done..|].
    destruct (store_spec 32 res p (zip_with (final_byte op) a b)) as (res1 & -> & Hu1); [done|done|rewrite zlen_zip; lia|lia|lia|]. sbind.
    destruct (IH fuel res1 (p + 32)) as (res' & -> & Hu); [apply Hu1|done|lia|lia|destruct Hu1 as (_ & -> & _); lia|lia|lia|].
    exists res'. split; [done|]. rewrite Nat2Z.inj_succ. eapply bitop_last_step; [|lia| |exact Hu]; [|lia].
    eapply upd_ext; [exact Hu1|]. intros i Hi. cbn beta. rewrite byte_at_zip, Ga, Gb by lia. by replace (p + (i - p)) with i by lia.
Qed.
End fast.

(** What a fast path leaves: the first [j] bytes are done. *)
Definition done_to (op : bitop) (src : list (list Z)) (M : Z) (res : list Z) (j : Z) : Prop :=
  bytes_ok res /\ zlen res = M
  /\ forall i, 0 <= i < j -> byte_at res i = fast_byte op (byte_at (hd [] src) i) (bytes_at (tail src) i).

Section path.
Context (first : list Z) (rest : list (list Z)) (op : bitop) (L M : Z).
Abbreviation src := (first :: rest).
Context (Hsrc : Forall bytes_ok src) (Hlen : Forall (fun key => L <= zlen key) src) (H0 : 0 <= L) (HM : L <= M).

(** The copy of the first key, when there is one. *)
Local Lemma copy_first :
  exists res, (if disjunctive op then Some (zeros M) else b ← mread first 0 L; mwrite (zeros M) 0 b) = Some res
    /\ bytes_ok res /\ zlen res = M /\ forall i, 0 <= i < L -> byte_at res i = if disjunctive op then 0 else byte_at first i.
Proof using Hsrc Hlen H0 HM.
  apply Forall_cons in Hsrc as [Hf _]. apply Forall_cons in Hlen as [Hl _]. destruct (disjunctive op).
  - exists (zeros M). split_and!; [done|apply zeros_ok|apply zlen_zeros; lia|]. intros i _. apply byte_at_zeros.
  - destruct (mread_ok first 0 L) as (b & -> & Lb & Gb); [lia..|]. sbind.
    assert (Bb : bytes_ok b) by (apply bytes_ok_at; intros i Hi; unfold byte_at; rewrite Gb by lia; by apply byte_at_byte).
    destruct (write_upd (zeros M) 0 b (zeros_ok M) Bb) as (res & -> & Hu); [lia|rewrite zlen_zeros; lia|].
    exists res. split_and!; [done|apply Hu|destruct Hu as (_ & -> & _); apply zlen_zeros; lia|].
    intros i Hi. rewrite (upd_at _ _ _ _ _ _ Hu) by lia. unfold byte_at. rewrite Gb by lia. by rewrite Z.sub_0_r.
Qed.

Local Lemma path_done res1 res2 res3 j :
  bytes_ok res1 -> zlen res1 = M -> (forall i, 0 <= i < L -> byte_at res1 i = if disjunctive op then 0 else byte_at first i) -> j <= L ->
  upd res1 res2 0 (j - 0) (fun i => body_byte op (byte_at res1 i) (bytes_at rest i)) ->
  (if disjunctive op then upd res2 res3 0 j (fun i => final_byte op (byte_at res2 i) (byte_at first i)) else res3 = res2) ->
  done_to op src M res3 j.
Proof using.
  intros B1 L1 G1 Hj Hu2 Hu3. unfold done_to. cbn [hd tail]. unfold fast_byte. destruct (disjunctive op).
  - destruct Hu2 as (B2 & L2 & G2). destruct Hu3 as (B3 & L3 & G3). split_and!; [done|lia|]. intros i Hi. rewrite G3, G2, G1 by lia.
    destruct (Z.leb_spec 0 i), (Z.ltb_spec i (0 + j)), (Z.ltb_spec i (0 + (j - 0))); try lia. done.
  - subst res3. destruct Hu2 as (B2 & L2 & G2). split_and!; [done|lia|]. intros i Hi. rewrite G2, G1 by lia.
    destruct (Z.leb_spec 0 i), (Z.ltb_spec i (0 + (j - 0))); try lia. done.
Qed.

Lemma avx_spec : exists res j, bitopCommandAVX src (zeros M) op L = Some (res, j) /\ 0 <= j <= L /\ L < j + 32 /\ done_to op src M res j.
Proof using Hsrc Hlen H0 HM.
  unfold bitopCommandAVX. destruct (Z.ltb_spec L 32).
  - exists (zeros M), 0. split_and!; [done|lia..|]. split_and!; [apply zeros_ok|apply zlen_zeros; lia|lia].
  - cbn [head mbind option_bind]. destruct copy_first as (res1 & -> & B1 & L1 & G1). sbind.
    destruct (avx_loop_spec src L Hsrc Hlen (Z.to_nat L) op res1 0 L) as (res2 & j & -> & Hj & HjL & [n Hn] & Hu2); [done|lia..|]. sbind.
    pose proof Hsrc as [Hf _]%Forall_cons. pose proof Hlen as [Hl _]%Forall_cons. destruct (disjunctive op) eqn:Ed.
    + destruct (avx_last_spec (Z.to_nat L) op first res2 0 n j) as (res3 & -> & Hu3); [apply Hu2|done|lia|lia|destruct Hu2 as (_ & -> & _); lia|lia|lia|]. sbind.
      exists res3, j. split_and!; [done|lia..|]. apply (path_done res1 res2); rewrite ?Ed; try done; [lia|]. by replace j with (32 * Z.of_nat n) at 1 by lia.
    + sbind. exists res2, j. split_and!; [done|lia..|]. apply (path_done res1 res2); rewrite ?Ed; try done. lia.
Qed.

Lemma bitop_words_spec : exists res j, bitop_words src (zeros M) op 0 L = Some (res, j) /\ 0 <= j <= L /\ done_to op src M res j.
Proof using Hsrc Hlen H0 HM.
  unfold bitop_words. change (8 * 4) with 32. destruct (Z.geb_spec L 32).
  2:{ exists (zeros M), 0. split_and!; [done|lia..|]. split_and!; [apply zeros_ok|apply zlen_zeros; lia|lia]. }
  cbn [head mbind option_bind]. destruct copy_first as (res1 & -> & B1 & L1 & G1). sbind.
  destruct (words_loop_spec src L Hsrc Hlen (Z.to_nat L) op res1 0 0 L) as (res2 & j & -> & Hj & [n Hn] & Hu2); [done|lia..|]. sbind.
  pose proof Hsrc as [Hf _]%Forall_cons. pose proof Hlen as [Hl _]%Forall_cons. rewrite Z.sub_0_r. destruct (disjunctive op) eqn:Ed.
  - destruct (words_last_spec (Z.to_nat L) op first res2 0 n j) as (res3 & -> & Hu3); [apply Hu2|done|lia|lia|destruct Hu2 as (_ & -> & _); lia|lia|lia|]. sbind.
    exists res3, j. split_and!; [done|lia..|]. apply (path_done res1 res2); rewrite ?Ed; try done; [lia|]. by replace j with (32 * Z.of_nat n) at 1 by lia.
  - sbind. exists res2, j. split_and!; [done|lia..|]. apply (path_done res1 res2); rewrite ?Ed; try done. lia.
Qed.
End path.
