(* ===== verification/BitStrings.v ===== *)
(** * The strings the commands on bits work on

    The bytes of a string whatever its encoding, and a string grown with zeros. *)

From stdpp Require Import base list gmap.
From S2P Require Import Prelude Util Bits BitsSpec BitfieldSpec Bitops BitopSpec.
Local Open Scope cint_scope.

(** The bytes of a value, and values as the server keeps them. *)
Definition str_bytes (o : robj) : list Z := match o with OStr s => s | OInt v => dec v | OOther _ => [] end.
Definition robj_ok (o : robj) : Prop := match o with OStr s => bytes_ok s | OInt v => in_signed 64 v | OOther _ => True end.
Definition server_ok (s : server) : Prop := map_Forall (fun _ o => robj_ok o) (keys s).
(** The string of a key; a missing key is an empty one. *)
Definition str_of (s : server) (key : list Z) : list Z := from_option str_bytes [] (keys s !! key).

Lemma dec_bytes v : Forall (fun c => 45 <= c <= 57) (dec v).
Proof.
  unfold dec. destruct (Z.ltb_spec v 0).
  - apply Forall_cons. split; [lia|]. eapply Forall_impl; [apply udec_digits; lia|]. cbn. lia.
  - eapply Forall_impl; [apply udec_digits; lia|]. cbn. lia.
Qed.

Lemma str_bytes_ok o : robj_ok o -> bytes_ok (str_bytes o).
Proof.
  destruct o as [s|v|]; cbn; [done| |done]. intros _. eapply Forall_impl; [apply dec_bytes|]. unfold is_byte. cbn. lia.
Qed.

Lemma str_of_ok s key : server_ok s -> bytes_ok (str_of s key).
Proof. intros Hs. unfold str_of. destruct (keys s !! key) as [o|] eqn:E; [|done]. apply str_bytes_ok. by apply (Hs key). Qed.

(** The buffers are long enough for any integer. *)
Lemma int_buffer n v : in_signed 64 v -> (21 <= n)%nat ->
  exists z, ll2string (replicate n 0) 0 (Z.of_nat n) v = Some (zlen (dec v), dec v ++ 0 :: z).
Proof.
  intros Hv Hn. pose proof (dec_len v Hv) as Hl. unfold LONG_STR_SIZE in Hl.
  set (k := Z.to_nat (zlen (dec v) + 1)). exists (drop k (replicate n 0)).
  pose proof (proj1 (ll2string_spec [] (replicate n 0) [] v Hv) (take k (replicate n 0)) (drop k (replicate n 0))) as H.
  rewrite take_drop in H. specialize (H eq_refl). unfold zlen at 1 in H. rewrite length_take, length_replicate in H. specialize (H ltac:(lia)).
  rewrite !app_nil_r in H. cbn [app] in H. change (zlen []) with 0 in H. unfold zlen at 1 in H. rewrite length_replicate in H. exact H.
Qed.

Lemma getObjectReadOnlyString_spec o :
  robj_ok o -> is_string o = true -> getObjectReadOnlyString (Some o) = Some (str_bytes o).
Proof.
  destruct o as [s|v|]; cbn [getObjectReadOnlyString is_string]; [done| |done]. intros Hv _. destruct (int_buffer 21 v Hv ltac:(lia)) as [z Hz].
  change (Z.of_nat 21) with LONG_STR_SIZE in Hz. rewrite Hz. sbind. by apply (mread_app [] (dec v)).
Qed.

Lemma cstr_app s z : Forall (fun c => 45 <= c <= 57) s -> cstr (s ++ 0 :: z) = s.
Proof. induction 1 as [|c s Hc _ IH]; [done|]. cbn [app cstr]. destruct (Z.eqb_spec c 0); [lia|]. by rewrite IH. Qed.

Lemma getDecodedObject_spec o : robj_ok o -> is_string o = true -> getDecodedObject o = Some (str_bytes o).
Proof.
  destruct o as [s|v|]; cbn [getDecodedObject is_string]; [done| |done]. intros Hv _. destruct (int_buffer 32 v Hv ltac:(lia)) as [z Hz].
  change (Z.of_nat 32) with 32 in Hz. rewrite Hz. sbind. by rewrite cstr_app by apply dec_bytes.
Qed.

(** ** Growth *)

Lemma bit_of_zeros n i : bit_of (zeros n) i = false.
Proof.
  unfold bit_of, zeros. destruct (replicate (Z.to_nat n) 0 !! Z.to_nat (i / 8)) eqn:E; [|apply Z.testbit_0_l].
  apply lookup_replicate in E as [-> _]. apply Z.testbit_0_l.
Qed.

Lemma grow_bits s len i : 0 <= i -> bit_of (sdsgrowzero s len) i = bit_of s i.
Proof.
  intros Hi. unfold sdsgrowzero. destruct (Z.leb_spec len (zlen s)); [done|]. destruct (Z.lt_ge_cases i (8 * zlen s)).
  - by rewrite bit_of_app_l by lia.
  - rewrite (bit_of_past s) by lia. replace i with (8 * zlen s + (i - 8 * zlen s)) by lia. rewrite bit_of_app_r by lia. apply bit_of_zeros.
Qed.

Lemma grow_ok s len : bytes_ok s -> bytes_ok (sdsgrowzero s len).
Proof. intros Hs. unfold sdsgrowzero. destruct (len <=? zlen s); [done|]. apply Forall_app. split; [done|apply zeros_ok]. Qed.

Lemma grow_len s len : zlen (sdsgrowzero s len) = Z.max (zlen s) len.
Proof. unfold sdsgrowzero. destruct (Z.leb_spec len (zlen s)); [lia|]. rewrite zlen_app, zlen_zeros; lia. Qed.

(** The string that is written: the one of the key, long enough for the bit. *)
Lemma lookupString_spec s key maxbit :
  server_ok s -> 0 <= maxbit ->
  if checkType (keys s !! key) then lookupStringForBitCommand s key maxbit = Some (inl EWrongType)
  else let p := sdsgrowzero (str_of s key) (maxbit / 8 + 1) in
    lookupStringForBitCommand s key maxbit
    = Some (inr (with_keys s (<[key := OStr p]> (keys s)), p, zlen (str_of s key), zlen p - zlen (str_of s key))).
Proof.
  intros Hs Hm. unfold lookupStringForBitCommand, str_of. rewrite shiftr_div by lia. change (2 ^ 3) with 8.
  pose proof (Z.div_pos maxbit 8 Hm ltac:(lia)) as Hd.
  destruct (keys s !! key) as [o|] eqn:E; cbn [from_option].
  - destruct (checkType (Some o)) eqn:Et; [done|]. cbn in Et. apply negb_false_iff in Et. rewrite getDecodedObject_spec by (done || by apply (Hs key)). done.
  - cbn [checkType]. unfold sdsgrowzero. change (zlen []) with 0. destruct (Z.leb_spec (maxbit / 8 + 1) 0); [lia|]. rewrite Z.sub_0_r, app_nil_l.
    by rewrite zlen_zeros, Z.sub_0_r by lia.
Qed.
