(* ===== verification/BitopRefine.v ===== *)
(** * BITOP: the bytes, the command

    The loop over bytes, with its early exits, and the fast paths compute the
    same operation on bits; the command stores it under the target key. *)

From stdpp Require Import base list gmap numbers.
From S2P Require Import Prelude Util Bits BitsSpec BitfieldSpec Bitops BitopSpec BitStrings.
Local Open Scope cint_scope.

(** ** The bytes of the fast paths *)

Definition bits_at (k : Z) (bs : list Z) : list bool := map (fun b => Z.testbit b k) bs.

Lemma not_check b : is_byte b -> forallb (fun k => Bool.eqb (Z.testbit (255 - b) k) (negb (Z.testbit b k))) (seqZ 0 8) = true.
Proof. intros Hb. by_bytes b Hb. Qed.

Lemma testbit_not b k : is_byte b -> 0 <= k < 8 -> Z.testbit (255 - b) k = negb (Z.testbit b k).
Proof.
  intros Hb Hk. pose proof (not_check b Hb) as H. rewrite forallb_forall in H. apply Bool.eqb_prop, H, list_elem_of_In, elem_of_seqZ. lia.
Qed.

Lemma not_byte b : is_byte b -> is_byte (255 - b).
Proof. unfold is_byte. lia. Qed.

Lemma u8_lnot b : is_byte b -> u8 (Z.lnot b) = 255 - b.
Proof. intros Hb. by_bytes b Hb. Qed.

Section folds.
Context (k : Z) (Hk : 0 <= k < 8).

Lemma foldl_bits f F `{!Bitwise f F} r bs : Z.testbit (foldl f r bs) k = foldl F (Z.testbit r k) (bits_at k bs).
Proof using Hk. revert r. induction bs as [|b bs IH]; intros r; [done|]. cbn [foldl bits_at map]. rewrite IH, (bitwise_spec (F := F)) by lia. done. Qed.

Lemma foldl_byte f F `{!Bitwise f F} r bs : is_byte r -> bytes_ok bs -> is_byte (foldl f r bs).
Proof using. intros Hr Hbs. revert r Hr. induction Hbs as [|b bs Hb _ IH]; intros r Hr; [done|]. apply IH. by apply (bitwise_byte f F). Qed.

Definition one_stepb (oc : bool * bool) (b : bool) : bool * bool := (xorb (fst oc) b, snd oc || (fst oc && b)).

Lemma foldl_one r c bs :
  is_byte r -> is_byte c -> bytes_ok bs ->
  let oc := foldl one_step (r, c) bs in
  is_byte (fst oc) /\ is_byte (snd oc) /\ (Z.testbit (fst oc) k, Z.testbit (snd oc) k) = foldl one_stepb (Z.testbit r k, Z.testbit c k) (bits_at k bs).
Proof using Hk.
  intros Hr Hc Hbs. revert r c Hr Hc. induction Hbs as [|b bs Hb _ IH]; intros r c Hr Hc; [done|].
  cbn [foldl bits_at map]. change (one_step (r, c) b) with (Z.lxor r b, c ||| (r &&& b)).
  pose proof (bitwise_byte Z.lxor xorb r b Hr Hb) as B1. pose proof (bitwise_byte Z.land andb r b Hr Hb) as B2.
  pose proof (bitwise_byte Z.lor orb c _ Hc B2) as B3. destruct (IH _ _ B1 B3) as (I1 & I2 & I3). split_and!; [done..|].
  rewrite I3. by rewrite Z.lxor_spec, Z.lor_spec, Z.land_spec.
Qed.

Lemma count_true_cons b bs : count_true (b :: bs) = (if b then S (count_true bs) else count_true bs).
Proof using. unfold count_true. rewrite filter_cons. by destruct b. Qed.

Lemma one_stepb_count o c bs :
  (fst (foldl one_stepb (o, c) bs) && negb (snd (foldl one_stepb (o, c) bs))) = (negb c && bool_decide (count_true (o :: bs) = 1%nat)).
Proof using.
  revert o c. induction bs as [|b bs IH]; intros o c.
  - cbn. destruct o, c; done.
  - cbn [foldl]. change (one_stepb (o, c) b) with (xorb o b, c || (o && b)). rewrite IH, !count_true_cons.
    destruct o, c, b; cbn [xorb orb andb negb]; done.
Qed.

Lemma foldl_andb o bs : foldl andb o bs = forallb id (o :: bs).
Proof using. revert o. induction bs as [|b bs IH]; intros o; [by cbn; rewrite andb_true_r|]. cbn [foldl]. rewrite IH. cbn. by rewrite andb_assoc. Qed.
Lemma foldl_orb o bs : foldl orb o bs = existsb id (o :: bs).
Proof using. revert o. induction bs as [|b bs IH]; intros o; [by cbn; rewrite orb_false_r|]. cbn [foldl]. rewrite IH. cbn. by rewrite orb_assoc. Qed.
Lemma foldl_xorb o bs : foldl xorb o bs = foldr xorb false (o :: bs).
Proof using. revert o. induction bs as [|b bs IH]; intros o; [by cbn; rewrite xorb_false_r|]. cbn [foldl]. rewrite IH. cbn. by rewrite xorb_assoc. Qed.

Lemma fast_byte_bits op f bs :
  is_byte f -> bytes_ok bs -> is_byte (fast_byte op f bs) /\ Z.testbit (fast_byte op f bs) k = bool_op op (Z.testbit f k) (bits_at k bs).
Proof using Hk.
  intros Hf Hbs. unfold fast_byte. assert (H0 : is_byte 0) by done.
  pose proof (foldl_byte Z.lor orb 0 bs H0 Hbs) as Bd.
  assert (Hd : Z.testbit (foldl Z.lor 0 bs) k = existsb id (bits_at k bs)) by (rewrite (foldl_bits _ orb), Z.testbit_0_l; apply foldl_orb).
  destruct op; cbn [disjunctive body_byte final_byte bool_op].
  - split; [by apply (foldl_byte _ andb)|]. rewrite (foldl_bits _ andb). apply foldl_andb.
  - split; [by apply (foldl_byte _ orb)|]. rewrite (foldl_bits _ orb). apply foldl_orb.
  - split; [by apply (foldl_byte _ xorb)|]. rewrite (foldl_bits _ xorb). apply foldl_xorb.
  - split; [by apply not_byte|]. by apply testbit_not.
  - split; [apply (bitwise_byte _ andb); [done|by apply not_byte]|]. by rewrite Z.land_spec, testbit_not, Hd.
  - split; [apply (bitwise_byte _ andb); [done|by apply not_byte]|]. by rewrite Z.land_spec, testbit_not, Hd, andb_comm.
  - split; [by apply (bitwise_byte _ andb)|]. by rewrite Z.land_spec, Hd.
  - destruct (foldl_one f 0 bs Hf H0 Hbs) as (I1 & I2 & I3). destruct (foldl one_step (f, 0) bs) as [o c]. cbn [fst snd] in *.
    split; [apply (bitwise_byte _ andb); [done|by apply not_byte]|]. rewrite Z.land_spec, testbit_not by done.
    pose proof (one_stepb_count (Z.testbit f k) false (bits_at k bs)) as Hc. rewrite Z.testbit_0_l in I3. rewrite <-I3 in Hc. exact Hc.
Qed.
End folds.

(** ** The loop over bytes *)

(** A step of the inner loop on the bits of a position: the output, the
    disjunction and the bits seen more than once. *)
Definition bstep (op : bitop) (s : bool * bool * bool) (b : bool) : bool * bool * bool :=
  let '(o, d, c) := s in
  match op with
  | BITOP_AND => (o && b, d, c)
  | BITOP_OR => (o || b, d, c)
  | BITOP_XOR => (xorb o b, d, c)
  | BITOP_DIFF | BITOP_DIFF1 | BITOP_ANDOR => (o, d || b, c)
  | BITOP_ONE => let c := c || (o && b) in (xorb o b && negb c, d, c)
  | BITOP_NOT => (o, d, c)
  end.

(** When the loop is left early nothing more changes. *)
Definition settled (op : bitop) (o d c : bool) : Prop :=
  match op with
  | BITOP_AND => o = false
  | BITOP_OR => o = true
  | BITOP_DIFF | BITOP_DIFF1 | BITOP_ANDOR => d = true
  | BITOP_ONE => c = true /\ o = false
  | _ => False
  end.

Lemma settled_foldl op o d c bs : settled op o d c -> fst (foldl (bstep op) (o, d, c) bs) = (o, d).
Proof.
  revert o d c. induction bs as [|b bs IH]; intros o d c Hs; [done|]. cbn [foldl].
  destruct op; cbn [settled bstep] in *; try done; try (subst; cbn; by apply IH). destruct Hs as [-> ->]. cbn. rewrite andb_false_r. by apply IH.
Qed.

Lemma testbit_255 k : 0 <= k < 8 -> Z.testbit 255 k = true.
Proof. intros Hk. change 255 with (255 - 0). by rewrite testbit_not, Z.testbit_0_l. Qed.

Lemma key_byte_spec key j : 0 <= j -> key_byte key j = Some (byte_at key j).
Proof.
  intros Hj. unfold key_byte. destruct (Z.leb_spec (zlen key) j).
  - unfold byte_at. rewrite mget_lookup, lookup_ge_None_2 by (unfold zlen in *; lia). done.
  - apply byte_at_range. lia.
Qed.

(** The step on bytes, and when the loop is left after it. *)
Definition next_o (op : bitop) (o c b : Z) : Z :=
  match op with
  | BITOP_AND => o &&& b
  | BITOP_OR => o ||| b
  | BITOP_XOR => Z.lxor o b
  | BITOP_ONE => Z.lxor o b &&& u8 (Z.lnot (c ||| (o &&& b)))
  | _ => o
  end.
Definition next_d (op : bitop) (d b : Z) : Z := if disjunctive op then d ||| b else d.
Definition next_c (op : bitop) (o c b : Z) : Z := match op with BITOP_ONE => c ||| (o &&& b) | _ => c end.
Definition leaves (op : bitop) (o d c : Z) : bool :=
  match op with
  | BITOP_AND => o =? 0
  | BITOP_OR => o =? 0xff
  | BITOP_DIFF | BITOP_DIFF1 | BITOP_ANDOR => d =? 0xff
  | BITOP_ONE => c =? 0xff
  | _ => false
  end.

Lemma byte_keys_cons op key ks j o d c :
  0 <= j ->
  let b := byte_at key j in
  byte_keys op (key :: ks) j o d c
  = if leaves op (next_o op o c b) (next_d op d b) (next_c op o c b) then Some (next_o op o c b, next_d op d b)
    else byte_keys op ks j (next_o op o c b) (next_d op d b) (next_c op o c b).
Proof. intros Hj b. cbn [byte_keys]. rewrite key_byte_spec by done. sbind. by destruct op. Qed.

Lemma next_bytes_ok op o d c b : is_byte o -> is_byte d -> is_byte c -> is_byte b -> is_byte (next_o op o c b) /\ is_byte (next_d op d b) /\ is_byte (next_c op o c b).
Proof.
  intros Ho Hd Hc Hb. pose proof (bitwise_byte Z.land andb o b Ho Hb) as Band. pose proof (bitwise_byte Z.lor orb c _ Hc Band) as Bc.
  pose proof (bitwise_byte Z.lxor xorb o b Ho Hb) as Bx. pose proof (bitwise_byte Z.lor orb d b Hd Hb) as Bd. pose proof (bitwise_byte Z.lor orb o b Ho Hb) as Bo.
  assert (B1 : is_byte (Z.lxor o b &&& u8 (Z.lnot (c ||| (o &&& b))))).
  { rewrite u8_lnot by done. apply (bitwise_byte _ andb); [done|by apply not_byte]. }
  unfold next_o, next_d, next_c. destruct op; cbn [disjunctive]; split_and!; done.
Qed.

Lemma next_bits op o d c b k : is_byte o -> is_byte c -> is_byte b -> 0 <= k < 8 ->
  (Z.testbit (next_o op o c b) k, Z.testbit (next_d op d b) k, Z.testbit (next_c op o c b) k)
  = bstep op (Z.testbit o k, Z.testbit d k, Z.testbit c k) (Z.testbit b k).
Proof.
  intros Ho Hc Hb Hk. pose proof (bitwise_byte Z.lor orb c _ Hc (bitwise_byte Z.land andb o b Ho Hb)) as Bc.
  unfold next_o, next_d, next_c. destruct op; cbn [bstep disjunctive]; rewrite ?u8_lnot by done;
    rewrite ?Z.land_spec, ?Z.lor_spec, ?Z.lxor_spec, ?testbit_not, ?Z.lor_spec, ?Z.land_spec by done; done.
Qed.

Lemma leaves_settled op o d c b k : is_byte o -> is_byte c -> is_byte b -> 0 <= k < 8 ->
  leaves op (next_o op o c b) (next_d op d b) (next_c op o c b) = true ->
  settled op (Z.testbit (next_o op o c b) k) (Z.testbit (next_d op d b) k) (Z.testbit (next_c op o c b) k).
Proof.
  intros Ho Hc Hb Hk Hl. destruct op; cbn [leaves settled] in *; try done; apply Z.eqb_eq in Hl; rewrite Hl; rewrite ?Z.testbit_0_l, ?testbit_255 by done; try done.
  split; [done|]. pose proof (next_bits BITOP_ONE o d c b k Ho Hc Hb Hk) as E. rewrite Hl, testbit_255 in E by done. cbn [bstep] in E.
  injection E as E1 E3. etrans; [exact E1|]. rewrite <-E3. apply andb_false_r.
Qed.

Lemma byte_keys_spec op ks j o d c :
  0 <= j -> Forall bytes_ok ks -> is_byte o -> is_byte d -> is_byte c ->
  exists o' d', byte_keys op ks j o d c = Some (o', d') /\ is_byte o' /\ is_byte d'
    /\ forall k, 0 <= k < 8 -> (Z.testbit o' k, Z.testbit d' k)
         = fst (foldl (bstep op) (Z.testbit o k, Z.testbit d k, Z.testbit c k) (bits_at k (bytes_at ks j))).
Proof.
  intros Hj Hks. revert o d c. induction Hks as [|key ks Hkey Hks IH]; intros o d c Ho Hd Hc; [by exists o, d|].
  pose proof (byte_at_byte key j Hkey) as Hb. rewrite byte_keys_cons by done. cbv zeta. destruct (next_bytes_ok op o d c _ Ho Hd Hc Hb) as (Ho1 & Hd1 & Hc1).
  destruct (leaves _ _ _ _) eqn:El.
  - do 2 eexists. split_and!; [done..|]. intros k Hk. cbn [map bits_at foldl]. rewrite <-next_bits by done. by rewrite settled_foldl by (by apply leaves_settled).
  - destruct (IH _ _ _ Ho1 Hd1 Hc1) as (o' & d' & Hrun & Bo' & Bd' & G). exists o', d'. split_and!; [done..|]. intros k Hk. rewrite G by done.
    cbn [map bits_at foldl]. by rewrite next_bits by done.
Qed.

(** The bits of the steps are the operation. *)
Lemma bstep_op op x bs :
  (op = BITOP_NOT -> bs = []) ->
  let '(o, d) := fst (foldl (bstep op) (match op with BITOP_NOT => negb x | _ => x end, false, false) bs) in
  match op with BITOP_DIFF => o && negb d | BITOP_DIFF1 => negb o && d | BITOP_ANDOR => o && d | _ => o end = bool_op op x bs.
Proof.
  intros Hnot.
  assert (Hf : forall f, (forall o d c b, bstep op (o, d, c) b = (f o b, d, c)) -> forall o d c, foldl (bstep op) (o, d, c) bs = (foldl f o bs, d, c)).
  { intros f Hf. clear Hnot. induction bs as [|b bs IH]; intros o d c; [done|]. cbn [foldl]. by rewrite Hf, IH. }
  assert (Hd : forall o d c, disjunctive op = true -> foldl (bstep op) (o, d, c) bs = (o, foldl orb d bs, c)).
  { clear Hnot Hf. intros o d c Hop. revert d. induction bs as [|b bs IH]; intros d; [done|]. cbn [foldl]. replace (bstep op (o, d, c) b) with (o, d || b, c) by (by destruct op). by rewrite IH. }
  destruct op; cbn [bool_op].
  - rewrite (Hf andb) by done. apply foldl_andb.
  - rewrite (Hf orb) by done. apply foldl_orb.
  - rewrite (Hf xorb) by done. apply foldl_xorb.
  - by rewrite (Hnot eq_refl).
  - rewrite Hd by done. cbn [fst]. by rewrite foldl_orb.
  - rewrite Hd by done. cbn [fst]. by rewrite foldl_orb.
  - rewrite Hd by done. cbn [fst]. by rewrite foldl_orb.
  - clear. assert (H : forall o c, (o && c = false) -> fst (fst (foldl (bstep BITOP_ONE) (o, false, c) bs)) = negb c && bool_decide (count_true (o :: bs) = 1%nat)).
    { induction bs as [|b bs IH]; intros o c Hoc; [by destruct o, c|]. cbn [foldl bstep]. rewrite IH by (by destruct o, c, b). rewrite !count_true_cons. by destruct o, c, b. }
    specialize (H x false ltac:(by destruct x)). destruct (fst (foldl _ _ _)) as [o d]. exact H.
Qed.

Lemma u8_andnot a b : is_byte a -> is_byte b -> u8 (a &&& Z.lnot b) = a &&& (255 - b).
Proof.
  intros Ha Hb. rewrite <-u8_lnot by done. unfold wrap. apply Z.bits_inj'. intros n Hn. destruct (Z.lt_ge_cases n 8).
  - rewrite Z.mod_pow2_bits_low, !Z.land_spec, Z.mod_pow2_bits_low by lia. done.
  - rewrite Z.mod_pow2_bits_high, Z.land_spec, byte_high by (done || lia). done.
Qed.

Lemma byte_result_spec op first rest j :
  0 <= j -> Forall bytes_ok (first :: rest) -> (op = BITOP_NOT -> rest = []) ->
  exists b, byte_result op (first :: rest) j = Some b /\ is_byte b
    /\ forall k, 0 <= k < 8 -> Z.testbit b k = bool_op op (Z.testbit (byte_at first j) k) (bits_at k (bytes_at rest j)).
Proof.
  intros Hj [Hf Hrest]%Forall_cons Hnot. unfold byte_result. cbn [head tail mbind option_bind]. rewrite key_byte_spec by done. sbind.
  pose proof (byte_at_byte first j Hf) as Hb. set (f := byte_at first j) in *.
  set (o := match op with BITOP_NOT => u8 (Z.lnot f) | _ => f end).
  assert (Ho : is_byte o) by (unfold o; destruct op; try done; rewrite u8_lnot by done; by apply not_byte).
  destruct (byte_keys_spec op rest j o 0 0 Hj Hrest Ho) as (o' & d' & -> & Bo & Bd & G); [done..|]. sbind. eexists. split; [done|].
  assert (Hand : u8 (o' &&& Z.lnot d') = o' &&& (255 - d') /\ u8 (Z.lnot o' &&& d') = (255 - o') &&& d').
  { split; [|rewrite Z.land_comm, (Z.land_comm (255 - o'))]; by apply u8_andnot. }
  destruct Hand as [E1 E2]. split.
  - destruct op; try done; rewrite ?E1, ?E2; apply (bitwise_byte _ andb); try done; by apply not_byte.
  - intros k Hk. assert (Hnot' : op = BITOP_NOT -> bits_at k (bytes_at rest j) = []) by (intros Hop; by rewrite (Hnot Hop)).
    pose proof (bstep_op op (Z.testbit f k) (bits_at k (bytes_at rest j)) Hnot') as Hop. specialize (G k Hk). rewrite Z.testbit_0_l in G.
    assert (Hok : Z.testbit o k = match op with BITOP_NOT => negb (Z.testbit f k) | _ => Z.testbit f k end).
    { unfold o. destruct op; try done. by rewrite u8_lnot, testbit_not by done. }
    rewrite Hok in G. rewrite <-G in Hop. cbv beta iota in Hop. rewrite <-Hop. destruct op; try done; rewrite ?E1, ?E2, Z.land_spec, ?testbit_not by done; done.
Qed.

(** ** The computation *)

(** A result byte that is right. *)
Definition right_byte (op : bitop) (first : list Z) (rest : list (list Z)) (j b : Z) : Prop :=
  is_byte b /\ forall k, 0 <= k < 8 -> Z.testbit b k = bool_op op (Z.testbit (byte_at first j) k) (bits_at k (bytes_at rest j)).

Lemma bytes_at_ok rest j : Forall bytes_ok rest -> bytes_ok (bytes_at rest j).
Proof. induction 1; [by apply Forall_nil|]. apply Forall_cons. split; [by apply byte_at_byte|done]. Qed.

Section compute.
Context (op : bitop) (first : list Z) (rest : list (list Z)).
Context (Hsrc : Forall bytes_ok (first :: rest)) (Hnot : op = BITOP_NOT -> rest = []).
Abbreviation right := (right_byte op first rest).

Lemma bytes_loop_spec fuel res j M :
  bytes_ok res -> zlen res = M -> 0 <= j -> (Z.to_nat (M - j) <= fuel)%nat -> (forall i, 0 <= i < j -> right i (byte_at res i)) ->
  exists res', bytes_loop fuel op (first :: rest) res j M = Some res' /\ bytes_ok res' /\ zlen res' = M
    /\ forall i, 0 <= i < Z.max j M -> right i (byte_at res' i).
Proof using Hsrc Hnot.
  revert res j. induction fuel as [|fuel IH]; intros res j Hr Hl Hj Hf Hdone; cbn [bytes_loop].
  - destruct (Z.ltb_spec j M); [lia|]. exists res. split_and!; try done. intros i Hi. apply Hdone. lia.
  - destruct (Z.ltb_spec j M).
    2:{ exists res. split_and!; try done. intros i Hi. apply Hdone. lia. }
    destruct (byte_result_spec op first rest j Hj Hsrc Hnot) as (b & -> & Bb & Gb). sbind.
    assert (Hz : zlen [b] = 1) by done.
    destruct (write_upd res j [b] Hr) as (res1 & -> & Hu); [by apply Forall_singleton|done|lia|]. sbind. rewrite Hz in Hu.
    destruct (IH res1 (j + 1)) as (res' & -> & Br & Lr & G); [apply Hu|destruct Hu as (_ & -> & _); done|lia|lia| |].
    { intros i Hi. destruct (Z.eq_dec i j) as [->|].
      - rewrite (upd_at _ _ _ _ _ _ Hu) by lia. rewrite Z.sub_diag. done.
      - rewrite (upd_out _ _ _ _ _ _ Hu) by lia. apply Hdone. lia. }
    exists res'. split_and!; try done. intros i Hi. apply G. lia.
Qed.

Lemma done_right M res j : done_to op (first :: rest) M res j -> forall i, 0 <= i < j -> right i (byte_at res i).
Proof using Hsrc.
  intros (_ & _ & G) i Hi. rewrite G by done. cbn [hd tail]. apply Forall_cons in Hsrc as [Hf Hrest].
  split; [by apply (fast_byte_bits 0); [lia|apply byte_at_byte|apply bytes_at_ok]|].
  intros k Hk. apply fast_byte_bits; [done|by apply byte_at_byte|by apply bytes_at_ok].
Qed.

Lemma bitop_compute_spec v L M :
  Forall (fun key => L <= zlen key) (first :: rest) -> 0 <= L <= M ->
  exists res, bitop_compute v op (first :: rest) L M = Some res /\ bytes_ok res /\ zlen res = M
    /\ forall i, 0 <= i < M -> right i (byte_at res i).
Proof using Hsrc Hnot.
  intros Hlen [H0 HM]. unfold bitop_compute.
  assert (Hend : forall res j, 0 <= j <= L -> done_to op (first :: rest) M res j ->
    exists res', bytes_loop (Z.to_nat M) op (first :: rest) res j M = Some res' /\ bytes_ok res' /\ zlen res' = M /\ forall i, 0 <= i < M -> right i (byte_at res' i)).
  { intros res j Hj Hd. destruct (bytes_loop_spec (Z.to_nat M) res j M) as (res' & E & B & Lr & G); [apply Hd|apply Hd|lia|lia|by eapply done_right|].
    exists res'. split_and!; try done. intros i Hi. apply G. lia. }
  destruct (use_avx2 v).
  - destruct (avx_spec first rest op L M Hsrc Hlen H0 HM) as (res & j & -> & Hj & HjL & Hd). sbind.
    destruct (Z.geb_spec L j); [|lia]. cbn [negb]. sbind. change (8 * 4) with 32. destruct (Z.geb_spec (L - j) 32); [lia|]. cbn [andb].
    unfold bitop_words. change (8 * 4) with 32. destruct (Z.geb_spec (L - j) 32); [lia|]. sbind. by apply Hend.
  - sbind. rewrite andb_false_r. destruct (bitop_words_spec first rest op L M Hsrc Hlen H0 HM) as (res & j & -> & Hj & Hd). sbind. by apply Hend.
Qed.

Lemma right_bits res M : (forall i, 0 <= i < M -> right i (byte_at res i)) ->
  forall i, 0 <= i < 8 * M -> bit_of res i = bool_op op (bit_of first i) (map (fun p => bit_of p i) rest).
Proof using.
  intros H i Hi. rewrite !bit_of_byte_at by lia. destruct (H (i / 8) ltac:(div_lia)) as [_ Hb].
  rewrite (Hb (7 - i mod 8)) by (pose proof (Z.mod_pos_bound i 8); lia). f_equal. unfold bits_at. rewrite map_map.
  apply map_ext. intros p. by rewrite bit_of_byte_at by lia.
Qed.
End compute.

(** ** The command *)

Definition max_len (l : list (list Z)) : Z := foldr (fun p m => Z.max (zlen p) m) 0 l.

Lemma max_len_cons p l : max_len (p :: l) = Z.max (zlen p) (max_len l).
Proof. done. Qed.
Lemma max_len_nonneg l : 0 <= max_len l.
Proof. induction l as [|p l IH]; [done|]. rewrite max_len_cons. lia. Qed.

Lemma max_len_snoc l p : max_len (l ++ [p]) = Z.max (max_len l) (zlen p).
Proof. induction l as [|q l IH]; cbn; [pose proof (zlen_nonneg p); lia|]. fold (max_len (l ++ [p])). fold (max_len l). lia. Qed.

Lemma max_len_ge l p : p ∈ l -> zlen p <= max_len l.
Proof. induction 1; cbn; fold (max_len l); lia. Qed.

Lemma load_keys_spec s args j src L M :
  server_ok s -> j = zlen src -> 0 <= L -> Forall (fun p => L <= zlen p) src -> M = max_len src ->
  if existsb (fun a => checkType (keys s !! a)) args then load_keys s args j src L M = Some (inl EWrongType)
  else exists L', load_keys s args j src L M = Some (inr (src ++ map (str_of s) args, L', max_len (src ++ map (str_of s) args)))
    /\ 0 <= L' /\ Forall (fun p => L' <= zlen p) (src ++ map (str_of s) args).
Proof.
  intros Hs. revert j src L M. induction args as [|a args IH]; intros j src L M Hj HL Hlen HM; cbn [existsb load_keys map].
  - exists L. rewrite app_nil_r. by subst M.
  - assert (Hnext : forall p L', str_of s a = p -> 0 <= L' -> Forall (fun q => L' <= zlen q) (src ++ [p]) ->
      if existsb (fun a => checkType (keys s !! a)) args then load_keys s args (j + 1) (src ++ [p]) L' (Z.max M (zlen p)) = Some (inl EWrongType)
      else exists L'', load_keys s args (j + 1) (src ++ [p]) L' (Z.max M (zlen p)) = Some (inr (src ++ str_of s a :: map (str_of s) args, L'', max_len (src ++ str_of s a :: map (str_of s) args)))
        /\ 0 <= L'' /\ Forall (fun p => L'' <= zlen p) (src ++ str_of s a :: map (str_of s) args)).
    { intros p L' <- HL' Hl'. specialize (IH (j + 1) (src ++ [str_of s a]) L' (Z.max M (zlen (str_of s a)))).
      rewrite <-!app_assoc in IH. cbn [app] in IH. apply IH; [rewrite zlen_app; change (zlen [str_of s a]) with 1; lia|done|done|]. rewrite max_len_snoc. by subst M. }
    pose proof (zlen_nonneg src) as Hn. assert (HM0 : 0 <= M) by (subst M; apply max_len_nonneg).
    unfold str_of at 1 in Hnext. destruct (keys s !! a) as [o|] eqn:E; cbn [from_option checkType orb] in *.
    + destruct (is_string o) eqn:Et; cbn [negb orb]; [|done]. rewrite getDecodedObject_spec by (done || by apply (Hs a)). sbind.
      replace (if zlen (str_bytes o) >? M then zlen (str_bytes o) else M) with (Z.max M (zlen (str_bytes o))) by (destruct (Z.gtb_spec (zlen (str_bytes o)) M); lia).
      apply Hnext; [done|pose proof (zlen_nonneg (str_bytes o)); destruct (_ || _); lia|]. apply Forall_app. split.
      * destruct (Z.eqb_spec j 0) as [Hz|Hz]; cbn [orb]; [by destruct src; [|rewrite zlen_cons in *; pose proof (zlen_nonneg src); lia]|].
        eapply Forall_impl; [done|]. cbn. intros q Hq. destruct (Z.ltb_spec (zlen (str_bytes o)) L); lia.
      * apply Forall_singleton. destruct (Z.eqb_spec j 0); cbn [orb]; [lia|]. destruct (Z.ltb_spec (zlen (str_bytes o)) L); lia.
    + specialize (Hnext [] 0 eq_refl ltac:(lia)). change (zlen []) with 0 in Hnext. rewrite Z.max_l in Hnext by done. apply Hnext.
      apply Forall_app. split; [eapply Forall_impl; [done|]; cbn; intros; apply zlen_nonneg|by apply Forall_singleton].
Qed.

(** What the command leaves. *)
Definition bitop_post (op : bitop) (s s' : server) (target : list Z) (src : list (list Z)) : Prop :=
  match src with
  | [] => False
  | first :: rest =>
      if max_len src =? 0 then keys s' = delete target (keys s) /\ dirty s' = dirty s + (if keys s !! target then 1 else 0)
      else exists res, keys s' = <[target := OStr res]> (keys s) /\ dirty s' = dirty s + 1 /\ bytes_ok res /\ zlen res = max_len src
        /\ forall i, 0 <= i < 8 * max_len src -> bit_of res i = bool_op op (bit_of first i) (map (fun p => bit_of p i) rest)
  end.

Lemma setKey_keys s key o : keys (setKey s key o) = <[key := o]> (keys s) /\ dirty (setKey s key o) = dirty s.
Proof. unfold setKey. by destruct (keys s !! key). Qed.

Lemma bitop_run v s opname op target args :
  server_ok s -> parse_bitop opname = Some op -> args <> [] ->
  (op = BITOP_NOT -> length args = 1%nat) -> (disjunctive op = true -> (2 <= length args)%nat) ->
  existsb (fun a => checkType (keys s !! a)) args = false ->
  exists s', bitopCommand v s opname target args = Some (s', [RLong (max_len (map (str_of s) args))])
    /\ bitop_post op s s' target (map (str_of s) args).
Proof.
  intros Hs Hop Hne Hnot Hdis Htype. unfold bitopCommand. rewrite Hop.
  destruct (bool_decide (op = BITOP_NOT) && negb (zlen args + 3 =? 4)) eqn:E1.
  { apply andb_true_iff in E1 as [E%bool_decide_eq_true E2]. unfold zlen in E2. rewrite Hnot in E2 by done. done. }
  destruct (disjunctive op && (zlen args + 3 <? 5)) eqn:E2.
  { apply andb_true_iff in E2 as [E E3%Z.ltb_lt]. unfold zlen in E3. specialize (Hdis E). lia. }
  pose proof (load_keys_spec s args 0 [] 0 0 Hs eq_refl ltac:(lia) ltac:(by apply Forall_nil) eq_refl) as Hl. rewrite Htype in Hl.
  destruct Hl as (L & -> & HL & Hlen). sbind. cbn [app] in *.
  destruct args as [|a args]; [done|]. cbn [map] in *. set (first := str_of s a) in *. set (rest := map (str_of s) args) in *.
  assert (Hsrc : Forall bytes_ok (first :: rest)).
  { apply Forall_cons. split; [by apply str_of_ok|]. unfold rest. apply Forall_fmap, Forall_true. intros. by apply str_of_ok. }
  unfold bitop_post. destruct (Z.eqb_spec (max_len (first :: rest)) 0) as [Hz|Hz]; cbn [negb].
  - rewrite Hz. destruct (keys s !! target) eqn:Et; eexists; (split; [done|]); cbn.
    + by split.
    + split; [by rewrite delete_id|lia].
  - destruct (bitop_compute_spec op first rest Hsrc) with (v := v) (L := L) (M := max_len (first :: rest)) as (res & -> & Br & Lr & G); [|done| |].
    + intros Hn. specialize (Hnot Hn). unfold rest. destruct args; [done|]. cbn in Hnot. lia.
    + pose proof Hlen as [Hf _]%Forall_cons. pose proof (max_len_ge (first :: rest) first ltac:(by left)). lia.
    + sbind. eexists. split; [done|]. exists res. destruct (setKey_keys s target (OStr res)) as [Hk Hd]. cbn [keys dirty add_dirty with_effects]. rewrite Hk, Hd.
      split_and!; try done. by apply right_bits.
Qed.
