(* ===== verification/BitopsSpec.v ===== *)
(** * SETBIT, GETBIT, BITCOUNT and BITPOS: what they do

    The replies and the strings left are those of a string seen as its bits, with
    zeros past its end. *)

From stdpp Require Import base list gmap numbers.
From S2P Require Import Prelude Util Bits BitsSpec BitfieldSpec Bitops BitopSpec BitStrings.
Local Open Scope cint_scope.

(** ** SETBIT and GETBIT *)

Lemma set_byte_check b : is_byte b ->
  forallb (fun k => forallb (fun v => u8 ((b &&& Z.lnot (1 <<< k)) ||| ((v &&& 0x1) <<< k)) =? put_bit b k v) [0; 1]) (seqZ 0 8) = true.
Proof. intros Hb. by_bytes b Hb. Qed.

Lemma set_byte b k v : is_byte b -> 0 <= k < 8 -> v = 0 \/ v = 1 -> u8 ((b &&& Z.lnot (1 <<< k)) ||| ((v &&& 0x1) <<< k)) = put_bit b k v.
Proof.
  intros Hb Hk Hv. pose proof (set_byte_check b Hb) as H. rewrite forallb_forall in H.
  specialize (H k (proj1 (list_elem_of_In _ _) (proj2 (elem_of_seqZ _ _ _) Hk))). rewrite forallb_forall in H.
  apply Z.eqb_eq, H. destruct Hv as [-> | ->]; cbn; auto.
Qed.

Lemma bit_test b k : 0 <= k -> negb ((b &&& (1 <<< k)) =? 0) = Z.testbit b k.
Proof.
  intros Hk. rewrite Z.shiftl_1_l, Z.land_comm, land_pow2 by done. pose proof (Z.pow_pos_nonneg 2 k ltac:(lia) Hk).
  destruct (Z.testbit b k); [|done]. by destruct (Z.eqb_spec (2 ^ k) 0); [lia|].
Qed.

Lemma offset_range v arg hash bits off : getBitOffsetFromArgument v arg hash bits = Some (inr off) -> 0 <= off.
Proof.
  unfold getBitOffsetFromArgument. destruct (string2ll _); [|done]. destruct (_ || _); [done|]. destruct (_ || _) eqn:E; [done|]. intros [= <-].
  apply orb_false_iff in E as [E _]. lia.
Qed.

(** The bit read at a position. *)
Lemma bit_at p off b : 0 <= off -> mget p (off >>> 3) = Some b -> negb ((b &&& (1 <<< (7 - (off &&& 0x7)))) =? 0) = bit_of p off.
Proof.
  intros H0 Hb. rewrite (land_mod off 3 7), shiftr_div in * by (done || lia). change (2 ^ 3) with 8 in *.
  pose proof (Z.mod_pos_bound off 8 ltac:(lia)). rewrite bit_test by lia. by rewrite bit_of_mget, Hb by done.
Qed.

Lemma setbit_spec v s key offset bit off on_ :
  server_ok s -> getBitOffsetFromArgument v offset false 0 = Some (inr off) -> string2ll bit = Some on_ -> on_ = 0 \/ on_ = 1 ->
  checkType (keys s !! key) = false ->
  let p := str_of s key in
  exists s' q, setbitCommand v s key offset bit = Some (s', [RLong (b2i (bit_of p off))])
    /\ keys s' = <[key := OStr q]> (keys s) /\ bytes_ok q /\ zlen q = Z.max (zlen p) (off / 8 + 1)
    /\ (forall i, 0 <= i -> bit_of q i = if i =? off then on_ =? 1 else bit_of p i)
    /\ dirty s' = dirty s + (if (zlen q =? zlen p) && Bool.eqb (bit_of p off) (on_ =? 1) then 0 else 1).
Proof.
  intros Hs Hoff Hbit Hon Htype p. pose proof (offset_range _ _ _ _ _ Hoff) as H0. unfold setbitCommand. rewrite Hoff. sbind. unfold getLongLong. rewrite Hbit.
  assert (Hon' : negb ((on_ &&& Z.lnot 1) =? 0) = false) by (by destruct Hon as [-> | ->]). rewrite Hon'.
  pose proof (lookupString_spec s key off Hs H0) as Hl. rewrite Htype in Hl. cbv zeta in Hl. rewrite Hl. clear Hl. sbind. fold p.
  pose proof (grow_bits p (off / 8 + 1)) as Gg. pose proof (grow_ok p (off / 8 + 1) (str_of_ok s key Hs)) as Bg. pose proof (grow_len p (off / 8 + 1)) as Lg.
  set (g := sdsgrowzero p (off / 8 + 1)) in *. pose proof (zlen_nonneg p).
  assert (Hr : 0 <= off < 8 * zlen g) by (rewrite Lg; div_lia).
  destruct (write_bit g off on_ Bg Hr Hon) as (b & q & Hb & Hq & Bq & Lq & Gq). rewrite Hb. sbind.
  assert (Hk : 0 <= 7 - (off &&& 0x7) < 8).
  { rewrite (land_mod off 3 7) by (done || lia). change (2 ^ 3) with 8. pose proof (Z.mod_pos_bound off 8). lia. }
  rewrite (bit_at g off b H0 Hb), set_byte, (Gg off H0) by (done || exact (mget_byte _ _ _ Bg Hb)).
  destruct (negb (zlen g - zlen p =? 0) || negb (b2i (bit_of p off) =? on_)) eqn:Ec.
  - rewrite Hq. sbind. eexists _, q. split; [done|]. cbn [keys dirty with_effects add_dirty with_keys]. split_and!; [by rewrite insert_insert_eq|done|lia| |].
    + intros i Hi. by rewrite Gq, Gg by done.
    + destruct (Z.eqb_spec (zlen q) (zlen p)) as [Ez|]; [|done]. rewrite Lq in Ez. rewrite Ez, Z.sub_diag in Ec. cbn in Ec.
      destruct Hon as [-> | ->], (bit_of p off); done.
  - apply orb_false_iff in Ec as [E1 E2]. apply negb_false_iff, Z.eqb_eq in E1, E2. exists (with_keys s (<[key := OStr g]> (keys s))), g. split; [done|]. cbn [keys dirty with_keys].
    split_and!; [done..| |].
    + intros i Hi. rewrite Gg by done. destruct (Z.eqb_spec i off) as [->|]; [|done]. rewrite <-E2. by destruct (bit_of p off).
    + replace (zlen g) with (zlen p) by lia. rewrite Z.eqb_refl, <-E2. destruct (bit_of p off); cbn; lia.
Qed.

Lemma getbit_spec v s key offset off :
  server_ok s -> getBitOffsetFromArgument v offset false 0 = Some (inr off) -> checkType (keys s !! key) = false ->
  getbitCommand v s key offset = Some (s, [RLong (b2i (bit_of (str_of s key) off))]).
Proof.
  intros Hs Hoff Htype. pose proof (offset_range _ _ _ _ _ Hoff) as H0. unfold getbitCommand. rewrite Hoff. sbind. unfold str_of.
  assert (Hread : forall p, (if off >>> 3 <? zlen p then b ← mget p (off >>> 3); Some (b &&& (1 <<< (7 - (off &&& 0x7)))) else Some 0)
    ≫= (fun bitval => Some (s, [RLong (b2i (negb (bitval =? 0)))])) = Some (s, [RLong (b2i (bit_of p off))])).
  { intros p. assert (0 <= off >>> 3) by (apply Z.shiftr_nonneg; lia). destruct (Z.ltb_spec (off >>> 3) (zlen p)).
    - destruct (mget_in p (off >>> 3) ltac:(lia)) as [b Hb]. rewrite Hb. sbind. by rewrite (bit_at p off b H0 Hb).
    - sbind. rewrite bit_of_past; [done|]. rewrite shiftr_div in * by lia. change (2 ^ 3) with 8 in *. div_lia. }
  destruct (keys s !! key) as [[p|n|t]|] eqn:E; cbn [checkType is_string negb from_option str_bytes] in *; [apply Hread| |done|].
  - destruct (int_buffer 32 n ltac:(by apply (Hs key (OInt n))) ltac:(lia)) as [z Hz]. change (Z.of_nat 32) with 32 in Hz. rewrite Hz. sbind.
    rewrite <-(Hread (dec n)). f_equal. assert (0 <= off >>> 3) by (apply Z.shiftr_nonneg; lia). destruct (Z.ltb_spec (off >>> 3) (zlen (dec n))); [|done].
    rewrite mget_app_if by done. by destruct (Z.ltb_spec (off >>> 3) (zlen (dec n))); [|lia].
  - by rewrite bit_of_nil.
Qed.

(** ** BITCOUNT *)

(** The number of bits set among [n] positions from [a] on. *)
Definition set_in (p : list Z) (a n : Z) : Z := Z.of_nat (length (filter (fun i => bit_of p i = true) (seqZ a n))).

Lemma set_in_app p a n m : 0 <= n -> 0 <= m -> set_in p a (n + m) = set_in p a n + set_in p (a + n) m.
Proof. intros Hn Hm. unfold set_in. rewrite seqZ_app by done. rewrite filter_app, length_app. lia. Qed.

Lemma filter_map_length {A B} (f : A -> B) (P : B -> Prop) `{forall x, Decision (P x)} (l : list A) :
  length (filter P (map f l)) = length (filter (fun x => P (f x)) l).
Proof. induction l as [|x l IH]; [done|]. cbn [map]. rewrite !filter_cons. destruct (decide (P (f x))); cbn [length]; by rewrite IH. Qed.

(** Positions in a byte. *)
Lemma set_in_byte p j a n : 0 <= j -> 0 <= a -> 0 <= n -> a + n <= 8 ->
  set_in p (8 * j + a) n = Z.of_nat (length (filter (fun i => Z.testbit (byte_at p j) (7 - i) = true) (seqZ a n))).
Proof.
  intros Hj Ha Hn Hl. unfold set_in. rewrite <-fmap_add_seqZ. f_equal. etrans; [apply filter_map_length|]. f_equal.
  apply filter_ext_elem. intros i Hi%elem_of_seqZ. rewrite bit_of_byte_at by lia.
  replace ((8 * j + i) / 8) with j by div_lia. by replace ((8 * j + i) mod 8) with i by div_lia.
Qed.

Lemma byte_set_check b : is_byte b -> ones_upto 8 b = Z.of_nat (length (filter (fun i => Z.testbit b (7 - i) = true) (seqZ 0 8))).
Proof. intros Hb. by_bytes b Hb. Qed.

Lemma set_in_block a bs c : bytes_ok bs -> set_in (a ++ bs ++ c) (8 * zlen a) (8 * zlen bs) = count_ones bs.
Proof.
  intros Hbs. revert a. induction Hbs as [|b bs Hb _ IH]; intros a; [done|]. rewrite zlen_cons. pose proof (zlen_nonneg bs). pose proof (zlen_nonneg a).
  replace (8 * (1 + zlen bs)) with (8 + 8 * zlen bs) by lia. rewrite set_in_app by lia. rewrite count_ones_cons. f_equal.
  - rewrite byte_set_check by done. rewrite <-(Z.add_0_r (8 * zlen a)), set_in_byte by lia. unfold byte_at. cbn [app]. by rewrite mget_app.
  - rewrite <-(IH (a ++ [b])), <-app_assoc, zlen_app. f_equal. change (zlen [b]) with 1. lia.
Qed.

(** The bits of the two bytes at the ends that are not in the range. *)
Lemma edges_check b : is_byte b ->
  forallb (fun s => (ones_upto 8 (b &&& (Z.lnot ((1 <<< (8 - s)) - 1) &&& 0xFF)) =? Z.of_nat (length (filter (fun i => Z.testbit b (7 - i) = true) (seqZ 0 s))))
    && (ones_upto 8 (b &&& ((1 <<< (7 - s)) - 1)) =? Z.of_nat (length (filter (fun i => Z.testbit b (7 - i) = true) (seqZ (s + 1) (7 - s)))))
    && (0 <=? b &&& (Z.lnot ((1 <<< (8 - s)) - 1) &&& 0xFF)) && (b &&& (Z.lnot ((1 <<< (8 - s)) - 1) &&& 0xFF) <? 256)
    && (0 <=? b &&& ((1 <<< (7 - s)) - 1)) && (b &&& ((1 <<< (7 - s)) - 1) <? 256)) (seqZ 0 8) = true.
Proof. intros Hb. by_bytes b Hb. Qed.

Definition first_mask (s : Z) : Z := Z.lnot ((1 <<< (8 - s)) - 1) &&& 0xFF.
Definition last_mask (e : Z) : Z := (1 <<< (7 - e)) - 1.

Lemma edges p j s : bytes_ok p -> 0 <= j -> 0 <= s < 8 ->
  (is_byte (byte_at p j &&& first_mask s) /\ ones_upto 8 (byte_at p j &&& first_mask s) = set_in p (8 * j) s)
  /\ is_byte (byte_at p j &&& last_mask s) /\ ones_upto 8 (byte_at p j &&& last_mask s) = set_in p (8 * j + s + 1) (7 - s).
Proof.
  intros Hp Hj Hs. pose proof (edges_check (byte_at p j) (byte_at_byte p j Hp)) as H. rewrite forallb_forall in H.
  specialize (H s (proj1 (list_elem_of_In _ _) (proj2 (elem_of_seqZ _ _ _) Hs))). rewrite !andb_true_iff in H.
  destruct H as [[[[[H1 H2] H3] H4] H5] H6]. unfold first_mask, last_mask, is_byte.
  rewrite <-(Z.add_0_r (8 * j)) at 1. rewrite set_in_byte by lia. replace (8 * j + s + 1) with (8 * j + (s + 1)) by lia. rewrite set_in_byte by lia. lia.
Qed.

Lemma count_two v base f l : is_byte f -> is_byte l -> redisPopcount [f; l] base v 0 2 = Some (ones_upto 8 f + ones_upto 8 l).
Proof.
  intros Hf Hl. pose proof (redisPopcount_spec base [] [] v 0 [f; l]) as H. cbn [app] in H. change (zlen [f; l]) with 2 in H.
  rewrite H; [|by repeat (apply Forall_cons; split; [done|])|lia|done]. cbn [count_ones foldr]. f_equal. lia.
Qed.

Lemma mask_zero_first s : 0 <= s < 8 -> first_mask s = 0 -> s = 0.
Proof. intros Hs. assert (s = 0 \/ s = 1 \/ s = 2 \/ s = 3 \/ s = 4 \/ s = 5 \/ s = 6 \/ s = 7) as Hc by lia. by destruct Hc as [->|[->|[->|[->|[->|[->|[-> | ->]]]]]]]. Qed.
Lemma mask_zero_last e : 0 <= e < 8 -> last_mask e = 0 -> e = 7.
Proof. intros Hs. assert (e = 0 \/ e = 1 \/ e = 2 \/ e = 3 \/ e = 4 \/ e = 5 \/ e = 6 \/ e = 7) as Hc by lia. by destruct Hc as [->|[->|[->|[->|[->|[->|[-> | ->]]]]]]]. Qed.

(** The count of the bits from [a] to [b]. *)
Lemma count_range_spec v p a b :
  bytes_ok p -> 8 * zlen p < 2 ^ 63 -> 0 <= a <= b -> b < 8 * zlen p ->
  count_range v p (a / 8) (b / 8) (first_mask (a mod 8)) (last_mask (b mod 8)) = Some (set_in p a (b - a + 1)).
Proof.
  intros Hp Hs Hab Hb. unfold count_range. pose proof (Z.div_mod a 8 ltac:(lia)) as Da. pose proof (Z.mod_pos_bound a 8 ltac:(lia)) as Ma.
  pose proof (Z.div_mod b 8 ltac:(lia)) as Db. pose proof (Z.mod_pos_bound b 8 ltac:(lia)) as Mb. set (j := a / 8) in *. set (k := b / 8) in *.
  destruct (Z.gtb_spec j k); [lia|]. destruct (region_split p j (k - j + 1)) as (u & bs & w & Ep & Lu & Lb); [lia..|].
  assert (Bbs : bytes_ok bs) by (rewrite Ep, !Forall_app in Hp; tauto).
  assert (Hpop : redisPopcount p (addr v) (use_popcnt v) j (k - j + 1) = Some (set_in p (8 * j) (8 * (k - j + 1)))).
  { rewrite Ep, <-Lb. rewrite redisPopcount_spec; [|done|rewrite Ep, !zlen_app in Hs; pose proof (zlen_nonneg u); pose proof (zlen_nonneg w); lia|done].
    by rewrite <-Lu, set_in_block. }
  rewrite Hpop. sbind.
  destruct (edges p j (a mod 8) Hp ltac:(lia) Ma) as [[Bf Ef] _]. destruct (edges p k (b mod 8) Hp ltac:(lia) Mb) as (_ & Bl & El).
  assert (Hsum : set_in p (8 * j) (8 * (k - j + 1)) = set_in p (8 * j) (a mod 8) + set_in p a (b - a + 1) + set_in p (8 * k + b mod 8 + 1) (7 - b mod 8)).
  { replace (8 * (k - j + 1)) with (a mod 8 + ((b - a + 1) + (7 - b mod 8))) by lia. rewrite !set_in_app by lia.
    replace (8 * j + a mod 8) with a by lia. replace (a + (b - a + 1)) with (8 * k + b mod 8 + 1) by lia. lia. }
  rewrite (byte_at_range p j), (byte_at_range p k) by lia.
  assert (Hf : (if negb (first_mask (a mod 8) =? 0) then Some (byte_at p j) ≫= (fun b => Some (b &&& first_mask (a mod 8))) else Some 0) = Some (byte_at p j &&& first_mask (a mod 8))).
  { destruct (Z.eqb_spec (first_mask (a mod 8)) 0) as [->|]; [by rewrite Z.land_0_r|done]. }
  assert (Hl : (if negb (last_mask (b mod 8) =? 0) then Some (byte_at p k) ≫= (fun x => Some (x &&& last_mask (b mod 8))) else Some 0) = Some (byte_at p k &&& last_mask (b mod 8))).
  { destruct (Z.eqb_spec (last_mask (b mod 8)) 0) as [->|]; [by rewrite Z.land_0_r|done]. }
  rewrite Hf, Hl. sbind. rewrite count_two by done. sbind. rewrite Ef, El, Hsum.
  destruct (negb (first_mask (a mod 8) =? 0) || negb (last_mask (b mod 8) =? 0)) eqn:E; [f_equal; lia|].
  apply orb_false_iff in E as [E1 E2]. apply negb_false_iff, Z.eqb_eq in E1, E2. apply mask_zero_first in E1; [|done]. apply mask_zero_last in E2; [|done].
  rewrite E1, E2. change (set_in p (8 * j) 0) with 0. change (set_in p (8 * k + 7 + 1) (7 - 7)) with 0. f_equal. lia.
Qed.

(** The bits of a string of [len] bytes from one position to another or, without
    one, to the end: positions are those of bits or of bytes, counted from the end
    when negative, and an end before the first position stands for it. *)
Definition in_bits (isbit : bool) (len start : Z) (end_ : option Z) (i : Z) : bool :=
  let total := if isbit then 8 * len else len in
  let pos := if isbit then i else i / 8 in
  (0 <=? i) && (i <? 8 * len) && (start <=? index_like total pos start)
  && match end_ with Some e => (index_like total pos e <=? e) || (pos =? 0) | None => true end.

(** The number of bits set among those a test selects. *)
Definition count_set (p : list Z) (sel : Z -> bool) : Z :=
  Z.of_nat (length (filter (fun i => sel i && bit_of p i = true) (seqZ 0 (8 * zlen p)))).

(** The first and the last bit of the range the code computes. *)
Definition range_bits (isbit : bool) (len start end_ : Z) : Z * Z :=
  let '(s, e) := adjust_range (if isbit then 8 * len else len) start end_ in
  if isbit then (s, e) else (8 * s, 8 * e + 7).

Lemma adjust_bounds t start end_ : 0 <= t -> let '(s, e) := adjust_range t start end_ in 0 <= s /\ e < t.
Proof. intros Ht. unfold adjust_range. zcase; lia. Qed.

Lemma range_bits_bounds isbit len start end_ : 0 <= len -> let '(lo, hi) := range_bits isbit len start end_ in 0 <= lo /\ hi < 8 * len.
Proof.
  intros Hl. unfold range_bits. pose proof (adjust_bounds (if isbit then 8 * len else len) start end_ ltac:(destruct isbit; lia)) as Hb.
  destruct (adjust_range _ _ _), isbit; lia.
Qed.

(** It is the range of the positions. *)
Lemma in_bits_range isbit len start end_ i :
  0 <= len ->
  let '(lo, hi) := range_bits isbit len start end_ in in_bits isbit len start (Some end_) i = (lo <=? i) && (i <=? hi).
Proof.
  intros Hl. unfold range_bits. pose proof (adjust_bounds (if isbit then 8 * len else len) start end_ ltac:(destruct isbit; lia)) as Hb.
  unfold adjust_range in *. unfold in_bits, index_like. cbv zeta in *.
  destruct isbit; (destruct (Z.ltb_spec start 0), (Z.ltb_spec end_ 0)); repeat case_match; apply eq_true_iff_eq;
    rewrite ?andb_true_iff, ?orb_true_iff; div_lia.
Qed.

Lemma in_bits_open len start i : in_bits false len start None i = in_bits false len start (Some (len - 1)) i.
Proof.
  unfold in_bits, index_like. cbv zeta. destruct (Z.ltb_spec start 0), (Z.ltb_spec (len - 1) 0); apply eq_true_iff_eq;
    rewrite ?andb_true_iff, ?orb_true_iff; div_lia.
Qed.

Lemma range_bits_open len start :
  0 <= len -> let '(lo, hi) := range_bits false len start (len - 1) in lo <= hi -> hi = 8 * len - 1.
Proof. intros Hl. unfold range_bits, adjust_range. cbv zeta. repeat case_match; lia. Qed.

Lemma filter_between lo n m : 0 <= lo -> 0 <= n -> lo + n <= m ->
  filter (fun i => lo <= i <= lo + n - 1) (seqZ 0 m) = seqZ lo n.
Proof.
  intros H1 H2 H3. replace m with (lo + (n + (m - lo - n))) by lia. rewrite !seqZ_app, !filter_app by lia.
  assert (Hno : forall a k, (forall i, a <= i < a + k -> ~ lo <= i <= lo + n - 1) -> filter (fun i => lo <= i <= lo + n - 1) (seqZ a k) = []).
  { intros a k H. apply filter_none. intros i Hi%elem_of_seqZ. by apply H. }
  rewrite (Hno 0 lo), (Hno _ (m - lo - n)) by lia. cbn [app]. rewrite app_nil_r, Z.add_0_l. apply filter_all. intros i Hi%elem_of_seqZ. lia.
Qed.

Lemma count_set_range p sel lo hi :
  0 <= lo -> hi < 8 * zlen p -> (forall i, sel i = (lo <=? i) && (i <=? hi)) -> count_set p sel = set_in p lo (hi - lo + 1).
Proof.
  intros Hlo Hhi Hsel. unfold count_set, set_in. do 2 f_equal. destruct (Z.leb_spec lo hi).
  - rewrite <-(filter_between lo (hi - lo + 1) (8 * zlen p)) by lia. rewrite list_filter_filter. apply list_filter_iff. intros i.
    rewrite Hsel, !andb_true_iff, !Z.leb_le. split; [intros [[? ?] ?]|intros [? ?]]; (split; [try done; lia|try done; lia]).
  - rewrite (seqZ_nil lo) by lia. apply filter_none. intros i _. rewrite Hsel. destruct (Z.leb_spec lo i), (Z.leb_spec i hi); done || lia.
Qed.

(** The bytes and the masks of a range are those of its bits. *)
Lemma edge_masks_range isbit len start end_ :
  0 <= len ->
  let '(lo, hi) := range_bits isbit len start end_ in
  let '(s, e) := adjust_range (if isbit then len <<< 3 else len) start end_ in
  0 <= lo /\ hi < 8 * len
  /\ if lo <=? hi then s <= e /\ edge_masks isbit s e = (lo / 8, hi / 8, first_mask (lo mod 8), last_mask (hi mod 8))
     else s > e /\ edge_masks isbit s e = (s, e, 0, 0).
Proof.
  intros Hl. unfold range_bits. replace (len <<< 3) with (8 * len) by (rewrite Z.shiftl_mul_pow2 by lia; lia).
  pose proof (adjust_bounds (if isbit then 8 * len else len) start end_ ltac:(destruct isbit; lia)) as Hb.
  destruct (adjust_range _ _ _) as [s e]. destruct Hb as [Hs He]. unfold edge_masks. destruct isbit; cbn [andb].
  - split_and!; [done..|]. destruct (Z.leb_spec s e); [|split; [lia|done]]. split; [done|].
    by rewrite !shiftr_div, (land_mod s 3 7), (land_mod e 3 7) by (done || lia).
  - split_and!; [lia..|]. destruct (Z.leb_spec (8 * s) (8 * e + 7)); [|split; [lia|done]]. split; [lia|].
    replace (8 * s / 8) with s by div_lia. replace ((8 * e + 7) / 8) with e by div_lia.
    replace ((8 * s) mod 8) with 0 by div_lia. by replace ((8 * e + 7) mod 8) with 7 by div_lia.
Qed.

Lemma set_in_neg p a n : n <= 0 -> set_in p a n = 0.
Proof. intros Hn. unfold set_in. by rewrite seqZ_nil. Qed.

Lemma read_string s key : server_ok s -> checkType (keys s !! key) = false -> getObjectReadOnlyString (keys s !! key) = Some (str_of s key).
Proof.
  intros Hs Ht. unfold str_of. destruct (keys s !! key) as [o|] eqn:E; [|done]. cbn in Ht |- *. apply negb_false_iff in Ht.
  apply getObjectReadOnlyString_spec; [by apply (Hs key)|done].
Qed.

Lemma len_limit (p : list Z) : 8 * zlen p < 2 ^ 63 -> (zlen p <=? LLONG_MAX >>> 3) = true.
Proof. intros H. apply Z.leb_le. change (LLONG_MAX >>> 3) with (2 ^ 60 - 1). lia. Qed.

(** The unit at the end of the arguments, bytes when there is none. *)
Definition unit_of (rest : list (list Z)) (isbit : bool) : Prop :=
  (rest = [] /\ isbit = false) \/ exists u, rest = [u] /\ getUnit u = inr isbit.

Lemma bitcount_spec v s cmd key startarg endarg rest start end_ isbit :
  server_ok s -> checkType (keys s !! key) = false -> 8 * zlen (str_of s key) < 2 ^ 63 ->
  string2ll startarg = Some start -> string2ll endarg = Some end_ -> unit_of rest isbit ->
  let '(lo, hi) := range_bits isbit (zlen (str_of s key)) start end_ in
  bitcountCommand v s (cmd :: key :: startarg :: endarg :: rest)
  = Some (s, [RLong (if (start <? 0) && (end_ <? 0) && (start >? end_) then 0 else set_in (str_of s key) lo (hi - lo + 1))]).
Proof.
  intros Hs Ht Hl Hstart Hend Hunit. pose proof (edge_masks_range isbit (zlen (str_of s key)) start end_ (zlen_nonneg _)) as Hr.
  destruct (range_bits _ _ _ _) as [lo hi]. unfold bitcountCommand, getLongLong. rewrite Hstart, Hend.
  assert (Hu : (5 <? zlen (cmd :: key :: startarg :: endarg :: rest)) = false /\ match rest with u :: _ => getUnit u | [] => inr false end = inr isbit).
  { destruct Hunit as [[-> ->]|(u & -> & Hu)]; by split. }
  destruct Hu as [-> ->]. rewrite Ht, read_string by done. sbind. rewrite len_limit by done. cbn [negb].
  destruct (_ && (start >? end_)); [done|]. destruct (adjust_range _ _ _) as [s0 e0]. destruct Hr as (H0 & Hhi & Hr).
  destruct (Z.leb_spec lo hi) as [Hle|Hgt]; destruct Hr as [Hse ->].
  - destruct (keys s !! key) as [o|] eqn:E.
    + rewrite count_range_spec by (lia || by apply str_of_ok). done.
    + unfold str_of in Hhi. rewrite E in Hhi. cbn in Hhi. change (zlen []) with 0 in Hhi. lia.
  - rewrite set_in_neg by lia. destruct (keys s !! key); [|done]. unfold count_range. by destruct (Z.gtb_spec s0 e0); [|lia].
Qed.

Lemma bitcount_all_spec v s cmd key :
  server_ok s -> checkType (keys s !! key) = false -> 8 * zlen (str_of s key) < 2 ^ 63 ->
  bitcountCommand v s [cmd; key] = Some (s, [RLong (set_in (str_of s key) 0 (8 * zlen (str_of s key)))]).
Proof.
  intros Hs Ht Hl. unfold bitcountCommand. rewrite Ht, read_string by done. sbind. pose proof (zlen_nonneg (str_of s key)) as Hn.
  destruct (keys s !! key) as [o|] eqn:E.
  - destruct (Z.eq_dec (zlen (str_of s key)) 0) as [Hz|Hz]; [by rewrite Hz|].
    pose proof (count_range_spec v (str_of s key) 0 (8 * (zlen (str_of s key) - 1) + 7) (str_of_ok s key Hs) Hl ltac:(lia) ltac:(lia)) as H.
    replace ((8 * (zlen (str_of s key) - 1) + 7) / 8) with (zlen (str_of s key) - 1) in H by div_lia.
    replace ((8 * (zlen (str_of s key) - 1) + 7) mod 8) with 7 in H by div_lia. change (0 / 8) with 0 in H. change (0 mod 8) with 0 in H.
    change (first_mask 0) with 0 in H. change (last_mask 7) with 0 in H. rewrite H. sbind.
    by replace (8 * (zlen (str_of s key) - 1) + 7 - 0 + 1) with (8 * zlen (str_of s key)) by lia.
  - unfold str_of. by rewrite E.
Qed.
