(* ===== verification/BitposSpec.v ===== *)
(** * BITPOS: what it finds

    The first bit of a value in a range of positions, found by bytes, with the
    bits of the first and of the last byte that are not in the range hidden. *)

From stdpp Require Import base list gmap numbers.
From S2P Require Import Prelude Util Bits BitsSpec BitfieldSpec Bitops BitopSpec BitStrings BitopsSpec.
Local Open Scope cint_scope.

(** ** The hidden bits *)

Lemma hide_check b : is_byte b ->
  forallb (fun bit => forallb (fun k =>
    (0 <=? hide bit b (first_mask k)) && (hide bit b (first_mask k) <? 256) && (0 <=? hide bit b (last_mask k)) && (hide bit b (last_mask k) <? 256) &&
    forallb (fun i => Bool.eqb (Z.testbit (hide bit b (first_mask k)) (7 - i)) (if k <=? i then Z.testbit b (7 - i) else negb (bit =? 1))
      && Bool.eqb (Z.testbit (hide bit b (last_mask k)) (7 - i)) (if i <=? k then Z.testbit b (7 - i) else negb (bit =? 1))) (seqZ 0 8)) (seqZ 0 8)) [0; 1] = true.
Proof. intros Hb. by_bytes b Hb. Qed.

Lemma hide_spec bit b k :
  bit = 0 \/ bit = 1 -> is_byte b -> 0 <= k < 8 ->
  is_byte (hide bit b (first_mask k)) /\ is_byte (hide bit b (last_mask k))
  /\ forall i, 0 <= i < 8 ->
       Z.testbit (hide bit b (first_mask k)) (7 - i) = (if k <=? i then Z.testbit b (7 - i) else negb (bit =? 1))
       /\ Z.testbit (hide bit b (last_mask k)) (7 - i) = (if i <=? k then Z.testbit b (7 - i) else negb (bit =? 1)).
Proof.
  intros Hbit Hb Hk. pose proof (hide_check b Hb) as H. rewrite forallb_forall in H. specialize (H bit ltac:(destruct Hbit as [-> | ->]; cbn; auto)).
  rewrite forallb_forall in H. specialize (H k (proj1 (list_elem_of_In _ _) (proj2 (elem_of_seqZ _ _ _) Hk))).
  rewrite !andb_true_iff, forallb_forall in H. destruct H as [[[[H1 H2] H3] H4] H5]. unfold is_byte. split_and!; [lia..|].
  intros i Hi. specialize (H5 i (proj1 (list_elem_of_In _ _) (proj2 (elem_of_seqZ _ _ _) Hi))). apply andb_true_iff in H5 as [E1 E2].
  split; by apply Bool.eqb_prop.
Qed.

Section bitpos.
Context (bit : Z) (Hbit : bit = 0 \/ bit = 1).
Abbreviation bitb := (bit =? 1).

(** The first bit of the value among some positions; no such bit. *)
Definition found (p : list Z) (lo hi r : Z) : Prop :=
  lo <= r < hi /\ bit_of p r = bitb /\ forall i, lo <= i < r -> bit_of p i = negb bitb.
Definition none (p : list Z) (lo hi : Z) : Prop := forall i, lo <= i < hi -> bit_of p i = negb bitb.

Lemma found_after p lo mid hi r : none p lo mid -> found p mid hi r -> lo <= mid -> found p lo hi r.
Proof.
  intros Hn (Hr & Hb & Hi) Hle. split_and!; [lia..|done|]. intros i Hlt. destruct (Z.lt_ge_cases i mid); [apply Hn; lia|apply Hi; lia].
Qed.
Lemma found_wider p lo mid hi r : found p lo mid r -> mid <= hi -> found p lo hi r.
Proof. intros (Hr & Hb & Hi) Hle. split_and!; [lia..|done|done]. Qed.
Lemma none_app p lo mid hi : none p lo mid -> none p mid hi -> none p lo hi.
Proof. intros H1 H2 i Hi. destruct (Z.lt_ge_cases i mid); [apply H1; lia|apply H2; lia]. Qed.

(** What the search over whole bytes gives when there is no bit. *)
Definition miss (n : Z) : Z := if bit =? 0 then 8 * n else -1.

Lemma bitpos_block base u bs w :
  bytes_ok bs -> 8 * zlen bs + 64 < 2 ^ 63 ->
  exists r, redisBitpos (u ++ bs ++ w) base (zlen u) (zlen bs) bit = Some r
    /\ (found bs 0 (8 * zlen bs) r \/ none bs 0 (8 * zlen bs) /\ r = miss (zlen bs)).
Proof using Hbit.
  intros Hb Hs. destruct (redisBitpos_spec base u w bit Hbit (zlen u) bs Hb Hs eq_refl) as (r & -> & Hr). exists r. split; [done|].
  unfold miss. destruct Hr as [(-> & E1 & Hn)|(H0 & _ & Hbr & Hi)].
  - right. rewrite E1. split; [|done]. intros i Hi. rewrite Hn by lia. by rewrite E1.
  - destruct (Z.lt_ge_cases r (8 * zlen bs)) as [Hlt|Hge]; [left; split_and!; [lia..|done|done]|]. right.
    rewrite bit_of_past in Hbr by lia. destruct Hbit as [E|E]; rewrite E in *; [|done]. split; [intros i Hib; rewrite E; apply Hi; lia|].
    destruct (Z.eq_dec r (8 * zlen bs)) as [->|Hne]; [done|]. specialize (Hi (8 * zlen bs)). rewrite bit_of_past in Hi by lia.
    pose proof (zlen_nonneg bs). specialize (Hi ltac:(lia)). done.
Qed.

(** The same in the string. *)
Lemma bitpos_segment base p j n :
  bytes_ok p -> 8 * zlen p + 64 < 2 ^ 63 -> 0 <= j -> 0 <= n -> j + n <= zlen p ->
  exists r, redisBitpos p base j n bit = Some r
    /\ ((0 <= r < 8 * n /\ found p (8 * j) (8 * (j + n)) (8 * j + r)) \/ none p (8 * j) (8 * (j + n)) /\ r = miss n).
Proof using Hbit.
  intros Hp Hs Hj Hn Hl. destruct (region_split p j n Hj Hn Hl) as (u & bs & w & Ep & Lu & Lb). subst p.
  rewrite !zlen_app in Hs. pose proof (zlen_nonneg w). rewrite !Forall_app in Hp. destruct Hp as (Bu & Bbs & Bw).
  destruct (bitpos_block base u bs w Bbs) as (r & Hr & Hcase); [lia|]. rewrite <-Lu, <-Lb in *. exists r. split; [done|].
  assert (Hbits : forall i, 0 <= i < 8 * zlen bs -> bit_of (u ++ bs ++ w) (8 * zlen u + i) = bit_of bs i).
  { intros i Hi. rewrite bit_of_app_r, bit_of_app_l by lia. done. }
  destruct Hcase as [(Hrr & Hb & Hi)|(Hnone & ->)]; [left|right].
  - split; [done|]. split_and!; [lia..|by rewrite Hbits|]. intros i Hlt. replace i with (8 * zlen u + (i - 8 * zlen u)) by lia.
    rewrite Hbits by lia. apply Hi. lia.
  - split; [|done]. intros i Hlt. replace i with (8 * zlen u + (i - 8 * zlen u)) by lia. rewrite Hbits by lia. apply Hnone. lia.
Qed.

(** A byte of the string in which only the bits from [lo] to [hi] are shown. *)
Lemma bitpos_hidden base p j lo hi x :
  is_byte x -> 0 <= j -> 0 <= lo -> lo <= hi -> hi <= 8 ->
  (forall i, 0 <= i < 8 -> Z.testbit x (7 - i) = if (lo <=? i) && (i <? hi) then bit_of p (8 * j + i) else negb bitb) ->
  exists r, redisBitpos [x] base 0 1 bit = Some r
    /\ ((0 <= r < 8 /\ found p (8 * j + lo) (8 * j + hi) (8 * j + r)) \/ none p (8 * j + lo) (8 * j + hi) /\ r = miss 1).
Proof using Hbit.
  intros Hx Hj Hlo Hlh Hhi Hbits. destruct (bitpos_segment base [x] 0 1) as (r & Hr & Hcase); [by apply Forall_singleton|done|done|done|done|].
  exists r. split; [done|]. change (8 * 0) with 0 in Hcase. change (8 * (0 + 1)) with 8 in Hcase. rewrite Z.add_0_l in Hcase.
  assert (Hx8 : forall i, 0 <= i < 8 -> bit_of [x] i = if (lo <=? i) && (i <? hi) then bit_of p (8 * j + i) else negb bitb).
  { intros i Hi. rewrite bit_of_cons by lia. destruct (Z.ltb_spec i 8); [by apply Hbits|lia]. }
  assert (Hin : forall i, lo <= i < hi -> bit_of p (8 * j + i) = bit_of [x] i).
  { intros i Hi. rewrite Hx8 by lia. by destruct (Z.leb_spec lo i), (Z.ltb_spec i hi); try lia. }
  destruct Hcase as [(Hrr & _ & Hb & Hi)|(Hnone & ->)]; [left|right].
  - split; [lia|]. assert (Hrin : lo <= r < hi).
    { rewrite Hx8 in Hb by lia. destruct (Z.leb_spec lo r), (Z.ltb_spec r hi); try lia; cbn [andb] in Hb; by destruct bitb. }
    split_and!; [lia..|by rewrite Hin|]. intros i Hlt. replace i with (8 * j + (i - 8 * j)) by lia. rewrite Hin by lia. apply Hi. lia.
  - split; [|done]. intros i Hlt. replace i with (8 * j + (i - 8 * j)) by lia. rewrite Hin by lia. apply Hnone. lia.
Qed.

(** ** The range *)

Lemma bit_of_index p j i : 0 <= j -> 0 <= i < 8 -> bit_of p (8 * j + i) = Z.testbit (byte_at p j) (7 - i).
Proof using.
  intros Hj Hi. rewrite bit_of_byte_at by lia. replace ((8 * j + i) / 8) with j by div_lia. by replace ((8 * j + i) mod 8) with i by div_lia.
Qed.

Lemma miss_cases n : 0 < n -> miss n = -1 \/ miss n = 8 * n.
Proof using Hbit. unfold miss. destruct Hbit as [-> | ->]; auto. Qed.

Section range.
Context (v : env) (p : list Z) (end_given : bool) (a b : Z).
Context (Hp : bytes_ok p) (Hs : 8 * zlen p + 64 < 2 ^ 63) (Hab : 0 <= a <= b) (Hb : b < 8 * zlen p).
Abbreviation lm := (last_mask (b mod 8)).

(** The answer of the command for the range. *)
Definition answer (r : Z) : Prop :=
  found p a (b + 1) r \/ none p a (b + 1) /\ r = if (bit =? 0) && negb end_given then 8 * (b / 8 + 1) else -1.

Lemma result_found start bytes pos r :
  0 <= pos < 8 * bytes -> r = 8 * start + pos -> pos_result bit end_given pos start bytes = Some r.
Proof using.
  intros Hpos ->. unfold pos_result. rewrite !Z.shiftl_mul_pow2 by lia. change (2 ^ 3) with 8. destruct (Z.eqb_spec pos (bytes * 8)); [lia|].
  rewrite andb_false_r. destruct (Z.eqb_spec pos (-1)); [lia|]. cbn. f_equal. lia.
Qed.

Lemma result_none start bytes :
  0 <= start -> 0 < bytes -> start + bytes = b / 8 + 1 -> none p a (b + 1) ->
  exists r, pos_result bit end_given (miss bytes) start bytes = Some r /\ answer r.
Proof using Hbit.
  intros H0 Hby He Hn. unfold pos_result, miss. rewrite !Z.shiftl_mul_pow2 by lia. change (2 ^ 3) with 8. eexists. split; [|right; split; [done|reflexivity]].
  destruct Hbit as [-> | ->]; cbn [Z.eqb andb Pos.eqb].
  - destruct (Z.eqb_spec (8 * bytes) (bytes * 8)); [|lia]. destruct end_given; [done|]. cbn [negb andb]. destruct (Z.eqb_spec (8 * bytes) (-1)); [lia|]. cbn. f_equal. lia.
  - by rewrite andb_false_r.
Qed.

(** The last byte, when the bits before it have none. *)
Lemma pos_last_spec :
  let k := b / 8 in
  none p a (Z.max a (8 * k)) -> a <= 8 * k -> exists r, pos_last v p bit k end_given lm k 1 = Some r /\ answer r.
Proof using Hp Hs Hab Hb Hbit.
  intros k Hn Hle. unfold pos_last. pose proof (Z.div_mod b 8 ltac:(lia)) as Db. pose proof (Z.mod_pos_bound b 8 ltac:(lia)) as Mb. fold k in Db.
  rewrite byte_at_range by lia. sbind. destruct (hide_spec bit (byte_at p k) (b mod 8) Hbit (byte_at_byte p k Hp) Mb) as (_ & Bx & Gx).
  destruct (bitpos_hidden (stack v) p k 0 (b mod 8 + 1) _ Bx) as (r & -> & Hcase); [lia..| |].
  { intros i Hi. destruct (Gx i Hi) as [_ ->]. rewrite bit_of_index by lia. destruct (Z.leb_spec i (b mod 8)), (Z.leb_spec 0 i), (Z.ltb_spec i (b mod 8 + 1)); try lia; done. }
  sbind. rewrite Z.add_0_r in Hcase. replace (8 * k + (b mod 8 + 1)) with (b + 1) in Hcase by lia. rewrite Z.max_r in Hn by lia.
  destruct Hcase as [[Hr Hf]|[Hn2 ->]].
  - exists (8 * k + r). split; [apply result_found; lia|]. left. by eapply found_after.
  - apply result_none; [lia|lia|done|]. by eapply none_app.
Qed.

(** The bytes from [start] on, when the bits before them have none. *)
Lemma pos_middle_spec start :
  let k := b / 8 in
  0 <= start -> start <= k -> a <= 8 * start -> none p a (8 * start) ->
  exists r, pos_middle v p bit k end_given lm start (k - start + 1) = Some r /\ answer r.
Proof using Hp Hs Hab Hb Hbit.
  intros k H0 Hk Ha Hn. unfold pos_middle. pose proof (Z.div_mod b 8 ltac:(lia)) as Db. pose proof (Z.mod_pos_bound b 8 ltac:(lia)) as Mb. fold k in Db.
  destruct (Z.eqb_spec lm 0) as [El|El]; cbn [negb].
  - apply mask_zero_last in El; [|done]. destruct (Z.gtb_spec (k - start + 1 - 0) 0); [|lia]. rewrite Z.sub_0_r, Z.eqb_refl. cbn [orb].
    destruct (bitpos_segment (addr v) p start (k - start + 1)) as (r & -> & Hcase); [done|done|lia..|]. sbind.
    replace (8 * (start + (k - start + 1))) with (b + 1) in Hcase by lia. destruct Hcase as [[Hr Hf]|[Hn2 ->]].
    + eexists. split; [by apply result_found|]. left. by eapply found_after.
    + apply result_none; [lia|lia|lia|]. by eapply none_app.
  - destruct (Z.gtb_spec (k - start + 1 - 1) 0) as [Hc|Hc].
    + destruct (bitpos_segment (addr v) p start (k - start + 1 - 1)) as (r & -> & Hcase); [done|done|lia..|]. sbind.
      destruct (Z.eqb_spec (k - start + 1) (k - start + 1 - 1)); [lia|]. cbn [orb]. rewrite Z.shiftl_mul_pow2 by lia. change (2 ^ 3) with 8.
      replace (8 * (start + (k - start + 1 - 1))) with (8 * k) in Hcase by lia. destruct Hcase as [[Hr Hf]|[Hn2 ->]].
      * destruct (Z.eqb_spec r (-1)), (Z.eqb_spec r ((k - start + 1 - 1) * 8)); try lia. cbn. eexists. split; [apply result_found; [lia|done]|].
        left. eapply found_wider; [by eapply found_after|lia].
      * pose proof (miss_cases (k - start + 1 - 1) ltac:(lia)) as Hm.
        destruct (Z.eqb_spec (miss (k - start + 1 - 1)) (-1)), (Z.eqb_spec (miss (k - start + 1 - 1)) ((k - start + 1 - 1) * 8)); try lia; cbn;
          (replace (start + (k - start + 1 - 1)) with k by lia; replace (k - start + 1 - (k - start + 1 - 1)) with 1 by lia;
           apply pos_last_spec; [rewrite Z.max_r by lia; by eapply none_app|lia]).
    + assert (start = k) as -> by lia. replace (k - k + 1) with 1 by lia. apply pos_last_spec; [by rewrite Z.max_r by lia|lia].
Qed.

(** A range in one byte. *)
Lemma one_byte base j s :
  j = b / 8 -> 0 <= s <= b mod 8 ->
  let x := hide bit (byte_at p j) (first_mask s) in
  exists r, redisBitpos [if negb (lm =? 0) then hide bit x lm else x] base 0 1 bit = Some r
    /\ ((0 <= r < 8 /\ found p (8 * j + s) (b + 1) (8 * j + r)) \/ none p (8 * j + s) (b + 1) /\ r = miss 1).
Proof using Hp Hab Hbit.
  intros -> Hs' x. pose proof (Z.div_mod b 8 ltac:(lia)) as Db. pose proof (Z.mod_pos_bound b 8 ltac:(lia)) as Mb. set (j := b / 8) in *.
  destruct (hide_spec bit (byte_at p j) s Hbit (byte_at_byte p j Hp) ltac:(lia)) as (Bx & _ & Gx). fold x in Bx, Gx.
  destruct (hide_spec bit x (b mod 8) Hbit Bx Mb) as (_ & By & Gy).
  replace (b + 1) with (8 * j + (b mod 8 + 1)) by lia. apply bitpos_hidden; [destruct (negb (lm =? 0)); done|lia..|].
  intros i Hi. rewrite bit_of_index by lia. destruct (Gx i Hi) as [Ex _]. destruct (Gy i Hi) as [_ Ey].
  destruct (Z.eqb_spec lm 0) as [El|El]; cbn [negb].
  - apply mask_zero_last in El; [|done]. rewrite Ex. destruct (Z.leb_spec s i), (Z.ltb_spec i (b mod 8 + 1)); try lia; done.
  - rewrite Ey, Ex. destruct (Z.leb_spec s i), (Z.leb_spec i (b mod 8)), (Z.ltb_spec i (b mod 8 + 1)); try lia; done.
Qed.

Lemma pos_range_spec : exists r, pos_range v p bit (a / 8) (b / 8) end_given (first_mask (a mod 8)) lm = Some r /\ answer r.
Proof using Hp Hs Hab Hb Hbit.
  unfold pos_range. pose proof (Z.div_mod a 8 ltac:(lia)) as Da. pose proof (Z.mod_pos_bound a 8 ltac:(lia)) as Ma.
  pose proof (Z.div_mod b 8 ltac:(lia)) as Db. pose proof (Z.mod_pos_bound b 8 ltac:(lia)) as Mb.
  pose proof pos_middle_spec as Hmid. set (j := a / 8) in *. set (k := b / 8) in *. cbv zeta in Hmid. destruct (Z.gtb_spec j k); [lia|].
  destruct (Z.eqb_spec (first_mask (a mod 8)) 0) as [Ef|Ef]; cbn [negb].
  { apply mask_zero_first in Ef; [|done]. apply Hmid; [lia..|]. intros i Hi. lia. }
  rewrite byte_at_range by lia. sbind. destruct (hide_spec bit (byte_at p j) (a mod 8) Hbit (byte_at_byte p j Hp) Ma) as (Bx & _ & Gx).
  destruct (Z.eqb_spec (k - j + 1) 1) as [E1|E1]; cbn [orb].
  - rewrite andb_true_r. destruct (one_byte (stack v) j (a mod 8)) as (r & -> & Hcase); [lia..|]. sbind.
    replace (8 * j + a mod 8) with a in Hcase by lia. destruct Hcase as [[Hr Hf]|[Hn ->]].
    + eexists. split; [apply result_found; [lia|done]|]. by left.
    + rewrite E1. apply result_none; [lia..|done].
  - rewrite andb_false_r.
    destruct (bitpos_hidden (stack v) p j (a mod 8) 8 _ Bx) as (r & -> & Hcase); [lia..| |].
    { intros i Hi. destruct (Gx i Hi) as [-> _]. rewrite bit_of_index by lia. destruct (Z.leb_spec (a mod 8) i), (Z.ltb_spec i 8); try lia; done. }
    sbind. replace (8 * j + a mod 8) with a in Hcase by lia. destruct Hcase as [[Hr Hf]|[Hn ->]].
    + destruct (Z.eqb_spec r (-1)), (Z.eqb_spec r 8); try lia. cbn. eexists. split; [apply result_found; [lia|done]|]. left. eapply found_wider; [done|lia].
    + pose proof (miss_cases 1 ltac:(lia)) as Hm. destruct (Z.eqb_spec (miss 1) (-1)), (Z.eqb_spec (miss 1) 8); try lia; cbn;
        (replace (k - j + 1 - 1) with (k - (j + 1) + 1) by lia; apply Hmid; [lia..|]; by replace (8 * (j + 1)) with (8 * j + 8) by lia).
Qed.
End range.

(** ** The command *)

(** The reply for a string and a range of bits: the first bit of the range with
    the value; when there is none, -1, or the position after the last bit in a
    search of a clear bit to the end of the string, unless the range is empty. *)
Definition bitpos_reply (o : option robj) (p : list Z) (end_given : bool) (sel : Z -> bool) (r : Z) : Prop :=
  match o with
  | None => r = if bit =? 1 then -1 else 0
  | Some _ =>
      (sel r = true /\ bit_of p r = bitb /\ forall i, sel i = true -> i < r -> bit_of p i = negb bitb)
      \/ ((forall i, sel i = true -> bit_of p i = negb bitb)
          /\ (((exists i, sel i = true) /\ bit = 0 /\ end_given = false /\ r = 8 * zlen p)
              \/ (((forall i, sel i = false) \/ bit = 1 \/ end_given = true) /\ r = -1)))
  end.

(** The same for the first and the last bit of the range. *)
Definition range_reply (o : option robj) (p : list Z) (end_given : bool) (lo hi r : Z) : Prop :=
  match o with
  | None => r = if bit =? 1 then -1 else 0
  | Some _ => if lo <=? hi then answer p end_given lo hi r else r = -1
  end.

Lemma range_reply_bits o p end_given sel lo hi r :
  (end_given = false -> lo <= hi -> hi = 8 * zlen p - 1) -> (forall i, sel i = (lo <=? i) && (i <=? hi)) ->
  range_reply o p end_given lo hi r -> bitpos_reply o p end_given sel r.
Proof using Hbit.
  intros Hend Hsel. destruct o; [|done]. unfold range_reply, bitpos_reply.
  assert (Hs : forall i, sel i = true <-> lo <= i < hi + 1) by (intros i; rewrite Hsel; lia). setoid_rewrite Hs.
  assert (Hn : (forall i, sel i = false) <-> hi < lo).
  { split; [intros H; specialize (H lo); rewrite Hsel in H; lia|]. intros H i. rewrite Hsel. lia. }
  rewrite Hn. destruct (Z.leb_spec lo hi); [|intros ->; right; split; [intros i Hi; lia|auto]].
  intros [(Hr & Hv & Hb)|[Hno ->]]; [left; split_and!; [lia..|done|intros i Hi Hlt; apply Hb; lia]|]. right. split; [done|].
  destruct Hbit as [-> | ->]; cbn; [|auto]. destruct end_given; cbn [negb]; [auto|]. left. rewrite Hend by done.
  split_and!; [exists lo; lia|done..|div_lia].
Qed.

(** The end of the range and the unit, in the arguments after the start. *)
Definition range_args (rest : list (list Z)) (given : option Z) (isbit : bool) : Prop :=
  (rest = [] /\ given = None /\ isbit = false)
  \/ exists e end_ u, rest = e :: u /\ string2ll e = Some end_ /\ given = Some end_ /\ unit_of u isbit.

Lemma bitpos_spec v s cmd key bitarg startarg rest start given isbit :
  server_ok s -> checkType (keys s !! key) = false -> 8 * zlen (str_of s key) + 64 < 2 ^ 63 ->
  string2ll bitarg = Some bit -> string2ll startarg = Some start -> range_args rest given isbit ->
  let p := str_of s key in
  exists r, bitposCommand v s (cmd :: key :: bitarg :: startarg :: rest) = Some (s, [RLong r])
    /\ bitpos_reply (keys s !! key) p (if given then true else false) (in_bits isbit (zlen p) start given) r.
Proof using Hbit.
  intros Hs Ht Hl Hba Hsa Hrest p. pose proof (edge_masks_range isbit (zlen p) start (default (zlen p - 1) given) (zlen_nonneg p)) as Hr.
  pose proof (range_bits_open (zlen p) start (zlen_nonneg p)) as Hopen. unfold bitposCommand, getLongLong. rewrite Hba, Hsa.
  assert (Hb01 : negb (bit =? 0) && negb (bit =? 1) = false) by (by destruct Hbit as [-> | ->]). rewrite Hb01.
  assert (Hargs : (6 <? zlen (cmd :: key :: bitarg :: startarg :: rest)) = false
    /\ match rest with [_; u] => getUnit u | _ => inr false end = inr isbit
    /\ match rest with e :: _ => match match string2ll e with Some x => inr x | None => inl ENotInt end with inl er => inl er | inr x => inr (Some x) end | [] => inr None end = inr given
    /\ (given = None -> isbit = false)).
  { destruct Hrest as [(-> & -> & ->)|(e & end_ & u & -> & He & -> & [[-> ->]|(u' & -> & Hu)])]; rewrite ?He; by split_and!. }
  destruct Hargs as (-> & -> & -> & Hgi). rewrite Ht, read_string by done. sbind. fold p in Hl |- *. rewrite len_limit by lia. cbn [negb].
  replace (match given with Some e => e | None => if isbit then (zlen p <<< 3) + 7 else zlen p - 1 end) with (default (zlen p - 1) given)
    by (destruct given; [done|]; by rewrite Hgi).
  assert (Hconv : forall r, let '(lo, hi) := range_bits isbit (zlen p) start (default (zlen p - 1) given) in
    range_reply (keys s !! key) p (if given then true else false) lo hi r
    -> bitpos_reply (keys s !! key) p (if given then true else false) (in_bits isbit (zlen p) start given) r).
  { intros r. destruct (range_bits _ _ _ _) as [lo hi] eqn:Elh. apply range_reply_bits.
    - destruct given; [done|]. intros _. change (default (zlen p - 1) None) with (zlen p - 1) in Elh. rewrite Hgi in Elh by done. by rewrite Elh in Hopen.
    - intros i. pose proof (in_bits_range isbit (zlen p) start (default (zlen p - 1) given) i (zlen_nonneg p)) as Hin.
      rewrite Elh in Hin. rewrite <-Hin. destruct given; [done|]. rewrite Hgi by done. apply in_bits_open. }
  clear Hopen.
  destruct (range_bits _ _ _ _) as [lo hi].
  destruct (adjust_range _ _ _) as [s0 e0]. destruct Hr as (H0 & Hhi & Hr).
  match goal with |- exists r, ?c = _ /\ _ => assert (exists r, c = Some (s, [RLong r]) /\ range_reply (keys s !! key) p (if given then true else false) lo hi r) as (r & Hc & Hrep);
    [|exists r; split; [exact Hc|by apply Hconv]] end. unfold range_reply.
  destruct (Z.leb_spec lo hi) as [Hle|Hgt]; destruct Hr as [Hse ->].
  - destruct (keys s !! key) as [o|] eqn:E; [|eexists; split; [done|by destruct Hbit as [-> | ->]]].
    destruct (pos_range_spec v p (match given with Some _ => true | None => false end) lo hi (str_of_ok s key Hs) Hl ltac:(lia) Hhi) as (r & -> & Ha).
    sbind. by exists r.
  - destruct (keys s !! key) as [o|] eqn:E; [|eexists; split; [done|by destruct Hbit as [-> | ->]]].
    unfold pos_range. destruct (Z.gtb_spec s0 e0); [|lia]. sbind. by exists (-1).
Qed.

Lemma bitpos_all_spec v s cmd key bitarg :
  server_ok s -> checkType (keys s !! key) = false -> 8 * zlen (str_of s key) + 64 < 2 ^ 63 -> string2ll bitarg = Some bit ->
  let p := str_of s key in
  exists r, bitposCommand v s [cmd; key; bitarg] = Some (s, [RLong r]) /\ bitpos_reply (keys s !! key) p false (fun i => (0 <=? i) && (i <? 8 * zlen p)) r.
Proof using Hbit.
  intros Hs Ht Hl Hba p. unfold bitposCommand, getLongLong. rewrite Hba.
  assert (Hb01 : negb (bit =? 0) && negb (bit =? 1) = false) by (by destruct Hbit as [-> | ->]). rewrite Hb01, Ht, read_string by done. sbind. fold p.
  match goal with |- exists r, ?c = _ /\ _ => assert (exists r, c = Some (s, [RLong r]) /\ range_reply (keys s !! key) p false 0 (8 * zlen p - 1) r) as (r & Hc & Hrep);
    [|exists r; split; [exact Hc|by apply (range_reply_bits _ _ _ _ 0 (8 * zlen p - 1)); [|intros i; f_equal; lia|]]] end. unfold range_reply.
  pose proof (zlen_nonneg p). destruct (keys s !! key) as [o|] eqn:E; [|eexists; split; [done|by destruct Hbit as [-> | ->]]].
  destruct (Z.leb_spec 0 (8 * zlen p - 1)).
  - destruct (pos_range_spec v p false 0 (8 * zlen p - 1) (str_of_ok s key Hs) Hl ltac:(lia) ltac:(lia)) as (r & Hr & Ha).
    replace ((8 * zlen p - 1) / 8) with (zlen p - 1) in Hr by div_lia. replace ((8 * zlen p - 1) mod 8) with 7 in Hr by div_lia.
    change (0 / 8) with 0 in Hr. change (first_mask (0 mod 8)) with 0 in Hr. change (last_mask 7) with 0 in Hr. rewrite Hr. sbind. by exists r.
  - unfold pos_range. destruct (Z.gtb_spec 0 (zlen p - 1)); [|lia]. sbind. by exists (-1).
Qed.
End bitpos.
