(* ===== verification/BitfieldRun.v ===== *)
(** * BITFIELD: a refinement

    A string is an infinite sequence of bits, zeros past its end; the operations
    of a command read and write integers of the sequence.  The run of the command
    gives the replies of the run on the sequence and leaves its bits. *)

From stdpp Require Import base list gmap numbers.
From S2P Require Import Prelude Util Bits BitsSpec BitfieldSpec Bitops BitopSpec BitStrings BitopsSpec.
Local Open Scope cint_scope.

(** ** The specification *)

Abbreviation bitmap := (Z -> bool).

(** The integer at a position. *)
Fixpoint bfield (n : nat) (B : bitmap) (off : Z) : Z :=
  match n with O => 0 | S n => Z.b2z (B off) * 2 ^ Z.of_nat n + bfield n B (off + 1) end.
Definition aget (sign : bool) (bits : Z) (B : bitmap) (off : Z) : Z :=
  let u := bfield (Z.to_nat bits) B off in if sign then swrap bits u else u.
Definition aput (bits : Z) (B : bitmap) (off x : Z) : bitmap :=
  fun i => if (off <=? i) && (i <? off + bits) then Z.testbit x (off + bits - 1 - i) else B i.

(** What is stored for a value: itself when the type has it. *)
Definition tmin (sign : bool) (bits : Z) : Z := if sign then - 2 ^ (bits - 1) else 0.
Definition tmax (sign : bool) (bits : Z) : Z := if sign then 2 ^ (bits - 1) - 1 else 2 ^ bits - 1.
Definition fit (sign : bool) (bits : Z) (ow : owtype) (x : Z) : option Z :=
  if (tmin sign bits <=? x) && (x <=? tmax sign bits) then Some x
  else match ow with
       | BFOVERFLOW_WRAP => Some (if sign then swrap bits x else wrap bits x)
       | BFOVERFLOW_SAT => Some (if x <? tmin sign bits then tmin sign bits else tmax sign bits)
       | BFOVERFLOW_FAIL => None
       end.

Definition writes (op : bitfieldOp) : bool := match bf_opcode op with BITFIELDOP_GET => false | _ => true end.

(** What a write asks for; the argument of SET is unsigned for an unsigned type. *)
Definition wanted (op : bitfieldOp) (old : Z) : Z :=
  match bf_opcode op with BITFIELDOP_INCRBY => old + bf_i64 op | _ => if bf_sign op then bf_i64 op else u64 (bf_i64 op) end.

(** What it stores.  There is one exception to [fit]: SET with saturation of a very
    negative value in a signed type of fewer than 64 bits stores the greatest value
    of the type, not the least. *)
Definition too_low (op : bitfieldOp) : bool :=
  match bf_opcode op, bf_owtype op with
  | BITFIELDOP_SET, BFOVERFLOW_SAT => bf_sign op && (bf_bits op <? 64) && (bf_i64 op <=? 2 ^ (bf_bits op - 1) - 1 - 2 ^ 63)
  | _, _ => false
  end.
Definition stored_value (op : bitfieldOp) (old : Z) : option Z :=
  if too_low op then Some (tmax (bf_sign op) (bf_bits op)) else fit (bf_sign op) (bf_bits op) (bf_owtype op) (wanted op old).

Definition aop (B : bitmap) (op : bitfieldOp) : bitmap * reply :=
  let old := aget (bf_sign op) (bf_bits op) B (bf_offset op) in
  match bf_opcode op with
  | BITFIELDOP_GET => (B, RLong old)
  | BITFIELDOP_SET =>
      match stored_value op old with Some x => (aput (bf_bits op) B (bf_offset op) x, RLong old) | None => (B, RNull) end
  | BITFIELDOP_INCRBY =>
      match stored_value op old with Some x => (aput (bf_bits op) B (bf_offset op) x, RLong x) | None => (B, RNull) end
  end.
Fixpoint arun (B : bitmap) (l : list bitfieldOp) : bitmap * list reply :=
  match l with
  | [] => (B, [])
  | op :: l => let '(B, r) := aop B op in let '(B, rs) := arun B l in (B, r :: rs)
  end.

(** The changes a run counts: the writes that did not fail and found another value
    or, when the string has grown, all of these. *)
Definition achange (grown : bool) (B : bitmap) (op : bitfieldOp) : Z :=
  let old := aget (bf_sign op) (bf_bits op) B (bf_offset op) in
  if writes op then match stored_value op old with Some x => b2i (grown || negb (old =? x)) | None => 0 end else 0.
Fixpoint achanges (grown : bool) (B : bitmap) (l : list bitfieldOp) : Z :=
  match l with
  | [] => 0
  | op :: l => achange grown B op + achanges grown (fst (aop B op)) l
  end.

(** The last bit of the integers to be written, -1 when there is none. *)
Fixpoint last_written (l : list bitfieldOp) : Z :=
  match l with
  | [] => -1
  | op :: l => if writes op then Z.max (bf_offset op + bf_bits op - 1) (last_written l) else last_written l
  end.

(** Operations as the parser gives them. *)
Definition op_ok (op : bitfieldOp) : Prop :=
  0 <= bf_offset op < 2 ^ 63 /\ 1 <= bf_bits op <= (if bf_sign op then 64 else 63) /\ in_signed 64 (bf_i64 op).

(** ** Fields *)

Lemma field_bfield n p off : field n p off = bfield n (bit_of p) off.
Proof. revert off. induction n as [|n IH]; intros off; [done|]. cbn [field bfield]. by rewrite IH. Qed.

Lemma bfield_ext n B B' off : 0 <= off -> (forall i, 0 <= i -> B i = B' i) -> bfield n B off = bfield n B' off.
Proof. revert off. induction n as [|n IH]; intros off H0 H; [done|]. cbn [bfield]. by rewrite H, IH by (done || lia). Qed.

Definition beq (B B' : bitmap) : Prop := forall i, 0 <= i -> B i = B' i.

Lemma aget_ext sign bits B B' off : 0 <= off -> beq B B' -> aget sign bits B off = aget sign bits B' off.
Proof. intros H0 H. unfold aget. by rewrite (bfield_ext _ B B'). Qed.

Lemma aop_ext B B' op : 0 <= bf_offset op -> beq B B' -> beq (fst (aop B op)) (fst (aop B' op)) /\ snd (aop B op) = snd (aop B' op).
Proof.
  intros H0 H. unfold aop. rewrite <-(aget_ext (bf_sign op) (bf_bits op) B B' (bf_offset op)) by done.
  assert (Hp : forall x, beq (aput (bf_bits op) B (bf_offset op) x) (aput (bf_bits op) B' (bf_offset op) x))
    by (intros x i Hi; unfold aput; destruct (_ && _); [done|by apply H]).
  destruct (bf_opcode op); [done|..]; destruct (stored_value _ _); cbn; auto.
Qed.

Lemma achange_ext grown B B' op : 0 <= bf_offset op -> beq B B' -> achange grown B op = achange grown B' op.
Proof. intros H0 H. unfold achange. by rewrite (aget_ext _ _ B B'). Qed.

Lemma achange_range grown B op : 0 <= achange grown B op <= 1.
Proof. unfold achange, b2i. repeat case_match; lia. Qed.

Lemma beq_trans B1 B2 B3 : beq B1 B2 -> beq B2 B3 -> beq B1 B3.
Proof. intros H1 H2 i Hi. by rewrite H1, H2. Qed.

Lemma aget_range sign bits B off : 1 <= bits -> tmin sign bits <= aget sign bits B off <= tmax sign bits.
Proof.
  intros Hb. assert (Hr : forall n o, 0 <= bfield n B o < 2 ^ Z.of_nat n).
  { induction n as [|n IH]; intros o; [cbn; lia|]. cbn [bfield]. specialize (IH (o + 1)).
    rewrite Nat2Z.inj_succ, Z.pow_succ_r by lia. destruct (B o); cbn [Z.b2z]; lia. }
  unfold aget, tmin, tmax. destruct sign.
  - pose proof (swrap_range bits (bfield (Z.to_nat bits) B off) ltac:(lia)) as Hs. unfold in_signed in Hs. lia.
  - specialize (Hr (Z.to_nat bits) off). rewrite Z2Nat.id in Hr by lia. lia.
Qed.

(** ** The value that is stored *)

(** The answer of a check, as the operations use it. *)
Lemma overflow_fit sign bits ow x ov lim :
  1 <= bits -> overflow_of (tmin sign bits) (tmax sign bits) (if sign then swrap bits x else wrap bits x) x ow = (ov, lim) ->
  match fit sign bits ow x with
  | Some n => negb (ov =? 0) && bool_decide (ow = BFOVERFLOW_FAIL) = false /\ (if negb (ov =? 0) then default 0 lim else x) = n
  | None => negb (ov =? 0) && bool_decide (ow = BFOVERFLOW_FAIL) = true
  end.
Proof.
  intros Hb. unfold overflow_of, fit. assert (Hle : tmin sign bits <= tmax sign bits).
  { unfold tmin, tmax. destruct sign; [pose proof (Z.pow_pos_nonneg 2 (bits - 1))|pose proof (Z.pow_pos_nonneg 2 bits)]; lia. }
  destruct (Z.ltb_spec (tmax sign bits) x), (Z.ltb_spec x (tmin sign bits)), (Z.leb_spec (tmin sign bits) x), (Z.leb_spec x (tmax sign bits)); try lia;
    cbn [andb]; destruct ow; intros [= <- <-]; done.
Qed.

Section checks.
Context (op : bitfieldOp) (old : Z).
Abbreviation bits := (bf_bits op).
Abbreviation ow := (bf_owtype op).

Lemma signed_fit incr x :
  1 <= bits <= 64 -> in_signed 64 x -> in_signed 64 incr -> in_signed bits x \/ incr = 0 ->
  (bits = 64 \/ 2 ^ (bits - 1) - 1 - 2 ^ 63 < x \/ incr = 0 /\ ow <> BFOVERFLOW_SAT) ->
  let '(ov, lim) := checkSignedBitfieldOverflow x incr bits ow in
  match fit true bits ow (x + incr) with
  | Some n => negb (ov =? 0) && bool_decide (ow = BFOVERFLOW_FAIL) = false /\ (if negb (ov =? 0) then default 0 lim else x + incr) = n
  | None => negb (ov =? 0) && bool_decide (ow = BFOVERFLOW_FAIL) = true
  end.
Proof using.
  intros Hb Hx Hi Hor Hlow. destruct (decide (bits = 64 \/ 2 ^ (bits - 1) - 1 < x \/ 2 ^ (bits - 1) - 1 - 2 ^ 63 < x)) as [Hc|Hc].
  - rewrite (check_signed x incr bits ow Hb Hx Hi Hc Hor). destruct (overflow_of _ _ _ _ _) as [ov lim] eqn:E.
    apply overflow_fit; [lia|]. rewrite <-E. unfold tmin, tmax. by replace (- 2 ^ (bits - 1)) with (- (2 ^ (bits - 1) - 1) - 1) by lia.
  - destruct Hlow as [|[|[-> Hsat]]]; [lia..|]. rewrite check_signed_low by (done || lia). unfold fit, tmin, tmax.
    pose proof (Z.pow_pos_nonneg 2 (bits - 1) ltac:(lia) ltac:(lia)). assert (2 ^ (bits - 1) <= 2 ^ 62) by (apply Z.pow_le_mono_r; lia).
    rewrite Z.add_0_r. destruct (Z.leb_spec (- 2 ^ (bits - 1)) x); [lia|]. cbn [andb]. by destruct ow.
Qed.

Lemma unsigned_fit incr x :
  1 <= bits <= 63 -> 0 <= x < 2 ^ 64 -> in_signed 64 incr -> x < 2 ^ bits \/ incr = 0 ->
  let '(ov, lim) := checkUnsignedBitfieldOverflow x incr bits ow in
  match fit false bits ow (x + incr) with
  | Some n => negb (ov =? 0) && bool_decide (ow = BFOVERFLOW_FAIL) = false /\ (if negb (ov =? 0) then default 0 lim else x + incr) = n
  | None => negb (ov =? 0) && bool_decide (ow = BFOVERFLOW_FAIL) = true
  end.
Proof using.
  intros Hb Hx Hi Hor. rewrite check_unsigned by done. destruct (overflow_of _ _ _ _ _) as [ov lim] eqn:E. by apply overflow_fit; [lia|].
Qed.
End checks.

(** ** Writing *)

Section write.
Context (p : list Z) (off bits x : Z).
Context (Hp : bytes_ok p) (H0 : 0 <= off) (Hbits : 1 <= bits <= 64) (Hfit : off + bits <= 8 * zlen p) (H64 : 8 * zlen p < 2 ^ 64).

Lemma put_unsigned : exists q, setUnsignedBitfield p off bits x = Some q /\ bytes_ok q /\ zlen q = zlen p /\ beq (bit_of q) (aput bits (bit_of p) off x).
Proof using Hp H0 Hbits Hfit H64.
  destruct (set_bits_spec (Z.to_nat bits) p off x) as (q & Hq & Bq & Lq & Gq); [done|lia..|]. exists q. split_and!; [done..|].
  intros i Hi. rewrite Gq by done. unfold aput. by rewrite Z2Nat.id by lia.
Qed.
End write.

Lemma put_signed p off bits x :
  bytes_ok p -> 0 <= off -> 1 <= bits <= 64 -> off + bits <= 8 * zlen p -> 8 * zlen p < 2 ^ 64 ->
  exists q, setSignedBitfield p off bits x = Some q /\ bytes_ok q /\ zlen q = zlen p /\ beq (bit_of q) (aput bits (bit_of p) off x).
Proof.
  intros Hp H0 Hb Hf H64. unfold setSignedBitfield. destruct (put_unsigned p off bits (u64 x)) as (q & Hq & Bq & Lq & Gq); [done..|].
  exists q. split_and!; [done..|]. intros i Hi. rewrite Gq by done. unfold aput.
  destruct (Z.leb_spec off i), (Z.ltb_spec i (off + bits)); cbn [andb]; try done. unfold wrap. by rewrite Z.mod_pow2_bits_low by lia.
Qed.

(** A value that is already there changes nothing. *)
Lemma bfield_bit n B off k : 0 <= k < Z.of_nat n -> Z.testbit (bfield n B off) (Z.of_nat n - 1 - k) = B (off + k).
Proof.
  revert off k. induction n as [|n IH]; intros off k Hk; [lia|]. rewrite Nat2Z.inj_succ in *. cbn [bfield].
  assert (Hr : 0 <= bfield n B (off + 1) < 2 ^ Z.of_nat n).
  { clear. generalize (off + 1). induction n as [|n IH]; intros o; [cbn; lia|]. cbn [bfield]. specialize (IH (o + 1)).
    rewrite Nat2Z.inj_succ, Z.pow_succ_r by lia. destruct (B o); cbn [Z.b2z]; lia. }
  rewrite Z.add_comm, <-lor_shiftl by lia. rewrite Z.lor_spec. destruct (Z.eq_dec k 0) as [->|Hne].
  - rewrite Z.shiftl_spec by lia. rewrite Z.add_0_r. replace (Z.succ (Z.of_nat n) - 1 - 0 - Z.of_nat n) with 0 by lia.
    rewrite <-(Z.mod_small _ _ Hr), Z.mod_pow2_bits_high by lia. by destruct (B off).
  - rewrite Z.shiftl_spec_low by lia. rewrite orb_false_r. replace (Z.succ (Z.of_nat n) - 1 - k) with (Z.of_nat n - 1 - (k - 1)) by lia.
    rewrite IH by lia. f_equal. lia.
Qed.

Lemma aput_same sign bits B off : 1 <= bits -> beq (aput bits B off (aget sign bits B off)) B.
Proof.
  intros Hb i Hi. unfold aput. destruct (Z.leb_spec off i), (Z.ltb_spec i (off + bits)); cbn [andb]; try done.
  pose proof (bfield_bit (Z.to_nat bits) B off (i - off) ltac:(lia)) as Hbit. rewrite Z2Nat.id in Hbit by lia.
  replace (bits - 1 - (i - off)) with (off + bits - 1 - i) in Hbit by lia. replace (off + (i - off)) with i in Hbit by lia.
  unfold aget. destruct sign; [|done]. rewrite <-(Z.mod_pow2_bits_low _ bits) by lia. fold (wrap bits (swrap bits (bfield (Z.to_nat bits) B off))).
  rewrite wrap_swrap by lia. unfold wrap. by rewrite Z.mod_pow2_bits_low by lia.
Qed.

Lemma bits_ext p q : bytes_ok p -> bytes_ok q -> zlen p = zlen q -> beq (bit_of p) (bit_of q) -> p = q.
Proof.
  intros Hp Hq Hl H. apply mget_ext; [done|]. intros j Hj. rewrite !byte_at_range by lia. f_equal. apply Z.bits_inj'. intros n Hn.
  destruct (Z.lt_ge_cases n 8).
  - specialize (H (8 * j + (7 - n)) ltac:(lia)). rewrite !bit_of_byte_at in H by lia.
    replace ((8 * j + (7 - n)) / 8) with j in H by div_lia. replace ((8 * j + (7 - n)) mod 8) with (7 - n) in H by div_lia.
    by replace (7 - (7 - n)) with n in H by lia.
  - by rewrite !byte_high by (done || by apply byte_at_byte).
Qed.

Lemma get_aget p op :
  0 <= bf_offset op -> 1 <= bf_bits op <= (if bf_sign op then 64 else 63) -> bf_offset op + bf_bits op <= 8 * zlen p -> 8 * zlen p < 2 ^ 64 ->
  (if bf_sign op then getSignedBitfield p (bf_offset op) (bf_bits op) else getUnsignedBitfield p (bf_offset op) (bf_bits op))
  = Some (aget (bf_sign op) (bf_bits op) (bit_of p) (bf_offset op)).
Proof.
  intros H0 Hb Hl H64. unfold aget. rewrite <-field_bfield. destruct (bf_sign op); [rewrite get_signed_field|rewrite get_field]; done || lia.
Qed.

Lemma aop_writes B op : writes op = true ->
  let old := aget (bf_sign op) (bf_bits op) B (bf_offset op) in
  aop B op = match stored_value op old with
             | Some x => (aput (bf_bits op) B (bf_offset op) x, RLong (if bool_decide (bf_opcode op = BITFIELDOP_INCRBY) then x else old))
             | None => (B, RNull)
             end.
Proof. unfold writes, aop. by destruct (bf_opcode op). Qed.

(** The new value of the code is what is to be stored. *)
Definition newval_ok (op : bitfieldOp) (old : Z) (r : Z * Z * Z) : Prop :=
  let '(ov, new, ret) := r in
  let fail := negb (ov =? 0) && bool_decide (bf_owtype op = BFOVERFLOW_FAIL) in
  match stored_value op old with
  | Some n => fail = false /\ new = n /\ ret = (if bool_decide (bf_opcode op = BITFIELDOP_INCRBY) then n else old)
  | None => fail = true
  end.

Lemma fit_range sign bits ow x n : 1 <= bits -> fit sign bits ow x = Some n -> tmin sign bits <= n <= tmax sign bits.
Proof.
  intros Hb. assert (Hle : tmin sign bits <= tmax sign bits).
  { unfold tmin, tmax. destruct sign; [pose proof (Z.pow_pos_nonneg 2 (bits - 1))|pose proof (Z.pow_pos_nonneg 2 bits)]; lia. }
  unfold fit. destruct (_ && _) eqn:E; [intros [= <-]; lia|]. destruct ow; intros [= <-].
  - unfold tmin, tmax. destruct sign; [pose proof (swrap_range bits x ltac:(lia)) as H; unfold in_signed in H|pose proof (wrap_range bits x ltac:(lia))]; lia.
  - destruct (x <? tmin sign bits); lia.
Qed.

Lemma tmax_64 (sign : bool) (bits : Z) : 1 <= bits <= (if sign then 64 else 63) -> - 2 ^ 63 <= tmin sign bits /\ tmax sign bits < 2 ^ 63.
Proof.
  intros Hb. unfold tmin, tmax. destruct sign.
  - assert (2 ^ (bits - 1) <= 2 ^ 63) by (apply Z.pow_le_mono_r; lia). lia.
  - assert (2 ^ bits <= 2 ^ 63) by (apply Z.pow_le_mono_r; lia). lia.
Qed.

Lemma stored_value_range op old n : 1 <= bf_bits op -> stored_value op old = Some n -> tmin (bf_sign op) (bf_bits op) <= n <= tmax (bf_sign op) (bf_bits op).
Proof.
  intros Hb. unfold stored_value. destruct (too_low op); [|by apply fit_range]. intros [= <-]. unfold tmin, tmax.
  destruct (bf_sign op); [pose proof (Z.pow_pos_nonneg 2 (bf_bits op - 1))|pose proof (Z.pow_pos_nonneg 2 (bf_bits op))]; lia.
Qed.

Section newval.
Context (op : bitfieldOp) (old : Z) (Hok : op_ok op) (Hw : writes op = true).
Context (Hold : tmin (bf_sign op) (bf_bits op) <= old <= tmax (bf_sign op) (bf_bits op)).

Lemma signed_newval_ok : bf_sign op = true -> newval_ok op old (signed_newval op old).
Proof using Hok Hw Hold.
  intros Hs. destruct Hok as (_ & Hb & Hi). pose proof (tmax_64 _ _ Hb) as H64. unfold newval_ok, signed_newval, stored_value, too_low, wanted. rewrite Hs in *.
  pose proof (fit_range true (bf_bits op) (bf_owtype op)) as Hfr.
  assert (Hor : in_signed (bf_bits op) old) by (unfold in_signed, tmin, tmax in *; lia).
  assert (Ho64 : in_signed 64 old) by (unfold in_signed; change (64 - 1) with 63; lia).
  destruct (bf_opcode op) eqn:Ec; [unfold writes in Hw; by rewrite Ec in Hw|..]; cbn [bool_decide decide].
  - case_bool_decide as Hcd; [done|].
    destruct (decide (bf_bits op < 64 /\ bf_i64 op <= 2 ^ (bf_bits op - 1) - 1 - 2 ^ 63 /\ bf_owtype op = BFOVERFLOW_SAT)) as [(H1 & H2 & H3)|Hn].
    { rewrite check_signed_low by (done || lia). rewrite H3. destruct (Z.ltb_spec (bf_bits op) 64), (Z.leb_spec (bf_i64 op) (2 ^ (bf_bits op - 1) - 1 - 2 ^ 63)); try lia. done. }
    assert (Hlow : (match bf_owtype op with BFOVERFLOW_SAT => true && (bf_bits op <? 64) && (bf_i64 op <=? 2 ^ (bf_bits op - 1) - 1 - 2 ^ 63) | _ => false end) = false).
    { destruct (bf_owtype op); try done. destruct (Z.ltb_spec (bf_bits op) 64), (Z.leb_spec (bf_i64 op) (2 ^ (bf_bits op - 1) - 1 - 2 ^ 63)); try done. by destruct Hn. }
    rewrite Hlow. pose proof (signed_fit op 0 (bf_i64 op) Hb Hi ltac:(done) ltac:(by right)) as H. rewrite Z.add_0_r in H.
    destruct (checkSignedBitfieldOverflow _ _ _ _) as [ov lim]. cbn zeta beta in *.
    assert (Hc : bf_bits op = 64 \/ 2 ^ (bf_bits op - 1) - 1 - 2 ^ 63 < bf_i64 op \/ 0 = 0 /\ bf_owtype op <> BFOVERFLOW_SAT).
    { destruct (decide (bf_owtype op = BFOVERFLOW_SAT)) as [E|E]; [|auto]. destruct (Z.eq_dec (bf_bits op) 64); [auto|]. right; left.
      apply Z.nle_gt. intros Hle. apply Hn. split_and!; [lia|done|done]. }
    specialize (H Hc). destruct (fit _ _ _ _); [|done]. by destruct H as [-> ->].
  - case_bool_decide as Hcd; [|done]. assert (Hc : bf_bits op = 64 \/ 2 ^ (bf_bits op - 1) - 1 - 2 ^ 63 < old \/ bf_i64 op = 0 /\ bf_owtype op <> BFOVERFLOW_SAT).
    { destruct (Z.eq_dec (bf_bits op) 64); [auto|]. right; left. assert (2 ^ (bf_bits op - 1) <= 2 ^ 62) by (apply Z.pow_le_mono_r; lia). unfold tmin in Hold. lia. }
    pose proof (signed_fit op (bf_i64 op) old Hb Ho64 Hi ltac:(by left) Hc) as H.
    destruct (checkSignedBitfieldOverflow _ _ _ _) as [ov lim]. specialize (Hfr (old + bf_i64 op)). destruct (fit _ _ _ _) as [n|]; [|done].
    destruct H as [-> Hn]. specialize (Hfr n ltac:(lia) eq_refl). destruct (ov =? 0); cbn [negb] in *; [|done]. subst n.
    by rewrite swrap_small by (unfold in_signed; change (64 - 1) with 63; lia).
Qed.

Lemma unsigned_newval_ok : bf_sign op = false -> newval_ok op old (unsigned_newval op old).
Proof using Hok Hw Hold.
  intros Hs. destruct Hok as (_ & Hb & Hi). pose proof (tmax_64 _ _ Hb) as H64.
  assert (Htl : too_low op = false) by (unfold too_low; rewrite Hs; by destruct (bf_opcode op), (bf_owtype op)).
  unfold newval_ok, unsigned_newval, stored_value, wanted. rewrite Htl, Hs in *.
  pose proof (fit_range false (bf_bits op) (bf_owtype op)) as Hfr. unfold tmin, tmax in *.
  destruct (bf_opcode op) eqn:Ec; [unfold writes in Hw; by rewrite Ec in Hw|..].
  - case_bool_decide as Hcd; [done|]. pose proof (unsigned_fit op 0 (u64 (bf_i64 op)) Hb ltac:(apply wrap_range; lia) ltac:(done) ltac:(by right)) as H. rewrite Z.add_0_r in H.
    destruct (checkUnsignedBitfieldOverflow _ _ _ _) as [ov lim]. destruct (fit _ _ _ _); [|done]. by destruct H as [-> ->].
  - case_bool_decide as Hcd; [|done]. pose proof (unsigned_fit op (bf_i64 op) old Hb ltac:(lia) Hi ltac:(lia)) as H.
    destruct (checkUnsignedBitfieldOverflow _ _ _ _) as [ov lim]. specialize (Hfr (old + bf_i64 op)). destruct (fit _ _ _ _) as [n|]; [|done].
    destruct H as [-> Hn]. specialize (Hfr n ltac:(lia) eq_refl). destruct (ov =? 0); cbn [negb] in *; [|done]. subst n.
    unfold wrap. rewrite Zplus_mod_idemp_r, Z.mod_small by lia. done.
Qed.
End newval.

Lemma write_op_spec p grow op :
  bytes_ok p -> op_ok op -> writes op = true -> bf_offset op + bf_bits op <= 8 * zlen p -> 8 * zlen p < 2 ^ 64 ->
  exists q c, write_op p grow op = Some (q, snd (aop (bit_of p) op), c) /\ bytes_ok q /\ zlen q = zlen p
    /\ beq (bit_of q) (fst (aop (bit_of p) op)) /\ c = achange (negb (grow =? 0)) (bit_of p) op /\ (c = 0 -> q = p).
Proof.
  intros Hp Hok Hw Hl H64. pose proof Hok as (Hoff & Hbits & Hi). pose proof (get_aget p op ltac:(lia) Hbits Hl H64) as Hget. rewrite aop_writes by done. unfold achange. rewrite Hw. cbv zeta.
  pose proof (aget_range (bf_sign op) (bf_bits op) (bit_of p) (bf_offset op) ltac:(lia)) as Hold.
  pose proof (aput_same (bf_sign op) (bf_bits op) (bit_of p) (bf_offset op) ltac:(lia)) as Hsame.
  set (old := aget (bf_sign op) (bf_bits op) (bit_of p) (bf_offset op)) in *.
  pose proof (tmax_64 _ _ Hbits) as Ht. pose proof (stored_value_range op old) as Hfr.
  (* the string written, whatever the sign *)
  assert (Hput : forall n, exists q, (if bf_sign op then setSignedBitfield p (bf_offset op) (bf_bits op) n else setUnsignedBitfield p (bf_offset op) (bf_bits op) n) = Some q
    /\ bytes_ok q /\ zlen q = zlen p /\ beq (bit_of q) (aput (bf_bits op) (bit_of p) (bf_offset op) n)).
  { intros n. destruct (bf_sign op); [apply put_signed|apply put_unsigned]; done || lia. }
  assert (Hnew : newval_ok op old (if bf_sign op then signed_newval op old else unsigned_newval op old)).
  { destruct (bf_sign op) eqn:Es; [apply signed_newval_ok|apply unsigned_newval_ok]; rewrite ?Es; done. }
  match goal with |- context [snd ?t] => set (target := t) end.
  assert (Hend : forall ov new ret, newval_ok op old (ov, new, ret) ->
    exists q c, (if negb (negb (ov =? 0) && bool_decide (bf_owtype op = BFOVERFLOW_FAIL)) then
        p' ← (if bf_sign op then setSignedBitfield p (bf_offset op) (bf_bits op) new else setUnsignedBitfield p (bf_offset op) (bf_bits op) new);
        Some (p', RLong (if bf_sign op then ret else i64 ret), if negb (grow =? 0) || negb (old =? new) then 1 else 0)
      else Some (p, RNull, 0)) = Some (q, snd target, c)
      /\ bytes_ok q /\ zlen q = zlen p /\ beq (bit_of q) (fst target)
      /\ c = match stored_value op old with Some x => b2i (negb (grow =? 0) || negb (old =? x)) | None => 0 end /\ (c = 0 -> q = p)).
  { intros ov new ret H. unfold newval_ok in H. unfold target. destruct (stored_value _ _) as [n|].
    - destruct H as (-> & -> & ->). cbn [negb fst snd]. destruct (Hput n) as (q & -> & Bq & Lq & Gq). sbind. specialize (Hfr n ltac:(lia) eq_refl).
      exists q, (if negb (grow =? 0) || negb (old =? n) then 1 else 0). split_and!; try done.
      + do 3 f_equal. destruct (bf_sign op); [done|]. rewrite swrap_small; [done|lia|]. unfold in_signed. change (64 - 1) with 63. case_bool_decide; lia.
      + destruct (negb (grow =? 0)); [done|]. cbn [orb]. destruct (Z.eqb_spec old n) as [<-|]; [|done]. intros _.
        apply bits_ext; [done|done|done|]. by eapply beq_trans.
    - rewrite H. cbn [negb fst snd]. exists p, 0. split_and!; done || lia. }
  unfold write_op. destruct (bf_sign op) eqn:Es; rewrite Hget; sbind.
  - destruct (signed_newval op old) as [[ov new] ret]. by apply Hend.
  - destruct (unsigned_newval op old) as [[ov new] ret]. by apply Hend.
Qed.

(** ** Reading *)

Lemma byte_at_past m i : zlen m <= i -> byte_at m i = 0.
Proof.
  intros Hi. unfold byte_at. pose proof (zlen_nonneg m). rewrite mget_lookup by lia. rewrite lookup_ge_None_2; [done|]. unfold zlen in Hi. lia.
Qed.

Lemma copy_bytes_spec fuel i buf src byte :
  bytes_ok buf -> bytes_ok src -> 0 <= i -> i + Z.of_nat fuel <= zlen buf -> 0 <= byte ->
  exists buf', copy_bytes fuel i buf src byte = Some buf' /\ bytes_ok buf' /\ zlen buf' = zlen buf
    /\ forall x, 0 <= x -> byte_at buf' x = if (i <=? x) && (x <? i + Z.of_nat fuel) && (x + byte <? zlen src) then byte_at src (x + byte) else byte_at buf x.
Proof.
  revert i buf. induction fuel as [|fuel IH]; intros i buf Hb Hsrc Hi Hl Hby; cbn [copy_bytes].
  - exists buf. split_and!; try done. intros x Hx. destruct (Z.leb_spec i x), (Z.ltb_spec x (i + Z.of_nat 0)); try lia; done.
  - rewrite Nat2Z.inj_succ in *. destruct (Z.geb_spec (i + byte) (zlen src)).
    + exists buf. split_and!; try done. intros x Hx. destruct (Z.leb_spec i x), (Z.ltb_spec (x + byte) (zlen src)); try lia; by rewrite ?andb_false_r.
    + rewrite byte_at_range by lia. sbind. assert (Hz : zlen [byte_at src (i + byte)] = 1) by done.
      destruct (write_upd buf i [byte_at src (i + byte)] Hb) as (buf1 & -> & Hu); [apply Forall_singleton; by apply byte_at_byte|done|lia|]. sbind. rewrite Hz in Hu.
      destruct (IH (i + 1) buf1) as (buf' & -> & B' & L' & G); [apply Hu|done|lia|destruct Hu as (_ & -> & _); lia|done|].
      exists buf'. split_and!; [done|done|destruct Hu as (_ & <- & _); done|]. intros x Hx. rewrite G by done. destruct (Z.eq_dec x i) as [->|Hne].
      * rewrite (upd_at _ _ _ _ _ _ Hu), Z.sub_diag by lia.
        destruct (Z.leb_spec (i + 1) i), (Z.leb_spec i i), (Z.ltb_spec i (i + Z.succ (Z.of_nat fuel))), (Z.ltb_spec (i + byte) (zlen src)); try lia; done.
      * rewrite (upd_out _ _ _ _ _ _ Hu) by lia.
        destruct (Z.leb_spec (i + 1) x), (Z.leb_spec i x), (Z.ltb_spec x (i + 1 + Z.of_nat fuel)), (Z.ltb_spec x (i + Z.succ (Z.of_nat fuel))); try lia; done.
Qed.

Lemma bfield_shift n B B' o o' : (forall k, 0 <= k < Z.of_nat n -> B (o + k) = B' (o' + k)) -> bfield n B o = bfield n B' o'.
Proof.
  revert o o'. induction n as [|n IH]; intros o o' H; [done|]. cbn [bfield]. pose proof (H 0 ltac:(lia)) as E. rewrite !Z.add_0_r in E. rewrite E. f_equal.
  apply IH. intros k Hk. rewrite <-!Z.add_assoc. apply H. lia.
Qed.

Lemma read_op_spec o op src :
  getObjectReadOnlyString o = Some src -> bytes_ok src -> op_ok op ->
  read_op o op = Some (RLong (aget (bf_sign op) (bf_bits op) (bit_of src) (bf_offset op))).
Proof.
  intros Hsrc Hb (Hoff & Hbits & Hi). unfold read_op. rewrite Hsrc. sbind. rewrite shiftr_div by lia. change (2 ^ 3) with 8. set (byte := bf_offset op / 8).
  pose proof (Z.div_mod (bf_offset op) 8 ltac:(lia)) as Hd. pose proof (Z.mod_pos_bound (bf_offset op) 8 ltac:(lia)) as Hm. fold byte in Hd.
  replace (bf_offset op - byte * 8) with (bf_offset op mod 8) by lia.
  destruct (copy_bytes_spec 9 0 (zeros 9) src byte) as (buf & -> & Bb & Lb & G); [apply zeros_ok|done|done|done|lia|]. sbind. change (zlen (zeros 9)) with 9 in Lb.
  assert (Hbits9 : forall y, 0 <= y < 72 -> bit_of buf y = bit_of src (8 * byte + y)).
  { intros y Hy. rewrite !bit_of_byte_at by lia. rewrite G, byte_at_zeros by (apply Z.div_pos; lia). replace ((8 * byte + y) / 8) with (y / 8 + byte) by div_lia.
    replace ((8 * byte + y) mod 8) with (y mod 8) by div_lia. pose proof (Z.div_pos y 8). change (0 + Z.of_nat 9) with 9.
    destruct (Z.leb_spec 0 (y / 8)), (Z.ltb_spec (y / 8) 9), (Z.ltb_spec (y / 8 + byte) (zlen src)); try div_lia; cbn [andb]; [done|]. by rewrite byte_at_past by lia. }
  set (op' := BitfieldOp (bf_offset op mod 8) 0 BITFIELDOP_GET BFOVERFLOW_WRAP (bf_bits op) (bf_sign op)).
  assert (Hbb : bf_bits op <= 64) by (destruct (bf_sign op); lia).
  pose proof (get_aget buf op') as Hget. cbn in Hget. specialize (Hget ltac:(lia) Hbits ltac:(lia) ltac:(rewrite Lb; lia)).
  assert (E : aget (bf_sign op) (bf_bits op) (bit_of buf) (bf_offset op mod 8) = aget (bf_sign op) (bf_bits op) (bit_of src) (bf_offset op)).
  { unfold aget. rewrite (bfield_shift _ _ (bit_of src) _ (bf_offset op)); [done|]. intros k Hk. rewrite Hbits9 by lia. f_equal. lia. }
  rewrite E in Hget. pose proof (aget_range (bf_sign op) (bf_bits op) (bit_of src) (bf_offset op) ltac:(lia)) as Hr. pose proof (tmax_64 _ _ Hbits) as H64.
  destruct (bf_sign op) eqn:Es; rewrite Hget; sbind; [done|]. rewrite swrap_small; [done|lia|]. unfold in_signed. change (64 - 1) with 63. lia.
Qed.

(** ** The run *)

Lemma run_ops_spec l p grow changes B :
  bytes_ok p -> Forall op_ok l -> Forall (fun op => writes op = true -> bf_offset op + bf_bits op <= 8 * zlen p) l -> 8 * zlen p < 2 ^ 64 ->
  beq (bit_of p) B ->
  exists q c, run_ops l (Some (OStr p)) grow changes = Some (Some (OStr q), snd (arun B l), c) /\ bytes_ok q /\ zlen q = zlen p
    /\ beq (bit_of q) (fst (arun B l)) /\ c = changes + achanges (negb (grow =? 0)) B l /\ changes <= c /\ (c = changes -> q = p).
Proof.
  intros Hp Hok. revert p changes B Hp. induction Hok as [|op l Hop _ IH]; intros p changes B Hp Hfit H64 HB.
  - exists p, changes. cbn [achanges]. split_and!; done || lia.
  - apply Forall_cons in Hfit as [Hf1 Hfit]. cbn [run_ops arun].
    destruct (aop_ext (bit_of p) B op ltac:(apply Hop) HB) as [HB1 Hr1].
    assert (Hstep : exists q c, match bf_opcode op with
        | BITFIELDOP_GET => r ← read_op (Some (OStr p)) op; Some (Some (OStr p), r, 0)
        | _ => '(p, r, c) ← write_op p grow op; Some (Some (OStr p), r, c)
        end = Some (Some (OStr q), snd (aop (bit_of p) op), c) /\ bytes_ok q /\ zlen q = zlen p /\ beq (bit_of q) (fst (aop (bit_of p) op))
        /\ c = achange (negb (grow =? 0)) (bit_of p) op /\ (c = 0 -> q = p)).
    { destruct (bf_opcode op) eqn:Ec.
      1:{ rewrite (read_op_spec _ op p) by done. sbind. exists p, 0. unfold aop, achange, writes. rewrite Ec. cbn. split_and!; done || lia. }
      all: assert (Hw : writes op = true) by (unfold writes; by rewrite Ec).
      all: destruct (write_op_spec p grow op Hp Hop Hw (Hf1 Hw) H64) as (q & c & -> & Hq); sbind; by exists q, c. }
    destruct Hstep as (q & c & -> & Bq & Lq & Gq & Hc & Hc0). sbind.
    destruct (IH q (changes + c) (fst (aop B op))) as (q2 & c2 & -> & B2 & L2 & G2 & Hch & Hc2 & Hc20); [done|by rewrite Lq|by rewrite Lq|by eapply beq_trans|]. sbind.
    rewrite (achange_ext _ (bit_of p) B) in Hc by (done || apply Hop). pose proof (achange_range (negb (grow =? 0)) B op) as Hc1. cbn [achanges].
    rewrite Hr1. destruct (aop B op) as [B1 r]. cbn [fst snd] in *. destruct (arun B1 l) as [B2' rs]. exists q2, c2. split_and!; [done|done|lia|done|lia|lia|].
    intros ->. assert (c = 0) as -> by lia. rewrite Hc20, Hc0 by lia. done.
Qed.

(** A run of reads, on any string. *)
Lemma run_reads l o src changes :
  getObjectReadOnlyString o = Some src -> bytes_ok src -> Forall op_ok l -> Forall (fun op => writes op = false) l ->
  run_ops l o 0 changes = Some (o, snd (arun (bit_of src) l), changes) /\ fst (arun (bit_of src) l) = bit_of src.
Proof.
  intros Hsrc Hb Hok. revert changes. induction Hok as [|op l Hop _ IH]; intros changes Hr; [done|]. apply Forall_cons in Hr as [Hr1 Hr]. cbn [run_ops arun].
  destruct op as [off n code ow bits sign]. unfold writes in Hr1. cbn [bf_opcode] in *. destruct code; try done.
  rewrite (read_op_spec _ _ src) by done. sbind. rewrite Z.add_0_r. destruct (IH changes Hr) as [-> E]. sbind.
  unfold aop. cbn [bf_opcode bf_sign bf_bits bf_offset] in *. destruct (arun (bit_of src) l). by cbn in *; subst.
Qed.

(** ** The arguments *)

Lemma offset_ok v arg hash bits off : getBitOffsetFromArgument v arg hash bits = Some (inr off) -> 0 <= off < 2 ^ 63.
Proof.
  unfold getBitOffsetFromArgument. destruct (string2ll _) as [n|] eqn:E; [|done]. set (b := _ && (bits >? 0)). set (l := if b then n * bits else n).
  destruct ((l <? _) || _) eqn:E1; [done|]. destruct ((l <? 0) || _) eqn:E2; [done|].
  intros [= <-]. apply orb_false_iff in E1 as [_ E1], E2 as [E2 _]. lia.
Qed.

Lemma type_ok arg sign bits : getBitfieldTypeFromArgument arg = inr (sign, bits) -> 1 <= bits <= (if sign then 64 else 63).
Proof.
  unfold getBitfieldTypeFromArgument. destruct arg as [|c rest]; [done|]. destruct (_ || _); [|done]. destruct (string2ll _) as [n|]; [|done].
  destruct (_ || _) eqn:E; [done|]. intros [= <- <-]. apply orb_false_iff in E as [[E1 E2]%orb_false_iff E3].
  destruct (c =? 105); cbn [andb negb] in *; lia.
Qed.

Definition parsed_ok (acc : parsed) : Prop :=
  Forall op_ok (ops acc) /\ 0 <= highest_write_offset acc < 2 ^ 63 + 64
  /\ Forall (fun op => writes op = true -> readonly acc = false /\ bf_offset op + bf_bits op - 1 <= highest_write_offset acc) (ops acc)
  /\ (readonly acc = true -> highest_write_offset acc = 0)
  /\ last_written (ops acc) = if readonly acc then -1 else highest_write_offset acc.

Lemma last_written_app l op :
  last_written (l ++ [op]) = if writes op then Z.max (last_written l) (bf_offset op + bf_bits op - 1) else last_written l.
Proof. induction l as [|op' l IH]; cbn [app last_written]; [destruct (writes op); lia|]. rewrite IH. destruct (writes op), (writes op'); lia. Qed.

Lemma parsed_read acc off ow bits sign :
  parsed_ok acc -> op_ok (BitfieldOp off 0 BITFIELDOP_GET ow bits sign) ->
  parsed_ok (Parsed (ops acc ++ [BitfieldOp off 0 BITFIELDOP_GET ow bits sign]) (readonly acc) (highest_write_offset acc)).
Proof.
  intros (H1 & H2 & H3 & H4 & H5) Hop. split_and!; cbn [ops readonly highest_write_offset]; [by apply Forall_app; split; [|by apply Forall_singleton]|lia..| |done|].
  - apply Forall_app; split; [done|]. by apply Forall_singleton.
  - by rewrite last_written_app.
Qed.

Lemma parsed_write acc off n code ow bits sign :
  code <> BITFIELDOP_GET -> parsed_ok acc -> op_ok (BitfieldOp off n code ow bits sign) ->
  let high := u64 (u64 (off + bits) - 1) in
  parsed_ok (Parsed (ops acc ++ [BitfieldOp off n code ow bits sign]) false (if highest_write_offset acc <? high then high else highest_write_offset acc)).
Proof.
  intros Hcode (H1 & H2 & H3 & H4 & H5) Hop. pose proof Hop as (Ho & Hb & _). cbn in Ho, Hb. cbv zeta. assert (bits <= 64) by (destruct sign; lia).
  rewrite (wrap_small 64 (off + bits)), wrap_small by lia.
  split_and!; cbn [ops readonly highest_write_offset]; [by apply Forall_app; split; [|by apply Forall_singleton]|zcase; lia..| |done|].
  2:{ rewrite last_written_app, H5. unfold writes. cbn [bf_opcode bf_offset bf_bits].
      destruct code; [done|..]; (destruct (readonly acc); [rewrite H4 by done|]); zcase; lia. }
  apply Forall_app; split.
  - eapply Forall_impl; [exact H3|]. cbn. intros op Hw Hop'. destruct (Hw Hop') as [_ ?]. split; [done|]. destruct (Z.ltb_spec (highest_write_offset acc) (off + bits - 1)); lia.
  - apply Forall_singleton. intros _. cbn. split; [done|]. destruct (Z.ltb_spec (highest_write_offset acc) (off + bits - 1)); lia.
Qed.

(** A subcommand has its arguments. *)
Lemma subcmd_args name n :
  match parse_subcmd name n with SubOp c => 2 <= n /\ (c <> BITFIELDOP_GET -> 3 <= n) | SubOverflow => 1 <= n | SubBad => True end.
Proof.
  unfold parse_subcmd. repeat match goal with |- context [strcaseeq ?a ?b] => destruct (strcaseeq a b) end; cbn [andb];
    repeat match goal with |- context [n >=? ?k] => destruct (Z.geb_spec n k) end; try done; try (split; [lia|intros; lia || done]).
Qed.

Lemma parse_ops_total fuel v args ow acc :
  (length args <= fuel)%nat -> parsed_ok acc ->
  match parse_ops fuel v args ow acc with
  | Some (inr acc') => parsed_ok acc'
  | Some (inl _) => True
  | None => Exists (fun arg => exists bits, 1 <= bits <= 64 /\ getBitOffsetFromArgument v arg true bits = None) args
  end.
Proof.
  revert args ow acc. induction fuel as [|fuel IH]; intros [|name args] ow acc Hf Hacc; cbn [parse_ops]; try (cbn in Hf; lia); try exact Hacc.
  cbn [length] in Hf. destruct (parse_subcmd name (zlen args)) as [code| |] eqn:Es; [| |done].
  - assert (Hrem : (2 <= length args)%nat /\ (code <> BITFIELDOP_GET -> (3 <= length args)%nat)).
    { pose proof (subcmd_args name (zlen args)) as H. rewrite Es in H. unfold zlen in H. destruct H as [H1 H2]. split; [lia|]. intros Hc. specialize (H2 Hc). lia. }
    destruct args as [|targ [|oarg args]]; cbn [length] in *; try lia. cbn [lookup list_lookup mbind option_bind].
    destruct (getBitfieldTypeFromArgument targ) as [|[sign bits]] eqn:Et; [done|]. apply type_ok in Et.
    destruct (getBitOffsetFromArgument v oarg true bits) as [[|off]|] eqn:Eo; cbn [mbind option_bind];
      [done| |right; right; left; exists bits; split; [destruct sign; lia|done]]. apply offset_ok in Eo.
    assert (Hin : forall f rest ow acc, (length rest <= fuel)%nat -> parsed_ok acc -> f = parse_ops fuel v rest ow acc -> rest `suffix_of` args ->
      match f with
      | Some (inr acc') => parsed_ok acc'
      | Some (inl _) => True
      | None => Exists (fun arg => exists bits, 1 <= bits <= 64 /\ getBitOffsetFromArgument v arg true bits = None) (name :: targ :: oarg :: args)
      end).
    { intros f rest ow' acc' Hl Ha -> [pre ->]. specialize (IH rest ow' acc' Hl Ha). destruct (parse_ops fuel v rest ow' acc') as [[|]|]; [done..|].
      do 3 right. apply Exists_app. by right. }
    assert (Hget : op_ok (BitfieldOp off 0 code ow bits sign)) by (split; [exact Eo|split; [exact Et|done]]).
    destruct code; cbn [drop].
    { eapply Hin; [|by apply parsed_read|done|by rewrite drop_0]. rewrite drop_0. lia. }
    all: pose proof (proj2 Hrem ltac:(done)) as Hr3; destruct args as [|varg args]; cbn [length] in *; [lia|]; cbn [lookup list_lookup mbind option_bind].
    all: unfold getLongLong; destruct (string2ll varg) as [n|] eqn:En; [|done]; apply string2ll_iff in En as [Hn _].
    all: eapply Hin; [| |reflexivity|]; [cbn; rewrite drop_0; lia| |cbn; rewrite drop_0; by apply suffix_cons_r].
    all: apply parsed_write; [done|done|split; [exact Eo|split; [exact Et|exact Hn]]].
  - assert (Hrem : (1 <= length args)%nat).
    { pose proof (subcmd_args name (zlen args)) as H. rewrite Es in H. unfold zlen in H. lia. }
    destruct args as [|oname args]; [cbn in Hrem; lia|]. cbn [head mbind option_bind tail]. destruct (parse_owtype oname) as [ow'|]; [|done].
    specialize (IH args ow' acc ltac:(cbn in Hf; lia) Hacc). destruct (parse_ops fuel v args ow' acc) as [[|]|]; [done..|]. by do 2 right.
Qed.

(** ** The command *)

Lemma parsed_init : parsed_ok (Parsed [] true 0).
Proof. by split_and!; cbn; try apply Forall_nil. Qed.

Lemma reads_only l : Forall (fun op => writes op = false) l -> last_written l = -1 /\ forall grown B, achanges grown B l = 0.
Proof.
  induction 1 as [|op l Hop _ [IH1 IH2]]; [done|]. cbn [last_written achanges]. unfold achange. rewrite Hop. split; [done|]. intros grown B. by rewrite IH2.
Qed.

Lemma bitfield_run v s key args acc :
  server_ok s -> checkType (keys s !! key) = false -> 8 * zlen (str_of s key) < 2 ^ 63 ->
  parse_ops (length args) v args BFOVERFLOW_WRAP (Parsed [] true 0) = Some (inr acc) ->
  let p := str_of s key in
  let r := arun (bit_of p) (ops acc) in
  let len := last_written (ops acc) / 8 + 1 in
  let changes := achanges (zlen p <? len) (bit_of p) (ops acc) in
  exists s' q, bitfieldCommand v s key args = Some (s', RArray (zlen (ops acc)) :: snd r)
    /\ bytes_ok q /\ zlen q = Z.max (zlen p) len /\ beq (bit_of q) (fst r)
    /\ keys s' = (if readonly acc then keys s else <[key := OStr q]> (keys s)) /\ str_of s' key = q
    /\ dirty s' = dirty s + changes
    /\ effects s' = effects s ++ (if changes =? 0 then [] else updateKeysizes key (zlen p) (zlen q - zlen p) ++ [Modified key; Notify EvSetbit key])
    /\ (changes = 0 -> beq (fst r) (bit_of p)).
Proof.
  intros Hs Ht Hl Hparse p r len changes. unfold bitfieldCommand, bitfieldGeneric. rewrite Hparse. sbind.
  pose proof (parse_ops_total (length args) v args BFOVERFLOW_WRAP _ ltac:(lia) parsed_init) as Hok. rewrite Hparse in Hok.
  destruct Hok as (Hops & Hhigh & Hfit & _ & Hlast). pose proof (zlen_nonneg p) as Hp0. destruct (readonly acc) eqn:Er.
  - rewrite Ht. assert (Hreads : Forall (fun op => writes op = false) (ops acc)).
    { eapply Forall_impl; [exact Hfit|]. cbn. intros op Hw. destruct (writes op); [|done]. by destruct (Hw eq_refl). }
    destruct (run_reads (ops acc) (keys s !! key) p 0) as [-> E]; [by apply read_string|by apply str_of_ok|done|done|]. sbind.
    destruct (reads_only (ops acc) Hreads) as [_ Hch]. unfold changes, len. rewrite Hch, Hlast. change (-1 / 8 + 1) with 0.
    exists s, p. unfold r. rewrite E. cbn [Z.eqb]. rewrite app_nil_r. split_and!; try done; [by apply str_of_ok|lia..].
  - pose proof (lookupString_spec s key (highest_write_offset acc) Hs ltac:(lia)) as Hlook. rewrite Ht in Hlook. cbv zeta in Hlook. rewrite Hlook. clear Hlook. sbind.
    assert (Hlen : len = highest_write_offset acc / 8 + 1) by (unfold len; by rewrite Hlast). clearbody len.
    set (h := highest_write_offset acc) in *. set (g := sdsgrowzero p (h / 8 + 1)). fold p. fold g.
    pose proof (grow_ok p (h / 8 + 1) (str_of_ok s key Hs)) as Bg. pose proof (grow_len p (h / 8 + 1)) as Lg. fold g in Bg, Lg.
    assert (HB : beq (bit_of g) (bit_of p)) by (intros i Hi; by apply grow_bits).
    assert (Hg1 : h < 8 * zlen g) by (rewrite Lg; div_lia). assert (Hg2 : 8 * zlen g < 2 ^ 64) by (rewrite Lg; unfold p; div_lia).
    destruct (run_ops_spec (ops acc) g (zlen g - zlen p) 0 (bit_of p) Bg Hops) as (q & c & -> & Bq & Lq & Gq & Hc & _ & Hc0); [|done|done|].
    { eapply Forall_impl; [exact Hfit|]. cbn. intros op Hw Hop. destruct (Hw Hop) as [_ ?]. lia. }
    assert (Hcc : c = changes).
    { rewrite Hc. unfold changes. rewrite Z.add_0_l. f_equal. destruct (Z.ltb_spec (zlen p) len), (Z.eqb_spec (zlen g - zlen p) 0); done || lia. }
    clear Hc. subst c. sbind. eexists _, q. split; [done|]. cbn [keys with_keys]. set (s' := if negb (changes =? 0) then _ else _).
    assert (Hk : keys s' = <[key := OStr q]> (keys s)) by (unfold s'; destruct (negb _); cbn; by rewrite insert_insert_eq).
    split_and!; [done|lia|done|done|unfold str_of; by rewrite Hk, lookup_insert_eq| | |].
    + unfold s'. destruct (Z.eqb_spec changes 0); cbn; lia.
    + unfold s'. rewrite Lq. destruct (changes =? 0); cbn; by rewrite ?app_nil_r.
    + intros H0. eapply beq_trans; [|exact HB]. rewrite <-(Hc0 H0). intros i Hi. symmetry. by apply Gq.
Qed.

(** ** Writes that fail *)

Lemma aget_nil sign bits off : 0 <= bits -> aget sign bits (bit_of []) off = 0.
Proof.
  intros Hb. unfold aget. assert (Hz : forall n o, bfield n (bit_of []) o = 0) by (induction n as [|n IH]; intros o; [done|]; cbn [bfield]; by rewrite bit_of_nil, IH).
  rewrite Hz. destruct sign; [|done]. unfold swrap. destruct (Z.eq_dec bits 0) as [->|]; [done|].
  assert (0 < 2 ^ (bits - 1) < 2 ^ bits) by (split; [apply Z.pow_pos_nonneg|apply Z.pow_lt_mono_r]; lia). rewrite Z.mod_small; lia.
Qed.

(** On an empty string, operations whose writes all fail reply nil or zero. *)
Lemma run_fails l : Forall op_ok l -> Forall (fun op => writes op = true -> stored_value op 0 = None) l ->
  arun (bit_of []) l = (bit_of [], map (fun op => if writes op then RNull else RLong 0) l) /\ forall grown, achanges grown (bit_of []) l = 0.
Proof.
  induction 1 as [|op l Hop _ IH]; [done|]. intros [Hf Hl]%Forall_cons. destruct (IH Hl) as [IH1 IH2].
  assert (Hg : aget (bf_sign op) (bf_bits op) (bit_of []) (bf_offset op) = 0) by (apply aget_nil; destruct Hop; lia).
  assert (Ha : aop (bit_of []) op = (bit_of [], if writes op then RNull else RLong 0) /\ forall grown, achange grown (bit_of []) op = 0).
  { unfold aop, achange. unfold writes in *. rewrite Hg. destruct (bf_opcode op); [done|rewrite Hf by done..]; done. }
  destruct Ha as [Ha1 Ha2]. cbn [arun achanges map]. rewrite Ha1, IH1. split; [done|]. intros grown. rewrite Ha2. apply IH2.
Qed.

Lemma bitfield_reads v s key args acc :
  server_ok s -> checkType (keys s !! key) = false ->
  parse_ops (length args) v args BFOVERFLOW_WRAP (Parsed [] true 0) = Some (inr acc) -> readonly acc = true ->
  bitfieldCommand v s key args = Some (s, RArray (zlen (ops acc)) :: snd (arun (bit_of (str_of s key)) (ops acc))).
Proof.
  intros Hs Ht Hparse Er. unfold bitfieldCommand, bitfieldGeneric. rewrite Hparse. sbind. rewrite Er, Ht.
  pose proof (parse_ops_total (length args) v args BFOVERFLOW_WRAP _ ltac:(lia) parsed_init) as Hok. rewrite Hparse in Hok.
  destruct Hok as (Hops & _ & Hfit & _).
  destruct (run_reads (ops acc) (keys s !! key) (str_of s key) 0) as [-> _]; [by apply read_string|by apply str_of_ok|done| |done].
  eapply Forall_impl; [exact Hfit|]. cbn. intros op Hw. destruct (writes op); [|done]. destruct (Hw eq_refl). congruence.
Qed.

Lemma bitfield_fails v s key args acc :
  server_ok s -> keys s !! key = None ->
  parse_ops (length args) v args BFOVERFLOW_WRAP (Parsed [] true 0) = Some (inr acc) ->
  readonly acc = false -> Forall (fun op => writes op = true -> stored_value op 0 = None) (ops acc) ->
  0 < last_written (ops acc) / 8 + 1
  /\ bitfieldCommand v s key args
     = Some (Server (<[key := OStr (zeros (last_written (ops acc) / 8 + 1))]> (keys s)) (dirty s) (effects s),
             RArray (zlen (ops acc)) :: map (fun op => if writes op then RNull else RLong 0) (ops acc)).
Proof.
  intros Hs Hk Hparse Er Hf. assert (Hstr : str_of s key = []) by (unfold str_of; by rewrite Hk).
  pose proof (parse_ops_total (length args) v args BFOVERFLOW_WRAP _ ltac:(lia) parsed_init) as Hok. rewrite Hparse in Hok.
  destruct Hok as (Hops & Hh & _ & _ & Hlast). rewrite Er in Hlast. assert (Hpos : 0 < last_written (ops acc) / 8 + 1) by (rewrite Hlast; div_lia).
  split; [done|]. destruct (bitfield_run v s key args acc Hs) as (s' & q & Hc & Bq & Lq & Gq & Hks & _ & Hd & He & _);
    [by rewrite Hk|by rewrite Hstr|done|]. rewrite Hstr, Er in *. cbv zeta in *. destruct (run_fails (ops acc) Hops Hf) as [Hr Hch].
  rewrite Hr, Hch in *. cbn [fst snd Z.eqb] in *. rewrite Hc. do 2 f_equal. change (zlen []) with 0 in Lq.
  assert (q = zeros (last_written (ops acc) / 8 + 1)) as ->.
  { apply bits_ext; [done|apply zeros_ok|rewrite Lq, zlen_zeros by lia; lia|]. intros i Hi. rewrite Gq by done.
    by rewrite bit_of_nil, bit_of_zeros. }
  rewrite app_nil_r, Z.add_0_r in *. destruct s' as [ks d e]. cbn in *. by subst.
Qed.
