(* ===== verification/BitThms.v ===== *)
(** * The commands on bits: theorems

    What counting, searching, the operations on whole strings and the integers in
    strings promise, with the cases in which they do not. *)

From stdpp Require Import base list gmap numbers.
From S2P Require Import Prelude Util Bits BitsSpec BitfieldSpec Bitops BitopSpec BitStrings BitopRefine BitopsSpec BitposSpec BitfieldRun.
Local Open Scope cint_scope.

(** ** A server for the examples *)

Definition sample_env : env := Env false (2 ^ 29) true true 13 5.
Definition foobar : list Z := [102; 111; 111; 98; 97; 114].
Definition sample : server := Server {[ [107] := OStr foobar; [110] := OInt (-42) ]} 0 [].
(** Strings long enough for every path of BITOP. *)
Definition long_a : list Z := map Z.of_nat (seq 0 70).
Definition long_b : list Z := map Z.of_nat (seq 100 71).
Definition long_c : list Z := map Z.of_nat (seq 50 80).
Definition sample_long : server := Server {[ [97] := OStr long_a; [98] := OStr long_b; [99] := OStr long_c ]} 0 [].

Lemma robj_okb o : match o with OStr s => forallb (fun b => (0 <=? b) && (b <? 256)) s | OInt v => (- 2 ^ 63 <=? v) && (v <? 2 ^ 63) | OOther _ => true end = true -> robj_ok o.
Proof.
  destruct o as [s|v|]; cbn; [|unfold in_signed; change (64 - 1) with 63; lia|done]. intros H. apply Forall_forall. intros b Hb.
  rewrite forallb_forall in H. specialize (H b (proj1 (list_elem_of_In _ _) Hb)). unfold is_byte. lia.
Qed.

Lemma sample_ok : server_ok sample.
Proof. repeat apply map_Forall_insert_2; try apply map_Forall_empty; by apply robj_okb. Qed.
Lemma sample_long_ok : server_ok sample_long.
Proof. repeat apply map_Forall_insert_2; try apply map_Forall_empty; apply robj_okb; by vm_compute. Qed.

(** ** Counting and searching *)

(** Whatever the address of the string and whether the processor has the
    instruction, counting by words and by bytes gives the number of positions of
    the string whose bit is set. *)
Theorem redisPopcount_correct base use a bs c :
  bytes_ok bs -> 8 * zlen bs < 2 ^ 63 ->
  redisPopcount (a ++ bs ++ c) base use (zlen a) (zlen bs)
  = Some (Z.of_nat (length (filter (fun i => bit_of bs (Z.of_nat i) = true) (seq 0 (8 * length bs))))).
Proof. intros Hb Hl. rewrite redisPopcount_spec by done. by rewrite count_ones_bits. Qed.

Lemma redisPopcount_correct_witness :
  redisPopcount ([1] ++ long_b ++ [255]) 6 false (zlen [1]) (zlen long_b)
  = Some (Z.of_nat (length (filter (fun i => bit_of long_b (Z.of_nat i) = true) (seq 0 (8 * length long_b))))).
Proof. apply (redisPopcount_correct 6 false [1] long_b [255]); [apply (robj_okb (OStr long_b)); by vm_compute|by vm_compute]. Defined.

(** The search for a bit returns the first position with the value, the
    string continued by zeros, and -1 exactly when a set bit is searched and there
    is none. *)
Theorem redisBitpos_correct base a bs c bit :
  bit = 0 \/ bit = 1 -> bytes_ok bs -> 8 * zlen bs + 64 < 2 ^ 63 ->
  exists r, redisBitpos (a ++ bs ++ c) base (zlen a) (zlen bs) bit = Some r
    /\ ((r = -1 /\ bit = 1 /\ forall i, 0 <= i -> bit_of bs i = false)
        \/ (0 <= r /\ bit_of bs r = (bit =? 1) /\ forall i, 0 <= i < r -> bit_of bs i = negb (bit =? 1))).
Proof.
  intros Hbit Hb Hl. destruct (redisBitpos_spec base a c bit Hbit (zlen a) bs Hb Hl eq_refl) as (r & Hr & Hcase).
  exists r. split; [done|]. destruct Hcase as [?|(H0 & _ & Hf)]; [by left|right; by split].
Qed.

Lemma redisBitpos_correct_witness :
  exists r, redisBitpos ([7] ++ [255; 255; 240; 0] ++ [1]) 2 (zlen [7]) (zlen [255; 255; 240; 0]) 0 = Some r
    /\ ((r = -1 /\ 0 = 1 /\ forall i, 0 <= i -> bit_of [255; 255; 240; 0] i = false)
        \/ (0 <= r /\ bit_of [255; 255; 240; 0] r = (0 =? 1) /\ forall i, 0 <= i < r -> bit_of [255; 255; 240; 0] i = negb (0 =? 1))).
Proof. apply (redisBitpos_correct 2 [7] [255; 255; 240; 0] [1] 0); [by left|by apply (robj_okb (OStr [255; 255; 240; 0]))|by vm_compute]. Defined.

(** C25: BITCOUNT replies the number of set bits of the string of the key, all of
    it or from one position to another, both included, in bytes or in bits, each
    counted from the end when negative.  An end before the first position stands
    for it, but two negative positions in the wrong order select nothing.  The
    string has fewer than 2^60 bytes. *)
Theorem bitcount_correct v s cmd key startarg endarg rest start end_ isbit :
  server_ok s -> checkType (keys s !! key) = false -> 8 * zlen (str_of s key) < 2 ^ 63 ->
  string2ll startarg = Some start -> string2ll endarg = Some end_ -> unit_of rest isbit ->
  let p := str_of s key in
  bitcountCommand v s (cmd :: key :: startarg :: endarg :: rest)
    = Some (s, [RLong (if (end_ <? start) && (start <? 0) then 0 else count_set p (in_bits isbit (zlen p) start (Some end_)))])
  /\ bitcountCommand v s [cmd; key] = Some (s, [RLong (count_set p (fun _ => true))]).
Proof.
  intros Hs Ht Hl Hstart Hend Hunit p. pose proof (bitcount_spec v s cmd key startarg endarg rest start end_ isbit Hs Ht Hl Hstart Hend Hunit) as H.
  pose proof (fun i => in_bits_range isbit (zlen p) start end_ i (zlen_nonneg p)) as Hin. pose proof (range_bits_bounds isbit (zlen p) start end_ (zlen_nonneg p)) as Hb.
  fold p in H. destruct (range_bits _ _ _ _) as [lo hi]. split.
  - rewrite H. do 4 f_equal. rewrite (count_set_range p _ lo hi) by (done || lia). destruct (Z.ltb_spec start 0), (Z.ltb_spec end_ 0), (Z.ltb_spec end_ start), (Z.gtb_spec start end_); done || lia.
  - by rewrite bitcount_all_spec.
Qed.

Lemma bitcount_correct_witness :
  bitcountCommand sample_env sample [[]; [107]; [53]; [45; 51]; [66; 105; 116]] = Some (sample, [RLong (count_set foobar (in_bits true 6 5 (Some (-3))))])
  /\ bitcountCommand sample_env sample [[]; [107]] = Some (sample, [RLong (count_set foobar (fun _ => true))]).
Proof.
  apply (bitcount_correct sample_env sample [] [107] [53] [45; 51] [[66; 105; 116]] 5 (-3) true); [apply sample_ok|by vm_compute..|].
  right. exists [66; 105; 116]. split; by vm_compute.
Defined.

(** C26: BITPOS replies the first bit with the value among those from one position
    to another or to the end of the string, positions counted as for BITCOUNT.
    When there is none it replies -1, except that without an explicit end a search
    for a clear bit replies the position after the last byte, unless the range is
    empty; a missing key is an infinite string of zeros.  The string has fewer
    than 2^60 - 8 bytes. *)
Theorem bitpos_correct v s cmd key bitarg startarg rest bit start given isbit :
  bit = 0 \/ bit = 1 -> server_ok s -> checkType (keys s !! key) = false -> 8 * zlen (str_of s key) + 64 < 2 ^ 63 ->
  string2ll bitarg = Some bit -> string2ll startarg = Some start -> range_args rest given isbit ->
  let p := str_of s key in
  (exists r, bitposCommand v s (cmd :: key :: bitarg :: startarg :: rest) = Some (s, [RLong r])
     /\ bitpos_reply bit (keys s !! key) p (if given then true else false) (in_bits isbit (zlen p) start given) r)
  /\ exists r, bitposCommand v s [cmd; key; bitarg] = Some (s, [RLong r])
     /\ bitpos_reply bit (keys s !! key) p false (fun i => (0 <=? i) && (i <? 8 * zlen p)) r.
Proof.
  intros Hbit Hs Ht Hl Hba Hsa Hrest p. split; [by apply (bitpos_spec bit Hbit)|by apply bitpos_all_spec].
Qed.

Lemma bitpos_correct_witness :
  (exists r, bitposCommand sample_env sample [[]; [107]; [48]; [51]; [45; 49]; [98; 105; 116]] = Some (sample, [RLong r])
     /\ bitpos_reply 0 (keys sample !! [107]) foobar true (in_bits true 6 3 (Some (-1))) r)
  /\ exists r, bitposCommand sample_env sample [[]; [107]; [48]] = Some (sample, [RLong r])
     /\ bitpos_reply 0 (keys sample !! [107]) foobar false (fun i => (0 <=? i) && (i <? 8 * zlen foobar)) r.
Proof.
  apply (bitpos_correct sample_env sample [] [107] [48] [51] [[45; 49]; [98; 105; 116]] 0 3 (Some (-1)) true); [by left|apply sample_ok|by vm_compute..|].
  right. exists [45; 49], (-1), [[98; 105; 116]]. split_and!; [done|by vm_compute|done|]. right. exists [98; 105; 116]. split; by vm_compute.
Defined.

(** ** One bit *)

(** C24: SETBIT replies the old bit and stores the new one, the string continued by
    zeros when it is too short; no other bit and no other key changes, a change is
    counted exactly when the string is another one, and GETBIT then reads, at any
    position, what SETBIT has left. *)
Theorem setbit_getbit v s key offset bit off on_ offset' off' :
  server_ok s -> getBitOffsetFromArgument v offset false 0 = Some (inr off) -> string2ll bit = Some on_ -> on_ = 0 \/ on_ = 1 ->
  checkType (keys s !! key) = false -> getBitOffsetFromArgument v offset' false 0 = Some (inr off') ->
  let p := str_of s key in
  exists s' q, setbitCommand v s key offset bit = Some (s', [RLong (b2i (bit_of p off))])
    /\ keys s' = <[key := OStr q]> (keys s) /\ zlen q = Z.max (zlen p) (off / 8 + 1)
    /\ dirty s' = dirty s + (if bool_decide (q = p) then 0 else 1)
    /\ getbitCommand v s' key offset' = Some (s', [RLong (if off' =? off then on_ else b2i (bit_of p off'))]).
Proof.
  intros Hs Hoff Hbit Hon Ht Hoff' p. destruct (setbit_spec v s key offset bit off on_ Hs Hoff Hbit Hon Ht) as (s' & q & Hset & Hk & Bq & Lq & Gq & Hd).
  fold p in Hset, Lq, Gq, Hd. exists s', q. split_and!; [done..| |].
  - rewrite Hd. f_equal. case_bool_decide as Eq; [subst q|].
    + rewrite Z.eqb_refl. cbn [andb]. pose proof (Gq off ltac:(by eapply offset_range)) as E. rewrite Z.eqb_refl in E. by rewrite E, Bool.eqb_reflx.
    + destruct (Z.eqb_spec (zlen q) (zlen p)) as [El|]; [|done]. destruct (Bool.eqb_spec (bit_of p off) (on_ =? 1)) as [E|]; [|done]. destruct Eq.
      apply bits_ext; [done|by apply str_of_ok|done|]. intros i Hi. rewrite Gq by done. by destruct (Z.eqb_spec i off) as [->|].
  - assert (Hs' : server_ok s') by (unfold server_ok; rewrite Hk; by apply map_Forall_insert_2).
    assert (Hq : str_of s' key = q) by (unfold str_of; by rewrite Hk, lookup_insert_eq).
    rewrite (getbit_spec v s' key offset' off' Hs' Hoff'), Hq by (by rewrite Hk, lookup_insert_eq). rewrite Gq by (by eapply offset_range).
    destruct (off' =? off); [|done]. by destruct Hon as [-> | ->].
Qed.

Lemma setbit_getbit_witness :
  exists s' q, setbitCommand sample_env sample [110] [55; 55] [49] = Some (s', [RLong 0])
    /\ keys s' = <[[110] := OStr q]> (keys sample) /\ zlen q = 10 /\ dirty s' = 0 + (if bool_decide (q = dec (-42)) then 0 else 1)
    /\ getbitCommand sample_env s' [110] [50] = Some (s', [RLong 1]).
Proof.
  apply (setbit_getbit sample_env sample [110] [55; 55] [49] 77 1 [50] 2); [apply sample_ok|by vm_compute|by vm_compute|by right|by vm_compute..].
Defined.

(** ** Whole strings *)

(** C9: BITOP stores under the target a string as long as the longest source,
    each bit of which is the operation on the bits of the sources at its position,
    with or without vector instructions, by words and by bytes; with only empty
    sources the target is deleted.  It replies the length. *)
Theorem bitop_correct v s opname op target args :
  server_ok s -> parse_bitop opname = Some op -> args <> [] ->
  (op = BITOP_NOT -> length args = 1%nat) -> (disjunctive op = true -> (2 <= length args)%nat) ->
  existsb (fun a => checkType (keys s !! a)) args = false ->
  exists s', bitopCommand v s opname target args = Some (s', [RLong (max_len (map (str_of s) args))])
    /\ bitop_post op s s' target (map (str_of s) args).
Proof. apply bitop_run. Qed.

Lemma bitop_correct_witness :
  exists s', bitopCommand sample_env sample_long [79; 110; 101] [116] [[97]; [98]; [99]] = Some (s', [RLong 80])
    /\ bitop_post BITOP_ONE sample_long s' [116] [long_a; long_b; long_c].
Proof. apply (bitop_correct sample_env sample_long [79; 110; 101] BITOP_ONE [116] [[97]; [98]; [99]]); [apply sample_long_ok|by vm_compute|done..|by vm_compute]. Defined.

(** ** Integers in strings *)




(** C39: storing a very negative value with saturation in a signed integer of fewer
    than 64 bits gives the greatest value of the type in place of the least one:
    the difference that is tested first has wrapped around. *)
Theorem bitfield_saturates_up value bits :
  1 <= bits < 64 -> in_signed 64 value -> value <= 2 ^ (bits - 1) - 1 - 2 ^ 63 ->
  value < - 2 ^ (bits - 1) /\ checkSignedBitfieldOverflow value 0 bits BFOVERFLOW_SAT = (1, Some (2 ^ (bits - 1) - 1)).
Proof.
  intros Hb Hv Hl. split; [|by rewrite check_signed_low].
  pose proof (Z.pow_pos_nonneg 2 (bits - 1) ltac:(lia) ltac:(lia)). assert (2 ^ (bits - 1) <= 2 ^ 62) by (apply Z.pow_le_mono_r; lia). lia.
Qed.

Lemma bitfield_saturates_up_witness :
  - 2 ^ 63 < - 2 ^ (8 - 1) /\ checkSignedBitfieldOverflow (- 2 ^ 63) 0 8 BFOVERFLOW_SAT = (1, Some 127).
Proof. apply (bitfield_saturates_up (- 2 ^ 63) 8); [lia|done|done]. Defined.



