(* ===== verification/Crc.v ===== *)
(** * Checksums: crc64.c, crcspeed.c, crccombine.c, endianconv.c

    The CRC-64 that closes a dump of a key: the definition bit by bit from which
    the tables are filled, the loops that take eight bytes at a time on a little-
    and on a big-endian machine, two or three parts of a long string at a time,
    and the products of matrices over the field of two elements that put the parts
    together.

    [base] is the address of the buffer, whose bytes are a list; [big] says
    that the machine is big-endian; [vec] that the product of a matrix and a
    vector is the one with vector registers.  The cutoffs and the cache of
    matrices, which are globals of the code, are passed. *)
From S2P Require Import Prelude.

(** ** Endianness *)

(** A word of the machine in memory. *)
Definition word_bytes (big : bool) (v : Z) : list Z := if big then reverse (le_enc 8 v) else le_enc 8 v.
Definition word_of (big : bool) (bs : list Z) : Z := if big then le_dec (reverse bs) else le_dec bs.

(** [t = x[i]; x[i] = x[j]; x[j] = t;] *)
Definition swap_bytes (x : list Z) (i j : Z) : option (list Z) :=
  t ← mget x i; b ← mget x j; x ← mwrite x i [b]; mwrite x j [t].
Definition memrev16 (x : list Z) : option (list Z) := swap_bytes x 0 1.
Definition memrev32 (x : list Z) : option (list Z) := x ← swap_bytes x 0 3; swap_bytes x 1 2.
Definition memrev64 (x : list Z) : option (list Z) :=
  x ← swap_bytes x 0 7; x ← swap_bytes x 1 6; x ← swap_bytes x 2 5; swap_bytes x 3 4.
Definition memrev64ifbe (big : bool) (x : list Z) : option (list Z) := if big then memrev64 x else Some x.

(** The builtin [__builtin_bswap64]. *)
Definition bswap64 (a : Z) : Z := le_dec (reverse (le_enc 8 a)).
Definition rev8 (a : Z) : Z := bswap64 a.

(** ** Bit by bit: crc64.c *)

Definition POLY : Z := 0xad93d23594c935a9.

Definition crc_reflect (data data_len : Z) : option Z :=
  if negb (data_len <=? 64) then None
  else
    let data := ((data >>> 1) &&& 0x5555555555555555) ||| u64 ((data &&& 0x5555555555555555) <<< 1) in
    let data := ((data >>> 2) &&& 0x3333333333333333) ||| u64 ((data &&& 0x3333333333333333) <<< 2) in
    let data := ((data >>> 4) &&& 0x0F0F0F0F0F0F0F0F) ||| u64 ((data &&& 0x0F0F0F0F0F0F0F0F) <<< 4) in
    let data := bswap64 data in
    Some (data >>> (64 - data_len)).

(** One bit of the byte [c], the one of the mask [i]. *)
Definition crc_bit (c i crc : Z) : Z :=
  let bit := crc &&& 0x8000000000000000 in
  let bit := if negb ((c &&& i) =? 0) then (if bit =? 0 then 1 else 0) else bit in
  let crc := u64 (crc <<< 1) in
  if negb (bit =? 0) then Z.lxor crc POLY else crc.
(** [for (i = 0x01; i & 0xff; i <<= 1)] *)
Fixpoint crc_byte (fuel : nat) (c i crc : Z) : option Z :=
  if (i &&& 0xff) =? 0 then Some crc
  else
    match fuel with
    | O => None
    | S fuel => crc_byte fuel c (u8 (i <<< 1)) (crc_bit c i crc)
    end.
(** [for (offset = 0; offset < len; offset++)] *)
Fixpoint crc_data (data : list Z) (crc : Z) : option Z :=
  match data with
  | [] => Some crc
  | c :: data => crc ← crc_byte 8 c 1 crc; crc_data data (crc &&& 0xffffffffffffffff)
  end.
Definition _crc64 (crc : Z) (data : list Z) : option Z :=
  crc ← crc_data data crc;
  r ← crc_reflect (crc &&& 0xffffffffffffffff) 64;
  Some (Z.lxor r 0).

(** ** Tables: crcspeed.c *)

Abbreviation table := (list (list Z)).
Definition tget (t : table) (k : nat) (n : Z) : option Z := row ← t !! k; mget row n.
Definition tset (t : table) (k n : nat) (v : Z) : option table :=
  row ← t !! k; _ ← row !! n; Some (<[k := <[n := v]> row]> t).
(** [static uint64_t crc64_table[8][256] = {{0}};] *)
Definition crc64_table : table := replicate 8 (replicate 256 0).

Section init.
Context (crcfn : Z -> list Z -> option Z).
Definition first_entry (n : nat) (t : table) : option table := v ← crcfn 0 [Z.of_nat n]; tset t 0 n v.
(** [for (int k = 1; k < 8; k++)] *)
Definition nested_entry (n k : nat) (st : table * Z) : option (table * Z) :=
  let '(t, crc) := st in
  x ← tget t 0 (crc &&& 0xff);
  let crc := Z.lxor x (crc >>> 8) in
  t ← tset t k n crc;
  Some (t, crc).
Definition nested_entries (n : nat) (t : table) : option table :=
  crc ← tget t 0 (Z.of_nat n);
  '(t, _) ← for_loop (nested_entry n) 1 7 (t, crc);
  Some t.
Definition crcspeed64little_init (t : table) : option table :=
  t ← for_loop first_entry 0 256 t;
  for_loop nested_entries 0 256 t.

(** [big_table[k][n] = rev8(big_table[k][n]);] *)
Definition reverse_entry (k n : nat) (t : table) : option table := v ← tget t k (Z.of_nat n); tset t k n (rev8 v).
Definition crcspeed64big_init (t : table) : option table :=
  t ← crcspeed64little_init t;
  for_loop (fun k t => for_loop (reverse_entry k) 0 256 t) 0 8 t.
Definition crcspeed64native_init (big : bool) (t : table) : option table :=
  if big then crcspeed64big_init t else crcspeed64little_init t.
End init.

Definition crc64_init (big : bool) (t : table) : option table := crcspeed64native_init _crc64 big t.

(** ** Putting checksums together: crccombine.c *)

Section multiply.
Context (mat : list Z).
(** The sum of the words at the offsets [js] from [mat + o]. *)
Fixpoint xor_at (o : Z) (js : list Z) : option Z :=
  match js with
  | [] => Some 0
  | j :: js => x ← mget mat (o + j); s ← xor_at o js; Some (Z.lxor x s)
  end.
Definition switch_case (v : Z) : list Z :=
  match v with
  | 15 => [0; 1; 2; 3]
  | 14 => [1; 2; 3]
  | 13 => [0; 2; 3]
  | 12 => [2; 3]
  | 11 => [0; 1; 3]
  | 10 => [1; 3]
  | 9 => [0; 3]
  | 8 => [3]
  | 7 => [0; 1; 2]
  | 6 => [1; 2]
  | 5 => [0; 2]
  | 4 => [2]
  | 3 => [0; 1]
  | 2 => [1]
  | 1 => [0]
  | _ => []
  end.
(** [while (vec)] *)
Fixpoint times_switch (fuel : nat) (o vec sum : Z) : option Z :=
  if vec =? 0 then Some sum
  else
    match fuel with
    | O => None
    | S fuel => x ← xor_at o (switch_case (vec &&& 15)); times_switch fuel (o + 4) (vec >>> 4) (Z.lxor sum x)
    end.
Definition gf2_matrix_times_switch (vec : Z) : option Z := times_switch 16 0 vec 0.

(** [masks2[v]] and one of the 32 steps of the macros, on the two halves of the
    register. *)
Definition mask (b : bool) : Z := if b then 2 ^ 64 - 1 else 0.
Definition masks2 (v : Z) : Z * Z := (mask (Z.testbit v 0), mask (Z.testbit v 1)).
Definition do_chunk2 (k : nat) (st : Z * Z * Z) : option (Z * Z * Z) :=
  let '(s0, s1, vec) := st in
  a ← mget mat (2 * Z.of_nat k); b ← mget mat (2 * Z.of_nat k + 1);
  let '(m0, m1) := masks2 (vec &&& 3) in
  Some (Z.lxor s0 (a &&& m0), Z.lxor s1 (b &&& m1), vec >>> 2).
Definition gf2_matrix_times_vec2 (vec : Z) : option Z :=
  '(s0, s1, _) ← for_loop do_chunk2 0 32 (0, 0, vec);
  Some (Z.lxor s0 s1).
End multiply.

Section combine.
Context (vec : bool).
Definition CRC_MULTIPLY (mat : list Z) (v : Z) : option Z :=
  if vec then gf2_matrix_times_vec2 mat v else gf2_matrix_times_switch mat v.

(** The cache has 64 matrices of 64 columns. *)
Definition square_column (sq mt n : nat) (cache : table) : option table :=
  mat ← cache !! mt; v ← mat !! n; x ← CRC_MULTIPLY mat v; tset cache sq n x.
Definition gf2_matrix_square (sq mt : nat) (dim : nat) (cache : table) : option table :=
  for_loop (square_column sq mt) 0 dim cache.

Definition shift_column (n : nat) (st : table * Z) : option (table * Z) :=
  let '(cache, row) := st in cache ← tset cache 1 n row; Some (cache, u64 (row <<< 1)).
(** The [do] loop: [cache_num + prev] is 1 in the first round and the previous
    matrix in the others. *)
Definition square_next (dim : nat) (cache_num : nat) (cache : table) : option table :=
  gf2_matrix_square cache_num (match cache_num with O => 1 | S c => c end) dim cache.
Definition init_combine_cache (poly : Z) (dim : nat) (cache : table) : option table :=
  cache ← tset cache 1 0 poly;
  '(cache, _) ← for_loop shift_column 1 (dim - 1) (cache, 1);
  cache ← gf2_matrix_square 0 1 dim cache;
  cache ← gf2_matrix_square 1 0 dim cache;
  for_loop (square_next dim) 0 64 cache.

(** [do ... while (len2 != 0)] *)
Fixpoint combine_loop (fuel : nat) (cache : table) (cache_num : nat) (crc1 len2 : Z) : option Z :=
  match fuel with
  | O => None
  | S fuel =>
      crc1 ← (if negb ((len2 &&& 1) =? 0) then mat ← cache !! cache_num; CRC_MULTIPLY mat crc1 else Some crc1);
      let len2 := len2 >>> 1 in
      let cache_num := Z.to_nat ((Z.of_nat cache_num + 1) &&& 63) in
      if negb (len2 =? 0) then combine_loop fuel cache cache_num crc1 len2 else Some crc1
  end.
Definition crc64_combine (cache : table) (crc1 crc2 len2 poly : Z) (dim : nat) : option (table * Z) :=
  if len2 =? 0 then Some (cache, crc1)
  else
    c ← tget cache 0 0;
    cache ← (if c =? 0 then init_combine_cache poly dim cache else Some cache);
    crc1 ← combine_loop 64 cache 0 crc1 len2;
    Some (cache, Z.lxor crc1 crc2).
End combine.

(** ** Eight bytes at a time: crcspeed.c *)

Definition CRC64_LEN_MASK : Z := 0x7ffffffffffffff8.
Definition CRC64_REVERSED_POLY : Z := 0x95ac9329ac4bc9b5.

Section speed.
Context (big vec : bool) (base : Z) (t : table) (buf : list Z) (CRC64_DUAL_CUTOFF CRC64_TRI_CUTOFF : Z).

Definition load_word64 (next : Z) : option Z := word_of big <$> mread buf next 8.
(** [crc = little_table[0][(crc ^ *next++) & 0xff] ^ (crc >> 8)] *)
Definition little_byte (crc next : Z) : option Z :=
  b ← mget buf next; x ← tget t 0 (Z.lxor crc b &&& 0xff); Some (Z.lxor x (crc >>> 8)).
Definition DO_8_1 (crc next : Z) : option Z := w ← load_word64 next; Some (Z.lxor crc w).
Definition DO_8_2 (crc : Z) : option Z :=
  a ← tget t 7 (u8 crc);
  b ← tget t 6 (u8 (crc >>> 8));
  c ← tget t 5 (u8 (crc >>> 16));
  d ← tget t 4 (u8 (crc >>> 24));
  e ← tget t 3 (u8 (crc >>> 32));
  f ← tget t 2 (u8 (crc >>> 40));
  g ← tget t 1 (u8 (crc >>> 48));
  h ← tget t 0 (crc >>> 56);
  Some (Z.lxor (Z.lxor (Z.lxor (Z.lxor (Z.lxor (Z.lxor (Z.lxor a b) c) d) e) f) g) h).

(** [while (len && ((uintptr_t)next1 & 7) != 0)] *)
Fixpoint align_loop (fuel : nat) (step : Z -> Z -> option Z) (crc next len : Z) : option (Z * Z * Z) :=
  if negb (len =? 0) && negb (((base + next) &&& 7) =? 0) then
    match fuel with
    | O => None
    | S fuel => crc ← step crc next; align_loop fuel step crc (next + 1) (len - 1)
    end
  else Some (crc, next, len).
(** [while (len)] *)
Fixpoint tail_loop (fuel : nat) (step : Z -> Z -> option Z) (crc next len : Z) : option Z :=
  if negb (len =? 0) then
    match fuel with
    | O => None
    | S fuel => crc ← step crc next; tail_loop fuel step crc (next + 1) (len - 1)
    end
  else Some crc.

(** [while (len >= 8)] with one, two and three parts. *)
Fixpoint single_loop (fuel : nat) (step : Z -> Z -> option Z) (crc1 next1 len : Z) : option (Z * Z * Z) :=
  if len >=? 8 then
    match fuel with
    | O => None
    | S fuel => crc1 ← step crc1 next1; single_loop fuel step crc1 (next1 + 8) (len - 8)
    end
  else Some (crc1, next1, len).
Fixpoint dual_loop (fuel : nat) (crc1 crc2 next1 next2 len : Z) : option (Z * Z * Z * Z) :=
  if len >=? 8 then
    match fuel with
    | O => None
    | S fuel =>
        crc1 ← DO_8_1 crc1 next1; crc2 ← DO_8_1 crc2 next2;
        crc1 ← DO_8_2 crc1; crc2 ← DO_8_2 crc2;
        dual_loop fuel crc1 crc2 (next1 + 8) (next2 + 8) (len - 8)
    end
  else Some (crc1, crc2, next1, next2).
Fixpoint tri_loop (fuel : nat) (crc1 crc2 crc3 next1 next2 next3 len : Z) : option (Z * Z * Z * (Z * Z * Z)) :=
  if len >=? 8 then
    match fuel with
    | O => None
    | S fuel =>
        crc1 ← DO_8_1 crc1 next1; crc2 ← DO_8_1 crc2 next2; crc3 ← DO_8_1 crc3 next3;
        crc1 ← DO_8_2 crc1; crc2 ← DO_8_2 crc2; crc3 ← DO_8_2 crc3;
        tri_loop fuel crc1 crc2 crc3 (next1 + 8) (next2 + 8) (next3 + 8) (len - 8)
    end
  else Some (crc1, crc2, crc3, (next1, next2, next3)).
(** The second part from [CRC64_SPLIT]. *)
Definition CRC64_SPLIT (next1 len div : Z) : Z := next1 + ((len / div) &&& CRC64_LEN_MASK).
Definition MERGE_CRC (cache : table) (crc1 crcn next1 next2 : Z) : option (table * Z) :=
  crc64_combine vec cache crc1 crcn (next2 - next1) CRC64_REVERSED_POLY 64.

(** Two or three parts in parallel. *)
Definition parallel (cache : table) (crc1 next1 len : Z) : option (table * Z * Z * Z) :=
  let fuel := Z.to_nat len in
  if len >? CRC64_TRI_CUTOFF then
    let olen := len in
    let next2 := CRC64_SPLIT next1 len 3 in
    let len := next2 - next1 in
    let next3 := next2 + len in
    '(crc1, crc2, crc3, (next1, next2, next3)) ← tri_loop fuel crc1 0 0 next1 next2 next3 len;
    '(cache, crc1) ← MERGE_CRC cache crc1 crc2 next1 next2;
    '(cache, crc1) ← MERGE_CRC cache crc1 crc3 next1 next2;
    Some (cache, crc1, next3, olen - (next2 - next1) * 3)
  else if len >? CRC64_DUAL_CUTOFF then
    let olen := len in
    let next2 := CRC64_SPLIT next1 len 2 in
    let len := next2 - next1 in
    '(crc1, crc2, next1, next2) ← dual_loop fuel crc1 0 next1 next2 len;
    '(cache, crc1) ← MERGE_CRC cache crc1 crc2 next1 next2;
    Some (cache, crc1, next2, olen - (next2 - next1) * 2)
  else Some (cache, crc1, next1, len).

Definition crcspeed64little (cache : table) (crc1 len : Z) : option (table * Z) :=
  let fuel := Z.to_nat len in
  if CRC64_DUAL_CUTOFF <? 1 then
    crc1 ← tail_loop fuel little_byte crc1 0 len; Some (cache, crc1)
  else
    '(crc1, next1, len) ← align_loop fuel little_byte crc1 0 len;
    '(cache, crc1, next1, len) ← parallel cache crc1 next1 len;
    '(crc1, next1, len) ← single_loop fuel (fun crc1 next1 => crc1 ← DO_8_1 crc1 next1; DO_8_2 crc1) crc1 next1 len;
    crc1 ← tail_loop fuel little_byte crc1 next1 len;
    Some (cache, crc1).

(** [crc = big_table[0][(crc >> 56) ^ *next++] ^ (crc << 8)] *)
Definition big_byte (crc next : Z) : option Z :=
  b ← mget buf next; x ← tget t 0 (Z.lxor (crc >>> 56) b); Some (Z.lxor x (u64 (crc <<< 8))).
Definition big_word (crc next : Z) : option Z :=
  w ← load_word64 next;
  let crc := Z.lxor crc w in
  a ← tget t 0 (crc &&& 0xff);
  b ← tget t 1 ((crc >>> 8) &&& 0xff);
  c ← tget t 2 ((crc >>> 16) &&& 0xff);
  d ← tget t 3 ((crc >>> 24) &&& 0xff);
  e ← tget t 4 ((crc >>> 32) &&& 0xff);
  f ← tget t 5 ((crc >>> 40) &&& 0xff);
  g ← tget t 6 ((crc >>> 48) &&& 0xff);
  h ← tget t 7 (crc >>> 56);
  Some (Z.lxor (Z.lxor (Z.lxor (Z.lxor (Z.lxor (Z.lxor (Z.lxor a b) c) d) e) f) g) h).
Definition crcspeed64big (crc len : Z) : option Z :=
  let fuel := Z.to_nat len in
  '(crc, next, len) ← align_loop fuel big_byte (rev8 crc) 0 len;
  '(crc, next, len) ← single_loop fuel big_word crc next len;
  crc ← tail_loop fuel big_byte crc next len;
  Some (rev8 crc).

Definition crcspeed64native (cache : table) (crc len : Z) : option (table * Z) :=
  if big then crc ← crcspeed64big crc len; Some (cache, crc) else crcspeed64little cache crc len.
End speed.

(** The globals of the two files: the table, the cache and the cutoffs. *)
Record crc_state := CrcState { cs_table : table; cs_cache : table; cs_dual : Z; cs_tri : Z }.
Definition combine_cache0 : table := replicate 64 (replicate 64 0).
Definition set_crc64_cutoffs (s : crc_state) (dual_cutoff tri_cutoff : Z) : crc_state :=
  CrcState (cs_table s) (cs_cache s) dual_cutoff tri_cutoff.
Definition crc64 (big vec : bool) (base : Z) (s : crc_state) (crc : Z) (buf : list Z) : option (crc_state * Z) :=
  '(cache, crc) ← crcspeed64native big vec base (cs_table s) buf (cs_dual s) (cs_tri s) (cs_cache s) crc (zlen buf);
  Some (CrcState (cs_table s) cache (cs_dual s) (cs_tri s), crc).
