(* ===== verification/CrcSpec.v ===== *)
(** * Checksums: the algebra of the CRC

    A step of the register is linear over the exclusive or, and the register
    after a string is a number of steps on the initial value combined with the
    whole string read as one little-endian number ([crc_run_dec]).  The tables,
    the products of matrices and the functions that reverse bits are linear too,
    so that each is given by what it does to single bits. *)
From S2P Require Import Prelude Crc.

(** ** The reference *)

(** One bit of input 0 with the reversed polynomial. *)
Definition rstep (c : Z) : Z := Z.lxor (c >>> 1) (if Z.odd c then CRC64_REVERSED_POLY else 0).
Definition steps (n : nat) (c : Z) : Z := Nat.iter n rstep c.
Definition crc_step (c b : Z) : Z := steps 8 (Z.lxor c b).
(** The CRC of a string from a given register. *)
Definition crc_run (c : Z) (bs : list Z) : Z := foldl crc_step c bs.

Definition linear (f : Z -> Z) : Prop := forall a b, f (Z.lxor a b) = Z.lxor (f a) (f b).
Abbreviation word64 := (in_unsigned 64).

Lemma linear_0 f : linear f -> f 0 = 0.
Proof. intros H. pose proof (H 0 0) as E. rewrite Z.lxor_nilpotent in E. rewrite E. apply Z.lxor_nilpotent. Qed.

Lemma odd_lxor a b : Z.odd (Z.lxor a b) = xorb (Z.odd a) (Z.odd b).
Proof. by rewrite <- !Z.bit0_odd, Z.lxor_spec. Qed.

Lemma lxor_swap a b c d : Z.lxor (Z.lxor a b) (Z.lxor c d) = Z.lxor (Z.lxor a c) (Z.lxor b d).
Proof. rewrite !Z.lxor_assoc. f_equal. rewrite <- !Z.lxor_assoc. f_equal. apply Z.lxor_comm. Qed.

Lemma rstep_linear : linear rstep.
Proof.
  intros a b. unfold rstep. rewrite Z.shiftr_lxor, odd_lxor, lxor_swap. f_equal.
  destruct (Z.odd a), (Z.odd b); cbn [xorb]; by rewrite ?Z.lxor_0_r, ?Z.lxor_0_l, ?Z.lxor_nilpotent.
Qed.

Lemma steps_S n c : steps (S n) c = rstep (steps n c).
Proof. done. Qed.

Lemma steps_linear n : linear (steps n).
Proof. induction n as [|n IH]; intros a b; [done|]. rewrite !steps_S, IH. apply rstep_linear. Qed.

Lemma steps_add n k c : steps (n + k) c = steps n (steps k c).
Proof. unfold steps. apply Nat.iter_add. Qed.

(** ** Ranges *)

Lemma wrap_bits n x i : 0 <= n -> 0 <= i -> Z.testbit (wrap n x) i = (i <? n) && Z.testbit x i.
Proof.
  intros Hn Hi. unfold wrap. destruct (Z.ltb_spec i n); [by rewrite Z.mod_pow2_bits_low|by rewrite Z.mod_pow2_bits_high by lia].
Qed.

Lemma wrap_lxor n a b : 0 <= n -> wrap n (Z.lxor a b) = Z.lxor (wrap n a) (wrap n b).
Proof.
  intros Hn. apply Z.bits_inj'. intros i Hi. rewrite Z.lxor_spec, !wrap_bits, Z.lxor_spec by lia.
  by destruct (i <? n).
Qed.

Lemma lxor_range n a b : 0 <= n -> in_unsigned n a -> in_unsigned n b -> in_unsigned n (Z.lxor a b).
Proof.
  intros Hn Ha Hb. rewrite <- (wrap_small n a), <- (wrap_small n b) by done. rewrite <- wrap_lxor by done. by apply wrap_range.
Qed.

Lemma rstep_range c : word64 c -> word64 (rstep c).
Proof.
  intros H. apply lxor_range; [lia| |].
  - unfold in_unsigned in *. rewrite (shiftr_div c 1) by lia. div_lia.
  - destruct (Z.odd c); by vm_compute.
Qed.

Lemma steps_range n c : word64 c -> word64 (steps n c).
Proof. intros H. induction n as [|n IH]; [done|]. by apply rstep_range. Qed.

Lemma byte_word b : is_byte b -> word64 b.
Proof. unfold is_byte, in_unsigned. lia. Qed.

Lemma crc_step_range c b : word64 c -> is_byte b -> word64 (crc_step c b).
Proof. intros Hc Hb. apply steps_range, lxor_range; [lia|done|by apply byte_word]. Qed.

Lemma crc_run_range bs c : word64 c -> bytes_ok bs -> word64 (crc_run c bs).
Proof.
  intros Hc Hb. revert c Hc. induction Hb as [|b bs Hb _ IH]; intros c Hc; [done|].
  apply IH. by apply crc_step_range.
Qed.

(** ** Whole strings *)

(** Zeros in the low bits are shifted out. *)
Lemma steps_shiftl n x : steps n (x <<< Z.of_nat n) = x.
Proof.
  induction n as [|n IH]; [apply Z.shiftl_0_r|].
  replace (S n) with (n + 1)%nat at 1 by lia. rewrite steps_add.
  replace (steps 1 _) with (x <<< Z.of_nat n); [done|]. cbn. unfold rstep.
  replace (x <<< Z.of_nat (S n)) with (2 * (x <<< Z.of_nat n)).
  - rewrite Z.odd_mul, Z.lxor_0_r, (shiftr_div _ 1), Z.mul_comm, Z.div_mul by lia. done.
  - rewrite !Z.shiftl_mul_pow2, Nat2Z.inj_succ, Z.pow_succ_r by lia. lia.
Qed.

(** A number is its low bits and the rest. *)
Lemma lxor_shiftl a b n : 0 <= n -> 0 <= a < 2 ^ n -> Z.lxor a (b <<< n) = a + b * 2 ^ n.
Proof.
  intros Hn Ha. rewrite <- lor_shiftl by lia. apply Z.bits_inj'. intros i Hi.
  rewrite Z.lxor_spec, Z.lor_spec, Z.shiftl_spec by lia.
  destruct (Z.ltb_spec i n).
  - rewrite (Z.testbit_neg_r b) by lia. by destruct (Z.testbit a i).
  - rewrite <- (Z.mod_small a (2 ^ n)) by lia. rewrite Z.mod_pow2_bits_high by lia. by destruct (Z.testbit b _).
Qed.

Lemma low_high n c : 0 <= n -> 0 <= c -> c = Z.lxor (c &&& (2 ^ n - 1)) ((c >>> n) <<< n).
Proof.
  intros Hn Hc. rewrite (land_mod c n) by lia. rewrite lxor_shiftl by (try apply Z.mod_pos_bound; lia).
  rewrite shiftr_div by lia. pose proof (Z.div_mod c (2 ^ n)). lia.
Qed.

(** Eight steps are a lookup of the low byte. *)
Lemma steps_8 c : 0 <= c -> steps 8 c = Z.lxor (steps 8 (c &&& 255)) (c >>> 8).
Proof.
  intros Hc. rewrite (low_high 8 c) at 1 by lia. rewrite (steps_linear 8). f_equal. apply (steps_shiftl 8).
Qed.

Lemma le_dec_nonneg bs : bytes_ok bs -> 0 <= le_dec bs.
Proof. intros H. pose proof (le_dec_range bs H). lia. Qed.

Lemma crc_run_dec bs c : bytes_ok bs -> crc_run c bs = steps (8 * length bs) (Z.lxor c (le_dec bs)).
Proof.
  intros Hb. revert c. induction Hb as [|b bs Hb _ IH]; intros c.
  - cbn. by rewrite Z.lxor_0_r.
  - change (crc_run c (b :: bs)) with (crc_run (crc_step c b) bs). rewrite IH.
    replace (8 * length (b :: bs))%nat with (8 * length bs + 8)%nat by (cbn [length]; lia).
    rewrite steps_add. f_equal. unfold crc_step. cbn [le_dec].
    replace (b + 256 * le_dec bs) with (Z.lxor b (le_dec bs <<< 8)).
    + rewrite <- Z.lxor_assoc, (steps_linear 8 (Z.lxor c b)). f_equal. symmetry. apply (steps_shiftl 8).
    + unfold is_byte in Hb. rewrite lxor_shiftl by lia. lia.
Qed.

Lemma crc_run_app c a b : crc_run c (a ++ b) = crc_run (crc_run c a) b.
Proof. apply foldl_app. Qed.

(** The checksum of two strings from those of the parts. *)
Lemma crc_run_combine c a b : bytes_ok b ->
  crc_run c (a ++ b) = Z.lxor (steps (8 * length b) (crc_run c a)) (crc_run 0 b).
Proof.
  intros Hb. rewrite crc_run_app, (crc_run_dec b) by done. rewrite (crc_run_dec b 0) by done.
  by rewrite Z.lxor_0_l, <- steps_linear.
Qed.

(** ** Errors *)

(** A step loses nothing: the highest bit of the polynomial is set. *)
Lemma rstep_inj c : word64 c -> rstep c = 0 -> c = 0.
Proof.
  intros Hc H. unfold rstep in H. apply Z.lxor_eq in H. destruct (Z.odd c) eqn:E.
  - exfalso. unfold in_unsigned in Hc. rewrite (shiftr_div c 1) in H by lia.
    assert (c / 2 ^ 1 < 2 ^ 63) by div_lia. rewrite H in *. by vm_compute in H0.
  - rewrite (shiftr_div c 1) in H by lia.
    rewrite <- Z.negb_even in E. apply negb_false_iff, Z.even_spec in E as [k ->]. div_lia.
Qed.

Lemma steps_inj n a b : word64 a -> word64 b -> steps n a = steps n b -> a = b.
Proof.
  intros Ha Hb H. apply Z.lxor_eq. assert (H0 : steps n (Z.lxor a b) = 0) by (by rewrite steps_linear, H, Z.lxor_nilpotent).
  assert (Hw : word64 (Z.lxor a b)) by (by apply lxor_range). clear H. induction n as [|n IH]; [done|].
  apply IH, rstep_inj; [by apply steps_range|done].
Qed.

(** Two strings that differ in at most eight consecutive bytes have different
    checksums. *)
Lemma crc_run_burst c a x y b : word64 c -> bytes_ok (a ++ x ++ b) -> bytes_ok y -> length x = length y -> (length x <= 8)%nat ->
  crc_run c (a ++ x ++ b) = crc_run c (a ++ y ++ b) -> x = y.
Proof.
  intros Hc Hok Hy Hl H8 H. apply Forall_app in Hok as [Ha Hok]. apply Forall_app in Hok as [Hx Hb].
  assert (Hr : forall z, bytes_ok z -> (length z <= 8)%nat -> word64 (le_dec z)).
  { intros z Hz Hlz. pose proof (le_dec_range z Hz). unfold in_unsigned.
    assert (2 ^ (8 * zlen z) <= 2 ^ 64); [|lia]. apply Z.pow_le_mono_r; unfold zlen; lia. }
  rewrite !crc_run_app, (crc_run_dec b), (crc_run_dec b) in H by done.
  pose proof (crc_run_range a c Hc Ha) as Hca.
  assert (Hb' : forall z, bytes_ok z -> word64 (crc_run (crc_run c a) z)) by (intros; by apply crc_run_range).
  rewrite !steps_linear in H. apply (f_equal (fun v => Z.lxor v (steps (8 * length b) (le_dec b)))) in H.
  rewrite !Z.lxor_assoc, !Z.lxor_nilpotent, !Z.lxor_0_r in H. apply steps_inj in H; [|by apply Hb'..].
  rewrite (crc_run_dec x), (crc_run_dec y), <- Hl in H by done. apply steps_inj in H; [|apply lxor_range; [lia|done|apply Hr; [done|lia]]..].
  apply (f_equal (Z.lxor (crc_run c a))) in H. rewrite <- !Z.lxor_assoc, !Z.lxor_nilpotent, !Z.lxor_0_l in H.
  rewrite <- (le_enc_dec x), <- (le_enc_dec y), H, Hl by done. done.
Qed.
