(* ===== verification/CrcTables.v ===== *)
(** * Checksums: reversals and tables

    The functions that reverse bits and bytes, the reference of crc64.c bit by
    bit, and the tables that crc64_init fills. *)
From S2P Require Import Prelude BitsSpec Crc CrcSpec.

(** ** Bytes of a word *)

Lemma le_enc_lookup (n j : nat) v : (j < n)%nat -> le_enc n v !! j = Some ((v >>> (8 * Z.of_nat j)) &&& 255).
Proof.
  revert j v. induction n as [|n IH]; intros j v Hj; [lia|]. destruct j as [|j]; [by cbn; rewrite Z.shiftr_0_r|].
  cbn [le_enc lookup list_lookup]. change (le_enc n (v >>> 8) !! j = Some ((v >>> (8 * Z.of_nat (S j))) &&& 255)).
  rewrite IH, Z.shiftr_shiftr by lia. do 3 f_equal. lia.
Qed.

Lemma le_dec_bits bs i : bytes_ok bs -> 0 <= i ->
  Z.testbit (le_dec bs) i = match bs !! Z.to_nat (i / 8) with Some b => Z.testbit b (i mod 8) | None => false end.
Proof.
  intros Hb. revert i. induction Hb as [|b bs Hb _ IH]; intros i Hi; [by rewrite Z.testbit_0_l|].
  cbn [le_dec]. rewrite testbit_byte by done. destruct (Z.ltb_spec i 8).
  - rewrite Z.div_small, Z.mod_small by lia. done.
  - rewrite IH by lia. replace (Z.to_nat (i / 8)) with (S (Z.to_nat ((i - 8) / 8))) by div_lia. cbn [lookup list_lookup].
    replace (i mod 8) with ((i - 8) mod 8) by div_lia. done.
Qed.

(** The position in the argument of a bit of the result. *)
Definition bpos (i : Z) : Z := 8 * (7 - i / 8) + i mod 8.

Lemma bswap64_bits d i : 0 <= i -> Z.testbit (bswap64 d) i = (i <? 64) && Z.testbit d (bpos i).
Proof.
  intros Hi. unfold bswap64. rewrite le_dec_bits by (try apply Forall_reverse, le_enc_bytes; lia).
  destruct (Z.ltb_spec i 64) as [H|H].
  - rewrite reverse_lookup, length_le_enc by (rewrite length_le_enc; div_lia).
    rewrite le_enc_lookup by div_lia. rewrite (land_mod _ 8) by lia.
    rewrite Z.mod_pow2_bits_low, Z.shiftr_spec by div_lia. cbn [andb]. f_equal. unfold bpos. div_lia.
  - rewrite lookup_ge_None_2; [done|]. rewrite length_reverse, length_le_enc. div_lia.
Qed.

(** ** Reversal of the bits *)

Lemma forall_64 (P : Z -> bool) (i : Z) : forallb P (seqZ 0 64) = true -> 0 <= i < 64 -> P i = true.
Proof. intros H Hi. apply (proj1 (forallb_forall _ _) H). apply list_elem_of_In, elem_of_seqZ. lia. Qed.

(** Exchange of neighbouring groups of [k] bits, the lower ones given by the mask. *)
Definition swap_groups (k m d : Z) : Z := ((d >>> k) &&& m) ||| u64 ((d &&& m) <<< k).
Definition swap_pos (k m i : Z) : Z := if Z.testbit m i then i + k else i - k.

Lemma swap_groups_bits k m d i :
  0 <= k -> forallb (fun i => xorb (Z.testbit m i) (Z.testbit m (i - k))) (seqZ 0 64) = true -> 0 <= i < 64 ->
  Z.testbit (swap_groups k m d) i = Z.testbit d (swap_pos k m i).
Proof.
  intros Hk Hm Hi. pose proof (forall_64 _ i Hm Hi) as E. cbv beta in E. unfold swap_groups, swap_pos.
  rewrite Z.lor_spec, Z.land_spec, Z.shiftr_spec, wrap_bits, Z.shiftl_spec, Z.land_spec by lia.
  rewrite (proj2 (Z.ltb_lt i 64)) by lia. destruct (Z.testbit m i), (Z.testbit m (i - k)); try discriminate E; cbn [andb].
  - by rewrite andb_false_r, orb_false_r, andb_true_r.
  - by rewrite andb_false_r, andb_true_r.
Qed.

Lemma swap_groups_range k m d : 0 <= k -> word64 m -> word64 (swap_groups k m d).
Proof.
  intros Hk Hm. assert (E : swap_groups k m d = u64 (swap_groups k m d)); [|rewrite E; by apply wrap_range].
  apply Z.bits_inj'. intros i Hi. rewrite wrap_bits by lia. destruct (Z.ltb_spec i 64) as [|H]; [done|].
  unfold swap_groups. rewrite Z.lor_spec, Z.land_spec, wrap_bits by lia.
  rewrite <- (wrap_small 64 m Hm), wrap_bits by lia. rewrite (proj2 (Z.ltb_ge i 64)) by lia. by rewrite andb_false_r.
Qed.

Lemma bswap64_range d : word64 (bswap64 d).
Proof.
  unfold bswap64. assert (Hb : bytes_ok (reverse (le_enc 8 d))) by apply Forall_reverse, le_enc_bytes.
  pose proof (le_dec_range _ Hb) as H. unfold zlen in H. by rewrite length_reverse, length_le_enc in H.
Qed.

Definition reflect (d : Z) : Z :=
  bswap64 (swap_groups 4 0x0F0F0F0F0F0F0F0F (swap_groups 2 0x3333333333333333 (swap_groups 1 0x5555555555555555 d))).

Lemma crc_reflect_eq d : crc_reflect d 64 = Some (reflect d).
Proof. unfold crc_reflect. cbn [Z.leb Z.compare negb Pos.compare Pos.compare_cont Z.sub]. by rewrite Z.shiftr_0_r. Qed.

Lemma reflect_bits d i : 0 <= i < 64 -> Z.testbit (reflect d) i = Z.testbit d (63 - i).
Proof.
  intros Hi. unfold reflect. rewrite bswap64_bits, (proj2 (Z.ltb_lt i 64)) by lia. cbn [andb].
  assert (H : forall j, 0 <= j < 64 -> 0 <= bpos j < 64 /\ 0 <= swap_pos 4 0x0F0F0F0F0F0F0F0F j < 64 /\ 0 <= swap_pos 2 0x3333333333333333 j < 64).
  { intros j Hj. pose proof (forall_64 (fun j => (0 <=? bpos j) && (bpos j <? 64)
      && ((0 <=? swap_pos 4 0x0F0F0F0F0F0F0F0F j) && (swap_pos 4 0x0F0F0F0F0F0F0F0F j <? 64))
      && ((0 <=? swap_pos 2 0x3333333333333333 j) && (swap_pos 2 0x3333333333333333 j <? 64))) j ltac:(by vm_compute) Hj) as E.
    cbv beta in E. rewrite !andb_true_iff, !Z.leb_le, !Z.ltb_lt in E. lia. }
  destruct (H i Hi) as (H1 & _). destruct (H (bpos i) H1) as (_ & H2 & _).
  destruct (H (swap_pos 4 0x0F0F0F0F0F0F0F0F (bpos i)) H2) as (_ & _ & H3).
  rewrite swap_groups_bits by (by try vm_compute). rewrite swap_groups_bits by (by try vm_compute).
  rewrite swap_groups_bits by (by try vm_compute). f_equal.
  pose proof (forall_64 (fun i => swap_pos 1 0x5555555555555555 (swap_pos 2 0x3333333333333333 (swap_pos 4 0x0F0F0F0F0F0F0F0F (bpos i))) =? 63 - i)
    i ltac:(by vm_compute) Hi) as E. by apply Z.eqb_eq in E.
Qed.

Lemma reflect_range d : word64 (reflect d).
Proof. apply bswap64_range. Qed.

(** ** Bit by bit *)

Lemma word64_ext a b : word64 a -> word64 b -> (forall i, 0 <= i < 64 -> Z.testbit a i = Z.testbit b i) -> a = b.
Proof.
  intros Ha Hb H. rewrite <- (wrap_small 64 a Ha), <- (wrap_small 64 b Hb). apply Z.bits_inj'. intros i Hi.
  rewrite !wrap_bits by lia. destruct (Z.ltb_spec i 64); [|done]. by rewrite H.
Qed.

Lemma reflect_lxor a b : reflect (Z.lxor a b) = Z.lxor (reflect a) (reflect b).
Proof.
  apply word64_ext; [apply reflect_range|apply lxor_range; [lia|apply reflect_range..]|].
  intros i Hi. by rewrite Z.lxor_spec, !reflect_bits, Z.lxor_spec.
Qed.

Lemma reflect_reflect d : word64 d -> reflect (reflect d) = d.
Proof.
  intros Hd. apply word64_ext; [apply reflect_range|done|]. intros i Hi. rewrite !reflect_bits by lia. f_equal. lia.
Qed.

(** The step of the register that is not reversed. *)
Definition lstep (x : Z) : Z := Z.lxor (u64 (x <<< 1)) (if Z.testbit x 63 then POLY else 0).

Lemma reflect_poly i : 0 <= i < 64 -> Z.testbit POLY (63 - i) = Z.testbit CRC64_REVERSED_POLY i.
Proof.
  intros Hi. apply eqb_prop. apply (forall_64 (fun i => eqb (Z.testbit POLY (63 - i)) (Z.testbit CRC64_REVERSED_POLY i)) i); [by vm_compute|done].
Qed.

Lemma reflect_lstep x : reflect (lstep x) = rstep (reflect x).
Proof.
  apply word64_ext; [apply reflect_range|apply rstep_range, reflect_range|]. intros i Hi.
  rewrite reflect_bits by done. unfold lstep, rstep. rewrite !Z.lxor_spec, wrap_bits, Z.shiftl_spec, Z.shiftr_spec by lia.
  rewrite <- Z.bit0_odd, (reflect_bits x 0) by lia. rewrite (proj2 (Z.ltb_lt (63 - i) 64)) by lia. cbn [andb]. f_equal.
  - destruct (decide (i = 63)) as [->|].
    + rewrite (Z.testbit_neg_r x) by lia. rewrite <- (wrap_small 64 (reflect x)) by apply reflect_range. by rewrite wrap_bits.
    + rewrite reflect_bits by lia. f_equal. lia.
  - rewrite Z.sub_0_r. destruct (Z.testbit x 63); [by rewrite reflect_poly|by rewrite !Z.testbit_0_l].
Qed.

Lemma land_high x : x &&& 0x8000000000000000 = if Z.testbit x 63 then 2 ^ 63 else 0.
Proof. rewrite Z.land_comm. by apply (land_pow2 63 x). Qed.

Lemma crc_bit_lstep c j crc : 0 <= j -> crc_bit c (2 ^ j) crc = lstep (Z.lxor crc (if Z.testbit c j then 2 ^ 63 else 0)).
Proof.
  intros Hj. unfold crc_bit, lstep. rewrite Z.land_comm, (land_pow2 j c Hj), land_high, Z.lxor_spec.
  rewrite Z.shiftl_lxor, wrap_lxor by lia.
  assert (H0 : u64 ((if Z.testbit c j then 2 ^ 63 else 0) <<< 1) = 0) by (by destruct (Z.testbit c j)). rewrite H0, Z.lxor_0_r.
  assert (2 ^ j =? 0 = false) as Ej by (apply Z.eqb_neq; pose proof (Z.pow_pos_nonneg 2 j); lia).
  destruct (Z.testbit c j); rewrite ?Ej; destruct (Z.testbit crc 63); cbn; by rewrite ?Z.lxor_0_r.
Qed.

Lemma reflect_bit c j crc : 0 <= j -> reflect (crc_bit c (2 ^ j) crc) = rstep (Z.lxor (reflect crc) (Z.b2z (Z.testbit c j))).
Proof.
  intros Hj. rewrite crc_bit_lstep, reflect_lstep, reflect_lxor by done. do 2 f_equal. by destruct (Z.testbit c j).
Qed.

Lemma crc_byte_eq c crc : crc_byte 8 c 1 crc = Some (crc_bit c (2 ^ 7) (crc_bit c (2 ^ 6) (crc_bit c (2 ^ 5) (crc_bit c (2 ^ 4)
  (crc_bit c (2 ^ 3) (crc_bit c (2 ^ 2) (crc_bit c (2 ^ 1) (crc_bit c (2 ^ 0) crc)))))))).
Proof. reflexivity. Qed.

(** Bits one by one are the byte at once. *)
Lemma steps_bit n r b x : steps n (Z.lxor (rstep (Z.lxor r (Z.b2z b))) x) = steps (S n) (Z.lxor r (Z.b2z b + 2 * x)).
Proof.
  replace (S n) with (n + 1)%nat by lia. rewrite steps_add. f_equal. rewrite steps_S. cbn [steps Nat.iter nat_rect].
  replace (Z.b2z b + 2 * x) with (Z.lxor (Z.b2z b) (x <<< 1)).
  - rewrite <- Z.lxor_assoc, (rstep_linear (Z.lxor r _)). f_equal. symmetry. apply (steps_shiftl 1).
  - rewrite lxor_shiftl by (destruct b; cbn; lia). lia.
Qed.

Lemma byte_as_bits c : is_byte c -> c = Z.b2z (Z.testbit c 0) + 2 * (Z.b2z (Z.testbit c 1) + 2 * (Z.b2z (Z.testbit c 2) + 2 * (Z.b2z (Z.testbit c 3)
  + 2 * (Z.b2z (Z.testbit c 4) + 2 * (Z.b2z (Z.testbit c 5) + 2 * (Z.b2z (Z.testbit c 6) + 2 * (Z.b2z (Z.testbit c 7) + 2 * 0))))))).
Proof. intros Hc. by_bytes c Hc. Qed.

Lemma reflect_byte c crc : is_byte c -> exists crc', crc_byte 8 c 1 crc = Some crc' /\ reflect crc' = crc_step (reflect crc) c.
Proof.
  intros Hc. rewrite crc_byte_eq. eexists. split; [done|]. rewrite !reflect_bit by lia. unfold crc_step.
  rewrite (byte_as_bits c Hc) at 9. rewrite <- !steps_bit. cbn [steps Nat.iter nat_rect]. by rewrite Z.lxor_0_r.
Qed.

Lemma reflect_mask x : reflect (x &&& 0xffffffffffffffff) = reflect x.
Proof.
  apply word64_ext; [apply reflect_range..|]. intros i Hi. rewrite !reflect_bits, Z.land_spec by done.
  change 0xffffffffffffffff with (Z.ones 64). by rewrite Z.ones_spec_low, andb_true_r by lia.
Qed.

Lemma crc_data_spec data crc : bytes_ok data -> exists crc', crc_data data crc = Some crc' /\ reflect crc' = crc_run (reflect crc) data.
Proof.
  intros Hd. revert crc. induction Hd as [|c data Hc _ IH]; intros crc; [by exists crc|].
  destruct (reflect_byte c crc Hc) as (c1 & E & H1). cbn [crc_data]. rewrite E. sbind.
  destruct (IH (c1 &&& 0xffffffffffffffff)) as (c2 & E2 & H2). exists c2. split; [done|].
  rewrite H2, reflect_mask, H1. done.
Qed.

(** The function of crc64.c is the reference, up to the reversal of the initial
    register. *)
Lemma _crc64_spec data crc : bytes_ok data -> _crc64 crc data = Some (crc_run (reflect crc) data).
Proof.
  intros Hd. unfold _crc64. destruct (crc_data_spec data crc Hd) as (c & -> & H). sbind.
  rewrite crc_reflect_eq. sbind. by rewrite Z.lxor_0_r, reflect_mask, H.
Qed.

(** ** Tables *)

Definition shape (K N : nat) (t : table) : Prop := length t = K /\ Forall (fun row => length row = N) t.

Lemma shape_row K N t k : shape K N t -> (k < K)%nat -> exists row, t !! k = Some row /\ length row = N.
Proof.
  intros [Hk HN] Hl. destruct (lookup_lt_is_Some_2 t k ltac:(lia)) as [row E]. exists row. split; [done|].
  by apply (Forall_lookup_1 _ _ _ _ HN E).
Qed.

Lemma tset_spec K N t k n v : shape K N t -> (k < K)%nat -> (n < N)%nat ->
  exists t', tset t k n v = Some t' /\ shape K N t' /\ (forall k', k' <> k -> t' !! k' = t !! k') /\
    (forall k' n', 0 <= n' -> tget t' k' n' = if decide (k' = k /\ n' = Z.of_nat n) then Some v else tget t k' n').
Proof.
  intros Hs Hk Hn. destruct (shape_row K N t k Hs Hk) as (row & E & Hr). destruct Hs as [H1 H2].
  destruct (lookup_lt_is_Some_2 row n ltac:(lia)) as [w Ew]. unfold tset. rewrite E. sbind. rewrite Ew. sbind.
  eexists. split; [done|]. split; [|split].
  - split; [by rewrite length_insert|]. apply Forall_insert; [done|]. by rewrite length_insert.
  - intros k' Hk'. by rewrite list_lookup_insert_ne.
  - intros k' n' Hn'. unfold tget. destruct (decide (k' = k)) as [->|Hne].
    + rewrite list_lookup_insert_eq, E by lia. sbind. rewrite !mget_lookup by done. destruct (decide _) as [[_ ->]|Hne].
      * rewrite Nat2Z.id. apply list_lookup_insert_eq. lia.
      * rewrite list_lookup_insert_ne; [done|]. intros ->. apply Hne. split; [done|lia].
    + rewrite list_lookup_insert_ne by done. destruct (decide _) as [[]|]; [done|done].
Qed.

(** The tables of eight columns of entries, up to a function on the entries. *)
Definition table_ok (g : Z -> Z) (t : table) : Prop :=
  shape 8 256 t /\ forall (k : nat) n, (k < 8)%nat -> is_byte n -> tget t k n = Some (g (steps (8 * S k) n)).

Lemma steps_next k c : 0 <= c -> Z.lxor (steps 8 (steps k c &&& 255)) (steps k c >>> 8) = steps (8 + k) c.
Proof.
  intros Hc. rewrite steps_add. symmetry. apply steps_8.
  induction k as [|k IH]; [done|]. rewrite steps_S. unfold rstep. apply Z.lxor_nonneg.
  split; intros _; [by destruct (Z.odd _)|by apply Z.shiftr_nonneg].
Qed.

Lemma first_entries t : shape 8 256 t -> exists t', for_loop (first_entry _crc64) 0 256 t = Some t' /\ shape 8 256 t' /\
  forall n, is_byte n -> tget t' 0 n = Some (steps 8 n).
Proof.
  intros Hs. destruct (for_loop_ind (first_entry _crc64) (fun j t' => shape 8 256 t' /\
    forall n, 0 <= n < Z.of_nat j -> tget t' 0 n = Some (steps 8 n)) 0 256 t) as (t' & E & H & H'); [split; [done|lia]| |exists t'; by split].
  intros j t1 Hj [H1 H2]. unfold first_entry. rewrite _crc64_spec by (constructor; [unfold is_byte; lia|done]). sbind.
  destruct (tset_spec 8 256 t1 0 j (crc_run (reflect 0) [Z.of_nat j]) H1) as (t2 & E & Hs2 & _ & Hg); [lia..|].
  exists t2. split; [done|]. split; [done|]. intros n Hn. rewrite Hg by lia. destruct (decide _) as [[_ ->]|Hne]; [done|].
  apply H2. assert (n <> Z.of_nat j); [|lia]. intros ->. by apply Hne.
Qed.

(** The entries of the columns before [n] are right. *)
Definition columns (n : nat) (t : table) : Prop :=
  shape 8 256 t /\ (forall i, is_byte i -> tget t 0 i = Some (steps 8 i)) /\
  forall (k : nat) i, (k < 8)%nat -> 0 <= i < Z.of_nat n -> tget t k i = Some (steps (8 * S k) i).

Lemma land_is_byte x : is_byte (x &&& 255).
Proof. rewrite land_255. unfold is_byte. apply Z.mod_pos_bound. lia. Qed.

Lemma nested_entries_spec n t : (n < 256)%nat -> columns n t -> exists t', nested_entries n t = Some t' /\ columns (S n) t'.
Proof.
  intros Hn (Hs & H0 & Hc). assert (Hb : is_byte (Z.of_nat n)) by (unfold is_byte; lia).
  unfold nested_entries. rewrite (H0 _ Hb). sbind.
  destruct (for_loop_ind (nested_entry n) (fun j st => columns n st.1 /\ st.2 = steps (8 * j) (Z.of_nat n) /\
    forall k, (k < j)%nat -> tget st.1 k (Z.of_nat n) = Some (steps (8 * S k) (Z.of_nat n))) 1 7 (t, steps 8 (Z.of_nat n)))
    as ([t' crc] & E & (Hs' & H0' & Hc') & _ & Hk).
  - split; [done|]. split; [done|]. cbn [fst]. intros k Hk. replace k with 0%nat by lia. by apply H0.
  - intros j [t1 crc] Hj ((Hs1 & H1 & Hc1) & Hcrc & Hk1). cbn [fst snd] in *. unfold nested_entry. subst crc.
    rewrite (H1 _ (land_is_byte _)). sbind. rewrite steps_next by lia. replace (8 + 8 * j)%nat with (8 * S j)%nat by lia.
    destruct (tset_spec 8 256 t1 j n (steps (8 * S j) (Z.of_nat n)) Hs1) as (t2 & E & Hs2 & _ & Hg); [lia..|].
    rewrite E. sbind. eexists. split; [done|]. cbn [fst snd]. split; [|split; [done|]].
    + split; [done|]. split; intros; rewrite Hg by (unfold is_byte in *; lia); (destruct (decide _) as [[? ?]|_]; [lia|]); auto.
    + intros k Hk. rewrite Hg by lia. destruct (decide _) as [[-> _]|Hne]; [done|]. apply Hk1.
      assert (k <> j); [|lia]. intros ->. by apply Hne.
  - rewrite E. sbind. exists t'. split; [done|]. cbn [fst] in *. split; [done|]. split; [done|]. intros k i Hk8 Hi.
    destruct (decide (i = Z.of_nat n)) as [->|]; [apply Hk; lia|apply Hc'; lia].
Qed.

Lemma crcspeed64little_init_spec t : shape 8 256 t -> exists t', crcspeed64little_init _crc64 t = Some t' /\ table_ok id t'.
Proof.
  intros Hs. unfold crcspeed64little_init. destruct (first_entries t Hs) as (t1 & -> & Hs1 & H1). sbind.
  destruct (for_loop_ind nested_entries columns 0 256 t1) as (t2 & E & Hs2 & _ & H2).
  - split; [done|]. split; [done|lia].
  - intros j a Hj. apply nested_entries_spec. lia.
  - exists t2. split; [done|]. split; [done|]. intros k n Hk Hn. by apply H2.
Qed.

(** The entries that have been reversed: those of the rows before [k], and of the
    row [k] those before [n]. *)
Definition reversed (k n : nat) (t : table) : Prop :=
  shape 8 256 t /\ forall (k' : nat) i, (k' < 8)%nat -> is_byte i ->
  tget t k' i = Some (if decide ((k' < k)%nat \/ k' = k /\ i < Z.of_nat n) then rev8 (steps (8 * S k') i) else steps (8 * S k') i).

Lemma reverse_entry_spec k n t : (k < 8)%nat -> (n < 256)%nat -> reversed k n t -> exists t', reverse_entry k n t = Some t' /\ reversed k (S n) t'.
Proof.
  intros Hk Hn [Hs Ht]. unfold reverse_entry. rewrite Ht by (unfold is_byte; lia).
  rewrite decide_False by lia. sbind.
  destruct (tset_spec 8 256 t k n (rev8 (steps (8 * S k) (Z.of_nat n))) Hs Hk Hn) as (t' & -> & Hs' & _ & Hg).
  exists t'. split; [done|]. split; [done|]. intros k' i Hk' Hi. rewrite Hg, Ht by (unfold is_byte in *; lia).
  destruct (decide (k' = k /\ i = _)) as [[-> ->]|]; [by rewrite decide_True by lia|].
  f_equal. repeat destruct (decide _); [done|lia|lia|done].
Qed.

Lemma crcspeed64big_init_spec t : shape 8 256 t -> exists t', crcspeed64big_init _crc64 t = Some t' /\ table_ok rev8 t'.
Proof.
  intros Hs. unfold crcspeed64big_init. destruct (crcspeed64little_init_spec t Hs) as (t1 & -> & Hs1 & H1). sbind.
  destruct (for_loop_ind (fun k t => for_loop (reverse_entry k) 0 256 t) (fun k t => reversed k 0 t) 0 8 t1) as (t2 & E & Hs2 & H2).
  - split; [done|]. intros k i Hk Hi. unfold is_byte in Hi. rewrite decide_False by lia. by apply H1.
  - intros k a Hk Ha. destruct (for_loop_ind (reverse_entry k) (reversed k) 0 256 a Ha) as (a' & E & Hs' & Ha').
    + intros n b Hn. apply reverse_entry_spec; lia.
    + exists a'. split; [done|]. split; [done|]. intros k' i Hk' Hi. rewrite Ha' by done. f_equal.
      unfold is_byte in Hi. repeat destruct (decide _); [done|lia|lia|done].
  - exists t2. split; [done|]. split; [done|]. intros k n Hk Hn. by rewrite H2, decide_True by (done || lia).
Qed.

Lemma crc64_init_spec big t : shape 8 256 t -> exists t', crc64_init big t = Some t' /\ table_ok (if big then rev8 else id) t'.
Proof. destruct big; [apply crcspeed64big_init_spec|apply crcspeed64little_init_spec]. Qed.
