(* ===== verification/CrcCombine.v ===== *)
(** * Checksums: products of matrices

    A matrix whose columns are the images of the single bits multiplies as the
    linear function it represents, in both implementations; the cache holds the
    matrices of 8, 16, 32, ... steps, and putting two checksums together takes the
    steps of the second length from the first. *)
From S2P Require Import Prelude Crc CrcSpec CrcTables.

(** ** Products *)

(** The columns of the function that takes [n] steps. *)
Definition represents (mat : list Z) (n : nat) : Prop :=
  length mat = 64%nat /\ forall i : nat, (i < 64)%nat -> mat !! i = Some (steps n (2 ^ Z.of_nat i)).

Lemma represents_mget mat n i : represents mat n -> 0 <= i < 64 -> mget mat i = Some (steps n (2 ^ i)).
Proof. intros [_ H] Hi. rewrite mget_lookup, H by lia. by rewrite Z2Nat.id by lia. Qed.

Definition xor_pows (js : list Z) : Z := foldr (fun j s => Z.lxor (2 ^ j) s) 0 js.

Lemma xor_at_spec mat n o js : represents mat n -> 0 <= o -> Forall (fun j => 0 <= j /\ o + j < 64) js ->
  xor_at mat o js = Some (steps n (xor_pows js <<< o)).
Proof.
  intros Hm Ho. induction 1 as [|j js Hj _ IH].
  - cbn [xor_at xor_pows foldr]. by rewrite Z.shiftl_0_l, (linear_0 _ (steps_linear n)).
  - cbn [xor_at xor_pows foldr]. rewrite (represents_mget mat n) by (done || lia). sbind. rewrite IH. sbind.
    rewrite Z.shiftl_lxor, (steps_linear n). do 3 f_equal. by rewrite Z.shiftl_mul_pow2, <- Z.pow_add_r, Z.add_comm by lia.
Qed.

Lemma switch_case_spec a : 0 <= a < 16 -> xor_pows (switch_case a) = a /\ Forall (fun j => 0 <= j <= 3) (switch_case a).
Proof.
  intros Ha. pose proof (forall_64 (fun a => (xor_pows (switch_case a) =? a) && forallb (fun j => (0 <=? j) && (j <=? 3)) (switch_case a) || (16 <=? a))
    a ltac:(by vm_compute) ltac:(lia)) as E. cbv beta in E.
  rewrite orb_true_iff, andb_true_iff, Z.eqb_eq, Z.leb_le, forallb_forall in E. destruct E as [[E1 E2]|]; [|lia]. split; [done|].
  apply Forall_forall. intros j Hj. apply list_elem_of_In, E2 in Hj. lia.
Qed.

Lemma times_switch_spec mat n (fuel : nat) o vec sum : represents mat n -> 0 <= vec < 2 ^ (4 * Z.of_nat fuel) -> 0 <= o -> o + 4 * Z.of_nat fuel = 64 ->
  times_switch mat fuel o vec sum = Some (Z.lxor sum (steps n (vec <<< o))).
Proof.
  intros Hm. revert o vec sum. induction fuel as [|fuel IH]; intros o vec sum Hv Ho Hf.
  - cbn in Hv. replace vec with 0 by lia. cbn [times_switch Z.eqb]. by rewrite Z.shiftl_0_l, (linear_0 _ (steps_linear n)), Z.lxor_0_r.
  - cbn [times_switch]. destruct (Z.eqb_spec vec 0) as [->|]; [by rewrite Z.shiftl_0_l, (linear_0 _ (steps_linear n)), Z.lxor_0_r|].
    assert (Ha : 0 <= vec &&& 15 < 16) by (rewrite (land_mod vec 4) by lia; apply Z.mod_pos_bound; lia).
    destruct (switch_case_spec _ Ha) as [E1 E2]. rewrite (xor_at_spec mat n), E1 by (done || (eapply Forall_impl; [done|]; cbn; lia)). sbind.
    rewrite IH.
    + f_equal. rewrite Z.lxor_assoc. f_equal. rewrite <- (steps_linear n). f_equal.
      rewrite Z.add_comm, <- Z.shiftl_shiftl, <- Z.shiftl_lxor by lia. f_equal. symmetry. apply (low_high 4); lia.
    + rewrite shiftr_div by lia. replace (4 * Z.of_nat (S fuel)) with (4 * Z.of_nat fuel + 4) in Hv by lia.
      rewrite Z.pow_add_r in Hv by lia. div_lia.
    + lia.
    + lia.
Qed.

Lemma land_mask b a : word64 a -> a &&& mask b = if b then a else 0.
Proof. intros Ha. destruct b; cbn [mask]; [|apply Z.land_0_r]. rewrite (land_mod a 64) by lia. by apply Z.mod_small. Qed.

Lemma land_3 v : 0 <= v -> v &&& 3 = Z.lxor (if Z.testbit (v &&& 3) 0 then 2 ^ 0 else 0) (if Z.testbit (v &&& 3) 1 then 2 ^ 1 else 0).
Proof.
  intros Hv. rewrite (land_mod v 2) by lia. pose proof (Z.mod_pos_bound v (2 ^ 2)).
  assert (v mod 2 ^ 2 = 0 \/ v mod 2 ^ 2 = 1 \/ v mod 2 ^ 2 = 2 \/ v mod 2 ^ 2 = 3) as [-> | [-> | [-> | ->]]] by lia; done.
Qed.

Lemma pow2_word i : 0 <= i < 64 -> word64 (2 ^ i).
Proof. intros Hi. split; [lia|]. apply Z.pow_lt_mono_r; lia. Qed.

Lemma steps_if n (b : bool) x o : steps n ((if b then x else 0) <<< o) = if b then steps n (x <<< o) else 0.
Proof. destruct b; [done|]. by rewrite Z.shiftl_0_l, (linear_0 _ (steps_linear n)). Qed.

Lemma steps_chunk2 n vec o : 0 <= vec -> 0 <= o ->
  steps n (vec <<< o) = Z.lxor (Z.lxor (if Z.testbit (vec &&& 3) 0 then steps n (2 ^ o) else 0) (if Z.testbit (vec &&& 3) 1 then steps n (2 ^ (o + 1)) else 0))
    (steps n ((vec >>> 2) <<< (o + 2))).
Proof.
  intros Hv Ho. rewrite (low_high 2 vec) at 1 by lia. change (2 ^ 2 - 1) with 3. rewrite Z.shiftl_lxor, (steps_linear n).
  rewrite Z.shiftl_shiftl, (Z.add_comm 2 o) by lia. f_equal. rewrite (land_3 vec) at 1 by done.
  rewrite Z.shiftl_lxor, (steps_linear n), !steps_if, !Z.shiftl_mul_pow2, <- !Z.pow_add_r by lia.
  by rewrite Z.add_0_l, (Z.add_comm 1).
Qed.

Lemma do_chunk2_spec mat n (k : nat) s0 s1 vec : represents mat n -> (k < 32)%nat -> 0 <= vec ->
  exists s0' s1', do_chunk2 mat k (s0, s1, vec) = Some (s0', s1', vec >>> 2) /\
    Z.lxor (Z.lxor s0' s1') (steps n ((vec >>> 2) <<< (2 * Z.of_nat (S k)))) = Z.lxor (Z.lxor s0 s1) (steps n (vec <<< (2 * Z.of_nat k))).
Proof.
  intros Hm Hk Hv. unfold do_chunk2. rewrite !(represents_mget mat n) by (done || lia). sbind. unfold masks2.
  do 2 eexists. split; [done|]. rewrite !land_mask by (apply steps_range, pow2_word; lia).
  rewrite (steps_chunk2 n vec) by lia. replace (2 * Z.of_nat k + 2) with (2 * Z.of_nat (S k)) by lia.
  rewrite <- !Z.lxor_assoc. f_equal. rewrite !Z.lxor_assoc. f_equal. rewrite <- !Z.lxor_assoc. f_equal. apply Z.lxor_comm.
Qed.

Lemma CRC_MULTIPLY_spec vec mat n v : represents mat n -> word64 v -> CRC_MULTIPLY vec mat v = Some (steps n v).
Proof.
  intros Hm Hv. destruct vec; cbn [CRC_MULTIPLY].
  - unfold gf2_matrix_times_vec2.
    destruct (for_loop_ind (do_chunk2 mat) (fun k st => let '(s0, s1, w) := st in 0 <= w < 2 ^ (64 - 2 * Z.of_nat k) /\
      Z.lxor (Z.lxor s0 s1) (steps n (w <<< (2 * Z.of_nat k))) = steps n v) 0 32 (0, 0, v)) as ([[s0 s1] w] & -> & Hw & E).
    + split; [done|]. by rewrite Z.shiftl_0_r.
    + intros k [[s0 s1] w] Hk [Hw E]. destruct (do_chunk2_spec mat n k s0 s1 w) as (s0' & s1' & Ec & Es); [done|lia|lia|].
      eexists. split; [done|]. split; [|by rewrite Es]. rewrite shiftr_div by lia.
      replace (64 - 2 * Z.of_nat k) with (64 - 2 * Z.of_nat (S k) + 2) in Hw by lia. rewrite Z.pow_add_r in Hw by lia. div_lia.
    + sbind. f_equal. replace w with 0 in E by (cbn in Hw; lia).
      by rewrite Z.shiftl_0_l, (linear_0 _ (steps_linear n)), Z.lxor_0_r in E.
  - unfold gf2_matrix_times_switch. rewrite (times_switch_spec mat n) by (done || lia). by rewrite Z.shiftl_0_r, Z.lxor_0_l.
Qed.

(** ** The cache *)

Section cache.
Context (vec : bool).

Lemma row_represents K (c : table) k n : shape K 64 c -> (k < K)%nat ->
  (forall i : nat, (i < 64)%nat -> tget c k (Z.of_nat i) = Some (steps n (2 ^ Z.of_nat i))) ->
  exists mat, c !! k = Some mat /\ represents mat n.
Proof.
  intros Hs Hk H. destruct (shape_row K 64 c k Hs Hk) as (mat & E & Hl). exists mat. split; [done|]. split; [done|].
  intros i Hi. specialize (H i Hi). unfold tget in H. rewrite E in H. revert H. sbind. by rewrite mget_lookup, Nat2Z.id by lia.
Qed.

Lemma gf2_matrix_square_spec sq mt c mat n : shape 64 64 c -> (sq < 64)%nat -> sq <> mt -> c !! mt = Some mat -> represents mat n ->
  exists c' mat', gf2_matrix_square vec sq mt 64 c = Some c' /\ shape 64 64 c' /\ (forall k, k <> sq -> c' !! k = c !! k) /\
    c' !! sq = Some mat' /\ represents mat' (n + n).
Proof.
  intros Hs Hsq Hne Hmt Hm. unfold gf2_matrix_square.
  destruct (for_loop_ind (square_column vec sq mt) (fun j c' => shape 64 64 c' /\ (forall k, k <> sq -> c' !! k = c !! k) /\
    forall i : nat, (i < j)%nat -> tget c' sq (Z.of_nat i) = Some (steps (n + n) (2 ^ Z.of_nat i))) 0 64 c) as (c' & E & Hs' & Hk & Hi).
  - split; [done|]. split; [done|lia].
  - intros j c1 Hj (Hs1 & Hk1 & Hi1). unfold square_column. rewrite Hk1, Hmt by done. sbind. destruct (Hm) as [_ Hj2].
    rewrite Hj2 by lia. sbind. rewrite (CRC_MULTIPLY_spec vec mat n), <- steps_add by (try apply steps_range, pow2_word; done || lia). sbind.
    destruct (tset_spec 64 64 c1 sq j (steps (n + n) (2 ^ Z.of_nat j)) Hs1) as (c2 & -> & Hs2 & Hk2 & Hg); [lia..|].
    exists c2. split; [done|]. split; [done|]. split; [intros k Hk; by rewrite Hk2, Hk1|].
    intros i Hi. rewrite Hg by lia. destruct (decide _) as [[_ Hij]|Hne']; [by rewrite Hij|]. apply Hi1.
    assert (i <> j); [|lia]. intros ->. by apply Hne'.
  - destruct (row_represents 64 c' sq (n + n)) as (mat' & E' & Hm'); [done|lia|intros i Hi'; apply Hi; lia|].
    by exists c', mat'.
Qed.

(** The matrix of 8 steps, then each twice the one before. *)
Definition cache_ok (c : table) : Prop :=
  shape 64 64 c /\ forall k : nat, (k < 64)%nat -> exists mat, c !! k = Some mat /\ represents mat (8 * 2 ^ k).

Lemma steps_1 (n : nat) : steps 1 (2 ^ Z.of_nat n) = if decide (n = 0%nat) then CRC64_REVERSED_POLY else 2 ^ (Z.of_nat n - 1).
Proof.
  destruct (decide _) as [->|Hn]; [done|]. replace (2 ^ Z.of_nat n) with (2 ^ (Z.of_nat n - 1) <<< Z.of_nat 1); [apply steps_shiftl|].
  rewrite Z.shiftl_mul_pow2, <- Z.pow_add_r by lia. f_equal. lia.
Qed.

(** The matrix of one step. *)
Lemma shift_columns c : shape 64 64 c -> exists c1 c2 row mat, tset c 1 0 CRC64_REVERSED_POLY = Some c1 /\
  for_loop shift_column 1 63 (c1, 1) = Some (c2, row) /\ shape 64 64 c2 /\ c2 !! 1%nat = Some mat /\ represents mat 1.
Proof.
  intros Hs. destruct (tset_spec 64 64 c 1 0 CRC64_REVERSED_POLY Hs) as (c1 & E1 & Hs1 & _ & Hg1); [lia..|].
  destruct (for_loop_ind shift_column (fun j st => shape 64 64 st.1 /\ st.2 = u64 (2 ^ (Z.of_nat j - 1)) /\
    forall i : nat, (i < j)%nat -> tget st.1 1 (Z.of_nat i) = Some (steps 1 (2 ^ Z.of_nat i))) 1 63 (c1, 1)) as ([c2 row] & E2 & Hs2 & _ & Hi).
  - split; [done|]. split; [done|]. cbn [fst]. intros i Hi. replace i with 0%nat by lia. by rewrite Hg1.
  - intros j [cj row] Hj (Hsj & Hr & Hi). cbn [fst snd] in *. unfold shift_column.
    assert (Hw : word64 (2 ^ (Z.of_nat j - 1))) by (apply pow2_word; lia). rewrite (wrap_small 64) in Hr by done. subst row.
    destruct (tset_spec 64 64 cj 1 j (2 ^ (Z.of_nat j - 1)) Hsj) as (c2 & -> & Hs2 & _ & Hg); [lia..|].
    sbind. eexists. split; [done|]. cbn [fst snd]. split; [done|]. split.
    + f_equal. rewrite Z.shiftl_mul_pow2, <- Z.pow_add_r by lia. f_equal. lia.
    + intros i Hij. rewrite Hg by lia. destruct (decide _) as [[_ Hd]|Hd].
      * rewrite steps_1, decide_False by lia. do 3 f_equal. lia.
      * apply Hi. assert (i <> j); [|lia]. intros ->. by apply Hd.
  - destruct (row_represents 64 c2 1 1) as (mat & E & Hm); [done|lia|intros i Hi'; apply Hi; lia|]. by exists c1, c2, row, mat.
Qed.

Lemma init_combine_cache_spec c : shape 64 64 c -> exists c', init_combine_cache vec CRC64_REVERSED_POLY 64 c = Some c' /\ cache_ok c'.
Proof.
  intros Hs. destruct (shift_columns c Hs) as (c1 & c2 & row & mat & E1 & E2 & Hs2 & H1 & Hm). unfold init_combine_cache.
  rewrite E1. sbind. change (64 - 1)%nat with 63%nat. rewrite E2. sbind.
  destruct (gf2_matrix_square_spec 0 1 c2 mat 1 Hs2) as (c3 & m3 & -> & Hs3 & Hk3 & H3 & Hm3); [lia|lia|done|done|]. sbind.
  destruct (gf2_matrix_square_spec 1 0 c3 m3 2 Hs3) as (c4 & m4 & -> & Hs4 & Hk4 & H4 & Hm4); [lia|lia|done|done|]. sbind.
  destruct (for_loop_ind (square_next vec 64) (fun j c => shape 64 64 c /\ (j = 0%nat -> c !! 1%nat = Some m4) /\
    forall k : nat, (k < j)%nat -> exists mat, c !! k = Some mat /\ represents mat (8 * 2 ^ k)) 0 64 c4) as (c5 & E & Hs5 & _ & H5).
  - split; [done|]. split; [done|lia].
  - intros j c' Hj (Hs' & H0 & Hk). unfold square_next. destruct j as [|j].
    + destruct (gf2_matrix_square_spec 0 1 c' m4 4 Hs') as (c6 & m6 & -> & Hs6 & Hk6 & H6 & Hm6); [lia|lia|by apply H0|done|].
      exists c6. split; [done|]. split; [done|]. split; [done|]. intros k Hk'. replace k with 0%nat by lia. by exists m6.
    + destruct (Hk j ltac:(lia)) as (mj & Ej & Hmj).
      destruct (gf2_matrix_square_spec (S j) j c' mj (8 * 2 ^ j) Hs') as (c6 & m6 & -> & Hs6 & Hk6 & H6 & Hm6); [lia|lia|done|done|].
      exists c6. split; [done|]. split; [done|]. split; [done|]. intros k Hk'. destruct (decide (k = S j)) as [->|].
      * exists m6. split; [done|]. by replace (8 * 2 ^ S j)%nat with (8 * 2 ^ j + 8 * 2 ^ j)%nat by (rewrite Nat.pow_succ_r'; lia).
      * rewrite Hk6 by done. apply Hk. lia.
  - exists c5. split; [done|]. split; [done|]. intros k Hk. apply H5. lia.
Qed.

(** ** Combination *)

Lemma combine_loop_spec c (fuel k : nat) crc len2 : cache_ok c -> (k + fuel = 64)%nat -> word64 crc -> 0 < len2 < 2 ^ Z.of_nat fuel ->
  combine_loop vec fuel c k crc len2 = Some (steps (8 * (2 ^ k * Z.to_nat len2)) crc).
Proof.
  intros [Hs Hc]. revert k crc len2. induction fuel as [|fuel IH]; intros k crc len2 Hk Hw Hl; [cbn in Hl; lia|].
  cbn [combine_loop]. destruct (Hc k ltac:(lia)) as (mat & Em & Hm).
  rewrite (land_mod len2 1), (shiftr_div len2 1) by lia. change (2 ^ 1) with 2.
  set (crc' := if negb (len2 mod 2 =? 0) then steps (8 * 2 ^ k) crc else crc).
  assert (E : (if negb (len2 mod 2 =? 0) then mat ← c !! k; CRC_MULTIPLY vec mat crc else Some crc) = Some crc').
  { unfold crc'. destruct (negb _); [|done]. rewrite Em. sbind. by apply CRC_MULTIPLY_spec. }
  rewrite E. sbind. assert (Hw' : word64 crc') by (unfold crc'; destruct (negb _); [by apply steps_range|done]).
  assert (Hcrc : crc' = steps (8 * (2 ^ k * Z.to_nat (len2 mod 2))) crc).
  { unfold crc'. pose proof (Z.mod_pos_bound len2 2). destruct (Z.eqb_spec (len2 mod 2) 0) as [->|]; cbn [negb].
    - by rewrite Nat.mul_0_r.
    - replace (len2 mod 2) with 1 by lia. by rewrite Nat.mul_1_r. }
  rewrite (land_mod _ 6) by lia.
  destruct (Z.eqb_spec (len2 / 2) 0) as [H0|H0]; cbn [negb].
  - f_equal. rewrite Hcrc. do 4 f_equal. div_lia.
  - assert (Hf : (fuel <> 0)%nat) by (intros ->; cbn in Hl; div_lia).
    rewrite Z.mod_small by lia. replace (Z.to_nat (Z.of_nat k + 1)) with (S k) by lia.
    rewrite IH; [|lia|done|rewrite Nat2Z.inj_succ, Z.pow_succ_r in Hl by lia; div_lia]. f_equal. rewrite Hcrc, <- steps_add. f_equal.
    rewrite Nat.pow_succ_r'. replace (Z.to_nat len2) with (2 * Z.to_nat (len2 / 2) + Z.to_nat (len2 mod 2))%nat by div_lia. lia.
Qed.

(** The cache is filled when it is first used. *)
Definition cache_good (c : table) : Prop := cache_ok c \/ shape 64 64 c /\ tget c 0 0 = Some 0.

Lemma crc64_combine_spec c crc1 crc2 len2 : cache_good c -> word64 crc1 -> 0 < len2 < 2 ^ 64 ->
  exists c', crc64_combine vec c crc1 crc2 len2 CRC64_REVERSED_POLY 64 = Some (c', Z.lxor (steps (8 * Z.to_nat len2) crc1) crc2) /\ cache_good c'.
Proof.
  intros Hg Hw Hl. unfold crc64_combine. rewrite (proj2 (Z.eqb_neq len2 0)) by lia.
  assert (Hi : exists c', (x ← tget c 0 0; if x =? 0 then init_combine_cache vec CRC64_REVERSED_POLY 64 c else Some c) = Some c' /\ cache_ok c').
  { destruct Hg as [Hok|[Hs E]].
    - exists c. split; [|done]. destruct Hok as [Hs Hc]. destruct (Hc 0%nat ltac:(lia)) as (mat & E & _ & Hm).
      unfold tget. rewrite E. sbind. rewrite mget_lookup by lia. change (Z.to_nat 0) with 0%nat. rewrite Hm by lia. sbind.
      by vm_compute (_ =? 0).
    - rewrite E. sbind. cbn [Z.eqb]. by apply init_combine_cache_spec. }
  destruct Hi as (c' & Hi & Hok). destruct (tget c 0 0) as [x|] eqn:Ex; [|done]. revert Hi. sbind. intros ->. sbind.
  rewrite (combine_loop_spec c') by (done || lia). sbind. exists c'. split; [|by left]. change (2 ^ 0)%nat with 1%nat. by rewrite Nat.mul_1_l.
Qed.
End cache.
