(* ===== verification/CrcSpeed.v ===== *)
(** * Checksums: the loops

    The loops by bytes and by words, on either kind of machine, and the parts in
    parallel compute the reference.  A register [c] of the reference is [g c] in
    the machine: itself, or its bytes in the opposite order. *)
From S2P Require Import Prelude Crc CrcSpec CrcTables CrcCombine.

(** ** Reversal of the bytes *)

Lemma rev8_bits d i : 0 <= i < 64 -> Z.testbit (rev8 d) i = Z.testbit d (bpos i).
Proof. intros Hi. unfold rev8. rewrite bswap64_bits by lia. by rewrite (proj2 (Z.ltb_lt i 64)) by lia. Qed.

Lemma rev8_range d : word64 (rev8 d).
Proof. apply bswap64_range. Qed.

Lemma rev8_lxor a b : rev8 (Z.lxor a b) = Z.lxor (rev8 a) (rev8 b).
Proof.
  apply word64_ext; [apply rev8_range|apply lxor_range; [lia|apply rev8_range..]|].
  intros i Hi. by rewrite Z.lxor_spec, !rev8_bits, Z.lxor_spec.
Qed.

Lemma rev8_rev8 d : word64 d -> rev8 (rev8 d) = d.
Proof.
  intros Hd. apply word64_ext; [apply rev8_range|done|]. intros i Hi. rewrite !rev8_bits by (unfold bpos; div_lia).
  f_equal. unfold bpos. div_lia.
Qed.

Lemma rev8_shiftr c : word64 c -> u64 (rev8 c <<< 8) = rev8 (c >>> 8).
Proof.
  intros Hc. apply word64_ext; [by apply wrap_range|apply rev8_range|]. intros i Hi.
  rewrite wrap_bits, Z.shiftl_spec, (rev8_bits (c >>> 8)), Z.shiftr_spec, (proj2 (Z.ltb_lt i 64)) by (unfold bpos; div_lia). cbn [andb].
  destruct (Z.ltb_spec i 8).
  - rewrite Z.testbit_neg_r by lia. rewrite <- (wrap_small 64 c Hc), wrap_bits by (unfold bpos; div_lia).
    rewrite (proj2 (Z.ltb_ge _ 64)); [done|]. unfold bpos. div_lia.
  - rewrite rev8_bits by lia. f_equal. unfold bpos. div_lia.
Qed.

(** The bytes of the result. *)
Lemma rev8_byte c j a b : 0 <= j <= 7 -> a = 8 * j -> b = 56 - a -> (rev8 c >>> a) &&& 255 = (c >>> b) &&& 255.
Proof.
  intros Hj -> ->. apply Z.bits_inj'. intros i Hi. rewrite !Z.land_spec, !Z.shiftr_spec by lia.
  change 255 with (Z.ones 8). destruct (Z.ltb_spec i 8); [|by rewrite Z.ones_spec_high, !andb_false_r by lia].
  rewrite Z.ones_spec_low, !andb_true_r, rev8_bits by lia. f_equal. unfold bpos. div_lia.
Qed.

Lemma shiftr_56 c : word64 c -> c >>> 56 = (c >>> 56) &&& 255.
Proof. unfold in_unsigned. intros Hc. rewrite land_255, (shiftr_div c 56) by lia. div_lia. Qed.

(** ** A byte and a word *)

Lemma lxor_land a b m : Z.lxor a b &&& m = Z.lxor (a &&& m) (b &&& m).
Proof.
  apply Z.bits_inj'. intros i Hi. rewrite Z.land_spec, !Z.lxor_spec, !Z.land_spec.
  by destruct (Z.testbit a i), (Z.testbit b i), (Z.testbit m i).
Qed.

Lemma byte_land b : is_byte b -> b &&& 255 = b.
Proof. intros Hb. rewrite land_255. by apply Z.mod_small. Qed.

Lemma byte_shiftr b : is_byte b -> b >>> 8 = 0.
Proof. intros Hb. rewrite shiftr_8. by apply Z.div_small. Qed.

Lemma u8_land_255 x : u8 x = x &&& 255.
Proof. by rewrite land_255. Qed.

Lemma crc_step_lookup c b : word64 c -> is_byte b -> crc_step c b = Z.lxor (steps 8 (Z.lxor c b &&& 255)) (c >>> 8).
Proof.
  intros Hc Hb. unfold crc_step. unfold in_unsigned in Hc. unfold is_byte in Hb.
  rewrite steps_8 by (apply Z.lxor_nonneg; lia). by rewrite Z.shiftr_lxor, (byte_shiftr b), Z.lxor_0_r.
Qed.

Lemma steps_peel n k x : n = (8 + k)%nat -> 0 <= x -> steps n x = Z.lxor (steps n (x &&& 255)) (steps k (x >>> 8)).
Proof.
  intros -> Hx. rewrite (low_high 8 x) at 1 by lia. rewrite (steps_linear (8 + k)). f_equal.
  rewrite Nat.add_comm, steps_add. f_equal. apply (steps_shiftl 8).
Qed.

Lemma steps_64 c : word64 c -> steps 64 c =
  Z.lxor (steps 64 (c &&& 255)) (Z.lxor (steps 56 ((c >>> 8) &&& 255)) (Z.lxor (steps 48 ((c >>> 16) &&& 255)) (Z.lxor (steps 40 ((c >>> 24) &&& 255))
  (Z.lxor (steps 32 ((c >>> 32) &&& 255)) (Z.lxor (steps 24 ((c >>> 40) &&& 255)) (Z.lxor (steps 16 ((c >>> 48) &&& 255)) (steps 8 (c >>> 56)))))))).
Proof.
  unfold in_unsigned. intros Hc. assert (Hp : forall k, 0 <= c >>> k) by (intros; apply Z.shiftr_nonneg; lia).
  assert (Hs : forall a b, 0 <= a -> b = a + 8 -> (c >>> a) >>> 8 = c >>> b) by (intros a b Ha ->; by rewrite Z.shiftr_shiftr).
  rewrite (steps_peel 64 56 c eq_refl) by lia.
  rewrite (steps_peel 56 48 (c >>> 8) eq_refl), (Hs 8 16) by done.
  rewrite (steps_peel 48 40 (c >>> 16) eq_refl), (Hs 16 24) by done.
  rewrite (steps_peel 40 32 (c >>> 24) eq_refl), (Hs 24 32) by done.
  rewrite (steps_peel 32 24 (c >>> 32) eq_refl), (Hs 32 40) by done.
  rewrite (steps_peel 24 16 (c >>> 40) eq_refl), (Hs 40 48) by done.
  rewrite (steps_peel 16 8 (c >>> 48) eq_refl), (Hs 48 56) by done.
  done.
Qed.

Lemma lxor_reverse a b c d e f g h :
  Z.lxor (Z.lxor (Z.lxor (Z.lxor (Z.lxor (Z.lxor (Z.lxor a b) c) d) e) f) g) h = Z.lxor h (Z.lxor g (Z.lxor f (Z.lxor e (Z.lxor d (Z.lxor c (Z.lxor b a)))))).
Proof.
  rewrite (Z.lxor_comm _ h), (Z.lxor_comm _ g), (Z.lxor_comm _ f), (Z.lxor_comm _ e), (Z.lxor_comm _ d), (Z.lxor_comm _ c).
  by rewrite (Z.lxor_comm a b).
Qed.

Section machine.
Context (t : table) (buf : list Z) (Hbuf : bytes_ok buf).

Lemma little_byte_spec c next b : table_ok id t -> word64 c -> mget buf next = Some b -> little_byte t buf c next = Some (crc_step c b).
Proof using Hbuf.
  intros [_ Ht] Hc E. pose proof (mget_byte buf next b Hbuf E) as Hb. unfold little_byte. rewrite E. sbind.
  rewrite (Ht 0%nat) by (lia || apply land_is_byte). sbind. by rewrite crc_step_lookup.
Qed.

Lemma big_byte_spec c next b : table_ok rev8 t -> word64 c -> mget buf next = Some b -> big_byte t buf (rev8 c) next = Some (rev8 (crc_step c b)).
Proof using Hbuf.
  intros [_ Ht] Hc E. pose proof (mget_byte buf next b Hbuf E) as Hb. unfold big_byte. rewrite E. sbind.
  assert (E1 : Z.lxor (rev8 c >>> 56) b = Z.lxor c b &&& 255).
  { rewrite shiftr_56 by apply rev8_range. rewrite (rev8_byte c 7 56 0) by lia.
    by rewrite Z.shiftr_0_r, lxor_land, (byte_land b). }
  rewrite E1, (Ht 0%nat) by (lia || apply land_is_byte). sbind. by rewrite rev8_shiftr, <- rev8_lxor, crc_step_lookup.
Qed.

Lemma DO_8_2_spec c : table_ok id t -> word64 c -> DO_8_2 t c = Some (steps 64 c).
Proof using.
  intros [_ Ht] Hc. unfold DO_8_2. rewrite !u8_land_255, (shiftr_56 c) by done.
  rewrite !Ht by (lia || apply land_is_byte). sbind. f_equal. rewrite (steps_64 c), <- (shiftr_56 c) by done. by rewrite !Z.lxor_assoc.
Qed.

Lemma rev8_dec bs : bytes_ok bs -> length bs = 8%nat -> le_dec (reverse bs) = rev8 (le_dec bs).
Proof using. intros Hb Hl. unfold rev8, bswap64. rewrite <- Hl. by rewrite le_enc_dec. Qed.

(** The bytes from [o] on. *)
Definition sub (o n : Z) : list Z := take (Z.to_nat n) (drop (Z.to_nat o) buf).

Lemma mread_sub o n : 0 <= o -> 0 <= n -> o + n <= zlen buf -> mread buf o n = Some (sub o n).
Proof using.
  intros H1 H2 H3. unfold mread. by rewrite (proj2 (Z.leb_le 0 o)), (proj2 (Z.leb_le 0 n)), (proj2 (Z.leb_le (o + n) _)).
Qed.

Lemma sub_bytes o n : bytes_ok (sub o n).
Proof using Hbuf. by apply Forall_take, Forall_drop. Qed.

Lemma length_sub o n : 0 <= o -> 0 <= n -> o + n <= zlen buf -> length (sub o n) = Z.to_nat n.
Proof using. unfold zlen. intros. unfold sub. rewrite length_take, length_drop. lia. Qed.

Lemma sub_app o a b : 0 <= o -> 0 <= a -> 0 <= b -> sub o (a + b) = sub o a ++ sub (o + a) b.
Proof using.
  intros. unfold sub. rewrite !Z2Nat.inj_add, <- drop_drop by done. by rewrite take_drop_add || rewrite <- take_take_drop.
Qed.

Lemma sub_0 o : sub o 0 = [].
Proof using. done. Qed.

Lemma sub_all : sub 0 (zlen buf) = buf.
Proof using. unfold sub. rewrite to_nat_zlen. change (drop (Z.to_nat 0) buf) with buf. by apply take_ge. Qed.

Lemma sub_cons o n b : mget buf o = Some b -> 0 < n -> sub o n = b :: sub (o + 1) (n - 1).
Proof using.
  intros E Hn. pose proof (mget_range _ _ _ E) as Hr. replace n with (1 + (n - 1)) at 1 by lia. rewrite sub_app by lia.
  unfold sub at 1. rewrite mget_lookup in E by lia. by rewrite (drop_S _ _ _ E).
Qed.

Lemma word_spec c next : table_ok id t -> word64 c -> 0 <= next -> next + 8 <= zlen buf ->
  (c1 ← DO_8_1 false buf c next; DO_8_2 t c1) = Some (crc_run c (sub next 8)).
Proof using Hbuf.
  intros Ht Hc H1 H2. unfold DO_8_1, load_word64. rewrite mread_sub by lia. cbn [fmap option_fmap option_map]. sbind. cbn [word_of].
  pose proof (le_dec_range _ (sub_bytes next 8)) as Hr. unfold zlen in Hr. rewrite length_sub in Hr by lia.
  rewrite DO_8_2_spec by (try apply lxor_range; done || lia).
  rewrite crc_run_dec, length_sub by (lia || apply sub_bytes). done.
Qed.

Lemma big_word_spec c next : table_ok rev8 t -> word64 c -> 0 <= next -> next + 8 <= zlen buf ->
  big_word true t buf (rev8 c) next = Some (rev8 (crc_run c (sub next 8))).
Proof using Hbuf.
  intros [_ Ht] Hc H1 H2. unfold big_word, load_word64. rewrite mread_sub by lia. cbn [fmap option_fmap option_map]. sbind. cbn [word_of].
  pose proof (le_dec_range _ (sub_bytes next 8)) as Hr. unfold zlen in Hr. rewrite length_sub in Hr by lia.
  rewrite rev8_dec by (apply sub_bytes || rewrite length_sub by lia; done). rewrite <- rev8_lxor.
  rewrite crc_run_dec, length_sub by (lia || apply sub_bytes). change (8 * Z.to_nat 8)%nat with 64%nat.
  set (d := Z.lxor c (le_dec (sub next 8))). assert (Hd : word64 d) by (apply lxor_range; done || lia).
  rewrite (shiftr_56 (rev8 d)) by apply rev8_range. rewrite <- (Z.shiftr_0_r (rev8 d)) at 1.
  rewrite (rev8_byte d 0 0 56), (rev8_byte d 1 8 48), (rev8_byte d 2 16 40), (rev8_byte d 3 24 32), (rev8_byte d 4 32 24), (rev8_byte d 5 40 16),
    (rev8_byte d 6 48 8), (rev8_byte d 7 56 0), Z.shiftr_0_r by lia.
  rewrite !Ht by (lia || apply land_is_byte). sbind. rewrite <- !rev8_lxor, (steps_64 d), <- (shiftr_56 d) by done. do 2 f_equal.
  apply lxor_reverse.
Qed.

Lemma sub_range c o n : word64 c -> word64 (crc_run c (sub o n)).
Proof using Hbuf. intros Hc. apply crc_run_range; [done|apply sub_bytes]. Qed.

Lemma run_sub_app c o a b : 0 <= o -> 0 <= a -> 0 <= b -> crc_run (crc_run c (sub o a)) (sub (o + a) b) = crc_run c (sub o (a + b)).
Proof using. intros. by rewrite sub_app, crc_run_app. Qed.

Lemma run_sub_chain c o a b o' : 0 <= o -> 0 <= a -> 0 <= b -> o' = o + a -> crc_run (crc_run c (sub o a)) (sub o' b) = crc_run c (sub o (a + b)).
Proof using. intros ? ? ? ->. by apply run_sub_app. Qed.

(** ** Loops with one register *)

Section loops.
Context (g : Z -> Z) (base : Z) (step word : Z -> Z -> option Z).
Context (Hstep : forall c next b, word64 c -> mget buf next = Some b -> step (g c) next = Some (g (crc_step c b))).
Context (Hword : forall c next, word64 c -> 0 <= next -> next + 8 <= zlen buf -> word (g c) next = Some (g (crc_run c (sub next 8)))).

Lemma step_sub c next n : word64 c -> 0 <= next -> 0 < n -> next + n <= zlen buf ->
  exists c', step (g c) next = Some (g c') /\ word64 c' /\ c' = crc_run c (sub next 1) /\ crc_run c' (sub (next + 1) (n - 1)) = crc_run c (sub next n).
Proof using Hstep Hbuf.
  intros Hc H0 Hn Hl. destruct (mget_in buf next ltac:(lia)) as [b E]. exists (crc_step c b). split; [by apply Hstep|].
  rewrite !(sub_cons next) with (b := b) by (done || lia). split; [apply crc_step_range; [done|by apply (mget_byte buf next)]|done].
Qed.

Lemma tail_loop_spec (fuel : nat) c next len : word64 c -> 0 <= next -> 0 <= len <= Z.of_nat fuel -> next + len <= zlen buf ->
  tail_loop fuel step (g c) next len = Some (g (crc_run c (sub next len))).
Proof using Hstep Hbuf.
  revert c next len. induction fuel as [|fuel IH]; intros c next len Hc H0 Hf Hl; cbn [tail_loop].
  - replace len with 0 by lia. done.
  - destruct (Z.eqb_spec len 0) as [->|]; [done|]. cbn [negb].
    destruct (step_sub c next len) as (c' & -> & Hc' & _ & E); [done|lia|lia|lia|]. sbind. rewrite IH by (done || lia). by rewrite E.
Qed.

Lemma align_loop_spec (fuel : nat) c next len : word64 c -> 0 <= next -> 0 <= len <= Z.of_nat fuel -> next + len <= zlen buf ->
  exists k, 0 <= k <= len /\ align_loop base fuel step (g c) next len = Some (g (crc_run c (sub next k)), next + k, len - k).
Proof using Hstep Hbuf.
  revert c next len. induction fuel as [|fuel IH]; intros c next len Hc H0 Hf Hl; cbn [align_loop].
  - exists 0. split; [lia|]. replace len with 0 by lia. by rewrite Z.add_0_r.
  - destruct (negb (len =? 0) && _) eqn:E; [|exists 0; split; [lia|by rewrite Z.add_0_r, Z.sub_0_r]].
    apply andb_true_iff in E as [E _]. apply negb_true_iff, Z.eqb_neq in E.
    destruct (step_sub c next len) as (c' & -> & Hc' & Hr & _); [done|lia|lia|lia|]. sbind.
    destruct (IH c' (next + 1) (len - 1)) as (k & Hk & ->); [done|lia|lia|lia|]. exists (1 + k). split; [lia|].
    rewrite Hr, run_sub_app by lia. by rewrite Z.add_assoc, Z.sub_add_distr.
Qed.

Lemma single_loop_spec (fuel : nat) c next len : word64 c -> 0 <= next -> 0 <= len <= Z.of_nat fuel -> next + len <= zlen buf ->
  exists k, 0 <= k <= len /\ single_loop fuel word (g c) next len = Some (g (crc_run c (sub next k)), next + k, len - k).
Proof using Hword Hbuf.
  revert c next len. induction fuel as [|fuel IH]; intros c next len Hc H0 Hf Hl; cbn [single_loop].
  - exists 0. split; [lia|]. replace len with 0 by lia. by rewrite Z.add_0_r.
  - destruct (Z.geb_spec len 8); [|exists 0; split; [lia|by rewrite Z.add_0_r, Z.sub_0_r]].
    rewrite Hword by (done || lia). sbind.
    destruct (IH (crc_run c (sub next 8)) (next + 8) (len - 8)) as (k & Hk & ->); [by apply sub_range|lia|lia|lia|].
    exists (8 + k). split; [lia|]. rewrite run_sub_app by lia. by rewrite Z.add_assoc, Z.sub_add_distr.
Qed.
End loops.

(** ** Parts in parallel *)

Section parts.
Context (vec : bool) (Ht : table_ok id t).

Lemma words_spec c next : word64 c -> 0 <= next -> next + 8 <= zlen buf ->
  exists c1, DO_8_1 false buf c next = Some c1 /\ DO_8_2 t c1 = Some (crc_run c (sub next 8)).
Proof using Ht Hbuf.
  intros Hc H1 H2. pose proof (word_spec c next Ht Hc H1 H2) as E. destruct (DO_8_1 false buf c next) as [c1|]; [|done]. by exists c1.
Qed.

Lemma dual_loop_spec (fuel : nat) c1 c2 n1 n2 m : word64 c1 -> word64 c2 -> 0 <= n1 -> 0 <= n2 -> 0 <= m <= Z.of_nat fuel ->
  n1 + 8 * m <= zlen buf -> n2 + 8 * m <= zlen buf ->
  dual_loop false t buf fuel c1 c2 n1 n2 (8 * m) = Some (crc_run c1 (sub n1 (8 * m)), crc_run c2 (sub n2 (8 * m)), n1 + 8 * m, n2 + 8 * m).
Proof using Ht Hbuf.
  revert c1 c2 n1 n2 m. induction fuel as [|fuel IH]; intros c1 c2 n1 n2 m Hc1 Hc2 H1 H2 Hm L1 L2; cbn [dual_loop].
  - replace m with 0 by lia. by rewrite !Z.add_0_r.
  - destruct (Z.geb_spec (8 * m) 8); [|replace m with 0 by lia; by rewrite !Z.add_0_r].
    destruct (words_spec c1 n1) as (d1 & -> & E1); [done|lia|lia|]. sbind.
    destruct (words_spec c2 n2) as (d2 & -> & E2); [done|lia|lia|]. sbind. rewrite E1. sbind. rewrite E2. sbind.
    replace (8 * m - 8) with (8 * (m - 1)) by lia. rewrite IH by (try apply sub_range; done || lia).
    rewrite !run_sub_app by lia. rewrite <- !Z.add_assoc. by replace (8 + 8 * (m - 1)) with (8 * m) by lia.
Qed.

Lemma tri_loop_spec (fuel : nat) c1 c2 c3 n1 n2 n3 m : word64 c1 -> word64 c2 -> word64 c3 -> 0 <= n1 -> 0 <= n2 -> 0 <= n3 -> 0 <= m <= Z.of_nat fuel ->
  n1 + 8 * m <= zlen buf -> n2 + 8 * m <= zlen buf -> n3 + 8 * m <= zlen buf ->
  tri_loop false t buf fuel c1 c2 c3 n1 n2 n3 (8 * m) =
  Some (crc_run c1 (sub n1 (8 * m)), crc_run c2 (sub n2 (8 * m)), crc_run c3 (sub n3 (8 * m)), (n1 + 8 * m, n2 + 8 * m, n3 + 8 * m)).
Proof using Ht Hbuf.
  revert c1 c2 c3 n1 n2 n3 m. induction fuel as [|fuel IH]; intros c1 c2 c3 n1 n2 n3 m Hc1 Hc2 Hc3 H1 H2 H3 Hm L1 L2 L3; cbn [tri_loop].
  - replace m with 0 by lia. by rewrite !Z.add_0_r.
  - destruct (Z.geb_spec (8 * m) 8); [|replace m with 0 by lia; by rewrite !Z.add_0_r].
    destruct (words_spec c1 n1) as (d1 & -> & E1); [done|lia|lia|]. sbind.
    destruct (words_spec c2 n2) as (d2 & -> & E2); [done|lia|lia|]. sbind.
    destruct (words_spec c3 n3) as (d3 & -> & E3); [done|lia|lia|]. sbind. rewrite E1. sbind. rewrite E2. sbind. rewrite E3. sbind.
    replace (8 * m - 8) with (8 * (m - 1)) by lia. rewrite IH by (try apply sub_range; done || lia).
    rewrite !run_sub_app by lia. rewrite <- !Z.add_assoc. by replace (8 + 8 * (m - 1)) with (8 * m) by lia.
Qed.

Lemma MERGE_CRC_spec cache c n1 o k n next1 next2 : cache_good cache -> word64 c -> 0 <= o -> 0 <= k -> 0 <= n < 2 ^ 64 ->
  o + k + n <= zlen buf -> next2 - next1 = n -> n1 = o + k ->
  exists cache', MERGE_CRC vec cache (crc_run c (sub o k)) (crc_run 0 (sub n1 n)) next1 next2 = Some (cache', crc_run c (sub o (k + n))) /\ cache_good cache'.
Proof using Hbuf.
  intros Hg Hc Ho Hk Hn Hl Hd ->. unfold MERGE_CRC. rewrite Hd. destruct (decide (n = 0)) as [->|].
  - exists cache. by rewrite Z.add_0_r.
  - destruct (crc64_combine_spec vec cache (crc_run c (sub o k)) (crc_run 0 (sub (o + k) n)) n Hg) as (cache' & -> & Hg'); [by apply sub_range|lia|].
    exists cache'. split; [|done]. rewrite sub_app, crc_run_combine by (lia || apply sub_bytes). by rewrite length_sub by lia.
Qed.

Lemma land_len_mask x : 0 <= x < 2 ^ 63 -> x &&& CRC64_LEN_MASK = 8 * (x / 8).
Proof using.
  intros Hx. replace (8 * (x / 8)) with ((x >>> 3) <<< 3) by (rewrite Z.shiftl_mul_pow2, shiftr_div by lia; change (2 ^ 3) with 8; lia).
  change CRC64_LEN_MASK with (Z.ones 60 <<< 3). apply Z.bits_inj'. intros i Hi. rewrite Z.land_spec, !Z.shiftl_spec by lia.
  destruct (Z.ltb_spec i 3); [by rewrite !(Z.testbit_neg_r _ (i - 3)), andb_false_r by lia|].
  rewrite Z.shiftr_spec, Z.sub_add by lia. destruct (Z.ltb_spec i 63); [by rewrite Z.ones_spec_low, andb_true_r by lia|].
  rewrite <- (wrap_small 63 x Hx), wrap_bits by lia. by rewrite (proj2 (Z.ltb_ge i 63)) by lia.
Qed.

Lemma CRC64_SPLIT_eq next1 len div : 0 < div -> 0 <= len < 2 ^ 63 -> CRC64_SPLIT next1 len div = next1 + 8 * (len / div / 8).
Proof using. intros Hd Hl. unfold CRC64_SPLIT. by rewrite land_len_mask by (split; [apply Z.div_pos|apply Z.div_lt_upper_bound]; nia). Qed.

Lemma parallel_spec dual tri cache c next len : cache_good cache -> word64 c -> 0 <= next -> 0 <= len < 2 ^ 63 -> next + len <= zlen buf ->
  exists cache' k, 0 <= k <= len /\ cache_good cache' /\
    parallel false vec t buf dual tri cache c next len = Some (cache', crc_run c (sub next k), next + k, len - k).
Proof using Ht Hbuf.
  intros Hg Hc H0 Hl Hn. assert (W0 : word64 0) by done. unfold parallel. destruct (len >? tri).
  - rewrite CRC64_SPLIT_eq by lia. set (m := len / 3 / 8). assert (Hm : 0 <= m /\ 24 * m <= len) by (unfold m; div_lia).
    replace (next + 8 * m - next) with (8 * m) by lia. rewrite tri_loop_spec by (done || lia). sbind.
    destruct (MERGE_CRC_spec cache c (next + 8 * m) next (8 * m) (8 * m) (next + 8 * m) (next + 8 * m + 8 * m))
      as (cache1 & -> & Hg1); [done|done|lia..|]. sbind.
    destruct (MERGE_CRC_spec cache1 c (next + 8 * m + 8 * m) next (8 * m + 8 * m) (8 * m) (next + 8 * m) (next + 8 * m + 8 * m))
      as (cache2 & -> & Hg2); [done|done|lia..|]. sbind.
    exists cache2, (8 * m + 8 * m + 8 * m). split; [lia|]. split; [done|]. rewrite <- !Z.add_assoc. do 2 f_equal. lia.
  - destruct (len >? dual); [|exists cache, 0; rewrite Z.add_0_r, Z.sub_0_r; split; [lia|done]].
    rewrite CRC64_SPLIT_eq by lia. set (m := len / 2 / 8). assert (Hm : 0 <= m /\ 16 * m <= len) by (unfold m; div_lia).
    replace (next + 8 * m - next) with (8 * m) by lia. rewrite dual_loop_spec by (done || lia). sbind.
    destruct (MERGE_CRC_spec cache c (next + 8 * m) next (8 * m) (8 * m) (next + 8 * m) (next + 8 * m + 8 * m))
      as (cache1 & -> & Hg1); [done|done|lia..|]. sbind.
    exists cache1, (8 * m + 8 * m). split; [lia|]. split; [done|]. rewrite <- !Z.add_assoc. do 2 f_equal. lia.
Qed.
End parts.

(** ** The whole function *)

Lemma crcspeed64little_spec vec base dual tri cache c : table_ok id t -> cache_good cache -> word64 c -> zlen buf < 2 ^ 63 ->
  exists cache', crcspeed64little false vec base t buf dual tri cache c (zlen buf) = Some (cache', crc_run c buf) /\ cache_good cache'.
Proof using Hbuf.
  intros Ht Hg Hc Hl. unfold crcspeed64little. pose proof (zlen_nonneg buf) as H0.
  assert (Hb : forall c next b, word64 c -> mget buf next = Some b -> little_byte t buf (id c) next = Some (id (crc_step c b)))
    by (intros; by apply little_byte_spec).
  destruct (dual <? 1).
  - pose proof (tail_loop_spec id _ Hb (Z.to_nat (zlen buf)) c 0 (zlen buf)) as E. rewrite sub_all in E. cbn [id] in E.
    rewrite E by (done || lia). sbind. by exists cache.
  - destruct (align_loop_spec id base _ Hb (Z.to_nat (zlen buf)) c 0 (zlen buf)) as (k1 & Hk1 & E1); [done|lia|lia|lia|].
    cbn [id] in E1. rewrite E1. sbind.
    destruct (parallel_spec vec Ht dual tri cache (crc_run c (sub 0 k1)) (0 + k1) (zlen buf - k1)) as (cache' & k2 & Hk2 & Hg' & ->);
      [done|by apply sub_range|lia|lia|lia|]. sbind.
    destruct (single_loop_spec id (fun c1 n => c1 ← DO_8_1 false buf c1 n; DO_8_2 t c1)
      (fun c n Hc Hn Hl => word_spec c n Ht Hc Hn Hl) (Z.to_nat (zlen buf)) (crc_run (crc_run c (sub 0 k1)) (sub (0 + k1) k2)) (0 + k1 + k2) (zlen buf - k1 - k2))
      as (k3 & Hk3 & E3); [by do 2 apply sub_range|lia|lia|lia|]. cbn [id] in E3. rewrite E3. sbind.
    pose proof (tail_loop_spec id _ Hb (Z.to_nat (zlen buf)) (crc_run (crc_run (crc_run c (sub 0 k1)) (sub (0 + k1) k2)) (sub (0 + k1 + k2) k3))
      (0 + k1 + k2 + k3) (zlen buf - k1 - k2 - k3)) as E4. cbn [id] in E4. rewrite E4 by (try do 3 apply sub_range; done || lia). sbind.
    exists cache'. split; [|done]. rewrite (run_sub_chain c 0 k1 k2), (run_sub_chain c 0 (k1 + k2) k3), (run_sub_chain c 0 (k1 + k2 + k3)) by lia.
    replace (k1 + k2 + k3 + (zlen buf - k1 - k2 - k3)) with (zlen buf) by lia. by rewrite sub_all.
Qed.

Lemma crcspeed64big_spec base c : table_ok rev8 t -> word64 c -> crcspeed64big true base t buf c (zlen buf) = Some (crc_run c buf).
Proof using Hbuf.
  intros Ht Hc. unfold crcspeed64big. pose proof (zlen_nonneg buf) as H0.
  assert (Hb : forall c next b, word64 c -> mget buf next = Some b -> big_byte t buf (rev8 c) next = Some (rev8 (crc_step c b)))
    by (intros; by apply big_byte_spec).
  destruct (align_loop_spec rev8 base _ Hb (Z.to_nat (zlen buf)) c 0 (zlen buf)) as (k1 & Hk1 & ->); [done|lia|lia|lia|]. sbind.
  destruct (single_loop_spec rev8 _ (fun c n Hc Hn Hl => big_word_spec c n Ht Hc Hn Hl) (Z.to_nat (zlen buf)) (crc_run c (sub 0 k1)) (0 + k1) (zlen buf - k1))
    as (k2 & Hk2 & ->); [by apply sub_range|lia|lia|lia|]. sbind.
  rewrite (tail_loop_spec rev8 _ Hb) by (try do 2 apply sub_range; done || lia). sbind.
  rewrite rev8_rev8 by (by do 3 apply sub_range). rewrite (run_sub_chain c 0 k1 k2), (run_sub_chain c 0 (k1 + k2)) by lia.
  replace (k1 + k2 + (zlen buf - k1 - k2)) with (zlen buf) by lia. by rewrite sub_all.
Qed.
End machine.

(** The globals after [crc64_init], whatever has been computed since. *)
Definition crc_ready (big : bool) (s : crc_state) : Prop := table_ok (if big then rev8 else id) (cs_table s) /\ cache_good (cs_cache s).

Lemma crc64_spec big vec base s c buf : crc_ready big s -> bytes_ok buf -> zlen buf < 2 ^ 63 -> word64 c ->
  exists s', crc64 big vec base s c buf = Some (s', crc_run c buf) /\ crc_ready big s'.
Proof.
  intros [Ht Hg] Hb Hl Hc. unfold crc64, crcspeed64native. destruct big.
  - rewrite crcspeed64big_spec by done. sbind. eexists. split; [done|]. by split.
  - destruct (crcspeed64little_spec (cs_table s) buf Hb vec base (cs_dual s) (cs_tri s) (cs_cache s) c Ht Hg Hc Hl) as (cache' & -> & Hg').
    sbind. eexists. split; [done|]. by split.
Qed.

Lemma crc_ready_init big dual tri : exists t, crc64_init big crc64_table = Some t /\ crc_ready big (CrcState t combine_cache0 dual tri).
Proof.
  destruct (crc64_init_spec big crc64_table) as (t & E & Ht).
  - split; [done|]. by apply Forall_replicate.
  - exists t. split; [done|]. split; [done|]. right. split; [|done]. split; [done|]. by apply Forall_replicate.
Qed.
