(* ===== verification/Slots.v ===== *)
(** * Slots and dumps: crc16.c, cluster.h, cluster.c

    The slot of a key in a cluster, which is a CRC-16 of the key or of the part of
    it between braces, the slot of all the keys a pattern can match, and the footer
    of a dump of a key with its version and CRC-64. *)
From S2P Require Import Prelude Crc.

(** ** CRC-16 *)

Definition crc16tab : list Z :=
  [0x0000; 0x1021; 0x2042; 0x3063; 0x4084; 0x50a5; 0x60c6; 0x70e7; 0x8108; 0x9129; 0xa14a; 0xb16b; 0xc18c; 0xd1ad; 0xe1ce; 0xf1ef;
   0x1231; 0x0210; 0x3273; 0x2252; 0x52b5; 0x4294; 0x72f7; 0x62d6; 0x9339; 0x8318; 0xb37b; 0xa35a; 0xd3bd; 0xc39c; 0xf3ff; 0xe3de;
   0x2462; 0x3443; 0x0420; 0x1401; 0x64e6; 0x74c7; 0x44a4; 0x5485; 0xa56a; 0xb54b; 0x8528; 0x9509; 0xe5ee; 0xf5cf; 0xc5ac; 0xd58d;
   0x3653; 0x2672; 0x1611; 0x0630; 0x76d7; 0x66f6; 0x5695; 0x46b4; 0xb75b; 0xa77a; 0x9719; 0x8738; 0xf7df; 0xe7fe; 0xd79d; 0xc7bc;
   0x48c4; 0x58e5; 0x6886; 0x78a7; 0x0840; 0x1861; 0x2802; 0x3823; 0xc9cc; 0xd9ed; 0xe98e; 0xf9af; 0x8948; 0x9969; 0xa90a; 0xb92b;
   0x5af5; 0x4ad4; 0x7ab7; 0x6a96; 0x1a71; 0x0a50; 0x3a33; 0x2a12; 0xdbfd; 0xcbdc; 0xfbbf; 0xeb9e; 0x9b79; 0x8b58; 0xbb3b; 0xab1a;
   0x6ca6; 0x7c87; 0x4ce4; 0x5cc5; 0x2c22; 0x3c03; 0x0c60; 0x1c41; 0xedae; 0xfd8f; 0xcdec; 0xddcd; 0xad2a; 0xbd0b; 0x8d68; 0x9d49;
   0x7e97; 0x6eb6; 0x5ed5; 0x4ef4; 0x3e13; 0x2e32; 0x1e51; 0x0e70; 0xff9f; 0xefbe; 0xdfdd; 0xcffc; 0xbf1b; 0xaf3a; 0x9f59; 0x8f78;
   0x9188; 0x81a9; 0xb1ca; 0xa1eb; 0xd10c; 0xc12d; 0xf14e; 0xe16f; 0x1080; 0x00a1; 0x30c2; 0x20e3; 0x5004; 0x4025; 0x7046; 0x6067;
   0x83b9; 0x9398; 0xa3fb; 0xb3da; 0xc33d; 0xd31c; 0xe37f; 0xf35e; 0x02b1; 0x1290; 0x22f3; 0x32d2; 0x4235; 0x5214; 0x6277; 0x7256;
   0xb5ea; 0xa5cb; 0x95a8; 0x8589; 0xf56e; 0xe54f; 0xd52c; 0xc50d; 0x34e2; 0x24c3; 0x14a0; 0x0481; 0x7466; 0x6447; 0x5424; 0x4405;
   0xa7db; 0xb7fa; 0x8799; 0x97b8; 0xe75f; 0xf77e; 0xc71d; 0xd73c; 0x26d3; 0x36f2; 0x0691; 0x16b0; 0x6657; 0x7676; 0x4615; 0x5634;
   0xd94c; 0xc96d; 0xf90e; 0xe92f; 0x99c8; 0x89e9; 0xb98a; 0xa9ab; 0x5844; 0x4865; 0x7806; 0x6827; 0x18c0; 0x08e1; 0x3882; 0x28a3;
   0xcb7d; 0xdb5c; 0xeb3f; 0xfb1e; 0x8bf9; 0x9bd8; 0xabbb; 0xbb9a; 0x4a75; 0x5a54; 0x6a37; 0x7a16; 0x0af1; 0x1ad0; 0x2ab3; 0x3a92;
   0xfd2e; 0xed0f; 0xdd6c; 0xcd4d; 0xbdaa; 0xad8b; 0x9de8; 0x8dc9; 0x7c26; 0x6c07; 0x5c64; 0x4c45; 0x3ca2; 0x2c83; 0x1ce0; 0x0cc1;
   0xef1f; 0xff3e; 0xcf5d; 0xdf7c; 0xaf9b; 0xbfba; 0x8fd9; 0x9ff8; 0x6e17; 0x7e36; 0x4e55; 0x5e74; 0x2e93; 0x3eb2; 0x0ed1; 0x1ef0].

(** [for (counter = 0; counter < len; counter++)] *)
Fixpoint crc16_loop (buf : list Z) (crc : Z) : option Z :=
  match buf with
  | [] => Some crc
  | b :: buf =>
      x ← mget crc16tab (Z.lxor (crc >>> 8) (i8 b) &&& 0x00FF);
      crc16_loop buf (u16 (Z.lxor (crc <<< 8) x))
  end.
Definition crc16 (buf : list Z) : option Z := crc16_loop buf 0.

(** ** Slots *)

Definition chr_open : Z := 123.
Definition chr_close : Z := 125.

(** [for (; s < keylen; s++) if (key[s] == c) break;] *)
Fixpoint find_char (fuel : nat) (c : Z) (key : list Z) (s : Z) : option Z :=
  if s <? zlen key then
    match fuel with
    | O => None
    | S fuel => k ← mget key s; if k =? c then Some s else find_char fuel c key (s + 1)
    end
  else Some s.

Definition keyHashSlot (key : list Z) : option Z :=
  let keylen := zlen key in
  let whole := h ← crc16 key; Some (h &&& 0x3FFF) in
  s ← find_char (length key) chr_open key 0;
  if s =? keylen then whole
  else
    e ← find_char (length key) chr_close key (s + 1);
    if (e =? keylen) || (e =? s + 1) then whole
    else tag ← mread key (s + 1) (e - s - 1); h ← crc16 tag; Some (h &&& 0x3FFF).

(** [for (int i = 0; i < length; i++)]: [Some] of a value returned, or [None] when
    the loop ends. *)
Fixpoint pattern_loop (fuel : nat) (pattern : list Z) (i s : Z) : option (option Z) :=
  if i <? zlen pattern then
    match fuel with
    | O => None
    | S fuel =>
        p ← mget pattern i;
        if (p =? 42) || (p =? 63) || (p =? 91) then Some (Some (-1))
        else if p =? 92 then Some (Some (-1))
        else if (s =? -1) && (p =? chr_open) then pattern_loop fuel pattern (i + 1) i
        else if (s >=? 0) && (p =? chr_close) && (i =? s + 1) then pattern_loop fuel pattern (i + 1) (-2)
        else if (s >=? 0) && (p =? chr_close) then
          tag ← mread pattern (s + 1) (i - s - 1); h ← crc16 tag; Some (Some (h &&& 0x3FFF))
        else pattern_loop fuel pattern (i + 1) s
    end
  else Some None.
Definition patternHashSlot (pattern : list Z) : option Z :=
  r ← pattern_loop (length pattern) pattern 0 (-1);
  match r with
  | Some v => Some v
  | None => h ← crc16 pattern; Some (h &&& 0x3FFF)
  end.

(** ** Dumps *)

Definition RDB_VERSION : Z := 12.

(** The payload from the bytes of the serialized object; the buffer is at the
    address [base] when its checksum is computed. *)
Definition createDumpPayload (big vec : bool) (base : Z) (s : crc_state) (body : list Z) : option (crc_state * list Z) :=
  let payload := body ++ [RDB_VERSION &&& 0xff; (RDB_VERSION >>> 8) &&& 0xff] in
  '(s, crc) ← crc64 big vec base s 0 payload;
  footer ← memrev64ifbe big (word_bytes big crc);
  Some (s, payload ++ footer).

(** The result of the function, [true] for [C_OK], and the version it stores. *)
Definition verifyDumpPayload (big vec : bool) (base : Z) (skip_checksum_validation : bool) (s : crc_state) (p : list Z)
    : option (crc_state * bool * option Z) :=
  let len := zlen p in
  if len <? 10 then Some (s, false, None)
  else
    let footer := len - 10 in
    b1 ← mget p (footer + 1);
    b0 ← mget p footer;
    let rdbver := u16 ((b1 <<< 8) ||| b0) in
    if rdbver >? RDB_VERSION then Some (s, false, Some rdbver)
    else if skip_checksum_validation then Some (s, true, Some rdbver)
    else
      body ← mread p 0 (len - 8);
      '(s, crc) ← crc64 big vec base s 0 body;
      c ← memrev64ifbe big (word_bytes big crc);
      f ← mread p (footer + 2) 8;
      Some (s, bool_decide (c = f), Some rdbver).
