(* ===== verification/SlotsSpec.v ===== *)
(** * Slots and dumps: what the functions compute *)
From S2P Require Import Prelude Glob BitsSpec Crc CrcSpec CrcTables CrcCombine CrcSpeed Slots.

(** ** CRC-16 *)

(** The register shifted by one bit, with the polynomial x^16 + x^12 + x^5 + 1. *)
Definition step16 (c : Z) : Z := Z.lxor (u16 (c <<< 1)) (if Z.testbit c 15 then 0x1021 else 0).
Definition steps16 (n : nat) (c : Z) : Z := Nat.iter n step16 c.
(** The CRC-16 bit by bit: each byte is added to the high bits of the register. *)
Definition crc16_ref (bs : list Z) : Z := foldl (fun c b => steps16 8 (Z.lxor c (b <<< 8))) 0 bs.

Lemma step16_linear : linear step16.
Proof.
  intros a b. unfold step16. rewrite Z.shiftl_lxor, wrap_lxor, Z.lxor_spec, lxor_swap by lia. f_equal.
  destruct (Z.testbit a 15), (Z.testbit b 15); cbn [xorb]; by rewrite ?Z.lxor_0_r, ?Z.lxor_0_l, ?Z.lxor_nilpotent.
Qed.

Lemma steps16_linear n : linear (steps16 n).
Proof.
  induction n as [|n IH]; intros a b; [done|]. change (steps16 (S n)) with (fun c => step16 (steps16 n c)). cbv beta. rewrite IH. apply step16_linear.
Qed.

Lemma crc16tab_spec b : is_byte b -> mget crc16tab b = Some (steps16 8 (b <<< 8)).
Proof.
  intros Hb. pose proof (byte_forall (fun b => bool_decide (mget crc16tab b = Some (steps16 8 (b <<< 8)))) b ltac:(by vm_compute) Hb) as E.
  by apply bool_decide_eq_true in E.
Qed.

Lemma steps16_low b : is_byte b -> steps16 8 b = b <<< 8.
Proof.
  intros Hb. pose proof (byte_forall (fun b => steps16 8 b =? b <<< 8) b ltac:(by vm_compute) Hb) as E. by apply Z.eqb_eq.
Qed.

Lemma i8_land b x : is_byte b -> Z.lxor x (i8 b) &&& 255 = Z.lxor (x &&& 255) b.
Proof.
  intros Hb. rewrite lxor_land. f_equal.
  pose proof (byte_forall (fun b => i8 b &&& 255 =? b) b ltac:(by vm_compute) Hb) as E. by apply Z.eqb_eq.
Qed.

Lemma crc16_loop_spec bs c : bytes_ok bs -> in_unsigned 16 c ->
  crc16_loop bs c = Some (foldl (fun c b => steps16 8 (Z.lxor c (b <<< 8))) c bs).
Proof.
  intros Hb. revert c. induction Hb as [|b bs Hb _ IH]; intros c Hc; [done|]. cbn [crc16_loop foldl].
  assert (H8 : is_byte (c >>> 8)) by (unfold in_unsigned in Hc; unfold is_byte; rewrite shiftr_8; div_lia).
  assert (Hx : is_byte (Z.lxor (c >>> 8) b)) by (by apply (lxor_range 8)).
  rewrite (i8_land b), (byte_land (c >>> 8)), crc16tab_spec by done. sbind.
  assert (E : u16 (Z.lxor (c <<< 8) (steps16 8 (Z.lxor (c >>> 8) b <<< 8))) = steps16 8 (Z.lxor c (b <<< 8))).
  { unfold in_unsigned in Hc. rewrite (low_high 8 c) at 3 by lia. rewrite Z.lxor_assoc, <- Z.shiftl_lxor, (steps16_linear 8).
    change (2 ^ 8 - 1) with 255. rewrite (steps16_low (c &&& 255)) by apply land_is_byte. rewrite wrap_lxor by lia. f_equal.
    - rewrite Z.shiftl_mul_pow2, Z.shiftl_mul_pow2, land_255 by lia. unfold wrap. change (2 ^ 16) with (256 * 2 ^ 8). by rewrite Z.mul_mod_distr_r by lia.
    - apply wrap_small. pose proof (byte_forall (fun b => (0 <=? steps16 8 (b <<< 8)) && (steps16 8 (b <<< 8) <? 2 ^ 16)) _ ltac:(by vm_compute) Hx) as E.
      cbv beta in E. lia. }
  rewrite IH by (by apply wrap_range). by rewrite E.
Qed.

Lemma crc16_spec bs : bytes_ok bs -> crc16 bs = Some (crc16_ref bs).
Proof. intros Hb. by apply crc16_loop_spec. Qed.

(** ** Slots *)

Lemma find_char_none (fuel : nat) c key a b : key = a ++ b -> (length b <= fuel)%nat -> c ∉ b -> find_char fuel c key (zlen a) = Some (zlen key).
Proof.
  revert a b. induction fuel as [|fuel IH]; intros a b -> Hf Hc; destruct b as [|x b]; cbn [find_char length] in *; try lia.
  - rewrite app_nil_r. by rewrite Z.ltb_irrefl.
  - rewrite app_nil_r. by rewrite Z.ltb_irrefl.
  - apply not_elem_of_cons in Hc as [Hx Hc]. rewrite (proj2 (Z.ltb_lt _ _)) by zlen_solve. rewrite (mget_app a) by done. sbind.
    rewrite (proj2 (Z.eqb_neq x c)) by done. replace (zlen a + 1) with (zlen (a ++ [x])) by zlen_solve.
    apply (IH (a ++ [x]) b); [by rewrite <- app_assoc|lia|done].
Qed.

Lemma find_char_some (fuel : nat) c key a b d : key = a ++ b ++ c :: d -> (length b < fuel)%nat -> c ∉ b -> find_char fuel c key (zlen a) = Some (zlen a + zlen b).
Proof.
  revert a b. induction fuel as [|fuel IH]; intros a b -> Hf Hc; [lia|]. cbn [find_char]. rewrite (proj2 (Z.ltb_lt _ _)) by zlen_solve.
  destruct b as [|x b]; cbn [app].
  - rewrite (mget_app a) by done. sbind. rewrite Z.eqb_refl. by rewrite zlen_nil, Z.add_0_r.
  - apply not_elem_of_cons in Hc as [Hx Hc]. rewrite (mget_app a) by done. sbind. cbn [length] in Hf.
    rewrite (proj2 (Z.eqb_neq x c)) by done. replace (zlen a + 1) with (zlen (a ++ [x])) by zlen_solve.
    pose proof (IH (a ++ [x]) b ltac:(by rewrite <- app_assoc) ltac:(lia) Hc) as E. cbn [app] in E. rewrite E. f_equal. zlen_solve.
Qed.

Lemma find_none c key a b o : o = zlen a -> key = a ++ b -> c ∉ b -> find_char (length key) c key o = Some (zlen key).
Proof. intros -> -> Hc. apply (find_char_none _ _ _ a b); [done|rewrite length_app; lia|done]. Qed.

Lemma find_some c key a b d o : o = zlen a -> key = a ++ b ++ c :: d -> c ∉ b -> find_char (length key) c key o = Some (zlen a + zlen b).
Proof. intros -> -> Hc. apply (find_char_some _ _ _ a b d); [done|rewrite !length_app; cbn; lia|done]. Qed.

(** The part of a key that is hashed: between the first opening brace and the
    first closing one after it, if that is not empty. *)
Inductive hashed : list Z -> list Z -> Prop :=
  | hashed_no_open key : chr_open ∉ key -> hashed key key
  | hashed_no_close a t : chr_open ∉ a -> chr_close ∉ t -> hashed (a ++ chr_open :: t) (a ++ chr_open :: t)
  | hashed_empty a d : chr_open ∉ a -> hashed (a ++ chr_open :: chr_close :: d) (a ++ chr_open :: chr_close :: d)
  | hashed_tag a t d : chr_open ∉ a -> chr_close ∉ t -> t <> [] -> hashed (a ++ chr_open :: t ++ chr_close :: d) t.

Lemma split_first (c : Z) l : c ∈ l -> exists a b, l = a ++ c :: b /\ c ∉ a.
Proof.
  intros H. apply list_elem_of_split in H as (a & b & ->). revert b. induction a as [|x a IH]; intros b; [exists [], b; by split; [|apply not_elem_of_nil]|].
  destruct (decide (x = c)) as [->|Hx]; [exists [], (a ++ c :: b); by split; [|apply not_elem_of_nil]|].
  destruct (IH b) as (a' & b' & E & Hn). exists (x :: a'), b'. split; [by cbn; rewrite <- E|]. by apply not_elem_of_cons.
Qed.

(** Every key has exactly one such part. *)
Lemma hashed_total key : exists t, hashed key t.
Proof.
  destruct (decide (chr_open ∈ key)) as [H|H]; [|eexists; by apply hashed_no_open].
  apply split_first in H as (a & b & -> & Ha). destruct (decide (chr_close ∈ b)) as [H|H]; [|eexists; by apply hashed_no_close].
  apply split_first in H as (t & d & -> & Ht). destruct t as [|x t]; [eexists; by apply hashed_empty|]. eexists. by apply hashed_tag.
Qed.

Lemma keyHashSlot_spec key t : bytes_ok key -> hashed key t -> keyHashSlot key = Some (crc16_ref t &&& 0x3FFF).
Proof.
  intros Hb H. unfold keyHashSlot. destruct H as [key Hk|a t Ha Ht|a d Ha|a t d Ha Ht Hne].
  - rewrite (find_none chr_open key [] key) by done. sbind. by rewrite Z.eqb_refl, crc16_spec.
  - rewrite (find_some chr_open _ [] a t) by done. sbind. rewrite (proj2 (Z.eqb_neq _ _)) by zlen_solve.
    rewrite (find_none chr_close _ (a ++ [chr_open]) t) by (zlen_solve || (by rewrite <- app_assoc) || done). sbind.
    by rewrite Z.eqb_refl, crc16_spec.
  - rewrite (find_some chr_open _ [] a (chr_close :: d)) by done. sbind. rewrite (proj2 (Z.eqb_neq _ _)) by zlen_solve.
    rewrite (find_some chr_close _ (a ++ [chr_open]) [] d) by (zlen_solve || (by rewrite <- app_assoc) || apply not_elem_of_nil). sbind.
    rewrite (proj2 (Z.eqb_eq (zlen (a ++ [chr_open]) + _) (zlen [] + zlen a + 1))) by zlen_solve. rewrite orb_true_r. by rewrite crc16_spec.
  - rewrite (find_some chr_open _ [] a (t ++ chr_close :: d)) by done. sbind. rewrite (proj2 (Z.eqb_neq _ _)) by zlen_solve.
    rewrite (find_some chr_close _ (a ++ [chr_open]) t d) by (zlen_solve || (by rewrite <- app_assoc) || done). sbind.
    assert (0 < zlen t) by (destruct t; [done|zlen_solve]).
    rewrite (proj2 (Z.eqb_neq _ (zlen (_ ++ _ :: _)))), (proj2 (Z.eqb_neq _ (zlen [] + zlen a + 1))) by zlen_solve. cbn [orb].
    replace (a ++ chr_open :: t ++ chr_close :: d) with ((a ++ [chr_open]) ++ t ++ chr_close :: d) in * by (by rewrite <- app_assoc).
    rewrite mread_app by zlen_solve. sbind. apply Forall_app in Hb as [_ Hb]. apply Forall_app in Hb as [Hb _]. by rewrite crc16_spec.
Qed.

(** ** Slots of patterns *)

(** A character that stands for itself in a pattern. *)
Definition literal (c : Z) : bool := negb ((c =? 42) || (c =? 63) || (c =? 91) || (c =? 92)).

Lemma literal_token c l : literal c = true -> next_token c l = (GLit c, l).
Proof.
  unfold literal, next_token. change chr_star with 42. change chr_quest with 63. change chr_lbrack with 91. change chr_bslash with 92.
  destruct (c =? 42), (c =? 63), (c =? 91), (c =? 92); try discriminate. by destruct l.
Qed.

Lemma literal_drop_stars c l : literal c = true -> drop_stars (c :: l) = c :: l.
Proof. unfold literal. cbn [drop_stars]. change chr_star with 42. by destruct (c =? 42). Qed.

(** A string that matches begins with the literal characters of the pattern. *)
Lemma match_literal L R : Forall (fun c => literal c = true) L -> forall fuel nesting s skip sk,
  match_loop fuel false nesting (L ++ R) s skip = Some (true, sk) -> exists s', s = L ++ s' /\ (R = [] -> s' = []).
Proof.
  induction 1 as [|c L Hc HL IH]; intros fuel nesting s skip sk H.
  - exists s. split; [done|]. intros ->. destruct fuel as [|fuel]; [done|]. cbn in H. by destruct s.
  - destruct fuel as [|fuel]; [done|]. cbn [app] in H. destruct s as [|x s]; [done|].
    rewrite match_loop_token in H by (by rewrite literal_token). rewrite literal_token in H by done. cbn [fst snd tok_match char_eq] in H.
    destruct (Z.eqb_spec c x) as [->|]; [|done]. unfold match_next in H. destruct s as [|y s].
    + injection H as H _. apply bool_decide_eq_true in H. destruct HL as [|c' L Hc' HL]; [by exists []|].
      cbn [app] in H. by rewrite literal_drop_stars in H.
    + apply IH in H as (s' & -> & H). by exists s'.
Qed.

Lemma stringmatchlen_literal L R s : Forall (fun c => literal c = true) L -> stringmatchlen (L ++ R) s false = Some true ->
  exists s', s = L ++ s' /\ (R = [] -> s' = []).
Proof.
  intros HL H. unfold stringmatchlen, stringmatchlen_impl in H. cbn [Z.gtb Z.compare] in H.
  destruct (match_loop _ _ _ _ _ _) as [[r sk]|] eqn:E; [|done]. cbn in H. injection H as ->. by apply match_literal in E.
Qed.

(** What the variable [s] of the loop says of the characters read. *)
Definition braces (pre : list Z) (s : Z) : Prop :=
  (s = -1 /\ chr_open ∉ pre) \/
  (exists a t, pre = a ++ chr_open :: t /\ chr_open ∉ a /\ chr_close ∉ t /\ s = zlen a) \/
  (exists a d, pre = a ++ chr_open :: chr_close :: d /\ chr_open ∉ a /\ s = -2).

Lemma braces_hashed pre s : braces pre s -> hashed pre pre.
Proof.
  intros [[_ H]|[(a & t & -> & H1 & H2 & _)|(a & d & -> & H & _)]]; [by apply hashed_no_open|by apply hashed_no_close|by apply hashed_empty].
Qed.

Lemma not_in_snoc (c x : Z) l : c ∉ l -> x <> c -> c ∉ l ++ [x].
Proof. intros H1 H2. rewrite not_elem_of_app, list_elem_of_singleton. by split; [|congruence]. Qed.

(** A character that leaves [s] as it is. *)
Lemma braces_snoc pre s p : braces pre s -> (s =? -1) && (p =? chr_open) = false -> (s >=? 0) && (p =? chr_close) = false -> braces (pre ++ [p]) s.
Proof.
  intros [[-> H]|[(a & t & -> & H1 & H2 & ->)|(a & d & -> & H & ->)]] E1 E2.
  - left. split; [done|]. apply not_in_snoc; [done|]. intros ->. by rewrite Z.eqb_refl in E1.
  - right. left. exists a, (t ++ [p]). rewrite <- app_assoc. split; [done|]. split; [done|]. split; [|done].
    apply not_in_snoc; [done|]. intros ->. pose proof (zlen_nonneg a). by rewrite Z.eqb_refl, (proj2 (Z.geb_le _ _)) in E2.
  - right. right. exists a, (d ++ [p]). by rewrite <- app_assoc.
Qed.

Definition pattern_result (pattern : list Z) (r : option Z) : Prop :=
  match r with
  | None => Forall (fun c => literal c = true) pattern /\ hashed pattern pattern
  | Some v => v = -1 \/ exists L R t, pattern = L ++ R /\ Forall (fun c => literal c = true) L /\ (forall d, hashed (L ++ d) t) /\ v = crc16_ref t &&& 0x3FFF
  end.

(** The return at the brace that closes a tag. *)
Lemma close_result pattern a t post : bytes_ok pattern -> pattern = (a ++ chr_open :: t) ++ chr_close :: post ->
  Forall (fun c => literal c = true) (a ++ chr_open :: t) -> chr_open ∉ a -> chr_close ∉ t -> t <> [] ->
  exists r, (tag ← mread pattern (zlen a + 1) (zlen (a ++ chr_open :: t) - zlen a - 1); h ← crc16 tag; Some (Some (h &&& 0x3FFF))) = Some r /\ pattern_result pattern r.
Proof.
  intros Hok E Hl Ha Ht Hne. assert (E' : pattern = (a ++ [chr_open]) ++ t ++ chr_close :: post) by (by rewrite E, <- !app_assoc).
  assert (Em : mread pattern (zlen a + 1) (zlen (a ++ chr_open :: t) - zlen a - 1) = Some t) by (rewrite E'; apply mread_app; zlen_solve).
  rewrite Em. sbind.
  assert (Hbt : bytes_ok t) by (rewrite E' in Hok; apply Forall_app in Hok as [_ Hok]; by apply Forall_app in Hok as [Hok _]).
  rewrite crc16_spec by done. sbind. eexists. split; [done|]. right. exists ((a ++ chr_open :: t) ++ [chr_close]), post, t.
  split; [by rewrite E, <- !app_assoc|]. split; [apply Forall_app; by split; [|constructor]|].
  split; [|done]. intros d. rewrite <- !app_assoc. cbn [app]. by apply hashed_tag.
Qed.

Lemma pattern_loop_spec (fuel : nat) pattern pre post s : bytes_ok pattern -> pattern = pre ++ post -> (length post <= fuel)%nat ->
  Forall (fun c => literal c = true) pre -> braces pre s ->
  exists r, pattern_loop fuel pattern (zlen pre) s = Some r /\ pattern_result pattern r.
Proof.
  intros Hok. revert pre post s. induction fuel as [|fuel IH]; intros pre post s E Hf Hl Hb; destruct post as [|p post]; cbn [length] in Hf; try lia.
  1,2: rewrite app_nil_r in E; subst pre; exists None; cbn [pattern_loop]; rewrite Z.ltb_irrefl; split; [done|]; split; [done|by apply braces_hashed in Hb].
  assert (Hi : (zlen pre <? zlen pattern) = true) by (apply Z.ltb_lt; subst pattern; zlen_solve).
  cbn [pattern_loop]. rewrite Hi, E, (mget_app pre), <- E by done. sbind.
  assert (Hnext : forall s', literal p = true -> braces (pre ++ [p]) s' -> exists r, pattern_loop fuel pattern (zlen pre + 1) s' = Some r /\ pattern_result pattern r).
  { intros s' Hp Hs'. replace (zlen pre + 1) with (zlen (pre ++ [p])) by zlen_solve.
    apply (IH (pre ++ [p]) post); [by rewrite <- app_assoc|lia| |done]. apply Forall_app. by split; [|constructor]. }
  destruct ((p =? 42) || (p =? 63) || (p =? 91)) eqn:E1; [eexists; split; [done|by left]|].
  destruct (p =? 92) eqn:E2; [eexists; split; [done|by left]|].
  assert (Hp : literal p = true) by (unfold literal; by rewrite E1, E2).
  destruct ((s =? -1) && (p =? chr_open)) eqn:E3.
  { apply andb_true_iff in E3 as [->%Z.eqb_eq ->%Z.eqb_eq]. apply Hnext; [done|]. right. left. exists pre, []. split; [done|].
    destruct Hb as [[_ Hb]|[(a & t & _ & _ & _ & Hz)|(a & d & _ & _ & Hz)]]; [|pose proof (zlen_nonneg a); lia|lia].
    split; [done|]. split; [apply not_elem_of_nil|done]. }
  destruct ((s >=? 0) && (p =? chr_close)) eqn:E4; cbn [andb].
  - apply andb_true_iff in E4 as [Hs%Z.geb_le ->%Z.eqb_eq].
    destruct Hb as [[-> _]|[(a & t & -> & Ha & Ht & ->)|(a & d & _ & _ & ->)]]; [lia| |lia].
    destruct (Z.eqb_spec (zlen (a ++ chr_open :: t)) (zlen a + 1)) as [Hz|Hz].
    + apply Hnext; [done|]. right. right. assert (t = []) as -> by (destruct t; [done|autorewrite with zlen in Hz; pose proof (zlen_nonneg t); lia]).
      exists a, []. by rewrite <- app_assoc.
    + apply (close_result pattern a t post); [done..|]. intros ->. autorewrite with zlen in Hz. lia.
  - apply Hnext; [done|]. by apply braces_snoc.
Qed.

Lemma patternHashSlot_spec pattern : bytes_ok pattern -> exists v, patternHashSlot pattern = Some v /\
  (v = -1 \/ exists L R t, pattern = L ++ R /\ Forall (fun c => literal c = true) L /\ (forall d, (R = [] -> d = []) -> hashed (L ++ d) t) /\ v = crc16_ref t &&& 0x3FFF).
Proof.
  intros Hb. unfold patternHashSlot.
  destruct (pattern_loop_spec (length pattern) pattern [] pattern (-1)) as (r & E & Hr); [done|done|done|constructor|left; split; [done|apply not_elem_of_nil]|].
  change (zlen []) with 0 in E. rewrite E. sbind. destruct r as [v|].
  - exists v. split; [done|]. destruct Hr as [Hr|(L & R & t & H1 & H2 & H3 & H4)]; [by left|right]. exists L, R, t. split; [done|]. split; [done|]. split; [|done].
    intros d _. apply H3.
  - destruct Hr as [H1 H2]. rewrite crc16_spec by done. sbind. eexists. split; [done|]. right. exists pattern, [], pattern. rewrite app_nil_r.
    split; [done|]. split; [done|]. split; [|done]. intros d Hd. rewrite (Hd eq_refl). by rewrite app_nil_r.
Qed.
