(* ===== verification/CrcThms.v ===== *)
(** * Checksums, slots and dumps: theorems *)
From S2P Require Import Prelude Glob Crc CrcSpec CrcTables CrcCombine CrcSpeed Slots SlotsSpec.

(** ** The checksum *)

(** A call of [crc64]: the cutoffs at that time, the address of the buffer, the
    initial register and the data. *)
Record crc_call := CrcCall { cc_dual : Z; cc_tri : Z; cc_base : Z; cc_crc : Z; cc_data : list Z }.
Definition call_ok (k : crc_call) : Prop := word64 (cc_crc k) /\ bytes_ok (cc_data k) /\ zlen (cc_data k) < 2 ^ 63.

Fixpoint run_calls (big vec : bool) (s : crc_state) (ks : list crc_call) : option (list Z) :=
  match ks with
  | [] => Some []
  | k :: ks =>
      '(s, r) ← crc64 big vec (cc_base k) (set_crc64_cutoffs s (cc_dual k) (cc_tri k)) (cc_crc k) (cc_data k);
      rs ← run_calls big vec s ks;
      Some (r :: rs)
  end.
(** The same bit by bit; [crc64] takes and returns its register in reversed order,
    [_crc64] only returns it so. *)
Definition bitwise (k : crc_call) : option Z := r ← crc_reflect (cc_crc k) 64; _crc64 r (cc_data k).

Lemma bitwise_spec k : call_ok k -> bitwise k = Some (crc_run (cc_crc k) (cc_data k)).
Proof. intros (Hc & Hb & _). unfold bitwise. rewrite crc_reflect_eq. sbind. by rewrite _crc64_spec, reflect_reflect. Qed.

Lemma run_calls_spec big vec s ks : crc_ready big s -> Forall call_ok ks ->
  run_calls big vec s ks = Some (map (fun k => crc_run (cc_crc k) (cc_data k)) ks) /\ mapM bitwise ks = Some (map (fun k => crc_run (cc_crc k) (cc_data k)) ks).
Proof.
  intros Hs Hk. revert s Hs. induction Hk as [|k ks Hk _ IH]; intros s Hs; [done|]. cbn [run_calls map mapM]. destruct (Hk) as (Hc & Hb & Hl).
  destruct (crc64_spec big vec (cc_base k) (set_crc64_cutoffs s (cc_dual k) (cc_tri k)) (cc_crc k) (cc_data k)) as (s' & -> & Hs'); [done..|]. sbind.
  destruct (IH s' Hs') as [-> E]. sbind. split; [done|]. rewrite bitwise_spec by done. sbind. by rewrite E.
Qed.

(** C13: after the tables have been filled, any sequence of computations of the
    checksum, with any cutoffs, addresses and initial registers, on a little- or
    a big-endian machine, with either product of matrices, returns what the
    definition bit by bit returns: eight bytes at a time, two or three parts at a
    time and their combination change nothing. *)
Theorem crc64_correct big vec dual tri ks : Forall call_ok ks ->
  exists t rs, crc64_init big crc64_table = Some t /\ run_calls big vec (CrcState t combine_cache0 dual tri) ks = Some rs /\ mapM bitwise ks = Some rs.
Proof.
  intros Hk. destruct (crc_ready_init big dual tri) as (t & E & Hs).
  destruct (run_calls_spec big vec _ ks Hs Hk) as [E1 E2]. by exists t, (map (fun k => crc_run (cc_crc k) (cc_data k)) ks).
Qed.

Lemma crc64_correct_witness :
  exists t rs, crc64_init true crc64_table = Some t /\
    run_calls true false (CrcState t combine_cache0 1024 16384) [CrcCall 8 24 3 0 (str "123456789"); CrcCall 1 1 0 77 (replicate 100 200)] = Some rs /\
    mapM bitwise [CrcCall 8 24 3 0 (str "123456789"); CrcCall 1 1 0 77 (replicate 100 200)] = Some rs.
Proof.
  apply crc64_correct. repeat constructor; by vm_compute.
Defined.

(** ** Dumps *)

Lemma memrev64_reverse x : length x = 8%nat -> memrev64 x = Some (reverse x).
Proof. intros H. do 8 (destruct x as [|? x]; [done|]). destruct x; [reflexivity|done]. Qed.

(** On either machine the checksum is stored in little-endian order. *)
Lemma footer_bytes big crc : memrev64ifbe big (word_bytes big crc) = Some (le_enc 8 crc).
Proof. destruct big; cbn [memrev64ifbe word_bytes]; [|done]. rewrite memrev64_reverse; [by rewrite reverse_involutive|by rewrite length_reverse]. Qed.

(** The checksum of a string followed by its checksum is zero. *)
Lemma crc_residue d c : bytes_ok d -> bytes_ok c -> length c = 8%nat -> crc_run 0 (d ++ c) = 0 <-> le_enc 8 (crc_run 0 d) = c.
Proof.
  intros Hd Hc Hl. pose proof (crc_run_range d 0 ltac:(done) Hd) as Hw. rewrite crc_run_app, (crc_run_dec c), Hl by done.
  pose proof (le_dec_range c Hc) as Hr. unfold zlen in Hr. rewrite Hl in Hr. change (2 ^ (8 * Z.of_nat 8)) with (2 ^ 64) in Hr. split; intros H.
  - assert (E : Z.lxor (crc_run 0 d) (le_dec c) = 0).
    { apply (steps_inj (8 * 8)); [by apply lxor_range|done|]. by rewrite H, (linear_0 _ (steps_linear _)). }
    apply Z.lxor_eq in E. rewrite E, <- Hl. by apply le_enc_dec.
  - assert (E : le_dec c = crc_run 0 d) by (rewrite <- H, le_dec_enc; by apply wrap_small).
    by rewrite E, Z.lxor_nilpotent, (linear_0 _ (steps_linear _)).
Qed.

Lemma verify_split (p : list Z) : 10 <= zlen p -> exists d c, p = d ++ c /\ zlen c = 8 /\ zlen d = zlen p - 8.
Proof. intros H. destruct (split_zlen p (zlen p - 8)) as (d & c & E & Hd); [lia|]. exists d, c. split; [done|]. split; [rewrite E, zlen_app in Hd; lia|done]. Qed.

(** The version in the footer. *)
Definition dump_version (p : list Z) : option Z :=
  if zlen p <? 10 then None else b0 ← mget p (zlen p - 10); b1 ← mget p (zlen p - 9); Some (b0 + 256 * b1).
(** The dumps that are accepted. *)
Definition dump_ok (p : list Z) : Prop := (exists v, dump_version p = Some v /\ v <= RDB_VERSION) /\ crc_run 0 p = 0.

Lemma verifyDumpPayload_spec big vec base s p : crc_ready big s -> bytes_ok p -> zlen p < 2 ^ 63 ->
  exists s' ok, verifyDumpPayload big vec base false s p = Some (s', ok, dump_version p) /\ crc_ready big s' /\ (ok = true <-> dump_ok p).
Proof.
  intros Hs Hb Hl. unfold verifyDumpPayload, dump_ok, dump_version. destruct (Z.ltb_spec (zlen p) 10) as [|H10].
  { exists s, false. split; [done|]. split; [done|]. split; [done|]. by intros [(? & ? & _) _]. }
  destruct (mget_in p (zlen p - 10)) as [b0 E0]; [lia|]. destruct (mget_in p (zlen p - 9)) as [b1 E1]; [lia|].
  replace (zlen p - 10 + 1) with (zlen p - 9) by lia. rewrite E1, E0. sbind.
  pose proof (mget_byte _ _ _ Hb E0) as B0. pose proof (mget_byte _ _ _ Hb E1) as B1. unfold is_byte in B0, B1.
  rewrite (shiftl_lor b0 b1 8) by lia. rewrite wrap_small by lia. replace (b0 + b1 * 2 ^ 8) with (b0 + 256 * b1) by lia.
  destruct (Z.gtb_spec (b0 + 256 * b1) RDB_VERSION) as [Hv|Hv].
  { exists s, false. split; [done|]. split; [done|]. split; [done|]. intros [(v & Ev & Hle) _]. simplify_eq. lia. }
  destruct (verify_split p H10) as (d & c & E & Hc & Hd). assert (Hbd : bytes_ok d /\ bytes_ok c) by (rewrite E in Hb; by apply Forall_app in Hb).
  assert (Hm : mread p 0 (zlen p - 8) = Some d) by (rewrite E at 1; rewrite <- Hd; apply (mread_app [] d c); done).
  assert (Hf : mread p (zlen p - 10 + 2) 8 = Some c) by (rewrite E at 1; rewrite <- (app_nil_r (d ++ c)), <- app_assoc; apply (mread_app d c []); lia).
  rewrite Hm. sbind. destruct (crc64_spec big vec base s 0 d Hs (proj1 Hbd)) as (s' & -> & Hs'); [lia|done|]. sbind.
  rewrite footer_bytes. sbind. rewrite Hf. sbind. do 2 eexists. split; [done|]. split; [done|]. rewrite bool_decide_eq_true.
  replace (crc_run 0 p) with (crc_run 0 (d ++ c)) by (by rewrite <- E). rewrite crc_residue by (try apply Hbd; unfold zlen in Hc; lia).
  split; [|tauto]. intros Hcrc. split; [|done]. by eexists.
Qed.

(** C28: a dump of any object is the bytes of the object with the footer, and the
    verification, on any machine, accepts it and reads back the version. *)
Theorem dump_roundtrip big vec base s big' vec' base' s' body :
  crc_ready big s -> crc_ready big' s' -> bytes_ok body -> zlen body < 2 ^ 62 ->
  exists s1 s2 payload, createDumpPayload big vec base s body = Some (s1, payload) /\ crc_ready big s1 /\
    take (length body) payload = body /\ verifyDumpPayload big' vec' base' false s' payload = Some (s2, true, Some RDB_VERSION).
Proof.
  intros Hs Hs' Hb Hl. unfold createDumpPayload. set (d := body ++ [RDB_VERSION &&& 255; (RDB_VERSION >>> 8) &&& 255]).
  assert (Hd : bytes_ok d) by (apply Forall_app; split; [done|by repeat constructor]).
  assert (Hld : zlen d = zlen body + 2) by (unfold d; zlen_solve). pose proof (zlen_nonneg body).
  destruct (crc64_spec big vec base _ 0 d Hs Hd) as (s1 & -> & Hs1); [lia|done|]. sbind. rewrite footer_bytes. sbind.
  set (p := d ++ le_enc 8 (crc_run 0 d)). assert (Hp : bytes_ok p) by (apply Forall_app; split; [done|apply le_enc_bytes]).
  assert (Hlp : zlen p = zlen body + 10) by (unfold p; rewrite zlen_app, zlen_le_enc; lia).
  assert (Hv : dump_version p = Some RDB_VERSION).
  { unfold dump_version. rewrite (proj2 (Z.ltb_ge _ _)), Hlp by lia. unfold p, d. rewrite <- !app_assoc. cbn [app].
    rewrite (mget_app body _ _ (zlen body + 10 - 10)) by lia. sbind. rewrite (mget_app_if body) by lia. rewrite (proj2 (Z.ltb_ge _ _)) by lia.
    by replace (zlen body + 10 - 9 - zlen body) with 1 by lia. }
  destruct (verifyDumpPayload_spec big' vec' base' s' p Hs' Hp) as (s2 & ok & Ev & _ & Hok); [lia|].
  exists s1, s2, p. split; [done|]. split; [done|]. split; [unfold p, d; by rewrite <- app_assoc, take_app_length|].
  rewrite Ev, Hv. rewrite (proj2 Hok); [done|]. split; [by exists RDB_VERSION|]. apply crc_residue; [done|apply le_enc_bytes|done|done].
Qed.

Lemma dump_roundtrip_witness : exists t t' s1 s2 payload,
  crc64_init false crc64_table = Some t /\ crc64_init true crc64_table = Some t' /\
  createDumpPayload false false 5 (CrcState t combine_cache0 8 24) (str "a key and its value, long enough for parts") = Some (s1, payload) /\
  crc_ready false s1 /\ verifyDumpPayload true false 0 false (CrcState t' combine_cache0 8 24) payload = Some (s2, true, Some RDB_VERSION).
Proof.
  destruct (crc_ready_init false 8 24) as (t & Et & Hs). destruct (crc_ready_init true 8 24) as (t' & Et' & Hs').
  destruct (dump_roundtrip false false 5 (CrcState t combine_cache0 8 24) true false 0 (CrcState t' combine_cache0 8 24)
    (str "a key and its value, long enough for parts") Hs Hs' ltac:(repeat constructor; by vm_compute) ltac:(by vm_compute)) as (s1 & s2 & p & H1 & H2 & _ & H3).
  exists t, t', s1, s2, p. exact (conj Et (conj Et' (conj H1 (conj H2 H3)))).
Defined.

(** C22: when a dump that the verification accepts is changed in at most eight
    consecutive bytes, wherever they are, the verification refuses it. *)
Theorem dump_detects big vec base base' s s1 a x y b v :
  crc_ready big s -> bytes_ok (a ++ x ++ b) -> bytes_ok y -> zlen (a ++ x ++ b) < 2 ^ 63 ->
  verifyDumpPayload big vec base false s (a ++ x ++ b) = Some (s1, true, v) ->
  length x = length y -> (length x <= 8)%nat -> x <> y ->
  exists s2 v', verifyDumpPayload big vec base' false s1 (a ++ y ++ b) = Some (s2, false, v').
Proof.
  intros Hs Hx Hy Hl Ev Hlen H8 Hne.
  destruct (verifyDumpPayload_spec big vec base s (a ++ x ++ b) Hs Hx Hl) as (s1' & ok & Ev' & Hs1 & Hok).
  rewrite Ev in Ev'. injection Ev' as <- <- ->. destruct (proj1 Hok eq_refl) as [_ Hcrc].
  assert (Hxy : bytes_ok (a ++ y ++ b)) by (apply Forall_app in Hx as [Ha Hx]; apply Forall_app in Hx as [_ Hb]; by repeat (apply Forall_app; split)).
  destruct (verifyDumpPayload_spec big vec base' s1 (a ++ y ++ b) Hs1 Hxy) as (s2 & ok' & Ev2 & _ & Hok2).
  { rewrite !zlen_app in *. unfold zlen in *. rewrite <- Hlen. lia. }
  destruct ok'; [|by exists s2, (dump_version (a ++ y ++ b))]. destruct (proj1 Hok2 eq_refl) as [_ Hcrc2].
  exfalso. apply Hne. apply (crc_run_burst 0 a x y b); [done..|]. by rewrite Hcrc, Hcrc2.
Qed.

(** The dump of a string of one letter. *)
Definition sample_dump : list Z := [0; 1; 65; 12; 0] ++ le_enc 8 (crc_run 0 [0; 1; 65; 12; 0]).

Lemma dump_detects_witness : exists t s1 v s2 v', crc64_init false crc64_table = Some t /\
  verifyDumpPayload false false 0 false (CrcState t combine_cache0 8 24) sample_dump = Some (s1, true, v) /\
  verifyDumpPayload false false 1 false s1 ([0; 1] ++ [66; 12; 1] ++ drop 5 sample_dump) = Some (s2, false, v').
Proof.
  destruct (crc_ready_init false 8 24) as (t & Et & Hs).
  assert (Hb : bytes_ok ([0; 1] ++ [65; 12; 0] ++ drop 5 sample_dump)) by (repeat constructor; by vm_compute).
  destruct (verifyDumpPayload_spec false false 0 _ ([0; 1] ++ [65; 12; 0] ++ drop 5 sample_dump) Hs Hb) as (s1 & ok & Ev & _ & Hok); [by vm_compute|].
  assert (Hd : dump_ok ([0; 1] ++ [65; 12; 0] ++ drop 5 sample_dump)).
  { split; [|by vm_compute]. exists 12. split; by vm_compute. }
  destruct ok; [|by apply Hok in Hd].
  destruct (dump_detects false false 0 1 _ s1 [0; 1] [65; 12; 0] [66; 12; 1] (drop 5 sample_dump) _ Hs Hb
    ltac:(repeat constructor; by vm_compute) ltac:(by vm_compute) Ev ltac:(done) ltac:(cbn; lia) ltac:(done)) as (s2 & v' & E2).
  exists t, s1, (dump_version sample_dump), s2, v'. exact (conj Et (conj Ev E2)).
Defined.

(** ** Slots *)

(** C30: The slot of a key is the CRC-16, bit by bit, of the part of the key between
    the first opening brace and the first closing brace after it, or of the whole
    key when there is no such part or it is empty; keys with the same part have the
    same slot, one of 16384. *)
Theorem keyHashSlot_correct key : bytes_ok key ->
  exists t slot, hashed key t /\ keyHashSlot key = Some slot /\ slot = crc16_ref t mod 16384 /\ 0 <= slot < 16384
    /\ (forall key', bytes_ok key' -> hashed key' t -> keyHashSlot key' = Some slot).
Proof.
  intros Hb. destruct (hashed_total key) as [t Ht]. exists t, (crc16_ref t mod 16384).
  assert (E : forall k, bytes_ok k -> hashed k t -> keyHashSlot k = Some (crc16_ref t mod 16384)).
  { intros k Hk Hkt. rewrite (keyHashSlot_spec k t Hk Hkt). by rewrite (land_mod _ 14) by lia. }
  split; [done|]. split; [by apply E|]. split; [done|]. split; [apply Z.mod_pos_bound; lia|done].
Qed.

Lemma keyHashSlot_correct_witness : exists t slot, hashed (str "user:{42}:name") t /\ keyHashSlot (str "user:{42}:name") = Some slot /\
  slot = crc16_ref t mod 16384 /\ 0 <= slot < 16384 /\ (forall key', bytes_ok key' -> hashed key' t -> keyHashSlot key' = Some slot).
Proof. apply (keyHashSlot_correct (str "user:{42}:name")). repeat constructor; by vm_compute. Defined.

(** C23: the slot computed from a pattern without looking at keys is the slot of
    every key the matcher accepts for it, so that a search of that slot alone
    misses none. *)
Theorem patternHashSlot_sound pattern : bytes_ok pattern ->
  exists v, patternHashSlot pattern = Some v /\ -1 <= v < 16384 /\
    (v <> -1 -> forall key, bytes_ok key -> stringmatchlen pattern key false = Some true -> keyHashSlot key = Some v).
Proof.
  intros Hb. destruct (patternHashSlot_spec pattern Hb) as (v & E & Hv). exists v. split; [done|].
  destruct Hv as [->|(L & R & t & -> & HL & Hh & ->)]; [by split; [lia|]|].
  split; [rewrite (land_mod _ 14) by lia; pose proof (Z.mod_pos_bound (crc16_ref t) (2 ^ 14)); lia|].
  intros _ key Hk Hm. apply (stringmatchlen_literal L R) in Hm as (d & -> & Hd); [|done]. apply keyHashSlot_spec; [done|]. by apply Hh.
Qed.

Lemma patternHashSlot_sound_witness : patternHashSlot (str "user:{42}:*") = Some 8000 /\ stringmatchlen (str "user:{42}:*") (str "user:{42}:name") false = Some true /\
  keyHashSlot (str "user:{42}:name") = Some 8000.
Proof.
  destruct (patternHashSlot_sound (str "user:{42}:*") ltac:(repeat constructor; by vm_compute)) as (v & E & _ & H).
  assert (Hv : Some v = Some 8000) by (rewrite <- E; by vm_compute). injection Hv as ->.
  split; [exact E|]. split; [by vm_compute|]. apply H; [done|repeat constructor; by vm_compute|by vm_compute].
Defined.
