(* ===== verification/Hll.v ===== *)
(** * HyperLogLog: hyperloglog.c, with the strings of sds.c it grows

    A HyperLogLog is a string: a header of 16 bytes with a cached cardinality,
    then 16384 registers, either packed six bits each (dense) or as a sequence of
    opcodes for runs of equal registers (sparse), which is modified in place and
    converted when it gets too long or a value does not fit.

    A string is the buffer of an sds, of the allocated size and one byte more for
    the terminator, and its length.  Offsets into it stand for pointers.  [None] is
    an access outside the buffer or a failed assertion.  [usable] and [fresh] are
    the allocator: the size it gives for a request and what fresh memory holds. *)
From stdpp Require Import gmap.
From S2P Require Import Prelude.

(** ** Strings: sds.c *)

Record sds := Sds { s_type5 : bool; s_len : Z; s_buf : list Z }.
Definition sdsalloc (s : sds) : Z := if s_type5 s then s_len s else zlen (s_buf s) - 1.
Definition sdsavail (s : sds) : Z := if s_type5 s then 0 else zlen (s_buf s) - 1 - s_len s.
Definition with_buf (s : sds) (b : list Z) : sds := Sds (s_type5 s) (s_len s) b.

Section alloc.
Context (usable : Z -> Z) (fresh : nat -> Z).
Definition fresh_bytes (n : Z) : list Z := fresh <$> seq 0 (Z.to_nat n).
(** [sdsnewlen(init, zlen init)]; with [NULL] the bytes are 0. *)
Definition sdsnewlen (init : list Z) : sds :=
  let n := zlen init in Sds (negb (n =? 0) && (n <? 2 ^ 5)) n (init ++ [0] ++ fresh_bytes (usable n - n)).
Definition sdsnewlen_null (n : Z) : sds := sdsnewlen (replicate (Z.to_nat n) 0).
(** [sdsResize(s, size, 1)] *)
Definition sdsResize (s : sds) (size : Z) : sds :=
  if sdsalloc s =? size then s
  else
    let len := if size <? s_len s then size else s_len s in
    Sds false len (take (Z.to_nat len) (s_buf s) ++ [0] ++ fresh_bytes (usable size - len)).
End alloc.

Definition sdsIncrLen (s : sds) (incr : Z) : option sds :=
  let ok :=
    if s_type5 s then ((incr >? 0) && (s_len s + incr <? 32)) || ((incr <? 0) && (s_len s >=? - incr))
    else ((incr >=? 0) && (zlen (s_buf s) - 1 - s_len s >=? incr)) || ((incr <? 0) && (s_len s >=? - incr)) in
  if negb ok then None
  else b ← mwrite (s_buf s) (s_len s + incr) [0]; Some (Sds (s_type5 s) (s_len s + incr) b).

(** ** Constants and header *)

Definition HLL_P : Z := 14.
Definition HLL_Q : Z := 64 - HLL_P.
Definition HLL_REGISTERS : Z := 1 <<< HLL_P.
Definition HLL_P_MASK : Z := HLL_REGISTERS - 1.
Definition HLL_BITS : Z := 6.
Definition HLL_REGISTER_MAX : Z := (1 <<< HLL_BITS) - 1.
Definition HLL_HDR_SIZE : Z := 16.
Definition HLL_DENSE_SIZE : Z := HLL_HDR_SIZE + (HLL_REGISTERS * HLL_BITS + 7) / 8.
Definition HLL_DENSE : Z := 0.
Definition HLL_SPARSE : Z := 1.
Definition HLL_MAX_ENCODING : Z := 1.

(** [hdr->encoding] and [hdr->card] *)
Definition hdr_encoding (b : list Z) : option Z := mget b 4.
Definition set_encoding (b : list Z) (e : Z) : option (list Z) := mwrite b 4 [e].
Definition HLL_INVALIDATE_CACHE (b : list Z) : option (list Z) := c ← mget b 15; mwrite b 15 [c ||| (1 <<< 7)].
Definition HLL_VALID_CACHE (b : list Z) : option bool := c ← mget b 15; Some ((c &&& (1 <<< 7)) =? 0).

(** ** Dense registers *)

(** The registers begin at the offset [r]. *)
Definition HLL_DENSE_GET_REGISTER (b : list Z) (r regnum : Z) : option Z :=
  let _byte := regnum * HLL_BITS / 8 in
  let _fb := (regnum * HLL_BITS) &&& 7 in
  let _fb8 := 8 - _fb in
  b0 ← mget b (r + _byte);
  b1 ← mget b (r + _byte + 1);
  Some (((b0 >>> _fb) ||| (b1 <<< _fb8)) &&& HLL_REGISTER_MAX).
Definition HLL_DENSE_SET_REGISTER (b : list Z) (r regnum val : Z) : option (list Z) :=
  let _byte := regnum * HLL_BITS / 8 in
  let _fb := (regnum * HLL_BITS) &&& 7 in
  let _fb8 := 8 - _fb in
  b0 ← mget b (r + _byte);
  b ← mwrite b (r + _byte) [u8 (b0 &&& Z.lnot (HLL_REGISTER_MAX <<< _fb))];
  b0 ← mget b (r + _byte);
  b ← mwrite b (r + _byte) [u8 (b0 ||| (val <<< _fb))];
  b1 ← mget b (r + _byte + 1);
  b ← mwrite b (r + _byte + 1) [u8 (b1 &&& Z.lnot (HLL_REGISTER_MAX >>> _fb8))];
  b1 ← mget b (r + _byte + 1);
  mwrite b (r + _byte + 1) [u8 (b1 ||| (val >>> _fb8))].

Definition hllDenseSet (b : list Z) (r index count : Z) : option (list Z * Z) :=
  oldcount ← HLL_DENSE_GET_REGISTER b r index;
  if count >? oldcount then b ← HLL_DENSE_SET_REGISTER b r index count; Some (b, 1) else Some (b, 0).

(** ** Hashing *)

Section hash.
Context (big : bool).
(** The next eight bytes: read as a word on a little-endian machine, put together
    byte by byte on a big-endian one. *)
Definition hash_word (key : list Z) (d : Z) : option Z :=
  if big then
    x ← mread key d 8;
    match x with
    | [d0; d1; d2; d3; d4; d5; d6; d7] =>
        Some (d0 ||| (d1 <<< 8) ||| (d2 <<< 16) ||| (d3 <<< 24) ||| (d4 <<< 32) ||| (d5 <<< 40) ||| (d6 <<< 48) ||| (d7 <<< 56))
    | _ => None
    end
  else le_dec <$> mread key d 8.
Definition hash_m : Z := 0xc6a4a7935bd1e995.
Definition hash_mix (h k : Z) : Z :=
  let k := u64 (k * hash_m) in
  let k := Z.lxor k (k >>> 47) in
  let k := u64 (k * hash_m) in
  u64 (Z.lxor h k * hash_m).
(** [while(data != end)] *)
Fixpoint hash_loop (n : nat) (key : list Z) (d h : Z) : option Z :=
  match n with
  | O => Some h
  | S n => k ← hash_word key d; hash_loop n key (d + 8) (hash_mix h k)
  end.
(** [case i: h ^= (uint64_t)data[i-1] << 8*(i-1);] and the cases it falls through to. *)
Fixpoint hash_tail (i : nat) (key : list Z) (d h : Z) : option Z :=
  match i with
  | O => Some h
  | S i => b ← mget key (d + Z.of_nat i); hash_tail i key d (Z.lxor h (b <<< (8 * Z.of_nat i)))
  end.
(** [len] is an int; when it is negative, [end] lies before the key and the loop runs
    out of the buffer. *)
Definition MurmurHash64A (key : list Z) (len seed : Z) : option Z :=
  let h := Z.lxor seed (u64 (len * hash_m)) in
  let d := len - (len &&& 7) in
  h ← (if d <? 0 then None else hash_loop (Z.to_nat (d / 8)) key 0 h);
  h ← hash_tail (Z.to_nat (len &&& 7)) key d h;
  let h := if (len &&& 7) =? 0 then h else u64 (h * hash_m) in
  let h := Z.lxor h (h >>> 47) in
  let h := u64 (h * hash_m) in
  Some (Z.lxor h (h >>> 47)).

(** [__builtin_ctzll] on a word that is not 0. *)
Fixpoint ctz (fuel : nat) (v : Z) : Z :=
  match fuel with
  | O => 0
  | S fuel => if Z.testbit v 0 then 0 else 1 + ctz fuel (v >>> 1)
  end.
(** The size of the element is converted to an int. *)
Definition hllPatLen (ele : list Z) : option (Z * Z) :=
  hash ← MurmurHash64A ele (i32 (zlen ele)) 0xadc83b19;
  let index := hash &&& HLL_P_MASK in
  let hash := hash >>> HLL_P in
  let hash := hash ||| (1 <<< HLL_Q) in
  Some (ctz 64 hash + 1, index).
End hash.

(** ** Sparse opcodes *)

Definition HLL_SPARSE_XZERO_BIT : Z := 0x40.
Definition HLL_SPARSE_VAL_BIT : Z := 0x80.
Definition HLL_SPARSE_IS_ZERO (b : Z) : bool := (b &&& 0xc0) =? 0.
Definition HLL_SPARSE_IS_XZERO (b : Z) : bool := (b &&& 0xc0) =? HLL_SPARSE_XZERO_BIT.
Definition HLL_SPARSE_IS_VAL (b : Z) : bool := negb ((b &&& HLL_SPARSE_VAL_BIT) =? 0).
Definition HLL_SPARSE_ZERO_LEN (b : Z) : Z := (b &&& 0x3f) + 1.
Definition HLL_SPARSE_XZERO_LEN (b b1 : Z) : Z := (((b &&& 0x3f) <<< 8) ||| b1) + 1.
Definition HLL_SPARSE_VAL_VALUE (b : Z) : Z := ((b >>> 2) &&& 0x1f) + 1.
Definition HLL_SPARSE_VAL_LEN (b : Z) : Z := (b &&& 0x3) + 1.
Definition HLL_SPARSE_VAL_MAX_VALUE : Z := 32.
Definition HLL_SPARSE_VAL_MAX_LEN : Z := 4.
Definition HLL_SPARSE_ZERO_MAX_LEN : Z := 64.
Definition HLL_SPARSE_XZERO_MAX_LEN : Z := 16384.
(** The bytes the macros store. *)
Definition HLL_SPARSE_VAL_SET (val len : Z) : list Z := [u8 (((val - 1) <<< 2) ||| (len - 1) ||| HLL_SPARSE_VAL_BIT)].
Definition HLL_SPARSE_ZERO_SET (len : Z) : list Z := [u8 (len - 1)].
Definition HLL_SPARSE_XZERO_SET (len : Z) : list Z := let _l := len - 1 in [u8 ((_l >>> 8) ||| HLL_SPARSE_XZERO_BIT); _l &&& 0xff].

(** The loop over the opcodes of a sparse string that the conversion, the merge and
    the histogram share: [run idx runlen regval] is what each does with a run,
    [regval] is 0 for the two opcodes of zeros.  The result says whether the
    representation was valid, and gives the number of registers read. *)
Fixpoint sparse_loop {A} (run : Z -> Z -> Z -> A -> option A) (fuel : nat) (b : list Z) (p end_ idx : Z) (acc : A) : option (bool * Z * A) :=
  if p <? end_ then
    match fuel with
    | O => None
    | S fuel =>
        c ← mget b p;
        if HLL_SPARSE_IS_ZERO c then
          let runlen := HLL_SPARSE_ZERO_LEN c in
          if runlen + idx >? HLL_REGISTERS then Some (false, idx, acc)
          else acc ← run idx runlen 0 acc; sparse_loop run fuel b (p + 1) end_ (idx + runlen) acc
        else if HLL_SPARSE_IS_XZERO c then
          c1 ← mget b (p + 1);
          let runlen := HLL_SPARSE_XZERO_LEN c c1 in
          if runlen + idx >? HLL_REGISTERS then Some (false, idx, acc)
          else acc ← run idx runlen 0 acc; sparse_loop run fuel b (p + 2) end_ (idx + runlen) acc
        else
          let runlen := HLL_SPARSE_VAL_LEN c in
          let regval := HLL_SPARSE_VAL_VALUE c in
          if runlen + idx >? HLL_REGISTERS then Some (false, idx, acc)
          else acc ← run idx runlen regval acc; sparse_loop run fuel b (p + 1) end_ (idx + runlen) acc
    end
  else Some (true, idx, acc).

(** ** Conversion *)

(** [while(runlen--) { HLL_DENSE_SET_REGISTER(hdr->registers,idx,regval); idx++; }] *)
Fixpoint set_run (n : nat) (idx regval : Z) (dense : list Z) : option (list Z) :=
  match n with
  | O => Some dense
  | S n => dense ← HLL_DENSE_SET_REGISTER dense HLL_HDR_SIZE idx regval; set_run n (idx + 1) regval dense
  end.
Definition dense_run (idx runlen regval : Z) (dense : list Z) : option (list Z) :=
  if regval =? 0 then Some dense else set_run (Z.to_nat runlen) idx regval dense.

Section config.
Context (usable : Z -> Z) (fresh : nat -> Z) (hll_sparse_max_bytes : Z).

(** [true] is [C_OK]. *)
Definition hllSparseToDense (o : sds) : option (bool * sds) :=
  e ← hdr_encoding (s_buf o);
  if e =? HLL_DENSE then Some (true, o)
  else
    let dense := sdsnewlen_null usable fresh HLL_DENSE_SIZE in
    hdr ← mread (s_buf o) 0 HLL_HDR_SIZE;
    db ← mwrite (s_buf dense) 0 hdr;
    db ← set_encoding db HLL_DENSE;
    '(valid, idx, db) ← sparse_loop dense_run (Z.to_nat (s_len o)) (s_buf o) HLL_HDR_SIZE (s_len o) 0 db;
    if negb valid || negb (idx =? HLL_REGISTERS) then Some (false, o)
    else Some (true, with_buf dense db).

(** ** Update of a sparse register *)

(** The length of the opcode and the number of registers it covers. *)
Definition op_span (b : list Z) (p : Z) : option (Z * Z) :=
  c ← mget b p;
  if HLL_SPARSE_IS_ZERO c then Some (1, HLL_SPARSE_ZERO_LEN c)
  else if HLL_SPARSE_IS_VAL c then Some (1, HLL_SPARSE_VAL_LEN c)
  else c1 ← mget b (p + 1); Some (2, HLL_SPARSE_XZERO_LEN c c1).
(** Step 1: [while(p < end)] *)
Fixpoint find_op (fuel : nat) (b : list Z) (index end_ p : Z) (prev : option Z) (first span : Z) : option (Z * option Z * Z * Z) :=
  if p <? end_ then
    match fuel with
    | O => None
    | S fuel =>
        '(oplen, span) ← op_span b p;
        if index <=? first + span - 1 then Some (p, prev, first, span)
        else find_op fuel b index end_ (p + oplen) (Some p) (first + span) span
    end
  else Some (p, prev, first, span).

(** Step 2, case D: the opcodes that replace one. *)
Definition zeros_op (len : Z) : list Z := if len >? HLL_SPARSE_ZERO_MAX_LEN then HLL_SPARSE_XZERO_SET len else HLL_SPARSE_ZERO_SET len.
Definition split_zeros (index first last count : Z) : list Z :=
  (if negb (index =? first) then zeros_op (index - first) else []) ++ HLL_SPARSE_VAL_SET count 1 ++
  (if negb (index =? last) then zeros_op (last - index) else []).
Definition split_val (curval index first last count : Z) : list Z :=
  (if negb (index =? first) then HLL_SPARSE_VAL_SET curval (index - first) else []) ++ HLL_SPARSE_VAL_SET count 1 ++
  (if negb (index =? last) then HLL_SPARSE_VAL_SET curval (last - index) else []).

(** Step 4: [while (p < end && scanlen--)] *)
Fixpoint merge_vals (scanlen : nat) (o : sds) (p end_ : Z) : option sds :=
  if p <? end_ then
    match scanlen with
    | O => Some o
    | S scanlen =>
        c ← mget (s_buf o) p;
        if HLL_SPARSE_IS_XZERO c then merge_vals scanlen o (p + 2) end_
        else if HLL_SPARSE_IS_ZERO c then merge_vals scanlen o (p + 1) end_
        else if p + 1 <? end_ then
          c1 ← mget (s_buf o) (p + 1);
          let len := HLL_SPARSE_VAL_LEN c + HLL_SPARSE_VAL_LEN c1 in
          if HLL_SPARSE_IS_VAL c1 && (HLL_SPARSE_VAL_VALUE c =? HLL_SPARSE_VAL_VALUE c1) && (len <=? HLL_SPARSE_VAL_MAX_LEN) then
            b ← mwrite (s_buf o) (p + 1) (HLL_SPARSE_VAL_SET (HLL_SPARSE_VAL_VALUE c) len);
            b ← memmove b p (p + 1) (end_ - p);
            o ← sdsIncrLen (with_buf o b) (-1);
            merge_vals scanlen o p (end_ - 1)
          else merge_vals scanlen o (p + 1) end_
        else merge_vals scanlen o (p + 1) end_
    end
  else Some o.

(** The label [updated]. *)
Definition sparse_updated (o : sds) (prev : option Z) : option (sds * Z) :=
  o ← merge_vals 5 o (default HLL_HDR_SIZE prev) (s_len o);
  b ← HLL_INVALIDATE_CACHE (s_buf o);
  Some (with_buf o b, 1).
(** The label [promote]. *)
Definition sparse_promote (o : sds) (index count : Z) : option (sds * Z) :=
  '(ok, o) ← hllSparseToDense o;
  if negb (ok : bool) then Some (o, -1)
  else
    '(b, dense_retval) ← hllDenseSet (s_buf o) HLL_HDR_SIZE index count;
    if negb (dense_retval =? 1) then None else Some (with_buf o b, dense_retval).
(** Step 3: the sequence in place of the opcode at [p]. *)
Definition sparse_replace (o : sds) (index count p oldlen : Z) (next prev : option Z) (seq : list Z) : option (sds * Z) :=
  let end_ := s_len o in
  let deltalen := zlen seq - oldlen in
  if (deltalen >? 0) && (s_len o + deltalen >? hll_sparse_max_bytes) then sparse_promote o index count
  else if negb (s_len o + deltalen <=? sdsalloc o) then None
  else
    b ← match next with Some n => if deltalen =? 0 then Some (s_buf o) else memmove (s_buf o) (n + deltalen) n (end_ - n) | None => Some (s_buf o) end;
    o ← sdsIncrLen (with_buf o b) deltalen;
    b ← mwrite (s_buf o) p seq;
    sparse_updated (with_buf o b) prev.

Definition hllSparseSet (o : sds) (index count : Z) : option (sds * Z) :=
  if count >? HLL_SPARSE_VAL_MAX_VALUE then sparse_promote o index count
  else
    let o :=
      if (sdsalloc o <? hll_sparse_max_bytes) && (sdsavail o <? 3) then
        let newlen := s_len o + 3 in
        let newlen := newlen + Z.min newlen 300 in
        sdsResize usable fresh o (if newlen >? hll_sparse_max_bytes then hll_sparse_max_bytes else newlen)
      else o in
    let end_ := s_len o in
    '(p, prev, first, span) ← find_op (Z.to_nat end_) (s_buf o) index end_ HLL_HDR_SIZE None 0 0;
    if (span =? 0) || (p >=? end_) then Some (o, -1)
    else
      c ← mget (s_buf o) p;
      let next := if HLL_SPARSE_IS_XZERO c then p + 2 else p + 1 in
      let next := if next >=? end_ then None else Some next in
      let last := first + span - 1 in
      if HLL_SPARSE_IS_ZERO c then
        if HLL_SPARSE_ZERO_LEN c =? 1 then b ← mwrite (s_buf o) p (HLL_SPARSE_VAL_SET count 1); sparse_updated (with_buf o b) prev
        else sparse_replace o index count p 1 next prev (split_zeros index first last count)
      else if HLL_SPARSE_IS_XZERO c then
        sparse_replace o index count p 2 next prev (split_zeros index first last count)
      else
        if HLL_SPARSE_VAL_VALUE c >=? count then Some (o, 0)
        else if HLL_SPARSE_VAL_LEN c =? 1 then b ← mwrite (s_buf o) p (HLL_SPARSE_VAL_SET count 1); sparse_updated (with_buf o b) prev
        else sparse_replace o index count p 1 next prev (split_val (HLL_SPARSE_VAL_VALUE c) index first last count).

Definition hllDenseAdd (big : bool) (o : sds) (ele : list Z) : option (sds * Z) :=
  '(count, index) ← hllPatLen big ele;
  '(b, r) ← hllDenseSet (s_buf o) HLL_HDR_SIZE index count;
  Some (with_buf o b, r).
Definition hllSparseAdd (big : bool) (o : sds) (ele : list Z) : option (sds * Z) :=
  '(count, index) ← hllPatLen big ele;
  hllSparseSet o index count.
Definition hllAdd (big : bool) (o : sds) (ele : list Z) : option (sds * Z) :=
  e ← hdr_encoding (s_buf o);
  if e =? HLL_DENSE then hllDenseAdd big o ele
  else if e =? HLL_SPARSE then hllSparseAdd big o ele
  else Some (o, -1).
End config.

(** ** Histograms *)

(** [reghisto[v] += n] *)
Definition bump (h : list Z) (v n : Z) : option (list Z) := c ← mget h v; Some (<[Z.to_nat v := c + n]> h).

(** The 16 registers of 12 bytes. *)
Definition unrolled (r : list Z) : option (list Z) :=
  match r with
  | [r0; r1; r2; r3; r4; r5; r6; r7; r8; r9; r10; r11] =>
      Some [r0 &&& 63; ((r0 >>> 6) ||| (r1 <<< 2)) &&& 63; ((r1 >>> 4) ||| (r2 <<< 4)) &&& 63; (r2 >>> 2) &&& 63;
            r3 &&& 63; ((r3 >>> 6) ||| (r4 <<< 2)) &&& 63; ((r4 >>> 4) ||| (r5 <<< 4)) &&& 63; (r5 >>> 2) &&& 63;
            r6 &&& 63; ((r6 >>> 6) ||| (r7 <<< 2)) &&& 63; ((r7 >>> 4) ||| (r8 <<< 4)) &&& 63; (r8 >>> 2) &&& 63;
            r9 &&& 63; ((r9 >>> 6) ||| (r10 <<< 2)) &&& 63; ((r10 >>> 4) ||| (r11 <<< 4)) &&& 63; (r11 >>> 2) &&& 63]
  | _ => None
  end.
Fixpoint bump_all (h : list Z) (vs : list Z) : option (list Z) :=
  match vs with
  | [] => Some h
  | v :: vs => h ← bump h v 1; bump_all h vs
  end.
Definition dense_histo_step (b : list Z) (r : Z) (j : nat) (h : list Z) : option (list Z) :=
  x ← mread b (r + 12 * Z.of_nat j) 12; vs ← unrolled x; bump_all h vs.
Definition hllDenseRegHisto (b : list Z) (r : Z) (reghisto : list Z) : option (list Z) :=
  for_loop (dense_histo_step b r) 0 1024 reghisto.

(** [invalid] is the value returned first. *)
Definition hllSparseRegHisto (b : list Z) (p end_ : Z) (reghisto : list Z) : option (bool * list Z) :=
  '(valid, idx, h) ← sparse_loop (fun _ runlen regval h => bump h regval runlen) (Z.to_nat end_) b p end_ 0 reghisto;
  Some (negb valid || negb (idx =? HLL_REGISTERS), h).

(** The raw registers are a byte each. *)
Definition raw_histo_step (raw : list Z) (j : nat) (h : list Z) : option (list Z) :=
  x ← mread raw (8 * Z.of_nat j) 8;
  if le_dec x =? 0 then bump h 0 8 else bump_all h x.
Definition hllRawRegHisto (raw reghisto : list Z) : option (list Z) :=
  for_loop (raw_histo_step raw) 0 (Z.to_nat (HLL_REGISTERS / 8)) reghisto.

(** ** Registers of 256 bits *)

(** A register is 32 bytes; [_mm256_shuffle_epi8] works in halves, and a negative
    index gives 0. *)
Definition shuffle_lane (a idx : list Z) : list Z := map (fun i => if i <? 0 then 0 else nth (Z.to_nat (i &&& 15)) a 0) idx.
Definition shuffle_epi8 (a idx : list Z) : list Z :=
  shuffle_lane (take 16 a) (take 16 idx) ++ shuffle_lane (drop 16 a) (drop 16 idx).
(** An operation on each of the eight 32-bit integers. *)
Fixpoint epi32 (f : Z -> Z) (v : list Z) : list Z :=
  match v with
  | b0 :: b1 :: b2 :: b3 :: v => le_enc 4 (f (le_dec [b0; b1; b2; b3])) ++ epi32 f v
  | _ => []
  end.
Definition and_set1 (c : Z) : list Z -> list Z := epi32 (fun x => x &&& c).
Definition slli_epi32 (n : Z) : list Z -> list Z := epi32 (fun x => u32 (x <<< n)).
Definition srli_epi32 (n : Z) : list Z -> list Z := epi32 (fun x => x >>> n).
Definition or_si256 : list Z -> list Z -> list Z := zip_with Z.lor.
Definition max_epu8 : list Z -> list Z -> list Z := zip_with Z.max.

(** ** Merge *)

(** [HLL_DENSE_GET_REGISTER(val, reg_dense, i); if (val > reg_raw[i]) reg_raw[i] = val;] *)
Definition merge_register (b : list Z) (r : Z) (i : nat) (raw : list Z) : option (list Z) :=
  val ← HLL_DENSE_GET_REGISTER b r (Z.of_nat i);
  x ← mget raw (Z.of_nat i);
  if val >? x then mwrite raw (Z.of_nat i) [val] else Some raw.

Definition merge_shuffle : list Z :=
  [4; 5; 6; -1; 7; 8; 9; -1; 10; 11; 12; -1; 13; 14; 15; -1; 0; 1; 2; -1; 3; 4; 5; -1; 6; 7; 8; -1; 9; 10; 11; -1].
Definition unpack256 (x0 : list Z) : list Z :=
  let x := shuffle_epi8 x0 merge_shuffle in
  let a1 := and_set1 0x0000003f x in
  let a2 := and_set1 0x00000fc0 x in
  let a3 := and_set1 0x0003f000 x in
  let a4 := and_set1 0x00fc0000 x in
  let a2 := slli_epi32 2 a2 in
  let a3 := slli_epi32 4 a3 in
  let a4 := slli_epi32 6 a4 in
  let y1 := or_si256 a1 a2 in
  let y2 := or_si256 a3 a4 in
  or_si256 y1 y2.
Definition merge256 (b : list Z) (r : Z) (i : nat) (raw : list Z) : option (list Z) :=
  x0 ← mread b (r + 6 - 4 + 24 * Z.of_nat i) 32;
  z ← mread raw (8 + 32 * Z.of_nat i) 32;
  mwrite raw (8 + 32 * Z.of_nat i) (max_epu8 z (unpack256 x0)).
Definition hllMergeDenseAVX2 (raw b : list Z) (r : Z) : option (list Z) :=
  raw ← for_loop (merge_register b r) 0 8 raw;
  raw ← for_loop (merge256 b r) 0 (Z.to_nat (HLL_REGISTERS / 32 - 1)) raw;
  for_loop (merge_register b r) (Z.to_nat (HLL_REGISTERS - 24)) 24 raw.
Definition hllMergeDense (use_avx2 : bool) (raw b : list Z) (r : Z) : option (list Z) :=
  if use_avx2 then hllMergeDenseAVX2 raw b r
  else for_loop (merge_register b r) 0 (Z.to_nat HLL_REGISTERS) raw.

(** [while(runlen--) { if (regval > max[i]) max[i] = regval; i++; }] *)
Fixpoint max_run (n : nat) (i regval : Z) (max : list Z) : option (list Z) :=
  match n with
  | O => Some max
  | S n => x ← mget max i; max ← (if regval >? x then mwrite max i [regval] else Some max); max_run n (i + 1) regval max
  end.
Definition hllMerge (use_avx2 : bool) (max : list Z) (hll : sds) : option (bool * list Z) :=
  e ← hdr_encoding (s_buf hll);
  if e =? HLL_DENSE then max ← hllMergeDense use_avx2 max (s_buf hll) HLL_HDR_SIZE; Some (true, max)
  else
    '(valid, i, max) ← sparse_loop (fun i runlen regval max => if regval =? 0 then Some max else max_run (Z.to_nat runlen) i regval max)
      (Z.to_nat (s_len hll)) (s_buf hll) HLL_HDR_SIZE (s_len hll) 0 max;
    Some (valid && (i =? HLL_REGISTERS), max).

(** ** Raw registers to dense *)

Definition compress_shuffle : list Z :=
  [0; 1; 2; 4; 5; 6; 8; 9; 10; 12; 13; 14; -1; -1; -1; -1; 0; 1; 2; 4; 5; 6; 8; 9; 10; 12; 13; 14; -1; -1; -1; -1].
Definition pack256 (x : list Z) : list Z :=
  let a1 := and_set1 0x0000003f x in
  let a2 := and_set1 0x00003f00 x in
  let a3 := and_set1 0x003f0000 x in
  let a4 := and_set1 0x3f000000 x in
  let a2 := srli_epi32 2 a2 in
  let a3 := srli_epi32 4 a3 in
  let a4 := srli_epi32 6 a4 in
  let y1 := or_si256 a1 a2 in
  let y2 := or_si256 a3 a4 in
  shuffle_epi8 (or_si256 y1 y2) compress_shuffle.
Definition compress256 (raw : list Z) (r : Z) (i : nat) (b : list Z) : option (list Z) :=
  x ← mread raw (32 * Z.of_nat i) 32;
  let y := pack256 x in
  b ← mwrite b (r + 24 * Z.of_nat i) (take 16 y);
  mwrite b (r + 24 * Z.of_nat i + 12) (drop 16 y).
Definition compress_register (raw : list Z) (r : Z) (i : nat) (b : list Z) : option (list Z) :=
  v ← mget raw (Z.of_nat i); HLL_DENSE_SET_REGISTER b r (Z.of_nat i) v.
Definition hllDenseCompressAVX2 (b : list Z) (r : Z) (raw : list Z) : option (list Z) :=
  b ← for_loop (compress256 raw r) 0 (Z.to_nat (HLL_REGISTERS / 32 - 1)) b;
  for_loop (compress_register raw r) (Z.to_nat (HLL_REGISTERS - 32)) 32 b.
Definition hllDenseCompress (use_avx2 : bool) (b : list Z) (r : Z) (raw : list Z) : option (list Z) :=
  if use_avx2 then hllDenseCompressAVX2 b r raw
  else for_loop (compress_register raw r) 0 (Z.to_nat HLL_REGISTERS) b.

(** ** Objects *)

Section commands.
Context (usable : Z -> Z) (fresh : nat -> Z) (hll_sparse_max_bytes : Z) (big use_avx2 : bool).
(** The floating-point formula of [hllCount], on the histogram. *)
Context (estimate : list Z -> Z).

(** [while(aux)] *)
Fixpoint xzeros (fuel : nat) (aux : Z) : option (list Z) :=
  if aux =? 0 then Some []
  else
    match fuel with
    | O => None
    | S fuel =>
        let xzero := if HLL_SPARSE_XZERO_MAX_LEN >? aux then aux else HLL_SPARSE_XZERO_MAX_LEN in
        l ← xzeros fuel (aux - xzero); Some (HLL_SPARSE_XZERO_SET xzero ++ l)
    end.
Definition createHLLObject : option sds :=
  let sparselen := HLL_HDR_SIZE + (HLL_REGISTERS + (HLL_SPARSE_XZERO_MAX_LEN - 1)) / HLL_SPARSE_XZERO_MAX_LEN * 2 in
  let s := sdsnewlen_null usable fresh sparselen in
  ops ← xzeros (Z.to_nat HLL_REGISTERS) HLL_REGISTERS;
  b ← mwrite (s_buf s) HLL_HDR_SIZE ops;
  if negb (HLL_HDR_SIZE + zlen ops =? sparselen) then None
  else
    b ← mwrite b 0 (str "HYLL");
    b ← set_encoding b HLL_SPARSE;
    Some (with_buf s b).

(** A string with its buffer, and whether it is raw-encoded with one reference, so
    that it may be written in place; integers and other types are opaque. *)
Inductive hobj := HStr (own : bool) (s : sds) | HInt (v : Z) | HOther (type : Z).

Inductive herr := HWrongType | HNotHll | HInvalid.
(** [isHLLObjectOrReply]: the string, or the error replied. *)
Definition isHLLObject (o : hobj) : option (herr + sds) :=
  match o with
  | HOther _ => Some (inl HWrongType)
  | HInt _ => Some (inl HNotHll)
  | HStr _ s =>
      if s_len s <? HLL_HDR_SIZE then Some (inl HNotHll)
      else
        m ← mread (s_buf s) 0 4;
        e ← hdr_encoding (s_buf s);
        if negb (bool_decide (m = str "HYLL")) then Some (inl HNotHll)
        else if e >? HLL_MAX_ENCODING then Some (inl HNotHll)
        else if (e =? HLL_DENSE) && negb (s_len s =? HLL_DENSE_SIZE) then Some (inl HNotHll)
        else Some (inr s)
  end.

(** [hllCount] of a string: whether it is invalid, and the estimate. *)
Definition no_histo : list Z := replicate 64 0.
Definition hllCount (s : sds) : option (bool * Z) :=
  e ← hdr_encoding (s_buf s);
  if e =? HLL_DENSE then h ← hllDenseRegHisto (s_buf s) HLL_HDR_SIZE no_histo; Some (false, estimate h)
  else if e =? HLL_SPARSE then
    '(invalid, h) ← hllSparseRegHisto (s_buf s) HLL_HDR_SIZE (s_len s) no_histo; Some (invalid, estimate h)
  else None.
(** With the encoding [HLL_RAW]. *)
Definition hllCountRaw (raw : list Z) : option Z := h ← hllRawRegHisto raw no_histo; Some (estimate h).

(** ** Commands *)

Inductive heffect := HModified (key : list Z) | HNotify (key : list Z) | HKeysizes (key : list Z) (oldlen newlen : Z).
Record hserver := HServer { hkeys : gmap (list Z) hobj; hdirty : Z; heffects : list heffect }.
Inductive hreply := HLong (v : Z) | HOk | HErr (e : herr).
Abbreviation hresult := (option (hserver * hreply)).
Definition hput (s : hserver) (key : list Z) (o : sds) : hserver := HServer (<[key := HStr true o]> (hkeys s)) (hdirty s) (heffects s).
Definition heffect_add (s : hserver) (l : list heffect) : hserver := HServer (hkeys s) (hdirty s) (heffects s ++ l).
Definition hdirty_add (s : hserver) (n : Z) : hserver := HServer (hkeys s) (hdirty s + n) (heffects s).

(** [for (j = 2; j < c->argc; j++)] of [pfaddCommand]: the string, the updates, and whether it was
    found invalid. *)
Fixpoint add_all (o : sds) (eles : list (list Z)) (updated : Z) : option (sds * Z * bool) :=
  match eles with
  | [] => Some (o, updated, true)
  | ele :: eles =>
      '(o, r) ← hllAdd usable fresh hll_sparse_max_bytes big o ele;
      if r =? -1 then Some (o, updated, false)
      else add_all o eles (if r =? 1 then updated + 1 else updated)
  end.

(** [dbUnshareStringValue] *)
Definition unshare (own : bool) (o : sds) : sds :=
  if own then o else sdsnewlen usable fresh (take (Z.to_nat (s_len o)) (s_buf o)).
Definition is_own (v : hobj) : bool := match v with HStr own _ => own | _ => true end.

(** The lookup for a write: the string that is there, or a new one. *)
Definition lookup_or_create (s : hserver) (key : list Z) : option (herr + sds * Z) :=
  match hkeys s !! key with
  | None => o ← createHLLObject; Some (inr (o, 1))
  | Some v => r ← isHLLObject v; Some (match r with inl e => inl e | inr o => inr (unshare (is_own v) o, 0) end)
  end.
Definition pfaddCommand (s : hserver) (key : list Z) (eles : list (list Z)) : hresult :=
  l ← lookup_or_create s key;
  match l with
  | inl e => Some (s, HErr e)
  | inr (o, updated) =>
      let oldlen := s_len o in
      '(o, updated, ok) ← add_all o eles updated;
      if negb (ok : bool) then Some (hput s key o, HErr HInvalid)
      else
        let s := heffect_add s [HKeysizes key oldlen (s_len o)] in
        if negb (updated =? 0) then
          b ← HLL_INVALIDATE_CACHE (s_buf o);
          Some (hdirty_add (heffect_add (hput s key (with_buf o b)) [HModified key; HNotify key]) updated, HLong 1)
        else Some (hput s key o, HLong 0)
  end.

(** [for (j = 1; j < c->argc; j++)] of the commands with several keys. *)
Fixpoint merge_all (s : hserver) (keys : list (list Z)) (max : list Z) (use_dense : bool) : option (herr + list Z * bool) :=
  match keys with
  | [] => Some (inr (max, use_dense))
  | k :: keys =>
      match hkeys s !! k with
      | None => merge_all s keys max use_dense
      | Some v =>
          r ← isHLLObject v;
          match r with
          | inl e => Some (inl e)
          | inr o =>
              e ← hdr_encoding (s_buf o);
              '(ok, max) ← hllMerge use_avx2 max o;
              if negb (ok : bool) then Some (inl HInvalid) else merge_all s keys max (if e =? HLL_DENSE then true else use_dense)
          end
      end
  end.
Definition no_registers : list Z := replicate (Z.to_nat HLL_REGISTERS) 0.

(** The cached cardinality. *)
Definition read_card (b : list Z) : option Z := le_dec <$> mread b 8 8.
Definition write_card (b : list Z) (card : Z) : option (list Z) := mwrite b 8 (le_enc 8 card).

Definition pfcountCommand (s : hserver) (keys : list (list Z)) : hresult :=
  match keys with
  | [key] =>
      match hkeys s !! key with
      | None => Some (s, HLong 0)
      | Some v =>
          r ← isHLLObject v;
          match r with
          | inl e => Some (s, HErr e)
          | inr o =>
              let o := unshare (is_own v) o in
              valid ← HLL_VALID_CACHE (s_buf o);
              if (valid : bool) then card ← read_card (s_buf o); Some (hput s key o, HLong card)
              else
                '(invalid, card) ← hllCount o;
                if (invalid : bool) then Some (hput s key o, HErr HInvalid)
                else
                  b ← write_card (s_buf o) card;
                  Some (hdirty_add (heffect_add (hput s key (with_buf o b)) [HModified key]) 1, HLong card)
          end
      end
  | _ =>
      r ← merge_all s keys no_registers false;
      match r with
      | inl e => Some (s, HErr e)
      | inr (max, _) => card ← hllCountRaw max; Some (s, HLong card)
      end
  end.

(** [for (j = 0; j < HLL_REGISTERS; j++)] of [pfmergeCommand] *)
Definition store_register (max : list Z) (j : nat) (o : sds) : option sds :=
  v ← mget max (Z.of_nat j);
  if v =? 0 then Some o
  else
    e ← hdr_encoding (s_buf o);
    if e =? HLL_DENSE then '(b, _) ← hllDenseSet (s_buf o) HLL_HDR_SIZE (Z.of_nat j) v; Some (with_buf o b)
    else if e =? HLL_SPARSE then '(o, _) ← hllSparseSet usable fresh hll_sparse_max_bytes o (Z.of_nat j) v; Some o
    else Some o.
Definition store_registers (max : list Z) (use_dense : bool) (o : sds) : option sds :=
  if use_dense then b ← hllDenseCompress use_avx2 (s_buf o) HLL_HDR_SIZE max; Some (with_buf o b)
  else for_loop (store_register max) 0 (Z.to_nat HLL_REGISTERS) o.
Definition pfmergeCommand (s : hserver) (key : list Z) (keys : list (list Z)) : hresult :=
  r ← merge_all s (key :: keys) no_registers false;
  match r with
  | inl e => Some (s, HErr e)
  | inr (max, use_dense) =>
      o ← match hkeys s !! key with Some (HStr own o) => Some (unshare own o) | Some _ => None | None => createHLLObject end;
      let oldLen := s_len o in
      '(ok, o) ← (if use_dense then hllSparseToDense usable fresh o else Some (true, o));
      if negb (ok : bool) then Some (hput s key o, HErr HInvalid)
      else
        o ← store_registers max use_dense o;
        b ← HLL_INVALIDATE_CACHE (s_buf o);
        Some (hdirty_add (heffect_add (hput s key (with_buf o b)) [HModified key; HNotify key; HKeysizes key oldLen (s_len o)]) 1, HOk)
  end.
End commands.
