(* ===== verification/HllDense.v ===== *)
(** * Dense registers: hyperloglog.c

    Three bytes hold four registers.  The specification [unpack] of a dense body is
    the list of its registers; the macros that read and set one register, the
    histogram over 16 registers at a time, and the merge and compression with
    registers of 256 bits or one by one are functions of that list. *)
From stdpp Require Import list.
From S2P Require Import Prelude Hll.

(** ** The registers of a dense body *)

Definition unpack3 (b0 b1 b2 : Z) : list Z := [b0 mod 64; b0 / 64 + b1 mod 16 * 4; b1 / 16 + b2 mod 4 * 16; b2 / 4].
Fixpoint unpack (l : list Z) : list Z :=
  match l with
  | b0 :: b1 :: b2 :: l => unpack3 b0 b1 b2 ++ unpack l
  | _ => []
  end.
Abbreviation reg_ok := (fun v : Z => 0 <= v < 64).

(** Induction on lists of bytes, three at a time. *)
Lemma triple_ind (P : list Z -> Prop) :
  P [] -> (forall b0 b1 b2 l, P l -> P (b0 :: b1 :: b2 :: l)) -> forall (g : nat) l, length l = (3 * g)%nat -> P l.
Proof.
  intros H0 HS g. induction g as [|g IH]; intros l Hl.
  - by destruct l.
  - destruct l as [|b0 [|b1 [|b2 l]]]; simpl in Hl; try lia. apply HS, IH. lia.
Qed.

Lemma unpack_app (g : nat) (a c : list Z) : length a = (3 * g)%nat -> unpack (a ++ c) = unpack a ++ unpack c.
Proof. revert a. apply (triple_ind (fun a => unpack (a ++ c) = unpack a ++ unpack c)); [done|]. intros b0 b1 b2 l IH. simpl. by rewrite IH. Qed.

Lemma length_unpack (g : nat) (l : list Z) : length l = (3 * g)%nat -> length (unpack l) = (4 * g)%nat.
Proof.
  revert l. induction g as [|g IH]; intros l Hl; [by destruct l|].
  destruct l as [|b0 [|b1 [|b2 l]]]; simpl in Hl; try lia. simpl. rewrite IH by lia. lia.
Qed.

Lemma unpack_ok (g : nat) (l : list Z) : length l = (3 * g)%nat -> bytes_ok l -> Forall reg_ok (unpack l).
Proof.
  revert l. apply (triple_ind (fun l => bytes_ok l -> Forall reg_ok (unpack l))); [by constructor|].
  intros b0 b1 b2 l IH H. inversion_clear H as [|? ? H0 H']. inversion_clear H' as [|? ? H1 H'']. inversion_clear H'' as [|? ? H2 H3].
  unfold is_byte in *. simpl. repeat constructor; try div_lia; auto.
Qed.

(** ** A register *)

(** A fact on a byte and a register, or on two bytes, by a run over them. *)
Lemma byte2_forall (n : Z) (P : Z -> Z -> Prop) (dec : forall a v, Decision (P a v)) (a v : Z) :
  forallb (fun a => forallb (fun v => bool_decide (P a v)) (seqZ 0 n)) (seqZ 0 256) = true -> is_byte a -> 0 <= v < n -> P a v.
Proof.
  intros Hall Ha Hv. apply (byte_forall (fun a => forallb (fun v => bool_decide (P a v)) (seqZ 0 n))) in Ha; [|done].
  rewrite forallb_forall in Ha. apply (bool_decide_eq_true_1 _), Ha, list_elem_of_In, elem_of_seqZ. exact Hv.
Qed.
Ltac by_bytes2 n a Ha v Hv :=
  pattern a, v;
  lazymatch goal with
  | |- ?P a v => refine (byte2_forall n P (ltac:(intros ? ?; cbv beta; apply _)) a v _ Ha Hv); by vm_compute
  end.

(** The two bytes that hold a register. *)
Definition get_cell (fb x y : Z) : Z := ((x >>> fb) ||| (y <<< (8 - fb))) &&& 63.
Definition set_low (fb v x : Z) : Z := u8 (u8 (x &&& Z.lnot (63 <<< fb)) ||| (v <<< fb)).
Definition set_high (fb v y : Z) : Z := u8 (u8 (y &&& Z.lnot (63 >>> (8 - fb))) ||| (v >>> (8 - fb))).

Section cell.
Context (pre post : list Z) (x y r i fb : Z).
Context (Hpre : zlen pre = r + i * 6 / 8) (Hfb : (i * 6) mod 8 = fb).

Lemma fb_land : (i * 6) &&& 7 = fb.
Proof using Hfb. by rewrite (land_mod _ 3). Qed.
Lemma cell_first (c : Z) (l : list Z) : mget (pre ++ c :: l) (r + i * 6 / 8) = Some c.
Proof using Hpre. apply mget_app. lia. Qed.
Lemma cell_second (c d : Z) (l : list Z) : mget (pre ++ c :: d :: l) (r + i * 6 / 8 + 1) = Some d.
Proof using Hpre. rewrite (cons_middle c), app_assoc. apply mget_app. autorewrite with zlen. lia. Qed.
Lemma cell_write_first (c c' : Z) (l : list Z) : mwrite (pre ++ c :: l) (r + i * 6 / 8) [c'] = Some (pre ++ c' :: l).
Proof using Hpre. apply (mwrite_app pre [c] l [c']); [lia|done]. Qed.
Lemma cell_write_second (c d d' : Z) (l : list Z) :
  mwrite (pre ++ c :: d :: l) (r + i * 6 / 8 + 1) [d'] = Some (pre ++ c :: d' :: l).
Proof using Hpre.
  rewrite !(cons_middle c), !app_assoc.
  apply (mwrite_app (pre ++ [c]) [d] l [d']); [autorewrite with zlen; lia|done].
Qed.

Lemma get_register_cell : HLL_DENSE_GET_REGISTER (pre ++ x :: y :: post) r i = Some (get_cell fb x y).
Proof using All.
  unfold HLL_DENSE_GET_REGISTER. change HLL_BITS with 6. rewrite fb_land, cell_first. sbind. by rewrite cell_second.
Qed.
Lemma set_register_cell (v : Z) :
  HLL_DENSE_SET_REGISTER (pre ++ x :: y :: post) r i v = Some (pre ++ set_low fb v x :: set_high fb v y :: post).
Proof using All.
  unfold HLL_DENSE_SET_REGISTER. change HLL_BITS with 6. rewrite fb_land, cell_first. sbind.
  rewrite cell_write_first. sbind. rewrite cell_first. sbind. rewrite cell_write_first. sbind.
  rewrite cell_second. sbind. rewrite cell_write_second. sbind. rewrite cell_second. sbind. by rewrite cell_write_second.
Qed.
End cell.

(** The three bytes after a store to register [j] of them. *)
Definition set3 (j : nat) (v b0 b1 b2 : Z) : list Z :=
  match j with
  | 0%nat => [set_low 0 v b0; set_high 0 v b1; b2]
  | 1%nat => [set_low 6 v b0; set_high 6 v b1; b2]
  | 2%nat => [b0; set_low 4 v b1; set_high 4 v b2]
  | _ => [b0; b1; set_low 2 v b2]
  end.

Lemma set_high_2 (v y : Z) : reg_ok v -> is_byte y -> set_high 2 v y = y.
Proof. intros Hv Hy. by_bytes2 64 y Hy v Hv. Qed.

Section triple.
Context (b0 b1 b2 : Z) (H0 : is_byte b0) (H1 : is_byte b1) (H2 : is_byte b2).

(** What a register read is. *)
Lemma get_cells3 :
  get_cell 0 b0 b1 = b0 mod 64 /\ get_cell 6 b0 b1 = b0 / 64 + b1 mod 16 * 4 /\
  get_cell 4 b1 b2 = b1 / 16 + b2 mod 4 * 16 /\ forall y, is_byte y -> get_cell 2 b2 y = b2 / 4.
Proof using All.
  assert (G : forall fb x y, 0 <= fb < 8 -> is_byte x -> get_cell fb x y = (x / 2 ^ fb + y * 2 ^ (8 - fb)) mod 64).
  { intros fb x y Hfb Hx. unfold get_cell. rewrite (land_mod _ 6), lor_shiftl; [by rewrite shiftr_div by lia|lia| |lia|done].
    rewrite shiftr_div by lia. unfold is_byte in Hx. split; [apply Z.div_pos; lia|]. apply Z.div_lt_upper_bound; [lia|].
    rewrite <- Z.pow_add_r by lia. replace (fb + (8 - fb)) with 8 by lia. lia. }
  unfold is_byte in *. rewrite !G by (unfold is_byte; lia). split; [div_lia|]. split; [div_lia|]. split; [div_lia|].
  intros y Hy. rewrite G by (unfold is_byte; lia). div_lia.
Qed.

(** What a store changes. *)
Lemma set_cells (v : Z) :
  reg_ok v ->
  (set_low 0 v b0 mod 64 = v /\ set_low 0 v b0 / 64 = b0 / 64 /\ set_high 0 v b1 = b1) /\
  (set_low 6 v b0 mod 64 = b0 mod 64 /\ set_low 6 v b0 / 64 + set_high 6 v b1 mod 16 * 4 = v /\ set_high 6 v b1 / 16 = b1 / 16) /\
  (set_low 4 v b1 mod 16 = b1 mod 16 /\ set_low 4 v b1 / 16 + set_high 4 v b2 mod 4 * 16 = v /\ set_high 4 v b2 / 4 = b2 / 4) /\
  (set_low 2 v b2 mod 4 = b2 mod 4 /\ set_low 2 v b2 / 4 = v).
Proof using All.
  intros Hv.
  assert (E6 : set_low 6 v b0 / 64 = v mod 4 /\ set_low 6 v b0 mod 64 = b0 mod 64) by (by_bytes2 64 b0 H0 v Hv).
  assert (F6 : set_high 6 v b1 mod 16 = v / 4 /\ set_high 6 v b1 / 16 = b1 / 16) by (by_bytes2 64 b1 H1 v Hv).
  assert (E4 : set_low 4 v b1 / 16 = v mod 16 /\ set_low 4 v b1 mod 16 = b1 mod 16) by (by_bytes2 64 b1 H1 v Hv).
  assert (F4 : set_high 4 v b2 mod 4 = v / 16 /\ set_high 4 v b2 / 4 = b2 / 4) by (by_bytes2 64 b2 H2 v Hv).
  assert (E0 : set_low 0 v b0 mod 64 = v /\ set_low 0 v b0 / 64 = b0 / 64) by (by_bytes2 64 b0 H0 v Hv).
  assert (F0 : set_high 0 v b1 = b1) by (by_bytes2 64 b1 H1 v Hv).
  assert (E2 : set_low 2 v b2 mod 4 = b2 mod 4 /\ set_low 2 v b2 / 4 = v) by (by_bytes2 64 b2 H2 v Hv).
  destruct E6 as [-> ->], F6 as [-> ->], E4 as [-> ->], F4 as [-> ->].
  repeat split; try tauto; div_lia.
Qed.

Lemma set3_unpack (j : nat) (v : Z) : (j < 4)%nat -> reg_ok v -> unpack (set3 j v b0 b1 b2) = <[j := v]> (unpack3 b0 b1 b2).
Proof using All.
  intros Hj Hv. destruct (set_cells v Hv) as ((A1 & A2 & A3) & (B1 & B2 & B3) & (C1 & C2 & C3) & (D1 & D2)).
  destruct j as [|[|[|[|]]]]; [..|lia]; cbn [set3 unpack app]; unfold unpack3; simpl; congruence.
Qed.
Lemma set3_bytes (j : nat) (v : Z) : (j < 4)%nat -> bytes_ok (set3 j v b0 b1 b2) /\ length (set3 j v b0 b1 b2) = 3%nat.
Proof using All.
  intros Hj. assert (forall z, is_byte (u8 z)) by (intros; apply (wrap_range 8); lia).
  destruct j as [|[|[|[|]]]]; [..|lia]; (split; [|done]);
    repeat first [apply Forall_cons_2 | apply Forall_nil_2]; first [assumption | unfold set_low, set_high; auto].
Qed.

Section place.
Context (P post : list Z) (r g y : Z) (Hp : zlen P = r + 3 * g) (Hy : is_byte y).
Lemma triple_get (j : nat) :
  (j < 4)%nat -> HLL_DENSE_GET_REGISTER (P ++ b0 :: b1 :: b2 :: y :: post) r (4 * g + Z.of_nat j) = unpack3 b0 b1 b2 !! j.
Proof using All.
  intros Hj. destruct get_cells3 as (G0 & G1 & G2 & G3). specialize (G3 y Hy).
  destruct j as [|[|[|[|]]]]; [..|lia]; cbn [unpack3 lookup list_lookup].
  - rewrite <- G0. apply get_register_cell; div_lia.
  - rewrite <- G1. apply get_register_cell; div_lia.
  - rewrite <- G2, cons_middle, app_assoc. apply get_register_cell; autorewrite with zlen; div_lia.
  - rewrite <- G3. change (P ++ b0 :: b1 :: b2 :: y :: post) with (P ++ [b0; b1] ++ b2 :: y :: post). rewrite app_assoc.
    apply get_register_cell; autorewrite with zlen; div_lia.
Qed.
Lemma triple_set (j : nat) (v : Z) :
  (j < 4)%nat -> reg_ok v ->
  HLL_DENSE_SET_REGISTER (P ++ b0 :: b1 :: b2 :: y :: post) r (4 * g + Z.of_nat j) v = Some (P ++ set3 j v b0 b1 b2 ++ y :: post).
Proof using All.
  intros Hj Hv. destruct j as [|[|[|[|]]]]; [..|lia]; cbn [set3 app].
  - apply set_register_cell; div_lia.
  - apply set_register_cell; div_lia.
  - rewrite cons_middle, app_assoc. rewrite (set_register_cell _ _ _ _ _ _ 4) by (autorewrite with zlen; div_lia). by rewrite <- app_assoc.
  - change (P ++ b0 :: b1 :: b2 :: y :: post) with (P ++ [b0; b1] ++ b2 :: y :: post). rewrite app_assoc.
    rewrite (set_register_cell _ _ _ _ _ _ 2) by (autorewrite with zlen; div_lia). rewrite set_high_2 by done. by rewrite <- app_assoc.
Qed.
End place.
End triple.

(** ** A register of a dense string *)

(** The triple of a register. *)
Lemma triple_split (body : list Z) (n i : nat) :
  length body = (3 * n)%nat -> (i < 4 * n)%nat ->
  exists a b0 b1 b2 c, body = a ++ b0 :: b1 :: b2 :: c /\ length a = (3 * (i / 4))%nat /\ length c = (3 * (n - S (i / 4)))%nat.
Proof.
  intros Hb Hi. assert (i / 4 < n)%nat by (apply Nat.Div0.div_lt_upper_bound; lia). set (g := (i / 4)%nat) in *.
  rewrite <- (take_drop (3 * g) body). exists (take (3 * g) body).
  assert (L : length (drop (3 * g) body) = (3 * (n - g))%nat) by (rewrite length_drop; lia).
  destruct (drop (3 * g) body) as [|b0 [|b1 [|b2 c]]]; simpl in L; try lia.
  exists b0, b1, b2, c. split; [done|]. rewrite length_take. lia.
Qed.

Section string.
Context (hdr body tl : list Z) (t : Z) (n : nat).
Context (Hbody : length body = (3 * n)%nat) (Hbytes : bytes_ok body) (Ht : is_byte t).
Let b := hdr ++ body ++ t :: tl.

Lemma bytes_split a b0 b1 b2 c : bytes_ok (a ++ b0 :: b1 :: b2 :: c) -> bytes_ok a /\ is_byte b0 /\ is_byte b1 /\ is_byte b2 /\ bytes_ok c.
Proof using. by rewrite Forall_app, !Forall_cons. Qed.

Lemma register_step (i : nat) :
  (i < 4 * n)%nat ->
  HLL_DENSE_GET_REGISTER b (zlen hdr) (Z.of_nat i) = unpack body !! i /\
  forall v, reg_ok v -> exists body', HLL_DENSE_SET_REGISTER b (zlen hdr) (Z.of_nat i) v = Some (hdr ++ body' ++ t :: tl) /\
    length body' = length body /\ bytes_ok body' /\ unpack body' = <[i := v]> (unpack body).
Proof using Hbody Hbytes Ht.
  intros Hi. subst b. destruct (triple_split body n i Hbody Hi) as (a & b0 & b1 & b2 & c & E & La & Lc).
  rewrite E in Hbytes. apply bytes_split in Hbytes as (Ba & H0 & H1 & H2 & Bc).
  set (g := (i / 4)%nat) in *. assert (Hj : (i mod 4 < 4)%nat) by (apply Nat.mod_upper_bound; lia).
  assert (Ei : i = (4 * g + i mod 4)%nat) by apply Nat.div_mod_eq. set (j := (i mod 4)%nat) in *.
  assert (Lu : length (unpack a) = (4 * g)%nat) by (by apply length_unpack).
  assert (Eu : unpack body = unpack a ++ unpack3 b0 b1 b2 ++ unpack c) by (rewrite E; by rewrite (unpack_app g)).
  assert (Eb : exists y post, hdr ++ body ++ t :: tl = (hdr ++ a) ++ b0 :: b1 :: b2 :: y :: post /\ is_byte y /\ c ++ t :: tl = y :: post).
  { rewrite E. destruct c as [|y c].
    - exists t, tl. by rewrite <- !app_assoc.
    - exists y, (c ++ t :: tl). inversion Bc. by rewrite <- !app_assoc. }
  destruct Eb as (y & post & Eb & By & Ec). rewrite Eb.
  assert (Hp : zlen (hdr ++ a) = zlen hdr + 3 * Z.of_nat g) by (rewrite zlen_app; unfold zlen; lia).
  replace (Z.of_nat i) with (4 * Z.of_nat g + Z.of_nat j) by lia. rewrite Eu, Ei. split.
  - rewrite (triple_get b0 b1 b2 H0 H1 H2 _ _ _ _ _ Hp By j Hj).
    rewrite lookup_app_r, lookup_app_l by (rewrite Lu; cbn [unpack3 length]; lia). f_equal. lia.
  - intros v Hv. rewrite (triple_set b0 b1 b2 H0 H1 H2 _ _ _ _ _ Hp By j v Hj Hv), <- Ec.
    destruct (set3_bytes b0 b1 b2 H0 H1 H2 j v Hj) as [B3 L3].
    exists (a ++ set3 j v b0 b1 b2 ++ c). split; [by rewrite <- !app_assoc|]. split; [rewrite E, !length_app, L3; done|].
    split; [by rewrite !Forall_app|].
    rewrite (unpack_app g) by done. rewrite (unpack_app 1) by done. rewrite set3_unpack by done.
    rewrite insert_app_r_alt by lia. rewrite Lu, insert_app_l by (cbn [unpack3 length]; lia). do 3 f_equal. lia.
Qed.
End string.
