(* ===== verification/HllVec.v ===== *)
(** * Registers of 256 bits: the AVX2 routines of hyperloglog.c

    A vector of eight 32-bit integers is the list of their bytes; unpacking 24 bytes
    into 32 registers and packing them again are maps over the eight integers. *)
From stdpp Require Import list.
From S2P Require Import Prelude Hll HllDense.

Definition lanes (ws : list Z) : list Z := mjoin (map (le_enc 4) ws).

Lemma epi32_lanes (f : Z -> Z) (ws : list Z) : epi32 f (lanes ws) = lanes (map (fun w => f (u32 w)) ws).
Proof.
  induction ws as [|w ws IH]; [done|]. change (lanes (w :: ws)) with (le_enc 4 w ++ lanes ws).
  pose proof (le_dec_enc 4 w) as E. pose proof (length_le_enc 4 w) as L.
  destruct (le_enc 4 w) as [|a0 [|a1 [|a2 [|a3 [|]]]]]; simpl in L; try lia.
  cbn [app epi32]. rewrite E, IH. done.
Qed.

Lemma lor_le_enc (n : nat) (x y : Z) : zip_with Z.lor (le_enc n x) (le_enc n y) = le_enc n (x ||| y).
Proof.
  revert x y; induction n as [|n IH]; intros x y; [done|]. cbn [le_enc zip_with]. rewrite IH, Z.shiftr_lor. f_equal.
  symmetry. apply Z.land_lor_distr_l.
Qed.

Lemma or_lanes (xs ys : list Z) : or_si256 (lanes xs) (lanes ys) = lanes (zip_with Z.lor xs ys).
Proof.
  unfold or_si256. revert ys; induction xs as [|x xs IH]; intros ys; [done|].
  destruct ys as [|y ys]; [cbn [lanes map mjoin list_join]; by destruct (le_enc 4 x ++ _)|].
  change (lanes (x :: xs)) with (le_enc 4 x ++ lanes xs). change (lanes (y :: ys)) with (le_enc 4 y ++ lanes ys).
  rewrite zip_with_app, IH, lor_le_enc by (by rewrite !length_le_enc). done.
Qed.

Lemma u32_masked (w m : Z) : 0 <= w < 2 ^ 32 -> u32 (w &&& m) = w &&& m.
Proof.
  intros Hw. unfold wrap. rewrite <- Z.land_ones by lia.
  by rewrite <- Z.land_assoc, (Z.land_comm m), Z.land_assoc, Z.land_ones, Z.mod_small by lia.
Qed.

(** A mask of six bits. *)
Lemma land_field (w n : Z) : 0 <= n -> w &&& (63 <<< n) = ((w / 2 ^ n) mod 64) <<< n.
Proof.
  intros Hn. apply Z.bits_inj'. intros k Hk. rewrite Z.land_spec. destruct (decide (k < n)).
  - rewrite !Z.shiftl_spec_low by lia. apply andb_false_r.
  - rewrite !Z.shiftl_spec_high by lia. rewrite <- (land_mod _ 6 63), Z.land_spec, <- Z.shiftr_div_pow2, Z.shiftr_spec by lia.
    f_equal. f_equal. lia.
Qed.

Lemma enc4_split (q0 q1 q2 q3 : Z) :
  is_byte q0 -> is_byte q1 -> is_byte q2 -> is_byte q3 -> le_enc 4 (q0 + 256 * q1 + 65536 * q2 + 16777216 * q3) = [q0; q1; q2; q3].
Proof.
  intros H0 H1 H2 H3. assert (E : bytes_ok [q0; q1; q2; q3]) by (repeat apply Forall_cons_2; auto).
  pose proof (le_enc_dec _ E) as D. cbn [length le_dec] in D. etransitivity; [|exact D]. f_equal. lia.
Qed.

(** ** Unpacking *)

Definition unpack_lane (w : Z) : Z :=
  ((w &&& 0x3f) ||| u32 ((w &&& 0xfc0) <<< 2)) ||| (u32 ((w &&& 0x3f000) <<< 4) ||| u32 ((w &&& 0xfc0000) <<< 6)).

Lemma fields_lor (q0 q1 q2 q3 : Z) :
  reg_ok q0 -> reg_ok q1 -> reg_ok q2 -> reg_ok q3 ->
  (q0 ||| q1 * 256) ||| (q2 * 65536 ||| q3 * 16777216) = q0 + 256 * q1 + 65536 * q2 + 16777216 * q3.
Proof.
  intros H0 H1 H2 H3. cbv beta in *.
  replace (q1 * 256) with (q1 <<< 8) by (by rewrite Z.shiftl_mul_pow2).
  replace (q2 * 65536) with (q2 <<< 16) by (by rewrite Z.shiftl_mul_pow2).
  replace (q3 * 16777216) with ((q3 <<< 8) <<< 16) by (rewrite Z.shiftl_shiftl by lia; by rewrite Z.shiftl_mul_pow2).
  rewrite <- Z.shiftl_lor, (lor_shiftl q0), (lor_shiftl q2) by lia. rewrite (lor_shiftl (_ + _)) by lia. lia.
Qed.

Lemma unpack_lane_spec (b0 b1 b2 : Z) :
  is_byte b0 -> is_byte b1 -> is_byte b2 -> le_enc 4 (unpack_lane (b0 + 256 * b1 + 65536 * b2)) = unpack3 b0 b1 b2.
Proof.
  unfold is_byte. intros H0 H1 H2. set (w := b0 + 256 * b1 + 65536 * b2).
  set (q0 := b0 mod 64). set (q1 := b0 / 64 + b1 mod 16 * 4). set (q2 := b1 / 16 + b2 mod 4 * 16). set (q3 := b2 / 4).
  assert (Q0 : reg_ok q0) by (subst q0; div_lia). assert (Q1 : reg_ok q1) by (subst q1; div_lia).
  assert (Q2 : reg_ok q2) by (subst q2; div_lia). assert (Q3 : reg_ok q3) by (subst q3; div_lia). cbv beta in *.
  assert (F0 : w &&& 0x3f = q0) by (rewrite (land_mod _ 6) by done; subst w q0; div_lia).
  assert (F1 : w &&& 0xfc0 = q1 * 64).
  { change 0xfc0 with (63 <<< 6). rewrite land_field, Z.shiftl_mul_pow2 by lia. f_equal. subst w q1. div_lia. }
  assert (F2 : w &&& 0x3f000 = q2 * 4096).
  { change 0x3f000 with (63 <<< 12). rewrite land_field, Z.shiftl_mul_pow2 by lia. f_equal. subst w q2. div_lia. }
  assert (F3 : w &&& 0xfc0000 = q3 * 262144).
  { change 0xfc0000 with (63 <<< 18). rewrite land_field, Z.shiftl_mul_pow2 by lia. f_equal. subst w q3. div_lia. }
  unfold unpack_lane. rewrite F0, F1, F2, F3, !Z.shiftl_mul_pow2 by lia. rewrite !wrap_small by lia.
  replace (q1 * 64 * 2 ^ 2) with (q1 * 256) by lia. replace (q2 * 4096 * 2 ^ 4) with (q2 * 65536) by lia.
  replace (q3 * 262144 * 2 ^ 6) with (q3 * 16777216) by lia. rewrite fields_lor by done.
  apply enc4_split; unfold is_byte; lia.
Qed.

(** The eight integers of 24 bytes. *)
Fixpoint words24 (l : list Z) : list Z :=
  match l with
  | b0 :: b1 :: b2 :: l => (b0 + 256 * b1 + 65536 * b2) :: words24 l
  | _ => []
  end.

Lemma words24_range (g : nat) (l : list Z) : length l = (3 * g)%nat -> bytes_ok l -> Forall (fun w => 0 <= w < 16777216) (words24 l).
Proof.
  revert l. apply (triple_ind (fun l => bytes_ok l -> Forall (fun w => 0 <= w < 16777216) (words24 l))); [by constructor|].
  intros b0 b1 b2 l IH H. rewrite !Forall_cons in H. unfold is_byte in H. constructor; [lia|]. apply IH. tauto.
Qed.

Lemma unpack_lanes (g : nat) (l : list Z) :
  length l = (3 * g)%nat -> bytes_ok l -> lanes (map unpack_lane (words24 l)) = unpack l.
Proof.
  revert l. apply (triple_ind (fun l => bytes_ok l -> lanes (map unpack_lane (words24 l)) = unpack l)); [done|].
  intros b0 b1 b2 l IH H. rewrite !Forall_cons in H. destruct H as (H0 & H1 & H2 & H). cbn [words24 map unpack].
  change (lanes (?w :: ?ws)) with (le_enc 4 w ++ lanes ws). by rewrite unpack_lane_spec, IH.
Qed.

Lemma unpack_lanes_256 (ws : list Z) :
  Forall (fun w => 0 <= w < 16777216) ws ->
  or_si256 (or_si256 (and_set1 0x0000003f (lanes ws)) (slli_epi32 2 (and_set1 0x00000fc0 (lanes ws))))
    (or_si256 (slli_epi32 4 (and_set1 0x0003f000 (lanes ws))) (slli_epi32 6 (and_set1 0x00fc0000 (lanes ws)))) =
  lanes (map unpack_lane ws).
Proof.
  intros Hws. unfold and_set1, slli_epi32. rewrite !epi32_lanes, !or_lanes. f_equal.
  induction Hws as [|w ws Hw _ IH]; [done|]. cbn [map zip_with] in *. rewrite IH. f_equal.
  rewrite (wrap_small 32 w) by lia. unfold unpack_lane.
  by rewrite !u32_masked by lia.
Qed.

Lemma unpack256_spec (p0 l p1 : list Z) :
  length p0 = 4%nat -> length l = 24%nat -> bytes_ok l -> unpack256 (p0 ++ l ++ p1) = unpack l.
Proof.
  intros H0 Hl Bl. rewrite <- (unpack_lanes 8 l Hl Bl), <- unpack_lanes_256 by (by apply (words24_range 8)).
  assert (E : shuffle_epi8 (p0 ++ l ++ p1) merge_shuffle = lanes (words24 l)); [|unfold unpack256; by rewrite E].
  do 4 (destruct p0 as [|? p0]; [done|]). destruct p0; [|done]. clear H0.
  do 24 (destruct l as [|? l]; [done|]). destruct l; [|done]. clear Hl. rewrite !Forall_cons in Bl. destruct_and!.
  assert (W : forall a b c, is_byte a -> is_byte b -> is_byte c -> le_enc 4 (a + 256 * b + 65536 * c) = [a; b; c; 0]).
  { intros a b c Ha Hb Hc. rewrite <- (enc4_split a b c 0) by (done || unfold is_byte; lia). f_equal. lia. }
  unfold lanes. cbn [words24 map]. rewrite !W by done. reflexivity.
Qed.

(** ** Packing *)

Definition pack_lane (w : Z) : Z :=
  ((w &&& 0x3f) ||| ((w &&& 0x3f00) >>> 2)) ||| (((w &&& 0x3f0000) >>> 4) ||| ((w &&& 0x3f000000) >>> 6)).
Definition pack4 (v0 v1 v2 v3 : Z) : list Z := [v0 + v1 mod 4 * 64; v1 / 4 + v2 mod 16 * 16; v2 / 16 + v3 * 4].

Lemma pack4_unpack (v0 v1 v2 v3 : Z) :
  reg_ok v0 -> reg_ok v1 -> reg_ok v2 -> reg_ok v3 ->
  bytes_ok (pack4 v0 v1 v2 v3) /\ unpack (pack4 v0 v1 v2 v3) = [v0; v1; v2; v3].
Proof.
  cbv beta. intros H0 H1 H2 H3. split.
  - repeat apply Forall_cons_2; auto; unfold is_byte; div_lia.
  - unfold pack4. cbn [unpack app]. unfold unpack3. repeat (apply (f_equal2 cons); [div_lia|]). done.
Qed.

Lemma pack_lane_spec (v0 v1 v2 v3 : Z) :
  reg_ok v0 -> reg_ok v1 -> reg_ok v2 -> reg_ok v3 ->
  le_enc 4 (pack_lane (v0 + 256 * v1 + 65536 * v2 + 16777216 * v3)) = pack4 v0 v1 v2 v3 ++ [0].
Proof.
  cbv beta. intros H0 H1 H2 H3. set (w := v0 + 256 * v1 + 65536 * v2 + 16777216 * v3).
  assert (F0 : w &&& 0x3f = v0) by (rewrite (land_mod _ 6) by done; subst w; div_lia).
  assert (F1 : (w &&& 0x3f00) >>> 2 = v1 <<< 6).
  { change 0x3f00 with (63 <<< 8). rewrite land_field, Z.shiftr_shiftl_l by lia. f_equal. subst w. div_lia. }
  assert (F2 : (w &&& 0x3f0000) >>> 4 = v2 <<< 12).
  { change 0x3f0000 with (63 <<< 16). rewrite land_field, Z.shiftr_shiftl_l by lia. f_equal. subst w. div_lia. }
  assert (F3 : (w &&& 0x3f000000) >>> 6 = (v3 <<< 6) <<< 12).
  { change 0x3f000000 with (63 <<< 24). rewrite land_field, Z.shiftr_shiftl_l, Z.shiftl_shiftl by lia. f_equal. subst w. div_lia. }
  unfold pack_lane. rewrite F0, F1, F2, F3, <- Z.shiftl_lor, (lor_shiftl v0), (lor_shiftl v2) by lia.
  rewrite (lor_shiftl (_ + _)) by lia. unfold pack4. cbn [app].
  rewrite <- enc4_split by (unfold is_byte; div_lia). f_equal. div_lia.
Qed.

Lemma pack_lanes_256 (ws : list Z) :
  Forall (fun w => 0 <= w < 2 ^ 32) ws ->
  or_si256 (or_si256 (and_set1 0x0000003f (lanes ws)) (srli_epi32 2 (and_set1 0x00003f00 (lanes ws))))
    (or_si256 (srli_epi32 4 (and_set1 0x003f0000 (lanes ws))) (srli_epi32 6 (and_set1 0x3f000000 (lanes ws)))) =
  lanes (map pack_lane ws).
Proof.
  intros Hws. unfold and_set1, srli_epi32. rewrite !epi32_lanes, !or_lanes. f_equal.
  induction Hws as [|w ws Hw _ IH]; [done|]. cbn [map zip_with] in *. rewrite IH. f_equal.
  rewrite (wrap_small 32 w) by lia. unfold pack_lane.
  by rewrite !u32_masked by lia.
Qed.

(** Groups of four registers, packed. *)
Fixpoint pack (l : list Z) : list Z :=
  match l with
  | v0 :: v1 :: v2 :: v3 :: l => pack4 v0 v1 v2 v3 ++ pack l
  | _ => []
  end.
Fixpoint words32 (l : list Z) : list Z :=
  match l with
  | v0 :: v1 :: v2 :: v3 :: l => (v0 + 256 * v1 + 65536 * v2 + 16777216 * v3) :: words32 l
  | _ => []
  end.

Lemma quad_ind (P : list Z -> Prop) :
  P [] -> (forall v0 v1 v2 v3 l, P l -> P (v0 :: v1 :: v2 :: v3 :: l)) -> forall (g : nat) l, length l = (4 * g)%nat -> P l.
Proof.
  intros H0 HS g. induction g as [|g IH]; intros l Hl.
  - by destruct l.
  - destruct l as [|v0 [|v1 [|v2 [|v3 l]]]]; simpl in Hl; try lia. apply HS, IH. lia.
Qed.

Lemma pack_spec (g : nat) (l : list Z) :
  length l = (4 * g)%nat -> Forall reg_ok l -> length (pack l) = (3 * g)%nat /\ bytes_ok (pack l) /\ unpack (pack l) = l.
Proof.
  revert l. induction g as [|g IH]; intros l Hl H; [by destruct l|].
  destruct l as [|v0 [|v1 [|v2 [|v3 l]]]]; simpl in Hl; try lia. rewrite !Forall_cons in H. destruct H as (H0 & H1 & H2 & H3 & H).
  destruct (IH l ltac:(lia) H) as (L & B & U). destruct (pack4_unpack v0 v1 v2 v3 H0 H1 H2 H3) as [B4 U4].
  cbn [pack]. split; [rewrite length_app, L; cbn [pack4 length]; lia|]. split; [by apply Forall_app|].
  by rewrite (unpack_app 1), U4, U.
Qed.

Lemma words32_lanes (g : nat) (l : list Z) :
  length l = (4 * g)%nat -> Forall reg_ok l ->
  lanes (words32 l) = l /\ Forall (fun w => 0 <= w < 2 ^ 32) (words32 l) /\
  lanes (map pack_lane (words32 l)) = mjoin (map (fun p => p ++ [0]) (reshape (replicate g 3%nat) (pack l))).
Proof.
  revert l. induction g as [|g IH]; intros l Hl H; [by destruct l|].
  destruct l as [|v0 [|v1 [|v2 [|v3 l]]]]; simpl in Hl; try lia. rewrite !Forall_cons in H. destruct H as (H0 & H1 & H2 & H3 & H).
  destruct (IH l ltac:(lia) H) as (L & B & U). cbn [words32 map pack].
  change (lanes (?w :: ?ws)) with (le_enc 4 w ++ lanes ws).
  split; [rewrite L; rewrite enc4_split by (unfold is_byte; lia); done|]. split; [constructor; [lia|done]|].
  rewrite pack_lane_spec, U by done. done.
Qed.

Lemma pack256_spec (x : list Z) :
  length x = 32%nat -> Forall reg_ok x ->
  take 16 (pack256 x) = take 12 (pack x) ++ [0; 0; 0; 0] /\ drop 16 (pack256 x) = drop 12 (pack x) ++ [0; 0; 0; 0].
Proof.
  intros Hx H. destruct (words32_lanes 8 x Hx H) as (L & W & U). destruct (pack_spec 8 x Hx H) as (Lp & _ & _).
  pose proof (pack_lanes_256 _ W) as E. rewrite L, U in E. unfold pack256. rewrite E. clear E L U W Hx H.
  destruct (pack x) as [|? l]; [done|]. do 23 (destruct l as [|? l]; [done|]). destruct l; [|done]. done.
Qed.
