(* ===== verification/HllRegs.v ===== *)
(** * Loops over registers: hyperloglog.c

    The histograms, the merge into raw registers and the compression of raw
    registers, for the scalar loops and for the AVX2 ones. *)
From stdpp Require Import list.
From S2P Require Import Prelude Hll HllDense HllVec.

(** ** Histograms *)

Definition count (l : list Z) (v : Z) : Z := Z.of_nat (length (filter (fun x => x = v) l)).
(** How often each value occurs among the registers. *)
Definition histo (l : list Z) : list Z := map (count l) (seqZ 0 64).
Definition hadd (h l : list Z) : list Z := zip_with Z.add h (histo l).

Lemma count_app (a b : list Z) (v : Z) : count (a ++ b) v = count a v + count b v.
Proof. unfold count. rewrite filter_app, length_app. lia. Qed.

Lemma histo_lookup (l : list Z) (k : nat) : (k < 64)%nat -> histo l !! k = Some (count l (Z.of_nat k)).
Proof. intros Hk. unfold histo. rewrite list_lookup_fmap, lookup_seqZ_lt by lia. done. Qed.
Lemma length_histo (l : list Z) : length (histo l) = 64%nat.
Proof. done. Qed.

Lemma hadd_length (h l : list Z) : length h = 64%nat -> length (hadd h l) = 64%nat.
Proof. intros H. unfold hadd. rewrite length_zip_with, H. done. Qed.

Lemma hadd_lookup (h l : list Z) (k : nat) (x : Z) : h !! k = Some x -> (k < 64)%nat -> hadd h l !! k = Some (x + count l (Z.of_nat k)).
Proof. intros H Hk. unfold hadd. by rewrite lookup_zip_with, H, histo_lookup. Qed.

Lemma hadd_eq (h h' l : list Z) :
  length h = 64%nat -> length h' = 64%nat ->
  (forall k x, (k < 64)%nat -> h !! k = Some x -> h' !! k = Some (x + count l (Z.of_nat k))) -> h' = hadd h l.
Proof.
  intros Hh Hh' H. apply list_eq. intros k. destruct (decide (k < 64)%nat).
  - destruct (lookup_lt_is_Some_2 h k) as [x E]; [lia|]. by rewrite (H k x), (hadd_lookup h l k x).
  - rewrite !lookup_ge_None_2; [done|rewrite hadd_length; lia|lia].
Qed.

Lemma hadd_app (h a b : list Z) : length h = 64%nat -> hadd (hadd h a) b = hadd h (a ++ b).
Proof.
  intros Hh. apply hadd_eq; [done|by apply hadd_length, hadd_length|]. intros k x Hk E.
  rewrite (hadd_lookup _ b k (x + count a (Z.of_nat k))) by (done || by apply hadd_lookup). rewrite count_app. f_equal. lia.
Qed.
Lemma hadd_nil (h : list Z) : length h = 64%nat -> hadd h [] = h.
Proof. intros Hh. symmetry. apply hadd_eq; [done|done|]. intros k x Hk ->. unfold count. cbn. f_equal. lia. Qed.
Lemma hadd_none (l : list Z) : hadd no_histo l = histo l.
Proof.
  symmetry. apply hadd_eq; [done|done|]. intros k x Hk E. unfold no_histo in E. apply lookup_replicate in E as [-> _].
  by rewrite histo_lookup.
Qed.

Lemma count_replicate (n : nat) (v w : Z) : count (replicate n v) w = if w =? v then Z.of_nat n else 0.
Proof.
  unfold count. induction n as [|n IH]; [by destruct (w =? v)|]. cbn [replicate]. rewrite filter_cons.
  destruct (decide (v = w)) as [->|]; [rewrite Z.eqb_refl in *; cbn [length]; lia|].
  rewrite IH. by rewrite (proj2 (Z.eqb_neq _ _)) by done.
Qed.

Lemma bump_spec (h : list Z) (v : Z) (n : nat) :
  length h = 64%nat -> reg_ok v -> bump h v (Z.of_nat n) = Some (hadd h (replicate n v)).
Proof.
  intros Hh Hv. cbv beta in Hv. unfold bump. rewrite mget_lookup by lia. destruct (lookup_lt_is_Some_2 h (Z.to_nat v)) as [x E]; [lia|].
  rewrite E. sbind. f_equal. apply hadd_eq; [done|by rewrite length_insert|]. intros k y Hk Ey. rewrite count_replicate.
  destruct (decide (Z.of_nat k = v)) as [<-|Hne].
  - rewrite Nat2Z.id in *. rewrite list_lookup_insert_eq by lia. rewrite Z.eqb_refl. congruence.
  - rewrite list_lookup_insert_ne by lia. rewrite (proj2 (Z.eqb_neq _ _)) by done. rewrite Ey. f_equal. lia.
Qed.

Lemma bump_all_spec (h vs : list Z) : length h = 64%nat -> Forall reg_ok vs -> bump_all h vs = Some (hadd h vs).
Proof.
  intros Hh Hvs. revert h Hh. induction Hvs as [|v vs Hv _ IH]; intros h Hh; [by rewrite hadd_nil|].
  cbn [bump_all]. change 1 with (Z.of_nat 1). rewrite (bump_spec h v 1) by done. sbind. rewrite IH by (by apply hadd_length). by rewrite hadd_app.
Qed.

(** ** Dense strings *)

(** A dense string: the header, a body of 12288 bytes with the given registers, and
    the terminator with the unused space. *)
Definition nregs : nat := Z.to_nat HLL_REGISTERS.
Definition dense_at (b hdr regs tl : list Z) : Prop :=
  exists body, b = hdr ++ body ++ tl /\ length body = (3 * Z.to_nat 4096)%nat /\ bytes_ok body /\ unpack body = regs /\
    (exists t tl', tl = t :: tl' /\ is_byte t).

Lemma nregs_eq : nregs = (4 * Z.to_nat 4096)%nat.
Proof. unfold nregs. change HLL_REGISTERS with 16384. lia. Qed.

Lemma dense_at_regs (b hdr regs tl : list Z) : dense_at b hdr regs tl -> length regs = nregs /\ Forall reg_ok regs.
Proof.
  intros (body & _ & L & B & <- & _). split; [rewrite nregs_eq; by apply length_unpack|]. by eapply unpack_ok.
Qed.

Lemma dense_get (b hdr regs tl : list Z) (i : nat) :
  dense_at b hdr regs tl -> (i < nregs)%nat -> HLL_DENSE_GET_REGISTER b (zlen hdr) (Z.of_nat i) = regs !! i.
Proof.
  intros (body & -> & L & B & <- & t & tl' & -> & Ht) Hi. rewrite nregs_eq in Hi.
  by apply (register_step hdr body tl' t (Z.to_nat 4096)).
Qed.

Lemma dense_set (b hdr regs tl : list Z) (i : nat) (v : Z) :
  dense_at b hdr regs tl -> (i < nregs)%nat -> reg_ok v ->
  exists b', HLL_DENSE_SET_REGISTER b (zlen hdr) (Z.of_nat i) v = Some b' /\ dense_at b' hdr (<[i := v]> regs) tl.
Proof.
  intros (body & -> & L & B & <- & t & tl' & -> & Ht) Hi Hv. rewrite nregs_eq in Hi.
  destruct (register_step hdr body tl' t (Z.to_nat 4096) L B Ht i Hi) as [_ H]. destruct (H v Hv) as (body' & E & L' & B' & U).
  exists (hdr ++ body' ++ t :: tl'). split; [done|]. exists body'. split; [done|]. split; [congruence|]. split; [done|]. split; [done|]. by exists t, tl'.
Qed.

Lemma dense_max (b hdr regs tl : list Z) (i : nat) (v x : Z) :
  dense_at b hdr regs tl -> regs !! i = Some x -> reg_ok v ->
  exists b', hllDenseSet b (zlen hdr) (Z.of_nat i) v = Some (b', if v >? x then 1 else 0) /\ dense_at b' hdr (<[i := Z.max x v]> regs) tl.
Proof.
  intros H Hx Hv. destruct (dense_at_regs _ _ _ _ H) as [L _]. assert (Hi : (i < nregs)%nat) by (rewrite <- L; by eapply lookup_lt_Some).
  unfold hllDenseSet. rewrite (dense_get _ _ _ _ _ H Hi), Hx. sbind. destruct (Z.gtb_spec v x).
  - destruct (dense_set _ _ _ _ i v H Hi Hv) as (b' & -> & H'). sbind. exists b'. split; [done|]. by rewrite Z.max_r by lia.
  - exists b. split; [done|]. rewrite Z.max_l by lia. by rewrite list_insert_id.
Qed.

Lemma mread_body (hdr body tl : list Z) (o n : nat) :
  (o + n <= length body)%nat -> mread (hdr ++ body ++ tl) (zlen hdr + Z.of_nat o) (Z.of_nat n) = Some (take n (drop o body)).
Proof.
  intros H. rewrite <- (take_drop o body) at 1. rewrite <- (take_drop n (drop o body)) at 1. rewrite <- !app_assoc, (app_assoc hdr).
  apply mread_app.
  - rewrite zlen_app. unfold zlen. rewrite length_take. lia.
  - unfold zlen. rewrite length_take, length_drop. lia.
Qed.

(** The registers of a part of a body. *)
Lemma unpack_part (body : list Z) (n o k : nat) :
  length body = (3 * n)%nat -> (o + k <= n)%nat -> unpack (take (3 * k) (drop (3 * o) body)) = take (4 * k) (drop (4 * o) (unpack body)).
Proof.
  intros L H. rewrite <- (take_drop (3 * o) body) at 2. rewrite (unpack_app o) by (rewrite length_take; lia).
  rewrite drop_app_length' by (rewrite (length_unpack o); [done|rewrite length_take; lia]).
  set (c := drop (3 * o) body). assert (Lc : length c = (3 * (n - o))%nat) by (subst c; rewrite length_drop; lia).
  rewrite <- (take_drop (3 * k) c) at 2. rewrite (unpack_app k) by (rewrite length_take; lia).
  by rewrite take_app_length' by (rewrite (length_unpack k); [done|rewrite length_take; lia]).
Qed.

(** ** Histogram of dense and raw registers *)

Lemma unrolled_spec (x : list Z) : length x = 12%nat -> bytes_ok x -> unrolled x = Some (unpack x).
Proof.
  intros L B. do 12 (destruct x as [|? x]; [done|]). destruct x; [|done]. clear L. rewrite !Forall_cons in B. destruct_and!.
  assert (G : forall a b c, is_byte a -> is_byte b -> is_byte c ->
    [a &&& 63; ((a >>> 6) ||| (b <<< 2)) &&& 63; ((b >>> 4) ||| (c <<< 4)) &&& 63; (c >>> 2) &&& 63] = unpack3 a b c).
  { intros a b c Ha Hb Hc. destruct (get_cells3 a b c Ha Hb Hc) as (G0 & G1 & G2 & G3). unfold unpack3.
    apply (f_equal2 cons); [by rewrite (land_mod _ 6)|]. apply (f_equal2 cons); [exact G1|]. apply (f_equal2 cons); [exact G2|].
    apply (f_equal2 cons); [|done]. unfold is_byte in *. rewrite (land_mod _ 6), shiftr_div by done. div_lia. }
  cbn [unrolled unpack]. rewrite <- !G by done. done.
Qed.

Lemma histo_loop (body : nat -> list Z -> option (list Z)) (regs h : list Z) (n k : nat) :
  length h = 64%nat -> length regs = (k * n)%nat ->
  (forall j h, (j < n)%nat -> length h = 64%nat -> body j h = Some (hadd h (take k (drop (k * j) regs)))) ->
  for_loop body 0 n h = Some (hadd h regs).
Proof.
  intros Hh Hr Hb.
  destruct (for_loop_ind body (fun j h' => h' = hadd h (take (k * j) regs)) 0 n h) as (h' & E & ->).
  - by rewrite Nat.mul_0_r, hadd_nil.
  - intros j h' Hj ->. eexists. split; [apply Hb; [lia|by apply hadd_length]|].
    rewrite hadd_app, take_take_drop by done. do 2 f_equal. lia.
  - rewrite E. do 2 f_equal. rewrite take_ge by (rewrite Hr; lia). done.
Qed.

Lemma hllDenseRegHisto_spec (b hdr regs tl h : list Z) :
  dense_at b hdr regs tl -> length h = 64%nat -> hllDenseRegHisto b (zlen hdr) h = Some (hadd h regs).
Proof.
  intros H Hh. destruct (dense_at_regs _ _ _ _ H) as [Lr Or]. destruct H as (body & -> & L & B & <- & _).
  unfold hllDenseRegHisto. rewrite nregs_eq in Lr. apply (histo_loop _ _ _ _ 16); [done|rewrite Lr; lia|].
  intros j h' Hj Hh'. unfold dense_histo_step.
  replace (zlen hdr + 12 * Z.of_nat j) with (zlen hdr + Z.of_nat (3 * (4 * j))) by lia. change 12 with (Z.of_nat 12).
  rewrite mread_body by lia. sbind. rewrite unrolled_spec; [|rewrite length_take, length_drop; lia|by apply Forall_take, Forall_drop].
  sbind. change 12%nat with (3 * 4)%nat. rewrite (unpack_part body (Z.to_nat 4096)) by lia.
  rewrite bump_all_spec; [|done|by apply Forall_take, Forall_drop]. do 4 f_equal. lia.
Qed.

Lemma le_dec_zero (x : list Z) : bytes_ok x -> le_dec x = 0 -> x = replicate (length x) 0.
Proof.
  induction 1 as [|a x Ha Hx IH]; [done|]. intros E. pose proof (le_dec_range x Hx). unfold is_byte in Ha. cbn [le_dec] in E.
  cbn [length replicate]. f_equal; [lia|]. apply IH. lia.
Qed.

Lemma reg_ok_bytes (l : list Z) : Forall reg_ok l -> bytes_ok l.
Proof. intros H. apply (Forall_impl _ _ _ H). unfold is_byte. cbv beta. lia. Qed.

Lemma hllRawRegHisto_spec (raw h : list Z) :
  length raw = nregs -> Forall reg_ok raw -> length h = 64%nat -> hllRawRegHisto raw h = Some (hadd h raw).
Proof.
  intros L B Hh. unfold hllRawRegHisto. rewrite nregs_eq in L. change (HLL_REGISTERS / 8) with 2048.
  apply (histo_loop _ _ _ _ 8); [done|rewrite L; lia|].
  intros j h' Hj Hh'. unfold raw_histo_step. pose proof (mread_body [] raw [] (8 * j) 8 ltac:(lia)) as E.
  rewrite app_nil_r in E. cbn [app] in E. rewrite (Nat2Z.inj_mul 8 j) in E. change (zlen [] + ?x) with x in E.
  change (Z.of_nat 8) with 8 in E. rewrite E. sbind.
  set (x := take 8 (drop (8 * j) raw)). assert (Bx : Forall reg_ok x) by (by apply Forall_take, Forall_drop).
  destruct (Z.eqb_spec (le_dec x) 0) as [E0|_]; [|by apply bump_all_spec].
  apply le_dec_zero in E0; [|by apply reg_ok_bytes].
  assert (length x = 8%nat) as Lx by (subst x; rewrite length_take, length_drop; lia).
  rewrite Lx in E0. rewrite E0. by apply (bump_spec h' 0 8).
Qed.

(** ** Merge *)

(** The raw registers with the first [k] merged. *)
Definition merged_upto (k : nat) (raw regs : list Z) : list Z := zip_with Z.max (take k raw) (take k regs) ++ drop k raw.

Lemma mwrite_insert (m : list Z) (k : nat) (v : Z) : (k < length m)%nat -> mwrite m (Z.of_nat k) [v] = Some (<[k := v]> m).
Proof.
  intros H. rewrite insert_take_drop by done. rewrite <- (take_drop k m) at 1.
  destruct (lookup_lt_is_Some_2 m k H) as [x Hx]. rewrite (drop_S m x k Hx).
  apply (mwrite_app (take k m) [x] (drop (S k) m) [v]); [unfold zlen; rewrite length_take; lia|done].
Qed.

Section merged_upto.
Context (raw regs : list Z) (Hl : length raw = length regs).

Lemma length_upto (k : nat) : length (merged_upto k raw regs) = length raw.
Proof using Hl. unfold merged_upto. rewrite length_app, length_zip_with, !length_take, length_drop. lia. Qed.

Lemma upto_lookup (k q : nat) (x v : Z) :
  raw !! q = Some x -> regs !! q = Some v -> merged_upto k raw regs !! q = Some (if bool_decide (q < k)%nat then Z.max x v else x).
Proof using Hl.
  intros Hx Hv. pose proof (lookup_lt_Some _ _ _ Hx). unfold merged_upto. assert (Lz : length (zip_with Z.max (take k raw) (take k regs)) = Nat.min k (length raw)).
  { rewrite length_zip_with, !length_take. lia. }
  case_bool_decide.
  - rewrite lookup_app_l by lia. rewrite lookup_zip_with, !lookup_take_lt by lia. by rewrite Hx, Hv.
  - rewrite lookup_app_r by lia. rewrite Lz, lookup_drop. rewrite <- Hx. f_equal. lia.
Qed.

Lemma upto_insert (k : nat) (x v : Z) :
  raw !! k = Some x -> regs !! k = Some v -> merged_upto (S k) raw regs = <[k := Z.max x v]> (merged_upto k raw regs).
Proof using Hl.
  intros Hx Hv. pose proof (lookup_lt_Some _ _ _ Hx). apply list_eq. intros q.
  destruct (decide (q < length raw)%nat) as [Hq|Hq].
  - destruct (lookup_lt_is_Some_2 raw q) as [y Ey]; [lia|]. destruct (lookup_lt_is_Some_2 regs q) as [w Ew]; [lia|].
    rewrite (upto_lookup (S k) q y w) by done. destruct (decide (q = k)) as [->|].
    + rewrite list_lookup_insert_eq by (rewrite length_upto; lia). rewrite bool_decide_eq_true_2 by lia. congruence.
    + rewrite list_lookup_insert_ne by done. rewrite (upto_lookup k q y w) by done. do 2 case_bool_decide; (done || lia).
  - rewrite !lookup_ge_None_2; [done|rewrite length_insert, length_upto; lia|rewrite length_upto; lia].
Qed.

Lemma upto_all : merged_upto (length raw) raw regs = zip_with Z.max raw regs.
Proof using Hl. unfold merged_upto. by rewrite drop_ge, app_nil_r, Hl, !take_ge by lia. Qed.
Lemma upto_0 : merged_upto 0 raw regs = raw.
Proof using. done. Qed.

(** A run of registers at once. *)
Lemma upto_run (k n : nat) :
  (k + n <= length raw)%nat ->
  mread (merged_upto k raw regs) (Z.of_nat k) (Z.of_nat n) = Some (take n (drop k raw)) /\
  mwrite (merged_upto k raw regs) (Z.of_nat k) (zip_with Z.max (take n (drop k raw)) (take n (drop k regs))) = Some (merged_upto (k + n) raw regs).
Proof using Hl.
  intros H. set (X := zip_with Z.max (take k raw) (take k regs)). assert (Lx : zlen X = Z.of_nat k).
  { unfold zlen, X. rewrite length_zip_with, !length_take. lia. }
  assert (E : merged_upto k raw regs = X ++ take n (drop k raw) ++ drop n (drop k raw)) by (by rewrite take_drop).
  rewrite E. split.
  - apply mread_app; [done|]. unfold zlen. rewrite length_take, length_drop. lia.
  - rewrite (mwrite_app X (take n (drop k raw)) (drop n (drop k raw))).
    + f_equal. unfold merged_upto. rewrite <- !(take_take_drop _ k n), drop_drop, zip_with_app, <- app_assoc by (rewrite !length_take; lia). done.
    + done.
    + rewrite length_zip_with, !length_take, !length_drop. lia.
Qed.
End merged_upto.

Section merge.
Context (b hdr regs tl raw : list Z) (H : dense_at b hdr regs tl) (Hraw : length raw = nregs).

Lemma same_length : length raw = length regs.
Proof using H Hraw. destruct (dense_at_regs _ _ _ _ H) as [L _]. congruence. Qed.

Lemma merge_scalar (i n : nat) :
  (i + n <= nregs)%nat -> for_loop (merge_register b (zlen hdr)) i n (merged_upto i raw regs) = Some (merged_upto (i + n) raw regs).
Proof using H Hraw.
  intros Hn. pose proof same_length as Hl.
  destruct (for_loop_ind (merge_register b (zlen hdr)) (fun j r => r = merged_upto j raw regs) i n (merged_upto i raw regs)) as (r & E & ->); [done| |done].
  intros j r Hj ->. exists (merged_upto (S j) raw regs). split; [|done].
  destruct (lookup_lt_is_Some_2 raw j) as [x Ex]; [lia|]. destruct (lookup_lt_is_Some_2 regs j) as [v Ev]; [lia|].
  unfold merge_register. rewrite (dense_get _ _ _ _ j H) by lia. rewrite Ev. sbind.
  pose proof (upto_lookup raw regs Hl j j x v Ex Ev) as Eu. rewrite bool_decide_eq_false_2 in Eu by lia.
  rewrite mget_lookup, Nat2Z.id, Eu by lia. sbind. rewrite (upto_insert raw regs Hl j x v Ex Ev).
  destruct (Z.gtb_spec v x).
  - rewrite mwrite_insert by (rewrite length_upto by done; lia). by rewrite Z.max_r by lia.
  - rewrite Z.max_l by lia. by rewrite list_insert_id.
Qed.

Lemma merge_vector (n : nat) :
  (32 + 32 * n <= nregs)%nat -> for_loop (merge256 b (zlen hdr)) 0 n (merged_upto 8 raw regs) = Some (merged_upto (8 + 32 * n) raw regs).
Proof using H Hraw.
  intros Hn. pose proof same_length as Hl.
  destruct (for_loop_ind (merge256 b (zlen hdr)) (fun j r => r = merged_upto (8 + 32 * j) raw regs) 0 n (merged_upto 8 raw regs)) as (r & E & ->); [done| |done].
  intros j r Hj ->. exists (merged_upto (8 + 32 * S j) raw regs). split; [|done].
  destruct H as (body & Eb & L & B & U & _). unfold merge256. subst b. rewrite nregs_eq in *.
  replace (zlen hdr + 6 - 4 + 24 * Z.of_nat j) with (zlen hdr + Z.of_nat (2 + 24 * j)) by lia.
  pose proof (mread_body hdr body tl (2 + 24 * j) 32 ltac:(lia)) as R. change (Z.of_nat 32) with 32 in R. rewrite R. sbind.
  replace (8 + 32 * Z.of_nat j) with (Z.of_nat (8 + 32 * j)) by lia.
  destruct (upto_run raw regs Hl (8 + 32 * j) 32 ltac:(lia)) as [Rd Wr]. change (Z.of_nat 32) with 32 in Rd. rewrite Rd. sbind.
  assert (Ex : take 32 (drop (2 + 24 * j) body) =
    take 4 (drop (2 + 24 * j) body) ++ take 24 (drop (6 + 24 * j) body) ++ take 4 (drop (30 + 24 * j) body)).
  { replace (6 + 24 * j)%nat with (2 + 24 * j + 4)%nat by lia. replace (30 + 24 * j)%nat with (2 + 24 * j + 4 + 24)%nat by lia.
    by rewrite <- !drop_drop, (take_take_drop _ 24 4), (take_take_drop _ 4 28). }
  rewrite Ex, unpack256_spec.
  - pose proof (unpack_part body (Z.to_nat 4096) (2 + 8 * j) 8 L ltac:(lia)) as Up. rewrite U in Up.
    replace (3 * (2 + 8 * j))%nat with (6 + 24 * j)%nat in Up by lia. replace (4 * (2 + 8 * j))%nat with (8 + 32 * j)%nat in Up by lia.
    change (unpack (take 24 (drop (6 + 24 * j) body)) = take 32 (drop (8 + 32 * j) regs)) in Up.
    unfold max_epu8. rewrite Up, Wr. do 2 f_equal. lia.
  - rewrite length_take, length_drop. lia.
  - rewrite length_take, length_drop. lia.
  - by apply Forall_take, Forall_drop.
Qed.

Lemma hllMergeDense_spec (use_avx2 : bool) : hllMergeDense use_avx2 raw b (zlen hdr) = Some (zip_with Z.max raw regs).
Proof using H Hraw.
  pose proof same_length as Hl. pose proof (upto_all raw regs Hl) as Ea. rewrite Hraw in Ea. rewrite <- Ea.
  unfold hllMergeDense, hllMergeDenseAVX2. change (HLL_REGISTERS / 32 - 1) with 511. change (HLL_REGISTERS - 24) with 16360.
  destruct use_avx2.
  - pose proof (merge_scalar 0 8 ltac:(rewrite nregs_eq; lia)) as E0. rewrite upto_0 in E0. rewrite E0. sbind. change (0 + 8)%nat with 8%nat.
    rewrite (merge_vector (Z.to_nat 511)) by (rewrite nregs_eq; lia). sbind.
    replace (8 + 32 * Z.to_nat 511)%nat with (Z.to_nat 16360) by lia.
    rewrite merge_scalar by (rewrite nregs_eq; lia). by replace (Z.to_nat 16360 + 24)%nat with nregs by (rewrite nregs_eq; lia).
  - apply (merge_scalar 0 nregs). lia.
Qed.
End merge.

(** ** Compression *)

(** The two halves of a vector, the second over the padding of the first. *)
Lemma two_stores (P M T lo hi z : list Z) :
  length M = 28%nat -> length lo = 12%nat -> length hi = 12%nat -> length z = 4%nat ->
  exists m, mwrite (P ++ M ++ T) (zlen P) (lo ++ z) = Some m /\ mwrite m (zlen P + 12) (hi ++ z) = Some (P ++ lo ++ hi ++ z ++ T).
Proof.
  intros HM Hlo Hhi Hz. exists (P ++ (lo ++ z) ++ drop 16 M ++ T). split.
  - rewrite <- (take_drop 16 M) at 1. rewrite <- app_assoc. apply mwrite_app; [done|]. rewrite length_app, length_take. lia.
  - replace (P ++ (lo ++ z) ++ drop 16 M ++ T) with ((P ++ lo) ++ (z ++ drop 16 M) ++ T) by (by rewrite <- !app_assoc).
    rewrite mwrite_app; [by rewrite <- !app_assoc|rewrite zlen_app; unfold zlen; lia|].
    rewrite !length_app, length_drop. lia.
Qed.

Section compress.
Context (raw hdr tl : list Z) (Hraw : length raw = nregs) (Hok : Forall reg_ok raw).

(** The first [k] registers have been stored. *)
Definition stored_upto (k : nat) (b : list Z) : Prop := exists regs, dense_at b hdr regs tl /\ take k regs = take k raw.

Lemma compress_scalar (i n : nat) (b : list Z) :
  (i + n <= nregs)%nat -> stored_upto i b -> exists b', for_loop (compress_register raw (zlen hdr)) i n b = Some b' /\ stored_upto (i + n) b'.
Proof using Hraw Hok.
  intros Hn Hb. apply (for_loop_ind (compress_register raw (zlen hdr)) stored_upto); [done|].
  intros j c Hj (regs & Hd & Et). destruct (dense_at_regs _ _ _ _ Hd) as [Lr _].
  destruct (lookup_lt_is_Some_2 raw j) as [v Ev]; [lia|]. unfold compress_register. rewrite mget_lookup, Nat2Z.id, Ev by lia. sbind.
  destruct (dense_set _ _ _ _ j v Hd) as (c' & -> & Hd'); [lia|by apply (Forall_lookup_1 _ _ _ _ Hok Ev)|].
  exists c'. split; [done|]. exists (<[j := v]> regs). split; [done|].
  rewrite (take_S_r raw j v Ev), <- Et. rewrite (take_S_r _ j v) by (apply list_lookup_insert_eq; lia). by rewrite take_insert_ge by lia.
Qed.

Lemma compress_vector (n : nat) (b : list Z) :
  (32 + 32 * n <= nregs)%nat -> stored_upto 0 b -> exists b', for_loop (compress256 raw (zlen hdr)) 0 n b = Some b' /\ stored_upto (32 * n) b'.
Proof using Hraw Hok.
  intros Hn Hb. apply (for_loop_ind (compress256 raw (zlen hdr)) (fun j => stored_upto (32 * j))); [done|].
  intros j c Hj (regs & (body & -> & L & B & U & Ht) & Et). rewrite nregs_eq in *. unfold compress256.
  pose proof (mread_body [] raw [] (32 * j) 32 ltac:(lia)) as R. rewrite app_nil_r in R. cbn [app] in R.
  change (zlen [] + ?x) with x in R. change (Z.of_nat 32) with 32 in R. replace (Z.of_nat (32 * j)) with (32 * Z.of_nat j) in R by lia.
  rewrite R. sbind. set (x := take 32 (drop (32 * j) raw)).
  assert (Lx : length x = 32%nat) by (subst x; rewrite length_take, length_drop; lia).
  assert (Ox : Forall reg_ok x) by (by apply Forall_take, Forall_drop).
  destruct (pack256_spec x Lx Ox) as [Plo Phi]. destruct (pack_spec 8 x Lx Ox) as (Lp & Bp & Up). rewrite Plo, Phi.
  set (A := take (24 * j) body). set (D := drop (24 * j + 28) body). set (M := take 28 (drop (24 * j) body)).
  assert (Eb : body = A ++ M ++ D) by (subst A M D; rewrite <- drop_drop, !take_drop; done).
  assert (LA : length A = (3 * (8 * j))%nat) by (subst A; rewrite length_take; lia).
  assert (LM : length M = 28%nat) by (subst M; rewrite length_take, length_drop; lia).
  assert (LD : length D = (3 * Z.to_nat 4096 - 24 * j - 28)%nat) by (subst D; rewrite length_drop; lia).
  assert (UA : unpack A = take (32 * j) regs).
  { pose proof (unpack_part body (Z.to_nat 4096) 0 (8 * j) L ltac:(lia)) as E. rewrite Nat.mul_0_r, !drop_0, U in E.
    replace (3 * (8 * j))%nat with (24 * j)%nat in E by lia. replace (4 * (8 * j))%nat with (32 * j)%nat in E by lia. done. }
  destruct (two_stores (hdr ++ A) M (D ++ tl) (take 12 (pack x)) (drop 12 (pack x)) [0; 0; 0; 0]) as (m & W1 & W2);
    [done|rewrite length_take; lia|rewrite length_drop; lia|done|].
  assert (Ea : hdr ++ body ++ tl = (hdr ++ A) ++ M ++ D ++ tl) by (rewrite Eb at 1; by rewrite <- !app_assoc).
  assert (Eo : zlen (hdr ++ A) = zlen hdr + 24 * Z.of_nat j) by (rewrite zlen_app; unfold zlen at 2; lia).
  rewrite Ea, <- Eo, W1. sbind. rewrite W2. eexists. split; [done|].
  set (body' := A ++ pack x ++ [0; 0; 0; 0] ++ D).
  assert (Bb : bytes_ok body').
  { rewrite Eb in B. apply Forall_app in B as [BA BD]. apply Forall_app in BD as [_ BD]. unfold body'. rewrite !Forall_app.
    split; [done|]. split; [done|]. split; [|done]. repeat apply Forall_cons_2; auto; unfold is_byte; lia. }
  exists (unpack body'). split.
  - exists body'. split; [|split; [|split; [done|split; [done|done]]]].
    + unfold body'. rewrite (app_assoc (take 12 (pack x)) (drop 12 (pack x))), take_drop, <- !app_assoc. done.
    + unfold body'. rewrite !length_app, LA, Lp, LD. cbn [length]. lia.
  - unfold body'. rewrite (unpack_app (8 * j)), (unpack_app 8), Up, UA, Et by done.
    rewrite app_assoc, take_app_length'; [|rewrite length_app, Lx, length_take; lia].
    unfold x. rewrite take_take_drop. f_equal. lia.
Qed.

Lemma hllDenseCompress_spec (use_avx2 : bool) (b : list Z) :
  stored_upto 0 b -> exists b', hllDenseCompress use_avx2 b (zlen hdr) raw = Some b' /\ dense_at b' hdr raw tl.
Proof using Hraw Hok.
  intros Hb. assert (Done : forall b, stored_upto nregs b -> dense_at b hdr raw tl).
  { intros c (regs & Hd & Et). destruct (dense_at_regs _ _ _ _ Hd) as [Lr _]. rewrite !take_ge in Et by lia. by subst regs. }
  unfold hllDenseCompress, hllDenseCompressAVX2. change (HLL_REGISTERS / 32 - 1) with 511. change (HLL_REGISTERS - 32) with 16352. destruct use_avx2.
  - destruct (compress_vector (Z.to_nat 511) b) as (b1 & -> & S1); [rewrite nregs_eq; lia|done|]. sbind.
    replace (32 * Z.to_nat 511)%nat with (Z.to_nat 16352) in S1 by lia.
    destruct (compress_scalar (Z.to_nat 16352) 32 b1) as (b2 & -> & S2); [rewrite nregs_eq; lia|done|].
    exists b2. split; [done|]. apply Done. by replace nregs with (Z.to_nat 16352 + 32)%nat by (rewrite nregs_eq; lia).
  - destruct (compress_scalar 0 nregs b) as (b' & E & S); [lia|done|]. exists b'. split; [exact E|]. by apply Done.
Qed.
End compress.
