(* ===== verification/HllSparse.v ===== *)
(** * Sparse registers: hyperloglog.c

    A sparse string is a list of opcodes, each a run of equal registers.  Every
    string of bytes reads as one ([parse_ops]), where the last opcode of two bytes may
    reach one byte past the end of the string, into its terminator. *)
From stdpp Require Import list.
From S2P Require Import Prelude Hll HllDense HllRegs.

(** ** Opcodes *)

Inductive sop := Zeros (n : Z) | XZeros (n : Z) | Vals (v n : Z).
Definition enc_op (o : sop) : list Z :=
  match o with
  | Zeros n => HLL_SPARSE_ZERO_SET n
  | XZeros n => HLL_SPARSE_XZERO_SET n
  | Vals v n => HLL_SPARSE_VAL_SET v n
  end.
Definition ospan (o : sop) : Z := match o with Zeros n | XZeros n | Vals _ n => n end.
Definition oval (o : sop) : Z := match o with Vals v _ => v | _ => 0 end.
Definition olen (o : sop) : Z := match o with XZeros _ => 2 | _ => 1 end.
Definition sop_ok (o : sop) : Prop :=
  match o with
  | Zeros n => 1 <= n <= 64
  | XZeros n => 1 <= n <= 16384
  | Vals v n => 1 <= v <= 32 /\ 1 <= n <= 4
  end.
Definition encs (l : list sop) : list Z := mjoin (map enc_op l).
(** The registers of a list of opcodes. *)
Definition op_run (o : sop) : list Z := replicate (Z.to_nat (ospan o)) (oval o).
Definition expand (l : list sop) : list Z := mjoin (map op_run l).

Lemma encs_app (a b : list sop) : encs (a ++ b) = encs a ++ encs b.
Proof. unfold encs. by rewrite map_app, join_app. Qed.
Lemma expand_app (a b : list sop) : expand (a ++ b) = expand a ++ expand b.
Proof. unfold expand. by rewrite map_app, join_app. Qed.
Lemma zlen_enc (o : sop) : zlen (enc_op o) = olen o.
Proof. by destruct o. Qed.
Lemma ospan_pos (o : sop) : sop_ok o -> 1 <= ospan o.
Proof. destruct o; simpl; lia. Qed.
Lemma oval_range (o : sop) : sop_ok o -> 0 <= oval o <= 32.
Proof. destruct o; simpl; lia. Qed.
Lemma expand_ok (l : list sop) : Forall sop_ok l -> Forall (fun v => 0 <= v <= 32) (expand l).
Proof.
  induction 1 as [|o l Ho _ IH]; [by constructor|]. change (expand (o :: l)) with (op_run o ++ expand l). apply Forall_app. split; [|done].
  apply Forall_replicate, oval_range, Ho.
Qed.

(** ** What the macros read back *)

(** The kind of an opcode is in its first byte. *)
Lemma kind_cases (c : Z) :
  is_byte c ->
  (HLL_SPARSE_IS_ZERO c = true /\ HLL_SPARSE_IS_XZERO c = false /\ HLL_SPARSE_IS_VAL c = false) \/
  (HLL_SPARSE_IS_ZERO c = false /\ HLL_SPARSE_IS_XZERO c = true /\ HLL_SPARSE_IS_VAL c = false) \/
  (HLL_SPARSE_IS_ZERO c = false /\ HLL_SPARSE_IS_XZERO c = false /\ HLL_SPARSE_IS_VAL c = true).
Proof. intros Hc. by_bytes c Hc. Qed.

(** [o] is the opcode in the bytes [c] and, if it has two, [c1]. *)
Definition op_of (c c1 : Z) : sop :=
  if HLL_SPARSE_IS_ZERO c then Zeros (HLL_SPARSE_ZERO_LEN c)
  else if HLL_SPARSE_IS_VAL c then Vals (HLL_SPARSE_VAL_VALUE c) (HLL_SPARSE_VAL_LEN c)
  else XZeros (HLL_SPARSE_XZERO_LEN c c1).

#[global] Instance op_eq_dec : EqDecision sop.
Proof. solve_decision. Defined.
#[global] Instance op_ok_dec (o : sop) : Decision (sop_ok o).
Proof. destruct o; cbn [sop_ok]; apply _. Defined.

Lemma enc_op_of (c c1 : Z) :
  is_byte c -> is_byte c1 ->
  sop_ok (op_of c c1) /\ enc_op (op_of c c1) = (if HLL_SPARSE_IS_XZERO c then [c; c1] else [c]) /\
  olen (op_of c c1) = (if HLL_SPARSE_IS_XZERO c then 2 else 1).
Proof.
  intros Hc Hc1. unfold is_byte in Hc1.
  assert (Hx : HLL_SPARSE_IS_XZERO c = true -> HLL_SPARSE_IS_ZERO c = false /\ HLL_SPARSE_IS_VAL c = false /\
    0 <= c &&& 63 < 64 /\ u8 ((c &&& 63) ||| 64) = c) by (by_bytes c Hc).
  assert (Hz : HLL_SPARSE_IS_ZERO c = true -> HLL_SPARSE_IS_XZERO c = false /\ 1 <= HLL_SPARSE_ZERO_LEN c <= 64 /\
    HLL_SPARSE_ZERO_SET (HLL_SPARSE_ZERO_LEN c) = [c]) by (by_bytes c Hc).
  assert (Hv : HLL_SPARSE_IS_VAL c = true -> HLL_SPARSE_IS_XZERO c = false /\ 1 <= HLL_SPARSE_VAL_VALUE c <= 32 /\
    1 <= HLL_SPARSE_VAL_LEN c <= 4 /\ HLL_SPARSE_VAL_SET (HLL_SPARSE_VAL_VALUE c) (HLL_SPARSE_VAL_LEN c) = [c]) by (by_bytes c Hc).
  unfold op_of. destruct (kind_cases c Hc) as [(E0 & EX & EV) | [(E0 & EX & EV) | (E0 & EX & EV)]]; rewrite E0, EX, ?EV.
  - destruct (Hz E0) as (_ & Hl & Hs). done.
  - destruct (Hx EX) as (_ & _ & Hl & Hs). unfold HLL_SPARSE_XZERO_LEN, sop_ok, enc_op, HLL_SPARSE_XZERO_SET.
    rewrite (shiftl_lor c1 (c &&& 63) 8) by lia. split; [lia|]. split; [|done].
    replace (c1 + (c &&& 63) * 2 ^ 8 + 1 - 1) with (c1 + (c &&& 63) * 256) by lia.
    rewrite shiftr_8, land_255. replace ((c1 + (c &&& 63) * 256) / 256) with (c &&& 63) by div_lia.
    replace ((c1 + (c &&& 63) * 256) mod 256) with c1 by div_lia. unfold HLL_SPARSE_XZERO_BIT. by rewrite Hs.
  - destruct (Hv EV) as (_ & Hl & Hs & He). done.
Qed.

(** Opcodes the macros wrote are read back. *)
Definition op_first (o : sop) : Z := nth 0 (enc_op o) 0.
Definition op_second (o : sop) : Z := nth 1 (enc_op o) 0.
Definition op_back (o : sop) : Prop := op_of (op_first o) (op_second o) = o /\ bytes_ok (enc_op o).
Lemma range_forall (lo n : Z) (P : Z -> Prop) (dec : forall x, Decision (P x)) (x : Z) :
  forallb (fun x => bool_decide (P x)) (seqZ lo n) = true -> lo <= x < lo + n -> P x.
Proof.
  intros Hall Hx. rewrite forallb_forall in Hall. apply (bool_decide_eq_true_1 _), Hall, list_elem_of_In, elem_of_seqZ. exact Hx.
Qed.
#[global] Instance op_back_dec (o : sop) : Decision (op_back o).
Proof. unfold op_back. apply _. Defined.

Lemma op_back_ok (o : sop) : sop_ok o -> op_back o.
Proof.
  destruct o as [n|n|v n]; cbn [sop_ok]; intros H.
  - apply (range_forall 1 64 (fun n => op_back (Zeros n)) _); [by vm_compute|lia].
  - unfold op_back, op_first, op_second. cbn [enc_op HLL_SPARSE_XZERO_SET nth]. set (l := n - 1).
    assert (Hh : 0 <= l >>> 8 < 64) by (rewrite shiftr_8; subst l; div_lia).
    assert (Hc : let c := u8 ((l >>> 8) ||| HLL_SPARSE_XZERO_BIT) in
      is_byte c /\ HLL_SPARSE_IS_ZERO c = false /\ HLL_SPARSE_IS_VAL c = false /\ c &&& 63 = l >>> 8).
    { generalize dependent (l >>> 8). intros h Hh.
      apply (range_forall 0 64 (fun h => let c := u8 (h ||| HLL_SPARSE_XZERO_BIT) in
        is_byte c /\ HLL_SPARSE_IS_ZERO c = false /\ HLL_SPARSE_IS_VAL c = false /\ c &&& 63 = h) _); [by vm_compute|lia]. }
    destruct Hc as (Bc & E0 & EV & Em). unfold op_of. rewrite E0, EV. unfold HLL_SPARSE_XZERO_LEN. rewrite Em, land_255.
    split; [|repeat apply Forall_cons_2; auto; unfold is_byte; rewrite ?land_255; div_lia].
    rewrite shiftl_lor, shiftr_8 by div_lia. f_equal. subst l. div_lia.
  - apply (range_forall 1 32 (fun v => op_back (Vals v n)) _); [|lia].
    destruct H as [_ H]. assert (n = 1 \/ n = 2 \/ n = 3 \/ n = 4) as [->|[->|[->| ->]]] by lia; by vm_compute.
Qed.

(** ** Reading a string *)

Definition op_at (b : list Z) (p : Z) (o : sop) : Prop :=
  exists c c1, mget b p = Some c /\ is_byte c /\ mget b (p + 1) = Some c1 /\ is_byte c1 /\ op_of c c1 = o.
(** The opcodes between two offsets; the last one may reach one byte further. *)
Fixpoint reads (b : list Z) (p end_ : Z) (l : list sop) : Prop :=
  match l with
  | [] => end_ <= p
  | o :: l => p < end_ /\ op_at b p o /\ reads b (p + olen o) end_ l
  end.
Fixpoint spans (l : list sop) : Z := match l with [] => 0 | o :: l => ospan o + spans l end.
Fixpoint olens (l : list sop) : Z := match l with [] => 0 | o :: l => olen o + olens l end.

Lemma op_at_ok (b : list Z) (p : Z) (o : sop) : op_at b p o -> sop_ok o.
Proof. intros (c & c1 & _ & Hc & _ & Hc1 & <-). by apply enc_op_of. Qed.
Lemma olen_pos (o : sop) : 1 <= olen o <= 2.
Proof. destruct o; simpl; lia. Qed.
Lemma reads_ok (b : list Z) (p end_ : Z) (l : list sop) : reads b p end_ l -> Forall sop_ok l.
Proof. revert p; induction l as [|o l IH]; intros p H; [constructor|]. destruct H as (_ & Ho & H). constructor; [by eapply op_at_ok|by eapply IH]. Qed.
Lemma reads_length (b : list Z) (p end_ : Z) (l : list sop) : reads b p end_ l -> Z.of_nat (length l) <= Z.max 0 (end_ - p).
Proof.
  revert p; induction l as [|o l IH]; intros p H; [simpl; lia|]. destruct H as (Hp & _ & H). specialize (IH _ H).
  pose proof (olen_pos o). cbn [length]. lia.
Qed.

(** Every string of bytes reads as opcodes. *)
Lemma parse_ops (b : list Z) (end_ : Z) :
  bytes_ok b -> end_ < zlen b -> forall (n : nat) p, 0 <= p -> end_ - p <= Z.of_nat n -> exists l, reads b p end_ l.
Proof.
  intros Hb He n. induction n as [|n IH]; intros p Hp Hn; [exists []; simpl; lia|].
  destruct (Z.ltb_spec p end_) as [Hlt|Hge]; [|by exists []].
  destruct (mget_in b p) as [c Ec]; [lia|]. destruct (mget_in b (p + 1)) as [c1 Ec1]; [lia|].
  pose proof (olen_pos (op_of c c1)). destruct (IH (p + olen (op_of c c1))) as [l Hl]; [lia|lia|].
  exists (op_of c c1 :: l). split; [done|]. split; [|done]. exists c, c1.
  split; [done|]. split; [by eapply mget_byte|]. split; [done|]. split; [by eapply mget_byte|done].
Qed.

Lemma op_at_two (pre r : list Z) (c y : Z) (o : sop) :
  is_byte c -> is_byte y -> op_of c y = o -> op_at (pre ++ c :: y :: r) (zlen pre) o.
Proof.
  intros Hc Hy E. exists c, y. split; [by apply mget_app|]. split; [done|]. split; [|done].
  rewrite cons_middle, app_assoc. apply mget_app. autorewrite with zlen. lia.
Qed.
Lemma op_of_any (c x y : Z) : olen (op_of c x) = 1 -> op_of c y = op_of c x.
Proof. unfold op_of. by destruct (HLL_SPARSE_IS_ZERO c), (HLL_SPARSE_IS_VAL c). Qed.
Lemma op_at_enc (pre r : list Z) (y : Z) (o : sop) : sop_ok o -> is_byte y -> op_at (pre ++ enc_op o ++ y :: r) (zlen pre) o.
Proof.
  intros Ho Hy. destruct (op_back_ok o Ho) as [Eo Bo]. unfold op_first, op_second in Eo.
  assert (Hl : olen o = 1 \/ olen o = 2) by (destruct o; cbn; auto). pose proof (zlen_enc o) as Lo. unfold zlen in Lo.
  destruct Hl as [Hl|Hl]; rewrite Hl in Lo.
  - destruct (enc_op o) as [|c [|]]; simpl in Lo; try lia. cbn [nth app] in *. inversion Bo. apply op_at_two; [done|done|].
    rewrite <- Eo. apply op_of_any. by rewrite Eo.
  - destruct (enc_op o) as [|c [|c1 [|]]]; simpl in Lo; try lia. cbn [nth app] in *. rewrite !Forall_cons in Bo. destruct Bo as (B0 & B1 & _). by apply op_at_two.
Qed.
Lemma encs_head (l : list sop) (t : Z) (tl : list Z) :
  Forall sop_ok l -> is_byte t -> exists y r, encs l ++ t :: tl = y :: r /\ is_byte y.
Proof.
  intros Hl Ht. destruct Hl as [|o l Ho _]; [by exists t, tl|]. destruct (op_back_ok o Ho) as [_ Bo].
  change (encs (o :: l)) with (enc_op o ++ encs l). pose proof (zlen_enc o) as L. pose proof (olen_pos o).
  destruct (enc_op o) as [|y r]; [rewrite zlen_nil in L; lia|]. exists y, (r ++ encs l ++ t :: tl). rewrite <- app_assoc. by inversion Bo.
Qed.

(** The opcodes of a string made of them. *)
Lemma reads_encs (pre : list Z) (l : list sop) (t : Z) (tl : list Z) :
  Forall sop_ok l -> is_byte t -> reads (pre ++ encs l ++ t :: tl) (zlen pre) (zlen pre + zlen (encs l)) l.
Proof.
  intros Hl Ht. revert pre. induction Hl as [|o l Ho Hl IH]; intros pre.
  { change (encs []) with (@nil Z). cbn [reads]. rewrite zlen_nil. lia. }
  pose proof (zlen_enc o) as Lo. pose proof (olen_pos o). change (encs (o :: l)) with (enc_op o ++ encs l). rewrite zlen_app.
  pose proof (zlen_nonneg (encs l)). split; [lia|]. rewrite <- app_assoc. split.
  - destruct (encs_head l t tl Hl Ht) as (y & r & -> & Hy). by apply op_at_enc.
  - specialize (IH (pre ++ enc_op o)). rewrite <- app_assoc, zlen_app, Lo in IH. by replace (zlen pre + (zlen (enc_op o) + zlen (encs l))) with (zlen pre + olen o + zlen (encs l)) by lia.
Qed.

(** ** The loop over the opcodes *)

Fixpoint loop_ops {A} (op_run : Z -> Z -> Z -> A -> option A) (l : list sop) (idx : Z) (acc : A) : option (bool * Z * A) :=
  match l with
  | [] => Some (true, idx, acc)
  | o :: l =>
      if ospan o + idx >? HLL_REGISTERS then Some (false, idx, acc)
      else acc ← op_run idx (ospan o) (oval o) acc; loop_ops op_run l (idx + ospan o) acc
  end.

Lemma sparse_loop_ops {A} (op_run : Z -> Z -> Z -> A -> option A) (b : list Z) (end_ : Z) (l : list sop) :
  forall (fuel : nat) p idx acc, reads b p end_ l -> (length l <= fuel)%nat ->
  sparse_loop op_run fuel b p end_ idx acc = loop_ops op_run l idx acc.
Proof.
  induction l as [|o l IH]; intros fuel p idx acc H Hf.
  - simpl in H. destruct fuel; cbn [sparse_loop]; zcase; done.
  - destruct H as (Hp & (c & c1 & Ec & Hc & Ec1 & Hc1 & <-) & H). destruct fuel as [|fuel]; [simpl in Hf; lia|].
    cbn [length] in Hf. cbn [sparse_loop loop_ops]. rewrite (proj2 (Z.ltb_lt _ _)) by done. rewrite Ec. sbind. unfold op_of in *.
    destruct (kind_cases c Hc) as [(E0 & EX & EV) | [(E0 & EX & EV) | (E0 & EX & EV)]]; rewrite E0, ?EX, ?EV in *; cbn [ospan oval olen] in *.
    + destruct (_ >? _); [done|]. destruct (op_run _ _ _ _); [|done]. sbind. apply IH; [done|lia].
    + rewrite Ec1. sbind. destruct (_ >? _); [done|]. destruct (op_run _ _ _ _); [|done]. sbind. apply IH; [done|lia].
    + destruct (_ >? _); [done|]. destruct (op_run _ _ _ _); [|done]. sbind. apply IH; [done|lia].
Qed.

Lemma zlen_expand (l : list sop) : Forall sop_ok l -> zlen (expand l) = spans l.
Proof.
  induction 1 as [|o l Ho _ IH]; [done|]. change (expand (o :: l)) with (op_run o ++ expand l). cbn [spans]. rewrite zlen_app, IH.
  pose proof (ospan_pos o Ho). unfold op_run, zlen. rewrite length_replicate. lia.
Qed.
Lemma spans_nonneg (l : list sop) : Forall sop_ok l -> 0 <= spans l.
Proof. intros H. rewrite <- zlen_expand by done. apply zlen_nonneg. Qed.

(** What one loop computes from the registers read so far. *)
Lemma loop_ops_spec {A} (P : list Z -> A -> Prop) (f : Z -> Z -> Z -> A -> option A) (l : list sop) :
  (forall regs n v acc, P regs acc -> (1 <= n)%nat -> zlen regs + Z.of_nat n <= 16384 -> 0 <= v <= 32 ->
    exists acc', f (zlen regs) (Z.of_nat n) v acc = Some acc' /\ P (regs ++ replicate n v) acc') ->
  Forall sop_ok l -> forall regs acc, P regs acc -> zlen regs <= 16384 ->
  exists idx' acc', loop_ops f l (zlen regs) acc = Some (zlen regs + spans l <=? 16384, idx', acc') /\
    (zlen regs + spans l <= 16384 -> idx' = zlen regs + spans l /\ P (regs ++ expand l) acc').
Proof.
  intros Hf Hl. induction Hl as [|o l Ho Hl IH]; intros regs acc HP Hr.
  - exists (zlen regs), acc. cbn [spans loop_ops]. rewrite Z.add_0_r. zcase. split; [done|]. intros _. split; [done|]. by rewrite app_nil_r.
  - cbn [loop_ops spans]. change HLL_REGISTERS with 16384. pose proof (ospan_pos o Ho) as Hs. pose proof (spans_nonneg l Hl).
    destruct (Z.gtb_spec (ospan o + zlen regs) 16384).
    { exists (zlen regs), acc. zcase. split; [done|lia]. }
    destruct (Hf regs (Z.to_nat (ospan o)) (oval o) acc HP) as (acc1 & E1 & P1); [lia|lia|by apply oval_range|].
    rewrite Z2Nat.id in E1 by lia. rewrite E1. sbind.
    assert (Lr : zlen (regs ++ replicate (Z.to_nat (ospan o)) (oval o)) = zlen regs + ospan o).
    { rewrite zlen_app. unfold zlen at 2. rewrite length_replicate. lia. }
    destruct (IH _ acc1 P1 ltac:(lia)) as (idx' & acc' & E & Hok). rewrite Lr in E, Hok. exists idx', acc'. rewrite E, Z.add_assoc.
    split; [done|]. intros H1. destruct (Hok H1) as [-> HP']. split; [done|].
    change (expand (o :: l)) with (op_run o ++ expand l). unfold op_run. by rewrite app_assoc.
Qed.

(** ** Conversion to dense *)

Section todense.
Context (hdr tl : list Z) (Hhdr : zlen hdr = HLL_HDR_SIZE).

Definition dense_so_far (regs db : list Z) : Prop := exists rest, dense_at db hdr (regs ++ replicate rest 0) tl.

Lemma set_run_spec (n rest : nat) (v : Z) : forall regs db,
  dense_at db hdr (regs ++ replicate (n + rest) 0) tl -> 0 <= v <= 32 ->
  exists db', set_run n (zlen regs) v db = Some db' /\ dense_at db' hdr ((regs ++ replicate n v) ++ replicate rest 0) tl.
Proof using Hhdr.
  induction n as [|n IH]; intros regs db H Hv.
  - exists db. split; [done|]. by rewrite app_nil_r.
  - destruct (dense_at_regs _ _ _ _ H) as [L _]. rewrite length_app, length_replicate in L.
    destruct (dense_set _ _ _ _ (length regs) v H) as (db1 & E1 & H1); [lia|cbv beta; lia|].
    rewrite insert_app_r_alt, Nat.sub_diag in H1 by lia. cbn [Nat.add replicate] in H1.
    change (<[0%nat := v]> (0 :: replicate (n + rest) 0)) with ([v] ++ replicate (n + rest) 0) in H1. rewrite app_assoc in H1.
    destruct (IH _ db1 H1 Hv) as (db' & E & H'). exists db'. cbn [set_run]. rewrite <- Hhdr. change (Z.of_nat (length regs)) with (zlen regs) in E1. rewrite E1. sbind.
    rewrite zlen_app in E. split; [exact E|]. rewrite <- !app_assoc in H'. rewrite <- app_assoc. exact H'.
Qed.

Lemma dense_run_step (regs : list Z) (n : nat) (v : Z) (db : list Z) :
  dense_so_far regs db -> (1 <= n)%nat -> zlen regs + Z.of_nat n <= 16384 -> 0 <= v <= 32 ->
  exists db', dense_run (zlen regs) (Z.of_nat n) v db = Some db' /\ dense_so_far (regs ++ replicate n v) db'.
Proof using Hhdr.
  intros (rest & H) _ Hn Hv. destruct (dense_at_regs _ _ _ _ H) as [L _]. rewrite length_app, length_replicate, nregs_eq in L.
  assert (Er : rest = (n + (rest - n))%nat) by (unfold zlen in Hn; lia). rewrite Er in H. unfold dense_run. destruct (Z.eqb_spec v 0) as [->|].
  - exists db. split; [done|]. exists (rest - n)%nat. by rewrite <- app_assoc, <- replicate_add.
  - rewrite Nat2Z.id. destruct (set_run_spec n (rest - n) v regs db H Hv) as (db' & E & H'). exists db'. split; [done|]. by exists (rest - n)%nat.
Qed.
End todense.

(** ** Merge and histogram *)

Section sparse_merge.
Context (raw : list Z) (Hraw : length raw = nregs) (Hpos : Forall reg_ok raw).

Definition merged (regs max : list Z) : Prop := max = merged_upto (length regs) raw regs.

Lemma upto_snoc (regs : list Z) (v x : Z) :
  raw !! length regs = Some x ->
  merged_upto (length regs) raw regs !! length regs = Some x /\
  <[length regs := Z.max x v]> (merged_upto (length regs) raw regs) = merged_upto (length (regs ++ [v])) raw (regs ++ [v]).
Proof using.
  clear Hraw Hpos.
  intros Hx. pose proof (lookup_lt_Some _ _ _ Hx) as Hl. unfold merged_upto. rewrite (drop_S raw x (length regs) Hx).
  assert (Lz : length (zip_with Z.max (take (length regs) raw) (take (length regs) regs)) = length regs).
  { rewrite length_zip_with, !length_take. lia. }
  split; [by apply list_lookup_middle|]. rewrite insert_app_r_alt by lia. rewrite Lz, Nat.sub_diag. cbn [insert list_insert].
  rewrite length_app, Nat.add_1_r, (take_S_r raw _ x Hx). rewrite (take_ge (regs ++ [v])) by (rewrite length_app; simpl; lia).
  rewrite zip_with_app by (rewrite length_take; lia). rewrite (take_ge regs) by lia. cbn [zip_with]. by rewrite <- app_assoc.
Qed.

Lemma max_run_spec (n : nat) (v : Z) : forall regs, zlen regs + Z.of_nat n <= 16384 ->
  max_run n (zlen regs) v (merged_upto (length regs) raw regs) = Some (merged_upto (length (regs ++ replicate n v)) raw (regs ++ replicate n v)).
Proof using Hraw.
  induction n as [|n IH]; intros regs Hn; [by rewrite app_nil_r|]. rewrite nregs_eq in Hraw.
  destruct (lookup_lt_is_Some_2 raw (length regs)) as [x Hx]; [unfold zlen in Hn; lia|].
  destruct (upto_snoc regs v x Hx) as [El Ei]. cbn [max_run]. rewrite mget_lookup by apply zlen_nonneg. rewrite to_nat_zlen, El. sbind.
  assert (Hlt : (length regs < length (merged_upto (length regs) raw regs))%nat) by (by eapply lookup_lt_Some).
  assert (Ew : (if v >? x then mwrite (merged_upto (length regs) raw regs) (zlen regs) [v] else Some (merged_upto (length regs) raw regs)) =
    Some (merged_upto (length (regs ++ [v])) raw (regs ++ [v]))).
  { rewrite <- Ei. destruct (Z.gtb_spec v x).
    - unfold zlen. rewrite mwrite_insert by done. by rewrite Z.max_r by lia.
    - rewrite Z.max_l by lia. by rewrite list_insert_id. }
  rewrite Ew. sbind. specialize (IH (regs ++ [v])). rewrite zlen_app in IH. change (zlen [v]) with 1 in IH. rewrite IH by lia.
  by rewrite <- app_assoc.
Qed.

Lemma upto_zeros (n : nat) : forall regs, zlen regs + Z.of_nat n <= 16384 ->
  merged_upto (length regs) raw regs = merged_upto (length (regs ++ replicate n 0)) raw (regs ++ replicate n 0).
Proof using Hraw Hpos.
  induction n as [|n IH]; intros regs Hn; [by rewrite app_nil_r|]. rewrite nregs_eq in Hraw.
  destruct (lookup_lt_is_Some_2 raw (length regs)) as [x Hx]; [unfold zlen in Hn; lia|].
  destruct (upto_snoc regs 0 x Hx) as [El Ei]. pose proof (Forall_lookup_1 _ _ _ _ Hpos Hx) as Hx0. cbv beta in Hx0.
  rewrite Z.max_l, list_insert_id in Ei by (lia || done). rewrite Ei, IH by (rewrite zlen_app; change (zlen [0]) with 1; lia).
  by rewrite <- app_assoc.
Qed.

Lemma merge_run_step (regs : list Z) (n : nat) (v : Z) (max : list Z) :
  merged regs max -> (1 <= n)%nat -> zlen regs + Z.of_nat n <= 16384 -> 0 <= v <= 32 ->
  exists max', (if v =? 0 then Some max else max_run (Z.to_nat (Z.of_nat n)) (zlen regs) v max) = Some max' /\ merged (regs ++ replicate n v) max'.
Proof using Hraw Hpos.
  intros -> _ Hn Hv. rewrite Nat2Z.id. eexists. split; [|done]. destruct (Z.eqb_spec v 0) as [->|].
  - f_equal. by apply upto_zeros.
  - by apply max_run_spec.
Qed.
End sparse_merge.

Lemma histo_run_step (h regs : list Z) (n : nat) (v : Z) (h' : list Z) :
  length h = 64%nat -> h' = hadd h regs -> 0 <= v <= 32 ->
  bump h' v (Z.of_nat n) = Some (hadd h (regs ++ replicate n v)).
Proof. intros Hh -> Hv. rewrite bump_spec by (cbv beta; lia || by apply hadd_length). by rewrite hadd_app. Qed.
