(* ===== verification/HllSet.v ===== *)
(** * Update of a register: [hllSparseToDense] and [hllSparseSet]

    On any string of bytes the update stays inside the buffer and no assertion
    fails.  On a string whose opcodes cover the 16384 registers it is the update of
    one register, in the sparse representation or, when that gets too long or the
    value does not fit, in the dense one. *)
From stdpp Require Import list.
From S2P Require Import Prelude Hll HllDense HllRegs HllSparse.

(** ** Strings *)

Definition sds_ok (o : sds) : Prop := 0 <= s_len o < zlen (s_buf o) /\ bytes_ok (s_buf o) /\ (s_type5 o = true -> s_len o < 32).

(** The header of a HyperLogLog: its sixteen bytes, with the encoding at offset 4 and
    the cached cardinality in the last eight. *)
Definition hdr_ok (hdr : list Z) : Prop := length hdr = 16%nat /\ bytes_ok hdr.
Definition invalidated (hdr : list Z) : list Z := alter (fun c => c ||| (1 <<< 7)) 15%nat hdr.

Definition dense_str (o : sds) (hdr regs : list Z) : Prop := s_len o = HLL_DENSE_SIZE /\ exists tl, dense_at (s_buf o) hdr regs tl.

Lemma mget_byte_ex (m : list Z) (i : Z) : bytes_ok m -> 0 <= i < zlen m -> exists c, mget m i = Some c /\ is_byte c.
Proof. intros Hm Hi. destruct (mget_in m i Hi) as [c E]. exists c. split; [done|]. by eapply mget_byte. Qed.

Lemma bytes_ok_mget (m : list Z) : (forall i c, mget m i = Some c -> is_byte c) -> bytes_ok m.
Proof. intros H. apply Forall_lookup_2. intros i c E. apply (H (Z.of_nat i)). by rewrite mget_lookup, Nat2Z.id by lia. Qed.

Lemma mget_outside (m : list Z) (i : Z) : i < 0 \/ zlen m <= i -> mget m i = None.
Proof. intros H. destruct (mget m i) eqn:E; [|done]. apply mget_range in E. lia. Qed.

Lemma mwrite_bytes_ok (m src : list Z) (off : Z) (m' : list Z) : bytes_ok m -> bytes_ok src -> mwrite m off src = Some m' -> bytes_ok m'.
Proof.
  intros Hm Hs. unfold mwrite. destruct (_ && _); [|done]. intros [= <-]. rewrite !Forall_app.
  split; [by apply Forall_take|]. split; [done|by apply Forall_drop].
Qed.

(** A region that agrees with a list at its start. *)
Lemma prefix_of_mget (m l : list Z) : zlen l <= zlen m -> (forall i, 0 <= i < zlen l -> mget m i = mget l i) -> exists r, m = l ++ r.
Proof.
  intros Hl H. exists (drop (length l) m). rewrite <- (take_drop (length l) m) at 1. f_equal. apply mget_ext.
  - unfold zlen in *. rewrite length_take. lia.
  - intros i Hi. assert (Hi' : 0 <= i < zlen l) by (unfold zlen in *; rewrite length_take in Hi; lia).
    rewrite <- H by done. rewrite !mget_lookup by lia. apply lookup_take_lt. unfold zlen in Hi'. lia.
Qed.

Lemma invalidate_spec (b : list Z) :
  bytes_ok b -> 16 <= zlen b -> HLL_INVALIDATE_CACHE b = Some (alter (fun c => c ||| (1 <<< 7)) 15%nat b) /\
  bytes_ok (alter (fun c => c ||| (1 <<< 7)) 15%nat b).
Proof.
  intros Hb Hl. unfold HLL_INVALIDATE_CACHE. destruct (mget_byte_ex b 15 Hb) as (c & E & Hc); [lia|]. rewrite E. sbind.
  rewrite mget_lookup in E by lia. change (Z.to_nat 15) with 15%nat in E. change 15 with (Z.of_nat 15). rewrite mwrite_insert by (unfold zlen in Hl; lia).
  assert (Ea : alter (fun c => c ||| (1 <<< 7)) 15%nat b = <[15%nat := c ||| (1 <<< 7)]> b).
  { apply list_eq. intros i. destruct (decide (i = 15%nat)) as [->|].
    - rewrite list_lookup_alter_eq, list_lookup_insert_eq, E; [done|unfold zlen in Hl; lia].
    - by rewrite list_lookup_alter_ne, list_lookup_insert_ne. }
  rewrite Ea. split; [done|]. apply Forall_insert; [done|]. clear -Hc. by_bytes c Hc.
Qed.
Lemma invalidated_app (hdr r : list Z) : length hdr = 16%nat -> alter (fun c => c ||| (1 <<< 7)) 15%nat (hdr ++ r) = invalidated hdr ++ r.
Proof. intros H. apply alter_app_l. lia. Qed.

Section alloc.
Context (usable : Z -> Z) (fresh : nat -> Z) (hll_sparse_max_bytes : Z).
Context (Husable : forall n, n <= usable n) (Hfresh : forall n, is_byte (fresh n)).

Lemma fresh_bytes_ok (n : Z) : bytes_ok (fresh_bytes fresh n).
Proof using Hfresh. unfold fresh_bytes. apply Forall_fmap, Forall_true. intros. apply Hfresh. Qed.
Lemma zlen_fresh (n : Z) : 0 <= n -> zlen (fresh_bytes fresh n) = n.
Proof using. intros H. unfold fresh_bytes, zlen. rewrite length_fmap, length_seq. lia. Qed.

Lemma sdsnewlen_ok (init : list Z) :
  bytes_ok init -> sds_ok (sdsnewlen usable fresh init) /\ s_len (sdsnewlen usable fresh init) = zlen init /\
  exists tl, s_buf (sdsnewlen usable fresh init) = init ++ 0 :: tl.
Proof using Husable Hfresh.
  intros Hi. pose proof (zlen_nonneg init). pose proof (Husable (zlen init)). split; [|split; [done|by eexists]].
  unfold sds_ok, sdsnewlen. cbn [s_len s_buf s_type5]. split; [|split].
  - autorewrite with zlen. rewrite zlen_fresh by lia. lia.
  - rewrite !Forall_app. split; [done|]. split; [|apply fresh_bytes_ok]. apply Forall_cons_2; [unfold is_byte; lia|done].
  - rewrite andb_true_iff. lia.
Qed.

(** ** Conversion *)

Lemma unpack_zeros (n : nat) : unpack (replicate (3 * n) 0) = replicate (4 * n) 0.
Proof using.
  induction n as [|n IH]; [done|]. replace (3 * S n)%nat with (S (S (S (3 * n)))) by lia.
  replace (4 * S n)%nat with (S (S (S (S (4 * n))))) by lia. cbn [replicate unpack]. rewrite IH. done.
Qed.

Lemma dense_zeros (hdr tl : list Z) : dense_at (hdr ++ replicate (Z.to_nat 12288) 0 ++ 0 :: tl) hdr (replicate nregs 0) (0 :: tl).
Proof using.
  exists (replicate (Z.to_nat 12288) 0). split; [done|]. split; [rewrite length_replicate; lia|].
  split; [apply Forall_replicate; unfold is_byte; lia|]. split; [|exists 0, tl; split; [done|unfold is_byte; lia]].
  replace (Z.to_nat 12288) with (3 * Z.to_nat 4096)%nat by lia. by rewrite unpack_zeros, nregs_eq.
Qed.

Lemma dense_at_bytes (b hdr regs tl : list Z) : dense_at b hdr regs tl -> bytes_ok hdr -> bytes_ok tl -> bytes_ok b.
Proof using. intros (body & -> & _ & B & _) Hh Ht. by rewrite !Forall_app. Qed.
Lemma dense_at_zlen (b hdr regs tl : list Z) : dense_at b hdr regs tl -> zlen b = zlen hdr + 12288 + zlen tl /\ 1 <= zlen tl.
Proof using. intros (body & -> & L & _ & _ & t & tl' & -> & _). autorewrite with zlen. pose proof (zlen_nonneg tl'). unfold zlen at 2. lia. Qed.

Definition dense_hdr (b : list Z) : list Z := <[4%nat := HLL_DENSE]> (take 16 b).

Lemma read_header (b : list Z) : 16 <= zlen b -> mread b 0 HLL_HDR_SIZE = Some (take 16 b).
Proof using. intros H. unfold mread, HLL_HDR_SIZE. zcase. done. Qed.

Lemma new_dense (hdr : list Z) :
  hdr_ok hdr -> exists tl, bytes_ok (0 :: tl) /\
  mwrite (s_buf (sdsnewlen_null usable fresh HLL_DENSE_SIZE)) 0 hdr = Some (hdr ++ replicate (Z.to_nat 12288) 0 ++ 0 :: tl) /\
  set_encoding (hdr ++ replicate (Z.to_nat 12288) 0 ++ 0 :: tl) HLL_DENSE =
    Some (<[4%nat := HLL_DENSE]> hdr ++ replicate (Z.to_nat 12288) 0 ++ 0 :: tl).
Proof using Husable Hfresh.
  intros [Hl Hb]. unfold sdsnewlen_null, sdsnewlen. cbn [s_buf]. change HLL_DENSE_SIZE with 12304.
  eexists. split; [|split].
  - apply Forall_cons_2; [unfold is_byte; lia|]. apply fresh_bytes_ok.
  - replace (Z.to_nat 12304) with (16 + Z.to_nat 12288)%nat by lia. rewrite replicate_add, <- app_assoc.
    apply (mwrite_app [] (replicate 16 0) _ hdr); [done|]. by rewrite length_replicate.
  - unfold set_encoding. change 4 with (Z.of_nat 4). rewrite mwrite_insert by (rewrite length_app; lia). by rewrite insert_app_l by lia.
Qed.

Lemma dense_str_new (db hdr regs tl : list Z) :
  dense_at db hdr regs tl -> zlen hdr = HLL_HDR_SIZE -> bytes_ok hdr -> bytes_ok tl ->
  let o := with_buf (sdsnewlen_null usable fresh HLL_DENSE_SIZE) db in sds_ok o /\ dense_str o hdr regs.
Proof using.
  intros Hd Lh Bh Bt o. destruct (dense_at_zlen _ _ _ _ Hd) as [Lb Lt]. unfold HLL_HDR_SIZE in Lh.
  assert (Lo : s_len o = HLL_DENSE_SIZE) by (cbn; unfold zlen; rewrite length_replicate; done).
  split; [|split; [done|by exists tl]]. split; [rewrite Lo; change HLL_DENSE_SIZE with 12304; cbn [o with_buf s_buf]; lia|].
  split; [by eapply dense_at_bytes|]. intros H5. cbn [o with_buf s_type5 sdsnewlen_null sdsnewlen] in H5.
  apply andb_true_iff in H5 as [_ H5]. unfold zlen in H5. rewrite length_replicate in H5. by vm_compute in H5.
Qed.

Lemma todense_spec (o : sds) (e : Z) (l : list sop) :
  sds_ok o -> 16 <= s_len o -> mget (s_buf o) 4 = Some e -> e <> HLL_DENSE -> reads (s_buf o) 16 (s_len o) l ->
  exists o', hllSparseToDense usable fresh o = Some (if spans l =? 16384 then (true, o') else (false, o)) /\
    (spans l = 16384 -> sds_ok o' /\ dense_str o' (dense_hdr (s_buf o)) (expand l)).
Proof using Husable Hfresh.
  intros (Hlen & Hb & _) H16 He Hne Hr. unfold hllSparseToDense, hdr_encoding. rewrite He. sbind.
  rewrite (proj2 (Z.eqb_neq _ _)) by done. rewrite read_header by lia. sbind.
  assert (Hh : hdr_ok (take 16 (s_buf o))) by (split; [rewrite length_take; unfold zlen in *; lia|by apply Forall_take]).
  destruct (new_dense _ Hh) as (tl & Bt & -> & E2). sbind. rewrite E2. sbind. set (hdr := <[4%nat := HLL_DENSE]> (take 16 (s_buf o))) in *.
  assert (Lh : zlen hdr = HLL_HDR_SIZE) by (unfold zlen, hdr; rewrite length_insert; by destruct Hh as [-> _]).
  pose proof (reads_length _ _ _ _ Hr). change HLL_HDR_SIZE with 16 at 1.
  rewrite (sparse_loop_ops _ _ _ l) by (done || lia).
  destruct (loop_ops_spec (dense_so_far hdr (0 :: tl)) dense_run l (dense_run_step hdr (0 :: tl) Lh) (reads_ok _ _ _ _ Hr) []
    (hdr ++ replicate (Z.to_nat 12288) 0 ++ 0 :: tl)) as (idx & db & E & Hok).
  { exists nregs. apply dense_zeros. }
  { rewrite zlen_nil. lia. }
  rewrite zlen_nil, Z.add_0_l in E, Hok. rewrite E. sbind. change HLL_REGISTERS with 16384.
  exists (with_buf (sdsnewlen_null usable fresh HLL_DENSE_SIZE) db).
  destruct (Z.leb_spec (spans l) 16384) as [Hs|Hs]; [|rewrite (proj2 (Z.eqb_neq (spans l) 16384)) by lia; split; [done|lia]].
  destruct (Hok Hs) as [-> [rest Hd]]. cbn [negb orb app] in *. split; [by destruct (_ =? _)|]. intros H1.
  destruct (dense_at_regs _ _ _ _ Hd) as [Lr _]. pose proof (zlen_expand l (reads_ok _ _ _ _ Hr)) as Lx.
  assert (rest = 0%nat) as -> by (rewrite length_app, length_replicate, nregs_eq in Lr; unfold zlen in Lx; lia).
  rewrite app_nil_r in Hd. apply (dense_str_new db hdr (expand l) (0 :: tl)); [done|done| |done]. apply Forall_insert; [by apply Forall_take|unfold is_byte, HLL_DENSE; lia].
Qed.

(** [hllDenseSet] on a dense string. *)
Lemma dense_str_set (o : sds) (hdr regs : list Z) (i : nat) (v x : Z) :
  sds_ok o -> dense_str o hdr regs -> hdr_ok hdr -> regs !! i = Some x -> reg_ok v ->
  exists b, hllDenseSet (s_buf o) HLL_HDR_SIZE (Z.of_nat i) v = Some (b, if v >? x then 1 else 0) /\
    sds_ok (with_buf o b) /\ dense_str (with_buf o b) hdr (<[i := Z.max x v]> regs).
Proof using.
  intros (Hlen & Hb & H5) [Hl [tl Hd]] [Lh Bh] Hx Hv. destruct (dense_max _ _ _ _ i v x Hd Hx Hv) as (b & E & Hd').
  assert (zlen hdr = HLL_HDR_SIZE) as Eh by (unfold zlen; by rewrite Lh). rewrite Eh in E. exists b. split; [done|].
  destruct (dense_at_zlen _ _ _ _ Hd) as [L1 _]. destruct (dense_at_zlen _ _ _ _ Hd') as [L2 _].
  assert (Bt : bytes_ok tl) by (destruct Hd as (body & Eb & _); rewrite Eb, !Forall_app in Hb; tauto).
  split; [|split; [done|by exists tl]]. split; [cbn [with_buf s_len s_buf]; lia|]. split; [by eapply dense_at_bytes|done].
Qed.

Lemma dense_hdr_ok (b : list Z) : bytes_ok b -> 16 <= zlen b -> hdr_ok (dense_hdr b).
Proof using.
  intros Hb Hl. split; [unfold dense_hdr; rewrite length_insert, length_take; unfold zlen in Hl; lia|].
  apply Forall_insert; [by apply Forall_take|unfold is_byte, HLL_DENSE; lia].
Qed.

Lemma promote_spec (o : sds) (e : Z) (l : list sop) (i : nat) (count : Z) :
  sds_ok o -> 16 <= s_len o -> mget (s_buf o) 4 = Some e -> e <> HLL_DENSE -> reads (s_buf o) 16 (s_len o) l ->
  (i < nregs)%nat -> reg_ok count -> (forall v, expand l !! i = Some v -> v < count) ->
  exists o', sparse_promote usable fresh o (Z.of_nat i) count = Some (if spans l =? 16384 then (o', 1) else (o, -1)) /\
    (spans l = 16384 -> sds_ok o' /\ dense_str o' (dense_hdr (s_buf o)) (<[i := count]> (expand l))).
Proof using Husable Hfresh.
  intros Ho H16 He Hne Hr Hi Hc Hlt. destruct (todense_spec o e l Ho H16 He Hne Hr) as (o1 & E1 & H1). unfold sparse_promote. rewrite E1. sbind.
  destruct (Z.eqb_spec (spans l) 16384) as [Es|Es]; cbn [negb]; [|by exists o].
  destruct (H1 Es) as [Ho1 Hd]. destruct Ho as (Hlen & Hb & _).
  pose proof (zlen_expand l (reads_ok _ _ _ _ Hr)) as Lx. rewrite nregs_eq in Hi.
  destruct (lookup_lt_is_Some_2 (expand l) i) as [x Hx]; [unfold zlen in Lx; lia|].
  destruct (dense_str_set o1 _ _ i count x Ho1 Hd (dense_hdr_ok _ Hb ltac:(lia)) Hx Hc) as (b & E & Ho2 & Hd2). specialize (Hlt x Hx).
  rewrite E. sbind. rewrite (proj2 (Z.gtb_lt _ _)) in * by lia. cbn [negb Z.eqb Pos.eqb]. exists (with_buf o1 b). split; [done|]. intros _.
  rewrite Z.max_r in Hd2 by lia. done.
Qed.

(** ** Finding the opcode of a register *)

Definition prev_of (p : Z) (prev : option Z) (l1 : list sop) : option Z :=
  match l1 with [] => prev | _ => Some (p + olens (removelast l1)) end.
Lemma prev_of_cons (p : Z) (prev : option Z) (o : sop) (l1 : list sop) :
  prev_of (p + olen o) (Some p) l1 = prev_of p prev (o :: l1).
Proof using. destruct l1 as [|o' l1]; cbn [prev_of removelast olens]; f_equal; [lia|]. destruct l1; cbn [olens]; lia. Qed.

Lemma find_op_spec (b : list Z) (index end_ : Z) (l : list sop) : forall (fuel : nat) p prev first span,
  reads b p end_ l -> (length l <= fuel)%nat -> first <= index ->
  (exists l1 o l2, l = l1 ++ o :: l2 /\
    find_op fuel b index end_ p prev first span = Some (p + olens l1, prev_of p prev l1, first + spans l1, ospan o) /\
    first + spans l1 <= index < first + spans l1 + ospan o /\ p + olens l1 < end_ /\ op_at b (p + olens l1) o /\
    reads b (p + olens l1 + olen o) end_ l2) \/
  (exists p' r, find_op fuel b index end_ p prev first span = Some (p', r.1.1, r.1.2, r.2) /\ end_ <= p' /\ first + spans l <= index).
Proof using.
  induction l as [|o l IH]; intros fuel p prev first span H Hf Hi.
  - right. exists p, (prev, first, span). cbn [reads] in H. destruct fuel; cbn [find_op spans]; zcase; (split; [done|lia]).
  - destruct H as (Hp & Ho & H). destruct fuel as [|fuel]; [simpl in Hf; lia|]. cbn [length] in Hf. cbn [find_op].
    rewrite (proj2 (Z.ltb_lt _ _)) by done.
    assert (Es : op_span b p = Some (olen o, ospan o)).
    { destruct Ho as (c & c1 & Ec & Hc & Ec1 & Hc1 & <-). unfold op_span, op_of. rewrite Ec. sbind.
      destruct (HLL_SPARSE_IS_ZERO c); [done|]. destruct (HLL_SPARSE_IS_VAL c); [done|]. by rewrite Ec1. }
    rewrite Es. sbind. destruct (Z.leb_spec index (first + ospan o - 1)).
    + left. exists [], o, l. cbn [app olens spans prev_of]. rewrite !Z.add_0_r. split; [done|]. split; [done|]. split; [lia|done].
    + destruct (IH fuel (p + olen o) (Some p) (first + ospan o) (ospan o) H ltac:(lia) ltac:(lia)) as [(l1 & o' & l2 & -> & E & Hx)|(p' & r & E & Hx)].
      * left. exists (o :: l1), o', l2. rewrite E, (prev_of_cons p prev). cbn [olens spans]. rewrite !Z.add_assoc. done.
      * right. exists p', r. rewrite E. cbn [spans]. split; [done|]. lia.
Qed.
End alloc.

(** ** Merging adjacent values *)

(** The same header up to the flag of the cache, in another buffer of the same size. *)
Definition kept_hdr (o o' : sds) : Prop :=
  sds_ok o' /\ 16 <= s_len o' /\ s_type5 o' = s_type5 o /\ zlen (s_buf o') = zlen (s_buf o) /\
  forall i, i < 15 -> mget (s_buf o') i = mget (s_buf o) i.
Lemma kept_hdr_refl (o : sds) : sds_ok o -> 16 <= s_len o -> kept_hdr o o.
Proof. done. Qed.
Lemma kept_hdr_trans (o1 o2 o3 : sds) : kept_hdr o1 o2 -> kept_hdr o2 o3 -> kept_hdr o1 o3.
Proof.
  intros (_ & _ & A1 & A2 & A3) (B0 & B & B1 & B2 & B3). split; [done|]. split; [done|]. split; [congruence|]. split; [congruence|].
  intros i Hi. rewrite B3 by done. by apply A3.
Qed.

(** [HLL_SPARSE_VAL_SET] is a byte. *)
Lemma val_set_byte (v n : Z) : exists c, HLL_SPARSE_VAL_SET v n = [c] /\ is_byte c.
Proof. eexists. split; [done|]. apply (wrap_range 8). lia. Qed.

(** The merge of the two bytes at [p]: what is on their right moves one to the left. *)
Lemma merge_pair (o : sds) (p c : Z) :
  sds_ok o -> 0 <= p -> p + 1 < s_len o -> is_byte c ->
  exists b1 b2 o', mwrite (s_buf o) (p + 1) [c] = Some b1 /\ memmove b1 p (p + 1) (s_len o - p) = Some b2 /\
    sdsIncrLen (with_buf o b2) (-1) = Some o' /\ sds_ok o' /\ s_len o' = s_len o - 1 /\ s_type5 o' = s_type5 o /\
    zlen (s_buf o') = zlen (s_buf o) /\ mget (s_buf o') p = Some c /\ mget (s_buf o') (s_len o - 1) = Some 0 /\
    (forall i, i < p -> mget (s_buf o') i = mget (s_buf o) i) /\
    (forall i, p < i < s_len o - 1 -> mget (s_buf o') i = mget (s_buf o) (i + 1)).
Proof.
  intros (Hlen & Hb & H5) Hp Hp1 Hc. destruct (mwrite_byte (s_buf o) (p + 1) c) as (b1 & E1 & L1 & G1); [lia|].
  assert (B1 : bytes_ok b1) by (eapply mwrite_bytes_ok; [exact Hb| |exact E1]; by apply Forall_cons_2).
  unfold memmove. destruct (mread_ok b1 (p + 1) (s_len o - p)) as (bs & E2 & L2 & G2); [lia|lia|lia|].
  assert (Bs : bytes_ok bs).
  { apply bytes_ok_mget. intros i x Hx. pose proof (mget_range _ _ _ Hx). rewrite G2 in Hx by lia. by eapply mget_byte. }
  destruct (mwrite_ok b1 p bs) as (b2 & E3 & L3 & G3 & G3'); [lia|lia|].
  assert (B2 : bytes_ok b2) by (eapply mwrite_bytes_ok; [exact B1|exact Bs|exact E3]).
  destruct (mwrite_byte b2 (s_len o - 1) 0) as (b3 & E4 & L4 & G4); [lia|].
  assert (B3 : bytes_ok b3) by (eapply mwrite_bytes_ok; [exact B2| |exact E4]; apply Forall_cons_2; [unfold is_byte; lia|done]).
  exists b1, b2, (Sds (s_type5 o) (s_len o - 1) b3). split; [done|]. split; [by rewrite E2|]. split.
  - unfold sdsIncrLen, with_buf. cbn [s_type5 s_len s_buf]. rewrite L3, L1. change (s_len o + -1) with (s_len o - 1).
    assert (Ok : (s_len o >=? - (-1)) = true) by (apply Z.geb_le; lia). rewrite Ok. change (-1 >? 0) with false. change (-1 >=? 0) with false.
    change (-1 <? 0) with true. cbn [andb orb]. rewrite E4. by destruct (s_type5 o).
  - cbn [s_len s_buf s_type5]. split; [split; [cbn [s_len s_buf]; lia|split; [done|cbn [s_type5 s_len]; intros H; specialize (H5 H); lia]]|]. split; [done|]. split; [done|]. split; [lia|].
    split; [rewrite G4; zcase; specialize (G3 0); rewrite Z.add_0_r in G3; rewrite G3, G2 by lia; rewrite G1; zcase; done|].
    split; [rewrite G4; zcase; done|]. split.
    + intros i Hi. rewrite G4. zcase. rewrite G3' by lia. rewrite G1. zcase. done.
    + intros i Hi. rewrite G4. zcase. replace i with (p + (i - p)) at 1 by lia. rewrite G3, G2, G1 by lia. zcase. f_equal. lia.
Qed.

(** What the macros say of the opcode at an offset. *)
Lemma op_at_kind (b : list Z) (p : Z) (o : sop) :
  op_at b p o -> exists c, mget b p = Some c /\ is_byte c /\
    match o with
    | Zeros n => HLL_SPARSE_IS_ZERO c = true /\ HLL_SPARSE_IS_XZERO c = false /\ HLL_SPARSE_IS_VAL c = false /\ HLL_SPARSE_ZERO_LEN c = n
    | XZeros _ => HLL_SPARSE_IS_ZERO c = false /\ HLL_SPARSE_IS_XZERO c = true /\ HLL_SPARSE_IS_VAL c = false
    | Vals v n => HLL_SPARSE_IS_ZERO c = false /\ HLL_SPARSE_IS_XZERO c = false /\ HLL_SPARSE_IS_VAL c = true /\
        HLL_SPARSE_VAL_VALUE c = v /\ HLL_SPARSE_VAL_LEN c = n
    end.
Proof.
  intros (c & c1 & Ec & Hc & _ & _ & <-). exists c. split; [done|]. split; [done|]. unfold op_of.
  destruct (kind_cases c Hc) as [(E0 & EX & EV) | [(E0 & EX & EV) | (E0 & EX & EV)]]; rewrite ?E0, ?EV; done.
Qed.

Lemma merge_safe (n : nat) : forall o p, sds_ok o -> 16 <= s_len o -> 16 <= p ->
  exists o', merge_vals n o p (s_len o) = Some o' /\ kept_hdr o o'.
Proof.
  induction n as [|n IH]; intros o p Ho H16 Hp; cbn [merge_vals].
  { destruct (p <? s_len o); exists o; split; done. }
  destruct (Z.ltb_spec p (s_len o)) as [Hlt|]; [|by exists o].
  destruct (mget_byte_ex (s_buf o) p) as (c & -> & Hc); [apply Ho|destruct Ho; lia|]. sbind.
  assert (Next : forall k, 0 <= k -> exists o', merge_vals n o (p + k) (s_len o) = Some o' /\ kept_hdr o o') by (intros k Hk; apply IH; [done|done|lia]).
  destruct (HLL_SPARSE_IS_XZERO c); [apply Next; lia|]. destruct (HLL_SPARSE_IS_ZERO c); [apply Next; lia|].
  destruct (Z.ltb_spec (p + 1) (s_len o)) as [Hlt1|]; [|apply Next; lia].
  destruct (mget_byte_ex (s_buf o) (p + 1)) as (c1 & -> & Hc1); [apply Ho|destruct Ho; lia|]. sbind.
  destruct (_ && _); [|apply Next; lia].
  destruct (val_set_byte (HLL_SPARSE_VAL_VALUE c) (HLL_SPARSE_VAL_LEN c + HLL_SPARSE_VAL_LEN c1)) as (d & -> & Hd).
  destruct (merge_pair o p d Ho ltac:(lia) Hlt1 Hd) as (b1 & b2 & o1 & -> & E2 & E3 & Ho1 & L1 & T1 & Z1 & _ & _ & G1 & _). sbind.
  rewrite E2. sbind. rewrite E3. sbind. rewrite <- L1. destruct (IH o1 p Ho1 ltac:(lia) Hp) as (o' & E & K). exists o'. split; [done|].
  apply (kept_hdr_trans _ o1); [|done]. split; [done|]. split; [lia|]. split; [done|]. split; [done|]. intros i Hi. apply G1. lia.
Qed.

(** A string with the opcodes [l] after [pre]. *)
Definition ops_after (o : sds) (pre : list Z) (l : list sop) : Prop :=
  Forall sop_ok l /\ s_len o = zlen pre + zlen (encs l) /\ exists t tl, s_buf o = pre ++ encs l ++ t :: tl /\ is_byte t.

Lemma ops_after_reads (o : sds) (pre : list Z) (l : list sop) : ops_after o pre l -> reads (s_buf o) (zlen pre) (s_len o) l.
Proof. intros (Hl & -> & t & tl & -> & Ht). by apply reads_encs. Qed.
Lemma ops_after_skip (o : sds) (pre : list Z) (x : sop) (l : list sop) : ops_after o pre (x :: l) -> ops_after o (pre ++ enc_op x) l.
Proof.
  intros (Hl & E & t & tl & Eb & Ht). inversion Hl; subst. change (encs (x :: l)) with (enc_op x ++ encs l) in *.
  split; [done|]. split; [rewrite zlen_app in *; lia|]. exists t, tl. split; [|done]. by rewrite Eb, <- !app_assoc.
Qed.
Lemma ops_after_unskip (o : sds) (pre : list Z) (x : sop) (l : list sop) : sop_ok x -> ops_after o (pre ++ enc_op x) l -> ops_after o pre (x :: l).
Proof.
  intros Hx (Hl & E & t & tl & Eb & Ht). split; [by constructor|]. change (encs (x :: l)) with (enc_op x ++ encs l).
  split; [rewrite zlen_app in *; lia|]. exists t, tl. split; [|done]. by rewrite Eb, <- !app_assoc.
Qed.
(** A region that agrees with [pre], then opcodes, then a byte. *)
Lemma ops_after_intro (o : sds) (pre : list Z) (l : list sop) :
  sds_ok o -> Forall sop_ok l -> s_len o = zlen pre + zlen (encs l) ->
  (forall i, 0 <= i < zlen (pre ++ encs l) -> mget (s_buf o) i = mget (pre ++ encs l) i) -> ops_after o pre l.
Proof.
  intros (Hlen & Hb & _) Hl E G. split; [done|]. split; [done|]. destruct (prefix_of_mget (s_buf o) (pre ++ encs l)) as [r Er].
  - rewrite zlen_app. lia.
  - done.
  - rewrite Er in Hb, Hlen. destruct r as [|t tl]; [rewrite app_nil_r, zlen_app in Hlen; lia|]. exists t, tl.
    rewrite <- app_assoc in Er. split; [done|]. apply Forall_app in Hb as [_ Hb]. by inversion Hb.
Qed.

Lemma merged_pair_ops (o o1 : sds) (pre : list Z) (v n1 n2 c : Z) (l : list sop) :
  ops_after o pre (Vals v n1 :: Vals v n2 :: l) -> n1 + n2 <= 4 -> HLL_SPARSE_VAL_SET v (n1 + n2) = [c] ->
  sds_ok o1 -> s_len o1 = s_len o - 1 -> mget (s_buf o1) (zlen pre) = Some c ->
  (forall i, i < zlen pre -> mget (s_buf o1) i = mget (s_buf o) i) ->
  (forall i, zlen pre < i < s_len o - 1 -> mget (s_buf o1) i = mget (s_buf o) (i + 1)) ->
  ops_after o1 pre (Vals v (n1 + n2) :: l).
Proof.
  intros (Hl & E & t & tl & Eb & Ht) Hn Ec Ho1 L1 G0 G1 G2. rewrite !Forall_cons in Hl. destruct Hl as (H1 & H2 & Hl). cbn [sop_ok] in H1, H2.
  change (encs (Vals v n1 :: Vals v n2 :: l)) with (enc_op (Vals v n1) ++ enc_op (Vals v n2) ++ encs l) in *.
  destruct (val_set_byte v n1) as (d1 & D1 & _). destruct (val_set_byte v n2) as (d2 & D2 & _). cbn [enc_op] in *. rewrite D1, D2 in *.
  cbn [app] in *. rewrite !zlen_cons in E.
  apply ops_after_intro; [done|constructor; [cbn [sop_ok]; lia|done]|..]; change (encs (Vals v (n1 + n2) :: l)) with (enc_op (Vals v (n1 + n2)) ++ encs l);
    cbn [enc_op]; rewrite Ec; cbn [app].
  - rewrite zlen_cons. lia.
  - intros i Hi. rewrite zlen_app, zlen_cons in Hi. rewrite mget_app_if by lia. destruct (Z.ltb_spec i (zlen pre)).
    + rewrite G1, Eb, mget_app_if by lia. zcase. done.
    + destruct (decide (i = zlen pre)) as [->|]; [rewrite G0, Z.sub_diag; done|].
      rewrite G2, Eb by lia. change (pre ++ d1 :: d2 :: encs l ++ t :: tl) with (pre ++ [d1; d2] ++ encs l ++ t :: tl).
      rewrite !mget_app_if by lia. change (zlen [d1; d2]) with 2. change (c :: encs l) with ([c] ++ encs l).
      rewrite (mget_app_if [c]) by lia. change (zlen [c]) with 1. zcase. rewrite (mget_app_if (encs l)) by lia. zcase. f_equal. lia.
Qed.

Lemma merge_exact (n : nat) : forall o pre l, sds_ok o -> ops_after o pre l ->
  exists o' l', merge_vals n o (zlen pre) (s_len o) = Some o' /\ ops_after o' pre l' /\ expand l' = expand l.
Proof.
  induction n as [|n IH]; intros o pre l Ho H; cbn [merge_vals].
  { destruct (_ <? _); exists o, l; done. }
  destruct (Z.ltb_spec (zlen pre) (s_len o)) as [Hlt|]; [|by exists o, l].
  pose proof (ops_after_reads _ _ _ H) as Hr. destruct l as [|x l]; [cbn [reads] in Hr; lia|].
  assert (Hx : sop_ok x) by (destruct H as (Hl & _); by inversion Hl).
  assert (Next : exists o' l', merge_vals n o (zlen pre + olen x) (s_len o) = Some o' /\ ops_after o' pre l' /\ expand l' = expand (x :: l)).
  { destruct (IH o (pre ++ enc_op x) l Ho (ops_after_skip _ _ _ _ H)) as (o' & l' & E & H' & Ex). rewrite zlen_app, zlen_enc in E.
    exists o', (x :: l'). split; [done|]. split; [by apply ops_after_unskip|]. change (expand (x :: ?q)) with (op_run x ++ expand q). by rewrite Ex. }
  destruct Hr as (_ & Hat & Hr). destruct (op_at_kind _ _ _ Hat) as (c & -> & Hc & K). sbind.
  destruct x as [k|k|v k]; cbn [olen] in Next, Hr; [destruct K as (-> & -> & _); done|destruct K as (_ & -> & _); done|].
  destruct K as (-> & -> & _ & Ev & Ek). destruct (Z.ltb_spec (zlen pre + 1) (s_len o)) as [Hlt1|]; [|done].
  destruct l as [|y l]; [cbn [reads] in Hr; lia|]. destruct Hr as (_ & Hat1 & _). destruct (op_at_kind _ _ _ Hat1) as (c1 & -> & Hc1 & K1). sbind.
  destruct (HLL_SPARSE_IS_VAL c1) eqn:EV1; [|done]. destruct y as [k1|k1|v1 k1]; [exfalso; by destruct K1 as (_ & _ & ? & _)|exfalso; by destruct K1 as (_ & _ & ?)|].
  destruct K1 as (_ & _ & _ & Ev1 & Ek1). rewrite Ev, Ev1, Ek, Ek1. change HLL_SPARSE_VAL_MAX_LEN with 4.
  destruct (Z.eqb_spec v v1) as [<-|]; [|done]. destruct (Z.leb_spec (k + k1) 4); [|done]. cbn [andb].
  destruct (val_set_byte v (k + k1)) as (d & Ed & Hd). rewrite Ed. pose proof (zlen_nonneg pre).
  destruct (merge_pair o (zlen pre) d Ho ltac:(lia) Hlt1 Hd) as (b1 & b2 & o1 & -> & E2 & E3 & Ho1 & L1 & T1 & Z1 & G0 & _ & G1 & G2). sbind.
  rewrite E2. sbind. rewrite E3. sbind. rewrite <- L1.
  destruct (IH o1 pre (Vals v (k + k1) :: l) Ho1) as (o' & l' & E & H' & Ex).
  { eapply merged_pair_ops; [exact H|done|exact Ed|done|done|done|done|done]. }
  exists o', l'. split; [done|]. split; [done|]. rewrite Ex. unfold expand, op_run. cbn [map mjoin list_join ospan oval].
  destruct H as (Hl & _). rewrite !Forall_cons in Hl. cbn [sop_ok] in Hl. rewrite app_assoc, <- replicate_add, <- Z2Nat.inj_add by lia. done.
Qed.

(** ** The end of an update *)

Lemma updated_safe (o : sds) (prev : option Z) :
  sds_ok o -> 16 <= s_len o -> (forall p, prev = Some p -> 16 <= p) -> exists o', sparse_updated o prev = Some (o', 1) /\ kept_hdr o o'.
Proof.
  intros Ho H16 Hp. unfold sparse_updated. destruct (merge_safe 5 o (default HLL_HDR_SIZE prev) Ho H16) as (o1 & -> & K).
  { destruct prev as [p|]; [by apply Hp|done]. }
  sbind. pose proof K as ((Hlen & Hb & H5) & L1 & _). destruct (invalidate_spec (s_buf o1) Hb ltac:(lia)) as [-> Bb]. sbind.
  eexists. split; [done|]. apply (kept_hdr_trans _ o1); [done|]. set (b := alter _ 15%nat (s_buf o1)) in *.
  assert (Lb : zlen b = zlen (s_buf o1)) by (unfold zlen, b; by rewrite length_alter).
  split; [split; [cbn [with_buf s_len s_buf]; lia|done]|]. split; [done|]. split; [done|]. split; [done|].
  intros i Hi. cbn [with_buf s_buf]. destruct (Z.ltb_spec i 0); [by rewrite !mget_outside by lia|].
  rewrite !mget_lookup by lia. unfold b. apply list_lookup_alter_ne. lia.
Qed.

Lemma updated_exact (o : sds) (hdr : list Z) (l1 l2 : list sop) (prev : option Z) :
  sds_ok o -> ops_after o hdr (l1 ++ l2) -> hdr_ok hdr -> default HLL_HDR_SIZE prev = 16 + zlen (encs l1) ->
  exists o' l', sparse_updated o prev = Some (o', 1) /\ ops_after o' (invalidated hdr) l' /\ expand l' = expand (l1 ++ l2).
Proof.
  intros Ho (Hl & Ls & t & tl & Eb & Ht) [Lh Bh] Hp. unfold sparse_updated. rewrite Hp.
  assert (zlen hdr = 16) as Zh by (unfold zlen; lia). apply Forall_app in Hl as [Hl1 Hl2]. rewrite encs_app in *.
  destruct (merge_exact 5 o (hdr ++ encs l1) l2 Ho) as (o1 & l' & E & (Hl' & Ls' & t' & tl' & Eb' & Ht') & Ex).
  { split; [done|]. split; [rewrite !zlen_app in *; lia|]. exists t, tl. by rewrite Eb, <- !app_assoc. }
  rewrite zlen_app, Zh in E. rewrite E. sbind. destruct (merge_safe 5 o (16 + zlen (encs l1)) Ho) as (o1' & E' & K).
  { rewrite Ls. pose proof (zlen_nonneg (encs l1 ++ encs l2)). lia. }
  { pose proof (zlen_nonneg (encs l1)). lia. }
  rewrite E in E'. injection E' as <-. destruct K as ((Hlen & Hb & H5) & L1 & _). destruct (invalidate_spec (s_buf o1) Hb ltac:(lia)) as [-> _]. sbind.
  eexists _, (l1 ++ l'). split; [done|]. rewrite expand_app, Ex, expand_app. split; [|done]. split; [by apply Forall_app|].
  rewrite encs_app. cbn [with_buf s_len s_buf]. assert (zlen (invalidated hdr) = 16) as Zi by (unfold zlen, invalidated; rewrite length_alter; lia).
  split; [rewrite zlen_app in *; lia|]. exists t', tl'. split; [|done]. rewrite Eb', <- !app_assoc. by apply invalidated_app.
Qed.

(** ** Replacing an opcode *)

(** What is on the right of the opcode at [p] is moved, the terminator is set, and the
    sequence is written. *)
Lemma splice_bytes (b seq : list Z) (p oldlen end_ : Z) :
  let delta := zlen seq - oldlen in let n := p + oldlen in
  0 <= p < end_ -> 1 <= oldlen <= 2 -> 1 <= zlen seq -> n <= end_ + 1 -> end_ + delta < zlen b -> end_ < zlen b -> bytes_ok b -> bytes_ok seq ->
  exists b1 b2 b3,
    (if n >=? end_ then Some b else if delta =? 0 then Some b else memmove b (n + delta) n (end_ - n)) = Some b1 /\
    mwrite b1 (end_ + delta) [0] = Some b2 /\ mwrite b2 p seq = Some b3 /\ zlen b1 = zlen b /\ zlen b3 = zlen b /\ bytes_ok b1 /\ bytes_ok b3 /\
    (forall i, i < p -> mget b3 i = mget b i) /\ (forall i, 0 <= i < zlen seq -> mget b3 (p + i) = mget seq i) /\
    (forall i, n <= i < end_ -> mget b3 (i + delta) = mget b i).
Proof.
  intros delta n Hp Ho Hs Hn He Hl Hb Bs.
  assert (M : exists b1, (if n >=? end_ then Some b else if delta =? 0 then Some b else memmove b (n + delta) n (end_ - n)) = Some b1 /\
    zlen b1 = zlen b /\ bytes_ok b1 /\ (forall i, i < p -> mget b1 i = mget b i) /\ (forall i, n <= i < end_ -> mget b1 (i + delta) = mget b i)).
  { destruct (Z.geb_spec n end_); [exists b; split; [done|]; split; [done|]; split; [done|]; split; [done|lia]|].
    destruct (Z.eqb_spec delta 0) as [->|]; [exists b; split; [done|]; split; [done|]; split; [done|]; split; [done|]; intros; f_equal; lia|].
    unfold memmove. destruct (mread_ok b n (end_ - n)) as (bs & -> & L2 & G2); [lia|lia|lia|]. sbind.
    destruct (mwrite_ok b (n + delta) bs) as (b1 & E1 & L1 & G1 & G1'); [lia|lia|]. exists b1. split; [done|]. split; [done|]. split.
    - eapply mwrite_bytes_ok; [exact Hb| |exact E1]. apply bytes_ok_mget. intros i x Hx. pose proof (mget_range _ _ _ Hx).
      rewrite G2 in Hx by lia. exact (mget_byte _ _ _ Hb Hx).
    - split; [intros i Hi; apply G1'; lia|]. intros i Hi. replace (i + delta) with (n + delta + (i - n)) by lia.
      rewrite G1, G2 by lia. f_equal. lia. }
  destruct M as (b1 & E1 & L1 & B1 & G1 & G1'). destruct (mwrite_byte b1 (end_ + delta) 0) as (b2 & E2 & L2 & G2); [lia|].
  assert (B2 : bytes_ok b2) by (eapply mwrite_bytes_ok; [exact B1| |exact E2]; apply Forall_cons_2; [unfold is_byte; lia|done]).
  destruct (mwrite_ok b2 p seq) as (b3 & E3 & L3 & G3 & G3'); [lia|lia|].
  exists b1, b2, b3. split; [done|]. split; [done|]. split; [done|]. split; [done|]. split; [lia|]. split; [done|].
  split; [by eapply mwrite_bytes_ok; [exact B2|exact Bs|exact E3]|]. split; [|split; [done|]].
  - intros i Hi. rewrite G3', G2 by lia. zcase. by apply G1.
  - intros i Hi. rewrite G3', G2 by lia. zcase. by apply G1'.
Qed.

Section set.
Context (usable : Z -> Z) (fresh : nat -> Z) (max_bytes : Z).
Context (Husable : forall n, n <= usable n) (Hfresh : forall n, is_byte (fresh n)) (Hmax : 32 <= max_bytes).

(** There is room for the bytes an update may add, unless the string gets too long. *)
Definition roomy (o : sds) : Prop :=
  s_type5 o = false /\ forall d, 0 <= d <= 3 -> s_len o + d <= max_bytes -> s_len o + d < zlen (s_buf o).

Lemma replace_core (o : sds) (index count p oldlen : Z) (prev : option Z) (seq : list Z) :
  let delta := zlen seq - oldlen in
  sds_ok o -> roomy o -> 16 <= p < s_len o -> 1 <= oldlen <= 2 -> p + oldlen <= s_len o + 1 -> bytes_ok seq -> 1 <= zlen seq <= oldlen + 3 ->
  let next := if p + oldlen >=? s_len o then None else Some (p + oldlen) in
  (0 < delta /\ max_bytes < s_len o + delta /\
    sparse_replace usable fresh max_bytes o index count p oldlen next prev seq = sparse_promote usable fresh o index count) \/
  (exists o1, sparse_replace usable fresh max_bytes o index count p oldlen next prev seq = sparse_updated o1 prev /\
    sds_ok o1 /\ 16 <= s_len o1 /\ s_len o1 = s_len o + delta /\ s_type5 o1 = s_type5 o /\ zlen (s_buf o1) = zlen (s_buf o) /\
    (forall i, i < p -> mget (s_buf o1) i = mget (s_buf o) i) /\
    (forall i, 0 <= i < zlen seq -> mget (s_buf o1) (p + i) = mget seq i) /\
    (forall i, p + oldlen <= i < s_len o -> mget (s_buf o1) (i + delta) = mget (s_buf o) i)).
Proof using Hmax.
  intros delta (Hlen & Hb & H5) [T5 Room] Hp Hol Hpo Bs Hs next. unfold sparse_replace. change (zlen seq - oldlen) with delta.
  destruct ((delta >? 0) && (s_len o + delta >? max_bytes)) eqn:C.
  { left. rewrite andb_true_iff, !Z.gtb_lt in C. destruct C as [C1 C2]. split; [exact C1|]. split; [exact C2|]. reflexivity. }
  right. assert (He : s_len o + delta < zlen (s_buf o)).
  { destruct (Z.leb_spec delta 0); [lia|]. apply Room; [lia|]. rewrite (proj2 (Z.gtb_lt delta 0)) in C by lia.
    cbn [andb] in C. rewrite Z.gtb_ltb, Z.ltb_ge in C. lia. }
  destruct (splice_bytes (s_buf o) seq p oldlen (s_len o)) as (b1 & b2 & b3 & E1 & E2 & E3 & L1 & L3 & B1 & B3 & G1 & G2 & G3); try done; try lia.
  exists (Sds false (s_len o + delta) b3). unfold sdsalloc. rewrite T5, (proj2 (Z.leb_le _ _)) by lia. cbn [negb].
  assert (En : match next with Some n => if delta =? 0 then Some (s_buf o) else memmove (s_buf o) (n + delta) n (s_len o - n)
    | None => Some (s_buf o) end = Some b1) by (subst next; rewrite <- E1; by destruct (_ >=? _)).
  rewrite En. sbind.
  assert (Ei : sdsIncrLen (with_buf o b1) delta = Some (Sds false (s_len o + delta) b2)).
  { unfold sdsIncrLen. cbn [with_buf s_type5 s_len s_buf]. rewrite T5, L1. fold delta in E2. rewrite E2.
    destruct (Z.geb_spec delta 0), (Z.ltb_spec delta 0); try lia; cbn [andb orb]; zcase; done. }
  rewrite Ei. sbind. cbn [s_buf]. rewrite E3. sbind. split; [done|].
  split; [split; [cbn [s_len s_buf]; lia|done]|]. cbn [s_len s_buf s_type5]. split; [lia|]. done.
Qed.

(** The string after the possible reallocation. *)
Definition grown_str (o : sds) : sds :=
  if (sdsalloc o <? max_bytes) && (sdsavail o <? 3) then
    let newlen := s_len o + 3 in
    let newlen := newlen + Z.min newlen 300 in
    sdsResize usable fresh o (if newlen >? max_bytes then max_bytes else newlen)
  else o.

Lemma grown_spec (o : sds) :
  sds_ok o -> sds_ok (grown_str o) /\ roomy (grown_str o) /\ s_len (grown_str o) = s_len o /\
    (forall i, i < s_len o -> mget (s_buf (grown_str o)) i = mget (s_buf o) i).
Proof using Husable Hfresh Hmax.
  intros (Hlen & Hb & H5). unfold grown_str.
  destruct ((sdsalloc o <? max_bytes) && (sdsavail o <? 3)) eqn:C.
  - rewrite andb_true_iff, !Z.ltb_lt in C. destruct C as [C1 C2]. set (size := if _ >? _ then _ else _).
    assert (Hsz : s_len o < size /\ (forall d, 0 <= d <= 3 -> s_len o + d <= max_bytes -> s_len o + d <= size)).
    { unfold sdsalloc in C1. subst size. destruct (Z.gtb_spec (s_len o + 3 + Z.min (s_len o + 3) 300) max_bytes); [|split; intros; lia].
      split; [|intros; lia]. destruct (s_type5 o); lia. }
    unfold sdsResize. destruct (Z.eqb_spec (sdsalloc o) size) as [Ea|Ea].
    { unfold sdsalloc in Ea. destruct (s_type5 o) eqn:T5; [lia|]. split; [split; [lia|split; [done|congruence]]|]. split; [|done]. split; [done|]. intros d Hd Hm.
      pose proof (proj2 Hsz d Hd Hm). lia. }
    rewrite (proj2 (Z.ltb_ge _ _)) by lia. pose proof (Husable size).
    assert (Lb : zlen (take (Z.to_nat (s_len o)) (s_buf o)) = s_len o) by (unfold zlen in *; rewrite length_take; lia).
    set (b := take _ _ ++ _). assert (Zb : zlen b = usable size + 1).
    { subst b. rewrite !zlen_app, Lb, zlen_fresh by lia. change (zlen [0]) with 1. lia. }
    split; [|split; [|split; [done|]]].
    + split; [cbn [s_len s_buf]; lia|]. split; [|done]. cbn [s_buf]. subst b. rewrite !Forall_app.
      split; [by apply Forall_take|]. split; [apply Forall_cons_2; [unfold is_byte; lia|done]|by apply fresh_bytes_ok].
    + split; [done|]. cbn [s_len s_buf]. intros d Hd Hm. pose proof (proj2 Hsz d Hd Hm). lia.
    + intros i Hi. cbn [s_buf]. destruct (Z.ltb_spec i 0); [by rewrite !mget_outside by lia|]. subst b. rewrite mget_app_if by lia. zcase.
      rewrite !mget_lookup by lia. apply lookup_take_lt. lia.
  - split; [done|]. split; [|done]. rewrite andb_false_iff, !Z.ltb_ge in C. unfold sdsalloc, sdsavail in C.
    destruct (s_type5 o) eqn:T5; [specialize (H5 eq_refl); lia|]. split; [done|]. intros d Hd Hm. lia.
Qed.

(** ** Splitting an opcode *)

Definition zeros_run (n : Z) : sop := if n >? HLL_SPARSE_ZERO_MAX_LEN then XZeros n else Zeros n.
Definition same_run (x : sop) (n : Z) : sop := match x with Vals v _ => Vals v n | _ => zeros_run n end.
(** The opcodes in place of [x] when its register [j] becomes [count]. *)
Definition xsplit (x : sop) (j count : Z) : list sop :=
  (if j =? 0 then [] else [same_run x j]) ++ [Vals count 1] ++ (if j =? ospan x - 1 then [] else [same_run x (ospan x - 1 - j)]).

Lemma same_run_ok (x : sop) (n : Z) : sop_ok x -> 1 <= n <= ospan x -> sop_ok (same_run x n) /\ op_run (same_run x n) = replicate (Z.to_nat n) (oval x).
Proof using.
  intros Hx Hn. destruct x as [k|k|v k]; cbn [same_run sop_ok ospan oval] in *; unfold zeros_run, HLL_SPARSE_ZERO_MAX_LEN.
  - destruct (Z.gtb_spec n 64); cbn [sop_ok]; (split; [lia|done]).
  - destruct (Z.gtb_spec n 64); cbn [sop_ok]; (split; [lia|done]).
  - cbn [sop_ok]. split; [lia|done].
Qed.

Lemma xsplit_ok (x : sop) (j count : Z) :
  sop_ok x -> 0 <= j < ospan x -> 1 <= count <= 32 ->
  Forall sop_ok (xsplit x j count) /\ expand (xsplit x j count) = <[Z.to_nat j := count]> (op_run x).
Proof using.
  intros Hx Hj Hc.
  assert (A : forall n, 0 <= n < ospan x -> Forall sop_ok (if n =? 0 then [] else [same_run x n]) /\
    expand (if n =? 0 then [] else [same_run x n]) = replicate (Z.to_nat n) (oval x)).
  { intros n Hn. destruct (Z.eqb_spec n 0) as [->|]; [done|]. destruct (same_run_ok x n Hx) as [O R]; [lia|].
    split; [by constructor|]. unfold expand. cbn [map mjoin list_join]. by rewrite R, app_nil_r. }
  destruct (A j Hj) as [O1 X1]. destruct (A (ospan x - 1 - j) ltac:(lia)) as [O2 X2].
  assert (Ej : (if j =? ospan x - 1 then [] else [same_run x (ospan x - 1 - j)]) =
    (if ospan x - 1 - j =? 0 then [] else [same_run x (ospan x - 1 - j)])) by (zcase; done).
  unfold xsplit. rewrite Ej. split.
  - apply Forall_app. split; [done|]. apply Forall_app. split; [|done]. constructor; [cbn [sop_ok]; lia|done].
  - rewrite !expand_app, X1, X2. unfold op_run. replace (Z.to_nat (ospan x)) with (Z.to_nat j + S (Z.to_nat (ospan x - 1 - j)))%nat by lia.
    rewrite replicate_add, insert_app_r_alt by (rewrite length_replicate; lia). rewrite length_replicate, Nat.sub_diag. done.
Qed.

Lemma zeros_op_enc (n : Z) : zeros_op n = enc_op (zeros_run n).
Proof using. unfold zeros_op, zeros_run. by destruct (_ >? _). Qed.
Lemma encs_xsplit (x : sop) (first index count : Z) :
  encs (xsplit x (index - first) count) =
  match x with
  | Vals v _ => split_val v index first (first + ospan x - 1) count
  | _ => split_zeros index first (first + ospan x - 1) count
  end.
Proof using.
  unfold xsplit. rewrite !encs_app.
  assert (E1 : (index - first =? 0) = (index =? first)) by (zcase; done).
  assert (E2 : (index - first =? ospan x - 1) = (index =? first + ospan x - 1)) by (zcase; done).
  rewrite E1, E2. replace (ospan x - 1 - (index - first)) with (first + ospan x - 1 - index) by lia.
  destruct x as [k|k|v k]; cbn [same_run]; unfold split_zeros, split_val; rewrite ?zeros_op_enc; unfold encs;
    destruct (index =? first), (index =? first + _ - 1); cbn [negb map mjoin list_join]; by rewrite ?app_nil_r.
Qed.
Lemma zlen_xsplit (x : sop) (j count : Z) :
  sop_ok x -> 0 <= j < ospan x -> 1 <= zlen (encs (xsplit x j count)) <= olen x + 3.
Proof using.
  intros Hx Hj. unfold xsplit. rewrite !encs_app, !zlen_app. change (zlen (encs [Vals count 1])) with 1.
  assert (A : forall (c : bool) n, n < ospan x -> 0 <= zlen (encs (if c then [] else [same_run x n])) <= olen x).
  { intros c n Hn. destruct c; [change (encs []) with (@nil Z); change (zlen (@nil Z)) with 0; pose proof (olen_pos x); lia|].
    unfold encs. cbn [map mjoin list_join]. rewrite app_nil_r, zlen_enc. destruct x as [k|k|v k]; cbn [same_run sop_ok ospan] in *; unfold zeros_run, HLL_SPARSE_ZERO_MAX_LEN.
    - destruct (Z.gtb_spec n 64); cbn [olen]; lia.
    - destruct (_ >? _); cbn [olen]; lia.
    - cbn [olen]. lia. }
  pose proof (A (j =? 0) j ltac:(lia)). pose proof (A (j =? ospan x - 1) (ospan x - 1 - j) ltac:(lia)). pose proof (olen_pos x). lia.
Qed.

Lemma encs_bytes (l : list sop) : Forall sop_ok l -> bytes_ok (encs l).
Proof using.
  induction 1 as [|x l Hx _ IH]; [done|]. change (encs (x :: l)) with (enc_op x ++ encs l). apply Forall_app. split; [|done].
  by destruct (op_back_ok x Hx).
Qed.

(** ** The cases of an update *)

(** The string in which the opcode [x] at [p] has been replaced. *)
Definition replaced (o o1 : sds) (x : sop) (p : Z) (seq : list Z) : Prop :=
  let delta := zlen seq - olen x in
  sds_ok o1 /\ 16 <= s_len o1 /\ s_len o1 = s_len o + delta /\ s_type5 o1 = s_type5 o /\ zlen (s_buf o1) = zlen (s_buf o) /\
  (forall i, i < p -> mget (s_buf o1) i = mget (s_buf o) i) /\
  (forall i, 0 <= i < zlen seq -> mget (s_buf o1) (p + i) = mget seq i) /\
  (forall i, p + olen x <= i < s_len o -> mget (s_buf o1) (i + delta) = mget (s_buf o) i).

(** Cases B and C: the opcode is one byte for one register. *)
Lemma replaced_one (o : sds) (x : sop) (p count : Z) :
  sds_ok o -> 16 <= p < s_len o -> ospan x = 1 -> olen x = 1 ->
  exists b, mwrite (s_buf o) p (HLL_SPARSE_VAL_SET count 1) = Some b /\ replaced o (with_buf o b) x p (encs (xsplit x 0 count)).
Proof using.
  intros (Hlen & Hb & H5) Hp Hs Hl. assert (E : encs (xsplit x 0 count) = HLL_SPARSE_VAL_SET count 1).
  { unfold xsplit. rewrite Hs. cbn [Z.eqb]. unfold encs. cbn [app map mjoin list_join]. by rewrite app_nil_r. }
  rewrite E. destruct (val_set_byte count 1) as (c & -> & Hc). destruct (mwrite_byte (s_buf o) p c) as (b & Eb & Lb & G); [lia|].
  assert (Bb : bytes_ok b) by (eapply mwrite_bytes_ok; [exact Hb| |exact Eb]; by apply Forall_cons_2).
  exists b. split; [done|]. unfold replaced. rewrite Hl. change (zlen [c]) with 1. cbn [with_buf s_len s_buf s_type5].
  split; [split; [cbn [with_buf s_len s_buf]; lia|done]|]. split; [lia|]. split; [lia|]. split; [done|]. split; [done|]. split; [|split].
  - intros i Hi. rewrite G. zcase. done.
  - intros i Hi. assert (i = 0) as -> by lia. rewrite G, Z.add_0_r. zcase. done.
  - intros i Hi. rewrite G. zcase. f_equal. lia.
Qed.

Lemma olens_nonneg (l : list sop) : 0 <= olens l.
Proof using. induction l as [|x l IH]; cbn [olens]; [lia|]. pose proof (olen_pos x). lia. Qed.

Lemma found_core (o : sds) (index count : Z) (l1 : list sop) (x : sop) (prev : option Z) :
  let p := 16 + olens l1 in let first := spans l1 in let seq := encs (xsplit x (index - first) count) in
  sds_ok o -> roomy o -> p < s_len o -> op_at (s_buf o) p x -> first <= index < first + ospan x -> 1 <= count <= 32 -> p + olen x <= s_len o + 1 ->
  let next := if p + olen x >=? s_len o then None else Some (p + olen x) in
  let res := sparse_replace usable fresh max_bytes o index count p (olen x) next prev seq in
  res = sparse_promote usable fresh o index count \/ exists o2, res = sparse_updated o2 prev /\ replaced o o2 x p seq.
Proof using Hmax.
  intros p first seq Ho Hr Hp Hat Hi Hc Hpx next res. pose proof (op_at_ok _ _ _ Hat) as Hx. pose proof (olens_nonneg l1). pose proof (olen_pos x).
  destruct (xsplit_ok x (index - first) count Hx ltac:(lia) Hc) as [Hs _].
  destruct (replace_core o index count p (olen x) prev seq) as [(_ & _ & E)|(o2 & E & R)]; try done.
  - subst p. lia.
  - by apply encs_bytes.
  - by apply zlen_xsplit; [|lia].
  - by left.
  - right. by exists o2.
Qed.

Definition set_case (o : sds) (index count : Z) (l : list sop) (res : option (sds * Z)) : Prop :=
  exists l1 x l2, l = l1 ++ x :: l2 /\ sop_ok x /\ spans l1 <= index < spans l1 + ospan x /\
    ((count <= oval x /\ res = Some (o, 0)) \/
     (oval x < count /\ res = sparse_promote usable fresh o index count) \/
     (oval x < count /\ exists o2, res = sparse_updated o2 (prev_of 16 None l1) /\
       replaced o o2 x (16 + olens l1) (encs (xsplit x (index - spans l1) count)))).

Lemma set_core (o : sds) (index count : Z) (l : list sop) :
  sds_ok o -> 16 <= s_len o -> 0 <= index -> 1 <= count <= 32 -> reads (s_buf (grown_str o)) 16 (s_len o) l ->
  let res := hllSparseSet usable fresh max_bytes o index count in
  (spans l <= index /\ res = Some (grown_str o, -1)) \/ set_case (grown_str o) index count l res.
Proof using Husable Hfresh Hmax.
  intros Ho H16 Hi Hc Hr res. destruct (grown_spec o Ho) as (Ho1 & Room & L1 & _). subst res. unfold hllSparseSet.
  change HLL_SPARSE_VAL_MAX_VALUE with 32.
  replace (count >? 32) with false by (zcase; done). fold (grown_str o). rewrite L1. pose proof (reads_length _ _ _ _ Hr).
  destruct (find_op_spec (s_buf (grown_str o)) index (s_len o) l (Z.to_nat (s_len o)) 16 None 0 0 Hr ltac:(lia) Hi)
    as [(l1 & x & l2 & -> & E & Hin & Hp & Hat & Hr2)|(p' & r & E & Hp & Hs)]; change HLL_HDR_SIZE with 16; rewrite E; sbind.
  2: { left. split; [lia|]. replace (p' >=? s_len o) with true by (zcase; done). by rewrite orb_true_r. }
  right. exists l1, x, l2. pose proof (op_at_ok _ _ _ Hat) as Hx. pose proof (ospan_pos x Hx). split; [done|]. split; [done|]. split; [lia|].
  replace (ospan x =? 0) with false by (zcase; done). replace (16 + olens l1 >=? s_len o) with false by (zcase; done). cbn [orb].
  destruct (op_at_kind _ _ _ Hat) as (c & -> & Hcb & K). sbind. rewrite !Z.add_0_l.
  assert (Hpx : 16 + olens l1 + olen x <= s_len (grown_str o) + 1) by (pose proof (olen_pos x); lia). rewrite <- L1 in Hp.
  pose proof (fun prev => found_core (grown_str o) index count l1 x prev Ho1 Room Hp Hat ltac:(lia) Hc Hpx) as F. cbv zeta in F.
  rewrite encs_xsplit, L1 in F.
  assert (One : ospan x = 1 -> olen x = 1 -> oval x < count -> exists o2,
    (b ← mwrite (s_buf (grown_str o)) (16 + olens l1) (HLL_SPARSE_VAL_SET count 1); sparse_updated (with_buf (grown_str o) b) (prev_of 16 None l1)) =
      sparse_updated o2 (prev_of 16 None l1) /\ replaced (grown_str o) o2 x (16 + olens l1) (encs (xsplit x (index - spans l1) count))).
  { intros O1 O2 O3. pose proof (olens_nonneg l1). destruct (replaced_one (grown_str o) x (16 + olens l1) count Ho1 ltac:(lia) O1 O2) as (b & -> & R). sbind.
    exists (with_buf (grown_str o) b). replace (index - spans l1) with 0 by lia. done. }
  rewrite encs_xsplit in One |- *. destruct x as [k|k|v k]; cbn [ospan oval olen sop_ok] in *.
  - destruct K as (-> & -> & _ & ->). right. destruct (Z.eqb_spec k 1) as [->|]; [right; split; [lia|]; by apply One; [..|lia]|].
    destruct (F (prev_of 16 None l1)) as [E1|E1]; [left|right]; (split; [lia|exact E1]).
  - destruct K as (-> & -> & _). right. destruct (F (prev_of 16 None l1)) as [E1|E1]; [left|right]; (split; [lia|exact E1]).
  - destruct K as (-> & -> & _ & -> & ->). destruct (Z.geb_spec v count); [left; done|]. right.
    destruct (Z.eqb_spec k 1) as [->|]; [right; split; [lia|]; by apply One|].
    destruct (F (prev_of 16 None l1)) as [E1|E1]; [left|right]; (split; [lia|exact E1]).
Qed.

(** ** Any string *)

Definition hll_valid (o : sds) : Prop :=
  sds_ok o /\ 16 <= s_len o /\
  exists e, mget (s_buf o) 4 = Some e /\ ((e = HLL_DENSE /\ s_len o = HLL_DENSE_SIZE) \/ e = HLL_SPARSE).

Lemma zlen_encs (l : list sop) : zlen (encs l) = olens l.
Proof using.
  induction l as [|x l IH]; [done|]. change (encs (x :: l)) with (enc_op x ++ encs l). rewrite zlen_app, zlen_enc, IH. done.
Qed.
Lemma spans_app (a b : list sop) : spans (a ++ b) = spans a + spans b.
Proof using. induction a as [|x a IH]; cbn [app spans]; lia. Qed.

(** The register of an opcode. *)
Lemma expand_at (l1 l2 : list sop) (x : sop) (i : nat) :
  Forall sop_ok l1 -> spans l1 <= Z.of_nat i < spans l1 + ospan x -> expand (l1 ++ x :: l2) !! i = Some (oval x).
Proof using.
  intros H1 Hi. rewrite expand_app. change (expand (x :: l2)) with (op_run x ++ expand l2). pose proof (zlen_expand l1 H1) as L. unfold zlen in L.
  rewrite lookup_app_r by lia. unfold op_run. rewrite lookup_app_l by (rewrite length_replicate; lia). apply lookup_replicate_2. lia.
Qed.
Lemma expand_xsplit (l1 l2 : list sop) (x : sop) (i : nat) (count : Z) :
  Forall sop_ok l1 -> sop_ok x -> spans l1 <= Z.of_nat i < spans l1 + ospan x -> 1 <= count <= 32 ->
  expand (l1 ++ xsplit x (Z.of_nat i - spans l1) count ++ l2) = <[i := count]> (expand (l1 ++ x :: l2)).
Proof using.
  intros H1 Hx Hi Hc. rewrite !expand_app. change (expand (x :: l2)) with (op_run x ++ expand l2). pose proof (zlen_expand l1 H1) as L. unfold zlen in L.
  destruct (xsplit_ok x (Z.of_nat i - spans l1) count Hx ltac:(lia) Hc) as [_ ->].
  rewrite insert_app_r_alt by lia. rewrite insert_app_l by (unfold op_run; rewrite length_replicate; lia). do 3 f_equal. lia.
Qed.

Lemma prev_of_ge (l1 : list sop) (p : Z) : prev_of 16 None l1 = Some p -> 16 <= p.
Proof using.
  destruct l1 as [|x l1]; [done|]. intros E. assert (Ep : 16 + olens (removelast (x :: l1)) = p) by (unfold prev_of in E; congruence).
  pose proof (olens_nonneg (removelast (x :: l1))). lia.
Qed.

Lemma dense_valid (o : sds) (hdr regs : list Z) :
  sds_ok o -> dense_str o hdr regs -> hdr_ok hdr -> hdr !! 4%nat = Some HLL_DENSE -> hll_valid o.
Proof using.
  intros Ho [Hl [tl (body & Eb & _)]] [Lh _] H4. split; [done|]. split; [rewrite Hl; by vm_compute|]. exists HLL_DENSE. split; [|by left].
  rewrite Eb, mget_lookup by lia. change (Z.to_nat 4) with 4%nat. by rewrite lookup_app_l by lia.
Qed.
Lemma dense_hdr_4 (b : list Z) : 16 <= zlen b -> dense_hdr b !! 4%nat = Some HLL_DENSE.
Proof using. intros H. apply list_lookup_insert_eq. rewrite length_take. unfold zlen in H. lia. Qed.

Lemma promote_safe (o : sds) (l : list sop) (i : nat) (count : Z) :
  sds_ok o -> 16 <= s_len o -> mget (s_buf o) 4 = Some HLL_SPARSE -> reads (s_buf o) 16 (s_len o) l -> (i < nregs)%nat -> reg_ok count ->
  (forall v, expand l !! i = Some v -> v < count) ->
  exists o' r, sparse_promote usable fresh o (Z.of_nat i) count = Some (o', r) /\ hll_valid o'.
Proof using Husable Hfresh.
  intros Ho H16 He Hr Hi Hc Hv. destruct (promote_spec usable fresh Husable Hfresh o HLL_SPARSE l i count Ho H16 He ltac:(done) Hr Hi Hc Hv) as (o' & E & H').
  rewrite E. destruct (Z.eqb_spec (spans l) 16384) as [Es|]; [|exists o, (-1); split; [done|]; split; [done|]; split; [done|]; exists HLL_SPARSE; split; [done|by right]].
  exists o', 1. split; [done|]. destruct (H' Es) as [Ho' Hd]. destruct Ho as (Hlen & Hb & _).
  apply (dense_valid _ _ _ Ho' Hd); [apply dense_hdr_ok; [done|lia]|apply dense_hdr_4; lia].
Qed.

Lemma set_safe (o : sds) (i : nat) (count : Z) :
  hll_valid o -> mget (s_buf o) 4 = Some HLL_SPARSE -> (i < nregs)%nat -> 1 <= count < 64 ->
  exists o' r, hllSparseSet usable fresh max_bytes o (Z.of_nat i) count = Some (o', r) /\ hll_valid o'.
Proof using Husable Hfresh Hmax.
  intros (Ho & H16 & _) He Hi Hc. destruct (Z.gtb_spec count 32) as [H32|H32].
  - unfold hllSparseSet. change HLL_SPARSE_VAL_MAX_VALUE with 32. replace (count >? 32) with true by (zcase; done).
    destruct (parse_ops (s_buf o) (s_len o) ltac:(apply Ho) ltac:(apply Ho) (Z.to_nat (s_len o)) 16) as [l Hr]; [lia|lia|].
    apply (promote_safe o l); try done; [lia|]. intros v Hv. pose proof (Forall_lookup_1 _ _ _ _ (expand_ok l (reads_ok _ _ _ _ Hr)) Hv). cbv beta in *. lia.
  - destruct (grown_spec o Ho) as (Ho1 & Room & L1 & G1). rewrite <- G1 in He by lia.
    destruct (parse_ops (s_buf (grown_str o)) (s_len (grown_str o)) ltac:(apply Ho1) ltac:(apply Ho1) (Z.to_nat (s_len o)) 16) as [l Hr]; [lia|lia|].
    pose proof (reads_ok _ _ _ _ Hr) as Hl. pose proof Hr as Hr'. rewrite L1 in Hr'.
    assert (V1 : hll_valid (grown_str o)) by (split; [done|]; split; [lia|]; exists HLL_SPARSE; split; [done|by right]).
    destruct (set_core o (Z.of_nat i) count l Ho H16 ltac:(lia) ltac:(lia) Hr') as [[_ ->]|(l1 & x & l2 & -> & Hx & Hin & C)]; [by eexists _, _|].
    apply Forall_app in Hl as [Hl1 _]. destruct C as [[_ ->]|[[Hlt ->]|[Hlt (o2 & -> & R)]]]; [by eexists _, _| |].
    + apply (promote_safe (grown_str o) (l1 ++ x :: l2)); try done; [lia|lia|]. intros v Hv. rewrite expand_at in Hv by done. congruence.
    + destruct R as (Ho2 & L2 & _ & _ & _ & G2 & _). pose proof (olens_nonneg l1).
      destruct (updated_safe o2 (prev_of 16 None l1) Ho2 L2 (prev_of_ge l1)) as (o3 & -> & Ho3 & L3 & _ & _ & G3).
      exists o3, 1. split; [done|]. split; [done|]. split; [done|]. exists HLL_SPARSE. rewrite G3, G2 by lia. split; [done|by right].
Qed.

(** ** A string of all the registers *)

Lemma ops_after_same (o o1 : sds) (hdr : list Z) (l : list sop) :
  sds_ok o1 -> ops_after o hdr l -> s_len o1 = s_len o -> (forall i, i < s_len o -> mget (s_buf o1) i = mget (s_buf o) i) -> ops_after o1 hdr l.
Proof using.
  intros Ho1 (Hl & Ls & t & tl & Eb & Ht) L1 G. apply ops_after_intro; [done|done|lia|]. intros i Hi. rewrite zlen_app in Hi.
  rewrite G, Eb by lia. rewrite app_assoc, (mget_app_if (hdr ++ encs l)) by lia. rewrite zlen_app. zcase. done.
Qed.

Lemma replaced_ops (o o2 : sds) (hdr : list Z) (l1 l2 nops : list sop) (x : sop) :
  zlen hdr = 16 -> ops_after o hdr (l1 ++ x :: l2) -> Forall sop_ok nops -> replaced o o2 x (16 + olens l1) (encs nops) ->
  ops_after o2 hdr (l1 ++ nops ++ l2).
Proof using.
  intros Zh (Hl & Ls & t & tl & Eb & Ht) Hn (Ho2 & _ & L2 & _ & _ & G1 & G2 & G3). rewrite encs_app in *.
  change (encs (x :: l2)) with (enc_op x ++ encs l2) in *. rewrite !zlen_app, zlen_enc, !zlen_encs in *.
  rewrite Forall_app, Forall_cons in Hl. destruct Hl as (Hl1 & Hx & Hl2). pose proof (olens_nonneg l1). pose proof (olens_nonneg l2).
  pose proof (olens_nonneg nops). pose proof (olen_pos x).
  assert (Eb' : s_buf o = (hdr ++ encs l1) ++ enc_op x ++ encs l2 ++ t :: tl) by (rewrite Eb; by rewrite <- !app_assoc).
  assert (Zp : zlen (hdr ++ encs l1) = 16 + olens l1) by (rewrite zlen_app, zlen_encs; lia).
  apply ops_after_intro; [done|by rewrite !Forall_app|rewrite !encs_app, !zlen_app, !zlen_encs; lia|].
  intros i Hi. rewrite !encs_app, !zlen_app, !zlen_encs in Hi. rewrite !encs_app, app_assoc.
  rewrite (mget_app_if (hdr ++ encs l1)), Zp by lia. destruct (Z.ltb_spec i (16 + olens l1)) as [Ha|Ha].
  - rewrite G1, Eb', mget_app_if, Zp by lia. zcase. done.
  - rewrite (mget_app_if (encs nops)), zlen_encs by lia. destruct (Z.ltb_spec (i - (16 + olens l1)) (olens nops)) as [Hb|Hb].
    + rewrite <- (G2 (i - (16 + olens l1))) by lia. f_equal. lia.
    + specialize (G3 (i - (olens nops - olen x)) ltac:(lia)). replace (i - (olens nops - olen x) + (olens nops - olen x)) with i in G3 by lia.
      rewrite G3, Eb', mget_app_if, Zp by lia. zcase. rewrite (mget_app_if (enc_op x)), zlen_enc by lia. zcase.
      rewrite (mget_app_if (encs l2)), zlen_encs by lia. zcase. f_equal. lia.
Qed.

Lemma prev_split (l1 : list sop) : exists a b, l1 = a ++ b /\ default HLL_HDR_SIZE (prev_of 16 None l1) = 16 + zlen (encs a).
Proof using.
  destruct (decide (l1 = [])) as [->|Hn]; [by exists [], []|].
  exists (removelast l1), [List.last l1 (Zeros 1)]. split; [by apply app_removelast_last|].
  rewrite zlen_encs. by destruct l1.
Qed.

Lemma take_hdr (hdr r : list Z) : length hdr = 16%nat -> take 16 (hdr ++ r) = hdr.
Proof using. intros H. by apply take_app_length'. Qed.

Lemma promote_exact (o : sds) (hdr : list Z) (l : list sop) (i : nat) (count x : Z) :
  sds_ok o -> hdr_ok hdr -> hdr !! 4%nat = Some HLL_SPARSE -> ops_after o hdr l -> spans l = 16384 -> expand l !! i = Some x -> x < count < 64 ->
  0 < count ->
  exists o', sparse_promote usable fresh o (Z.of_nat i) count = Some (o', 1) /\ sds_ok o' /\
    dense_str o' (<[4%nat := HLL_DENSE]> hdr) (<[i := count]> (expand l)).
Proof using Husable Hfresh.
  intros Ho [Lh Bh] H4 Ha Hs Hx Hc Hc0. pose proof (ops_after_reads _ _ _ Ha) as Hr. destruct Ha as (Hl & Ls & t & tl & Eb & Ht).
  assert (Zh : zlen hdr = 16) by (unfold zlen; lia). rewrite Zh in Hr. pose proof (zlen_nonneg (encs l)).
  pose proof (zlen_expand l Hl) as Lx. unfold zlen in Lx. pose proof (lookup_lt_Some _ _ _ Hx).
  destruct (promote_spec usable fresh Husable Hfresh o HLL_SPARSE l i count Ho) as (o' & E & H'); try done.
  - lia.
  - rewrite Eb, mget_lookup by lia. change (Z.to_nat 4) with 4%nat. by rewrite lookup_app_l by lia.
  - rewrite nregs_eq. lia.
  - cbv beta. lia.
  - intros v Hv. rewrite Hx in Hv. injection Hv as <-. lia.
  - rewrite Hs, Z.eqb_refl in E. exists o'. split; [done|]. unfold dense_hdr in H'. rewrite Eb, take_hdr in H' by done. by apply H'.
Qed.

Lemma set_exact (o : sds) (hdr : list Z) (l : list sop) (i : nat) (count x : Z) :
  sds_ok o -> hdr_ok hdr -> hdr !! 4%nat = Some HLL_SPARSE -> ops_after o hdr l -> spans l = 16384 -> expand l !! i = Some x -> 1 <= count < 64 ->
  exists o', hllSparseSet usable fresh max_bytes o (Z.of_nat i) count = Some (o', if count >? x then 1 else 0) /\ sds_ok o' /\
    (if count >? x then
       (exists l', ops_after o' (invalidated hdr) l' /\ expand l' = <[i := count]> (expand l)) \/
       dense_str o' (<[4%nat := HLL_DENSE]> hdr) (<[i := count]> (expand l))
     else ops_after o' hdr l).
Proof using Husable Hfresh Hmax.
  intros Ho Hh H4 Ha Hs Hx Hc. pose proof (proj1 Ha) as Hl. pose proof (zlen_expand l Hl) as Lx. unfold zlen in Lx. pose proof (lookup_lt_Some _ _ _ Hx).
  assert (Zh : zlen hdr = 16) by (destruct Hh as [Lh _]; unfold zlen; lia).
  destruct (Z.gtb_spec count 32) as [H32|H32].
  { pose proof (Forall_lookup_1 _ _ _ _ (expand_ok l Hl) Hx) as Hx32. cbv beta in Hx32. replace (count >? x) with true by (zcase; done).
    unfold hllSparseSet. change HLL_SPARSE_VAL_MAX_VALUE with 32. replace (count >? 32) with true by (zcase; done).
    destruct (promote_exact o hdr l i count x Ho Hh H4 Ha Hs Hx) as (o' & E & Ho' & Hd); [lia|lia|]. exists o'. split; [done|]. split; [done|by right]. }
  destruct (grown_spec o Ho) as (Ho1 & _ & L1 & G1). pose proof (ops_after_same o (grown_str o) hdr l Ho1 Ha L1 G1) as Ha1.
  pose proof (ops_after_reads _ _ _ Ha1) as Hr. rewrite Zh, L1 in Hr. pose proof (zlen_nonneg (encs l)).
  destruct (set_core o (Z.of_nat i) count l Ho) as [[Hf _]|(l1 & y & l2 & -> & Hy & Hin & C)]; [destruct Ha as (_ & -> & _); lia|lia|lia|done|lia|].
  apply Forall_app in Hl as [Hl1 Hl2]. rewrite expand_at in Hx by done. injection Hx as <-.
  destruct C as [[Hle ->]|[[Hlt ->]|[Hlt (o2 & -> & R)]]].
  - replace (count >? oval y) with false by (zcase; done). by exists (grown_str o).
  - replace (count >? oval y) with true by (zcase; done).
    destruct (promote_exact (grown_str o) hdr (l1 ++ y :: l2) i count (oval y) Ho1 Hh H4 Ha1 Hs) as (o' & E & Ho' & Hd); [by apply expand_at|lia|lia|].
    exists o'. split; [done|]. split; [done|by right].
  - replace (count >? oval y) with true by (zcase; done).
    destruct (xsplit_ok y (Z.of_nat i - spans l1) count Hy ltac:(lia) ltac:(lia)) as [Hn _].
    pose proof (replaced_ops _ _ _ _ _ _ _ Zh Ha1 Hn R) as Ha2. destruct R as (Ho2 & L2 & _).
    destruct (prev_split l1) as (a & b & -> & Ep). rewrite <- app_assoc in Ha2.
    destruct (updated_exact o2 hdr a _ _ Ho2 Ha2 Hh Ep) as (o' & l' & E & Ha' & Ex). exists o'. split; [done|].
    destruct (updated_safe o2 (prev_of 16 None (a ++ b)) Ho2 L2 (prev_of_ge _)) as (o3 & E3 & Ho3 & _). rewrite E in E3. injection E3 as <-.
    split; [done|]. left. exists l'. split; [done|]. rewrite Ex, app_assoc. apply expand_xsplit; [done|done|done|lia].
Qed.
End set.
