(* ===== verification/HllAdd.v ===== *)
(** * Hashing and adding an element: hyperloglog.c

    The hash is the same on machines of both byte orders, and gives a register and a
    count in range.  [hll_rep] relates a string, its header and its 16384 registers;
    the operations on strings are operations on the registers. *)
From stdpp Require Import list.
From S2P Require Import Prelude Hll HllDense HllRegs HllSparse HllSet.

(** ** The hash *)

Lemma hash_word_big (d : list Z) :
  bytes_ok d -> length d = 8%nat ->
  match d with
  | [d0; d1; d2; d3; d4; d5; d6; d7] =>
      Some (d0 ||| (d1 <<< 8) ||| (d2 <<< 16) ||| (d3 <<< 24) ||| (d4 <<< 32) ||| (d5 <<< 40) ||| (d6 <<< 48) ||| (d7 <<< 56))
  | _ => None
  end = Some (le_dec d).
Proof.
  intros B L. destruct d as [|d0 [|d1 [|d2 [|d3 [|d4 [|d5 [|d6 [|d7 [|]]]]]]]]]; try done. clear L. rewrite !Forall_cons in B. unfold is_byte in B. f_equal.
  cbn [le_dec]. rewrite (lor_shiftl d0 d1) by lia. do 6 (rewrite (lor_shiftl (_ + _)) by lia). lia.
Qed.

Lemma hash_word_spec (big : bool) (pre w l : list Z) :
  bytes_ok w -> length w = 8%nat -> hash_word big (pre ++ w ++ l) (zlen pre) = Some (le_dec w).
Proof.
  intros B L. unfold hash_word. rewrite (mread_app pre w l) by (done || unfold zlen; lia). destruct big; [|done]. sbind. by apply hash_word_big.
Qed.

(** The hash of an element, MurmurHash64A read as a function of the bytes: words of
    eight bytes are mixed in, then the bytes left over. *)
Definition murmur_m : Z := 14313749767032793493.
Definition scramble (x : Z) : Z := Z.lxor x (x / 2 ^ 47).
Definition mix_word (h k : Z) : Z := (Z.lxor h (scramble (k * murmur_m mod 2 ^ 64) * murmur_m mod 2 ^ 64) * murmur_m) mod 2 ^ 64.
Fixpoint murmur (l : list Z) (h : Z) : Z :=
  match l with
  | [] => h
  | b0 :: b1 :: b2 :: b3 :: b4 :: b5 :: b6 :: b7 :: l => murmur l (mix_word h (le_dec [b0; b1; b2; b3; b4; b5; b6; b7]))
  | rest => (Z.lxor h (le_dec rest) * murmur_m) mod 2 ^ 64
  end.
Definition murmur_hash (seed : Z) (ele : list Z) : Z :=
  scramble (scramble (murmur ele (Z.lxor seed (zlen ele * murmur_m mod 2 ^ 64))) * murmur_m mod 2 ^ 64).

(** The register is given by the low 14 bits, the count by the position of the
    lowest of the others that is set, 51 when none is. *)
Definition pattern (ele : list Z) : Z * Z :=
  let h := murmur_hash 0xadc83b19 ele in
  (match list_find (fun k => Z.testbit h (14 + k) = true) (seqZ 0 50) with Some (i, _) => 1 + Z.of_nat i | None => 51 end, h mod 2 ^ 14).

(** Elements the hash reads inside their buffer. *)
Definition ele_ok (ele : list Z) : Prop := bytes_ok ele /\ zlen ele < 2 ^ 31.

Lemma hash_mix_word (h k : Z) : hash_mix h k = mix_word h k.
Proof. unfold hash_mix, mix_word, scramble. cbv zeta. by rewrite Z.shiftr_div_pow2 by lia. Qed.

Lemma le_dec_snoc (l : list Z) (b : Z) : le_dec (l ++ [b]) = le_dec l + b * 2 ^ (8 * zlen l).
Proof.
  induction l as [|c l IH]; [rewrite (@zlen_nil Z); change (2 ^ (8 * 0)) with 1; cbn [app le_dec]; lia|]. cbn [app le_dec]. rewrite IH. pose proof (zlen_nonneg l).
  replace (8 * zlen (c :: l)) with (8 + 8 * zlen l) by (rewrite zlen_cons; lia). rewrite Z.pow_add_r by lia. change (2 ^ 8) with 256. lia.
Qed.

Lemma low_high_xor (a x b n : Z) : 0 <= n -> 0 <= x < 2 ^ n -> Z.lxor (Z.lxor a (b <<< n)) x = Z.lxor a (x + b * 2 ^ n).
Proof.
  intros Hn Hx. rewrite Z.lxor_assoc. f_equal. rewrite Z.lxor_comm, <- Z.shiftl_mul_pow2 by done. symmetry. apply Z.add_nocarry_lxor.
  apply Z.bits_inj'. intros i Hi. rewrite Z.land_spec, Z.bits_0. destruct (Z.lt_ge_cases i n).
  - by rewrite Z.shiftl_spec_low, andb_false_r.
  - rewrite <- (Z.mod_small x (2 ^ n)) by done. by rewrite Z.mod_pow2_bits_high by lia.
Qed.

Lemma hash_tail_spec (pre l : list Z) (n : nat) : bytes_ok l -> (n <= length l)%nat ->
  forall h, hash_tail n (pre ++ l) (zlen pre) h = Some (Z.lxor h (le_dec (take n l))).
Proof.
  intros B. induction n as [|n IH]; intros Hn h; [cbn; by rewrite Z.lxor_0_r|]. cbn [hash_tail].
  destruct (lookup_lt_is_Some_2 l n) as [b Hb]; [lia|]. pose proof (zlen_nonneg pre).
  rewrite mget_app_if by lia. destruct (Z.ltb_spec (zlen pre + Z.of_nat n) (zlen pre)); [lia|].
  replace (zlen pre + Z.of_nat n - zlen pre) with (Z.of_nat n) by lia. rewrite mget_lookup by lia. rewrite Nat2Z.id, Hb. sbind.
  rewrite IH by lia. f_equal. rewrite (take_S_r l n b Hb), le_dec_snoc. unfold zlen. rewrite length_take_le by lia. apply low_high_xor; [lia|].
  pose proof (le_dec_range (take n l) (Forall_take _ _ _ B)) as Hr. unfold zlen in Hr. by rewrite length_take_le in Hr by lia.
Qed.

Lemma murmur_short (l : list Z) (h : Z) : (length l < 8)%nat -> murmur l h = if decide (l = []) then h else (Z.lxor h (le_dec l) * murmur_m) mod 2 ^ 64.
Proof. intros L. do 8 (destruct l as [|? l]; [done|]). simpl in L. lia. Qed.

(** The two loops. *)
Lemma hash_body_spec (big : bool) (k : nat) : forall pre l h, bytes_ok l -> (length l < 8 * k + 8)%nat -> (8 * k <= length l)%nat ->
  (h ← hash_loop big k (pre ++ l) (zlen pre) h;
   h ← hash_tail (length l - 8 * k) (pre ++ l) (zlen pre + 8 * Z.of_nat k) h;
   Some (if decide ((length l - 8 * k)%nat = 0%nat) then h else u64 (h * hash_m))) = Some (murmur l h).
Proof.
  induction k as [|k IH]; intros pre l h B L1 L2.
  - cbn [hash_loop]. sbind. rewrite Z.mul_0_r, Z.add_0_r, Nat.sub_0_r, (hash_tail_spec pre l _ B) by lia. sbind.
    rewrite firstn_all, murmur_short by lia. destruct l as [|c l]; [cbn; by rewrite Z.lxor_0_r|]. done.
  - destruct l as [|b0 [|b1 [|b2 [|b3 [|b4 [|b5 [|b6 [|b7 l]]]]]]]]; cbn [length] in L1, L2; try lia.
    set (w := [b0; b1; b2; b3; b4; b5; b6; b7]). change (b0 :: b1 :: b2 :: b3 :: b4 :: b5 :: b6 :: b7 :: l) with (w ++ l) in *.
    apply Forall_app in B as [Bw Bl]. cbn [hash_loop]. rewrite (hash_word_spec big pre w l Bw) by done. sbind.
    specialize (IH (pre ++ w) l (hash_mix h (le_dec w)) Bl ltac:(lia) ltac:(lia)). rewrite <- app_assoc, zlen_app in IH. change (zlen w) with 8 in IH.
    replace (length (w ++ l) - 8 * S k)%nat with (length l - 8 * k)%nat by (cbn [length app w]; lia).
    replace (zlen pre + 8 * Z.of_nat (S k)) with (zlen pre + 8 + 8 * Z.of_nat k) by lia. rewrite IH, hash_mix_word. done.
Qed.

Lemma MurmurHash64A_spec (big : bool) (ele : list Z) (seed : Z) :
  bytes_ok ele -> MurmurHash64A big ele (zlen ele) seed = Some (murmur_hash seed ele).
Proof.
  intros B. unfold MurmurHash64A, murmur_hash. pose proof (zlen_nonneg ele). rewrite !(land_mod _ 3 7) by done. change (2 ^ 3) with 8.
  set (k := Z.to_nat (zlen ele / 8)). pose proof (hash_body_spec big k [] ele (Z.lxor seed (zlen ele * murmur_m mod 2 ^ 64)) B) as Hb.
  assert (Hk : Z.of_nat k = zlen ele / 8) by (unfold k; rewrite Z2Nat.id by div_lia; done). unfold zlen in Hk at 1.
  assert (Hd : zlen ele - zlen ele mod 8 = 8 * Z.of_nat k) by (rewrite Hk; unfold zlen; div_lia). rewrite Hd.
  destruct (Z.ltb_spec (8 * Z.of_nat k) 0); [lia|]. replace (8 * Z.of_nat k / 8) with (Z.of_nat k) by div_lia. rewrite Nat2Z.id.
  replace (Z.to_nat (zlen ele mod 8)) with (length ele - 8 * k)%nat by (unfold zlen; rewrite <- (Nat2Z.id (length ele - 8 * k)); f_equal; div_lia).
  cbn [app] in Hb. change (zlen []) with 0 in Hb. rewrite Z.add_0_l in Hb. specialize (Hb ltac:(div_lia) ltac:(div_lia)).
  change (u64 (zlen ele * hash_m)) with (zlen ele * murmur_m mod 2 ^ 64).
  destruct (hash_loop big k ele 0 _) as [h1|] in Hb |- *; [|done]. rewrite some_bind in Hb |- *.
  destruct (hash_tail _ ele _ h1) as [h2|] in Hb |- *; [|done]. rewrite some_bind in Hb |- *.
  injection Hb as Hb. assert (Hif : (if zlen ele mod 8 =? 0 then h2 else u64 (h2 * hash_m)) = murmur ele (Z.lxor seed (zlen ele * murmur_m mod 2 ^ 64))).
  { rewrite <- Hb. destruct (Z.eqb_spec (zlen ele mod 8) 0), (decide _); try done; unfold zlen in *; div_lia. }
  rewrite Hif. unfold scramble. by rewrite !Z.shiftr_div_pow2 by lia.
Qed.

Lemma ctz_spec (fuel : nat) : forall v k, 0 <= k < Z.of_nat fuel -> Z.testbit v k = true -> (forall j, 0 <= j < k -> Z.testbit v j = false) -> ctz fuel v = k.
Proof.
  induction fuel as [|fuel IH]; intros v k Hk Ht Hlow; [lia|]. cbn [ctz]. destruct (Z.eq_dec k 0) as [->|Hne]; [by rewrite Ht|].
  rewrite (Hlow 0) by lia. rewrite (IH (v >>> 1) (k - 1)); [lia|lia|..].
  - rewrite Z.shiftr_spec by lia. by replace (k - 1 + 1) with k by lia.
  - intros j Hj. rewrite Z.shiftr_spec by lia. apply Hlow. lia.
Qed.

Lemma hllPatLen_spec (big : bool) (ele : list Z) :
  ele_ok ele -> hllPatLen big ele = Some (pattern ele) /\ 1 <= (pattern ele).1 <= 51 /\ 0 <= (pattern ele).2 < 16384.
Proof.
  intros [B L]. unfold hllPatLen, pattern. pose proof (zlen_nonneg ele). rewrite swrap_small by (unfold in_signed; change (32 - 1) with 31; lia).
  rewrite MurmurHash64A_spec by done. sbind. set (h := murmur_hash _ _). change HLL_P_MASK with 16383. rewrite (land_mod _ 14) by done. cbn [fst snd].
  assert (Hbit : forall j, 0 <= j -> Z.testbit ((h >>> HLL_P) ||| (1 <<< HLL_Q)) j = Z.testbit h (14 + j) || (j =? 50)).
  { intros j Hj. change HLL_P with 14. change HLL_Q with 50. rewrite Z.lor_spec, Z.shiftr_spec, Z.shiftl_1_l, Z.pow2_bits_eqb, (Z.eqb_sym 50) by lia.
    do 2 f_equal. lia. }
  pose proof (Z.mod_pos_bound h (2 ^ 14) ltac:(lia)) as Hm. destruct (list_find _ _) as [[i x]|] eqn:Ef.
  - apply list_find_Some in Ef as (Hi & Hx & Hlow). apply lookup_seqZ in Hi as [-> Hi]. rewrite (ctz_spec 64 _ (Z.of_nat i)); [split; [do 2 f_equal; lia|lia]|lia|..].
    + rewrite Z.add_0_l in Hx. by rewrite Hbit, Hx by lia.
    + intros j Hj. rewrite Hbit by lia. destruct (Z.eqb_spec j 50); [lia|]. rewrite orb_false_r. apply not_true_is_false.
      apply (Hlow (Z.to_nat j) j); [apply lookup_seqZ; lia|lia].
  - apply list_find_None in Ef. rewrite Forall_forall in Ef. rewrite (ctz_spec 64 _ 50); [split; [done|lia]|lia|..].
    + rewrite Hbit by lia. by rewrite orb_true_r.
    + intros j Hj. rewrite Hbit by lia. destruct (Z.eqb_spec j 50); [lia|]. rewrite orb_false_r. apply not_true_is_false. apply (Ef j). apply elem_of_seqZ. lia.
Qed.

(** ** Strings and registers *)

Definition hll_rep (o : sds) (hdr regs : list Z) : Prop :=
  sds_ok o /\ hdr_ok hdr /\ take 4 hdr = str "HYLL" /\ length regs = nregs /\
  ((hdr !! 4%nat = Some HLL_SPARSE /\ exists l, ops_after o hdr l /\ expand l = regs) \/
   (hdr !! 4%nat = Some HLL_DENSE /\ dense_str o hdr regs)).

Lemma hll_rep_regs (o : sds) (hdr regs : list Z) : hll_rep o hdr regs -> length regs = nregs /\ Forall reg_ok regs.
Proof.
  intros (_ & _ & _ & L & [[_ (l & (Hl & _) & <-)]|[_ [_ [tl Hd]]]]); (split; [done|]).
  - apply (Forall_impl _ _ _ (expand_ok l Hl)). cbv beta. lia.
  - by eapply dense_at_regs.
Qed.

(** The registers do not depend on the rest of the header. *)
Lemma rep_header (o : sds) (hdr regs : list Z) :
  hll_rep o hdr regs -> exists rest, s_buf o = hdr ++ rest /\ bytes_ok rest /\ 1 <= zlen rest /\
    forall hdr', hdr_ok hdr' -> take 4 hdr' = str "HYLL" -> hdr' !! 4%nat = hdr !! 4%nat -> hll_rep (with_buf o (hdr' ++ rest)) hdr' regs.
Proof.
  intros ((Hlen & Hb & H5) & [Lh Bh] & Hm & L & R).
  assert (exists rest, s_buf o = hdr ++ rest /\ forall hdr', length hdr' = 16%nat ->
    (hdr' !! 4%nat = hdr !! 4%nat -> (hdr' !! 4%nat = Some HLL_SPARSE /\ exists l, ops_after (with_buf o (hdr' ++ rest)) hdr' l /\ expand l = regs) \/
      (hdr' !! 4%nat = Some HLL_DENSE /\ dense_str (with_buf o (hdr' ++ rest)) hdr' regs))) as (rest & Eb & Hr).
  { destruct R as [[H4 (l & (Hl & Ls & t & tl & Eb & Ht) & Ex)]|[H4 [Ls [tl (body & Eb & Hd)]]]].
    - exists (encs l ++ t :: tl). split; [done|]. intros hdr' L' E4. left. split; [congruence|]. exists l. split; [|done]. split; [done|].
      cbn [with_buf s_len s_buf]. split; [unfold zlen in *; lia|]. by exists t, tl.
    - exists (body ++ tl). split; [done|]. intros hdr' L' E4. right. split; [congruence|]. split; [done|]. exists tl. exists body. by split. }
  exists rest. rewrite Eb in Hb, Hlen. apply Forall_app in Hb as [_ Br]. rewrite zlen_app in Hlen. unfold zlen in Hlen at 1. split; [done|]. split; [done|].
  assert (16 <= s_len o).
  { destruct R as [[_ (l & (_ & -> & _) & _)]|[_ [-> _]]]; [pose proof (zlen_nonneg (encs l)); unfold zlen; lia|by vm_compute]. }
  split; [lia|]. intros hdr' [L' B'] M' E4. split; [|split; [done|split; [done|split; [done|by apply Hr]]]].
  split; [cbn [with_buf s_len s_buf]; rewrite zlen_app; unfold zlen at 1; lia|]. split; [cbn [with_buf s_buf]; by apply Forall_app|done].
Qed.

(** ** Valid strings *)

Lemma rep_valid (o : sds) (hdr regs : list Z) : hll_rep o hdr regs -> hll_valid o /\ mget (s_buf o) 4 = hdr !! 4%nat.
Proof.
  intros H. destruct (rep_header _ _ _ H) as (rest & Eb & _). destruct H as (Ho & [Lh Bh] & _ & _ & R).
  assert (E4 : mget (s_buf o) 4 = hdr !! 4%nat).
  { rewrite Eb, mget_lookup by lia. change (Z.to_nat 4) with 4%nat. by rewrite lookup_app_l by lia. }
  split; [|done]. split; [done|]. rewrite E4. destruct R as [[-> (l & (_ & -> & _) & _)]|[-> [-> _]]].
  - split; [pose proof (zlen_nonneg (encs l)); unfold zlen; lia|]. exists HLL_SPARSE. split; [done|by right].
  - split; [by vm_compute|]. exists HLL_DENSE. split; [done|by left].
Qed.

(** A valid dense string holds registers, whatever its bytes. *)
Lemma valid_dense (o : sds) :
  hll_valid o -> mget (s_buf o) 4 = Some HLL_DENSE -> exists regs, dense_str o (take 16 (s_buf o)) regs /\ hdr_ok (take 16 (s_buf o)).
Proof.
  intros ((Hlen & Hb & _) & _ & e & -> & Hv) [= ->]. destruct Hv as [[_ Hl]|]; [|done]. change HLL_DENSE_SIZE with 12304 in Hl.
  assert (Ln : length (s_buf o) = Z.to_nat (zlen (s_buf o))) by (unfold zlen; lia).
  set (body := take (3 * Z.to_nat 4096) (drop 16 (s_buf o))). exists (unpack body). split.
  - split; [done|]. exists (drop (3 * Z.to_nat 4096) (drop 16 (s_buf o))). exists body. split; [unfold body; by rewrite !take_drop|].
    split; [subst body; rewrite length_take, length_drop; lia|]. split; [by apply Forall_take, Forall_drop|]. split; [done|].
    destruct (drop (3 * Z.to_nat 4096) (drop 16 (s_buf o))) as [|t tl] eqn:E.
    + apply (f_equal length) in E. rewrite !length_drop in E. cbn [length] in E. lia.
    + exists t, tl. split; [done|]. assert (Hd : bytes_ok (t :: tl)) by (rewrite <- E; by apply Forall_drop, Forall_drop). by inversion Hd.
  - split; [rewrite length_take; lia|by apply Forall_take].
Qed.

Section add.
Context (usable : Z -> Z) (fresh : nat -> Z) (max_bytes : Z) (big : bool).
Context (Husable : forall n, n <= usable n) (Hfresh : forall n, is_byte (fresh n)) (Hmax : 32 <= max_bytes).

Lemma dense_set_valid (o : sds) (i : nat) (v : Z) :
  hll_valid o -> mget (s_buf o) 4 = Some HLL_DENSE -> (i < nregs)%nat -> reg_ok v ->
  exists b r, hllDenseSet (s_buf o) HLL_HDR_SIZE (Z.of_nat i) v = Some (b, r) /\ hll_valid (with_buf o b) /\ mget b 4 = Some HLL_DENSE.
Proof using.
  intros Hv He Hi Hr. destruct (valid_dense o Hv He) as (regs & Hd & Hh). pose proof Hv as (Ho & H16 & _). destruct Hd as [Hl [tl Hd]].
  destruct (lookup_lt_is_Some_2 regs i) as [x Hx]; [destruct (dense_at_regs _ _ _ _ Hd) as [-> _]; done|].
  destruct (dense_str_set o _ regs i v x Ho ltac:(split; [done|by exists tl]) Hh Hx Hr) as (b & E & Ho' & Hd').
  exists b, (if v >? x then 1 else 0). split; [done|].
  assert (H4 : take 16 (s_buf o) !! 4%nat = Some HLL_DENSE).
  { rewrite mget_lookup in He by lia. change (Z.to_nat 4) with 4%nat in He. by rewrite lookup_take_lt by lia. }
  pose proof (dense_valid _ _ _ Ho' Hd' Hh H4) as Hv'. split; [done|].
  destruct Hd' as [_ [tl' (body & Eb & _)]]. cbn [with_buf s_buf] in Eb. rewrite Eb, mget_lookup by lia. change (Z.to_nat 4) with 4%nat.
  rewrite lookup_app_l; [done|]. destruct Hh as [-> _]. lia.
Qed.

(** Adding to any valid string. *)
Lemma hllAdd_safe (o : sds) (ele : list Z) :
  hll_valid o -> ele_ok ele -> exists o' r, hllAdd usable fresh max_bytes big o ele = Some (o', r) /\ hll_valid o'.
Proof using Husable Hfresh Hmax.
  intros Hv Be. destruct (hllPatLen_spec big ele Be) as (Ep & Hc & Hi). destruct (pattern ele) as [count index]. cbn [fst snd] in *.
  assert (Hn : (Z.to_nat index < nregs)%nat) by (rewrite nregs_eq; lia). replace index with (Z.of_nat (Z.to_nat index)) in Ep by lia.
  unfold hllAdd, hdr_encoding. pose proof Hv as (_ & _ & e & E & _). rewrite E. sbind. destruct (Z.eqb_spec e HLL_DENSE) as [->|Hne].
  - unfold hllDenseAdd. rewrite Ep. sbind. destruct (dense_set_valid o (Z.to_nat index) count Hv E Hn) as (b & r & -> & Hv' & _); [cbv beta; lia|]. sbind.
    by exists (with_buf o b), r.
  - assert (e = HLL_SPARSE) as -> by (destruct Hv as (_ & _ & e' & E' & [[-> _]| ->]); congruence). rewrite Z.eqb_refl.
    unfold hllSparseAdd. rewrite Ep. sbind. apply set_safe; try done. lia.
Qed.

(** ** Adding to registers *)

Definition upd_reg (regs : list Z) (ele : list Z) : list Z := alter (Z.max (pattern ele).1) (Z.to_nat (pattern ele).2) regs.
(** The element changes a register. *)
Definition raises (regs ele : list Z) : bool :=
  match regs !! Z.to_nat (pattern ele).2 with Some x => (pattern ele).1 >? x | None => false end.

Lemma upd_reg_insert (regs ele : list Z) (x : Z) :
  regs !! Z.to_nat (pattern ele).2 = Some x -> upd_reg regs ele = <[Z.to_nat (pattern ele).2 := Z.max x (pattern ele).1]> regs.
Proof using.
  intros Hx. apply list_eq. intros i. unfold upd_reg. destruct (decide (i = Z.to_nat (pattern ele).2)) as [->|].
  - rewrite list_lookup_alter_eq, Hx, list_lookup_insert_eq by (by eapply lookup_lt_Some). cbn. f_equal. lia.
  - by rewrite list_lookup_alter_ne, list_lookup_insert_ne.
Qed.

Lemma invalidated_ok (hdr : list Z) :
  hdr_ok hdr -> hdr_ok (invalidated hdr) /\ take 4 (invalidated hdr) = take 4 hdr /\ invalidated hdr !! 4%nat = hdr !! 4%nat.
Proof using.
  intros [L B]. do 16 (destruct hdr as [|? hdr]; [done|]). destruct hdr; [|done]. unfold invalidated. cbn [alter list_alter]. split; [|done].
  split; [done|]. rewrite !Forall_cons in *. destruct_and!. repeat (split; [done|]). split; [|done].
  match goal with H : is_byte ?c |- is_byte (?c ||| _) => clear -H; by_bytes c H end.
Qed.
Lemma dense_hdr_fields (hdr : list Z) :
  hdr_ok hdr -> let h := <[4%nat := HLL_DENSE]> hdr in hdr_ok h /\ take 4 h = take 4 hdr /\ h !! 4%nat = Some HLL_DENSE.
Proof using.
  intros [L B] h. split; [|split].
  - split; [unfold h; by rewrite length_insert|]. apply Forall_insert; [done|unfold is_byte, HLL_DENSE; lia].
  - apply take_insert_ge. lia.
  - apply list_lookup_insert_eq. lia.
Qed.

(** The update of a register of a string. *)
Lemma set_rep (o : sds) (hdr regs : list Z) (i : nat) (count x : Z) :
  hll_rep o hdr regs -> regs !! i = Some x -> 1 <= count < 64 ->
  exists o' hdr', (e ← hdr_encoding (s_buf o);
      if e =? HLL_DENSE then '(b, r) ← hllDenseSet (s_buf o) HLL_HDR_SIZE (Z.of_nat i) count; Some (with_buf o b, r)
      else hllSparseSet usable fresh max_bytes o (Z.of_nat i) count) = Some (o', if count >? x then 1 else 0) /\
    hll_rep o' hdr' (<[i := Z.max x count]> regs) /\ ((count >? x) = false -> hdr' = hdr).
Proof using Husable Hfresh Hmax.
  intros H Hx Hc. destruct (rep_valid _ _ _ H) as [_ E4]. destruct H as (Ho & Hh & Hm & L & R). unfold hdr_encoding. rewrite E4.
  destruct R as [[H4 (l & Ha & Ex)]|[H4 Hd]]; rewrite H4; sbind.
  - change (HLL_SPARSE =? HLL_DENSE) with false. cbn iota.
    assert (Hs : spans l = 16384) by (rewrite <- zlen_expand by (by destruct Ha); rewrite Ex; unfold zlen; rewrite L, nregs_eq; lia).
    rewrite <- Ex in Hx. destruct (set_exact usable fresh max_bytes Husable Hfresh Hmax o hdr l i count x Ho Hh H4 Ha Hs Hx Hc) as (o' & E & Ho' & C).
    rewrite Ex in *. exists o'. rewrite E. destruct (Z.gtb_spec count x).
    + rewrite Z.max_r by lia. destruct C as [(l' & Ha' & Ex')|Hd].
      * destruct (invalidated_ok hdr Hh) as (Hh' & M' & E'). exists (invalidated hdr). split; [done|]. split; [|done].
        split; [done|]. split; [done|]. split; [congruence|]. split; [by rewrite length_insert|]. left. split; [congruence|]. by exists l'.
      * destruct (dense_hdr_fields hdr Hh) as (Hh' & M' & E'). exists (<[4%nat := HLL_DENSE]> hdr). split; [done|]. split; [|done].
        split; [done|]. split; [done|]. split; [congruence|]. split; [by rewrite length_insert|]. right. done.
    + rewrite Z.max_l, list_insert_id by (done || lia). exists hdr. split; [done|]. split; [|done].
      split; [done|]. split; [done|]. split; [done|]. split; [done|]. left. split; [done|]. by exists l.
  - change (HLL_DENSE =? HLL_DENSE) with true. cbn iota.
    destruct (dense_str_set o hdr regs i count x Ho Hd Hh Hx) as (b & -> & Ho' & Hd'); [cbv beta; lia|]. sbind. exists (with_buf o b), hdr.
    split; [done|]. split; [|done]. split; [done|]. split; [done|]. split; [done|]. split; [by rewrite length_insert|]. by right.
Qed.

Lemma hllAdd_spec (o : sds) (hdr regs ele : list Z) :
  hll_rep o hdr regs -> ele_ok ele ->
  exists o' hdr', hllAdd usable fresh max_bytes big o ele = Some (o', if raises regs ele then 1 else 0) /\
    hll_rep o' hdr' (upd_reg regs ele) /\ (raises regs ele = false -> hdr' = hdr /\ upd_reg regs ele = regs).
Proof using Husable Hfresh Hmax.
  intros H Be. destruct (hllPatLen_spec big ele Be) as (Ep & Hc & Hi). pose proof (hll_rep_regs _ _ _ H) as [L _].
  destruct (lookup_lt_is_Some_2 regs (Z.to_nat (pattern ele).2)) as [x Hx]; [rewrite L, nregs_eq; lia|].
  unfold raises. rewrite (upd_reg_insert regs ele x Hx), Hx. destruct (pattern ele) as [count index]. cbn [fst snd] in *.
  destruct (set_rep o hdr regs (Z.to_nat index) count x H Hx ltac:(lia)) as (o' & hdr' & E & H' & K). rewrite Z2Nat.id in E by lia.
  exists o', hdr'. split; [|split; [done|]].
  - rewrite <- E. destruct (rep_valid _ _ _ H) as [(_ & _ & e & Ee & [[-> _]| ->]) _]; unfold hllAdd, hdr_encoding; rewrite Ee; sbind.
    + unfold hllDenseAdd. by rewrite Ep.
    + unfold hllSparseAdd. by rewrite Ep.
  - intros Er. split; [by apply K|]. destruct (Z.gtb_spec count x); [done|]. rewrite Z.max_l by lia. by apply list_insert_id.
Qed.
End add.
