(* ===== verification/HllCmd.v ===== *)
(** * PFADD, PFCOUNT and PFMERGE: hyperloglog.c

    For each command: on any database of strings it replies, and every string stays
    well formed; and on HyperLogLogs it is the command on their registers. *)
From stdpp Require Import gmap list.
From S2P Require Import Prelude Hll HllDense HllRegs HllSparse HllSet HllAdd.

(** ** Strings with the same contents *)

Definition same_str (o o' : sds) : Prop :=
  sds_ok o' /\ s_len o' = s_len o /\ forall i, i < s_len o -> mget (s_buf o') i = mget (s_buf o) i.

Lemma same_rep (o o' : sds) (hdr regs : list Z) : hll_rep o hdr regs -> same_str o o' -> hll_rep o' hdr regs.
Proof.
  intros ((Hlen & Hb & _) & Hh & Hm & L & R) (Ho' & Ls & G). split; [done|]. split; [done|]. split; [done|]. split; [done|].
  destruct R as [[H4 (l & Ha & Ex)]|[H4 [Hl [tl (body & Eb & Lb & Bb & U & t & tl' & -> & Ht)]]]]; [left|right]; (split; [done|]).
  - exists l. split; [|done]. by eapply ops_after_same.
  - split; [congruence|]. pose proof Ho' as ((_ & Hlen') & Hb' & _). destruct Hh as [Lh Bh].
    assert (Zp : zlen (hdr ++ body) = s_len o) by (rewrite zlen_app, Hl; change HLL_DENSE_SIZE with 12304; unfold zlen; lia).
    destruct (prefix_of_mget (s_buf o') (hdr ++ body)) as [r Er]; [lia| |].
    { intros i Hi. rewrite G, Eb by lia. rewrite app_assoc, (mget_app_if (hdr ++ body)) by lia. zcase. done. }
    exists r. exists body. rewrite app_assoc. split; [done|]. split; [done|]. split; [done|]. split; [done|].
    rewrite Er in Hlen', Hb'. rewrite zlen_app in Hlen'. apply Forall_app in Hb' as [_ Br].
    destruct r as [|a r]; [rewrite zlen_nil in Hlen'; lia|]. exists a, r. split; [done|]. by inversion Br.
Qed.

Lemma same_valid (o o' : sds) : hll_valid o -> same_str o o' -> hll_valid o'.
Proof.
  intros (Ho & H16 & e & He & Hv) (Ho' & Ls & G). split; [done|]. split; [lia|]. exists e. rewrite G by lia. split; [done|].
  destruct Hv as [[-> Hl]| ->]; [left; split; [done|congruence]|by right].
Qed.

Section objects.
Context (usable : Z -> Z) (fresh : nat -> Z).
Context (Husable : forall n, n <= usable n) (Hfresh : forall n, is_byte (fresh n)).

Lemma unshare_same (own : bool) (o : sds) : sds_ok o -> same_str o (unshare usable fresh own o).
Proof using Husable Hfresh.
  intros Ho. pose proof Ho as (Hlen & Hb & _). unfold unshare. destruct own; [done|].
  set (init := take (Z.to_nat (s_len o)) (s_buf o)). assert (Li : zlen init = s_len o) by (unfold init, zlen in *; rewrite length_take; lia).
  destruct (sdsnewlen_ok usable fresh Husable Hfresh init) as (Ho' & L' & tl & Eb); [by apply Forall_take|].
  split; [done|]. split; [lia|]. intros i Hi. destruct (Z.ltb_spec i 0); [by rewrite !mget_outside by lia|].
  rewrite Eb, mget_app_if by lia. zcase. unfold init. rewrite !mget_lookup by lia. apply lookup_take_lt. lia.
Qed.

(** ** Creation *)

Definition new_hdr : list Z := str "HYLL" ++ [HLL_SPARSE] ++ replicate 11 0.

Lemma xzeros_all : xzeros (Z.to_nat HLL_REGISTERS) HLL_REGISTERS = Some (encs [XZeros 16384]).
Proof using.
  change HLL_REGISTERS with 16384. replace (Z.to_nat 16384) with (S (Z.to_nat 16383)) by lia. cbn [xzeros].
  change (16384 =? 0) with false. change (HLL_SPARSE_XZERO_MAX_LEN >? 16384) with false. cbn iota zeta.
  change (16384 - HLL_SPARSE_XZERO_MAX_LEN) with 0. by destruct (Z.to_nat 16383).
Qed.

Lemma create_rep : exists o, createHLLObject usable fresh = Some o /\ hll_rep o new_hdr (replicate nregs 0).
Proof using Husable Hfresh.
  unfold createHLLObject. change (HLL_HDR_SIZE + (HLL_REGISTERS + (HLL_SPARSE_XZERO_MAX_LEN - 1)) / HLL_SPARSE_XZERO_MAX_LEN * 2) with 18.
  rewrite xzeros_all. sbind. unfold sdsnewlen_null. change (Z.to_nat 18) with 18%nat.
  destruct (sdsnewlen_ok usable fresh Husable Hfresh (replicate 18 0)) as (Ho & Ls & tl & Eb).
  { apply Forall_replicate. unfold is_byte. lia. }
  rewrite Eb. set (s := sdsnewlen usable fresh (replicate 18 0)) in *. change HLL_HDR_SIZE with 16.
  assert (E1 : mwrite (replicate 18 0 ++ 0 :: tl) 16 (encs [XZeros 16384]) = Some (replicate 16 0 ++ encs [XZeros 16384] ++ 0 :: tl)).
  { change (replicate 18 0) with (replicate 16 0 ++ [0; 0]). rewrite <- app_assoc. by apply mwrite_app. }
  rewrite E1. sbind. change (16 + zlen (encs [XZeros 16384]) =? 18) with true. cbn [negb].
  assert (E2 : mwrite (replicate 16 0 ++ encs [XZeros 16384] ++ 0 :: tl) 0 (str "HYLL") =
    Some ((str "HYLL" ++ replicate 12 0) ++ encs [XZeros 16384] ++ 0 :: tl)).
  { by apply (mwrite_app [] (replicate 4 0) (replicate 12 0 ++ encs [XZeros 16384] ++ 0 :: tl) (str "HYLL")). }
  rewrite E2. sbind.
  assert (E3 : set_encoding ((str "HYLL" ++ replicate 12 0) ++ encs [XZeros 16384] ++ 0 :: tl) HLL_SPARSE =
    Some (new_hdr ++ encs [XZeros 16384] ++ 0 :: tl)).
  { by apply (mwrite_app (str "HYLL") [0] (replicate 11 0 ++ encs [XZeros 16384] ++ 0 :: tl) [HLL_SPARSE]). }
  rewrite E3. sbind. eexists. split; [done|]. destruct Ho as (Hlen & Hb & H5). rewrite Eb in Hlen, Hb.
  assert (Bt : bytes_ok tl) by (apply Forall_app in Hb as [_ Hb]; by inversion Hb).
  assert (Hh : hdr_ok new_hdr) by (split; [done|]; by apply (bool_decide_eq_true_1 (bytes_ok new_hdr))).
  split.
  { split; [|split; [|done]]; cbn [with_buf s_len s_buf].
    - rewrite Ls. autorewrite with zlen. change (zlen (replicate 18 0)) with 18. change (zlen new_hdr) with 16. change (zlen (encs [XZeros 16384])) with 2.
      pose proof (zlen_nonneg tl). lia.
    - rewrite Forall_app. split; [apply Hh|]. rewrite Forall_app. split; [apply encs_bytes; constructor; [cbn [sop_ok]; lia|done]|].
      constructor; [unfold is_byte; lia|done]. }
  split; [done|]. split; [done|]. split; [by rewrite length_replicate|]. left. split; [done|]. exists [XZeros 16384]. split.
  - split; [constructor; [cbn [sop_ok]; lia|done]|]. split; [done|]. exists 0, tl. split; [done|unfold is_byte; lia].
  - unfold expand. cbn [map mjoin list_join]. by rewrite app_nil_r.
Qed.
End objects.

(** ** Validation *)

Lemma isHLL_rep (own : bool) (o : sds) (hdr regs : list Z) : hll_rep o hdr regs -> isHLLObject (HStr own o) = Some (inr o).
Proof.
  intros H. destruct (rep_header _ _ _ H) as (rest & Eb & _). destruct (rep_valid _ _ _ H) as [(Ho & H16 & e & Ee & Hv) _].
  destruct H as (_ & [Lh _] & Hm & _). unfold isHLLObject. change HLL_HDR_SIZE with 16. replace (s_len o <? 16) with false by (zcase; done).
  assert (Er : mread (s_buf o) 0 4 = Some (str "HYLL")).
  { rewrite Eb, <- Hm. rewrite <- (take_drop 4 hdr) at 1. rewrite <- app_assoc. apply (mread_app []); [done|]. unfold zlen. rewrite length_take. lia. }
  rewrite Er. sbind. unfold hdr_encoding. rewrite Ee. sbind. rewrite bool_decide_eq_true_2 by done. cbn [negb].
  destruct Hv as [[-> ->]| ->]; done.
Qed.

Definition obj_ok (v : hobj) : Prop := match v with HStr _ o => sds_ok o | _ => True end.

(** What the check lets through is a valid string. *)
Lemma isHLL_safe (v : hobj) :
  obj_ok v -> exists r, isHLLObject v = Some r /\ forall o, r = inr o -> hll_valid o /\ exists own, v = HStr own o.
Proof.
  destruct v as [own o|?|?]; cbn [obj_ok isHLLObject]; [|by eexists..]. intros Ho. pose proof Ho as (Hlen & Hb & _). change HLL_HDR_SIZE with 16.
  destruct (Z.ltb_spec (s_len o) 16); [by eexists|]. destruct (mread_ok (s_buf o) 0 4) as (m & -> & _); [lia|lia|lia|]. sbind. unfold hdr_encoding.
  destruct (mget_byte_ex (s_buf o) 4 Hb) as (e & Ee & He); [lia|]. rewrite Ee. sbind. case_bool_decide; cbn [negb]; [|by eexists].
  change HLL_MAX_ENCODING with 1. destruct (Z.gtb_spec e 1); [by eexists|]. unfold is_byte in He.
  destruct (Z.eqb_spec e HLL_DENSE) as [->|Hne]; cbn [andb].
  - destruct (Z.eqb_spec (s_len o) HLL_DENSE_SIZE); cbn [negb]; [|by eexists]. eexists. split; [done|]. intros o' [= <-]. split; [|by exists own].
    split; [done|]. split; [lia|]. exists HLL_DENSE. split; [done|by left].
  - eexists. split; [done|]. intros o' [= <-]. split; [|by exists own]. split; [done|]. split; [lia|]. exists e. split; [done|]. right.
    unfold HLL_DENSE, HLL_SPARSE in *. lia.
Qed.

(** ** Loops over a string *)

(** The loop over the opcodes of any string. *)
Lemma valid_loop {A} (P : list Z -> A -> Prop) (f : Z -> Z -> Z -> A -> option A) (o : sds) (acc : A) :
  (forall regs n v acc, P regs acc -> (1 <= n)%nat -> zlen regs + Z.of_nat n <= 16384 -> 0 <= v <= 32 ->
    exists acc', f (zlen regs) (Z.of_nat n) v acc = Some acc' /\ P (regs ++ replicate n v) acc') ->
  sds_ok o -> 16 <= s_len o -> P [] acc ->
  exists ok idx acc', sparse_loop f (Z.to_nat (s_len o)) (s_buf o) HLL_HDR_SIZE (s_len o) 0 acc = Some (ok, idx, acc') /\
    ((ok && (idx =? HLL_REGISTERS)) = true -> exists regs, length regs = nregs /\ P regs acc').
Proof.
  intros Hf (Hlen & Hb & _) H16 HP. destruct (parse_ops (s_buf o) (s_len o) Hb ltac:(lia) (Z.to_nat (s_len o)) 16) as [l Hr]; [lia|lia|].
  pose proof (reads_length _ _ _ _ Hr). change HLL_HDR_SIZE with 16. rewrite (sparse_loop_ops _ _ _ l) by (done || lia).
  pose proof (reads_ok _ _ _ _ Hr) as Hl. destruct (loop_ops_spec P f l Hf Hl [] acc HP) as (idx & acc' & E & Hok); [rewrite zlen_nil; lia|].
  rewrite zlen_nil, Z.add_0_l in E, Hok. eexists _, idx, acc'. split; [exact E|]. rewrite andb_true_iff, Z.leb_le, Z.eqb_eq. change HLL_REGISTERS with 16384. intros [H1 H2].
  destruct (Hok H1) as [-> HP']. exists (expand l). split; [|done]. pose proof (zlen_expand l Hl) as Lx. unfold zlen in Lx. rewrite nregs_eq. lia.
Qed.

(** The loop over a string with the registers [regs]. *)
Lemma rep_loop {A} (P : list Z -> A -> Prop) (f : Z -> Z -> Z -> A -> option A) (o : sds) (hdr : list Z) (l : list sop) (acc : A) :
  (forall regs n v acc, P regs acc -> (1 <= n)%nat -> zlen regs + Z.of_nat n <= 16384 -> 0 <= v <= 32 ->
    exists acc', f (zlen regs) (Z.of_nat n) v acc = Some acc' /\ P (regs ++ replicate n v) acc') ->
  zlen hdr = 16 -> ops_after o hdr l -> length (expand l) = nregs -> P [] acc ->
  exists acc', sparse_loop f (Z.to_nat (s_len o)) (s_buf o) HLL_HDR_SIZE (s_len o) 0 acc = Some (true, HLL_REGISTERS, acc') /\ P (expand l) acc'.
Proof.
  intros Hf Zh Ha L HP. pose proof (ops_after_reads _ _ _ Ha) as Hr. rewrite Zh in Hr. destruct Ha as (Hl & Ls & _).
  pose proof (reads_length _ _ _ _ Hr). change HLL_HDR_SIZE with 16. rewrite (sparse_loop_ops _ _ _ l) by (done || lia).
  pose proof (zlen_expand l Hl) as Lx. unfold zlen in Lx. rewrite L, nregs_eq in Lx. change HLL_REGISTERS with 16384.
  destruct (loop_ops_spec P f l Hf Hl [] acc HP) as (idx & acc' & E & Hok); [rewrite zlen_nil; lia|].
  rewrite zlen_nil, Z.add_0_l in E, Hok. rewrite E. destruct Hok as [-> HP']; [lia|]. exists acc'. split; [|done].
  replace (spans l) with 16384 by lia. done.
Qed.

Lemma histo_step (regs : list Z) (n : nat) (v : Z) (h : list Z) :
  h = hadd no_histo regs -> (1 <= n)%nat -> zlen regs + Z.of_nat n <= 16384 -> 0 <= v <= 32 ->
  exists h', bump h v (Z.of_nat n) = Some h' /\ h' = hadd no_histo (regs ++ replicate n v).
Proof. intros Hh _ _ Hv. eexists. split; [by apply (histo_run_step no_histo regs n v h)|done]. Qed.

Section count.
Context (estimate : list Z -> Z).

Lemma hllCount_spec (o : sds) (hdr regs : list Z) : hll_rep o hdr regs -> hllCount estimate o = Some (false, estimate (histo regs)).
Proof using.
  intros H. destruct (rep_valid _ _ _ H) as [_ E4]. destruct H as (Ho & [Lh Bh] & _ & L & R). unfold hllCount, hdr_encoding. rewrite E4.
  assert (Zh : zlen hdr = 16) by (unfold zlen; lia). destruct R as [[-> (l & Ha & Ex)]|[-> [_ [tl Hd]]]]; sbind.
  - change (HLL_SPARSE =? HLL_DENSE) with false. change (HLL_SPARSE =? HLL_SPARSE) with true. cbn iota. unfold hllSparseRegHisto.
    destruct (rep_loop (fun regs h => h = hadd no_histo regs) (fun _ n v h => bump h v n) o hdr l no_histo histo_step Zh Ha) as (h & -> & ->);
      [by rewrite Ex|by rewrite hadd_nil|]. sbind. rewrite Z.eqb_refl, hadd_none, Ex. done.
  - change (HLL_DENSE =? HLL_DENSE) with true. cbn iota. change HLL_HDR_SIZE with 16. rewrite <- Zh.
    rewrite (hllDenseRegHisto_spec _ _ _ _ _ Hd) by done. sbind. by rewrite hadd_none.
Qed.

Lemma hllCount_safe (o : sds) : hll_valid o -> exists invalid card, hllCount estimate o = Some (invalid, card).
Proof using.
  intros Hv. pose proof Hv as (Ho & H16 & e & Ee & C). unfold hllCount, hdr_encoding. rewrite Ee. sbind. destruct C as [[-> _]| ->].
  - change (HLL_DENSE =? HLL_DENSE) with true. cbn iota. destruct (valid_dense o Hv Ee) as (regs & [_ [tl Hd]] & [Lh _]).
    change HLL_HDR_SIZE with (Z.of_nat 16). rewrite <- Lh. change (Z.of_nat (length ?l)) with (zlen l).
    rewrite (hllDenseRegHisto_spec _ _ _ _ _ Hd) by done. sbind. by eexists _, _.
  - change (HLL_SPARSE =? HLL_DENSE) with false. change (HLL_SPARSE =? HLL_SPARSE) with true. cbn iota. unfold hllSparseRegHisto.
    destruct (valid_loop (fun regs h => h = hadd no_histo regs) (fun _ n v h => bump h v n) o no_histo histo_step Ho H16) as (ok & idx & h & -> & _);
      [by rewrite hadd_nil|]. sbind. by eexists _, _.
Qed.
End count.

(** ** Merge *)

Definition raw_ok (raw : list Z) : Prop := length raw = nregs /\ Forall reg_ok raw.

Lemma raw_ok_max (raw regs : list Z) : raw_ok raw -> raw_ok regs -> raw_ok (zip_with Z.max raw regs).
Proof.
  intros [L1 O1] [L2 O2]. split; [rewrite length_zip_with; lia|]. apply Forall_lookup_2. intros i z Hz.
  apply lookup_zip_with_Some in Hz as (x & y & -> & Hx & Hy). pose proof (Forall_lookup_1 _ _ _ _ O1 Hx). pose proof (Forall_lookup_1 _ _ _ _ O2 Hy).
  cbv beta in *. lia.
Qed.
Lemma no_registers_ok : raw_ok no_registers.
Proof. unfold no_registers. split; [by rewrite length_replicate|]. apply Forall_replicate. lia. Qed.
Lemma upto_full (raw regs : list Z) : length raw = nregs -> length regs = nregs -> merged_upto (length regs) raw regs = zip_with Z.max raw regs.
Proof. intros L1 L2. rewrite L2, <- L1. apply upto_all. congruence. Qed.

Section merge.
Context (use_avx2 : bool).

Lemma hllMerge_spec (o : sds) (hdr regs raw : list Z) :
  hll_rep o hdr regs -> raw_ok raw -> hllMerge use_avx2 raw o = Some (true, zip_with Z.max raw regs).
Proof using.
  intros H [Lr Or]. destruct (rep_valid _ _ _ H) as [_ E4]. destruct H as (Ho & [Lh Bh] & _ & L & R). unfold hllMerge, hdr_encoding. rewrite E4.
  assert (Zh : zlen hdr = 16) by (unfold zlen; lia). destruct R as [[-> (l & Ha & Ex)]|[-> [_ [tl Hd]]]]; sbind.
  - change (HLL_SPARSE =? HLL_DENSE) with false. cbn iota.
    destruct (rep_loop (merged raw) (fun i n v max => if v =? 0 then Some max else max_run (Z.to_nat n) i v max) o hdr l raw) as (m & -> & Hm).
    + intros. by apply merge_run_step.
    + done.
    + done.
    + by rewrite Ex.
    + done.
    + sbind. rewrite Z.eqb_refl. unfold merged in Hm. by rewrite Hm, Ex, upto_full.
  - change (HLL_DENSE =? HLL_DENSE) with true. cbn iota. change HLL_HDR_SIZE with 16. rewrite <- Zh.
    rewrite (hllMergeDense_spec _ _ _ _ _ Hd) by done. done.
Qed.

Lemma hllMerge_safe (o : sds) (raw : list Z) :
  hll_valid o -> raw_ok raw -> exists ok raw', hllMerge use_avx2 raw o = Some (ok, raw') /\ (ok = true -> raw_ok raw').
Proof using.
  intros Hv [Lr Or]. pose proof Hv as (Ho & H16 & e & Ee & C). unfold hllMerge, hdr_encoding. rewrite Ee. sbind. destruct C as [[-> _]| ->].
  - change (HLL_DENSE =? HLL_DENSE) with true. cbn iota. destruct (valid_dense o Hv Ee) as (regs & [_ [tl Hd]] & [Lh _]).
    change HLL_HDR_SIZE with (Z.of_nat 16). rewrite <- Lh. change (Z.of_nat (length ?l)) with (zlen l).
    rewrite (hllMergeDense_spec _ _ _ _ _ Hd) by done. sbind. eexists _, _. split; [done|]. intros _. apply raw_ok_max; [done|]. by eapply dense_at_regs.
  - change (HLL_SPARSE =? HLL_DENSE) with false. cbn iota.
    destruct (valid_loop (fun regs m => merged raw regs m /\ Forall reg_ok regs)
      (fun i n v max => if v =? 0 then Some max else max_run (Z.to_nat n) i v max) o raw) as (ok & idx & m & -> & Hm).
    + intros regs n v acc [Hm Hg] Hn Hl Hv'. destruct (merge_run_step raw Lr Or regs n v acc Hm Hn Hl Hv') as (a & E & Hm'). exists a. split; [done|]. split; [done|].
      apply Forall_app. split; [done|]. apply Forall_replicate. lia.
    + done.
    + done.
    + done.
    + sbind. eexists _, _. split; [done|]. intros Hok. destruct (Hm Hok) as (regs & L & -> & Og). rewrite upto_full by done. by apply raw_ok_max.
Qed.

(** The registers in the merge of several keys: those of the keys that are there. *)
Definition merge_regs (raw : list Z) (l : list (list Z)) : list Z := foldl (zip_with Z.max) raw l.

Definition state_ok (s : hserver) : Prop := forall k v, hkeys s !! k = Some v -> obj_ok v.

Lemma merge_all_safe (s : hserver) (keys : list (list Z)) : state_ok s -> forall raw dense, raw_ok raw ->
  exists r, merge_all use_avx2 s keys raw dense = Some r /\ forall max d, r = inr (max, d) ->
    raw_ok max /\ forall k v, k ∈ keys -> hkeys s !! k = Some v -> exists own o, v = HStr own o /\ hll_valid o.
Proof using.
  intros Hs. induction keys as [|k keys IH]; intros raw dense Hr; cbn [merge_all].
  { eexists. split; [done|]. intros max d [= <- <-]. split; [done|]. intros k v Hk. by apply not_elem_of_nil in Hk. }
  destruct (hkeys s !! k) as [v|] eqn:Ek.
  - destruct (isHLL_safe v (Hs k v Ek)) as (r & -> & Hv). sbind. destruct r as [e|o]; [by eexists|]. destruct (Hv o eq_refl) as [Ho [own ->]].
    pose proof Ho as (_ & _ & e & Ee & _). unfold hdr_encoding. rewrite Ee. sbind.
    destruct (hllMerge_safe o raw Ho Hr) as (ok & raw' & -> & Hr'). sbind. destruct ok; cbn [negb]; [|by eexists].
    destruct (IH raw' (if e =? HLL_DENSE then true else dense) (Hr' eq_refl)) as (r & E & H). exists r. split; [done|]. intros max d Er.
    destruct (H max d Er) as [Hm Hk]. split; [done|]. intros k' v' Hin Ev. apply elem_of_cons in Hin as [->|Hin]; [|by eapply Hk].
    rewrite Ek in Ev. injection Ev as <-. by exists own, o.
  - destruct (IH raw dense Hr) as (r & E & H). exists r. split; [done|]. intros max d Er. destruct (H max d Er) as [Hm Hk]. split; [done|].
    intros k' v' Hin Ev. apply elem_of_cons in Hin as [->|Hin]; [congruence|by eapply Hk].
Qed.
End merge.

(** ** The commands on any database *)

Section safe.
Context (usable : Z -> Z) (fresh : nat -> Z) (max_bytes : Z) (big use_avx2 : bool) (estimate : list Z -> Z).
Context (Husable : forall n, n <= usable n) (Hfresh : forall n, is_byte (fresh n)) (Hmax : 32 <= max_bytes).

Lemma state_ok_put (s : hserver) (key : list Z) (o : sds) : state_ok s -> sds_ok o -> state_ok (hput s key o).
Proof using. intros Hs Ho k v. cbn [hput hkeys]. intros [[_ <-]|[_ Hk]]%lookup_insert_Some; [done|by eapply Hs]. Qed.

Lemma invalidate_ok (o : sds) : sds_ok o -> 16 <= s_len o -> exists b, HLL_INVALIDATE_CACHE (s_buf o) = Some b /\ sds_ok (with_buf o b).
Proof using.
  intros (Hlen & Hb & H5) H16. destruct (invalidate_spec (s_buf o) Hb ltac:(lia)) as [-> Bb]. eexists. split; [done|].
  split; [|done]. cbn [with_buf s_len s_buf]. unfold zlen in *. rewrite length_alter. lia.
Qed.
Lemma mwrite_sds_ok (o : sds) (off : Z) (src : list Z) :
  sds_ok o -> 0 <= off -> off + zlen src <= zlen (s_buf o) -> bytes_ok src -> exists b, mwrite (s_buf o) off src = Some b /\ sds_ok (with_buf o b).
Proof using.
  intros (Hlen & Hb & H5) H0 Hl Bs. destruct (mwrite_ok (s_buf o) off src H0 Hl) as (b & E & L & _). exists b. split; [done|].
  split; [cbn [with_buf s_len s_buf]; lia|]. split; [|done]. by eapply mwrite_bytes_ok; [exact Hb|exact Bs|exact E].
Qed.

Lemma lookup_or_create_safe (s : hserver) (key : list Z) :
  state_ok s -> exists r, lookup_or_create usable fresh s key = Some r /\ forall o n, r = inr (o, n) -> hll_valid o.
Proof using Husable Hfresh.
  intros Hs. unfold lookup_or_create. destruct (hkeys s !! key) as [v|] eqn:E.
  - destruct (isHLL_safe v (Hs _ _ E)) as (r & -> & Hr). sbind. eexists. split; [done|]. destruct r as [e|o]; [done|]. intros o' n [= <- <-].
    destruct (Hr o eq_refl) as [Hv [own ->]]. eapply same_valid; [exact Hv|]. apply unshare_same; try done. apply Hv.
  - destruct (create_rep usable fresh Husable Hfresh) as (o & -> & Ho). sbind. eexists. split; [done|]. intros o' n [= <- <-]. by eapply rep_valid.
Qed.

Lemma add_all_safe (eles : list (list Z)) : Forall ele_ok eles -> forall o n, hll_valid o ->
  exists o' n' ok, add_all usable fresh max_bytes big o eles n = Some (o', n', ok) /\ hll_valid o'.
Proof using Husable Hfresh Hmax.
  induction 1 as [|ele eles He _ IH]; intros o n Hv; cbn [add_all]; [by exists o, n, true|].
  destruct (hllAdd_safe usable fresh max_bytes big Husable Hfresh Hmax o ele Hv He) as (o1 & r & -> & Hv1). sbind.
  destruct (r =? -1); [by exists o1, n, false|]. by apply IH.
Qed.

Lemma pfadd_safe (s : hserver) (key : list Z) (eles : list (list Z)) :
  state_ok s -> Forall ele_ok eles -> exists s' r, pfaddCommand usable fresh max_bytes big s key eles = Some (s', r) /\ state_ok s'.
Proof using Husable Hfresh Hmax.
  intros Hs He. unfold pfaddCommand. destruct (lookup_or_create_safe s key Hs) as (r & -> & Hr). sbind. destruct r as [e|[o n]]; [by eexists _, _|].
  destruct (add_all_safe eles He o n (Hr o n eq_refl)) as (o' & n' & ok & -> & (Ho' & H16 & _)). sbind.
  destruct ok; cbn [negb]; [|eexists _, _; split; [done|by apply state_ok_put]]. destruct (n' =? 0); cbn [negb].
  - eexists _, _. split; [done|]. by apply state_ok_put.
  - destruct (invalidate_ok o' Ho' H16) as (b & -> & Hb). sbind. eexists _, _. split; [done|]. by apply (state_ok_put s).
Qed.

Lemma pfcount_safe (s : hserver) (keys : list (list Z)) :
  state_ok s -> exists s' r, pfcountCommand usable fresh use_avx2 estimate s keys = Some (s', r) /\ state_ok s'.
Proof using Husable Hfresh.
  intros Hs. assert (Multi : exists s' r, (r ← merge_all use_avx2 s keys no_registers false;
      match r with inl e => Some (s, HErr e) | inr (max, _) => card ← hllCountRaw estimate max; Some (s, HLong card) end) = Some (s', r) /\ state_ok s').
  { destruct (merge_all_safe use_avx2 s keys Hs no_registers false no_registers_ok) as (r & -> & Hr). sbind. destruct r as [e|[max d]]; [by eexists _, _|]. destruct (Hr max d eq_refl) as [[L O] _]. unfold hllCountRaw.
    rewrite hllRawRegHisto_spec by done. sbind. by eexists _, _. }
  unfold pfcountCommand. destruct keys as [|key [|k2 keys]]; [done| |done]. destruct (hkeys s !! key) as [v|] eqn:E; [|by eexists _, _].
  destruct (isHLL_safe v (Hs _ _ E)) as (r & -> & Hr). sbind. destruct r as [e|o0]; [by eexists _, _|]. destruct (Hr o0 eq_refl) as [Hv0 [own ->]].
  cbn [is_own]. set (o := unshare usable fresh own o0).
  assert (Hv : hll_valid o) by (eapply same_valid; [exact Hv0|]; apply unshare_same; try done; apply Hv0). pose proof Hv as (Ho & H16 & _).
  pose proof Ho as (Hlen & Hb & _). unfold HLL_VALID_CACHE. destruct (mget_in (s_buf o) 15) as [c ->]; [lia|]. sbind. destruct (_ =? 0).
  - unfold read_card. destruct (mread_ok (s_buf o) 8 8) as (m & -> & _); [lia|lia|lia|]. cbn [fmap option_fmap option_map]. sbind.
    eexists _, _. split; [done|]. by apply state_ok_put.
  - destruct (hllCount_safe estimate o Hv) as (inv & card & ->). sbind. destruct inv; [eexists _, _; split; [done|by apply state_ok_put]|].
    unfold write_card. destruct (mwrite_sds_ok o 8 (le_enc 8 card) Ho) as (b & -> & Ho'); [lia|rewrite zlen_le_enc; lia|apply le_enc_bytes|]. sbind.
    eexists _, _. split; [done|]. by apply (state_ok_put s).
Qed.

Lemma todense_safe (o : sds) :
  hll_valid o -> exists ok o', hllSparseToDense usable fresh o = Some (ok, o') /\ hll_valid o' /\ (ok = true -> mget (s_buf o') 4 = Some HLL_DENSE).
Proof using Husable Hfresh.
  intros Hv. pose proof Hv as (Ho & H16 & e & Ee & C). destruct C as [[-> _]| ->].
  - exists true, o. split; [|done]. unfold hllSparseToDense, hdr_encoding. by rewrite Ee.
  - pose proof Ho as (Hlen & Hb & _). destruct (parse_ops (s_buf o) (s_len o) Hb ltac:(lia) (Z.to_nat (s_len o)) 16) as [l Hr]; [lia|lia|].
    destruct (todense_spec usable fresh Husable Hfresh o HLL_SPARSE l Ho H16 Ee ltac:(done) Hr) as (o' & E & H').
    rewrite E. destruct (Z.eqb_spec (spans l) 16384) as [Es|]; [|by exists false, o]. exists true, o'. split; [done|]. destruct (H' Es) as [Ho' Hd].
    pose proof (dense_hdr_ok (s_buf o) Hb ltac:(lia)) as Hh. pose proof (dense_hdr_4 (s_buf o) ltac:(lia)) as H4.
    split; [by eapply dense_valid|]. intros _. destruct Hd as [_ [tl (body & -> & _)]]. rewrite mget_lookup by lia. change (Z.to_nat 4) with 4%nat.
    rewrite lookup_app_l; [done|]. destruct Hh as [-> _]. lia.
Qed.

Lemma store_register_safe (max : list Z) (j : nat) (o : sds) :
  raw_ok max -> (j < nregs)%nat -> hll_valid o -> exists o', store_register usable fresh max_bytes max j o = Some o' /\ hll_valid o'.
Proof using Husable Hfresh Hmax.
  intros [L O] Hj Hv. destruct (lookup_lt_is_Some_2 max j) as [v Ev]; [lia|]. unfold store_register. rewrite mget_lookup, Nat2Z.id, Ev by lia. sbind.
  pose proof (Forall_lookup_1 _ _ _ _ O Ev) as Hr. cbv beta in Hr. destruct (Z.eqb_spec v 0); [by exists o|].
  pose proof Hv as (_ & _ & e & Ee & C). unfold hdr_encoding. rewrite Ee. sbind. destruct C as [[-> _]| ->].
  - change (HLL_DENSE =? HLL_DENSE) with true. cbn iota. destruct (dense_set_valid o j v Hv Ee Hj) as (b & r & -> & Hv' & _); [cbv beta; lia|]. sbind. by eexists.
  - change (HLL_SPARSE =? HLL_DENSE) with false. change (HLL_SPARSE =? HLL_SPARSE) with true. cbn iota.
    destruct (set_safe usable fresh max_bytes Husable Hfresh Hmax o j v Hv Ee Hj) as (o' & r & -> & Hv'); [lia|]. sbind. by eexists.
Qed.

Lemma store_registers_safe (max : list Z) (dense : bool) (o : sds) :
  raw_ok max -> hll_valid o -> (dense = true -> mget (s_buf o) 4 = Some HLL_DENSE) ->
  exists o', store_registers usable fresh max_bytes use_avx2 max dense o = Some o' /\ sds_ok o' /\ 16 <= s_len o'.
Proof using Husable Hfresh Hmax.
  clear estimate. intros Hm Hv Hd. unfold store_registers. destruct dense.
  - destruct (valid_dense o Hv (Hd eq_refl)) as (regs & [Hl [tl Hda]] & [Lh Bh]). destruct Hm as [L O].
    destruct (hllDenseCompress_spec max (take 16 (s_buf o)) tl L O use_avx2 (s_buf o)) as (b & E & Hb); [by exists regs|].
    change HLL_HDR_SIZE with (Z.of_nat 16). rewrite <- Lh. change (Z.of_nat (length ?l)) with (zlen l). rewrite E. sbind.
    eexists. split; [done|]. destruct Hv as ((Hlen & Hbo & H5) & H16 & _). destruct (dense_at_zlen _ _ _ _ Hda) as [L1 _].
    destruct (dense_at_zlen _ _ _ _ Hb) as [L2 _]. split; [|done]. split; [cbn [with_buf s_len s_buf]; lia|]. split; [|done].
    eapply dense_at_bytes; [exact Hb|done|]. destruct Hda as (body & Eb & _). rewrite Eb, !Forall_app in Hbo. tauto.
  - destruct (for_loop_ind (store_register usable fresh max_bytes max) (fun _ => hll_valid) 0 nregs o Hv) as (o' & E & (Ho' & H16 & _)).
    { intros j o1 Hj Hv1. apply store_register_safe; [done|lia|done]. }
    by exists o'.
Qed.

Lemma pfmerge_safe (s : hserver) (key : list Z) (keys : list (list Z)) :
  state_ok s -> exists s' r, pfmergeCommand usable fresh max_bytes use_avx2 s key keys = Some (s', r) /\ state_ok s'.
Proof using Husable Hfresh Hmax.
  intros Hs. unfold pfmergeCommand. destruct (merge_all_safe use_avx2 s (key :: keys) Hs no_registers false no_registers_ok) as (r & -> & Hr). sbind.
  destruct r as [e|[max dense]]; [by eexists _, _|]. destruct (Hr max dense eq_refl) as [Hm Hk].
  assert (Dest : exists o, match hkeys s !! key with Some (HStr own o) => Some (unshare usable fresh own o) | Some _ => None
    | None => createHLLObject usable fresh end = Some o /\ hll_valid o).
  { destruct (hkeys s !! key) as [v|] eqn:E.
    - destruct (Hk key v ltac:(by left) E) as (own & o & -> & Hv). eexists. split; [done|]. eapply same_valid; [exact Hv|]. apply unshare_same; try done. apply Hv.
    - destruct (create_rep usable fresh Husable Hfresh) as (o & -> & Ho). exists o. split; [done|]. by eapply rep_valid. }
  destruct Dest as (o & -> & Hv). sbind.
  assert (Conv : exists ok o1, (if dense then hllSparseToDense usable fresh o else Some (true, o)) = Some (ok, o1) /\ hll_valid o1 /\
    (ok = true -> dense = true -> mget (s_buf o1) 4 = Some HLL_DENSE)).
  { destruct dense; [|by exists true, o]. destruct (todense_safe o Hv) as (ok & o1 & E & Hv1 & H4). exists ok, o1. split; [done|]. split; [done|]. intros H _. by apply H4. }
  destruct Conv as (ok & o1 & -> & Hv1 & H4). sbind. destruct ok; cbn [negb]; [|eexists _, _; split; [done|apply state_ok_put; [done|apply Hv1]]].
  destruct (store_registers_safe max dense o1 Hm Hv1 (H4 eq_refl)) as (o2 & -> & Ho2 & H16). sbind.
  destruct (invalidate_ok o2 Ho2 H16) as (b & -> & Hb). sbind. eexists _, _. split; [done|]. by apply (state_ok_put s).
Qed.
End safe.
