(* ===== verification/HllSpec.v ===== *)
(** * HyperLogLogs as lists of registers

    The specification of PFADD, PFCOUNT and PFMERGE keeps 16384 registers per key:
    adding an element raises one register, a merge takes the larger of each, and a
    count is the estimate on the histogram.  The commands on strings refine it. *)
From stdpp Require Import gmap list.
From S2P Require Import Prelude Hll HllDense HllRegs HllSparse HllSet HllAdd HllCmd.

(** ** The specification *)

(** A key holds registers, or a value the commands refuse with an error. *)
Abbreviation regmap := (gmap (list Z) (herr + list Z)).

Inductive hcmd := PFADD (key : list Z) (eles : list (list Z)) | PFCOUNT (key : list Z) (keys : list (list Z)) | PFMERGE (key : list Z) (keys : list (list Z)).

Fixpoint spec_union (m : regmap) (keys : list (list Z)) (raw : list Z) : herr + list Z :=
  match keys with
  | [] => inr raw
  | k :: keys =>
      match m !! k with
      | None => spec_union m keys raw
      | Some (inl e) => inl e
      | Some (inr regs) => spec_union m keys (zip_with Z.max raw regs)
      end
  end.

Section spec.
Context (estimate : list Z -> Z).
Definition spec_cmd (c : hcmd) (m : regmap) : regmap * hreply :=
  match c with
  | PFADD key eles =>
      match m !! key with
      | Some (inl e) => (m, HErr e)
      | Some (inr regs) =>
          let regs' := foldl upd_reg regs eles in (<[key := inr regs']> m, HLong (if decide (regs' = regs) then 0 else 1))
      | None => (<[key := inr (foldl upd_reg no_registers eles)]> m, HLong 1)
      end
  | PFCOUNT key [] =>
      (m, match m !! key with
          | None => HLong 0
          | Some (inl e) => HErr e
          | Some (inr regs) => HLong (estimate (histo regs))
          end)
  | PFCOUNT key keys => (m, match spec_union m (key :: keys) no_registers with inl e => HErr e | inr raw => HLong (estimate (histo raw)) end)
  | PFMERGE key keys =>
      match spec_union m (key :: keys) no_registers with
      | inl e => (m, HErr e)
      | inr raw => (<[key := inr raw]> m, HOk)
      end
  end.
Fixpoint spec_cmds (cs : list hcmd) (m : regmap) : regmap * list hreply :=
  match cs with
  | [] => (m, [])
  | c :: cs => let '(m, r) := spec_cmd c m in let '(m, rs) := spec_cmds cs m in (m, r :: rs)
  end.
End spec.

Section op_run.
Context (usable : Z -> Z) (fresh : nat -> Z) (max_bytes : Z) (big use_avx2 : bool) (estimate : list Z -> Z).
(** The commands on strings. *)
Definition run_cmd (c : hcmd) (s : hserver) : option (hserver * hreply) :=
  match c with
  | PFADD key eles => pfaddCommand usable fresh max_bytes big s key eles
  | PFCOUNT key keys => pfcountCommand usable fresh use_avx2 estimate s (key :: keys)
  | PFMERGE key keys => pfmergeCommand usable fresh max_bytes use_avx2 s key keys
  end.
Fixpoint run_cmds (cs : list hcmd) (s : hserver) : option (hserver * list hreply) :=
  match cs with
  | [] => Some (s, [])
  | c :: cs => '(s, r) ← run_cmd c s; '(s, rs) ← run_cmds cs s; Some (s, r :: rs)
  end.
Definition cmd_ok (c : hcmd) : Prop := match c with PFADD _ eles => Forall ele_ok eles | _ => True end.
End op_run.

(** ** The relation *)

Section refine.
Context (usable : Z -> Z) (fresh : nat -> Z) (max_bytes : Z) (big use_avx2 : bool) (estimate : list Z -> Z).
Context (Husable : forall n, n <= usable n) (Hfresh : forall n, is_byte (fresh n)) (Hmax : 32 <= max_bytes).
Context (Hestimate : forall h, 0 <= estimate h < 2 ^ 63).

(** A cardinality in the cache is the one of the registers. *)
Definition card_ok (hdr regs : list Z) : Prop :=
  forall c, hdr !! 15%nat = Some c -> (c &&& (1 <<< 7)) = 0 -> le_dec (drop 8 hdr) = estimate (histo regs).
Definition val_rel (v : hobj) (a : herr + list Z) : Prop :=
  match a with
  | inl e => isHLLObject v = Some (inl e)
  | inr regs => exists own o hdr, v = HStr own o /\ hll_rep o hdr regs /\ card_ok hdr regs
  end.
Definition db_rel (s : hserver) (m : regmap) : Prop := forall k,
  match hkeys s !! k, m !! k with
  | None, None => True
  | Some v, Some a => val_rel v a
  | _, _ => False
  end.

Lemma db_rel_put (s : hserver) (m : regmap) (key : list Z) (o : sds) (hdr regs : list Z) :
  db_rel s m -> hll_rep o hdr regs -> card_ok hdr regs -> db_rel (hput s key o) (<[key := inr regs]> m).
Proof using.
  intros H Ho Hc k. cbn [hput hkeys]. destruct (decide (k = key)) as [->|].
  - rewrite !lookup_insert_eq. exists true, o, hdr. done.
  - rewrite !lookup_insert_ne by done. apply H.
Qed.

Lemma invalidated_cache (hdr regs : list Z) : hdr_ok hdr -> card_ok (invalidated hdr) regs.
Proof using.
  intros [L B] c Hc H0. exfalso. unfold invalidated in Hc. rewrite list_lookup_alter_eq in Hc.
  destruct (lookup_lt_is_Some_2 hdr 15) as [d Hd]; [lia|]. rewrite Hd in Hc. cbn in Hc. injection Hc as <-.
  pose proof (Forall_lookup_1 _ _ _ _ B Hd) as Bd. revert H0. clear -Bd. change (Z.lor d 128 &&& (1 <<< 7) = 0 -> False). by_bytes d Bd.
Qed.

(** The flag set. *)
Lemma invalidate_rep (o : sds) (hdr regs : list Z) :
  hll_rep o hdr regs -> exists b, HLL_INVALIDATE_CACHE (s_buf o) = Some b /\ hll_rep (with_buf o b) (invalidated hdr) regs /\ card_ok (invalidated hdr) regs.
Proof using.
  intros H. destruct (rep_header _ _ _ H) as (rest & Eb & Br & Lr & Hr). pose proof H as ((Hlen & Hb & _) & Hh & Hm & _).
  destruct (invalidate_spec (s_buf o) Hb) as [E _]; [rewrite Eb, zlen_app; destruct Hh as [Lh _]; unfold zlen at 1; lia|].
  exists (invalidated hdr ++ rest). split; [rewrite E, Eb; f_equal; apply invalidated_app; apply Hh|].
  destruct (invalidated_ok hdr Hh) as (Hh' & M' & E4). split; [|by apply invalidated_cache]. apply Hr; [done|congruence|done].
Qed.

(** ** PFADD *)

Definition total (regs : list Z) : Z := foldr Z.add 0 regs.
Lemma total_insert (regs : list Z) (i : nat) (x v : Z) : regs !! i = Some x -> total (<[i := v]> regs) = total regs + (v - x).
Proof using.
  revert i; induction regs as [|y regs IH]; intros i Hx; [done|]. destruct i as [|i].
  - injection Hx as ->. cbn. lia.
  - change (y + total (<[i := v]> regs) = y + total regs + (v - x)). rewrite (IH i Hx). lia.
Qed.
Lemma total_upd (regs ele : list Z) :
  length regs = nregs -> ele_ok ele -> total regs + (if raises regs ele then 1 else 0) <= total (upd_reg regs ele).
Proof using.
  intros L Be. destruct (hllPatLen_spec false ele Be) as (_ & _ & Hi).
  destruct (lookup_lt_is_Some_2 regs (Z.to_nat (pattern ele).2)) as [x Hx]; [rewrite L, nregs_eq; lia|].
  unfold raises. rewrite (upd_reg_insert regs ele x Hx), (total_insert _ _ x), Hx by done. destruct (Z.gtb_spec (pattern ele).1 x); lia.
Qed.

Lemma add_all_spec (eles : list (list Z)) : Forall ele_ok eles -> forall o hdr regs n, hll_rep o hdr regs ->
  exists o' hdr' k, add_all usable fresh max_bytes big o eles n = Some (o', n + Z.of_nat k, true) /\ hll_rep o' hdr' (foldl upd_reg regs eles) /\
    (k = 0%nat -> hdr' = hdr /\ foldl upd_reg regs eles = regs) /\ total regs + Z.of_nat k <= total (foldl upd_reg regs eles).
Proof using Husable Hfresh Hmax.
  induction 1 as [|ele eles He _ IH]; intros o hdr regs n H; cbn [add_all foldl].
  { exists o, hdr, 0%nat. rewrite Z.add_0_r. split; [done|]. split; [done|]. split; [done|]. lia. }
  destruct (hllAdd_spec usable fresh max_bytes big Husable Hfresh Hmax o hdr regs ele H He) as (o1 & hdr1 & -> & H1 & K1). sbind.
  pose proof (total_upd regs ele (proj1 (hll_rep_regs _ _ _ H)) He) as T. destruct (raises regs ele) eqn:Er.
  - change (1 =? -1) with false. change (1 =? 1) with true. cbn iota. destruct (IH o1 hdr1 (upd_reg regs ele) (n + 1) H1) as (o' & hdr' & k & -> & H' & _ & T').
    exists o', hdr', (S k). split; [by replace (n + 1 + Z.of_nat k) with (n + Z.of_nat (S k)) by lia|]. split; [done|]. split; [done|]. lia.
  - change (0 =? -1) with false. change (0 =? 1) with false. cbn iota. destruct (K1 eq_refl) as [-> Eu]. rewrite Eu in *.
    apply (IH o1 hdr regs n H1).
Qed.

Lemma unshare_rep (own : bool) (o : sds) (hdr regs : list Z) : hll_rep o hdr regs -> hll_rep (unshare usable fresh own o) hdr regs.
Proof using Husable Hfresh. intros H. eapply same_rep; [exact H|]. apply unshare_same; try done. apply H. Qed.

Lemma new_registers : replicate nregs 0 = no_registers.
Proof using. done. Qed.

Lemma refine_pfadd (s : hserver) (m : regmap) (key : list Z) (eles : list (list Z)) :
  db_rel s m -> Forall ele_ok eles ->
  exists s', pfaddCommand usable fresh max_bytes big s key eles = Some (s', (spec_cmd estimate (PFADD key eles) m).2) /\
    db_rel s' (spec_cmd estimate (PFADD key eles) m).1.
Proof using Husable Hfresh Hmax.
  intros H He. unfold pfaddCommand, lookup_or_create. cbn [spec_cmd]. specialize (H key) as Hk.
  destruct (hkeys s !! key) as [v|] eqn:Ek, (m !! key) as [[e|regs]|] eqn:Em; try done.
  - cbn [val_rel] in Hk. rewrite Hk. sbind. by exists s.
  - destruct Hk as (own & o & hdr & -> & Ho & Hc). rewrite (isHLL_rep own o hdr regs Ho). sbind. cbn [is_own].
    destruct (add_all_spec eles He _ _ _ 0 (unshare_rep own o hdr regs Ho)) as (o' & hdr' & k & -> & H' & K0 & T). sbind. cbn [negb]. rewrite Z.add_0_l.
    set (regs' := foldl upd_reg regs eles) in *. destruct (Z.eqb_spec (Z.of_nat k) 0) as [Ez|Ez]; cbn [negb].
    + destruct (K0 ltac:(lia)) as [-> Er]. cbn [fst snd]. rewrite decide_True by done. eexists. split; [done|]. rewrite Er. apply (db_rel_put s m key o' hdr); [done| |done]. by rewrite <- Er.
    + destruct (invalidate_rep o' hdr' regs' H') as (b & -> & Hb & Hcb). sbind. cbn [fst snd]. rewrite decide_False; [|intros E; rewrite E in T; lia].
      eexists. split; [done|]. by apply (db_rel_put s m key _ (invalidated hdr')).
  - destruct (create_rep usable fresh Husable Hfresh) as (o & -> & Ho). sbind. rewrite new_registers in Ho.
    destruct (add_all_spec eles He _ _ _ 1 Ho) as (o' & hdr' & k & -> & H' & _). sbind. cbn [negb].
    replace (1 + Z.of_nat k =? 0) with false by (zcase; done). cbn [negb].
    destruct (invalidate_rep o' hdr' _ H') as (b & -> & Hb & Hcb). sbind. eexists. split; [done|]. by apply (db_rel_put s m key _ (invalidated hdr')).
Qed.

(** ** PFCOUNT *)

Lemma merge_all_spec (s : hserver) (m : regmap) (keys : list (list Z)) : db_rel s m -> forall raw dense, raw_ok raw ->
  exists r, merge_all use_avx2 s keys raw dense = Some r /\
    match spec_union m keys raw with inl e => r = inl e | inr raw' => raw_ok raw' /\ exists d, r = inr (raw', d) end.
Proof using.
  intros H. induction keys as [|k keys IH]; intros raw dense Hr; cbn [merge_all spec_union]; [eexists; split; [done|]; split; [done|]; by eexists|].
  specialize (H k) as Hk. destruct (hkeys s !! k) as [v|] eqn:Ek, (m !! k) as [[e|regs]|] eqn:Em; try done.
  - cbn [val_rel] in Hk. rewrite Hk. sbind. by eexists.
  - destruct Hk as (own & o & hdr & -> & Ho & _). rewrite (isHLL_rep own o hdr regs Ho). sbind.
    destruct (rep_valid _ _ _ Ho) as [(_ & _ & e & Ee & _) _]. unfold hdr_encoding. rewrite Ee. sbind.
    rewrite (hllMerge_spec use_avx2 o hdr regs raw Ho Hr). sbind. cbn [negb]. apply IH. apply raw_ok_max; [done|]. by eapply hll_rep_regs.
  - by apply IH.
Qed.

Lemma card_header (hdr : list Z) (card : Z) :
  hdr_ok hdr -> 0 <= card < 2 ^ 63 -> let h := take 8 hdr ++ le_enc 8 card in
  hdr_ok h /\ take 4 h = take 4 hdr /\ h !! 4%nat = hdr !! 4%nat /\ le_dec (drop 8 h) = card.
Proof using.
  intros [L B] Hc h. assert (L8 : length (take 8 hdr) = 8%nat) by (rewrite length_take; lia). split; [|split; [|split]].
  - split; [unfold h; rewrite length_app, L8, length_le_enc; done|]. apply Forall_app. split; [by apply Forall_take|apply le_enc_bytes].
  - unfold h. rewrite take_app_le by lia. by rewrite take_take.
  - unfold h. rewrite lookup_app_l by lia. by apply lookup_take_lt; lia.
  - unfold h. rewrite drop_app_length' by done. rewrite le_dec_enc. apply wrap_small. change (8 * Z.of_nat 8) with 64. lia.
Qed.

Lemma refine_pfcount (s : hserver) (m : regmap) (key : list Z) (keys : list (list Z)) :
  db_rel s m ->
  exists s', pfcountCommand usable fresh use_avx2 estimate s (key :: keys) = Some (s', (spec_cmd estimate (PFCOUNT key keys) m).2) /\ db_rel s' m.
Proof using Husable Hfresh Hestimate.
  intros H. destruct keys as [|k2 keys]; unfold pfcountCommand.
  - cbn [spec_cmd snd]. specialize (H key) as Hk. destruct (hkeys s !! key) as [v|] eqn:Ek, (m !! key) as [[e|regs]|] eqn:Em; try done; [..|by exists s].
    { cbn [val_rel] in Hk. rewrite Hk. sbind. by exists s. }
    destruct Hk as (own & o0 & hdr & -> & Ho0 & Hc). rewrite (isHLL_rep own o0 hdr regs Ho0). sbind. cbn [is_own].
    pose proof (unshare_rep own o0 hdr regs Ho0) as Ho. set (o := unshare usable fresh own o0) in *.
    destruct (rep_header _ _ _ Ho) as (rest & Eb & Br & Lr & Hr). pose proof Ho as (_ & [Lh Bh] & Hm & _).
    assert (Put : forall o1 h, hll_rep o1 h regs -> card_ok h regs -> db_rel (hput s key o1) m).
    { intros o1 h H1 H2. rewrite <- (insert_id m key (inr regs) Em). by apply (db_rel_put s m key o1 h). }
    unfold HLL_VALID_CACHE. destruct (lookup_lt_is_Some_2 hdr 15) as [c Ec]; [lia|]. rewrite Eb, mget_lookup by lia. change (Z.to_nat 15) with 15%nat.
    rewrite lookup_app_l, Ec by lia. sbind. destruct (Z.eqb_spec (c &&& (1 <<< 7)) 0) as [E0|_].
    + unfold read_card. assert (Er : mread (hdr ++ rest) 8 8 = Some (drop 8 hdr)).
      { rewrite <- (take_drop 8 hdr) at 1. rewrite <- app_assoc. apply mread_app; unfold zlen; [rewrite length_take; lia|rewrite length_drop; lia]. }
      rewrite Er. cbn [fmap option_fmap option_map]. sbind. rewrite (Hc c Ec E0). eexists. split; [done|]. by eapply Put.
    + rewrite (hllCount_spec estimate o hdr regs Ho). sbind. set (card := estimate (histo regs)). unfold write_card.
      assert (Ew : mwrite (hdr ++ rest) 8 (le_enc 8 card) = Some ((take 8 hdr ++ le_enc 8 card) ++ rest)).
      { rewrite <- (take_drop 8 hdr) at 1. rewrite <- !app_assoc. apply mwrite_app; [unfold zlen; rewrite length_take; lia|rewrite length_le_enc, length_drop; lia]. }
      rewrite Ew. sbind. eexists. split; [done|]. destruct (card_header hdr card (conj Lh Bh) (Hestimate _)) as (Hh' & M' & E4 & Ed).
      apply (Put _ (take 8 hdr ++ le_enc 8 card)); [apply Hr; [done|congruence|done]|]. intros _ _ _. exact Ed.
  - cbn [spec_cmd snd]. destruct (merge_all_spec s m (key :: k2 :: keys) H no_registers false no_registers_ok) as (r & -> & Hr). sbind.
    destruct (spec_union m (key :: k2 :: keys) no_registers) as [e|raw]; [subst r; by exists s|]. destruct Hr as [[L O] [d ->]].
    unfold hllCountRaw. rewrite hllRawRegHisto_spec by done. sbind. rewrite hadd_none. by exists s.
Qed.

(** ** PFMERGE *)

Definition below (a b : list Z) : Prop := Forall2 Z.le a b.
Lemma below_max_l (a b : list Z) : length a = length b -> below a (zip_with Z.max a b).
Proof using.
  revert b; induction a as [|x a IH]; intros [|y b] L; simpl in L; try done; [constructor|]. constructor; [lia|]. apply IH. lia.
Qed.
Lemma below_max_r (a b : list Z) : length a = length b -> below b (zip_with Z.max a b).
Proof using.
  revert b; induction a as [|x a IH]; intros [|y b] L; simpl in L; try done; [constructor|]. constructor; [lia|]. apply IH. lia.
Qed.
Lemma below_trans (a b c : list Z) : below a b -> below b c -> below a c.
Proof using. intros H1 H2. by eapply (transitivity (R := Forall2 Z.le)). Qed.
Lemma below_max (a b : list Z) : below a b -> zip_with Z.max a b = b.
Proof using. induction 1; [done|]. cbn [zip_with]. f_equal; [lia|done]. Qed.

(** Every key's registers are below the union. *)
Lemma spec_union_below (s : hserver) (m : regmap) (keys : list (list Z)) : db_rel s m -> forall raw raw', raw_ok raw -> spec_union m keys raw = inr raw' ->
  below raw raw' /\ forall k a, k ∈ keys -> m !! k = Some a -> exists regs, a = inr regs /\ below regs raw'.
Proof using.
  intros H. induction keys as [|k keys IH]; intros raw raw' Hr E; cbn [spec_union] in E.
  { injection E as <-. split; [by apply (reflexivity (R := Forall2 Z.le))|]. intros k a Hk. by apply not_elem_of_nil in Hk. }
  specialize (H k) as Hk. destruct (m !! k) as [[e|regs]|] eqn:Em; [done| |].
  - assert (Hg : raw_ok regs) by (destruct (hkeys s !! k); [|done]; destruct Hk as (own & o & hdr & -> & Ho & _); by eapply hll_rep_regs).
    assert (Ll : length raw = length regs) by (destruct Hr as [-> _], Hg as [-> _]; done).
    destruct (IH _ _ (raw_ok_max _ _ Hr Hg) E) as [B1 B2]. split; [by eapply below_trans; [apply below_max_l|]|].
    intros k' a [->|Hin]%elem_of_cons Ea; [|by eapply B2]. rewrite Em in Ea. injection Ea as <-. exists regs. split; [done|]. by eapply below_trans; [apply below_max_r|].
  - destruct (IH _ _ Hr E) as [B1 B2]. split; [done|]. intros k' a [->|Hin]%elem_of_cons Ea; [congruence|by eapply B2].
Qed.

Lemma todense_rep (o : sds) (hdr regs : list Z) :
  hll_rep o hdr regs -> exists o1 hdr1, hllSparseToDense usable fresh o = Some (true, o1) /\ hll_rep o1 hdr1 regs /\ hdr1 !! 4%nat = Some HLL_DENSE.
Proof using Husable Hfresh.
  intros H. destruct (rep_valid _ _ _ H) as [_ E4]. pose proof H as (Ho & [Lh Bh] & Hm & L & [[H4 (l & Ha & Ex)]|[H4 Hd]]).
  - pose proof (ops_after_reads _ _ _ Ha) as Hr. assert (Zh : zlen hdr = 16) by (unfold zlen; lia). rewrite Zh in Hr. rewrite H4 in E4.
    destruct Ha as (Hl & Ls & t & tl & Eb & Ht). pose proof (zlen_nonneg (encs l)). pose proof (zlen_expand l Hl) as Lx. unfold zlen in Lx.
    rewrite Ex, L, nregs_eq in Lx. destruct (todense_spec usable fresh Husable Hfresh o HLL_SPARSE l Ho ltac:(lia) E4 ltac:(done) Hr) as (o1 & E & H').
    replace (spans l =? 16384) with true in E by (zcase; done). destruct (H' ltac:(lia)) as [Ho1 Hd]. unfold dense_hdr in Hd. rewrite Eb, take_hdr, Ex in Hd by done.
    destruct (dense_hdr_fields hdr (conj Lh Bh)) as (Hh' & M' & E'). exists o1, (<[4%nat := HLL_DENSE]> hdr). split; [done|]. split; [|done].
    split; [done|]. split; [done|]. split; [congruence|]. split; [done|]. by right.
  - exists o, hdr. split; [|done]. unfold hllSparseToDense, hdr_encoding. rewrite E4, H4. done.
Qed.

Lemma store_loop (raw : list Z) (o : sds) (hdr regs : list Z) :
  raw_ok raw -> hll_rep o hdr regs ->
  exists o' hdr', for_loop (store_register usable fresh max_bytes raw) 0 nregs o = Some o' /\ hll_rep o' hdr' (zip_with Z.max regs raw).
Proof using Husable Hfresh Hmax.
  intros [Lw Ow] H. pose proof (hll_rep_regs _ _ _ H) as [L O].
  destruct (for_loop_ind (store_register usable fresh max_bytes raw) (fun j o => exists hdr, hll_rep o hdr (merged_upto j regs raw)) 0 nregs o) as (o' & E & hdr' & H').
  - by exists hdr.
  - intros j o1 Hj (h1 & H1). destruct (lookup_lt_is_Some_2 raw j) as [v Ev]; [lia|]. destruct (lookup_lt_is_Some_2 regs j) as [x Ex]; [lia|].
    assert (Ll : length regs = length raw) by congruence. pose proof (upto_lookup regs raw Ll j j x v Ex Ev) as Eu. rewrite bool_decide_eq_false_2 in Eu by lia.
    rewrite (upto_insert regs raw Ll j x v Ex Ev). unfold store_register. rewrite mget_lookup, Nat2Z.id, Ev by lia. sbind.
    pose proof (Forall_lookup_1 _ _ _ _ Ow Ev) as Hv. pose proof (Forall_lookup_1 _ _ _ _ O Ex) as Hx. cbv beta in Hv, Hx.
    destruct (Z.eqb_spec v 0) as [->|]; [exists o1; split; [done|]; exists h1; rewrite Z.max_l by lia; by rewrite list_insert_id|].
    destruct (set_rep usable fresh max_bytes Husable Hfresh Hmax o1 h1 _ j v x H1 Eu ltac:(lia)) as (o2 & h2 & E2 & H2 & _).
    exists o2. split; [|by exists h2]. destruct (rep_valid _ _ _ H1) as [(_ & _ & e & Ee & C) _]. unfold hdr_encoding in *. rewrite Ee in *. revert E2. sbind.
    destruct C as [[-> _]| ->].
    + change (HLL_DENSE =? HLL_DENSE) with true. cbn iota. intros E2. destruct (hllDenseSet _ _ _ _) as [[b r]|]; [|done]. revert E2. sbind. by intros [= <- _].
    + change (HLL_SPARSE =? HLL_DENSE) with false. change (HLL_SPARSE =? HLL_SPARSE) with true. cbn iota. intros ->. done.
  - exists o', hdr'. split; [done|]. rewrite <- (upto_all regs raw) by congruence. by rewrite L.
Qed.

Lemma store_registers_rep (raw : list Z) (dense : bool) (o : sds) (hdr regs : list Z) :
  raw_ok raw -> hll_rep o hdr regs -> below regs raw -> (dense = true -> hdr !! 4%nat = Some HLL_DENSE) ->
  exists o' hdr', store_registers usable fresh max_bytes use_avx2 raw dense o = Some o' /\ hll_rep o' hdr' raw.
Proof using Husable Hfresh Hmax.
  clear Hestimate estimate. intros Hw H Hb Hd. unfold store_registers. destruct dense.
  - pose proof H as ((Hlen & Bo & H5) & [Lh Bh] & Hm & L & R). specialize (Hd eq_refl). destruct R as [[H4 _]|[_ [Hl [tl Hda]]]]; [by rewrite Hd in H4|]. destruct Hw as [Lw Ow].
    destruct (hllDenseCompress_spec raw hdr tl Lw Ow use_avx2 (s_buf o)) as (b & E & Hdb); [by exists regs|].
    change HLL_HDR_SIZE with (Z.of_nat 16). rewrite <- Lh. change (Z.of_nat (length ?l)) with (zlen l). rewrite E. sbind.
    exists (with_buf o b), hdr. split; [done|]. destruct (dense_at_zlen _ _ _ _ Hda) as [L1 _]. destruct (dense_at_zlen _ _ _ _ Hdb) as [L2 _].
    split; [|split; [done|split; [done|split; [done|]]]]; [|right; split; [done|]; split; [done|by exists tl]].
    split; [cbn [with_buf s_len s_buf]; lia|]. split; [|done]. eapply dense_at_bytes; [exact Hdb|done|].
    destruct Hda as (body & Eb & _). rewrite Eb, !Forall_app in Bo. tauto.
  - destruct (store_loop raw o hdr regs Hw H) as (o' & hdr' & E & H'). exists o', hdr'. split; [exact E|]. by rewrite <- (below_max regs raw Hb).
Qed.

Lemma refine_pfmerge (s : hserver) (m : regmap) (key : list Z) (keys : list (list Z)) :
  db_rel s m ->
  exists s', pfmergeCommand usable fresh max_bytes use_avx2 s key keys = Some (s', (spec_cmd estimate (PFMERGE key keys) m).2) /\
    db_rel s' (spec_cmd estimate (PFMERGE key keys) m).1.
Proof using Husable Hfresh Hmax.
  intros H. unfold pfmergeCommand. cbn [spec_cmd].
  destruct (merge_all_spec s m (key :: keys) H no_registers false no_registers_ok) as (r & -> & Hr). sbind.
  destruct (spec_union m (key :: keys) no_registers) as [e|raw] eqn:Eu; [subst r; by exists s|]. destruct Hr as [Hw [dense ->]].
  destruct (spec_union_below s m (key :: keys) H no_registers raw no_registers_ok Eu) as [B0 Bk].
  assert (Dest : exists o hdr regs, match hkeys s !! key with Some (HStr own o) => Some (unshare usable fresh own o) | Some _ => None
    | None => createHLLObject usable fresh end = Some o /\ hll_rep o hdr regs /\ below regs raw).
  { specialize (H key) as Hk. destruct (hkeys s !! key) as [v|] eqn:Ek, (m !! key) as [a|] eqn:Em; try done.
    - destruct (Bk key a ltac:(by left) Em) as (regs & -> & Hb). destruct Hk as (own & o & hdr & -> & Ho & _). eexists _, hdr, regs. split; [done|]. split; [by apply unshare_rep|done].
    - destruct (create_rep usable fresh Husable Hfresh) as (o & -> & Ho). exists o, new_hdr, no_registers. done. }
  destruct Dest as (o & hdr & regs & -> & Ho & Hb). sbind.
  assert (Conv : exists o1 hdr1, (if dense then hllSparseToDense usable fresh o else Some (true, o)) = Some (true, o1) /\ hll_rep o1 hdr1 regs /\
    (dense = true -> hdr1 !! 4%nat = Some HLL_DENSE)).
  { destruct dense; [|by exists o, hdr]. destruct (todense_rep o hdr regs Ho) as (o1 & hdr1 & E & H1 & H4). by exists o1, hdr1. }
  destruct Conv as (o1 & hdr1 & -> & H1 & H4). sbind. cbn [negb].
  destruct (store_registers_rep raw dense o1 hdr1 regs Hw H1 Hb H4) as (o2 & hdr2 & -> & H2). sbind.
  destruct (invalidate_rep o2 hdr2 raw H2) as (b & -> & Hrb & Hcb). sbind. eexists. split; [done|]. by apply (db_rel_put s m key _ (invalidated hdr2)).
Qed.

(** ** Sequences *)

Lemma refine_cmd (c : hcmd) (s : hserver) (m : regmap) :
  db_rel s m -> cmd_ok c ->
  exists s', run_cmd usable fresh max_bytes big use_avx2 estimate c s = Some (s', (spec_cmd estimate c m).2) /\ db_rel s' (spec_cmd estimate c m).1.
Proof using Husable Hfresh Hmax Hestimate.
  intros H Hc. destruct c as [key eles|key keys|key keys]; cbn [run_cmd].
  - by apply refine_pfadd.
  - destruct (refine_pfcount s m key keys H) as (s' & E & H'). exists s'. split; [done|]. by destruct keys.
  - by apply refine_pfmerge.
Qed.

Lemma refine_cmds (cs : list hcmd) : Forall cmd_ok cs -> forall s m, db_rel s m ->
  exists s', run_cmds usable fresh max_bytes big use_avx2 estimate cs s = Some (s', (spec_cmds estimate cs m).2) /\ db_rel s' (spec_cmds estimate cs m).1.
Proof using Husable Hfresh Hmax Hestimate.
  induction 1 as [|c cs Hc _ IH]; intros s m H; cbn [run_cmds spec_cmds]; [by exists s|].
  destruct (refine_cmd c s m H Hc) as (s1 & -> & H1). sbind. destruct (spec_cmd estimate c m) as [m1 r]. cbn [fst snd] in *.
  destruct (IH s1 m1 H1) as (s' & -> & H'). sbind. destruct (spec_cmds estimate cs m1) as [m2 rs]. by exists s'.
Qed.
End refine.
