(* ===== verification/HllThms.v ===== *)
(** * HyperLogLog: theorems

    The commands refine the specification on registers, are safe on any strings, do
    the same with AVX2 and without, and merging is adding the union. *)
From stdpp Require Import gmap list.
From S2P Require Import Prelude Hll HllDense HllVec HllRegs HllSparse HllSet HllAdd HllCmd HllSpec.

(** ** With AVX2 and without *)

Lemma unpack_inj (g : nat) : forall a b, length a = (3 * g)%nat -> length b = (3 * g)%nat -> bytes_ok a -> bytes_ok b -> unpack a = unpack b -> a = b.
Proof.
  induction g as [|g IH]; intros a b La Lb Ba Bb E; [by destruct a, b|].
  destruct a as [|a0 [|a1 [|a2 a]]]; simpl in La; try lia. destruct b as [|b0 [|b1 [|b2 b]]]; simpl in Lb; try lia.
  rewrite !Forall_cons in Ba, Bb. unfold is_byte in Ba, Bb. cbn [unpack app] in E. unfold unpack3 in E. cbn [app] in E.
  injection E as E0 E1 E2 E3 E. f_equal; [div_lia|]. f_equal; [div_lia|]. f_equal; [div_lia|]. apply IH; (tauto || lia || done).
Qed.

Lemma dense_at_inj (b1 b2 hdr regs tl : list Z) : dense_at b1 hdr regs tl -> dense_at b2 hdr regs tl -> b1 = b2.
Proof.
  intros (y1 & -> & L1 & B1 & U1 & _) (y2 & -> & L2 & B2 & U2 & _). do 2 f_equal. apply (unpack_inj (Z.to_nat 4096)); try done. congruence.
Qed.

(** ** Sets of elements *)

(** The largest count of the elements that fall on a register. *)
Fixpoint reg_max (l : list (list Z)) (i : nat) : Z :=
  match l with
  | [] => 0
  | e :: l => if decide (Z.to_nat (pattern e).2 = i) then Z.max (pattern e).1 (reg_max l i) else reg_max l i
  end.

Lemma length_upd (regs ele : list Z) : length (upd_reg regs ele) = length regs.
Proof. apply length_alter. Qed.
Lemma length_upds (l : list (list Z)) (regs : list Z) : length (foldl upd_reg regs l) = length regs.
Proof. revert regs; induction l as [|e l IH]; intros regs; [done|]. cbn [foldl]. by rewrite IH, length_upd. Qed.

Lemma upds_lookup (l : list (list Z)) : forall regs i x, regs !! i = Some x -> 0 <= x -> foldl upd_reg regs l !! i = Some (Z.max x (reg_max l i)).
Proof.
  induction l as [|e l IH]; intros regs i x Hx Hp; cbn [foldl reg_max]; [by rewrite Z.max_l by lia|].
  assert (Hu : upd_reg regs e !! i = Some (if decide (Z.to_nat (pattern e).2 = i) then Z.max (pattern e).1 x else x)).
  { unfold upd_reg. destruct (decide _) as [<-|]; [by rewrite list_lookup_alter_eq, Hx|by rewrite list_lookup_alter_ne]. }
  rewrite (IH _ _ _ Hu) by (destruct (decide _); lia). f_equal. destruct (decide _); lia.
Qed.

(** The registers of a set of elements. *)
Definition regs_of (l : list (list Z)) : list Z := foldl upd_reg no_registers l.
Lemma regs_of_lookup (l : list (list Z)) (i : nat) : (i < nregs)%nat -> regs_of l !! i = Some (Z.max 0 (reg_max l i)).
Proof. intros Hi. unfold regs_of. apply upds_lookup; [|lia]. unfold no_registers. by apply lookup_replicate_2. Qed.

(** It only depends on which elements there are. *)
Lemma reg_max_le (l : list (list Z)) (i : nat) (b : Z) :
  0 <= b -> (forall e, e ∈ l -> Z.to_nat (pattern e).2 = i -> (pattern e).1 <= b) -> reg_max l i <= b.
Proof.
  intros Hb. induction l as [|e l IH]; intros H; [done|]. cbn [reg_max]. specialize (IH (fun e' Hin => H e' (list_elem_of_further _ _ _ Hin))).
  destruct (decide _) as [E|]; [|done]. specialize (H e (list_elem_of_here _ _) E). lia.
Qed.
Lemma reg_max_ge (l : list (list Z)) (i : nat) (e : list Z) : e ∈ l -> Z.to_nat (pattern e).2 = i -> (pattern e).1 <= reg_max l i.
Proof.
  intros Hin E. induction l as [|e' l IH]; [by apply not_elem_of_nil in Hin|]. cbn [reg_max]. apply elem_of_cons in Hin as [<-|Hin].
  - rewrite decide_True by done. lia.
  - specialize (IH Hin). destruct (decide _); lia.
Qed.

Lemma union_lookup (xs ys zs : list (list Z)) (i : nat) :
  (forall e, e ∈ zs <-> e ∈ xs \/ e ∈ ys) -> Z.max 0 (reg_max zs i) = Z.max (Z.max 0 (reg_max xs i)) (Z.max 0 (reg_max ys i)).
Proof.
  intros H. set (u := Z.max (Z.max 0 (reg_max xs i)) (Z.max 0 (reg_max ys i))).
  assert (reg_max zs i <= u).
  { apply reg_max_le; [lia|]. intros e [Hx|Hy]%H E; [pose proof (reg_max_ge xs i e Hx E)|pose proof (reg_max_ge ys i e Hy E)]; lia. }
  assert (reg_max xs i <= Z.max 0 (reg_max zs i)) by (apply reg_max_le; [lia|]; intros e Hx E; pose proof (reg_max_ge zs i e (proj2 (H e) (or_introl Hx)) E); lia).
  assert (reg_max ys i <= Z.max 0 (reg_max zs i)) by (apply reg_max_le; [lia|]; intros e Hy E; pose proof (reg_max_ge zs i e (proj2 (H e) (or_intror Hy)) E); lia).
  lia.
Qed.

Lemma regs_union (xs ys zs : list (list Z)) :
  (forall e, e ∈ zs <-> e ∈ xs \/ e ∈ ys) -> zip_with Z.max (regs_of xs) (regs_of ys) = regs_of zs.
Proof.
  intros H. assert (L : forall l, length (regs_of l) = nregs) by (intros l; unfold regs_of; rewrite length_upds; apply no_registers_ok).
  apply list_eq. intros i. destruct (decide (i < nregs)%nat).
  - rewrite lookup_zip_with, !regs_of_lookup by done. cbn. by rewrite <- (union_lookup xs ys zs i H).
  - rewrite !lookup_ge_None_2; [done|rewrite L; lia|rewrite length_zip_with, !L; lia].
Qed.

Definition no_keys : hserver := HServer ∅ 0 [].
Lemma no_keys_rel (estimate : list Z -> Z) : db_rel estimate no_keys ∅.
Proof. intros k. by rewrite !lookup_empty. Qed.

(** ** Theorems *)

Section theorems.
Context (usable : Z -> Z) (fresh : nat -> Z) (max_bytes : Z) (big use_avx2 : bool) (estimate : list Z -> Z).
(** The allocator gives at least what was asked for, memory holds bytes, the limit
    of the sparse representation is not below 32 bytes. *)
Context (Husable : forall n, n <= usable n) (Hfresh : forall n, is_byte (fresh n)) (Hmax : 32 <= max_bytes).

(** C5: any sequence of PFADD, PFCOUNT and PFMERGE, on strings in either
    representation, replies as on lists of 16384 registers, and leaves strings that
    hold the registers of the specification: updates in place, splits and merges of
    opcodes, conversions to the dense representation, the cached cardinality, the
    AVX2 and the scalar loops, on machines of either byte order.  It holds for
    hll-sparse-max-bytes of at least 32, elements of fewer than 2^31 bytes and an
    estimate that is a function of the histogram with values from 0 to 2^63 - 1. *)
Theorem hll_refines_registers (cs : list hcmd) (s : hserver) (m : regmap) :
  (forall h, 0 <= estimate h < 2 ^ 63) -> Forall cmd_ok cs -> db_rel estimate s m ->
  exists s', run_cmds usable fresh max_bytes big use_avx2 estimate cs s = Some (s', (spec_cmds estimate cs m).2) /\
    db_rel estimate s' (spec_cmds estimate cs m).1.
Proof using Husable Hfresh Hmax. intros He Hc H. by apply refine_cmds. Qed.

(** C6: on a database of any strings of bytes, however malformed, every sequence of
    the commands with elements of fewer than 2^31 bytes runs to its end when
    hll-sparse-max-bytes is at least 32: no access leaves a buffer, no assertion
    fails, and the strings stay well formed. *)
Theorem hll_safe (cs : list hcmd) : forall s, state_ok s -> Forall cmd_ok cs ->
  exists s' rs, run_cmds usable fresh max_bytes big use_avx2 estimate cs s = Some (s', rs) /\ state_ok s' /\ length rs = length cs.
Proof using Husable Hfresh Hmax.
  induction cs as [|c cs IH]; intros s Hs Hc; cbn [run_cmds]; [by exists s, []|]. inversion_clear Hc as [|? ? Hc0 Hcs].
  assert (Step : exists s1 r, run_cmd usable fresh max_bytes big use_avx2 estimate c s = Some (s1, r) /\ state_ok s1).
  { destruct c as [key eles|key keys|key keys]; cbn [run_cmd]; [by apply pfadd_safe|by apply pfcount_safe|by apply pfmerge_safe]. }
  destruct Step as (s1 & r & -> & H1). sbind. destruct (IH s1 H1 Hcs) as (s' & rs & -> & H' & L). sbind. exists s', (r :: rs). split; [done|]. split; [done|]. cbn [length]. lia.
Qed.

(** C15: counting the merge of two keys gives what counting one key gives to which the
    elements of both were added, in any order and any number of times; elements have
    fewer than 2^31 bytes, hll-sparse-max-bytes is at least 32. *)
Theorem hll_merge_is_union (a b c : list Z) (xs ys zs : list (list Z)) :
  (forall h, 0 <= estimate h < 2 ^ 63) -> a <> b -> c <> a -> c <> b ->
  Forall ele_ok xs -> Forall ele_ok ys -> Forall ele_ok zs -> (forall e, e ∈ zs <-> e ∈ xs \/ e ∈ ys) ->
  exists s1 s2 card,
    run_cmds usable fresh max_bytes big use_avx2 estimate [PFADD a xs; PFADD b ys; PFMERGE c [a; b]; PFCOUNT c []; PFCOUNT a [b]] no_keys =
      Some (s1, [HLong 1; HLong 1; HOk; HLong card; HLong card]) /\
    run_cmds usable fresh max_bytes big use_avx2 estimate [PFADD c zs; PFCOUNT c []] no_keys = Some (s2, [HLong 1; HLong card]).
Proof using Husable Hfresh Hmax.
  intros He Hab Hca Hcb Hx Hy Hz H. pose proof (no_keys_rel estimate) as R0.
  destruct (refine_cmds usable fresh max_bytes big use_avx2 estimate Husable Hfresh Hmax He
    [PFADD a xs; PFADD b ys; PFMERGE c [a; b]; PFCOUNT c []; PFCOUNT a [b]]) with (s := no_keys) (m := ∅ : regmap) as (s1 & E1 & _);
    [by repeat constructor|done|].
  destruct (refine_cmds usable fresh max_bytes big use_avx2 estimate Husable Hfresh Hmax He [PFADD c zs; PFCOUNT c []])
    with (s := no_keys) (m := ∅ : regmap) as (s2 & E2 & _); [by repeat constructor|done|].
  exists s1, s2, (estimate (histo (regs_of zs))). rewrite E1, E2.
  assert (U0 : zip_with Z.max no_registers (regs_of xs) = regs_of xs).
  { apply (regs_union [] xs xs). intros e. split; [by right|]. intros [Hn|]; [by apply not_elem_of_nil in Hn|done]. }
  cbn [spec_cmds spec_cmd spec_union snd]. rewrite !lookup_empty. cbn [spec_union snd]. fold (regs_of xs) (regs_of ys) (regs_of zs).
  repeat first [rewrite lookup_insert_eq by done | rewrite lookup_insert_ne by congruence | rewrite lookup_empty | progress cbn [spec_union snd]].
  fold (regs_of xs) (regs_of ys). rewrite U0, (regs_union xs ys zs H).
  repeat first [rewrite lookup_insert_eq by done | rewrite lookup_insert_ne by congruence | rewrite lookup_empty | progress cbn [spec_union snd]].
  done.
Qed.
End theorems.

(** C14: the AVX2 merge and compression compute what the scalar loops do, and write the
    same bytes, for any dense registers and any raw registers. *)
Theorem hll_avx2_equiv (hdr body tl raw : list Z) (t : Z) :
  zlen body = 12288 -> bytes_ok body -> is_byte t -> raw_ok raw ->
  let b := hdr ++ body ++ t :: tl in
  hllMergeDense true raw b (zlen hdr) = hllMergeDense false raw b (zlen hdr) /\
  hllDenseCompress true b (zlen hdr) raw = hllDenseCompress false b (zlen hdr) raw /\
  is_Some (hllMergeDense true raw b (zlen hdr)) /\ is_Some (hllDenseCompress true b (zlen hdr) raw).
Proof.
  intros Lb Bb Ht [Lr Or] b. assert (Hd : dense_at b hdr (unpack body) (t :: tl)).
  { exists body. split; [done|]. split; [unfold zlen in Lb; lia|]. split; [done|]. split; [done|]. by exists t, tl. }
  assert (Hs : stored_upto raw hdr (t :: tl) 0 b) by (by exists (unpack body)).
  rewrite !(hllMergeDense_spec _ _ _ _ _ Hd Lr). split; [done|].
  destruct (hllDenseCompress_spec raw hdr (t :: tl) Lr Or true b Hs) as (b1 & E1 & D1).
  destruct (hllDenseCompress_spec raw hdr (t :: tl) Lr Or false b Hs) as (b2 & E2 & D2).
  rewrite E1, E2, (dense_at_inj _ _ _ _ _ D1 D2). done.
Qed.

(** ** Witnesses *)

(** An allocator without slack, and the number of registers that are not 0. *)
Definition exact_size (n : Z) : Z := n.
Definition zero_fill (n : nat) : Z := 0.
Definition count_nonzero (h : list Z) : Z := match h with z :: _ => (16384 - z) mod 2 ^ 63 | [] => 0 end.
Lemma nonzero_range (h : list Z) : 0 <= count_nonzero h < 2 ^ 63.
Proof. destruct h as [|z h]; cbn [count_nonzero]; [lia|]. apply Z.mod_pos_bound. lia. Qed.
Lemma zero_fill_byte (n : nat) : is_byte (zero_fill n).
Proof. unfold is_byte, zero_fill. lia. Qed.
Definition eles : list (list Z) := [str "x"; str "y"].
Lemma eles_bytes : Forall ele_ok eles.
Proof. by apply (bool_decide_eq_true_1 (Forall ele_ok eles)). Qed.

Lemma hll_refines_registers_witness :
  exists s', run_cmds exact_size zero_fill 3000 false true count_nonzero [PFADD (str "a") eles; PFMERGE (str "b") [str "a"]; PFCOUNT (str "b") []] no_keys =
    Some (s', (spec_cmds count_nonzero [PFADD (str "a") eles; PFMERGE (str "b") [str "a"]; PFCOUNT (str "b") []] ∅).2) /\
    db_rel count_nonzero s' (spec_cmds count_nonzero [PFADD (str "a") eles; PFMERGE (str "b") [str "a"]; PFCOUNT (str "b") []] ∅).1.
Proof.
  apply (hll_refines_registers exact_size zero_fill 3000 false true count_nonzero (fun n => Z.le_refl n) zero_fill_byte ltac:(lia)
    [PFADD (str "a") eles; PFMERGE (str "b") [str "a"]; PFCOUNT (str "b") []] no_keys ∅ nonzero_range).
  - apply Forall_cons_2; [exact eles_bytes|]. repeat (apply Forall_cons_2; [exact I|]). apply Forall_nil_2.
  - exact (no_keys_rel count_nonzero).
Defined.

(** A sparse string whose last opcode of two bytes is cut after its first. *)
Definition cut_string : sds := Sds false 17 (new_hdr ++ [127; 0; 0; 0; 0; 0; 0; 0; 0]).
Definition cut_server : hserver := HServer {[str "k" := HStr true cut_string]} 0 [].
Lemma cut_server_ok : state_ok cut_server.
Proof.
  intros k v. cbn [cut_server hkeys]. intros [_ <-]%lookup_singleton_Some. split; [|split; [|done]].
  - change (zlen (s_buf cut_string)) with 25. cbn [cut_string s_len]. lia.
  - by apply (bool_decide_eq_true_1 (bytes_ok (s_buf cut_string))).
Qed.
Lemma hll_safe_witness :
  exists s' rs, run_cmds exact_size zero_fill 3000 false true count_nonzero [PFADD (str "k") eles; PFCOUNT (str "k") []] cut_server = Some (s', rs) /\
    state_ok s' /\ length rs = 2%nat.
Proof.
  apply (hll_safe exact_size zero_fill 3000 false true count_nonzero (fun n => Z.le_refl n) zero_fill_byte ltac:(lia)
    [PFADD (str "k") eles; PFCOUNT (str "k") []] cut_server cut_server_ok).
  apply Forall_cons_2; [exact eles_bytes|]. repeat (apply Forall_cons_2; [exact I|]). apply Forall_nil_2.
Defined.

Lemma hll_merge_is_union_witness :
  exists s1 s2 card,
    run_cmds exact_size zero_fill 3000 false true count_nonzero
      [PFADD (str "a") [str "x"]; PFADD (str "b") [str "y"]; PFMERGE (str "c") [str "a"; str "b"]; PFCOUNT (str "c") []; PFCOUNT (str "a") [str "b"]] no_keys =
      Some (s1, [HLong 1; HLong 1; HOk; HLong card; HLong card]) /\
    run_cmds exact_size zero_fill 3000 false true count_nonzero [PFADD (str "c") eles; PFCOUNT (str "c") []] no_keys = Some (s2, [HLong 1; HLong card]).
Proof.
  apply (hll_merge_is_union exact_size zero_fill 3000 false true count_nonzero (fun n => Z.le_refl n) zero_fill_byte ltac:(lia)
    (str "a") (str "b") (str "c") [str "x"] [str "y"] eles nonzero_range); try discriminate.
  - by apply (bool_decide_eq_true_1 (Forall ele_ok [str "x"])).
  - by apply (bool_decide_eq_true_1 (Forall ele_ok [str "y"])).
  - exact eles_bytes.
  - intros e. unfold eles. rewrite !elem_of_cons, !elem_of_nil. tauto.
Defined.

Lemma hll_avx2_equiv_witness :
  let body := replicate (Z.to_nat 12288) 7 in let b := new_hdr ++ body ++ [0] in
  hllMergeDense true no_registers b (zlen new_hdr) = hllMergeDense false no_registers b (zlen new_hdr) /\
  hllDenseCompress true b (zlen new_hdr) no_registers = hllDenseCompress false b (zlen new_hdr) no_registers /\
  is_Some (hllMergeDense true no_registers b (zlen new_hdr)) /\ is_Some (hllDenseCompress true b (zlen new_hdr) no_registers).
Proof.
  apply (hll_avx2_equiv new_hdr (replicate (Z.to_nat 12288) 7) [] no_registers 0).
  - unfold zlen. rewrite length_replicate. lia.
  - apply Forall_replicate. unfold is_byte. lia.
  - unfold is_byte. lia.
  - exact no_registers_ok.
Defined.

(** ** Two strings *)

(** The check of a HyperLogLog lets a string through whose last opcode is cut;
    an update of it writes over the terminator of the string. *)
Example hll_cut_opcode_overwrites_terminator :
  isHLLObject (HStr true cut_string) = Some (inr cut_string) /\
  mget (s_buf cut_string) (s_len cut_string) = Some 0 /\
  exists o, hllSparseSet exact_size zero_fill 3000 cut_string 5 3 = Some (o, 1) /\ mget (s_buf o) (s_len o) = Some 0xfa.
Proof. split; [done|]. split; [done|]. eexists. split; [vm_compute; reflexivity|done]. Qed.

(** A HyperLogLog of 21 bytes with a gap of 65 registers, as a copy of it is
    allocated.  With hll-sparse-max-bytes at 21, the update of the first register of
    the gap fails the assertion of [sdsIncrLen]: the string has the header without a
    size and is not resized first.  With 32 it succeeds. *)
Definition short_string : sds := sdsnewlen exact_size zero_fill (new_hdr ++ encs [XZeros 65; Vals 2 1; XZeros 16318]).
Example hll_small_limit_asserts :
  hllSparseSet exact_size zero_fill 21 short_string 0 3 = None /\ is_Some (hllSparseSet exact_size zero_fill 32 short_string 0 3).
Proof. split; [by vm_compute|eexists; vm_compute; reflexivity]. Qed.
