(* ===== verification/Lzf.v ===== *)
(** * LZF compression of strings and quicklist nodes (lzf_c.c, lzf_d.c)

    The byte buffers are lists of bytes of the sizes [in_len] and [out_len]
    passed to the functions; the pointers [ip], [op] and [ref] are offsets into
    them.  A read or a write outside a buffer is [None].  The hash table of the
    compressor holds addresses and is not initialised ([INIT_HTAB] is 0): its
    first contents are the arbitrary function [junk], and [base] is the address
    of the input.  The configuration is the one of lzfP.h: [HLOG] 16,
    [VERY_FAST], [CHECK_INPUT], pointers in the table.

    The main result is the round trip: whatever is in the uninitialised table,
    compression never leaves its buffers, and what it returns decompresses to
    the input.  The decompressor is safe on every byte string. *)

From stdpp Require Import gmap.
From S2P Require Import Prelude.

(** ** The decompressor *)

Inductive lzf_errno := E2BIG | EINVAL.

Record dstate := DState { d_ip : Z; d_op : Z; d_out : list Z }.

(** The fall-through [switch] of a literal run: [ctrl] times [*op++ = *ip++]. *)
Fixpoint copy_literal (ctrl : nat) (inp : list Z) (s : dstate) : option dstate :=
  match ctrl with
  | O => Some s
  | S ctrl =>
      b ← mget inp (d_ip s);
      out ← mwrite (d_out s) (d_op s) [b];
      copy_literal ctrl inp (DState (d_ip s + 1) (d_op s + 1) out)
  end.

(** [len] times [*op++ = *ref++], octet by octet. *)
Fixpoint copy_octets (len : nat) (out : list Z) (op ref : Z) : option (list Z) :=
  match len with
  | O => Some out
  | S len =>
      b ← mget out ref;
      out ← mwrite out op [b];
      copy_octets len out (op + 1) (ref + 1)
  end.

(** The [switch (len)] of a back reference. *)
Definition copy_backref (len : Z) (out : list Z) (op ref : Z) : option (list Z) :=
  if len <=? 9 then copy_octets (Z.to_nat (len + 2)) out op ref
  else
    let len := len + 2 in
    if op >=? ref + len then bs ← mread out ref len; mwrite out op bs
    else copy_octets (Z.to_nat len) out op ref.

(** One turn of the [while (ip < in_end)] loop; an error carries the buffer
    as it was left. *)
Definition decompress_step (inp : list Z) (s : dstate) :
    option ((lzf_errno * list Z) + dstate) :=
  let in_end := zlen inp in
  let out_end := zlen (d_out s) in
  ctrl ← mget inp (d_ip s);
  let ip := d_ip s + 1 in
  let op := d_op s in
  if ctrl <? 1 <<< 5 then
    let ctrl := ctrl + 1 in
    if op + ctrl >? out_end then Some (inl (E2BIG, d_out s)) else
    if ip + ctrl >? in_end then Some (inl (EINVAL, d_out s)) else
    s ← copy_literal (Z.to_nat ctrl) inp (DState ip op (d_out s));
    Some (inr s)
  else
    let len := ctrl >>> 5 in
    let ref := op - ((ctrl &&& 31) <<< 8) - 1 in
    if ip >=? in_end then Some (inl (EINVAL, d_out s)) else
    r ← (if len =? 7 then
           b ← mget inp ip;
           let ip := ip + 1 in
           if ip >=? in_end then Some None else Some (Some (len + b, ip))
         else Some (Some (len, ip)));
    match r with
    | None => Some (inl (EINVAL, d_out s))
    | Some (len, ip) =>
        b ← mget inp ip;
        let ip := ip + 1 in
        let ref := ref - b in
        if op + len + 2 >? out_end then Some (inl (E2BIG, d_out s)) else
        if ref <? 0 then Some (inl (EINVAL, d_out s)) else
        out ← copy_backref len (d_out s) op ref;
        Some (inr (DState ip (op + len + 2) out))
    end.

Fixpoint decompress_loop (fuel : nat) (inp : list Z) (s : dstate) :
    option ((lzf_errno * list Z) + dstate) :=
  if d_ip s <? zlen inp then
    match fuel with
    | O => None
    | S fuel =>
        r ← decompress_step inp s;
        match r with
        | inl e => Some (inl e)
        | inr s => decompress_loop fuel inp s
        end
    end
  else Some (inr s).

(** The returned length, [errno] where it is set, and the output buffer. *)
Definition lzf_decompress (inp out : list Z) : option (Z * option lzf_errno * list Z) :=
  r ← decompress_loop (S (length inp)) inp (DState 0 0 out);
  match r with
  | inl (e, out) => Some (0, Some e, out)
  | inr s => Some (d_op s, None, d_out s)
  end.

(** ** The compressor *)

Definition HLOG : Z := 16.
Definition HSIZE : Z := 1 <<< HLOG.
Definition MAX_LIT : Z := 1 <<< 5.
Definition MAX_OFF : Z := 1 <<< 13.
Definition MAX_REF : Z := (1 <<< 8) + (1 <<< 3).

Definition FRST (inp : list Z) (p : Z) : option Z :=
  a ← mget inp p; b ← mget inp (p + 1); Some ((a <<< 8) ||| b).
Definition NEXT (v : Z) (inp : list Z) (p : Z) : option Z :=
  c ← mget inp (p + 2); Some (u32 ((v <<< 8) ||| c)).
Definition IDX (h : Z) : Z := u32 ((h >>> (3 * 8 - HLOG)) - h * 5) &&& (HSIZE - 1).

(** The hash table: the slots written so far. *)
Abbreviation htable := (gmap Z Z).

Record cstate := CState {
  c_ip : Z; c_op : Z; c_out : list Z; c_htab : htable; c_hval : Z; c_lit : Z }.

(** The unrolled comparisons: [len++; if (ref[len] != ip[len]) break;] [n] times.
    The boolean tells whether the loop was left. *)
Fixpoint match_unrolled (n : nat) (inp : list Z) (ref ip len : Z) : option (Z * bool) :=
  match n with
  | O => Some (len, false)
  | S n =>
      let len := len + 1 in
      a ← mget inp (ref + len);
      b ← mget inp (ip + len);
      if negb (a =? b) then Some (len, true) else match_unrolled n inp ref ip len
  end.

(** [do len++; while (len < maxlen && ref[len] == ip[len]);] *)
Fixpoint match_tail (fuel : nat) (inp : list Z) (ref ip maxlen len : Z) : option Z :=
  match fuel with
  | O => None
  | S fuel =>
      let len := len + 1 in
      if len <? maxlen then
        a ← mget inp (ref + len);
        b ← mget inp (ip + len);
        if a =? b then match_tail fuel inp ref ip maxlen len else Some len
      else Some len
  end.

(** The [for (;;)] that finds the length of a match, from [len = 2]. *)
Definition match_length (inp : list Z) (ref ip maxlen : Z) : option Z :=
  '(len, broke) ← (if maxlen >? 16 then match_unrolled 16 inp ref ip 2 else Some (2, false));
  if (broke : bool) then Some len else match_tail (S (Z.to_nat maxlen)) inp ref ip maxlen len.

(** [op [- lit - 1] = lit - 1; op -= !lit;] *)
Definition stop_run (out : list Z) (op lit : Z) : option (list Z * Z) :=
  out ← mwrite out (op - lit - 1) [u8 (lit - 1)];
  Some (out, op - (if lit =? 0 then 1 else 0)).

(** The octets of a back reference, [len] being the length minus two. *)
Definition backref_code (off len : Z) : list Z :=
  if len <? 7 then [u8 ((off >>> 8) + (len <<< 5)); u8 off]
  else [u8 ((off >>> 8) + (7 <<< 5)); u8 (len - 7); u8 off].

Inductive cresult :=
| CFull (out : list Z)          (* [return 0] *)
| CBreak (s : cstate)           (* [break] out of the main loop *)
| CGo (s : cstate).

Section Compress.
Context (junk : Z -> Z) (base : Z) (inp : list Z).

Definition slot (h : htable) (i : Z) : Z := default (junk i) (h !! i).

(** Is [ref], an address, a match for the input at [ip]?  The conditions in
    the order of the code, each evaluated only when the earlier ones hold. *)
Definition is_match (ref ip : Z) : option bool :=
  if negb (u64 (base + ip - ref - 1) <? MAX_OFF) then Some false else
  if negb (ref >? base) then Some false else
  let r := ref - base in
  r2 ← mget inp (r + 2); i2 ← mget inp (ip + 2);
  if negb (r2 =? i2) then Some false else
  r1 ← mget inp (r + 1); r0 ← mget inp r;
  i1 ← mget inp (ip + 1); i0 ← mget inp ip;
  Some (((r1 <<< 8) ||| r0) =? ((i1 <<< 8) ||| i0)).

(** The two table entries filled after a match ([VERY_FAST]). *)
Definition rehash_two (s : cstate) : option cstate :=
  let ip := c_ip s - 1 - 1 in
  hval ← FRST inp ip;
  hval ← NEXT hval inp ip;
  let h := <[IDX hval := base + ip]> (c_htab s) in
  let ip := ip + 1 in
  hval ← NEXT hval inp ip;
  let h := <[IDX hval := base + ip]> h in
  let ip := ip + 1 in
  Some (CState ip (c_op s) (c_out s) h hval (c_lit s)).

(** The branch taken when a match is found at [ref]. *)
Definition emit_match (s : cstate) (ref : Z) : option cresult :=
  let off := u64 (base + c_ip s - ref - 1) in
  let out_end := zlen (c_out s) in
  let maxlen := zlen inp - c_ip s - 2 in
  let maxlen := if maxlen >? MAX_REF then MAX_REF else maxlen in
  let not_lit := if c_lit s =? 0 then 1 else 0 in
  if (c_op s + 3 + 1 >=? out_end) && (c_op s - not_lit + 3 + 1 >=? out_end)
  then Some (CFull (c_out s)) else
  '(out, op) ← stop_run (c_out s) (c_op s) (c_lit s);
  len ← match_length inp (ref - base) (c_ip s) maxlen;
  let len := len - 2 in
  let ip := c_ip s + 1 in
  let code := backref_code off len in
  out ← mwrite out op code;
  let op := op + zlen code + 1 in
  let ip := ip + len + 1 in
  let s := CState ip op out (c_htab s) (c_hval s) 0 in
  if ip >=? zlen inp - 2 then Some (CBreak s) else
  s ← rehash_two s;
  Some (CGo s).

(** [lit++; *op++ = *ip++;] and the end of a run of [MAX_LIT] octets. *)
Definition emit_literal (s : cstate) : option cstate :=
  let lit := c_lit s + 1 in
  b ← mget inp (c_ip s);
  out ← mwrite (c_out s) (c_op s) [b];
  let op := c_op s + 1 in
  let ip := c_ip s + 1 in
  if lit =? MAX_LIT then
    out ← mwrite out (op - lit - 1) [u8 (lit - 1)];
    Some (CState ip (op + 1) out (c_htab s) (c_hval s) 0)
  else Some (CState ip op out (c_htab s) (c_hval s) lit).

(** One turn of [while (ip < in_end - 2)]. *)
Definition compress_step (s : cstate) : option cresult :=
  hval ← NEXT (c_hval s) inp (c_ip s);
  let ref := slot (c_htab s) (IDX hval) in
  let s := CState (c_ip s) (c_op s) (c_out s)
                  (<[IDX hval := base + c_ip s]> (c_htab s)) hval (c_lit s) in
  m ← is_match ref (c_ip s);
  if (m : bool) then emit_match s ref
  else if c_op s >=? zlen (c_out s) then Some (CFull (c_out s))
  else s ← emit_literal s; Some (CGo s).

Fixpoint compress_loop (fuel : nat) (s : cstate) : option (list Z + cstate) :=
  if c_ip s <? zlen inp - 2 then
    match fuel with
    | O => None
    | S fuel =>
        r ← compress_step s;
        match r with
        | CFull out => Some (inl out)
        | CBreak s => Some (inr s)
        | CGo s => compress_loop fuel s
        end
    end
  else Some (inr s).

(** The octets left when fewer than three are. *)
Fixpoint compress_rest (fuel : nat) (s : cstate) : option cstate :=
  if c_ip s <? zlen inp then
    match fuel with
    | O => None
    | S fuel => s ← emit_literal s; compress_rest fuel s
    end
  else Some s.

(** The returned length, 0 when the output does not fit, and the buffer. *)
Definition lzf_compress (out : list Z) : option (Z * list Z) :=
  if (zlen inp =? 0) || (zlen out =? 0) then Some (0, out) else
  hval ← FRST inp 0;
  r ← compress_loop (S (length inp)) (CState 0 (0 + 1) out ∅ hval 0);
  match r with
  | inl out => Some (0, out)
  | inr s =>
      if c_op s + 3 >? zlen (c_out s) then Some (0, c_out s) else
      s ← compress_rest 2 s;
      '(out, op) ← stop_run (c_out s) (c_op s) (c_lit s);
      Some (op, out)
  end.
End Compress.

(** ** Copying *)

Lemma copy_literal_spec n inp ip op out :
  0 <= ip -> ip + Z.of_nat n <= zlen inp -> 0 <= op -> op + Z.of_nat n <= zlen out ->
  exists out', copy_literal n inp (DState ip op out)
                 = Some (DState (ip + Z.of_nat n) (op + Z.of_nat n) out') /\
    zlen out' = zlen out /\
    (forall i, i < op \/ op + Z.of_nat n <= i -> mget out' i = mget out i) /\
    (forall i, 0 <= i < Z.of_nat n -> mget out' (op + i) = mget inp (ip + i)).
Proof.
  revert ip op out; induction n as [|n IH]; intros ip op out H1 H2 H3 H4.
  - exists out. simpl. rewrite !Z.add_0_r. repeat split; auto. intros; lia.
  - cbn [copy_literal d_ip d_op d_out].
    destruct (mget_in inp ip) as [b Hb]; [lia|]. rewrite Hb. sbind.
    destruct (mwrite_byte out op b) as (o1 & -> & Hl1 & Hg1); [lia|]. sbind.
    destruct (IH (ip + 1) (op + 1) o1) as (o2 & -> & Hl2 & Ho2 & Hg2); [lia..|].
    exists o2. replace (ip + 1 + Z.of_nat n) with (ip + Z.of_nat (S n)) by lia.
    replace (op + 1 + Z.of_nat n) with (op + Z.of_nat (S n)) by lia.
    split; [done|]. split; [lia|]. split; intros i Hi.
    + rewrite Ho2, Hg1 by lia. zcase. done.
    + destruct (decide (i = 0)) as [->|Hn].
      * rewrite !Z.add_0_r. rewrite Ho2, Hg1, Z.eqb_refl by lia. done.
      * specialize (Hg2 (i - 1) ltac:(lia)).
        replace (op + i) with (op + 1 + (i - 1)) by lia. rewrite Hg2. f_equal. lia.
Qed.

(** The result of copying [n] octets from [ref] to [op], whether or not the
    two areas overlap. *)
Definition copied (out out' : list Z) (op ref n : Z) : Prop :=
  zlen out' = zlen out /\
  (forall i, i < op \/ op + n <= i -> mget out' i = mget out i) /\
  (forall i, 0 <= i < n -> mget out' (op + i) = mget out' (ref + i)).

Lemma copy_octets_spec n out op ref :
  0 <= ref < op -> op + Z.of_nat n <= zlen out ->
  exists out', copy_octets n out op ref = Some out' /\ copied out out' op ref (Z.of_nat n).
Proof.
  unfold copied. revert out op ref; induction n as [|n IH]; intros out op ref H1 H2.
  - exists out. simpl. repeat split; auto. intros; lia.
  - cbn [copy_octets]. destruct (mget_in out ref) as [b Hb]; [lia|]. rewrite Hb. sbind.
    destruct (mwrite_byte out op b) as (o1 & -> & Hl1 & Hg1); [lia|]. sbind.
    destruct (IH o1 (op + 1) (ref + 1)) as (o2 & -> & Hl2 & Ho2 & Hg2); [lia..|].
    exists o2. split; [done|]. split; [lia|]. split; intros i Hi.
    + rewrite Ho2, Hg1 by lia. zcase. done.
    + destruct (decide (i = 0)) as [->|Hn].
      * rewrite !Z.add_0_r, !Ho2, !Hg1, Z.eqb_refl by lia. zcase. done.
      * specialize (Hg2 (i - 1) ltac:(lia)).
        replace (op + i) with (op + 1 + (i - 1)) by lia. rewrite Hg2. f_equal. lia.
Qed.

Lemma copy_backref_spec len out op ref :
  0 <= len -> 0 <= ref < op -> op + len + 2 <= zlen out ->
  exists out', copy_backref len out op ref = Some out' /\ copied out out' op ref (len + 2).
Proof.
  intros H1 H2 H3. unfold copy_backref.
  destruct (copy_octets_spec (Z.to_nat (len + 2)) out op ref) as (o1 & Eo1 & H); [lia..|].
  rewrite Z2Nat.id in H by lia.
  destruct (Z.leb_spec len 9); [by eauto|].
  destruct (Z.geb_spec op (ref + (len + 2))); [|by eauto].
  destruct (mread_ok out ref (len + 2)) as (bs & -> & Hb & Hg); [lia..|]. sbind.
  destruct (mwrite_ok out op bs) as (o2 & -> & Hl2 & Hi2 & Ho2); [lia..|].
  exists o2. split; [done|]. unfold copied. rewrite Hb in *.
  split; [done|]. split; [done|]. intros i Hi.
  by rewrite Hi2, Hg, Ho2 by lia.
Qed.

(** ** Safety of the decompressor *)

(** Every step on a byte string succeeds, moves on in the input, stays in the
    output and leaves what is beyond its end alone. *)
Definition dec_ok (inp out0 : list Z) (s : dstate) : Prop :=
  0 <= d_ip s <= zlen inp /\ 0 <= d_op s <= zlen (d_out s) /\
  zlen (d_out s) = zlen out0 /\
  forall i, d_op s <= i -> mget (d_out s) i = mget out0 i.

Lemma ctrl_len_pos ctrl : is_byte ctrl -> 1 <<< 5 <= ctrl -> 1 <= ctrl >>> 5 <= 7.
Proof.
  unfold is_byte. intros ? H. change (1 <<< 5) with 32 in H.
  rewrite shiftr_div by lia. change (2 ^ 5) with 32. div_lia.
Qed.

Lemma ctrl_off_nonneg ctrl : 0 <= (ctrl &&& 31) <<< 8.
Proof. apply Z.shiftl_nonneg, Z.land_nonneg. lia. Qed.

Lemma decompress_step_safe inp out0 s :
  bytes_ok inp -> dec_ok inp out0 s -> d_ip s < zlen inp ->
  exists r, decompress_step inp s = Some r /\
    match r with
    | inl (_, out) => zlen out = zlen out0
    | inr s' => dec_ok inp out0 s' /\ d_ip s < d_ip s'
    end.
Proof.
  intros Hb (H1 & H2 & H3 & H4) Hlt. unfold decompress_step.
  destruct (mget_in inp (d_ip s)) as [ctrl Hc]; [lia|]. rewrite Hc. sbind.
  pose proof (mget_byte _ _ _ Hb Hc) as Hcb.
  destruct (Z.ltb_spec ctrl (1 <<< 5)) as [Hl|Hl].
  - destruct (Z.gtb_spec (d_op s + (ctrl + 1)) (zlen (d_out s))); [by eauto|].
    destruct (Z.gtb_spec (d_ip s + 1 + (ctrl + 1)) (zlen inp)); [by eauto|].
    unfold is_byte in Hcb.
    destruct (copy_literal_spec (Z.to_nat (ctrl + 1)) inp (d_ip s + 1) (d_op s) (d_out s))
      as (o & -> & Hlo & Ho & _); [lia..|].
    rewrite !Z2Nat.id in * by lia. sbind. eexists; split; [done|].
    unfold dec_ok; simpl. repeat split; try lia. intros i Hi. rewrite Ho by lia. apply H4. lia.
  - pose proof (ctrl_len_pos ctrl Hcb Hl). pose proof (ctrl_off_nonneg ctrl).
    destruct (Z.geb_spec (d_ip s + 1) (zlen inp)); [by eauto|].
    match goal with |- context [mbind _ (if _ =? 7 then ?a else ?b)] =>
      assert (Hr : exists r, (if ctrl >>> 5 =? 7 then a else b) = Some r /\
        match r with None => True | Some (l, ip) => 1 <= l /\ d_ip s < ip < zlen inp end) end.
    { destruct (Z.eqb_spec (ctrl >>> 5) 7).
      - destruct (mget_in inp (d_ip s + 1)) as [x Hx]; [lia|]. rewrite Hx. sbind.
        pose proof (mget_byte _ _ _ Hb Hx) as Hxb. unfold is_byte in Hxb.
        destruct (Z.geb_spec (d_ip s + 1 + 1) (zlen inp)); eexists; split; [done..|]; simpl; lia.
      - eexists; split; [done|]; simpl; lia. }
    destruct Hr as ([[l ip]|] & -> & Hr); sbind; [|by eauto].
    destruct (mget_in inp ip) as [x Hx]; [lia|]. rewrite Hx. sbind.
    pose proof (mget_byte _ _ _ Hb Hx) as Hxb. unfold is_byte in Hxb.
    destruct (Z.gtb_spec (d_op s + l + 2) (zlen (d_out s))); [by eauto|].
    match goal with |- context [?r <? 0] => destruct (Z.ltb_spec r 0); [by eauto|];
      destruct (copy_backref_spec l (d_out s) (d_op s) r) as (o & -> & Hlo & Ho & _); [lia..|] end.
    sbind. eexists; split; [done|]. unfold dec_ok; simpl.
    repeat split; try lia. intros i Hi. rewrite Ho by lia. apply H4. lia.
Qed.

Lemma decompress_loop_safe fuel inp out0 s :
  bytes_ok inp -> dec_ok inp out0 s -> zlen inp - d_ip s <= Z.of_nat fuel ->
  exists r, decompress_loop fuel inp s = Some r /\
    match r with
    | inl (_, out) => zlen out = zlen out0
    | inr s' => dec_ok inp out0 s'
    end.
Proof.
  intros Hb. revert s; induction fuel as [|fuel IH]; intros s Hok Hf; simpl.
  - destruct (Z.ltb_spec (d_ip s) (zlen inp)); [lia|by eauto].
  - destruct (Z.ltb_spec (d_ip s) (zlen inp)); [|by eauto].
    destruct (decompress_step_safe inp out0 s Hb Hok) as ([[e o]|s'] & -> & Hr); [done|..]; sbind.
    + by eauto.
    + destruct Hr as [Hok' Hlt]. apply IH; [done|lia].
Qed.

(** ** The format *)

Definition slice (m : list Z) (off n : Z) : list Z :=
  take (Z.to_nat n) (drop (Z.to_nat off) m).

Lemma slice_spec m off n :
  0 <= off -> 0 <= n -> off + n <= zlen m ->
  zlen (slice m off n) = n /\ forall i, 0 <= i < n -> mget (slice m off n) i = mget m (off + i).
Proof.
  intros H1 H2 H3. destruct (mread_ok m off n H1 H2 H3) as (bs & E & Hl & Hg).
  unfold mread in E. destruct (_ && _) in E; [|done]. injection E as <-. done.
Qed.

(** [encodes inp c n]: the octets [c] stand for the first [n] octets of [inp],
    as literal runs and back references. *)
Inductive encodes (inp : list Z) : list Z -> Z -> Prop :=
| enc_nil : encodes inp [] 0
| enc_lit c n k :
    encodes inp c n -> 1 <= k <= MAX_LIT -> n + k <= zlen inp ->
    encodes inp (c ++ (k - 1) :: slice inp n k) (n + k)
| enc_ref c n off k :
    encodes inp c n -> 0 <= off < MAX_OFF -> off < n -> 3 <= k <= MAX_REF ->
    n + k <= zlen inp ->
    (forall i, 0 <= i < k -> mget inp (n + i) = mget inp (n - off - 1 + i)) ->
    encodes inp (c ++ backref_code off (k - 2)) (n + k).

Lemma encodes_range inp c n : encodes inp c n -> 0 <= n <= zlen inp.
Proof. pose proof (zlen_nonneg inp). induction 1; lia. Qed.

(** The decompressor undoes one run. *)
Lemma dec_lit inp pre n k rest out :
  1 <= k <= MAX_LIT -> 0 <= n -> n + k <= zlen inp -> n + k <= zlen out ->
  exists out',
    decompress_step (pre ++ (k - 1) :: slice inp n k ++ rest) (DState (zlen pre) n out)
      = Some (inr (DState (zlen pre + 1 + k) (n + k) out')) /\
    zlen out' = zlen out /\
    (forall i, i < n \/ n + k <= i -> mget out' i = mget out i) /\
    (forall i, 0 <= i < k -> mget out' (n + i) = mget inp (n + i)).
Proof.
  intros Hk Hn Hi Ho. change MAX_LIT with 32 in Hk.
  destruct (slice_spec inp n k Hn ltac:(lia) Hi) as [Hsl Hsg].
  unfold decompress_step. cbn [d_ip d_op d_out]. rewrite (mget_app pre (slice inp n k ++ rest) (k - 1) (zlen pre)) by done. sbind.
  change (1 <<< 5) with 32. destruct (Z.ltb_spec (k - 1) 32); [|lia].
  replace (k - 1 + 1) with k by lia.
  destruct (Z.gtb_spec (n + k) (zlen out)); [lia|].
  match goal with |- context [?a >? ?b] => destruct (Z.gtb_spec a b) as [Hgt|Hgt];
    [revert Hgt; zlen_solve|] end.
  match goal with |- context [copy_literal _ ?w _] =>
    destruct (copy_literal_spec (Z.to_nat k) w (zlen pre + 1) n out)
      as (o & -> & Hlo & Hout & Hin) end;
    [pose proof (zlen_nonneg pre); lia|zlen_solve|lia|lia|].
  rewrite !Z2Nat.id in * by lia. sbind. exists o. split; [done|]. split; [done|].
  split; [done|]. intros i Hik. rewrite Hin by done.
  pose proof (zlen_nonneg pre).
  rewrite mget_app_if by lia. destruct (Z.ltb_spec (zlen pre + 1 + i) (zlen pre)); [lia|].
  change ((k - 1) :: slice inp n k ++ rest) with ([k - 1] ++ slice inp n k ++ rest).
  rewrite (mget_app_if [_]) by lia. change (zlen [k - 1]) with 1.
  destruct (Z.ltb_spec (zlen pre + 1 + i - zlen pre) 1); [lia|].
  rewrite (mget_app_if (slice _ _ _)), Hsl by lia.
  zcase. rewrite Hsg by lia. f_equal. lia.
Qed.

(** The octets of a back reference and what the decompressor reads in them. *)
Lemma backref_short off len :
  0 <= off < MAX_OFF -> 1 <= len < 7 ->
  exists ctrl, backref_code off len = [ctrl; off mod 256] /\
    32 <= ctrl < 256 /\ ctrl >>> 5 = len /\ (ctrl &&& 31) <<< 8 = off / 256 * 256.
Proof.
  intros Hoff Hlen. change MAX_OFF with 8192 in Hoff. unfold backref_code.
  destruct (Z.ltb_spec len 7); [|lia]. eexists. split; [done|].
  rewrite (shiftr_div off), (Z.shiftl_mul_pow2 len) by lia.
  rewrite shiftr_div, (land_mod _ 5), Z.shiftl_mul_pow2 by lia.
  rewrite wrap_small; change (2 ^ 8) with 256; change (2 ^ 5) with 32; div_lia.
Qed.

Lemma backref_long off len :
  0 <= off < MAX_OFF -> 7 <= len <= 262 ->
  exists ctrl, backref_code off len = [ctrl; len - 7; off mod 256] /\
    32 <= ctrl < 256 /\ ctrl >>> 5 = 7 /\ (ctrl &&& 31) <<< 8 = off / 256 * 256.
Proof.
  intros Hoff Hlen. change MAX_OFF with 8192 in Hoff. unfold backref_code.
  destruct (Z.ltb_spec len 7); [lia|]. eexists.
  rewrite (wrap_small 8 (len - 7)) by lia. split; [done|].
  rewrite (shiftr_div off) by lia. change (7 <<< 5) with 224.
  rewrite shiftr_div, (land_mod _ 5), Z.shiftl_mul_pow2 by lia.
  rewrite wrap_small; change (2 ^ 8) with 256; change (2 ^ 5) with 32; div_lia.
Qed.

Lemma mget_app_off (a b : list Z) (i j : Z) :
  0 <= j -> i = zlen a + j -> mget (a ++ b) i = mget b j.
Proof.
  intros Hj ->. pose proof (zlen_nonneg a). rewrite mget_app_if by lia.
  zcase. f_equal. lia.
Qed.

Lemma dec_ref pre n off k rest out :
  0 <= off < MAX_OFF -> off < n -> 3 <= k <= MAX_REF -> n + k <= zlen out ->
  exists out',
    decompress_step (pre ++ backref_code off (k - 2) ++ rest) (DState (zlen pre) n out)
      = Some (inr (DState (zlen pre + zlen (backref_code off (k - 2))) (n + k) out')) /\
    copied out out' n (n - off - 1) k.
Proof.
  intros Hoff Hn Hk Ho. change MAX_REF with 264 in Hk.
  destruct (copy_backref_spec (k - 2) out n (n - off - 1)) as (o & Eo & Hc); [lia..|].
  replace (k - 2 + 2) with k in Hc by lia. exists o. split; [|done].
  pose proof (zlen_nonneg pre). pose proof (zlen_nonneg rest).
  unfold decompress_step. cbn [d_ip d_op d_out].
  destruct (decide (k - 2 < 7)) as [Hs|Hs].
  - destruct (backref_short off (k - 2) Hoff ltac:(lia)) as (ctrl & -> & Hr & H5 & H31).
    rewrite (mget_app_off pre _ (zlen pre) 0) by lia. cbn [app]. change (mget (?x :: _) 0) with (Some x).
    sbind. change (1 <<< 5) with 32. destruct (Z.ltb_spec ctrl 32); [lia|].
    rewrite H5, H31. match goal with |- context [?a >=? ?b] =>
      destruct (Z.geb_spec a b) as [Hg|Hg]; [revert Hg; zlen_solve|] end.
    destruct (Z.eqb_spec (k - 2) 7); [lia|]. sbind.
    rewrite (mget_app_off pre _ (zlen pre + 1) 1) by lia. change (mget (_ :: ?x :: _) 1) with (Some x).
    sbind. destruct (Z.gtb_spec (n + (k - 2) + 2) (zlen out)); [lia|].
    replace (n - off / 256 * 256 - 1 - off mod 256) with (n - off - 1) by div_lia.
    destruct (Z.ltb_spec (n - off - 1) 0); [lia|]. rewrite Eo. sbind.
    do 2 f_equal. f_equal; [|lia]. autorewrite with zlen. lia.
  - destruct (backref_long off (k - 2) Hoff ltac:(lia)) as (ctrl & -> & Hr & H5 & H31).
    rewrite (mget_app_off pre _ (zlen pre) 0) by lia. cbn [app]. change (mget (?x :: _) 0) with (Some x).
    sbind. change (1 <<< 5) with 32. destruct (Z.ltb_spec ctrl 32); [lia|].
    rewrite H5, H31. match goal with |- context [?a >=? ?b] =>
      destruct (Z.geb_spec a b) as [Hg|Hg]; [revert Hg; zlen_solve|] end.
    change (7 =? 7) with true. cbv iota.
    rewrite (mget_app_off pre _ (zlen pre + 1) 1) by lia. change (mget (_ :: ?x :: _) 1) with (Some x).
    sbind. match goal with |- context [?a >=? ?b] =>
      destruct (Z.geb_spec a b) as [Hg'|Hg']; [revert Hg'; zlen_solve|] end. sbind.
    rewrite (mget_app_off pre _ (zlen pre + 1 + 1) 2) by lia. change (mget (_ :: _ :: ?x :: _) 2) with (Some x).
    sbind. replace (7 + (k - 2 - 7)) with (k - 2) by lia.
    destruct (Z.gtb_spec (n + (k - 2) + 2) (zlen out)); [lia|].
    replace (n - off / 256 * 256 - 1 - off mod 256) with (n - off - 1) by div_lia.
    destruct (Z.ltb_spec (n - off - 1) 0); [lia|]. rewrite Eo. sbind.
    do 2 f_equal. f_equal; [|lia]. autorewrite with zlen. lia.
Qed.

(** Running the decompressor over an encoding, in at most as many turns as it
    has octets. *)
Lemma loop_step inp s s' f :
  d_ip s < zlen inp -> decompress_step inp s = Some (inr s') ->
  decompress_loop (S f) inp s = decompress_loop f inp s'.
Proof.
  intros H E. cbn [decompress_loop]. destruct (Z.ltb_spec (d_ip s) (zlen inp)); [|lia].
  by rewrite E.
Qed.

Lemma encodes_dec inp c n rest out :
  encodes inp c n -> n <= zlen out ->
  exists k out', (k <= length c)%nat /\ zlen out' = zlen out /\
    (forall i, 0 <= i < n -> mget out' i = mget inp i) /\
    (forall i, n <= i -> mget out' i = mget out i) /\
    forall f, decompress_loop (k + f) (c ++ rest) (DState 0 0 out)
              = decompress_loop f (c ++ rest) (DState (zlen c) n out').
Proof.
  intros He. revert rest. induction He as [|c n k He IH Hk Hn|c n off k He IH Hoff Hlt Hk Hn Hm];
    intros rest Ho.
  - exists 0%nat, out. repeat split; auto. intros; lia.
  - pose proof (encodes_range _ _ _ He).
    destruct (IH ((k - 1) :: slice inp n k ++ rest) ltac:(lia)) as (j & o & Hj & Hl & Hg & Hr & Hrun).
    destruct (dec_lit inp c n k rest o) as (o' & Es & Hl' & Ho' & Hg'); [lia..|].
    destruct (slice_spec inp n k) as [Hsl _]; [lia..|].
    exists (S j), o'. rewrite length_app. cbn [length]. rewrite <- app_assoc. cbn [app].
    split; [lia|]. split; [lia|]. split; [|split].
    + intros i Hi. destruct (decide (i < n)); [rewrite Ho', Hg by lia; done|].
      replace i with (n + (i - n)) by lia. apply Hg'. lia.
    + intros i Hi. rewrite Ho', Hr by lia. done.
    + intros f. replace (S j + f)%nat with (j + S f)%nat by lia. rewrite Hrun.
      etransitivity; [eapply loop_step; [|exact Es]; cbn [d_ip]; zlen_solve|].
      f_equal. f_equal. zlen_solve.
  - pose proof (encodes_range _ _ _ He).
    destruct (IH (backref_code off (k - 2) ++ rest) ltac:(lia)) as (j & o & Hj & Hl & Hg & Hr & Hrun).
    destruct (dec_ref c n off k rest o) as (o' & Es & Hl' & Ho' & Hg'); [lia..|].
    assert (0 < length (backref_code off (k - 2)))%nat
      by (unfold backref_code; destruct (_ <? _); simpl; lia).
    exists (S j), o'. rewrite length_app. rewrite <- app_assoc.
    split; [lia|]. split; [lia|]. split; [|split].
    + assert (Hi' : forall m, (m <= Z.to_nat k)%nat ->
        forall i, 0 <= i < n + Z.of_nat m -> mget o' i = mget inp i).
      { induction m as [|m IHm]; intros Hmk i Hi.
        - rewrite Ho', Hg by lia. done.
        - destruct (decide (i < n + Z.of_nat m)); [apply IHm; lia|].
          replace i with (n + (i - n)) by lia. rewrite Hg', Hm, IHm by lia. done. }
      intros i Hi. apply (Hi' (Z.to_nat k)); lia.
    + intros i Hi. rewrite Ho', Hr by lia. done.
    + intros f. replace (S j + f)%nat with (j + S f)%nat by lia. rewrite Hrun.
      etransitivity; [eapply loop_step; [|exact Es]; cbn [d_ip]; unfold zlen; rewrite !length_app; lia|].
      f_equal. f_equal. zlen_solve.
Qed.

(** A complete encoding decompresses to the input. *)
Lemma encodes_decompress inp c out :
  encodes inp c (zlen inp) -> zlen out = zlen inp ->
  lzf_decompress c out = Some (zlen inp, None, inp).
Proof.
  intros He Ho. destruct (encodes_dec inp c (zlen inp) [] out He ltac:(lia))
    as (k & o & Hk & Hl & Hg & _ & Hrun). rewrite app_nil_r in Hrun.
  unfold lzf_decompress. replace (S (length c)) with (k + (S (length c) - k))%nat by lia.
  rewrite Hrun. rewrite (mget_ext o inp) by (try intros; try apply Hg; lia).
  destruct (S (length c) - k)%nat; simpl; by rewrite Z.ltb_irrefl.
Qed.

(** ** Matches *)

Lemma match_unrolled_spec n inp r ip len :
  0 <= r < ip -> 0 <= len -> ip + len + Z.of_nat n < zlen inp ->
  exists len' b, match_unrolled n inp r ip len = Some (len', b) /\
    len <= len' <= len + Z.of_nat n /\
    (if b : bool then len < len' else len' = len + Z.of_nat n) /\
    forall i, len < i < (if b then len' else len' + 1) -> mget inp (ip + i) = mget inp (r + i).
Proof.
  revert len; induction n as [|n IH]; intros len Hr Hlen Hb.
  - exists len, false. simpl. repeat split; lia.
  - cbn [match_unrolled].
    destruct (mget_in inp (r + (len + 1))) as [a Ha]; [lia|].
    destruct (mget_in inp (ip + (len + 1))) as [b Hb']; [lia|].
    rewrite Ha, Hb'. sbind. destruct (Z.eqb_spec a b) as [->|Hne]; simpl negb; cbv iota.
    + destruct (IH (len + 1)) as (len' & b' & -> & H1 & H2 & H3); [lia..|].
      exists len', b'. split; [done|]. split; [lia|]. split; [destruct b'; lia|].
      intros i Hi. destruct (decide (i = len + 1)) as [->|]; [congruence|].
      apply H3. destruct b'; lia.
    + exists (len + 1), true. repeat split; lia.
Qed.

Lemma match_tail_spec fuel inp r ip maxlen len :
  0 <= r < ip -> 0 <= len -> maxlen - len < Z.of_nat fuel -> (0 < fuel)%nat ->
  ip + maxlen <= zlen inp ->
  exists len', match_tail fuel inp r ip maxlen len = Some len' /\
    len < len' /\ (len' <= maxlen \/ len' = len + 1) /\
    forall i, len < i < len' -> mget inp (ip + i) = mget inp (r + i).
Proof.
  revert len; induction fuel as [|fuel IH]; intros len Hr Hlen Hf H0 Hb; [lia|].
  cbn [match_tail]. destruct (Z.ltb_spec (len + 1) maxlen).
  - destruct (mget_in inp (r + (len + 1))) as [a Ha]; [lia|].
    destruct (mget_in inp (ip + (len + 1))) as [b Hb']; [lia|].
    rewrite Ha, Hb'. sbind. destruct (Z.eqb_spec a b) as [->|Hne].
    + destruct (IH (len + 1)) as (len' & -> & H1 & H2 & H3); [lia..|].
      exists len'. split; [done|]. split; [lia|]. split; [lia|].
      intros i Hi. destruct (decide (i = len + 1)) as [->|]; [congruence|]. apply H3. lia.
    + exists (len + 1). repeat split; lia.
  - exists (len + 1). repeat split; lia.
Qed.

Lemma match_length_spec inp r ip maxlen :
  0 <= r < ip -> ip + 2 < zlen inp ->
  maxlen = (if zlen inp - ip - 2 >? MAX_REF then MAX_REF else zlen inp - ip - 2) ->
  exists len, match_length inp r ip maxlen = Some len /\
    3 <= len <= MAX_REF /\ ip + len <= zlen inp /\
    forall i, 2 < i < len -> mget inp (ip + i) = mget inp (r + i).
Proof.
  intros Hr Hip Hmax. change MAX_REF with 264 in *.
  assert (1 <= maxlen <= 264 /\ ip + maxlen + 2 <= zlen inp) as [Hm1 Hm2]
    by (subst; zcase).
  clear Hmax. unfold match_length. destruct (Z.gtb_spec maxlen 16).
  - destruct (match_unrolled_spec 16 inp r ip 2) as (l & b & -> & H1 & H2 & H3); [lia..|].
    sbind. destruct b.
    + exists l. repeat split; try lia. done.
    + destruct (match_tail_spec (S (Z.to_nat maxlen)) inp r ip maxlen l)
        as (l' & -> & H4 & H5 & H6); [lia..|].
      exists l'. repeat split; try lia. intros i Hi.
      destruct (decide (i <= l)); [apply H3; lia|apply H6; lia].
  - sbind. destruct (match_tail_spec (S (Z.to_nat maxlen)) inp r ip maxlen 2)
      as (l' & -> & H4 & H5 & H6); [lia..|].
    exists l'. repeat split; try lia. done.
Qed.

(** ** The compressor *)

Section CompressProofs.
Context (junk : Z -> Z) (base : Z) (inp : list Z).
Context (Hbytes : bytes_ok inp) (Hlow : MAX_OFF <= base) (Hhigh : base + zlen inp <= 2 ^ 64)
        (Hjunk : forall i, 0 <= junk i < 2 ^ 64).

(** Octets of the buffer: a finished encoding, the place of the next length
    octet, and the literals of the current run. *)
Record cinv (L : Z) (s : cstate) : Prop := {
  ci_len : zlen (c_out s) = L;
  ci_lit : 0 <= c_lit s < MAX_LIT;
  ci_ip : c_lit s <= c_ip s <= zlen inp;
  ci_op : c_op s <= L \/ (c_op s = L + 1 /\ c_lit s = 0);
  ci_size : 32 * (c_op s - 1 - c_lit s) <= 33 * (c_ip s - c_lit s);
  ci_htab : forall i v, c_htab s !! i = Some v -> 0 <= v < 2 ^ 64;
  ci_code : exists c, encodes inp c (c_ip s - c_lit s) /\
    c_op s = zlen c + 1 + c_lit s /\
    (forall i, 0 <= i < zlen c -> mget (c_out s) i = mget c i) /\
    (forall i, 0 <= i < c_lit s ->
       mget (c_out s) (zlen c + 1 + i) = mget inp (c_ip s - c_lit s + i)) }.

Lemma slot_range h i :
  (forall i v, h !! i = Some v -> 0 <= v < 2 ^ 64) -> 0 <= slot junk h i < 2 ^ 64.
Proof. intros H. unfold slot. destruct (h !! i) eqn:E; simpl; [by eapply H|apply Hjunk]. Qed.

Lemma htab_insert (h : htable) i ip :
  (forall i v, h !! i = Some v -> 0 <= v < 2 ^ 64) -> 0 <= ip < zlen inp ->
  forall j v, <[i := base + ip]> h !! j = Some v -> 0 <= v < 2 ^ 64.
Proof.
  intros H Hip j v. change MAX_OFF with 8192 in Hlow.
  rewrite lookup_insert_Some. intros [[_ <-]|[_ ?]]; [lia|by eapply H].
Qed.

(** The test of a table entry reads only the input and, when it succeeds,
    the entry points to an earlier copy of the next three octets. *)
Lemma is_match_spec ref ip :
  0 <= ref < 2 ^ 64 -> 0 <= ip -> ip + 2 < zlen inp ->
  exists b, is_match base inp ref ip = Some b /\
    (b = true -> base < ref < base + ip /\ base + ip - ref - 1 < MAX_OFF /\
       u64 (base + ip - ref - 1) = base + ip - ref - 1 /\
       forall i, 0 <= i < 3 -> mget inp (ip + i) = mget inp (ref - base + i)).
Proof.
  intros Hr Hip Hin. unfold is_match. change MAX_OFF with 8192 in *.
  destruct (Z.ltb_spec (u64 (base + ip - ref - 1)) 8192) as [Hoff|]; [|by exists false].
  destruct (Z.gtb_spec ref base) as [Hgt|]; [|by exists false]. simpl negb. cbv iota zeta.
  assert (Hlt : ref < base + ip) by (revert Hoff; unfold wrap; intros; div_lia).
  rewrite wrap_small in * by lia.
  destruct (mget_in inp (ref - base + 2)) as [r2 E2]; [lia|].
  destruct (mget_in inp (ip + 2)) as [i2 F2]; [lia|]. rewrite E2, F2. sbind.
  destruct (Z.eqb_spec r2 i2) as [->|]; [|by exists false]. simpl negb. cbv iota.
  destruct (mget_in inp (ref - base + 1)) as [r1 E1]; [lia|].
  destruct (mget_in inp (ref - base)) as [r0 E0]; [lia|].
  destruct (mget_in inp (ip + 1)) as [i1 F1]; [lia|].
  destruct (mget_in inp ip) as [i0 F0]; [lia|]. rewrite E1, E0, F1, F0. sbind.
  eexists; split; [done|]. rewrite Z.eqb_eq.
  pose proof (mget_byte _ _ _ Hbytes E0) as B0. pose proof (mget_byte _ _ _ Hbytes F0) as B0'.
  unfold is_byte in *. rewrite !shiftl_lor by lia. change (2 ^ 8) with 256. intros Heq.
  assert (r0 = i0 /\ r1 = i1) as [-> ->] by lia.
  split; [lia|]. split; [lia|]. split; [done|]. intros i Hi.
  assert (i = 0 \/ i = 1 \/ i = 2) as [->|[->| ->]] by lia;
    rewrite ?Z.add_0_r; congruence.
Qed.

(** A run of literals in the buffer with its length octet in place. *)
Lemma run_code c n k out b o :
  encodes inp c n -> 1 <= k <= MAX_LIT -> n + k <= zlen inp ->
  (forall i, 0 <= i < zlen c -> mget out i = mget c i) ->
  (forall i, 0 <= i < k -> mget out (zlen c + 1 + i) = mget inp (n + i)) ->
  (forall i, mget o i = if i =? zlen c then Some b else mget out i) -> b = k - 1 ->
  exists c', encodes inp c' (n + k) /\ zlen c' = zlen c + 1 + k /\
    forall i, 0 <= i < zlen c' -> mget o i = mget c' i.
Proof.
  intros He Hk Hn Hc Hl Ho ->. pose proof (encodes_range _ _ _ He). pose proof (zlen_nonneg c).
  destruct (slice_spec inp n k) as [Hsl Hsg]; [lia..|].
  exists (c ++ (k - 1) :: slice inp n k). split; [by constructor|].
  autorewrite with zlen. split; [lia|]. intros i Hi. rewrite Ho, mget_app_if by lia.
  destruct (Z.ltb_spec i (zlen c)); [rewrite <- Hc by lia; zcase; done|].
  destruct (Z.eqb_spec i (zlen c)) as [->|]; [by rewrite Z.sub_diag|].
  change (mget (?x :: ?l) ?j) with (mget ([x] ++ l) j).
  rewrite (mget_app_off [_] _ (i - zlen c) (i - zlen c - 1)) by (change (zlen [_]) with 1; lia).
  rewrite Hsg, <- Hl by lia. f_equal. lia.
Qed.

(** Ending a run turns the buffer into a finished encoding. *)
Lemma stop_run_spec L s :
  cinv L s -> c_op s <= L ->
  exists c out, stop_run (c_out s) (c_op s) (c_lit s) = Some (out, zlen c) /\
    encodes inp c (c_ip s) /\ zlen out = L /\
    zlen c = c_op s - (if c_lit s =? 0 then 1 else 0) /\
    (forall i, 0 <= i < zlen c -> mget out i = mget c i).
Proof.
  intros [Hl Hlit Hip Hop Hsz Hh (c & He & Hopc & Hc & Hls)] Hle. unfold stop_run.
  change MAX_LIT with 32 in *. pose proof (zlen_nonneg c).
  replace (c_op s - c_lit s - 1) with (zlen c) by lia.
  destruct (mwrite_byte (c_out s) (zlen c) (u8 (c_lit s - 1)))
    as (o & -> & Hlo & Hg); [lia|]. sbind.
  destruct (Z.eqb_spec (c_lit s) 0) as [H0|H0].
  - exists c, o. rewrite H0 in *. rewrite Z.sub_0_r in He. replace (c_op s - 1) with (zlen c) by lia.
    repeat split; try done; try lia. intros i Hi. rewrite Hg, <- Hc by done. zcase. done.
  - rewrite (wrap_small 8) in Hg by lia.
    destruct (run_code c (c_ip s - c_lit s) (c_lit s) (c_out s) (c_lit s - 1) o)
      as (c' & He' & Hz & Hc'); try done; change MAX_LIT with 32; try lia.
    replace (c_ip s - c_lit s + c_lit s) with (c_ip s) in He' by lia.
    exists c', o. rewrite Z.sub_0_r, Hopc, <- Hz. repeat split; try done; lia.
Qed.

Lemma emit_literal_spec L s :
  cinv L s -> c_ip s < zlen inp -> c_op s < L ->
  exists s', emit_literal inp s = Some s' /\ cinv L s' /\ c_ip s' = c_ip s + 1 /\
    ((c_op s' = c_op s + 1 /\ c_lit s' = c_lit s + 1) \/
     (c_op s' = c_op s + 2 /\ c_lit s' = 0 /\ c_lit s = MAX_LIT - 1)).
Proof.
  intros [Hl Hlit Hip Hop Hsz Hh (c & He & Hopc & Hc & Hls)] Hin Hlt. unfold emit_literal.
  change MAX_LIT with 32 in *. pose proof (zlen_nonneg c).
  destruct (mget_in inp (c_ip s)) as [b Eb]; [lia|]. rewrite Eb. sbind.
  destruct (mwrite_byte (c_out s) (c_op s) b) as (o & -> & Hlo & Hg); [lia|]. sbind.
  assert (Hc' : forall i, 0 <= i < zlen c -> mget o i = mget c i)
    by (intros; rewrite Hg, <- Hc by done; zcase; done).
  assert (Hls' : forall i, 0 <= i < c_lit s + 1 ->
            mget o (zlen c + 1 + i) = mget inp (c_ip s - c_lit s + i)).
  { intros i Hi. rewrite Hg. destruct (Z.eqb_spec (zlen c + 1 + i) (c_op s)).
    - rewrite <- Eb. f_equal. lia.
    - apply Hls. lia. }
  destruct (Z.eqb_spec (c_lit s + 1) 32) as [H32|H32].
  - rewrite H32. replace (c_op s + 1 - 32 - 1) with (zlen c) by lia.
    destruct (mwrite_byte o (zlen c) (u8 (32 - 1))) as (o' & -> & Hlo' & Hg'); [lia|]. sbind.
    destruct (run_code c (c_ip s - c_lit s) 32 o (u8 (32 - 1)) o')
      as (c' & He' & Hz & Hc''); try done; change MAX_LIT with 32; try lia.
    { rewrite <- H32. done. }
    eexists; split; [done|]. split; [|simpl; lia].
    split; simpl; try lia; [by change MAX_LIT with 32|done|].
    exists c'. replace (c_ip s + 1 - 0) with (c_ip s - c_lit s + 32) by lia.
    split; [done|]. split; [lia|]. split; [done|]. lia.
  - eexists; split; [done|]. split; [|simpl; lia].
    split; simpl; try lia; [by change MAX_LIT with 32; lia|done|].
    exists c. replace (c_ip s + 1 - (c_lit s + 1)) with (c_ip s - c_lit s) by lia.
    split; [done|]. split; [lia|]. done.
Qed.

Lemma cinv_htab L s ip' h hval :
  cinv L s -> ip' = c_ip s -> (forall i v, h !! i = Some v -> 0 <= v < 2 ^ 64) ->
  cinv L (CState ip' (c_op s) (c_out s) h hval (c_lit s)).
Proof. intros [] -> H. by split. Qed.

Lemma rehash_two_spec L s :
  cinv L s -> 2 <= c_ip s -> c_ip s + 2 < zlen inp ->
  exists s', rehash_two base inp s = Some s' /\ cinv L s' /\ c_ip s' = c_ip s.
Proof.
  intros Hinv H2 Hin. unfold rehash_two, FRST, NEXT.
  do 4 (match goal with |- context [mget inp ?p] =>
    let b := fresh "b" in let E := fresh "E" in
    destruct (mget_in inp p) as [b E]; [lia|]; rewrite !E; sbind end).
  eexists; split; [done|]. split; [|simpl; lia].
  apply cinv_htab; [done|lia|]. apply htab_insert; [|lia]. apply htab_insert; [|lia].
  apply (ci_htab L s Hinv).
Qed.

Lemma backref_code_len off len :
  zlen (backref_code off len) = if len <? 7 then 2 else 3.
Proof. unfold backref_code. by destruct (_ <? _). Qed.

(** A size of the output buffer that is always enough. *)
Definition max_compressed (n : Z) : Z := n + n / 32 + 7.

Lemma cinv_room L s :
  cinv L s -> c_op s + 4 < max_compressed (zlen inp) /\ 0 <= zlen inp.
Proof.
  intros [_ Hlit Hip _ Hsz _ _]. change MAX_LIT with 32 in Hlit. unfold max_compressed.
  split; [div_lia|apply zlen_nonneg].
Qed.

(** What a turn of the main loop may return. *)
Definition step_post (L ip : Z) (r : cresult) : Prop :=
  match r with
  | CFull out => zlen out = L /\ L < max_compressed (zlen inp)
  | CBreak s => cinv L s /\ zlen inp - 2 <= c_ip s
  | CGo s => cinv L s /\ ip < c_ip s
  end.

Lemma emit_match_spec L s ref :
  cinv L s -> c_ip s + 2 < zlen inp ->
  base < ref < base + c_ip s -> base + c_ip s - ref - 1 < MAX_OFF ->
  u64 (base + c_ip s - ref - 1) = base + c_ip s - ref - 1 ->
  (forall i, 0 <= i < 3 -> mget inp (c_ip s + i) = mget inp (ref - base + i)) ->
  exists r, emit_match base inp s ref = Some r /\ step_post L (c_ip s) r.
Proof.
  intros Hinv Hin Href Hoff Hw H3. unfold emit_match. rewrite Hw.
  destruct (_ && _) eqn:Hfull.
  { eexists; split; [done|]. simpl. rewrite (ci_len L s Hinv) in *. split; [done|].
    pose proof (cinv_room L s Hinv). rewrite !Z.geb_leb, andb_true_iff, !Z.leb_le in Hfull. lia. }
  assert (Hroom : c_op s - (if c_lit s =? 0 then 1 else 0) + 4 < L).
  { rewrite (ci_len L s Hinv) in Hfull. rewrite !Z.geb_leb, andb_false_iff, !Z.leb_gt in Hfull.
    destruct (c_lit s =? 0); lia. }
  destruct (stop_run_spec L s Hinv) as (c & o & -> & He & Hlo & Hzc & Hc).
  { destruct (c_lit s =? 0); lia. }
  sbind. pose proof (zlen_nonneg c). pose proof (ci_ip L s Hinv). pose proof (ci_lit L s Hinv).
  destruct (match_length_spec inp (ref - base) (c_ip s) _ ltac:(lia) Hin eq_refl)
    as (len & -> & Hlen & Hend & Heq). sbind.
  pose proof (backref_code_len (base + c_ip s - ref - 1) (len - 2)) as Hcl.
  assert (Hsz : 32 * (zlen c + (if len - 2 <? 7 then 2 else 3)) <= 33 * (c_ip s + len)).
  { pose proof (ci_size L s Hinv). rewrite Hzc. zcase. }
  assert (Hcl' : 2 <= (if len - 2 <? 7 then 2 else 3) <= 3) by (destruct (_ <? _); lia).
  rewrite <- Hcl in Hsz, Hcl'.
  set (code := backref_code _ _) in *.
  destruct (mwrite_ok o (zlen c) code) as (o' & -> & Hlo' & Hi' & Ho'); [lia..|]. sbind.
  match goal with |- context [CState ?ip ?op ?out ?h ?v 0] =>
    assert (Hinv' : cinv L (CState ip op out h v 0)) end.
  { split; simpl; try lia; [apply (ci_htab L s Hinv)|].
    exists (c ++ code). split.
    - replace (c_ip s + 1 + (len - 2) + 1 - 0) with (c_ip s + len) by lia. unfold code.
      constructor; try lia; [done|]. intros i Hi.
      replace (c_ip s - (base + c_ip s - ref - 1) - 1) with (ref - base) by lia.
      destruct (decide (i < 3)); [apply H3|apply Heq]; lia.
    - autorewrite with zlen. split; [lia|]. split; [|lia]. intros i Hi.
      rewrite mget_app_if by lia. destruct (Z.ltb_spec i (zlen c)).
      + rewrite Ho', Hc by lia. done.
      + rewrite <- Hi' by lia. f_equal. lia. }
  destruct (Z.geb_spec (c_ip s + 1 + (len - 2) + 1) (zlen inp - 2)).
  { eexists; split; [done|]. split; [done|simpl; lia]. }
  destruct (rehash_two_spec _ _ Hinv') as (s' & -> & Hs' & Hip'); [simpl; lia..|].
  sbind. eexists; split; [done|]. split; [done|]. rewrite Hip'. simpl. lia.
Qed.

Lemma compress_step_spec L s :
  cinv L s -> c_ip s + 2 < zlen inp ->
  exists r, compress_step junk base inp s = Some r /\ step_post L (c_ip s) r.
Proof.
  intros Hinv Hin. pose proof (ci_ip L s Hinv). pose proof (ci_lit L s Hinv).
  unfold compress_step, NEXT. destruct (mget_in inp (c_ip s + 2)) as [b E]; [lia|].
  rewrite E. sbind.
  match goal with |- context [CState _ _ _ ?h ?v _] =>
    assert (Hinv' : cinv L (CState (c_ip s) (c_op s) (c_out s) h v (c_lit s))) end.
  { apply cinv_htab; [done..|]. apply htab_insert; [|lia]. apply (ci_htab L s Hinv). }
  cbn [c_ip c_op c_out].
  destruct (is_match_spec (slot junk (c_htab s) (IDX (u32 ((c_hval s <<< 8) ||| b)))) (c_ip s))
    as (m & -> & Hm); [apply slot_range, (ci_htab L s Hinv)|lia|lia|].
  sbind. destruct m.
  - destruct (Hm eq_refl) as (H1 & H2 & H3 & H4).
    by apply (emit_match_spec L _ _ Hinv').
  - destruct (Z.geb_spec (c_op s) (zlen (c_out s))) as [|Hop].
    + eexists; split; [done|]. pose proof (cinv_room L s Hinv).
      pose proof (ci_len L s Hinv). simpl. lia.
    + destruct (emit_literal_spec L _ Hinv') as (s' & -> & Hs' & Hip' & _);
        [simpl; lia|simpl; rewrite (ci_len L s Hinv) in Hop; lia|].
      sbind. eexists; split; [done|]. split; [done|]. rewrite Hip'. simpl. lia.
Qed.

Lemma compress_loop_spec fuel L s :
  cinv L s -> zlen inp - c_ip s <= Z.of_nat fuel ->
  exists r, compress_loop junk base inp fuel s = Some r /\
    match r with
    | inl out => zlen out = L /\ L < max_compressed (zlen inp)
    | inr s => cinv L s /\ zlen inp - 2 <= c_ip s
    end.
Proof.
  revert s; induction fuel as [|fuel IH]; intros s Hinv Hf; cbn [compress_loop].
  - destruct (Z.ltb_spec (c_ip s) (zlen inp - 2)); [lia|]. eexists; split; [done|]. done.
  - destruct (Z.ltb_spec (c_ip s) (zlen inp - 2)); [|by eexists].
    destruct (compress_step_spec L s Hinv ltac:(lia)) as (r & -> & Hr). sbind.
    destruct r; simpl in Hr; [by eexists..|]. apply IH; [tauto|lia].
Qed.

(** The last one or two octets fit in the three that are free. *)
Lemma compress_rest_spec fuel L s :
  cinv L s -> zlen inp - c_ip s <= Z.of_nat fuel -> Z.of_nat fuel <= 2 ->
  c_op s + Z.of_nat fuel + (if c_lit s + Z.of_nat fuel <? MAX_LIT then 0 else 1) <= L ->
  exists s', compress_rest inp fuel s = Some s' /\ cinv L s' /\
    c_ip s' = zlen inp /\ c_op s' <= L.
Proof.
  revert s; induction fuel as [|fuel IH]; intros s Hinv Hf H2 Hop;
    pose proof (ci_ip L s Hinv); pose proof (ci_lit L s Hinv); cbn [compress_rest];
    destruct (Z.ltb_spec (c_ip s) (zlen inp)); try lia.
  - exists s. split; [done|]. split; [done|]. split; [lia|]. revert Hop. zcase; lia.
  - destruct (emit_literal_spec L s Hinv) as (s1 & -> & Hs1 & Hip1 & Hcase);
      [lia|revert Hop; zcase; lia|]. sbind.
    apply IH; [done|lia|lia|]. change MAX_LIT with 32 in *.
    destruct Hcase as [[E1 E2]|(E1 & E2 & E3)]; rewrite E1, E2; revert Hop; zcase; lia.
  - exists s. split; [done|]. split; [done|]. split; [lia|]. revert Hop. zcase; lia.
Qed.

Lemma cinv_init out hval :
  0 < zlen out -> cinv (zlen out) (CState 0 (0 + 1) out ∅ hval 0).
Proof.
  intros H. split; simpl; try lia; [change MAX_LIT with 32; lia|pose proof (zlen_nonneg inp); lia|..].
  - intros i v. by rewrite lookup_empty.
  - exists []. split; [constructor|]. change (zlen []) with 0. repeat split; lia.
Qed.

Lemma lzf_compress_spec out :
  2 <= zlen inp ->
  exists n out', lzf_compress junk base inp out = Some (n, out') /\ zlen out' = zlen out /\
    ((n = 0 /\ zlen out < max_compressed (zlen inp)) \/
     exists c, n = zlen c /\ 0 < n <= zlen out /\ encodes inp c (zlen inp) /\
       forall i, 0 <= i < n -> mget out' i = mget c i).
Proof.
  intros H2. unfold lzf_compress. destruct (Z.eqb_spec (zlen inp) 0); [lia|].
  pose proof (zlen_nonneg out) as Ho. destruct (Z.eqb_spec (zlen out) 0) as [E0|]; simpl orb; cbv iota.
  { exists 0, out. split; [done|]. split; [done|]. left. unfold max_compressed. split; [done|div_lia]. }
  unfold FRST. destruct (mget_in inp 0) as [a ->]; [lia|]. sbind.
  destruct (mget_in inp (0 + 1)) as [b ->]; [lia|]. sbind.
  destruct (compress_loop_spec (S (length inp)) (zlen out)
              (CState 0 (0 + 1) out ∅ ((a <<< 8) ||| b) 0)) as (r & -> & Hr).
  { apply cinv_init. lia. } { unfold zlen; simpl; lia. }
  sbind. destruct r as [o|s]; [exists 0, o; tauto|]. destruct Hr as [Hs Hip].
  pose proof (ci_len _ _ Hs) as Hls.
  destruct (Z.gtb_spec (c_op s + 3) (zlen (c_out s))) as [Hfull|Hroom].
  { exists 0, (c_out s). pose proof (cinv_room _ _ Hs). split; [done|]. split; [done|]. left. lia. }
  destruct (compress_rest_spec 2 (zlen out) s Hs) as (s' & -> & Hs' & Hip' & Hop');
    [lia|lia|destruct (_ <? _); lia|].
  sbind. destruct (stop_run_spec _ s' Hs' Hop') as (c & o & -> & He & Hlo & Hzc & Hc).
  sbind. exists (zlen c), o. rewrite Hip' in He. split; [done|]. split; [done|]. right.
  exists c. split; [done|]. split; [|by split]. split; [|destruct (_ =? _); lia].
  destruct c; [|zlen_solve]. inversion He as [Hz|c' ? ? ? ? ? Hz|c' ? ? ? ? ? ? ? ? ? Hz].
  - lia.
  - by destruct c'.
  - unfold backref_code in Hz. destruct (_ <? _), c'; done.
Qed.

End CompressProofs.

(** ** Properties *)

(** C16: Whatever the uninitialised hash table holds, compressing two octets or
    more never reads or writes outside the buffers; it returns 0 only when the
    output buffer is smaller than the input plus one octet in 32 plus seven, and
    otherwise a prefix of the buffer that decompresses to exactly the input. *)
Theorem lzf_roundtrip junk base inp out dst :
  bytes_ok inp -> 2 <= zlen inp ->
  MAX_OFF <= base -> base + zlen inp <= 2 ^ 64 -> (forall i, 0 <= junk i < 2 ^ 64) ->
  zlen dst = zlen inp ->
  exists n out', lzf_compress junk base inp out = Some (n, out') /\
    zlen out' = zlen out /\ 0 <= n <= zlen out /\
    (n = 0 -> zlen out < zlen inp + zlen inp / 32 + 7) /\
    (n <> 0 -> lzf_decompress (take (Z.to_nat n) out') dst = Some (zlen inp, None, inp)).
Proof.
  intros Hb H2 Hlow Hhigh Hj Hd.
  destruct (lzf_compress_spec junk base inp Hb Hlow Hhigh Hj out H2)
    as (n & o & -> & Hlo & Hcase); exists n, o; split; [done|]; split; [done|].
  pose proof (zlen_nonneg out). destruct Hcase as [[-> Hfull]|(c & -> & Hn & He & Hc)].
  { split; [lia|]. split; [done|]. done. }
  split; [lia|]. split; [lia|]. intros _.
  replace (take (Z.to_nat (zlen c)) o) with c; [by apply encodes_decompress|].
  destruct (slice_spec o 0 (zlen c)) as [Hsl Hsg]; [lia..|].
  unfold slice in *. rewrite drop_0 in *. apply mget_ext; [done|].
  intros i Hi. by rewrite Hsg, Hc.
Qed.

(** C21: On every byte string the decompressor terminates without reading or
    writing outside its buffers: it either fails with an error and returns 0, or
    returns a length within the output buffer and has left the rest of it alone. *)
Theorem lzf_decompress_safe inp out :
  bytes_ok inp ->
  exists n e out', lzf_decompress inp out = Some (n, e, out') /\ zlen out' = zlen out /\
    match e with
    | Some _ => n = 0
    | None => 0 <= n <= zlen out /\ drop (Z.to_nat n) out' = drop (Z.to_nat n) out
    end.
Proof.
  intros Hb. pose proof (zlen_nonneg inp). pose proof (zlen_nonneg out).
  destruct (decompress_loop_safe (S (length inp)) inp out (DState 0 0 out)) as (r & E & Hr); [done|..].
  { unfold dec_ok; simpl. repeat split; (done || lia). }
  { unfold zlen; simpl; lia. }
  unfold lzf_decompress. rewrite E. sbind. destruct r as [[e o]|s].
  - by exists 0, (Some e), o.
  - destruct Hr as (H1 & H2 & H3 & H4). exists (d_op s), None, (d_out s).
    split; [done|]. split; [done|]. split; [lia|]. apply list_eq. intros i.
    rewrite !lookup_drop. specialize (H4 (d_op s + Z.of_nat i) ltac:(lia)).
    rewrite !mget_lookup in H4 by lia.
    by replace (Z.to_nat (d_op s) + i)%nat with (Z.to_nat (d_op s + Z.of_nat i)) by lia.
Qed.

(** A string with a repetition: one literal run, one back reference. *)
Definition lzf_sample : list Z := str "xabcabcabcabcabcabcabcabc".

Lemma lzf_roundtrip_witness :
  exists out', lzf_compress (fun i => i mod 2 ^ 64) 65536 lzf_sample (repeat 0 40) = Some (11, out') /\
    lzf_decompress (take (Z.to_nat 11) out') (repeat 7 25) = Some (25, None, lzf_sample).
Proof.
  destruct (lzf_roundtrip (fun i => i mod 2 ^ 64) 65536 lzf_sample (repeat 0 40) (repeat 7 25))
    as (n & o & E & _ & _ & _ & H).
  - refine (bool_decide_eq_true_1 _ _). by vm_compute.
  - by vm_compute.
  - by vm_compute.
  - by vm_compute.
  - intros i. apply Z.mod_pos_bound. lia.
  - by vm_compute.
  - assert (Hn : fst <$> lzf_compress (fun i => i mod 2 ^ 64) 65536 lzf_sample (repeat 0 40) = Some 11)
      by (by vm_compute).
    rewrite E in Hn. simpl in Hn. injection Hn as ->.
    exists o. split; [exact E|]. apply H. lia.
Defined.

(** A reference before the start of the output. *)
Lemma lzf_decompress_safe_witness :
  lzf_decompress [0; 65; 32; 1] (repeat 0 8) = Some (0, Some EINVAL, 65 :: repeat 0 7) /\
  exists n e out', lzf_decompress [0; 65; 32; 1] (repeat 0 8) = Some (n, e, out') /\ zlen out' = 8.
Proof.
  split; [by vm_compute|].
  destruct (lzf_decompress_safe [0; 65; 32; 1] (repeat 0 8)) as (n & e & o & E & Hl & _).
  - refine (bool_decide_eq_true_1 _ _). by vm_compute.
  - exists n, e, o. split; [exact E|exact Hl].
Defined.

(** The first hash value is read before the length is known to allow it: one
    octet of input makes the compressor read past its end. *)
Lemma lzf_compress_overread junk base b out :
  out <> [] -> lzf_compress junk base [b] out = None.
Proof.
  intros H. unfold lzf_compress. destruct out as [|x out]; [done|].
  destruct (Z.eqb_spec (zlen (x :: out)) 0) as [E|]; [exfalso; revert E; zlen_solve|]. done.
Qed.
