(* ===== verification/Kvstore.v ===== *)
(** * kvstore.c: an array of dictionaries

    The key space of a database: one dictionary per cluster slot, the number of
    keys of every prefix of the array in a binary indexed tree, dictionaries
    created when a key arrives and freed when the last one leaves.
    [KvstoreIndex] shows that the tree gives prefix sums and finds keys by their
    number, [KvstoreSpec] that the store is an array of finite maps, with the
    counters it keeps, and [KvstoreScan] that a scan of the whole store misses no
    element.

    The calls that the dictionaries make to [bucketChanged] are the ones [Dict]
    records; their sum is added to the bucket count after the operation.  The list
    of the dictionaries being rehashed, the rehashing overhead and the metadata of
    the dictionaries (used for statistics) are not modelled. *)

From stdpp Require Import gmap.
From S2P Require Import Prelude Dict DictSpec.

Definition KVSTORE_ALLOCATE_DICTS_ON_DEMAND : Z := 1 <<< 0.
Definition KVSTORE_FREE_EMPTY_DICTS : Z := 1 <<< 1.

(** ** The binary indexed tree *)

(** [idx & -idx] *)
Definition lowbit (idx : Z) : Z := idx &&& (- idx).

(** [while (idx > 0)] of [cumulativeKeyCountRead]. *)
Fixpoint count_read_loop (fuel : nat) (dict_size_index : list Z) (idx sum : Z) : option Z :=
  if idx >? 0 then
    match fuel with
    | O => None
    | S fuel =>
        n ← mget dict_size_index idx;
        count_read_loop fuel dict_size_index (idx - lowbit idx) (u64 (sum + n))
    end
  else Some sum.

(** [while (idx <= kvs->num_dicts)] of [cumulativeKeyCountAdd]; [None] also for
    the failed assertion. *)
Fixpoint count_add_loop (fuel : nat) (dict_size_index : list Z) (num_dicts idx delta : Z) : option (list Z) :=
  if idx <=? num_dicts then
    match fuel with
    | O => None
    | S fuel =>
        n ← mget dict_size_index idx;
        if (delta <? 0) && negb (n >=? Z.abs delta) then None
        else count_add_loop fuel (<[Z.to_nat idx := u64 (n + delta)]> dict_size_index) num_dicts
               (idx + lowbit idx) delta
    end
  else Some dict_size_index.

(** [for (int i = bit_mask; i != 0; i >>= 1)] of [kvstoreFindDictIndexByKeyIndex]. *)
Fixpoint find_index_loop (fuel : nat) (dict_size_index : list Z) (i target result : Z) : option Z :=
  if i =? 0 then Some result
  else
    match fuel with
    | O => None
    | S fuel =>
        let current := result + i in
        n ← mget dict_size_index current;
        if target >? n then find_index_loop fuel dict_size_index (i >>> 1) (target - n) current
        else find_index_loop fuel dict_size_index (i >>> 1) target result
    end.

Section kvstore.
Context {K V : Type} `{EqDecision K}.
Abbreviation dict := (@dict K V).

(** [dict_size_index] is NULL when there is one dictionary. *)
Record kvstore := mkKvs {
  flags : Z;
  dicts : list (option dict);
  num_dicts : Z;
  num_dicts_bits : Z;
  resize_cursor : Z;
  allocated_dicts : Z;
  non_empty_dicts : Z;
  key_count : Z;
  bucket_count : Z;
  dict_size_index : option (list Z);
}.

Definition with_dicts (kvs : kvstore) (ds : list (option dict)) : kvstore :=
  mkKvs (flags kvs) ds (num_dicts kvs) (num_dicts_bits kvs) (resize_cursor kvs) (allocated_dicts kvs)
    (non_empty_dicts kvs) (key_count kvs) (bucket_count kvs) (dict_size_index kvs).
Definition with_resize_cursor (kvs : kvstore) (c : Z) : kvstore :=
  mkKvs (flags kvs) (dicts kvs) (num_dicts kvs) (num_dicts_bits kvs) c (allocated_dicts kvs)
    (non_empty_dicts kvs) (key_count kvs) (bucket_count kvs) (dict_size_index kvs).
Definition with_allocated (kvs : kvstore) (n : Z) : kvstore :=
  mkKvs (flags kvs) (dicts kvs) (num_dicts kvs) (num_dicts_bits kvs) (resize_cursor kvs) n
    (non_empty_dicts kvs) (key_count kvs) (bucket_count kvs) (dict_size_index kvs).
Definition with_counts (kvs : kvstore) (keys non_empty : Z) (index : option (list Z)) : kvstore :=
  mkKvs (flags kvs) (dicts kvs) (num_dicts kvs) (num_dicts_bits kvs) (resize_cursor kvs) (allocated_dicts kvs)
    non_empty keys (bucket_count kvs) index.

(** [kvs->bucket_count += delta] of [kvstoreDictBucketChanged], for the calls made
    between two states of the record of a dictionary. *)
Definition kvstoreDictBucketChanged (kvs : kvstore) (before after : list (callback K V)) : kvstore :=
  mkKvs (flags kvs) (dicts kvs) (num_dicts kvs) (num_dicts_bits kvs) (resize_cursor kvs) (allocated_dicts kvs)
    (non_empty_dicts kvs) (key_count kvs) (u64 (bucket_count kvs + (told after - told before))) (dict_size_index kvs).

(** [kvs->dicts[didx]], [None] out of the array. *)
Definition kvstoreGetDict (kvs : kvstore) (didx : Z) : option (option dict) :=
  if 0 <=? didx then dicts kvs !! Z.to_nat didx else None.

(** The dictionary [d] at [didx] has become [d']. *)
Definition set_dict (kvs : kvstore) (didx : Z) (d d' : dict) : kvstore :=
  kvstoreDictBucketChanged (with_dicts kvs (<[Z.to_nat didx := Some d']> (dicts kvs))) (calls d) (calls d').

Definition kvstoreDictSize (kvs : kvstore) (didx : Z) : option Z :=
  d ← kvstoreGetDict kvs didx; Some (match d with Some d => dictSize d | None => 0 end).

Definition kvstoreDictIsRehashingPaused (kvs : kvstore) (didx : Z) : option bool :=
  d ← kvstoreGetDict kvs didx; Some (match d with Some d => pauserehash d >? 0 | None => false end).

Definition kvstoreSize (kvs : kvstore) : option Z :=
  if negb (num_dicts kvs =? 1) then Some (key_count kvs) else kvstoreDictSize kvs 0.

Definition kvstoreBuckets (kvs : kvstore) : option Z :=
  if negb (num_dicts kvs =? 1) then Some (bucket_count kvs)
  else d ← kvstoreGetDict kvs 0; Some (match d with Some d => dictBuckets d | None => 0 end).

Definition cumulativeKeyCountRead (kvs : kvstore) (didx : Z) : option Z :=
  if num_dicts kvs =? 1 then if didx =? 0 then kvstoreSize kvs else None
  else index ← dict_size_index kvs; count_read_loop (S (Z.to_nat (didx + 1))) index (didx + 1) 0.

Definition cumulativeKeyCountAdd (kvs : kvstore) (didx delta : Z) : option kvstore :=
  let key_count := u64 (key_count kvs + delta) in
  d ← kvstoreGetDict kvs didx;
  d ← d;
  let dsize := dictSize d in
  let non_empty_dicts_delta := if (dsize =? 1) && (delta >? 0) then 1 else if dsize =? 0 then -1 else 0 in
  let non_empty := non_empty_dicts kvs + non_empty_dicts_delta in
  if num_dicts kvs =? 1 then Some (with_counts kvs key_count non_empty (dict_size_index kvs))
  else
    index ← dict_size_index kvs;
    index ← count_add_loop (S (Z.to_nat (num_dicts kvs))) index (num_dicts kvs) (didx + 1) delta;
    Some (with_counts kvs key_count non_empty (Some index)).

Definition addDictIndexToCursor (kvs : kvstore) (didx cursor : Z) : Z :=
  if num_dicts kvs =? 1 then cursor
  else if didx <? 0 then cursor
  else u64 (cursor <<< num_dicts_bits kvs) ||| didx.

(** The dictionary index and what is left of the cursor. *)
Definition getAndClearDictIndexFromCursor (kvs : kvstore) (cursor : Z) : Z * Z :=
  if num_dicts kvs =? 1 then (0, cursor)
  else (cursor &&& (num_dicts kvs - 1), cursor >>> num_dicts_bits kvs).

Definition createDictIfNeeded (kvs : kvstore) (didx : Z) : option (dict * kvstore) :=
  d ← kvstoreGetDict kvs didx;
  match d with
  | Some d => Some (d, kvs)
  | None =>
      let kvs := with_dicts kvs (<[Z.to_nat didx := Some dictCreate]> (dicts kvs)) in
      Some (dictCreate, with_allocated kvs (allocated_dicts kvs + 1))
  end.

Definition freeDictIfNeeded (kvs : kvstore) (didx : Z) : option kvstore :=
  if (flags kvs &&& KVSTORE_FREE_EMPTY_DICTS) =? 0 then Some kvs
  else
    d ← kvstoreGetDict kvs didx;
    match d with
    | None => Some kvs
    | Some d =>
        if negb (dictSize d =? 0) then Some kvs
        else if pauserehash d >? 0 then Some kvs
        else
          told_last ← dictRelease d;
          let kvs := kvstoreDictBucketChanged kvs (calls d) told_last in
          let kvs := with_dicts kvs (<[Z.to_nat didx := None]> (dicts kvs)) in
          Some (with_allocated kvs (allocated_dicts kvs - 1))
    end.

(** [for (int i = 0; i < kvs->num_dicts; i++) createDictIfNeeded(kvs, i);] *)
Fixpoint create_loop (n : nat) (kvs : kvstore) (i : Z) : option kvstore :=
  match n with
  | O => Some kvs
  | S n => '(_, kvs) ← createDictIfNeeded kvs i; create_loop n kvs (i + 1)
  end.

Definition kvstoreCreate (bits flags : Z) : option kvstore :=
  if negb (bits <=? 16) then None
  else
    let num := 1 <<< bits in
    let kvs := mkKvs flags (repeat None (Z.to_nat num)) num bits 0 0 0 0 0 None in
    kvs ← (if (flags &&& KVSTORE_ALLOCATE_DICTS_ON_DEMAND) =? 0 then create_loop (Z.to_nat num) kvs 0 else Some kvs);
    Some (mkKvs flags (dicts kvs) num bits 0 (allocated_dicts kvs) 0 0 0
            (if num >? 1 then Some (repeat 0 (Z.to_nat (num + 1))) else None)).

(** The loop of [kvstoreEmpty]. *)
Fixpoint empty_loop (n : nat) (kvs : kvstore) (didx : Z) (has_callback : bool) : option kvstore :=
  match n with
  | O => Some kvs
  | S n =>
      d ← kvstoreGetDict kvs didx;
      kvs ← match d with
            | None => Some kvs
            | Some d =>
                d' ← dictEmpty d has_callback;
                freeDictIfNeeded (set_dict kvs didx d d') didx
            end;
      empty_loop n kvs (didx + 1) has_callback
  end.

Definition kvstoreEmpty (kvs : kvstore) (has_callback : bool) : option kvstore :=
  kvs ← empty_loop (Z.to_nat (num_dicts kvs)) kvs 0 has_callback;
  Some (mkKvs (flags kvs) (dicts kvs) (num_dicts kvs) (num_dicts_bits kvs) 0 (allocated_dicts kvs) 0 0 0
          ((fun index => repeat 0 (length index)) <$> dict_size_index kvs)).

(** The calls the dictionaries make when the store is freed. *)
Fixpoint kvstoreRelease (ds : list (option dict)) : option (list (callback K V)) :=
  match ds with
  | [] => Some []
  | None :: ds => kvstoreRelease ds
  | Some d :: ds => cs ← dictRelease d; css ← kvstoreRelease ds; Some (cs ++ css)
  end.

Definition kvstoreFindDictIndexByKeyIndex (kvs : kvstore) (target : Z) : option Z :=
  size ← kvstoreSize kvs;
  if (num_dicts kvs =? 1) || (size =? 0) then Some 0
  else if negb (target <=? size) then None
  else
    index ← dict_size_index kvs;
    find_index_loop (S (S (Z.to_nat (num_dicts_bits kvs)))) index (1 <<< num_dicts_bits kvs) target 0.

(** [randomULong] returns [random]. *)
Definition kvstoreGetFairRandomDictIndex (random : Z) (kvs : kvstore) : option Z :=
  size ← kvstoreSize kvs;
  kvstoreFindDictIndexByKeyIndex kvs (if negb (size =? 0) then random mod size + 1 else 0).

Definition kvstoreGetFirstNonEmptyDictIndex (kvs : kvstore) : option Z :=
  kvstoreFindDictIndexByKeyIndex kvs 1.

Definition kvstoreGetNextNonEmptyDictIndex (kvs : kvstore) (didx : Z) : option Z :=
  if num_dicts kvs =? 1 then if didx =? 0 then Some (-1) else None
  else
    n ← cumulativeKeyCountRead kvs didx;
    let next_key := u64 (n + 1) in
    size ← kvstoreSize kvs;
    if next_key <=? size then kvstoreFindDictIndexByKeyIndex kvs next_key else Some (-1).

Definition kvstoreNumNonEmptyDicts (kvs : kvstore) : Z := non_empty_dicts kvs.
Definition kvstoreNumAllocatedDicts (kvs : kvstore) : Z := allocated_dicts kvs.

(** [onlydidx] is negative for a scan of the whole store; [skip_cb] the callback,
    if there is one.  The cursor, the entries emitted, the store. *)
Definition kvstoreScan (kvs : kvstore) (cursor onlydidx : Z) (skip_cb : option (dict -> bool))
    : option (Z * list (K * V) * kvstore) :=
  let '(didx, cursor) := getAndClearDictIndexFromCursor kvs cursor in
  if (onlydidx >=? 0) && (didx <? onlydidx) && negb (onlydidx <? num_dicts kvs) then None
  else if (onlydidx >=? 0) && (didx >? onlydidx) then Some (0, [], kvs)
  else
    let '(didx, cursor) := if (onlydidx >=? 0) && (didx <? onlydidx) then (onlydidx, 0) else (didx, cursor) in
    d ← kvstoreGetDict kvs didx;
    '(c, out, skip, kvs) ←
      match d with
      | None => Some (0, [], true, kvs)
      | Some d =>
          if (match skip_cb with Some f => f d | None => false end) then Some (0, [], true, kvs)
          else
            '(c, out) ← dictScan d cursor;
            kvs ← freeDictIfNeeded kvs didx;
            Some (c, out, false, kvs)
      end;
    if (c =? 0) || (skip : bool) then
      if onlydidx >=? 0 then Some (0, out, kvs)
      else
        didx ← kvstoreGetNextNonEmptyDictIndex kvs didx;
        if didx =? -1 then Some (0, out, kvs)
        else Some (addDictIndexToCursor kvs didx c, out, kvs)
    else Some (addDictIndexToCursor kvs didx c, out, kvs).

(** ** Operations on one dictionary *)

Section with_type.
Context (type : @dictType K) (dict_can_resize : dictResizeEnable) (indet : V).

(** The loop of [kvstoreExpand] and its result; [try_alloc] as for [dictTryExpand]. *)
Fixpoint expand_loop (n : nat) (kvs : kvstore) (i newsize : Z) (try_expand : option (Z -> bool))
    (skip_cb : Z -> bool) : option (bool * kvstore) :=
  match n with
  | O => Some (true, kvs)
  | S n =>
      d ← kvstoreGetDict kvs i;
      match d with
      | None => expand_loop n kvs (i + 1) newsize try_expand skip_cb
      | Some d =>
          if skip_cb i then expand_loop n kvs (i + 1) newsize try_expand skip_cb
          else
            '(result, d') ← match try_expand with
                            | Some f => dictTryExpand type dict_can_resize f d newsize
                            | None => dictExpand type dict_can_resize d newsize
                            end;
            let kvs := set_dict kvs i d d' in
            if bool_decide (is_Some try_expand) && bool_decide (result = DICT_ERR) then Some (false, kvs)
            else expand_loop n kvs (i + 1) newsize try_expand skip_cb
      end
  end.

Definition kvstoreExpand (kvs : kvstore) (newsize : Z) (try_expand : option (Z -> bool)) (skip_cb : Z -> bool)
    : option (bool * kvstore) :=
  expand_loop (Z.to_nat (num_dicts kvs)) kvs 0 newsize try_expand skip_cb.

(** The loop of [kvstoreTryResizeDicts]. *)
Fixpoint resize_loop (n : nat) (kvs : kvstore) : option kvstore :=
  match n with
  | O => Some kvs
  | S n =>
      let didx := resize_cursor kvs in
      d ← kvstoreGetDict kvs didx;
      kvs ← match d with
            | None => Some kvs
            | Some d =>
                '(r, d') ← dictShrinkIfNeeded type dict_can_resize d;
                d' ← (if bool_decide (r = DICT_ERR) then snd <$> dictExpandIfNeeded type dict_can_resize d'
                      else Some d');
                Some (set_dict kvs didx d d')
            end;
      resize_loop n (with_resize_cursor kvs ((didx + 1) mod num_dicts kvs))
  end.

Definition kvstoreTryResizeDicts (kvs : kvstore) (limit : Z) : option kvstore :=
  let limit := if limit >? num_dicts kvs then num_dicts kvs else limit in
  resize_loop (Z.to_nat limit) kvs.

Definition kvstoreDictExpand (kvs : kvstore) (didx size : Z) : option (status * kvstore) :=
  d ← kvstoreGetDict kvs didx;
  match d with
  | None => Some (DICT_ERR, kvs)
  | Some d => '(st, d') ← dictExpand type dict_can_resize d size; Some (st, set_dict kvs didx d d')
  end.

Definition kvstoreDictFind (kvs : kvstore) (didx : Z) (key : K) : option (option (K * V) * kvstore) :=
  d ← kvstoreGetDict kvs didx;
  match d with
  | None => Some (None, kvs)
  | Some d => '(e, d') ← dictFind type dict_can_resize d key; Some (e, set_dict kvs didx d d')
  end.

Definition kvstoreDictFetchValue (kvs : kvstore) (didx : Z) (key : K) : option (option V * kvstore) :=
  d ← kvstoreGetDict kvs didx;
  match d with
  | None => Some (None, kvs)
  | Some d => '(v, d') ← dictFetchValue type dict_can_resize d key; Some (v, set_dict kvs didx d d')
  end.

(** The new entry ([inl]) or the existing one. *)
Definition kvstoreDictAddRaw (kvs : kvstore) (didx : Z) (key : K) : option ((link + link) * kvstore) :=
  '(d, kvs) ← createDictIfNeeded kvs didx;
  '(ret, d') ← dictAddRaw type dict_can_resize indet d key;
  let kvs := set_dict kvs didx d d' in
  match ret with
  | inl _ => kvs ← cumulativeKeyCountAdd kvs didx 1; Some (ret, kvs)
  | inr _ => Some (ret, kvs)
  end.

Definition kvstoreDictSetVal (kvs : kvstore) (didx : Z) (de : link) (val : V) : option kvstore :=
  d ← kvstoreGetDict kvs didx;
  d ← d;
  d' ← dictSetVal d de val;
  Some (set_dict kvs didx d d').

Definition kvstoreDictTwoPhaseUnlinkFind (kvs : kvstore) (didx : Z) (key : K) : option (option link * kvstore) :=
  d ← kvstoreGetDict kvs didx;
  match d with
  | None => Some (None, kvs)
  | Some d => '(l, d') ← dictTwoPhaseUnlinkFind type dict_can_resize d key; Some (l, set_dict kvs didx d d')
  end.

Definition kvstoreDictTwoPhaseUnlinkFree (kvs : kvstore) (didx : Z) (plink : option link) (table_index : bool)
    : option kvstore :=
  d ← kvstoreGetDict kvs didx;
  d ← d;
  d' ← dictTwoPhaseUnlinkFree type dict_can_resize d plink table_index;
  kvs ← cumulativeKeyCountAdd (set_dict kvs didx d d') didx (-1);
  freeDictIfNeeded kvs didx.

Definition kvstoreDictDelete (kvs : kvstore) (didx : Z) (key : K) : option (status * kvstore) :=
  d ← kvstoreGetDict kvs didx;
  match d with
  | None => Some (DICT_ERR, kvs)
  | Some d =>
      '(ret, d') ← dictDelete type dict_can_resize d key;
      let kvs := set_dict kvs didx d d' in
      if bool_decide (ret = DICT_OK) then
        kvs ← cumulativeKeyCountAdd kvs didx (-1);
        kvs ← freeDictIfNeeded kvs didx;
        Some (ret, kvs)
      else Some (ret, kvs)
  end.
End with_type.
End kvstore.
