(* ===== verification/KvstoreIndex.v ===== *)
(** * The binary indexed tree of kvstore.c

    [bit_ok tree sizes]: entry [i] of the tree is the sum of the sizes with the
    numbers from [i - (i & -i)] up to [i] (excluded).  Reading, updating and
    searching the tree agree with the prefix sums of the sizes. *)

From S2P Require Import Prelude Dict DictSpec Kvstore.

(** ** The lowest bit *)

Lemma land_double a b : (2 * a) &&& (2 * b) = 2 * (a &&& b).
Proof.
  rewrite !(Z.mul_comm 2), <- !(Z.shiftl_mul_pow2 _ 1) by lia. by rewrite Z.shiftl_land.
Qed.

Lemma land_odd_neg m : (2 * m + 1) &&& (- (2 * m + 1)) = 1.
Proof.
  replace (- (2 * m + 1)) with (2 * Z.lnot m + 1) by (pose proof (Z.add_lnot_diag m); lia).
  apply Z.bits_inj'. intros n Hn. rewrite Z.land_spec.
  destruct (decide (n = 0)) as [->|Hn0]; [by rewrite !Z.testbit_odd_0|].
  replace n with (Z.succ (n - 1)) by lia. rewrite !Z.testbit_odd_succ, Z.lnot_spec by lia.
  rewrite andb_negb_r. by rewrite (Z.testbit_odd_succ 0), Z.bits_0 by lia.
Qed.

Lemma lowbit_spec i :
  0 < i -> exists k m, 0 <= k /\ 0 <= m /\ i = 2 ^ k * (2 * m + 1) /\ lowbit i = 2 ^ k.
Proof.
  unfold lowbit. destruct i as [|p|p]; try lia. intros _. induction p as [p IH|p IH|].
  - exists 0, (Z.pos p). rewrite Z.pow_0_r. replace (Z.pos p~1) with (2 * Z.pos p + 1) by lia.
    rewrite land_odd_neg. lia.
  - destruct IH as (k & m & Hk & Hm & Hp & Hl). exists (Z.succ k), m.
    rewrite Z.pow_succ_r by lia. replace (Z.pos p~0) with (2 * Z.pos p) by lia.
    rewrite <- Z.mul_opp_r, land_double, Hl. lia.
  - exists 0, 0. done.
Qed.

Lemma lowbit_pos i : 0 < i -> 0 < lowbit i <= i.
Proof. intros Hi. destruct (lowbit_spec i Hi) as (k & m & ? & ? & ? & ->). nia. Qed.

Lemma lowbit_odd k m : 0 <= k -> 0 <= m -> lowbit (2 ^ k * (2 * m + 1)) = 2 ^ k.
Proof.
  intros Hk Hm. unfold lowbit. rewrite <- Z.mul_opp_r, !(Z.mul_comm (2 ^ k)).
  rewrite <- !Z.shiftl_mul_pow2 by done. by rewrite <- Z.shiftl_land, land_odd_neg, Z.shiftl_1_l.
Qed.

(** Node [i] of the tree sums up the position [j] (from 1). *)
Definition covers (i j : Z) : Prop := i - lowbit i < j <= i.

(** Comparable powers of two divide one another. *)
Lemma pow2_le_mul a b : 0 <= a <= b -> exists q, 1 <= q /\ 2 ^ b = 2 ^ a * q.
Proof.
  intros H. exists (2 ^ (b - a)). split.
  - pose proof (Z.pow_pos_nonneg 2 (b - a)); lia.
  - rewrite <- Z.pow_add_r by lia. f_equal. lia.
Qed.

Lemma covers_scale c x w y : 0 < c -> c * x - c * w < c * y <= c * x <-> x - w < y <= x.
Proof. intros. nia. Qed.

(** The nodes that sum up [j] are [j] itself and the ones that sum up
    [j + lowbit j]. *)
Lemma covers_step i j :
  0 < i -> 0 < j -> covers i j <-> i = j \/ covers i (j + lowbit j).
Proof.
  intros Hi Hj. unfold covers.
  destruct (lowbit_spec i Hi) as (a & p & Ha & Hp & Ei & Li).
  destruct (lowbit_spec j Hj) as (b & q & Hb & Hq & Ej & Lj).
  rewrite Li, Lj, Ei, Ej. clear Li Lj Ei Ej Hi Hj.
  assert (Hscale : forall c x w y y', 0 < c ->
    (x - w < y <= x <-> x = y \/ x - w < y' <= x) ->
    (c * x - c * w < c * y <= c * x <-> c * x = c * y \/ c * x - c * w < c * y' <= c * x)).
  { intros c x w y y' Hc Hxy. rewrite !covers_scale, Z.mul_cancel_l by lia. done. }
  destruct (Z.lt_trichotomy a b) as [Hlt|[<-|Hlt]].
  - destruct (pow2_le_mul (a + 1) b) as (r & Hr & Er); [lia|].
    rewrite Z.pow_add_r in Er by lia. change (2 ^ 1) with 2 in Er. rewrite Er.
    specialize (Hscale (2 ^ a) (2 * p + 1) 1 (2 * (r * (2 * q + 1)))
                  (2 * (r * (2 * q + 1)) + 2 * r)).
    pose proof (Z.pow_pos_nonneg 2 a). lia.
  - specialize (Hscale (2 ^ a) (2 * p + 1) 1 (2 * q + 1) (2 * q + 1 + 1)).
    pose proof (Z.pow_pos_nonneg 2 a). lia.
  - destruct (pow2_le_mul (b + 1) a) as (r & Hr & Er); [lia|].
    rewrite Z.pow_add_r in Er by lia. change (2 ^ 1) with 2 in Er. rewrite Er.
    specialize (Hscale (2 ^ b) (2 * (r * (2 * p + 1))) (2 * r) (2 * q + 1) (2 * q + 1 + 1)).
    pose proof (Z.pow_pos_nonneg 2 b). lia.
Qed.

(** ** Prefix sums *)

Definition zsum (l : list Z) : Z := foldr Z.add 0 l.
Definition psum (sizes : list Z) (k : Z) : Z := zsum (take (Z.to_nat k) sizes).

Lemma zsum_app a b : zsum (a ++ b) = zsum a + zsum b.
Proof. unfold zsum. induction a; cbn; lia. Qed.

Lemma zsum_nonneg l : Forall (Z.le 0) l -> 0 <= zsum l.
Proof. unfold zsum. induction 1; cbn; lia. Qed.

Lemma psum_0 sizes k : k <= 0 -> psum sizes k = 0.
Proof. intros. unfold psum. by replace (Z.to_nat k) with 0%nat by lia. Qed.

Lemma psum_all sizes k : zlen sizes <= k -> psum sizes k = zsum sizes.
Proof. intros. unfold psum. rewrite take_ge; [done|]. unfold zlen in *. lia. Qed.

Lemma psum_split sizes j k :
  j <= k -> exists m, psum sizes k = psum sizes j + zsum m /\ forall x, x ∈ m -> x ∈ sizes.
Proof.
  intros H. unfold psum. rewrite <- (take_drop (Z.to_nat j) (take (Z.to_nat k) sizes)).
  rewrite zsum_app, take_take, Nat.min_l by lia. eexists. split; [done|].
  intros x Hx. apply list_elem_of_lookup in Hx as [i Hi]. rewrite lookup_drop in Hi.
  apply lookup_take_Some in Hi as [Hi _]. by eapply list_elem_of_lookup_2.
Qed.

Lemma psum_mono sizes j k : Forall (Z.le 0) sizes -> j <= k -> psum sizes j <= psum sizes k.
Proof.
  intros Hs Hjk. destruct (psum_split sizes j k Hjk) as (m & -> & Hm).
  assert (0 <= zsum m); [|lia]. apply zsum_nonneg, Forall_forall. intros x Hx.
  rewrite Forall_forall in Hs. auto.
Qed.

Lemma psum_step sizes k v : 0 <= k -> sizes !! Z.to_nat k = Some v -> psum sizes (k + 1) = psum sizes k + v.
Proof.
  intros Hk Hv. unfold psum. replace (Z.to_nat (k + 1)) with (S (Z.to_nat k)) by lia.
  rewrite (take_S_r _ _ _ Hv), zsum_app. unfold zsum; cbn. lia.
Qed.

(** Changing one size. *)
Lemma psum_insert sizes j v v' k :
  0 <= j -> sizes !! Z.to_nat j = Some v ->
  psum (<[Z.to_nat j := v']> sizes) k = psum sizes k + (if j <? k then v' - v else 0).
Proof.
  intros Hj Hv. unfold psum. destruct (Z.ltb_spec j k).
  - rewrite take_insert_lt by lia.
    pose proof (lookup_take_lt sizes (Z.to_nat k) (Z.to_nat j) ltac:(lia)) as Hl. rewrite Hv in Hl.
    generalize dependent (take (Z.to_nat k) sizes). intros l Hl.
    rewrite <- (take_drop_middle l _ _ Hl) at 2. rewrite insert_take_drop by (by eapply lookup_lt_Some).
    rewrite !zsum_app. unfold zsum; cbn. lia.
  - rewrite take_insert_ge by lia. lia.
Qed.

(** ** The tree *)

Section tree.
Context (n : Z) (sizes : list Z).
Context (Hn : zlen sizes = n) (Hnn : Forall (Z.le 0) sizes) (Hmax : zsum sizes < 2 ^ 64).

Definition bit_ok (tree : list Z) : Prop :=
  zlen tree = n + 1 /\
  forall i, 1 <= i <= n -> mget tree i = Some (psum sizes i - psum sizes (i - lowbit i)).

Lemma psum_bounds k : 0 <= psum sizes k <= zsum sizes.
Proof.
  split; [apply zsum_nonneg, Forall_take, Hnn|].
  rewrite <- (psum_all sizes (Z.max k (zlen sizes))) by lia. apply psum_mono; [done|lia].
Qed.

Lemma count_read_spec tree fuel : forall idx sum,
  bit_ok tree -> 0 <= idx <= n -> idx <= Z.of_nat fuel -> 0 <= sum -> sum + psum sizes idx < 2 ^ 64 ->
  count_read_loop fuel tree idx sum = Some (sum + psum sizes idx).
Proof.
  induction fuel as [|fuel IH]; intros idx sum Hok Hi Hf Hs Hb; cbn [count_read_loop].
  - destruct (Z.gtb_spec idx 0); [lia|]. rewrite psum_0 by lia. f_equal. lia.
  - destruct (Z.gtb_spec idx 0); [|rewrite psum_0 by lia; f_equal; lia].
    destruct Hok as [Hl Hok]. rewrite Hok by lia. sbind.
    pose proof (lowbit_pos idx). pose proof (psum_bounds (idx - lowbit idx)).
    pose proof (psum_mono sizes (idx - lowbit idx) idx Hnn).
    rewrite wrap_small by lia. rewrite IH by (try done; lia). f_equal. lia.
Qed.

(** The nodes changed by an update from [idx] are those that cover it. *)
Lemma count_add_spec delta fuel : forall tree idx,
  zlen tree = n + 1 -> 1 <= idx -> n + 1 - idx <= Z.of_nat fuel ->
  (forall i, 1 <= i <= n -> covers i idx -> exists v, mget tree i = Some v /\ 0 <= v /\ 0 <= v + delta < 2 ^ 64) ->
  exists tree', count_add_loop fuel tree n idx delta = Some tree' /\ zlen tree' = n + 1 /\
    forall i, 1 <= i <= n ->
      (covers i idx -> exists v, mget tree i = Some v /\ mget tree' i = Some (v + delta)) /\
      (~ covers i idx -> mget tree' i = mget tree i).
Proof.
  induction fuel as [|fuel IH]; intros tree idx Hl Hidx Hf Hc; cbn [count_add_loop].
  - destruct (Z.leb_spec idx n); [lia|]. exists tree. split; [done|]. split; [done|].
    intros i Hi. split; [unfold covers; lia|done].
  - destruct (Z.leb_spec idx n) as [Hle|Hgt].
    2:{ exists tree. split; [done|]. split; [done|]. intros i Hi. split; [unfold covers; lia|done]. }
    pose proof (lowbit_pos idx ltac:(lia)) as Hlow.
    destruct (Hc idx ltac:(lia)) as (v & Hv & Hv0 & Hvd); [unfold covers; lia|]. rewrite Hv. sbind.
    destruct ((delta <? 0) && negb (v >=? Z.abs delta)) eqn:E.
    { exfalso. rewrite andb_true_iff, negb_true_iff, Z.ltb_lt, Z.geb_leb, Z.leb_gt in E. lia. }
    rewrite wrap_small by lia.
    set (tree1 := <[Z.to_nat idx := v + delta]> tree).
    assert (Hg : forall i, 0 <= i -> mget tree1 i = if i =? idx then Some (v + delta) else mget tree i).
    { intros i Hi. unfold tree1. rewrite !mget_lookup by lia. destruct (Z.eqb_spec i idx) as [->|].
      - apply list_lookup_insert_eq. unfold zlen in Hl. lia.
      - apply list_lookup_insert_ne. lia. }
    destruct (IH tree1 (idx + lowbit idx)) as (tree' & -> & Hl' & Hspec).
    { unfold tree1, zlen in *. by rewrite length_insert. } { lia. } { lia. }
    { intros i Hi Hcov. rewrite Hg by lia. destruct (Z.eqb_spec i idx) as [->|]; [unfold covers in Hcov; lia|].
      apply Hc; [lia|]. apply covers_step; [lia..|]. by right. }
    exists tree'. split; [done|]. split; [done|]. intros i Hi.
    destruct (Hspec i Hi) as [Hin Hout]. rewrite Hg in Hin, Hout by lia. rewrite covers_step by lia.
    destruct (Z.eqb_spec i idx) as [->|Hne].
    + split; [|tauto]. intros _. exists v. split; [done|]. apply Hout. unfold covers. lia.
    + split; [intros [?|?]; [done|by apply Hin]|intros Hno; apply Hout; tauto].
Qed.

Lemma find_index_step fuel tree i target result :
  find_index_loop (S fuel) tree i target result =
    if i =? 0 then Some result
    else x ← mget tree (result + i);
         if target >? x then find_index_loop fuel tree (i >>> 1) (target - x) (result + i)
         else find_index_loop fuel tree (i >>> 1) target result.
Proof. done. Qed.

(** Searching for the [target]-th key from a node whose subtree has it. *)
Lemma find_index_spec tree k : forall fuel target result m,
  bit_ok tree -> (k < fuel)%nat -> 0 <= m -> result = 2 ^ Z.of_nat (S k) * m ->
  result + 2 ^ Z.of_nat (S k) <= n ->
  0 < target <= psum sizes (result + 2 ^ Z.of_nat (S k)) - psum sizes result ->
  exists r, find_index_loop (S fuel) tree (2 ^ Z.of_nat k) target result = Some r /\
    result <= r < result + 2 ^ Z.of_nat (S k) /\
    psum sizes r < target + psum sizes result <= psum sizes (r + 1).
Proof.
  induction k as [|k IH]; intros fuel target result m Hok Hf Hm Hres Hle Ht;
    destruct fuel as [|fuel]; [lia| |lia|].
  1: rewrite (Nat2Z.inj_succ 0), Z.pow_succ_r in Hres, Hle, Ht |- * by lia; set (i := 2 ^ Z.of_nat 0) in *.
  2: rewrite (Nat2Z.inj_succ (S k)), Z.pow_succ_r in Hres, Hle, Ht |- * by lia; set (i := 2 ^ Z.of_nat (S k)) in *.
  all: assert (Hi : 0 < i) by (apply Z.pow_pos_nonneg; lia).
  all: assert (Hcur : mget tree (result + i) = Some (psum sizes (result + i) - psum sizes result))
    by (destruct Hok as [_ Hok]; rewrite Hok by nia;
        replace (lowbit (result + i)) with i;
        [do 2 f_equal; f_equal; lia
        |replace (result + i) with (i * (2 * m + 1)) by lia; symmetry; apply lowbit_odd; lia]).
  - rewrite find_index_step. destruct (Z.eqb_spec i 0); [lia|]. rewrite Hcur. sbind.
    change (i >>> 1) with 0. change (0 =? 0) with true. cbv iota. change i with 1 in *.
    destruct (Z.gtb_spec target (psum sizes (result + 1) - psum sizes result)).
    + exists (result + 1). split; [done|]. split; [lia|].
      replace (result + 1 + 1) with (result + 2 * 1) by lia. lia.
    + exists result. split; [done|]. lia.
  - rewrite find_index_step. destruct (Z.eqb_spec i 0); [lia|]. rewrite Hcur. sbind.
    assert (Hsh : i >>> 1 = 2 ^ Z.of_nat k).
    { unfold i. rewrite shiftr_div, Nat2Z.inj_succ, Z.pow_succ_r by lia. change (2 ^ 1) with 2.
      by rewrite Z.mul_comm, Z.div_mul. }
    rewrite Hsh.
    destruct (Z.gtb_spec target (psum sizes (result + i) - psum sizes result)).
    + destruct (IH fuel (target - (psum sizes (result + i) - psum sizes result)) (result + i) (2 * m + 1))
        as (r & -> & Hr1 & Hr2); fold i; try done; try lia.
      * replace (result + i + i) with (result + 2 * i) by lia. lia.
      * exists r. split; [done|]. fold i in Hr1. lia.
    + destruct (IH fuel target result (2 * m)) as (r & -> & Hr1 & Hr2); fold i; try done; try lia.
      exists r. split; [done|]. fold i in Hr1. lia.
Qed.
End tree.
