(* ===== verification/KvstoreSpec.v ===== *)
(** * The key-value store is an array of finite maps

    [kwf] is the invariant of the store: every dictionary is well formed and the
    counters and the tree agree with the dictionaries.  The operations keep it,
    never fail, and are the ones of an array of finite maps. *)

From stdpp Require Import gmap.
From S2P Require Import Prelude Dict DictSpec DictMap DictRefine Kvstore KvstoreIndex.

(** ** Sums over the array *)

Lemma zsum_insert (l : list Z) i v v' : l !! i = Some v -> zsum (<[i := v']> l) = zsum l + (v' - v).
Proof.
  intros H. rewrite <- (take_drop_middle l i v H) at 2. rewrite insert_take_drop by (by eapply lookup_lt_Some).
  rewrite !zsum_app. unfold zsum; cbn. lia.
Qed.

Lemma zsum_repeat_0 n : zsum (repeat 0 n) = 0.
Proof. unfold zsum. induction n; cbn; lia. Qed.

Lemma fmap_repeat {A B} (f : A -> B) x n : f <$> repeat x n = repeat (f x) n.
Proof. induction n; cbn; [done|]. f_equal. done. Qed.

Lemma lookup_repeat {A} (x : A) n i : (i < n)%nat -> repeat x n !! i = Some x.
Proof. revert i; induction n as [|n IH]; intros [|i] Hi; cbn; try lia; [done|]. apply IH. lia. Qed.

Lemma take_repeat {A} (x : A) n k : take k (repeat x n) = repeat x (Nat.min k n).
Proof. revert k; induction n as [|n IH]; intros [|k]; cbn; try done. by rewrite IH. Qed.

Lemma zsum_member (l : list Z) i v : Forall (Z.le 0) l -> l !! i = Some v -> v <= zsum l.
Proof.
  intros Hl Hv. rewrite <- (take_drop_middle l i v Hv), zsum_app.
  pose proof (zsum_nonneg (take i l) (Forall_take _ _ _ Hl)).
  pose proof (zsum_nonneg (drop (S i) l) (Forall_drop _ _ _ Hl)). unfold zsum in *; cbn. lia.
Qed.

Section spec.
Context {K V C : Type} `{EqDecision K} `{Countable C}.
Context (type : @dictType K) (canon : K -> C) `{!DictKeys type canon}.
Context (indet : V).

Abbreviation dict := (@dict K V).
Abbreviation kvstore := (@kvstore K V).
Abbreviation wf := (wf type canon).
Abbreviation same := (same type canon).
Abbreviation dict_map := (dict_map canon).
Abbreviation told := (@told K V).
Implicit Types d : dict.
Implicit Types kvs : kvstore.

(** ** The invariant *)

Definition slot_size (od : option dict) : Z := match od with Some d => dictSize d | None => 0 end.
Definition slot_map (od : option dict) : gmap C (K * V) :=
  match od with Some d => dict_map d | None => ∅ end.
Definition slot_buckets (od : option dict) : Z := match od with Some d => told (calls d) | None => 0 end.
Definition slot_alloc (od : option dict) : Z := match od with Some _ => 1 | None => 0 end.
Definition nonzero (n : Z) : Z := if n =? 0 then 0 else 1.

Definition sizes kvs : list Z := slot_size <$> dicts kvs.
(** The array of maps the store stands for. *)
Definition kvs_maps kvs : list (gmap C (K * V)) := slot_map <$> dicts kvs.

(** The dictionaries, and the counters that every operation on them updates. *)
Record kdicts kvs : Prop := {
  kd_bits : 0 <= num_dicts_bits kvs <= 16;
  kd_num : num_dicts kvs = 2 ^ num_dicts_bits kvs;
  kd_len : zlen (dicts kvs) = num_dicts kvs;
  kd_wf : forall i d, dicts kvs !! i = Some (Some d) -> wf d /\ pauseAutoResize d = 0;
  kd_alloc : allocated_dicts kvs = zsum (slot_alloc <$> dicts kvs);
  kd_buckets : bucket_count kvs = u64 (zsum (slot_buckets <$> dicts kvs));
  kd_cursor : 0 <= resize_cursor kvs < num_dicts kvs;
}.

(** The counters of the keys, for the given sizes of the dictionaries. *)
Record kcounts kvs (szs : list Z) : Prop := {
  kc_len : zlen szs = num_dicts kvs;
  kc_nonneg : Forall (Z.le 0) szs;
  kc_max : zsum szs < 2 ^ 64;
  kc_keys : key_count kvs = zsum szs;
  kc_nonempty : non_empty_dicts kvs = zsum (nonzero <$> szs);
  kc_index : if num_dicts kvs =? 1 then dict_size_index kvs = None
             else exists tree, dict_size_index kvs = Some tree /\ bit_ok (num_dicts kvs) szs tree;
}.

Definition kwf kvs : Prop := kdicts kvs /\ kcounts kvs (sizes kvs).

(** What an operation on a dictionary leaves alone. *)
Definition kframe kvs kvs' : Prop :=
  flags kvs' = flags kvs /\ num_dicts kvs' = num_dicts kvs /\ num_dicts_bits kvs' = num_dicts_bits kvs
  /\ key_count kvs' = key_count kvs /\ non_empty_dicts kvs' = non_empty_dicts kvs
  /\ dict_size_index kvs' = dict_size_index kvs.

Lemma kframe_counts kvs kvs' szs : kframe kvs kvs' -> kcounts kvs szs -> kcounts kvs' szs.
Proof.
  intros (_ & En & _ & Ek & Ee & Ei) [H1 H2 H3 H4 H5 H6].
  constructor; rewrite ?En, ?Ek, ?Ee, ?Ei; done.
Qed.

Lemma kframe_trans k1 k2 k3 : kframe k1 k2 -> kframe k2 k3 -> kframe k1 k3.
Proof. unfold kframe. intuition congruence. Qed.

(** The index is one of the array. *)
Definition valid kvs (didx : Z) : Prop := 0 <= didx < num_dicts kvs.

Lemma get_valid kvs didx :
  kdicts kvs -> valid kvs didx ->
  exists od, kvstoreGetDict kvs didx = Some od /\ dicts kvs !! Z.to_nat didx = Some od.
Proof.
  intros Hk [H0 H1]. unfold kvstoreGetDict. zcase. rewrite <- (kd_len _ Hk) in H1.
  destruct (lookup_lt_is_Some_2 (dicts kvs) (Z.to_nat didx)) as [od Hod]; [unfold zlen in H1; lia|].
  exists od. done.
Qed.

Lemma get_lookup kvs didx od : kvstoreGetDict kvs didx = Some od -> 0 <= didx /\ dicts kvs !! Z.to_nat didx = Some od.
Proof. unfold kvstoreGetDict. destruct (Z.leb_spec 0 didx); done. Qed.

Lemma slot_size_map od : (forall d, od = Some d -> wf d) -> slot_size od = Z.of_nat (size (slot_map od)).
Proof.
  intros Hw. destruct od as [d|]; cbn; [by apply dictSize_map with (type := type); auto|].
  by rewrite map_size_empty.
Qed.

Lemma map_sizes kvs : kdicts kvs -> sizes kvs = (fun m => Z.of_nat (size m)) <$> kvs_maps kvs.
Proof.
  intros Hk. unfold sizes, kvs_maps. rewrite <- list_fmap_compose. apply list_fmap_ext. intros i od Hod.
  cbn. apply slot_size_map. intros d ->. by eapply kd_wf.
Qed.

(** ** Replacing a dictionary *)

Lemma lookup_insert_slot kvs (i : Z) od' : forall j d,
  <[Z.to_nat i := od']> (dicts kvs) !! j = Some (Some d) -> od' = Some d \/ dicts kvs !! j = Some (Some d).
Proof.
  intros j d Hj. apply list_lookup_insert_Some in Hj as [(_ & -> & _)|[_ Hj]]; auto.
Qed.

Lemma slot_sum_insert (f : option dict -> Z) kvs i od od' :
  dicts kvs !! Z.to_nat i = Some od ->
  zsum (f <$> <[Z.to_nat i := od']> (dicts kvs)) = zsum (f <$> dicts kvs) + (f od' - f od).
Proof.
  intros Hod. rewrite list_fmap_insert. apply zsum_insert. by rewrite list_lookup_fmap, Hod.
Qed.

Lemma set_dict_spec kvs didx d d' :
  kdicts kvs -> kvstoreGetDict kvs didx = Some (Some d) -> wf d' -> pauseAutoResize d' = 0 ->
  kdicts (set_dict kvs didx d d') /\ kframe kvs (set_dict kvs didx d d')
  /\ kvstoreGetDict (set_dict kvs didx d d') didx = Some (Some d')
  /\ sizes (set_dict kvs didx d d') = <[Z.to_nat didx := dictSize d']> (sizes kvs)
  /\ kvs_maps (set_dict kvs didx d d') = <[Z.to_nat didx := dict_map d']> (kvs_maps kvs).
Proof.
  intros [H1 H2 H3 H4 H5 H6 H7] [H0 Hd]%get_lookup W' Hp'.
  pose proof (lookup_lt_Some _ _ _ Hd) as Hlt. unfold set_dict. split; [|split; [done|split; [|split]]].
  - constructor; cbn; try done.
    + unfold zlen in *. by rewrite length_insert.
    + intros j x Hx. destruct (lookup_insert_slot _ _ _ _ _ Hx) as [[= ->]|Hx']; eauto.
    + rewrite (slot_sum_insert _ _ _ _ _ Hd). cbn. lia.
    + rewrite (slot_sum_insert _ _ _ _ _ Hd). cbn. rewrite H6. unfold wrap.
      by rewrite Zplus_mod_idemp_l.
  - unfold kvstoreGetDict; cbn. zcase. by apply list_lookup_insert_eq.
  - unfold sizes; cbn. by rewrite list_fmap_insert.
  - unfold kvs_maps; cbn. by rewrite list_fmap_insert.
Qed.

(** ** The counters *)

Lemma nonzero_change n delta :
  delta = 1 \/ delta = -1 -> 0 <= n -> 0 <= n + delta ->
  (if (n + delta =? 1) && (delta >? 0) then 1 else if n + delta =? 0 then -1 else 0) = nonzero (n + delta) - nonzero n.
Proof. unfold nonzero. intros Hd Hn Hn'. zcase; cbn; lia. Qed.

Lemma bit_ok_update n szs tree j v delta :
  zlen szs = n -> Forall (Z.le 0) szs -> zsum szs < 2 ^ 64 -> bit_ok n szs tree ->
  0 <= j < n -> szs !! Z.to_nat j = Some v -> 0 <= v + delta -> zsum szs + delta < 2 ^ 64 ->
  exists tree', count_add_loop (S (Z.to_nat n)) tree n (j + 1) delta = Some tree'
    /\ bit_ok n (<[Z.to_nat j := v + delta]> szs) tree'.
Proof.
  intros Hl Hnn Hmax [Htl Hok] Hj Hv Hvd Hsum.
  pose proof (psum_step szs j v ltac:(lia) Hv) as Hstep.
  assert (Hcov : forall i, 1 <= i <= n -> covers i (j + 1) ->
     v <= psum szs i - psum szs (i - lowbit i) <= zsum szs).
  { intros i Hi [Hc1 Hc2]. pose proof (psum_mono szs (i - lowbit i) j Hnn ltac:(lia)).
    pose proof (psum_mono szs (j + 1) i Hnn ltac:(lia)).
    pose proof (psum_bounds szs Hnn i). pose proof (psum_bounds szs Hnn (i - lowbit i)). lia. }
  destruct (count_add_spec n delta (S (Z.to_nat n)) tree (j + 1)) as (tree' & -> & Hl' & Hspec); [done|lia|lia|..].
  { intros i Hi Hc. specialize (Hcov i Hi Hc). eexists. split; [by apply Hok|].
    assert (0 <= v) by (rewrite Forall_forall in Hnn; apply Hnn; by eapply list_elem_of_lookup_2). lia. }
  exists tree'. split; [done|]. split; [done|]. intros i Hi. destruct (Hspec i Hi) as [Hin Hout].
  rewrite !(psum_insert szs j v (v + delta)) by (try done; lia).
  destruct (decide (covers i (j + 1))) as [Hc|Hc].
  - destruct (Hin Hc) as (x & Hx & ->). rewrite Hok in Hx by done. simplify_eq. f_equal.
    unfold covers in Hc. zcase.
  - rewrite Hout, Hok by done. f_equal. pose proof (lowbit_pos i ltac:(lia)). unfold covers in Hc. zcase.
Qed.

Lemma keyCountAdd_spec kvs szs didx d v delta :
  kdicts kvs -> kcounts kvs szs -> kvstoreGetDict kvs didx = Some (Some d) -> valid kvs didx ->
  szs !! Z.to_nat didx = Some v -> dictSize d = v + delta -> delta = 1 \/ delta = -1 -> 0 <= v + delta ->
  zsum szs + delta < 2 ^ 64 ->
  exists kvs', cumulativeKeyCountAdd kvs didx delta = Some kvs' /\ kdicts kvs'
    /\ dicts kvs' = dicts kvs /\ flags kvs' = flags kvs /\ num_dicts kvs' = num_dicts kvs
    /\ kcounts kvs' (<[Z.to_nat didx := dictSize d]> szs).
Proof.
  intros Hk [C1 C2 C3 C4 C5 C6] Hd Hval Hv Hsz Hdelta Hnn Hmax.
  assert (Hv0 : 0 <= v) by (rewrite Forall_forall in C2; apply C2; by eapply list_elem_of_lookup_2).
  pose proof (zsum_member _ _ _ C2 Hv) as Hle.
  unfold cumulativeKeyCountAdd. rewrite Hd. sbind. rewrite Hsz.
  rewrite nonzero_change by done. rewrite C4, (wrap_small 64) by lia.
  set (szs' := <[_ := _]> szs).
  assert (Hc' : zlen szs' = num_dicts kvs /\ Forall (Z.le 0) szs' /\ zsum szs' = zsum szs + delta
    /\ zsum (nonzero <$> szs') = non_empty_dicts kvs + (nonzero (v + delta) - nonzero v)).
  { unfold szs'. split; [unfold zlen in *; by rewrite length_insert|]. split; [by apply Forall_insert|].
    split; [rewrite (zsum_insert _ _ _ _ Hv); lia|].
    rewrite list_fmap_insert, C5. apply zsum_insert. by rewrite list_lookup_fmap, Hv. }
  destruct Hc' as (D1 & D2 & D3 & D4).
  destruct (Z.eqb_spec (num_dicts kvs) 1) as [E1|E1].
  - eexists. split; [done|]. split; [by destruct Hk|]. split; [done|]. split; [done|]. split; [done|].
    constructor; cbn; try lia; [done|]. by rewrite E1.
  - destruct C6 as (tree & -> & Hok). sbind.
    destruct (bit_ok_update _ _ _ didx v delta C1 C2 C3 Hok Hval Hv Hnn Hmax) as (tree' & -> & Hok'). sbind.
    eexists. split; [done|]. split; [by destruct Hk|]. split; [done|]. split; [done|]. split; [done|].
    constructor; cbn; try lia; [done|]. destruct (Z.eqb_spec (num_dicts kvs) 1); [lia|]. eauto.
Qed.

(** ** Creating and freeing dictionaries *)

Lemma release_spec d : wf d -> exists cs, dictRelease d = Some cs /\ told cs = 0.
Proof.
  intros W. destruct (tell_release_spec type canon d W) as (Ht & _ & E0 & E1). unfold dictRelease.
  set (d1 := call (tell_release d) onDictRelease).
  assert (F0 : ht0 d1 = ht0 d) by exact E0. assert (F1 : ht1 d1 = ht1 d) by exact E1.
  assert (Hen : entries d1 = entries d) by (unfold entries; by rewrite F0, F1).
  assert (Ht1 : told (calls d1) = 0).
  { change (calls d1) with (calls (tell_release d) ++ [onDictRelease]). rewrite told_app, Ht. done. }
  destruct (clear_both type d1 false) as (d' & Heq & _ & _ & Ht' & _).
  { rewrite F0. apply W. } { rewrite F1. apply W. } { rewrite Hen. apply W. }
  destruct (_dictClear d1 false false) as [d2|]; [|done]. revert Heq. sbind. intros ->. sbind.
  eexists. split; [done|]. by rewrite Ht'.
Qed.

#[local] Ltac unchanged kvs := exists kvs; do 3 (split; [done|]); split; [by left|done].

Lemma freeDict_spec kvs didx :
  kdicts kvs -> valid kvs didx ->
  exists kvs', freeDictIfNeeded kvs didx = Some kvs' /\ kdicts kvs' /\ kframe kvs kvs'
    /\ (dicts kvs' = dicts kvs \/ dicts kvs' = <[Z.to_nat didx := None]> (dicts kvs))
    /\ sizes kvs' = sizes kvs /\ kvs_maps kvs' = kvs_maps kvs.
Proof.
  intros Hk Hval. unfold freeDictIfNeeded. destruct (_ =? 0) eqn:Efl; [unchanged kvs|].
  destruct (get_valid kvs didx Hk Hval) as (od & -> & Hod). sbind. destruct od as [d|]; [|unchanged kvs].
  destruct (Z.eqb_spec (dictSize d) 0) as [E0|]; [|unchanged kvs]. cbn [negb].
  destruct (_ >? 0); [unchanged kvs|]. destruct (kd_wf _ Hk _ _ Hod) as [W _].
  destruct (release_spec d W) as (cs & -> & Hcs). sbind. eexists. split; [done|].
  pose proof (lookup_lt_Some _ _ _ Hod). destruct Hk as [H1 H2 H3 H4 H5 H6 H7].
  split; [|split; [done|split; [by right|split]]].
  - constructor; cbn; try done.
    + unfold zlen in *. by rewrite length_insert.
    + intros j x Hx. destruct (lookup_insert_slot _ _ _ _ _ Hx) as [|Hx']; [done|eauto].
    + rewrite (slot_sum_insert _ _ _ _ _ Hod). cbn. lia.
    + rewrite (slot_sum_insert _ _ _ _ _ Hod). cbn. rewrite H6, Hcs. unfold wrap.
      by rewrite Zplus_mod_idemp_l.
  - unfold sizes; cbn. rewrite list_fmap_insert. cbn. rewrite <- E0 at 1.
    by rewrite list_insert_id by (by rewrite list_lookup_fmap, Hod).
  - unfold kvs_maps; cbn. rewrite list_fmap_insert. cbn.
    rewrite <- (empty_map type canon d W E0) at 1.
    by rewrite list_insert_id by (by rewrite list_lookup_fmap, Hod).
Qed.

Lemma createDict_spec kvs didx :
  kdicts kvs -> valid kvs didx ->
  exists d kvs', createDictIfNeeded kvs didx = Some (d, kvs') /\ kdicts kvs' /\ kframe kvs kvs'
    /\ kvstoreGetDict kvs' didx = Some (Some d) /\ wf d /\ pauseAutoResize d = 0
    /\ sizes kvs' = sizes kvs /\ kvs_maps kvs' = kvs_maps kvs /\ bucket_count kvs' = bucket_count kvs.
Proof.
  intros Hk Hval. unfold createDictIfNeeded. destruct (get_valid kvs didx Hk Hval) as (od & E & Hod). rewrite E. sbind.
  destruct od as [d|].
  { exists d, kvs. destruct (kd_wf _ Hk _ _ Hod) as [W Hp]. done. }
  eexists _, _. split; [done|]. pose proof (lookup_lt_Some _ _ _ Hod).
  pose proof (create_wf type canon (V := V)) as W. destruct Hk as [H1 H2 H3 H4 H5 H6 H7].
  split; [|split; [done|split; [|split; [done|split; [done|split; [|split; [|done]]]]]]].
  - constructor; cbn; try done.
    + unfold zlen in *. by rewrite length_insert.
    + intros j x Hx. destruct (lookup_insert_slot _ _ _ _ _ Hx) as [[= <-]|Hx']; [done|eauto].
    + rewrite (slot_sum_insert _ _ _ _ _ Hod). cbn. lia.
    + rewrite (slot_sum_insert _ _ _ _ _ Hod). cbn. rewrite H6. f_equal. lia.
  - unfold kvstoreGetDict; cbn. destruct Hval. zcase. by apply list_lookup_insert_eq.
  - unfold sizes; cbn. rewrite list_fmap_insert. cbn.
    by rewrite list_insert_id by (by rewrite list_lookup_fmap, Hod).
  - unfold kvs_maps; cbn. rewrite list_fmap_insert. cbn.
    by rewrite list_insert_id by (by rewrite list_lookup_fmap, Hod).
Qed.


(** ** Operations on one dictionary *)

Definition map_at kvs (didx : Z) : gmap C (K * V) := default ∅ (kvs_maps kvs !! Z.to_nat didx).

(** A well-formed store of the same shape with the given maps. *)
Definition kvs_now kvs kvs' (ms : list (gmap C (K * V))) : Prop :=
  kwf kvs' /\ kvs_maps kvs' = ms /\ num_dicts kvs' = num_dicts kvs.

Definition room kvs : Prop := zsum (sizes kvs) + 1 < 2 ^ 64.

Lemma map_at_slot kvs didx od : dicts kvs !! Z.to_nat didx = Some od -> map_at kvs didx = slot_map od.
Proof. intros Hod. unfold map_at, kvs_maps. by rewrite list_lookup_fmap, Hod. Qed.

Lemma insert_map_at kvs didx :
  kdicts kvs -> valid kvs didx -> <[Z.to_nat didx := map_at kvs didx]> (kvs_maps kvs) = kvs_maps kvs.
Proof.
  intros Hk Hv. destruct (get_valid kvs didx Hk Hv) as (od & _ & Hod). rewrite (map_at_slot _ _ _ Hod).
  apply list_insert_id. unfold kvs_maps. by rewrite list_lookup_fmap, Hod.
Qed.

Lemma free_now kvs didx :
  kwf kvs -> valid kvs didx -> exists kvs', freeDictIfNeeded kvs didx = Some kvs' /\ kvs_now kvs kvs' (kvs_maps kvs).
Proof.
  intros [Hk Hc] Hval. destruct (freeDict_spec kvs didx Hk Hval) as (kvs' & -> & Hk' & Hf & _ & Hsz & Hm).
  exists kvs'. split; [done|]. split; [|split; [done|apply Hf]]. split; [done|]. rewrite Hsz. by apply (kframe_counts kvs).
Qed.

(** A dictionary that stands for the same map takes the place of the old one. *)
Lemma keep_now kvs didx d d' :
  kwf kvs -> kvstoreGetDict kvs didx = Some (Some d) -> wf d' -> pauseAutoResize d' = pauseAutoResize d ->
  dict_map d' = dict_map d -> kvs_now kvs (set_dict kvs didx d d') (kvs_maps kvs).
Proof.
  intros [Hk Hc] Hd W' Hp' Hm. destruct (get_lookup _ _ _ Hd) as [_ Hl]. destruct (kd_wf _ Hk _ _ Hl) as [W Hp].
  destruct (set_dict_spec kvs didx d d' Hk Hd W' ltac:(congruence)) as (Hk' & Hf & _ & Hsz & Hmp).
  rewrite (dictSize_map type canon d' W'), Hm, <- (dictSize_map type canon d W) in Hsz.
  rewrite list_insert_id in Hsz by (unfold sizes; by rewrite list_lookup_fmap, Hl).
  rewrite Hm, list_insert_id in Hmp by (unfold kvs_maps; by rewrite list_lookup_fmap, Hl).
  split; [|split; [done|apply Hf]]. split; [done|]. rewrite Hsz. by apply (kframe_counts kvs).
Qed.

Lemma same_now kvs didx d d' :
  kwf kvs -> kvstoreGetDict kvs didx = Some (Some d) -> same d d' ->
  kvs_now kvs (set_dict kvs didx d d') (kvs_maps kvs).
Proof.
  intros Hk Hd Hs. destruct (get_lookup _ _ _ Hd) as [_ Hl]. destruct (kd_wf _ (proj1 Hk) _ _ Hl) as [W _].
  apply keep_now; try apply Hs; try done. by apply (same_map type canon).
Qed.

(** Replacing a dictionary by one with a key more or less, and counting it. *)
Lemma set_count_spec kvs didx d d' delta :
  kwf kvs -> valid kvs didx -> kvstoreGetDict kvs didx = Some (Some d) -> wf d' -> pauseAutoResize d' = 0 ->
  dictSize d' = dictSize d + delta -> delta = 1 \/ delta = -1 -> zsum (sizes kvs) + delta < 2 ^ 64 ->
  exists kvs', cumulativeKeyCountAdd (set_dict kvs didx d d') didx delta = Some kvs'
    /\ kvs_now kvs kvs' (<[Z.to_nat didx := dict_map d']> (kvs_maps kvs))
    /\ kvstoreGetDict kvs' didx = Some (Some d').
Proof.
  intros [Hk Hc] Hval Hd W' Hp' Hsz Hdelta Hmax. destruct (get_lookup _ _ _ Hd) as [H0 Hl].
  destruct (set_dict_spec kvs didx d d' Hk Hd W' Hp') as (Hk1 & Hf1 & Hd1 & Hsz1 & Hm1).
  assert (Hl' : sizes kvs !! Z.to_nat didx = Some (dictSize d)) by (unfold sizes; by rewrite list_lookup_fmap, Hl).
  destruct (keyCountAdd_spec (set_dict kvs didx d d') (sizes kvs) didx d' (dictSize d) delta)
    as (kvs' & -> & Hk2 & E1 & E2 & E3 & Hc2); try done.
  - by apply (kframe_counts kvs).
  - rewrite <- Hsz, (dictSize_map type canon d' W'). lia.
  - exists kvs'. split; [done|]. rewrite <- Hsz1 in Hc2. split; [|by unfold kvstoreGetDict in *; rewrite E1].
    split; [|split; [|by rewrite E3]].
    + split; [done|]. unfold sizes in *. by rewrite E1.
    + unfold kvs_maps in *. by rewrite E1.
Qed.

Lemma kvs_find_spec mode kvs didx key :
  kwf kvs -> valid kvs didx ->
  exists kvs', kvstoreDictFind type mode kvs didx key = Some (map_at kvs didx !! canon key, kvs')
    /\ kvs_now kvs kvs' (kvs_maps kvs).
Proof.
  intros Hk Hval. unfold kvstoreDictFind. destruct (get_valid kvs didx (proj1 Hk) Hval) as (od & E & Hod).
  rewrite E, (map_at_slot _ _ _ Hod). sbind. destruct od as [d|]; [|by exists kvs].
  destruct (kd_wf _ (proj1 Hk) _ _ Hod) as [W _].
  destruct (find_spec type canon mode d key W) as (d' & -> & Hs). sbind.
  eexists. split; [done|]. by apply same_now.
Qed.

Lemma kvs_fetch_spec mode kvs didx key :
  kwf kvs -> valid kvs didx ->
  exists kvs', kvstoreDictFetchValue type mode kvs didx key = Some (snd <$> map_at kvs didx !! canon key, kvs')
    /\ kvs_now kvs kvs' (kvs_maps kvs).
Proof.
  intros Hk Hval. unfold kvstoreDictFetchValue. destruct (get_valid kvs didx (proj1 Hk) Hval) as (od & E & Hod).
  rewrite E, (map_at_slot _ _ _ Hod). sbind. destruct od as [d|]; [|by exists kvs].
  destruct (kd_wf _ (proj1 Hk) _ _ Hod) as [W _]. unfold dictFetchValue.
  destruct (find_spec type canon mode d key W) as (d' & -> & Hs). sbind.
  eexists. split; [done|]. by apply same_now.
Qed.

Lemma kvs_expand_one_spec mode kvs didx size :
  kwf kvs -> valid kvs didx -> 0 <= size < 2 ^ 64 ->
  exists st kvs', kvstoreDictExpand type mode kvs didx size = Some (st, kvs') /\ kvs_now kvs kvs' (kvs_maps kvs).
Proof.
  intros Hk Hval Hs. unfold kvstoreDictExpand. destruct (get_valid kvs didx (proj1 Hk) Hval) as (od & E & Hod).
  rewrite E. sbind. destruct od as [d|]; [|by eexists _, kvs].
  destruct (kd_wf _ (proj1 Hk) _ _ Hod) as [W _].
  destruct (dictExpand_same type canon mode d size W Hs) as (st & d' & -> & Hsm & _). sbind.
  eexists _, _. split; [done|]. by apply same_now.
Qed.

(** A new entry is counted, an existing one is returned. *)
Lemma kvs_addRaw_spec mode kvs didx key :
  kwf kvs -> valid kvs didx -> room kvs ->
  exists r kvs' d', kvstoreDictAddRaw type mode indet kvs didx key = Some (r, kvs')
    /\ kvstoreGetDict kvs' didx = Some (Some d')
    /\ match r with
       | inl l => map_at kvs didx !! canon key = None
           /\ kvs_now kvs kvs' (<[Z.to_nat didx := <[canon key := (key, indet)]> (map_at kvs didx)]> (kvs_maps kvs))
           /\ exists l1 b2 l2, at_link d' l (key, indet) l1 [] b2 l2
       | inr _ => is_Some (map_at kvs didx !! canon key) /\ kvs_now kvs kvs' (kvs_maps kvs)
       end.
Proof.
  intros [Hk Hc] Hval Hroom. unfold kvstoreDictAddRaw.
  destruct (createDict_spec kvs didx Hk Hval) as (d & k1 & -> & Hk1 & Hf1 & Hd1 & W & Hp & Hsz1 & Hm1 & _). sbind.
  assert (Hkw1 : kwf k1) by (split; [done|]; rewrite Hsz1; by apply (kframe_counts kvs)).
  assert (Hmd : map_at kvs didx = dict_map d).
  { destruct (get_lookup _ _ _ Hd1) as [_ Hl1]. unfold map_at. rewrite <- Hm1. unfold kvs_maps.
    by rewrite list_lookup_fmap, Hl1. }
  assert (Hn : num_dicts k1 = num_dicts kvs) by apply Hf1.
  assert (Hr : has_room canon d).
  { unfold has_room. rewrite <- (dictSize_map type canon d W). destruct (get_lookup _ _ _ Hd1) as [_ Hl1].
    pose proof (zsum_member _ (Z.to_nat didx) (dictSize d) (kc_nonneg _ _ Hc)) as Hle.
    rewrite <- Hsz1 in Hle at 1. unfold sizes in Hle at 1. rewrite list_lookup_fmap, Hl1 in Hle.
    specialize (Hle eq_refl). unfold room in Hroom. lia. }
  destruct (addRaw_spec type canon mode indet d key W) as (r & d' & -> & W' & (_ & _ & Hp') & Hres); [left; lia|done|]. sbind.
  destruct r as [l|l]; cbn [fst snd].
  - destruct Hres as (Hno & Hm' & Hat).
    destruct (set_count_spec k1 didx d d' 1) as (k2 & -> & (Hkw2 & Hm2 & Hn2) & Hd2); try done.
    { unfold valid in *. by rewrite Hn. } { congruence. }
    { rewrite !(dictSize_map type canon) by done. rewrite Hm', map_size_insert_None by done. lia. }
    { by left. } { rewrite Hsz1. done. }
    sbind. eexists _, _, d'. split; [done|]. split; [done|]. rewrite Hmd, <- Hm', <- Hm1.
    split; [done|]. split; [|done]. split; [done|]. split; [done|]. congruence.
  - destruct Hres as (e & l1 & b1 & b2 & l2 & Hat & Hc' & Hlk & Hm').
    destruct (set_dict_spec k1 didx d d' Hk1 Hd1 W' ltac:(congruence)) as (_ & _ & Hd2 & _).
    eexists _, _, d'. split; [done|]. split; [done|]. rewrite Hmd. split; [by eexists|].
    destruct (keep_now k1 didx d d' Hkw1 Hd1 W' Hp' Hm') as (Hkw2 & Hm2 & Hn2).
    split; [done|]. split; congruence.
Qed.


Lemma kvs_setVal_spec kvs didx d l k v l1 b1 b2 l2 val :
  kwf kvs -> kvstoreGetDict kvs didx = Some (Some d) -> at_link d l (k, v) l1 b1 b2 l2 ->
  exists kvs', kvstoreDictSetVal kvs didx l val = Some kvs'
    /\ kvs_now kvs kvs' (<[Z.to_nat didx := <[canon k := (k, val)]> (map_at kvs didx)]> (kvs_maps kvs)).
Proof.
  intros [Hk Hc] Hd Hat. unfold kvstoreDictSetVal, dictSetVal. rewrite Hd. sbind.
  destruct (get_lookup _ _ _ Hd) as [_ Hl]. destruct (kd_wf _ Hk _ _ Hl) as [W Hp].
  destruct (update_spec type canon d l (k, v) l1 b1 b2 l2 (fun '(k, _) => (k, val)) W Hat)
    as (d' & -> & W' & _ & (_ & _ & Hp') & Hm'); [done|]. sbind.
  destruct (set_dict_spec kvs didx d d' Hk Hd W' ltac:(congruence)) as (Hk2 & Hf2 & _ & Hsz2 & Hm2).
  eexists. split; [done|]. rewrite (map_at_slot _ _ _ Hl). cbn in Hm'. cbn [slot_map]. rewrite <- Hm'.
  assert (Hlk : dict_map d !! canon k = Some (k, v)).
  { apply (dict_map_Some type canon d _ _ W). split; [|done].
    rewrite (at_link_entries d l (k, v) l1 b1 b2 l2 Hat). apply list_elem_of_here. }
  rewrite (dictSize_map type canon d' W'), Hm', map_size_insert_Some in Hsz2 by eauto.
  rewrite <- (dictSize_map type canon d W), list_insert_id in Hsz2 by (unfold sizes; by rewrite list_lookup_fmap, Hl).
  split; [|split; [done|apply Hf2]]. split; [done|]. rewrite Hsz2. by apply (kframe_counts kvs).
Qed.

(** Removing an entry that was there, with the count and the check for an empty
    dictionary that follow. *)
Lemma remove_count_spec kvs didx d d' key e :
  kwf kvs -> valid kvs didx -> kvstoreGetDict kvs didx = Some (Some d) -> wf d' -> pauseAutoResize d' = 0 ->
  dict_map d !! canon key = Some e -> dict_map d' = delete (canon key) (dict_map d) ->
  exists kvs', (kvs1 ← cumulativeKeyCountAdd (set_dict kvs didx d d') didx (-1); freeDictIfNeeded kvs1 didx) = Some kvs'
    /\ kvs_now kvs kvs' (<[Z.to_nat didx := delete (canon key) (map_at kvs didx)]> (kvs_maps kvs)).
Proof.
  intros Hk Hval Hd W' Hp' Hlk Hm'. destruct (get_lookup _ _ _ Hd) as [_ Hl].
  destruct (kd_wf _ (proj1 Hk) _ _ Hl) as [W _].
  destruct (set_count_spec kvs didx d d' (-1)) as (k1 & -> & (Hk1 & Hm1 & Hn1) & _); try done.
  { rewrite !(dictSize_map type canon) by done. rewrite Hm', map_size_delete_Some by eauto.
    assert (size (dict_map d) <> 0%nat); [|lia]. intros E%map_size_empty_inv. rewrite E, lookup_empty in Hlk. done. }
  { by right. } { pose proof (kc_max _ _ (proj2 Hk)). lia. }
  sbind. destruct (free_now k1 didx Hk1) as (k2 & -> & (Hk2 & Hm2 & Hn2)); [unfold valid in *; by rewrite Hn1|].
  exists k2. split; [done|]. rewrite (map_at_slot _ _ _ Hl). cbn [slot_map].
  split; [done|]. split; [by rewrite Hm2, Hm1, Hm'|congruence].
Qed.

Lemma kvs_delete_spec mode kvs didx key :
  kwf kvs -> valid kvs didx ->
  exists kvs', kvstoreDictDelete type mode kvs didx key
      = Some (if map_at kvs didx !! canon key is Some _ then DICT_OK else DICT_ERR, kvs')
    /\ kvs_now kvs kvs' (<[Z.to_nat didx := delete (canon key) (map_at kvs didx)]> (kvs_maps kvs)).
Proof.
  intros Hk Hval. unfold kvstoreDictDelete, dictDelete.
  destruct (get_valid kvs didx (proj1 Hk) Hval) as (od & E & Hod).
  rewrite E. sbind. destruct od as [d|].
  2:{ exists kvs. rewrite (map_at_slot _ _ _ Hod); cbn [slot_map]. rewrite lookup_empty, delete_empty. split; [done|].
      change ∅ with (slot_map None). rewrite <- (map_at_slot _ _ _ Hod), insert_map_at by (try done; apply Hk).
      done. }
  destruct (kd_wf _ (proj1 Hk) _ _ Hod) as [W Hp].
  destruct (genericDelete_spec type canon mode d key false W) as (he & d' & -> & Hdel). sbind.
  destruct Hdel as (W' & -> & Hm' & _ & _ & Hp').
  pose proof (map_at_slot _ _ _ Hod) as Hat. cbn [slot_map] in Hat. rewrite Hat.
  destruct (dict_map d !! canon key) as [e|] eqn:Hlk.
  - rewrite bool_decide_true by done.
    destruct (remove_count_spec kvs didx d d' key e Hk Hval E W') as (k' & Hrun & Hnow); [congruence|done..|].
    rewrite Hat in Hnow. exists k'. split; [|done].
    destruct (cumulativeKeyCountAdd _ _ _) as [k1|]; [|done]. revert Hrun. sbind. by intros ->.
  - rewrite bool_decide_false by done. eexists. split; [done|]. rewrite delete_id in Hm' |- * by done.
    rewrite <- Hat, insert_map_at by (try done; apply Hk).
    by apply keep_now.
Qed.

(** Finding an entry and unlinking it later. *)
Lemma kvs_unlink_spec mode kvs didx key :
  kwf kvs -> valid kvs didx ->
  exists r k1, kvstoreDictTwoPhaseUnlinkFind type mode kvs didx key = Some (r, k1)
    /\ kvs_now kvs k1 (kvs_maps kvs)
    /\ match r with
       | None => map_at kvs didx !! canon key = None
       | Some l => is_Some (map_at kvs didx !! canon key)
           /\ exists k2, kvstoreDictTwoPhaseUnlinkFree type mode k1 didx (Some l) (l_table l) = Some k2
                /\ kvs_now kvs k2 (<[Z.to_nat didx := delete (canon key) (map_at kvs didx)]> (kvs_maps kvs))
       end.
Proof.
  intros Hk Hval. unfold kvstoreDictTwoPhaseUnlinkFind.
  destruct (get_valid kvs didx (proj1 Hk) Hval) as (od & E & Hod). rewrite E. sbind.
  pose proof (map_at_slot _ _ _ Hod) as Hat. destruct od as [d|]; cbn [slot_map] in Hat; rewrite Hat.
  2:{ exists None, kvs. by rewrite lookup_empty. }
  destruct (kd_wf _ (proj1 Hk) _ _ Hod) as [W Hp].
  destruct (unlinkFind_spec type canon mode d key W) as (r & d1 & -> & W1 & Hm1 & _ & Hp1 & Hr). sbind.
  destruct (set_dict_spec kvs didx d d1 (proj1 Hk) E W1 ltac:(congruence)) as (_ & _ & Hd2 & _).
  pose proof (keep_now kvs didx d d1 Hk E W1 Hp1 Hm1) as Hnow.
  eexists _, _. split; [done|]. split; [done|]. destruct r as [l|]; [|tauto].
  destruct Hr as (_ & e & l1 & b1 & b2 & l2 & Hal & Hce).
  assert (Hlk : dict_map d !! canon key = Some e).
  { rewrite <- Hm1. apply (dict_map_Some type canon d1 _ _ W1). split; [|done].
    rewrite (at_link_entries d1 l e l1 b1 b2 l2 Hal). apply list_elem_of_here. }
  split; [by rewrite Hlk|].
  destruct (unlinkFree_spec type canon mode d1 l e l1 b1 b2 l2 key W1 Hal Hce) as (d' & Hd' & (W' & _ & Hm' & _ & _ & Hp')).
  unfold kvstoreDictTwoPhaseUnlinkFree. rewrite Hd2. sbind. rewrite Hd'. sbind.
  destruct Hnow as (Hkw & Hmp2 & Hn).
  destruct (remove_count_spec (set_dict kvs didx d d1) didx d1 (dictResumeRehashing d') key e Hkw)
    as (k2 & -> & (Hk3 & Hm3 & Hn3)); try done.
  { by apply pause_wf. } { cbn. congruence. } { by rewrite Hm1. }
  exists k2. split; [done|]. split; [done|]. split; [|congruence].
  rewrite Hm3, Hmp2. unfold map_at. rewrite Hmp2. change (default ∅ _) with (map_at kvs didx). by rewrite Hat.
Qed.


(** ** Operations on all the dictionaries *)

Lemma now_maps k1 k2 k3 : kvs_now k1 k2 (kvs_maps k1) -> kvs_now k2 k3 (kvs_maps k2) -> kvs_now k1 k3 (kvs_maps k1).
Proof. intros (A & B & D) (E & F & G). split; [done|]. split; congruence. Qed.

Lemma expand_loop_spec mode newsize ta skip n : forall kvs i,
  kwf kvs -> 0 <= newsize < 2 ^ 64 -> 0 <= i -> i + Z.of_nat n <= num_dicts kvs ->
  exists b kvs', expand_loop type mode n kvs i newsize ta skip = Some (b, kvs') /\ kvs_now kvs kvs' (kvs_maps kvs).
Proof.
  induction n as [|n IH]; intros kvs i Hk Hns Hi Hn; cbn [expand_loop]; [by eexists _, kvs|].
  destruct (get_valid kvs i (proj1 Hk)) as (od & E & Hod); [split; lia|]. rewrite E. sbind.
  destruct od as [d|]; [|apply IH; (done || lia)]. destruct (skip i); [apply IH; (done || lia)|].
  destruct (kd_wf _ (proj1 Hk) _ _ Hod) as [W _].
  assert (Hres : exists st d', match ta with
      | Some f => dictTryExpand type mode f d newsize
      | None => dictExpand type mode d newsize end = Some (st, d') /\ same d d').
  { destruct ta as [f|].
    - unfold dictTryExpand. destruct (expand_same type canon mode d newsize (Some f) W Hns) as (st & mf & d' & -> & Hs & _).
      sbind. eauto.
    - destruct (dictExpand_same type canon mode d newsize W Hns) as (st & d' & -> & Hs & _). eauto. }
  destruct Hres as (st & d' & -> & Hs). sbind. pose proof (same_now kvs i d d' Hk E Hs) as Hnow.
  destruct (_ && _); [by eexists _, _|].
  destruct (IH (set_dict kvs i d d') (i + 1)) as (b & k2 & -> & Hk2); [apply Hnow|done|lia|cbn; lia|].
  eexists _, _. split; [done|]. by eapply now_maps.
Qed.

Lemma resize_cursor_now kvs c :
  kwf kvs -> 0 <= c < num_dicts kvs -> kvs_now kvs (with_resize_cursor kvs c) (kvs_maps kvs).
Proof. intros [[] []] Hc. by split; [split|]. Qed.

Lemma resize_loop_spec mode n : forall kvs,
  kwf kvs -> exists kvs', resize_loop type mode n kvs = Some kvs' /\ kvs_now kvs kvs' (kvs_maps kvs).
Proof.
  induction n as [|n IH]; intros kvs Hk; cbn [resize_loop]; [by exists kvs|].
  destruct (get_valid kvs (resize_cursor kvs) (proj1 Hk)) as (od & E & Hod); [apply Hk|]. rewrite E. sbind.
  match goal with |- context [mbind _ ?x] =>
    assert (Hx : exists k1, x = Some k1 /\ kvs_now kvs k1 (kvs_maps kvs)) end.
  { destruct od as [d|]; [|by exists kvs]. destruct (kd_wf _ (proj1 Hk) _ _ Hod) as [W _].
    destruct (shrinkIfNeeded_same type canon mode d W) as (st & d1 & -> & Hs1). sbind.
    assert (W1 : wf d1) by apply Hs1.
    destruct (bool_decide _); sbind.
    - destruct (expandIfNeeded_same type canon mode d1 W1) as (st' & d2 & -> & Hs2 & _). cbn. eexists. split; [done|].
      apply same_now; [done..|]. by eapply same_trans.
    - eexists. split; [done|]. by apply same_now. }
  destruct Hx as (k1 & -> & Hk1). sbind. pose proof Hk1 as (Hkw1 & _ & Hn1).
  pose proof (kd_cursor _ (proj1 Hkw1)) as Hcur.
  destruct (IH (with_resize_cursor k1 ((resize_cursor kvs + 1) mod num_dicts k1))) as (k2 & -> & Hk2).
  { apply resize_cursor_now; [done|]. apply Z.mod_pos_bound. lia. }
  exists k2. split; [done|]. eapply now_maps; [exact Hk1|]. eapply now_maps; [|exact Hk2].
  apply resize_cursor_now; [done|]. apply Z.mod_pos_bound. lia.
Qed.


(** A slot without keys and without buckets. *)
Definition slot_empty (od : option dict) : Prop :=
  slot_size od = 0 /\ slot_map od = ∅ /\ slot_buckets od = 0.

Lemma empty_slot_spec kvs i cb :
  kdicts kvs -> valid kvs i ->
  exists kvs' od, match kvstoreGetDict kvs i with
      | Some (Some d) => d' ← dictEmpty d cb; freeDictIfNeeded (set_dict kvs i d d') i
      | Some None => Some kvs
      | None => None
      end = Some kvs'
    /\ kdicts kvs' /\ kframe kvs kvs' /\ dicts kvs' = <[Z.to_nat i := od]> (dicts kvs) /\ slot_empty od.
Proof.
  intros Hk Hval. destruct (get_valid kvs i Hk Hval) as (od & E & Hod). rewrite E.
  destruct od as [d|]; [|exists kvs, None; by rewrite list_insert_id].
  destruct (kd_wf _ Hk _ _ Hod) as [W _].
  destruct (empty_spec type canon d cb W) as (d' & -> & W' & Hm' & Hs' & Ht' & _ & Hp'). sbind.
  destruct (set_dict_spec kvs i d d' Hk E W' Hp') as (Hk1 & Hf1 & _).
  destruct (freeDict_spec (set_dict kvs i d d') i Hk1 Hval) as (k2 & -> & Hk2 & Hf2 & Hd2 & _).
  exists k2. destruct Hd2 as [Hd2|Hd2]; cbn in Hd2; rewrite Hd2.
  - exists (Some d'). split; [done|]. split; [done|]. split; [by eapply kframe_trans|]. done.
  - exists None. split; [done|]. split; [done|]. split; [by eapply kframe_trans|].
    by rewrite list_insert_insert_eq.
Qed.

Lemma empty_loop_spec cb n : forall kvs i,
  kdicts kvs -> 0 <= i -> i + Z.of_nat n = num_dicts kvs ->
  (forall j od, dicts kvs !! j = Some od -> Z.of_nat j < i -> slot_empty od) ->
  exists kvs', empty_loop n kvs i cb = Some kvs' /\ kdicts kvs' /\ kframe kvs kvs'
    /\ Forall slot_empty (dicts kvs').
Proof.
  induction n as [|n IH]; intros kvs i Hk Hi Hn He; cbn [empty_loop].
  - exists kvs. split; [done|]. split; [done|]. split; [done|]. apply Forall_lookup. intros j od Hod.
    apply (He j od Hod). apply lookup_lt_Some in Hod. pose proof (kd_len _ Hk). unfold zlen in *. lia.
  - destruct (empty_slot_spec kvs i cb Hk) as (k1 & od & Hrun & Hk1 & Hf1 & Hd1 & Hod); [split; lia|].
    destruct (kvstoreGetDict kvs i) as [od'|]; [|done]. sbind. destruct od'; rewrite Hrun; sbind.
    all: destruct (IH k1 (i + 1)) as (k2 & -> & Hk2 & Hf2 & He2); [done|lia|destruct Hf1 as (_ & -> & _); lia| |];
      [|exists k2; split; [done|]; split; [done|]; split; [by eapply kframe_trans|done]].
    all: intros j od0; rewrite Hd1; intros Hj Hlt; apply list_lookup_insert_Some in Hj as [(_ & -> & _)|[Hne Hj]];
      [done|apply (He j _ Hj); lia].
Qed.

Lemma counts_zero kvs :
  kdicts kvs -> key_count kvs = 0 -> non_empty_dicts kvs = 0 ->
  dict_size_index kvs = (if num_dicts kvs =? 1 then None else Some (repeat 0 (Z.to_nat (num_dicts kvs + 1)))) ->
  sizes kvs = repeat 0 (Z.to_nat (num_dicts kvs)) -> kcounts kvs (sizes kvs).
Proof.
  intros Hk E1 E2 E3 ->. pose proof (kd_cursor _ Hk).
  assert (Hps : forall k, psum (repeat 0 (Z.to_nat (num_dicts kvs))) k = 0).
  { intros k. unfold psum. rewrite take_repeat. apply zsum_repeat_0. }
  constructor; rewrite ?zsum_repeat_0, ?fmap_repeat, ?zsum_repeat_0; try done.
  - unfold zlen. rewrite repeat_length. lia.
  - apply Forall_forall. intros x ->%list_elem_of_In%repeat_spec. lia.
  - rewrite E3. destruct (_ =? 1); [done|]. eexists. split; [done|].
    split; [unfold zlen; rewrite repeat_length; lia|]. intros i Hi. rewrite !Hps, mget_lookup by lia.
    apply lookup_repeat. lia.
Qed.

Lemma zsum_zero {A} (f : A -> Z) l : Forall (fun x => f x = 0) l -> f <$> l = repeat 0 (length l).
Proof. induction 1 as [|x l Hx _ IH]; cbn; [done|]. by rewrite Hx, IH. Qed.

Lemma kvs_empty_spec kvs cb :
  kwf kvs -> exists kvs', kvstoreEmpty kvs cb = Some kvs' /\ kwf kvs'
    /\ kvs_maps kvs' = repeat ∅ (Z.to_nat (num_dicts kvs)) /\ num_dicts kvs' = num_dicts kvs.
Proof.
  intros [Hk Hc]. unfold kvstoreEmpty. pose proof (kd_cursor _ Hk).
  destruct (empty_loop_spec cb (Z.to_nat (num_dicts kvs)) kvs 0 Hk) as (k1 & -> & Hk1 & Hf1 & He1); [lia..|]. sbind.
  pose proof (kd_len _ Hk1) as Hlen. destruct Hf1 as (F1 & F2 & F3 & F4 & F5 & F6).
  eexists. split; [done|]. split; [|split; [|done]].
  - assert (Hb : zsum (slot_buckets <$> dicts k1) = 0).
    { rewrite zsum_zero, zsum_repeat_0; [done|]. eapply Forall_impl; [exact He1|]. by intros od (_ & _ & ?). }
    assert (Hk2 : kdicts (mkKvs (flags k1) (dicts k1) (num_dicts k1) (num_dicts_bits k1) 0 (allocated_dicts k1) 0 0 0
       ((λ index, repeat 0 (length index)) <$> dict_size_index k1))).
    { destruct Hk1. constructor; cbn; try done; [|lia]; change (0 = u64 (zsum (slot_buckets <$> dicts k1))); by rewrite Hb. }
    split; [done|]. apply counts_zero; [done..| |]; cbn.
    + rewrite F6, F2. pose proof (kc_index _ _ Hc) as Hi. destruct (_ =? 1); [by rewrite Hi|].
      destruct Hi as (tree & -> & Htl & _). cbn. unfold zlen in Htl. do 2 f_equal. lia.
    + unfold sizes; cbn. rewrite zsum_zero; [f_equal; unfold zlen in Hlen; lia|].
      eapply Forall_impl; [exact He1|]. by intros od (? & _).
  - unfold kvs_maps; cbn. rewrite <- F2, <- Hlen, to_nat_zlen. clear -He1.
    induction He1 as [|od l (_ & Hm & _) _ IH]; cbn; [done|]. by rewrite Hm, IH.
Qed.


Lemma create_loop_spec n : forall kvs i,
  kdicts kvs -> 0 <= i -> i + Z.of_nat n <= num_dicts kvs ->
  exists kvs', create_loop n kvs i = Some kvs' /\ kdicts kvs' /\ kframe kvs kvs'
    /\ sizes kvs' = sizes kvs /\ kvs_maps kvs' = kvs_maps kvs /\ bucket_count kvs' = bucket_count kvs.
Proof.
  induction n as [|n IH]; intros kvs i Hk Hi Hn; cbn [create_loop]; [by exists kvs|].
  destruct (createDict_spec kvs i Hk) as (d & k1 & -> & Hk1 & Hf1 & _ & _ & _ & E1 & E2 & E3); [split; lia|]. sbind.
  destruct (IH k1 (i + 1) Hk1) as (k2 & -> & Hk2 & Hf2 & F1 & F2 & F3); [lia|destruct Hf1 as (_ & -> & _); lia|].
  exists k2. split; [done|]. split; [done|]. split; [by eapply kframe_trans|]. split; [congruence|split; congruence].
Qed.

Lemma kvs_create_spec bits fl :
  0 <= bits <= 16 ->
  exists kvs, kvstoreCreate bits fl = Some kvs /\ kwf kvs
    /\ kvs_maps kvs = repeat ∅ (Z.to_nat (2 ^ bits)) /\ num_dicts kvs = 2 ^ bits.
Proof.
  intros Hb. unfold kvstoreCreate. destruct (Z.leb_spec bits 16); [|lia]. cbn [negb].
  rewrite Z.shiftl_1_l. pose proof (Z.pow_pos_nonneg 2 bits) as Hpos.
  set (k0 := mkKvs fl (repeat None _) _ _ _ _ _ _ _ _).
  assert (Hk0 : kdicts k0).
  { constructor; cbn; try done; try lia.
    - unfold zlen. rewrite repeat_length. lia.
    - intros i d Hd%list_elem_of_lookup_2%list_elem_of_In%repeat_spec. done.
    - change (0 = zsum (slot_alloc <$> repeat None (Z.to_nat (2 ^ bits)))). by rewrite fmap_repeat, zsum_repeat_0.
    - change (0 = u64 (zsum (slot_buckets <$> repeat None (Z.to_nat (2 ^ bits))))). by rewrite fmap_repeat, zsum_repeat_0. }
  match goal with |- context [mbind _ ?x] =>
    assert (Hx : exists k1, x = Some k1 /\ kdicts k1 /\ kframe k0 k1 /\ sizes k1 = sizes k0
      /\ kvs_maps k1 = kvs_maps k0 /\ bucket_count k1 = bucket_count k0) end.
  { destruct (_ =? 0); [|by exists k0]. apply create_loop_spec; [done|lia|]. cbn. lia. }
  destruct Hx as (k1 & -> & Hk1 & (_ & F2 & F3 & _) & Hs & Hm & Hbk). sbind. eexists. split; [done|].
  assert (Hlen : zlen (dicts k1) = 2 ^ bits) by (rewrite (kd_len _ Hk1), F2; done).
  assert (Hk2 : kdicts (mkKvs fl (dicts k1) (2 ^ bits) bits 0 (allocated_dicts k1) 0 0 0
            (if 2 ^ bits >? 1 then Some (repeat 0 (Z.to_nat (2 ^ bits + 1))) else None))).
  { pose proof (kd_buckets _ Hk1) as Hbk'. rewrite Hbk in Hbk'. destruct Hk1. constructor; cbn; try done; lia. }
  split; [split; [done|]|split; [|done]].
  - apply counts_zero; [done..| |].
    + cbn. zcase; done.
    + change (sizes k1 = repeat 0 (Z.to_nat (2 ^ bits))). rewrite Hs. unfold sizes, k0. cbn [dicts]. by rewrite fmap_repeat.
  - change (kvs_maps k1 = repeat ∅ (Z.to_nat (2 ^ bits))). rewrite Hm. unfold kvs_maps, k0. cbn [dicts]. by rewrite fmap_repeat.
Qed.

(** ** Sizes and positions *)

(** The total number of keys of the maps, and of the maps before an index. *)
Definition keys_before (ms : list (gmap C (K * V))) (i : Z) : Z := psum ((fun m => Z.of_nat (size m)) <$> ms) i.
Definition keys_total (ms : list (gmap C (K * V))) : Z := zsum ((fun m => Z.of_nat (size m)) <$> ms).

Lemma kvs_size_spec kvs : kwf kvs -> kvstoreSize kvs = Some (keys_total (kvs_maps kvs)).
Proof.
  intros [Hk Hc]. unfold kvstoreSize, keys_total. rewrite <- map_sizes by done.
  destruct (Z.eqb_spec (num_dicts kvs) 1) as [E1|]; cbn [negb]; [|by rewrite (kc_keys _ _ Hc)].
  unfold kvstoreDictSize. destruct (get_valid kvs 0 Hk) as (od & -> & Hod); [split; lia|]. sbind.
  pose proof (kd_len _ Hk) as Hl. rewrite E1 in Hl. unfold sizes. destruct (dicts kvs) as [|x [|y l]] eqn:Ed;
    [done| |unfold zlen in Hl; cbn in Hl; lia].
  cbn in Hod. injection Hod as ->. unfold zsum; cbn. f_equal. change (slot_size od = slot_size od + 0). lia.
Qed.

(** The root of the tree counts all the keys. *)
Lemma tree_root kvs tree :
  kdicts kvs -> zlen (sizes kvs) = num_dicts kvs -> bit_ok (num_dicts kvs) (sizes kvs) tree ->
  mget tree (0 + num_dicts kvs) = Some (zsum (sizes kvs)).
Proof.
  intros Hk Hlen [_ Hok]. pose proof (kd_cursor _ Hk). pose proof (kd_bits _ Hk). rewrite Hok by lia. rewrite Z.add_0_l.
  replace (lowbit (num_dicts kvs)) with (num_dicts kvs).
  - rewrite Z.sub_diag, (psum_0 _ 0), psum_all by lia. f_equal. lia.
  - rewrite (kd_num _ Hk). rewrite <- (lowbit_odd (num_dicts_bits kvs) 0) at 1 by lia. f_equal. lia.
Qed.

Lemma kvs_find_index_spec kvs target :
  kwf kvs -> 1 <= target <= keys_total (kvs_maps kvs) ->
  exists r, kvstoreFindDictIndexByKeyIndex kvs target = Some r /\ valid kvs r
    /\ keys_before (kvs_maps kvs) r < target <= keys_before (kvs_maps kvs) (r + 1).
Proof.
  intros Hkw Ht. unfold kvstoreFindDictIndexByKeyIndex. rewrite (kvs_size_spec kvs Hkw). sbind.
  destruct Hkw as [Hk Hc]. unfold keys_total, keys_before, valid in *. rewrite <- map_sizes in * by done.
  pose proof (kd_cursor _ Hk). pose proof (kd_bits _ Hk) as Hb.
  pose proof (kc_len _ _ Hc) as Hlen. destruct (Z.eqb_spec (num_dicts kvs) 1) as [E1|E1]; cbn [orb].
  { exists 0. split; [done|]. split; [lia|]. rewrite psum_0 by lia. rewrite psum_all by lia. lia. }
  destruct (Z.eqb_spec (zsum (sizes kvs)) 0); [lia|]. destruct (Z.leb_spec target (zsum (sizes kvs))); [|lia]. cbn [negb].
  pose proof (kc_index _ _ Hc) as Hi. destruct (Z.eqb_spec (num_dicts kvs) 1); [lia|].
  destruct Hi as (tree & -> & Hok). sbind.
  pose proof (kd_num _ Hk) as Hnum. rewrite Z.shiftl_1_l, <- Hnum.
  rewrite find_index_step. destruct (Z.eqb_spec (num_dicts kvs) 0); [lia|].
  rewrite (tree_root kvs tree Hk Hlen Hok). sbind. destruct (Z.gtb_spec target (zsum (sizes kvs))); [lia|].
  assert (Hb1 : 1 <= num_dicts_bits kvs).
  { destruct (decide (num_dicts_bits kvs = 0)) as [E|]; [|lia]. rewrite E in Hnum. done. }
  assert (Hexp : 2 ^ Z.of_nat (S (Z.to_nat (num_dicts_bits kvs - 1))) = num_dicts kvs) by (rewrite Hnum; f_equal; lia).
  destruct (find_index_spec (num_dicts kvs) (sizes kvs) tree (Z.to_nat (num_dicts_bits kvs - 1))
              (Z.to_nat (num_dicts_bits kvs)) target 0 0) as (r & Hr & Hr1 & Hr2); rewrite ?Hexp; try done; try lia.
  { rewrite Z.add_0_l, psum_all, psum_0 by lia. lia. }
  assert (Hsh : num_dicts kvs >>> 1 = 2 ^ Z.of_nat (Z.to_nat (num_dicts_bits kvs - 1))).
  { rewrite Hnum, shiftr_div, Z2Nat.id, Z.pow_sub_r by lia. done. }
  rewrite Hsh, Hr. exists r. split; [done|]. rewrite (psum_0 _ 0) in Hr2 by lia. rewrite Hexp in Hr1. lia.
Qed.


Lemma keys_before_step kvs i :
  valid kvs i -> kdicts kvs ->
  keys_before (kvs_maps kvs) (i + 1) = keys_before (kvs_maps kvs) i + Z.of_nat (size (map_at kvs i)).
Proof.
  intros Hv Hk. unfold keys_before. destruct (get_valid kvs i Hk Hv) as (od & _ & Hod). apply psum_step; [apply Hv|].
  unfold map_at, kvs_maps. by rewrite !list_lookup_fmap, Hod.
Qed.

Lemma keys_before_mono kvs i j : i <= j -> keys_before (kvs_maps kvs) i <= keys_before (kvs_maps kvs) j.
Proof. apply psum_mono. apply Forall_fmap, Forall_true. intros m. cbn. lia. Qed.

(** The next map with a key after an index. *)
Definition next_nonempty (ms : list (gmap C (K * V))) (i : Z) : Z :=
  match list_find (fun m => size m <> 0%nat) (drop (Z.to_nat (i + 1)) ms) with
  | Some (j, _) => i + 1 + Z.of_nat j
  | None => -1
  end.

Lemma next_nonempty_iff kvs i r :
  kdicts kvs -> 0 <= i ->
  (r = -1 /\ (forall j, i < j < num_dicts kvs -> size (map_at kvs j) = 0%nat)) \/
  (i < r < num_dicts kvs /\ size (map_at kvs r) <> 0%nat /\ (forall j, i < j < r -> size (map_at kvs j) = 0%nat)) ->
  r = next_nonempty (kvs_maps kvs) i.
Proof.
  intros Hk Hi Hr. unfold next_nonempty.
  assert (Hlen : zlen (kvs_maps kvs) = num_dicts kvs) by (unfold zlen, kvs_maps; rewrite length_fmap; apply Hk).
  assert (Hat : forall j m, drop (Z.to_nat (i + 1)) (kvs_maps kvs) !! j = Some m ->
    m = map_at kvs (i + 1 + Z.of_nat j) /\ i + 1 + Z.of_nat j < num_dicts kvs).
  { intros j m Hj. rewrite lookup_drop in Hj. unfold map_at.
    replace (Z.to_nat (i + 1 + Z.of_nat j)) with (Z.to_nat (i + 1) + j)%nat by lia. rewrite Hj.
    split; [done|]. apply lookup_lt_Some in Hj. unfold zlen in Hlen. lia. }
  destruct (list_find _ _) as [[j m]|] eqn:Ef.
  - apply list_find_Some in Ef as (Hj & Hm & Hbefore). destruct (Hat j m Hj) as [-> Hlt].
    destruct Hr as [[-> Hall]|(Hr1 & Hr2 & Hr3)]; [exfalso; apply Hm, Hall; lia|].
    destruct (Z.lt_trichotomy r (i + 1 + Z.of_nat j)) as [Hlt'|[?|Hgt]]; [|done|exfalso; apply Hm, Hr3; lia].
    exfalso. destruct (lookup_lt_is_Some_2 (drop (Z.to_nat (i + 1)) (kvs_maps kvs)) (Z.to_nat (r - (i + 1)))) as [m' Hm'].
    { apply lookup_lt_Some in Hj. lia. }
    destruct (Hat _ _ Hm') as [-> _]. apply (Hbefore (Z.to_nat (r - (i + 1))) _ Hm'); [lia|].
    by replace (i + 1 + Z.of_nat (Z.to_nat (r - (i + 1)))) with r by lia.
  - apply list_find_None in Ef. destruct Hr as [[-> _]|(Hr1 & Hr2 & _)]; [done|]. exfalso.
    destruct (lookup_lt_is_Some_2 (drop (Z.to_nat (i + 1)) (kvs_maps kvs)) (Z.to_nat (r - (i + 1)))) as [m' Hm'].
    { rewrite length_drop. unfold zlen in Hlen. lia. }
    rewrite Forall_forall in Ef. apply (Ef m'); [by eapply list_elem_of_lookup_2|].
    destruct (Hat _ _ Hm') as [-> _]. by replace (i + 1 + Z.of_nat (Z.to_nat (r - (i + 1)))) with r by lia.
Qed.

Lemma kvs_read_spec kvs didx :
  kwf kvs -> valid kvs didx -> num_dicts kvs <> 1 ->
  cumulativeKeyCountRead kvs didx = Some (keys_before (kvs_maps kvs) (didx + 1)).
Proof.
  intros [Hk Hc] [H0 H1] Hn. unfold cumulativeKeyCountRead, keys_before. rewrite <- map_sizes by done.
  pose proof (kc_index _ _ Hc) as Hi. destruct (Z.eqb_spec (num_dicts kvs) 1); [done|].
  destruct Hi as (tree & -> & Hok). sbind.
  pose proof (psum_bounds _ (kc_nonneg _ _ Hc) (didx + 1)). pose proof (kc_max _ _ Hc).
  rewrite (count_read_spec (num_dicts kvs) (sizes kvs) (kc_nonneg _ _ Hc)) by (try done; lia). done.
Qed.

Lemma kvs_next_spec kvs didx :
  kwf kvs -> valid kvs didx -> room kvs ->
  kvstoreGetNextNonEmptyDictIndex kvs didx = Some (next_nonempty (kvs_maps kvs) didx).
Proof.
  intros Hkw Hval Hroom. unfold kvstoreGetNextNonEmptyDictIndex. pose proof Hkw as [Hk Hc]. destruct Hval as [H0 H1].
  destruct (Z.eqb_spec (num_dicts kvs) 1) as [E1|E1].
  { destruct (Z.eqb_spec didx 0); [|lia]. f_equal. apply next_nonempty_iff; [done|done|]. left. split; [done|]. lia. }
  rewrite kvs_read_spec by done. sbind. rewrite kvs_size_spec by done. sbind.
  set (ms := kvs_maps kvs) in *.
  assert (Hmono : forall i j, i <= j -> keys_before ms i <= keys_before ms j) by (apply keys_before_mono).
  assert (Hstep : forall j, 0 <= j < num_dicts kvs ->
    keys_before ms (j + 1) = keys_before ms j + Z.of_nat (size (map_at kvs j))).
  { intros j Hj. by apply keys_before_step. }
  assert (Htot : keys_before ms (num_dicts kvs) = keys_total ms).
  { apply psum_all. unfold zlen. rewrite length_fmap. unfold ms, kvs_maps. rewrite length_fmap.
    pose proof (kd_len _ Hk). unfold zlen in *. lia. }
  assert (Hmax : keys_total ms + 1 < 2 ^ 64) by (unfold room in Hroom; by rewrite map_sizes in Hroom).
  assert (Hz : keys_before ms 0 = 0) by (by apply psum_0).
  pose proof (Hmono 0 (didx + 1) ltac:(lia)). pose proof (Hmono (didx + 1) (num_dicts kvs) ltac:(lia)).
  rewrite wrap_small by lia.
  destruct (Z.leb_spec (keys_before ms (didx + 1) + 1) (keys_total ms)) as [Hmore|Hlast].
  - destruct (kvs_find_index_spec kvs (keys_before ms (didx + 1) + 1) Hkw) as (r & -> & [Hr0 Hr1] & Hr); [fold ms; lia|].
    fold ms in Hr. f_equal. apply next_nonempty_iff; [done|done|]. right.
    assert (Hgt : didx < r) by (destruct (decide (didx < r)); [done|]; specialize (Hmono (r + 1) (didx + 1)); lia).
    split; [lia|]. split; [specialize (Hstep r); lia|]. intros j Hj.
    specialize (Hstep j). pose proof (Hmono (didx + 1) j). pose proof (Hmono (j + 1) r). lia.
  - f_equal. apply next_nonempty_iff; [done|done|]. left. split; [done|]. intros j Hj.
    specialize (Hstep j). pose proof (Hmono (didx + 1) j). pose proof (Hmono (j + 1) (num_dicts kvs)). lia.
Qed.

End spec.
