(* ===== verification/KvstoreRefine.v ===== *)
(** * The key-value store refines an array of finite maps

    Any sequence of operations on a new store returns what the same operations on
    an array of maps return, and leaves the counters in agreement with it. *)

From stdpp Require Import gmap.
From S2P Require Import Prelude Dict DictSpec DictMap DictRefine Kvstore KvstoreIndex KvstoreSpec.

Section refine.
Context {K V C : Type} `{EqDecision K} `{Countable C}.
Context (type : @dictType K) (canon : K -> C) `{!DictKeys type canon}.
Context (indet : V).

Abbreviation kvstore := (@kvstore K V).
Abbreviation kwf := (kwf type canon).
Abbreviation kvs_maps := (kvs_maps canon).
Implicit Types kvs : kvstore.

Inductive kop :=
  | KFind (didx : Z) (key : K)
  | KFetch (didx : Z) (key : K)
  | KAdd (didx : Z) (key : K) (val : V)
  | KDelete (didx : Z) (key : K)
  | KUnlink (didx : Z) (key : K)
  | KExpandDict (didx size : Z)
  | KExpand (size : Z)
  | KTryResize (limit : Z)
  | KEmpty (has_callback : bool)
  | KSize
  | KNext (didx : Z)
  | KSetResizeEnabled (enable : dictResizeEnable).

Inductive kresult :=
  | KEntry (e : option (K * V))
  | KValue (v : option V)
  | KAdded (b : bool)
  | KStatus (st : status)
  | KNumber (n : Z)
  | KNothing.

(** The code; an addition is [kvstoreDictAddRaw] with [kvstoreDictSetVal] on the
    new entry, an unlinking its two phases. *)
Definition kexec (s : dictResizeEnable * kvstore) (o : kop) : option (kresult * (dictResizeEnable * kvstore)) :=
  let '(mode, kvs) := s in
  match o with
  | KFind didx key => '(e, kvs) ← kvstoreDictFind type mode kvs didx key; Some (KEntry e, (mode, kvs))
  | KFetch didx key => '(v, kvs) ← kvstoreDictFetchValue type mode kvs didx key; Some (KValue v, (mode, kvs))
  | KAdd didx key val =>
      '(r, kvs) ← kvstoreDictAddRaw type mode indet kvs didx key;
      match r with
      | inl l => kvs ← kvstoreDictSetVal kvs didx l val; Some (KAdded true, (mode, kvs))
      | inr _ => Some (KAdded false, (mode, kvs))
      end
  | KDelete didx key => '(st, kvs) ← kvstoreDictDelete type mode kvs didx key; Some (KStatus st, (mode, kvs))
  | KUnlink didx key =>
      '(r, kvs) ← kvstoreDictTwoPhaseUnlinkFind type mode kvs didx key;
      match r with
      | Some l => kvs ← kvstoreDictTwoPhaseUnlinkFree type mode kvs didx (Some l) (l_table l);
                  Some (KAdded true, (mode, kvs))
      | None => Some (KAdded false, (mode, kvs))
      end
  | KExpandDict didx size => '(_, kvs) ← kvstoreDictExpand type mode kvs didx (u64 size); Some (KNothing, (mode, kvs))
  | KExpand size => '(_, kvs) ← kvstoreExpand type mode kvs (u64 size) None (fun _ => false); Some (KNothing, (mode, kvs))
  | KTryResize limit => kvs ← kvstoreTryResizeDicts type mode kvs limit; Some (KNothing, (mode, kvs))
  | KEmpty cb => kvs ← kvstoreEmpty kvs cb; Some (KNothing, (mode, kvs))
  | KSize => n ← kvstoreSize kvs; Some (KNumber n, (mode, kvs))
  | KNext didx => n ← kvstoreGetNextNonEmptyDictIndex kvs didx; Some (KNumber n, (mode, kvs))
  | KSetResizeEnabled enable => Some (KNothing, (enable, kvs))
  end.

Abbreviation maps := (list (gmap C (K * V))).
Definition at_slot (ms : maps) (didx : Z) : gmap C (K * V) := default ∅ (ms !! Z.to_nat didx).
Definition set_slot (ms : maps) (didx : Z) (m : gmap C (K * V)) : maps := <[Z.to_nat didx := m]> ms.

(** The operations on the array of maps. *)
Definition kspec (ms : maps) (o : kop) : kresult * maps :=
  match o with
  | KFind didx key => (KEntry (at_slot ms didx !! canon key), ms)
  | KFetch didx key => (KValue (snd <$> at_slot ms didx !! canon key), ms)
  | KAdd didx key val =>
      match at_slot ms didx !! canon key with
      | Some _ => (KAdded false, ms)
      | None => (KAdded true, set_slot ms didx (<[canon key := (key, val)]> (at_slot ms didx)))
      end
  | KDelete didx key =>
      (KStatus (if at_slot ms didx !! canon key is Some _ then DICT_OK else DICT_ERR),
       set_slot ms didx (delete (canon key) (at_slot ms didx)))
  | KUnlink didx key =>
      (KAdded (if at_slot ms didx !! canon key is Some _ then true else false),
       set_slot ms didx (delete (canon key) (at_slot ms didx)))
  | KEmpty _ => (KNothing, repeat ∅ (length ms))
  | KSize => (KNumber (keys_total ms), ms)
  | KNext didx => (KNumber (next_nonempty ms didx), ms)
  | KExpandDict _ _ | KExpand _ | KTryResize _ | KSetResizeEnabled _ => (KNothing, ms)
  end.

(** The index an operation is given. *)
Definition kop_valid (num : Z) (o : kop) : Prop :=
  match o with
  | KFind didx _ | KFetch didx _ | KAdd didx _ _ | KDelete didx _ | KUnlink didx _ | KExpandDict didx _ | KNext didx =>
      0 <= didx < num
  | _ => True
  end.

Fixpoint krun (s : dictResizeEnable * kvstore) (os : list kop) : option (list kresult * (dictResizeEnable * kvstore)) :=
  match os with
  | [] => Some ([], s)
  | o :: os => '(r, s) ← kexec s o; '(rs, s) ← krun s os; Some (r :: rs, s)
  end.

Fixpoint kspec_run (ms : maps) (os : list kop) : list kresult * maps :=
  match os with
  | [] => ([], ms)
  | o :: os => let '(r, ms) := kspec ms o in let '(rs, ms) := kspec_run ms os in (r :: rs, ms)
  end.

Lemma maps_length kvs : kwf kvs -> zlen (kvs_maps kvs) = num_dicts kvs.
Proof. intros [Hk _]. unfold zlen, KvstoreSpec.kvs_maps. rewrite length_fmap. apply Hk. Qed.

Lemma kexec_sim mode kvs o :
  kwf kvs -> kop_valid (num_dicts kvs) o -> keys_total (kvs_maps kvs) + 1 < 2 ^ 64 ->
  exists mode' kvs', kexec (mode, kvs) o = Some ((kspec (kvs_maps kvs) o).1, (mode', kvs'))
    /\ kvs_now type canon kvs kvs' (kspec (kvs_maps kvs) o).2.
Proof.
  intros Hk Hv Hmax.
  assert (Hroom : room kvs) by (unfold room; rewrite (map_sizes type canon) by apply Hk; done).
  assert (Hid : kvs_now type canon kvs kvs (kvs_maps kvs)) by done.
  destruct o as [i key|i key|i key val|i key|i key|i sz|sz|lim|cb| |i|mode']; cbn [kexec kspec fst snd] in *.
  - destruct (kvs_find_spec type canon mode kvs i key Hk Hv) as (k' & -> & Hn). sbind. eauto.
  - destruct (kvs_fetch_spec type canon mode kvs i key Hk Hv) as (k' & -> & Hn). sbind. eauto.
  - destruct (kvs_addRaw_spec type canon indet mode kvs i key Hk Hv Hroom) as (r & k1 & d1 & -> & Hd1 & Hr). sbind.
    change (at_slot (kvs_maps kvs) i) with (map_at canon kvs i). destruct r as [l|l].
    + destruct Hr as (Hno & (Hk1 & Hm1 & Hn1) & l1 & b2 & l2 & Hat). rewrite Hno.
      destruct (kvs_setVal_spec type canon k1 i d1 l key indet l1 [] b2 l2 val Hk1 Hd1 Hat) as (k2 & -> & (Hk2 & Hm2 & Hn2)).
      sbind. eexists _, _. split; [done|]. split; [done|]. split; [|congruence].
      destruct (get_valid type canon kvs i (proj1 Hk) Hv) as (od & _ & Hod).
      assert (Hat1 : map_at canon k1 i = <[canon key := (key, indet)]> (map_at canon kvs i)).
      { unfold map_at at 1. rewrite Hm1, list_lookup_insert_eq; [done|].
        unfold KvstoreSpec.kvs_maps. rewrite length_fmap. by eapply lookup_lt_Some. }
      rewrite Hm2, Hm1, Hat1. unfold set_slot. by rewrite list_insert_insert_eq, insert_insert_eq.
    + destruct Hr as [[e He] Hn]. rewrite He. eauto.
  - destruct (kvs_delete_spec type canon mode kvs i key Hk Hv) as (k' & -> & Hn). sbind. eauto.
  - destruct (kvs_unlink_spec type canon mode kvs i key Hk Hv) as (r & k1 & -> & Hn1 & Hr). sbind.
    change (at_slot (kvs_maps kvs) i) with (map_at canon kvs i). destruct r as [l|].
    + destruct Hr as ([e ->] & k2 & -> & Hn2). sbind. eauto.
    + rewrite Hr. rewrite delete_id by done. unfold set_slot.
      rewrite (insert_map_at type canon kvs i (proj1 Hk) Hv). eauto.
  - destruct (kvs_expand_one_spec type canon mode kvs i (u64 sz) Hk Hv (wrap_range 64 _ ltac:(lia))) as (st & k' & -> & Hn).
    sbind. eauto.
  - unfold kvstoreExpand. pose proof (kd_cursor _ _ _ (proj1 Hk)).
    destruct (expand_loop_spec type canon mode (u64 sz) None (fun _ => false) (Z.to_nat (num_dicts kvs)) kvs 0 Hk
                (wrap_range 64 _ ltac:(lia))) as (b & k' & -> & Hn); [lia..|]. sbind. eauto.
  - unfold kvstoreTryResizeDicts. match goal with |- context [resize_loop _ _ ?n _] =>
      destruct (resize_loop_spec type canon mode n kvs Hk) as (k' & -> & Hn) end. sbind. eauto.
  - destruct (kvs_empty_spec type canon kvs cb Hk) as (k' & -> & Hk' & Hm' & Hn'). sbind. eexists _, _. split; [done|].
    split; [done|]. split; [|done]. rewrite Hm'. f_equal. rewrite <- (maps_length kvs Hk). apply to_nat_zlen.
  - rewrite (kvs_size_spec type canon kvs Hk). sbind. eauto.
  - rewrite (kvs_next_spec type canon kvs i Hk Hv Hroom). sbind. eauto.
  - eauto.
Qed.

Lemma total_set (ms : maps) i m :
  keys_total (set_slot ms i m) <= keys_total ms + Z.max 0 (Z.of_nat (size m) - Z.of_nat (size (at_slot ms i))).
Proof.
  unfold keys_total, set_slot, at_slot. destruct (ms !! Z.to_nat i) as [m0|] eqn:E.
  - rewrite list_fmap_insert, (zsum_insert _ _ (Z.of_nat (size m0))) by (by rewrite list_lookup_fmap, E). cbn. lia.
  - rewrite list_insert_ge by (by apply lookup_ge_None). lia.
Qed.

Lemma kspec_total ms o : keys_total (kspec ms o).2 <= keys_total ms + 1.
Proof.
  assert (Hdel : forall i c, keys_total (set_slot ms i (delete c (at_slot ms i))) <= keys_total ms + 1).
  { intros i c. pose proof (total_set ms i (delete c (at_slot ms i))).
    assert (size (delete c (at_slot ms i)) <= size (at_slot ms i))%nat; [|lia].
    apply map_subseteq_size, delete_subseteq. }
  destruct o; cbn [kspec snd]; try lia; try apply Hdel.
  - destruct (at_slot ms didx !! canon key) eqn:E; cbn [snd]; [lia|].
    pose proof (total_set ms didx (<[canon key := (key, val)]> (at_slot ms didx))) as Ht.
    rewrite map_size_insert_None in Ht by done. lia.
  - unfold keys_total at 1. rewrite fmap_repeat, map_size_empty, zsum_repeat_0.
    pose proof (zsum_nonneg ((fun m => Z.of_nat (size m)) <$> ms)) as Hnn. unfold keys_total.
    assert (0 <= zsum ((fun m => Z.of_nat (size m)) <$> ms)); [|lia]. apply Hnn, Forall_fmap, Forall_true. intros m. cbn. lia.
Qed.

Lemma krun_sim os : forall mode kvs,
  kwf kvs -> Forall (kop_valid (num_dicts kvs)) os -> keys_total (kvs_maps kvs) + zlen os < 2 ^ 64 ->
  exists mode' kvs', krun (mode, kvs) os = Some ((kspec_run (kvs_maps kvs) os).1, (mode', kvs'))
    /\ kwf kvs' /\ kvs_maps kvs' = (kspec_run (kvs_maps kvs) os).2.
Proof.
  induction os as [|o os IH]; intros mode kvs Hk Hv Hmax; cbn [krun kspec_run]; [by eexists _, _|].
  apply Forall_cons in Hv as [Ho Hv]. rewrite zlen_cons in Hmax. pose proof (zlen_nonneg os).
  destruct (kexec_sim mode kvs o Hk Ho) as (m1 & k1 & -> & (Hk1 & Hm1 & Hn1)); [lia|]. sbind.
  pose proof (kspec_total (kvs_maps kvs) o) as Htot. destruct (kspec (kvs_maps kvs) o) as [r ms1]. cbn [fst snd] in *.
  destruct (IH m1 k1 Hk1) as (m2 & k2 & Hrun & Hk2 & Hm2); [by rewrite Hn1|rewrite Hm1; lia|].
  rewrite Hm1 in Hrun, Hm2. rewrite Hrun. sbind. destruct (kspec_run ms1 os) as [rs ms2]. eauto.
Qed.

(** The buckets of a dictionary. *)
Definition slot_ht_size (od : option (@dict K V)) : Z :=
  match od with
  | Some d => DICTHT_SIZE (ht_size_exp (ht0 d)) + DICTHT_SIZE (ht_size_exp (ht1 d))
  | None => 0
  end.

Lemma buckets_sizes kvs : kwf kvs -> bucket_count kvs = u64 (zsum (slot_ht_size <$> dicts kvs)).
Proof.
  intros [Hk _]. rewrite (kd_buckets _ _ _ Hk). do 2 f_equal. apply list_fmap_ext. intros i [d|] Hd; cbn; [|done].
  destruct (kd_wf _ _ _ Hk _ _ Hd) as [W _]. apply W.
Qed.

(** ** The theorems *)

(** C3: Starting from a new store of [2 ^ bits] dictionaries, any sequence of
    lookups, additions, deletions, two-phase unlinkings, expansions, resizings,
    emptyings, size queries and searches of the next non-empty dictionary returns
    exactly what the operations on an array of finite maps return; no assertion
    fails, whether dictionaries are created on demand or freed when empty.  At the
    end the count of the keys, of the non-empty dictionaries and of the buckets
    are the ones of the dictionaries there are. *)
Theorem kvstore_refines_maps bits fl mode os :
  0 <= bits <= 16 -> Forall (kop_valid (2 ^ bits)) os -> zlen os < 2 ^ 64 ->
  exists kvs0 mode' kvs, kvstoreCreate bits fl = Some kvs0
    /\ krun (mode, kvs0) os = Some ((kspec_run (repeat ∅ (Z.to_nat (2 ^ bits))) os).1, (mode', kvs))
    /\ kvs_maps kvs = (kspec_run (repeat ∅ (Z.to_nat (2 ^ bits))) os).2
    /\ key_count kvs = keys_total (kvs_maps kvs)
    /\ kvstoreNumNonEmptyDicts kvs = zsum ((fun m => if (size m =? 0)%nat then 0 else 1) <$> kvs_maps kvs)
    /\ kvstoreNumAllocatedDicts kvs = zlen (filter is_Some (dicts kvs))
    /\ bucket_count kvs = u64 (zsum (slot_ht_size <$> dicts kvs)).
Proof.
  intros Hb Hv Hl. destruct (kvs_create_spec (V := V) type canon bits fl Hb) as (k0 & H0 & Hk0 & Hm0 & Hn0).
  destruct (krun_sim os mode k0 Hk0) as (m' & k & Hrun & Hk & Hm); [by rewrite Hn0| |].
  { rewrite Hm0. unfold keys_total. rewrite fmap_repeat, map_size_empty, zsum_repeat_0. lia. }
  rewrite Hm0 in *. exists k0, m', k. split; [done|]. split; [done|]. split; [done|].
  pose proof (map_sizes type canon k (proj1 Hk)) as Hs. destruct Hk as [Hkd Hkc].
  split; [by rewrite (kc_keys _ _ Hkc), Hs|]. split; [|split; [|by apply buckets_sizes]].
  - unfold kvstoreNumNonEmptyDicts. rewrite (kc_nonempty _ _ Hkc), Hs, <- list_fmap_compose. f_equal.
    apply list_fmap_ext. intros i m _. cbn. unfold nonzero. destruct (Nat.eqb_spec (size m) 0); zcase; done.
  - unfold kvstoreNumAllocatedDicts. rewrite (kd_alloc _ _ _ Hkd). unfold zlen.
    induction (dicts k) as [|[d|] l IH]; [done| |].
    + rewrite filter_cons_True, fmap_cons by eauto. unfold zsum in *. cbn [length foldr slot_alloc]. lia.
    + rewrite filter_cons_False, fmap_cons by (by intros [? ?]). unfold zsum in *. cbn [foldr slot_alloc]. lia.
Qed.

(** C29: For every number of a key, from 1 to the number of keys,
    [kvstoreFindDictIndexByKeyIndex] returns the dictionary that holds the key
    with this number when the keys are counted dictionary by dictionary, so a
    random number gives every dictionary in proportion to its size, and
    [kvstoreGetNextNonEmptyDictIndex] returns the next dictionary with a key, or
    -1 if there is none. *)
Theorem kvstoreIndex_correct kvs :
  kwf kvs -> room kvs ->
  (forall target, 1 <= target <= keys_total (kvs_maps kvs) ->
    exists r, kvstoreFindDictIndexByKeyIndex kvs target = Some r /\ 0 <= r < num_dicts kvs
      /\ keys_before (kvs_maps kvs) r < target
         <= keys_before (kvs_maps kvs) r + Z.of_nat (size (at_slot (kvs_maps kvs) r)))
  /\ (forall rnd, 0 <= rnd -> 0 < keys_total (kvs_maps kvs) ->
    exists r, kvstoreGetFairRandomDictIndex rnd kvs = Some r /\ 0 <= r < num_dicts kvs
      /\ keys_before (kvs_maps kvs) r <= rnd mod keys_total (kvs_maps kvs)
         < keys_before (kvs_maps kvs) r + Z.of_nat (size (at_slot (kvs_maps kvs) r)))
  /\ (forall didx, 0 <= didx < num_dicts kvs ->
    kvstoreGetNextNonEmptyDictIndex kvs didx = Some (next_nonempty (kvs_maps kvs) didx)).
Proof.
  intros Hk Hr.
  assert (Hfind : forall target, 1 <= target <= keys_total (kvs_maps kvs) ->
    exists r, kvstoreFindDictIndexByKeyIndex kvs target = Some r /\ 0 <= r < num_dicts kvs
      /\ keys_before (kvs_maps kvs) r < target
         <= keys_before (kvs_maps kvs) r + Z.of_nat (size (at_slot (kvs_maps kvs) r))).
  { intros target Ht. destruct (kvs_find_index_spec type canon kvs target Hk Ht) as (r & E & Hv & Hlt).
    rewrite (keys_before_step type canon kvs r Hv (proj1 Hk)) in Hlt. exists r. done. }
  split; [done|]. split.
  - intros rnd Hrnd Hpos. unfold kvstoreGetFairRandomDictIndex. rewrite (kvs_size_spec type canon kvs Hk). sbind.
    destruct (Z.eqb_spec (keys_total (kvs_maps kvs)) 0); [lia|]. cbn [negb].
    pose proof (Z.mod_pos_bound rnd (keys_total (kvs_maps kvs)) Hpos).
    destruct (Hfind (rnd mod keys_total (kvs_maps kvs) + 1)) as (r & -> & Hv & Hlt); [lia|].
    exists r. split; [done|]. split; [done|]. lia.
  - intros didx Hd. by apply (kvs_next_spec type canon).
Qed.

End refine.

(** ** A store of four dictionaries, created on demand and freed when empty *)

Definition sample_kops : list (@kop Z Z) :=
  [KAdd 2 1 10; KAdd 2 (-5) 50; KAdd 0 7 70; KAdd 2 5 51; KDelete 0 7; KUnlink 1 3; KSize; KNext 0; KFetch 2 5].

Definition sample_kresults : list (@kresult Z Z) :=
  [KAdded true; KAdded true; KAdded true; KAdded false; KStatus DICT_OK; KAdded false; KNumber 2; KNumber 2;
   KValue (Some 50)].

Lemma sample_kops_valid : Forall (kop_valid 4) sample_kops.
Proof. unfold sample_kops. repeat apply Forall_cons_2; try apply Forall_nil_2; cbn; lia || done. Qed.

Lemma kvstore_refines_maps_witness :
  exists kvs0 mode kvs, kvstoreCreate 2 3 = Some kvs0
    /\ krun absType 0 (DICT_RESIZE_ENABLE, kvs0) sample_kops = Some (sample_kresults, (mode, kvs))
    /\ key_count kvs = 2 /\ kvstoreNumNonEmptyDicts kvs = 1.
Proof.
  destruct (kvstore_refines_maps absType Z.abs 0 2 3 DICT_RESIZE_ENABLE sample_kops)
    as (k0 & mode & kvs & H1 & H2 & H3 & H4 & H5 & _).
  - lia.
  - exact sample_kops_valid.
  - by vm_compute.
  - rewrite H3 in H4, H5.
    assert (Hr : (kspec_run Z.abs (repeat ∅ (Z.to_nat (2 ^ 2))) sample_kops).1 = sample_kresults) by (by vm_compute).
    assert (Ht : keys_total (kspec_run Z.abs (repeat ∅ (Z.to_nat (2 ^ 2))) sample_kops).2 = 2) by (by vm_compute).
    assert (Hn : zsum ((fun m => if (size m =? 0)%nat then 0 else 1) <$>
      (kspec_run Z.abs (repeat ∅ (Z.to_nat (2 ^ 2))) sample_kops).2) = 1) by (by vm_compute).
    rewrite Hr in H2. rewrite Ht in H4. rewrite Hn in H5. exists k0, mode, kvs. split; [exact H1|]. split; [exact H2|].
    split; [exact H4|exact H5].
Defined.

Definition sample_kvs : @kvstore Z Z :=
  match (k0 ← kvstoreCreate 2 3; krun absType 0 (DICT_RESIZE_ENABLE, k0) sample_kops) with
  | Some (_, (_, kvs)) => kvs
  | None => mkKvs 0 [] 0 0 0 0 0 0 0 None
  end.

Lemma sample_kvs_ok :
  kwf absType Z.abs sample_kvs /\ kvs_maps Z.abs sample_kvs = (kspec_run Z.abs (repeat ∅ 4) sample_kops).2.
Proof.
  destruct (kvs_create_spec (V := Z) absType Z.abs 2 3) as (k0 & H0 & Hk0 & Hm0 & Hn0); [lia|].
  destruct (krun_sim absType Z.abs 0 sample_kops DICT_RESIZE_ENABLE k0 Hk0) as (mode & kvs & Hrun & Hk & Hm).
  - rewrite Hn0. exact sample_kops_valid.
  - rewrite Hm0. by vm_compute.
  - unfold sample_kvs. rewrite H0. sbind. rewrite Hrun. split; [exact Hk|]. rewrite Hm, Hm0. reflexivity.
Qed.

Lemma kvstoreIndex_correct_witness :
  exists r, kvstoreFindDictIndexByKeyIndex sample_kvs 2 = Some r /\ 0 <= r < 4.
Proof.
  assert (Hn : num_dicts sample_kvs = 4) by (by vm_compute).
  destruct (kvstoreIndex_correct absType Z.abs sample_kvs) as (Hf & _ & _).
  - apply sample_kvs_ok.
  - by vm_compute.
  - destruct (Hf 2) as (r & H1 & H2 & _).
    + rewrite (proj2 sample_kvs_ok). split; by vm_compute.
    + exists r. rewrite Hn in H2. split; [exact H1|exact H2].
Defined.
