(* ===== verification/KvstoreScan.v ===== *)
(** * A scan of the whole store misses no element

    [kvstoreScan] walks the dictionaries in the order of their indices with the
    cursor of the dictionary in the upper bits and its index in the lower ones.
    On top of the completeness of the scan of one dictionary ([DictScan]) and of
    the search of the next non-empty one ([KvstoreSpec]), a scan of the store
    emits every element that stays in it, whatever else happens to the store
    between the calls. *)

From stdpp Require Import gmap.
From S2P Require Import Prelude Dict DictSpec DictMap DictRefine DictScan.
From S2P Require Import Kvstore KvstoreIndex KvstoreSpec KvstoreRefine.

(** ** The cursor of a dictionary fits its tables *)

Lemma next_cursor_bound e v : 0 <= e <= 64 -> 0 <= v < 2 ^ 64 -> 0 <= next_cursor (2 ^ e - 1) v < 2 ^ e.
Proof.
  intros He Hv. destruct (next_cursor_rev e v He Hv) as [Hr Hrev]. apply bits_below_range; [lia|].
  intros i Hi. destruct (decide (i < 64)); [|apply (bits_above _ 64); lia].
  replace i with (63 - (63 - i)) by lia. rewrite <- rev_bits by lia. rewrite Hrev.
  rewrite Z.mod_pow2_bits_low by lia. apply Z.mul_pow2_bits_low. lia.
Qed.

#[local] Opaque rev next_cursor.

Section scan.
Context {K V C : Type} `{EqDecision K} `{Countable C}.
Context (type : @dictType K) (canon : K -> C) `{!DictKeys type canon}.

Abbreviation dict := (@dict K V).
Abbreviation kvstore := (@kvstore K V).
Abbreviation wf := (wf type canon).
Abbreviation kwf := (kwf type canon).
Abbreviation dict_map := (dict_map canon).
Abbreviation map_at := (map_at canon).
Abbreviation hash := (hashFunction type).
Implicit Types d : dict.
Implicit Types kvs : kvstore.

(** Tables of at most [2 ^ e] buckets. *)
Definition fits (e : Z) d : Prop := ht_size_exp (ht0 d) <= e /\ ht_size_exp (ht1 d) <= e.

Lemma expansions_bound fuel : forall (t1 : @ht K V) m0 e v v' out,
  0 <= e <= 64 -> 0 <= v < 2 ^ 64 -> scan_expansions fuel t1 m0 (2 ^ e - 1) v = Some (v', out) -> 0 <= v' < 2 ^ e.
Proof.
  induction fuel as [|fuel IH]; intros t1 m0 e v v' out He Hv Hs; cbn [scan_expansions] in Hs; [done|].
  destruct (get_bucket _ _) as [b|]; [|done]. revert Hs. sbind.
  pose proof (next_cursor_bound e v He Hv) as Hb. pose proof (Z.pow_le_mono_r 2 e 64 ltac:(lia)).
  destruct (negb _); [|by intros [= <- _]].
  destruct (scan_expansions fuel t1 m0 (2 ^ e - 1) (next_cursor (2 ^ e - 1) v)) as [[v1 out1]|] eqn:E; [|done].
  sbind. intros [= <- _]. eapply IH; [|..|exact E]; lia.
Qed.

Lemma scan_bound d v v' out e :
  wf d -> fits e d -> 0 <= e <= 64 -> 0 <= v < 2 ^ 64 -> dictScan d v = Some (v', out) -> 0 <= v' < 2 ^ e.
Proof.
  intros W [F0 F1] He Hv. unfold dictScan. pose proof (Z.pow_pos_nonneg 2 e).
  destruct (Z.eqb_spec (dictSize d) 0) as [|Hsz]; [intros [= <- _]; lia|].
  pose proof (nonempty_alloc type canon d W Hsz) as Ha.
  pose proof (shape_exp _ _ (proj1 (wf_ht0 _ _ _ W)) Ha) as He0.
  assert (Hmono : forall a x, 0 <= a <= e -> 0 <= x < 2 ^ a -> 0 <= x < 2 ^ e).
  { intros a x Ha' Hx. pose proof (Z.pow_le_mono_r 2 a e). lia. }
  destruct (dictIsRehashing d) eqn:Er; cbn [negb].
  - apply is_rehashing in Er. destruct (wf_alloc _ _ d W Er) as [_ Ha1].
    pose proof (shape_exp _ _ (proj1 (wf_ht1 _ _ _ W)) Ha1) as He1.
    destruct (_ >? _).
    + rewrite !mask_exp by lia. destruct (get_bucket _ _) as [b|]; [|done]. sbind.
      destruct (scan_expansions _ _ _ _ _) as [[v1 o1]|] eqn:E; [|done]. sbind. intros [= <- _].
      apply (Hmono (ht_size_exp (ht0 d))); [lia|]. eapply expansions_bound; [|done|exact E]. lia.
    + rewrite !mask_exp by lia. destruct (get_bucket _ _) as [b|]; [|done]. sbind.
      destruct (scan_expansions _ _ _ _ _) as [[v1 o1]|] eqn:E; [|done]. sbind. intros [= <- _].
      apply (Hmono (ht_size_exp (ht1 d))); [lia|]. eapply expansions_bound; [|done|exact E]. lia.
  - rewrite mask_exp by lia. destruct (get_bucket _ _) as [b|]; [|done]. sbind. intros [= <- _].
    apply (Hmono (ht_size_exp (ht0 d))); [lia|]. apply next_cursor_bound; lia.
Qed.

(** ** The cursor of the store *)

(** The cursor that stands for a dictionary and a cursor of it. *)
Definition encode kvs (didx c : Z) : Z := addDictIndexToCursor kvs didx c.

Lemma encode_decode kvs didx c :
  kdicts type canon kvs -> valid kvs didx -> 0 <= c < 2 ^ (64 - num_dicts_bits kvs) ->
  getAndClearDictIndexFromCursor kvs (encode kvs didx c) = (didx, c)
  /\ (0 < didx \/ c <> 0 -> encode kvs didx c <> 0).
Proof.
  intros Hk [H0 H1] Hc. unfold encode, addDictIndexToCursor, getAndClearDictIndexFromCursor.
  pose proof (kd_bits _ _ _ Hk) as Hb. pose proof (kd_num _ _ _ Hk) as Hn.
  destruct (Z.eqb_spec (num_dicts kvs) 1) as [E1|E1].
  { split; [f_equal; lia|]. lia. }
  destruct (Z.ltb_spec didx 0); [lia|].
  assert (Hp : 2 ^ 64 = 2 ^ (64 - num_dicts_bits kvs) * 2 ^ num_dicts_bits kvs)
    by (rewrite <- Z.pow_add_r by lia; f_equal; lia).
  rewrite Z.shiftl_mul_pow2, wrap_small, <- Z.shiftl_mul_pow2 by nia.
  rewrite shiftl_lor by lia. rewrite (land_mod _ (num_dicts_bits kvs)) by lia. rewrite shiftr_div by lia.
  rewrite Hn in H1. split.
  - rewrite Z.mod_add, Z.mod_small, Z.div_add, Z.div_small by lia. done.
  - nia.
Qed.

(** A dictionary to be scanned, and the position in it. *)
Definition scan_at kvs (v didx c : Z) : Prop :=
  getAndClearDictIndexFromCursor kvs v = (didx, c) /\ valid kvs didx /\ 0 <= c < 2 ^ 64.

(** One call: what it emits, and where the scan goes on. *)
Lemma kvs_scan_spec kvs v didx c :
  kwf kvs -> room kvs -> (forall i d, dicts kvs !! i = Some (Some d) -> fits (64 - num_dicts_bits kvs) d) ->
  scan_at kvs v didx c ->
  exists c' out kvs' v', kvstoreScan kvs v (-1) None = Some (v', out, kvs')
    /\ kvs_now type canon kvs kvs' (kvs_maps canon kvs)
    /\ 0 <= c' < 2 ^ (64 - num_dicts_bits kvs)
    /\ (match dicts kvs !! Z.to_nat didx with
        | Some (Some d) => dictScan d c = Some (c', out)
        | _ => c' = 0 /\ out = []
        end)
    /\ v' = (if c' =? 0 then
               let next := next_nonempty (kvs_maps canon kvs) didx in
               if next =? -1 then 0 else encode kvs next 0
             else encode kvs didx c').
Proof.
  intros Hk Hroom Hfit (Hdec & Hval & Hc). unfold kvstoreScan. rewrite Hdec. cbn [Z.geb Z.compare andb].
  pose proof (kd_bits _ _ _ (proj1 Hk)) as Hb. pose proof (Z.pow_pos_nonneg 2 (64 - num_dicts_bits kvs)).
  destruct (get_valid type canon kvs didx (proj1 Hk) Hval) as (od & E & Hod). rewrite E, Hod. sbind.
  assert (Hrest : forall kvs' c' (out : list (K * V)) (skip : bool), kvs_now type canon kvs kvs' (kvs_maps canon kvs) ->
    num_dicts_bits kvs' = num_dicts_bits kvs -> (skip = true -> c' = 0) ->
    (if (c' =? 0) || skip then
       didx ← kvstoreGetNextNonEmptyDictIndex kvs' didx;
       if didx =? -1 then Some (0, out, kvs') else Some (addDictIndexToCursor kvs' didx c', out, kvs')
     else Some (addDictIndexToCursor kvs' didx c', out, kvs'))
    = Some (if c' =? 0 then let next := next_nonempty (kvs_maps canon kvs) didx in
              if next =? -1 then 0 else encode kvs next 0 else encode kvs didx c', out, kvs')).
  { intros kvs' c' out skip (Hk' & Hm' & Hn') Hbits Hskip.
    assert (Henc : forall i x, addDictIndexToCursor kvs' i x = encode kvs i x).
    { intros i x. unfold encode, addDictIndexToCursor. by rewrite Hn', Hbits. }
    assert (Hnext : kvstoreGetNextNonEmptyDictIndex kvs' didx = Some (next_nonempty (kvs_maps canon kvs) didx)).
    { rewrite <- Hm'. apply (kvs_next_spec type canon); [done|unfold valid in *; by rewrite Hn'|].
      unfold room in *. rewrite (map_sizes type canon) in * by apply Hk || apply Hk'. by rewrite Hm'. }
    rewrite Hnext. destruct (Z.eqb_spec c' 0) as [->|Hne]; cbn [orb].
    - sbind. rewrite !Henc. by destruct (_ =? -1).
    - destruct skip; [exfalso; auto|]. by rewrite Henc. }
  destruct od as [d|].
  - destruct (kd_wf _ _ _ (proj1 Hk) _ _ Hod) as [W _]. pose proof (Hfit _ _ Hod) as Hf.
    assert (Hsc : exists c' out, dictScan d c = Some (c', out)).
    { destruct (decide (dictSize d = 0)) as [E0|Hne].
      - unfold dictScan. rewrite E0. by eexists _, _.
      - destruct (scan_step type canon d c W Hne Hc) as (c' & out & -> & _). by eexists _, _. }
    destruct Hsc as (c' & out & Hsc). rewrite Hsc. sbind.
    destruct (freeDict_spec type canon kvs didx (proj1 Hk) Hval) as (k' & Hfree & Hkd & Hfr & _ & Hsz & Hm).
    rewrite Hfree. sbind. exists c', out, k'. eexists. rewrite Hrest.
    + split; [done|]. split; [|split; [|done]].
      * split; [|split; [done|apply Hfr]]. split; [done|]. rewrite Hsz. by apply (kframe_counts kvs), Hk.
      * eapply scan_bound; [exact W|exact Hf| |exact Hc|exact Hsc]. lia.
    + split; [|split; [done|apply Hfr]]. split; [done|]. rewrite Hsz. by apply (kframe_counts kvs), Hk.
    + apply Hfr.
    + done.
  - exists 0, [], kvs. eexists. split; [by apply (Hrest kvs 0 [] true)|]. split; [done|]. split; [lia|]. done.
Qed.

(** The search of the next dictionary does not pass one with a key. *)
Lemma next_reaches kvs didx j :
  kwf kvs -> 0 <= didx < j -> j < num_dicts kvs -> size (map_at kvs j) <> 0%nat ->
  didx < next_nonempty (kvs_maps canon kvs) didx <= j.
Proof.
  intros Hk Hd Hj Hsz. unfold next_nonempty.
  assert (Hlook : drop (Z.to_nat (didx + 1)) (kvs_maps canon kvs) !! Z.to_nat (j - (didx + 1)) = Some (map_at kvs j)).
  { rewrite lookup_drop. replace (Z.to_nat (didx + 1) + Z.to_nat (j - (didx + 1)))%nat with (Z.to_nat j) by lia.
    destruct (get_valid type canon kvs j (proj1 Hk)) as (od & _ & Hod); [split; lia|].
    rewrite (map_at_slot canon kvs j od Hod). unfold kvs_maps. by rewrite list_lookup_fmap, Hod. }
  destruct (list_find _ _) as [[i m]|] eqn:Ef.
  - apply list_find_Some in Ef as (_ & _ & Hbefore). split; [lia|].
    destruct (decide (Z.to_nat (j - (didx + 1)) < i)%nat) as [Hlt|]; [|lia].
    exfalso. by apply (Hbefore _ _ Hlook Hlt).
  - apply list_find_None in Ef. rewrite Forall_forall in Ef. exfalso. apply (Ef (map_at kvs j)); [|done].
    by eapply list_elem_of_lookup_2.
Qed.

(** ** Whole scans *)

Context (bits : Z).

(** A store of [2 ^ bits] dictionaries whose tables leave room in the cursor for
    the index. *)
Record scannable kvs : Prop := {
  sc_wf : kwf kvs;
  sc_room : room kvs;
  sc_bits : num_dicts_bits kvs = bits;
  sc_fits : forall i d, dicts kvs !! i = Some (Some d) -> fits (64 - bits) d;
}.

(** The calls of a scan: the cursor before, the store each call was given and what
    it emitted, the cursor after.  Between two calls the store becomes any other. *)
Inductive kscanning : Z -> list (kvstore * list (K * V)) -> Z -> Prop :=
  | kscan_nil v : kscanning v [] v
  | kscan_call kvs kvs' v v1 out tr v2 :
      scannable kvs -> kvstoreScan kvs v (-1) None = Some (v1, out, kvs') -> kscanning v1 tr v2 ->
      kscanning v ((kvs, out) :: tr) v2.

(** The key is in dictionary [j] at every call. *)
Definition kpresent (j : Z) (c : C) (tr : list (kvstore * list (K * V))) : Prop :=
  Forall (fun '(kvs, _) => is_Some (map_at kvs j !! c)) tr.

(** The place of the cursor [v] is before the key, or in its dictionary at a
    position that is not after it. *)
Definition ahead (v j : Z) (key : K) : Prop :=
  exists didx c, (forall kvs, scannable kvs -> scan_at kvs v didx c)
    /\ (didx < j \/ (didx = j /\ rev c <= rev (hash key))).

Lemma scannable_num kvs : scannable kvs -> num_dicts kvs = 2 ^ bits /\ 0 <= bits <= 16.
Proof.
  intros Hs. pose proof (sc_bits _ Hs) as <-. split; [apply (kd_num type canon kvs), Hs|apply (kd_bits type canon kvs), Hs].
Qed.

Lemma encode_ahead kvs didx c j key :
  scannable kvs -> valid kvs didx -> 0 <= c < 2 ^ (64 - bits) ->
  didx < j \/ (didx = j /\ rev c <= rev (hash key)) -> ahead (encode kvs didx c) j key.
Proof.
  intros Hs Hv Hc Hj. exists didx, c. split; [|done]. intros k2 Hs2.
  destruct (scannable_num kvs Hs) as [Hn Hb]. destruct (scannable_num k2 Hs2) as [Hn2 _].
  assert (He : encode kvs didx c = encode k2 didx c).
  { unfold encode, addDictIndexToCursor. by rewrite Hn, Hn2, (sc_bits _ Hs), (sc_bits _ Hs2). }
  unfold valid in Hv. rewrite He. split; [|split; [split; lia|]].
  - apply (encode_decode k2 didx c); [apply Hs2|split; lia|]. by rewrite (sc_bits _ Hs2).
  - pose proof (Z.pow_le_mono_r 2 (64 - bits) 64). lia.
Qed.

Lemma kscanning_covers v tr v2 :
  kscanning v tr v2 -> forall j key, tr <> [] -> v2 = 0 -> 0 <= j < 2 ^ bits -> kpresent j (canon key) tr ->
  ahead v j key ->
  Exists (fun '(kvs, out) => exists e, map_at kvs j !! canon key = Some e /\ e ∈ out) tr.
Proof.
  induction 1 as [|kvs kvs' v v1 out tr v2 Hs Hscan Htr IH]; intros j key Hne Hz Hj Hp Hah; [done|].
  apply Forall_cons in Hp as [[e He] Hp]. destruct Hah as (didx & c & Hat & Hpos).
  pose proof (Hat kvs Hs) as Hatk. destruct Hatk as (Hdec & Hval & Hc).
  destruct (scannable_num kvs Hs) as [Hn Hb].
  assert (Hfit : forall i d, dicts kvs !! i = Some (Some d) -> fits (64 - num_dicts_bits kvs) d)
    by (rewrite (sc_bits _ Hs); apply Hs).
  destruct (kvs_scan_spec kvs v didx c (sc_wf _ Hs) (sc_room _ Hs) Hfit (Hat kvs Hs))
    as (c' & out' & kvs'' & v' & Heq & _ & Hc' & Hd & Hv').
  rewrite Hscan in Heq. injection Heq as <- <- <-. rewrite (sc_bits _ Hs) in Hc'.
  assert (Hszj : size (map_at kvs j) <> 0%nat).
  { intros E%map_size_empty_inv. by rewrite E, lookup_empty in He. }
  (* the scan goes on at a place that is still ahead *)
  assert (Hcont : forall i x, valid kvs i -> 0 <= x < 2 ^ (64 - bits) -> v1 = encode kvs i x -> 0 < i \/ x <> 0 ->
    i < j \/ (i = j /\ rev x <= rev (hash key)) ->
    Exists (fun '(kvs, out) => exists e, map_at kvs j !! canon key = Some e /\ e ∈ out) tr).
  { intros i x Hi Hx Hv1 Hnz Hij. apply IH; [|done|done|done|].
    - intros ->. assert (Hv12 : v1 = v2) by (by inversion Htr).
      apply (encode_decode kvs i x); [apply Hs|done|by rewrite (sc_bits _ Hs)|done|congruence].
    - rewrite Hv1. by apply encode_ahead. }
  assert (Hnext : didx < j -> c' = 0 ->
    Exists (fun '(kvs, out) => exists e, map_at kvs j !! canon key = Some e /\ e ∈ out) tr).
  { intros Hlt ->. pose proof (next_reaches kvs didx j (sc_wf _ Hs) ltac:(destruct Hval; lia) ltac:(lia) Hszj) as Hr.
    cbn [Z.eqb] in Hv'. cbv zeta in Hv'. rewrite (proj2 (Z.eqb_neq _ _)) in Hv' by (destruct Hval; lia).
    apply (Hcont (next_nonempty (kvs_maps canon kvs) didx) 0); [unfold valid in *; lia|lia|done|destruct Hval; lia|].
    destruct (decide (next_nonempty (kvs_maps canon kvs) didx = j)); [right|left; lia].
    split; [done|]. rewrite rev_0. apply rev_range, hash_range. }
  destruct Hpos as [Hlt|[-> Hle]].
  - apply Exists_cons_tl. destruct (decide (c' = 0)) as [Hz'|Hnz]; [by apply Hnext|].
    rewrite (proj2 (Z.eqb_neq _ _) Hnz) in Hv'. apply (Hcont didx c'); [done|done|done|by right|by left].
  - destruct (get_valid type canon kvs j (proj1 (sc_wf _ Hs)) Hval) as (od & _ & Hod). rewrite Hod in Hd.
    rewrite (map_at_slot canon kvs j od Hod) in He, Hszj. destruct od as [d|]; [|by cbn [slot_map] in He; rewrite lookup_empty in He].
    cbn [slot_map] in He, Hszj. destruct (kd_wf _ _ _ (proj1 (sc_wf _ Hs)) _ _ Hod) as [W _].
    destruct (scan_step type canon d c W) as (c1 & o1 & Heq & Hc1 & _ & Hcov & _); [|done|].
    { rewrite (dictSize_map type canon d W). lia. }
    rewrite Hd in Heq. injection Heq as <- <-.
    pose proof (proj1 (dict_map_Some type canon d _ _ W) He) as [Hin Hce].
    assert (Hp' : pos type e = rev (hash key)) by (unfold pos; by rewrite (hash_canon _ _ Hce)).
    destruct (decide (pos type e < top c')) as [Hlt|Hge].
    + apply Exists_cons_hd. exists e. rewrite (map_at_slot canon kvs j _ Hod). split; [done|]. apply Hcov; [done|]. lia.
    + apply Exists_cons_tl. unfold top in Hge. pose proof (pos_range type canon e). revert Hge.
      destruct (Z.eqb_spec c' 0) as [|Hnz]; [lia|]. intros Hge. apply (Hcont j c'); [done|done|done|by right|].
      right. split; [done|]. lia.
Qed.

(** C12: Every element that is in the store at each call of a scan of the whole
    store, from cursor 0 until the cursor is 0 again, is emitted by one of the
    calls, although the dictionaries are walked one after the other and the
    dictionaries, the keys and the tables may change in any way between the calls
    (the tables leaving the room for the index in the cursor that [kvstoreCreate]
    asks for: at most [2 ^ (64 - bits)] buckets). *)
Theorem kvstoreScan_complete tr j key :
  kscanning 0 tr 0 -> tr <> [] -> 0 <= j < 2 ^ bits -> kpresent j (canon key) tr ->
  Exists (fun '(kvs, out) => exists e, map_at kvs j !! canon key = Some e /\ e ∈ out) tr.
Proof.
  intros Hs Hne Hj Hp. eapply kscanning_covers; [exact Hs|done|done|done|done|].
  exists 0, 0. split.
  - intros kvs Hk. destruct (scannable_num kvs Hk) as [Hn Hb]. unfold scan_at, getAndClearDictIndexFromCursor.
    rewrite Z.land_0_l, Z.shiftr_0_l. split; [by destruct (_ =? 1)|]. split; [split; lia|lia].
  - destruct (decide (j = 0)) as [->|]; [right|left; lia]. split; [done|]. rewrite rev_0. apply rev_range, hash_range.
Qed.

End scan.

(** ** A scan of the sample store *)

Fixpoint kscan_with (stores : list (@kvstore Z Z)) (v : Z) : option (list (@kvstore Z Z * list (Z * Z)) * Z) :=
  match stores with
  | [] => Some ([], v)
  | kvs :: stores =>
      '(v1, out, _) ← kvstoreScan kvs v (-1) None; '(tr, v2) ← kscan_with stores v1; Some ((kvs, out) :: tr, v2)
  end.

Lemma kscan_with_scanning bits stores : forall v tr v2,
  Forall (scannable absType Z.abs bits) stores -> kscan_with stores v = Some (tr, v2) ->
  kscanning absType Z.abs bits v tr v2 /\ tr.*1 = stores.
Proof.
  induction stores as [|kvs stores IH]; intros v tr v2 Hw Heq; cbn in Heq; [simplify_eq; split; [constructor|done]|].
  apply Forall_cons in Hw as [W Hw]. destruct (kvstoreScan kvs v (-1) None) as [[[v1 out] kvs']|] eqn:E; [|done]. cbn in Heq.
  destruct (kscan_with stores v1) as [[tr' v2']|] eqn:E'; [|done]. cbn in Heq. simplify_eq.
  destruct (IH v1 tr' v2 Hw E') as [Hs Ht]. split; [by econstructor|]. cbn. by rewrite Ht.
Qed.

Definition sample_stores : list (@kvstore Z Z) := repeat sample_kvs 5.
Definition sample_ktrace : list (@kvstore Z Z * list (Z * Z)) :=
  match kscan_with sample_stores 0 with Some (tr, _) => tr | None => [] end.

Lemma sample_kscanned : kscan_with sample_stores 0 = Some (sample_ktrace, 0).
Proof. by vm_compute. Qed.

Definition fits_b (e : Z) (od : option (@dict Z Z)) : bool :=
  match od with Some d => (ht_size_exp (ht0 d) <=? e) && (ht_size_exp (ht1 d) <=? e) | None => true end.

Lemma sample_scannable : scannable absType Z.abs 2 sample_kvs.
Proof.
  constructor.
  - apply sample_kvs_ok.
  - by vm_compute.
  - by vm_compute.
  - assert (Hall : forallb (fits_b 62) (dicts sample_kvs) = true) by (by vm_compute).
    intros i d Hd. rewrite forallb_forall in Hall. specialize (Hall (Some d)).
    apply list_elem_of_lookup_2, list_elem_of_In in Hd. specialize (Hall Hd). unfold fits_b in Hall.
    unfold fits. lia.
Qed.

Lemma kvstoreScan_complete_witness :
  Exists (fun '(kvs, out) => exists e, map_at Z.abs kvs 2 !! Z.abs (-5) = Some e /\ e ∈ out) sample_ktrace.
Proof.
  assert (Hall : Forall (scannable absType Z.abs 2) sample_stores)
    by (repeat apply Forall_cons_2; try apply Forall_nil_2; exact sample_scannable).
  destruct (kscan_with_scanning 2 sample_stores 0 sample_ktrace 0 Hall sample_kscanned) as [Hs Ht].
  apply (kvstoreScan_complete absType Z.abs 2 sample_ktrace 2 (-5)).
  - exact Hs.
  - intros Hn. rewrite Hn in Ht. discriminate Ht.
  - split; by vm_compute.
  - unfold kpresent. apply Forall_forall. intros [kvs out] Hin.
    apply (list_elem_of_fmap_2 fst) in Hin. rewrite Ht in Hin. apply list_elem_of_In, repeat_spec in Hin. cbn in Hin. subst kvs.
    unfold map_at. rewrite (proj2 sample_kvs_ok). exists (-5, 50). by vm_compute.
Defined.
