(* ===== verification/Zskiplist.v ===== *)
(** * t_zset.c: the skiplist of the sorted sets

    The code of the skiplist on a heap of nodes: creation, insertion, deletion,
    score update, ranks, ranges by score and by name.  A pointer is an address
    of the heap, [None] the null pointer; a function returns [None] when it
    reads or writes through a null or dangling pointer or past the levels of a
    node, or when an assertion fails.  [ZskiplistSpec] states what a heap
    represents, [ZskiplistOps] and [ZskiplistRange] what the operations do.

    Scores are IEEE doubles, as the [spec_float] of the standard library with
    their comparisons; strings are lists of bytes.  [malloc] and [random] are
    functions of the C library: the address a node is given is the parameter
    [zmalloc], what fresh memory holds the parameter [junk], and the values
    [random] returns are a list that the calls consume. *)

From Stdlib Require Import SpecFloat.
From stdpp Require Import gmap.
From S2P Require Import Prelude.

Abbreviation double := spec_float.
Abbreviation sds := (list Z).
Abbreviation ptr := positive.

(** ** Doubles and strings *)

Definition isnan (x : double) : bool := match x with S754_nan => true | _ => false end.

Notation "x <. y" := (SFltb x y) (at level 68, no associativity).
Notation "x <=. y" := (SFleb x y) (at level 68, no associativity).
Notation "x ==. y" := (SFeqb x y) (at level 68, no associativity).

(** [memcmp(s1, s2, min(l1, l2))]: the difference of the first bytes that differ. *)
Fixpoint memcmp (s1 s2 : sds) : Z :=
  match s1, s2 with
  | a :: s1, b :: s2 => if a =? b then memcmp s1 s2 else a - b
  | _, _ => 0
  end.

Definition sdscmp (s1 s2 : sds) : Z :=
  let l1 := zlen s1 in
  let l2 := zlen s2 in
  let cmp := memcmp s1 s2 in
  if cmp =? 0 then (if l1 >? l2 then 1 else if l1 <? l2 then -1 else 0) else cmp.

(** ** Data *)

Definition ZSKIPLIST_MAXLEVEL : nat := 32.
Definition ZSKIPLIST_MAX_SEARCH : Z := 10.

Record zskiplistLevel := mkLevel { forward : option ptr; span : Z }.
Record zskiplistNode := mkNode {
  ele : option sds;
  score : double;
  backward : option ptr;
  level : list zskiplistLevel;
}.
Record zskiplist := mkZsl {
  header : ptr;
  tail : option ptr;
  zsl_length : Z;
  zsl_level : nat;
}.

Abbreviation heap := (gmap ptr zskiplistNode).

Definition with_levels (n : zskiplistNode) (l : list zskiplistLevel) : zskiplistNode :=
  mkNode (ele n) (score n) (backward n) l.

(** [x->level[i]], its members and their assignment. *)
Definition get_level (h : heap) (x : ptr) (i : nat) : option zskiplistLevel :=
  n ← h !! x; level n !! i.
Definition set_level (h : heap) (x : ptr) (i : nat) (l : zskiplistLevel) : option heap :=
  n ← h !! x; _ ← level n !! i; Some (<[x := with_levels n (<[i := l]> (level n))]> h).
Definition set_forward (h : heap) (x : ptr) (i : nat) (p : option ptr) : option heap :=
  l ← get_level h x i; set_level h x i (mkLevel p (span l)).
Definition set_span (h : heap) (x : ptr) (i : nat) (s : Z) : option heap :=
  l ← get_level h x i; set_level h x i (mkLevel (forward l) s).
Definition set_backward (h : heap) (x : ptr) (p : option ptr) : option heap :=
  n ← h !! x; Some (<[x := mkNode (ele n) (score n) p (level n)]> h).
Definition set_score (h : heap) (x : ptr) (s : double) : option heap :=
  n ← h !! x; Some (<[x := mkNode (ele n) s (backward n) (level n)]> h).

(** ** Creation *)

Section memory.
Context (zmalloc : heap -> ptr) (junk : option ptr * zskiplistLevel).

Definition zslCreateNode (h : heap) (lv : nat) (s : double) (e : option sds) : ptr * heap :=
  let x := zmalloc h in (x, <[x := mkNode e s junk.1 (replicate lv junk.2)]> h).

Definition zslCreate (h : heap) : option (zskiplist * heap) :=
  let (hd, h) := zslCreateNode h ZSKIPLIST_MAXLEVEL (S754_zero false) None in
  h ← for_loop (fun j h => h ← set_forward h hd j None; set_span h hd j 0) 0 ZSKIPLIST_MAXLEVEL h;
  h ← set_backward h hd None;
  Some (mkZsl hd None 0 1, h).

Definition zslFreeNode (h : heap) (x : ptr) : option heap := _ ← h !! x; Some (delete x h).

(** [while(node)] of [zslFree]. *)
Fixpoint free_loop (fuel : nat) (h : heap) (node : option ptr) : option heap :=
  match node, fuel with
  | None, _ => Some h
  | _, O => None
  | Some node, S fuel => l ← get_level h node 0; h ← zslFreeNode h node; free_loop fuel h (forward l)
  end.

Definition zslFree (h : heap) (zsl : zskiplist) : option heap :=
  l ← get_level h (header zsl) 0;
  h ← zslFreeNode h (header zsl);
  free_loop (Z.to_nat (zsl_length zsl)) h (forward l).

(** [ZSKIPLIST_P*RAND_MAX] for [RAND_MAX] of 2^31 - 1; the loop ends when the
    list of the random numbers has one that is not below it. *)
Definition threshold : Z := (2 ^ 31 - 1) / 4.
Fixpoint random_level_loop (rnd : list Z) (lv : nat) : option (nat * list Z) :=
  match rnd with
  | [] => None
  | r :: rnd => if r <? threshold then random_level_loop rnd (S lv) else Some (lv, rnd)
  end.
Definition zslRandomLevel (rnd : list Z) : option (nat * list Z) :=
  '(lv, rnd) ← random_level_loop rnd 1;
  Some (if (lv <? ZSKIPLIST_MAXLEVEL)%nat then lv else ZSKIPLIST_MAXLEVEL, rnd).

(** ** Searching *)

(** The [while (x->level[i].forward && test)] loops: [test] is given the sum of
    the spans so far, the span of the level and the node it leads to. *)
Section search.
Context (h : heap) (test : Z -> Z -> zskiplistNode -> option bool).

Fixpoint walk (fuel : nat) (i : nat) (x : ptr) (rank : Z) : option (ptr * Z) :=
  match fuel with
  | O => None
  | S fuel =>
      l ← get_level h x i;
      match forward l with
      | None => Some (x, rank)
      | Some y =>
          n ← h !! y;
          b ← test rank (span l) n;
          if (b : bool) then walk fuel i y (u64 (rank + span l)) else Some (x, rank)
      end
  end.

(** [for (i = k-1; i >= 0; i--)] around it, with the node and the sum at the
    end, and the [update] and [rank] arrays. *)
Fixpoint descend (fuel : nat) (k : nat) (x : ptr) (rank : Z) : option (ptr * Z * list (ptr * Z)) :=
  match k with
  | O => Some (x, rank, [])
  | S i =>
      '(x, rank) ← walk fuel i x rank;
      '(y, r, update) ← descend fuel i x rank;
      Some (y, r, update ++ [(x, rank)])
  end.
End search.

Definition fuel_of (zsl : zskiplist) : nat := S (Z.to_nat (zsl_length zsl)).

(** [x->score < score || (x->score == score && sdscmp(x->ele,ele) < 0)], and
    with [<= 0]; the sum and the span are not used. *)
Definition before (s : double) (e : sds) (_ _ : Z) (n : zskiplistNode) : option bool :=
  if score n <. s then Some true
  else if score n ==. s then ne ← ele n; Some (sdscmp ne e <? 0) else Some false.
Definition upto (s : double) (e : sds) (_ _ : Z) (n : zskiplistNode) : option bool :=
  if score n <. s then Some true
  else if score n ==. s then ne ← ele n; Some (sdscmp ne e <=? 0) else Some false.

(** ** Insertion *)

(** [for (i = zsl->level; i < level; i++)]: the new levels of the header. *)
Definition grow_level (zsl : zskiplist) (i : nat) (st : heap * list (ptr * Z)) : option (heap * list (ptr * Z)) :=
  let (h, update) := st in
  h ← set_span h (header zsl) i (zsl_length zsl); Some (h, update ++ [(header zsl, 0)]).

(** [for (i = 0; i < level; i++)]: the node [x] is linked after [update[i]]. *)
Definition link_level (x : ptr) (update : list (ptr * Z)) (i : nat) (h : heap) : option heap :=
  '(_, rank0) ← update !! 0%nat;
  '(u, rank) ← update !! i;
  lu ← get_level h u i;
  h ← set_forward h x i (forward lu);
  h ← set_forward h u i (Some x);
  lu ← get_level h u i;
  h ← set_span h x i (u64 (span lu - u64 (rank0 - rank)));
  set_span h u i (u64 (u64 (rank0 - rank) + 1)).

(** [for (i = level; i < zsl->level; i++)] *)
Definition bump_level (update : list (ptr * Z)) (i : nat) (h : heap) : option heap :=
  '(u, _) ← update !! i; lu ← get_level h u i; set_span h u i (u64 (span lu + 1)).

Definition zslInsert (h : heap) (zsl : zskiplist) (s : double) (e : sds) (rnd : list Z) :
    option (ptr * heap * zskiplist * list Z) :=
  if isnan s then None
  else
    '(_, _, update) ← descend h (before s e) (fuel_of zsl) (zsl_level zsl) (header zsl) 0;
    '(lv, rnd) ← zslRandomLevel rnd;
    '(h, update) ← (if (zsl_level zsl <? lv)%nat
                    then for_loop (grow_level zsl) (zsl_level zsl) (lv - zsl_level zsl) (h, update)
                    else Some (h, update));
    let zlv := if (zsl_level zsl <? lv)%nat then lv else zsl_level zsl in
    let (x, h) := zslCreateNode h lv s (Some e) in
    h ← for_loop (link_level x update) 0 lv h;
    h ← for_loop (bump_level update) lv (zlv - lv) h;
    '(u0, _) ← update !! 0%nat;
    h ← set_backward h x (if bool_decide (u0 = header zsl) then None else Some u0);
    lx ← get_level h x 0;
    '(h, tl) ← match forward lx with
               | Some y => h ← set_backward h y (Some x); Some (h, tail zsl)
               | None => Some (h, Some x)
               end;
    Some (x, h, mkZsl (header zsl) tl (u64 (zsl_length zsl + 1)) zlv, rnd).

(** ** Deletion *)

(** [for (i = 0; i < zsl->level; i++)] of [zslDeleteNode]. *)
Definition unlink_level (x : ptr) (update : list (ptr * Z)) (i : nat) (h : heap) : option heap :=
  '(u, _) ← update !! i;
  lu ← get_level h u i;
  if bool_decide (forward lu = Some x) then
    lx ← get_level h x i;
    h ← set_span h u i (u64 (span lu + u64 (span lx - 1)));
    set_forward h u i (forward lx)
  else set_span h u i (u64 (span lu - 1)).

(** [while(zsl->level > 1 && zsl->header->level[zsl->level-1].forward == NULL)] *)
Fixpoint lower_level (h : heap) (hd : ptr) (lv : nat) : option nat :=
  match lv with
  | S (S _ as lv') =>
      l ← get_level h hd lv';
      match forward l with None => lower_level h hd lv' | Some _ => Some lv end
  | _ => Some lv
  end.

Definition zslDeleteNode (h : heap) (zsl : zskiplist) (x : ptr) (update : list (ptr * Z)) :
    option (heap * zskiplist) :=
  h ← for_loop (unlink_level x update) 0 (zsl_level zsl) h;
  lx ← get_level h x 0;
  n ← h !! x;
  '(h, tl) ← match forward lx with
             | Some y => h ← set_backward h y (backward n); Some (h, tail zsl)
             | None => Some (h, backward n)
             end;
  lv ← lower_level h (header zsl) (zsl_level zsl);
  Some (h, mkZsl (header zsl) tl (u64 (zsl_length zsl - 1)) lv).

(** [score == x->score && sdscmp(x->ele,ele) == 0] *)
Definition is_node (s : double) (e : sds) (n : zskiplistNode) : option bool :=
  if s ==. score n then ne ← ele n; Some (sdscmp ne e =? 0) else Some false.

(** The node is freed when [keep] is false, and returned when it is true. *)
Definition zslDelete (h : heap) (zsl : zskiplist) (s : double) (e : sds) (keep : bool) :
    option (bool * option ptr * heap * zskiplist) :=
  '(x, _, update) ← descend h (before s e) (fuel_of zsl) (zsl_level zsl) (header zsl) 0;
  l ← get_level h x 0;
  match forward l with
  | None => Some (false, None, h, zsl)
  | Some x =>
      n ← h !! x;
      b ← is_node s e n;
      if (b : bool) then
        '(h, zsl) ← zslDeleteNode h zsl x update;
        if keep then Some (true, Some x, h, zsl)
        else h ← zslFreeNode h x; Some (true, None, h, zsl)
      else Some (false, None, h, zsl)
  end.

(** ** Score update *)

(** [p == NULL || test(p->score)] *)
Definition null_or (h : heap) (p : option ptr) (test : double -> bool) : option bool :=
  match p with None => Some true | Some p => n ← h !! p; Some (test (score n)) end.

Definition zslUpdateScore (h : heap) (zsl : zskiplist) (curscore : double) (e : sds) (newscore : double)
    (rnd : list Z) : option (ptr * heap * zskiplist * list Z) :=
  '(x, _, update) ← descend h (before curscore e) (fuel_of zsl) (zsl_level zsl) (header zsl) 0;
  l ← get_level h x 0;
  x ← forward l;
  n ← h !! x;
  b ← is_node curscore e n;
  if negb b then None
  else
    lx ← get_level h x 0;
    after_prev ← null_or h (backward n) (fun s => s <. newscore);
    before_next ← null_or h (forward lx) (fun s => newscore <. s);
    if after_prev && before_next then h ← set_score h x newscore; Some (x, h, zsl, rnd)
    else
      '(h, zsl) ← zslDeleteNode h zsl x update;
      ne ← ele n;
      '(newnode, h, zsl, rnd) ← zslInsert h zsl newscore ne rnd;
      h ← zslFreeNode h x;
      Some (newnode, h, zsl, rnd).

End memory.

(** ** Ranks *)

(** [x->ele && x->score == score && sdscmp(x->ele,ele) == 0] *)
Definition is_ele (s : double) (e : sds) (n : zskiplistNode) : bool :=
  match ele n with Some ne => (score n ==. s) && (sdscmp ne e =? 0) | None => false end.

Fixpoint rank_loop (h : heap) (s : double) (e : sds) (fuel k : nat) (x : ptr) (rank : Z) : option Z :=
  match k with
  | O => Some 0
  | S i =>
      '(x, rank) ← walk h (upto s e) fuel i x rank;
      n ← h !! x;
      if is_ele s e n then Some rank else rank_loop h s e fuel i x rank
  end.
Definition zslGetRank (h : heap) (zsl : zskiplist) (s : double) (e : sds) : option Z :=
  rank_loop h s e (fuel_of zsl) (zsl_level zsl) (header zsl) 0.

(** [(traversed + x->level[i].span) <= rank] *)
Definition within (rank traversed sp : Z) (_ : zskiplistNode) : option bool := Some (u64 (traversed + sp) <=? rank).

Fixpoint by_rank_loop (h : heap) (rank : Z) (fuel k : nat) (x : ptr) (traversed : Z) : option (option ptr) :=
  match k with
  | O => Some None
  | S i =>
      '(x, traversed) ← walk h (within rank) fuel i x traversed;
      if traversed =? rank then Some (Some x) else by_rank_loop h rank fuel i x traversed
  end.
Definition zslGetElementByRankFromNode (h : heap) (fuel : nat) (start_node : ptr) (start_level : nat) (rank : Z) :
    option (option ptr) :=
  by_rank_loop h rank fuel (S start_level) start_node 0.
Definition zslGetElementByRank (h : heap) (zsl : zskiplist) (rank : Z) : option (option ptr) :=
  zslGetElementByRankFromNode h (fuel_of zsl) (header zsl) (zsl_level zsl - 1) rank.
