(* ===== verification/ZskiplistSpec.v ===== *)
(** * What a skiplist represents

    The order of the nodes, the sequence of nodes a heap represents, and the
    lemmas on the search loops.  The cells [level[i]] of all the nodes are given
    by one function, [next_at], of the sequence of the heights. *)

From Stdlib Require Import SpecFloat.
From stdpp Require Import gmap.
From S2P Require Import Prelude Zskiplist.

(** ** The order of doubles and of strings *)

(** Doubles other than NaN compare as these triples, in lexicographic order. *)
Definition dkey (x : double) : Z * Z * Z :=
  match x with
  | S754_infinity true => (-2, 0, 0)
  | S754_finite true m e => (-1, - e, - Zpos m)
  | S754_zero _ => (0, 0, 0)
  | S754_finite false m e => (1, e, Zpos m)
  | S754_infinity false => (2, 0, 0)
  | S754_nan => (3, 0, 0)
  end.

Definition lt3 (a b : Z * Z * Z) : Prop :=
  a.1.1 < b.1.1 \/ a.1.1 = b.1.1 /\ (a.1.2 < b.1.2 \/ a.1.2 = b.1.2 /\ a.2 < b.2).

Lemma compare_key (x y : double) :
  isnan x = false -> isnan y = false ->
  exists c, SFcompare x y = Some c
    /\ match c with Lt => lt3 (dkey x) (dkey y) | Eq => dkey x = dkey y | Gt => lt3 (dkey y) (dkey x) end.
Proof.
  intros Hx Hy. unfold lt3.
  destruct x as [sx|sx| |sx mx ex], y as [sy|sy| |sy my ey]; try done;
    try (eexists; split; [done|]; destruct sx; try destruct sy; cbn; (done || lia)).
  cbn [SFcompare]. eexists; split; [reflexivity|].
  change (Pos.compare_cont Eq mx my) with (mx ?= my)%positive.
  destruct sx, sy; cbn; try lia;
    (destruct (Z.compare_spec ex ey) as [->|?|?]; [|lia|lia]);
    destruct (Pos.compare_spec mx my) as [->|?|?]; cbn; (done || lia).
Qed.

Ltac dcase x y Hx Hy :=
  let c := fresh "c" in let E := fresh "E" in let K := fresh "K" in
  destruct (compare_key x y Hx Hy) as (c & E & K); unfold SFltb, SFleb, SFeqb; rewrite E; destruct c.

Lemma dlt_key (x y : double) :
  isnan x = false -> isnan y = false -> (x <. y = true <-> lt3 (dkey x) (dkey y)).
Proof. intros Hx Hy. unfold lt3 in *. dcase x y Hx Hy; rewrite ?K; unfold lt3 in *; split; (done || lia). Qed.

Lemma dle_key (x y : double) :
  isnan x = false -> isnan y = false -> (x <=. y = true <-> ~ lt3 (dkey y) (dkey x)).
Proof. intros Hx Hy. dcase x y Hx Hy; rewrite ?K; unfold lt3 in *; split; (done || lia). Qed.

Lemma deq_key (x y : double) :
  isnan x = false -> isnan y = false -> (x ==. y = true <-> dkey x = dkey y).
Proof.
  intros Hx Hy. dcase x y Hx Hy; [done| |]; split; try done; intros E'; rewrite E' in K; unfold lt3 in K; lia.
Qed.

Lemma sdscmp_cons a b s t : sdscmp (a :: s) (b :: t) = if a =? b then sdscmp s t else a - b.
Proof.
  unfold sdscmp. cbn [memcmp]. rewrite !zlen_cons. destruct (Z.eqb_spec a b) as [->|Hn].
  - destruct (memcmp s t =? 0); [|done]. zcase; lia.
  - destruct (Z.eqb_spec (a - b) 0); [lia|done].
Qed.
Lemma sdscmp_nil_l t : sdscmp [] t = match t with [] => 0 | _ => -1 end.
Proof. destruct t as [|b t]; [done|]. unfold sdscmp. cbn [memcmp]. rewrite zlen_cons. change (zlen (@nil Z)) with 0. pose proof (zlen_nonneg t). zcase; lia. Qed.
Lemma sdscmp_nil_r s : sdscmp s [] = match s with [] => 0 | _ => 1 end.
Proof. destruct s as [|a s]; [done|]. unfold sdscmp. cbn [memcmp]. rewrite zlen_cons. change (zlen (@nil Z)) with 0. pose proof (zlen_nonneg s). zcase; lia. Qed.

Lemma sdscmp_zero (s t : sds) : sdscmp s t = 0 <-> s = t.
Proof.
  revert t; induction s as [|a s IH]; intros t.
  - rewrite sdscmp_nil_l. by destruct t.
  - destruct t as [|b t]; [by rewrite sdscmp_nil_r|]. rewrite sdscmp_cons.
    destruct (Z.eqb_spec a b) as [->|?]; [rewrite IH; split; congruence|]. split; [lia|congruence].
Qed.

Lemma sdscmp_swap (s t : sds) : sdscmp s t < 0 <-> 0 < sdscmp t s.
Proof.
  revert t; induction s as [|a s IH]; intros t.
  - rewrite sdscmp_nil_l, sdscmp_nil_r. destruct t; lia.
  - destruct t as [|b t]; [rewrite sdscmp_nil_l, sdscmp_nil_r; lia|]. rewrite !sdscmp_cons, (Z.eqb_sym b a).
    destruct (Z.eqb_spec a b) as [->|?]; [apply IH|lia].
Qed.

Lemma sdscmp_trans (s t u : sds) : sdscmp s t < 0 -> sdscmp t u < 0 -> sdscmp s u < 0.
Proof.
  revert t u; induction s as [|a s IH]; intros t u.
  - rewrite !sdscmp_nil_l. destruct t as [|b t], u; try lia. rewrite sdscmp_nil_r. lia.
  - destruct t as [|b t]; [rewrite sdscmp_nil_r; lia|]. destruct u as [|c u]; [rewrite (sdscmp_nil_r (b :: t)); lia|].
    rewrite !sdscmp_cons. zcase; try lia. subst. apply IH.
Qed.

(** ** The order of the nodes *)

Definition klt (a b : double * sds) : Prop := a.1 <. b.1 = true \/ a.1 ==. b.1 = true /\ sdscmp a.2 b.2 < 0.
Definition keq (a b : double * sds) : Prop := a.1 ==. b.1 = true /\ a.2 = b.2.
Definition kltb (a b : double * sds) : bool := (a.1 <. b.1) || ((a.1 ==. b.1) && (sdscmp a.2 b.2 <? 0)).
Definition kleb (a b : double * sds) : bool := (a.1 <. b.1) || ((a.1 ==. b.1) && (sdscmp a.2 b.2 <=? 0)).
Definition keqb (a b : double * sds) : bool := (a.1 ==. b.1) && (sdscmp a.2 b.2 =? 0).
Definition knum (a : double * sds) : Prop := isnan a.1 = false.

Lemma kltb_spec a b : kltb a b = true <-> klt a b.
Proof. unfold kltb, klt. rewrite orb_true_iff, andb_true_iff, Z.ltb_lt. done. Qed.
Lemma keqb_spec a b : keqb a b = true <-> keq a b.
Proof. unfold keqb, keq. rewrite andb_true_iff, Z.eqb_eq, sdscmp_zero. done. Qed.

Lemma klt_key a b :
  knum a -> knum b -> (klt a b <-> lt3 (dkey a.1) (dkey b.1) \/ dkey a.1 = dkey b.1 /\ sdscmp a.2 b.2 < 0).
Proof. intros Ha Hb. unfold klt. by rewrite dlt_key, deq_key. Qed.

Lemma lt3_trans a b c : lt3 a b -> lt3 b c -> lt3 a c.
Proof. unfold lt3. lia. Qed.
Lemma lt3_irrefl a : ~ lt3 a a.
Proof. unfold lt3. lia. Qed.
Lemma lt3_total a b : lt3 a b \/ a = b \/ lt3 b a.
Proof. unfold lt3. destruct a as [[a1 a2] a3], b as [[b1 b2] b3]; cbn.
  destruct (Z.lt_trichotomy a1 b1) as [?|[->|?]]; [lia| |lia].
  destruct (Z.lt_trichotomy a2 b2) as [?|[->|?]]; [lia| |lia].
  destruct (Z.lt_trichotomy a3 b3) as [?|[->|?]]; [lia| |lia]. auto.
Qed.

Lemma klt_trans a b c : knum a -> knum b -> knum c -> klt a b -> klt b c -> klt a c.
Proof.
  intros Ha Hb Hc. rewrite !klt_key by done. intros [H1|[H1 H1']] [H2|[H2 H2']].
  - left. by eapply lt3_trans.
  - left. by rewrite <-H2.
  - left. by rewrite H1.
  - right. split; [congruence|]. by eapply sdscmp_trans.
Qed.

Lemma klt_irrefl a b : knum a -> knum b -> keq a b -> ~ klt a b.
Proof.
  intros Ha Hb [H1 H2]. rewrite klt_key by done. apply deq_key in H1; [|done..]. rewrite H1, H2.
  intros [H|[_ H]]; [by apply lt3_irrefl in H|]. assert (sdscmp b.2 b.2 = 0) by (by apply sdscmp_zero). lia.
Qed.

Lemma keq_sym a b : knum a -> knum b -> keq a b -> keq b a.
Proof. intros Ha Hb [H1 H2]. apply deq_key in H1; [|done..]. split; [by apply deq_key|done]. Qed.

Lemma klt_asym a b : knum a -> knum b -> klt a b -> ~ klt b a.
Proof.
  intros Ha Hb H1 H2. apply (klt_irrefl a a); [done..| |by eapply klt_trans]. split; [by apply deq_key|done].
Qed.

Lemma klt_total a b : knum a -> knum b -> klt a b \/ keq a b \/ klt b a.
Proof.
  intros Ha Hb. rewrite !klt_key by done. unfold keq. rewrite (deq_key _ _ Ha Hb).
  destruct (lt3_total (dkey a.1) (dkey b.1)) as [?|[He|?]]; [tauto| |tauto]. rewrite He.
  destruct (Z.lt_trichotomy (sdscmp a.2 b.2) 0) as [?|[?|H]]; [tauto| |].
  - right; left. split; [done|]. by apply sdscmp_zero.
  - right; right. right. split; [done|]. by apply sdscmp_swap.
Qed.

Lemma klt_keq a b c : knum a -> knum b -> knum c -> keq b c -> (klt a b <-> klt a c).
Proof. intros Ha Hb Hc [H1 H2]. rewrite !klt_key by done. apply deq_key in H1; [|done..]. by rewrite H1, H2. Qed.

Lemma kleb_spec a b : knum a -> knum b -> (kleb a b = true <-> klt a b \/ keq a b).
Proof.
  intros Ha Hb. unfold kleb, klt, keq. rewrite orb_true_iff, andb_true_iff, Z.leb_le.
  rewrite <-sdscmp_zero. destruct (a.1 ==. b.1); split; intros H; intuition lia.
Qed.

(** ** The sequence a heap represents *)

Record znode := mkZn { zn_ptr : ptr; zn_ele : sds; zn_score : double; zn_ht : nat }.
Definition zn_key (a : znode) : double * sds := (zn_score a, zn_ele a).

(** The cell [level[i]] of a node, from the addresses and the heights of the
    nodes after it: the next node with more than [i] levels and its distance,
    or the number of nodes that are left. *)
Fixpoint next_at (i : nat) (T : list (ptr * nat)) : zskiplistLevel :=
  match T with
  | [] => mkLevel None 0
  | (y, k) :: T => if (i <? k)%nat then mkLevel (Some y) 1 else mkLevel (forward (next_at i T)) (span (next_at i T) + 1)
  end.

Definition tower (a : znode) : ptr * nat := (zn_ptr a, zn_ht a).
Definition towers (zsl : zskiplist) (A : list znode) : list (ptr * nat) :=
  (header zsl, ZSKIPLIST_MAXLEVEL) :: (tower <$> A).

(** The members of a node but the contents of its levels. *)
Definition info (h : heap) (x : ptr) : option (option sds * double * option ptr * nat) :=
  n ← h !! x; Some (ele n, score n, backward n, length (level n)).

Definition prev (A : list znode) (j : nat) : option ptr :=
  match j with O => None | S j => zn_ptr <$> A !! j end.

Record rep (h : heap) (zsl : zskiplist) (A : list znode) : Prop := {
  rep_nodup : NoDup (towers zsl A).*1;
  rep_header : exists s, info h (header zsl) = Some (None, s, None, ZSKIPLIST_MAXLEVEL);
  rep_node j a : A !! j = Some a -> info h (zn_ptr a) = Some (Some (zn_ele a), zn_score a, prev A j, zn_ht a);
  rep_cells p x k i : towers zsl A !! p = Some (x, k) -> (i < k)%nat -> (i < zsl_level zsl)%nat ->
    get_level h x i = Some (next_at i (drop (S p) (towers zsl A)));
  rep_above i : (zsl_level zsl <= i < ZSKIPLIST_MAXLEVEL)%nat ->
    exists s, get_level h (header zsl) i = Some (mkLevel None s);
  rep_heights a : a ∈ A -> (1 <= zn_ht a <= zsl_level zsl)%nat;
  rep_level : (1 <= zsl_level zsl <= ZSKIPLIST_MAXLEVEL)%nat;
  rep_top : (1 < zsl_level zsl)%nat -> exists a, a ∈ A /\ zn_ht a = zsl_level zsl;
  rep_length : zsl_length zsl = zlen A;
  rep_small : zlen A < 2 ^ 63;
  rep_tail : tail zsl = zn_ptr <$> last A;
  rep_sorted : StronglySorted (fun a b => klt (zn_key a) (zn_key b)) A;
  rep_num a : a ∈ A -> knum (zn_key a);
}.

Lemma next_at_spec (i : nat) (T : list (ptr * nat)) :
  (forward (next_at i T) = None /\ span (next_at i T) = zlen T /\ forall r y k, T !! r = Some (y, k) -> (k <= i)%nat)
  \/ exists d y k, forward (next_at i T) = Some y /\ span (next_at i T) = Z.of_nat (S d) /\ T !! d = Some (y, k)
       /\ (i < k)%nat /\ forall r y' k', (r < d)%nat -> T !! r = Some (y', k') -> (k' <= i)%nat.
Proof.
  induction T as [|[y k] T IH]; cbn [next_at]; [left; repeat split; intros; done|].
  destruct (Nat.ltb_spec i k) as [Hk|Hk].
  - right. exists 0%nat, y, k. repeat split; [done|lia].
  - destruct IH as [(-> & -> & Hall)|(d & y' & k' & -> & -> & Hd & Hk' & Hgap)]; [left|right].
    + split; [done|]. split; [cbn; zlen_solve|]. intros [|r] y' k'; cbn; [naive_solver lia|apply Hall].
    + exists (S d), y', k'. split; [done|]. split; [cbn; lia|]. split; [done|]. split; [done|].
      intros [|r] y'' k'' Hr; cbn; [naive_solver lia|apply Hgap; lia].
Qed.

(** Cells across a part with lower nodes only, and across a higher node. *)
Lemma next_at_low (i : nat) (G T : list (ptr * nat)) :
  (forall r y k, G !! r = Some (y, k) -> (k <= i)%nat) ->
  next_at i (G ++ T) = mkLevel (forward (next_at i T)) (span (next_at i T) + zlen G).
Proof.
  induction G as [|[y k] G IH]; intros Hg; cbn [app next_at].
  - rewrite zlen_nil, Z.add_0_r. by destruct (next_at i T).
  - destruct (Nat.ltb_spec i k) as [Hk|Hk]; [specialize (Hg 0%nat y k eq_refl); lia|].
    rewrite IH; [|intros r; apply (Hg (S r))]. cbn. f_equal. zlen_solve.
Qed.

Lemma next_at_high (i r : nat) (G T : list (ptr * nat)) (y : ptr) (k : nat) :
  G !! r = Some (y, k) -> (i < k)%nat -> next_at i (G ++ T) = next_at i G.
Proof.
  revert r; induction G as [|[y' k'] G IH]; intros r Hr Hk; [done|]. cbn [app next_at].
  destruct (Nat.ltb_spec i k') as [?|?]; [done|]. destruct r as [|r]; [cbn in Hr; naive_solver lia|].
  by rewrite (IH r Hr Hk).
Qed.

(** ** The search loops *)

(** [u] is the last position up to [K] whose node has more than [i] levels. *)
Definition last_upto (T : list (ptr * nat)) (K i u : nat) (x : ptr) : Prop :=
  exists k, T !! u = Some (x, k) /\ (i < k)%nat /\ (u <= K)%nat
    /\ forall r y k', (u < r <= K)%nat -> T !! r = Some (y, k') -> (k' <= i)%nat.

Section search.
Context (h : heap) (zsl : zskiplist) (A : list znode) (R : rep h zsl A).
Local Abbreviation T := (towers zsl A).

Lemma towers_length : length T = S (length A).
Proof. unfold towers. by rewrite length_cons, length_fmap. Qed.

Lemma towers_node (q : nat) (x : ptr) (k : nat) :
  T !! S q = Some (x, k) -> exists a, A !! q = Some a /\ x = zn_ptr a /\ k = zn_ht a.
Proof. change (T !! S q) with ((tower <$> A) !! q). rewrite list_lookup_fmap, fmap_Some. intros (a & Ha & [= -> ->]). eauto. Qed.

Lemma towers_heap (q : nat) (x : ptr) (k : nat) : T !! q = Some (x, k) -> is_Some (h !! x).
Proof.
  intros Hq. assert (Hi : is_Some (info h x)).
  - destruct q as [|q].
    + cbn in Hq. injection Hq as <- <-. destruct (rep_header _ _ _ R) as [s ->]. eauto.
    + apply towers_node in Hq as (a & Ha & -> & ->). rewrite (rep_node _ _ _ R q a Ha). eauto.
  - unfold info in Hi. destruct (h !! x); [eauto|]. by destruct Hi.
Qed.

(** The loop of one level stops at the last node of that level up to [K], where
    [K] is the last position whose test holds. *)
Lemma walk_spec (test : Z -> Z -> zskiplistNode -> option bool) (K i : nat) (base : Z) (fuel p : nat) (x : ptr) (k : nat) :
  (forall p q y k' n, (p < q)%nat -> T !! q = Some (y, k') -> h !! y = Some n -> base <= Z.of_nat p ->
     test (Z.of_nat p - base) (Z.of_nat q - Z.of_nat p) n = Some (q <=? K)%nat) ->
  (i < zsl_level zsl)%nat -> T !! p = Some (x, k) -> (i < k)%nat -> (p <= K)%nat -> 0 <= base <= Z.of_nat p ->
  (length T <= fuel + p)%nat ->
  exists p' x', walk h test fuel i x (Z.of_nat p - base) = Some (x', Z.of_nat p' - base)
    /\ (p <= p')%nat /\ last_upto T K i p' x'.
Proof.
  intros Htest Hi. revert p x k. induction fuel as [|fuel IH]; intros p x k Hp Hk HK Hb Hf.
  - apply lookup_lt_Some in Hp. lia.
  - cbn [walk]. rewrite (rep_cells _ _ _ R p x k i Hp Hk Hi). sbind.
    destruct (next_at_spec i (drop (S p) T)) as [(-> & _ & Hall)|(d & y & k' & -> & -> & Hd & Hk' & Hgap)].
    + exists p, x. split; [done|]. split; [done|]. exists k. repeat split; [done..|].
      intros r y k' Hr Hy. apply (Hall (r - S p)%nat y k'). rewrite lookup_drop. by replace (S p + (r - S p))%nat with r by lia.
    + rewrite lookup_drop in Hd. destruct (towers_heap _ _ _ Hd) as [n Hn]. rewrite Hn. sbind.
      replace (Z.of_nat (S d)) with (Z.of_nat (S p + d) - Z.of_nat p) by lia.
      rewrite (Htest p _ y k' n) by (done || lia). sbind. destruct (Nat.leb_spec (S p + d) K) as [HK'|HK'].
      * pose proof (lookup_lt_Some _ _ _ Hd) as Hlt. pose proof (rep_small _ _ _ R) as Hs.
        pose proof towers_length as Hl. unfold zlen in Hs.
        rewrite wrap_small by lia.
        destruct (IH (S p + d)%nat y k' Hd Hk' HK' ltac:(lia) ltac:(lia)) as (p' & x' & Hw & Hp' & Hu).
        exists p', x'. split; [|split; [lia|done]]. rewrite <-Hw. f_equal. lia.
      * exists p, x. split; [done|]. split; [done|]. exists k. repeat split; [done..|].
        intros r y' k'' Hr Hy. apply (Hgap (r - S p)%nat y' k''); [lia|].
        rewrite lookup_drop. by replace (S p + (r - S p))%nat with r by lia.
Qed.

(** The loop over the levels fills [update] and [rank] with these nodes and
    their positions. *)
Lemma descend_spec (test : Z -> Z -> zskiplistNode -> option bool) (K fuel k p : nat) (x : ptr) (ht : nat) :
  (forall p q y k' n, (p < q)%nat -> T !! q = Some (y, k') -> h !! y = Some n ->
     test (Z.of_nat p) (Z.of_nat q - Z.of_nat p) n = Some (q <=? K)%nat) ->
  (k <= zsl_level zsl)%nat -> T !! p = Some (x, ht) -> (k <= ht)%nat -> (p <= K)%nat -> (length T <= fuel + p)%nat ->
  exists p' x' update, descend h test fuel k x (Z.of_nat p) = Some (x', Z.of_nat p', update)
    /\ length update = k
    /\ (forall i, (i < k)%nat -> exists u y, update !! i = Some (y, Z.of_nat u) /\ last_upto T K i u y)
    /\ (if k is S _ then last_upto T K 0 p' x' else p' = p /\ x' = x).
Proof.
  intros Htest. revert p x ht. induction k as [|i IH]; intros p x ht Hk Hp Hht HK Hf.
  - exists p, x, []. repeat split; [lia].
  - cbn [descend].
    destruct (walk_spec test K i 0 fuel p x ht) as (p1 & x1 & Hw & Hp1 & Hu); [|lia|done|lia|done|lia|done|].
    { intros. rewrite Z.sub_0_r. eauto. }
    rewrite !Z.sub_0_r in Hw. rewrite Hw. sbind. destruct Hu as (k1 & Ht1 & Hk1 & HK1 & Hgap).
    destruct (IH p1 x1 k1 ltac:(lia) Ht1 ltac:(lia) HK1 ltac:(lia)) as (p' & x' & update & -> & Hl & Hupd & Hlast).
    sbind. exists p', x', (update ++ [(x1, Z.of_nat p1)]). split; [done|]. split; [rewrite length_app; cbn; lia|].
    assert (Hu : last_upto T K i p1 x1) by (exists k1; repeat split; done). split.
    + intros j Hj. destruct (decide (j = i)) as [->|Hne].
      * exists p1, x1. split; [|done]. rewrite <-Hl. by apply list_lookup_middle.
      * destruct (Hupd j ltac:(lia)) as (u & y & Hj' & Hu'). exists u, y. split; [|done]. by apply lookup_app_l_Some.
    + destruct i; [|done]. by destruct Hlast as [-> ->].
Qed.

(** All the nodes have a first level: at level 0 the loops stop at [K]. *)
Lemma last_upto_0 (K u : nat) (x : ptr) : last_upto T K 0 u x -> u = Nat.min K (length A).
Proof.
  intros (k & Hu & Hk & HK & Hgap). pose proof (lookup_lt_Some _ _ _ Hu) as Hl. rewrite towers_length in Hl.
  destruct (decide (u = Nat.min K (length A))) as [|Hne]; [done|].
  destruct (lookup_lt_is_Some_2 T (S u)) as [[y k'] Hy]; [rewrite towers_length; lia|].
  pose proof (Hgap (S u) y k' ltac:(lia) Hy). apply towers_node in Hy as (a & Ha & -> & ->).
  pose proof (rep_heights _ _ _ R a (list_elem_of_lookup_2 _ _ _ Ha)). lia.
Qed.

End search.
