(* ===== verification/ZskiplistOps.v ===== *)
(** * The updates of the skiplist

    Creation, insertion, deletion and score update keep the representation and
    insert, remove or move exactly one node of the sequence; the spans and the
    back links of every other node are right again afterwards. *)

From Stdlib Require Import SpecFloat.
From stdpp Require Import gmap.
From S2P Require Import Prelude Zskiplist ZskiplistSpec.

(** ** Assignments *)

(** [h'] is [h] but for the cell [i] of [x]. *)
Definition cell_set (h h' : heap) (x : ptr) (i : nat) (l : zskiplistLevel) : Prop :=
  (forall y j, get_level h' y j = if decide (y = x /\ j = i) then Some l else get_level h y j)
  /\ (forall y, info h' y = info h y).

Lemma set_level_spec h x i l l0 :
  get_level h x i = Some l0 -> exists h', set_level h x i l = Some h' /\ cell_set h h' x i l.
Proof.
  unfold get_level, set_level. intros Hg. destruct (h !! x) as [n|] eqn:Hx; [|done]. cbn in Hg |- *. rewrite Hg. sbind.
  eexists. split; [done|]. pose proof (lookup_lt_Some _ _ _ Hg) as Hlt. split.
  - intros y j. destruct (decide (y = x)) as [->|Hy].
    + unfold get_level. rewrite lookup_insert_eq, Hx. cbn. destruct (decide (j = i)) as [->|Hj].
      * rewrite decide_True by done. by apply list_lookup_insert_eq.
      * rewrite decide_False by naive_solver. by apply list_lookup_insert_ne.
    + rewrite decide_False by naive_solver. unfold get_level. by rewrite lookup_insert_ne.
  - intros y. unfold info. destruct (decide (y = x)) as [->|Hy]; [|by rewrite lookup_insert_ne].
    rewrite lookup_insert_eq, Hx. cbn. by rewrite length_insert.
Qed.

Lemma set_forward_spec h x i l p :
  get_level h x i = Some l -> exists h', set_forward h x i p = Some h' /\ cell_set h h' x i (mkLevel p (span l)).
Proof. intros Hg. unfold set_forward. rewrite Hg. sbind. by eapply set_level_spec. Qed.
Lemma set_span_spec h x i l s :
  get_level h x i = Some l -> exists h', set_span h x i s = Some h' /\ cell_set h h' x i (mkLevel (forward l) s).
Proof. intros Hg. unfold set_span. rewrite Hg. sbind. by eapply set_level_spec. Qed.

Lemma set_backward_spec h x p n :
  h !! x = Some n ->
  exists h', set_backward h x p = Some h' /\ (forall y j, get_level h' y j = get_level h y j)
    /\ (forall y, y <> x -> info h' y = info h y) /\ info h' x = Some (ele n, score n, p, length (level n)).
Proof.
  intros Hx. unfold set_backward. rewrite Hx. sbind. eexists. split; [done|]. split_and!.
  - intros y j. unfold get_level. destruct (decide (y = x)) as [->|Hy]; [by rewrite lookup_insert_eq, Hx|by rewrite lookup_insert_ne].
  - intros y Hy. unfold info. by rewrite lookup_insert_ne.
  - unfold info. by rewrite lookup_insert_eq.
Qed.

Lemma info_some h x t : info h x = Some t ->
  exists n, h !! x = Some n /\ t = (ele n, score n, backward n, length (level n)).
Proof. unfold info. destruct (h !! x) as [n|]; [|done]. cbn. intros [= <-]. eauto. Qed.

Lemma info_dom h h' : (forall y, info h y = None <-> info h' y = None) -> dom h = dom h'.
Proof.
  intros He. apply set_eq. intros y. specialize (He y). unfold info in He. rewrite !elem_of_dom.
  destruct (h !! y), (h' !! y); cbn in He; unfold is_Some; naive_solver.
Qed.

(** ** Cells around a place of the sequence *)

Section place.
Context (T1 : list (ptr * nat)) (K : nat) (HK : length T1 = S K).

Lemma last_upto_tail (X Y : list (ptr * nat)) i u y :
  last_upto (T1 ++ X) K i u y -> last_upto (T1 ++ Y) K i u y.
Proof.
  intros (k & Hu & Hk & Hle & Hgap). exists k. rewrite lookup_app_l in Hu by lia. split_and!; [|done..|].
  - by rewrite lookup_app_l by lia.
  - intros r y' k' Hr Hy. apply (Hgap r y' k' Hr). rewrite lookup_app_l in Hy |- * by lia. done.
Qed.

Lemma next_at_gap (X : list (ptr * nat)) i u y :
  last_upto (T1 ++ X) K i u y ->
  next_at i (drop (S u) (T1 ++ X)) = mkLevel (forward (next_at i X)) (span (next_at i X) + (Z.of_nat K - Z.of_nat u)).
Proof.
  intros (k & Hu & Hk & Hle & Hgap). rewrite drop_app_le by lia. rewrite next_at_low.
  - f_equal. unfold zlen. rewrite length_drop. lia.
  - intros r y' k' Hr. rewrite lookup_drop in Hr. pose proof (lookup_lt_Some _ _ _ Hr).
    apply (Hgap (S u + r)%nat y' k'); [lia|]. by rewrite lookup_app_l by lia.
Qed.

Lemma next_at_before (X Y : list (ptr * nat)) i u y p :
  last_upto (T1 ++ X) K i u y -> (p < u)%nat ->
  next_at i (drop (S p) (T1 ++ X)) = next_at i (drop (S p) (T1 ++ Y)).
Proof.
  intros (k & Hu & Hk & Hle & _) Hp. rewrite lookup_app_l in Hu by lia. rewrite !drop_app_le by lia.
  assert (Hd : drop (S p) T1 !! (u - S p)%nat = Some (y, k)).
  { rewrite lookup_drop. by replace (S p + (u - S p))%nat with u by lia. }
  by rewrite !(next_at_high i _ _ _ y k Hd Hk).
Qed.

(** A node of the first part is the last one of its level, or before it. *)
Lemma last_upto_cases (X : list (ptr * nat)) i u y p x k :
  last_upto (T1 ++ X) K i u y -> T1 !! p = Some (x, k) -> (i < k)%nat -> p = u \/ (p < u)%nat.
Proof.
  intros (k' & Hu & Hk & Hle & Hgap) Hp Hi. destruct (decide (u < p)%nat) as [Hlt|]; [|lia].
  pose proof (lookup_lt_Some _ _ _ Hp). specialize (Hgap p x k ltac:(lia)). rewrite lookup_app_l in Hgap by lia.
  specialize (Hgap Hp). lia.
Qed.

End place.

(** ** The place of a key *)

(** The number of nodes at the start of which [f] holds. *)
Fixpoint prefix_len (f : znode -> bool) (A : list znode) : nat :=
  match A with [] => O | a :: A => if f a then S (prefix_len f A) else O end.

Lemma prefix_len_le f A : (prefix_len f A <= length A)%nat.
Proof. induction A as [|a A IH]; cbn; [done|]. destruct (f a); lia. Qed.

Definition closed (f : znode -> bool) (A : list znode) : Prop :=
  forall i j a b, (i < j)%nat -> A !! i = Some a -> A !! j = Some b -> f b = true -> f a = true.

Lemma prefix_len_spec f A j a : closed f A -> A !! j = Some a -> f a = (j <? prefix_len f A)%nat.
Proof.
  revert j; induction A as [|b A IH]; intros j Hc Ha; [done|]. destruct j as [|j]; cbn in Ha.
  - injection Ha as ->. cbn. by destruct (f a).
  - cbn. destruct (f b) eqn:Eb.
    + rewrite (IH j); [done| |done]. intros i i' c d Hi Hc' Hd. apply (Hc (S i) (S i')); [lia|done..].
    + destruct (f a) eqn:Ea; [|done]. by rewrite (Hc 0%nat (S j) b a ltac:(lia) eq_refl Ha Ea) in Eb.
Qed.

(** Sequences in the order of their keys, none of which has a score that is not
    a number. *)
Definition ordered (A : list znode) : Prop :=
  StronglySorted (fun a b => klt (zn_key a) (zn_key b)) A /\ forall a, a ∈ A -> knum (zn_key a).

Lemma rep_ordered h zsl A : rep h zsl A -> ordered A.
Proof. intros []. by split. Qed.

Section order.
Context (A : list znode) (O : ordered A).

Lemma sorted_klt i j a b : (i < j)%nat -> A !! i = Some a -> A !! j = Some b -> klt (zn_key a) (zn_key b).
Proof. intros Hij Ha Hb. by apply (sorted_lookup _ A i j a b (proj1 O)). Qed.

Lemma node_knum j a : A !! j = Some a -> knum (zn_key a).
Proof. intros Ha. apply (proj2 O). by eapply list_elem_of_lookup_2. Qed.

Lemma closed_kltb key : knum key -> closed (fun a => kltb (zn_key a) key) A.
Proof.
  intros Hk i j a b Hij Ha Hb. rewrite !kltb_spec. apply klt_trans; eauto using node_knum. by eapply sorted_klt.
Qed.

Lemma closed_kleb key : knum key -> closed (fun a => kleb (zn_key a) key) A.
Proof.
  intros Hk i j a b Hij Ha Hb. pose proof (node_knum _ _ Ha). pose proof (node_knum _ _ Hb).
  rewrite !kleb_spec by done. pose proof (sorted_klt _ _ _ _ Hij Ha Hb) as Hab. intros [Hl|He]; left.
  - by apply (klt_trans _ (zn_key b)).
  - by apply (klt_keq _ (zn_key b) key).
Qed.

(** The number of the nodes before a key. *)
Definition place (key : double * sds) : nat := prefix_len (fun a => kltb (zn_key a) key) A.

Lemma place_le key : (place key <= length A)%nat.
Proof. apply prefix_len_le. Qed.

Lemma place_spec key j a : knum key -> A !! j = Some a -> (klt (zn_key a) key <-> (j < place key)%nat).
Proof.
  intros Hk Ha. rewrite <-kltb_spec. rewrite (prefix_len_spec (fun a => kltb (zn_key a) key) A j a (closed_kltb key Hk) Ha).
  apply Nat.ltb_lt.
Qed.

Lemma keq_place key j a : knum key -> A !! j = Some a -> keq (zn_key a) key -> j = place key.
Proof.
  intros Hk Ha He. pose proof (node_knum j a Ha) as Hn. pose proof (place_le key) as Hle.
  assert (Hge : ~ (j < place key)%nat).
  { intros Hlt. apply (place_spec key j a Hk Ha) in Hlt. by apply (klt_irrefl _ _ Hn Hk He). }
  destruct (decide (place key < j)%nat) as [Hlt|]; [|lia]. destruct (lookup_lt_is_Some_2 A (place key)) as [b Hb].
  { apply lookup_lt_Some in Ha. lia. }
  assert (Hb' : klt (zn_key b) key).
  { apply (klt_keq _ (zn_key a)); [by eapply node_knum|done..|]. by eapply sorted_klt. }
  apply (place_spec key _ b Hk Hb) in Hb'. lia.
Qed.

(** The number of nodes up to a key counts the node that has it. *)
Lemma upto_place key a :
  knum key -> A !! place key = Some a -> keq (zn_key a) key ->
  prefix_len (fun a => kleb (zn_key a) key) A = S (place key).
Proof.
  intros Hk Ha He. set (K := prefix_len _ A).
  assert (HK : forall j b, A !! j = Some b -> (kleb (zn_key b) key = true <-> (j < K)%nat)).
  { intros j b Hb. rewrite (prefix_len_spec (fun a => kleb (zn_key a) key) A j b (closed_kleb key Hk) Hb). apply Nat.ltb_lt. }
  assert (place key < K)%nat by (apply (HK _ a Ha), kleb_spec; [by eapply node_knum|done|by right]).
  destruct (decide (S (place key) < K)%nat) as [Hlt|]; [|lia].
  destruct (lookup_lt_is_Some_2 A (S (place key))) as [b Hb]; [pose proof (prefix_len_le (fun a => kleb (zn_key a) key) A); lia|].
  apply (HK _ b Hb) in Hlt. pose proof (node_knum _ b Hb) as Hn. apply kleb_spec in Hlt as [Hl|Heb]; [| |done..].
  - apply (place_spec key _ b Hk Hb) in Hl. lia.
  - apply (keq_place key _ b Hk Hb) in Heb. lia.
Qed.

End order.

Section queries.
Context (h : heap) (zsl : zskiplist) (A : list znode) (R : rep h zsl A).
Local Abbreviation T := (towers zsl A).
Local Abbreviation place := (place A).

Lemma rep_knum j a : A !! j = Some a -> knum (zn_key a).
Proof. apply node_knum. by eapply rep_ordered. Qed.

Lemma rep_lookup q y k n :
  (0 < q)%nat -> T !! q = Some (y, k) -> h !! y = Some n ->
  exists a, A !! (q - 1)%nat = Some a /\ y = zn_ptr a /\ ele n = Some (zn_ele a) /\ score n = zn_score a
    /\ backward n = prev A (q - 1)%nat.
Proof.
  intros Hq Hy Hn. destruct q as [|q]; [lia|]. apply (towers_node zsl A) in Hy as (a & Ha & -> & ->).
  replace (S q - 1)%nat with q by lia. exists a. pose proof (rep_node _ _ _ R q a Ha) as Hi.
  apply info_some in Hi as (n' & Hn' & [= -> -> -> _]). by simplify_eq.
Qed.

(** A test on the contents of a node stops where its prefix ends. *)
Lemma test_prefix (f : znode -> bool) (test : Z -> Z -> zskiplistNode -> option bool) :
  closed f A ->
  (forall a n r sp, a ∈ A -> ele n = Some (zn_ele a) -> score n = zn_score a -> test r sp n = Some (f a)) ->
  forall p q y k n, (p < q)%nat -> T !! q = Some (y, k) -> h !! y = Some n ->
    test (Z.of_nat p) (Z.of_nat q - Z.of_nat p) n = Some (q <=? prefix_len f A)%nat.
Proof.
  intros Hc Hf p q y k n Hpq Hy Hn. destruct (rep_lookup q y k n ltac:(lia) Hy Hn) as (a & Ha & _ & He & Hs & _).
  rewrite (Hf a n _ _ (list_elem_of_lookup_2 _ _ _ Ha) He Hs), (prefix_len_spec f A _ a Hc Ha). f_equal.
  destruct (Nat.ltb_spec (q - 1) (prefix_len f A)), (Nat.leb_spec q (prefix_len f A)); (done || lia).
Qed.

Lemma before_test s e a n r sp :
  ele n = Some (zn_ele a) -> score n = zn_score a -> before s e r sp n = Some (kltb (zn_key a) (s, e)).
Proof.
  intros He Hs. unfold before, kltb. rewrite Hs, He. cbn. destruct (zn_score a <. s); [done|].
  by destruct (zn_score a ==. s).
Qed.
Lemma upto_test s e a n r sp :
  ele n = Some (zn_ele a) -> score n = zn_score a -> upto s e r sp n = Some (kleb (zn_key a) (s, e)).
Proof.
  intros He Hs. unfold upto, kleb. rewrite Hs, He. cbn. destruct (zn_score a <. s); [done|].
  by destruct (zn_score a ==. s).
Qed.

(** The results of a descent to the position [K]. *)
Definition found (K k : nat) (x : ptr) (update : list (ptr * Z)) : Prop :=
  length update = k /\ (exists ht, T !! K = Some (x, ht))
  /\ forall i, (i < k)%nat -> exists u y, update !! i = Some (y, Z.of_nat u) /\ last_upto T K i u y.

Lemma descend_found (test : Z -> Z -> zskiplistNode -> option bool) K :
  (forall p q y k' n, (p < q)%nat -> T !! q = Some (y, k') -> h !! y = Some n ->
     test (Z.of_nat p) (Z.of_nat q - Z.of_nat p) n = Some (q <=? K)%nat) ->
  (K <= length A)%nat ->
  exists x update, descend h test (fuel_of zsl) (zsl_level zsl) (header zsl) 0 = Some (x, Z.of_nat K, update)
    /\ found K (zsl_level zsl) x update.
Proof.
  intros Ht HK. pose proof (rep_level _ _ _ R) as Hl.
  destruct (descend_spec h zsl A R test K (fuel_of zsl) (zsl_level zsl) 0 (header zsl) ZSKIPLIST_MAXLEVEL)
    as (p' & x' & update & Hd & Hlen & Hu & Hx'); [done..|lia|lia| |].
  { unfold fuel_of. rewrite towers_length, (rep_length _ _ _ R), to_nat_zlen. lia. }
  destruct (zsl_level zsl) as [|lv] eqn:E; [lia|]. pose proof (last_upto_0 h zsl A R _ _ _ Hx').
  replace p' with K in * by lia. exists x', update. split; [done|]. split; [done|]. split; [|done].
  destruct Hx' as (ht & ? & _). eauto.
Qed.

Lemma descend_key s e :
  isnan s = false ->
  exists x update, descend h (before s e) (fuel_of zsl) (zsl_level zsl) (header zsl) 0
      = Some (x, Z.of_nat (place (s, e)), update)
    /\ found (place (s, e)) (zsl_level zsl) x update.
Proof.
  intros Hs. apply descend_found; [|apply place_le]. apply test_prefix; [by apply (closed_kltb A (rep_ordered h zsl A R))|].
  intros a n r sp _. apply before_test.
Qed.

End queries.

(** ** Cells of one level *)

Definition cells_at (h : heap) (T : list (ptr * nat)) (i : nat) : Prop :=
  forall p x k, T !! p = Some (x, k) -> (i < k)%nat -> get_level h x i = Some (next_at i (drop (S p) T)).

Lemma next_at_range i T : 0 <= span (next_at i T) <= zlen T.
Proof.
  induction T as [|[y k] T IH]; cbn [next_at]; [done|]. rewrite zlen_cons. destruct (i <? k)%nat; cbn [span]; lia.
Qed.

Lemma towers_inj (T : list (ptr * nat)) p q x k k' :
  NoDup T.*1 -> T !! p = Some (x, k) -> T !! q = Some (x, k') -> p = q.
Proof.
  intros Hn Hp Hq. apply (NoDup_lookup T.*1 p q x Hn); rewrite list_lookup_fmap; [by rewrite Hp|by rewrite Hq].
Qed.

Lemma towers_in (T : list (ptr * nat)) p x k : T !! p = Some (x, k) -> x ∈ T.*1.
Proof. intros Hp. apply list_elem_of_lookup. exists p. by rewrite list_lookup_fmap, Hp. Qed.

(** What a level becomes when [x] is put between [T1] and [X]; [u] is the last
    node of that level before. *)
Section levels.
Context (T1 X : list (ptr * nat)) (K : nat) (HK : length T1 = S K) (x : ptr) (lv : nat).
Context (Hnd : NoDup (T1 ++ (x, lv) :: X).*1) (Hsmall : zlen T1 + zlen X < 2 ^ 63).
Local Abbreviation T := (T1 ++ X).
Local Abbreviation T' := (T1 ++ (x, lv) :: X).

Lemma x_fresh : x ∉ T.*1.
Proof.
  rewrite fmap_app in Hnd |- *. cbn in Hnd. apply NoDup_app in Hnd as (_ & H1 & H2).
  apply NoDup_cons in H2 as [H2 _]. rewrite elem_of_app. intros [H|H]; [apply (H1 x H); by left|done].
Qed.

Lemma nodup_old : NoDup T.*1.
Proof.
  rewrite fmap_app in Hnd |- *. cbn in Hnd. apply NoDup_app in Hnd as (H0 & H1 & H2).
  apply NoDup_cons in H2 as [_ H2]. apply NoDup_app. split; [done|]. split; [|done].
  intros y Hy Hx. apply (H1 y Hy). by right.
Qed.

Lemma x_at : T' !! S K = Some (x, lv).
Proof. rewrite <-HK. by apply list_lookup_middle. Qed.

Lemma drop_x : drop (S (S K)) T' = X.
Proof. rewrite drop_app_ge by lia. by replace (S (S K) - length T1)%nat with 1%nat by lia. Qed.

Lemma old_after q y k : (S K < q)%nat -> T' !! q = Some (y, k) -> T !! (q - 1)%nat = Some (y, k).
Proof.
  intros Hq Hy. rewrite lookup_app_r in Hy |- * by lia.
  replace (q - length T1)%nat with (S (q - 1 - length T1)) in Hy by lia. done.
Qed.

Lemma drop_after q : (S K < q)%nat -> drop (S q) T' = drop (S (q - 1)) T.
Proof.
  intros Hq. rewrite !drop_app_ge by lia. replace (S q - length T1)%nat with (S (S (q - 1) - length T1)) by lia. done.
Qed.

(** The levels of the new node. *)
Lemma cells_at_link h h' i u yu :
  (i < lv)%nat -> cells_at h T i -> last_upto T K i u yu ->
  (forall y, get_level h' y i =
     if decide (y = x) then Some (mkLevel (forward (next_at i (drop (S u) T)))
                                    (u64 (span (next_at i (drop (S u) T)) - u64 (Z.of_nat K - Z.of_nat u))))
     else if decide (y = yu) then Some (mkLevel (Some x) (u64 (u64 (Z.of_nat K - Z.of_nat u) + 1)))
     else get_level h y i) ->
  cells_at h' T' i.
Proof.
  intros Hi Hc Hu Hh p y k Hp Hk. rewrite Hh.
  pose proof Hu as (ku & Htu & _ & Hle & _). pose proof (next_at_range i X) as Hr. pose proof (zlen_nonneg T1).
  assert (HK63 : Z.of_nat K < 2 ^ 63) by (unfold zlen in Hsmall; lia).
  rewrite (next_at_gap T1 K HK X i u yu Hu). cbn [forward span].
  rewrite (wrap_small 64 (Z.of_nat K - _)) by lia.
  destruct (Nat.lt_trichotomy p (S K)) as [Hlt|[->|Hlt]].
  - rewrite lookup_app_l in Hp by lia. assert (Hp' : T !! p = Some (y, k)) by (by apply lookup_app_l_Some).
    rewrite decide_False by (intros ->; apply x_fresh; by eapply towers_in).
    destruct (last_upto_cases T1 K HK X i u yu p y k Hu Hp Hk) as [->|Hpu].
    + assert (y = yu) as -> by congruence. rewrite decide_True by done.
      rewrite (next_at_gap T1 K HK ((x, lv) :: X) i u yu) by (by eapply last_upto_tail).
      cbn [next_at]. rewrite (proj2 (Nat.ltb_lt i lv) Hi). cbn [forward span]. rewrite wrap_small by lia. do 2 f_equal. lia.
    + rewrite decide_False by (intros ->; pose proof (towers_inj _ _ _ _ _ _ nodup_old Hp' Htu); lia).
      rewrite (Hc p y k Hp' Hk). f_equal. by eapply next_at_before.
  - rewrite x_at in Hp. injection Hp as <- <-. rewrite decide_True by done. rewrite drop_x.
    rewrite wrap_small by lia. destruct (next_at i X); cbn. do 2 f_equal. lia.
  - apply old_after in Hp; [|done]. pose proof (towers_in _ _ _ _ Hp) as Hin.
    rewrite decide_False by (intros ->; by apply x_fresh).
    rewrite decide_False by (intros ->; pose proof (towers_inj _ _ _ _ _ _ nodup_old Hp Htu); lia).
    rewrite (Hc _ y k Hp Hk). by rewrite drop_after.
Qed.

(** The levels above the new node. *)
Lemma cells_at_bump h h' i u yu :
  (lv <= i)%nat -> cells_at h T i -> last_upto T K i u yu ->
  (forall y, get_level h' y i =
     if decide (y = yu) then Some (mkLevel (forward (next_at i (drop (S u) T))) (u64 (span (next_at i (drop (S u) T)) + 1)))
     else get_level h y i) ->
  cells_at h' T' i.
Proof.
  intros Hi Hc Hu Hh p y k Hp Hk. rewrite Hh.
  pose proof Hu as (ku & Htu & _ & Hle & _). pose proof (next_at_range i X) as Hr. pose proof (zlen_nonneg T1).
  assert (HK63 : Z.of_nat K < zlen T1) by (unfold zlen; lia).
  rewrite (next_at_gap T1 K HK X i u yu Hu). cbn [forward span].
  destruct (Nat.lt_trichotomy p (S K)) as [Hlt|[->|Hlt]].
  - rewrite lookup_app_l in Hp by lia. assert (Hp' : T !! p = Some (y, k)) by (by apply lookup_app_l_Some).
    destruct (last_upto_cases T1 K HK X i u yu p y k Hu Hp Hk) as [->|Hpu].
    + assert (y = yu) as -> by congruence. rewrite decide_True by done.
      rewrite (next_at_gap T1 K HK ((x, lv) :: X) i u yu) by (by eapply last_upto_tail).
      cbn [next_at]. destruct (Nat.ltb_spec i lv); [lia|]. cbn [forward span]. rewrite wrap_small by lia. do 2 f_equal. lia.
    + rewrite decide_False by (intros ->; pose proof (towers_inj _ _ _ _ _ _ nodup_old Hp' Htu); lia).
      rewrite (Hc p y k Hp' Hk). f_equal. by eapply next_at_before.
  - rewrite x_at in Hp. injection Hp as <- <-. lia.
  - apply old_after in Hp; [|done].
    rewrite decide_False by (intros ->; pose proof (towers_inj _ _ _ _ _ _ nodup_old Hp Htu); lia).
    rewrite (Hc _ y k Hp Hk). by rewrite drop_after.
Qed.

Lemma old_after' q y k : (S K <= q)%nat -> T !! q = Some (y, k) -> T' !! S q = Some (y, k).
Proof.
  intros Hq Hy. rewrite lookup_app_r in Hy |- * by lia. by replace (S q - length T1)%nat with (S (q - length T1)) by lia.
Qed.

(** The other way round: [x] is taken out. *)
Lemma cells_at_unlink h h' i u yu :
  cells_at h T' i -> last_upto T' K i u yu ->
  (forall y, get_level h' y i =
     if decide (y = yu) then
       Some (if decide (i < lv)%nat
             then mkLevel (forward (next_at i X))
                    (u64 (span (next_at i (drop (S u) T')) + u64 (span (next_at i X) - 1)))
             else mkLevel (forward (next_at i (drop (S u) T'))) (u64 (span (next_at i (drop (S u) T')) - 1)))
     else get_level h y i) ->
  cells_at h' T i.
Proof.
  intros Hc Hu Hh p y k Hp Hk. rewrite Hh.
  pose proof Hu as (ku & Htu & _ & Hle & _). pose proof (next_at_range i X) as Hr. pose proof (zlen_nonneg T1).
  assert (HK63 : Z.of_nat K < zlen T1) by (unfold zlen; lia).
  rewrite (next_at_gap T1 K HK ((x, lv) :: X) i u yu Hu). cbn [forward span next_at].
  destruct (decide (S K <= p)%nat) as [Hlt|Hlt].
  - pose proof (old_after' p y k Hlt Hp) as Hp'.
    rewrite decide_False by (intros ->; pose proof (towers_inj _ _ _ _ _ _ Hnd Hp' Htu); lia).
    rewrite (Hc _ y k Hp' Hk), drop_after by lia. by replace (S p - 1)%nat with p by lia.
  - rewrite lookup_app_l in Hp by lia. assert (Hp' : T' !! p = Some (y, k)) by (by apply lookup_app_l_Some).
    destruct (last_upto_cases T1 K HK _ i u yu p y k Hu Hp Hk) as [->|Hpu].
    + assert (y = yu) as -> by congruence. rewrite decide_True by done.
      rewrite (next_at_gap T1 K HK X i u yu) by (by eapply last_upto_tail). f_equal.
      destruct (Nat.ltb_spec i lv); [rewrite decide_True by done|rewrite decide_False by lia]; cbn [forward span]; f_equal.
      * unfold wrap. rewrite Zplus_mod_idemp_r. rewrite Z.mod_small; lia.
      * rewrite wrap_small; lia.
    + rewrite decide_False by (intros ->; pose proof (towers_inj _ _ _ _ _ _ Hnd Hp' Htu); lia).
      rewrite (Hc p y k Hp' Hk). f_equal. by eapply next_at_before.
Qed.

End levels.

(** ** Insertion *)

Lemma random_level_loop_ge rnd lv lv' rnd' : random_level_loop rnd lv = Some (lv', rnd') -> (lv <= lv')%nat.
Proof.
  revert lv; induction rnd as [|r rnd IH]; intros lv; cbn [random_level_loop]; [done|].
  case_match; [|intros [= -> _]; lia]. intros H'. apply IH in H'. lia.
Qed.

Lemma zslRandomLevel_range rnd lv rnd' :
  zslRandomLevel rnd = Some (lv, rnd') -> (1 <= lv <= ZSKIPLIST_MAXLEVEL)%nat.
Proof.
  unfold zslRandomLevel. destruct (random_level_loop rnd 1) as [[l r]|] eqn:E; [|done]. sbind.
  apply random_level_loop_ge in E. intros [= <- _]. unfold ZSKIPLIST_MAXLEVEL. destruct (Nat.ltb_spec l 32); lia.
Qed.

Definition same_info (h h' : heap) : Prop := forall y, info h' y = info h y.

(** The nodes of [update], level by level. *)
Definition updates (T : list (ptr * nat)) (K k : nat) (update : list (ptr * Z)) : Prop :=
  length update = k
  /\ forall i, (i < k)%nat -> exists u y, update !! i = Some (y, Z.of_nat u) /\ last_upto T K i u y.

Section grow.
Context (h : heap) (zsl : zskiplist) (A : list znode) (R : rep h zsl A).
Local Abbreviation T := (towers zsl A).

(** No node has more levels than [zsl->level]: above there is the header only. *)
Lemma above_header p x k i : T !! p = Some (x, k) -> (i < k)%nat -> (zsl_level zsl <= i)%nat -> p = 0%nat.
Proof.
  intros Hp Hk Hi. destruct p as [|p]; [done|]. apply (towers_node zsl A) in Hp as (a & Ha & _ & ->).
  pose proof (rep_heights _ _ _ R a (list_elem_of_lookup_2 _ _ _ Ha)). lia.
Qed.

Lemma next_at_above i : (zsl_level zsl <= i)%nat -> next_at i (tower <$> A) = mkLevel None (zlen A).
Proof.
  intros Hi. rewrite <-(app_nil_r (tower <$> A)), next_at_low.
  - cbn. f_equal. unfold zlen. by rewrite length_fmap.
  - intros r y k Hr. destruct (decide (i < k)%nat) as [Hk|]; [|lia].
    by pose proof (above_header (S r) y k i Hr Hk Hi).
Qed.

Lemma cells_at_rep i : (i < zsl_level zsl)%nat -> cells_at h T i.
Proof. intros Hi p x k Hp Hk. by apply (rep_cells _ _ _ R p x k). Qed.

Lemma grow_spec K update lv :
  (zsl_level zsl <= lv <= ZSKIPLIST_MAXLEVEL)%nat -> updates T K (zsl_level zsl) update ->
  exists h' update', for_loop (grow_level zsl) (zsl_level zsl) (lv - zsl_level zsl) (h, update) = Some (h', update')
    /\ same_info h h' /\ updates T K lv update' /\ (forall i, (i < lv)%nat -> cells_at h' T i)
    /\ (forall i, (lv <= i < ZSKIPLIST_MAXLEVEL)%nat -> get_level h' (header zsl) i = get_level h (header zsl) i).
Proof.
  intros Hlv Hu.
  destruct (for_loop_ind (grow_level zsl) (fun j st =>
      same_info h st.1 /\ updates T K j st.2
      /\ forall y i, get_level st.1 y i = if decide (y = header zsl /\ (zsl_level zsl <= i < j)%nat)
                                          then Some (mkLevel None (zlen A)) else get_level h y i)
      (zsl_level zsl) (lv - zsl_level zsl) (h, update)) as ([h' update'] & Hf & Hi & Hup & Hg).
  - split; [done|]. split; [done|]. intros y i. by rewrite decide_False by lia.
  - intros j [hj uj] Hj (Hi & [Hlen Hup] & Hg). cbn [fst snd] in *. unfold grow_level.
    destruct (rep_above _ _ _ R j ltac:(lia)) as [s Hs].
    destruct (set_span_spec hj (header zsl) j (mkLevel None s) (zsl_length zsl)) as (h' & -> & Hc & Hi').
    { rewrite Hg, decide_False by lia. done. }
    sbind. eexists. split; [done|]. cbn [fst snd]. split; [intros y; by rewrite Hi'|]. split.
    + split; [rewrite length_app; cbn; lia|]. intros i Hij. destruct (decide (i = j)) as [->|Hne].
      * exists 0%nat, (header zsl). split; [rewrite <-Hlen; by apply list_lookup_middle|].
        exists ZSKIPLIST_MAXLEVEL. split_and!; [done|lia|lia|]. intros r y k' Hr Hy.
        destruct (decide (j < k')%nat) as [Hk'|]; [|lia]. pose proof (above_header r y k' j Hy Hk' ltac:(lia)). lia.
      * destruct (Hup i ltac:(lia)) as (u & y & Hy & ?). exists u, y. split; [by apply lookup_app_l_Some|done].
    + intros y i. rewrite Hc, Hg, (rep_length _ _ _ R). cbn [forward]. repeat case_decide; try done; lia.
  - replace (zsl_level zsl + (lv - zsl_level zsl))%nat with lv in * by lia. cbn [fst snd] in *.
    exists h', update'. split; [done|]. split; [done|]. split; [done|]. split.
    + intros i Hlt p x k Hp Hk. rewrite Hg. destruct (decide (zsl_level zsl <= i)%nat) as [Hge|Hge].
      * pose proof (above_header p x k i Hp Hk Hge) as ->. cbn in Hp. injection Hp as <- <-.
        rewrite decide_True by (split; [done|lia]). cbn [drop towers]. by rewrite next_at_above.
      * rewrite decide_False by lia. apply (rep_cells _ _ _ R p x k); [done..|lia].
    + intros i Hlt. by rewrite Hg, decide_False by lia.
Qed.

End grow.

Section link.
Context (T1 X : list (ptr * nat)) (K : nat) (HK : length T1 = S K) (x : ptr) (lv zlv : nat).
Context (Hnd : NoDup (T1 ++ (x, lv) :: X).*1) (Hsmall : zlen T1 + zlen X < 2 ^ 63).
Context (update : list (ptr * Z)) (Hupd : updates (T1 ++ X) K zlv update).
Local Abbreviation T := (T1 ++ X).
Local Abbreviation T' := (T1 ++ (x, lv) :: X).

Lemma update_cell h i u yu : cells_at h T i -> last_upto T K i u yu -> get_level h yu i = Some (next_at i (drop (S u) T)).
Proof. intros Hc (k & Hu & Hk & _). by apply (Hc u yu k). Qed.

Lemma link_level_spec h i y0 u yu lx :
  update !! 0%nat = Some (y0, Z.of_nat K) -> update !! i = Some (yu, Z.of_nat u) -> yu <> x ->
  get_level h yu i = Some (next_at i (drop (S u) T)) -> get_level h x i = Some lx ->
  exists h', link_level x update i h = Some h' /\ same_info h h'
    /\ (forall y, get_level h' y i =
          if decide (y = x) then Some (mkLevel (forward (next_at i (drop (S u) T)))
                                         (u64 (span (next_at i (drop (S u) T)) - u64 (Z.of_nat K - Z.of_nat u))))
          else if decide (y = yu) then Some (mkLevel (Some x) (u64 (u64 (Z.of_nat K - Z.of_nat u) + 1)))
          else get_level h y i)
    /\ (forall y j, j <> i -> get_level h' y j = get_level h y j).
Proof.
  intros H0 Hi Hne Hu Hx. unfold link_level. rewrite H0, Hi. sbind. rewrite Hu. sbind.
  destruct (set_forward_spec h x i lx (forward (next_at i (drop (S u) T))) Hx) as (h1 & -> & Hc1 & Hi1). sbind.
  destruct (set_forward_spec h1 yu i (next_at i (drop (S u) T)) (Some x)) as (h2 & -> & Hc2 & Hi2).
  { rewrite Hc1, decide_False by naive_solver. done. }
  sbind. rewrite (Hc2 yu i), decide_True by done. sbind. cbn [span forward].
  destruct (set_span_spec h2 x i (mkLevel (forward (next_at i (drop (S u) T))) (span lx))
              (u64 (span (next_at i (drop (S u) T)) - u64 (Z.of_nat K - Z.of_nat u)))) as (h3 & -> & Hc3 & Hi3).
  { rewrite Hc2, decide_False by naive_solver. by rewrite Hc1, decide_True. }
  sbind. destruct (set_span_spec h3 yu i (mkLevel (Some x) (span (next_at i (drop (S u) T))))
              (u64 (u64 (Z.of_nat K - Z.of_nat u) + 1))) as (h4 & -> & Hc4 & Hi4).
  { rewrite Hc3, decide_False by naive_solver. by rewrite Hc2, decide_True. }
  exists h4. split; [done|]. split; [intros y; by rewrite Hi4, Hi3, Hi2, Hi1|]. split.
  - intros y. rewrite Hc4, Hc3, Hc2, Hc1. cbn [forward]. repeat case_decide; naive_solver.
  - intros y j Hj. rewrite Hc4, Hc3, Hc2, Hc1. rewrite !decide_False by naive_solver. done.
Qed.

Lemma link_loop_spec h y0 :
  update !! 0%nat = Some (y0, Z.of_nat K) -> (lv <= zlv)%nat ->
  (forall i, (i < zlv)%nat -> cells_at h T i) -> (forall i, (i < lv)%nat -> is_Some (get_level h x i)) ->
  exists h', for_loop (link_level x update) 0 lv h = Some h' /\ same_info h h'
    /\ (forall i, (i < lv)%nat -> cells_at h' T' i) /\ (forall y i, (lv <= i)%nat -> get_level h' y i = get_level h y i).
Proof.
  intros H0 Hlv Hc Hx.
  destruct (for_loop_ind (link_level x update) (fun j hj => same_info h hj /\ (forall i, (i < j)%nat -> cells_at hj T' i)
              /\ forall y i, (j <= i)%nat -> get_level hj y i = get_level h y i) 0 lv h) as (h' & Hf & Hi & Hd & Hr).
  - split; [done|]. split; [lia|done].
  - intros j hj Hj (Hi & Hd & Hr). destruct Hupd as [_ Hup]. destruct (Hup j ltac:(lia)) as (u & yu & Hj' & Hu).
    destruct (Hx j ltac:(lia)) as [lx Hlx]. rewrite <-(Hr x j (le_n j)) in Hlx.
    assert (Hcj : cells_at hj T j) by (intros p y k Hp Hk; rewrite Hr by done; apply (Hc j ltac:(lia) p y k Hp Hk)).
    destruct (link_level_spec hj j y0 u yu lx H0 Hj') as (h' & Hs & Hi' & Hl & Ho); [|by apply update_cell|done|].
    { intros ->. destruct Hu as (k & Hu & _). by apply (x_fresh T1 X x lv Hnd), (towers_in _ _ _ _ Hu). }
    exists h'. split; [done|]. split; [intros y; by rewrite Hi', Hi|]. split.
    + intros i Hij. destruct (decide (i = j)) as [->|Hne].
      * eapply (cells_at_link T1 X K HK x lv Hnd Hsmall hj); [lia|done..].
      * intros p y k Hp Hk. rewrite Ho by done. apply (Hd i ltac:(lia) p y k Hp Hk).
    + intros y i Hij. rewrite Ho by lia. apply Hr. lia.
  - exists h'. split; [done|]. split; [done|]. split; [done|]. intros y i Hge. apply Hr. lia.
Qed.

Lemma bump_loop_spec h :
  (lv <= zlv)%nat -> (forall i, (i < lv)%nat -> cells_at h T' i) -> (forall i, (lv <= i < zlv)%nat -> cells_at h T i) ->
  exists h', for_loop (bump_level update) lv (zlv - lv) h = Some h' /\ same_info h h'
    /\ (forall i, (i < zlv)%nat -> cells_at h' T' i) /\ (forall y i, (zlv <= i)%nat -> get_level h' y i = get_level h y i).
Proof.
  intros Hlv Hd0 Hc.
  destruct (for_loop_ind (bump_level update) (fun j hj => same_info h hj /\ (forall i, (i < j)%nat -> cells_at hj T' i)
              /\ forall y i, (j <= i)%nat -> get_level hj y i = get_level h y i) lv (zlv - lv) h) as (h' & Hf & Hi & Hd & Hr).
  - split; [done|]. split; done.
  - intros j hj Hj (Hi & Hd & Hr). destruct Hupd as [_ Hup]. destruct (Hup j ltac:(lia)) as (u & yu & Hj' & Hu).
    assert (Hcj : cells_at hj T j) by (intros p y k Hp Hk; rewrite Hr by done; apply (Hc j ltac:(lia) p y k Hp Hk)).
    unfold bump_level at 1. rewrite Hj'. sbind. pose proof (update_cell hj j u yu Hcj Hu) as Hg. rewrite Hg. sbind.
    destruct (set_span_spec hj yu j _ (u64 (span (next_at j (drop (S u) T)) + 1)) Hg) as (h' & -> & Hl & Hi').
    exists h'. split; [done|]. split; [intros y; by rewrite Hi', Hi|]. split.
    + intros i Hij. destruct (decide (i = j)) as [->|Hne].
      * eapply (cells_at_bump T1 X K HK x lv Hnd Hsmall hj); [lia|done..|].
        intros y. rewrite Hl. repeat case_decide; naive_solver.
      * intros p y k Hp Hk. rewrite Hl, decide_False by naive_solver. apply (Hd i ltac:(lia) p y k Hp Hk).
    + intros y i Hij. rewrite Hl, decide_False by lia. apply Hr. lia.
  - replace (lv + (zlv - lv))%nat with zlv in * by lia. exists h'. done.
Qed.

End link.

(** ** Back links *)

Definition with_back (p : option ptr) (t : option sds * double * option ptr * nat) :=
  (t.1.1.1, t.1.1.2, p, t.2).

Lemma set_back_spec h x p :
  is_Some (h !! x) ->
  exists h', set_backward h x p = Some h' /\ (forall y j, get_level h' y j = get_level h y j)
    /\ (forall y, info h' y = if decide (y = x) then with_back p <$> info h x else info h y).
Proof.
  intros [n Hn]. destruct (set_backward_spec h x p n Hn) as (h' & -> & Hl & Hi & Hx). exists h'. split; [done|]. split; [done|].
  intros y. case_decide as Hy; [|by apply Hi]. subst y. rewrite Hx. unfold info. by rewrite Hn.
Qed.

(** The last step of the insertion and of the deletion: the node after gets its
    back link, or the list its tail. *)
Lemma back_spec h (fw p tl : option ptr) :
  (forall y, fw = Some y -> is_Some (h !! y)) ->
  exists h', match fw with
             | Some y => h ← set_backward h y p; Some (h, tl)
             | None => Some (h, p)
             end = Some (h', if fw is Some _ then tl else p)
    /\ (forall y j, get_level h' y j = get_level h y j)
    /\ (forall y, info h' y = if decide (fw = Some y) then with_back p <$> info h y else info h y).
Proof.
  intros Hfw. destruct fw as [z|].
  - destruct (set_back_spec h z p (Hfw z eq_refl)) as (h' & -> & Hl & Hi). sbind. exists h'. split; [done|]. split; [done|].
    intros y. rewrite Hi. repeat case_decide; naive_solver.
  - exists h. split; [done|]. split; [done|]. done.
Qed.

Lemma info_is_some h x : is_Some (info h x) -> is_Some (h !! x).
Proof. unfold info. destruct (h !! x); [eauto|]. intros [? ?]; done. Qed.

(** ** A sequence with a node put in, or taken out *)

Section sequence.
Context (A1 A2 : list znode) (a : znode).

Lemma towers_app zsl A B : towers zsl (A ++ B) = towers zsl A ++ (tower <$> B).
Proof. unfold towers. by rewrite fmap_app. Qed.

Lemma prev_l j : (j < length A1)%nat -> prev (A1 ++ a :: A2) j = prev (A1 ++ A2) j.
Proof. destruct j as [|j]; [done|]. intros Hj. cbn. by rewrite !lookup_app_l by lia. Qed.

Lemma prev_mid : prev (A1 ++ a :: A2) (length A1) = zn_ptr <$> last A1.
Proof.
  destruct A1 as [|b B _] using rev_ind; [done|]. rewrite length_app, last_snoc. cbn [length]. rewrite Nat.add_1_r.
  cbn [prev]. rewrite <-app_assoc. cbn [app]. by rewrite list_lookup_middle.
Qed.

Lemma prev_mid' : prev (A1 ++ A2) (length A1) = zn_ptr <$> last A1.
Proof.
  destruct A1 as [|b B _] using rev_ind; [done|]. rewrite length_app, last_snoc. cbn [length]. rewrite Nat.add_1_r.
  cbn [prev]. rewrite <-app_assoc. cbn [app]. by rewrite list_lookup_middle.
Qed.

Lemma prev_r j : (length A1 < j)%nat -> prev (A1 ++ a :: A2) (S j) = prev (A1 ++ A2) j.
Proof.
  intros Hj. destruct j as [|j]; [lia|]. cbn. f_equal. rewrite !lookup_app_r by lia.
  by replace (S j - length A1)%nat with (S (j - length A1)) by lia.
Qed.

Lemma prev_next : prev (A1 ++ a :: A2) (S (length A1)) = Some (zn_ptr a).
Proof. cbn. by rewrite list_lookup_middle. Qed.

Lemma lookup_mid j b : (A1 ++ a :: A2) !! j = Some b ->
  (j < length A1)%nat /\ (A1 ++ A2) !! j = Some b
  \/ j = length A1 /\ b = a
  \/ exists j', j = S j' /\ (length A1 <= j')%nat /\ (A1 ++ A2) !! j' = Some b.
Proof.
  intros Hj. destruct (Nat.lt_trichotomy j (length A1)) as [Hlt|[->|Hlt]].
  - left. split; [done|]. by rewrite lookup_app_l in Hj |- *.
  - right; left. split; [done|]. rewrite list_lookup_middle in Hj by done. congruence.
  - right; right. destruct j as [|j]; [lia|]. exists j. split; [done|]. split; [lia|].
    rewrite lookup_app_r in Hj |- * by lia. by replace (S j - length A1)%nat with (S (j - length A1)) in Hj by lia.
Qed.

Lemma lookup_without j b : (A1 ++ A2) !! j = Some b ->
  (j < length A1)%nat /\ (A1 ++ a :: A2) !! j = Some b
  \/ (length A1 <= j)%nat /\ (A1 ++ a :: A2) !! S j = Some b.
Proof.
  intros Hj. destruct (decide (j < length A1)%nat) as [Hlt|Hlt]; [left|right]; (split; [lia|]).
  - by rewrite lookup_app_l in Hj |- *.
  - rewrite lookup_app_r in Hj |- * by lia. by replace (S j - length A1)%nat with (S (j - length A1)) by lia.
Qed.

End sequence.

Lemma nodup_insert (T1 T2 : list (ptr * nat)) x lv :
  NoDup (T1 ++ T2).*1 -> x ∉ (T1 ++ T2).*1 -> NoDup (T1 ++ (x, lv) :: T2).*1.
Proof.
  rewrite !fmap_app. cbn. rewrite !NoDup_app, NoDup_cons, elem_of_app. intros (H1 & H2 & H3) Hx.
  split; [done|]. split; [|naive_solver]. intros y Hy [->|Hy']%elem_of_cons; [by apply Hx; left|by apply (H2 y Hy)].
Qed.

Lemma rep_not_in h zsl A x : rep h zsl A -> h !! x = None -> x ∉ (towers zsl A).*1.
Proof.
  intros R Hx (q & Hq)%list_elem_of_lookup. rewrite list_lookup_fmap, fmap_Some in Hq. destruct Hq as ([y k] & Hq & ->).
  destruct (towers_heap h zsl A R q y k Hq) as [n Hn]. cbn in Hx. congruence.
Qed.

Lemma towers_at zsl A j b : A !! j = Some b -> towers zsl A !! S j = Some (zn_ptr b, zn_ht b).
Proof. intros Hb. change (towers zsl A !! S j) with ((tower <$> A) !! j). by rewrite list_lookup_fmap, Hb. Qed.

Lemma ptr_inj h zsl A j j' b c :
  rep h zsl A -> A !! j = Some b -> A !! j' = Some c -> zn_ptr b = zn_ptr c -> j = j'.
Proof.
  intros R Hb Hc He. assert (S j = S j'); [|lia].
  apply (towers_inj (towers zsl A) _ _ (zn_ptr b) (zn_ht b) (zn_ht c) (rep_nodup _ _ _ R));
    [by apply towers_at|rewrite He; by apply towers_at].
Qed.

Lemma ptr_not_header h zsl A b : rep h zsl A -> b ∈ A -> zn_ptr b <> header zsl.
Proof.
  intros R (j & Hb)%list_elem_of_lookup He. assert (S j = 0%nat); [|lia].
  apply (towers_inj (towers zsl A) _ _ (zn_ptr b) (zn_ht b) ZSKIPLIST_MAXLEVEL (rep_nodup _ _ _ R));
    [by apply towers_at|by rewrite He].
Qed.

Lemma head_ptr A1 A2 y :
  zn_ptr <$> head A2 = Some y -> exists c, (A1 ++ A2) !! length A1 = Some c /\ zn_ptr c = y.
Proof. destruct A2 as [|c A2]; [done|]. intros [= <-]. exists c. split; [by apply list_lookup_middle|done]. Qed.

(** The heap after the links are set represents the sequence with [a]. *)
Section insert_rep.
Context (h h' : heap) (zsl : zskiplist) (A1 A2 : list znode) (a : znode) (zlv : nat).
Context (R : rep h zsl (A1 ++ A2)) (Hx : h !! zn_ptr a = None).
Context (Hi : forall y, info h' y =
  if decide (y = zn_ptr a) then Some (Some (zn_ele a), zn_score a, zn_ptr <$> last A1, zn_ht a)
  else if decide (zn_ptr <$> head A2 = Some y) then with_back (Some (zn_ptr a)) <$> info h y else info h y).

Lemma insert_fresh b : b ∈ A1 ++ A2 -> zn_ptr b <> zn_ptr a.
Proof.
  intros (j & Hb)%list_elem_of_lookup He. apply (rep_node _ _ _ R) in Hb. rewrite He in Hb. unfold info in Hb.
  by rewrite Hx in Hb.
Qed.

Lemma insert_header : info h' (header zsl) = info h (header zsl).
Proof.
  rewrite Hi, !decide_False; [done|..].
  - intros (c & Hc & He)%(head_ptr A1). by apply (ptr_not_header _ _ _ c R (list_elem_of_lookup_2 _ _ _ Hc)).
  - intros He. apply (rep_not_in _ _ _ _ R Hx). rewrite <-He. cbn. by left.
Qed.

Lemma insert_nodes j b :
  (A1 ++ a :: A2) !! j = Some b ->
  info h' (zn_ptr b) = Some (Some (zn_ele b), zn_score b, prev (A1 ++ a :: A2) j, zn_ht b).
Proof.
  intros Hj. rewrite Hi. destruct (lookup_mid A1 A2 a j b Hj) as [[Hlt Hb]|[[-> ->]|(j' & -> & Hge & Hb)]].
  - rewrite decide_False by (by apply insert_fresh, list_elem_of_lookup_2 with j).
    rewrite decide_False; [rewrite prev_l by done; by apply (rep_node _ _ _ R)|].
    intros (c & Hc & He)%(head_ptr A1). pose proof (ptr_inj _ _ _ _ _ _ _ R Hb Hc (eq_sym He)). lia.
  - rewrite decide_True by done. by rewrite prev_mid.
  - rewrite decide_False by (by apply insert_fresh, list_elem_of_lookup_2 with j').
    pose proof (rep_node _ _ _ R j' b Hb) as Hi'. destruct (decide (j' = length A1)) as [->|Hgt].
    + rewrite prev_next. rewrite lookup_app_r, Nat.sub_diag in Hb by lia. destruct A2 as [|c A3]; [done|].
      cbn in Hb. injection Hb as ->. cbn [head fmap option_fmap option_map]. rewrite decide_True by done. by rewrite Hi'.
    + rewrite prev_r by lia. rewrite decide_False; [done|].
      intros (c & Hc & He)%(head_ptr A1). pose proof (ptr_inj _ _ _ _ _ _ _ R Hb Hc (eq_sym He)). lia.
Qed.

Lemma insert_rep :
  knum (zn_key a) ->
  (forall b, b ∈ A1 -> klt (zn_key b) (zn_key a)) -> (forall b, b ∈ A2 -> klt (zn_key a) (zn_key b)) ->
  zlen (A1 ++ A2) + 1 < 2 ^ 63 -> (1 <= zn_ht a <= ZSKIPLIST_MAXLEVEL)%nat -> zlv = Nat.max (zsl_level zsl) (zn_ht a) ->
  (forall i, (i < zlv)%nat -> cells_at h' (towers zsl (A1 ++ a :: A2)) i) ->
  (forall i, (zlv <= i < ZSKIPLIST_MAXLEVEL)%nat -> get_level h' (header zsl) i = get_level h (header zsl) i) ->
  rep h' (mkZsl (header zsl) (if A2 is [] then Some (zn_ptr a) else tail zsl) (u64 (zsl_length zsl + 1)) zlv) (A1 ++ a :: A2).
Proof.
  intros Hn H1 H2 Hs Hht Hzlv Hc Ha.
  pose proof (rep_nodup _ _ _ R) as Hnd. rewrite towers_app in Hnd. pose proof (rep_level _ _ _ R) as Hlv.
  assert (Hlen : zlen (A1 ++ a :: A2) = zlen (A1 ++ A2) + 1) by zlen_solve.
  assert (Hin : forall b, b ∈ A1 ++ a :: A2 <-> b = a \/ b ∈ A1 ++ A2) by (intros b; set_solver).
  split; cbn [header tail zsl_length zsl_level].
  - change (NoDup (towers zsl (A1 ++ a :: A2)).*1). rewrite towers_app. apply nodup_insert; [done|].
    rewrite <-towers_app. by eapply rep_not_in.
  - rewrite insert_header. apply R.
  - apply insert_nodes.
  - intros p y k i Hp Hk Hlt. by apply (Hc i Hlt p y k).
  - intros i Hge. rewrite Ha by lia. apply (rep_above _ _ _ R). lia.
  - intros b [->|Hb]%Hin; [lia|]. pose proof (rep_heights _ _ _ R b Hb). lia.
  - lia.
  - intros Hgt. destruct (decide (zsl_level zsl <= zn_ht a)%nat).
    + exists a. split; [by apply Hin; left|lia].
    + destruct (rep_top _ _ _ R) as (b & Hb & Hh); [lia|]. exists b. split; [by apply Hin; right|lia].
  - rewrite (rep_length _ _ _ R), Hlen, wrap_small; [done|]. pose proof (zlen_nonneg (A1 ++ A2)). lia.
  - lia.
  - rewrite (rep_tail _ _ _ R), !last_app. destruct A2 as [|c A3]; [done|]. rewrite last_cons_cons.
    destruct (last (c :: A3)) eqn:El; [done|]. by apply last_None in El.
  - apply sorted_insert; [apply R|done..].
  - intros b [->|Hb]%Hin; [done|]. by apply (rep_num _ _ _ R).
Qed.
End insert_rep.

(** The first cell of the new node leads to the node after it. *)
Lemma next_at_0 h zsl A1 A2 :
  rep h zsl (A1 ++ A2) -> forward (next_at 0 (tower <$> A2)) = zn_ptr <$> head A2.
Proof.
  intros R. destruct A2 as [|b A2]; [done|].
  assert (b ∈ A1 ++ b :: A2) as Hb by set_solver. apply (rep_heights _ _ _ R) in Hb.
  cbn. destruct (zn_ht b); [lia|done].
Qed.

(** The node before the place. *)
Lemma found_prev h zsl A1 A2 x ht :
  rep h zsl (A1 ++ A2) -> towers zsl (A1 ++ A2) !! length A1 = Some (x, ht) ->
  (if bool_decide (x = header zsl) then None else Some x) = zn_ptr <$> last A1.
Proof.
  intros R Hx. destruct A1 as [|b B _] using rev_ind; [cbn in Hx; injection Hx as <- _; by rewrite bool_decide_true|].
  rewrite length_app in Hx. cbn [length] in Hx. rewrite Nat.add_1_r in Hx. rewrite last_snoc.
  apply (towers_node zsl _) in Hx as (a & Ha & -> & _). rewrite <-app_assoc in Ha. cbn [app] in Ha.
  rewrite list_lookup_middle in Ha by done. injection Ha as <-.
  rewrite bool_decide_false; [done|]. apply (ptr_not_header _ _ _ b R). set_solver.
Qed.

Section insert.
Context (zmalloc : heap -> ptr) (junk : option ptr * zskiplistLevel).
Context (Hmalloc : forall h, h !! zmalloc h = None).

Lemma grown h zsl A K update lv :
  rep h zsl A -> (lv <= ZSKIPLIST_MAXLEVEL)%nat -> updates (towers zsl A) K (zsl_level zsl) update ->
  exists h' update', (if (zsl_level zsl <? lv)%nat
                      then for_loop (grow_level zsl) (zsl_level zsl) (lv - zsl_level zsl) (h, update)
                      else Some (h, update)) = Some (h', update')
    /\ same_info h h' /\ updates (towers zsl A) K (Nat.max (zsl_level zsl) lv) update'
    /\ (forall i, (i < Nat.max (zsl_level zsl) lv)%nat -> cells_at h' (towers zsl A) i)
    /\ (forall i, (Nat.max (zsl_level zsl) lv <= i < ZSKIPLIST_MAXLEVEL)%nat ->
          get_level h' (header zsl) i = get_level h (header zsl) i).
Proof.
  intros R Hlv Hu. destruct (Nat.ltb_spec (zsl_level zsl) lv) as [Hlt|Hge].
  - rewrite Nat.max_r by lia. apply grow_spec; [done|lia|done].
  - rewrite Nat.max_l by lia. exists h, update. split; [done|]. split; [done|]. split; [done|]. split; [|done].
    intros i Hi. by apply cells_at_rep.
Qed.

Lemma create_spec h lv s e :
  let x := zmalloc h in
  exists h', zslCreateNode zmalloc junk h lv s e = (x, h') /\ h !! x = None
    /\ (forall y, info h' y = if decide (y = x) then Some (e, s, junk.1, lv) else info h y)
    /\ (forall y i, y <> x -> get_level h' y i = get_level h y i)
    /\ (forall i, (i < lv)%nat -> get_level h' x i = Some junk.2).
Proof.
  intros x. eexists. split; [done|]. split; [apply Hmalloc|]. fold x. split_and!.
  - intros y. unfold info. case_decide as Hy; [|by rewrite lookup_insert_ne]. subst y. rewrite lookup_insert_eq. cbn.
    by rewrite length_replicate.
  - intros y i Hy. unfold get_level. by rewrite lookup_insert_ne.
  - intros i Hi. unfold get_level. rewrite lookup_insert_eq. cbn. by apply lookup_replicate_2.
Qed.

(** The links of the new node, from the heap with the new levels of the header. *)
Lemma insert_links h h1 zsl A1 A2 s e upd lv x0 ht :
  rep h zsl (A1 ++ A2) -> zlen (A1 ++ A2) + 1 < 2 ^ 63 -> (1 <= lv <= ZSKIPLIST_MAXLEVEL)%nat ->
  let zlv := Nat.max (zsl_level zsl) lv in
  same_info h h1 -> updates (towers zsl (A1 ++ A2)) (length A1) zlv upd ->
  towers zsl (A1 ++ A2) !! length A1 = Some (x0, ht) ->
  (forall i, (i < zlv)%nat -> cells_at h1 (towers zsl (A1 ++ A2)) i) ->
  exists x h2 h3 h4, zslCreateNode zmalloc junk h1 lv s (Some e) = (x, h2) /\ h !! x = None
    /\ for_loop (link_level x upd) 0 lv h2 = Some h3 /\ for_loop (bump_level upd) lv (zlv - lv) h3 = Some h4
    /\ upd !! 0%nat = Some (x0, Z.of_nat (length A1))
    /\ (forall y, info h4 y = if decide (y = x) then Some (Some e, s, junk.1, lv) else info h y)
    /\ (forall i, (i < zlv)%nat -> cells_at h4 (towers zsl (A1 ++ mkZn x e s lv :: A2)) i)
    /\ (forall y i, y <> x -> (zlv <= i)%nat -> get_level h4 y i = get_level h1 y i)
    /\ get_level h4 x 0 = Some (next_at 0 (tower <$> A2)).
Proof.
  intros R Hsm Hlv zlv Hi1 Hu1 Hx0 Hc1.
  destruct (create_spec h1 lv s (Some e)) as (h2 & Hcr & Hx & Hi2 & Hl2 & Hlx2). set (x := zmalloc h1) in *.
  assert (Hxh : h !! x = None).
  { destruct (h !! x) as [n|] eqn:E; [|done]. pose proof (Hi1 x) as Hi. unfold info in Hi. by rewrite E, Hx in Hi. }
  pose proof (rep_not_in _ _ _ _ R Hxh) as Hxin. pose proof (rep_nodup _ _ _ R) as Hnd0.
  assert (Hu0 : upd !! 0%nat = Some (x0, Z.of_nat (length A1))).
  { destruct Hu1 as [_ Hu1]. destruct (Hu1 0%nat ltac:(lia)) as (u & y & Hy & Hu).
    pose proof (last_upto_0 h zsl _ R _ _ _ Hu) as ->. rewrite length_app, Nat.min_l in Hu, Hy by lia.
    destruct Hu as (k & Hu & _). congruence. }
  rewrite towers_app in *. cbn [fmap list_fmap tower zn_ptr zn_ht].
  assert (Hnd : NoDup (towers zsl A1 ++ (x, lv) :: (tower <$> A2)).*1) by (by apply nodup_insert).
  assert (HT1 : length (towers zsl A1) = S (length A1)) by apply towers_length.
  assert (Hsm' : zlen (towers zsl A1) + zlen (tower <$> A2) < 2 ^ 63).
  { revert Hsm. unfold zlen. rewrite HT1, length_fmap, length_app. lia. }
  assert (Hc2 : forall i, (i < zlv)%nat -> cells_at h2 (towers zsl A1 ++ (tower <$> A2)) i).
  { intros i Hi p y k Hp Hk. rewrite Hl2 by (intros ->; apply Hxin; by eapply towers_in). by apply (Hc1 i Hi p y k). }
  destruct (link_loop_spec _ _ _ HT1 x lv zlv Hnd Hsm' upd Hu1 h2 x0 Hu0 ltac:(lia) Hc2) as (h3 & Hf3 & Hi3 & Hc3 & Hl3).
  { intros i Hi. rewrite Hlx2 by done. eauto. }
  destruct (bump_loop_spec _ _ _ HT1 x lv zlv Hnd Hsm' upd Hu1 h3 ltac:(lia) Hc3) as (h4 & Hf4 & Hi4 & Hc4 & Hl4).
  { intros i Hi p y k Hp Hk. rewrite Hl3 by lia. by apply (Hc2 i ltac:(lia) p y k). }
  exists x, h2, h3, h4. rewrite towers_app. split_and!; try done.
  - intros y. rewrite Hi4, Hi3, Hi2. case_decide; [done|]. apply Hi1.
  - intros y i Hy Hi. rewrite Hl4, Hl3, Hl2 by (done || lia). done.
  - rewrite (Hc4 0%nat ltac:(lia) (S (length A1)) x lv); [|by apply x_at|lia]. by rewrite drop_x.
Qed.

Lemma zslInsert_at h zsl A1 A2 s e rnd lv rnd' :
  rep h zsl (A1 ++ A2) -> isnan s = false -> length A1 = place (A1 ++ A2) (s, e) ->
  (forall b, b ∈ A1 -> klt (zn_key b) (s, e)) -> (forall b, b ∈ A2 -> klt (s, e) (zn_key b)) ->
  zlen (A1 ++ A2) + 1 < 2 ^ 63 -> zslRandomLevel rnd = Some (lv, rnd') ->
  exists x h' zsl', zslInsert zmalloc junk h zsl s e rnd = Some (x, h', zsl', rnd') /\ h !! x = None
    /\ rep h' zsl' (A1 ++ mkZn x e s lv :: A2) /\ dom h' = {[x]} ∪ dom h /\ header zsl' = header zsl.
Proof.
  intros R Hs HK H1 H2 Hsm Hr. pose proof (zslRandomLevel_range _ _ _ Hr) as Hlv.
  destruct (descend_key h zsl _ R s e Hs) as (x0 & update & Hd & Hlen & [ht Hx0] & Hup). rewrite <-HK in *.
  destruct (grown h zsl _ (length A1) update lv R ltac:(lia) (conj Hlen Hup)) as (h1 & upd & Hg & Hi1 & Hu1 & Hc1 & Ha1).
  destruct (insert_links h h1 zsl A1 A2 s e upd lv x0 ht R Hsm Hlv Hi1 Hu1 Hx0 Hc1)
    as (x & h2 & h3 & h4 & Hcr & Hxh & Hf3 & Hf4 & Hu0 & Hi4 & Hc4 & Hl4 & Hfw).
  set (zlv := Nat.max (zsl_level zsl) lv) in *.
  destruct (set_back_spec h4 x (zn_ptr <$> last A1)) as (h5 & Hb5 & Hl5 & Hi5).
  { apply info_is_some. rewrite Hi4, decide_True by done. eauto. }
  destruct (back_spec h5 (zn_ptr <$> head A2) (Some x) (tail zsl)) as (h6 & Hb6 & Hl6 & Hi6).
  { intros y (c & Hc & <-)%(head_ptr A1). apply info_is_some. rewrite Hi5, !Hi4, (rep_node _ _ _ R _ c Hc).
    repeat case_decide; cbn; (done || eauto). }
  unfold zslInsert. rewrite Hs, Hd. sbind. rewrite Hr. sbind. rewrite Hg. sbind. rewrite Hcr.
  replace (if (zsl_level zsl <? lv)%nat then lv else zsl_level zsl) with zlv
    by (unfold zlv; destruct (Nat.ltb_spec (zsl_level zsl) lv); lia).
  rewrite Hf3. sbind. rewrite Hf4. sbind. rewrite Hu0. sbind. rewrite (found_prev h zsl A1 A2 x0 ht R Hx0), Hb5. sbind.
  rewrite Hl5, Hfw. sbind. rewrite (next_at_0 h zsl A1 A2 R), Hb6. sbind.
  assert (Hi : forall y, info h6 y = if decide (y = x) then Some (Some e, s, zn_ptr <$> last A1, lv)
      else if decide (zn_ptr <$> head A2 = Some y) then with_back (Some x) <$> info h y else info h y).
  { intros y. rewrite Hi6, !Hi5, !Hi4. repeat case_decide; try done; subst.
    destruct (head_ptr A1 A2 x ltac:(done)) as (c & Hc & He).
    by destruct (insert_fresh h zsl A1 A2 (mkZn x e s lv) R Hxh c (list_elem_of_lookup_2 _ _ _ Hc)). }
  exists x, h6. eexists. split; [reflexivity|]. split; [done|]. split_and!.
  - replace (if zn_ptr <$> head A2 is Some _ then tail zsl else Some x)
      with (if A2 is [] then Some (zn_ptr (mkZn x e s lv)) else tail zsl) by (by destruct A2).
    apply (insert_rep h h6 zsl A1 A2 (mkZn x e s lv) zlv R Hxh Hi); try done.
    + intros i Hlt p y k Hp Hk. rewrite Hl6, Hl5. by apply (Hc4 i Hlt p y k).
    + intros i Hge. rewrite Hl6, Hl5, Hl4, Ha1; [done|lia| |lia].
      intros <-. destruct (rep_header _ _ _ R) as [? E]. unfold info in E. by rewrite Hxh in E.
  - transitivity (dom (<[x := mkNode None s None []]> h)); [|by rewrite dom_insert_L].
    apply info_dom. intros y. rewrite Hi. unfold info. destruct (decide (y = x)) as [->|Hy].
    + by rewrite lookup_insert_eq.
    + rewrite lookup_insert_ne by done. case_decide; destruct (h !! y); done.
  - done.
Qed.

(** [zslInsert] puts a node with the score and the element at its place, when
    no node has them already; the heap has that node more. *)
Lemma zslInsert_spec h zsl A s e rnd lv rnd' :
  rep h zsl A -> isnan s = false -> (forall a, a ∈ A -> ~ keq (zn_key a) (s, e)) -> zlen A + 1 < 2 ^ 63 ->
  zslRandomLevel rnd = Some (lv, rnd') ->
  let K := place A (s, e) in
  exists x h' zsl', zslInsert zmalloc junk h zsl s e rnd = Some (x, h', zsl', rnd') /\ h !! x = None
    /\ rep h' zsl' (take K A ++ mkZn x e s lv :: drop K A) /\ dom h' = {[x]} ∪ dom h /\ header zsl' = header zsl.
Proof.
  intros R Hs Hnew Hsm Hr K. pose proof (place_le A (s, e)) as HK. fold K in HK.
  apply zslInsert_at; rewrite ?take_drop; try done.
  - rewrite length_take. lia.
  - intros b (j & Hb)%list_elem_of_lookup. apply lookup_take_Some in Hb as [Hb Hj]. by apply (place_spec A (rep_ordered h zsl A R) _ j).
  - intros b (j & Hb)%list_elem_of_lookup. rewrite lookup_drop in Hb.
    destruct (klt_total (zn_key b) (s, e)) as [Hl|[He|?]]; [by eapply rep_knum|done| | |done].
    + apply (place_spec A (rep_ordered h zsl A R) _ (K + j)) in Hl; [|done..]. fold K in Hl. lia.
    + by destruct (Hnew b (list_elem_of_lookup_2 _ _ _ Hb)).
Qed.

End insert.

(** ** Deletion *)

Section unlink.
Context (T1 X : list (ptr * nat)) (K : nat) (HK : length T1 = S K) (x : ptr) (lv zlv : nat).
Context (Hnd : NoDup (T1 ++ (x, lv) :: X).*1) (Hsmall : zlen T1 + zlen X < 2 ^ 63).
Local Abbreviation T := (T1 ++ X).
Local Abbreviation T' := (T1 ++ (x, lv) :: X).
Context (update : list (ptr * Z)).
Context (Hupd : forall i, (i < zlv)%nat -> exists u y, update !! i = Some (y, Z.of_nat u) /\ last_upto T' K i u y).

(** The node before has [x] next to it on the levels of [x], and only there. *)
Lemma forward_x i u yu :
  last_upto T' K i u yu -> bool_decide (forward (next_at i (drop (S u) T')) = Some x) = (i <? lv)%nat.
Proof.
  intros Hu. rewrite (next_at_gap T1 K HK ((x, lv) :: X) i u yu Hu). cbn [forward next_at].
  destruct (Nat.ltb_spec i lv); cbn [forward]; [by rewrite bool_decide_true|].
  apply bool_decide_false. intros He. destruct (next_at_spec i X) as [(Hn & _)|(d & y & k & Hf & _ & Hd & _)]; [congruence|].
  rewrite Hf in He. injection He as ->. apply (x_fresh T1 X x lv Hnd). rewrite fmap_app. apply elem_of_app. right.
  by eapply towers_in.
Qed.

Lemma unlink_level_spec h i u yu :
  update !! i = Some (yu, Z.of_nat u) -> last_upto T' K i u yu -> cells_at h T' i ->
  exists h', unlink_level x update i h = Some h' /\ same_info h h'
    /\ (forall y, get_level h' y i =
          if decide (y = yu) then
            Some (if decide (i < lv)%nat
                  then mkLevel (forward (next_at i X))
                         (u64 (span (next_at i (drop (S u) T')) + u64 (span (next_at i X) - 1)))
                  else mkLevel (forward (next_at i (drop (S u) T'))) (u64 (span (next_at i (drop (S u) T')) - 1)))
          else get_level h y i)
    /\ (forall y j, j <> i -> get_level h' y j = get_level h y j).
Proof.
  intros Hi Hu Hc. pose proof Hu as (ku & Htu & Hku & Hle & _). unfold unlink_level. rewrite Hi. sbind.
  pose proof (Hc u yu ku Htu Hku) as Hg. rewrite Hg. sbind. rewrite (forward_x i u yu Hu).
  destruct (Nat.ltb_spec i lv) as [Hlt|Hge].
  - rewrite (Hc (S K) x lv), (drop_x T1 X K HK) by (done || by apply x_at). sbind.
    destruct (set_span_spec h yu i _ (u64 (span (next_at i (drop (S u) T')) + u64 (span (next_at i X) - 1))) Hg)
      as (h1 & -> & Hc1 & Hi1). sbind.
    destruct (set_forward_spec h1 yu i (mkLevel (forward (next_at i (drop (S u) T')))
                (u64 (span (next_at i (drop (S u) T')) + u64 (span (next_at i X) - 1)))) (forward (next_at i X)))
      as (h2 & -> & Hc2 & Hi2); [by rewrite Hc1, decide_True|].
    exists h2. split; [done|]. split; [intros y; by rewrite Hi2, Hi1|]. split.
    + intros y. rewrite Hc2, Hc1, (decide_True _ _ Hlt). cbn [span]. repeat case_decide; naive_solver.
    + intros y j Hj. by rewrite Hc2, Hc1, !decide_False by naive_solver.
  - destruct (set_span_spec h yu i _ (u64 (span (next_at i (drop (S u) T')) - 1)) Hg) as (h1 & -> & Hc1 & Hi1).
    exists h1. split; [done|]. split; [done|]. split.
    + intros y. rewrite Hc1, (decide_False (P := (i < lv)%nat)) by lia. repeat case_decide; naive_solver.
    + intros y j Hj. by rewrite Hc1, decide_False by naive_solver.
Qed.

Lemma unlink_loop_spec h :
  (forall i, (i < zlv)%nat -> cells_at h T' i) ->
  exists h', for_loop (unlink_level x update) 0 zlv h = Some h' /\ same_info h h'
    /\ (forall i, (i < zlv)%nat -> cells_at h' T i)
    /\ (forall i, get_level h' x i = get_level h x i)
    /\ (forall y i, (zlv <= i)%nat -> get_level h' y i = get_level h y i).
Proof.
  intros Hc.
  destruct (for_loop_ind (unlink_level x update) (fun j hj => same_info h hj /\ (forall i, (i < j)%nat -> cells_at hj T i)
              /\ (forall i, get_level hj x i = get_level h x i)
              /\ forall y i, (j <= i)%nat -> get_level hj y i = get_level h y i) 0 zlv h) as (h' & Hf & Hi & Hd & Hx & Hr).
  - split; [done|]. split; [lia|]. split; done.
  - intros j hj Hj (Hi & Hd & Hx & Hr). destruct (Hupd j ltac:(lia)) as (u & yu & Hj' & Hu).
    assert (Hcj : cells_at hj T' j) by (intros p y k Hp Hk; rewrite Hr by done; apply (Hc j ltac:(lia) p y k Hp Hk)).
    destruct (unlink_level_spec hj j u yu Hj' Hu Hcj) as (h' & Hs & Hi' & Hl & Ho).
    exists h'. split; [done|]. split; [intros y; by rewrite Hi', Hi|]. split_and!.
    + intros i Hij. destruct (decide (i = j)) as [->|Hne].
      * by eapply (cells_at_unlink T1 X K HK x lv Hnd Hsmall hj).
      * intros p y k Hp Hk. rewrite Ho by done. apply (Hd i ltac:(lia) p y k Hp Hk).
    + intros i. destruct (decide (i = j)) as [->|Hne]; [|by rewrite Ho]. rewrite Hl, decide_False; [done|].
      intros <-. destruct Hu as (k & Hu & _ & Hle & _).
      pose proof (towers_inj _ _ _ _ _ _ Hnd Hu (x_at T1 X K HK x lv)). lia.
    + intros y i Hij. rewrite Ho by lia. apply Hr. lia.
  - exists h'. split; [done|]. split; [done|]. split; [done|]. split; [done|]. intros y i Hge. apply Hr. lia.
Qed.

End unlink.

(** [zsl->level] after a deletion: that of the highest node. *)
Lemma lower_level_spec h hd A lv :
  (1 <= lv)%nat -> (forall i, (i < lv)%nat -> get_level h hd i = Some (next_at i (tower <$> A))) ->
  (forall a, a ∈ A -> (zn_ht a <= lv)%nat) ->
  exists lv', lower_level h hd lv = Some lv' /\ (1 <= lv' <= lv)%nat /\ (forall a, a ∈ A -> (zn_ht a <= lv')%nat)
    /\ ((1 < lv')%nat -> exists a, a ∈ A /\ zn_ht a = lv')
    /\ forall i, (lv' <= i < lv)%nat -> exists s, get_level h hd i = Some (mkLevel None s).
Proof.
  intros H1 Hg Ha. destruct lv as [|lv]; [lia|]. clear H1. revert Hg Ha. induction lv as [|lv IH]; intros Hg Ha.
  - exists 1%nat. split; [done|]. split; [lia|]. split; [done|]. split; lia.
  - cbn [lower_level]. pose proof (Hg (S lv) ltac:(lia)) as Hc. rewrite Hc. sbind.
    destruct (next_at_spec (S lv) (tower <$> A)) as [(Hf & _ & Hall)|(d & y & k & Hf & _ & Hd & Hk & _)]; rewrite Hf.
    + destruct IH as (lv' & Hl & Hr & Hh & Ht & Hn).
      * intros i Hi. apply Hg. lia.
      * intros a (j & Hj)%list_elem_of_lookup. apply (Hall j (zn_ptr a)). by rewrite list_lookup_fmap, Hj.
      * exists lv'. split; [done|]. split; [lia|]. split; [done|]. split; [done|]. intros i Hi.
        destruct (decide (i = S lv)) as [->|]; [|apply Hn; lia]. rewrite Hc. destruct (next_at _ _) as [fw sp]. cbn in Hf.
        subst fw. eauto.
    + exists (S (S lv)). split; [done|]. split; [lia|]. split; [done|]. split; [|lia]. intros _.
      rewrite list_lookup_fmap, fmap_Some in Hd. destruct Hd as (a & Hd & [= -> ->]). exists a.
      pose proof (list_elem_of_lookup_2 _ _ _ Hd) as Hin. split; [done|]. pose proof (Ha a Hin). lia.
Qed.

(** The heap after a node is unlinked represents the sequence without it. *)
Section delete_rep.
Context (h h' : heap) (zsl : zskiplist) (A1 A2 : list znode) (a : znode).
Context (R : rep h zsl (A1 ++ a :: A2)).
Context (Hi : forall y, info h' y =
  if decide (zn_ptr <$> head A2 = Some y) then with_back (zn_ptr <$> last A1) <$> info h y else info h y).

Lemma head_after y :
  zn_ptr <$> head A2 = Some y -> exists c, (A1 ++ a :: A2) !! S (length A1) = Some c /\ zn_ptr c = y.
Proof.
  intros (c & Hc & He)%(head_ptr (A1 ++ [a])). exists c. rewrite <-app_assoc, length_app, Nat.add_1_r in Hc. done.
Qed.

Lemma delete_header : info h' (header zsl) = info h (header zsl).
Proof.
  rewrite Hi, decide_False; [done|]. intros (c & Hc & He)%head_after.
  by apply (ptr_not_header _ _ _ c R (list_elem_of_lookup_2 _ _ _ Hc)).
Qed.

Lemma delete_nodes j b :
  (A1 ++ A2) !! j = Some b -> info h' (zn_ptr b) = Some (Some (zn_ele b), zn_score b, prev (A1 ++ A2) j, zn_ht b).
Proof.
  intros Hj. rewrite Hi. destruct (lookup_without A1 A2 a j b Hj) as [[Hlt Hb]|[Hge Hb]].
  - rewrite decide_False; [rewrite (rep_node _ _ _ R j b Hb); by rewrite prev_l|].
    intros (c & Hc & He)%head_after. pose proof (ptr_inj _ _ _ _ _ _ _ R Hb Hc (eq_sym He)). lia.
  - pose proof (rep_node _ _ _ R (S j) b Hb) as Hi'. destruct (decide (j = length A1)) as [->|Hne].
    + rewrite lookup_app_r, Nat.sub_diag in Hj by lia. destruct A2 as [|c A3]; [done|]. cbn in Hj. injection Hj as ->.
      cbn [head fmap option_fmap option_map]. rewrite decide_True by done. rewrite Hi', (prev_mid' A1 (b :: A3)). done.
    + rewrite decide_False; [rewrite Hi'; by rewrite prev_r by lia|].
      intros (c & Hc & He)%head_after. pose proof (ptr_inj _ _ _ _ _ _ _ R Hb Hc (eq_sym He)). lia.
Qed.

Lemma delete_rep lv' :
  (forall i, (i < zsl_level zsl)%nat -> cells_at h' (towers zsl (A1 ++ A2)) i) ->
  (forall i, (zsl_level zsl <= i)%nat -> get_level h' (header zsl) i = get_level h (header zsl) i) ->
  (1 <= lv' <= zsl_level zsl)%nat -> (forall b, b ∈ A1 ++ A2 -> (zn_ht b <= lv')%nat) ->
  ((1 < lv')%nat -> exists b, b ∈ A1 ++ A2 /\ zn_ht b = lv') ->
  (forall i, (lv' <= i < zsl_level zsl)%nat -> exists s, get_level h' (header zsl) i = Some (mkLevel None s)) ->
  rep h' (mkZsl (header zsl) (if A2 is [] then zn_ptr <$> last A1 else tail zsl) (u64 (zsl_length zsl - 1)) lv') (A1 ++ A2).
Proof.
  intros Hc Ha Hlv Hh Ht Hn. pose proof (rep_nodup _ _ _ R) as Hnd. rewrite towers_app in Hnd.
  assert (Hlen : zlen (A1 ++ a :: A2) = zlen (A1 ++ A2) + 1) by zlen_solve.
  assert (Hin : forall b, b ∈ A1 ++ A2 -> b ∈ A1 ++ a :: A2) by (intros b; set_solver).
  pose proof (rep_level _ _ _ R) as Hl. pose proof (rep_small _ _ _ R) as Hs. pose proof (zlen_nonneg (A1 ++ A2)).
  split; cbn [header tail zsl_length zsl_level].
  - change (NoDup (towers zsl (A1 ++ A2)).*1). rewrite towers_app. by eapply nodup_old.
  - rewrite delete_header. apply R.
  - apply delete_nodes.
  - intros p y k i Hp Hk Hlt. by apply (Hc i ltac:(lia) p y k).
  - intros i Hge. destruct (decide (i < zsl_level zsl)%nat); [apply Hn; lia|]. rewrite Ha by lia. apply (rep_above _ _ _ R). lia.
  - intros b Hb. pose proof (rep_heights _ _ _ R b (Hin b Hb)). pose proof (Hh b Hb). lia.
  - lia.
  - done.
  - rewrite (rep_length _ _ _ R), Hlen, wrap_small; lia.
  - lia.
  - rewrite (rep_tail _ _ _ R), !last_app. destruct A2 as [|c A3]; [by destruct (last A1)|]. rewrite last_cons_cons.
    destruct (last (c :: A3)) eqn:El; [done|]. by apply last_None in El.
  - eapply sorted_delete, R.
  - intros b Hb. by apply (rep_num _ _ _ R), Hin.
Qed.
End delete_rep.

(** [zslDeleteNode] takes the node out of the sequence and leaves it in the heap. *)
Lemma zslDeleteNode_spec h zsl A1 A2 a update :
  rep h zsl (A1 ++ a :: A2) ->
  (forall i, (i < zsl_level zsl)%nat -> exists u y, update !! i = Some (y, Z.of_nat u)
     /\ last_upto (towers zsl (A1 ++ a :: A2)) (length A1) i u y) ->
  exists h' zsl', zslDeleteNode h zsl (zn_ptr a) update = Some (h', zsl') /\ rep h' zsl' (A1 ++ A2)
    /\ header zsl' = header zsl /\ (zsl_level zsl' <= zsl_level zsl)%nat
    /\ dom h' = dom h /\ info h' (zn_ptr a) = info h (zn_ptr a).
Proof.
  intros R Hup. pose proof (rep_nodup _ _ _ R) as Hnd. rewrite towers_app in Hnd, Hup.
  assert (HT1 : length (towers zsl A1) = S (length A1)) by apply towers_length.
  assert (Hsm : zlen (towers zsl A1) + zlen (tower <$> A2) < 2 ^ 63).
  { pose proof (rep_small _ _ _ R) as Hs. revert Hs. unfold zlen. rewrite HT1, length_fmap, length_app. cbn [length]. lia. }
  destruct (unlink_loop_spec (towers zsl A1) (tower <$> A2) (length A1) HT1 (zn_ptr a) (zn_ht a) (zsl_level zsl) Hnd Hsm
              update Hup h) as (h1 & Hf & Hi1 & Hc1 & Hx1 & Ha1).
  { intros i Hlt. pose proof (cells_at_rep h zsl _ R i Hlt) as Hc. by rewrite towers_app in Hc. }
  rewrite <-towers_app in Hc1. pose proof (rep_level _ _ _ R) as Hlv.
  assert (Haa : (A1 ++ a :: A2) !! length A1 = Some a) by (by apply list_lookup_middle).
  pose proof (rep_heights _ _ _ R a (list_elem_of_lookup_2 _ _ _ Haa)) as Hhta.
  assert (Hfw : get_level h1 (zn_ptr a) 0 = Some (next_at 0 (tower <$> A2))).
  { rewrite Hx1, (cells_at_rep h zsl _ R 0%nat ltac:(lia) _ _ _ (towers_at zsl _ _ _ Haa) ltac:(lia)), towers_app.
    change (tower <$> a :: A2) with ((zn_ptr a, zn_ht a) :: (tower <$> A2)). by rewrite (drop_x _ _ (length A1) HT1). }
  pose proof (rep_node _ _ _ R _ a Haa) as Hia. rewrite prev_mid in Hia.
  pose proof Hia as Hia1. rewrite <-Hi1 in Hia1. apply info_some in Hia1 as (n & Hn & [= _ _ Hbn _]).
  unfold zslDeleteNode. rewrite Hf. sbind. rewrite Hfw. sbind. rewrite Hn. sbind. rewrite <-Hbn.
  assert (R' : rep h zsl ((A1 ++ [a]) ++ A2)) by (by rewrite <-app_assoc).
  rewrite (next_at_0 h zsl (A1 ++ [a]) A2 R').
  destruct (back_spec h1 (zn_ptr <$> head A2) (zn_ptr <$> last A1) (tail zsl)) as (h2 & -> & Hl2 & Hi2).
  { intros y (c & Hc & <-)%(head_after A1 A2 a). apply info_is_some. rewrite Hi1, (rep_node _ _ _ R _ c Hc). eauto. }
  sbind. assert (Hi : forall y, info h2 y = if decide (zn_ptr <$> head A2 = Some y)
      then with_back (zn_ptr <$> last A1) <$> info h y else info h y) by (intros y; by rewrite Hi2, Hi1).
  destruct (lower_level_spec h2 (header zsl) (A1 ++ A2) (zsl_level zsl)) as (lv' & -> & Hr & Hh & Ht & Hn'); [lia|..].
  { intros i Hlt. rewrite Hl2. apply (Hc1 i Hlt 0%nat (header zsl) ZSKIPLIST_MAXLEVEL eq_refl). lia. }
  { intros b Hb. apply (rep_heights _ _ _ R). set_solver. }
  sbind. eexists _, _. split; [done|]. split_and!; [|done|cbn; lia|..].
  - replace (if zn_ptr <$> head A2 is Some _ then tail zsl else zn_ptr <$> last A1)
      with (if A2 is [] then zn_ptr <$> last A1 else tail zsl) by (by destruct A2).
    apply (delete_rep h h2 zsl A1 A2 a R Hi); try done.
    + intros i Hlt p y k Hp Hk. rewrite Hl2. by apply (Hc1 i Hlt p y k).
    + intros i Hge. by rewrite Hl2, Ha1.
  - apply info_dom. intros y. rewrite Hi. case_decide; [|done]. by destruct (info h y).
  - rewrite Hi, decide_False; [done|]. intros (c & Hc & He)%(head_after A1 A2 a).
    pose proof (ptr_inj _ _ _ _ _ _ _ R Haa Hc (eq_sym He)). lia.
Qed.

(** Freeing a node that is not in the sequence. *)
Lemma rep_free h zsl A x :
  rep h zsl A -> x ∉ (towers zsl A).*1 -> rep (delete x h) zsl A.
Proof.
  intros R Hx. assert (Hg : forall y i, y <> x -> get_level (delete x h) y i = get_level h y i).
  { intros y i Hy. unfold get_level. by rewrite lookup_delete_ne. }
  assert (Hi : forall y, y <> x -> info (delete x h) y = info h y).
  { intros y Hy. unfold info. by rewrite lookup_delete_ne. }
  assert (Hhd : header zsl <> x) by (intros <-; apply Hx; cbn; by left).
  split; try apply R.
  - rewrite Hi by done. apply R.
  - intros j a Ha. rewrite Hi; [by apply (rep_node _ _ _ R)|]. intros <-. apply Hx. by eapply towers_in, towers_at.
  - intros p y k i Hp Hk Hlt. rewrite Hg; [by apply (rep_cells _ _ _ R p y k)|]. intros ->. apply Hx. by eapply towers_in.
  - intros i Hlt. rewrite Hg by done. by apply (rep_above _ _ _ R).
Qed.
