(* ===== verification/ZskiplistApi.v ===== *)
(** * The skiplist as a sorted sequence

    What the functions of the skiplist do to the sequence a heap represents:
    creation, insertion, deletion, score update, release, ranks. *)

From Stdlib Require Import SpecFloat.
From stdpp Require Import gmap.
From S2P Require Import Prelude Zskiplist ZskiplistSpec ZskiplistOps.

Section create.
Context (zmalloc : heap -> ptr) (junk : option ptr * zskiplistLevel).
Context (Hmalloc : forall h, h !! zmalloc h = None).

Lemma zslCreate_spec h :
  exists zsl h', zslCreate zmalloc junk h = Some (zsl, h') /\ rep h' zsl [] /\ h !! header zsl = None
    /\ dom h' = {[header zsl]} ∪ dom h.
Proof.
  destruct (create_spec zmalloc junk Hmalloc h ZSKIPLIST_MAXLEVEL (S754_zero false) None) as (h1 & Hc & Hx & Hi1 & _ & Hl1).
  set (x := zmalloc h) in *. unfold zslCreate. rewrite Hc.
  destruct (for_loop_ind (fun j h => h ← set_forward h x j None; set_span h x j 0) (fun j hj =>
      same_info h1 hj
      /\ forall i, (i < ZSKIPLIST_MAXLEVEL)%nat ->
           get_level hj x i = Some (if (i <? j)%nat then mkLevel None 0 else junk.2)) 0 ZSKIPLIST_MAXLEVEL h1)
    as (h2 & -> & Hi2 & Hl2).
  - split; [done|]. intros i Hi. by apply Hl1.
  - intros j hj Hj [Hi Hl].
    destruct (set_forward_spec hj x j (if (j <? j)%nat then mkLevel None 0 else junk.2) None) as (h3 & -> & Hc3 & Hi3);
      [apply Hl; lia|]. sbind.
    destruct (set_span_spec h3 x j (mkLevel None (span (if (j <? j)%nat then mkLevel None 0 else junk.2))) 0)
      as (h4 & -> & Hc4 & Hi4); [by rewrite Hc3, decide_True|].
    exists h4. split; [done|]. split; [intros y; by rewrite Hi4, Hi3, Hi|]. intros i Hlt. rewrite Hc4, Hc3, Hl by done.
    cbn [forward]. destruct (decide (i = j)) as [->|Hne].
    + rewrite decide_True by done. destruct (Nat.ltb_spec j (S j)); [done|lia].
    + rewrite !decide_False by naive_solver. destruct (Nat.ltb_spec i j), (Nat.ltb_spec i (S j)); (done || lia).
  - sbind. assert (Hi : forall y, info h2 y = if decide (y = x) then Some (None, S754_zero false, junk.1, ZSKIPLIST_MAXLEVEL) else info h y).
    { intros y. by rewrite Hi2, Hi1. }
    destruct (set_back_spec h2 x None) as (h3 & -> & Hl3 & Hi3); [apply info_is_some; rewrite Hi, decide_True by done; eauto|].
    sbind. eexists _, _. split; [done|]. split; [|split; [done|]].
    + assert (Hlv : forall i, (i < ZSKIPLIST_MAXLEVEL)%nat -> get_level h3 x i = Some (mkLevel None 0)).
      { intros i Hlt. rewrite Hl3, Hl2 by done. by destruct (Nat.ltb_spec i (0 + ZSKIPLIST_MAXLEVEL)); [|lia]. }
      split; cbn [header tail zsl_length zsl_level]; try done.
      * apply NoDup_singleton.
      * rewrite Hi3, decide_True, Hi, decide_True by done. by eexists.
      * intros [|p] y k i Hp Hk Hlt; [|done]. cbn in Hp. injection Hp as <- <-. by apply Hlv.
      * intros i Hlt. exists 0. apply Hlv. lia.
      * intros a Ha. by apply elem_of_nil in Ha.
      * unfold ZSKIPLIST_MAXLEVEL. lia.
      * lia.
      * constructor.
      * intros a Ha. by apply elem_of_nil in Ha.
    + transitivity (dom (<[x := mkNode None (S754_zero false) None []]> h)); [|by rewrite dom_insert_L].
      apply info_dom. intros y. rewrite Hi3, !Hi. unfold info. destruct (decide (y = x)) as [->|Hy].
      * rewrite lookup_insert_eq, decide_True by done. done.
      * rewrite lookup_insert_ne by done. by destruct (h !! y).
Qed.

End create.

(** ** Deletion and release *)

Section delete.
Context (h : heap) (zsl : zskiplist) (A : list znode) (R : rep h zsl A).

Lemma deq_sym x y : isnan x = false -> isnan y = false -> (x ==. y) = (y ==. x).
Proof.
  intros Hx Hy. apply eq_true_iff_eq. rewrite !deq_key by done. split; congruence.
Qed.

Lemma is_node_spec s e a n :
  isnan s = false -> a ∈ A -> ele n = Some (zn_ele a) -> score n = zn_score a ->
  is_node s e n = Some (keqb (zn_key a) (s, e)).
Proof.
  intros Hs Ha He Hsc. unfold is_node, keqb. rewrite He, Hsc. cbn. rewrite deq_sym by (done || apply (rep_num _ _ _ R a Ha)).
  by destruct (zn_score a ==. s).
Qed.

(** The node after the place of a key. *)
Lemma next_of_place K x ht :
  towers zsl A !! K = Some (x, ht) ->
  exists l, get_level h x 0 = Some l /\ forward l = zn_ptr <$> A !! K.
Proof.
  intros Hx. pose proof (rep_level _ _ _ R) as Hlv.
  assert (Hht : (0 < ht)%nat).
  { destruct K as [|K]; [cbn in Hx; injection Hx as _ <-; unfold ZSKIPLIST_MAXLEVEL; lia|].
    apply (towers_node zsl A) in Hx as (a & Ha & _ & ->).
    pose proof (rep_heights _ _ _ R a (list_elem_of_lookup_2 _ _ _ Ha)). lia. }
  eexists. split; [apply (rep_cells _ _ _ R K x ht 0 Hx Hht); lia|].
  change (drop (S K) (towers zsl A)) with (drop K (tower <$> A)). rewrite <-fmap_drop.
  rewrite <-(take_drop K A) in R. rewrite (next_at_0 h zsl _ _ R). f_equal. by rewrite head_lookup, lookup_drop, Nat.add_0_r.
Qed.

Lemma node_split K a : A !! K = Some a -> A = take K A ++ a :: drop (S K) A /\ length (take K A) = K.
Proof.
  intros Ha. split; [by rewrite <-(take_drop_middle A K a Ha) at 1|]. rewrite length_take. apply lookup_lt_Some in Ha. lia.
Qed.

Lemma delete_at K a update :
  A !! K = Some a ->
  (forall i, (i < zsl_level zsl)%nat -> exists u y, update !! i = Some (y, Z.of_nat u) /\ last_upto (towers zsl A) K i u y) ->
  exists h' zsl', zslDeleteNode h zsl (zn_ptr a) update = Some (h', zsl') /\ rep h' zsl' (take K A ++ drop (S K) A)
    /\ header zsl' = header zsl /\ (zsl_level zsl' <= zsl_level zsl)%nat
    /\ dom h' = dom h /\ info h' (zn_ptr a) = info h (zn_ptr a)
    /\ zn_ptr a ∉ (towers zsl' (take K A ++ drop (S K) A)).*1.
Proof.
  intros Ha Hup. destruct (node_split K a Ha) as [HA HK].
  destruct (zslDeleteNode_spec h zsl (take K A) (drop (S K) A) a update) as (h' & zsl' & Hd & R' & Hh & Hl & Hdom & Hi).
  - by rewrite <-HA.
  - by rewrite HK, <-HA.
  - exists h', zsl'. split_and!; try done. pose proof (rep_nodup _ _ _ R) as Hnd. rewrite HA, towers_app in Hnd.
    apply x_fresh in Hnd. rewrite towers_app. unfold towers in *. by rewrite Hh.
Qed.

Lemma free_at h' zsl' A' x :
  rep h' zsl' A' -> x ∉ (towers zsl' A').*1 -> dom h' = dom h -> is_Some (h !! x) ->
  exists h'', zslFreeNode h' x = Some h'' /\ rep h'' zsl' A' /\ dom h'' = dom h ∖ {[x]}.
Proof.
  intros R' Hx Hd Hs. assert (Hx' : is_Some (h' !! x)) by (apply elem_of_dom; rewrite Hd; by apply elem_of_dom).
  destruct Hx' as [n Hn]. unfold zslFreeNode. rewrite Hn. sbind. eexists. split; [done|].
  split; [by apply rep_free|]. rewrite dom_delete_L. by rewrite Hd.
Qed.

(** [zslDelete] finds the node by its score and element, takes it out of the
    sequence, and frees it or returns it. *)
Lemma zslDelete_spec s e keep :
  isnan s = false ->
  let K := place A (s, e) in
  match A !! K with
  | Some a =>
      if keqb (zn_key a) (s, e) then
        exists h' zsl', zslDelete h zsl s e keep = Some (true, (if keep then Some (zn_ptr a) else None), h', zsl')
          /\ rep h' zsl' (take K A ++ drop (S K) A) /\ header zsl' = header zsl
          /\ dom h' = (if keep then dom h else dom h ∖ {[zn_ptr a]})
      else zslDelete h zsl s e keep = Some (false, None, h, zsl)
  | None => zslDelete h zsl s e keep = Some (false, None, h, zsl)
  end.
Proof.
  intros Hs K. destruct (descend_key h zsl A R s e Hs) as (x & update & Hd & Hlen & [ht Hx] & Hup). fold K in Hd, Hx, Hup.
  destruct (next_of_place K x ht Hx) as (l & Hl & Hf). unfold zslDelete. rewrite Hd. sbind. rewrite Hl. sbind. rewrite Hf.
  destruct (A !! K) as [a|] eqn:Ha; cbn [fmap option_fmap option_map]; [|done].
  pose proof (rep_node _ _ _ R K a Ha) as Hi. apply info_some in Hi as (n & Hn & [= He Hsc _ _]). rewrite Hn. sbind.
  rewrite (is_node_spec s e a n Hs (list_elem_of_lookup_2 _ _ _ Ha)) by done. sbind.
  destruct (keqb (zn_key a) (s, e)); [|done].
  destruct (delete_at K a update Ha Hup) as (h' & zsl' & -> & R' & Hh & _ & Hdom & _ & Hnin). sbind.
  destruct keep; [by exists h', zsl'|].
  destruct (free_at h' zsl' _ (zn_ptr a) R' Hnin Hdom) as (h'' & -> & R'' & Hdom''); [eauto|]. sbind. by exists h'', zsl'.
Qed.

End delete.

(** A walk over the nodes that frees each one behind it: [h1] still has those
    of [a :: A2]. *)
Lemma free_step h zsl A1 a A2 h1 :
  rep h zsl (A1 ++ a :: A2) -> (forall b, b ∈ a :: A2 -> h1 !! zn_ptr b = h !! zn_ptr b) ->
  exists n l, h1 !! zn_ptr a = Some n /\ ele n = Some (zn_ele a) /\ score n = zn_score a
    /\ get_level h1 (zn_ptr a) 0 = Some l /\ forward l = zn_ptr <$> head A2
    /\ forall b, b ∈ A2 -> delete (zn_ptr a) h1 !! zn_ptr b = h !! zn_ptr b.
Proof.
  intros R Hb. assert (Haa : (A1 ++ a :: A2) !! length A1 = Some a) by (by apply list_lookup_middle).
  destruct (next_of_place h zsl _ R (S (length A1)) (zn_ptr a) (zn_ht a)) as (l & Hl & Hf); [by apply towers_at|].
  pose proof (rep_node _ _ _ R _ a Haa) as Hi. apply info_some in Hi as (n & Hn & [= He Hs _ _]).
  exists n, l. rewrite (Hb a) by set_solver. split_and!; try done.
  - unfold get_level in *. by rewrite Hb by set_solver.
  - rewrite Hf, lookup_app_r by lia. replace (S (length A1) - length A1)%nat with 1%nat by lia. by rewrite head_lookup.
  - intros b Hb'. rewrite lookup_delete_ne; [apply Hb; set_solver|]. intros Hp. apply list_elem_of_lookup in Hb' as (j & Hj).
    assert (Hj' : (A1 ++ a :: A2) !! (length A1 + S j)%nat = Some b) by (rewrite lookup_app_r by lia;
      by replace (length A1 + S j - length A1)%nat with (S j) by lia).
    pose proof (ptr_inj _ _ _ _ _ _ _ R Haa Hj' Hp). lia.
Qed.

(** The release of a list frees its header and all its nodes. *)
Lemma free_loop_spec h zsl A1 A2 h1 :
  rep h zsl (A1 ++ A2) -> (forall b, b ∈ A2 -> h1 !! zn_ptr b = h !! zn_ptr b) ->
  exists h', free_loop (length A2) h1 (zn_ptr <$> head A2) = Some h' /\ dom h' = dom h1 ∖ list_to_set (zn_ptr <$> A2).
Proof.
  revert A1 h1. induction A2 as [|a A2 IH]; intros A1 h1 R Hb.
  - exists h1. split; [done|]. set_solver.
  - cbn [length head fmap option_fmap option_map free_loop].
    destruct (free_step h zsl A1 a A2 h1 R Hb) as (n & l & Hn & _ & _ & -> & Hf & Hb'). sbind. unfold zslFreeNode. rewrite Hn. sbind. rewrite Hf.
    destruct (IH (A1 ++ [a]) (delete (zn_ptr a) h1)) as (h' & Hr & Hd); [by rewrite <-app_assoc|done|].
    exists h'. split; [done|]. rewrite Hd, dom_delete_L. cbn. set_solver.
Qed.

Lemma zslFree_spec h zsl A :
  rep h zsl A -> exists h', zslFree h zsl = Some h' /\ dom h' = dom h ∖ list_to_set (towers zsl A).*1.
Proof.
  intros R. unfold zslFree. destruct (next_of_place h zsl A R 0%nat (header zsl) ZSKIPLIST_MAXLEVEL eq_refl) as (l & -> & Hf).
  sbind. unfold zslFreeNode. destruct (towers_heap h zsl A R 0%nat _ _ eq_refl) as [n ->]. sbind.
  rewrite (rep_length _ _ _ R), to_nat_zlen, Hf, <-head_lookup.
  destruct (free_loop_spec h zsl [] A (delete (header zsl) h) R) as (h' & -> & Hd).
  - intros b Hb. rewrite lookup_delete_ne; [done|]. by intros He%eq_sym%(ptr_not_header _ _ _ b R).
  - exists h'. split; [done|]. rewrite Hd, dom_delete_L. cbn. rewrite <-list_fmap_compose.
    change (fst ∘ tower) with zn_ptr. set_solver.
Qed.

(** ** Score update *)

Lemma rep_score h zsl A1 A2 a s :
  let a' := mkZn (zn_ptr a) (zn_ele a) s (zn_ht a) in
  rep h zsl (A1 ++ a :: A2) -> isnan s = false ->
  (forall b, b ∈ A1 -> klt (zn_key b) (zn_key a')) -> (forall b, b ∈ A2 -> klt (zn_key a') (zn_key b)) ->
  exists h', set_score h (zn_ptr a) s = Some h' /\ rep h' zsl (A1 ++ a' :: A2) /\ dom h' = dom h.
Proof.
  intros a' R Hs H1 H2. assert (Haa : (A1 ++ a :: A2) !! length A1 = Some a) by (by apply list_lookup_middle).
  destruct (towers_heap h zsl _ R _ _ _ (towers_at zsl _ _ _ Haa)) as [n Hn]. unfold set_score. rewrite Hn. sbind.
  eexists. split; [done|].
  assert (HT : towers zsl (A1 ++ a' :: A2) = towers zsl (A1 ++ a :: A2)) by (by rewrite !towers_app).
  assert (Hg : forall y i, get_level (<[zn_ptr a := mkNode (ele n) s (backward n) (level n)]> h) y i = get_level h y i).
  { intros y i. unfold get_level. destruct (decide (y = zn_ptr a)) as [->|Hy]; [by rewrite lookup_insert_eq, Hn|by rewrite lookup_insert_ne]. }
  assert (Hi : forall y, y <> zn_ptr a -> info (<[zn_ptr a := mkNode (ele n) s (backward n) (level n)]> h) y = info h y).
  { intros y Hy. unfold info. by rewrite lookup_insert_ne. }
  assert (Hp : forall j, prev (A1 ++ a' :: A2) j = prev (A1 ++ a :: A2) j).
  { intros [|j]; [done|]. cbn. by rewrite <-!list_lookup_fmap, !fmap_app. }
  assert (Hlen : zlen (A1 ++ a' :: A2) = zlen (A1 ++ a :: A2)) by zlen_solve.
  split; [split; rewrite ?HT, ?Hlen; try apply R|].
  - rewrite Hi by (intros He; symmetry in He; revert He; apply (ptr_not_header _ _ _ a R); set_solver). apply R.
  - intros j b Hj. rewrite Hp. destruct (lookup_mid A1 A2 a' j b Hj) as [[Hlt Hb]|[[-> ->]|(j' & -> & Hge & Hb)]].
    + assert (Hb' : (A1 ++ a :: A2) !! j = Some b) by (rewrite lookup_app_l in Hb |- * by lia; done).
      rewrite Hi by (intros He; pose proof (ptr_inj _ _ _ _ _ _ _ R Hb' Haa He); lia). by apply (rep_node _ _ _ R).
    + pose proof (rep_node _ _ _ R _ a Haa) as Hia. unfold info in Hia |- *. rewrite Hn in Hia. cbn in Hia.
      rewrite lookup_insert_eq. cbn. congruence.
    + assert (Hb' : (A1 ++ a :: A2) !! S j' = Some b).
      { rewrite lookup_app_r in Hb |- * by lia. by replace (S j' - length A1)%nat with (S (j' - length A1)) by lia. }
      rewrite Hi by (intros He; pose proof (ptr_inj _ _ _ _ _ _ _ R Hb' Haa He); lia). by apply (rep_node _ _ _ R).
  - intros p y k i Hq Hk Hlt. rewrite Hg. by apply (rep_cells _ _ _ R p y k).
  - intros i Hlt. rewrite Hg. by apply (rep_above _ _ _ R).
  - intros b Hb. assert (b = a' \/ b ∈ A1 ++ a :: A2) as [->|?] by set_solver; [|by apply (rep_heights _ _ _ R)].
    apply (rep_heights _ _ _ R a). set_solver.
  - intros Hgt. destruct (rep_top _ _ _ R Hgt) as (b & Hb & Hh). assert (b = a \/ b ∈ A1 ++ A2) as [->|?] by set_solver.
    + exists a'. split; [set_solver|done].
    + exists b. split; [set_solver|done].
  - rewrite (rep_tail _ _ _ R), <-!fmap_last, !fmap_app. done.
  - apply sorted_insert; [eapply sorted_delete, R|done..].
  - intros b Hb. assert (b = a' \/ b ∈ A1 ++ a :: A2) as [->|?] by set_solver; [done|by apply (rep_num _ _ _ R)].
  - rewrite dom_insert_L. apply subseteq_union_1_L, singleton_subseteq_l, elem_of_dom. eauto.
Qed.

Lemma prefix_len_app f A1 A2 :
  (forall b, b ∈ A1 -> f b = true) -> (forall b, head A2 = Some b -> f b = false) -> prefix_len f (A1 ++ A2) = length A1.
Proof.
  induction A1 as [|a A1 IH]; intros H1 H2; cbn.
  - destruct A2 as [|b A2]; [done|]. cbn. by rewrite (H2 b eq_refl).
  - rewrite H1 by (by left). rewrite IH; [done|intros b Hb; apply H1; by right|done].
Qed.

Lemma place_app A1 A2 key :
  knum key -> (forall b, b ∈ A1 -> klt (zn_key b) key) -> (forall b, b ∈ A2 -> knum (zn_key b) /\ klt key (zn_key b)) ->
  place (A1 ++ A2) key = length A1.
Proof.
  intros Hk H1 H2. apply prefix_len_app; [intros b Hb; by apply kltb_spec, H1|].
  intros b Hb. destruct A2 as [|c A2]; [done|]. cbn in Hb. injection Hb as ->. destruct (H2 b ltac:(by left)) as [Hn Hl].
  destruct (kltb (zn_key b) key) eqn:E; [|done]. apply kltb_spec in E. by destruct (klt_asym key (zn_key b)).
Qed.

Section update.
Context (zmalloc : heap -> ptr) (junk : option ptr * zskiplistLevel).
Context (Hmalloc : forall h, h !! zmalloc h = None).

Lemma null_or_ptr h zsl A j test :
  rep h zsl A -> null_or h (zn_ptr <$> A !! j) test = Some (if A !! j is Some b then test (zn_score b) else true).
Proof.
  intros R. destruct (A !! j) as [b|] eqn:Hb; [|done]. cbn. pose proof (rep_node _ _ _ R j b Hb) as Hi.
  apply info_some in Hi as (n & -> & [= _ -> _ _]). done.
Qed.

Lemma null_or_prev h zsl A K test :
  rep h zsl A -> (K <= length A)%nat ->
  null_or h (prev A K) test = Some (if last (take K A) is Some b then test (zn_score b) else true).
Proof.
  intros R HK. destruct K as [|j]; [done|]. cbn [prev]. rewrite (null_or_ptr h zsl A j test R).
  destruct (lookup_lt_is_Some_2 A j ltac:(lia)) as [b Hb]. by rewrite Hb, (take_S_r A j b Hb), last_snoc.
Qed.

(** A score between those of the neighbours keeps the place. *)
Lemma between_neighbours h zsl A1 A2 a s :
  rep h zsl (A1 ++ a :: A2) -> isnan s = false ->
  (if last A1 is Some b then zn_score b <. s else true) = true ->
  (if head A2 is Some c then s <. zn_score c else true) = true ->
  (forall b e, b ∈ A1 -> klt (zn_key b) (s, e)) /\ (forall c e, c ∈ A2 -> klt (s, e) (zn_key c)).
Proof.
  intros R Hs Hp Hn. assert (HN : forall b, b ∈ A1 ++ A2 -> knum (zn_key b)).
  { intros b Hb. apply (rep_num _ _ _ R). set_solver. }
  pose proof (sorted_delete _ _ _ _ (rep_sorted _ _ _ R)) as Hsort. split.
  - intros b e Hb. destruct A1 as [|c B _] using rev_ind; [by apply elem_of_nil in Hb|]. rewrite last_snoc in Hp.
    assert (Hc : klt (zn_key c) (s, e)) by (by left). apply elem_of_app in Hb as [Hb|Hb%list_elem_of_singleton]; [|by subst].
    apply (klt_trans _ (zn_key c)); [apply HN; set_solver|apply HN; set_solver|done| |done].
    rewrite <-app_assoc in Hsort. apply (StronglySorted_app_1_elem_of (fun a b => klt (zn_key a) (zn_key b)) B ([c] ++ A2)); [done|done|set_solver].
  - intros c e Hc. destruct A2 as [|b B]; [by apply elem_of_nil in Hc|]. cbn in Hn.
    assert (Hb : klt (s, e) (zn_key b)) by (by left). apply elem_of_cons in Hc as [->|Hc]; [done|].
    apply (klt_trans _ (zn_key b)); [done|apply HN; set_solver|apply HN; set_solver|done|].
    apply StronglySorted_app in Hsort as (_ & _ & Hsort). inversion Hsort as [|? ? _ Hall]; subst.
    by apply (proj1 (Forall_forall _ _) Hall).
Qed.

(** A new score that keeps the place is written to the node. *)
Lemma update_in_place h zsl A1 A2 a e new :
  rep h zsl (A1 ++ a :: A2) -> isnan new = false -> zn_ele a = e ->
  (if last A1 is Some b then zn_score b <. new else true) = true ->
  (if head A2 is Some c then new <. zn_score c else true) = true ->
  let B := A1 ++ A2 in
  exists nd h', set_score h (zn_ptr a) new = Some h' /\ zn_ptr nd = zn_ptr a /\ zn_key nd = (new, e)
    /\ rep h' zsl (take (place B (new, e)) B ++ nd :: drop (place B (new, e)) B) /\ dom h' = dom h.
Proof.
  intros R Hn Hel Hprev Hnext B. destruct (between_neighbours h zsl A1 A2 a new R Hn Hprev Hnext) as [H1 H2].
  destruct (rep_score h zsl A1 A2 a new R Hn) as (h' & Hs & R' & Hdom).
  { intros b Hb. by apply H1. } { intros b Hb. by apply H2. }
  exists (mkZn (zn_ptr a) (zn_ele a) new (zn_ht a)), h'. split; [done|]. split; [done|]. split; [by rewrite <-Hel|].
  assert (HK' : place B (new, e) = length A1).
  { apply place_app; [done|intros b Hb; by apply H1|]. intros b Hb. split; [|by apply H2].
    apply (rep_num _ _ _ R). set_solver. }
  unfold B in *. by rewrite HK', take_app_length, drop_app_length.
Qed.

Lemma towers_insert_in zsl B nd K y :
  y ∈ (towers zsl (take K B ++ nd :: drop K B)).*1 -> y = zn_ptr nd \/ y ∈ (towers zsl B).*1.
Proof.
  unfold towers. rewrite <-(take_drop K B) at 3. cbn. rewrite !elem_of_cons, !fmap_app. cbn.
  rewrite !elem_of_app, elem_of_cons. tauto.
Qed.

(** Another new score: the node is taken out and a new one put in. *)
Lemma update_move h zsl A K a update new e rnd lv rnd' :
  rep h zsl A -> isnan new = false -> zslRandomLevel rnd = Some (lv, rnd') -> A !! K = Some a ->
  (forall i, (i < zsl_level zsl)%nat -> exists u y, update !! i = Some (y, Z.of_nat u) /\ last_upto (towers zsl A) K i u y) ->
  let B := take K A ++ drop (S K) A in
  (forall b, b ∈ B -> ~ keq (zn_key b) (new, e)) ->
  exists nd h1 zsl1 h2 zsl2 h3, zslDeleteNode h zsl (zn_ptr a) update = Some (h1, zsl1)
    /\ zslInsert zmalloc junk h1 zsl1 new e rnd = Some (zn_ptr nd, h2, zsl2, rnd') /\ zslFreeNode h2 (zn_ptr a) = Some h3
    /\ zn_key nd = (new, e) /\ rep h3 zsl2 (take (place B (new, e)) B ++ nd :: drop (place B (new, e)) B)
    /\ header zsl2 = header zsl /\ dom h3 = {[zn_ptr nd]} ∪ (dom h ∖ {[zn_ptr a]}).
Proof.
  intros R Hn Hr Ha Hup B Hnew.
  destruct (delete_at h zsl A R K a update Ha Hup) as (h1 & zsl1 & Hdel & R1 & Hh1 & _ & Hd1 & Hi1 & Hnin).
  destruct (zslInsert_spec zmalloc junk Hmalloc h1 zsl1 B new e rnd lv rnd' R1 Hn Hnew)
    as (x' & h2 & zsl2 & Hins & Hx' & R2 & Hd2 & Hh2); [|done|].
  { pose proof (rep_small _ _ _ R) as Hs. rewrite (proj1 (node_split A K a Ha)) in Hs. unfold B. revert Hs. zlen_solve. }
  destruct (towers_heap h zsl A R _ _ _ (towers_at zsl _ _ _ Ha)) as [n Hn'].
  assert (Hxa : is_Some (h1 !! zn_ptr a)) by (apply elem_of_dom; rewrite Hd1; apply elem_of_dom; eauto).
  assert (Hne : x' <> zn_ptr a) by (intros ->; destruct Hxa as [? Hxa]; congruence).
  destruct (free_at h2 h2 zsl2 _ (zn_ptr a) R2) as (h3 & Hfr & R3 & Hd3); [|done|..].
  - intros [?|Hin]%towers_insert_in; [by apply Hne|]. apply Hnin. unfold towers in *. by rewrite Hh2 in Hin.
  - apply elem_of_dom. rewrite Hd2. by apply elem_of_union_r, elem_of_dom.
  - exists (mkZn x' e new lv), h1, zsl1, h2, zsl2, h3. split_and!; try done; [congruence|].
    rewrite Hd3, Hd2, Hd1. cbn. set_solver.
Qed.

(** [zslUpdateScore] moves the node of the element to the place of its new
    score, in the same node or in a new one; the old one is freed. *)
Lemma zslUpdateScore_spec h zsl A cur e new rnd lv rnd' a :
  rep h zsl A -> isnan cur = false -> isnan new = false -> zslRandomLevel rnd = Some (lv, rnd') ->
  let K := place A (cur, e) in
  A !! K = Some a -> keq (zn_key a) (cur, e) ->
  let B := take K A ++ drop (S K) A in
  (forall b, b ∈ B -> ~ keq (zn_key b) (new, e)) ->
  exists nd h' zsl' r, zslUpdateScore zmalloc junk h zsl cur e new rnd = Some (zn_ptr nd, h', zsl', r)
    /\ (r = rnd \/ r = rnd') /\ zn_key nd = (new, e)
    /\ rep h' zsl' (take (place B (new, e)) B ++ nd :: drop (place B (new, e)) B)
    /\ header zsl' = header zsl /\ dom h' = {[zn_ptr nd]} ∪ (dom h ∖ {[zn_ptr a]}).
Proof.
  intros R Hc Hn Hr K Ha Hk B Hnew.
  destruct (descend_key h zsl A R cur e Hc) as (x & update & Hd & Hlen & [ht Hx] & Hup). fold K in Hd, Hx, Hup.
  destruct (next_of_place h zsl A R K x ht Hx) as (l & Hl & Hf).
  destruct (next_of_place h zsl A R (S K) (zn_ptr a) (zn_ht a) (towers_at zsl _ _ _ Ha)) as (lx & Hlx & Hfx).
  pose proof (rep_node _ _ _ R K a Ha) as Hi. apply info_some in Hi as (n & Hn' & [= He Hsc Hbk _]).
  destruct (node_split A K a Ha) as [HA HlK]. pose proof (proj2 Hk) as Hel. cbn in Hel.
  unfold zslUpdateScore. rewrite Hd. sbind. rewrite Hl. sbind. rewrite Hf, Ha. cbn [fmap option_fmap option_map]. sbind.
  rewrite Hn'. sbind. rewrite (is_node_spec h zsl A R cur e a n Hc (list_elem_of_lookup_2 _ _ _ Ha)) by done. sbind.
  rewrite (proj2 (keqb_spec _ _) Hk). cbn [negb]. rewrite Hlx. sbind. rewrite <-Hbk, Hfx.
  rewrite (null_or_prev h zsl A K) by (done || (rewrite <-HlK, length_take; lia)). sbind.
  rewrite (null_or_ptr h zsl A (S K)) by done. sbind.
  replace (A !! S K) with (head (drop (S K) A)) by (by rewrite head_lookup, lookup_drop, Nat.add_0_r).
  destruct (_ && _) eqn:Hcase.
  - apply andb_true_iff in Hcase as [Hprev Hnext]. pose proof R as R0. rewrite HA in R0.
    destruct (update_in_place h zsl (take K A) (drop (S K) A) a e new R0 Hn Hel Hprev Hnext) as (nd & h' & -> & Hp & Hk' & R' & Hdom).
    sbind. exists nd, h', zsl, rnd. rewrite Hp. split; [done|]. split; [by left|]. split; [done|]. split; [done|]. split; [done|].
    rewrite Hdom. apply set_eq. intros y. rewrite elem_of_union, elem_of_difference, elem_of_singleton.
    destruct (decide (y = zn_ptr a)) as [->|]; [|naive_solver]. split; [by left|]. intros _. apply elem_of_dom. eauto.
  - destruct (update_move h zsl A K a update new e rnd lv rnd' R Hn Hr Ha Hup Hnew)
      as (nd & h1 & zsl1 & h2 & zsl2 & h3 & -> & Hins & Hfr & Hk' & R' & Hh & Hdom).
    sbind. rewrite <-He, Hel. sbind. rewrite Hins. sbind. rewrite Hfr. sbind. exists nd, h3, zsl2, rnd'.
    split; [done|]. split; [by right|]. done.
Qed.
End update.

(** ** Ranks *)

Section ranks.
Context (h : heap) (zsl : zskiplist) (A : list znode) (R : rep h zsl A).
Local Abbreviation T := (towers zsl A).

Definition rank_of (key : double * sds) : Z :=
  match A !! place A key with
  | Some a => if keqb (zn_key a) key then Z.of_nat (S (place A key)) else 0
  | None => 0
  end.

Lemma is_ele_spec s e p x ht n :
  isnan s = false -> T !! p = Some (x, ht) -> h !! x = Some n ->
  is_ele s e n = true -> Z.of_nat p = rank_of (s, e) /\ (0 < p)%nat.
Proof.
  intros Hs Hp Hn He. destruct p as [|j].
  - cbn in Hp. injection Hp as <- <-. destruct (rep_header _ _ _ R) as [s' Hi].
    apply info_some in Hi as (n' & Hn' & [= E _ _ _]). rewrite Hn in Hn'. injection Hn' as <-.
    unfold is_ele in He. by rewrite <-E in He.
  - destruct (rep_lookup h zsl A R (S j) x ht n ltac:(lia) Hp Hn) as (a & Ha & -> & Hel & Hsc & _).
    replace (S j - 1)%nat with j in Ha by lia. unfold is_ele in He. rewrite Hel, Hsc in He.
    assert (Hk : keq (zn_key a) (s, e)) by (by apply keqb_spec). split; [|lia].
    pose proof (keq_place A (rep_ordered h zsl A R) (s, e) j a Hs Ha Hk) as ->. unfold rank_of. by rewrite Ha, (proj2 (keqb_spec _ _) Hk).
Qed.

(** One level of a search for the end of a prefix. *)
Lemma walk_prefix f test i fuel p x ht :
  closed f A ->
  (forall a n r sp, a ∈ A -> ele n = Some (zn_ele a) -> score n = zn_score a -> test r sp n = Some (f a)) ->
  (i < zsl_level zsl)%nat -> T !! p = Some (x, ht) -> (i < ht)%nat -> (p <= prefix_len f A)%nat -> (length T <= fuel + p)%nat ->
  exists p' x', walk h test fuel i x (Z.of_nat p) = Some (x', Z.of_nat p') /\ (p <= p')%nat
    /\ last_upto T (prefix_len f A) i p' x'.
Proof.
  intros Hc Hf Hi Hp Hht HK Hfu.
  destruct (walk_spec h zsl A R test (prefix_len f A) i 0 fuel p x ht) as (p' & x' & Hw & Hpp & Hu); [|done..|lia|done|].
  - intros p1 q y k n Hq Hy Hn _. rewrite Z.sub_0_r. by apply (test_prefix h zsl A R f test Hc Hf p1 q y k n).
  - rewrite !Z.sub_0_r in Hw. eauto.
Qed.

Lemma rank_loop_spec s e fuel i p x ht :
  isnan s = false -> (i < zsl_level zsl)%nat -> T !! p = Some (x, ht) -> (i < ht)%nat ->
  (p <= prefix_len (fun a => kleb (zn_key a) (s, e)) A)%nat -> (length T <= fuel + p)%nat ->
  rank_loop h s e fuel (S i) x (Z.of_nat p) = Some (rank_of (s, e)).
Proof.
  intros Hs. revert p x ht. induction i as [|i IH]; intros p x ht Hi Hp Hht HK Hf.
  all: match goal with |- rank_loop _ _ _ _ (S ?i) _ _ = _ =>
    destruct (walk_prefix (fun a => kleb (zn_key a) (s, e)) (upto s e) i fuel p x ht) as (p' & x' & Hw & Hpp & Hu);
      [by apply (closed_kleb A (rep_ordered h zsl A R))|intros a n r sp _; apply upto_test|done..|] end.
  all: pose proof Hu as (ht' & Hp' & Hht' & HK' & _); destruct (towers_heap h zsl A R _ _ _ Hp') as [n Hn].
  all: cbn [rank_loop]; rewrite Hw; sbind; rewrite Hn; sbind; destruct (is_ele s e n) eqn:He;
    [by destruct (is_ele_spec s e p' x' ht' n Hs Hp' Hn He) as [-> _]|].
  - apply (last_upto_0 h zsl A R) in Hu. unfold rank_of. destruct (A !! place A (s, e)) as [a|] eqn:Ha; [|done].
    destruct (keqb (zn_key a) (s, e)) eqn:Hk; [|done]. exfalso. pose proof (proj1 (keqb_spec _ _) Hk) as Hk'.
    rewrite (upto_place A (rep_ordered h zsl A R) (s, e) a Hs Ha Hk'), Nat.min_l in Hu by (apply lookup_lt_Some in Ha; lia). subst p'.
    destruct (rep_lookup h zsl A R (S (place A (s, e))) x' ht' n ltac:(lia) Hp' Hn) as (b & Hb & _ & Hel & Hsc & _).
    rewrite Nat.sub_1_r in Hb. cbn in Hb. rewrite Ha in Hb. injection Hb as <-.
    unfold is_ele in He. rewrite Hel, Hsc in He. unfold keqb in Hk. cbn in Hk. congruence.
  - apply (IH p' x' ht'); [lia|done|lia|done|lia].
Qed.

(** [zslGetRank] returns the position of the node, counted from 1, or 0. *)
Lemma zslGetRank_spec s e : isnan s = false -> zslGetRank h zsl s e = Some (rank_of (s, e)).
Proof.
  intros Hs. unfold zslGetRank. pose proof (rep_level _ _ _ R). destruct (zsl_level zsl) as [|i] eqn:E; [lia|].
  apply (rank_loop_spec s e (fuel_of zsl) i 0%nat (header zsl) ZSKIPLIST_MAXLEVEL); [done|lia|done|lia|lia|].
  unfold fuel_of. rewrite towers_length, (rep_length _ _ _ R), to_nat_zlen. lia.
Qed.

Lemma by_rank_loop_spec rank b fuel i p x ht :
  0 <= rank < 2 ^ 64 -> (i < zsl_level zsl)%nat -> T !! p = Some (x, ht) -> (i < ht)%nat -> (b <= p)%nat ->
  (p <= b + Z.to_nat rank)%nat -> (length T <= fuel + p)%nat ->
  by_rank_loop h rank fuel (S i) x (Z.of_nat p - Z.of_nat b) = Some (fst <$> T !! (b + Z.to_nat rank)%nat).
Proof.
  intros Hr. revert p x ht. pose proof (rep_small _ _ _ R) as Hs. unfold zlen in Hs.
  assert (HT : length T = S (length A)) by apply towers_length.
  induction i as [|i IH]; intros p x ht Hi Hp Hht Hb HK Hf.
  all: match goal with |- by_rank_loop _ _ _ (S ?i) _ _ = _ =>
    destruct (walk_spec h zsl A R (within rank) (b + Z.to_nat rank) i (Z.of_nat b) fuel p x ht)
      as (p' & x' & Hw & Hpp & Hu); [|done..|lia|done|] end.
  1, 3: intros p1 q y k n Hq Hy _ Hb1; unfold within; f_equal; apply lookup_lt_Some in Hy; rewrite wrap_small by lia;
    apply eq_true_iff_eq; rewrite Z.leb_le, Nat.leb_le; lia.
  all: pose proof Hu as (ht' & Hp' & Hht' & HK' & _).
  all: cbn [by_rank_loop]; rewrite Hw; sbind; destruct (Z.eqb_spec (Z.of_nat p' - Z.of_nat b) rank) as [He|He];
    [replace (b + Z.to_nat rank)%nat with p' by lia; by rewrite Hp'|].
  - apply (last_upto_0 h zsl A R) in Hu. rewrite lookup_ge_None_2; [done|]. lia.
  - apply (IH p' x' ht'); [lia|done|lia|lia|done|lia].
Qed.

(** [zslGetElementByRank] returns the node at a position; position 0 is the
    header. *)
Lemma zslGetElementByRank_spec rank :
  0 <= rank < 2 ^ 64 -> zslGetElementByRank h zsl rank = Some (fst <$> T !! Z.to_nat rank).
Proof.
  intros Hr. unfold zslGetElementByRank, zslGetElementByRankFromNode. pose proof (rep_level _ _ _ R) as Hl.
  apply (by_rank_loop_spec rank 0 (fuel_of zsl) (zsl_level zsl - 1) 0%nat (header zsl) ZSKIPLIST_MAXLEVEL);
    [done|lia|done|lia|lia|lia|]. unfold fuel_of. rewrite towers_length, (rep_length _ _ _ R), to_nat_zlen. lia.
Qed.

End ranks.
