(* ===== verification/ZskiplistRangeSpec.v ===== *)
(** * What the ranges of the skiplist return and remove *)

From Stdlib Require Import SpecFloat.
From stdpp Require Import gmap.
From S2P Require Import Prelude Dict DictSpec DictMap Zskiplist ZskiplistSpec ZskiplistOps ZskiplistApi ZskiplistRange.

(** ** The nodes of a range are consecutive *)

Section slice.
Context (A : list znode) (fg fl : znode -> bool).
Context (Hcg : closed (fun a => negb (fg a)) A) (Hcl : closed fl A).

Definition first_in : nat := prefix_len (fun a => negb (fg a)) A.
Definition end_in : nat := prefix_len fl A.
Definition range_nodes : list znode := filter (fun a => fg a && fl a = true) A.

Lemma fg_spec j a : A !! j = Some a -> fg a = (first_in <=? j)%nat.
Proof.
  intros Ha. pose proof (prefix_len_spec (fun a => negb (fg a)) A j a Hcg Ha) as H. cbn beta in H. fold first_in in H.
  destruct (Nat.ltb_spec j first_in), (Nat.leb_spec first_in j); try lia; by destruct (fg a).
Qed.
Lemma fl_spec j a : A !! j = Some a -> fl a = (j <? end_in)%nat.
Proof. apply (prefix_len_spec fl A j a Hcl). Qed.

Lemma range_nodes_slice : range_nodes = drop first_in (take end_in A).
Proof.
  assert (Hlo : forall l, (forall x, x ∈ l -> exists j, A !! j = Some x /\ (j < first_in)%nat) ->
                filter (fun a => fg a && fl a = true) l = []).
  { intros l Hl. apply filter_none. intros x Hx. destruct (Hl x Hx) as (j & Hj & Hlt). rewrite (fg_spec j x Hj).
    destruct (Nat.leb_spec first_in j); [lia|done]. }
  assert (Hhi : forall l, (forall x, x ∈ l -> exists j, A !! j = Some x /\ (end_in <= j)%nat) ->
                filter (fun a => fg a && fl a = true) l = []).
  { intros l Hl. apply filter_none. intros x Hx. destruct (Hl x Hx) as (j & Hj & Hlt). rewrite (fl_spec j x Hj).
    destruct (Nat.ltb_spec j end_in); [lia|]. by rewrite andb_false_r. }
  unfold range_nodes. rewrite <-(take_drop end_in A) at 1. rewrite filter_app.
  rewrite (Hhi (drop end_in A)), app_nil_r.
  - rewrite <-(take_drop first_in (take end_in A)) at 1. rewrite filter_app, Hlo; cbn [app].
    + apply filter_all. intros x (j & Hj)%list_elem_of_lookup. rewrite lookup_drop in Hj.
      apply lookup_take_Some in Hj as [Hj Hlt]. rewrite (fg_spec _ x Hj), (fl_spec _ x Hj).
      destruct (Nat.leb_spec first_in (first_in + j)), (Nat.ltb_spec (first_in + j) end_in); (done || lia).
    + intros x (j & Hj)%list_elem_of_lookup. apply lookup_take_Some in Hj as [Hj Hlt].
      apply lookup_take_Some in Hj as [Hj _]. eauto.
  - intros x (j & Hj)%list_elem_of_lookup. rewrite lookup_drop in Hj. exists (end_in + j)%nat. split; [done|lia].
Qed.

(** The n-th node from the start, or from the end for a negative [n]. *)
Definition nth_of (l : list znode) (n : Z) : option znode :=
  if n >=? 0 then l !! Z.to_nat n
  else if zlen l + n >=? 0 then l !! Z.to_nat (zlen l + n) else None.

Lemma nth_of_nil n : nth_of [] n = None.
Proof. unfold nth_of. by repeat (case_match; rewrite ?lookup_nil). Qed.

Lemma slice_lookup (i : nat) : range_nodes !! i = if (first_in + i <? end_in)%nat then A !! (first_in + i)%nat else None.
Proof.
  rewrite range_nodes_slice, lookup_drop. destruct (Nat.ltb_spec (first_in + i) end_in).
  - by rewrite lookup_take_lt.
  - by rewrite lookup_take_ge.
Qed.

Lemma slice_length : (first_in <= end_in)%nat -> zlen range_nodes = Z.of_nat end_in - Z.of_nat first_in.
Proof.
  intros Hle. rewrite range_nodes_slice. unfold zlen. rewrite length_drop, length_take.
  pose proof (prefix_len_le fl A). fold end_in in *. lia.
Qed.

End slice.

(** ** The n-th node *)

Section nth.
Context (h : heap) (zsl : zskiplist) (A : list znode) (R : rep h zsl A).
Context (fg fl : znode -> bool) (gte lte : zskiplistNode -> option bool).
Context (Hg : forall a n, a ∈ A -> ele n = Some (zn_ele a) -> score n = zn_score a -> gte n = Some (fg a)).
Context (Hl : forall a n, a ∈ A -> ele n = Some (zn_ele a) -> score n = zn_score a -> lte n = Some (fl a)).
Context (Hcg : closed (fun a => negb (fg a)) A) (Hcl : closed fl A).
Local Abbreviation T := (towers zsl A).
Local Abbreviation K1 := (first_in A fg).
Local Abbreviation K2 := (end_in A fl).

Lemma node_of j a : A !! j = Some a ->
  exists n, h !! zn_ptr a = Some n /\ ele n = Some (zn_ele a) /\ score n = zn_score a /\ backward n = prev A j.
Proof. intros Ha. pose proof (rep_node _ _ _ R j a Ha) as Hi. apply info_some in Hi as (n & -> & [= -> -> -> _]). eauto. Qed.

Lemma first_cell : exists l, get_level h (header zsl) 0 = Some l /\ forward l = zn_ptr <$> head A.
Proof. rewrite head_lookup. by apply (next_of_place h zsl A R 0 (header zsl) ZSKIPLIST_MAXLEVEL). Qed.

Lemma ends_in_range_spec :
  ends_in_range h zsl gte lte = Some (match last A, head A with Some b, Some a => fg b && fl a | _, _ => false end).
Proof.
  unfold ends_in_range. rewrite (rep_tail _ _ _ R). destruct (last A) as [b|] eqn:Eb; cbn [fmap option_fmap option_map]; [|done].
  rewrite last_lookup in Eb. destruct (node_of _ b Eb) as (n & -> & He & Hs & _). sbind.
  rewrite (Hg b n (list_elem_of_lookup_2 _ _ _ Eb) He Hs). sbind. destruct first_cell as (l & Hc & Hf).
  destruct (fg b); cbn [negb andb]; [|by destruct (head A)]. rewrite Hc. sbind. rewrite Hf.
  destruct (head A) as [a|] eqn:Ea; cbn [fmap option_fmap option_map]; [|done]. rewrite head_lookup in Ea.
  destruct (node_of _ a Ea) as (n' & -> & He' & Hs' & _). sbind.
  by rewrite (Hl a n' (list_elem_of_lookup_2 _ _ _ Ea) He' Hs').
Qed.

(** A list whose last node is below the range, or its first above, misses it. *)
Lemma ends_out :
  match last A, head A with Some b, Some a => fg b && fl a | _, _ => false end = false -> range_nodes A fg fl = [].
Proof.
  intros He. apply filter_none. intros x (j & Hj)%list_elem_of_lookup.
  rewrite last_lookup, head_lookup in He. pose proof (lookup_lt_Some _ _ _ Hj).
  destruct (lookup_lt_is_Some_2 A (pred (length A)) ltac:(lia)) as [b Hb].
  destruct (lookup_lt_is_Some_2 A 0%nat ltac:(lia)) as [a Ha]. rewrite Hb, Ha in He.
  rewrite (fg_spec A fg Hcg _ b Hb), (fl_spec A fl Hcl _ a Ha) in He.
  rewrite (fg_spec A fg Hcg _ x Hj), (fl_spec A fl Hcl _ x Hj).
  repeat match goal with |- context [(?a <=? ?b)%nat] => destruct (Nat.leb_spec a b)
    | |- context [(?a <? ?b)%nat] => destruct (Nat.ltb_spec a b)
    | H : context [(?a <=? ?b)%nat] |- _ => destruct (Nat.leb_spec a b)
    | H : context [(?a <? ?b)%nat] |- _ => destruct (Nat.ltb_spec a b) end; try done; lia.
Qed.

Lemma step_forward_spec k p x ht :
  T !! p = Some (x, ht) -> (p + k <= length A)%nat ->
  step_forward h k (Some x) = Some (fst <$> T !! (p + k)%nat).
Proof.
  revert p x ht. induction k as [|k IH]; intros p x ht Hp Hle; [by rewrite Nat.add_0_r, Hp|].
  cbn [step_forward]. sbind. destruct (next_of_place h zsl A R p x ht Hp) as (l & -> & Hf). sbind. rewrite Hf.
  destruct (lookup_lt_is_Some_2 A p ltac:(lia)) as [a Ha]. rewrite Ha. cbn [fmap option_fmap option_map].
  rewrite (IH (S p) (zn_ptr a) (zn_ht a)); [by replace (S p + k)%nat with (p + S k)%nat by lia|by apply towers_at|lia].
Qed.

Lemma step_backward_spec k p x ht :
  T !! p = Some (x, ht) -> (k < p)%nat -> step_backward h k (Some x) = Some (fst <$> T !! (p - k)%nat).
Proof.
  revert p x ht. induction k as [|k IH]; intros p x ht Hp Hlt; [by rewrite Nat.sub_0_r, Hp|].
  cbn [step_backward]. sbind. destruct p as [|p]; [lia|]. destruct (towers_node zsl A _ _ _ Hp) as (a & Ha & -> & ->).
  destruct (node_of _ a Ha) as (n & Hn & _ & _ & Hbk). rewrite Hn. sbind. rewrite Hbk. destruct p as [|p]; [lia|]. cbn [prev].
  pose proof (lookup_lt_Some _ _ _ Ha). destruct (lookup_lt_is_Some_2 A p ltac:(lia)) as [b Hb]. rewrite Hb.
  cbn [fmap option_fmap option_map]. rewrite (IH (S p) (zn_ptr b) (zn_ht b)); [|by apply towers_at|lia].
  by replace (S (S p) - S k)%nat with (S p - k)%nat by lia.
Qed.

Lemma check_node_spec test f j a :
  (forall a n, a ∈ A -> ele n = Some (zn_ele a) -> score n = zn_score a -> test n = Some (f a)) ->
  A !! j = Some a -> check_node h test (Some (zn_ptr a)) = Some (if (f a : bool) then Some (zn_ptr a) else None).
Proof.
  intros Ht Ha. unfold check_node. destruct (node_of _ a Ha) as (n & -> & He & Hs & _). sbind.
  by rewrite (Ht a n (list_elem_of_lookup_2 _ _ _ Ha) He Hs).
Qed.

(** The first loop of the search, on the highest level, and the others. *)
Lemma top_walk :
  exists p x ht, walk h (fun _ _ x => b ← gte x; Some (negb b)) (fuel_of zsl) (zsl_level zsl - 1) (header zsl) 0
      = Some (x, Z.of_nat p)
    /\ T !! p = Some (x, ht) /\ (zsl_level zsl <= ht)%nat /\ (p <= K1)%nat /\ (zsl_level zsl = 1%nat -> p = K1).
Proof.
  pose proof (rep_level _ _ _ R) as Hlv.
  destruct (walk_prefix h zsl A R (fun a => negb (fg a)) (fun _ _ x => b ← gte x; Some (negb b)) (zsl_level zsl - 1)
              (fuel_of zsl) 0 (header zsl) ZSKIPLIST_MAXLEVEL Hcg) as (p & x & Hw & _ & Hu); [|lia|done|lia|lia|..].
  - intros a n _ _ Ha He Hs. by rewrite (Hg a n Ha He Hs).
  - unfold fuel_of. rewrite towers_length, (rep_length _ _ _ R), to_nat_zlen. lia.
  - pose proof Hu as (ht & Hp & Hht & HK & _). exists p, x, ht. split_and!; [done|done|lia|done|].
    intros E. rewrite E in Hu. pose proof (last_upto_0 h zsl A R _ _ _ Hu).
    pose proof (prefix_len_le (fun a => negb (fg a)) A). unfold first_in. lia.
Qed.

Lemma descend_prefix f test k p x ht :
  closed f A ->
  (forall a n r sp, a ∈ A -> ele n = Some (zn_ele a) -> score n = zn_score a -> test r sp n = Some (f a)) ->
  (k <= zsl_level zsl)%nat -> T !! p = Some (x, ht) -> (k <= ht)%nat -> (p <= prefix_len f A)%nat ->
  (k = 0%nat -> p = prefix_len f A) ->
  exists x' ht' u, descend h test (fuel_of zsl) k x (Z.of_nat p) = Some (x', Z.of_nat (prefix_len f A), u)
    /\ T !! prefix_len f A = Some (x', ht').
Proof.
  intros Hc Ht Hk Hp Hht HK H0.
  destruct (descend_spec h zsl A R test (prefix_len f A) (fuel_of zsl) k p x ht) as (p' & x' & u & Hd & _ & _ & Hlast);
    [by apply test_prefix|done..| |].
  { unfold fuel_of. rewrite towers_length, (rep_length _ _ _ R), to_nat_zlen. lia. }
  assert (p' = prefix_len f A /\ exists ht', T !! p' = Some (x', ht')) as [-> [ht' ?]].
  { destruct k as [|k]; [destruct Hlast as [-> ->]; eauto|]. pose proof (last_upto_0 h zsl A R _ _ _ Hlast).
    pose proof (prefix_len_le f A). destruct Hlast as (ht' & ? & _). split; [lia|eauto]. }
  exists x', ht', u. done.
Qed.

Lemma towers_fst j : fst <$> T !! S j = zn_ptr <$> A !! j.
Proof.
  destruct (A !! j) as [a|] eqn:Ha; [by rewrite (towers_at zsl A j a Ha)|].
  rewrite lookup_ge_None_2; [done|]. apply lookup_ge_None in Ha. rewrite towers_length. lia.
Qed.

Lemma by_rank_from p x ht rank :
  T !! p = Some (x, ht) -> (zsl_level zsl <= ht)%nat -> 0 <= rank < 2 ^ 64 ->
  zslGetElementByRankFromNode h (fuel_of zsl) x (zsl_level zsl - 1) rank = Some (fst <$> T !! (p + Z.to_nat rank)%nat).
Proof.
  intros Hp Hht Hr. pose proof (rep_level _ _ _ R) as Hlv. unfold zslGetElementByRankFromNode.
  replace 0 with (Z.of_nat p - Z.of_nat p) by lia.
  apply (by_rank_loop_spec h zsl A R rank p (fuel_of zsl) (zsl_level zsl - 1) p x ht); [done|lia|done|lia|lia|lia|].
  unfold fuel_of. rewrite towers_length, (rep_length _ _ _ R), to_nat_zlen. lia.
Qed.

Lemma nth_in_range_pos n :
  0 <= n < 2 ^ 63 -> nth_in_range h zsl gte lte n = Some (zn_ptr <$> range_nodes A fg fl !! Z.to_nat n).
Proof.
  intros Hn. destruct top_walk as (p & x & ht & Hw & Hp & Hht & HpK & Hp1). pose proof (rep_level _ _ _ R) as Hlv.
  pose proof (rep_small _ _ _ R) as Hs. pose proof (prefix_len_le (fun a => negb (fg a)) A) as HK1. fold K1 in HK1.
  unfold nth_in_range. rewrite Hw. sbind. destruct (Z.geb_spec n 0); [|lia].
  destruct (descend_prefix (fun a => negb (fg a)) (fun _ _ x => b ← gte x; Some (negb b)) (zsl_level zsl - 1) p x ht Hcg)
    as (x' & ht' & u & -> & Hx'); [|lia|done|lia|done|intros; apply Hp1; lia|].
  { intros a nd _ _ Ha He Hsc. by rewrite (Hg a nd Ha He Hsc). }
  fold K1 in Hx' |- *. sbind. rewrite wrap_small by (unfold zlen in Hs; lia). rewrite (rep_length _ _ _ R).
  rewrite (slice_lookup A fg fl Hcg Hcl). destruct (Z.geb_spec (Z.of_nat K1 + n) (zlen A)) as [Hge|Hlt].
  - case_match; [|done]. rewrite lookup_ge_None_2; [done|]. unfold zlen in Hge. lia.
  - assert (Hstep : (if n <? ZSKIPLIST_MAX_SEARCH then step_forward h (Z.to_nat (n + 1)) (Some x')
              else zslGetElementByRankFromNode h (fuel_of zsl) x (zsl_level zsl - 1) (u64 (Z.of_nat K1 + 1 + n - Z.of_nat p)))
              = Some (zn_ptr <$> A !! (K1 + Z.to_nat n)%nat)).
    { rewrite <-towers_fst. unfold zlen in *. destruct (Z.ltb_spec n ZSKIPLIST_MAX_SEARCH).
      - rewrite (step_forward_spec _ K1 x' ht' Hx') by lia. do 3 f_equal. lia.
      - rewrite wrap_small by lia. rewrite (by_rank_from p x ht) by (done || lia). do 3 f_equal. lia. }
    rewrite Hstep. sbind. unfold zlen in Hlt.
    destruct (lookup_lt_is_Some_2 A (K1 + Z.to_nat n) ltac:(lia)) as [a Ha]. rewrite Ha. cbn [fmap option_fmap option_map].
    rewrite (check_node_spec lte fl _ a Hl Ha), (fl_spec A fl Hcl _ a Ha). by destruct (_ <? _)%nat.
Qed.

Lemma nth_in_range_neg n :
  - 2 ^ 63 < n < 0 -> (K1 <= K2)%nat -> nth_in_range h zsl gte lte n = Some (zn_ptr <$> nth_of (range_nodes A fg fl) n).
Proof.
  intros Hn HK. destruct top_walk as (p & x & ht & Hw & Hp & Hht & HpK & Hp1). pose proof (rep_level _ _ _ R) as Hlv.
  pose proof (rep_small _ _ _ R) as Hs. pose proof (prefix_len_le fl A) as HK2. fold K2 in HK2. unfold zlen in Hs.
  unfold nth_in_range, nth_of. rewrite Hw. sbind. destruct (Z.geb_spec n 0); [lia|].
  destruct (descend_prefix fl (fun _ _ x => lte x) (zsl_level zsl) p x ht Hcl)
    as (x' & ht' & u & -> & Hx'); [intros a nd _ _; apply Hl|lia|done|lia|unfold end_in in HK; lia|lia|].
  fold K2 in Hx' |- *. sbind. rewrite swrap_small by (unfold in_signed; lia).
  rewrite (slice_length A fg fl Hcg Hcl HK), (slice_lookup A fg fl Hcg Hcl).
  destruct (Z.ltb_spec (Z.of_nat K2) (- n)) as [Hlt|Hge]; [destruct (Z.geb_spec (Z.of_nat K2 - Z.of_nat K1 + n) 0); [lia|done]|].
  set (t := Z.to_nat (Z.of_nat K2 + n)).
  assert (Hstep : (if n + 1 >? - ZSKIPLIST_MAX_SEARCH then step_backward h (Z.to_nat (- n - 1)) (Some x')
            else zslGetElementByRankFromNode h (fuel_of zsl) x (zsl_level zsl - 1) (u64 (Z.of_nat K2 + 1 + n - Z.of_nat p)))
            = Some (zn_ptr <$> A !! t)
            \/ (t < K1)%nat /\ (if n + 1 >? - ZSKIPLIST_MAX_SEARCH then step_backward h (Z.to_nat (- n - 1)) (Some x')
            else zslGetElementByRankFromNode h (fuel_of zsl) x (zsl_level zsl - 1) (u64 (Z.of_nat K2 + 1 + n - Z.of_nat p)))
            = Some None).
  { rewrite <-towers_fst. destruct (Z.gtb_spec (n + 1) (- ZSKIPLIST_MAX_SEARCH)).
    - left. rewrite (step_backward_spec _ K2 x' ht' Hx') by lia. do 3 f_equal. lia.
    - destruct (decide (p <= S t)%nat) as [Hpt|Hpt].
      + left. rewrite wrap_small by lia. rewrite (by_rank_from p x ht) by (done || lia). do 3 f_equal. lia.
      + right. split; [lia|]. rewrite (by_rank_from p x ht _ Hp Hht) by (apply wrap_range; lia).
        rewrite lookup_ge_None_2; [done|]. rewrite towers_length. unfold wrap.
        replace ((Z.of_nat K2 + 1 + n - Z.of_nat p) mod 2 ^ 64) with (Z.of_nat K2 + 1 + n - Z.of_nat p + 2 ^ 64); [lia|].
        rewrite <-(Z.mod_small (Z.of_nat K2 + 1 + n - Z.of_nat p + 2 ^ 64) (2 ^ 64)) by lia.
        by rewrite <-Zplus_mod_idemp_r, Z.mod_same, Z.add_0_r by lia. }
  destruct (Z.geb_spec (Z.of_nat K2 - Z.of_nat K1 + n) 0) as [Hin|Hout].
  - destruct Hstep as [->|[? _]]; [|lia]. sbind. destruct (lookup_lt_is_Some_2 A t ltac:(lia)) as [a Ha].
    replace (K1 + Z.to_nat (Z.of_nat K2 - Z.of_nat K1 + n))%nat with t by lia. rewrite Ha. cbn [fmap option_fmap option_map].
    rewrite (check_node_spec gte fg _ a Hg Ha), (fg_spec A fg Hcg _ a Ha).
    destruct (Nat.leb_spec K1 t), (Nat.ltb_spec t K2); (done || lia).
  - destruct Hstep as [->|[_ ->]]; [|done]. sbind. destruct (lookup_lt_is_Some_2 A t ltac:(lia)) as [a Ha]. rewrite Ha.
    cbn [fmap option_fmap option_map]. rewrite (check_node_spec gte fg _ a Hg Ha), (fg_spec A fg Hcg _ a Ha).
    destruct (Nat.leb_spec K1 t); [lia|done].
Qed.

Lemma nth_in_range_spec n :
  - 2 ^ 63 < n < 2 ^ 63 -> (K1 <= K2)%nat -> nth_in_range h zsl gte lte n = Some (zn_ptr <$> nth_of (range_nodes A fg fl) n).
Proof.
  intros Hn HK. destruct (decide (0 <= n)) as [Hge|Hlt]; [|apply nth_in_range_neg; [lia|done]].
  unfold nth_of. destruct (Z.geb_spec n 0); [|lia]. apply nth_in_range_pos. lia.
Qed.

End nth.

(** ** Ranges by score *)

Definition gte_of (range : zrangespec) (a : znode) : bool := zslValueGteMin (zn_score a) range.
Definition lte_of (range : zrangespec) (a : znode) : bool := zslValueLteMax (zn_score a) range.
Definition range_num (range : zrangespec) : Prop := isnan (r_min range) = false /\ isnan (r_max range) = false.

Lemma gte_key range v :
  range_num range -> isnan v = false ->
  (zslValueGteMin v range = true <->
   if r_minex range then lt3 (dkey (r_min range)) (dkey v) else ~ lt3 (dkey v) (dkey (r_min range))).
Proof. intros [H1 H2] Hv. unfold zslValueGteMin. destruct (r_minex range); [by apply dlt_key|by apply dle_key]. Qed.
Lemma lte_key range v :
  range_num range -> isnan v = false ->
  (zslValueLteMax v range = true <->
   if r_maxex range then lt3 (dkey v) (dkey (r_max range)) else ~ lt3 (dkey (r_max range)) (dkey v)).
Proof. intros [H1 H2] Hv. unfold zslValueLteMax. destruct (r_maxex range); [by apply dlt_key|by apply dle_key]. Qed.

Section score_order.
Context (A : list znode) (O : ordered A) (range : zrangespec) (Hr : range_num range).

Lemma score_le i j a b :
  (i < j)%nat -> A !! i = Some a -> A !! j = Some b -> ~ lt3 (dkey (zn_score b)) (dkey (zn_score a)).
Proof.
  intros Hij Ha Hb. pose proof (sorted_klt A O i j a b Hij Ha Hb) as Hk.
  apply klt_key in Hk; [|by eapply node_knum..]. cbn in Hk. destruct Hk as [Hk|[Hk _]].
  - unfold lt3 in *. lia.
  - rewrite Hk. apply lt3_irrefl.
Qed.

Lemma closed_gte : closed (fun a => negb (gte_of range a)) A.
Proof.
  intros i j a b Hij Ha Hb. pose proof (score_le i j a b Hij Ha Hb) as Hle.
  rewrite !negb_true_iff, <-!not_true_iff_false. unfold gte_of.
  rewrite !gte_key by (done || by eapply node_knum). unfold lt3 in *. destruct (r_minex range); lia.
Qed.

Lemma closed_lte : closed (lte_of range) A.
Proof.
  intros i j a b Hij Ha Hb. pose proof (score_le i j a b Hij Ha Hb) as Hle. unfold lte_of.
  rewrite !lte_key by (done || by eapply node_knum). unfold lt3 in *. destruct (r_maxex range); lia.
Qed.

Definition score_range : list znode := range_nodes A (gte_of range) (lte_of range).

(** The early return for bounds between which there is nothing. *)
Lemma score_bounds_empty :
  (r_max range <. r_min range) || ((r_min range ==. r_max range) && (r_minex range || r_maxex range)) = true ->
  score_range = [].
Proof.
  intros He. apply filter_none. intros x Hx. pose proof (proj2 O x Hx) as Hn. destruct Hr as [H1 H2].
  rewrite andb_true_iff. unfold gte_of, lte_of. rewrite gte_key, lte_key by done.
  rewrite orb_true_iff, andb_true_iff, orb_true_iff, dlt_key, deq_key in He by done.
  destruct He as [He|[He Hex]]; [unfold lt3 in *; destruct (r_minex range), (r_maxex range); lia|].
  rewrite He. unfold lt3. destruct (r_minex range), (r_maxex range); intuition (congruence || lia).
Qed.

Lemma score_bounds_order :
  (r_max range <. r_min range) || ((r_min range ==. r_max range) && (r_minex range || r_maxex range)) = false ->
  (first_in A (gte_of range) <= end_in A (lte_of range))%nat.
Proof.
  intros He. destruct (decide (end_in A (lte_of range) < first_in A (gte_of range))%nat) as [Hlt|]; [|lia].
  destruct (lookup_lt_is_Some_2 A (end_in A (lte_of range))) as [a Ha].
  { pose proof (prefix_len_le (fun a => negb (gte_of range a)) A). unfold first_in in Hlt. lia. }
  pose proof (fg_spec A _ closed_gte _ a Ha) as Hg. pose proof (fl_spec A _ closed_lte _ a Ha) as Hl.
  rewrite Nat.ltb_irrefl in Hl. rewrite (proj2 (Nat.leb_gt _ _) Hlt) in Hg.
  pose proof (node_knum A O _ a Ha) as Hn. destruct Hr as [H1 H2].
  rewrite <-not_true_iff_false in He, Hg, Hl. unfold gte_of, lte_of in *.
  rewrite gte_key in Hg by done. rewrite lte_key in Hl by done.
  rewrite orb_true_iff, andb_true_iff, orb_true_iff, dlt_key, deq_key in He by done.
  destruct (lt3_total (dkey (r_min range)) (dkey (r_max range))) as [Hc|[Hc|Hc]];
    [|rewrite Hc in *|by destruct He; left].
  - unfold lt3 in *. destruct (r_minex range), (r_maxex range); lia.
  - destruct (r_minex range), (r_maxex range); try (destruct He; right; split; [done|]; by auto). unfold lt3 in *. lia.
Qed.

End score_order.

Section by_score.
Context (h : heap) (zsl : zskiplist) (A : list znode) (R : rep h zsl A) (range : zrangespec) (Hr : range_num range).
Local Abbreviation O := (rep_ordered h zsl A R).

Lemma zslIsInRange_spec :
  exists b, zslIsInRange h zsl range = Some b
    /\ if b then (first_in A (gte_of range) <= end_in A (lte_of range))%nat else (score_range A range) = [].
Proof.
  unfold zslIsInRange. destruct (_ || _) eqn:He; [exists false; split; [done|]; by apply (score_bounds_empty A O range Hr)|].
  rewrite (ends_in_range_spec h zsl A R (gte_of range) (lte_of range)).
  - eexists. split; [done|]. case_match eqn:Eb; [by apply (score_bounds_order A O range Hr)|].
    apply (ends_out A (gte_of range) (lte_of range) (closed_gte A O range Hr) (closed_lte A O range Hr) Eb).
  - intros a n _ _ Hs. unfold score_gte. by rewrite Hs.
  - intros a n _ _ Hs. unfold score_lte. by rewrite Hs.
Qed.

Lemma zslNthInRange_spec n :
  - 2 ^ 63 < n < 2 ^ 63 -> zslNthInRange h zsl range n = Some (zn_ptr <$> nth_of (score_range A range) n).
Proof.
  intros Hn. unfold zslNthInRange. destruct zslIsInRange_spec as (b & -> & Hb). sbind. destruct b; cbn [negb].
  - apply (nth_in_range_spec h zsl A R (gte_of range) (lte_of range));
      [| |apply (closed_gte A O range Hr)|apply (closed_lte A O range Hr)|done|done].
    + intros a nd _ _ Hs. unfold score_gte. by rewrite Hs.
    + intros a nd _ _ Hs. unfold score_lte. by rewrite Hs.
  - by rewrite Hb, nth_of_nil.
Qed.

End by_score.

(** ** Ranges by name *)

Lemma sdscmp_refl s : sdscmp s s = 0.
Proof. by apply sdscmp_zero. Qed.
Lemma sdscmp_le_lt s t u : sdscmp s t <= 0 -> sdscmp t u < 0 -> sdscmp s u < 0.
Proof.
  intros H1 H2. destruct (decide (sdscmp s t = 0)) as [E|?]; [apply sdscmp_zero in E; by subst|].
  apply (sdscmp_trans s t u); lia.
Qed.
Lemma sdscmp_lt_le s t u : sdscmp s t < 0 -> sdscmp t u <= 0 -> sdscmp s u < 0.
Proof.
  intros H1 H2. destruct (decide (sdscmp t u = 0)) as [E|?]; [apply sdscmp_zero in E; by subst|].
  apply (sdscmp_trans s t u); lia.
Qed.

(** A smaller name is below every bound the larger one is below. *)
Lemma lex_mono v w b :
  sdscmp v w < 0 ->
  (sdscmplex (Sds w) b < 0 -> sdscmplex (Sds v) b < 0) /\ (sdscmplex (Sds w) b <= 0 -> sdscmplex (Sds v) b <= 0).
Proof.
  intros Hv. destruct b as [| |m]; cbn; [lia|lia|]. split; intros Hw.
  - apply (sdscmp_trans v w m); done.
  - pose proof (sdscmp_lt_le v w m Hv Hw). lia.
Qed.

Lemma lex_empty lo hi v :
  0 <= sdscmplex lo hi -> 0 <= sdscmplex (Sds v) lo -> sdscmplex (Sds v) hi <= 0 ->
  sdscmplex lo hi = 0 /\ sdscmplex (Sds v) lo = 0 /\ sdscmplex (Sds v) hi = 0.
Proof.
  destruct lo as [| |a], hi as [| |b]; cbn; try lia. intros H1 H2 H3.
  destruct (decide (sdscmp v a = 0)) as [E|Hne].
  - apply sdscmp_zero in E. subst v. rewrite sdscmp_refl. lia.
  - assert (Ha : sdscmp a v < 0) by (apply sdscmp_swap; lia). pose proof (sdscmp_lt_le a v b Ha H3). lia.
Qed.

Lemma lex_order lo hi v :
  (sdscmplex lo hi < 0 -> sdscmplex (Sds v) lo <= 0 -> sdscmplex (Sds v) hi < 0)
  /\ (sdscmplex lo hi = 0 -> sdscmplex (Sds v) hi = sdscmplex (Sds v) lo).
Proof.
  destruct lo as [| |a], hi as [| |b]; cbn; try lia. split.
  - intros H1 H2. by apply (sdscmp_le_lt v a b).
  - intros E. apply sdscmp_zero in E. by subst.
Qed.

Definition lgte_of (range : zlexrangespec) (a : znode) : bool := zslLexValueGteMin (zn_ele a) range.
Definition llte_of (range : zlexrangespec) (a : znode) : bool := zslLexValueLteMax (zn_ele a) range.

Lemma lgte_spec range v :
  zslLexValueGteMin v range = true <->
  if l_minex range then 0 < sdscmplex (Sds v) (l_min range) else 0 <= sdscmplex (Sds v) (l_min range).
Proof. unfold zslLexValueGteMin. destruct (l_minex range); [rewrite Z.gtb_lt; lia|]. rewrite Z.geb_le. lia. Qed.
Lemma llte_spec range v :
  zslLexValueLteMax v range = true <->
  if l_maxex range then sdscmplex (Sds v) (l_max range) < 0 else sdscmplex (Sds v) (l_max range) <= 0.
Proof. unfold zslLexValueLteMax. destruct (l_maxex range); [apply Z.ltb_lt|apply Z.leb_le]. Qed.

(** Names are in order where all the scores are equal, as the commands that use
    these ranges ask for. *)
Section lex_order.
Context (A : list znode) (O : ordered A) (range : zlexrangespec).
Context (Hsame : forall a b, a ∈ A -> b ∈ A -> zn_score a ==. zn_score b = true).

Lemma ele_lt i j a b : (i < j)%nat -> A !! i = Some a -> A !! j = Some b -> sdscmp (zn_ele a) (zn_ele b) < 0.
Proof.
  intros Hij Ha Hb. pose proof (sorted_klt A O i j a b Hij Ha Hb) as Hk.
  pose proof (Hsame a b (list_elem_of_lookup_2 _ _ _ Ha) (list_elem_of_lookup_2 _ _ _ Hb)) as He.
  pose proof (node_knum A O _ a Ha). pose proof (node_knum A O _ b Hb).
  apply klt_key in Hk; [|done..]. apply deq_key in He; [|done..]. cbn in Hk. rewrite He in Hk.
  destruct Hk as [Hk|[_ Hk]]; [by apply lt3_irrefl in Hk|done].
Qed.

Lemma closed_lgte : closed (fun a => negb (lgte_of range a)) A.
Proof.
  intros i j a b Hij Ha Hb. destruct (lex_mono _ _ (l_min range) (ele_lt i j a b Hij Ha Hb)) as [H1 H2].
  rewrite !negb_true_iff, <-!not_true_iff_false. unfold lgte_of. rewrite !lgte_spec. destruct (l_minex range); lia.
Qed.
Lemma closed_llte : closed (llte_of range) A.
Proof.
  intros i j a b Hij Ha Hb. destruct (lex_mono _ _ (l_max range) (ele_lt i j a b Hij Ha Hb)) as [H1 H2].
  unfold llte_of. rewrite !llte_spec. destruct (l_maxex range); lia.
Qed.

Definition lex_range : list znode := range_nodes A (lgte_of range) (llte_of range).

Lemma lex_bounds_empty :
  let cmp := sdscmplex (l_min range) (l_max range) in
  (cmp >? 0) || ((cmp =? 0) && (l_minex range || l_maxex range)) = true -> lex_range = [].
Proof.
  cbv zeta. intros He. apply filter_none. intros x Hx. rewrite andb_true_iff. unfold lgte_of, llte_of.
  rewrite lgte_spec, llte_spec. intros [H1 H2].
  rewrite orb_true_iff, andb_true_iff, orb_true_iff, Z.gtb_lt, Z.eqb_eq in He.
  destruct (lex_empty (l_min range) (l_max range) (zn_ele x)) as (E1 & E2 & E3).
  - lia.
  - destruct (l_minex range); lia.
  - destruct (l_maxex range); lia.
  - rewrite E2 in H1. rewrite E3 in H2. destruct (l_minex range), (l_maxex range); intuition (congruence || lia).
Qed.

Lemma lex_bounds_order :
  let cmp := sdscmplex (l_min range) (l_max range) in
  (cmp >? 0) || ((cmp =? 0) && (l_minex range || l_maxex range)) = false ->
  (first_in A (lgte_of range) <= end_in A (llte_of range))%nat.
Proof.
  cbv zeta. intros He. destruct (decide (end_in A (llte_of range) < first_in A (lgte_of range))%nat) as [Hlt|]; [|lia].
  destruct (lookup_lt_is_Some_2 A (end_in A (llte_of range))) as [a Ha].
  { pose proof (prefix_len_le (fun a => negb (lgte_of range a)) A). unfold first_in in Hlt. lia. }
  pose proof (fg_spec A _ closed_lgte _ a Ha) as Hg. pose proof (fl_spec A _ closed_llte _ a Ha) as Hl.
  rewrite Nat.ltb_irrefl in Hl. rewrite (proj2 (Nat.leb_gt _ _) Hlt) in Hg.
  rewrite <-not_true_iff_false in He, Hg, Hl. unfold lgte_of, llte_of in *. rewrite lgte_spec in Hg. rewrite llte_spec in Hl.
  rewrite orb_true_iff, andb_true_iff, orb_true_iff, Z.gtb_lt, Z.eqb_eq in He.
  destruct (lex_order (l_min range) (l_max range) (zn_ele a)) as [H1 H2].
  destruct (Z.lt_trichotomy (sdscmplex (l_min range) (l_max range)) 0) as [Hc|[Hc|Hc]]; [|rewrite (H2 Hc) in Hl|by destruct He; left].
  - destruct (l_minex range), (l_maxex range); lia.
  - destruct (l_minex range), (l_maxex range); try (destruct He; right; split; [done|]; by auto). lia.
Qed.

End lex_order.

Section by_lex.
Context (h : heap) (zsl : zskiplist) (A : list znode) (R : rep h zsl A) (range : zlexrangespec).
Context (Hsame : forall a b, a ∈ A -> b ∈ A -> zn_score a ==. zn_score b = true).
Local Abbreviation O := (rep_ordered h zsl A R).

Lemma lex_gte_test a n : a ∈ A -> ele n = Some (zn_ele a) -> score n = zn_score a -> lex_gte range n = Some (lgte_of range a).
Proof. intros _ He _. unfold lex_gte. by rewrite He. Qed.
Lemma lex_lte_test a n : a ∈ A -> ele n = Some (zn_ele a) -> score n = zn_score a -> lex_lte range n = Some (llte_of range a).
Proof. intros _ He _. unfold lex_lte. by rewrite He. Qed.

Lemma zslNthInLexRange_spec n :
  - 2 ^ 63 < n < 2 ^ 63 -> zslNthInLexRange h zsl range n = Some (zn_ptr <$> nth_of (lex_range A range) n).
Proof.
  intros Hn. unfold zslNthInLexRange, zslIsInLexRange. destruct (_ || _) eqn:He.
  - sbind. cbn [negb]. by rewrite (lex_bounds_empty A range), nth_of_nil.
  - rewrite (ends_in_range_spec h zsl A R (lgte_of range) (llte_of range) _ _ lex_gte_test lex_lte_test). sbind.
    match goal with |- context [negb ?b] => destruct b eqn:Eb end; cbn [negb].
    + apply (nth_in_range_spec h zsl A R (lgte_of range) (llte_of range));
        [apply lex_gte_test|apply lex_lte_test|apply (closed_lgte A O range Hsame)|apply (closed_llte A O range Hsame)|done|by apply (lex_bounds_order A O range Hsame)].
    + unfold lex_range. by rewrite (ends_out A (lgte_of range) (llte_of range) (closed_lgte A O range Hsame) (closed_llte A O range Hsame) Eb), nth_of_nil.
Qed.

End by_lex.

(** ** Deletion of a range *)

Section deletion.
Context (type : @dictType sds) `{!DictKeys type (fun e : sds => e)} (mode : dictResizeEnable).
Local Abbreviation zdict := (@dict sds ptr).
Local Abbreviation dmap := (dict_map (fun e : sds => e)).
Local Abbreviation dwf := (wf type (fun e : sds => e)).

(** The map without the elements of the nodes. *)
Definition without (M : gmap sds (sds * ptr)) (l : list znode) : gmap sds (sds * ptr) :=
  foldl (fun M a => delete (zn_ele a) M) M l.

(** The nodes of [update] lie before the place of the deletions. *)
Definition updates_at (zsl : zskiplist) (A1 A2 : list znode) (update : list (ptr * Z)) : Prop :=
  forall i, (i < zsl_level zsl)%nat -> exists u y, update !! i = Some (y, Z.of_nat u)
    /\ last_upto (towers zsl (A1 ++ A2)) (length A1) i u y.

Lemma updates_tail zsl zsl' A1 A2 a update :
  header zsl' = header zsl -> (zsl_level zsl' <= zsl_level zsl)%nat ->
  updates_at zsl A1 (a :: A2) update -> updates_at zsl' A1 A2 update.
Proof.
  intros Hh Hl Hu i Hi. destruct (Hu i ltac:(lia)) as (u & y & Hy & Hlu). exists u, y. split; [done|].
  unfold towers in *. rewrite Hh. rewrite fmap_app in *. change (?x :: ?a ++ ?b) with ((x :: a) ++ b) in *.
  eapply last_upto_tail; [|exact Hlu]. by rewrite length_cons, length_fmap.
Qed.

(** The body of the loop. *)
Lemma delete_step cond update A1 a A2 h zsl (d : zdict) n removed fuel :
  rep h zsl (A1 ++ a :: A2) -> dwf d -> updates_at zsl A1 (a :: A2) update ->
  h !! zn_ptr a = Some n -> cond removed n = Some true -> 0 <= removed < 2 ^ 64 - 1 ->
  exists h' zsl' d', delete_loop type mode cond update (S fuel) h zsl d (Some (zn_ptr a)) removed
      = delete_loop type mode cond update fuel h' zsl' d' (zn_ptr <$> head A2) (removed + 1)
    /\ rep h' zsl' (A1 ++ A2) /\ dwf d' /\ updates_at zsl' A1 A2 update
    /\ dmap d' = delete (zn_ele a) (dmap d)
    /\ header zsl' = header zsl /\ pauseAutoResize d' = pauseAutoResize d /\ dom h' = dom h ∖ {[zn_ptr a]}.
Proof.
  intros R W Hup Hn Hc Hr. assert (Haa : (A1 ++ a :: A2) !! length A1 = Some a) by (by apply list_lookup_middle).
  cbn [delete_loop]. rewrite Hn. sbind. rewrite Hc. sbind.
  destruct (next_of_place h zsl _ R (S (length A1)) (zn_ptr a) (zn_ht a)) as (l & -> & Hl); [by apply towers_at|]. sbind.
  destruct (delete_at h zsl _ R (length A1) a update Haa Hup) as (h1 & zsl1 & -> & R1 & Hh1 & Hlv & Hd1 & Hi1 & Hnin). sbind.
  rewrite take_app_length in R1, Hnin. replace (drop (S (length A1)) (A1 ++ a :: A2)) with A2 in R1, Hnin
    by (rewrite drop_app_ge by lia; by replace (S (length A1) - length A1)%nat with 1%nat by lia).
  pose proof (rep_node _ _ _ R _ a Haa) as Hia. rewrite <-Hi1 in Hia. apply info_some in Hia as (n1 & Hn1 & [= He1 _ _ _]).
  rewrite Hn1. sbind. rewrite <-He1. sbind. unfold dictDelete.
  destruct (genericDelete_spec type (fun e : sds => e) mode d (zn_ele a) false W) as (he & d1 & -> & (W1 & _ & Hm1 & _ & _ & Hp1)).
  sbind. destruct (free_at h h1 zsl1 _ (zn_ptr a) R1 Hnin Hd1) as (h2 & -> & R2 & Hd2); [eauto|]. sbind.
  rewrite wrap_small by lia.
  replace (forward l) with (zn_ptr <$> head A2)
    by (rewrite Hl, head_lookup; rewrite lookup_app_r by lia; by replace (S (length A1) - length A1)%nat with 1%nat by lia).
  exists h2, zsl1, d1. split_and!; try done. by eapply updates_tail.
Qed.

Lemma zdelete_loop_spec cond update A1 m A2 h zsl (d : zdict) removed fuel :
  rep h zsl (A1 ++ A2) -> dwf d -> updates_at zsl A1 A2 update ->
  (forall j a n, A2 !! j = Some a -> ele n = Some (zn_ele a) -> score n = zn_score a ->
     cond (removed + Z.of_nat j) n = Some (j <? m)%nat) ->
  (m <= length A2)%nat -> (length A2 <= fuel)%nat -> 0 <= removed -> removed + zlen A2 < 2 ^ 64 ->
  exists h' zsl' d', delete_loop type mode cond update fuel h zsl d (zn_ptr <$> head A2) removed
      = Some (removed + Z.of_nat m, h', zsl', d')
    /\ rep h' zsl' (A1 ++ drop m A2) /\ dwf d' /\ dmap d' = without (dmap d) (take m A2)
    /\ header zsl' = header zsl /\ pauseAutoResize d' = pauseAutoResize d
    /\ dom h' = dom h ∖ list_to_set (zn_ptr <$> take m A2).
Proof.
  revert A2 h zsl d removed fuel. induction m as [|m IH]; intros A2 h zsl d removed fuel R W Hup Hc Hm Hf Hr Hr64.
  all: destruct A2 as [|a A2];
    [first [cbn in Hm; lia | exists h, zsl, d; cbn [take drop]; rewrite Z.add_0_r;
       split; [by destruct fuel|split_and!; (done || set_solver)]]|].
  all: destruct fuel as [|fuel]; [cbn in Hf; lia|]; cbn [head fmap option_fmap option_map take drop length] in *.
  all: assert (Haa : (A1 ++ a :: A2) !! length A1 = Some a) by (by apply list_lookup_middle).
  all: destruct (node_of h zsl _ R _ a Haa) as (n & Hn & He & Hs & _); pose proof (Hc 0%nat a n eq_refl He Hs) as Hc0;
    rewrite Z.add_0_r in Hc0.
  - exists h, zsl, d. split; [|split_and!; (done || set_solver)]. cbn [delete_loop]. rewrite Hn. sbind. rewrite Hc0. sbind.
    by rewrite Z.add_0_r.
  - rewrite zlen_cons in Hr64. pose proof (zlen_nonneg A2).
    destruct (delete_step cond update A1 a A2 h zsl d n removed fuel R W Hup Hn Hc0)
      as (h1 & zsl1 & d1 & -> & R1 & W1 & Hu1 & Hm1 & Hh1 & Hp1 & Hd1); [lia|].
    destruct (IH A2 h1 zsl1 d1 (removed + 1) fuel R1 W1 Hu1) as (h' & zsl' & d' & -> & R' & W' & Hm' & Hh' & Hp' & Hd'); try lia.
    + intros j b nb Hb Heb Hsb. replace (removed + 1 + Z.of_nat j) with (removed + Z.of_nat (S j)) by lia.
      by apply (Hc (S j) b nb).
    + exists h', zsl', d'. replace (removed + Z.of_nat (S m)) with (removed + 1 + Z.of_nat m) by lia. split; [done|]. split_and!; [done|done| |congruence|congruence|].
      * by rewrite Hm', Hm1.
      * rewrite Hd', Hd1. cbn. set_solver.
Qed.

(** What a deletion of the nodes [gone] leaves of the list and the dictionary. *)
Definition range_deleted (h : heap) (zsl : zskiplist) (d : zdict) (kept gone : list znode)
    (r : option (Z * heap * zskiplist * zdict)) : Prop :=
  exists h' zsl' d', r = Some (zlen gone, h', zsl', d') /\ rep h' zsl' kept /\ dwf d'
    /\ dmap d' = without (dmap d) gone /\ header zsl' = header zsl /\ pauseAutoResize d' = pauseAutoResize d
    /\ dom h' = dom h ∖ list_to_set (zn_ptr <$> gone).

Lemma found_updates h zsl A K x update :
  rep h zsl A -> (K <= length A)%nat -> found zsl A K (zsl_level zsl) x update ->
  updates_at zsl (take K A) (drop K A) update
  /\ exists l, get_level h x 0 = Some l /\ forward l = zn_ptr <$> head (drop K A).
Proof.
  intros R HK (Hlen & [ht Hx] & Hup). split.
  - intros i Hi. rewrite take_drop, length_take, Nat.min_l by lia. by apply Hup.
  - destruct (next_of_place h zsl A R K x ht Hx) as (l & Hl & Hf). exists l. split; [done|].
    by rewrite Hf, head_lookup, lookup_drop, Nat.add_0_r.
Qed.

(** The deletion after a descent to the place [K]. *)
Lemma delete_from h zsl A (d : zdict) cond K m x update :
  rep h zsl A -> dwf d -> (K <= length A)%nat -> (m <= length A - K)%nat ->
  found zsl A K (zsl_level zsl) x update ->
  (forall j a n, A !! (K + j)%nat = Some a -> ele n = Some (zn_ele a) -> score n = zn_score a ->
     cond (Z.of_nat j) n = Some (j <? m)%nat) ->
  range_deleted h zsl d (take K A ++ drop m (drop K A)) (take m (drop K A))
    (l ← get_level h x 0; delete_loop type mode cond update (fuel_of zsl) h zsl d (forward l) 0).
Proof.
  intros R W HK Hm Hfd Hc. destruct (found_updates h zsl A K x update R HK Hfd) as (Hup & l & Hl & Hf). rewrite Hl. sbind. rewrite Hf.
  pose proof (rep_small _ _ _ R) as Hs. unfold zlen in Hs. pose proof R as R'. rewrite <-(take_drop K A) in R'.
  destruct (zdelete_loop_spec cond update (take K A) m (drop K A) h zsl d 0 (fuel_of zsl) R' W Hup)
    as (h' & zsl' & d' & -> & R1 & W1 & Hm1 & Hh1 & Hp1 & Hd1).
  - intros j a n Hj He Hsc. rewrite lookup_drop in Hj. rewrite Z.add_0_l. eauto.
  - by rewrite length_drop.
  - rewrite length_drop. unfold fuel_of. rewrite (rep_length _ _ _ R), to_nat_zlen. lia.
  - lia.
  - unfold zlen. rewrite length_drop. lia.
  - exists h', zsl', d'. replace (zlen (take m (drop K A))) with (0 + Z.of_nat m); [by split_and!|].
    unfold zlen. rewrite length_take, length_drop. lia.
Qed.

(** The other nodes. *)
Definition others (A : list znode) (fg fl : znode -> bool) : list znode := filter (fun a => ~ (fg a && fl a = true)) A.

Lemma slice_take A fg fl :
  closed (fun a => negb (fg a)) A -> closed fl A ->
  let K := first_in A fg in let m := (end_in A fl - K)%nat in
  take m (drop K A) = range_nodes A fg fl /\ take K A ++ drop m (drop K A) = others A fg fl.
Proof.
  intros Hcg Hcl K m. assert (Hsl : range_nodes A fg fl = take m (drop K A)).
  { rewrite (range_nodes_slice A fg fl Hcg Hcl). fold K. unfold m. destruct (decide (K <= end_in A fl)%nat).
    - rewrite take_drop_commute. by replace (K + (end_in A fl - K))%nat with (end_in A fl) by lia.
    - replace (end_in A fl - K)%nat with 0%nat by lia. apply drop_ge. rewrite length_take. lia. }
  split; [done|]. unfold others. rewrite <-(take_drop K A) at 3. rewrite <-(take_drop m (drop K A)) at 2.
  rewrite !filter_app. rewrite (filter_all _ (take K A)), (filter_none _ (take m (drop K A))), (filter_all _ (drop m (drop K A))); [done|..].
  - intros x (j & Hj)%list_elem_of_lookup. rewrite !lookup_drop in Hj. rewrite (fl_spec A fl Hcl _ x Hj).
    destruct (Nat.ltb_spec (K + (m + j)) (end_in A fl)); [lia|]. by rewrite andb_false_r.
  - intros x Hx. rewrite <-Hsl in Hx. apply list_elem_of_filter in Hx as [Hx _]. tauto.
  - intros x (j & Hj)%list_elem_of_lookup. apply lookup_take_Some in Hj as [Hj Hlt]. rewrite (fg_spec A fg Hcg _ x Hj).
    fold K. destruct (Nat.leb_spec K j); [lia|done].
Qed.

Lemma delete_range_spec' h zsl A (d : zdict) fg fl gte lte :
  rep h zsl A -> dwf d ->
  (forall a n, a ∈ A -> ele n = Some (zn_ele a) -> score n = zn_score a -> gte n = Some (fg a)) ->
  (forall a n, a ∈ A -> ele n = Some (zn_ele a) -> score n = zn_score a -> lte n = Some (fl a)) ->
  closed (fun a => negb (fg a)) A -> closed fl A ->
  range_deleted h zsl d (others A fg fl) (range_nodes A fg fl) (delete_range type mode h zsl d gte lte).
Proof.
  intros R W Hg Hl Hcg Hcl. destruct (slice_take A fg fl Hcg Hcl) as [<- <-]. unfold delete_range.
  pose proof (prefix_len_le (fun a => negb (fg a)) A) as HK. fold (first_in A fg) in HK.
  pose proof (prefix_len_le fl A) as HK2. fold (end_in A fl) in HK2.
  destruct (descend_found h zsl A R (fun _ _ x => b ← gte x; Some (negb b)) (first_in A fg)) as (x & update & -> & Hfd); [|done|].
  { apply (test_prefix h zsl A R (fun a => negb (fg a)) (fun _ _ x => b ← gte x; Some (negb b))); [done|]. intros a n _ _ Ha He Hs. by rewrite (Hg a n Ha He Hs). }
  sbind. apply delete_from; try done; [lia|]. intros j a n Hj He Hs.
  rewrite (Hl a n (list_elem_of_lookup_2 _ _ _ Hj) He Hs), (fl_spec A fl Hcl _ a Hj). f_equal.
  apply eq_true_iff_eq. rewrite !Nat.ltb_lt. lia.
Qed.

Lemma zslDeleteRangeByRank_spec h zsl A (d : zdict) start stop :
  rep h zsl A -> dwf d -> 1 <= start < 2 ^ 32 -> 0 <= stop < 2 ^ 32 ->
  let s := Z.to_nat (start - 1) in let t := Nat.max s (Z.to_nat stop) in
  range_deleted h zsl d (take s A ++ drop t A) (drop s (take t A)) (zslDeleteRangeByRank type mode h zsl start stop d).
Proof.
  intros R W Hst Hsp s t. pose proof (rep_small _ _ _ R) as Hsm. unfold zlen in Hsm.
  set (K := Nat.min s (length A)). set (m := Nat.min (t - s) (length A - K)).
  assert (Hg : drop s (take t A) = take m (drop K A)).
  { replace t with (s + (t - s))%nat at 1 by lia. rewrite <-take_drop_commute. unfold m, K. destruct (decide (s <= length A)%nat).
    - rewrite (Nat.min_l s), <-length_drop by lia. destruct (Nat.min_spec (t - s) (length (drop s A))) as [[_ ->]|[? ->]]; [done|].
      rewrite !take_ge by lia. done.
    - rewrite (Nat.min_r s), !drop_ge, !take_nil by lia. done. }
  assert (Hk : take s A ++ drop t A = take K A ++ drop m (drop K A)).
  { unfold m, K. rewrite drop_drop. destruct (decide (s <= length A)%nat).
    - rewrite (Nat.min_l s) by lia. f_equal. destruct (decide (t <= length A)%nat).
      + rewrite Nat.min_l by lia. by replace (s + (t - s))%nat with t by lia.
      + rewrite !drop_ge by lia. done.
    - rewrite (Nat.min_r s), !take_ge, !drop_ge by lia. done. }
  rewrite Hg, Hk. unfold zslDeleteRangeByRank.
  destruct (descend_found h zsl A R (fun traversed sp _ => Some (u64 (traversed + sp) <? start)) K) as (x & update & -> & Hfd); [|lia|].
  { intros p q y k n Hq Hy _. apply lookup_lt_Some in Hy. rewrite towers_length in Hy. f_equal.
    rewrite wrap_small by lia. apply eq_true_iff_eq. rewrite Z.ltb_lt, Nat.leb_le. lia. }
  sbind. apply delete_from; try done; [lia|lia|]. intros j a n Hj _ _. f_equal. apply lookup_lt_Some in Hj.
  rewrite !wrap_small by (rewrite ?wrap_small; lia). apply eq_true_iff_eq. rewrite Z.leb_le, Nat.ltb_lt. lia.
Qed.

End deletion.
