(* ===== verification/Zset.v ===== *)
(** * t_zset.c: sorted sets on a skiplist and a dictionary

    The branches of the operations for a sorted set in its skiplist encoding: a
    dictionary from the elements to their scores beside the skiplist.  The value of an entry of
    the dictionary is the address of the score in the node of the element, here
    the address of the node: reading it reads the heap, and fails when the node
    was freed.  [ZsetSpec] shows that the two stay in step and implement a map
    from elements to scores with its order. *)

From Stdlib Require Import SpecFloat.
From stdpp Require Import gmap.
From S2P Require Import Prelude Dict Zskiplist ZskiplistRange.

Definition ZADD_IN_INCR : Z := 1 <<< 0.
Definition ZADD_IN_NX : Z := 1 <<< 1.
Definition ZADD_IN_XX : Z := 1 <<< 2.
Definition ZADD_IN_GT : Z := 1 <<< 3.
Definition ZADD_IN_LT : Z := 1 <<< 4.
Definition ZADD_OUT_NOP : Z := 1 <<< 0.
Definition ZADD_OUT_NAN : Z := 1 <<< 1.
Definition ZADD_OUT_ADDED : Z := 1 <<< 2.
Definition ZADD_OUT_UPDATED : Z := 1 <<< 3.

(** Addition of doubles. *)
Definition dadd (x y : double) : double := SFadd 53 1024 x y.

Record zset := mkZset { zs_dict : @dict sds ptr; zs_zsl : zskiplist }.

(** The dictionaries of sorted sets: strings compared byte by byte, and a hash
    function that is a parameter. *)
Definition dictSdsKeyCompare (key1 key2 : sds) : bool :=
  let l1 := zlen key1 in
  let l2 := zlen key2 in
  if negb (l1 =? l2) then false else memcmp key1 key2 =? 0.
Definition zsetDictType (dictSdsHash : sds -> Z) : @dictType sds :=
  {| hashFunction := dictSdsHash; keyCompare := dictSdsKeyCompare;
     resizeAllowed := fun _ _ _ => true; force_full_rehash := false |}.

Section zset.
Context (dictSdsHash : sds -> Z) (mode : dictResizeEnable) (indet : ptr).
Context (zmalloc : heap -> ptr) (junk : option ptr * zskiplistLevel).
Local Abbreviation type := (zsetDictType dictSdsHash).

Definition createZsetObject (h : heap) : option (heap * zset) :=
  '(zsl, h) ← zslCreate zmalloc junk h; Some (h, mkZset dictCreate zsl).

(** The calls the dictionary makes while it is released, and the heap left. *)
Definition freeZsetObject (h : heap) (zs : zset) : option (list (callback sds ptr) * heap) :=
  cs ← dictRelease (zs_dict zs); h ← zslFree h (zs_zsl zs); Some (cs, h).

Definition zset_length (zs : zset) : Z := zsl_length (zs_zsl zs).

(** [*(double* )dictGetVal(de)] *)
Definition score_at (h : heap) (x : ptr) : option double := n ← h !! x; Some (score n).

Definition zset_score (h : heap) (zs : zset) (member : sds) : option (option double * zset) :=
  '(de, d) ← dictFind type mode (zs_dict zs) member;
  let zs := mkZset d (zs_zsl zs) in
  match de with
  | None => Some (None, zs)
  | Some (_, x) => s ← score_at h x; Some (Some s, zs)
  end.

(** What [zsetAdd] returns: its result, [*out_flags], and [*newscore] when it is set. *)
Record zadd_result := mkZadd { za_ret : Z; za_flags : Z; za_newscore : option double }.

(** The branch of [zsetAdd] for an element that the dictionary has at [de]. *)
Definition zadd_update (h : heap) (zs : zset) (de : link) (x : ptr) (s : double) (e : sds)
    (incr nx gt lt : bool) (rnd : list Z) : option (zadd_result * heap * zset * list Z) :=
  if nx then Some (mkZadd 1 ZADD_OUT_NOP None, h, zs, rnd)
  else
    curscore ← score_at h x;
    let s := if incr then dadd s curscore else s in
    if incr && isnan s then Some (mkZadd 0 ZADD_OUT_NAN None, h, zs, rnd)
    else if (lt && (curscore <=. s)) || (gt && (s <=. curscore)) then Some (mkZadd 1 ZADD_OUT_NOP None, h, zs, rnd)
    else if negb (s ==. curscore) then
      '(znode, h, zsl, rnd) ← zslUpdateScore zmalloc junk h (zs_zsl zs) curscore e s rnd;
      d ← dictSetVal (zs_dict zs) de znode;
      Some (mkZadd 1 ZADD_OUT_UPDATED (Some s), h, mkZset d zsl, rnd)
    else Some (mkZadd 1 0 (Some s), h, zs, rnd).

(** [zsetAdd] on a sorted set in this encoding; [dictFind] is used with the
    place of the entry, which [dictSetVal] writes to. *)
Definition zset_add (h : heap) (zs : zset) (s : double) (e : sds) (in_flags : Z) (rnd : list Z) :
    option (zadd_result * heap * zset * list Z) :=
  let incr := negb ((in_flags &&& ZADD_IN_INCR) =? 0) in
  let nx := negb ((in_flags &&& ZADD_IN_NX) =? 0) in
  let xx := negb ((in_flags &&& ZADD_IN_XX) =? 0) in
  let gt := negb ((in_flags &&& ZADD_IN_GT) =? 0) in
  let lt := negb ((in_flags &&& ZADD_IN_LT) =? 0) in
  if isnan s then Some (mkZadd 0 ZADD_OUT_NAN None, h, zs, rnd)
  else
    '(de, _, d) ← dictFindLink type mode (zs_dict zs) e false;
    let zs := mkZset d (zs_zsl zs) in
    match de with
    | Some de =>
        e' ← link_get d de;
        '(_, x) ← e';
        zadd_update h zs de x s e incr nx gt lt rnd
    | None =>
        if negb xx then
          '(znode, h, zsl, rnd) ← zslInsert zmalloc junk h (zs_zsl zs) s e rnd;
          '(r, d) ← dictAdd type mode indet (zs_dict zs) e znode;
          if bool_decide (r = DICT_OK)
          then Some (mkZadd 1 ZADD_OUT_ADDED (Some s), h, mkZset d zsl, rnd) else None
        else Some (mkZadd 1 ZADD_OUT_NOP None, h, zs, rnd)
    end.

Definition zsetRemoveFromSkiplist (h : heap) (zs : zset) (e : sds) : option (bool * heap * zset) :=
  '(de, d) ← dictUnlink type mode (zs_dict zs) e;
  match de with
  | Some (k, x) =>
      s ← score_at h x;
      let d := dictFreeUnlinkedEntry d (Some (k, x)) in
      '(retval, _, h, zsl) ← zslDelete h (zs_zsl zs) s e false;
      if (retval : bool) then Some (true, h, mkZset d zsl) else None
  | None => Some (false, h, mkZset d (zs_zsl zs))
  end.

(** The branch of [zsetRank]: the rank and the score, or -1. *)
Definition zset_rank (h : heap) (zs : zset) (e : sds) (reverse : bool) : option (Z * option double * zset) :=
  let llen := zset_length zs in
  '(de, d) ← dictFind type mode (zs_dict zs) e;
  let zs := mkZset d (zs_zsl zs) in
  match de with
  | Some (_, x) =>
      s ← score_at h x;
      rank ← zslGetRank h (zs_zsl zs) s e;
      if rank =? 0 then None
      else Some (i64 (if reverse then u64 (llen - rank) else u64 (rank - 1)), Some s, zs)
  | None => Some (-1, None, zs)
  end.

(** ** Deletion of ranges *)

(** The pauses of the resizing are counted in 16 bits. *)
Definition with_pauseAutoResize (d : @dict sds ptr) (n : Z) : @dict sds ptr :=
  mkDict (ht0 d) (ht1 d) (rehashidx d) (pauserehash d) n (calls d).
Definition dictPauseAutoResize (d : @dict sds ptr) := with_pauseAutoResize d (swrap 16 (pauseAutoResize d + 1)).
Definition dictResumeAutoResize (d : @dict sds ptr) := with_pauseAutoResize d (swrap 16 (pauseAutoResize d - 1)).

Inductive zrange := ZRANGE_RANK (start stop : Z) | ZRANGE_SCORE (range : zrangespec) | ZRANGE_LEX (range : zlexrangespec).

(** The indexes of a range of ranks, counted from the end when negative; [None]
    is an empty range. *)
Definition sanitize (llen start stop : Z) : option (Z * Z) :=
  let start := if start <? 0 then llen + start else start in
  let stop := if stop <? 0 then llen + stop else stop in
  let start := if start <? 0 then 0 else start in
  if (start >? stop) || (start >=? llen) then None
  else Some (start, if stop >=? llen then llen - 1 else stop).

(** The deletion between the pause and the end of the pause.  The ranks are
    passed on as unsigned ints. *)
Definition remrange_paused (h : heap) (zs : zset) (range : zrange) : option (Z * heap * zskiplist * @dict sds ptr) :=
  let d := dictPauseAutoResize (zs_dict zs) in
  match range with
  | ZRANGE_RANK start stop => zslDeleteRangeByRank type mode h (zs_zsl zs) (u32 (start + 1)) (u32 (stop + 1)) d
  | ZRANGE_SCORE range => zslDeleteRangeByScore type mode h (zs_zsl zs) range d
  | ZRANGE_LEX range => zslDeleteRangeByLex type mode h (zs_zsl zs) range d
  end.

(** The steps of [zremrangeGenericCommand] in this encoding: the number of
    elements deleted, and whether the key has to go. *)
Definition zset_remrange_apply (h : heap) (zs : zset) (range : zrange) : option (Z * bool * heap * zset) :=
  '(deleted, h, zsl, d) ← remrange_paused h zs range;
  let d := dictResumeAutoResize d in
  if dictSize d =? 0 then Some (deleted, true, h, mkZset d zsl)
  else '(_, d) ← dictShrinkIfNeeded type mode d; Some (deleted, false, h, mkZset d zsl).
Definition zset_remrange (h : heap) (zs : zset) (range : zrange) : option (Z * bool * heap * zset) :=
  match range with
  | ZRANGE_RANK start stop =>
      match sanitize (zset_length zs) start stop with
      | None => Some (0, false, h, zs)
      | Some (start, stop) => zset_remrange_apply h zs (ZRANGE_RANK start stop)
      end
  | _ => zset_remrange_apply h zs range
  end.

End zset.
