(* ===== verification/ZsetSpec.v ===== *)
(** * Sorted sets implement a map from elements to scores

    The dictionary and the skiplist of a sorted set have the same elements, the
    values of the dictionary lead to live nodes, and the heap has no other node.
    Every operation keeps this, and acts on the map from elements to scores. *)

From Stdlib Require Import SpecFloat.
From stdpp Require Import gmap.
From S2P Require Import Prelude Dict DictSpec DictMap.
From S2P Require Import Zskiplist ZskiplistSpec ZskiplistOps ZskiplistApi ZskiplistRange ZskiplistRangeSpec Zset.

Lemma dictSdsKeyCompare_iff (a b : sds) : dictSdsKeyCompare a b = true <-> a = b.
Proof.
  unfold dictSdsKeyCompare. rewrite <-sdscmp_zero. unfold sdscmp. split.
  - destruct (Z.eqb_spec (zlen a) (zlen b)) as [He|]; [|done]. cbn [negb]. intros ->. zcase; lia.
  - intros H. destruct (Z.eqb_spec (zlen a) (zlen b)) as [He|Hne]; cbn [negb].
    + destruct (Z.eqb_spec (memcmp a b) 0); [done|]. lia.
    + destruct (memcmp a b =? 0) eqn:E; [|lia]. revert H. zcase; lia.
Qed.

(** What the elements and scores of a sequence are. *)
Definition members (A : list znode) : gmap sds double := list_to_map ((fun a => (zn_ele a, zn_score a)) <$> A).

Lemma members_iff A e s :
  NoDup (zn_ele <$> A) -> (members A !! e = Some s <-> exists a, a ∈ A /\ zn_ele a = e /\ zn_score a = s).
Proof.
  intros Hnd. unfold members. rewrite <-elem_of_list_to_map by (by rewrite <-list_fmap_compose).
  rewrite list_elem_of_fmap. split; [intros (a & [= -> ->] & Ha); eauto|intros (a & Ha & <- & <-); eauto].
Qed.

Lemma members_unique A M :
  NoDup (zn_ele <$> A) -> (forall e s, M !! e = Some s <-> exists a, a ∈ A /\ zn_ele a = e /\ zn_score a = s) -> members A = M.
Proof. intros Hnd HM. apply map_eq. intros e. apply option_eq. intros s. by rewrite members_iff, HM. Qed.

Lemma members_size A : NoDup (zn_ele <$> A) -> size (members A) = length A.
Proof.
  intros Hnd. unfold members. rewrite <-length_map_to_list, map_to_list_to_map by (by rewrite <-list_fmap_compose).
  by rewrite length_fmap.
Qed.

Lemma nodup_filter (P : znode -> Prop) `{forall a, Decision (P a)} A : NoDup (zn_ele <$> A) -> NoDup (zn_ele <$> filter P A).
Proof.
  induction A as [|a A IH]; [done|]. cbn [fmap list_fmap]. intros [Ha Hnd]%NoDup_cons. rewrite filter_cons. case_decide; [|auto].
  cbn [fmap list_fmap]. apply NoDup_cons. split; [|auto]. intros (b & Hb & Hin)%list_elem_of_fmap. apply Ha.
  apply list_elem_of_fmap. exists b. split; [done|]. by apply list_elem_of_filter in Hin as [_ ?].
Qed.

Lemma members_filter (P : sds * double -> Prop) `{forall p, Decision (P p)} A :
  NoDup (zn_ele <$> A) -> filter P (members A) = members (filter (fun a => P (zn_ele a, zn_score a)) A).
Proof.
  intros Hnd. symmetry. apply members_unique; [by apply nodup_filter|]. intros e s. rewrite map_lookup_filter_Some, members_iff by done.
  split.
  - intros [(a & Ha & <- & <-) HP]. exists a. by rewrite list_elem_of_filter.
  - intros (a & [HP Ha]%list_elem_of_filter & <- & <-). eauto 6.
Qed.

Lemma elem_of_put (A : list znode) K nd b : b ∈ take K A ++ nd :: drop K A <-> b = nd \/ b ∈ A.
Proof. rewrite <-(take_drop K A) at 3. rewrite !elem_of_app, elem_of_cons. tauto. Qed.

(** The order of the names: by the first byte that differs, a prefix first. *)
Fixpoint name_ltb (a b : sds) : bool :=
  match a, b with
  | _, [] => false
  | [], _ :: _ => true
  | x :: a, y :: b => (x <? y) || ((x =? y) && name_ltb a b)
  end.

Lemma name_ltb_sdscmp a b : name_ltb a b = (sdscmp a b <? 0).
Proof.
  revert b. induction a as [|x a IH]; intros [|y b]; rewrite ?sdscmp_nil_l, ?sdscmp_nil_r; [done..|]. rewrite sdscmp_cons. cbn [name_ltb].
  rewrite IH. destruct (Z.eqb_spec x y) as [->|Hn]; [by rewrite Z.ltb_irrefl|]. rewrite andb_false_l, orb_false_r. zcase; lia.
Qed.

(** The order of the elements: by score, and by name where the scores are equal. *)
Definition precedes (a b : double * sds) : bool := (a.1 <. b.1) || ((a.1 ==. b.1) && name_ltb a.2 b.2).

Lemma precedes_kltb a b : precedes a b = kltb a b.
Proof. unfold precedes. by rewrite name_ltb_sdscmp. Qed.

(** The number of elements before a key. *)
Definition rank_in (M : gmap sds double) (key : double * sds) : Z :=
  Z.of_nat (size (filter (fun p : sds * double => precedes (p.2, p.1) key = true) M)).

Lemma rank_in_kltb M key : rank_in M key = Z.of_nat (size (filter (fun p : sds * double => kltb (p.2, p.1) key = true) M)).
Proof. unfold rank_in. do 2 f_equal. apply map_filter_ext. intros e s _. by rewrite precedes_kltb. Qed.

Lemma filter_prefix f A : closed f A -> length (filter (fun a => f a = true) A) = prefix_len f A.
Proof.
  induction A as [|a A IH]; intros Hc; [done|]. cbn [prefix_len]. destruct (f a) eqn:Ea.
  - rewrite filter_cons_True by done. cbn [length]. f_equal. apply IH. intros i j b c Hij Hb Hcc. apply (Hc (S i) (S j)); [lia|done..].
  - rewrite filter_cons_False by congruence. rewrite filter_none; [done|]. intros x (j & Hj)%list_elem_of_lookup Hx.
    by rewrite (Hc 0%nat (S j) a x ltac:(lia) eq_refl Hj Hx) in Ea.
Qed.

(** A sequence in order, of elements that differ. *)
Section sequence.
Context (A : list znode) (O : ordered A) (Hnd : NoDup (zn_ele <$> A)).

Lemma place_rank key : knum key -> Z.of_nat (place A key) = rank_in (members A) key.
Proof.
  intros Hk. rewrite rank_in_kltb, members_filter, members_size by (auto using nodup_filter). f_equal. symmetry.
  apply (filter_prefix (fun a => kltb (zn_key a) key)). by apply (closed_kltb A O).
Qed.

Lemma index_rank j a : A !! j = Some a -> rank_in (members A) (zn_key a) = Z.of_nat j.
Proof.
  intros Hj. pose proof (proj2 O a (list_elem_of_lookup_2 _ _ _ Hj)) as Hn. rewrite <-(place_rank _ Hn). f_equal. symmetry.
  apply (keq_place A O (zn_key a) j a Hn Hj). split; [by apply deq_key|done].
Qed.

(** What is left of it after the elements for which [inb] holds are removed. *)
Context (inb : sds * double -> bool) (kept : list znode).
Context (Hkept : forall b, b ∈ kept <-> b ∈ A /\ inb (zn_ele b, zn_score b) = false) (Hnk : NoDup (zn_ele <$> kept)).
Local Abbreviation M' := (filter (fun p => inb p = false) (members A)).

Lemma kept_members : members kept = M'.
Proof.
  apply members_unique; [done|]. intros e s. rewrite map_lookup_filter_Some, members_iff by done. setoid_rewrite Hkept.
  split; [intros [(a & Ha & <- & <-) Hi]; eauto|]. intros (a & [Ha Hi] & <- & <-). eauto 6.
Qed.

Lemma kept_size (gone : list znode) :
  zlen kept + zlen gone = zlen A -> Z.of_nat (size (members A)) - Z.of_nat (size M') = zlen gone.
Proof. intros Hlen. rewrite <-kept_members, !members_size by done. unfold zlen in *. lia. Qed.

End sequence.

Section zset.
Context (dictSdsHash : sds -> Z) (Hhash : forall e, in_unsigned 64 (dictSdsHash e)).
Context (mode : dictResizeEnable) (indet : ptr).
Context (zmalloc : heap -> ptr) (junk : option ptr * zskiplistLevel) (Hmalloc : forall h, h !! zmalloc h = None).
Local Abbreviation type := (zsetDictType dictSdsHash).
Local Abbreviation key_id := (fun e : sds => e).
Local Abbreviation dmap := (dict_map key_id).
Local Abbreviation dwf := (wf type key_id).

#[local] Instance zset_keys : DictKeys type key_id.
Proof. split; [apply dictSdsKeyCompare_iff|by intros a b ->|apply Hhash]. Qed.

Record zrep (h : heap) (zs : zset) (A : list znode) : Prop := {
  zr_rep : rep h (zs_zsl zs) A;
  zr_wf : dwf (zs_dict zs);
  zr_pause : pauseAutoResize (zs_dict zs) = 0;
  zr_dict e v : dmap (zs_dict zs) !! e = Some v <-> exists a, a ∈ A /\ zn_ele a = e /\ v = (e, zn_ptr a);
  zr_dom : dom h = list_to_set (towers (zs_zsl zs) A).*1;
}.

Section inv.
Context (h : heap) (zs : zset) (A : list znode) (ZR : zrep h zs A).

Lemma zr_unique a b : a ∈ A -> b ∈ A -> zn_ele a = zn_ele b -> a = b.
Proof.
  intros Ha Hb He. pose proof (zr_rep _ _ _ ZR) as R.
  assert (H1 : dmap (zs_dict zs) !! zn_ele a = Some (zn_ele a, zn_ptr a)) by (apply (zr_dict _ _ _ ZR); eauto).
  assert (H2 : dmap (zs_dict zs) !! zn_ele a = Some (zn_ele a, zn_ptr b)) by (apply (zr_dict _ _ _ ZR); rewrite He; eauto).
  rewrite H1 in H2. injection H2 as Hp. apply list_elem_of_lookup in Ha as (i & Hi). apply list_elem_of_lookup in Hb as (j & Hj).
  pose proof (ptr_inj _ _ _ _ _ _ _ R Hi Hj Hp) as ->. congruence.
Qed.

Lemma zr_nodup : NoDup (zn_ele <$> A).
Proof.
  pose proof (zr_rep _ _ _ ZR) as R. apply NoDup_alt. intros i j e. rewrite !list_lookup_fmap, !fmap_Some.
  intros (a & Ha & ->) (b & Hb & He).
  assert (a = b) as -> by (apply zr_unique; eauto using list_elem_of_lookup_2). by apply (ptr_inj _ _ _ _ _ _ _ R Ha Hb).
Qed.

Lemma zr_members e s : members A !! e = Some s <-> exists a, a ∈ A /\ zn_ele a = e /\ zn_score a = s.
Proof. apply members_iff, zr_nodup. Qed.

Lemma zr_members_None e : members A !! e = None <-> dmap (zs_dict zs) !! e = None.
Proof.
  rewrite !eq_None_not_Some. apply not_iff_compat. split; intros [v Hv].
  - apply zr_members in Hv as (a & Ha & He & _). exists (e, zn_ptr a). apply (zr_dict _ _ _ ZR). eauto.
  - apply (zr_dict _ _ _ ZR) in Hv as (a & Ha & He & _). exists (zn_score a). apply zr_members. eauto.
Qed.

Lemma zr_size : Z.of_nat (size (members A)) = zlen A.
Proof. unfold zlen. by rewrite members_size by apply zr_nodup. Qed.

Lemma zr_dict_size : Z.of_nat (size (dmap (zs_dict zs))) = zlen A.
Proof.
  rewrite <-zr_size. f_equal. rewrite <-!size_dom. f_equal. apply set_eq. intros e. rewrite !elem_of_dom, <-!not_eq_None_Some.
  by rewrite zr_members_None.
Qed.

Lemma zr_length : zset_length zs = Z.of_nat (size (members A)).
Proof. unfold zset_length. by rewrite (rep_length _ _ _ (zr_rep _ _ _ ZR)), zr_size. Qed.

Lemma zr_score a : a ∈ A -> score_at h (zn_ptr a) = Some (zn_score a).
Proof.
  intros (j & Ha)%list_elem_of_lookup. unfold score_at. pose proof (rep_node _ _ _ (zr_rep _ _ _ ZR) j a Ha) as Hi.
  apply info_some in Hi as (n & -> & [= _ -> _ _]). done.
Qed.

Lemma zr_num e s : members A !! e = Some s -> isnan s = false.
Proof. intros (a & Ha & _ & <-)%zr_members. by apply (rep_num _ _ _ (zr_rep _ _ _ ZR)). Qed.

(** The node of an element is at the place of its score. *)
Lemma zr_place a : a ∈ A -> A !! place A (zn_key a) = Some a.
Proof.
  intros Ha. pose proof (rep_num _ _ _ (zr_rep _ _ _ ZR) a Ha) as Hn. apply list_elem_of_lookup in Ha as (j & Hj).
  rewrite <-(keq_place A (rep_ordered _ _ _ (zr_rep _ _ _ ZR)) (zn_key a) j a); [done|done|done|]. split; [by apply deq_key|done].
Qed.

(** A step of the rehashing leaves the sorted set as it is. *)
Lemma zr_step d : same type key_id (zs_dict zs) d -> zrep h (mkZset d (zs_zsl zs)) A.
Proof.
  intros Hs. split; cbn.
  - apply ZR.
  - apply Hs.
  - rewrite (same_pauseResize _ _ _ _ Hs). apply ZR.
  - intros e v. rewrite (same_map type key_id (zs_dict zs) d (zr_wf _ _ _ ZR) Hs). apply ZR.
  - apply ZR.
Qed.

End inv.

(** ** Lookups *)

Lemma zset_score_spec h zs A e :
  zrep h zs A -> exists zs', zset_score dictSdsHash mode h zs e = Some (members A !! e, zs') /\ zrep h zs' A.
Proof.
  intros ZR. unfold zset_score. destruct (find_spec type key_id mode (zs_dict zs) e (zr_wf _ _ _ ZR)) as (d & -> & Hs). sbind.
  pose proof (zr_step h zs A ZR d Hs) as ZR'. destruct (dmap (zs_dict zs) !! e) as [v|] eqn:Hv.
  - apply (zr_dict _ _ _ ZR) in Hv as (a & Ha & <- & ->). rewrite (zr_score h zs A ZR a Ha). sbind.
    exists (mkZset d (zs_zsl zs)). split; [|done]. do 2 f_equal. symmetry. apply (zr_members h zs A ZR). eauto.
  - exists (mkZset d (zs_zsl zs)). split; [|done]. do 2 f_equal. symmetry. by apply (zr_members_None h zs A ZR).
Qed.

Lemma zset_rank_spec h zs A e reverse :
  zrep h zs A ->
  exists zs', zset_rank dictSdsHash mode h zs e reverse
    = Some (match members A !! e with
            | Some s => let r := rank_in (members A) (s, e) in
                        if reverse then Z.of_nat (size (members A)) - 1 - r else r
            | None => -1
            end, members A !! e, zs') /\ zrep h zs' A.
Proof.
  intros ZR. unfold zset_rank. destruct (find_spec type key_id mode (zs_dict zs) e (zr_wf _ _ _ ZR)) as (d & -> & Hs). sbind.
  pose proof (zr_step h zs A ZR d Hs) as ZR'. exists (mkZset d (zs_zsl zs)). split; [|done].
  destruct (dmap (zs_dict zs) !! e) as [v|] eqn:Hv.
  - apply (zr_dict _ _ _ ZR) in Hv as (a & Ha & <- & ->). rewrite (zr_score h zs A ZR a Ha). sbind. cbn [zs_zsl].
    pose proof (rep_num _ _ _ (zr_rep _ _ _ ZR) a Ha) as Hn.
    rewrite (zslGetRank_spec h _ A (zr_rep _ _ _ ZR)) by done. sbind.
    assert (Hm : members A !! zn_ele a = Some (zn_score a)) by (apply (zr_members h zs A ZR); eauto). rewrite Hm.
    change (zn_score a, zn_ele a) with (zn_key a). unfold rank_of. pose proof (zr_place h zs A ZR a Ha) as Hp. rewrite Hp.
    rewrite (proj2 (keqb_spec (zn_key a) (zn_key a))) by (split; [by apply deq_key|done]).
    destruct (Z.eqb_spec (Z.of_nat (S (place A (zn_key a)))) 0); [lia|]. cbv zeta.
    rewrite <-(place_rank A (rep_ordered _ _ _ (zr_rep _ _ _ ZR)) (zr_nodup h zs A ZR) _ Hn), (zr_length h zs A ZR), (zr_size h zs A ZR).
    pose proof (rep_small _ _ _ (zr_rep _ _ _ ZR)) as Hsm. pose proof (lookup_lt_Some _ _ _ Hp) as Hlt.
    assert (Z.of_nat (place A (zn_key a)) < zlen A) by (unfold zlen; lia).
    destruct reverse; rewrite wrap_small, swrap_small by (unfold in_signed; lia); do 3 f_equal; lia.
  - by rewrite (proj2 (zr_members_None h zs A ZR e) Hv).
Qed.

(** ** Sequences with a node more and a node less *)

Definition ptrs (zsl : zskiplist) (A : list znode) : gset ptr := list_to_set (towers zsl A).*1.

Lemma elem_of_ptrs zsl A y : y ∈ ptrs zsl A <-> y = header zsl \/ exists a, a ∈ A /\ y = zn_ptr a.
Proof.
  unfold ptrs, towers. rewrite elem_of_list_to_set. cbn [fmap list_fmap]. rewrite elem_of_cons, <-list_fmap_compose, list_elem_of_fmap.
  cbn. naive_solver.
Qed.

Lemma ptrs_put zsl zsl' A K nd :
  header zsl' = header zsl -> ptrs zsl' (take K A ++ nd :: drop K A) = {[zn_ptr nd]} ∪ ptrs zsl A.
Proof.
  intros Hh. apply set_eq. intros y. rewrite elem_of_union, elem_of_singleton, !elem_of_ptrs, Hh. setoid_rewrite elem_of_put.
  naive_solver.
Qed.

Section removed.
Context (h : heap) (zs : zset) (A : list znode) (ZR : zrep h zs A) (K : nat) (a : znode) (Ha : A !! K = Some a).
Local Abbreviation B := (take K A ++ drop (S K) A).

Lemma elem_of_removed b : b ∈ B <-> b ∈ A /\ zn_ele b <> zn_ele a.
Proof.
  pose proof (zr_rep _ _ _ ZR) as R. destruct (node_split A K a Ha) as [HA HK]. split.
  - intros Hb. assert (Hin : b ∈ A) by (rewrite HA; apply elem_of_app; apply elem_of_app in Hb as [Hb|Hb]; [by left|right; by right]).
    split; [done|]. intros He.
    pose proof (zr_unique h zs A ZR b a Hin (list_elem_of_lookup_2 _ _ _ Ha) He) as ->.
    pose proof (zr_nodup h zs A ZR) as Hnd. rewrite HA, fmap_app in Hnd. cbn in Hnd. apply NoDup_app in Hnd as (_ & H1 & H2).
    apply NoDup_cons in H2 as [H2 _]. apply elem_of_app in Hb as [Hb|Hb].
    + apply (H1 (zn_ele a)); [by apply list_elem_of_fmap_2|by left].
    + apply H2. by apply list_elem_of_fmap_2.
  - intros [Hb Hne]. rewrite HA in Hb. apply elem_of_app. apply elem_of_app in Hb as [Hb|[->|Hb]%elem_of_cons]; [by left|done|by right].
Qed.

Lemma ptrs_removed zsl' : header zsl' = header (zs_zsl zs) -> ptrs zsl' B = ptrs (zs_zsl zs) A ∖ {[zn_ptr a]}.
Proof.
  intros Hh. apply set_eq. intros y. rewrite elem_of_difference, elem_of_singleton, !elem_of_ptrs, Hh. setoid_rewrite elem_of_removed.
  pose proof (zr_rep _ _ _ ZR) as R. pose proof (list_elem_of_lookup_2 _ _ _ Ha) as Hin. split.
  - intros [->|(b & [Hb Hne] & ->)].
    + split; [by left|]. intros He. by apply (ptr_not_header _ _ _ a R Hin).
    + split; [eauto|]. intros He. apply Hne. apply list_elem_of_lookup in Hb as (j & Hj).
      pose proof (ptr_inj _ _ _ _ _ _ _ R Hj Ha He) as ->. congruence.
  - intros [[->|(b & Hb & ->)] Hne]; [by left|]. right. exists b. split; [|done]. split; [done|]. intros He.
    by pose proof (zr_unique h zs A ZR b a Hb Hin He) as ->.
Qed.
End removed.

(** ** Additions *)

Lemma zset_insert h zs A s e rnd lv rnd' :
  zrep h zs A -> isnan s = false -> members A !! e = None -> zlen A + 1 < 2 ^ 63 -> zslRandomLevel rnd = Some (lv, rnd') ->
  exists x h' zsl' d' A', zslInsert zmalloc junk h (zs_zsl zs) s e rnd = Some (x, h', zsl', rnd')
    /\ dictAdd type mode indet (zs_dict zs) e x = Some (DICT_OK, d')
    /\ zrep h' (mkZset d' zsl') A' /\ members A' = <[e := s]> (members A).
Proof.
  intros ZR Hs Hno Hsm Hr. pose proof (zr_rep _ _ _ ZR) as R.
  assert (Hnew : forall a, a ∈ A -> zn_ele a <> e).
  { intros a Ha He. assert (members A !! e = Some (zn_score a)) by (apply (zr_members h zs A ZR); eauto). congruence. }
  destruct (zslInsert_spec zmalloc junk Hmalloc h (zs_zsl zs) A s e rnd lv rnd' R Hs) as (x & h' & zsl' & Hi & Hx & R' & Hd & Hh);
    [intros a Ha [_ He]; by apply (Hnew a Ha)|done..|].
  destruct (add_spec type key_id mode indet (zs_dict zs) e x (zr_wf _ _ _ ZR)) as (st & d' & Ha & W' & (_ & _ & Hp) & Hm).
  { left. rewrite (zr_pause _ _ _ ZR). lia. }
  { unfold has_room. rewrite (zr_dict_size h zs A ZR). lia. }
  rewrite (proj1 (zr_members_None h zs A ZR e) Hno) in Hm. destruct Hm as [-> Hm].
  set (A' := take (place A (s, e)) A ++ mkZn x e s lv :: drop (place A (s, e)) A) in *.
  assert (Z' : zrep h' (mkZset d' zsl') A').
  { split; cbn; [done|done|by rewrite Hp; apply ZR| |].
    - intros e' v. rewrite Hm. destruct (decide (e' = e)) as [->|Hne].
      + rewrite lookup_insert_eq. unfold A'. split.
        * intros [= <-]. exists (mkZn x e s lv). rewrite elem_of_put. auto.
        * intros (a & [->|Ha']%elem_of_put & He & ->); [done|]. by destruct (Hnew a Ha').
      + rewrite lookup_insert_ne, (zr_dict _ _ _ ZR) by done. unfold A'. split.
        * intros (a & Ha' & He & ->). exists a. rewrite elem_of_put. auto.
        * intros (a & [->|Ha']%elem_of_put & He & ->); [done|eauto].
    - rewrite Hd, (zr_dom _ _ _ ZR). symmetry. by apply ptrs_put. }
  exists x, h', zsl', d', A'. split_and!; try done. apply members_unique; [by eapply zr_nodup|].
  intros e' s'. unfold A'. setoid_rewrite elem_of_put. destruct (decide (e' = e)) as [->|Hne].
  - rewrite lookup_insert_eq. split; [intros [= <-]; exists (mkZn x e s lv); auto|].
    intros (a & [->|Ha'] & He & <-); [done|]. by destruct (Hnew a Ha').
  - rewrite lookup_insert_ne, (zr_members h zs A ZR) by done. split; [intros (a & ? & ? & ?); eauto|].
    intros (a & [->|Ha'] & He & <-); [done|eauto].
Qed.

Lemma zset_update h zs A a e new rnd lv rnd' (de : link) l1 b1 b2 l2 :
  zrep h zs A -> isnan new = false -> a ∈ A -> zn_ele a = e -> zslRandomLevel rnd = Some (lv, rnd') ->
  at_link (zs_dict zs) de (e, zn_ptr a) l1 b1 b2 l2 ->
  exists x h' zsl' r d' A', zslUpdateScore zmalloc junk h (zs_zsl zs) (zn_score a) e new rnd = Some (x, h', zsl', r)
    /\ (r = rnd \/ r = rnd') /\ dictSetVal (zs_dict zs) de x = Some d'
    /\ zrep h' (mkZset d' zsl') A' /\ members A' = <[e := new]> (members A).
Proof.
  intros ZR Hn Ha He Hr Hat. pose proof (zr_rep _ _ _ ZR) as R. pose proof (rep_num _ _ _ R a Ha) as Hna.
  pose proof (zr_place h zs A ZR a Ha) as Hp. unfold zn_key in Hp. rewrite He in Hp.
  set (K := place A (zn_score a, e)) in *. set (B := take K A ++ drop (S K) A).
  assert (HB : forall b, b ∈ B <-> b ∈ A /\ zn_ele b <> e) by (intros b; rewrite <-He; by apply (elem_of_removed h zs A ZR K a)).
  destruct (zslUpdateScore_spec zmalloc junk Hmalloc h (zs_zsl zs) A (zn_score a) e new rnd lv rnd' a R Hna Hn Hr Hp)
    as (nd & h' & zsl' & r & Hup & Hrr & Hk & R' & Hh & Hd).
  { split; [by apply deq_key|done]. }
  { intros b [_ Hb]%HB [_ Hbe]. done. }
  fold K in R'. fold B in R'. injection Hk as Hks Hke.
  destruct (update_spec type key_id (zs_dict zs) de (e, zn_ptr a) l1 b1 b2 l2 (fun '(k, _) => (k, zn_ptr nd)) (zr_wf _ _ _ ZR) Hat)
    as (d' & Hset & W' & _ & (_ & _ & Hpa) & Hm); [done|]. cbn in Hm.
  set (A' := take (place B (new, e)) B ++ nd :: drop (place B (new, e)) B) in *.
  assert (HA' : forall b, b ∈ A' <-> b = nd \/ b ∈ A /\ zn_ele b <> e) by (intros b; unfold A'; by rewrite elem_of_put, HB).
  assert (Z' : zrep h' (mkZset d' zsl') A').
  { split; cbn; [done|done|by rewrite Hpa; apply ZR| |].
    - intros e' v. rewrite Hm. setoid_rewrite HA'. destruct (decide (e' = e)) as [->|Hne].
      + rewrite lookup_insert_eq. split; [intros [= <-]; exists nd; auto|]. by intros (b & [->|[_ Hb]] & Hbe & ->).
      + rewrite lookup_insert_ne, (zr_dict _ _ _ ZR) by done. split.
        * intros (b & Hb & Hbe & ->). exists b. split; [|done]. right. split; [done|congruence].
        * intros (b & [->|[Hb _]] & Hbe & ->); [congruence|eauto].
    - change (dom h' = ptrs zsl' A'). unfold A'. rewrite (ptrs_put zsl' zsl') by done.
      unfold B. rewrite (ptrs_removed h zs A ZR K a Hp zsl' Hh). unfold ptrs. by rewrite <-(zr_dom _ _ _ ZR). }
  exists (zn_ptr nd), h', zsl', r, d', A'. split_and!; try done. apply members_unique; [by eapply zr_nodup|].
  intros e' s'. setoid_rewrite HA'. destruct (decide (e' = e)) as [->|Hne].
  - rewrite lookup_insert_eq. split; [intros [= <-]; exists nd; auto|]. intros (b & [->|[_ Hb]] & Hbe & <-); [by rewrite Hks|done].
  - rewrite lookup_insert_ne, (zr_members h zs A ZR) by done. split.
    + intros (b & Hb & Hbe & <-). exists b. split; [|done]. right. split; [done|congruence].
    + intros (b & [->|[Hb _]] & Hbe & <-); [congruence|eauto].
Qed.

(** What [zset_add] does to the map. *)
Definition zadd_spec (M : gmap sds double) (s : double) (e : sds) (in_flags : Z) : zadd_result * gmap sds double :=
  let flag f := negb ((in_flags &&& f) =? 0) in
  let nop := (mkZadd 1 ZADD_OUT_NOP None, M) in
  if isnan s then (mkZadd 0 ZADD_OUT_NAN None, M)
  else match M !! e with
       | Some cur =>
           let s' := if flag ZADD_IN_INCR then dadd s cur else s in
           if flag ZADD_IN_NX then nop
           else if isnan s' then (mkZadd 0 ZADD_OUT_NAN None, M)
           else if (flag ZADD_IN_LT && (cur <=. s')) || (flag ZADD_IN_GT && (s' <=. cur)) then nop
           else if s' ==. cur then (mkZadd 1 0 (Some s'), M)
           else (mkZadd 1 ZADD_OUT_UPDATED (Some s'), <[e := s']> M)
       | None =>
           if flag ZADD_IN_XX then nop else (mkZadd 1 ZADD_OUT_ADDED (Some s), <[e := s]> M)
       end.

Lemma zset_add_spec h zs A s e in_flags rnd lv rnd' :
  zrep h zs A -> zlen A + 1 < 2 ^ 63 -> zslRandomLevel rnd = Some (lv, rnd') ->
  exists h' zs' r A', zset_add dictSdsHash mode indet zmalloc junk h zs s e in_flags rnd
      = Some ((zadd_spec (members A) s e in_flags).1, h', zs', r)
    /\ (r = rnd \/ r = rnd') /\ zrep h' zs' A' /\ members A' = (zadd_spec (members A) s e in_flags).2.
Proof.
  intros ZR Hsm Hr. unfold zset_add, zadd_spec. destruct (isnan s) eqn:Hs; [exists h, zs, rnd, A; auto|].
  destruct (findLink_spec type key_id mode (zs_dict zs) e (zr_wf _ _ _ ZR)) as (de & bk & d & -> & Hsame & Hsr). sbind.
  pose proof (zr_step h zs A ZR d Hsame) as Z1. cbn [zs_zsl zs_dict]. set (zs1 := mkZset d (zs_zsl zs)) in *.
  pose proof (search_lookup type key_id d e de (zr_wf _ _ _ Z1) Hsr) as Hl. destruct de as [de|].
  - destruct Hl as (v & Hg & Hv). rewrite Hg. sbind. apply (zr_dict _ _ _ Z1) in Hv as (a & Ha & Hae & ->).
    assert (Hm : members A !! e = Some (zn_score a)) by (apply (zr_members h zs A ZR); eauto). rewrite Hm. sbind.
    unfold zadd_update. destruct (negb ((in_flags &&& ZADD_IN_NX) =? 0)); [exists h, zs1, rnd, A; auto|].
    rewrite (zr_score h zs1 A Z1 a Ha). sbind. cbv zeta.
    set (s' := if negb ((in_flags &&& ZADD_IN_INCR) =? 0) then dadd s (zn_score a) else s).
    assert (Hnan : negb ((in_flags &&& ZADD_IN_INCR) =? 0) && isnan s' = isnan s').
    { unfold s'. destruct (negb _); [done|]. by rewrite Hs. }
    rewrite Hnan. destruct (isnan s') eqn:Hs'; [exists h, zs1, rnd, A; auto|].
    destruct (_ || _); [exists h, zs1, rnd, A; auto|]. destruct (s' ==. zn_score a); cbn [negb]; [exists h, zs1, rnd, A; auto|].
    destruct Hsr as (v & l1 & b1 & b2 & l2 & Hat & Hvk).
    assert (v = (e, zn_ptr a)) as ->.
    { destruct Hat as [Hsp Hpos]. unfold link_get in Hg. rewrite (get_split _ _ _ _ _ Hsp) in Hg. cbn in Hg.
      rewrite <-Hpos, list_lookup_middle in Hg by done. congruence. }
    destruct (zset_update h zs1 A a e s' rnd lv rnd' de l1 b1 b2 l2 Z1 Hs' Ha Hae Hr Hat)
      as (x & h' & zsl' & r & d' & A' & Hu & Hrr & Hset & Z' & HM).
    cbn [zs_zsl zs_dict zs1] in Hu, Hset |- *. rewrite Hu. sbind. rewrite Hset. sbind. exists h', (mkZset d' zsl'), r, A'. auto.
  - assert (Hno : members A !! e = None) by (apply (zr_members_None h zs1 A Z1); done). rewrite Hno.
    destruct (negb ((in_flags &&& ZADD_IN_XX) =? 0)); cbn [negb]; [exists h, zs1, rnd, A; auto|].
    destruct (zset_insert h zs1 A s e rnd lv rnd' Z1 Hs Hno Hsm Hr) as (x & h' & zsl' & d' & A' & Hi & Hadd & Z' & HM).
    cbn [zs_zsl zs_dict zs1] in Hi, Hadd. rewrite Hi. sbind. rewrite Hadd. sbind.
    rewrite bool_decide_true by done. exists h', (mkZset d' zsl'), rnd', A'. auto.
Qed.

(** ** Deletion *)

Lemma zset_del_spec h zs A e :
  zrep h zs A ->
  exists h' zs' A', zsetRemoveFromSkiplist dictSdsHash mode h zs e = Some (bool_decide (is_Some (members A !! e)), h', zs')
    /\ zrep h' zs' A' /\ members A' = delete e (members A).
Proof.
  intros ZR. unfold zsetRemoveFromSkiplist, dictUnlink. pose proof (zr_rep _ _ _ ZR) as R.
  destruct (genericDelete_spec type key_id mode (zs_dict zs) e true (zr_wf _ _ _ ZR)) as (he & d & -> & (W' & -> & Hm & _ & _ & Hp)). sbind.
  destruct (dmap (zs_dict zs) !! e) as [v|] eqn:Hv.
  - apply (zr_dict _ _ _ ZR) in Hv as (a & Ha & Hae & ->). rewrite (zr_score h zs A ZR a Ha). sbind.
    pose proof (rep_num _ _ _ R a Ha) as Hna. pose proof (zr_place h zs A ZR a Ha) as Hpl. unfold zn_key in Hpl. rewrite Hae in Hpl.
    assert (HmA : members A !! e = Some (zn_score a)) by (apply (zr_members h zs A ZR); eauto).
    pose proof (zslDelete_spec h (zs_zsl zs) A R (zn_score a) e false Hna) as Hdel. cbv zeta in Hdel. rewrite Hpl in Hdel.
    rewrite (proj2 (keqb_spec (zn_key a) (zn_score a, e))) in Hdel by (split; [by apply deq_key|done]).
    destruct Hdel as (h' & zsl' & -> & R' & Hh & Hd). sbind. set (K := place A (zn_score a, e)) in *.
    destruct (free_spec type key_id d (e, zn_ptr a) W') as (W'' & Hm' & _).
    eexists h', _, (take K A ++ drop (S K) A). split; [by rewrite HmA, bool_decide_true by eauto|].
    assert (HB : forall b, b ∈ take K A ++ drop (S K) A <-> b ∈ A /\ zn_ele b <> e).
    { intros b. rewrite <-Hae. by apply (elem_of_removed h zs A ZR K a). }
    assert (Z' : zrep h' (mkZset (dictFreeUnlinkedEntry d (Some (e, zn_ptr a))) zsl') (take K A ++ drop (S K) A)).
    { split; cbn [zs_zsl zs_dict]; [done|done|cbn; rewrite Hp; apply ZR| |].
      - intros e' v. rewrite Hm', Hm. setoid_rewrite HB. destruct (decide (e' = e)) as [->|Hne].
        + rewrite lookup_delete_eq. split; [done|]. by intros (b & [_ Hb] & ? & _).
        + rewrite lookup_delete_ne, (zr_dict _ _ _ ZR) by done. split; intros (b & Hb & Hbe & ->); [|destruct Hb as [Hb _]; by exists b].
          exists b. split; [|done]. split; [done|congruence].
      - change (dom h' = ptrs zsl' (take K A ++ drop (S K) A)). rewrite (ptrs_removed h zs A ZR K a Hpl zsl' Hh).
        unfold ptrs. by rewrite <-(zr_dom _ _ _ ZR). }
    split; [done|]. apply members_unique; [by eapply zr_nodup|]. intros e' s'. setoid_rewrite HB.
    destruct (decide (e' = e)) as [->|Hne].
    + rewrite lookup_delete_eq. split; [done|]. by intros (b & [_ Hb] & ? & _).
    + rewrite lookup_delete_ne, (zr_members h zs A ZR) by done. split; intros (b & Hb & Hbe & <-); [|destruct Hb as [Hb _]; by exists b].
      exists b. split; [|done]. split; [done|congruence].
  - pose proof (proj2 (zr_members_None h zs A ZR e) Hv) as Hno. rewrite Hno, delete_id by done.
    exists h, (mkZset d (zs_zsl zs)), A. split; [by rewrite bool_decide_false by (by intros [? ?])|]. split; [|done].
    split; cbn; [done|done|by rewrite Hp; apply ZR| |apply ZR]. intros e' v. rewrite Hm, delete_id by done. apply ZR.
Qed.

(** ** Deletion of ranges *)

Lemma pauseAuto_wf d n : dwf d -> dwf (with_pauseAutoResize d n).
Proof. intros []. by constructor. Qed.

Lemma without_lookup M l e : without M l !! e = if decide (e ∈ zn_ele <$> l) then None else M !! e.
Proof.
  revert M. induction l as [|a l IH]; intros M; [done|]. cbn [without foldl fmap list_fmap].
  fold (without (delete (zn_ele a) M) l). rewrite IH. destruct (decide (e = zn_ele a)) as [->|Hne].
  - rewrite lookup_delete_eq, (decide_True (P := zn_ele a ∈ zn_ele a :: _)) by (by left). by case_decide.
  - rewrite lookup_delete_ne by done. apply decide_ext. rewrite elem_of_cons. naive_solver.
Qed.

(** Deletion of the elements for which [inb] holds: [kept] and [gone] are the
    two parts of the sequence. *)
Section parts.
Context (h : heap) (zs : zset) (A : list znode) (ZR : zrep h zs A) (inb : sds * double -> bool) (kept gone : list znode).
Context (Hkept : forall b, b ∈ kept <-> b ∈ A /\ inb (zn_ele b, zn_score b) = false).
Context (Hgone : forall b, b ∈ gone <-> b ∈ A /\ inb (zn_ele b, zn_score b) = true).
Context (Hlen : zlen kept + zlen gone = zlen A).
Local Abbreviation M' := (filter (fun p => inb p = false) (members A)).

Lemma gone_ele b : b ∈ A -> (zn_ele b ∈ zn_ele <$> gone <-> b ∈ gone).
Proof.
  intros Hb. rewrite list_elem_of_fmap. split; [|eauto]. intros (a & He & Ha). assert (Hin : a ∈ A) by (by apply Hgone in Ha as [? _]).
  by rewrite (zr_unique h zs A ZR b a Hb Hin He).
Qed.

Lemma parts_dom zsl' : header zsl' = header (zs_zsl zs) -> ptrs zsl' kept = dom h ∖ list_to_set (zn_ptr <$> gone).
Proof.
  intros Hh. pose proof (zr_rep _ _ _ ZR) as R. rewrite (zr_dom _ _ _ ZR). fold (ptrs (zs_zsl zs) A). apply set_eq. intros y.
  rewrite elem_of_difference, !elem_of_ptrs, elem_of_list_to_set, list_elem_of_fmap, Hh. split.
  - intros [->|(b & [Hb Hin]%Hkept & ->)].
    + split; [by left|]. intros (a & He & [Ha _]%Hgone). by apply (ptr_not_header _ _ _ a R Ha).
    + split; [eauto|]. intros (a & He & [Ha Hia]%Hgone). apply list_elem_of_lookup in Hb as (j & Hj).
      apply list_elem_of_lookup in Ha as (j' & Hj'). pose proof (ptr_inj _ _ _ _ _ _ _ R Hj Hj' He) as ->. congruence.
  - intros [[->|(b & Hb & ->)] Hno]; [by left|]. right. exists b. split; [|done]. apply Hkept. split; [done|].
    destruct (inb (zn_ele b, zn_score b)) eqn:E; [|done]. destruct Hno. exists b. split; [done|]. by apply Hgone.
Qed.

Lemma parts_zrep h' zsl' d' :
  rep h' zsl' kept -> dwf d' -> dmap d' = without (dmap (zs_dict zs)) gone -> pauseAutoResize d' = 0 ->
  header zsl' = header (zs_zsl zs) -> dom h' = dom h ∖ list_to_set (zn_ptr <$> gone) -> zrep h' (mkZset d' zsl') kept.
Proof.
  intros R' W' Hm Hp Hh Hd. split; cbn; [done|done|done| |by rewrite Hd, <-(parts_dom zsl' Hh)].
  intros e v. rewrite Hm, without_lookup. case_decide as Hg.
  - split; [done|]. intros (b & [Hb Hib]%Hkept & <- & ->). apply (gone_ele b Hb), Hgone in Hg as [_ ?]. congruence.
  - rewrite (zr_dict _ _ _ ZR). split; intros (b & Hb & He & ->); exists b; (split; [|done]).
    + apply Hkept. split; [done|]. destruct (inb (zn_ele b, zn_score b)) eqn:E; [|done]. destruct Hg. rewrite <-He. apply gone_ele; [done|]. by apply Hgone.
    + by apply Hkept in Hb as [? _].
Qed.

Lemma zset_remrange_parts range :
  range_deleted type h (zs_zsl zs) (dictPauseAutoResize (zs_dict zs)) kept gone (remrange_paused dictSdsHash mode h zs range) ->
  exists h' zs', zset_remrange_apply dictSdsHash mode h zs range
      = Some (Z.of_nat (size (members A)) - Z.of_nat (size M'), bool_decide (M' = ∅), h', zs')
    /\ zrep h' zs' kept /\ members kept = M'.
Proof.
  intros (h' & zsl' & d' & Hr & R' & W' & Hm & Hh & Hp & Hd). unfold zset_remrange_apply. rewrite Hr. sbind.
  assert (Hp1 : pauseAutoResize (dictPauseAutoResize (zs_dict zs)) = 1) by (cbn; by rewrite (zr_pause _ _ _ ZR)).
  set (d'' := dictResumeAutoResize d').
  assert (Z' : zrep h' (mkZset d'' zsl') kept).
  { apply parts_zrep; [done|by apply pauseAuto_wf|done| |done|done]. cbn. by rewrite Hp, Hp1. }
  pose proof (zr_nodup h zs A ZR) as Hnd. pose proof (zr_nodup h' _ kept Z') as Hnk. pose proof (kept_members A Hnd inb kept Hkept Hnk) as HM.
  pose proof (kept_size A Hnd inb kept Hkept Hnk gone Hlen) as Hsz.
  rewrite Hsz. pose proof (dictSize_map type key_id d'' (zr_wf _ _ _ Z')) as Hds.
  pose proof (zr_dict_size h' _ kept Z') as Hk. cbn [zs_dict] in Hk. rewrite Hk, <-(zr_size h' _ kept Z'), HM in Hds. rewrite Hds.
  destruct (Z.eqb_spec (Z.of_nat (size M')) 0) as [He|He].
  - exists h', (mkZset d'' zsl'). split; [|done]. rewrite bool_decide_true; [done|]. apply map_size_empty_iff. lia.
  - destruct (shrinkIfNeeded_same type key_id mode d'' (zr_wf _ _ _ Z')) as (st & d3 & -> & Hsame). sbind.
    exists h', (mkZset d3 zsl'). rewrite bool_decide_false by (rewrite <-map_size_empty_iff; lia). split; [done|].
    split; [|done]. apply (zr_step h' _ kept Z' d3 Hsame).
Qed.

End parts.

End zset.
