(* ===== verification/ZsetRefine.v ===== *)
(** * Sorted sets: the whole interface

    Deletions of ranges on the map, and the simulation: any sequence of
    operations on a new sorted set returns what the operations on a map from
    elements to scores return. *)

From Stdlib Require Import SpecFloat.
From stdpp Require Import gmap.
From S2P Require Import Prelude Dict DictSpec DictMap DictRefine.
From S2P Require Import Zskiplist ZskiplistSpec ZskiplistOps ZskiplistApi ZskiplistRange ZskiplistRangeSpec Zset ZsetSpec.

(** ** Ranges of a map *)

(** A score between the bounds; a bound that is excluded is not in the range. *)
Definition in_score (range : zrangespec) (p : sds * double) : bool :=
  (r_min range <=. p.2) && (p.2 <=. r_max range)
  && negb (r_minex range && (r_min range ==. p.2)) && negb (r_maxex range && (p.2 ==. r_max range)).

(** A name after the lower and before the upper bound, or one of them when it is
    included; every name is between the two special bounds. *)
Definition above_bound (b : lexstr) (excluded : bool) (e : sds) : bool :=
  match b with
  | minstring => true
  | maxstring => false
  | Sds m => name_ltb m e || (negb excluded && bool_decide (e = m))
  end.
Definition below_bound (b : lexstr) (excluded : bool) (e : sds) : bool :=
  match b with
  | minstring => false
  | maxstring => true
  | Sds m => name_ltb e m || (negb excluded && bool_decide (e = m))
  end.
Definition in_lex (range : zlexrangespec) (p : sds * double) : bool :=
  above_bound (l_min range) (l_minex range) p.1 && below_bound (l_max range) (l_maxex range) p.1.

(** Ranks from one index to another, each counted from the end when negative. *)
Definition in_ranks (M : gmap sds double) (start stop : Z) (p : sds * double) : bool :=
  let n := Z.of_nat (size M) in
  let r := rank_in M (p.2, p.1) in
  (start <=? index_like n r start) && (index_like n r stop <=? stop).

(** What [zset_remrange] does to the map: the number of elements removed, whether
    none is left, and the rest.  A range of ranks of an empty set is left at once. *)
Definition remove_in (M : gmap sds double) (inb : sds * double -> bool) : Z * bool * gmap sds double :=
  let M' := filter (fun p => inb p = false) M in
  (Z.of_nat (size M) - Z.of_nat (size M'), bool_decide (M' = ∅), M').
Definition zset_remrange_spec (M : gmap sds double) (range : zrange) : Z * bool * gmap sds double :=
  match range with
  | ZRANGE_RANK start stop => if bool_decide (M = ∅) then (0, false, M) else remove_in M (in_ranks M start stop)
  | ZRANGE_SCORE range => remove_in M (in_score range)
  | ZRANGE_LEX range => remove_in M (in_lex range)
  end.

(** The tests of the code are these. *)
Lemma lt_le_neq x y : (x <. y) = (x <=. y) && negb (x ==. y).
Proof. unfold SFltb, SFleb, SFeqb. by destruct (SFcompare x y) as [[]|]. Qed.

Lemma in_score_tests range p : in_score range p = zslValueGteMin p.2 range && zslValueLteMax p.2 range.
Proof.
  unfold in_score, zslValueGteMin, zslValueLteMax. rewrite !lt_le_neq.
  destruct (r_minex range), (r_maxex range), (r_min range <=. p.2), (p.2 <=. r_max range), (r_min range ==. p.2), (p.2 ==. r_max range); done.
Qed.

Lemma above_bound_test e b ex : above_bound b ex e = if ex then sdscmplex (Sds e) b >? 0 else sdscmplex (Sds e) b >=? 0.
Proof.
  destruct b as [| |m]; cbn [above_bound sdscmplex]; [by destruct ex..|]. rewrite name_ltb_sdscmp, Z.gtb_ltb.
  pose proof (sdscmp_swap m e) as Hs. pose proof (sdscmp_zero e m) as Hz.
  replace (sdscmp m e <? 0) with (0 <? sdscmp e m) by (apply eq_true_iff_eq; rewrite !Z.ltb_lt; by symmetry).
  case_bool_decide as E; rewrite <-Hz in E; destruct ex; cbn; zcase; (done || lia).
Qed.

Lemma below_bound_test e b ex : below_bound b ex e = if ex then sdscmplex (Sds e) b <? 0 else sdscmplex (Sds e) b <=? 0.
Proof.
  destruct b as [| |m]; cbn [below_bound sdscmplex]; [by destruct ex..|]. rewrite name_ltb_sdscmp. pose proof (sdscmp_zero e m) as Hz.
  case_bool_decide as E; rewrite <-Hz in E; destruct ex; cbn; zcase; (done || lia).
Qed.

Lemma in_lex_tests range p : in_lex range p = zslLexValueGteMin p.1 range && zslLexValueLteMax p.1 range.
Proof. unfold in_lex. by rewrite above_bound_test, below_bound_test. Qed.

(** The ranks from [start] to [stop], both counted from the start. *)
Definition in_rank (M : gmap sds double) (start stop : Z) (p : sds * double) : bool :=
  (start <=? rank_in M (p.2, p.1)) && (rank_in M (p.2, p.1) <=? stop).

Lemma sanitize_spec n start stop r :
  0 <= r < n ->
  (start <=? index_like n r start) && (index_like n r stop <=? stop)
  = match sanitize n start stop with Some (a, b) => (a <=? r) && (r <=? b) | None => false end.
Proof.
  intros Hr. unfold sanitize, index_like. cbv zeta.
  destruct (Z.ltb_spec start 0), (Z.ltb_spec stop 0); repeat case_match; simplify_eq;
    rewrite ?orb_true_iff, ?orb_false_iff in *; apply eq_true_iff_eq; rewrite ?andb_true_iff; lia.
Qed.

Lemma sanitize_bounds n start stop a b : sanitize n start stop = Some (a, b) -> 0 <= a <= b /\ b < n.
Proof.
  unfold sanitize. cbv zeta. destruct (_ || _) eqn:Hc; [done|]. intros [= <- <-]. rewrite orb_false_iff in Hc. destruct Hc as [Hc1 Hc2].
  revert Hc1 Hc2. zcase; lia.
Qed.

Lemma remove_in_ext M f g : (forall e s, M !! e = Some s -> f (e, s) = g (e, s)) -> remove_in M f = remove_in M g.
Proof.
  intros H. unfold remove_in. assert (filter (fun p => f p = false) M = filter (fun p => g p = false) M) as ->; [|done].
  apply map_filter_ext. intros e s He. by rewrite (H e s He).
Qed.

Lemma remove_in_none M f : M <> ∅ -> (forall e s, M !! e = Some s -> f (e, s) = false) -> remove_in M f = (0, false, M).
Proof.
  intros HM H. unfold remove_in. rewrite map_filter_id by done. by rewrite Z.sub_diag, bool_decide_false.
Qed.

(** The ranges the commands pass: bounds by score that are numbers, and bounds
    by name on sets whose scores are all equal. *)
Definition range_ok (M : gmap sds double) (range : zrange) : Prop :=
  match range with
  | ZRANGE_RANK _ _ => Z.of_nat (size M) < 2 ^ 32
  | ZRANGE_SCORE range => range_num range
  | ZRANGE_LEX _ => forall e1 s1 e2 s2, M !! e1 = Some s1 -> M !! e2 = Some s2 -> s1 ==. s2 = true
  end.

(** ** The interface *)

Inductive zop :=
  | ZAdd (s : double) (e : sds) (in_flags : Z) (rnd : list Z)
  | ZScore (e : sds)
  | ZDel (e : sds)
  | ZRank (e : sds) (reverse : bool)
  | ZCard
  | ZRemRange (range : zrange).

Inductive zres :=
  | RAdd (r : zadd_result)
  | RScore (s : option double)
  | RDel (deleted : bool)
  | RRank (rank : Z) (s : option double)
  | RCard (n : Z)
  | RRem (n : Z) (keyremoved : bool).

(** An operation, under the resizing mode of the dictionaries at its time. *)
Definition zexec (hash : sds -> Z) (indet : ptr) (zmalloc : heap -> ptr) (junk : option ptr * zskiplistLevel)
    (o : dictResizeEnable * zop) (st : heap * zset) : option (zres * (heap * zset)) :=
  let (mode, o) := o in
  let (h, zs) := st in
  match o with
  | ZAdd s e f rnd => '(r, h, zs, _) ← zset_add hash mode indet zmalloc junk h zs s e f rnd; Some (RAdd r, (h, zs))
  | ZScore e => '(r, zs) ← zset_score hash mode h zs e; Some (RScore r, (h, zs))
  | ZDel e => '(r, h, zs) ← zsetRemoveFromSkiplist hash mode h zs e; Some (RDel r, (h, zs))
  | ZRank e rev => '(r, s, zs) ← zset_rank hash mode h zs e rev; Some (RRank r s, (h, zs))
  | ZCard => Some (RCard (zset_length zs), st)
  | ZRemRange range => '(n, b, h, zs) ← zset_remrange hash mode h zs range; Some (RRem n b, (h, zs))
  end.

Fixpoint zrun hash indet zmalloc junk (os : list (dictResizeEnable * zop)) (st : heap * zset) :
    option (list zres * (heap * zset)) :=
  match os with
  | [] => Some ([], st)
  | o :: os =>
      '(r, st) ← zexec hash indet zmalloc junk o st;
      '(rs, st) ← zrun hash indet zmalloc junk os st;
      Some (r :: rs, st)
  end.

(** The same on a map from elements to scores. *)
Definition zspec (o : zop) (M : gmap sds double) : zres * gmap sds double :=
  match o with
  | ZAdd s e f _ => let (r, M) := zadd_spec M s e f in (RAdd r, M)
  | ZScore e => (RScore (M !! e), M)
  | ZDel e => (RDel (bool_decide (is_Some (M !! e))), delete e M)
  | ZRank e rev =>
      (RRank match M !! e with
             | Some s => if (rev : bool) then Z.of_nat (size M) - 1 - rank_in M (s, e) else rank_in M (s, e)
             | None => -1
             end (M !! e), M)
  | ZCard => (RCard (Z.of_nat (size M)), M)
  | ZRemRange range => let '(n, b, M) := zset_remrange_spec M range in (RRem n b, M)
  end.
Fixpoint zspec_run (os : list (dictResizeEnable * zop)) (M : gmap sds double) : list zres * gmap sds double :=
  match os with
  | [] => ([], M)
  | (_, o) :: os => let (r, M) := zspec o M in let (rs, M) := zspec_run os M in (r :: rs, M)
  end.

(** What the callers ensure: the random numbers end a level, the ranges are in
    order for the set at that time. *)
Definition zop_ok (M : gmap sds double) (o : zop) : Prop :=
  match o with
  | ZAdd _ _ _ rnd => is_Some (zslRandomLevel rnd)
  | ZRemRange range => range_ok M range
  | _ => True
  end.
Fixpoint zops_ok (M : gmap sds double) (os : list (dictResizeEnable * zop)) : Prop :=
  match os with
  | [] => True
  | (_, o) :: os => zop_ok M o /\ zops_ok (zspec o M).2 os
  end.

Lemma filter_split {B} (f : B -> bool) (l : list B) :
  zlen (filter (fun x => ~ (f x = true)) l) + zlen (filter (fun x => f x = true) l) = zlen l.
Proof.
  induction l as [|x l IH]; [done|]. rewrite !filter_cons, zlen_cons. repeat case_decide; rewrite ?zlen_cons; (lia || tauto).
Qed.

(** The two parts of a sequence at a range of ranks. *)
Lemma rank_parts A (O : ordered A) (Hnd : NoDup (zn_ele <$> A)) start stop :
  0 <= start <= stop -> stop < zlen A ->
  let kept := take (Z.to_nat start) A ++ drop (Z.to_nat (stop + 1)) A in
  let gone := drop (Z.to_nat start) (take (Z.to_nat (stop + 1)) A) in
  (forall b, b ∈ kept <-> b ∈ A /\ in_rank (members A) start stop (zn_ele b, zn_score b) = false)
  /\ (forall b, b ∈ gone <-> b ∈ A /\ in_rank (members A) start stop (zn_ele b, zn_score b) = true)
  /\ zlen kept + zlen gone = zlen A.
Proof.
  intros Hst Hsp kept gone. unfold zlen in Hsp.
  assert (Hidx : forall j b, A !! j = Some b ->
    (in_rank (members A) start stop (zn_ele b, zn_score b) = true <-> (Z.to_nat start <= j < Z.to_nat (stop + 1))%nat)).
  { intros j b Hj. unfold in_rank. cbn [fst snd]. change (zn_score b, zn_ele b) with (zn_key b). rewrite (index_rank A O Hnd j b Hj).
    rewrite andb_true_iff, !Z.leb_le. lia. }
  split_and!; intros *.
  - unfold kept. rewrite <-not_true_iff_false, elem_of_app. split.
    + intros [(j & Hj)%list_elem_of_lookup|(j & Hj)%list_elem_of_lookup].
      * apply lookup_take_Some in Hj as [Hj Hlt]. split; [by eapply list_elem_of_lookup_2|]. rewrite (Hidx j b Hj). lia.
      * rewrite lookup_drop in Hj. split; [by eapply list_elem_of_lookup_2|]. rewrite (Hidx _ b Hj). lia.
    + intros [(j & Hj)%list_elem_of_lookup Hn]. rewrite (Hidx j b Hj) in Hn.
      destruct (decide (j < Z.to_nat start)%nat); [left|right]; apply list_elem_of_lookup.
      * exists j. by rewrite lookup_take_lt.
      * exists (j - Z.to_nat (stop + 1))%nat. rewrite lookup_drop. rewrite <-Hj. f_equal. lia.
  - split.
    + intros (j & Hj)%list_elem_of_lookup. unfold gone in Hj. rewrite lookup_drop in Hj. apply lookup_take_Some in Hj as [Hj Hlt].
      split; [by eapply list_elem_of_lookup_2|]. rewrite (Hidx _ b Hj). lia.
    + intros [(j & Hj)%list_elem_of_lookup Hn]. rewrite (Hidx j b Hj) in Hn. apply list_elem_of_lookup.
      exists (j - Z.to_nat start)%nat. unfold gone. rewrite lookup_drop, lookup_take_lt by lia. rewrite <-Hj. f_equal. lia.
  - unfold zlen, kept, gone. rewrite length_app, length_take, !length_drop, length_take. lia.
Qed.

(** The deletion by ranks of a sequence in order is that of its sanitized range. *)
Lemma remrange_rank_spec A (O : ordered A) (Hnd : NoDup (zn_ele <$> A)) start stop :
  zset_remrange_spec (members A) (ZRANGE_RANK start stop)
  = match sanitize (zlen A) start stop with
    | None => (0, false, members A)
    | Some (a, b) => remove_in (members A) (in_rank (members A) a b)
    end.
Proof.
  assert (Hsize : Z.of_nat (size (members A)) = zlen A) by (by rewrite members_size).
  assert (Hin : forall e s, members A !! e = Some s -> in_ranks (members A) start stop (e, s)
    = match sanitize (zlen A) start stop with Some (a, b) => in_rank (members A) a b (e, s) | None => false end).
  { intros e s (a & Ha & <- & <-)%members_iff; [|done]. apply list_elem_of_lookup in Ha as [j Hj]. unfold in_ranks, in_rank. cbn [fst snd].
    change (zn_score a, zn_ele a) with (zn_key a). rewrite (index_rank A O Hnd j a Hj), Hsize.
    apply sanitize_spec. apply lookup_lt_Some in Hj. unfold zlen. lia. }
  cbn [zset_remrange_spec]. case_bool_decide as HM.
  - rewrite HM, map_size_empty in Hsize.
    by destruct (sanitize (zlen A) start stop) as [[a b]|] eqn:Hs; [apply sanitize_bounds in Hs; lia|].
  - destruct (sanitize (zlen A) start stop) as [[a b]|]; [by apply remove_in_ext|by apply remove_in_none].
Qed.

Section zset.
Context (dictSdsHash : sds -> Z) (Hhash : forall e, in_unsigned 64 (dictSdsHash e)).
Context (indet : ptr) (zmalloc : heap -> ptr) (junk : option ptr * zskiplistLevel).
Context (Hmalloc : forall h, h !! zmalloc h = None).
Local Abbreviation type := (zsetDictType dictSdsHash).
Local Abbreviation key_id := (fun e : sds => e).
Local Abbreviation zrep := (zrep dictSdsHash).

#[local] Instance zset_keys' : DictKeys type key_id := zset_keys dictSdsHash Hhash.

Section ranges.
Context (mode : dictResizeEnable) (h : heap) (zs : zset) (A : list znode) (ZR : zrep h zs A).

Lemma pause_dwf : wf type key_id (dictPauseAutoResize (zs_dict zs)).
Proof. apply pauseAuto_wf, ZR. Qed.

Lemma remrange_by fg fl gte lte inb range :
  (forall a n, a ∈ A -> ele n = Some (zn_ele a) -> score n = zn_score a -> gte n = Some (fg a)) ->
  (forall a n, a ∈ A -> ele n = Some (zn_ele a) -> score n = zn_score a -> lte n = Some (fl a)) ->
  closed (fun a => negb (fg a)) A -> closed fl A ->
  (forall a, inb (zn_ele a, zn_score a) = fg a && fl a) ->
  remrange_paused dictSdsHash mode h zs range
    = delete_range type mode h (zs_zsl zs) (dictPauseAutoResize (zs_dict zs)) gte lte ->
  let '(n, e, M') := remove_in (members A) inb in
  exists h' zs' A', zset_remrange_apply dictSdsHash mode h zs range = Some (n, e, h', zs') /\ zrep h' zs' A' /\ members A' = M'.
Proof.
  intros Hg Hl Hcg Hcl Hin Hr. cbn.
  pose proof (delete_range_spec' type mode h (zs_zsl zs) A (dictPauseAutoResize (zs_dict zs)) fg fl gte lte
                (zr_rep _ _ _ _ ZR) pause_dwf Hg Hl Hcg Hcl) as Hd. rewrite <-Hr in Hd.
  assert (Hkept : forall b, b ∈ others A fg fl <-> b ∈ A /\ inb (zn_ele b, zn_score b) = false).
  { intros b. unfold others. rewrite list_elem_of_filter, Hin, not_true_iff_false. tauto. }
  assert (Hgone : forall b, b ∈ range_nodes A fg fl <-> b ∈ A /\ inb (zn_ele b, zn_score b) = true).
  { intros b. unfold range_nodes. rewrite list_elem_of_filter, Hin. tauto. }
  assert (Hlen : zlen (others A fg fl) + zlen (range_nodes A fg fl) = zlen A) by apply filter_split.
  destruct (zset_remrange_parts dictSdsHash mode h zs A ZR inb _ _ Hkept Hgone Hlen range Hd) as (h' & zs' & Hz & ZR' & HM).
  by exists h', zs', (others A fg fl).
Qed.

Lemma remrange_by_rank start stop :
  0 <= start <= stop -> stop < zlen A -> zlen A < 2 ^ 32 ->
  let '(n, e, M') := remove_in (members A) (in_rank (members A) start stop) in
  exists h' zs' A', zset_remrange_apply dictSdsHash mode h zs (ZRANGE_RANK start stop) = Some (n, e, h', zs')
    /\ zrep h' zs' A' /\ members A' = M'.
Proof.
  intros Hst Hsp Hlen. cbn. unfold zlen in Hsp, Hlen.
  pose proof (zslDeleteRangeByRank_spec type mode h (zs_zsl zs) A (dictPauseAutoResize (zs_dict zs)) (u32 (start + 1)) (u32 (stop + 1))
                (zr_rep _ _ _ _ ZR) pause_dwf) as Hd.
  rewrite !wrap_small in Hd by lia. specialize (Hd ltac:(lia) ltac:(lia)). cbv zeta in Hd.
  replace (Z.to_nat (start + 1 - 1)) with (Z.to_nat start) in Hd by (f_equal; lia).
  replace (Nat.max (Z.to_nat start) (Z.to_nat (stop + 1))) with (Z.to_nat (stop + 1)) in Hd by lia.
  destruct (rank_parts A (rep_ordered _ _ _ (zr_rep _ _ _ _ ZR)) (zr_nodup dictSdsHash h zs A ZR) start stop) as (Hkept & Hgone & Hl);
    [lia|unfold zlen; lia|].
  destruct (zset_remrange_parts dictSdsHash mode h zs A ZR _ _ _ Hkept Hgone Hl (ZRANGE_RANK start stop)) as (h' & zs' & Hz & ZR' & HM);
    [|by eexists h', zs', _].
  cbn [remrange_paused]. by rewrite !wrap_small by lia.
Qed.

End ranges.

(** Every deletion of a range does to the map what it says. *)
Lemma zset_remrange_correct' mode h zs A range :
  zrep h zs A -> range_ok (members A) range ->
  let '(n, e, M') := zset_remrange_spec (members A) range in
  exists h' zs' A', zset_remrange dictSdsHash mode h zs range = Some (n, e, h', zs') /\ zrep h' zs' A' /\ members A' = M'.
Proof.
  intros ZR Hok. pose proof (zr_rep _ _ _ _ ZR) as R. destruct range as [start stop|range|range].
  - rewrite (remrange_rank_spec A (rep_ordered _ _ _ R) (zr_nodup dictSdsHash h zs A ZR)). cbn [zset_remrange].
    cbn [range_ok] in Hok. rewrite (zr_length dictSdsHash h zs A ZR). rewrite (zr_size dictSdsHash h zs A ZR) in Hok |- *.
    destruct (sanitize (zlen A) start stop) as [[a b]|] eqn:Hs; [|exists h, zs, A; auto].
    apply sanitize_bounds in Hs as [Ha Hb]. by apply remrange_by_rank.
  - apply (remrange_by mode h zs A ZR (gte_of range) (lte_of range) (score_gte range) (score_lte range)); try done.
    + intros a n _ _ Hs. unfold score_gte. by rewrite Hs.
    + intros a n _ _ Hs. unfold score_lte. by rewrite Hs.
    + by apply (closed_gte A (rep_ordered _ _ _ R)).
    + by apply (closed_lte A (rep_ordered _ _ _ R)).
    + intros a. apply in_score_tests.
  - assert (Hsame : forall a b, a ∈ A -> b ∈ A -> zn_score a ==. zn_score b = true).
    { intros a b Ha Hb. apply (Hok (zn_ele a) _ (zn_ele b) _); apply (zr_members dictSdsHash h zs A ZR); eauto. }
    apply (remrange_by mode h zs A ZR (lgte_of range) (llte_of range) (lex_gte range) (lex_lte range)); try done.
    + intros a n _ He _. unfold lex_gte. by rewrite He.
    + intros a n _ He _. unfold lex_lte. by rewrite He.
    + by apply (closed_lgte A (rep_ordered _ _ _ R)).
    + by apply (closed_llte A (rep_ordered _ _ _ R)).
    + intros a. apply in_lex_tests.
Qed.

(** ** Refinement *)

Lemma zcreate_spec h :
  h = ∅ -> exists h' zs, createZsetObject zmalloc junk h = Some (h', zs) /\ zrep h' zs [].
Proof.
  intros ->. unfold createZsetObject. destruct (zslCreate_spec zmalloc junk Hmalloc ∅) as (zsl & h' & -> & R & _ & Hd). sbind.
  eexists _, _. split; [done|]. split; cbn; [done|apply create_wf|done| |].
  - intros e v. split; [by rewrite lookup_empty|]. intros (a & Ha & _). by apply elem_of_nil in Ha.
  - rewrite Hd, dom_empty_L. set_solver.
Qed.

Lemma insert_size_le (M : gmap sds double) e s : (size (<[e := s]> M) <= S (size M))%nat.
Proof. rewrite map_size_insert. destruct (M !! e); cbn; lia. Qed.

Lemma zspec_size o M : (size (zspec o M).2 <= S (size M))%nat.
Proof.
  assert (Hf : forall inb, (size (remove_in M inb).2 <= S (size M))%nat).
  { intros inb. cbn. etransitivity; [apply map_size_filter|lia]. }
  destruct o as [s e f rnd|e|e|e rev| |range]; cbn [zspec snd]; try lia.
  - unfold zadd_spec. repeat case_match; simplify_eq/=; auto using insert_size_le with lia.
  - rewrite map_size_delete. destruct (M !! e); cbn; lia.
  - unfold zset_remrange_spec. destruct range as [a b|range|range].
    + destruct (bool_decide (M = ∅)); [cbn; lia|apply (Hf (in_ranks M a b))].
    + apply (Hf (in_score range)).
    + apply (Hf (in_lex range)).
Qed.

(** One operation does to the sorted set what it does to the map. *)
Lemma zexec_sim mode o h zs A :
  zrep h zs A -> zop_ok (members A) o -> zlen A + 1 < 2 ^ 63 ->
  exists h' zs' A', zexec dictSdsHash indet zmalloc junk (mode, o) (h, zs) = Some ((zspec o (members A)).1, (h', zs'))
    /\ zrep h' zs' A' /\ members A' = (zspec o (members A)).2.
Proof.
  intros ZR Hok Hsm. destruct o as [s e f rnd|e|e|e rev| |range]; cbn [zexec zspec zop_ok] in *.
  - destruct Hok as [[lv rnd'] Hr].
    destruct (zset_add_spec dictSdsHash Hhash mode indet zmalloc junk Hmalloc h zs A s e f rnd lv rnd' ZR Hsm Hr)
      as (h' & zs' & r & A' & -> & _ & ZR' & HM). sbind. exists h', zs', A'. by destruct (zadd_spec _ _ _ _).
  - destruct (zset_score_spec dictSdsHash Hhash mode h zs A e ZR) as (zs' & -> & ZR'). sbind. by exists h, zs', A.
  - destruct (zset_del_spec dictSdsHash Hhash mode h zs A e ZR) as (h' & zs' & A' & -> & ZR' & HM). sbind. by exists h', zs', A'.
  - destruct (zset_rank_spec dictSdsHash Hhash mode h zs A e rev ZR) as (zs' & -> & ZR'). sbind. exists h, zs', A. split; [|done].
    by destruct (members A !! e).
  - exists h, zs, A. by rewrite (zr_length dictSdsHash h zs A ZR).
  - pose proof (zset_remrange_correct' mode h zs A range ZR Hok) as Hz.
    destruct (zset_remrange_spec (members A) range) as [[n b] M']. destruct Hz as (h' & zs' & A' & -> & ZR' & HM). sbind. by exists h', zs', A'.
Qed.

Lemma zrun_sim os h zs A :
  zrep h zs A -> zops_ok (members A) os -> zlen A + zlen os < 2 ^ 63 ->
  exists h' zs' A', zrun dictSdsHash indet zmalloc junk os (h, zs) = Some ((zspec_run os (members A)).1, (h', zs'))
    /\ zrep h' zs' A' /\ members A' = (zspec_run os (members A)).2.
Proof.
  revert h zs A. induction os as [|[mode o] os IH]; intros h zs A ZR Hok Hlen; cbn [zrun zspec_run].
  - by exists h, zs, A.
  - destruct Hok as [Ho Hos]. rewrite zlen_cons in Hlen. pose proof (zlen_nonneg os).
    destruct (zexec_sim mode o h zs A ZR Ho ltac:(lia)) as (h1 & zs1 & A1 & -> & ZR1 & HM1). sbind. rewrite <-HM1 in Hos.
    assert (Hl1 : zlen A1 <= zlen A + 1).
    { rewrite <-(zr_size dictSdsHash h zs A ZR), <-(zr_size dictSdsHash h1 zs1 A1 ZR1), HM1.
      pose proof (zspec_size o (members A)). lia. }
    destruct (IH h1 zs1 A1 ZR1 Hos ltac:(lia)) as (h2 & zs2 & A2 & -> & ZR2 & HM2). sbind. exists h2, zs2, A2.
    destruct (zspec o (members A)) as [r M1]. cbn [fst snd] in *. subst M1. by destruct (zspec_run os (members A1)).
Qed.

End zset.
