(* ===== verification/ZsetThms.v ===== *)
(** * The skiplist and sorted set theorems

    What the operations of the skiplist do to the sequence of its nodes, for
    every state that satisfies the invariant, each with an instance on a sorted
    set that the code itself built. *)

From Stdlib Require Import SpecFloat.
From stdpp Require Import gmap.
From S2P Require Import Prelude Dict DictSpec DictMap DictRefine.
From S2P Require Import Zskiplist ZskiplistSpec ZskiplistOps ZskiplistApi ZskiplistRange ZskiplistRangeSpec Zset ZsetSpec ZsetRefine.

(** ** Reading the nodes back *)

(** The nodes along the first level. *)
Fixpoint nodes_from (h : heap) (fuel : nat) (x : option ptr) : list znode :=
  match fuel, x with
  | S fuel, Some x =>
      match h !! x with
      | Some n =>
          mkZn x (default [] (ele n)) (score n) (length (level n))
          :: nodes_from h fuel (match level n !! 0%nat with Some l => forward l | None => None end)
      | None => []
      end
  | _, _ => []
  end.
Definition nodes_of (h : heap) (zsl : zskiplist) : list znode :=
  nodes_from h (Z.to_nat (zsl_length zsl)) (l ← get_level h (header zsl) 0; forward l).

Lemma nodes_from_spec h zsl A1 A2 :
  rep h zsl (A1 ++ A2) -> nodes_from h (length A2) (zn_ptr <$> head A2) = A2.
Proof.
  revert A1. induction A2 as [|a A2 IH]; intros A1 R; [done|]. cbn [length head fmap option_fmap option_map nodes_from].
  pose proof (rep_node _ _ _ R (length A1) a (list_lookup_middle _ _ _ _ eq_refl)) as Hn. unfold info in Hn.
  destruct (h !! zn_ptr a) as [n|] eqn:Hx; [|done]. cbn in Hn. injection Hn as He Hs Hb Hl.
  assert (Hlk : towers zsl (A1 ++ a :: A2) !! S (length A1) = Some (tower a)).
  { change (towers zsl (A1 ++ a :: A2) !! S (length A1)) with ((tower <$> A1 ++ a :: A2) !! length A1).
    rewrite list_lookup_fmap, list_lookup_middle by done. done. }
  pose proof (rep_level _ _ _ R). pose proof (rep_heights _ _ _ R a ltac:(set_solver)) as Ht.
  destruct (next_of_place h zsl _ R (S (length A1)) _ _ Hlk) as (l & Hl0 & Hf).
  unfold get_level in Hl0. rewrite Hx in Hl0. cbn in Hl0. rewrite Hl0, Hf, He, Hs, Hl. cbn [default].
  replace (A1 ++ a :: A2) with ((A1 ++ [a]) ++ A2) in * by (by rewrite <-app_assoc).
  rewrite lookup_app_r by (rewrite length_app; cbn; lia). rewrite length_app. cbn [length].
  replace (S (length A1) - (length A1 + 1))%nat with 0%nat by lia. rewrite <-head_lookup. rewrite (IH _ R). by destruct a.
Qed.

Lemma nodes_of_spec h zsl A : rep h zsl A -> nodes_of h zsl = A.
Proof.
  intros R. unfold nodes_of. rewrite (rep_length _ _ _ R). unfold zlen. rewrite Nat2Z.id.
  destruct (next_of_place h zsl A R 0 (header zsl) ZSKIPLIST_MAXLEVEL eq_refl) as (l & -> & Hl). cbn. rewrite Hl, <-head_lookup.
  by apply (nodes_from_spec h zsl []).
Qed.

(** ** A sorted set built by the code *)

Definition sample_malloc (h : heap) : ptr := fresh (dom h).
Definition sample_junk : option ptr * zskiplistLevel := (Some 77%positive, mkLevel (Some 99%positive) 12345).
Definition sample_hash (e : sds) : Z := u64 (foldl Z.add 0 e).
Definition num (n : Z) : double := binary_normalize 53 1024 n 0 false.

Lemma sample_malloc_fresh h : h !! sample_malloc h = None.
Proof. apply not_elem_of_dom. unfold sample_malloc. apply is_fresh. Qed.
Lemma sample_hash_range e : in_unsigned 64 (sample_hash e).
Proof. apply wrap_range. lia. Qed.

(** Levels of one to three, two members of the same score, an update that moves
    a node and one that does not, and a deletion. *)
Definition low : list Z := [2 ^ 30].
Definition high : list Z := [0; 1; 2 ^ 30].
Definition sample_ops : list (dictResizeEnable * zop) :=
  (fun o => (DICT_RESIZE_ENABLE, o)) <$>
  [ZAdd (num 3) [99] 0 high; ZAdd (num 1) [97] 0 low; ZAdd (num 3) [98] 0 low; ZAdd (num 7) [100] 0 [0; 2 ^ 30];
   ZAdd (num 9) [101] 0 low; ZAdd (num 2) [100] ZADD_IN_INCR low; ZAdd (num 2) [101] 0 high; ZDel [97];
   ZRank [98] false].
Definition sample_create : heap * zset :=
  match createZsetObject sample_malloc sample_junk ∅ with
  | Some st => st
  | None => (∅, mkZset dictCreate (mkZsl 1 None 0 1))
  end.
Definition built (os : list (dictResizeEnable * zop)) : heap * zset :=
  match zrun sample_hash 1%positive sample_malloc sample_junk os sample_create with
  | Some (_, st) => st
  | None => sample_create
  end.

(** Fourteen members of the same score, in three passes over the names. *)
Definition lex_ops : list (dictResizeEnable * zop) :=
  (fun c => (DICT_RESIZE_ENABLE, ZAdd (num 0) [c] 0 (if c mod 4 =? 1 then high else low))) <$>
  [97; 100; 103; 106; 109; 98; 101; 104; 107; 110; 99; 102; 105; 108].

Abbreviation sh := ((built sample_ops).1).
Abbreviation szs := ((built sample_ops).2).
Abbreviation szsl := (zs_zsl (built sample_ops).2).
Abbreviation lh := ((built lex_ops).1).
Abbreviation lzsl := (zs_zsl (built lex_ops).2).
Definition sample_nodes : list znode := Eval vm_compute in nodes_of sh szsl.
Definition lex_nodes : list znode := Eval vm_compute in nodes_of lh lzsl.

Lemma built_zrep os A :
  zops_ok ∅ os -> zlen os < 2 ^ 63 -> nodes_of (built os).1 (zs_zsl (built os).2) = A ->
  zrep sample_hash (built os).1 (built os).2 A.
Proof.
  intros Hok Hlen HA.
  destruct (zcreate_spec sample_hash sample_malloc sample_junk sample_malloc_fresh ∅ eq_refl) as (h0 & zs0 & Hc & ZR0).
  destruct (zrun_sim sample_hash sample_hash_range 1%positive sample_malloc sample_junk sample_malloc_fresh
              os h0 zs0 [] ZR0 Hok ltac:(rewrite zlen_nil; lia)) as (h & zs & A' & Hr & ZR & _).
  assert (Hs : built os = (h, zs)) by (unfold built, sample_create; by rewrite Hc, Hr).
  rewrite Hs in HA |- *. cbn [fst snd] in HA |- *. rewrite (nodes_of_spec h (zs_zsl zs) A' (zr_rep _ _ _ _ ZR)) in HA. by subst A'.
Qed.

Lemma sample_zops_ok : zops_ok ∅ sample_ops.
Proof. repeat split; by eexists. Qed.
Lemma sample_zrep : zrep sample_hash sh szs sample_nodes.
Proof. apply built_zrep; [apply sample_zops_ok|vm_compute; done|vm_compute; reflexivity]. Qed.
Lemma sample_zsl_rep : rep sh szsl sample_nodes.
Proof. apply sample_zrep. Qed.
Lemma lex_rep : rep lh lzsl lex_nodes.
Proof. apply (built_zrep lex_ops); [repeat split; by eexists|vm_compute; done|vm_compute; reflexivity]. Qed.
Lemma lex_same a b : a ∈ lex_nodes -> b ∈ lex_nodes -> zn_score a ==. zn_score b = true.
Proof.
  assert (H : Forall (fun a => zn_score a = num 0) lex_nodes) by (repeat constructor).
  rewrite Forall_forall in H. intros Ha Hb. by rewrite (H a Ha), (H b Hb).
Qed.

(** ** Theorems *)

Section theorems.
Context (dictSdsHash : sds -> Z) (Hhash : forall e, in_unsigned 64 (dictSdsHash e)).
Context (indet : ptr) (zmalloc : heap -> ptr) (junk : option ptr * zskiplistLevel).
Context (Hmalloc : forall h, h !! zmalloc h = None).

(** C2: Any sequence of additions with any flags, score and rank lookups,
    deletions and deletions of ranges by rank, score or name on a new sorted set
    returns what these operations return on a map from elements to scores, where
    the rank of an element is the number of those before it by score and then by
    bytes; the skiplist, its spans and back links, and the dictionary agree with
    the map at the end, and the heap has the nodes of the elements and the
    header only.  Nothing depends on the random levels, on the addresses the
    allocator gives or on what fresh memory holds.  The conditions of [zops_ok] hold
    at each operation: the random numbers end a level, bounds by score are numbers,
    a range by ranks is of a set of fewer than 2^32 elements and a range by names of
    a set whose scores are all equal. *)
Theorem zset_refines_map (os : list (dictResizeEnable * zop)) :
  zops_ok ∅ os -> zlen os < 2 ^ 63 ->
  exists st h zs A, createZsetObject zmalloc junk ∅ = Some st
    /\ zrun dictSdsHash indet zmalloc junk os st = Some ((zspec_run os ∅).1, (h, zs))
    /\ zrep dictSdsHash h zs A /\ members A = (zspec_run os ∅).2.
Proof.
  intros Hok Hlen. destruct (zcreate_spec dictSdsHash zmalloc junk Hmalloc ∅ eq_refl) as (h0 & zs0 & Hc & ZR0).
  destruct (zrun_sim dictSdsHash Hhash indet zmalloc junk Hmalloc os h0 zs0 [] ZR0 Hok ltac:(rewrite zlen_nil; lia)) as (h & zs & A & Hr & ZR & HM).
  exists (h0, zs0), h, zs, A. done.
Qed.

(** A sorted set that any sequence of operations has built is released
    whole: every node is freed once, none is read after it was freed, and
    nothing is left in the heap. *)
Theorem zset_release (os : list (dictResizeEnable * zop)) :
  zops_ok ∅ os -> zlen os < 2 ^ 63 ->
  exists st rs h zs cs, createZsetObject zmalloc junk ∅ = Some st
    /\ zrun dictSdsHash indet zmalloc junk os st = Some (rs, (h, zs))
    /\ freeZsetObject h zs = Some (cs, ∅).
Proof.
  intros Hok Hlen. destruct (zcreate_spec dictSdsHash zmalloc junk Hmalloc ∅ eq_refl) as (h0 & zs0 & Hc & ZR0).
  destruct (zrun_sim dictSdsHash Hhash indet zmalloc junk Hmalloc os h0 zs0 [] ZR0 Hok ltac:(rewrite zlen_nil; lia))
    as (h & zs & A & Hr & ZR & HM).
  destruct (dictRelease_spec _ _ (zs_dict zs) (zr_wf _ _ _ _ ZR)) as (cs & Hcs & _).
  destruct (zslFree_spec h (zs_zsl zs) A (zr_rep _ _ _ _ ZR)) as (h' & Hf & Hdom).
  exists (h0, zs0), (zspec_run os ∅).1, h, zs, cs. split; [done|]. split; [done|].
  unfold freeZsetObject. rewrite Hcs. sbind. rewrite Hf. sbind. do 2 f_equal. apply dom_empty_inv_L.
  rewrite Hdom, (zr_dom _ _ _ _ ZR). set_solver.
Qed.

(** An insertion puts a node with the element, the score and the random
    level at a fresh address between the nodes before and the nodes after it in
    the order; the links, spans and back links of all the others are those of the
    longer list.  Fresh memory may hold anything. *)
Theorem zslInsert_correct h zsl A s e rnd lv rnd' :
  rep h zsl A -> isnan s = false -> (forall a, a ∈ A -> ~ keq (zn_key a) (s, e)) -> zlen A + 1 < 2 ^ 63 ->
  zslRandomLevel rnd = Some (lv, rnd') ->
  exists x h' zsl' A1 A2, zslInsert zmalloc junk h zsl s e rnd = Some (x, h', zsl', rnd') /\ h !! x = None
    /\ A = A1 ++ A2 /\ rep h' zsl' (A1 ++ mkZn x e s lv :: A2) /\ dom h' = {[x]} ∪ dom h.
Proof.
  intros R Hs Hk Hl Hr. destruct (zslInsert_spec zmalloc junk Hmalloc h zsl A s e rnd lv rnd' R Hs Hk Hl Hr)
    as (x & h' & zsl' & Hi & Hx & R' & Hd & _).
  exists x, h', zsl', (take (place A (s, e)) A), (drop (place A (s, e)) A). by rewrite take_drop.
Qed.

(** A score update leaves one node for the element, with the new score, in
    its place by the new score; the others stay in order, and the heap has no
    node more or less.  It needs no hypothesis on whether the node moves. *)
Theorem zslUpdateScore_correct h zsl A1 a A2 cur e new rnd lv rnd' :
  rep h zsl (A1 ++ a :: A2) -> keq (zn_key a) (cur, e) -> isnan cur = false -> isnan new = false ->
  (forall b, b ∈ A1 ++ A2 -> zn_ele b <> e) -> zslRandomLevel rnd = Some (lv, rnd') ->
  exists nd h' zsl' r B1 B2, zslUpdateScore zmalloc junk h zsl cur e new rnd = Some (zn_ptr nd, h', zsl', r)
    /\ A1 ++ A2 = B1 ++ B2 /\ rep h' zsl' (B1 ++ nd :: B2) /\ zn_ele nd = e /\ zn_score nd = new
    /\ dom h' = {[zn_ptr nd]} ∪ (dom h ∖ {[zn_ptr a]}).
Proof.
  intros R Hk Hcur Hnew Hb Hr. set (A := A1 ++ a :: A2) in *.
  assert (Ha : A !! length A1 = Some a) by by apply list_lookup_middle.
  pose proof (keq_place A (rep_ordered _ _ _ R) (cur, e) (length A1) a Hcur Ha Hk) as HK.
  assert (HB : take (place A (cur, e)) A ++ drop (S (place A (cur, e))) A = A1 ++ A2).
  { rewrite <-HK. unfold A. rewrite take_app_length. by rewrite drop_app_ge, Nat.sub_succ_l, Nat.sub_diag by lia. }
  destruct (zslUpdateScore_spec zmalloc junk Hmalloc h zsl A cur e new rnd lv rnd' a R Hcur Hnew Hr)
    as (nd & h' & zsl' & r & Hu & _ & Hnd & R' & _ & Hd); [by rewrite <-HK|done| |].
  { rewrite HB. intros b Hin [_ He]. by apply (Hb b Hin). }
  rewrite HB in R'. set (K := place (A1 ++ A2) (new, e)) in *.
  exists nd, h', zsl', r, (take K (A1 ++ A2)), (drop K (A1 ++ A2)). rewrite take_drop. by injection Hnd as -> ->.
Qed.

End theorems.

(** A deletion finds the element by its score and its bytes: when the list
    has it, its node is unlinked from every level and freed, or handed to the
    caller, and the others stay; otherwise nothing changes. *)
Theorem zslDelete_correct h zsl A s e keep :
  rep h zsl A -> isnan s = false ->
  ((forall a, a ∈ A -> ~ keq (zn_key a) (s, e)) /\ zslDelete h zsl s e keep = Some (false, None, h, zsl))
  \/ exists A1 a A2 h' zsl', A = A1 ++ a :: A2 /\ keq (zn_key a) (s, e)
       /\ zslDelete h zsl s e keep = Some (true, (if keep then Some (zn_ptr a) else None), h', zsl')
       /\ rep h' zsl' (A1 ++ A2) /\ dom h' = (if keep then dom h else dom h ∖ {[zn_ptr a]}).
Proof.
  intros R Hs. pose proof (zslDelete_spec h zsl A R s e keep Hs) as Hd. cbv zeta in Hd.
  assert (Hno : (forall a, A !! place A (s, e) = Some a -> keqb (zn_key a) (s, e) = false) ->
                forall a, a ∈ A -> ~ keq (zn_key a) (s, e)).
  { intros Hf a (j & Hj)%list_elem_of_lookup Hk. rewrite (keq_place A (rep_ordered _ _ _ R) (s, e) j a Hs Hj Hk) in Hj.
    apply keqb_spec in Hk. by rewrite (Hf a Hj) in Hk. }
  destruct (A !! place A (s, e)) as [a|] eqn:Ha; [|left; split; [by apply Hno|done]].
  destruct (keqb (zn_key a) (s, e)) eqn:Hk; [right|left; split; [apply Hno; congruence|done]].
  destruct Hd as (h' & zsl' & Hd & R' & _ & Hdom). destruct (node_split A _ a Ha) as [HA _].
  exists (take (place A (s, e)) A), a, (drop (S (place A (s, e))) A), h', zsl'. by apply keqb_spec in Hk.
Qed.

(** Ranks and elements are inverse: the rank of the element at index [j] is
    [j + 1], the element of rank [j + 1] is the node at index [j], the elements
    that are not in the list have rank 0, and the ranks past the end no element. *)
Theorem zslRank_roundtrip h zsl A :
  rep h zsl A ->
  (forall j a, A !! j = Some a ->
     zslGetRank h zsl (zn_score a) (zn_ele a) = Some (Z.of_nat j + 1)
     /\ zslGetElementByRank h zsl (Z.of_nat j + 1) = Some (Some (zn_ptr a)))
  /\ (forall s e, isnan s = false -> (forall a, a ∈ A -> ~ keq (zn_key a) (s, e)) -> zslGetRank h zsl s e = Some 0)
  /\ (forall rank, zlen A < rank < 2 ^ 64 -> zslGetElementByRank h zsl rank = Some None).
Proof.
  intros R. split; [|split].
  - intros j a Ha. pose proof (rep_knum h zsl A R j a Ha) as Hn. pose proof (lookup_lt_Some _ _ _ Ha).
    pose proof (rep_small _ _ _ R) as Hsm. unfold zlen in Hsm. split.
    + rewrite (zslGetRank_spec h zsl A R (zn_score a) (zn_ele a) Hn). f_equal. unfold rank_of. change (zn_score a, zn_ele a) with (zn_key a).
      assert (Hk : keq (zn_key a) (zn_key a)) by (split; [by apply deq_key|done]).
      rewrite <-(keq_place A (rep_ordered _ _ _ R) (zn_key a) j a Hn Ha Hk), Ha. apply keqb_spec in Hk. rewrite Hk. lia.
    + rewrite (zslGetElementByRank_spec h zsl A R) by lia. replace (Z.to_nat (Z.of_nat j + 1)) with (S j) by lia.
      change (towers zsl A !! S j) with ((tower <$> A) !! j). by rewrite list_lookup_fmap, Ha.
  - intros s e Hs Hk. rewrite (zslGetRank_spec h zsl A R _ _ Hs). f_equal. unfold rank_of.
    destruct (A !! place A (s, e)) as [a|] eqn:Ha; [|done]. destruct (keqb (zn_key a) (s, e)) eqn:Hb; [|done].
    apply keqb_spec in Hb. by apply list_elem_of_lookup_2, Hk in Ha.
  - intros rank Hr. pose proof (zlen_nonneg A). rewrite (zslGetElementByRank_spec h zsl A R) by lia.
    rewrite lookup_ge_None_2; [done|]. rewrite towers_length. unfold zlen in Hr. lia.
Qed.

(** [zslNthInRange] returns the n-th of the nodes whose score is in the
    range, from the first when [n] is not negative and from the last otherwise,
    and the null pointer when there is no such node, for nodes reached by steps
    and for nodes reached by the jump that [ZSKIPLIST_MAX_SEARCH] decides. *)
Theorem zslNthInRange_correct h zsl A range n :
  rep h zsl A -> range_num range -> - 2 ^ 63 < n < 2 ^ 63 ->
  zslNthInRange h zsl range n
  = Some (zn_ptr <$> nth_of (filter (fun a => zslValueGteMin (zn_score a) range && zslValueLteMax (zn_score a) range = true) A) n).
Proof. intros R Hr Hn. apply (zslNthInRange_spec h zsl A R range Hr n Hn). Qed.

(** The same for ranges by name, on lists whose scores are all equal. *)
Theorem zslNthInLexRange_correct h zsl A range n :
  rep h zsl A -> (forall a b, a ∈ A -> b ∈ A -> zn_score a ==. zn_score b = true) -> - 2 ^ 63 < n < 2 ^ 63 ->
  zslNthInLexRange h zsl range n
  = Some (zn_ptr <$> nth_of (filter (fun a => zslLexValueGteMin (zn_ele a) range && zslLexValueLteMax (zn_ele a) range = true) A) n).
Proof. intros R Hs Hn. apply (zslNthInLexRange_spec h zsl A R range Hs n Hn). Qed.

(** ** Instances *)

Lemma zset_refines_map_witness :
  exists st h zs A, createZsetObject sample_malloc sample_junk ∅ = Some st
    /\ zrun sample_hash 1%positive sample_malloc sample_junk sample_ops st
       = Some ([RAdd (mkZadd 1 4 (Some (num 3))); RAdd (mkZadd 1 4 (Some (num 1))); RAdd (mkZadd 1 4 (Some (num 3)));
                RAdd (mkZadd 1 4 (Some (num 7))); RAdd (mkZadd 1 4 (Some (num 9))); RAdd (mkZadd 1 8 (Some (num 9)));
                RAdd (mkZadd 1 8 (Some (num 2))); RDel true; RRank 1 (Some (num 3))], (h, zs))
    /\ zrep sample_hash h zs A /\ members A = (zspec_run sample_ops ∅).2.
Proof.
  assert (Hr : (zspec_run sample_ops ∅).1
    = [RAdd (mkZadd 1 4 (Some (num 3))); RAdd (mkZadd 1 4 (Some (num 1))); RAdd (mkZadd 1 4 (Some (num 3)));
       RAdd (mkZadd 1 4 (Some (num 7))); RAdd (mkZadd 1 4 (Some (num 9))); RAdd (mkZadd 1 8 (Some (num 9)));
       RAdd (mkZadd 1 8 (Some (num 2))); RDel true; RRank 1 (Some (num 3))]) by (vm_compute; reflexivity).
  rewrite <-Hr. apply (zset_refines_map sample_hash sample_hash_range 1%positive sample_malloc sample_junk sample_malloc_fresh).
  - exact sample_zops_ok.
  - vm_compute. reflexivity.
Defined.

Lemma zset_release_witness :
  exists st rs h zs cs, createZsetObject sample_malloc sample_junk ∅ = Some st
    /\ zrun sample_hash 1%positive sample_malloc sample_junk sample_ops st = Some (rs, (h, zs))
    /\ freeZsetObject h zs = Some (cs, ∅).
Proof.
  apply (zset_release sample_hash sample_hash_range 1%positive sample_malloc sample_junk sample_malloc_fresh).
  - exact sample_zops_ok.
  - vm_compute. reflexivity.
Defined.

Lemma zslInsert_correct_witness :
  exists x h' zsl' A1 A2, zslInsert sample_malloc sample_junk sh szsl (num 5) [120] high = Some (x, h', zsl', [])
    /\ sh !! x = None /\ sample_nodes = A1 ++ A2 /\ rep h' zsl' (A1 ++ mkZn x [120] (num 5) 3 :: A2) /\ dom h' = {[x]} ∪ dom sh.
Proof.
  apply (zslInsert_correct sample_malloc sample_junk sample_malloc_fresh).
  - exact sample_zsl_rep.
  - reflexivity.
  - intros a Ha [_ He]. assert (H : Forall (fun a => zn_ele a <> [120]) sample_nodes) by (repeat constructor; discriminate).
    rewrite Forall_forall in H. by apply (H a Ha).
  - vm_compute. reflexivity.
  - vm_compute. reflexivity.
Defined.

(** The second node moves to the end. *)
Lemma zslUpdateScore_correct_witness :
  exists nd h' zsl' r B1 B2, zslUpdateScore sample_malloc sample_junk sh szsl (num 3) [98] (num 100) low = Some (zn_ptr nd, h', zsl', r)
    /\ take 1 sample_nodes ++ drop 2 sample_nodes = B1 ++ B2 /\ rep h' zsl' (B1 ++ nd :: B2) /\ zn_ele nd = [98]
    /\ zn_score nd = num 100 /\ dom h' = {[zn_ptr nd]} ∪ (dom sh ∖ {[4%positive]}).
Proof.
  apply (zslUpdateScore_correct sample_malloc sample_junk sample_malloc_fresh sh szsl (take 1 sample_nodes)
           (mkZn 4 [98] (num 3) 1) (drop 2 sample_nodes) (num 3) [98] (num 100) low 1 []); try reflexivity.
  - exact sample_zsl_rep.
  - split; reflexivity.
  - apply Forall_forall. repeat constructor; discriminate.
Defined.

Lemma zslDelete_correct_witness :
  exists A1 a A2 h' zsl', sample_nodes = A1 ++ a :: A2 /\ keq (zn_key a) (num 3, [99])
    /\ zslDelete sh szsl (num 3) [99] false = Some (true, None, h', zsl')
    /\ rep h' zsl' (A1 ++ A2) /\ dom h' = dom sh ∖ {[zn_ptr a]}.
Proof.
  destruct (zslDelete_correct sh szsl sample_nodes (num 3) [99] false sample_zsl_rep eq_refl) as [[H _]|H]; [|exact H].
  destruct (H (mkZn 2 [99] (num 3) 3)); [|split; reflexivity].
  apply list_elem_of_lookup. exists 2%nat. reflexivity.
Defined.

Lemma zslRank_roundtrip_witness :
  zslGetRank sh szsl (num 3) [99] = Some 3 /\ zslGetElementByRank sh szsl 3 = Some (Some 2%positive)
  /\ zslGetRank sh szsl (num 3) [120] = Some 0 /\ zslGetElementByRank sh szsl 5 = Some None.
Proof.
  destruct (zslRank_roundtrip sh szsl sample_nodes sample_zsl_rep) as (H1 & H2 & H3).
  destruct (H1 2%nat (mkZn 2 [99] (num 3) 3) eq_refl) as [Ha Hb]. split; [exact Ha|]. split; [exact Hb|]. split.
  - apply H2; [reflexivity|]. intros a Ha' [_ He].
    assert (H : Forall (fun a => zn_ele a <> [120]) sample_nodes) by (repeat constructor; discriminate).
    rewrite Forall_forall in H. by apply (H a Ha').
  - apply H3. split; vm_compute; reflexivity.
Defined.

(** Scores above 2 and up to 9: the last. *)
Lemma zslNthInRange_correct_witness :
  zslNthInRange sh szsl (mkRange (num 2) (num 9) true false) (-1) = Some (Some 7%positive).
Proof.
  rewrite (zslNthInRange_correct sh szsl sample_nodes (mkRange (num 2) (num 9) true false) (-1) sample_zsl_rep);
    [vm_compute; reflexivity|split; reflexivity|lia].
Defined.

(** Names from b on: the eleventh, found by the jump. *)
Lemma zslNthInLexRange_correct_witness :
  zslNthInLexRange lh lzsl (mkLex (Sds [98]) maxstring false true) 10
  = Some (zn_ptr <$> lex_nodes !! 11%nat).
Proof.
  rewrite (zslNthInLexRange_correct lh lzsl lex_nodes (mkLex (Sds [98]) maxstring false true) 10 lex_rep lex_same);
    [vm_compute; reflexivity|lia].
Defined.
