(* ===== verification/Double.v ===== *)
(** * Doubles: conversions, printing, and the values arithmetic yields

    The conversions between doubles and integers of util.c and of C, the printing
    of a double, and the fact that addition and conversion give IEEE doubles: the
    type [spec_float] also has pairs of a mantissa and an exponent that no double
    has.  The printing of the digits of a double (fpconv) is a parameter. *)

From Stdlib Require Import SpecFloat.
From stdpp Require Import gmap.
From S2P Require Import Prelude Util Zskiplist Zset.

(** ** The code *)

(** [(double)v] for a long long, rounded to the nearest. *)
Definition ll2d (v : Z) : double := binary_normalize 53 1024 v 0 false.

(** [(long long)d] for a double in the range of the type. *)
Definition d2ll (d : double) : Z :=
  match d with
  | S754_finite s m e => cond_Zopp s (if 0 <=? e then Zpos m * 2 ^ e else Zpos m / 2 ^ (- e))
  | _ => 0
  end.

Definition double2ll (d : double) : option Z :=
  if (d <. ll2d (Z.quot (- LLONG_MAX) 2)) || (ll2d (Z.quot LLONG_MAX 2) <. d) then None
  else
    let ll := d2ll d in
    if ll2d ll ==. d then Some ll else None.

Definition isinf (x : double) : bool := match x with S754_infinity _ => true | _ => false end.

(** [snprintf(buf, len, s)] for a constant string, [len] the size of [buf]. *)
Definition snprintf (buf : list Z) (s : list Z) : option (Z * list Z) :=
  if zlen buf =? 0 then Some (zlen s, buf)
  else buf ← mwrite buf 0 (take (Z.to_nat (zlen buf - 1)) s ++ [0]); Some (zlen s, buf).

(** The number of bytes and the buffer. *)
Definition d2string (fpconv_dtoa : double -> list Z) (buf : list Z) (value : double) : option (Z * list Z) :=
  if isnan value then snprintf buf (str "nan")
  else if isinf value then
    if value <. S754_zero false then snprintf buf (str "-inf") else snprintf buf (str "inf")
  else if value ==. S754_zero false then
    if SFdiv 53 1024 (ll2d 1) value <. S754_zero false then snprintf buf (str "-0") else snprintf buf (str "0")
  else
    match double2ll value with
    | Some lvalue => '(n, buf) ← ll2string buf 0 (zlen buf) lvalue; Some (n, buf)
    | None =>
        let digits := fpconv_dtoa value in
        buf ← mwrite buf 0 digits;
        buf ← mwrite buf (zlen digits) [0];
        Some (zlen digits, buf)
    end.

(** ** IEEE doubles *)

Definition is_double (x : double) : Prop := valid_binary 53 1024 x = true.

Lemma digits_bounds (m : positive) : 2 ^ (Zpos (digits2_pos m) - 1) <= Zpos m < 2 ^ Zpos (digits2_pos m).
Proof.
  induction m as [m IH|m IH|]; cbn [digits2_pos]; [| |done];
    rewrite Pos2Z.inj_succ, Z.sub_1_r, Z.pred_succ, Z.pow_succ_r by lia;
    replace (Zpos (digits2_pos m)) with (Z.succ (Zpos (digits2_pos m) - 1)) in IH |- * by lia;
    rewrite Z.pow_succ_r in IH |- * by lia; replace (Z.succ (Zpos (digits2_pos m) - 1) - 1) with (Zpos (digits2_pos m) - 1) in IH by lia; lia.
Qed.

Lemma digits_unique (m : positive) (d : Z) : 2 ^ (d - 1) <= Zpos m < 2 ^ d -> 0 < d -> Zpos (digits2_pos m) = d.
Proof.
  intros [H1 H2] Hd. pose proof (digits_bounds m) as [H3 H4].
  assert (Zpos (digits2_pos m) - 1 < d) by (apply (Z.pow_lt_mono_r_iff 2); lia).
  assert (d - 1 < Zpos (digits2_pos m)) by (apply (Z.pow_lt_mono_r_iff 2); lia). lia.
Qed.

Lemma shr_1_spec mrs : 0 <= shr_m mrs -> shr_m (shr_1 mrs) = shr_m mrs / 2.
Proof. destruct mrs as [[|[p|p|]|p] r s]; cbn [shr_1 shr_m]; intros H; [done|div_lia..|lia]. Qed.

Lemma shr_iter_spec p mrs : 0 <= shr_m mrs -> shr_m (SpecFloat.iter_pos shr_1 p mrs) = shr_m mrs / 2 ^ Zpos p.
Proof.
  revert mrs. induction p as [p IH|p IH|]; intros mrs Hm; cbn [SpecFloat.iter_pos].
  - assert (0 <= shr_m (shr_1 mrs)) by (rewrite shr_1_spec by done; div_lia).
    rewrite !IH, shr_1_spec; rewrite ?IH; try done; [|apply Z.div_pos; lia]. rewrite !Z.div_div by lia. f_equal.
    rewrite (Pos2Z.inj_xI p), Z.pow_add_r, Z.pow_mul_r by lia. change (2 ^ 2) with (2 * 2). rewrite Z.pow_mul_l. lia.
  - rewrite !IH; rewrite ?IH; try done; [|apply Z.div_pos; lia]. rewrite Z.div_div by lia. f_equal.
    rewrite (Pos2Z.inj_xO p), Z.pow_mul_r by lia. change (2 ^ 2) with (2 * 2). rewrite Z.pow_mul_l. lia.
  - by apply shr_1_spec.
Qed.

Lemma fexp_eq e : fexp 53 1024 e = Z.max (e - 53) (-1074).
Proof. done. Qed.

(** Shifting to the exponent that the number of digits asks for. *)
Lemma shr_fexp_spec m e l :
  0 <= m -> let k := fexp 53 1024 (Zdigits2 m + e) - e in 0 <= k ->
  exists mrs, shr_fexp 53 1024 m e l = (mrs, e + k) /\ shr_m mrs = m / 2 ^ k.
Proof.
  intros Hm k Hk. unfold shr_fexp. fold k. assert (Hl : shr_m (shr_record_of_loc m l) = m) by (by destruct l as [|[]]).
  clearbody k. destruct k as [|k|k]; [| |lia]; cbn [shr]; eexists.
  - split; [f_equal; lia|]. rewrite Hl. cbn. by rewrite Z.div_1_r.
  - split; [done|]. by rewrite shr_iter_spec, Hl by (by rewrite Hl).
Qed.

Lemma round_even_spec m l : round_nearest_even m l = m \/ round_nearest_even m l = m + 1.
Proof. unfold round_nearest_even. destruct l as [|[]]; auto. destruct (Z.even m); auto. Qed.

Lemma digits_of (m : Z) (d : Z) : 0 < d -> 2 ^ (d - 1) <= m < 2 ^ d -> Zdigits2 m = d.
Proof.
  intros Hd Hm. assert (0 < 2 ^ (d - 1)) by (apply Z.pow_pos_nonneg; lia). destruct m as [|m|m]; [lia| |lia]. cbn.
  by apply digits_unique.
Qed.
Lemma digits_le (m : positive) (d : Z) : 0 <= d -> Zpos m < 2 ^ d -> Zpos (digits2_pos m) <= d.
Proof.
  intros Hd Hm. pose proof (digits_bounds m) as [H _]. assert (Zpos (digits2_pos m) - 1 < d); [|lia].
  apply (Z.pow_lt_mono_r_iff 2); lia.
Qed.

(** A mantissa with at most 53 digits, 53 of them unless the exponent is the
    least one, is canonical; rounding up may leave 2^53. *)
Lemma round_valid sx r e :
  0 <= r <= 2 ^ 53 -> -1074 <= e -> (e = -1074 \/ 2 ^ 52 <= r) ->
  valid_binary 53 1024
    (let '(mrs, e') := shr_fexp 53 1024 r e loc_Exact in
     match shr_m mrs with
     | Z0 => S754_zero sx
     | Zpos m => if e' <=? 1024 - 53 then S754_finite sx m e' else S754_infinity sx
     | _ => S754_nan
     end) = true.
Proof.
  intros Hr He Hn. destruct (decide (r = 2 ^ 53)) as [->|Hne].
  - destruct (shr_fexp_spec (2 ^ 53) e loc_Exact) as (mrs & -> & ->); [lia| |].
    { rewrite (digits_of _ 54), fexp_eq by lia. lia. }
    rewrite (digits_of _ 54), fexp_eq by lia. replace (Z.max (54 + e - 53) (-1074) - e) with 1 by lia. change (2 ^ 53 / 2 ^ 1) with (2 ^ 52).
    change (2 ^ 52) with (Zpos 4503599627370496). destruct (Z.leb_spec (e + 1) (1024 - 53)); [|done]. cbn [valid_binary]. unfold bounded, canonical_mantissa.
    rewrite (digits_unique _ 53), fexp_eq by lia. apply andb_true_iff. lia.
  - destruct r as [|r|r]; [..|lia].
    { destruct (shr_fexp 53 1024 0 e loc_Exact) as [mrs e'] eqn:E. unfold shr_fexp, shr in E.
      destruct (_ - _) as [|p|p] in E; injection E as <- <-; try done. by rewrite shr_iter_spec by done. }
    assert (Hd : fexp 53 1024 (Zpos (digits2_pos r) + e) = e).
    { rewrite fexp_eq. pose proof (digits_le r 53 ltac:(lia) ltac:(lia)).
      destruct Hn as [->|Hn]; [lia|]. rewrite (digits_unique r 53) by lia. lia. }
    destruct (shr_fexp_spec (Zpos r) e loc_Exact) as (mrs & -> & ->); [lia|cbn [Zdigits2]; lia|]. cbn [Zdigits2].
    rewrite Hd, Z.sub_diag, Z.add_0_r. change (2 ^ 0) with 1. rewrite Z.div_1_r. destruct (Z.leb_spec e (1024 - 53)); [|done].
    cbn [valid_binary]. unfold bounded, canonical_mantissa. rewrite Hd. apply andb_true_iff. lia.
Qed.

Lemma binary_round_aux_valid sx m e l :
  0 < m -> e <= fexp 53 1024 (Zdigits2 m + e) -> is_double (binary_round_aux 53 1024 sx m e l).
Proof.
  intros Hm He. unfold is_double, binary_round_aux. set (k := fexp 53 1024 (Zdigits2 m + e) - e).
  destruct (shr_fexp_spec m e l) as (mrs & -> & Hmrs); [lia..|]. fold k in Hmrs |- *.
  assert (Hek : e + k = Z.max (Zdigits2 m + e - 53) (-1074)) by (unfold k; rewrite fexp_eq; lia).
  assert (Hk : 0 <= k) by lia. destruct m as [|m|m]; [lia| |lia]. cbn [Zdigits2] in *.
  pose proof (digits_bounds m) as [Hlo Hhi]. set (d := Zpos (digits2_pos m)) in *.
  assert (Hq : 0 <= shr_m mrs < 2 ^ 53).
  { rewrite Hmrs. split; [apply Z.div_pos; lia|]. apply Z.div_lt_upper_bound; [lia|]. rewrite <-Z.pow_add_r by lia.
    eapply Z.lt_le_trans; [exact Hhi|]. apply Z.pow_le_mono_r; lia. }
  assert (Hn : e + k = -1074 \/ 2 ^ 52 <= shr_m mrs).
  { destruct (decide (e + k = -1074)) as [|Hne]; [by left|right]. rewrite Hmrs. apply Z.div_le_lower_bound; [lia|].
    rewrite <-Z.pow_add_r by lia. eapply Z.le_trans; [|exact Hlo]. apply Z.pow_le_mono_r; lia. }
  destruct (round_even_spec (shr_m mrs) (loc_of_shr_record mrs)) as [->| ->]; apply round_valid; lia.
Qed.

Lemma shl_align_spec mx ex ex' :
  let '(m, e) := shl_align mx ex ex' in
  Zpos m = Zpos mx * 2 ^ Z.max 0 (ex - ex') /\ e = Z.min ex ex'.
Proof.
  unfold shl_align. destruct (ex' - ex) as [|d|d] eqn:E.
  1, 2: rewrite Z.max_l, Z.pow_0_r, Z.mul_1_r by lia; split; [done|lia].
  split; [|lia]. replace (Z.max 0 (ex - ex')) with (Zpos d) by lia.
  rewrite <-(Pos2Z.inj_pow 2 d), <-Pos2Z.inj_mul. f_equal. unfold Pos.pow. clear E.
  induction d as [|d IH] using Pos.peano_ind; cbn [Pos.iter].
  - lia.
  - rewrite !Pos.iter_succ, IH. lia.
Qed.

Lemma digits_shl m n : 0 <= n -> forall p, Zpos p = Zpos m * 2 ^ n -> Zpos (digits2_pos p) = Zpos (digits2_pos m) + n.
Proof.
  intros Hn p Hp. pose proof (digits_bounds m) as [H1 H2]. apply digits_unique; [|lia]. rewrite Hp.
  replace (Zpos (digits2_pos m) + n - 1) with (Zpos (digits2_pos m) - 1 + n) by lia. rewrite !Z.pow_add_r by lia.
  split; [apply Z.mul_le_mono_nonneg_r|apply Z.mul_lt_mono_pos_r]; lia || (apply Z.pow_pos_nonneg; lia) || (apply Z.pow_nonneg; lia).
Qed.

Lemma normalize_valid m e z : is_double (binary_normalize 53 1024 m e z).
Proof.
  assert (H : forall sx m, is_double (binary_round 53 1024 sx m e)); [|destruct m; [done|apply H..]]. clear m. intros sx m. unfold binary_round.
  set (f := fexp 53 1024 (Zpos (digits2_pos m) + e)). pose proof (shl_align_spec m e f) as Ha.
  destruct (shl_align m e f) as [mz ez]. destruct Ha as [Hm ->]. apply binary_round_aux_valid; [lia|]. cbn [Zdigits2].
  rewrite (digits_shl m (Z.max 0 (e - f)) ltac:(lia) mz Hm). replace (Zpos (digits2_pos m) + Z.max 0 (e - f) + Z.min e f) with (Zpos (digits2_pos m) + e) by lia.
  fold f. lia.
Qed.

Lemma ll2d_valid v : is_double (ll2d v).
Proof. apply normalize_valid. Qed.

Lemma dadd_valid x y : is_double x -> is_double y -> is_double (dadd x y).
Proof.
  intros Hx Hy. unfold dadd, SFadd. destruct x as [[]|[]| |sx mx ex], y as [[]|[]| |sy my ey]; try done. apply normalize_valid.
Qed.

(** ** Zeros of either sign *)

(** Integer scores lose the sign of a zero: doubles are compared up to it. *)
Definition dnorm (x : double) : double := match x with S754_zero _ => S754_zero false | _ => x end.

Lemma compare_norm x y : SFcompare (dnorm x) (dnorm y) = SFcompare x y.
Proof. by destruct x, y. Qed.
Lemma dlt_norm x y : (dnorm x <. dnorm y) = (x <. y).
Proof. unfold SFltb. by rewrite compare_norm. Qed.
Lemma dle_norm x y : (dnorm x <=. dnorm y) = (x <=. y).
Proof. unfold SFleb. by rewrite compare_norm. Qed.
Lemma deq_norm x y : (dnorm x ==. dnorm y) = (x ==. y).
Proof. unfold SFeqb. by rewrite compare_norm. Qed.
Lemma isnan_norm x : isnan (dnorm x) = isnan x.
Proof. by destruct x. Qed.
Lemma dadd_norm x y : dnorm (dadd (dnorm x) (dnorm y)) = dnorm (dadd x y).
Proof. by destruct x as [[]|[]| |? ? ?], y as [[]|[]| |? ? ?]. Qed.

Lemma deq_same x y : x ==. y = true -> dnorm x = dnorm y.
Proof.
  unfold SFeqb. destruct x as [[]|[]| |[] m e], y as [[]|[]| |[] m' e']; cbn; try done;
    destruct (Z.compare_spec e e'); try done; subst; change (Pos.compare_cont Eq m m') with (Pos.compare m m');
    destruct (Pos.compare_spec m m'); cbn; (done || congruence).
Qed.

(** ** Integer scores *)

(** What a listpack gives back for a score. *)
Definition stored (s : double) : double := match double2ll s with Some l => ll2d l | None => s end.

Lemma double2ll_eq s l : double2ll s = Some l -> ll2d l ==. s = true.
Proof. unfold double2ll. destruct (_ || _); [done|]. cbv zeta. by destruct (ll2d (d2ll s) ==. s) eqn:E; intros [= <-]. Qed.

Lemma stored_norm s : dnorm (stored s) = dnorm s.
Proof. unfold stored. destruct (double2ll s) as [l|] eqn:E; [|done]. by apply deq_same, double2ll_eq. Qed.

Lemma stored_valid s : is_double s -> is_double (stored s).
Proof. unfold stored. destruct (double2ll s); [intros _; apply ll2d_valid|done]. Qed.

Lemma canonical_bound m e : bounded 53 1024 m e = true -> Zpos m < 2 ^ 53.
Proof.
  unfold bounded, canonical_mantissa. rewrite andb_true_iff, Z.eqb_eq, fexp_eq. intros [H _]. pose proof (digits_bounds m) as [_ Hm].
  eapply Z.lt_le_trans; [exact Hm|]. apply Z.pow_le_mono_r; lia.
Qed.

Lemma double2ll_range s l : is_double s -> double2ll s = Some l -> in_signed 64 l.
Proof.
  intros Hv. unfold double2ll. change (ll2d (Z.quot (- LLONG_MAX) 2)) with (S754_finite true 4503599627370496 10).
  change (ll2d (Z.quot LLONG_MAX 2)) with (S754_finite false 4503599627370496 10).
  destruct (_ || _) eqn:Hb; [done|]. cbv zeta. destruct (_ ==. s); [|done]. intros [= <-].
  destruct s as [|[]| |sx m e]; try done. apply canonical_bound in Hv.
  assert (Hm : (if 0 <=? e then Zpos m * 2 ^ e else Zpos m / 2 ^ (- e)) < 2 ^ 63 /\ 0 <= (if 0 <=? e then Zpos m * 2 ^ e else Zpos m / 2 ^ (- e))).
  { destruct (Z.leb_spec 0 e) as [He|He].
    - assert (He10 : e <= 10).
      { revert Hb. unfold SFltb, SFcompare. rewrite orb_false_iff. intros [H1 H2]. destruct sx.
        - destruct (Z.compare_spec e 10); (lia || done).
        - destruct (Z.compare_spec 10 e); (lia || done). }
      split; [|apply Z.mul_nonneg_nonneg; [lia|apply Z.pow_nonneg; lia]].
      assert (2 ^ e <= 2 ^ 10) by (apply Z.pow_le_mono_r; lia). assert (0 < 2 ^ e) by (apply Z.pow_pos_nonneg; lia). nia.
    - assert (0 < 2 ^ (- e)) by (apply Z.pow_pos_nonneg; lia). split; [|apply Z.div_pos; lia].
      eapply Z.le_lt_trans; [apply Z.div_le_upper_bound with (q := Zpos m); nia|]. lia. }
  unfold in_signed. cbn [d2ll]. destruct sx; cbn [cond_Zopp]; lia.
Qed.
