(* ===== verification/Zzl.v ===== *)
(** * t_zset.c: sorted sets in a listpack

    The encoding of the small sorted sets: one listpack with the elements and
    the scores in turn, in the order of the set.  Pointers are offsets into the
    listpack, [None] the null pointer inside the results.  The parsing of a double
    (fast_float) and the digits of a double (fpconv) are parameters. *)

From Stdlib Require Import SpecFloat.
From stdpp Require Import gmap.
From S2P Require Import Prelude Util Listpack Zskiplist ZskiplistRange Double.

Definition MAX_D2STRING_CHARS : Z := 128.

Section zzl.
Context (fast_float_strtod : list Z -> double) (fpconv_dtoa : double -> list Z).
Context (usable : Z -> Z) (fresh : nat -> Z).

(** A buffer on the stack. *)
Definition stack_buf (n : Z) : list Z := map fresh (seq 0 (Z.to_nat n)).

(** The string is parsed up to the null byte. *)
Definition zzlStrtod (lp : list Z) (vstr vlen : Z) : option double :=
  let vlen := if vlen >? 128 - 1 then 128 - 1 else vlen in
  s ← mread lp vstr vlen; Some (fast_float_strtod (s ++ [0])).

Definition zzlGetScore (lp : list Z) (sptr : Z) : option double :=
  v ← lpGetValue lp sptr;
  match v with
  | inl (vstr, vlen) => zzlStrtod lp vstr vlen
  | inr vlong => Some (ll2d vlong)
  end.

Definition sdsfromlonglong (value : Z) : option sds :=
  '(len, buf) ← ll2string (stack_buf LONG_STR_SIZE) 0 LONG_STR_SIZE value; mread buf 0 len.

Definition lpGetObject (lp : list Z) (sptr : Z) : option sds :=
  v ← lpGetValue lp sptr;
  match v with
  | inl (vstr, vlen) => mread lp vstr vlen
  | inr vlong => sdsfromlonglong vlong
  end.

Definition zzlCompareElements (lp : list Z) (eptr : Z) (cstr : sds) : option Z :=
  v ← lpGetValue lp eptr;
  vstr ← match v with
         | inl (vstr, vlen) => mread lp vstr vlen
         | inr vlong => '(vlen, vbuf) ← ll2string (stack_buf 32) 0 32 vlong; mread vbuf 0 vlen
         end;
  let cmp := memcmp vstr cstr in
  if cmp =? 0 then Some (swrap 32 (zlen vstr - zlen cstr)) else Some cmp.

(** The number of pairs; reading the length may store it in the header. *)
Definition zzlLength (zl : list Z) : option (Z * list Z) := '(n, zl) ← lpLength zl; Some (n / 2, zl).

(** The entries of the next and of the previous pair, both or none. *)
Definition zzlNext (zl : list Z) (sptr : Z) : option (option (Z * Z)) :=
  eptr ← lpNext zl sptr;
  match eptr with
  | Some eptr => sptr ← lpNext zl eptr; sptr ← sptr; Some (Some (eptr, sptr))
  | None => Some None
  end.
Definition zzlPrev (zl : list Z) (eptr : Z) : option (option (Z * Z)) :=
  sptr ← lpPrev zl eptr;
  match sptr with
  | Some sptr => eptr ← lpPrev zl sptr; eptr ← eptr; Some (Some (eptr, sptr))
  | None => Some None
  end.

(** ** Ranges *)

Definition zzlIsInRange (zl : list Z) (range : zrangespec) : option bool :=
  if (r_max range <. r_min range) || ((r_min range ==. r_max range) && (r_minex range || r_maxex range)) then Some false
  else
    p ← lpSeek zl (-1);
    match p with
    | None => Some false
    | Some p =>
        score ← zzlGetScore zl p;
        if negb (zslValueGteMin score range) then Some false
        else
          p ← lpSeek zl 1;
          p ← p;
          score ← zzlGetScore zl p;
          Some (zslValueLteMax score range)
    end.

Definition zzlLexValueGteMin (zl : list Z) (p : Z) (spec : zlexrangespec) : option bool :=
  value ← lpGetObject zl p; Some (zslLexValueGteMin value spec).
Definition zzlLexValueLteMax (zl : list Z) (p : Z) (spec : zlexrangespec) : option bool :=
  value ← lpGetObject zl p; Some (zslLexValueLteMax value spec).

Definition zzlIsInLexRange (zl : list Z) (range : zlexrangespec) : option bool :=
  let cmp := sdscmplex (l_min range) (l_max range) in
  if (cmp >? 0) || ((cmp =? 0) && (l_minex range || l_maxex range)) then Some false
  else
    p ← lpSeek zl (-2);
    match p with
    | None => Some false
    | Some p =>
        b ← zzlLexValueGteMin zl p range;
        if negb b then Some false
        else p ← lpSeek zl 0; p ← p; zzlLexValueLteMax zl p range
    end.

(** The [while (eptr != NULL)] loops. *)
Fixpoint first_in_range_loop (fuel : nat) (zl : list Z) (range : zrangespec) (eptr : option Z) : option (option Z) :=
  match eptr, fuel with
  | None, _ => Some None
  | Some _, O => None
  | Some eptr, S fuel =>
      sptr ← lpNext zl eptr;
      sptr ← sptr;
      score ← zzlGetScore zl sptr;
      if zslValueGteMin score range then Some (if zslValueLteMax score range then Some eptr else None)
      else eptr ← lpNext zl sptr; first_in_range_loop fuel zl range eptr
  end.
Definition zzlFirstInRange (zl : list Z) (range : zrangespec) : option (option Z) :=
  eptr ← lpSeek zl 0;
  b ← zzlIsInRange zl range;
  if negb b then Some None else first_in_range_loop (S (length zl)) zl range eptr.

Fixpoint last_in_range_loop (fuel : nat) (zl : list Z) (range : zrangespec) (eptr : option Z) : option (option Z) :=
  match eptr, fuel with
  | None, _ => Some None
  | Some _, O => None
  | Some eptr, S fuel =>
      sptr ← lpNext zl eptr;
      sptr ← sptr;
      score ← zzlGetScore zl sptr;
      if zslValueLteMax score range then Some (if zslValueGteMin score range then Some eptr else None)
      else
        sptr ← lpPrev zl eptr;
        match sptr with
        | Some sptr => eptr ← lpPrev zl sptr; eptr ← eptr; last_in_range_loop fuel zl range (Some eptr)
        | None => Some None
        end
  end.
Definition zzlLastInRange (zl : list Z) (range : zrangespec) : option (option Z) :=
  eptr ← lpSeek zl (-2);
  b ← zzlIsInRange zl range;
  if negb b then Some None else last_in_range_loop (S (length zl)) zl range eptr.

Fixpoint first_in_lex_loop (fuel : nat) (zl : list Z) (range : zlexrangespec) (eptr : option Z) : option (option Z) :=
  match eptr, fuel with
  | None, _ => Some None
  | Some _, O => None
  | Some eptr, S fuel =>
      b ← zzlLexValueGteMin zl eptr range;
      if (b : bool) then b ← zzlLexValueLteMax zl eptr range; Some (if (b : bool) then Some eptr else None)
      else
        sptr ← lpNext zl eptr;
        sptr ← sptr;
        eptr ← lpNext zl sptr;
        first_in_lex_loop fuel zl range eptr
  end.
Definition zzlFirstInLexRange (zl : list Z) (range : zlexrangespec) : option (option Z) :=
  eptr ← lpSeek zl 0;
  b ← zzlIsInLexRange zl range;
  if negb b then Some None else first_in_lex_loop (S (length zl)) zl range eptr.

Fixpoint last_in_lex_loop (fuel : nat) (zl : list Z) (range : zlexrangespec) (eptr : option Z) : option (option Z) :=
  match eptr, fuel with
  | None, _ => Some None
  | Some _, O => None
  | Some eptr, S fuel =>
      b ← zzlLexValueLteMax zl eptr range;
      if (b : bool) then b ← zzlLexValueGteMin zl eptr range; Some (if (b : bool) then Some eptr else None)
      else
        sptr ← lpPrev zl eptr;
        match sptr with
        | Some sptr => eptr ← lpPrev zl sptr; eptr ← eptr; last_in_lex_loop fuel zl range (Some eptr)
        | None => Some None
        end
  end.
Definition zzlLastInLexRange (zl : list Z) (range : zlexrangespec) : option (option Z) :=
  eptr ← lpSeek zl (-2);
  b ← zzlIsInLexRange zl range;
  if negb b then Some None else last_in_lex_loop (S (length zl)) zl range eptr.

(** ** Lookup, insertion, deletion *)

(** The entry of the element, with the score when it is asked for. *)
Definition zzlFind (lp : list Z) (ele : sds) (want_score : bool) : option (option (Z * option double)) :=
  eptr ← lpFirst lp;
  match eptr with
  | None => Some None
  | Some eptr =>
      eptr ← lpFind lp (Some eptr) ele 1;
      match eptr with
      | None => Some None
      | Some eptr =>
          sptr ← lpNext lp eptr;
          sptr ← sptr;
          if want_score then score ← zzlGetScore lp sptr; Some (Some (eptr, Some score))
          else Some (Some (eptr, None))
      end
  end.

Definition zzlDelete (zl : list Z) (eptr : Z) : option (list Z) :=
  '(zl, _) ← lpDeleteRangeWithEntry usable fresh zl eptr 2; Some zl.

(** The listpack, or null when the listpack would be too large. *)
Definition zzlInsertAt (zl : list Z) (eptr : option Z) (ele : sds) (score : double) : option (option (list Z)) :=
  score ← match double2ll score with
          | Some lscore => Some (inr lscore)
          | None =>
              '(scorelen, scorebuf) ← d2string fpconv_dtoa (stack_buf MAX_D2STRING_CHARS) score;
              s ← mread scorebuf 0 scorelen; Some (inl s)
          end;
  let entries := [inl ele; score] in
  match eptr with
  | None => lpBatchAppend usable fresh zl entries
  | Some eptr => drop_newp <$> lpBatchInsert usable fresh zl eptr LP_BEFORE entries
  end.

(** The loop of [zzlInsert]: the entry to insert before. *)
Fixpoint insert_loop (fuel : nat) (zl : list Z) (ele : sds) (score : double) (eptr : option Z) : option (option Z) :=
  match eptr, fuel with
  | None, _ => Some None
  | Some _, O => None
  | Some eptr, S fuel =>
      sptr ← lpNext zl eptr;
      sptr ← sptr;
      s ← zzlGetScore zl sptr;
      stop ← (if score <. s then Some true
              else if s ==. score then c ← zzlCompareElements zl eptr ele; Some (c >? 0)
              else Some false);
      if (stop : bool) then Some (Some eptr)
      else eptr ← lpNext zl sptr; insert_loop fuel zl ele score eptr
  end.
Definition zzlInsert (zl : list Z) (ele : sds) (score : double) : option (option (list Z)) :=
  eptr ← lpSeek zl 0;
  eptr ← insert_loop (S (length zl)) zl ele score eptr;
  zzlInsertAt zl eptr ele score.

(** ** Deletion of ranges *)

(** [while (eptr && (sptr = lpNext(zl,eptr)) != NULL)] *)
Fixpoint zzl_delete_loop (test : list Z -> Z -> Z -> option bool) (fuel : nat) (zl : list Z) (eptr : option Z) (num : Z) :
    option (list Z * Z) :=
  match eptr, fuel with
  | None, _ => Some (zl, num)
  | Some _, O => None
  | Some eptr, S fuel =>
      sptr ← lpNext zl eptr;
      match sptr with
      | None => Some (zl, num)
      | Some sptr =>
          b ← test zl eptr sptr;
          if (b : bool) then
            '(zl, eptr) ← lpDeleteRangeWithEntry usable fresh zl eptr 2;
            zzl_delete_loop test fuel zl eptr (u64 (num + 1))
          else Some (zl, num)
      end
  end.
Definition zzlDeleteRangeByScore (zl : list Z) (range : zrangespec) : option (list Z * Z) :=
  eptr ← zzlFirstInRange zl range;
  zzl_delete_loop (fun zl _ sptr => score ← zzlGetScore zl sptr; Some (zslValueLteMax score range)) (S (length zl)) zl eptr 0.
Definition zzlDeleteRangeByLex (zl : list Z) (range : zlexrangespec) : option (list Z * Z) :=
  eptr ← zzlFirstInLexRange zl range;
  zzl_delete_loop (fun zl eptr _ => zzlLexValueLteMax zl eptr range) (S (length zl)) zl eptr 0.

(** [start] and [end] are unsigned ints. *)
Definition zzlDeleteRangeByRank (zl : list Z) (start stop : Z) : option (list Z * Z) :=
  let num := u32 (u32 (stop - start) + 1) in
  zl ← lpDeleteRange usable fresh zl (u32 (2 * u32 (start - 1))) (u32 (2 * num));
  Some (zl, num).

End zzl.
