(* ===== verification/Zobj.v ===== *)
(** * t_zset.c: sorted set objects

    A sorted set is in one of two encodings, a listpack ([Zzl]) while it is small
    and a skiplist with a dictionary ([Zset]) when it is not.  The operations
    choose by the encoding, convert when an addition would make the listpack too
    long, and on request.  The limits are those of the configuration. *)

From Stdlib Require Import SpecFloat.
From stdpp Require Import gmap.
From S2P Require Import Prelude Util Listpack Dict Zskiplist ZskiplistRange Zset Double Zzl.

(** The encoding of an object and what its pointer leads to. *)
Inductive zobj := ENC_LISTPACK (zl : list Z) | ENC_SKIPLIST (zs : zset).

Inductive encoding := OBJ_ENCODING_LISTPACK | OBJ_ENCODING_SKIPLIST.
#[export] Instance encoding_eq_dec : EqDecision encoding.
Proof. solve_decision. Defined.
Definition encoding_of (o : zobj) : encoding :=
  match o with ENC_LISTPACK _ => OBJ_ENCODING_LISTPACK | ENC_SKIPLIST _ => OBJ_ENCODING_SKIPLIST end.

Section zobj.
Context (dictSdsHash : sds -> Z) (mode : dictResizeEnable) (indet : ptr).
Context (zmalloc : heap -> ptr) (junk : option ptr * zskiplistLevel).
Context (fast_float_strtod : list Z -> double) (fpconv_dtoa : double -> list Z).
Context (usable : Z -> Z) (fresh : nat -> Z).
Context (zset_max_listpack_entries zset_max_listpack_value : Z).
Local Abbreviation type := (zsetDictType dictSdsHash).
Local Abbreviation zzlGetScore := (zzlGetScore fast_float_strtod).
Local Abbreviation zzlInsertAt := (zzlInsertAt fpconv_dtoa usable fresh).
Local Abbreviation zzlFind := (zzlFind fast_float_strtod).
Local Abbreviation zzlInsert := (zzlInsert fast_float_strtod fpconv_dtoa usable fresh).

Definition createZsetListpackObject : option zobj := zl ← lpNew usable fresh 0; Some (ENC_LISTPACK zl).

Definition zsetTypeCreate (h : heap) (size_hint val_len_hint : Z) : option (heap * zobj) :=
  if (size_hint <=? zset_max_listpack_entries) && (val_len_hint <=? zset_max_listpack_value)
  then o ← createZsetListpackObject; Some (h, o)
  else
    '(h, zs) ← createZsetObject zmalloc junk h;
    '(_, d) ← dictExpand type mode (zs_dict zs) size_hint;
    Some (h, ENC_SKIPLIST (mkZset d (zs_zsl zs))).

(** Reading the length of a listpack may store it in the header. *)
Definition zsetLength (o : zobj) : option (Z * zobj) :=
  match o with
  | ENC_LISTPACK zl => '(n, zl) ← zzlLength zl; Some (n, ENC_LISTPACK zl)
  | ENC_SKIPLIST zs => Some (zset_length zs, o)
  end.

(** ** Conversion *)

(** [while (eptr != NULL)] of the conversion to a skiplist. *)
Fixpoint to_skiplist_loop (fuel : nat) (zl : list Z) (ptrs : option (Z * Z)) (h : heap) (zs : zset) (rnd : list Z) :
    option (heap * zset * list Z) :=
  match ptrs, fuel with
  | None, _ => Some (h, zs, rnd)
  | Some _, O => None
  | Some (eptr, sptr), S fuel =>
      score ← zzlGetScore zl sptr;
      ele ← lpGetObject fresh zl eptr;
      '(node, h, zsl, rnd) ← zslInsert zmalloc junk h (zs_zsl zs) score ele rnd;
      '(r, d) ← dictAdd type mode indet (zs_dict zs) ele node;
      if bool_decide (r = DICT_OK) then
        ptrs ← zzlNext zl sptr;
        to_skiplist_loop fuel zl ptrs h (mkZset d zsl) rnd
      else None
  end.

(** [while (node)] of the conversion to a listpack.  A null listpack would be
    read by the next insertion or stay in the object: it is a failure. *)
Fixpoint to_listpack_loop (fuel : nat) (zl : list Z) (h : heap) (node : option ptr) : option (list Z * heap) :=
  match node, fuel with
  | None, _ => Some (zl, h)
  | Some _, O => None
  | Some node, S fuel =>
      n ← h !! node;
      e ← ele n;
      zl ← zzlInsertAt zl None e (score n);
      zl ← zl;
      next ← get_level h node 0;
      h ← zslFreeNode h node;
      to_listpack_loop fuel zl h (forward next)
  end.

Definition zsetConvertAndExpand (h : heap) (o : zobj) (enc : encoding) (cap : Z) (rnd : list Z) : option (heap * zobj * list Z) :=
  if bool_decide (encoding_of o = enc) then Some (h, o, rnd)
  else
    match o with
    | ENC_LISTPACK zl =>
        '(zsl, h) ← zslCreate zmalloc junk h;
        '(_, d) ← dictExpand type mode (dictCreate : @dict sds ptr) cap;
        eptr ← lpSeek zl 0;
        ptrs ← match eptr with
               | Some eptr => sptr ← lpNext zl eptr; sptr ← sptr; Some (Some (eptr, sptr))
               | None => Some None
               end;
        '(h, zs, rnd) ← to_skiplist_loop (S (length zl)) zl ptrs h (mkZset d zsl) rnd;
        Some (h, ENC_SKIPLIST zs, rnd)
    | ENC_SKIPLIST zs =>
        zl ← lpNew usable fresh 0;
        _ ← dictRelease (zs_dict zs);
        l ← get_level h (header (zs_zsl zs)) 0;
        h ← zslFreeNode h (header (zs_zsl zs));
        '(zl, h) ← to_listpack_loop (Z.to_nat (zsl_length (zs_zsl zs))) zl h (forward l);
        Some (h, ENC_LISTPACK zl, rnd)
    end.

Definition zsetConvert (h : heap) (o : zobj) (enc : encoding) (rnd : list Z) : option (heap * zobj * list Z) :=
  '(n, o) ← zsetLength o; zsetConvertAndExpand h o enc n rnd.

Definition zsetTypeMaybeConvert (h : heap) (o : zobj) (size_hint : Z) (rnd : list Z) : option (heap * zobj * list Z) :=
  if bool_decide (encoding_of o = OBJ_ENCODING_LISTPACK) && (size_hint >? zset_max_listpack_entries)
  then zsetConvertAndExpand h o OBJ_ENCODING_SKIPLIST size_hint rnd else Some (h, o, rnd).

Definition zsetConvertToListpackIfNeeded (h : heap) (o : zobj) (maxelelen totelelen : Z) (rnd : list Z) :
    option (heap * zobj * list Z) :=
  match o with
  | ENC_LISTPACK _ => Some (h, o, rnd)
  | ENC_SKIPLIST zs =>
      safe ← lpSafeToAdd None totelelen;
      if (zsl_length (zs_zsl zs) <=? zset_max_listpack_entries) && (maxelelen <=? zset_max_listpack_value) && safe
      then zsetConvert h o OBJ_ENCODING_LISTPACK rnd else Some (h, o, rnd)
  end.

(** ** Lookup, addition, deletion, rank *)

Definition zsetScore (h : heap) (o : zobj) (member : sds) : option (option double * zobj) :=
  match o with
  | ENC_LISTPACK zl =>
      r ← zzlFind zl member true;
      match r with
      | Some (_, s) => Some (s, o)
      | None => Some (None, o)
      end
  | ENC_SKIPLIST zs => '(r, zs) ← zset_score dictSdsHash mode h zs member; Some (r, ENC_SKIPLIST zs)
  end.

(** The branch of [zsetAdd] for an element of the listpack at [eptr]. *)
Definition zzl_update (zl : list Z) (eptr : Z) (curscore s : double) (e : sds) (incr nx gt lt : bool) :
    option (zadd_result * list Z) :=
  if nx then Some (mkZadd 1 ZADD_OUT_NOP None, zl)
  else
    let s := if incr then dadd s curscore else s in
    if incr && isnan s then Some (mkZadd 0 ZADD_OUT_NAN None, zl)
    else if (lt && (curscore <=. s)) || (gt && (s <=. curscore)) then Some (mkZadd 1 ZADD_OUT_NOP None, zl)
    else if negb (s ==. curscore) then
      zl ← zzlDelete usable fresh zl eptr;
      zl ← zzlInsert zl e s;
      zl ← zl;
      Some (mkZadd 1 ZADD_OUT_UPDATED (Some s), zl)
    else Some (mkZadd 1 0 (Some s), zl).

Definition zsetAdd (h : heap) (o : zobj) (s : double) (e : sds) (in_flags : Z) (rnd : list Z) :
    option (zadd_result * heap * zobj * list Z) :=
  let incr := negb ((in_flags &&& ZADD_IN_INCR) =? 0) in
  let nx := negb ((in_flags &&& ZADD_IN_NX) =? 0) in
  let xx := negb ((in_flags &&& ZADD_IN_XX) =? 0) in
  let gt := negb ((in_flags &&& ZADD_IN_GT) =? 0) in
  let lt := negb ((in_flags &&& ZADD_IN_LT) =? 0) in
  let on_skiplist h zs rnd :=
    '(r, h, zs, rnd) ← zset_add dictSdsHash mode indet zmalloc junk h zs s e in_flags rnd;
    Some (r, h, ENC_SKIPLIST zs, rnd) in
  if isnan s then Some (mkZadd 0 ZADD_OUT_NAN None, h, o, rnd)
  else
    match o with
    | ENC_LISTPACK zl =>
        r ← zzlFind zl e true;
        match r with
        | Some (eptr, curscore) =>
            curscore ← curscore;
            '(r, zl) ← zzl_update zl eptr curscore s e incr nx gt lt;
            Some (r, h, ENC_LISTPACK zl, rnd)
        | None =>
            if negb xx then
              '(len, zl) ← zzlLength zl;
              safe ← lpSafeToAdd (Some zl) (zlen e);
              if (len + 1 >? zset_max_listpack_entries) || (zlen e >? zset_max_listpack_value) || negb safe then
                '(n, o) ← zsetLength (ENC_LISTPACK zl);
                '(h, o, rnd) ← zsetConvertAndExpand h o OBJ_ENCODING_SKIPLIST (u64 (n + 1)) rnd;
                match o with
                | ENC_SKIPLIST zs => on_skiplist h zs rnd
                | ENC_LISTPACK _ => None
                end
              else
                zl ← zzlInsert zl e s;
                zl ← zl;
                Some (mkZadd 1 ZADD_OUT_ADDED (Some s), h, ENC_LISTPACK zl, rnd)
            else Some (mkZadd 1 ZADD_OUT_NOP None, h, o, rnd)
        end
    | ENC_SKIPLIST zs => on_skiplist h zs rnd
    end.

Definition zsetDel (h : heap) (o : zobj) (e : sds) : option (bool * heap * zobj) :=
  match o with
  | ENC_LISTPACK zl =>
      r ← zzlFind zl e false;
      match r with
      | Some (eptr, _) => zl ← zzlDelete usable fresh zl eptr; Some (true, h, ENC_LISTPACK zl)
      | None => Some (false, h, o)
      end
  | ENC_SKIPLIST zs =>
      '(r, h, zs) ← zsetRemoveFromSkiplist dictSdsHash mode h zs e; Some (r, h, ENC_SKIPLIST zs)
  end.

(** [while(eptr != NULL)] of [zsetRank]: the score entry of the element and its rank. *)
Fixpoint zzl_rank_loop (fuel : nat) (zl : list Z) (e : sds) (cached : option (Z * Z)) (ptrs : option (Z * Z)) (rank : Z) :
    option (option Z * Z) :=
  match ptrs, fuel with
  | None, _ => Some (None, rank)
  | Some _, O => None
  | Some (eptr, sptr), S fuel =>
      '(b, cached) ← lpCompare zl eptr e cached;
      if (b : bool) then Some (Some sptr, rank)
      else ptrs ← zzlNext zl sptr; zzl_rank_loop fuel zl e cached ptrs (u64 (rank + 1))
  end.

Definition zsetRank (h : heap) (o : zobj) (e : sds) (reverse : bool) : option (Z * option double * zobj) :=
  match o with
  | ENC_LISTPACK zl =>
      '(llen, zl) ← zzlLength zl;
      eptr ← lpSeek zl 0;
      eptr ← eptr;
      sptr ← lpNext zl eptr;
      sptr ← sptr;
      '(sptr, rank) ← zzl_rank_loop (S (length zl)) zl e (Some (0, 0)) (Some (eptr, sptr)) 1;
      match sptr with
      | Some sptr =>
          s ← zzlGetScore zl sptr;
          Some (i64 (if reverse then u64 (llen - rank) else u64 (rank - 1)), Some s, ENC_LISTPACK zl)
      | None => Some (-1, None, ENC_LISTPACK zl)
      end
  | ENC_SKIPLIST zs => '(r, s, zs) ← zset_rank dictSdsHash mode h zs e reverse; Some (r, s, ENC_SKIPLIST zs)
  end.

(** ** Deletion of ranges *)

(** Steps 2 and 3 of [zremrangeGenericCommand] on a listpack, after the indexes
    were sanitized: the number of elements deleted, and whether the key goes. *)
Definition zzl_remrange_apply (zl : list Z) (range : zrange) : option (Z * bool * list Z) :=
  '(zl, deleted) ← match range with
                   | ZRANGE_RANK start stop => zzlDeleteRangeByRank usable fresh zl (u32 (start + 1)) (u32 (stop + 1))
                   | ZRANGE_SCORE range => zzlDeleteRangeByScore fast_float_strtod usable fresh zl range
                   | ZRANGE_LEX range => zzlDeleteRangeByLex usable fresh zl range
                   end;
  '(n, zl) ← zzlLength zl;
  Some (deleted, n =? 0, zl).

Definition zremrange (h : heap) (o : zobj) (range : zrange) : option (Z * bool * heap * zobj) :=
  let apply o range :=
    match o with
    | ENC_LISTPACK zl => '(n, b, zl) ← zzl_remrange_apply zl range; Some (n, b, h, ENC_LISTPACK zl)
    | ENC_SKIPLIST zs =>
        '(n, b, h, zs) ← zset_remrange_apply dictSdsHash mode h zs range; Some (n, b, h, ENC_SKIPLIST zs)
    end in
  match range with
  | ZRANGE_RANK start stop =>
      '(llen, o) ← zsetLength o;
      match sanitize llen start stop with
      | None => Some (0, false, h, o)
      | Some (start, stop) => apply o (ZRANGE_RANK start stop)
      end
  | _ => apply o range
  end.

End zobj.
