(* ===== verification/ZzlSpec.v ===== *)
(** * Sorted sets in a listpack: what the functions do

    The listpack of a sorted set is a list of pairs of entries, the text of the
    first one an element and the second one its score.  The functions of [Zzl]
    find, insert and delete pairs; the pairs are in the order of the set, so
    that the results are those of the sequence of the elements and scores. *)

From Stdlib Require Import SpecFloat.
From stdpp Require Import gmap.
From S2P Require Import Prelude Dict DictSpec Zskiplist ZskiplistSpec ZskiplistOps ZskiplistApi ZskiplistRange ZskiplistRangeSpec.
From S2P Require Import Zset ZsetSpec ZsetRefine Util Listpack ListpackSpec ListpackNav ListpackUpd Double Zzl.

(** The entries of a list of pairs. *)
Definition flat (ps : list (entry * entry)) : list entry := ps ≫= (fun p => [p.1; p.2]).

Lemma flat_cons p ps : flat (p :: ps) = p.1 :: p.2 :: flat ps.
Proof. done. Qed.
Lemma flat_app ps qs : flat (ps ++ qs) = flat ps ++ flat qs.
Proof. apply bind_app. Qed.
Lemma flat_snoc ps p : flat (ps ++ [p]) = (flat ps ++ [p.1]) ++ [p.2].
Proof. by rewrite flat_app, <-app_assoc. Qed.
Lemma flat_length ps : zlen (flat ps) = 2 * zlen ps.
Proof. induction ps as [|p ps IH]; [done|]. rewrite flat_cons. revert IH. zlen_solve. Qed.
Lemma take_flat k ps : take (2 * k) (flat ps) = flat (take k ps).
Proof.
  revert ps. induction k as [|k IH]; intros ps; [done|]. destruct ps as [|p ps]; [done|].
  replace (2 * S k)%nat with (S (S (2 * k))) by lia. rewrite flat_cons. cbn [take]. by rewrite flat_cons, IH.
Qed.
Lemma drop_flat k ps : drop (2 * k) (flat ps) = flat (drop k ps).
Proof.
  revert ps. induction k as [|k IH]; intros ps; [done|]. destruct ps as [|p ps]; [done|].
  replace (2 * S k)%nat with (S (S (2 * k))) by lia. rewrite flat_cons. cbn [drop]. by rewrite IH.
Qed.

(** The offset of the first pair of [qs] after [ps], or null. *)
Definition pair_ptr (ps qs : list (entry * entry)) : option Z :=
  match qs with [] => None | _ :: _ => Some (off (flat ps)) end.

Section zzl.
Context (fast_float_strtod : list Z -> double) (fpconv_dtoa : double -> list Z).
Context (usable : Z -> Z) (fresh : nat -> Z).
Local Abbreviation zzlGetScore := (zzlGetScore fast_float_strtod).

Definition score_of (v : lpe) : double :=
  match v with EInt v => ll2d v | EStr s => fast_float_strtod (take 127 s ++ [0]) end.
(** The element and the score of a pair. *)
Definition item (p : entry * entry) : znode := mkZn 1 (text (e_val p.1)) (score_of (e_val p.2)) 1.
Local Abbreviation items ps := (item <$> ps).

(** ** Reading an entry *)

Lemma stack_buf_length n : 0 <= n -> zlen (stack_buf fresh n) = n.
Proof. intros Hn. unfold stack_buf, zlen. rewrite length_map, length_seq. lia. Qed.

(** A number printed on the stack. *)
Lemma print_ll n v :
  in_signed 64 v -> 21 <= n ->
  ('(len, buf) ← ll2string (stack_buf fresh n) 0 n v; mread buf 0 len) = Some (dec v).
Proof.
  intros Hv Hn. pose proof (dec_len v Hv) as Hd. unfold LONG_STR_SIZE in Hd. pose proof (stack_buf_length n ltac:(lia)) as Hl.
  set (x := stack_buf fresh n) in *.
  destruct (ll2string_spec [] x [] v Hv) as [Hfit _].
  specialize (Hfit (take (Z.to_nat (zlen (dec v) + 1)) x) (drop (Z.to_nat (zlen (dec v) + 1)) x)).
  rewrite take_drop in Hfit. specialize (Hfit eq_refl).
  rewrite !app_nil_r, Hl in Hfit. cbn [app] in Hfit. change (zlen (@nil Z)) with 0 in Hfit. rewrite Hfit.
  - sbind. by apply (mread_app [] (dec v)).
  - unfold zlen in Hl, Hd |- *. rewrite length_take. lia.
Qed.

Section at_pair.
Context (lp : list Z) (ps : list (entry * entry)) (p : entry * entry) (qs : list (entry * entry)).
Context (R : lp_rep lp (flat (ps ++ p :: qs))).

Lemma at_ele : lp_rep lp (flat ps ++ p.1 :: p.2 :: flat qs).
Proof. by rewrite flat_app, flat_cons in R. Qed.
Lemma at_score : lp_rep lp ((flat ps ++ [p.1]) ++ p.2 :: flat qs).
Proof. rewrite <-app_assoc. apply at_ele. Qed.

Lemma next_of_ele : lpNext lp (off (flat ps)) = Some (Some (off (flat ps ++ [p.1]))).
Proof. by rewrite (next_spec lp _ _ _ at_ele). Qed.
Lemma next_of_score : lpNext lp (off (flat ps ++ [p.1])) = Some (pair_ptr (ps ++ [p]) qs).
Proof. rewrite (next_spec lp _ _ _ at_score), <-flat_snoc. by destruct qs. Qed.
Lemma prev_of_score : lpPrev lp (off (flat ps ++ [p.1])) = Some (Some (off (flat ps))).
Proof. apply (prev_spec lp _ _ _ at_ele). Qed.

Lemma getScore_spec : zzlGetScore lp (off (flat ps ++ [p.1])) = Some (zn_score (item p)).
Proof.
  unfold Zzl.zzlGetScore. pose proof (getValue_at lp _ _ _ at_score) as Hv. unfold item. cbn [zn_score].
  destruct (e_val p.2) as [v|s]; [by rewrite Hv|]. destruct Hv as (o & -> & Hr). sbind. unfold zzlStrtod. cbv zeta.
  cbn [score_of]. destruct (Z.gtb_spec (zlen s) (128 - 1)) as [Hgt|Hle].
  - by rewrite (mread_take lp s o (zlen s) (128 - 1) Hr) by lia.
  - rewrite Hr. sbind. do 3 f_equal. symmetry. apply take_ge. unfold zlen in Hle. lia.
Qed.

Lemma getObject_spec : lpGetObject fresh lp (off (flat ps)) = Some (zn_ele (item p)).
Proof.
  unfold lpGetObject. pose proof (getValue_at lp _ _ _ at_ele) as Hv. pose proof (at_entry_ok lp _ _ _ at_ele) as Hok.
  unfold item, entry_ok in *. cbn [zn_ele]. destruct (e_val p.1) as [v|s]; cbn [text].
  - rewrite Hv. sbind. apply int_enc_signed in Hok. by apply print_ll.
  - by destruct Hv as (o & -> & Hr).
Qed.

Lemma compareElements_spec cstr :
  zlen (zn_ele (item p)) < 2 ^ 31 -> zlen cstr < 2 ^ 31 ->
  exists c, zzlCompareElements fresh lp (off (flat ps)) cstr = Some c /\ (c > 0 <-> sdscmp (zn_ele (item p)) cstr > 0).
Proof.
  intros H1 H2. unfold zzlCompareElements. pose proof (getValue_at lp _ _ _ at_ele) as Hv.
  pose proof (at_entry_ok lp _ _ _ at_ele) as Hok. unfold entry_ok in Hok. set (t := zn_ele (item p)) in *.
  assert (Hc : exists c, (if memcmp t cstr =? 0 then Some (swrap 32 (zlen t - zlen cstr)) else Some (memcmp t cstr)) = Some c
                 /\ (c > 0 <-> sdscmp t cstr > 0)).
  { unfold sdscmp. pose proof (zlen_nonneg t). pose proof (zlen_nonneg cstr). rewrite swrap_small by (unfold in_signed; lia).
    destruct (memcmp t cstr =? 0); eexists; (split; [done|]); [|done]. zcase; lia. }
  unfold item in t. cbn [zn_ele] in t. destruct (e_val p.1) as [v|s]; cbn [text] in t.
  - rewrite Hv. sbind. apply int_enc_signed in Hok. by rewrite (print_ll 32 v Hok).
  - destruct Hv as (o & -> & Hr). sbind. by rewrite Hr.
Qed.

End at_pair.

Lemma rep_next lp ps p qs : lp_rep lp (flat (ps ++ p :: qs)) -> lp_rep lp (flat ((ps ++ [p]) ++ qs)).
Proof. by rewrite <-app_assoc. Qed.

Lemma zzlNext_spec lp ps p qs :
  lp_rep lp (flat (ps ++ p :: qs)) ->
  zzlNext lp (off (flat ps ++ [p.1])) =
  Some (match qs with [] => None | q :: _ => Some (off (flat (ps ++ [p])), off (flat (ps ++ [p]) ++ [q.1])) end).
Proof.
  intros R. unfold zzlNext. rewrite (next_of_score lp ps p qs R). sbind. destruct qs as [|q qs]; [done|]. cbn [pair_ptr].
  by rewrite (next_of_ele lp _ q qs (rep_next _ _ _ _ R)).
Qed.

Lemma zzlPrev_spec lp ps p qs :
  lp_rep lp (flat (ps ++ p :: qs)) ->
  zzlPrev lp (off (flat ps)) =
  Some (match last ps with None => None | Some q => Some (off (flat (removelast ps)), off (flat (removelast ps) ++ [q.1])) end).
Proof.
  intros R. unfold zzlPrev. destruct ps as [|q ps _] using rev_ind.
  - change (off (flat [])) with (off []). by rewrite prev_first.
  - rewrite last_snoc, removelast_last, flat_snoc. rewrite <-app_assoc in R. cbn [app] in R.
    rewrite (prev_spec lp _ _ _ (at_score lp ps q (p :: qs) R)). sbind. by rewrite (prev_of_score lp ps q (p :: qs) R).
Qed.

(** ** Seeking *)

Lemma seek_ends lp ps :
  lp_rep lp (flat ps) ->
  lpSeek lp 0 = Some (pair_ptr [] ps)
  /\ lpSeek lp 1 = Some (match ps with [] => None | p :: _ => Some (off [p.1]) end)
  /\ lpSeek lp (-2) = Some (match last ps with None => None | Some _ => Some (off (flat (removelast ps))) end)
  /\ lpSeek lp (-1) = Some (match last ps with None => None | Some p => Some (off (flat (removelast ps) ++ [p.1])) end).
Proof.
  intros R. rewrite !(seek_spec lp (flat ps)) by done. unfold seek_index, entry_ptr. rewrite flat_length. split_and!.
  - destruct ps as [|p ps]; [done|]. rewrite zlen_cons. pose proof (zlen_nonneg ps). cbn [pair_ptr]. by zcase.
  - destruct ps as [|p ps]; [done|]. rewrite zlen_cons. pose proof (zlen_nonneg ps). by zcase.
  - destruct ps as [|p ps _] using rev_ind; [done|]. rewrite last_snoc, removelast_last, zlen_app. change (zlen [p]) with 1.
    pose proof (zlen_nonneg ps). zcase. cbn. do 2 f_equal. rewrite flat_app.
    replace (Z.to_nat (2 * (zlen ps + 1) + -2)) with (length (flat ps)) by (pose proof (flat_length ps); unfold zlen in *; lia).
    by rewrite take_app_length.
  - destruct ps as [|p ps _] using rev_ind; [done|]. rewrite last_snoc, removelast_last, zlen_app. change (zlen [p]) with 1.
    pose proof (zlen_nonneg ps). zcase. cbn. do 2 f_equal. rewrite flat_snoc.
    replace (Z.to_nat (2 * (zlen ps + 1) + -1)) with (length (flat ps ++ [p.1]))
      by (rewrite length_app; cbn; pose proof (flat_length ps); unfold zlen in *; lia).
    by rewrite take_app_length.
Qed.

(** ** Ranges *)

(** The entry where a search from the start ends: at the first pair for which
    [fg] holds, when [fl] holds for it. *)
Definition first_found (fg fl : znode -> bool) (ps qs : list (entry * entry)) : option Z :=
  let K := prefix_len (fun a => negb (fg a)) (items qs) in
  match qs !! K with
  | Some q => if fl (item q) then Some (off (flat (ps ++ take K qs))) else None
  | None => None
  end.

Lemma first_found_here fg fl ps q qs :
  fg (item q) = true -> first_found fg fl ps (q :: qs) = if fl (item q) then Some (off (flat ps)) else None.
Proof. intros Hg. unfold first_found. cbn [fmap list_fmap prefix_len]. rewrite Hg. cbn. by rewrite app_nil_r. Qed.
Lemma first_found_next fg fl ps q qs :
  fg (item q) = false -> first_found fg fl ps (q :: qs) = first_found fg fl (ps ++ [q]) qs.
Proof. intros Hg. unfold first_found. cbn [fmap list_fmap prefix_len]. rewrite Hg. cbn. by rewrite <-app_assoc. Qed.

Lemma first_in_range_loop_spec range fuel lp ps qs :
  lp_rep lp (flat (ps ++ qs)) -> (length qs <= fuel)%nat ->
  first_in_range_loop fast_float_strtod fuel lp range (pair_ptr ps qs) = Some (first_found (gte_of range) (lte_of range) ps qs).
Proof.
  revert ps fuel. induction qs as [|q qs IH]; intros ps fuel R Hf; [by destruct fuel|]. destruct fuel as [|fuel]; [cbn in Hf; lia|].
  cbn [pair_ptr first_in_range_loop]. rewrite (next_of_ele lp ps q qs R). sbind. rewrite (getScore_spec lp ps q qs R). sbind.
  change (zslValueGteMin (zn_score (item q)) range) with (gte_of range (item q)).
  change (zslValueLteMax (zn_score (item q)) range) with (lte_of range (item q)).
  destruct (gte_of range (item q)) eqn:Hg; [by rewrite first_found_here|]. rewrite (next_of_score lp ps q qs R). sbind.
  rewrite IH; [by rewrite first_found_next|by apply rep_next|cbn in Hf; lia].
Qed.

Lemma first_in_lex_loop_spec range fuel lp ps qs :
  lp_rep lp (flat (ps ++ qs)) -> (length qs <= fuel)%nat ->
  first_in_lex_loop fresh fuel lp range (pair_ptr ps qs) = Some (first_found (lgte_of range) (llte_of range) ps qs).
Proof.
  revert ps fuel. induction qs as [|q qs IH]; intros ps fuel R Hf; [by destruct fuel|]. destruct fuel as [|fuel]; [cbn in Hf; lia|].
  cbn [pair_ptr first_in_lex_loop]. unfold zzlLexValueGteMin, zzlLexValueLteMax. rewrite (getObject_spec lp ps q qs R). sbind.
  change (zslLexValueGteMin (zn_ele (item q)) range) with (lgte_of range (item q)).
  change (zslLexValueLteMax (zn_ele (item q)) range) with (llte_of range (item q)).
  destruct (lgte_of range (item q)) eqn:Hg; [by rewrite first_found_here|].
  rewrite (next_of_ele lp ps q qs R). sbind. rewrite (next_of_score lp ps q qs R). sbind.
  rewrite IH; [by rewrite first_found_next|by apply rep_next|cbn in Hf; lia].
Qed.

(** The same from the end: the last of [ps] for which [fl] holds. *)
Definition last_found (fg fl : znode -> bool) (ps : list (entry * entry)) : option Z :=
  let K := end_in (items ps) fl in
  match K with
  | O => None
  | S k => match ps !! k with
           | Some q => if fg (item q) then Some (off (flat (take k ps))) else None
           | None => None
           end
  end.

Lemma last_loop_spec (loop : nat -> list Z -> option Z -> option (option Z)) (fg fl : znode -> bool) lp all :
  lp_rep lp (flat all) -> closed fl (items all) ->
  (forall fuel ps q qs, all = ps ++ q :: qs -> loop (S fuel) lp (Some (off (flat ps))) =
     if fl (item q) then Some (if fg (item q) then Some (off (flat ps)) else None)
     else match last ps with None => Some None | Some _ => loop fuel lp (Some (off (flat (removelast ps)))) end) ->
  forall fuel ps qs, all = ps ++ qs -> (forall q, q ∈ qs -> fl (item q) = false) -> (length ps <= fuel)%nat ->
  match last ps with None => Some None | Some _ => loop fuel lp (Some (off (flat (removelast ps)))) end = Some (last_found fg fl all).
Proof.
  intros R Hc Hloop fuel ps. revert fuel. induction ps as [|p ps IH] using rev_ind; intros fuel qs Hall Hqs Hf.
  - cbn. unfold last_found, end_in. destruct all as [|q all]; [done|]. cbn [fmap list_fmap prefix_len].
    rewrite (Hqs q); [done|]. cbn in Hall. subst qs. by left.
  - rewrite last_snoc, removelast_last. rewrite length_app in Hf. cbn in Hf. destruct fuel as [|fuel]; [lia|].
    rewrite <-app_assoc in Hall. cbn [app] in Hall. rewrite (Hloop fuel ps p qs Hall). destruct (fl (item p)) eqn:Hl.
    + unfold last_found.
      assert (HK : end_in (items all) fl = S (length ps)).
      { unfold end_in. rewrite Hall, (cons_middle p ps qs), app_assoc, fmap_app.
        rewrite (prefix_len_app fl (items (ps ++ [p])) (items qs)), length_fmap, length_app; [cbn; lia| |].
        - intros a Ha. apply list_elem_of_fmap in Ha as (x & -> & Hx). apply elem_of_app in Hx as [Hx|Hx]; [|apply list_elem_of_singleton in Hx; by subst].
          apply list_elem_of_lookup in Hx as (j & Hj). pose proof (lookup_lt_Some _ _ _ Hj).
          apply (Hc j (length ps) (item x) (item p)); [done|..|done]; rewrite list_lookup_fmap, Hall.
          + by rewrite lookup_app_l, Hj.
          + by rewrite list_lookup_middle.
        - intros b Hb. destruct qs as [|q qs]; [done|]. cbn in Hb. injection Hb as <-. apply Hqs. by left. }
      rewrite HK, Hall, list_lookup_middle by done. by rewrite take_app_length.
    + apply (IH fuel (p :: qs)); [done| |lia]. intros q [->|Hq]%elem_of_cons; [done|by apply Hqs].
Qed.

Definition ends_meet (fg fl : znode -> bool) (A : list znode) : bool :=
  match last A, head A with Some b, Some a => fg b && fl a | _, _ => false end.

Lemma zzlIsInRange_spec range lp ps :
  lp_rep lp (flat ps) ->
  zzlIsInRange fast_float_strtod lp range =
  Some (negb ((r_max range <. r_min range) || ((r_min range ==. r_max range) && (r_minex range || r_maxex range)))
        && ends_meet (gte_of range) (lte_of range) (items ps)).
Proof.
  intros R. unfold zzlIsInRange. destruct (_ || _); [done|]. cbn [negb andb]. destruct (seek_ends lp ps R) as (_ & S1 & _ & S2).
  rewrite S2. sbind. unfold ends_meet. rewrite fmap_last, head_lookup, list_lookup_fmap, <-head_lookup.
  destruct ps as [|p ps _] using rev_ind; [done|]. rewrite last_snoc, removelast_last, (getScore_spec lp ps p []) by done. sbind.
  cbn [fmap option_fmap option_map]. change (zslValueGteMin (zn_score (item p)) range) with (gte_of range (item p)).
  destruct (gte_of range (item p)); cbn [negb]; [|by destruct (head _)].
  rewrite S1. sbind. destruct (ps ++ [p]) as [|q qs] eqn:E; [by destruct ps|]. sbind.
  change (off [q.1]) with (off (flat [] ++ [q.1])). by rewrite (getScore_spec lp [] q qs R).
Qed.

Lemma zzlIsInLexRange_spec range lp ps :
  lp_rep lp (flat ps) ->
  zzlIsInLexRange fresh lp range =
  Some (negb ((sdscmplex (l_min range) (l_max range) >? 0)
              || ((sdscmplex (l_min range) (l_max range) =? 0) && (l_minex range || l_maxex range)))
        && ends_meet (lgte_of range) (llte_of range) (items ps)).
Proof.
  intros R. unfold zzlIsInLexRange. cbv zeta. destruct (_ || _); [done|]. cbn [negb andb].
  destruct (seek_ends lp ps R) as (S1 & _ & S2 & _). unfold zzlLexValueGteMin, zzlLexValueLteMax.
  rewrite S2. sbind. unfold ends_meet. rewrite fmap_last, head_lookup, list_lookup_fmap, <-head_lookup.
  destruct ps as [|p ps _] using rev_ind; [done|]. rewrite last_snoc, removelast_last, (getObject_spec lp ps p []) by done. sbind.
  cbn [fmap option_fmap option_map]. change (zslLexValueGteMin (zn_ele (item p)) range) with (lgte_of range (item p)).
  destruct (lgte_of range (item p)); cbn [negb]; [|by destruct (head _)].
  rewrite S1. sbind. destruct (ps ++ [p]) as [|q qs] eqn:E; [by destruct ps|]. cbn [pair_ptr]. sbind.
  by rewrite (getObject_spec lp [] q qs R).
Qed.

(** The entries of the first and of the last pair of a range. *)
Section found.
Context (ps : list (entry * entry)) (fg fl : znode -> bool).
Local Abbreviation A := (items ps).
Context (Hcg : closed (fun a => negb (fg a)) A) (Hcl : closed fl A).
Local Abbreviation K1 := (first_in A fg).
Local Abbreviation K2 := (end_in A fl).

Lemma first_found_range :
  first_found fg fl [] ps = match range_nodes A fg fl with [] => None | _ => Some (off (flat (take K1 ps))) end.
Proof.
  pose proof (slice_lookup A fg fl Hcg Hcl 0) as Hs. rewrite Nat.add_0_r, list_lookup_fmap in Hs. unfold first_found.
  fold (first_in A fg). cbn [app]. destruct (ps !! K1) as [q|] eqn:Hq; cbn [fmap option_fmap option_map] in Hs.
  - assert (Hl : fl (item q) = (K1 <? K2)%nat) by (apply (fl_spec A fl Hcl); by rewrite list_lookup_fmap, Hq).
    rewrite Hl. revert Hs. by destruct (K1 <? K2)%nat, (range_nodes A fg fl).
  - revert Hs. by destruct (range_nodes A fg fl), (K1 <? K2)%nat.
Qed.

Lemma last_found_range :
  last_found fg fl ps = match range_nodes A fg fl with [] => None | _ => Some (off (flat (take (K2 - 1) ps))) end.
Proof.
  unfold last_found. destruct K2 as [|k] eqn:HK.
  - destruct (range_nodes A fg fl) as [|a l] eqn:E; [done|]. pose proof (slice_lookup A fg fl Hcg Hcl 0) as Hs. by rewrite E, HK in Hs.
  - pose proof (prefix_len_le fl A) as Hle. fold (end_in A fl) in Hle. rewrite HK, length_fmap in Hle.
    destruct (lookup_lt_is_Some_2 ps k ltac:(lia)) as [q Hq]. rewrite Hq. cbn [Nat.sub]. rewrite Nat.sub_0_r.
    assert (Hg : fg (item q) = (K1 <=? k)%nat) by (apply (fg_spec A fg Hcg); by rewrite list_lookup_fmap, Hq). rewrite Hg.
    destruct (Nat.leb_spec K1 k) as [Hk|Hk].
    + pose proof (slice_length A fg fl Hcg Hcl ltac:(lia)) as Hl. destruct (range_nodes A fg fl); [|done]. rewrite zlen_nil in Hl. lia.
    + destruct (range_nodes A fg fl) as [|a l] eqn:E; [done|]. pose proof (slice_lookup A fg fl Hcg Hcl 0) as Hs. rewrite E in Hs.
      destruct (Nat.ltb_spec (K1 + 0) K2); [lia|done].
Qed.
End found.

Lemma rep_fuel lp ps : lp_rep lp (flat ps) -> (length ps <= S (length lp))%nat.
Proof. intros R. pose proof (rep_length lp _ R) as [Hl _]. rewrite flat_length in Hl. unfold zlen in Hl. lia. Qed.

(** What the searches find, as offsets of the pairs at the ends of the range. *)
Definition first_of (ps : list (entry * entry)) (fg fl : znode -> bool) : option Z :=
  match range_nodes (items ps) fg fl with [] => None | _ => Some (off (flat (take (first_in (items ps) fg) ps))) end.
Definition last_of (ps : list (entry * entry)) (fg fl : znode -> bool) : option Z :=
  match range_nodes (items ps) fg fl with [] => None | _ => Some (off (flat (take (end_in (items ps) fl - 1) ps))) end.

Section in_range.
Context (lp : list Z) (ps : list (entry * entry)) (R : lp_rep lp (flat ps)) (O : ordered (items ps)).

Lemma in_range_empty range :
  range_num range ->
  negb ((r_max range <. r_min range) || ((r_min range ==. r_max range) && (r_minex range || r_maxex range)))
    && ends_meet (gte_of range) (lte_of range) (items ps) = false ->
  range_nodes (items ps) (gte_of range) (lte_of range) = [].
Proof.
  intros Hr. rewrite andb_false_iff, negb_false_iff. intros [He|He]; [by apply score_bounds_empty|].
  apply ends_out; [by apply closed_gte|by apply closed_lte|done].
Qed.

Lemma zzlFirstInRange_spec range :
  range_num range -> zzlFirstInRange fast_float_strtod lp range = Some (first_of ps (gte_of range) (lte_of range)).
Proof.
  intros Hr. unfold zzlFirstInRange, first_of. destruct (seek_ends lp ps R) as (-> & _). sbind.
  rewrite (zzlIsInRange_spec range lp ps R). sbind. destruct (_ && _) eqn:He; cbn [negb]; [|by rewrite in_range_empty].
  rewrite (first_in_range_loop_spec range _ lp [] ps R (rep_fuel lp ps R)).
  by rewrite first_found_range by (by apply closed_gte || by apply closed_lte).
Qed.

(** The step of the searches from the end to the pair before. *)
Lemma step_back (loop : option Z -> option (option Z)) qs q rs :
  ps = qs ++ q :: rs ->
  (sptr ← lpPrev lp (off (flat qs));
   match sptr with
   | Some sptr => eptr ← lpPrev lp sptr; eptr ← eptr; loop (Some eptr)
   | None => Some None
   end) = match last qs with None => Some None | Some _ => loop (Some (off (flat (removelast qs)))) end.
Proof.
  intros Hall. pose proof R as R'. rewrite Hall in R'. pose proof (zzlPrev_spec lp qs q rs R') as Hp. unfold zzlPrev in Hp. revert Hp.
  destruct (lpPrev lp (off (flat qs))) as [[sp|]|]; [..|done]; sbind; [|by destruct (last qs)].
  destruct (lpPrev lp sp) as [[ep|]|]; [..|done|done]. sbind. destruct (last qs); [|done]. by intros [= -> ->].
Qed.

Lemma last_in_range_step range fuel qs q rs :
  ps = qs ++ q :: rs ->
  last_in_range_loop fast_float_strtod (S fuel) lp range (Some (off (flat qs))) =
  if lte_of range (item q) then Some (if gte_of range (item q) then Some (off (flat qs)) else None)
  else match last qs with
       | None => Some None
       | Some _ => last_in_range_loop fast_float_strtod fuel lp range (Some (off (flat (removelast qs))))
       end.
Proof.
  intros Hall. pose proof R as R'. rewrite Hall in R'. cbn [last_in_range_loop].
  rewrite (next_of_ele lp qs q rs R'). sbind. rewrite (getScore_spec lp qs q rs R'). sbind.
  change (zslValueLteMax (zn_score (item q)) range) with (lte_of range (item q)).
  destruct (lte_of range (item q)); [done|]. apply (step_back (fun e => last_in_range_loop _ _ _ _ e) qs q rs Hall).
Qed.

Lemma zzlLastInRange_spec range :
  range_num range -> zzlLastInRange fast_float_strtod lp range = Some (last_of ps (gte_of range) (lte_of range)).
Proof.
  intros Hr. unfold zzlLastInRange, last_of. destruct (seek_ends lp ps R) as (_ & _ & -> & _). sbind.
  rewrite (zzlIsInRange_spec range lp ps R). sbind. destruct (_ && _) eqn:He; cbn [negb]; [|by rewrite in_range_empty].
  rewrite <-last_found_range by (by apply closed_gte || by apply closed_lte).
  rewrite <-(last_loop_spec (fun f l => last_in_range_loop fast_float_strtod f l range) (gte_of range) (lte_of range) lp ps R
    (closed_lte _ O range Hr) (last_in_range_step range) (S (length lp)) ps []); [by destruct (last ps)|by rewrite app_nil_r|..].
  - by intros q ?%elem_of_nil.
  - by apply rep_fuel.
Qed.

(** The same for names, where the scores are all equal. *)
Context (Hsame : forall a b, a ∈ items ps -> b ∈ items ps -> zn_score a ==. zn_score b = true).

Lemma in_lex_range_empty range :
  negb ((sdscmplex (l_min range) (l_max range) >? 0)
        || ((sdscmplex (l_min range) (l_max range) =? 0) && (l_minex range || l_maxex range)))
    && ends_meet (lgte_of range) (llte_of range) (items ps) = false ->
  range_nodes (items ps) (lgte_of range) (llte_of range) = [].
Proof.
  rewrite andb_false_iff, negb_false_iff. intros [He|He]; [by apply lex_bounds_empty|].
  apply ends_out; [by apply closed_lgte|by apply closed_llte|done].
Qed.

Lemma zzlFirstInLexRange_spec range : zzlFirstInLexRange fresh lp range = Some (first_of ps (lgte_of range) (llte_of range)).
Proof.
  unfold zzlFirstInLexRange, first_of. destruct (seek_ends lp ps R) as (-> & _). sbind.
  rewrite (zzlIsInLexRange_spec range lp ps R). sbind. destruct (_ && _) eqn:He; cbn [negb]; [|by rewrite in_lex_range_empty].
  rewrite (first_in_lex_loop_spec range _ lp [] ps R (rep_fuel lp ps R)).
  by rewrite first_found_range by (by apply closed_lgte || by apply closed_llte).
Qed.

Lemma last_in_lex_step range fuel qs q rs :
  ps = qs ++ q :: rs ->
  last_in_lex_loop fresh (S fuel) lp range (Some (off (flat qs))) =
  if llte_of range (item q) then Some (if lgte_of range (item q) then Some (off (flat qs)) else None)
  else match last qs with
       | None => Some None
       | Some _ => last_in_lex_loop fresh fuel lp range (Some (off (flat (removelast qs))))
       end.
Proof.
  intros Hall. pose proof R as R'. rewrite Hall in R'. cbn [last_in_lex_loop]. unfold zzlLexValueGteMin, zzlLexValueLteMax.
  rewrite (getObject_spec lp qs q rs R'). sbind. change (zslLexValueLteMax (zn_ele (item q)) range) with (llte_of range (item q)).
  destruct (llte_of range (item q)); [done|]. apply (step_back (fun e => last_in_lex_loop _ _ _ _ e) qs q rs Hall).
Qed.

Lemma zzlLastInLexRange_spec range : zzlLastInLexRange fresh lp range = Some (last_of ps (lgte_of range) (llte_of range)).
Proof.
  unfold zzlLastInLexRange, last_of. destruct (seek_ends lp ps R) as (_ & _ & -> & _). sbind.
  rewrite (zzlIsInLexRange_spec range lp ps R). sbind. destruct (_ && _) eqn:He; cbn [negb]; [|by rewrite in_lex_range_empty].
  rewrite <-last_found_range by (by apply closed_lgte || by apply closed_llte).
  rewrite <-(last_loop_spec (fun f l => last_in_lex_loop fresh f l range) (lgte_of range) (llte_of range) lp ps R
    (closed_llte _ O range Hsame) (last_in_lex_step range) (S (length lp)) ps []); [by destruct (last ps)|by rewrite app_nil_r|..].
  - by intros q ?%elem_of_nil.
  - by apply rep_fuel.
Qed.

End in_range.

End zzl.
