(* ===== verification/ZzlOps.v ===== *)
(** * Sorted sets in a listpack: lookups and updates

    Finding, inserting and deleting pairs, and what a score is read back as after
    it was stored.  [Conversions] states what the code relies on of the two
    libraries that print and parse doubles. *)

From Stdlib Require Import SpecFloat.
From stdpp Require Import gmap.
From S2P Require Import Prelude Dict DictSpec Zskiplist ZskiplistSpec ZskiplistOps ZskiplistApi ZskiplistRange ZskiplistRangeSpec.
From S2P Require Import Zset ZsetSpec ZsetRefine Util Listpack ListpackSpec ListpackNav ListpackUpd Double Zzl ZzlSpec.

(** A printed double is short and is parsed as the same double; the decimal
    notation of an integer and the names of the infinities are parsed as what
    they denote, rounded to the nearest; every result is a double. *)
Class Conversions (fast_float_strtod : list Z -> double) (fpconv_dtoa : double -> list Z) : Prop := {
  strtod_dtoa m e s : is_double (S754_finite s m e) ->
    fast_float_strtod (fpconv_dtoa (S754_finite s m e) ++ [0]) = S754_finite s m e;
  strtod_dec v : in_signed 64 v -> fast_float_strtod (dec v ++ [0]) = ll2d v;
  strtod_inf : fast_float_strtod (str "inf" ++ [0]) = S754_infinity false;
  strtod_ninf : fast_float_strtod (str "-inf" ++ [0]) = S754_infinity true;
  strtod_double s : is_double (fast_float_strtod s);
  dtoa_length x : zlen (fpconv_dtoa x) <= 24;
  dtoa_bytes x : bytes_ok (fpconv_dtoa x);
}.

Section zzl.
Context (fast_float_strtod : list Z -> double) (fpconv_dtoa : double -> list Z).
Context `{!Conversions fast_float_strtod fpconv_dtoa}.
Context (usable : Z -> Z) (fresh : nat -> Z) (Husable : forall n, n <= usable n).
Local Abbreviation score_of := (score_of fast_float_strtod).
Local Abbreviation item := (item fast_float_strtod).
Local Abbreviation items ps := (item <$> ps).
Local Abbreviation zzlFind := (zzlFind fast_float_strtod).
Local Abbreviation zzlInsertAt := (zzlInsertAt fpconv_dtoa usable fresh).
Local Abbreviation zzlInsert := (zzlInsert fast_float_strtod fpconv_dtoa usable fresh).

(** ** Lookup *)

Lemma flat_lookup_even ps k : flat ps !! (2 * k)%nat = fst <$> ps !! k.
Proof.
  revert ps. induction k as [|k IH]; intros ps; [by destruct ps|]. destruct ps as [|p ps]; [done|].
  replace (2 * S k)%nat with (S (S (2 * k))) by lia. rewrite flat_cons. cbn [lookup list_lookup]. apply IH.
Qed.

Lemma zzlFind_spec lp ps e want :
  lp_rep lp (flat ps) ->
  (exists ps1 q ps2, ps = ps1 ++ q :: ps2 /\ zn_ele (item q) = e
     /\ zzlFind lp e want = Some (Some (off (flat ps1), if want then Some (zn_score (item q)) else None)))
  \/ (forall q, q ∈ ps -> zn_ele (item q) <> e) /\ zzlFind lp e want = Some None.
Proof.
  intros R. unfold Zzl.zzlFind. rewrite (first_spec lp (flat ps) R). sbind.
  destruct ps as [|p ps]; [right; split; [by intros q ?%elem_of_nil|done]|]. rewrite flat_cons. cbn [ListpackNav.ptr].
  set (all := p :: ps) in *. rewrite (find_first lp (flat all) e 1 R) by (done || lia). sbind.
  pose proof (find_ptr_spec (matches e) 1 [] (flat all) 0 ltac:(lia)) as Hf.
  destruct (find_ptr (matches e) 1 [] (flat all) 0) as [q|].
  - destruct Hf as (i & x & -> & (Hx & Hmod & Hm) & _). left.
    assert (Hi : i = (2 * (i / 2))%nat) by (apply Nat2Z.inj; rewrite Nat2Z.inj_mul, Nat2Z.inj_div; change (1 + 1) with 2 in Hmod; div_lia).
    rewrite Hi, flat_lookup_even, fmap_Some in Hx. destruct Hx as (q & Hq & ->). set (k := (i / 2)%nat) in *.
    exists (take k all), q, (drop (S k) all). rewrite (take_drop_middle all k q Hq). split; [done|].
    split; [unfold matches in Hm; by apply bool_decide_eq_true in Hm|]. cbn [app]. rewrite Hi, take_flat.
    rewrite <-(take_drop_middle all k q Hq) in R.
    rewrite (next_of_ele lp _ q _ R). sbind. destruct want; [|done]. by rewrite (getScore_spec fast_float_strtod lp _ q _ R).
  - right. split; [|done]. intros q (k & Hq)%list_elem_of_lookup He. apply (Hf (2 * k)%nat q.1). split_and!.
    + by rewrite flat_lookup_even, Hq.
    + rewrite Z.sub_0_r, Nat2Z.inj_mul, Z.mul_comm. apply Z_mod_mult.
    + by apply bool_decide_eq_true.
Qed.

(** ** Deletion *)

Lemma zzlDelete_spec lp ps q qs :
  lp_rep lp (flat (ps ++ q :: qs)) -> exists lp', zzlDelete usable fresh lp (off (flat ps)) = Some lp' /\ lp_rep lp' (flat (ps ++ qs)).
Proof.
  intros R. unfold zzlDelete. pose proof (at_ele lp ps q qs R) as R'.
  destruct (delete_range_spec usable fresh Husable lp (flat ps) _ 2 R') as (lp' & r & -> & _ & R''); [done|lia|]. sbind.
  exists lp'. split; [done|]. by rewrite flat_app.
Qed.

(** The loop that deletes the pairs from [ps] on for which [fl] holds. *)
Lemma delete_pairs_spec (test : list Z -> Z -> Z -> option bool) (fl : znode -> bool) fuel lp ps qs num :
  (forall lp' q qs', lp_rep lp' (flat (ps ++ q :: qs')) ->
     test lp' (off (flat ps)) (off (flat ps ++ [q.1])) = Some (fl (item q))) ->
  lp_rep lp (flat (ps ++ qs)) -> (length qs <= fuel)%nat -> 0 <= num -> num + zlen qs < 2 ^ 64 ->
  let m := prefix_len fl (items qs) in
  exists lp', zzl_delete_loop usable fresh test fuel lp (pair_ptr ps qs) num = Some (lp', num + Z.of_nat m)
    /\ lp_rep lp' (flat (ps ++ drop m qs)).
Proof.
  intros Ht. revert fuel lp num. induction qs as [|q qs IH]; intros fuel lp num R Hf Hn Hb.
  - exists lp. split; [|done]. cbn. destruct fuel; cbn; do 2 f_equal; lia.
  - rewrite zlen_cons in Hb. destruct fuel as [|fuel]; [cbn in Hf; lia|]. cbn [pair_ptr zzl_delete_loop fmap list_fmap prefix_len].
    rewrite (next_of_ele lp ps q qs R). sbind. rewrite (Ht lp q qs R). sbind. destruct (fl (item q)).
    + destruct (delete_range_spec usable fresh Husable lp (flat ps) _ 2 (at_ele lp ps q qs R)) as (lp' & r & -> & -> & R'); [done|lia|].
      sbind. change (drop (Z.to_nat 2) (q.1 :: q.2 :: flat qs)) with (flat qs) in *.
      assert (ListpackNav.ptr (flat ps) (flat qs) = pair_ptr ps qs) as -> by (by destruct qs).
      pose proof (zlen_nonneg qs). rewrite wrap_small by lia.
      destruct (IH fuel lp' (num + 1)) as (lp2 & -> & R2); [by rewrite flat_app|cbn in Hf; lia|lia|lia|].
      exists lp2. split; [|done]. do 2 f_equal. lia.
    + exists lp. split; [|done]. do 2 f_equal. lia.
Qed.

(** ** Insertion *)

Lemma enc_int_size v : in_signed 64 v -> zlen (enc (EInt v)) <= 9.
Proof. intros Hv. cbn [enc]. destruct (int_encP v Hv); rewrite ?zlen_cons, ?zlen_le_enc; change (zlen (@nil Z)) with 0; lia. Qed.

Lemma enc_val_size t : zlen (enc (val_of t)) <= zlen t + 9.
Proof.
  pose proof (zlen_nonneg t). unfold val_of. destruct (lpStringToInt64 t) as [v|] eqn:Hv.
  - apply lpStringToInt64_iff in Hv as [Hv _]. pose proof (enc_int_size v Hv). lia.
  - cbn [enc]. rewrite zlen_app. destruct (str_encP (zlen t) (zlen_nonneg t)); rewrite ?zlen_cons, ?zlen_le_enc; change (zlen (@nil Z)) with 0; lia.
Qed.

Lemma zentry_size e : zlen (ent_bytes (canon e)) <= zlen (enc e) + 5.
Proof. rewrite zlen_canon, zlen_backlen. pose proof (backlen_bytes_range (zlen (enc e))). lia. Qed.

(** What is written to a buffer is read back. *)
Lemma write_read (buf bs : list Z) :
  zlen bs + 1 <= zlen buf ->
  exists buf', mwrite buf 0 (bs ++ [0]) = Some buf' /\ mread buf' 0 (zlen bs) = Some bs.
Proof.
  intros Hl. pose proof (zlen_nonneg bs). destruct (split_zlen buf (zlen (bs ++ [0]))) as (x & y & -> & Hx); [rewrite zlen_app; change (zlen [0]) with 1; lia|].
  exists (bs ++ [0] ++ y). split.
  - pose proof (mwrite_app [] x y (bs ++ [0]) 0 eq_refl ltac:(unfold zlen in Hx; lia)) as Hw. cbn [app] in Hw. by rewrite Hw, <-app_assoc.
  - by apply (mread_app [] bs).
Qed.

Lemma snprintf_spec (buf t : list Z) :
  zlen t + 1 <= zlen buf -> exists buf', snprintf buf t = Some (zlen t, buf') /\ mread buf' 0 (zlen t) = Some t.
Proof.
  intros Hl. pose proof (zlen_nonneg t). unfold snprintf. destruct (Z.eqb_spec (zlen buf) 0); [lia|].
  rewrite take_ge by (unfold zlen in *; lia). destruct (write_read buf t Hl) as (buf' & -> & Hr). by exists buf'.
Qed.

(** The text of a score that is not an integer is parsed as the score. *)
Lemma score_text s :
  is_double s -> isnan s = false -> double2ll s = None ->
  exists t, ('(scorelen, scorebuf) ← d2string fpconv_dtoa (stack_buf fresh MAX_D2STRING_CHARS) s; mread scorebuf 0 scorelen) = Some t
    /\ bytes_ok t /\ zlen t <= 24 /\ fast_float_strtod (t ++ [0]) = s.
Proof.
  intros Hv Hn Hll. pose proof (stack_buf_length fresh 128 ltac:(lia)) as Hlen. unfold d2string. rewrite Hn.
  assert (Hsn : forall t, zlen t <= 24 -> exists buf', snprintf (stack_buf fresh MAX_D2STRING_CHARS) t = Some (zlen t, buf')
    /\ mread buf' 0 (zlen t) = Some t) by (intros t Ht; apply snprintf_spec; unfold MAX_D2STRING_CHARS; lia).
  destruct s as [[]|[]| |sx m e]; try done; cbn [isinf].
  - destruct (Hsn (str "-inf") ltac:(done)) as (buf' & Hw & Hr). exists (str "-inf"). split; [change (S754_infinity true <. S754_zero false) with true; cbv iota; rewrite Hw; sbind; exact Hr|].
    split; [by repeat constructor|]. split; [done|apply strtod_ninf].
  - destruct (Hsn (str "inf") ltac:(done)) as (buf' & Hw & Hr). exists (str "inf"). split; [change (S754_infinity false <. S754_zero false) with false; cbv iota; rewrite Hw; sbind; exact Hr|].
    split; [by repeat constructor|]. split; [done|apply strtod_inf].
  - rewrite Hll. assert (S754_finite sx m e ==. S754_zero false = false) as -> by (by destruct sx).
    set (t := fpconv_dtoa (S754_finite sx m e)). pose proof (dtoa_length (S754_finite sx m e)) as Hl. fold t in Hl.
    exists t. split; [|split; [apply dtoa_bytes|split; [done|by apply strtod_dtoa]]].
    unfold MAX_D2STRING_CHARS. set (buf := stack_buf fresh 128) in *. pose proof (zlen_nonneg t).
    destruct (split_zlen buf (zlen t)) as (x & y & Hb & Hx); [lia|]. rewrite Hb.
    pose proof (mwrite_app [] x y t 0 eq_refl ltac:(unfold zlen in Hx; lia)) as Hw. cbn [app] in Hw. rewrite Hw. sbind.
    assert (Hy : 1 <= zlen y) by (rewrite Hb, zlen_app in Hlen; lia). destruct y as [|c y]; [done|].
    pose proof (mwrite_app t [c] y [0] (zlen t) eq_refl eq_refl) as Hw'. cbn [app] in Hw'. rewrite Hw'. sbind.
    by apply (mread_app [] t).
Qed.

(** The entry a score is stored as is read back as the score, as an integer
    when it is one. *)
Lemma score_entry s :
  is_double s -> isnan s = false ->
  exists sc, (match double2ll s with
              | Some lscore => Some (inr lscore)
              | None => '(scorelen, scorebuf) ← d2string fpconv_dtoa (stack_buf fresh MAX_D2STRING_CHARS) s;
                        s ← mread scorebuf 0 scorelen; Some (inl s)
              end) = Some sc
    /\ batch_ok sc /\ score_of (batch_val sc) = stored s /\ zlen (enc (batch_val sc)) <= 33.
Proof.
  intros Hv Hn. unfold stored. destruct (double2ll s) as [l|] eqn:Hl.
  - pose proof (double2ll_range s l Hv Hl) as Hr. exists (inr l). split_and!; try done. pose proof (enc_int_size l Hr). cbn [batch_val]. lia.
  - destruct (score_text s Hv Hn Hl) as (t & Ht & Hb & Hlen & Hs). exists (inl t).
    destruct (d2string _ _ _) as [[n buf]|]; [|done]. revert Ht. sbind. intros ->. sbind.
    split_and!; [done|split; [done|lia]| |pose proof (enc_val_size t); cbn [batch_val]; lia].
    cbn [batch_val]. unfold val_of. destruct (lpStringToInt64 t) as [v|] eqn:Hi; cbn [ZzlSpec.score_of].
    + apply lpStringToInt64_iff in Hi as [Hi ->]. by rewrite <-Hs, strtod_dec.
    + rewrite take_ge by (unfold zlen in Hlen; lia). done.
Qed.

Lemma zzlInsertAt_spec lp ps qs e s :
  lp_rep lp (flat (ps ++ qs)) -> is_double s -> isnan s = false -> bytes_ok e ->
  off (flat (ps ++ qs)) + zlen e + 53 <= UINT32_MAX ->
  exists v lp', zzlInsertAt lp (pair_ptr ps qs) e s = Some (Some lp') /\ score_of v = stored s /\ zlen (enc v) <= 33
    /\ lp_rep lp' (flat (ps ++ (canon (val_of e), canon v) :: qs)).
Proof.
  intros R Hv Hn He Hsz. unfold Zzl.zzlInsertAt. destruct (score_entry s Hv Hn) as (sc & -> & Hok & Hsc & Hlen). sbind.
  set (v := batch_val sc) in *. exists v. set (es := [inl e; sc]).
  assert (Hbe : (batch_entry <$> es) = [canon (val_of e); canon v]) by done.
  assert (Hb : zlen (body ((batch_entry <$> es))) <= zlen e + 52).
  { rewrite Hbe. unfold body. cbn [fmap list_fmap concat]. rewrite app_nil_r, zlen_app.
    pose proof (zentry_size (val_of e)). pose proof (enc_val_size e). pose proof (zentry_size v). lia. }
  pose proof (off_ge (flat (ps ++ qs))) as Hoff. unfold UINT32_MAX in Hsz.
  rewrite flat_app in R. destruct (lpBatchInsert_spec usable fresh Husable lp (flat ps) (flat qs) es R) as (r & Hr & Hres); [done| |lia|].
  { repeat constructor; [done|lia|done]. }
  assert (Hfit : off (flat ps ++ (batch_entry <$> es) ++ flat qs) + 1 <= UINT32_MAX).
  { unfold off in *. rewrite flat_app, body_app, zlen_app in Hsz. rewrite !body_app, !zlen_app. unfold UINT32_MAX. lia. }
  destruct (Z.gtb_spec (off (flat ps ++ (batch_entry <$> es) ++ flat qs) + 1) UINT32_MAX); [lia|]. destruct Hres as (lp' & -> & R').
  exists lp'. split_and!; [|done|done|by rewrite flat_app, flat_cons].
  destruct qs as [|q qs]; cbn [pair_ptr]; [|by rewrite Hr].
  unfold lpBatchAppend. rewrite app_nil_r in R. rewrite (rep_total lp _ R). sbind. cbv zeta. rewrite Z.add_simpl_r, Hr. done.
Qed.

Lemma dtrichotomy (x y : double) : isnan x = false -> isnan y = false ->
  x <. y = true /\ y <. x = false /\ x ==. y = false
  \/ x <. y = false /\ y <. x = false /\ x ==. y = true
  \/ x <. y = false /\ y <. x = true /\ x ==. y = false.
Proof.
  intros Hx Hy. rewrite <-!not_true_iff_false, !dlt_key, !deq_key by done.
  destruct (lt3_total (dkey x) (dkey y)) as [H|[H|H]]; rewrite ?H; unfold lt3 in *;
    [left|right; left|right; right]; split_and!; try intros ?; simplify_eq; try done; try (rewrite H0 in *); lia.
Qed.

(** The loop of [zzlInsert] stops at the place of the new pair. *)
Lemma insert_loop_spec fuel lp ps qs e s :
  lp_rep lp (flat (ps ++ qs)) -> isnan s = false -> zlen e < 2 ^ 31 ->
  (forall q, q ∈ qs -> zlen (zn_ele (item q)) < 2 ^ 31 /\ zn_ele (item q) <> e /\ isnan (zn_score (item q)) = false) ->
  (length qs <= fuel)%nat ->
  let m := prefix_len (fun a => kltb (zn_key a) (s, e)) (items qs) in
  insert_loop fast_float_strtod fresh fuel lp e s (pair_ptr ps qs) = Some (pair_ptr (ps ++ take m qs) (drop m qs)).
Proof.
  intros R Hn He. revert fuel ps R. induction qs as [|q qs IH]; intros fuel ps R Hq Hf.
  - by destruct fuel.
  - destruct fuel as [|fuel]; [cbn in Hf; lia|]. cbn [pair_ptr insert_loop fmap list_fmap prefix_len].
    rewrite (next_of_ele lp ps q qs R). sbind. rewrite (getScore_spec fast_float_strtod lp ps q qs R). sbind.
    destruct (Hq q ltac:(by left)) as (Hl & Hne & Hnq).
    destruct (compareElements_spec fast_float_strtod fresh lp ps q qs R e Hl He) as (c & Hc & Hcs). rewrite Hc. sbind.
    assert (Hstop : (if s <. zn_score (item q) then Some true
              else if zn_score (item q) ==. s then Some (c >? 0) else Some false) = Some (negb (kltb (zn_key (item q)) (s, e)))).
    { unfold kltb, zn_key. cbn [fst snd]. pose proof (sdscmp_zero (zn_ele (item q)) e) as Hz.
      destruct (dtrichotomy _ _ Hnq Hn) as [(-> & -> & ->)|[(-> & -> & ->)|(-> & -> & ->)]]; [done| |done]. cbn [orb andb]. f_equal.
      destruct (Z.gtb_spec c 0), (Z.ltb_spec (sdscmp (zn_ele (item q)) e) 0); cbn [negb]; try done; exfalso; lia || (apply Hne, Hz; lia). }
    rewrite Hstop. sbind. destruct (kltb _ _); cbn [negb].
    + rewrite (next_of_score lp ps q qs R). sbind. rewrite (IH fuel (ps ++ [q])).
      * cbn [take drop]. by rewrite <-app_assoc.
      * by apply rep_next.
      * intros q' Hq'. apply Hq. by right.
      * cbn in Hf. lia.
    + cbn [take drop pair_ptr]. by rewrite app_nil_r.
Qed.

End zzl.
