(* ===== verification/ZzlRep.v ===== *)
(** * Sorted sets in a listpack: the map they hold

    The pairs of a listpack are in the order of the set, no element is there
    twice, and they are small enough for the listpack.  The operations keep this
    and act on the map from elements to scores. *)

From Stdlib Require Import SpecFloat.
From stdpp Require Import gmap.
From S2P Require Import Prelude Dict DictSpec Zskiplist ZskiplistSpec ZskiplistOps ZskiplistApi ZskiplistRange ZskiplistRangeSpec.
From S2P Require Import Zset ZsetSpec ZsetRefine Util Listpack ListpackSpec ListpackNav ListpackUpd Double Zzl ZzlSpec ZzlOps.

(** ** Sequences in order *)

Lemma sorted_sublist {B} (R : relation B) l l' : sublist l' l -> StronglySorted R l -> StronglySorted R l'.
Proof.
  induction 1 as [|x l l' Hs IH|x l l' Hs IH]; intros Hl; [done|inversion Hl as [|? ? H1 H2]; subst..]; [|auto].
  constructor; [auto|]. apply Forall_forall. intros y Hy. rewrite Forall_forall in H2. apply H2. by eapply elem_of_sublist.
Qed.

Lemma cut_sublist {B} (l : list B) i j : (i <= j)%nat -> sublist (take i l ++ drop j l) l.
Proof.
  intros Hij. rewrite <-(take_drop i l) at 3. apply sublist_app; [done|].
  replace j with (i + (j - i))%nat by lia. rewrite <-drop_drop. apply sublist_drop.
Qed.

(** A sequence of elements that differ, in the order of the set. *)
Record sequence (A : list znode) : Prop := {
  sq_ord : ordered A;
  sq_nodup : NoDup (zn_ele <$> A);
}.

Lemma sequence_sublist A B : sublist B A -> sequence A -> sequence B.
Proof.
  intros Hs [[O1 O2] Hnd]. split.
  - split; [by eapply sorted_sublist|]. intros a Ha. apply O2. by eapply elem_of_sublist.
  - by eapply sublist_NoDup, fmap_sublist.
Qed.

Section sequence.
Context (A : list znode) (Q : sequence A).

Lemma sq_members e s : members A !! e = Some s <-> exists a, a ∈ A /\ zn_ele a = e /\ zn_score a = s.
Proof. apply members_iff, Q. Qed.

Lemma sq_members_None e : members A !! e = None <-> forall a, a ∈ A -> zn_ele a <> e.
Proof.
  rewrite eq_None_not_Some. split.
  - intros Hn a Ha He. apply Hn. exists (zn_score a). apply sq_members. eauto.
  - intros Hn [s (a & Ha & He & _)%sq_members]. by apply (Hn a).
Qed.

Lemma sq_size : Z.of_nat (size (members A)) = zlen A.
Proof. by rewrite members_size by apply Q. Qed.

(** An element more, in its place. *)
Lemma sequence_put a :
  knum (zn_key a) -> members A !! zn_ele a = None ->
  let A' := take (place A (zn_key a)) A ++ a :: drop (place A (zn_key a)) A in
  sequence A' /\ members A' = <[zn_ele a := zn_score a]> (members A).
Proof.
  intros Hk Hno A'. rewrite sq_members_None in Hno. destruct Q as [O Hnd].
  assert (Q' : sequence A').
  { split; [split|].
    - apply sorted_insert; [by rewrite take_drop; apply O|..]; intros b (j & Hj)%list_elem_of_lookup.
      + apply lookup_take_Some in Hj as [Hj Hlt]. by apply (place_spec A O _ j b Hk).
      + rewrite lookup_drop in Hj. pose proof (proj2 O b (list_elem_of_lookup_2 _ _ _ Hj)) as Hb.
        destruct (klt_total (zn_key a) (zn_key b) Hk Hb) as [?|[[_ He]|Hlt]]; [done| |].
        * destruct (Hno b (list_elem_of_lookup_2 _ _ _ Hj)). done.
        * apply (place_spec A O _ _ b Hk Hj) in Hlt. lia.
    - intros b [->|Hb]%elem_of_put; [done|by apply O].
    - unfold A'. rewrite fmap_app, fmap_cons, <-(Permutation_middle _ _ _). apply NoDup_cons. rewrite <-fmap_app, take_drop. split; [|done].
      intros (b & He & Hb)%list_elem_of_fmap. by apply (Hno b Hb). }
  split; [done|]. apply members_unique; [apply Q'|]. intros e s. unfold A'. setoid_rewrite elem_of_put.
  destruct (decide (e = zn_ele a)) as [->|Hne].
  - rewrite lookup_insert_eq. split; [intros [= <-]; eauto|]. intros (b & [->|Hb] & He & <-); [done|]. by destruct (Hno b Hb).
  - rewrite lookup_insert_ne, sq_members by done. split; [intros (b & ? & ? & ?); eauto|]. intros (b & [->|Hb] & He & <-); [done|eauto].
Qed.

(** An element less. *)
Lemma sequence_cut A1 a A2 :
  A = A1 ++ a :: A2 -> sequence (A1 ++ A2) /\ members (A1 ++ A2) = delete (zn_ele a) (members A).
Proof.
  intros HA. assert (Q' : sequence (A1 ++ A2)).
  { apply (sequence_sublist A); [|done]. rewrite HA. apply sublist_app; [done|]. by constructor. }
  split; [done|]. destruct Q as [O Hnd]. apply members_unique; [apply Q'|]. intros e s.
  pose proof Hnd as Hnd'. rewrite HA, fmap_app, fmap_cons, <-(Permutation_middle _ _ _) in Hnd'. apply NoDup_cons in Hnd' as [Hno _].
  rewrite <-fmap_app in Hno. destruct (decide (e = zn_ele a)) as [->|Hne].
  - rewrite lookup_delete_eq. split; [done|]. intros (b & Hb & He & _). destruct Hno. rewrite <-He. by apply list_elem_of_fmap_2.
  - rewrite lookup_delete_ne, sq_members, HA by done. setoid_rewrite elem_of_app. setoid_rewrite elem_of_cons.
    split; intros (b & Hb & He & Hs); exists b; naive_solver.
Qed.

End sequence.

(** ** The listpack *)

Section zzl.
Context (fast_float_strtod : list Z -> double) (fpconv_dtoa : double -> list Z).
Context `{!Conversions fast_float_strtod fpconv_dtoa}.
Context (usable : Z -> Z) (fresh : nat -> Z) (Husable : forall n, n <= usable n).
Context (max_entries max_value : Z).
Local Abbreviation item := (item fast_float_strtod).
Local Abbreviation items ps := (item <$> ps).
Local Abbreviation zzlFind := (zzlFind fast_float_strtod).
Local Abbreviation zzlInsertAt := (zzlInsertAt fpconv_dtoa usable fresh).
Local Abbreviation zzlInsert := (zzlInsert fast_float_strtod fpconv_dtoa usable fresh).

(** The limits of the configuration keep a listpack well under its largest size. *)
Record limits : Prop := {
  lim_entries : 0 <= max_entries;
  lim_value : 0 <= max_value < 2 ^ 31;
  lim_size : LP_HDR_SIZE + max_entries * (max_value + 52) + 1 <= UINT32_MAX;
}.

(** The sizes of an element and of the entries of its pair. *)
Definition fits (p : entry * entry) : Prop :=
  zlen (zn_ele (item p)) <= max_value /\ zlen (ent_bytes p.1) <= max_value + 14 /\ zlen (ent_bytes p.2) <= 38.

Lemma fits_size ps : Forall fits ps -> zlen (body (flat ps)) <= zlen ps * (max_value + 52).
Proof.
  induction 1 as [|p ps (_ & H1 & H2) _ IH]; [done|]. rewrite flat_cons. unfold body in *. cbn [fmap list_fmap concat].
  rewrite !zlen_app, zlen_cons. lia.
Qed.

Record zzl_rep (zl : list Z) (ps : list (entry * entry)) : Prop := {
  zz_lp : lp_rep zl (flat ps);
  zz_seq : sequence (items ps);
  zz_fits : Forall fits ps;
  zz_len : zlen ps <= max_entries;
}.

Lemma item_double p : is_double (zn_score (item p)).
Proof. unfold ZzlSpec.item. cbn [zn_score]. destruct (e_val p.2) as [v|t]; cbn [score_of]; [apply ll2d_valid|apply strtod_double]. Qed.

Lemma kltb_stored a s e : kltb a (stored s, e) = kltb a (s, e).
Proof. unfold kltb. cbn [fst snd]. by rewrite <-dlt_norm, <-deq_norm, stored_norm, dlt_norm, deq_norm. Qed.

Lemma place_stored A s e : place A (stored s, e) = place A (s, e).
Proof. unfold place. induction A as [|a A IH]; [done|]. cbn [prefix_len]. by rewrite kltb_stored, IH. Qed.

Context (L : limits).

(** A pair added where it belongs. *)
Lemma zzl_put zl ps K e s :
  zzl_rep zl ps -> zlen ps + 1 <= max_entries -> is_double s -> isnan s = false -> bytes_ok e -> zlen e <= max_value ->
  members (items ps) !! e = None -> K = place (items ps) (s, e) ->
  exists zl' p, zzlInsertAt zl (pair_ptr (take K ps) (drop K ps)) e s = Some (Some zl')
    /\ zn_ele (item p) = e /\ zn_score (item p) = stored s /\ let ps' := take K ps ++ p :: drop K ps in
       zzl_rep zl' ps' /\ members (items ps') = <[e := stored s]> (members (items ps)).
Proof.
  intros [R Q F Hl] Hl' Hd Hn He Hel Hno HK. destruct L as [L1 L2 L3]. pose proof (zlen_nonneg ps). pose proof (fits_size ps F) as Hsz.
  destruct (zzlInsertAt_spec fast_float_strtod fpconv_dtoa usable fresh Husable zl (take K ps) (drop K ps) e s)
    as (v & zl' & -> & Hv & Hve & R'); [by rewrite take_drop|done..| |].
  { rewrite take_drop. unfold off. assert ((zlen ps + 1) * (max_value + 52) <= max_entries * (max_value + 52)) by nia. lia. }
  set (p := (canon (val_of e), canon v)) in *. exists zl', p. split; [done|].
  assert (Hp : zn_ele (item p) = e /\ zn_score (item p) = stored s) by (split; [apply text_val_of|done]). destruct Hp as [Hpe Hps].
  assert (Hpn : knum (zn_key (item p))).
  { unfold knum, zn_key. cbn [fst]. by rewrite Hps, <-isnan_norm, stored_norm, isnan_norm. }
  assert (HK' : K = place (items ps) (zn_key (item p))) by (unfold zn_key; by rewrite Hpe, Hps, place_stored).
  destruct (sequence_put (items ps) Q (item p) Hpn) as [Q' HM]; [by rewrite Hpe|]. rewrite <-HK', Hpe, Hps in HM. rewrite <-HK' in Q'.
  rewrite <-fmap_take, <-fmap_drop, <-fmap_cons, <-fmap_app in Q', HM. split; [done|]. split; [done|]. split; [split; try done|done].
  - apply Forall_app. split; [by apply Forall_take|]. constructor; [|by apply Forall_drop]. split_and!; [by rewrite Hpe|..]; cbn [fst snd p].
    + pose proof (zentry_size (val_of e)). pose proof (enc_val_size e). lia.
    + pose proof (zentry_size v). lia.
  - revert Hl'. unfold zlen. rewrite length_app. cbn [length]. rewrite length_take, length_drop. lia.
Qed.

Lemma zz_element zl ps q : zzl_rep zl ps -> q ∈ ps -> zlen (zn_ele (item q)) < 2 ^ 31 /\ isnan (zn_score (item q)) = false.
Proof.
  intros [R Q F _] Hq. destruct L as [_ L2 _]. rewrite Forall_forall in F. destruct (F q Hq) as [Hf _]. split; [lia|].
  by apply (proj2 (sq_ord _ Q)), list_elem_of_fmap_2.
Qed.

Lemma zzlInsert_spec zl ps e s :
  zzl_rep zl ps -> zlen ps + 1 <= max_entries -> is_double s -> isnan s = false -> bytes_ok e -> zlen e <= max_value ->
  members (items ps) !! e = None ->
  exists zl' ps', zzlInsert zl e s = Some (Some zl') /\ zzl_rep zl' ps' /\ members (items ps') = <[e := stored s]> (members (items ps)).
Proof.
  intros ZR Hl Hd Hn He Hel Hno. unfold Zzl.zzlInsert. destruct (seek_ends zl ps (zz_lp _ _ ZR)) as [-> _]. sbind.
  rewrite (insert_loop_spec fast_float_strtod fresh _ zl [] ps e s); try done.
  - sbind. cbn [app]. destruct (zzl_put zl ps _ e s ZR Hl Hd Hn He Hel Hno eq_refl) as (zl' & p & Hi & _ & _ & Hr). eauto.
  - apply ZR.
  - destruct L. lia.
  - intros q Hq. destruct (zz_element zl ps q ZR Hq). split_and!; try done.
    by apply (proj1 (sq_members_None _ (zz_seq _ _ ZR) e)), list_elem_of_fmap_2.
  - apply rep_fuel, ZR.
Qed.

(** What a search for an element finds. *)
Lemma zzl_find zl ps e want :
  zzl_rep zl ps ->
  match members (items ps) !! e with
  | Some s => exists ps1 q ps2, ps = ps1 ++ q :: ps2 /\ zn_ele (item q) = e /\ zn_score (item q) = s
      /\ zzlFind zl e want = Some (Some (off (flat ps1), if want then Some s else None))
  | None => zzlFind zl e want = Some None
  end.
Proof.
  intros [R Q _ _]. destruct (zzlFind_spec fast_float_strtod fresh zl ps e want R) as [(ps1 & q & ps2 & Hps & He & Hf)|[Hno Hf]].
  - assert (members (items ps) !! e = Some (zn_score (item q))) as ->; [|by exists ps1, q, ps2].
    apply (sq_members _ Q). exists (item q). split; [|done]. apply list_elem_of_fmap_2. rewrite Hps. set_solver.
  - assert (members (items ps) !! e = None) as ->; [|done]. apply (sq_members_None _ Q). intros a (q & -> & Hq)%list_elem_of_fmap.
    by apply Hno.
Qed.

Lemma zzl_sub zl ps zl' ps' : zzl_rep zl ps -> sublist ps' ps -> lp_rep zl' (flat ps') -> zzl_rep zl' ps'.
Proof.
  intros [R Q F Hl] Hs R'. split; [done| | |].
  - apply (sequence_sublist (items ps)); [by apply fmap_sublist|done].
  - rewrite Forall_forall in F |- *. intros q Hq. apply F. by eapply elem_of_sublist.
  - pose proof (sublist_length _ _ Hs). unfold zlen in *. lia.
Qed.

Lemma zzl_delete zl ps1 q ps2 :
  zzl_rep zl (ps1 ++ q :: ps2) ->
  exists zl', zzlDelete usable fresh zl (off (flat ps1)) = Some zl' /\ zzl_rep zl' (ps1 ++ ps2)
    /\ members (items (ps1 ++ ps2)) = delete (zn_ele (item q)) (members (items (ps1 ++ q :: ps2))).
Proof.
  intros ZR. destruct (zzlDelete_spec usable fresh Husable zl ps1 q ps2 (zz_lp _ _ ZR)) as (zl' & -> & R'). exists zl'.
  split; [done|]. split.
  - eapply zzl_sub; [done| |done]. apply sublist_app; [done|]. by constructor.
  - destruct (sequence_cut _ (zz_seq _ _ ZR) (items ps1) (item q) (items ps2)) as [_ HM]; [by rewrite fmap_app, fmap_cons|].
    by rewrite fmap_app, HM.
Qed.

(** ** Ranges *)

Lemma prefix_len_drop f A K : (K <= prefix_len f A)%nat -> prefix_len f (drop K A) = (prefix_len f A - K)%nat.
Proof.
  revert A. induction K as [|K IH]; intros A HK; [by rewrite drop_0, Nat.sub_0_r|]. destruct A as [|a A]; [cbn in HK; lia|].
  cbn [prefix_len drop] in *. destruct (f a); [|lia]. rewrite IH by lia. lia.
Qed.

(** The loop of the deletions removes what is in the range. *)
Lemma zzl_delete_by zl ps fg fl test :
  zzl_rep zl ps -> closed (fun a => negb (fg a)) (items ps) -> closed fl (items ps) ->
  (forall zl' ps1 q ps2, lp_rep zl' (flat (ps1 ++ q :: ps2)) ->
     test zl' (off (flat ps1)) (off (flat ps1 ++ [q.1])) = Some (fl (item q))) ->
  exists zl' ps', zzl_delete_loop usable fresh test (S (length zl)) zl (first_of fast_float_strtod ps fg fl) 0
      = Some (zl', zlen (range_nodes (items ps) fg fl))
    /\ zzl_rep zl' ps' /\ items ps' = others (items ps) fg fl.
Proof.
  intros ZR Hcg Hcl Ht. pose proof (slice_take (items ps) fg fl Hcg Hcl) as [Hr Ho]. unfold first_of.
  set (K := first_in (items ps) fg) in *. set (m := (end_in (items ps) fl - K)%nat) in *. rewrite <-Hr, <-Ho.
  assert (Hle : (end_in (items ps) fl <= length (items ps))%nat) by apply prefix_len_le.
  destruct (take m (drop K (items ps))) as [|a l] eqn:E.
  { exists zl, ps. split; [done|]. split; [done|]. rewrite <-(take_drop K (items ps)) at 1. f_equal.
    rewrite <-(take_drop m (drop K (items ps))) at 1. by rewrite E. }
  assert (Hm : (0 < m)%nat) by (destruct m; [done|lia]). rewrite <-E.
  assert (Hne : pair_ptr (take K ps) (drop K ps) = Some (off (flat (take K ps)))).
  { destruct (drop K ps) eqn:Ed; [|done]. rewrite <-fmap_drop, Ed in E. by destruct m. }
  rewrite <-Hne. pose proof (rep_fuel zl ps (zz_lp _ _ ZR)) as Hf. pose proof (rep_length zl _ (zz_lp _ _ ZR)) as [Hl1 Hl2].
  rewrite flat_length in Hl2.
  assert (Hlen : zlen (drop K ps) < 2 ^ 64) by (unfold zlen in *; rewrite length_drop; lia).
  destruct (delete_pairs_spec fast_float_strtod usable fresh Husable test fl (S (length zl)) zl (take K ps) (drop K ps) 0)
    as (zl' & Hz & R'); [intros; by eapply Ht|by rewrite take_drop; apply ZR|rewrite length_drop; lia|done|lia|].
  rewrite fmap_drop, prefix_len_drop in Hz, R' by (unfold end_in in *; lia). fold (end_in (items ps) fl) in Hz, R'. fold m in Hz, R'.
  exists zl', (take K ps ++ drop m (drop K ps)). rewrite Hz. split; [|split].
  - do 2 f_equal. unfold zlen. rewrite length_take, length_drop. lia.
  - apply (zzl_sub zl ps); [done| |done]. rewrite drop_drop. apply cut_sublist. lia.
  - by rewrite fmap_app, fmap_take, !fmap_drop.
Qed.

Lemma zzlDeleteRangeByScore_spec zl ps range :
  zzl_rep zl ps -> range_num range ->
  exists zl' ps', zzlDeleteRangeByScore fast_float_strtod usable fresh zl range
      = Some (zl', zlen (range_nodes (items ps) (gte_of range) (lte_of range)))
    /\ zzl_rep zl' ps' /\ items ps' = others (items ps) (gte_of range) (lte_of range).
Proof.
  intros ZR Hr. pose proof (sq_ord _ (zz_seq _ _ ZR)) as O. unfold zzlDeleteRangeByScore.
  rewrite (zzlFirstInRange_spec fast_float_strtod zl ps (zz_lp _ _ ZR) O range Hr). sbind.
  apply zzl_delete_by; [done|by apply closed_gte|by apply closed_lte|].
  intros zl' ps1 q ps2 R'. by rewrite (getScore_spec fast_float_strtod zl' ps1 q ps2 R').
Qed.

Lemma zzlDeleteRangeByLex_spec zl ps range :
  zzl_rep zl ps -> (forall a b, a ∈ items ps -> b ∈ items ps -> zn_score a ==. zn_score b = true) ->
  exists zl' ps', zzlDeleteRangeByLex usable fresh zl range
      = Some (zl', zlen (range_nodes (items ps) (lgte_of range) (llte_of range)))
    /\ zzl_rep zl' ps' /\ items ps' = others (items ps) (lgte_of range) (llte_of range).
Proof.
  intros ZR Hsame. pose proof (sq_ord _ (zz_seq _ _ ZR)) as O. unfold zzlDeleteRangeByLex.
  rewrite (zzlFirstInLexRange_spec fast_float_strtod fresh zl ps (zz_lp _ _ ZR) O Hsame range). sbind.
  apply zzl_delete_by; [done|by apply closed_lgte|by apply closed_llte|].
  intros zl' ps1 q ps2 R'. unfold zzlLexValueLteMax. by rewrite (getObject_spec fast_float_strtod fresh zl' ps1 q ps2 R').
Qed.

Lemma zzlDeleteRangeByRank_spec zl ps start stop :
  zzl_rep zl ps -> 0 <= start <= stop -> stop < zlen ps ->
  exists zl' ps', zzlDeleteRangeByRank usable fresh zl (u32 (start + 1)) (u32 (stop + 1)) = Some (zl', stop - start + 1)
    /\ zzl_rep zl' ps' /\ items ps' = take (Z.to_nat start) (items ps) ++ drop (Z.to_nat (stop + 1)) (items ps).
Proof.
  intros ZR Hs Hlt. pose proof (zz_len _ _ ZR) as Hl. destruct L as [L1 L2 L3].
  assert (Hb : zlen ps < 2 ^ 31) by (unfold LP_HDR_SIZE, UINT32_MAX in L3; nia).
  unfold zzlDeleteRangeByRank. cbv zeta. rewrite (wrap_small 32 (start + 1)), (wrap_small 32 (stop + 1)) by lia.
  rewrite (wrap_small 32 (stop + 1 - (start + 1))), (wrap_small 32 (start + 1 - 1)) by lia.
  rewrite (wrap_small 32 (stop + 1 - (start + 1) + 1)) by lia. rewrite !wrap_small by lia.
  destruct (lpDeleteRange_spec usable fresh Husable zl (flat ps) (2 * (start + 1 - 1)) (2 * (stop + 1 - (start + 1) + 1)) (zz_lp _ _ ZR))
    as (zl' & -> & R'); [lia|]. sbind.
  assert (seek_index (zlen (flat ps)) (2 * (start + 1 - 1)) = Some (2 * Z.to_nat start)%nat) as Hi.
  { unfold seek_index. rewrite flat_length, (proj2 (Z.ltb_ge _ _)) by lia. cbv zeta.
    rewrite (proj2 (Z.leb_le _ _)), (proj2 (Z.ltb_lt _ _)) by lia. cbn [andb]. f_equal. lia. }
  rewrite Hi in R'. unfold remove_range in R'.
  replace (2 * Z.to_nat start + Z.to_nat (2 * (stop + 1 - (start + 1) + 1)))%nat with (2 * Z.to_nat (stop + 1))%nat in R' by lia.
  rewrite take_flat, drop_flat, <-flat_app in R'.
  exists zl', (take (Z.to_nat start) ps ++ drop (Z.to_nat (stop + 1)) ps). split; [do 2 f_equal; lia|]. split.
  - apply (zzl_sub zl ps); [done| |done]. apply cut_sublist. lia.
  - by rewrite fmap_app, fmap_take, fmap_drop.
Qed.

End zzl.
