(* ===== verification/ZobjSpec.v ===== *)
(** * Sorted sets in either encoding: the conversions

    A sorted set object holds a map from elements to scores, as a listpack or as
    a skiplist with a dictionary.  The conversions keep the map; the one to a
    listpack stores every score as it will be read back, which is the same number. *)

From Stdlib Require Import SpecFloat.
From stdpp Require Import gmap.
From S2P Require Import Prelude Dict DictSpec DictMap DictRefine Zskiplist ZskiplistSpec ZskiplistOps ZskiplistApi.
From S2P Require Import ZskiplistRange ZskiplistRangeSpec Zset ZsetSpec ZsetRefine.
From S2P Require Import Util Listpack ListpackSpec ListpackNav ListpackUpd Double Zzl ZzlSpec ZzlOps ZzlRep Zobj.

(** The random numbers are enough for [k] levels. *)
Fixpoint enough (k : nat) (rnd : list Z) : bool :=
  match k with
  | O => true
  | S k => match zslRandomLevel rnd with Some (_, rnd) => enough k rnd | None => false end
  end.

Lemma enough_le k k' rnd : (k' <= k)%nat -> enough k rnd = true -> enough k' rnd = true.
Proof.
  revert k rnd. induction k' as [|k' IH]; intros [|k] rnd Hk He; cbn [enough] in *; try (done || lia).
  destruct (zslRandomLevel rnd) as [[? rnd']|]; [|done]. apply (IH k); [lia|done].
Qed.

Lemma members_snoc A a :
  NoDup (zn_ele <$> A ++ [a]) -> members (A ++ [a]) = <[zn_ele a := zn_score a]> (members A) /\ members A !! zn_ele a = None.
Proof.
  rewrite fmap_app. intros Hnd. apply NoDup_app in Hnd as (Hnd & Hno & _).
  assert (Ha : forall b, b ∈ A -> zn_ele b <> zn_ele a).
  { intros b Hb He. apply (Hno (zn_ele b)); [by apply list_elem_of_fmap_2|]. rewrite He. by left. }
  assert (HM : members A !! zn_ele a = None).
  { apply eq_None_not_Some. intros [s (b & Hb & He & _)%members_iff]; [|done]. by apply (Ha b). }
  split; [|done]. unfold members. rewrite fmap_app. cbn [fmap list_fmap]. rewrite list_to_map_snoc; [done|].
  rewrite <-list_fmap_compose. intros (b & He & Hb)%list_elem_of_fmap. by apply (Ha b).
Qed.

Section zobj.
Context (dictSdsHash : sds -> Z) (Hhash : forall e, in_unsigned 64 (dictSdsHash e)).
Context (indet : Zskiplist.ptr) (zmalloc : heap -> Zskiplist.ptr) (junk : option Zskiplist.ptr * zskiplistLevel).
Context (Hmalloc : forall h, h !! zmalloc h = None).
Context (fast_float_strtod : list Z -> double) (fpconv_dtoa : double -> list Z).
Context `{!Conversions fast_float_strtod fpconv_dtoa}.
Context (usable : Z -> Z) (fresh : nat -> Z) (Husable : forall n, n <= usable n).
Context (max_entries max_value : Z) (L : limits max_entries max_value).
Local Abbreviation item := (item fast_float_strtod).
Local Abbreviation items ps := (item <$> ps).
Local Abbreviation type := (zsetDictType dictSdsHash).
Local Abbreviation key_id := (fun e : sds => e).
Local Abbreviation zrep := (zrep dictSdsHash).
Local Abbreviation zzl_rep := (zzl_rep fast_float_strtod max_entries max_value).
#[local] Instance zset_keys'' : DictKeys type key_id := zset_keys dictSdsHash Hhash.

(** What a sorted set holds; the heap has the nodes of its skiplist only. *)
Definition orep (h : heap) (o : zobj) (M : gmap sds double) : Prop :=
  match o with
  | ENC_LISTPACK zl => h = ∅ /\ exists ps, zzl_rep zl ps /\ members (items ps) = M
  | ENC_SKIPLIST zs => exists A, zrep h zs A /\ members A = M
  end.

(** ** To a skiplist *)

Definition ptrs_at (ps qs : list (entry * entry)) : option (Z * Z) :=
  match qs with [] => None | q :: _ => Some (off (flat ps), off (flat ps ++ [q.1])) end.

Section mode.
Context (mode : dictResizeEnable).

Lemma to_skiplist_loop_spec k zl ps qs fuel h zs A rnd :
  zzl_rep zl (ps ++ qs) -> zrep h zs A -> members A = members (items ps) -> (length qs <= fuel)%nat ->
  enough (length qs + k) rnd = true ->
  exists h' zs' A' rnd', to_skiplist_loop dictSdsHash mode indet zmalloc junk fast_float_strtod fresh fuel zl (ptrs_at ps qs) h zs rnd
      = Some (h', zs', rnd')
    /\ zrep h' zs' A' /\ members A' = members (items (ps ++ qs)) /\ enough k rnd' = true.
Proof.
  revert ps fuel h zs A rnd. induction qs as [|q qs IH]; intros ps fuel h zs A rnd ZR R HM Hf He.
  - exists h, zs, A, rnd. rewrite app_nil_r. by destruct fuel.
  - destruct fuel as [|fuel]; [cbn in Hf; lia|]. cbn [ptrs_at to_skiplist_loop]. pose proof (zz_lp _ _ _ _ _ ZR) as Zl.
    rewrite (getScore_spec fast_float_strtod zl ps q qs Zl). sbind. rewrite (getObject_spec fast_float_strtod fresh zl ps q qs Zl). sbind.
    destruct (zz_element fast_float_strtod max_entries max_value L zl _ q ZR ltac:(set_solver)) as [_ Hn].
    pose proof (sq_nodup _ (zz_seq _ _ _ _ _ ZR)) as Hnd. replace (ps ++ q :: qs) with ((ps ++ [q]) ++ qs) in ZR, Hnd |- * by by rewrite <-app_assoc.
    rewrite fmap_app, fmap_app in Hnd. apply NoDup_app in Hnd as (Hnd & _ & _). rewrite fmap_app in Hnd.
    destruct (members_snoc (items ps) (item q) Hnd) as [Hsn Hno]. rewrite fmap_app in Hnd. apply NoDup_app in Hnd as (Hnd & _ & _).
    cbn [length Nat.add enough] in He. destruct (zslRandomLevel rnd) as [[lv rnd']|] eqn:Hr; [|done].
    assert (Hsm : zlen A + 1 < 2 ^ 63).
    { rewrite <-(zr_size dictSdsHash h zs A R), HM, (members_size _ Hnd), length_fmap. pose proof (rep_length zl _ Zl) as [_ Hb].
      rewrite flat_length in Hb. unfold zlen in Hb. rewrite !length_app in Hb. lia. }
    rewrite <-HM in Hno.
    destruct (zset_insert dictSdsHash Hhash mode indet zmalloc junk Hmalloc h zs A _ _ rnd lv rnd' R Hn Hno Hsm Hr)
      as (x & h1 & zsl1 & d1 & A1 & -> & Hadd & R1 & HM1). sbind. rewrite Hadd. sbind. rewrite bool_decide_true by done.
    rewrite (zzlNext_spec zl ps q qs Zl). sbind. change (match qs with [] => None | q0 :: _ => _ end) with (ptrs_at (ps ++ [q]) qs).
    apply (IH (ps ++ [q]) fuel h1 _ A1 rnd' ZR R1); [|cbn in Hf; lia|done].
    rewrite HM1, HM, fmap_app. exact (eq_sym Hsn).
Qed.

(** A new skiplist and dictionary, of any size. *)
Lemma new_zset cap :
  0 <= cap < 2 ^ 64 ->
  exists zsl h d st, zslCreate zmalloc junk ∅ = Some (zsl, h) /\ dictExpand type mode (dictCreate : @dict sds Zskiplist.ptr) cap = Some (st, d)
    /\ zrep h (mkZset d zsl) [].
Proof.
  intros Hc. destruct (zcreate_spec dictSdsHash zmalloc junk Hmalloc ∅ eq_refl) as (h & zs & Hz & R). unfold createZsetObject in Hz.
  destruct (zslCreate zmalloc junk ∅) as [[zsl h']|]; [|done]. revert Hz. sbind. intros [= <- <-].
  destruct (dictExpand_same type key_id mode (dictCreate : @dict sds Zskiplist.ptr) cap (zr_wf _ _ _ _ R) Hc) as (st & d & Hd & Hs & _).
  exists zsl, h', d, st. split; [done|]. split; [done|]. apply (zr_step dictSdsHash _ _ _ R d Hs).
Qed.

Lemma to_skiplist_spec k zl M cap rnd :
  orep ∅ (ENC_LISTPACK zl) M -> 0 <= cap < 2 ^ 64 -> enough (size M + k) rnd = true ->
  exists h zs rnd', zsetConvertAndExpand dictSdsHash mode indet zmalloc junk fast_float_strtod fpconv_dtoa usable fresh
      ∅ (ENC_LISTPACK zl) OBJ_ENCODING_SKIPLIST cap rnd = Some (h, ENC_SKIPLIST zs, rnd')
    /\ orep h (ENC_SKIPLIST zs) M /\ enough k rnd' = true.
Proof.
  intros [_ (ps & ZR & HM)] Hc He. unfold zsetConvertAndExpand. rewrite bool_decide_false by done.
  destruct (new_zset cap Hc) as (zsl & h & d & st & -> & Hd & R). sbind. rewrite Hd. sbind.
  destruct (seek_ends zl ps (zz_lp _ _ _ _ _ ZR)) as [-> _]. sbind.
  assert (Hp : match pair_ptr [] ps with
               | Some eptr => sptr ← lpNext zl eptr; sptr ← sptr; Some (Some (eptr, sptr))
               | None => Some None
               end = Some (ptrs_at [] ps)).
  { destruct ps as [|p ps]; [done|]. cbn [pair_ptr ptrs_at]. by rewrite (next_of_ele zl [] p ps (zz_lp _ _ _ _ _ ZR)). }
  rewrite Hp. sbind. rewrite <-HM, (members_size _ (sq_nodup _ (zz_seq _ _ _ _ _ ZR))), length_fmap in He.
  destruct (to_skiplist_loop_spec k zl [] ps (S (length zl)) h _ [] rnd ZR R eq_refl (rep_fuel zl ps (zz_lp _ _ _ _ _ ZR)) He)
    as (h' & zs' & A' & rnd' & -> & R' & HM' & He'). sbind. exists h', zs', rnd'. split; [done|]. split; [|done]. exists A'. by rewrite HM'.
Qed.

(** ** To a listpack *)

(** What a listpack can hold. *)
Definition small (e : sds) (s : double) : Prop := bytes_ok e /\ zlen e <= max_value /\ is_double s.

Definition stored_as (p : entry * entry) (a : znode) : Prop := zn_ele (item p) = zn_ele a /\ zn_score (item p) = stored (zn_score a).

Lemma stored_as_members ps A : Forall2 stored_as ps A -> members (items ps) = stored <$> members A.
Proof.
  intros Hf. unfold members. rewrite <-list_to_map_fmap. f_equal. induction Hf as [|p a ps A [He Hs] _ IH]; [done|].
  cbn [fmap list_fmap]. by rewrite He, Hs, IH.
Qed.

Lemma kltb_stored_l s e b : kltb (stored s, e) b = kltb (s, e) b.
Proof. unfold kltb. cbn [fst snd]. by rewrite <-dlt_norm, <-deq_norm, stored_norm, dlt_norm, deq_norm. Qed.

(** A node after all those stored goes to the end. *)
Lemma stored_place ps A a :
  Forall2 stored_as ps A -> ordered (A ++ [a]) -> place (items ps) (zn_key a) = length ps.
Proof.
  intros Hf [Hs _]. apply StronglySorted_app in Hs as (Hs & _ & _). unfold place.
  assert (Hlt : forall b, b ∈ A -> klt (zn_key b) (zn_key a)) by (intros b Hb; apply Hs; [done|by left]). clear Hs.
  induction Hf as [|p b ps A [He Hsc] _ IH]; [done|]. cbn [fmap list_fmap prefix_len].
  assert (kltb (zn_key (item p)) (zn_key a) = true) as ->.
  { unfold zn_key at 1. rewrite He, Hsc, kltb_stored_l. apply kltb_spec, Hlt. by left. }
  cbn [length]. f_equal. apply IH. intros c Hc. apply Hlt. by right.
Qed.

Lemma to_listpack_loop_spec h zsl A1 A2 zl ps h1 :
  rep h zsl (A1 ++ A2) -> NoDup (zn_ele <$> A1 ++ A2) -> (forall b, b ∈ A2 -> h1 !! zn_ptr b = h !! zn_ptr b) ->
  (forall b, b ∈ A2 -> small (zn_ele b) (zn_score b)) -> zlen (A1 ++ A2) <= max_entries ->
  zzl_rep zl ps -> Forall2 stored_as ps A1 ->
  exists zl' h' ps', to_listpack_loop fpconv_dtoa usable fresh (length A2) zl h1 (zn_ptr <$> head A2) = Some (zl', h')
    /\ dom h' = dom h1 ∖ list_to_set (zn_ptr <$> A2) /\ zzl_rep zl' ps' /\ Forall2 stored_as ps' (A1 ++ A2).
Proof.
  revert A1 zl ps h1. induction A2 as [|a A2 IH]; intros A1 zl ps h1 R Hnd Hb Hsm Hlen ZR Hst.
  - exists zl, h1, ps. rewrite app_nil_r. split; [done|]. split; [set_solver|done].
  - cbn [length head fmap option_fmap option_map to_listpack_loop].
    destruct (free_step h zsl A1 a A2 h1 R Hb) as (n & l & Hn & Hne & Hns & Hg & Hf & Hb'). rewrite Hn. sbind. rewrite Hne. sbind. rewrite Hns.
    destruct (Hsm a ltac:(by left)) as (He & Hel & Hd). pose proof (rep_num _ _ _ R a ltac:(set_solver)) as Hna.
    pose proof (Forall2_length _ _ _ Hst) as Hl12. replace (A1 ++ a :: A2) with ((A1 ++ [a]) ++ A2) in * by by rewrite <-app_assoc.
    assert (Ho : ordered (A1 ++ [a])).
    { destruct (rep_ordered _ _ _ R) as [O1 O2]. split; [by apply StronglySorted_app in O1 as (_ & ? & _)|]. intros b Hb2. apply O2. set_solver. }
    assert (Hno : members (items ps) !! zn_ele a = None).
    { rewrite (stored_as_members _ _ Hst), lookup_fmap. rewrite fmap_app in Hnd. apply NoDup_app in Hnd as (Hnd & _).
      by rewrite (proj2 (members_snoc A1 a Hnd)). }
    destruct (zzl_put fast_float_strtod fpconv_dtoa usable fresh Husable max_entries max_value L zl ps (length ps) (zn_ele a) (zn_score a) ZR)
      as (zl1 & p & Hi & Hpe & Hps & ZR1 & _); try done.
    { unfold zlen in *. rewrite !length_app in Hlen. cbn in Hlen. lia. }
    { symmetry. by apply (stored_place ps A1 a). }
    rewrite drop_all, firstn_all in Hi, ZR1. cbn [pair_ptr] in Hi. rewrite Hi. sbind. rewrite Hg. sbind. unfold zslFreeNode. rewrite Hn. sbind. rewrite Hf.
    destruct (IH (A1 ++ [a]) zl1 (ps ++ [p]) (delete (zn_ptr a) h1)) as (zl' & h' & ps' & -> & Hdom & ZR' & Hst'); try done.
    + intros b Hb2. apply Hsm. by right.
    + apply Forall2_app; [done|]. by repeat constructor.
    + exists zl', h', ps'. split; [done|]. split; [|done]. rewrite Hdom, dom_delete_L. cbn. set_solver.
Qed.

Lemma new_listpack : exists zl, lpNew usable fresh 0 = Some zl /\ zzl_rep zl [].
Proof.
  destruct (new_spec usable fresh Husable 0) as (zl & Hz & R). exists zl. split; [done|]. split; [done| |done|apply L].
  split; [|apply NoDup_nil_2]. split; [constructor|]. by intros a ?%elem_of_nil.
Qed.

Lemma to_listpack_spec h zs M cap rnd :
  orep h (ENC_SKIPLIST zs) M -> map_Forall small M -> Z.of_nat (size M) <= max_entries ->
  exists zl, zsetConvertAndExpand dictSdsHash mode indet zmalloc junk fast_float_strtod fpconv_dtoa usable fresh
      h (ENC_SKIPLIST zs) OBJ_ENCODING_LISTPACK cap rnd = Some (∅, ENC_LISTPACK zl, rnd)
    /\ orep ∅ (ENC_LISTPACK zl) (stored <$> M).
Proof.
  intros (A & ZR & <-) Hsm Hsz. pose proof (zr_rep _ _ _ _ ZR) as R. unfold zsetConvertAndExpand. rewrite bool_decide_false by done.
  destruct new_listpack as (zl & -> & Hzl). sbind.
  destruct (dictRelease_spec _ _ (zs_dict zs) (zr_wf _ _ _ _ ZR)) as (cs & -> & _). sbind. set (zsl := zs_zsl zs) in *.
  destruct (next_of_place h zsl A R 0%nat (Zskiplist.header zsl) ZSKIPLIST_MAXLEVEL eq_refl) as (l & -> & Hf). sbind.
  unfold zslFreeNode. destruct (towers_heap h zsl A R 0%nat _ _ eq_refl) as [n ->]. sbind.
  rewrite (ZskiplistSpec.rep_length _ _ _ R), to_nat_zlen, Hf, <-head_lookup.
  destruct (to_listpack_loop_spec h zsl [] A zl [] (delete (Zskiplist.header zsl) h) R) as (zl' & h' & ps' & -> & Hd & ZR' & Hst); try done.
  - apply (zr_nodup dictSdsHash h zs A ZR).
  - intros b Hb. rewrite lookup_delete_ne; [done|]. by intros He%eq_sym%(ptr_not_header _ _ _ b R).
  - intros b Hb. apply (Hsm (zn_ele b) (zn_score b)), (zr_members dictSdsHash h zs A ZR). eauto.
  - cbn [app]. by rewrite <-(zr_size dictSdsHash h zs A ZR).
  - sbind. assert (h' = ∅) as ->.
    { apply dom_empty_inv_L. rewrite Hd, dom_delete_L, (zr_dom _ _ _ _ ZR). unfold towers. cbn [fmap list_fmap].
      rewrite <-list_fmap_compose. change (fst ∘ tower) with zn_ptr. set_solver. }
    exists zl'. split; [done|]. split; [done|]. exists ps'. split; [done|]. by apply stored_as_members.
Qed.

End mode.
End zobj.
