(* ===== verification/ZobjRefine.v ===== *)
(** * Sorted sets in either encoding: the whole interface

    A listpack keeps a score as an integer where it is one, which loses the sign
    of a zero and nothing else.  Maps whose scores are the same numbers are
    equivalent, the operations respect this, and any sequence of operations on a
    sorted set, whatever its encoding at each time, does what it does on the map. *)

From Stdlib Require Import SpecFloat.
From stdpp Require Import gmap.
From S2P Require Import Prelude Dict DictSpec DictMap DictRefine Zskiplist ZskiplistSpec ZskiplistOps ZskiplistApi.
From S2P Require Import ZskiplistRange ZskiplistRangeSpec Zset ZsetSpec ZsetRefine.
From S2P Require Import Util Listpack ListpackSpec ListpackNav ListpackUpd Double Zzl ZzlSpec ZzlOps ZzlRep Zobj ZobjSpec.

(** ** Scores that are the same number *)

Definition dsame (x y : double) : Prop := dnorm x = dnorm y.
Definition meq (M N : gmap sds double) : Prop := dnorm <$> M = dnorm <$> N.

#[export] Instance dsame_equiv : Equivalence dsame.
Proof. split; unfold dsame; [done|by intros ? ? ?|by intros ? ? ? -> ->]. Qed.
#[export] Instance meq_equiv : Equivalence meq.
Proof. split; unfold meq; [done|by intros ? ? ?|by intros ? ? ? -> ->]. Qed.

#[export] Instance dlt_proper : Proper (dsame ==> dsame ==> eq) (fun x y => x <. y).
Proof. intros x x' Hx y y' Hy. by rewrite <-(dlt_norm x), <-(dlt_norm x'), Hx, Hy. Qed.
#[export] Instance dle_proper : Proper (dsame ==> dsame ==> eq) (fun x y => x <=. y).
Proof. intros x x' Hx y y' Hy. by rewrite <-(dle_norm x), <-(dle_norm x'), Hx, Hy. Qed.
#[export] Instance deq_proper : Proper (dsame ==> dsame ==> eq) (fun x y => x ==. y).
Proof. intros x x' Hx y y' Hy. by rewrite <-(deq_norm x), <-(deq_norm x'), Hx, Hy. Qed.
#[export] Instance isnan_proper : Proper (dsame ==> eq) isnan.
Proof. intros x x' Hx. by rewrite <-isnan_norm, Hx, isnan_norm. Qed.
#[export] Instance dadd_proper : Proper (dsame ==> dsame ==> dsame) dadd.
Proof. intros x x' Hx y y' Hy. unfold dsame. by rewrite <-dadd_norm, Hx, Hy, dadd_norm. Qed.
#[export] Instance is_double_proper : Proper (dsame ==> iff) is_double.
Proof. intros x y Hxy. unfold dsame in Hxy. destruct x, y; cbn in Hxy; simplify_eq; done. Qed.
#[export] Instance kltb_proper : Proper (dsame ==> dsame ==> forall_relation (fun _ => forall_relation (fun _ => eq)))
  (fun x y e e' => kltb (x, e) (y, e')).
Proof.
  intros x x' Hx y y' Hy e e'. unfold kltb. cbn [fst snd].
  by rewrite (dlt_proper x x' Hx y y' Hy), (deq_proper x x' Hx y y' Hy).
Qed.

(** The element is in both maps or in none. *)
Lemma meq_cases M N e :
  meq M N -> M !! e = None /\ N !! e = None \/ exists s t, M !! e = Some s /\ N !! e = Some t /\ dsame s t.
Proof.
  intros Hm. assert (He : (dnorm <$> M) !! e = (dnorm <$> N) !! e) by (by rewrite Hm). rewrite !lookup_fmap in He.
  destruct (M !! e) as [s|], (N !! e) as [t|]; try done; [right|by left]. exists s, t. by injection He.
Qed.

Lemma meq_intro M N :
  (forall e, M !! e = None /\ N !! e = None \/ exists s t, M !! e = Some s /\ N !! e = Some t /\ dsame s t) -> meq M N.
Proof.
  intros H. apply map_eq. intros e. rewrite !lookup_fmap. destruct (H e) as [[-> ->]|(s & t & -> & -> & Hs)]; [done|]. cbn. by f_equal.
Qed.

Lemma meq_size M N : meq M N -> size M = size N.
Proof. intros Hm. by rewrite <-(map_size_fmap dnorm M), Hm, map_size_fmap. Qed.
Lemma meq_empty M N : meq M N -> (M = ∅ <-> N = ∅).
Proof. intros Hm. by rewrite <-!map_size_empty_iff, (meq_size _ _ Hm). Qed.

#[export] Instance insert_proper e : Proper (dsame ==> meq ==> meq) (insert e).
Proof. intros s t Hs M N Hm. unfold meq. by rewrite !fmap_insert, Hs, Hm. Qed.
#[export] Instance delete_proper e : Proper (meq ==> meq) (delete e).
Proof. intros M N Hm. unfold meq. by rewrite !fmap_delete, Hm. Qed.

Lemma meq_filter (f g : sds * double -> bool) (b : bool) M N :
  (forall e s t, dsame s t -> f (e, s) = g (e, t)) -> meq M N ->
  meq (filter (fun p => f p = b) M) (filter (fun p => g p = b) N).
Proof.
  intros Hfg Hm. apply meq_intro. intros e. rewrite !map_lookup_filter.
  destruct (meq_cases M N e Hm) as [[-> ->]|(s & t & -> & -> & Hs)]; [by left|]. cbn. pose proof (Hfg e s t Hs) as He.
  destruct (f (e, s)) eqn:Ef, b; repeat case_guard; cbn; try congruence; [right; eauto|left; done..|right; eauto].
Qed.

Lemma rank_proper M N s t e : meq M N -> dsame s t -> rank_in M (s, e) = rank_in N (t, e).
Proof.
  intros Hm Hs. rewrite !rank_in_kltb. f_equal. apply meq_size, (meq_filter (fun p => kltb (p.2, p.1) (s, e)) (fun p => kltb (p.2, p.1) (t, e))); [|done].
  intros e' s' t' Hs'. apply (kltb_proper s' t' Hs' s t Hs).
Qed.

(** The results up to the sign of a zero. *)
Definition norm_res (r : zres) : zres :=
  match r with
  | RAdd r => RAdd (mkZadd (za_ret r) (za_flags r) (dnorm <$> za_newscore r))
  | RScore s => RScore (dnorm <$> s)
  | RRank n s => RRank n (dnorm <$> s)
  | r => r
  end.
Definition same_outcome (p q : zres * gmap sds double) : Prop := norm_res p.1 = norm_res q.1 /\ meq p.2 q.2.

Lemma zadd_spec_proper M N s e f :
  meq M N -> let p := zadd_spec M s e f in let q := zadd_spec N s e f in same_outcome (RAdd p.1, p.2) (RAdd q.1, q.2).
Proof.
  intros Hm. unfold zadd_spec, same_outcome. cbv zeta. destruct (isnan s); [done|].
  destruct (meq_cases M N e Hm) as [[-> ->]|(c & c' & -> & -> & Hc)].
  - destruct (negb _); cbn [fst snd]; [done|]. split; [done|]. by apply insert_proper.
  - set (x := if negb ((f &&& ZADD_IN_INCR) =? 0) then dadd s c else s).
    set (y := if negb ((f &&& ZADD_IN_INCR) =? 0) then dadd s c' else s).
    assert (Hxy : dsame x y) by (unfold x, y; destruct (negb _); [by apply dadd_proper|done]).
    rewrite (isnan_proper x y Hxy), (dle_proper c c' Hc x y Hxy), (dle_proper x y Hxy c c' Hc), (deq_proper x y Hxy c c' Hc).
    destruct (negb ((f &&& ZADD_IN_NX) =? 0)); [done|]. destruct (isnan y); [done|]. destruct (_ || _); [done|].
    destruct (y ==. c'); (split; [cbn; by rewrite Hxy|]); [done|]. by apply insert_proper.
Qed.

Lemma remove_in_proper M N f g :
  meq M N -> (forall e s t, dsame s t -> f (e, s) = g (e, t)) ->
  (remove_in M f).1 = (remove_in N g).1 /\ meq (remove_in M f).2 (remove_in N g).2.
Proof.
  intros Hm Hfg. pose proof (meq_filter f g false M N Hfg Hm) as Hf. unfold remove_in. cbn [fst snd].
  split; [|done]. rewrite (meq_size _ _ Hm), (meq_size _ _ Hf). f_equal. apply bool_decide_ext. by apply meq_empty.
Qed.

Lemma remrange_spec_proper M N range :
  meq M N -> (zset_remrange_spec M range).1 = (zset_remrange_spec N range).1
    /\ meq (zset_remrange_spec M range).2 (zset_remrange_spec N range).2.
Proof.
  intros Hm. destruct range as [a b|range|range]; cbn [zset_remrange_spec].
  - rewrite (bool_decide_ext (M = ∅) (N = ∅)) by (by apply meq_empty). destruct (bool_decide (N = ∅)); [done|]. apply remove_in_proper; [done|].
    intros e s t Hs. unfold in_ranks. cbn [fst snd]. by rewrite (meq_size _ _ Hm), (rank_proper M N s t e Hm Hs).
  - apply remove_in_proper; [done|]. intros e s t Hs. unfold in_score. cbn [snd].
    rewrite (deq_proper _ _ (reflexivity (r_min range)) s t Hs), (dle_proper _ _ (reflexivity (r_min range)) s t Hs).
    by rewrite (deq_proper s t Hs _ _ (reflexivity (r_max range))), (dle_proper s t Hs _ _ (reflexivity (r_max range))).
  - by apply remove_in_proper.
Qed.

(** The operations on the map respect the equivalence. *)
Lemma zspec_proper o M N : meq M N -> same_outcome (zspec o M) (zspec o N).
Proof.
  intros Hm. destruct o as [s e f rnd|e|e|e rev| |range]; cbn [zspec].
  - pose proof (zadd_spec_proper M N s e f Hm) as H. cbv zeta in H. by destruct (zadd_spec M s e f), (zadd_spec N s e f).
  - split; [|done]. cbn. by destruct (meq_cases M N e Hm) as [[-> ->]|(c & c' & -> & -> & Hc)]; cbn; rewrite ?Hc.
  - split; [|by apply delete_proper]. cbn. by destruct (meq_cases M N e Hm) as [[-> ->]|(c & c' & -> & -> & Hc)].
  - split; [|done]. cbn. rewrite (meq_size _ _ Hm).
    destruct (meq_cases M N e Hm) as [[-> ->]|(c & c' & -> & -> & Hc)]; [done|]. cbn. by rewrite Hc, (rank_proper M N c c' e Hm Hc).
  - split; [|done]. cbn. by rewrite (meq_size _ _ Hm).
  - pose proof (remrange_spec_proper M N range Hm) as [H1 H2].
    destruct (zset_remrange_spec M range) as [[n b] M'], (zset_remrange_spec N range) as [[n' b'] N']. cbn [fst snd] in *.
    split; [|done]. by injection H1 as -> ->.
Qed.

Lemma outcome_meq M N o p : meq M N -> same_outcome p (zspec o M) -> same_outcome p (zspec o N).
Proof.
  intros Hm [H1 H2]. destruct (zspec_proper o M N Hm) as [H3 H4]. split; [congruence|by etransitivity].
Qed.

(** ** The interface *)

(** The operations on a sorted set and the conversions. *)
Inductive oop :=
  | OZ (o : zop)
  | OMaybeConvert (size_hint : Z) (rnd : list Z)
  | OToListpack (maxelelen totelelen : Z).

Section exec.
Context (hash : sds -> Z) (indet : Zskiplist.ptr) (zmalloc : heap -> Zskiplist.ptr) (junk : option Zskiplist.ptr * zskiplistLevel).
Context (strtod : list Z -> double) (dtoa : double -> list Z) (usable : Z -> Z) (fresh : nat -> Z) (max_entries max_value : Z).

Definition oexec (o : dictResizeEnable * oop) (st : heap * zobj) : option (option zres * (heap * zobj)) :=
  let (mode, o) := o in
  let (h, zo) := st in
  match o with
  | OZ (ZAdd s e f rnd) =>
      '(r, h, zo, _) ← zsetAdd hash mode indet zmalloc junk strtod dtoa usable fresh max_entries max_value h zo s e f rnd;
      Some (Some (RAdd r), (h, zo))
  | OZ (ZScore e) => '(r, zo) ← zsetScore hash mode strtod h zo e; Some (Some (RScore r), (h, zo))
  | OZ (ZDel e) => '(r, h, zo) ← zsetDel hash mode strtod usable fresh h zo e; Some (Some (RDel r), (h, zo))
  | OZ (ZRank e rev) => '(r, s, zo) ← zsetRank hash mode strtod h zo e rev; Some (Some (RRank r s), (h, zo))
  | OZ ZCard => '(n, zo) ← zsetLength zo; Some (Some (RCard n), (h, zo))
  | OZ (ZRemRange range) => '(n, b, h, zo) ← zremrange hash mode strtod usable fresh h zo range; Some (Some (RRem n b), (h, zo))
  | OMaybeConvert size_hint rnd =>
      '(h, zo, _) ← zsetTypeMaybeConvert hash mode indet zmalloc junk strtod dtoa usable fresh max_entries h zo size_hint rnd;
      Some (None, (h, zo))
  | OToListpack maxelelen totelelen =>
      '(h, zo, _) ← zsetConvertToListpackIfNeeded hash mode indet zmalloc junk strtod dtoa usable fresh max_entries max_value
                      h zo maxelelen totelelen [];
      Some (None, (h, zo))
  end.

Fixpoint orun (os : list (dictResizeEnable * oop)) (st : heap * zobj) : option (list (option zres) * (heap * zobj)) :=
  match os with
  | [] => Some ([], st)
  | o :: os => '(r, st) ← oexec o st; '(rs, st) ← orun os st; Some (r :: rs, st)
  end.
End exec.

(** The same on the map: the conversions do nothing. *)
Definition ospec (o : oop) (M : gmap sds double) : option zres * gmap sds double :=
  match o with
  | OZ o => let (r, M) := zspec o M in (Some r, M)
  | _ => (None, M)
  end.
Fixpoint ospec_run (os : list (dictResizeEnable * oop)) (M : gmap sds double) : list (option zres) * gmap sds double :=
  match os with
  | [] => ([], M)
  | (_, o) :: os => let (r, M) := ospec o M in let (rs, M) := ospec_run os M in (r :: rs, M)
  end.

Definition norm_out (r : option zres) : option zres := norm_res <$> r.

(** What the callers ensure: scores are doubles and elements strings of bytes,
    the random numbers are enough for the levels a conversion draws too, ranks
    are asked of sets that are not empty, [maxelelen] is no less than the length
    of any element. *)
Definition oop_ok (M : gmap sds double) (o : oop) : Prop :=
  match o with
  | OZ (ZAdd s e _ rnd) => is_double s /\ bytes_ok e /\ enough (S (size M)) rnd = true
  | OZ (ZRank _ _) => M <> ∅
  | OZ (ZRemRange range) => range_ok M range
  | OZ _ => True
  | OMaybeConvert size_hint rnd => 0 <= size_hint < 2 ^ 64 /\ enough (size M) rnd = true
  | OToListpack maxelelen _ => map_Forall (fun e _ => zlen e <= maxelelen) M
  end.
Fixpoint oops_ok (M : gmap sds double) (os : list (dictResizeEnable * oop)) : Prop :=
  match os with
  | [] => True
  | (_, o) :: os => oop_ok M o /\ oops_ok (ospec o M).2 os
  end.

(** Elements are strings of bytes and scores are doubles. *)
Definition typed (M : gmap sds double) : Prop := map_Forall (fun e s => bytes_ok e /\ is_double s) M.

Lemma typed_meq M N : meq M N -> typed M -> typed N.
Proof.
  intros Hm Ht e t Ht'. destruct (meq_cases M N e Hm) as [[_ ?]|(s & t' & Hs & ? & Hst)]; [congruence|]. simplify_eq.
  destruct (Ht e s Hs) as [? ?]. split; [done|]. by rewrite <-Hst.
Qed.

Lemma typed_ospec o M : oop_ok M o -> typed M -> typed (ospec o M).2.
Proof.
  intros Hok Ht. destruct o as [[s e f rnd|e|e|e rev| |range]|sz rnd|a b]; try done; cbn [ospec zspec].
  - destruct Hok as (Hs & He & _). unfold zadd_spec. destruct (isnan s); [done|].
    assert (Hins : forall x, is_double x -> typed (<[e := x]> M)) by (intros x Hx; by apply map_Forall_insert_2).
    destruct (M !! e) as [c|] eqn:Hc; repeat case_match; simplify_eq/=; try done; try by apply Hins.
    apply Hins. destruct (Ht e c Hc). by apply dadd_valid.
  - by apply map_Forall_delete.
  - assert (Hr : forall f, typed (remove_in M f).2) by (intros f e s [Hl _]%map_lookup_filter_Some; by apply (Ht e s)).
    destruct range as [a b|range|range]; cbn [zset_remrange_spec].
    + destruct (bool_decide (M = ∅)); [done|apply (Hr (in_ranks M a b))].
    + apply (Hr (in_score range)).
    + apply (Hr (in_lex range)).
Qed.

Lemma typed_run os M : oops_ok M os -> typed M -> typed (ospec_run os M).2.
Proof.
  revert M. induction os as [|[mode o] os IH]; intros M Hok Ht; [done|]. destruct Hok as [Ho Hos]. cbn [ospec_run].
  pose proof (typed_ospec o M Ho Ht) as Ht'. destruct (ospec o M) as [r M']. specialize (IH M' Hos Ht'). by destruct (ospec_run os M').
Qed.

Section sim.
Context (dictSdsHash : sds -> Z) (Hhash : forall e, in_unsigned 64 (dictSdsHash e)).
Context (indet : Zskiplist.ptr) (zmalloc : heap -> Zskiplist.ptr) (junk : option Zskiplist.ptr * zskiplistLevel).
Context (Hmalloc : forall h, h !! zmalloc h = None).
Context (fast_float_strtod : list Z -> double) (fpconv_dtoa : double -> list Z).
Context `{!Conversions fast_float_strtod fpconv_dtoa}.
Context (usable : Z -> Z) (fresh : nat -> Z) (Husable : forall n, n <= usable n).
Context (max_entries max_value : Z) (L : limits max_entries max_value).
Local Abbreviation item := (item fast_float_strtod).
Local Abbreviation items ps := (item <$> ps).
Local Abbreviation zrep := (zrep dictSdsHash).
Local Abbreviation zzl_rep := (zzl_rep fast_float_strtod max_entries max_value).
Local Abbreviation orep := (orep dictSdsHash fast_float_strtod max_entries max_value).
Local Abbreviation zzl_find := (zzl_find fast_float_strtod fpconv_dtoa usable fresh Husable max_entries max_value L).
Local Abbreviation zzlInsert_spec := (zzlInsert_spec fast_float_strtod fpconv_dtoa usable fresh Husable max_entries max_value L).
Local Abbreviation zsetAdd mode := (zsetAdd dictSdsHash mode indet zmalloc junk fast_float_strtod fpconv_dtoa usable fresh max_entries max_value).

Lemma zz_size zl ps : zzl_rep zl ps -> Z.of_nat (size (members (items ps))) = zlen ps.
Proof. intros ZR. rewrite (sq_size _ (zz_seq _ _ _ _ _ ZR)). unfold zlen. by rewrite length_fmap. Qed.

Lemma zzlLength_spec zl ps : zzl_rep zl ps -> exists zl', zzlLength zl = Some (zlen ps, zl') /\ zzl_rep zl' ps.
Proof.
  intros ZR. unfold zzlLength. destruct (length_spec zl _ (zz_lp _ _ _ _ _ ZR)) as (zl' & -> & R' & _). sbind.
  exists zl'. rewrite flat_length, Z.mul_comm, Z.div_mul by done. split; [done|]. by eapply zzl_sub.
Qed.

(** No score is NaN. *)
Lemma orep_num h o M e s : orep h o M -> M !! e = Some s -> isnan s = false.
Proof.
  destruct o as [zl|zs]; cbn [ZobjSpec.orep].
  - intros [_ (ps & ZR & <-)] (a & (q & -> & Hq)%list_elem_of_fmap & _ & <-)%(sq_members _ (zz_seq _ _ _ _ _ ZR)).
    by apply (zz_element fast_float_strtod max_entries max_value L zl ps q ZR Hq).
  - intros (A & ZR & <-). by apply (zr_num dictSdsHash h zs A ZR).
Qed.

Section mode.
Context (mode : dictResizeEnable).

(** The update of an element of the listpack. *)
Lemma zzl_update_spec zl ps1 q ps2 s f :
  zzl_rep zl (ps1 ++ q :: ps2) -> is_double s -> isnan s = false -> bytes_ok (zn_ele (item q)) ->
  let M := members (items (ps1 ++ q :: ps2)) in let flag x := negb ((f &&& x) =? 0) in
  M !! zn_ele (item q) = Some (zn_score (item q)) ->
  exists zl' ps', zzl_update fast_float_strtod fpconv_dtoa usable fresh zl (off (flat ps1)) (zn_score (item q)) s (zn_ele (item q))
      (flag ZADD_IN_INCR) (flag ZADD_IN_NX) (flag ZADD_IN_GT) (flag ZADD_IN_LT) = Some ((zadd_spec M s (zn_ele (item q)) f).1, zl')
    /\ zzl_rep zl' ps' /\ meq (members (items ps')) (zadd_spec M s (zn_ele (item q)) f).2.
Proof.
  intros ZR Hd Hn He M flag HM. unfold zzl_update, zadd_spec. rewrite Hn, HM. cbv zeta. fold (flag ZADD_IN_INCR) (flag ZADD_IN_NX).
  set (x := if flag ZADD_IN_INCR then dadd s (zn_score (item q)) else s).
  assert (Hx : is_double x) by (unfold x; destruct (flag _); [apply dadd_valid; [done|by eapply item_double]|done]).
  assert (Hnan : flag ZADD_IN_INCR && isnan x = isnan x) by (unfold x; destruct (flag _); [done|by rewrite Hn]).
  assert (Hid : exists zl' ps', Some zl = Some zl' /\ zzl_rep zl' ps' /\ meq (members (items ps')) M) by (by exists zl, (ps1 ++ q :: ps2)).
  destruct Hid as (zl0 & ps0 & [= <-] & ZR0 & HM0). rewrite Hnan.
  destruct (flag ZADD_IN_NX); [by exists zl, ps0|]. destruct (isnan x) eqn:Hnx; [by exists zl, ps0|].
  fold (flag ZADD_IN_LT) (flag ZADD_IN_GT). destruct (_ || _); [by exists zl, ps0|].
  destruct (x ==. zn_score (item q)); cbn [negb fst snd]; [by exists zl, ps0|].
  destruct (zzl_delete fast_float_strtod usable fresh Husable max_entries max_value zl ps1 q ps2 ZR) as (zl1 & -> & ZR1 & HM1). sbind.
  destruct (zzlInsert_spec zl1 (ps1 ++ ps2) (zn_ele (item q)) x ZR1) as (zl2 & ps' & -> & ZR2 & HM2); try done.
  - pose proof (zz_len _ _ _ _ _ ZR) as Hl. revert Hl. unfold zlen. rewrite !length_app. cbn [length]. lia.
  - pose proof (zz_fits _ _ _ _ _ ZR) as F. rewrite Forall_app, Forall_cons in F. by destruct F as (_ & [? _] & _).
  - rewrite HM1. apply lookup_delete_eq.
  - sbind. exists zl2, ps'. split; [done|]. split; [done|]. rewrite HM2, HM1, insert_delete_eq. fold M.
    apply insert_proper; [apply stored_norm|done].
Qed.

Lemma oadd_skiplist h zs M s e f rnd :
  orep h (ENC_SKIPLIST zs) M -> enough 1 rnd = true -> Z.of_nat (size M) + 1 < 2 ^ 63 ->
  exists h' o' rnd' M', ('(r, h, zs, rnd) ← zset_add dictSdsHash mode indet zmalloc junk h zs s e f rnd; Some (r, h, ENC_SKIPLIST zs, rnd))
      = Some ((zadd_spec M s e f).1, h', o', rnd') /\ orep h' o' M' /\ meq M' (zadd_spec M s e f).2.
Proof.
  intros (A & ZR & <-) Hr Hsm. cbn [enough] in Hr. destruct (zslRandomLevel rnd) as [[lv rnd']|] eqn:Hl; [|done].
  rewrite (zr_size dictSdsHash h zs A ZR) in Hsm.
  destruct (zset_add_spec dictSdsHash Hhash mode indet zmalloc junk Hmalloc h zs A s e f rnd lv rnd' ZR Hsm Hl)
    as (h' & zs' & r & A' & -> & _ & ZR' & HM). sbind. exists h', (ENC_SKIPLIST zs'), r, (members A').
  split; [done|]. rewrite HM. split; [by exists A'|done].
Qed.

(** A new element: it goes to the listpack, or all elements to a skiplist. *)
Lemma oadd_new zl ps s e f rnd :
  zzl_rep zl ps -> is_double s -> isnan s = false -> bytes_ok e -> enough (S (size (members (items ps)))) rnd = true ->
  members (items ps) !! e = None -> negb ((f &&& ZADD_IN_XX) =? 0) = false ->
  Z.of_nat (size (members (items ps))) + 1 < 2 ^ 63 ->
  exists h' o' rnd' M', zsetAdd mode ∅ (ENC_LISTPACK zl) s e f rnd = Some ((zadd_spec (members (items ps)) s e f).1, h', o', rnd')
    /\ orep h' o' M' /\ meq M' (zadd_spec (members (items ps)) s e f).2.
Proof.
  intros ZR Hd Hn He Hrnd Hc Hxx Hsm. unfold Zobj.zsetAdd. cbv zeta. rewrite Hn.
  pose proof (zzl_find zl ps e true ZR) as Hf. rewrite Hc in Hf. rewrite Hf. sbind. rewrite Hxx. cbn [negb].
  destruct (zzlLength_spec zl ps ZR) as (zl1 & -> & ZR1). sbind.
  unfold lpSafeToAdd. rewrite (rep_total _ _ (zz_lp _ _ _ _ _ ZR1)). sbind.
  set (safe := if _ >? LISTPACK_MAX_SAFETY_SIZE then Some false else Some true).
  assert (exists b, safe = Some b) as [b ->] by (unfold safe; destruct (_ >? _); eauto). sbind.
  destruct (_ || _ || _) eqn:Hg.
  - cbn [zsetLength]. destruct (zzlLength_spec zl1 ps ZR1) as (zl2 & -> & ZR2). sbind.
    destruct (to_skiplist_spec dictSdsHash Hhash indet zmalloc junk Hmalloc fast_float_strtod fpconv_dtoa usable fresh Husable
      max_entries max_value L mode 1 zl2 (members (items ps)) (u64 (zlen ps + 1)) rnd) as (h' & zs & rnd' & -> & OR' & Hr').
    { split; [done|]. eauto. }
    { apply wrap_range. lia. }
    { by rewrite Nat.add_1_r. }
    sbind. by apply oadd_skiplist.
  - rewrite !orb_false_iff in Hg. destruct Hg as [[Hg1 Hg2] _]. rewrite Z.gtb_ltb, Z.ltb_ge in Hg1, Hg2.
    destruct (zzlInsert_spec zl1 ps e s ZR1) as (zl2 & ps' & -> & ZR2 & HM2); try done. sbind.
    unfold zadd_spec. rewrite Hn, Hc, Hxx. cbn [fst snd].
    exists ∅, (ENC_LISTPACK zl2), rnd, (members (items ps')). split; [done|]. split; [split; [done|]; eauto|].
    rewrite HM2. apply insert_proper; [apply stored_norm|done].
Qed.

Lemma oadd_spec h o M s e f rnd :
  orep h o M -> typed M -> is_double s -> bytes_ok e -> enough (S (size M)) rnd = true -> Z.of_nat (size M) + 1 < 2 ^ 63 ->
  exists h' o' rnd' M', zsetAdd mode h o s e f rnd = Some ((zadd_spec M s e f).1, h', o', rnd')
    /\ orep h' o' M' /\ meq M' (zadd_spec M s e f).2.
Proof.
  intros OR Ht Hd He Hrnd Hsm. destruct (isnan s) eqn:Hn.
  { exists h, o, rnd, M. unfold Zobj.zsetAdd, zadd_spec. by rewrite Hn. }
  destruct o as [zl|zs].
  2:{ unfold Zobj.zsetAdd. rewrite Hn. apply oadd_skiplist; [done| |done]. by eapply (enough_le (S (size M))); [lia|]. }
  destruct OR as [-> (ps & ZR & <-)]. pose proof (zzl_find zl ps e true ZR) as Hf.
  destruct (members (items ps) !! e) as [c|] eqn:Hc.
  - unfold Zobj.zsetAdd. rewrite Hn. destruct Hf as (ps1 & q & ps2 & -> & <- & <- & ->). sbind.
    destruct (zzl_update_spec zl ps1 q ps2 s f ZR Hd Hn) as (zl' & ps' & -> & ZR' & HM'); [by apply (Ht _ _ Hc)|done|]. sbind.
    exists ∅, (ENC_LISTPACK zl'), rnd, (members (items ps')). split; [done|]. split; [|done]. split; [done|]. eauto.
  - destruct (negb ((f &&& ZADD_IN_XX) =? 0)) eqn:Hxx; [|by apply oadd_new].
    unfold Zobj.zsetAdd, zadd_spec. rewrite Hn, Hf, Hc, Hxx. sbind. cbn [negb].
    exists ∅, (ENC_LISTPACK zl), rnd, (members (items ps)). split; [done|]. split; [|done]. split; [done|]. eauto.
Qed.

(** ** Lookups and deletion *)

Lemma oscore_spec h o M e :
  orep h o M -> exists o', zsetScore dictSdsHash mode fast_float_strtod h o e = Some (M !! e, o') /\ orep h o' M.
Proof.
  intros OR. destruct o as [zl|zs]; cbn [zsetScore].
  - pose proof OR as [_ (ps & ZR & <-)]. pose proof (zzl_find zl ps e true ZR) as Hf. exists (ENC_LISTPACK zl).
    destruct (members (items ps) !! e); [destruct Hf as (? & ? & ? & _ & _ & _ & ->)|rewrite Hf]; done.
  - destruct OR as (A & ZR & <-). destruct (zset_score_spec dictSdsHash Hhash mode h zs A e ZR) as (zs' & -> & ZR'). sbind.
    exists (ENC_SKIPLIST zs'). split; [done|]. by exists A.
Qed.

Lemma odel_spec h o M e :
  orep h o M -> exists h' o', zsetDel dictSdsHash mode fast_float_strtod usable fresh h o e
    = Some (bool_decide (is_Some (M !! e)), h', o') /\ orep h' o' (delete e M).
Proof.
  intros OR. destruct o as [zl|zs]; cbn [zsetDel].
  - pose proof OR as [-> (ps & ZR & <-)]. pose proof (zzl_find zl ps e false ZR) as Hf.
    destruct (members (items ps) !! e) as [c|] eqn:Hc.
    + destruct Hf as (ps1 & q & ps2 & -> & <- & <- & ->). sbind.
      destruct (zzl_delete fast_float_strtod usable fresh Husable max_entries max_value zl ps1 q ps2 ZR) as (zl' & -> & ZR' & HM'). sbind.
      exists ∅, (ENC_LISTPACK zl'). split; [done|]. split; [done|]. rewrite <-HM'. eauto.
    + rewrite Hf. sbind. exists ∅, (ENC_LISTPACK zl). by rewrite delete_id.
  - destruct OR as (A & ZR & <-). destruct (zset_del_spec dictSdsHash Hhash mode h zs A e ZR) as (h' & zs' & A' & -> & ZR' & HM). sbind.
    exists h', (ENC_SKIPLIST zs'). split; [done|]. rewrite <-HM. by exists A'.
Qed.

Lemma olength_spec h o M :
  orep h o M -> exists o', zsetLength o = Some (Z.of_nat (size M), o') /\ orep h o' M
    /\ (encoding_of o' = encoding_of o).
Proof.
  intros OR. destruct o as [zl|zs]; cbn [zsetLength].
  - destruct OR as [-> (ps & ZR & <-)]. destruct (zzlLength_spec zl ps ZR) as (zl' & -> & ZR'). sbind.
    exists (ENC_LISTPACK zl'). rewrite (zz_size zl ps ZR). split; [done|]. split; [|done]. split; [done|]. eauto.
  - exists (ENC_SKIPLIST zs). split; [|done]. destruct OR as (A & ZR & <-). by rewrite (zr_length dictSdsHash h zs A ZR).
Qed.

(** The loop of [zsetRank] finds the pair of the element, and counts those before. *)
Lemma zzl_rank_loop_spec fuel zl ps qs e c rank :
  lp_rep zl (flat (ps ++ qs)) -> cache_ok e c -> (length qs <= fuel)%nat -> 0 <= rank -> rank + zlen qs < 2 ^ 64 ->
  exists m, zzl_rank_loop fuel zl e c (ptrs_at ps qs) rank
      = Some (match qs !! m with Some q => Some (off (flat (ps ++ take m qs) ++ [q.1])) | None => None end, rank + Z.of_nat m)
    /\ match qs !! m with Some q => zn_ele (item q) = e | None => forall q, q ∈ qs -> zn_ele (item q) <> e end.
Proof.
  revert fuel ps c rank. induction qs as [|q qs IH]; intros fuel ps c rank R Hc Hf Hr Hb.
  - exists 0%nat. split; [destruct fuel; cbn; do 2 f_equal; lia|]. by intros q ?%elem_of_nil.
  - destruct fuel as [|fuel]; [cbn in Hf; lia|]. rewrite zlen_cons in Hb. pose proof (zlen_nonneg qs).
    cbn [ptrs_at zzl_rank_loop]. destruct (compare_spec zl _ _ _ e c (at_ele zl ps q qs R) Hc) as (c' & -> & Hc'). sbind.
    unfold matches. change (text (e_val q.1)) with (zn_ele (item q)). destruct (bool_decide_reflect (zn_ele (item q) = e)) as [He|He].
    + exists 0%nat. cbn [lookup list_lookup take]. rewrite app_nil_r. split; [|done]. do 2 f_equal. lia.
    + rewrite (zzlNext_spec zl ps q qs R). sbind. change (match qs with [] => None | q0 :: _ => _ end) with (ptrs_at (ps ++ [q]) qs).
      rewrite wrap_small by lia. destruct (IH fuel (ps ++ [q]) c' (rank + 1)) as (m & -> & Hm); [by apply rep_next|done|cbn in Hf; lia|lia|lia|].
      exists (S m). cbn [lookup list_lookup take]. rewrite <-app_assoc. split; [do 2 f_equal; lia|].
      change (list_lookup m qs) with (qs !! m). destruct (qs !! m); [done|]. intros q' [->|Hq']%elem_of_cons; [done|by apply Hm].
Qed.

Lemma orank_spec h o M e rev :
  orep h o M -> M <> ∅ ->
  exists o', zsetRank dictSdsHash mode fast_float_strtod h o e rev
    = Some (match M !! e with
            | Some s => if rev then Z.of_nat (size M) - 1 - rank_in M (s, e) else rank_in M (s, e)
            | None => -1
            end, M !! e, o') /\ orep h o' M.
Proof.
  intros OR Hne. destruct o as [zl|zs]; cbn [zsetRank].
  2:{ destruct OR as (A & ZR & <-). destruct (zset_rank_spec dictSdsHash Hhash mode h zs A e rev ZR) as (zs' & -> & ZR'). sbind.
      exists (ENC_SKIPLIST zs'). split; [by destruct (members A !! e)|]. by exists A. }
  destruct OR as [-> (ps & ZR0 & <-)]. destruct (zzlLength_spec zl ps ZR0) as (zl' & -> & ZR). sbind.
  pose proof (zz_lp _ _ _ _ _ ZR) as R. destruct (seek_ends zl' ps R) as [-> _]. sbind.
  destruct ps as [|p ps]; [done|]. cbn [pair_ptr]. sbind. rewrite (next_of_ele zl' [] p ps R). sbind. set (all := p :: ps) in *.
  pose proof (zz_len _ _ _ _ _ ZR) as Hl. pose proof (rep_length zl' _ R) as [_ Hl2]. rewrite flat_length in Hl2. pose proof (zlen_nonneg all).
  change (Some (off (flat []), off (flat [] ++ [p.1]))) with (ptrs_at [] all).
  destruct (zzl_rank_loop_spec (S (length zl')) zl' [] all e (Some (0, 0)) 1 R) as (m & -> & Hm); [by left|by apply rep_fuel|done|lia|]. sbind.
  pose proof (zz_seq _ _ _ _ _ ZR) as Q. exists (ENC_LISTPACK zl'). split; [|split; [done|]; eauto].
  destruct (all !! m) as [q|] eqn:Hq.
  - rewrite <-(take_drop_middle all m q Hq) in R. change ([] ++ take m all) with (take m all). rewrite (getScore_spec fast_float_strtod zl' _ q _ R). sbind.
    assert (Hi : items all !! m = Some (item q)) by (by rewrite list_lookup_fmap, Hq).
    assert (members (items all) !! e = Some (zn_score (item q))) as ->.
    { apply (sq_members _ Q). exists (item q). split; [by eapply list_elem_of_lookup_2|done]. }
    rewrite (zz_size zl' all ZR). replace (zn_score (item q), e) with (zn_key (item q)) by (unfold zn_key; by rewrite Hm).
    rewrite (index_rank _ (sq_ord _ Q) (sq_nodup _ Q) m _ Hi). apply lookup_lt_Some in Hq. unfold zlen in *.
    destruct rev; rewrite wrap_small, swrap_small by (unfold in_signed; lia); do 3 f_equal; lia.
  - assert (members (items all) !! e = None) as ->; [|done]. apply (sq_members_None _ Q). intros a (q & -> & Hq')%list_elem_of_fmap. by apply Hm.
Qed.

(** ** Deletion of ranges *)

(** The end of the deletion: [kept] are the pairs left, [gone] the nodes deleted. *)
Lemma zzl_removed zl ps zl' kept (gone : list znode) inb :
  zzl_rep zl ps -> zzl_rep zl' kept ->
  (forall b, b ∈ items kept <-> b ∈ items ps /\ inb (zn_ele b, zn_score b) = false) -> zlen (items kept) + zlen gone = zlen (items ps) ->
  let '(n, b, M') := remove_in (members (items ps)) inb in
  exists zl'', ('(n, zl) ← zzlLength zl'; Some (zlen gone, n =? 0, zl)) = Some (n, b, zl'') /\ orep ∅ (ENC_LISTPACK zl'') M'.
Proof.
  intros ZR ZR' Hk Hl. unfold remove_in. cbv beta iota zeta. pose proof (sq_nodup _ (zz_seq _ _ _ _ _ ZR)) as Hnd. pose proof (sq_nodup _ (zz_seq _ _ _ _ _ ZR')) as Hnk.
  rewrite (kept_size _ Hnd inb _ Hk Hnk gone Hl). rewrite <-(kept_members _ Hnd inb _ Hk Hnk).
  destruct (zzlLength_spec zl' kept ZR') as (zl'' & -> & ZR''). sbind. exists zl''. split; [|split; [done|]; eauto].
  do 3 f_equal. rewrite <-(zz_size zl' kept ZR'). case_bool_decide as He; [by rewrite He|].
  apply Z.eqb_neq. rewrite <-map_size_empty_iff in He. lia.
Qed.

Lemma zzl_remrange_by zl ps fg fl inb range :
  zzl_rep zl ps -> (forall a, inb (zn_ele a, zn_score a) = fg a && fl a) ->
  (exists zl' ps', match range with
                   | ZRANGE_RANK start stop => zzlDeleteRangeByRank usable fresh zl (u32 (start + 1)) (u32 (stop + 1))
                   | ZRANGE_SCORE range => zzlDeleteRangeByScore fast_float_strtod usable fresh zl range
                   | ZRANGE_LEX range => zzlDeleteRangeByLex usable fresh zl range
                   end = Some (zl', zlen (range_nodes (items ps) fg fl))
    /\ zzl_rep zl' ps' /\ items ps' = others (items ps) fg fl) ->
  let '(n, b, M') := remove_in (members (items ps)) inb in
  exists zl', zzl_remrange_apply fast_float_strtod usable fresh zl range = Some (n, b, zl') /\ orep ∅ (ENC_LISTPACK zl') M'.
Proof.
  intros ZR Hin (zl' & ps' & Hz & ZR' & Ho). unfold zzl_remrange_apply. rewrite Hz. sbind.
  apply (zzl_removed zl ps zl' ps' (range_nodes (items ps) fg fl) inb ZR ZR'); rewrite Ho.
  - intros b. unfold others. rewrite list_elem_of_filter, Hin, not_true_iff_false. tauto.
  - apply filter_split.
Qed.

Lemma zzl_remrange_rank zl ps start stop :
  zzl_rep zl ps -> 0 <= start <= stop -> stop < zlen ps ->
  let '(n, b, M') := remove_in (members (items ps)) (in_rank (members (items ps)) start stop) in
  exists zl', zzl_remrange_apply fast_float_strtod usable fresh zl (ZRANGE_RANK start stop) = Some (n, b, zl')
    /\ orep ∅ (ENC_LISTPACK zl') M'.
Proof.
  intros ZR Hs Hl. unfold zzl_remrange_apply.
  destruct (zzlDeleteRangeByRank_spec fast_float_strtod usable fresh Husable max_entries max_value L zl ps start stop ZR Hs Hl)
    as (zl' & ps' & -> & ZR' & Ho). sbind. pose proof (zz_seq _ _ _ _ _ ZR) as Q.
  destruct (rank_parts _ (sq_ord _ Q) (sq_nodup _ Q) start stop Hs) as (Hk & _ & Hlen); [unfold zlen in *; by rewrite length_fmap|].
  rewrite <-Ho in Hk, Hlen.
  assert (stop - start + 1 = zlen (drop (Z.to_nat start) (take (Z.to_nat (stop + 1)) (items ps)))) as ->.
  { unfold zlen in *. rewrite length_drop, length_take, length_fmap. lia. }
  by apply (zzl_removed zl ps zl' ps').
Qed.

Lemma zremrange_skiplist h zs range :
  zremrange dictSdsHash mode fast_float_strtod usable fresh h (ENC_SKIPLIST zs) range
  = '(n, b, h, zs) ← zset_remrange dictSdsHash mode h zs range; Some (n, b, h, ENC_SKIPLIST zs).
Proof.
  destruct range as [a b|range|range]; cbn [zremrange zset_remrange zsetLength]; [|done..]. sbind.
  by destruct (sanitize _ a b) as [[a' b']|].
Qed.

Lemma oremrange_spec h o M range :
  orep h o M -> range_ok M range ->
  let '(n, b, M') := zset_remrange_spec M range in
  exists h' o', zremrange dictSdsHash mode fast_float_strtod usable fresh h o range = Some (n, b, h', o') /\ orep h' o' M'.
Proof.
  intros OR Hok. destruct o as [zl|zs].
  2:{ destruct OR as (A & ZR & <-). rewrite zremrange_skiplist. pose proof (zset_remrange_correct' dictSdsHash Hhash junk mode h zs A range ZR Hok) as Hz.
      destruct (zset_remrange_spec (members A) range) as [[n b] M']. destruct Hz as (h' & zs' & A' & -> & ZR' & HM). sbind.
      exists h', (ENC_SKIPLIST zs'). split; [done|]. by exists A'. }
  destruct OR as [-> (ps & ZR & <-)]. pose proof (sq_ord _ (zz_seq _ _ _ _ _ ZR)) as O.
  destruct range as [a b|range|range]; [|cbn [zremrange zset_remrange_spec range_ok zsetLength] in *..].
  - rewrite (remrange_rank_spec _ O (sq_nodup _ (zz_seq _ _ _ _ _ ZR))).
    replace (zlen (items ps)) with (zlen ps) by (unfold zlen; by rewrite length_fmap). cbn [zremrange zsetLength].
    destruct (zzlLength_spec zl ps ZR) as (zl1 & -> & ZR1). sbind.
    destruct (sanitize (zlen ps) a b) as [[a' b']|] eqn:Hs; [|exists ∅, (ENC_LISTPACK zl1); split; [done|]; split; [done|]; eauto].
    apply sanitize_bounds in Hs as [Ha Hb]. pose proof (zzl_remrange_rank zl1 ps a' b' ZR1 Ha Hb) as Hz. cbn in Hz |- *.
    destruct Hz as (zl' & -> & OR'). sbind. eauto.
  - pose proof (zzl_remrange_by zl ps (gte_of range) (lte_of range) (in_score range) (ZRANGE_SCORE range) ZR) as Hz. cbn in Hz |- *.
    destruct Hz as (zl' & -> & OR'); [intros q; apply in_score_tests| |sbind; eauto].
    by apply (zzlDeleteRangeByScore_spec fast_float_strtod usable fresh Husable max_entries max_value).
  - assert (Hsame : forall a b, a ∈ items ps -> b ∈ items ps -> zn_score a ==. zn_score b = true).
    { intros a b Ha Hb. apply (Hok (zn_ele a) _ (zn_ele b) _); apply (sq_members _ (zz_seq _ _ _ _ _ ZR)); eauto. }
    pose proof (zzl_remrange_by zl ps (lgte_of range) (llte_of range) (in_lex range) (ZRANGE_LEX range) ZR) as Hz. cbn in Hz |- *.
    destruct Hz as (zl' & -> & OR'); [intros q; apply in_lex_tests| |sbind; eauto].
    by apply (zzlDeleteRangeByLex_spec fast_float_strtod usable fresh Husable max_entries max_value).
Qed.

(** ** Conversions *)

Local Abbreviation to_skiplist_spec :=
  (to_skiplist_spec dictSdsHash Hhash indet zmalloc junk Hmalloc fast_float_strtod fpconv_dtoa usable fresh Husable max_entries max_value L mode).
Local Abbreviation to_listpack_spec :=
  (to_listpack_spec dictSdsHash Hhash indet zmalloc junk Hmalloc fast_float_strtod fpconv_dtoa usable fresh Husable max_entries max_value L mode).

Lemma maybeConvert_spec h o M size_hint rnd :
  orep h o M -> 0 <= size_hint < 2 ^ 64 -> enough (size M) rnd = true ->
  exists h' o' rnd', zsetTypeMaybeConvert dictSdsHash mode indet zmalloc junk fast_float_strtod fpconv_dtoa usable fresh max_entries
      h o size_hint rnd = Some (h', o', rnd') /\ orep h' o' M.
Proof.
  intros OR Hs He. unfold zsetTypeMaybeConvert. destruct (_ && _) eqn:Hg; [|by exists h, o, rnd].
  apply andb_true_iff in Hg as [Hg _]. apply bool_decide_eq_true in Hg. destruct o as [zl|zs]; [|done]. pose proof OR as [-> _].
  destruct (to_skiplist_spec 0 zl M size_hint rnd OR Hs) as (h' & zs & rnd' & -> & OR' & _); [by rewrite Nat.add_0_r|].
  by exists h', (ENC_SKIPLIST zs), rnd'.
Qed.

Lemma stored_meq M : meq (stored <$> M) M.
Proof. unfold meq. rewrite <-map_fmap_compose. apply map_fmap_ext. intros e s _. apply stored_norm. Qed.

Lemma toListpack_spec h o M maxelelen totelelen rnd :
  orep h o M -> typed M -> map_Forall (fun e _ => zlen e <= maxelelen) M ->
  exists h' o' rnd' M', zsetConvertToListpackIfNeeded dictSdsHash mode indet zmalloc junk fast_float_strtod fpconv_dtoa usable fresh
      max_entries max_value h o maxelelen totelelen rnd = Some (h', o', rnd') /\ orep h' o' M' /\ meq M' M.
Proof.
  intros OR Ht Hm. destruct o as [zl|zs]; cbn [zsetConvertToListpackIfNeeded]; [by exists h, (ENC_LISTPACK zl), rnd, M|].
  unfold lpSafeToAdd. sbind. set (safe := if _ >? LISTPACK_MAX_SAFETY_SIZE then Some false else Some true).
  assert (exists b, safe = Some b) as [b ->] by (unfold safe; destruct (_ >? _); eauto). sbind.
  destruct (_ && _ && _) eqn:Hg; [|by exists h, (ENC_SKIPLIST zs), rnd, M].
  rewrite !andb_true_iff, !Z.leb_le in Hg. destruct Hg as [[Hg1 Hg2] _]. unfold zsetConvert. cbn [zsetLength]. sbind.
  destruct (to_listpack_spec h zs M (zset_length zs) rnd OR) as (zl & -> & OR').
  - intros e s Hs. destruct (Ht e s Hs) as [? ?]. specialize (Hm e s Hs). cbn in Hm. split_and!; [done|lia|done].
  - destruct OR as (A & ZR & <-). rewrite <-(zr_length dictSdsHash h zs A ZR). done.
  - exists ∅, (ENC_LISTPACK zl), rnd, (stored <$> M). split; [done|]. split; [done|]. apply stored_meq.
Qed.

End mode.

(** ** Refinement *)

Local Abbreviation oexec := (oexec dictSdsHash indet zmalloc junk fast_float_strtod fpconv_dtoa usable fresh max_entries max_value).
Local Abbreviation orun := (orun dictSdsHash indet zmalloc junk fast_float_strtod fpconv_dtoa usable fresh max_entries max_value).

Lemma range_ok_meq M N range : meq M N -> range_ok M range -> range_ok N range.
Proof.
  intros Hm. destruct range as [a b|range|range]; cbn [range_ok]; [by rewrite (meq_size _ _ Hm)|done|].
  intros Hok e1 s1 e2 s2 H1 H2. destruct (meq_cases M N e1 Hm) as [[_ ?]|(t1 & ? & H1' & ? & Hs1)]; [congruence|].
  destruct (meq_cases M N e2 Hm) as [[_ ?]|(t2 & ? & H2' & ? & Hs2)]; [congruence|]. simplify_eq.
  rewrite <-(deq_proper t1 s1 Hs1 t2 s2 Hs2). by eapply Hok.
Qed.

Lemma oop_ok_meq M N o : meq M N -> oop_ok M o -> oop_ok N o.
Proof.
  intros Hm. destruct o as [[s e f rnd|e|e|e rev| |range]|sz rnd|a b]; cbn [oop_ok]; rewrite <-?(meq_size _ _ Hm); try done.
  - by rewrite (meq_empty _ _ Hm).
  - by apply range_ok_meq.
  - intros Hf e t Ht. destruct (meq_cases M N e Hm) as [[_ ?]|(s & ? & Hs & ? & _)]; [congruence|]. by apply (Hf e s).
Qed.

(** One operation, on a map equivalent to the one the object holds. *)
Lemma oexec_sim mode o h zo M N :
  orep h zo M -> meq M N -> typed N -> oop_ok N o -> Z.of_nat (size N) + 1 < 2 ^ 63 ->
  exists r h' zo' M', oexec (mode, o) (h, zo) = Some (r, (h', zo')) /\ norm_out r = norm_out (ospec o N).1
    /\ orep h' zo' M' /\ meq M' (ospec o N).2.
Proof.
  intros OR Hm Ht Hok Hsz. symmetry in Hm. apply (oop_ok_meq N M o Hm) in Hok. pose proof (typed_meq N M Hm Ht) as HtM.
  rewrite (meq_size _ _ Hm) in Hsz. symmetry in Hm.
  assert (Hout : forall o0 r h' zo' M', o = OZ o0 -> oexec (mode, o) (h, zo) = Some (Some r, (h', zo')) -> orep h' zo' M' ->
    same_outcome (r, M') (zspec o0 M) -> exists r h' zo' M', oexec (mode, o) (h, zo) = Some (r, (h', zo'))
      /\ norm_out r = norm_out (ospec o N).1 /\ orep h' zo' M' /\ meq M' (ospec o N).2).
  { intros o0 r h' zo' M' -> He OR' Hs. destruct (outcome_meq M N o0 _ Hm Hs) as [H1 H2]. exists (Some r), h', zo', M'.
    cbn [ospec]. destruct (zspec o0 N) as [r2 N2]. cbn [fst snd] in *. split; [done|]. split; [cbn; by rewrite H1|done]. }
  destruct o as [[s e f rnd|e|e|e rev| |range]|sz rnd|a b].
  - destruct Hok as (Hs & He & Hr). destruct (oadd_spec mode h zo M s e f rnd OR HtM Hs He Hr Hsz) as (h' & zo' & rnd' & M' & Hx & OR' & HM').
    apply (Hout _ (RAdd (zadd_spec M s e f).1) h' zo' M' eq_refl); [cbn [ZobjRefine.oexec]; by rewrite Hx|done|].
    cbn [zspec]. by destruct (zadd_spec M s e f).
  - destruct (oscore_spec mode h zo M e OR) as (zo' & Hx & OR').
    apply (Hout _ (RScore (M !! e)) h zo' M eq_refl); [cbn [ZobjRefine.oexec]; by rewrite Hx|done|done].
  - destruct (odel_spec mode h zo M e OR) as (h' & zo' & Hx & OR').
    eapply (Hout _ _ h' zo' _ eq_refl); [cbn [ZobjRefine.oexec]; by rewrite Hx|done|done].
  - destruct (orank_spec mode h zo M e rev OR Hok) as (zo' & Hx & OR').
    eapply (Hout _ _ h zo' _ eq_refl); [cbn [ZobjRefine.oexec]; by rewrite Hx|done|done].
  - destruct (olength_spec h zo M OR) as (zo' & Hx & OR' & _).
    eapply (Hout _ _ h zo' _ eq_refl); [cbn [ZobjRefine.oexec]; by rewrite Hx|done|done].
  - pose proof (oremrange_spec mode h zo M range OR Hok) as Hx. cbn [oop_ok] in Hok.
    destruct (zset_remrange_spec M range) as [[n b] M'] eqn:Hr. destruct Hx as (h' & zo' & Hx & OR').
    apply (Hout _ (RRem n b) h' zo' M' eq_refl); [cbn [ZobjRefine.oexec]; by rewrite Hx|done|]. cbn [zspec]. by rewrite Hr.
  - destruct Hok as [Hs He]. destruct (maybeConvert_spec mode h zo M sz rnd OR Hs He) as (h' & zo' & rnd' & Hx & OR').
    exists None, h', zo', M. cbn [ZobjRefine.oexec]. by rewrite Hx.
  - destruct (toListpack_spec mode h zo M a b [] OR HtM Hok) as (h' & zo' & rnd' & M' & Hx & OR' & HM').
    exists None, h', zo', M'. cbn [ZobjRefine.oexec]. rewrite Hx. split; [done|]. split; [done|]. split; [done|]. by etransitivity.
Qed.

Lemma ospec_size o M : (size (ospec o M).2 <= S (size M))%nat.
Proof. destruct o as [o|? ?|? ?]; cbn [ospec snd]; [|lia..]. pose proof (zspec_size o M). by destruct (zspec o M). Qed.

Lemma orun_sim os h zo M N :
  orep h zo M -> meq M N -> typed N -> oops_ok N os -> Z.of_nat (size N) + zlen os < 2 ^ 63 ->
  exists rs h' zo' M', orun os (h, zo) = Some (rs, (h', zo')) /\ norm_out <$> rs = norm_out <$> (ospec_run os N).1
    /\ orep h' zo' M' /\ meq M' (ospec_run os N).2.
Proof.
  revert h zo M N. induction os as [|[mode o] os IH]; intros h zo M N OR Hm Ht Hok Hlen; cbn [ZobjRefine.orun ospec_run].
  - by exists [], h, zo, M.
  - destruct Hok as [Ho Hos]. rewrite zlen_cons in Hlen. pose proof (zlen_nonneg os).
    destruct (oexec_sim mode o h zo M N OR Hm Ht Ho ltac:(lia)) as (r & h1 & zo1 & M1 & -> & Hr & OR1 & HM1). sbind.
    pose proof (ospec_size o N) as Hsz.
    destruct (IH h1 zo1 M1 _ OR1 HM1 (typed_ospec o N Ho Ht) Hos ltac:(lia)) as (rs & h2 & zo2 & M2 & -> & Hrs & OR2 & HM2). sbind.
    exists (r :: rs), h2, zo2, M2. destruct (ospec o N) as [r' N']. cbn [fst snd] in *. destruct (ospec_run os N') as [rs' N2].
    cbn [fst snd fmap list_fmap] in *. split; [done|]. split; [by f_equal|done].
Qed.

Lemma otype_create mode size_hint val_len_hint :
  0 <= size_hint < 2 ^ 64 ->
  exists h o, zsetTypeCreate dictSdsHash mode zmalloc junk usable fresh max_entries max_value ∅ size_hint val_len_hint = Some (h, o)
    /\ orep h o ∅.
Proof.
  intros Hs. unfold zsetTypeCreate, createZsetListpackObject. destruct (_ && _).
  - destruct (new_listpack fast_float_strtod usable fresh Husable max_entries max_value L) as (zl & -> & ZR). sbind.
    exists ∅, (ENC_LISTPACK zl). split; [done|]. split; [done|]. by exists [].
  - destruct (new_zset dictSdsHash zmalloc junk Hmalloc mode size_hint Hs) as (zsl & h & d & st & Hz & Hd & R).
    unfold createZsetObject. rewrite Hz. sbind. cbn [zs_dict zs_zsl]. rewrite Hd. sbind. exists h, (ENC_SKIPLIST (mkZset d zsl)). split; [done|]. by exists [].
Qed.

End sim.
