(* ===== verification/ZobjThms.v ===== *)
(** * The sorted set theorems

    What a sorted set does whatever its encoding, and what the functions on a
    listpack of names and scores do, each with an instance on a sorted set that
    the code itself built, for a printer and a parser of doubles that are
    executable here. *)

From Stdlib Require Import SpecFloat.
From stdpp Require Import gmap.
From S2P Require Import Prelude Dict DictSpec DictMap DictRefine Zskiplist ZskiplistSpec ZskiplistOps ZskiplistApi.
From S2P Require Import ZskiplistRange ZskiplistRangeSpec Zset ZsetSpec ZsetRefine ZsetThms.
From S2P Require Import Util Listpack ListpackSpec ListpackNav ListpackUpd Double Zzl ZzlSpec ZzlOps ZzlRep Zobj ZobjSpec ZobjRefine.

(** ** A printer and a parser *)

(** A letter, the sign, the mantissa and the exponent. *)
Definition sample_dtoa (x : double) : list Z :=
  match x with
  | S754_finite s m e => 120 :: (if s then 1 else 0) :: le_enc 8 (Zpos m) ++ le_enc 2 (e + 2048)
  | _ => []
  end.
Definition checked (x : double) : double := if valid_binary 53 1024 x then x else S754_zero false.
Definition sample_strtod (s : list Z) : double :=
  match string2ll (take (length s - 1) s) with
  | Some v => ll2d v
  | None =>
      match s with
      | 120 :: sign :: s =>
          checked (S754_finite (sign =? 1) (Z.to_pos (le_dec (take 8 s))) (le_dec (take 2 (drop 8 s)) - 2048))
      | [105; 110; 102; 0] => S754_infinity false
      | [45; 105; 110; 102; 0] => S754_infinity true
      | _ => S754_zero false
      end
  end.

Lemma checked_double x : is_double (checked x).
Proof. unfold checked, is_double. by destruct (valid_binary 53 1024 x) eqn:E. Qed.

Lemma text_of (s : list Z) : take (length (s ++ [0]) - 1) (s ++ [0]) = s.
Proof. rewrite length_app, Nat.add_sub. apply take_app_length. Qed.

Lemma string2ll_letter s : string2ll (120 :: s) = None.
Proof.
  unfold string2ll. cbv zeta. destruct (_ || _); [done|]. rewrite bool_decide_false by done. cbn [head].
  by rewrite bool_decide_false by done.
Qed.

Lemma exponent_range m e : bounded 53 1024 m e = true -> -1074 <= e <= 971.
Proof.
  unfold bounded, canonical_mantissa. rewrite andb_true_iff, Z.eqb_eq, fexp_eq, Z.leb_le. intros [H ?]. lia.
Qed.

#[export] Instance sample_conversions : Conversions sample_strtod sample_dtoa.
Proof.
  split.
  - intros m e s Hd. unfold sample_strtod. rewrite text_of. cbn [sample_dtoa]. rewrite string2ll_letter.
    pose proof (canonical_bound m e Hd) as Hm. pose proof (exponent_range m e Hd) as He. cbn [app].
    rewrite <-app_assoc, take_app_length' by (by rewrite length_le_enc). rewrite drop_app_length' by (by rewrite length_le_enc).
    rewrite take_app_length' by (by rewrite length_le_enc). rewrite !le_dec_enc, !wrap_small by (cbn; lia).
    replace (e + 2048 - 2048) with e by lia. unfold checked. by destruct s; cbn [Z.eqb Pos.eqb Z.to_pos]; rewrite Hd.
  - intros v Hv. unfold sample_strtod. rewrite text_of, (proj2 (string2ll_iff (dec v) v)) by done. done.
  - done.
  - done.
  - intros s. unfold sample_strtod. destruct (string2ll _); [apply ll2d_valid|].
    repeat case_match; try done; apply checked_double.
  - intros x. by destruct x.
  - intros x. destruct x as [| | |s m e]; try by constructor. cbn [sample_dtoa]. constructor; [done|]. constructor; [by destruct s|].
    apply Forall_app. split; apply le_enc_bytes.
Qed.

(** ** Theorems *)

Section theorems.
Context (dictSdsHash : sds -> Z) (Hhash : forall e, in_unsigned 64 (dictSdsHash e)).
Context (indet : Zskiplist.ptr) (zmalloc : heap -> Zskiplist.ptr) (junk : option Zskiplist.ptr * zskiplistLevel).
Context (Hmalloc : forall h, h !! zmalloc h = None).
Context (fast_float_strtod : list Z -> double) (fpconv_dtoa : double -> list Z).
Context `{!Conversions fast_float_strtod fpconv_dtoa}.
Context (usable : Z -> Z) (fresh : nat -> Z) (Husable : forall n, n <= usable n).
Context (max_entries max_value : Z) (L : limits max_entries max_value).
Local Abbreviation orep := (orep dictSdsHash fast_float_strtod max_entries max_value).
Local Abbreviation orun := (orun dictSdsHash indet zmalloc junk fast_float_strtod fpconv_dtoa usable fresh max_entries max_value).
Local Abbreviation zsetTypeCreate mode :=
  (zsetTypeCreate dictSdsHash mode zmalloc junk usable fresh max_entries max_value ∅).
Local Abbreviation zsetConvert mode :=
  (zsetConvert dictSdsHash mode indet zmalloc junk fast_float_strtod fpconv_dtoa usable fresh).

(** C1: Any sequence of additions with any flags, score and rank lookups,
    deletions, deletions of ranges by rank, score or name, and conversions
    between the encodings, on a new sorted set, returns what these operations
    return on a map from elements to scores, whichever encoding the set has at
    each time: additions over the limits of the configuration change it from a
    listpack to a skiplist.  Scores are the same numbers, up to the sign of a
    zero, which a listpack does not keep.  At the end the listpack, or the
    skiplist and its dictionary, holds the map.  The conditions of [oops_ok] hold
    at each operation: scores are doubles and elements strings of bytes, the random
    numbers are enough for the levels drawn, a rank is asked of a set that is not
    empty, bounds by score are numbers, a range by ranks is of a set of fewer than
    2^32 elements and a range by names of a set whose scores are all equal.  The
    limits of the configuration keep a listpack below 2^32 bytes ([limits]). *)
Theorem zobj_refines_map mode size_hint val_len_hint (os : list (dictResizeEnable * oop)) :
  0 <= size_hint < 2 ^ 64 -> oops_ok ∅ os -> zlen os < 2 ^ 63 ->
  exists st rs h o M, zsetTypeCreate mode size_hint val_len_hint = Some st /\ orun os st = Some (rs, (h, o))
    /\ norm_out <$> rs = norm_out <$> (ospec_run os ∅).1 /\ orep h o M /\ meq M (ospec_run os ∅).2.
Proof.
  intros Hs Hok Hlen.
  destruct (otype_create dictSdsHash zmalloc junk Hmalloc fast_float_strtod usable fresh Husable max_entries max_value L
              mode size_hint val_len_hint Hs) as (h0 & o0 & Hc & OR0).
  destruct (orun_sim dictSdsHash Hhash indet zmalloc junk Hmalloc fast_float_strtod fpconv_dtoa usable fresh Husable max_entries max_value L
              os h0 o0 ∅ ∅ OR0 (reflexivity _)) as (rs & h & o & M & Hr & Hrs & OR & HM); [apply map_Forall_empty|done|done|].
  by exists (h0, o0), rs, h, o, M.
Qed.

(** C11: Whatever sequence of operations built it, a sorted set holds strings of
    bytes with IEEE doubles that are numbers: increments and the conversions of
    scores to text and back never make a value out of range or a NaN.  The
    operations meet the conditions of [oops_ok], the configuration those of
    [limits]. *)
Theorem zobj_typed mode size_hint val_len_hint (os : list (dictResizeEnable * oop)) :
  0 <= size_hint < 2 ^ 64 -> oops_ok ∅ os -> zlen os < 2 ^ 63 ->
  exists st rs h o M, zsetTypeCreate mode size_hint val_len_hint = Some st /\ orun os st = Some (rs, (h, o))
    /\ orep h o M /\ forall e s, M !! e = Some s -> bytes_ok e /\ is_double s /\ isnan s = false.
Proof.
  intros Hs Hok Hlen.
  destruct (otype_create dictSdsHash zmalloc junk Hmalloc fast_float_strtod usable fresh Husable max_entries max_value L
              mode size_hint val_len_hint Hs) as (h0 & o0 & Hc & OR0).
  destruct (orun_sim dictSdsHash Hhash indet zmalloc junk Hmalloc fast_float_strtod fpconv_dtoa usable fresh Husable max_entries max_value L
              os h0 o0 ∅ ∅ OR0 (reflexivity _)) as (rs & h & o & M & Hr & _ & OR & HM); [apply map_Forall_empty|done|done|].
  exists (h0, o0), rs, h, o, M. split; [done|]. split; [done|]. split; [done|]. intros e s He.
  symmetry in HM. destruct (typed_meq _ _ HM (typed_run os ∅ Hok (map_Forall_empty _)) e s He) as [? ?].
  split; [done|]. split; [done|]. by apply (orep_num dictSdsHash fast_float_strtod max_entries max_value L h o M e s).
Qed.

(** C10: A sorted set of at most [max_entries] elements, each of at most
    [max_value] bytes, converted from a skiplist to a listpack and back, has the
    same elements with the same scores, up to the sign of a zero; the conversion to
    a listpack frees every node of the skiplist.  The limits keep a listpack below
    2^32 bytes, and the random numbers are enough for the levels drawn. *)
Theorem zobj_convert_roundtrip mode h zs M rnd :
  orep h (ENC_SKIPLIST zs) M -> map_Forall (small max_value) M -> Z.of_nat (size M) <= max_entries -> enough (size M) rnd = true ->
  exists zl h' zs' rnd' M', zsetConvert mode h (ENC_SKIPLIST zs) OBJ_ENCODING_LISTPACK rnd = Some (∅, ENC_LISTPACK zl, rnd)
    /\ orep ∅ (ENC_LISTPACK zl) M'
    /\ zsetConvert mode ∅ (ENC_LISTPACK zl) OBJ_ENCODING_SKIPLIST rnd = Some (h', ENC_SKIPLIST zs', rnd')
    /\ orep h' (ENC_SKIPLIST zs') M' /\ meq M' M.
Proof.
  intros OR Hsm Hsz He. unfold Zobj.zsetConvert. cbn [zsetLength]. sbind.
  destruct (to_listpack_spec dictSdsHash Hhash indet zmalloc junk Hmalloc fast_float_strtod fpconv_dtoa usable fresh Husable max_entries max_value L
              mode h zs M (zset_length zs) rnd OR Hsm Hsz) as (zl & -> & OR1).
  destruct (olength_spec dictSdsHash fast_float_strtod max_entries max_value ∅ _ _ OR1) as (o & Hl & OR2 & Ho).
  destruct o as [zl'|]; [|done]. exists zl. cbn [zsetLength] in Hl. 
  destruct (to_skiplist_spec dictSdsHash Hhash indet zmalloc junk Hmalloc fast_float_strtod fpconv_dtoa usable fresh Husable max_entries max_value L
              mode 0 zl' (stored <$> M) (Z.of_nat (size (stored <$> M))) rnd OR2) as (h' & zs' & rnd' & Hc & OR3 & _).
  { rewrite map_size_fmap. destruct L as [L1 L2 L3]. unfold LP_HDR_SIZE, UINT32_MAX in L3. nia. }
  { by rewrite map_size_fmap, Nat.add_0_r. }
  exists h', zs', rnd', (stored <$> M). split; [done|]. split; [done|]. rewrite Hl. sbind. split; [done|]. split; [done|]. apply stored_meq.
Qed.

End theorems.

(** ** Theorems on the listpack *)

Section listpack.
Context (fast_float_strtod : list Z -> double) (fpconv_dtoa : double -> list Z).
Context `{!Conversions fast_float_strtod fpconv_dtoa}.
Context (usable : Z -> Z) (fresh : nat -> Z) (Husable : forall n, n <= usable n).
Local Abbreviation item := (item fast_float_strtod).
Local Abbreviation items ps := (item <$> ps).

(** The offsets of the first and of the last pair for which [f] holds. *)
Definition first_pair (f : znode -> bool) (ps : list (entry * entry)) : option Z :=
  (fun p => off (flat (take p.1 ps))) <$> list_find (fun q => f (item q) = true) ps.
Definition last_pair (f : znode -> bool) (ps : list (entry * entry)) : option Z :=
  (fun p => off (flat (take (length ps - S p.1) ps))) <$> list_find (fun q => f (item q) = true) (reverse ps).

Section ends.
Context (ps : list (entry * entry)) (fg fl : znode -> bool).
Context (Hcg : closed (fun a => negb (fg a)) (items ps)) (Hcl : closed fl (items ps)).
Local Abbreviation K1 := (first_in (items ps) fg).
Local Abbreviation K2 := (end_in (items ps) fl).

Lemma in_range_index j q : ps !! j = Some q -> (fg (item q) && fl (item q) = true <-> (K1 <= j < K2)%nat).
Proof.
  intros Hj. assert (Hi : items ps !! j = Some (item q)) by (by rewrite list_lookup_fmap, Hj).
  rewrite (fg_spec _ fg Hcg j _ Hi), (fl_spec _ fl Hcl j _ Hi), andb_true_iff, Nat.leb_le, Nat.ltb_lt. lia.
Qed.

Lemma range_empty : range_nodes (items ps) fg fl = [] <-> (K2 <= K1)%nat.
Proof.
  rewrite (range_nodes_slice (items ps) fg fl Hcg Hcl). pose proof (prefix_len_le fl (items ps)) as Hle. fold K2 in Hle. split.
  - intros He%(f_equal length). rewrite length_drop, length_take in He. cbn in He. lia.
  - intros He. apply drop_ge. rewrite length_take. lia.
Qed.

Lemma no_pair (l : list (entry * entry)) :
  (forall q, q ∈ l -> q ∈ ps) -> (K2 <= K1)%nat -> list_find (fun q => fg (item q) && fl (item q) = true) l = None.
Proof.
  intros Hl HK. apply list_find_None, Forall_forall. intros q Hq Hf. apply Hl, list_elem_of_lookup in Hq as (j & Hj).
  apply (in_range_index j q Hj) in Hf. lia.
Qed.

Lemma first_of_pair : first_of fast_float_strtod ps fg fl = first_pair (fun a => fg a && fl a) ps.
Proof.
  unfold first_of, first_pair. pose proof range_empty as He. destruct (range_nodes (items ps) fg fl) as [|a l].
  - by rewrite no_pair by (done || by apply He).
  - assert (HK : (K1 < K2)%nat) by (destruct (decide (K2 <= K1)%nat) as [H|]; [by apply He in H|lia]).
    pose proof (prefix_len_le fl (items ps)) as Hle. fold K2 in Hle. rewrite length_fmap in Hle.
    destruct (lookup_lt_is_Some_2 ps K1 ltac:(lia)) as [q Hq].
    assert (list_find (fun q => fg (item q) && fl (item q) = true) ps = Some (K1, q)) as ->; [|done].
    apply list_find_Some. split; [done|]. split; [by apply (in_range_index K1 q Hq)|]. intros j y Hj Hlt Hf.
    apply (in_range_index j y Hj) in Hf. lia.
Qed.

Lemma last_of_pair : last_of fast_float_strtod ps fg fl = last_pair (fun a => fg a && fl a) ps.
Proof.
  unfold last_of, last_pair. pose proof range_empty as He. destruct (range_nodes (items ps) fg fl) as [|a l].
  - rewrite no_pair; [done|intros q; by rewrite elem_of_reverse|by apply He].
  - assert (HK : (K1 < K2)%nat) by (destruct (decide (K2 <= K1)%nat) as [H|]; [by apply He in H|lia]).
    pose proof (prefix_len_le fl (items ps)) as Hle. fold K2 in Hle. rewrite length_fmap in Hle.
    destruct (lookup_lt_is_Some_2 ps (K2 - 1) ltac:(lia)) as [q Hq].
    assert (list_find (fun q => fg (item q) && fl (item q) = true) (reverse ps) = Some ((length ps - K2)%nat, q)) as ->.
    { apply list_find_Some. split; [|split].
      - rewrite reverse_lookup by lia. rewrite <-Hq. f_equal. lia.
      - apply (in_range_index (K2 - 1) q Hq). lia.
      - intros j y Hj Hlt Hf. pose proof (lookup_lt_Some _ _ _ Hj) as Hlj. rewrite length_reverse in Hlj.
        rewrite reverse_lookup in Hj by lia. apply (in_range_index _ y Hj) in Hf. lia. }
    cbn [fmap option_fmap option_map fst]. do 4 f_equal. lia.
Qed.
End ends.

(** On a listpack of pairs in the order of the set, [zzlFirstInRange] and
    [zzlLastInRange] return the offset of the first and of the last pair whose
    score is in the range, or null when there is none; so do the searches by name
    when the scores are all equal. *)
Theorem zzlRange_ends zl ps :
  lp_rep zl (flat ps) -> ordered (items ps) ->
  (forall range, range_num range ->
     zzlFirstInRange fast_float_strtod zl range = Some (first_pair (fun a => gte_of range a && lte_of range a) ps)
     /\ zzlLastInRange fast_float_strtod zl range = Some (last_pair (fun a => gte_of range a && lte_of range a) ps))
  /\ ((forall a b, a ∈ items ps -> b ∈ items ps -> zn_score a ==. zn_score b = true) -> forall range,
     zzlFirstInLexRange fresh zl range = Some (first_pair (fun a => lgte_of range a && llte_of range a) ps)
     /\ zzlLastInLexRange fresh zl range = Some (last_pair (fun a => lgte_of range a && llte_of range a) ps)).
Proof.
  intros R O. split.
  - intros range Hr. rewrite (zzlFirstInRange_spec fast_float_strtod zl ps R O range Hr), (zzlLastInRange_spec fast_float_strtod zl ps R O range Hr).
    by rewrite first_of_pair, last_of_pair by (by apply closed_gte || by apply closed_lte).
  - intros Hs range. rewrite (zzlFirstInLexRange_spec fast_float_strtod fresh zl ps R O Hs range), (zzlLastInLexRange_spec fast_float_strtod fresh zl ps R O Hs range).
    by rewrite first_of_pair, last_of_pair by (by apply closed_lgte || by apply closed_llte).
Qed.

(** C27: A pair appended to a listpack is read back as the element and the score,
    whether the element looks like a number and whether the score is an integer,
    a fraction or an infinity; only the sign of a zero is lost. *)
Theorem zzl_pair_roundtrip zl ps e s :
  lp_rep zl (flat ps) -> is_double s -> isnan s = false -> bytes_ok e -> off (flat ps) + zlen e + 53 <= UINT32_MAX ->
  exists zl' eptr sptr s', zzlInsertAt fpconv_dtoa usable fresh zl None e s = Some (Some zl')
    /\ lpSeek zl' (-2) = Some (Some eptr) /\ lpNext zl' eptr = Some (Some sptr) /\ lpNext zl' sptr = Some None
    /\ lpGetObject fresh zl' eptr = Some e /\ zzlGetScore fast_float_strtod zl' sptr = Some s' /\ is_double s' /\ dsame s' s.
Proof.
  intros R Hd Hn He Hsz. rewrite <-(app_nil_r ps) in R, Hsz.
  destruct (zzlInsertAt_spec fast_float_strtod fpconv_dtoa usable fresh Husable zl ps [] e s R Hd Hn He Hsz) as (v & zl' & Hi & Hv & _ & R').
  set (q := (canon (val_of e), canon v)) in *. exists zl', (off (flat ps)), (off (flat ps ++ [q.1])), (stored s). split; [done|].
  destruct (seek_ends zl' _ R') as (_ & _ & -> & _). rewrite last_snoc, removelast_last. split; [done|].
  rewrite (next_of_ele zl' ps q [] R'), (next_of_score zl' ps q [] R'), (getObject_spec fast_float_strtod fresh zl' ps q [] R').
  rewrite (getScore_spec fast_float_strtod zl' ps q [] R'). unfold ZzlSpec.item. cbn [zn_ele zn_score q fst snd canon e_val].
  rewrite text_val_of, Hv. split_and!; try done; [by apply stored_valid|apply stored_norm].
Qed.

End listpack.

(** ** Instances *)

Lemma sample_limits : limits 3 8.
Proof. split; vm_compute; done. Qed.

Definition half : double := S754_finite false 4503599627370496 (-53).
Definition levels : list Z := repeat (2 ^ 30) 8.

(** An integer, a fraction and a zero with a sign in a listpack, an increment,
    an element over the limit that makes it a skiplist, the deletion of that
    element, and the conversions. *)
Definition object_ops : list (dictResizeEnable * oop) :=
  (fun o => (DICT_RESIZE_ENABLE, o)) <$>
  [OZ (ZAdd (ll2d 3) (str "c") 0 levels); OZ (ZAdd half (str "12") 0 levels); OZ (ZAdd (S754_zero true) (str "z") 0 levels);
   OZ (ZRank (str "12") false); OZ (ZAdd (ll2d 2) (str "c") ZADD_IN_INCR levels); OZ (ZScore (str "z"));
   OZ (ZAdd (S754_infinity false) (str "infinitely") 0 levels); OZ (ZRank (str "z") true); OZ (ZScore (str "12"));
   OZ (ZRemRange (ZRANGE_SCORE (mkRange (ll2d 6) (S754_infinity false) false false)));
   OToListpack 8 100; OZ (ZDel (str "12")); OZ ZCard; OMaybeConvert 100 levels; OZ (ZRemRange (ZRANGE_RANK 0 0))].
Definition object_res : list (option zres) :=
  [Some (RAdd (mkZadd 1 4 (Some (ll2d 3)))); Some (RAdd (mkZadd 1 4 (Some half))); Some (RAdd (mkZadd 1 4 (Some (ll2d 0))));
   Some (RRank 1 (Some half)); Some (RAdd (mkZadd 1 8 (Some (ll2d 5)))); Some (RScore (Some (ll2d 0)));
   Some (RAdd (mkZadd 1 4 (Some (S754_infinity false)))); Some (RRank 3 (Some (ll2d 0))); Some (RScore (Some half));
   Some (RRem 1 false); None; Some (RDel true); Some (RCard 2); None; Some (RRem 1 false)].

(** The conditions on the operations, decided. *)
Definition range_okb (M : gmap sds double) (range : zrange) : bool :=
  match range with
  | ZRANGE_RANK _ _ => Z.of_nat (size M) <? 2 ^ 32
  | ZRANGE_SCORE range => negb (isnan (r_min range)) && negb (isnan (r_max range))
  | ZRANGE_LEX _ => let l := (map_to_list M).*2 in forallb (fun s => forallb (fun t => s ==. t) l) l
  end.
Definition oop_okb (M : gmap sds double) (o : oop) : bool :=
  match o with
  | OZ (ZAdd s e _ rnd) => valid_binary 53 1024 s && forallb (fun b => bool_decide (is_byte b)) e && enough (S (size M)) rnd
  | OZ (ZRank _ _) => negb (size M =? 0)%nat
  | OZ (ZRemRange range) => range_okb M range
  | OZ _ => true
  | OMaybeConvert size_hint rnd => (0 <=? size_hint) && (size_hint <? 2 ^ 64) && enough (size M) rnd
  | OToListpack maxelelen _ => forallb (fun p => zlen p.1 <=? maxelelen) (map_to_list M)
  end.
Fixpoint oops_okb (M : gmap sds double) (os : list (dictResizeEnable * oop)) : bool :=
  match os with
  | [] => true
  | (_, o) :: os => oop_okb M o && oops_okb (ospec o M).2 os
  end.

Lemma range_okb_sound M range : range_okb M range = true -> range_ok M range.
Proof.
  destruct range as [a b|range|range]; cbn [range_okb range_ok].
  - apply Z.ltb_lt.
  - unfold range_num. rewrite andb_true_iff, !negb_true_iff. done.
  - intros Hf e1 s1 e2 s2 H1 H2. rewrite forallb_forall in Hf. apply elem_of_map_to_list, (list_elem_of_fmap_2 snd), list_elem_of_In in H1, H2.
    specialize (Hf s1 H1). rewrite forallb_forall in Hf. by apply Hf.
Qed.

Lemma oop_okb_sound M o : oop_okb M o = true -> oop_ok M o.
Proof.
  destruct o as [[s e f rnd|e|e|e rev| |range]|sz rnd|a b]; cbn [oop_okb oop_ok]; try done.
  - rewrite !andb_true_iff. intros [[Hs He] Hr]. split_and!; [done| |done]. apply Forall_forall. intros b Hb.
    rewrite forallb_forall in He. apply (bool_decide_unpack _). rewrite He; [done|]. by apply list_elem_of_In.
  - rewrite negb_true_iff, Nat.eqb_neq. intros Hn ->. by apply Hn.
  - apply range_okb_sound.
  - rewrite !andb_true_iff, Z.leb_le, Z.ltb_lt. tauto.
  - intros Hf e s He. rewrite forallb_forall in Hf. apply elem_of_map_to_list, list_elem_of_In in He. by apply Z.leb_le, (Hf _ He).
Qed.

Lemma oops_okb_sound M os : oops_okb M os = true -> oops_ok M os.
Proof.
  revert M. induction os as [|[mode o] os IH]; intros M; cbn [oops_okb oops_ok]; [done|]. rewrite andb_true_iff.
  intros [Ho Hos]. auto using oop_okb_sound.
Qed.

Lemma object_ops_ok : oops_ok ∅ object_ops.
Proof. apply oops_okb_sound. vm_compute. reflexivity. Qed.

Lemma zobj_refines_map_witness :
  exists st rs h o M, zsetTypeCreate sample_hash DICT_RESIZE_ENABLE sample_malloc sample_junk round8 zeroes 3 8 ∅ 0 0 = Some st
    /\ orun sample_hash 1%positive sample_malloc sample_junk sample_strtod sample_dtoa round8 zeroes 3 8 object_ops st = Some (rs, (h, o))
    /\ norm_out <$> rs = object_res
    /\ orep sample_hash sample_strtod 3 8 h o M /\ meq M (ospec_run object_ops ∅).2.
Proof.
  assert (Hr : norm_out <$> (ospec_run object_ops ∅).1 = object_res) by (vm_compute; reflexivity).
  rewrite <-Hr.
  apply (zobj_refines_map sample_hash sample_hash_range 1%positive sample_malloc sample_junk sample_malloc_fresh
           sample_strtod sample_dtoa round8 zeroes round8_ge 3 8 sample_limits DICT_RESIZE_ENABLE 0 0 object_ops).
  - lia.
  - exact object_ops_ok.
  - vm_compute. reflexivity.
Defined.

Lemma zobj_typed_witness :
  exists st rs h o M, zsetTypeCreate sample_hash DICT_RESIZE_ENABLE sample_malloc sample_junk round8 zeroes 3 8 ∅ 100 0 = Some st
    /\ orun sample_hash 1%positive sample_malloc sample_junk sample_strtod sample_dtoa round8 zeroes 3 8 object_ops st = Some (rs, (h, o))
    /\ orep sample_hash sample_strtod 3 8 h o M /\ forall e s, M !! e = Some s -> bytes_ok e /\ is_double s /\ isnan s = false.
Proof.
  apply (zobj_typed sample_hash sample_hash_range 1%positive sample_malloc sample_junk sample_malloc_fresh
           sample_strtod sample_dtoa round8 zeroes round8_ge 3 8 sample_limits DICT_RESIZE_ENABLE 100 0 object_ops).
  - lia.
  - exact object_ops_ok.
  - vm_compute. reflexivity.
Defined.

Lemma sample_limits' : limits 128 64.
Proof. split; vm_compute; done. Qed.

(** The sorted set of the skiplist theorems, under the default limits. *)
Lemma zobj_convert_roundtrip_witness :
  exists zl h' zs' rnd' M', zsetConvert sample_hash DICT_RESIZE_ENABLE 1%positive sample_malloc sample_junk sample_strtod sample_dtoa round8 zeroes
      (built sample_ops).1 (ENC_SKIPLIST (built sample_ops).2) OBJ_ENCODING_LISTPACK levels = Some (∅, ENC_LISTPACK zl, levels)
    /\ orep sample_hash sample_strtod 128 64 ∅ (ENC_LISTPACK zl) M'
    /\ zsetConvert sample_hash DICT_RESIZE_ENABLE 1%positive sample_malloc sample_junk sample_strtod sample_dtoa round8 zeroes
         ∅ (ENC_LISTPACK zl) OBJ_ENCODING_SKIPLIST levels = Some (h', ENC_SKIPLIST zs', rnd')
    /\ orep sample_hash sample_strtod 128 64 h' (ENC_SKIPLIST zs') M' /\ meq M' (members sample_nodes).
Proof.
  apply (zobj_convert_roundtrip sample_hash sample_hash_range 1%positive sample_malloc sample_junk sample_malloc_fresh
           sample_strtod sample_dtoa round8 zeroes round8_ge 128 64 sample_limits').
  - exists sample_nodes. split; [exact sample_zrep|reflexivity].
  - intros e s He. apply elem_of_list_to_map_2, list_elem_of_fmap in He as (a & [= -> ->] & Ha).
    assert (H : Forall (fun a => small 64 (zn_ele a) (zn_score a)) sample_nodes) by (repeat constructor; done).
    rewrite Forall_forall in H. exact (H a Ha).
  - vm_compute. discriminate.
  - vm_compute. reflexivity.
Defined.

(** Three pairs: an element that looks like a number, two of the same score. *)
Definition sample_pairs : list (entry * entry) :=
  [(canon (EInt 12), canon (EStr (sample_dtoa half))); (canon (EStr (str "b")), canon (EInt 3)); (canon (EStr (str "c")), canon (EInt 3))].
Definition sample_zl : list Z := mk_lp (flat sample_pairs).

Lemma sample_zl_rep : lp_rep sample_zl (flat sample_pairs).
Proof.
  apply (mk_lp_rep [EInt 12; EStr (sample_dtoa half); EStr (str "b"); EInt 3; EStr (str "c"); EInt 3]);
    [apply (bool_decide_unpack _)|apply Z.ltb_lt|apply Z.ltb_lt]; by vm_compute.
Qed.

Lemma sample_zl_ordered : ordered (item sample_strtod <$> sample_pairs).
Proof.
  split.
  - repeat constructor; apply kltb_spec; vm_compute; reflexivity.
  - intros a Ha. assert (H : Forall (fun a => knum (zn_key a)) (item sample_strtod <$> sample_pairs)) by (repeat constructor).
    rewrite Forall_forall in H. exact (H a Ha).
Qed.

(** Scores above one half and up to three: the second pair to the third. *)
Lemma zzlRange_ends_witness :
  zzlFirstInRange sample_strtod sample_zl (mkRange half (ll2d 3) true false) = Some (Some (off (flat (take 1 sample_pairs))))
  /\ zzlLastInRange sample_strtod sample_zl (mkRange half (ll2d 3) true false) = Some (Some (off (flat (take 2 sample_pairs)))).
Proof.
  destruct (zzlRange_ends sample_strtod zeroes sample_zl sample_pairs sample_zl_rep sample_zl_ordered) as [H _].
  destruct (H (mkRange half (ll2d 3) true false)) as [-> ->]; [split; reflexivity|]. split; vm_compute; reflexivity.
Defined.

(** A negative infinity, and an element of digits. *)
Lemma zzl_pair_roundtrip_witness :
  exists zl' eptr sptr s', zzlInsertAt sample_dtoa round8 zeroes sample_zl None (str "77") (S754_infinity true) = Some (Some zl')
    /\ lpSeek zl' (-2) = Some (Some eptr) /\ lpNext zl' eptr = Some (Some sptr) /\ lpNext zl' sptr = Some None
    /\ lpGetObject zeroes zl' eptr = Some (str "77") /\ zzlGetScore sample_strtod zl' sptr = Some s' /\ is_double s'
    /\ dsame s' (S754_infinity true).
Proof.
  apply (zzl_pair_roundtrip sample_strtod sample_dtoa round8 zeroes round8_ge sample_zl sample_pairs).
  - exact sample_zl_rep.
  - reflexivity.
  - reflexivity.
  - repeat constructor; discriminate.
  - vm_compute. discriminate.
Defined.
